(* ===== verification/_CoqProject ===== *)
-Q . S2P
Prelude.v
Allocator.v
TreePassStatus.v
TreePassState.v
TreePass.v
TreePassInv.v
TreePassWriteback.v
TreePassGet.v
TreePassSync.v
TreePassSpec.v
TreePassEvict.v
TreePassLocks.v
TreePassTheorems.v
RcAllocator.v
AllocatorInterface.v
RcAllocatorFacts.v
RcAllocatorTheorems.v
MiniAllocator.v
MiniAllocatorFacts.v
MiniAllocatorTheorems.v
Bytes.v
DataInternal.v
Iterator.v
BtreeNode.v
NodeLayout.v
BtreeLeaf.v
LeafMap.v
BtreeSplit.v
BtreeIndex.v
BtreePivot.v
BtreePivotFacts.v
Btree.v
BtreeTree.v
BtreeWorld.v
BtreeInsertLeaf.v
BtreeInsertTree.v
BtreePrepare.v
BtreeZoom.v
BtreeInsertLoop.v
BtreeLookup.v
BtreeExample.v
BtreeTheorems.v
BtreePivotTheorems.v
BtreeNodeTheorems.v
Merge.v
MergeOrder.v
MergeStep.v
MergeRun.v
MergeMap.v
MergeTheorems.v
PackedArray.v
RadixSort.v
RoutingFilter.v
RoutingAdd.v
RoutingRepr.v
RoutingLookup.v
RoutingMerge.v
RoutingWrite.v
RoutingRun.v
RoutingTheorems.v
BatchRwlock.v
Memtable.v
MemtableInv.v
MemtableFrame.v
MemtableInsert.v
MemtableFlush.v
MemtableRecycle.v
MemtableLookup.v
MemtableTheorems.v
Trunk.v
TrunkInv.v
TrunkNode.v
TrunkSplit.v
TrunkFlush.v
TrunkRoot.v
TrunkLookup.v
TrunkLookupRun.v
TrunkCollect.v
TrunkApply.v
TrunkTheorems.v
