(* ===== verification/Prelude.v ===== *)
(** * TreePass: a verification development

    TreePass is the cache of an extended SplinterDB: a page cache whose
    replacement policy follows the paths of lookups down the trees of the store.
    The code is under src/splinterdb/src; the names below are its files and
    functions.  Each definition here is translated from the lines PROJECT.json
    gives for it, and keeps the code's name.

    ** The program and its model

    The store keeps key-value pairs in B-trees (btree.c) whose nodes are pages.
    A page is got from the cache (treepass.c), which keeps copies of disk pages in
    an array of entries; the addresses come from a mini allocator
    (mini_allocator.c) that hands out the pages of extents, and the extents from
    an allocator with reference counts (rc_allocator.c).  An insertion goes to a
    memtable (memtable.c), a B-tree; full memtables become branches, which the trunk
    (trunk.c) indexes: a tree of nodes, each with bundles of branches behind a filter
    (routing_filter.c), written anew along the paths that change.

    - Machine integers are [Z] with their wrap ([u8] to [u64], this file).
      Stateful code is a function of a state into [outcome]: a result with the
      new state, a failed [platform_assert] ([Assert]), undefined behaviour
      ([Undef]), a wait that only another thread ends ([Block]), or [Fuel] when a
      loop was given too few steps; the monad [M] and its notation are below.
    - Cache: TreePassStatus (the status word), TreePassState (the state of
      treepass.h and the device), TreePass (the operations), TreePassLocks (the
      page lock, one step per atomic access, for any number of threads: readers,
      claims, write locks, evictions, discards, and what needs no lock).  The
      other TreePass files are the invariant and its preservation, a file per
      group of operations; TreePassSpec is what the cache promises, a flat memory
      of pages; TreePassEvict is the CLOCK policy; TreePassTheorems has the theorems.
    - Extents: Allocator (configuration), RcAllocator, RcAllocatorFacts,
      RcAllocatorTheorems.
    - Pages of extents: AllocatorInterface is what an extent allocator promises,
      as a class; MiniAllocator and its files are proved against it, and
      RcAllocatorFacts shows that rc_allocator.c keeps it.
    - Keys, messages and the bytes of tuples: Bytes, DataInternal
      (data_internal.h, data.h, slice_lex_cmp of util.h).  The comparison and the merge callbacks are the application's: fields of
      [data_config], with the class [key_order] for what the comparison must be.
    - Nodes: BtreeNode (btree.c up to the splits, btree_private.h).  NodeLayout
      says which list of slots the bytes of a node represent; BtreeLeaf, LeafMap,
      BtreeSplit and BtreeIndex are the operations on that list.
    - Pivot tracking: BtreePivot (the metadata byte of a pivot, its atomic
      operations as steps of threads, the warm or cold decision),
      BtreePivotFacts, BtreePivotTheorems.
    - Trees: Btree (btree_insert, btree_lookup, btree_lookup_and_merge and what
      they call).  Its state has the nodes by address, what the thread holds of
      each page, and, as sequences of outcomes, what the rest of the system
      does: whether each claim and each allocation of memory succeeds, what
      pivot tracking sees.  BtreeTree says which tuples a tree holds, BtreeWorld
      has the runs of the primitives and the class [node_source_laws] of what the
      tree needs of its allocator, BtreeInsertLeaf to BtreeInsertLoop the
      insertion from the leaf up to the loop, BtreeLookup the lookup.
      BtreeExample is a tree to evaluate.
    - Merging: Iterator is the table of iterator operations as a class, with what a
      traversal yields; Merge is merge.c; MergeOrder has the order, the array of
      iterators and the merge of lists it should yield, MergeStep a step, MergeRun and
      MergeMap that the iterator does it.
    - Filters: PackedArray (PackedArray.c), RadixSort, RoutingFilter
      (routing_filter.h, the lookup of routing_filter.c) and RoutingAdd
      (routing_filter_add).  RoutingRepr is the encoding of buckets and which entries
      the pages of a filter represent, RoutingLookup the lookup and the reading of an
      old filter; RoutingMerge, RoutingWrite and RoutingRun the add, from the loop that
      merges old and new fingerprints up to the whole.
    - Memtables: BatchRwlock (the lock of a batch, one step per atomic access) and
      Memtable (memtable.c and the functions of core.c on memtables), a transition
      system of any number of threads: rotation, compaction and its hand-over,
      incorporation, recycling, lookups and range iterators.  MemtableInv is the
      invariant, MemtableFrame what a step of one thread leaves of the others, and
      MemtableInsert, MemtableFlush, MemtableRecycle and MemtableLookup its
      preservation by the steps of each kind.
    - Trunk: Trunk (the nodes, on pages and in memory, splits, flushes and
      incorporation, in a monad with the platform's status as error) and TrunkLookup
      (lookups and the branches of a range).  TrunkInv says which branches are on the
      path of a key in a tree of nodes, and has the calculus of runs with enough fuel;
      TrunkNode, TrunkSplit, TrunkFlush and TrunkRoot follow an incorporation from the
      reading of a node up to the new root, TrunkLookupRun and TrunkCollect the queries;
      TrunkApply is how the trunk is rewritten when a compaction has finished.  Two classes are its interfaces: [branch_source] is what it needs of
      a branch, which the B-trees give, and [bundle_inv] what is asked of the filter of
      a bundle.

    ** What the theorems show

    - TreePassTheorems: whatever a client does and however the cache evicts and
      writes back, it reads what was last written (the cache refines a flat
      memory); the status word's fields do not disturb each other; the write
      lock excludes readers and writers in every interleaving, evictions that hold a
      read lock of an entry freed since included; what an eviction
      attempt, a CLOCK pass and repeated passes do, and when the check for
      references before a sweep fails.
    - RcAllocatorTheorems and MiniAllocatorTheorems: extents are handed out once,
      counts and persistence, the life of a mini allocator.
    - BtreeTheorems: an insertion returns, and the tree maps the key to the
      merged message and every other key to what it was mapped to; lookups find
      what the tree maps; insertions then lookups; the merging lookup; an error
      path that keeps a claim.
    - BtreeNodeTheorems: incorporation in a leaf, where leaves and index nodes
      are split, the searches against a rank, the round trip of tuples.
    - BtreePivotTheorems: the classification against a reference, and
      linearizability and progress of the operations on a pivot's byte.
    - MergeTheorems: over any iterators the merge yields the merged tuples in order,
      in both directions; it is the map that overlays the sources by age.
    - RoutingTheorems: a lookup finds the values of the entries of a key's
      fingerprint and no others; an add keeps what was found and adds its values;
      packed arrays, the sort, the loop over values, the counters of index entries.
    - MemtableTheorems: in any interleaving no assertion fails; no memtable is forgotten
      by the hand-over of incorporations; a thread that cannot go on waits for one that
      can, and locks are let go of in a bounded number of steps; memtables are
      incorporated in order; iterators keep theirs, and the last to let go recycles them;
      what the shutdown's assertion needs;
      the lock refines the state machine that replaces it in the protocol.
    - TrunkTheorems: an incorporation puts its branch first on the path of every key and
      keeps the others in their order, whatever splits and flushes it takes and wherever
      it fails for want of a page; lookups merge the branches on the path of their key;
      the two composed; applying a compaction, if the pivot counts what it takes off and
      the new filter is one for the new branches, puts these in the place of those it
      merged and leaves every lookup as it was; a range query gets the branches of every key of its range, with
      their references, but for the error path on which it loses count.

    ** Bounds and fuel

    The tree theorems are for pages of 4096 bytes to 64 KiB, keys of at most a
    twentieth of a page (an insertion refuses keys over an eighth; between the
    two a first pivot may not fit a node that was just split, which the code
    asserts), merged messages of at most the inline limit, and heights below 8,
    counting one more level for each attempt that fails.  An attempt allocates at
    most 8 nodes, and the allocator must have that many for each attempt.  The
    fuel of the insertion is the number of attempts: one more than the claims
    that will fail is enough, and the theorem says that it returns.  The searches
    and scans have the number of entries as fuel, the sweeps of the cache the
    number of its pages.  A merge has the number of tuples and one more.

    The theorems on the page lock are for one residency of a page: from when it is in
    place until its entry, freed, is taken for another, with threads that may come into
    it from before.  They need no bound on the counter of the status word, which a race
    can carry into unused bits.

    The memtable theorems are for runs shorter than 2^62 steps, which the 64-bit
    generations outlast.  The locks of batches are replaced by their state machine
    there, and a section under the incorporation mutex is excluded by [in_mutex].

    The trunk theorems say that there is a fuel which is enough, and that the result is
    the same for every larger one: a flush is a recursion on the height.  They are for a
    fanout of at least 2, pages that are fresh and aligned, branches on a path that have
    less than 2^32 tuples and bytes together, which the code adds up in 32 bits, and
    pivots for a split of a leaf that increase strictly inside its range, which the code
    takes from samples of the branches and does not check.  Bundles with a filter
    have at most 31 branches, the most that routing_filter_add tells apart.

    The filter theorems are for indices of 2^6 to 2^16 buckets, fingerprints that
    fit 32 bits with their values, values below 64 added in increasing width, and
    blocks that fit a page and the encoding buffer, which the code does not check.
    The scans of an encoding have the length of the page as fuel, the loop of an
    index the number of its fingerprints and one more.  The pages an add takes are
    those the store lists; that they are fresh is a hypothesis.

    ** Not modelled

    Of the trunk: the tasks that merge the branches of bundles and build their filters
    (what they pass on to be applied is an argument), the counts
    of references on nodes and their collection, the placement of nodes on pages (a node
    is written as a whole), the asynchronous lookup, statistics and printing; the
    branches of the pivots and the estimates of a leaf's keys are parameters.  The
    rest of the core, the log, tasks and the public interface; of routing_filter.c the asynchronous lookup, prefetching and the estimates; of
    btree.c iterators, bulk loading, range counts and the asynchronous lookups; of the cache its statistics, printing
    and configuration.  The tree operations are those of one thread: what other
    threads do is in the outcomes of claims and in what pivot tracking sees, and
    they are not taken to change nodes in between.  Memory orders are those of
    the operations on one location.  Timing, sleeping and back-off change
    nothing and are left out. *)
From Stdlib Require Export ZArith Lia.
From stdpp Require Export base list gmap option numbers.

#[export] Set Default Goal Selector "!".
Open Scope Z_scope.

(** ** Machine integers

    Unsigned C integers are [Z] values in range; arithmetic that can leave the
    range is followed by the wrap of its width. *)

Definition u8 (z : Z) : Z := z `mod` 2 ^ 8.
Definition u16 (z : Z) : Z := z `mod` 2 ^ 16.
Definition u32 (z : Z) : Z := z `mod` 2 ^ 32.
Definition u64 (z : Z) : Z := z `mod` 2 ^ 64.

(** Conversion of an integer to a signed type (two's complement, as gcc does). *)
Definition i32 (z : Z) : Z := (z + 2 ^ 31) `mod` 2 ^ 32 - 2 ^ 31.
Definition i64 (z : Z) : Z := (z + 2 ^ 63) `mod` 2 ^ 64 - 2 ^ 63.

Definition UINT8_MAX : Z := 2 ^ 8 - 1.
Definition UINT16_MAX : Z := 2 ^ 16 - 1.
Definition UINT32_MAX : Z := 2 ^ 32 - 1.
Definition UINT64_MAX : Z := 2 ^ 64 - 1.
Definition INT64_MAX : Z := 2 ^ 63 - 1.

Lemma u8_small z : 0 ≤ z < 2 ^ 8 → u8 z = z.
Proof. apply Z.mod_small. Qed.
Lemma u16_small z : 0 ≤ z < 2 ^ 16 → u16 z = z.
Proof. apply Z.mod_small. Qed.
Lemma u32_small z : 0 ≤ z < 2 ^ 32 → u32 z = z.
Proof. apply Z.mod_small. Qed.
Lemma u64_small z : 0 ≤ z < 2 ^ 64 → u64 z = z.
Proof. apply Z.mod_small. Qed.
Lemma u16_range z : 0 ≤ u16 z < 2 ^ 16.
Proof. by apply Z.mod_pos_bound. Qed.
Lemma u32_range z : 0 ≤ u32 z < 2 ^ 32.
Proof. by apply Z.mod_pos_bound. Qed.
Lemma u64_range z : 0 ≤ u64 z < 2 ^ 64.
Proof. by apply Z.mod_pos_bound. Qed.
Lemma i64_small z : - 2 ^ 63 ≤ z < 2 ^ 63 → i64 z = z.
Proof. intros H. unfold i64. rewrite Z.mod_small; lia. Qed.
Lemma i32_small z : - 2 ^ 31 ≤ z < 2 ^ 31 → i32 z = z.
Proof. intros H. unfold i32. rewrite Z.mod_small; lia. Qed.

(** ** Status codes ([platform_status], platform_types.h) *)
Inductive platform_status : Type :=
| STATUS_OK
| STATUS_NO_MEMORY
| STATUS_BUSY
| STATUS_NO_SPACE
| STATUS_BAD_PARAM
| STATUS_NOT_FOUND
| STATUS_IO_ERROR.

#[export] Instance platform_status_eq_dec : EqDecision platform_status.
Proof. solve_decision. Defined.

Definition SUCCESS (rc : platform_status) : bool := bool_decide (rc = STATUS_OK).

(** ** Outcomes and the state monad

    A C function over a state [S] is a map from [S] to an outcome:
    - [Ret (a, s)]: it returns [a] in state [s];
    - [Assert]: a [platform_assert] fails and the process aborts;
    - [Undef]: it has undefined behaviour (an array index out of range, ...);
    - [Block]: a wait loop whose condition only another thread can change;
    - [Fuel]: the fuel of a loop ran out. *)
Inductive outcome (A : Type) : Type :=
| Ret (a : A)
| Assert
| Undef
| Block
| Fuel.
Arguments Ret {A} a.
Arguments Assert {A}.
Arguments Undef {A}.
Arguments Block {A}.
Arguments Fuel {A}.

Definition M (S A : Type) : Type := S → outcome (A * S).

#[export] Instance M_ret S : MRet (M S) := λ A a s, Ret (a, s).
#[export] Instance M_bind S : MBind (M S) := λ A B f m s,
  match m s with
  | Ret (a, s') => f a s'
  | Assert => Assert
  | Undef => Undef
  | Block => Block
  | Fuel => Fuel
  end.

Definition mget {S} : M S S := λ s, Ret (s, s).
Definition mput {S} (s : S) : M S unit := λ _, Ret (tt, s).
Definition mmod {S} (f : S → S) : M S unit := λ s, Ret (tt, f s).
Definition mread {S A} (f : S → A) : M S A := λ s, Ret (f s, s).
(** [platform_assert(b)] *)
Definition massert {S} (b : bool) : M S unit := λ s, if b then Ret (tt, s) else Assert.
(** The value of an access that is defined only when it is in range. *)
Definition mopt {S A} (o : option A) : M S A :=
  λ s, match o with Some a => Ret (a, s) | None => Undef end.
Definition mblock {S A} : M S A := λ _, Block.
Definition mfuel {S A} : M S A := λ _, Fuel.
Definition mwhen {S} (b : bool) (m : M S unit) : M S unit := if b then m else mret tt.

(** [for (i = first; i < first + n; i++) body] *)
Fixpoint mfor {S} (n : nat) (first : Z) (body : Z → M S unit) : M S unit :=
  match n with
  | O => mret tt
  | S n' => body first;; mfor n' (first + 1) body
  end.

(** ** Inversion of monadic runs *)
Lemma bind_Ret {S A B} (m : M S A) (f : A → M S B) s b s' :
  (m ≫= f) s = Ret (b, s') ↔ ∃ a s1, m s = Ret (a, s1) ∧ f a s1 = Ret (b, s').
Proof.
  unfold mbind, M_bind. split.
  - destruct (m s) as [[a s1]| | | |] eqn:E; try done. eauto.
  - intros (a & s1 & -> & ?). done.
Qed.

Lemma bind_run {S A B} (m : M S A) (f : A → M S B) s a s1 :
  m s = Ret (a, s1) → (m ≫= f) s = f a s1.
Proof. unfold mbind, M_bind. by intros ->. Qed.

(** The primitives at the head of a run. *)
Lemma run_ret {S A B} (a : A) (f : A → M S B) s : (mret a ≫= f) s = f a s.
Proof. done. Qed.
Lemma run_get {S B} (f : S → M S B) s : (mget ≫= f) s = f s s.
Proof. done. Qed.
Lemma run_put {S B} (t : S) (f : unit → M S B) s : (mput t ≫= f) s = f tt t.
Proof. done. Qed.
Lemma run_mod {S B} (g : S → S) (f : unit → M S B) s : (mmod g ≫= f) s = f tt (g s).
Proof. done. Qed.
Lemma run_opt {S A B} (o : option A) (f : A → M S B) s a : o = Some a → (mopt o ≫= f) s = f a s.
Proof. by intros ->. Qed.
Lemma run_assert {S B} b (f : unit → M S B) s : b = true → (massert b ≫= f) s = f tt s.
Proof. by intros ->. Qed.

Lemma ret_Ret {S A} (a b : A) (s s' : S) :
  (mret a : M S A) s = Ret (b, s') → s' = s ∧ b = a.
Proof. unfold mret, M_ret. by intros [= -> ->]. Qed.
Lemma get_Ret {S} (s b s' : S) : mget s = Ret (b, s') → s' = s ∧ b = s.
Proof. unfold mget. by intros [= -> ->]. Qed.
Lemma put_Ret {S} (t s s' : S) b : mput t s = Ret (b, s') → s' = t ∧ b = tt.
Proof. unfold mput. by intros [= <- ->]. Qed.
Lemma mod_Ret {S} f (s s' : S) b : mmod f s = Ret (b, s') → s' = f s ∧ b = tt.
Proof. unfold mmod. by intros [= <- ->]. Qed.
Lemma read_Ret {S A} (f : S → A) (s s' : S) b : mread f s = Ret (b, s') → s' = s ∧ b = f s.
Proof. unfold mread. by intros [= -> ->]. Qed.
Lemma assert_Ret {S} c (s s' : S) b : massert c s = Ret (b, s') → s' = s ∧ b = tt ∧ c = true.
Proof. unfold massert. destruct c; [|done]. by intros [= -> ->]. Qed.
Lemma opt_Ret {S A} (o : option A) (s s' : S) b :
  mopt o s = Ret (b, s') → s' = s ∧ o = Some b.
Proof. unfold mopt. destruct o; [|done]. by intros [= -> ->]. Qed.

(** A run that returns, decided by evaluation without building the final state. *)
Definition returns {A} (o : outcome A) : bool := match o with Ret _ => true | _ => false end.
Lemma returns_Ret {A} (o : outcome A) : returns o = true → ∃ a, o = Ret a.
Proof. destruct o; try done. by eexists. Qed.

(** Substitute the result [x = a] of a run for [x]. *)
Ltac subst_result H :=
  lazymatch type of H with
  | ?x = ?a => first [ is_var x; subst x | simplify_eq H | idtac ]
  end.
Ltac inv_result H L :=
  apply L in H;
  let Hs := fresh in
  destruct H as [Hs H]; subst_result Hs.
Ltac inv_run1 :=
  match goal with
  | H : (_ ≫= _) _ = Ret (_, _) |- _ =>
      apply bind_Ret in H; destruct H as (? & ? & ? & H)
  | H : mret _ _ = Ret (_, _) |- _ => inv_result H @ret_Ret; subst_result H
  | H : mget _ = Ret (_, _) |- _ => inv_result H @get_Ret; subst_result H
  | H : mput _ _ = Ret (_, _) |- _ => inv_result H @put_Ret; subst_result H
  | H : mmod _ _ = Ret (_, _) |- _ => inv_result H @mod_Ret; subst_result H
  | H : mread _ _ = Ret (_, _) |- _ => inv_result H @read_Ret; subst_result H
  | H : mblock _ = Ret (_, _) |- _ => discriminate H
  | H : mfuel _ = Ret (_, _) |- _ => discriminate H
  | H : massert ?b _ = Ret (_, _) |- _ =>
      inv_result H @assert_Ret; let Hb := fresh in destruct H as [Hb H]; subst_result Hb
  | H : mopt ?o _ = Ret (_, _) |- _ => inv_result H @opt_Ret
  end.
(** Decompose every monadic run among the hypotheses. *)
Ltac inv_run := repeat inv_run1.

(** ** Predicates preserved by a program *)
Definition preserves {S A} (I : S → Prop) (m : M S A) : Prop :=
  ∀ s a s', I s → m s = Ret (a, s') → I s'.

Section preserves.
Context {S : Type} (I : S → Prop).

Lemma preserves_ret {A} (a : A) : preserves I (mret a).
Proof. intros s a' s' HI H. inv_run; done. Qed.
Lemma preserves_bind {A B} (m : M S A) (f : A → M S B) :
  preserves I m → (∀ a, preserves I (f a)) → preserves I (m ≫= f).
Proof. intros Hm Hf s a s' HI H. inv_run. eapply Hf; [|done]. by eapply Hm. Qed.
Lemma preserves_get : preserves I mget.
Proof. intros s a' s' HI H. inv_run; done. Qed.
Lemma preserves_read {A} (f : S → A) : preserves I (mread f).
Proof. intros s a' s' HI H. inv_run; done. Qed.
Lemma preserves_assert b : preserves I (massert b).
Proof. intros s a' s' HI H. inv_run; done. Qed.
Lemma preserves_opt {A} (o : option A) : preserves I (mopt o).
Proof. intros s a' s' HI H. inv_run; done. Qed.
Lemma preserves_block {A} : preserves I (mblock (A := A)).
Proof. intros s a' s' HI H. inv_run; done. Qed.
Lemma preserves_fuel {A} : preserves I (mfuel (A := A)).
Proof. intros s a' s' HI H. inv_run; done. Qed.
Lemma preserves_mod f : (∀ s, I s → I (f s)) → preserves I (mmod f).
Proof. intros Hf s a' s' HI H. inv_run. by apply Hf. Qed.
Lemma preserves_when b m : (b = true → preserves I m) → preserves I (mwhen b m).
Proof. intros Hm. destruct b; [by apply Hm|apply preserves_ret]. Qed.
Lemma preserves_if {A} (b : bool) (m1 m2 : M S A) :
  (b = true → preserves I m1) → (b = false → preserves I m2) →
  preserves I (if b then m1 else m2).
Proof. destruct b; auto. Qed.
Lemma preserves_for n first body :
  (∀ i, preserves I (body i)) → preserves I (mfor n first body).
Proof.
  intros Hb. revert first. induction n as [|n IH]; intros first; simpl.
  - apply preserves_ret.
  - apply preserves_bind; [apply Hb|]. intros _. apply IH.
Qed.
End preserves.

Create HintDb preserves.
#[export] Hint Resolve preserves_ret preserves_bind preserves_get preserves_read
  preserves_assert preserves_opt preserves_block preserves_fuel preserves_when preserves_if
  preserves_for : preserves.

(** [P] before a run that returns gives [Q] of the result after it. *)
Definition triple {S A} (P : S → Prop) (m : M S A) (Q : A → S → Prop) : Prop :=
  ∀ s a s', P s → m s = Ret (a, s') → Q a s'.

Lemma triple_bind {S A B} P (m : M S A) Q (f : A → M S B) R :
  triple P m Q → (∀ a, triple (Q a) (f a) R) → triple P (m ≫= f) R.
Proof. intros Hm Hf s b s' HP H. inv_run. eapply Hf; [|done]. by eapply Hm. Qed.

Lemma preserves_triple {S A} (I : S → Prop) (m : M S A) :
  preserves I m ↔ triple I m (λ _, I).
Proof. done. Qed.

Lemma triple_for {S} (P : Z → S → Prop) n first body :
  (∀ i, first ≤ i < first + Z.of_nat n → triple (P i) (body i) (λ _, P (i + 1))) →
  triple (P first) (mfor n first body) (λ _, P (first + Z.of_nat n)).
Proof.
  revert first. induction n as [|n IH]; intros first Hb s a s' HP H; simpl in H.
  - inv_run. by rewrite Z.add_0_r.
  - inv_run. replace (first + Z.of_nat (Datatypes.S n)) with (first + 1 + Z.of_nat n) by lia.
    eapply (IH (first + 1)); [|eapply Hb; [|exact HP|done]; lia|exact H].
    intros i Hi. apply Hb. lia.
Qed.

(** A loop whose every iteration returns, returns. *)
Lemma mfor_total {S} (P : Z → S → Prop) n first body s :
  (∀ i t, first ≤ i < first + Z.of_nat n → P i t →
     ∃ t', body i t = Ret (tt, t') ∧ P (i + 1) t') →
  P first s → ∃ s', mfor n first body s = Ret (tt, s') ∧ P (first + Z.of_nat n) s'.
Proof.
  revert first s. induction n as [|n IH]; intros first s Hb HP.
  - exists s. split; [done|]. by rewrite Z.add_0_r.
  - destruct (Hb first s ltac:(lia) HP) as (s1 & H1 & HP1).
    destruct (IH (first + 1) s1) as (s' & Hr & HP'); [|done|].
    { intros i t Hi. apply Hb. lia. }
    exists s'. cbn [mfor]. rewrite (bind_run _ _ _ _ _ H1). split; [done|].
    by replace (first + Z.of_nat (Datatypes.S n)) with (first + 1 + Z.of_nat n) by lia.
Qed.

(** Run the loop of the goal with the invariant [P]: the step, the start, the rest. *)
Ltac run_for P :=
  lazymatch goal with
  | |- context [mfor ?n ?i ?b ?s] =>
      let H := fresh "Hfor" in
      assert (∃ s', mfor n i b s = Ret (tt, s') ∧ P (i + Z.of_nat n) s') as H;
      [apply (mfor_total P)|]; cbv beta
  end.

Lemma triple_weaken {S A} P (m : M S A) Q (P' : S → Prop) (Q' : A → S → Prop) :
  triple P m Q → (∀ s, P' s → P s) → (∀ a s, Q a s → Q' a s) → triple P' m Q'.
Proof. intros Hm HP HQ s a s' Hs H. eapply HQ, Hm; [|done]. by apply HP. Qed.

(** ** Lists indexed by [Z], as C arrays are *)
Definition lookupZ {A} (l : list A) (i : Z) : option A :=
  if bool_decide (0 ≤ i) then l !! Z.to_nat i else None.
Definition insertZ {A} (i : Z) (x : A) (l : list A) : list A :=
  if bool_decide (0 ≤ i) then <[Z.to_nat i := x]> l else l.
Definition lengthZ {A} (l : list A) : Z := Z.of_nat (length l).

Section listZ.
Context {A : Type}.
Implicit Types (l : list A) (i j : Z) (x y : A).

Lemma lookupZ_Some l i x : lookupZ l i = Some x → 0 ≤ i < lengthZ l.
Proof.
  unfold lookupZ, lengthZ. case_bool_decide; [|done].
  intros ?%lookup_lt_Some. lia.
Qed.
Lemma lookupZ_is_Some l i : is_Some (lookupZ l i) ↔ 0 ≤ i < lengthZ l.
Proof.
  split.
  - intros [x ?]. by eapply lookupZ_Some.
  - intros ?. unfold lookupZ, lengthZ in *. rewrite bool_decide_true by lia.
    apply lookup_lt_is_Some. lia.
Qed.
Lemma lookupZ_None l i : lookupZ l i = None ↔ ¬ (0 ≤ i < lengthZ l).
Proof. rewrite <-lookupZ_is_Some, eq_None_not_Some. done. Qed.
Lemma lookupZ_nil i : lookupZ (@nil A) i = None.
Proof. unfold lookupZ. by case_bool_decide. Qed.
Lemma lookupZ_cons_0 l x : lookupZ (x :: l) 0 = Some x.
Proof. done. Qed.
Lemma lookupZ_cons_S l i x : 0 < i → lookupZ (x :: l) i = lookupZ l (i - 1).
Proof.
  intros ?. unfold lookupZ. rewrite !bool_decide_true by lia.
  by replace (Z.to_nat i) with (S (Z.to_nat (i - 1))) by lia.
Qed.
Lemma lookupZ_elem l i x : lookupZ l i = Some x → x ∈ l.
Proof. unfold lookupZ. case_bool_decide; [|done]. apply list_elem_of_lookup_2. Qed.
Lemma lookupZ_app_last l x : lookupZ (l ++ [x]) (lengthZ l) = Some x.
Proof.
  unfold lookupZ, lengthZ. rewrite bool_decide_true by lia. rewrite Nat2Z.id.
  rewrite lookup_app_r by lia. by rewrite Nat.sub_diag.
Qed.
Lemma lookupZ_app_ne l x i : i ≠ lengthZ l → lookupZ (l ++ [x]) i = lookupZ l i.
Proof.
  unfold lookupZ, lengthZ. intros ?. case_bool_decide; [|done].
  destruct (decide (Z.to_nat i < length l)%nat).
  - by rewrite lookup_app_l.
  - rewrite (lookup_ge_None_2 l), (lookup_ge_None_2 (l ++ [x])); [done|rewrite length_app; cbn; lia|lia].
Qed.
Lemma lengthZ_insertZ l i x : lengthZ (insertZ i x l) = lengthZ l.
Proof. unfold lengthZ, insertZ. case_bool_decide; [|done]. by rewrite length_insert. Qed.
Lemma lookupZ_insertZ_eq l i x :
  0 ≤ i < lengthZ l → lookupZ (insertZ i x l) i = Some x.
Proof.
  unfold lengthZ, insertZ, lookupZ. intros ?. rewrite !bool_decide_true by lia.
  apply list_lookup_insert_eq. lia.
Qed.
Lemma lookupZ_insertZ_ne l i j x :
  i ≠ j → lookupZ (insertZ i x l) j = lookupZ l j.
Proof.
  unfold insertZ, lookupZ. intros ?. repeat case_bool_decide; try done.
  apply list_lookup_insert_ne. lia.
Qed.
Lemma lookupZ_insertZ l i j x :
  lookupZ (insertZ i x l) j =
  if bool_decide (i = j ∧ 0 ≤ i < lengthZ l) then Some x else lookupZ l j.
Proof.
  case_bool_decide as H.
  - destruct H as [<- ?]. by apply lookupZ_insertZ_eq.
  - destruct (decide (i = j)) as [<-|]; [|by apply lookupZ_insertZ_ne].
    unfold insertZ. case_bool_decide; [|done].
    rewrite list_insert_ge; [done|]. unfold lengthZ in H. lia.
Qed.
Lemma insertZ_insertZ l i x y : insertZ i x (insertZ i y l) = insertZ i x l.
Proof. unfold insertZ. case_bool_decide; [|done]. by rewrite list_insert_insert_eq. Qed.
Lemma insertZ_id l i x : lookupZ l i = Some x → insertZ i x l = l.
Proof.
  unfold insertZ, lookupZ. case_bool_decide; [|done]. apply list_insert_id.
Qed.
Lemma lookupZ_replicate n x i y :
  lookupZ (replicate n x) i = Some y → y = x.
Proof.
  unfold lookupZ. case_bool_decide; [|done]. by intros [-> _]%lookup_replicate.
Qed.
Lemma lookupZ_replicate_lt n x i :
  0 ≤ i < Z.of_nat n → lookupZ (replicate n x) i = Some x.
Proof.
  intros ?. unfold lookupZ. rewrite bool_decide_true by lia.
  apply lookup_replicate. split; [done|lia].
Qed.
End listZ.

Lemma lengthZ_nonneg {A} (l : list A) : 0 ≤ lengthZ l.
Proof. unfold lengthZ. lia. Qed.
Lemma lengthZ_app {A} (l l' : list A) : lengthZ (l ++ l') = lengthZ l + lengthZ l'.
Proof. unfold lengthZ. rewrite length_app. lia. Qed.
Lemma lengthZ_nil {A} : lengthZ (@nil A) = 0.
Proof. done. Qed.
Lemma lengthZ_cons {A} x (l : list A) : lengthZ (x :: l) = 1 + lengthZ l.
Proof. unfold lengthZ. cbn. lia. Qed.
Lemma lengthZ_replicate {A} n (x : A) : lengthZ (replicate n x) = Z.of_nat n.
Proof. unfold lengthZ. by rewrite length_replicate. Qed.
Lemma lookupZ_eq {A} (l l' : list A) :
  (∀ i, 0 ≤ i → lookupZ l i = lookupZ l' i) → l = l'.
Proof.
  intros H. apply list_eq. intros i. specialize (H (Z.of_nat i) ltac:(lia)).
  unfold lookupZ in H. rewrite !bool_decide_true in H by lia. by rewrite Nat2Z.id in H.
Qed.
Lemma lookupZ_app {A} (l l' : list A) i :
  lookupZ (l ++ l') i = if bool_decide (i < lengthZ l) then lookupZ l i else lookupZ l' (i - lengthZ l).
Proof.
  unfold lookupZ, lengthZ. repeat case_bool_decide; try lia; try done.
  - by rewrite lookup_app_l by lia.
  - rewrite lookup_app_r by lia. f_equal. lia.
Qed.
Lemma lookupZ_take {A} (l : list A) n i :
  lookupZ (take n l) i = if bool_decide (i < Z.of_nat n) then lookupZ l i else None.
Proof.
  unfold lookupZ. repeat case_bool_decide; try done.
  - by rewrite lookup_take_lt by lia.
  - by rewrite lookup_take_ge by lia.
Qed.
Lemma lookupZ_drop {A} (l : list A) n i :
  0 ≤ i → lookupZ (drop n l) i = lookupZ l (Z.of_nat n + i).
Proof.
  intros ?. unfold lookupZ. rewrite !bool_decide_true by lia.
  rewrite lookup_drop. f_equal. lia.
Qed.
Lemma lookupZ_fmap {A B} (f : A → B) l i : lookupZ (f <$> l) i = f <$> lookupZ l i.
Proof. unfold lookupZ. case_bool_decide; [|done]. apply list_lookup_fmap. Qed.
Lemma lengthZ_fmap {A B} (f : A → B) l : lengthZ (f <$> l) = lengthZ l.
Proof. unfold lengthZ. by rewrite length_fmap. Qed.
Lemma Forall_lookupZ {A} (P : A → Prop) l : Forall P l ↔ ∀ i x, lookupZ l i = Some x → P x.
Proof.
  rewrite list.Forall_forall. split.
  - intros H i x Hi. apply H. by eapply lookupZ_elem.
  - intros H x [i Hi]%list_elem_of_lookup. apply (H (Z.of_nat i)).
    unfold lookupZ. rewrite bool_decide_true by lia. by rewrite Nat2Z.id.
Qed.
Lemma elem_lookupZ {A} (l : list A) x : x ∈ l ↔ ∃ i, lookupZ l i = Some x.
Proof.
  split; [|intros [i ?]; by eapply lookupZ_elem].
  intros [i Hi]%list_elem_of_lookup. exists (Z.of_nat i). unfold lookupZ.
  rewrite bool_decide_true by lia. by rewrite Nat2Z.id.
Qed.
Lemma Forall_insertZ {A} (P : A → Prop) l i x : P x → Forall P l → Forall P (insertZ i x l).
Proof.
  rewrite !Forall_lookupZ. intros Hx Hl j y. rewrite lookupZ_insertZ.
  case_bool_decide; [by intros [= <-]|apply Hl].
Qed.
Lemma lookupZ_middle {A} (l : list A) i x : lookupZ l i = Some x → ∃ l1 l2, l = l1 ++ x :: l2 ∧ lengthZ l1 = i.
Proof.
  intros Hi. pose proof (lookupZ_Some _ _ _ Hi) as Hb. unfold lookupZ in Hi. rewrite bool_decide_true in Hi by lia.
  exists (take (Z.to_nat i) l), (drop (S (Z.to_nat i)) l). split; [symmetry; by apply take_drop_middle|].
  unfold lengthZ in *. rewrite length_take. lia.
Qed.
Lemma lookupZ_at_length {A} (l1 l2 : list A) x : lookupZ (l1 ++ x :: l2) (lengthZ l1) = Some x.
Proof. rewrite lookupZ_app, bool_decide_false by lia. by rewrite Z.sub_diag, lookupZ_cons_0. Qed.
