(* ===== verification/Allocator.v ===== *)
(** * Page types, I/O and allocator configuration

    allocator.h / allocator.c (the configuration shared by the allocator and
    the cache) and the page types of the system. *)
From S2P Require Import Prelude.

(** [page_type] (allocator.h). *)
Inductive page_type : Type :=
| PAGE_TYPE_INVALID
| PAGE_TYPE_TRUNK
| PAGE_TYPE_BRANCH
| PAGE_TYPE_MEMTABLE
| PAGE_TYPE_FILTER
| PAGE_TYPE_LOG
| PAGE_TYPE_SUPERBLOCK
| PAGE_TYPE_MISC.

#[export] Instance page_type_eq_dec : EqDecision page_type.
Proof. solve_decision. Defined.

(** The values [PAGE_TYPE_FIRST .. NUM_PAGE_TYPES - 1] a loop over types visits. *)
Definition all_page_types : list page_type :=
  [PAGE_TYPE_TRUNK; PAGE_TYPE_BRANCH; PAGE_TYPE_MEMTABLE; PAGE_TYPE_FILTER;
   PAGE_TYPE_LOG; PAGE_TYPE_SUPERBLOCK; PAGE_TYPE_MISC].

Definition AL_NO_REFS : Z := 1.
Definition AL_FREE : Z := 0.

(** [io_config]: the two sizes the allocator and the cache read. *)
Record io_config := mk_io_config { page_size : Z; extent_size : Z }.

Record allocator_config := mk_allocator_config {
  io_cfg : io_config;
  capacity : Z;
  page_capacity : Z;
  extent_capacity : Z;
  extent_mask : Z;
}.

(** [63 - __builtin_clzll(x)]: the position of the highest set bit. *)
Definition log2_floor (x : Z) : Z := Z.log2 x.

Definition allocator_config_init (io : io_config) (cap : Z) : allocator_config :=
  mk_allocator_config io cap
    (cap / page_size io)
    (cap / extent_size io)
    (u64 (Z.lnot (u64 (Z.shiftl 1 (log2_floor (extent_size io)) - 1)))).

Definition allocator_config_extent_base_addr (cfg : allocator_config) (addr : Z) : Z :=
  Z.land addr (extent_mask cfg).

Definition allocator_config_pages_share_extent (cfg : allocator_config) (addr1 addr2 : Z) : bool :=
  allocator_config_extent_base_addr cfg addr1 =? allocator_config_extent_base_addr cfg addr2.

(** [ROUNDUP(x, y)] (platform_types.h), at 64 bits. *)
Definition ROUNDUP (x y : Z) : Z := u64 (u64 (u64 (x + y) - 1) / y * y).
Definition ROUNDDOWN (x y : Z) : Z := x / y * y.
