(* ===== verification/TreePassStatus.v ===== *)
(** * The status word of a cache entry

    treepass.c keeps six flags and a three-bit CLOCK counter in one 32-bit
    word, [treepass_entry->status], updated with atomic and/or/add.  This file
    holds the layout, the word-level effect of each atomic update and the
    lemmas on them that the cache files share. *)
From S2P Require Import Prelude.

Definition TP_FREE : Z := Z.shiftl 1 0.
Definition TP_CLEAN : Z := Z.shiftl 1 1.
Definition TP_WRITEBACK : Z := Z.shiftl 1 2.
Definition TP_LOADING : Z := Z.shiftl 1 3.
Definition TP_WRITELOCKED : Z := Z.shiftl 1 4.
Definition TP_CLAIMED : Z := Z.shiftl 1 5.

Definition TP_CLOCK_SHIFT : Z := 6.
Definition TP_CLOCK_BITS : Z := 3.
Definition TP_CLOCK_MASK : Z := Z.shiftl (Z.shiftl 1 TP_CLOCK_BITS - 1) TP_CLOCK_SHIFT.
Definition TP_CLOCK_ONE : Z := Z.shiftl 1 TP_CLOCK_SHIFT.
Definition TP_CLOCK_MAX : Z := Z.shiftl 1 TP_CLOCK_BITS - 1.

Definition TP_FREE_STATUS : Z := Z.lor 0 TP_FREE.
Definition TP_EVICTABLE_STATUS : Z := Z.lor 0 TP_CLEAN.
Definition TP_LOCKED_EVICTABLE_STATUS : Z :=
  Z.lor (Z.lor (Z.lor 0 TP_CLEAN) TP_CLAIMED) TP_WRITELOCKED.
Definition TP_ALLOC_STATUS : Z := Z.lor (Z.lor 0 TP_WRITELOCKED) TP_CLAIMED.
Definition TP_CLEANABLE_BASE_MASK : Z :=
  Z.lor (Z.lor (Z.lor (Z.lor (Z.lor TP_FREE TP_CLEAN) TP_WRITEBACK) TP_LOADING)
    TP_WRITELOCKED) TP_CLAIMED.
Definition TP_READ_LOADING_STATUS : Z := Z.lor (Z.lor 0 TP_CLEAN) TP_LOADING.

(** The word after each atomic update, and the value the C helper returns. *)
Definition status_test_flag (status flag : Z) : Z := Z.land flag status.
Definition status_set_flag (status flag : Z) : Z := Z.lor status flag.
Definition status_clear_flag (status flag : Z) : Z := Z.land status (u32 (Z.lnot flag)).
Definition status_get_clock (status : Z) : Z :=
  Z.land (Z.shiftr status TP_CLOCK_SHIFT) TP_CLOCK_MAX.
Definition status_set_clock (status value : Z) : Z :=
  let clamped := if TP_CLOCK_MAX <? value then TP_CLOCK_MAX else value in
  Z.lor (Z.land status (u32 (Z.lnot TP_CLOCK_MASK))) (Z.shiftl clamped TP_CLOCK_SHIFT).
Definition status_clock_accessed (status : Z) : Z :=
  if status_get_clock status <? TP_CLOCK_MAX then u32 (status + TP_CLOCK_ONE) else status.
Definition status_try_dec_clock (status : Z) : bool * Z :=
  if status_get_clock status =? 0 then (false, status)
  else (true, u32 (status - TP_CLOCK_ONE)).
Definition status_cleanable (status num_passes : Z) : bool :=
  (Z.land status TP_CLEANABLE_BASE_MASK =? 0) && negb (num_passes <? status_get_clock status).

(** Nonzero test of a C integer used as a condition. *)
Definition has_flag (status flag : Z) : bool := negb (status_test_flag status flag =? 0).

(** A word that uses only the nine bits the layout defines. *)
Definition status_wf (status : Z) : Prop := 0 ≤ status < 512.

(** The words in range, for proofs by evaluation over the whole layout. *)
Definition all_status : list Z := Z.of_nat <$> seq 0 512.

Lemma status_forall (P : Z → bool) :
  forallb P all_status = true → ∀ st, status_wf st → P st = true.
Proof.
  intros HP st [? ?]. rewrite forallb_forall in HP. apply HP.
  unfold all_status. apply list_elem_of_In, list_elem_of_fmap. exists (Z.to_nat st).
  split; [lia|]. apply elem_of_seq. lia.
Qed.

(** Solve a boolean fact about every status word by evaluating it on all. *)
Ltac status_eval H :=
  match goal with
  | |- ?b = true =>
      let T := type of H in
      match T with
      | status_wf ?st =>
          let p := eval pattern st in b in
          match p with
          | ?f _ =>
              change (f st = true);
              refine (status_forall f _ st H); vm_compute; reflexivity
          end
      end
  end.

Section laws.
Context (st : Z) (Hst : status_wf st).

Lemma get_clock_range : 0 ≤ status_get_clock st ≤ TP_CLOCK_MAX.
Proof.
  assert ((0 <=? status_get_clock st) && (status_get_clock st <=? TP_CLOCK_MAX) = true)
    as H by status_eval Hst. lia.
Qed.

Lemma clock_accessed_wf : status_wf (status_clock_accessed st).
Proof.
  assert ((0 <=? status_clock_accessed st) && (status_clock_accessed st <? 512) = true)
    as H by status_eval Hst. unfold status_wf. lia.
Qed.

Lemma clock_accessed_get :
  status_get_clock (status_clock_accessed st)
  = Z.min (status_get_clock st + 1) TP_CLOCK_MAX.
Proof. apply Z.eqb_eq. status_eval Hst. Qed.

Lemma try_dec_clock_wf : status_wf (status_try_dec_clock st).2.
Proof.
  assert ((0 <=? (status_try_dec_clock st).2) && ((status_try_dec_clock st).2 <? 512)
    = true) as H by status_eval Hst. unfold status_wf. lia.
Qed.

Lemma try_dec_clock_get :
  status_get_clock (status_try_dec_clock st).2
  = Z.max (status_get_clock st - 1) 0.
Proof. apply Z.eqb_eq. status_eval Hst. Qed.

Lemma try_dec_clock_ret :
  (status_try_dec_clock st).1 = negb (status_get_clock st =? 0).
Proof. apply eqb_prop. status_eval Hst. Qed.

(** The clock updates leave the six flags alone. *)
Lemma clock_accessed_flags : Z.land (status_clock_accessed st) 63 = Z.land st 63.
Proof. apply Z.eqb_eq. status_eval Hst. Qed.
Lemma try_dec_clock_flags : Z.land (status_try_dec_clock st).2 63 = Z.land st 63.
Proof. apply Z.eqb_eq. status_eval Hst. Qed.

(** A word is its flags and its clock. *)
Lemma status_decompose : st = Z.land st 63 + 64 * status_get_clock st.
Proof. apply Z.eqb_eq. status_eval Hst. Qed.
End laws.

Lemma set_clock_spec st v :
  status_wf st → 0 ≤ v →
  status_wf (status_set_clock st v) ∧
  status_get_clock (status_set_clock st v) = Z.min v TP_CLOCK_MAX ∧
  Z.land (status_set_clock st v) 63 = Z.land st 63.
Proof.
  intros Hst Hv.
  assert (∃ w, 0 ≤ w ≤ 7 ∧ Z.min v TP_CLOCK_MAX = w ∧
    status_set_clock st v = status_set_clock st w) as (w & Hw & -> & ->).
  { exists (Z.min v 7). change TP_CLOCK_MAX with 7. split; [lia|]. split; [done|].
    unfold status_set_clock. change TP_CLOCK_MAX with 7.
    destruct (Z.ltb_spec 7 v), (Z.ltb_spec 7 (Z.min v 7)); try lia.
    - by replace (Z.min v 7) with 7 by lia.
    - by replace (Z.min v 7) with v by lia. }
  assert (w = 0 ∨ w = 1 ∨ w = 2 ∨ w = 3 ∨ w = 4 ∨ w = 5 ∨ w = 6 ∨ w = 7) as Hc by lia.
  clear v Hv Hw.
  assert (((0 <=? status_set_clock st w) && (status_set_clock st w <? 512)) &&
    ((status_get_clock (status_set_clock st w) =? w) &&
    (Z.land (status_set_clock st w) 63 =? Z.land st 63)) = true) as H.
  { destruct_or! Hc; subst w; status_eval Hst. }
  unfold status_wf. lia.
Qed.

(** ** The bits above the counter

    The updates of the word as data, and that none of them reaches above bit 8
    when the counter it reads is the counter it changes. *)
(** The atomic updates of [treepass_set_flag], [treepass_clear_flag],
    [treepass_set_clock], [treepass_set_clock_accessed], [treepass_try_dec_clock]. *)
Inductive word_update : Type :=
| USet (flag : Z) | UClear (flag : Z) | USetClock (value : Z) | UAccessed | UDec.
Definition apply_update (u : word_update) (st : Z) : Z :=
  match u with
  | USet f => status_set_flag st f
  | UClear f => status_clear_flag st f
  | USetClock v => status_set_clock st v
  | UAccessed => status_clock_accessed st
  | UDec => (status_try_dec_clock st).2
  end.
Definition update_ok (u : word_update) : Prop :=
  match u with
  | USet f | UClear f => 0 ≤ f < 64
  | USetClock v => 0 ≤ v
  | _ => True
  end.
Lemma shiftr9_small f : 0 ≤ f < 512 → Z.shiftr f 9 = 0.
Proof. intros H. rewrite Z.shiftr_div_pow2 by lia. apply Z.div_small. lia. Qed.
Lemma land_mask_hi h : 0 ≤ h < 2 ^ 23 → Z.land h (2 ^ 23 - 1) = h.
Proof. intros H. replace (2^23 - 1) with (Z.ones 23) by done. rewrite Z.land_ones by lia. apply Z.mod_small. lia. Qed.
Lemma clear_hi st f :
  0 ≤ st < 2 ^ 32 → 0 ≤ f < 512 → Z.shiftr (Z.land st (u32 (Z.lnot f))) 9 = Z.shiftr st 9.
Proof.
  intros Hst Hf. rewrite Z.shiftr_land.
  assert (Z.shiftr (u32 (Z.lnot f)) 9 = 2 ^ 23 - 1) as ->.
  { unfold u32, Z.lnot. replace (Z.pred (- f) `mod` 2 ^ 32) with (2 ^ 32 - 1 - f).
    - rewrite Z.shiftr_div_pow2 by lia. symmetry. apply (Z.div_unique _ _ _ (511 - f)); lia.
    - apply (Z.mod_unique_pos _ _ (-1)); lia. }
  apply land_mask_hi. rewrite Z.shiftr_div_pow2 by lia.
  split; [apply Z.div_pos; lia|apply Z.div_lt_upper_bound; lia].
Qed.
Lemma get_clock_mod st : 0 ≤ st → status_get_clock st = st `mod` 512 / 64.
Proof.
  intros H. unfold status_get_clock. change TP_CLOCK_MAX with (Z.ones 3). rewrite Z.land_ones by lia.
  change TP_CLOCK_SHIFT with 6. rewrite Z.shiftr_div_pow2 by lia. change (2 ^ 6) with 64. change (2 ^ 3) with 8.
  replace 512 with (64 * 8) by done. rewrite Z.rem_mul_r by lia.
  rewrite (Z.mul_comm 64), Z.div_add by lia. rewrite (Z.div_small (st `mod` 64)); [lia|]. apply Z.mod_pos_bound. lia.
Qed.
Lemma update_hi u st : update_ok u → 0 ≤ st < 2 ^ 32 →
  0 ≤ apply_update u st < 2 ^ 32 ∧ Z.shiftr (apply_update u st) 9 = Z.shiftr st 9.
Proof.
  intros Hu Hst.
  assert (∀ a, 0 ≤ a → Z.shiftr a 9 = Z.shiftr st 9 → 0 ≤ a < 2 ^ 32) as Hb.
  { intros a Ha Hs. rewrite !Z.shiftr_div_pow2 in Hs by lia. change (2 ^ 9) with 512 in *.
    pose proof (Z.div_mod a 512). pose proof (Z.div_mod st 512).
    pose proof (Z.mod_pos_bound a 512). pose proof (Z.mod_pos_bound st 512). lia. }
  enough (0 ≤ apply_update u st ∧ Z.shiftr (apply_update u st) 9 = Z.shiftr st 9) as [? ?] by auto.
  pose proof (get_clock_mod st ltac:(lia)) as Hc.
  pose proof (Z.div_mod st 512 ltac:(lia)) as Hd. pose proof (Z.mod_pos_bound st 512 ltac:(lia)) as Hm.
  destruct u; simpl in *.
  - unfold status_set_flag. split; [apply Z.lor_nonneg; lia|].
    rewrite Z.shiftr_lor, (shiftr9_small flag), Z.lor_0_r by lia. done.
  - unfold status_clear_flag. split; [apply Z.land_nonneg; left; lia|]. apply clear_hi; lia.
  - unfold status_set_clock. set (c := if TP_CLOCK_MAX <? value then TP_CLOCK_MAX else value).
    assert (0 ≤ c ≤ 7) as Hcr by (unfold c; change TP_CLOCK_MAX with 7; case_match; lia).
    change TP_CLOCK_SHIFT with 6. rewrite (Z.shiftl_mul_pow2 c) by lia. change (2 ^ 6) with 64.
    split; [apply Z.lor_nonneg; split; [apply Z.land_nonneg; left; lia|lia]|].
    rewrite Z.shiftr_lor, (shiftr9_small (c * 64)), Z.lor_0_r by lia. by apply clear_hi.
  - unfold status_clock_accessed. change TP_CLOCK_MAX with 7. case_match eqn:E; [|lia].
    change TP_CLOCK_ONE with 64.
    assert (st `mod` 512 < 448). { pose proof (Z.div_mod (st `mod` 512) 64 ltac:(lia)). pose proof (Z.mod_pos_bound (st `mod` 512) 64 ltac:(lia)). lia. }
    assert (st + 64 < 2 ^ 32). { assert (st / 512 < 2 ^ 23) by (apply Z.div_lt_upper_bound; lia). lia. }
    rewrite u32_small by lia. split; [lia|]. rewrite !Z.shiftr_div_pow2 by lia. change (2 ^ 9) with 512.
    symmetry. apply (Z.div_unique _ _ _ (st `mod` 512 + 64)); lia.
  - unfold status_try_dec_clock. case_match eqn:E; simpl; [lia|]. change TP_CLOCK_ONE with 64.
    assert (64 ≤ st `mod` 512). { pose proof (Z.div_mod (st `mod` 512) 64 ltac:(lia)). pose proof (Z.mod_pos_bound (st `mod` 512) 64 ltac:(lia)). assert (0 ≤ st `mod` 512 / 64) by (apply Z.div_pos; lia). lia. }
    rewrite u32_small by lia. split; [lia|]. rewrite !Z.shiftr_div_pow2 by lia. change (2 ^ 9) with 512.
    symmetry. apply (Z.div_unique _ _ _ (st `mod` 512 - 64)); lia.
Qed.

Lemma updates_hi us st :
  Forall update_ok us → 0 ≤ st < 2 ^ 32 →
  Z.shiftr (foldl (λ w u, apply_update u w) st us) 9 = Z.shiftr st 9.
Proof.
  intros Hus. revert st. induction Hus as [|u us Hu _ IH]; intros st Hst; simpl; [done|].
  destruct (update_hi u st Hu Hst) as [Hr Hs]. by rewrite IH.
Qed.
