(* ===== verification/TreePassState.v ===== *)
(** * The cache state

    treepass.h: the entry array, the direct-mapped lookup table, the striped
    reference counts, the pins, the clock hands and the eviction-interval
    book-keeping, together with the device the cache reads and writes. *)
From Stdlib Require Import SpecFloat.
From S2P Require Import Prelude Allocator TreePassStatus.

Definition TP_UNMAPPED_ENTRY : Z := UINT32_MAX.
Definition TP_UNMAPPED_ADDR : Z := UINT64_MAX.
Definition TP_ENTRIES_PER_BATCH : Z := 64.
Definition TP_CLEANER_GAP : Z := 512.
Definition TP_RC_WIDTH : Z := 4.
Definition PLATFORM_CACHELINE_SIZE : Z := 64.
Definition MAX_THREADS : Z := 128.
Definition EI_NOT_READY : Z := 0.
Definition TP_ENTRY_TIME_PREFETCHED : Z := UINT64_MAX.

(** The bytes of a page. *)
Definition page_data : Type := list Z.

(** [treepass_entry], with its [page_handle] inlined. *)
Record treepass_entry := mk_entry {
  e_data : page_data;
  e_disk_addr : Z;
  e_entry_time : Z;
  e_status : Z;
  e_type : page_type;
  e_waiters : list Z;
}.

Record treepass_config := mk_treepass_config {
  tp_page_size : Z;
  tp_extent_size : Z;
  tp_capacity : Z;
  tp_use_stats : bool;
  tp_log_page_size : Z;
  tp_page_capacity : Z;
  tp_batch_capacity : Z;
  tp_cacheline_capacity : Z;
  tp_pages_per_extent : Z;
  tp_ei_ewma_alpha : spec_float;
  tp_ei_initial_per_gb_ns : Z;
}.

(** The counters of [cache_stats]. *)
Inductive cache_stat : Type :=
| cache_hits | cache_misses | cache_miss_time_ns | page_writes | page_reads
| discard_clean | discard_dirty | discard_uncached | prefetches_issued
| writes_issued | syncs_issued.
#[export] Instance cache_stat_eq_dec : EqDecision cache_stat.
Proof. solve_decision. Defined.

(** [async_io_state] with its iovec: a read or write of consecutive pages that
    starts at [io_addr]; the pages are named by their entries. *)
Record io_request := mk_io_request {
  io_is_write : bool;
  io_addr : Z;
  io_iovec : list Z;
  io_num_passes : Z;
  io_outstanding : option Z;
}.

Record per_thread := mk_per_thread { pt_free_hand : Z; pt_enable_sync_get : bool }.

(** [struct treepass]; [disk] and [pending] are the device's contents and its
    submitted requests, [outstanding] the counters callers of extent_sync pass
    by address, [ts_reads] the number of clock readings taken so far. *)
Record treepass := mk_treepass {
  tp_cfg : treepass_config;
  tp_al : allocator_config;
  tp_lookup : list Z;
  tp_entry : list treepass_entry;
  tp_refcount : list Z;
  tp_pincount : list Z;
  tp_evict_hand : Z;
  tp_free_hand : Z;
  tp_batch_busy : list bool;
  tp_cleaner_gap : Z;
  tp_evict_interval : Z;
  tp_last_cycle_ts : Z;
  tp_evict_batches : Z;
  tp_last_boost_ts : Z;
  tp_last_ei_check_ts : Z;
  tp_last_ei_check_cycle : Z;
  tp_per_thread : list per_thread;
  tp_stats : Z → cache_stat → page_type → Z;
  tp_disk : gmap Z page_data;
  tp_pending : list io_request;
  tp_counters : gmap Z Z;
  tp_ts_reads : nat;
}.

(** The environment's choices: the successive readings of the clock, whether
    the device's maximum latency has elapsed, which submitted request the device
    completes next, and the bound on the retry loops of the model. *)
Class platform := mk_platform {
  timestamps : nat → Z;
  io_max_latency_elapsed : nat → Z → bool;
  io_poll : list io_request → option nat;
  retry_fuel : nat;
}.

(** What an operation knows of the calling thread. *)
Record thread := mk_thread { tid : Z; treepass_current_ts : Z }.

(** ** Field updates *)
Definition set_lookup f cc := mk_treepass (tp_cfg cc) (tp_al cc) (f (tp_lookup cc))
  (tp_entry cc) (tp_refcount cc) (tp_pincount cc) (tp_evict_hand cc) (tp_free_hand cc)
  (tp_batch_busy cc) (tp_cleaner_gap cc) (tp_evict_interval cc) (tp_last_cycle_ts cc)
  (tp_evict_batches cc) (tp_last_boost_ts cc) (tp_last_ei_check_ts cc)
  (tp_last_ei_check_cycle cc) (tp_per_thread cc) (tp_stats cc) (tp_disk cc)
  (tp_pending cc) (tp_counters cc) (tp_ts_reads cc).
Definition set_entries f cc := mk_treepass (tp_cfg cc) (tp_al cc) (tp_lookup cc)
  (f (tp_entry cc)) (tp_refcount cc) (tp_pincount cc) (tp_evict_hand cc) (tp_free_hand cc)
  (tp_batch_busy cc) (tp_cleaner_gap cc) (tp_evict_interval cc) (tp_last_cycle_ts cc)
  (tp_evict_batches cc) (tp_last_boost_ts cc) (tp_last_ei_check_ts cc)
  (tp_last_ei_check_cycle cc) (tp_per_thread cc) (tp_stats cc) (tp_disk cc)
  (tp_pending cc) (tp_counters cc) (tp_ts_reads cc).
Definition set_refcount f cc := mk_treepass (tp_cfg cc) (tp_al cc) (tp_lookup cc)
  (tp_entry cc) (f (tp_refcount cc)) (tp_pincount cc) (tp_evict_hand cc) (tp_free_hand cc)
  (tp_batch_busy cc) (tp_cleaner_gap cc) (tp_evict_interval cc) (tp_last_cycle_ts cc)
  (tp_evict_batches cc) (tp_last_boost_ts cc) (tp_last_ei_check_ts cc)
  (tp_last_ei_check_cycle cc) (tp_per_thread cc) (tp_stats cc) (tp_disk cc)
  (tp_pending cc) (tp_counters cc) (tp_ts_reads cc).
Definition set_pincount f cc := mk_treepass (tp_cfg cc) (tp_al cc) (tp_lookup cc)
  (tp_entry cc) (tp_refcount cc) (f (tp_pincount cc)) (tp_evict_hand cc) (tp_free_hand cc)
  (tp_batch_busy cc) (tp_cleaner_gap cc) (tp_evict_interval cc) (tp_last_cycle_ts cc)
  (tp_evict_batches cc) (tp_last_boost_ts cc) (tp_last_ei_check_ts cc)
  (tp_last_ei_check_cycle cc) (tp_per_thread cc) (tp_stats cc) (tp_disk cc)
  (tp_pending cc) (tp_counters cc) (tp_ts_reads cc).
(** The hands: [evict_hand], [batch_busy] and the per-thread hands. *)
Definition set_hands h b p cc := mk_treepass (tp_cfg cc) (tp_al cc) (tp_lookup cc)
  (tp_entry cc) (tp_refcount cc) (tp_pincount cc) (h (tp_evict_hand cc)) (tp_free_hand cc)
  (b (tp_batch_busy cc)) (tp_cleaner_gap cc) (tp_evict_interval cc) (tp_last_cycle_ts cc)
  (tp_evict_batches cc) (tp_last_boost_ts cc) (tp_last_ei_check_ts cc)
  (tp_last_ei_check_cycle cc) (p (tp_per_thread cc)) (tp_stats cc) (tp_disk cc)
  (tp_pending cc) (tp_counters cc) (tp_ts_reads cc).
(** The eviction-interval fields a cycle boundary stores. *)
Definition set_ei ei cycle_ts check_ts cycle cc := mk_treepass (tp_cfg cc) (tp_al cc)
  (tp_lookup cc) (tp_entry cc) (tp_refcount cc) (tp_pincount cc) (tp_evict_hand cc)
  (tp_free_hand cc) (tp_batch_busy cc) (tp_cleaner_gap cc) ei cycle_ts
  (tp_evict_batches cc) (tp_last_boost_ts cc) check_ts
  cycle (tp_per_thread cc) (tp_stats cc) (tp_disk cc)
  (tp_pending cc) (tp_counters cc) (tp_ts_reads cc).
Definition set_evict_batches f cc := mk_treepass (tp_cfg cc) (tp_al cc) (tp_lookup cc)
  (tp_entry cc) (tp_refcount cc) (tp_pincount cc) (tp_evict_hand cc) (tp_free_hand cc)
  (tp_batch_busy cc) (tp_cleaner_gap cc) (tp_evict_interval cc) (tp_last_cycle_ts cc)
  (f (tp_evict_batches cc)) (tp_last_boost_ts cc) (tp_last_ei_check_ts cc)
  (tp_last_ei_check_cycle cc) (tp_per_thread cc) (tp_stats cc) (tp_disk cc)
  (tp_pending cc) (tp_counters cc) (tp_ts_reads cc).
Definition set_stats f cc := mk_treepass (tp_cfg cc) (tp_al cc) (tp_lookup cc)
  (tp_entry cc) (tp_refcount cc) (tp_pincount cc) (tp_evict_hand cc) (tp_free_hand cc)
  (tp_batch_busy cc) (tp_cleaner_gap cc) (tp_evict_interval cc) (tp_last_cycle_ts cc)
  (tp_evict_batches cc) (tp_last_boost_ts cc) (tp_last_ei_check_ts cc)
  (tp_last_ei_check_cycle cc) (tp_per_thread cc) (f (tp_stats cc)) (tp_disk cc)
  (tp_pending cc) (tp_counters cc) (tp_ts_reads cc).
(** The device and its queue. *)
Definition set_device d q c cc := mk_treepass (tp_cfg cc) (tp_al cc) (tp_lookup cc)
  (tp_entry cc) (tp_refcount cc) (tp_pincount cc) (tp_evict_hand cc) (tp_free_hand cc)
  (tp_batch_busy cc) (tp_cleaner_gap cc) (tp_evict_interval cc) (tp_last_cycle_ts cc)
  (tp_evict_batches cc) (tp_last_boost_ts cc) (tp_last_ei_check_ts cc)
  (tp_last_ei_check_cycle cc) (tp_per_thread cc) (tp_stats cc) (d (tp_disk cc))
  (q (tp_pending cc)) (c (tp_counters cc)) (tp_ts_reads cc).
Definition set_ts_reads f cc := mk_treepass (tp_cfg cc) (tp_al cc) (tp_lookup cc)
  (tp_entry cc) (tp_refcount cc) (tp_pincount cc) (tp_evict_hand cc) (tp_free_hand cc)
  (tp_batch_busy cc) (tp_cleaner_gap cc) (tp_evict_interval cc) (tp_last_cycle_ts cc)
  (tp_evict_batches cc) (tp_last_boost_ts cc) (tp_last_ei_check_ts cc)
  (tp_last_ei_check_cycle cc) (tp_per_thread cc) (tp_stats cc) (tp_disk cc)
  (tp_pending cc) (tp_counters cc) (f (tp_ts_reads cc)).

Definition with_data v e := mk_entry v (e_disk_addr e) (e_entry_time e) (e_status e) (e_type e) (e_waiters e).
Definition with_disk_addr v e := mk_entry (e_data e) v (e_entry_time e) (e_status e) (e_type e) (e_waiters e).
Definition with_entry_time v e := mk_entry (e_data e) (e_disk_addr e) v (e_status e) (e_type e) (e_waiters e).
Definition with_status v e := mk_entry (e_data e) (e_disk_addr e) (e_entry_time e) v (e_type e) (e_waiters e).
Definition with_type v e := mk_entry (e_data e) (e_disk_addr e) (e_entry_time e) (e_status e) v (e_waiters e).
Definition with_waiters v e := mk_entry (e_data e) (e_disk_addr e) (e_entry_time e) (e_status e) (e_type e) v.

(** The cached contents of a device address; a page never written reads as []. *)
Definition disk_read (cc : treepass) (addr : Z) : page_data := default [] (tp_disk cc !! addr).
