(* ===== verification/TreePass.v ===== *)
(** * The TreePass cache

    The operations of treepass.c over [TreePassState.treepass], each the whole C
    function as one thread runs it.  A wait loop that only another thread can
    end is the outcome [Block]; waiting for the device completes requests. *)
From Stdlib Require Import SpecFloat.
From S2P Require Import Prelude Allocator TreePassStatus TreePassState.

Abbreviation C := (M treepass).

Section treepass.
  Context `{platform}.
  Context (th : thread).

(** ** Entries and flags *)
Definition treepass_get_entry (n : Z) : C treepass_entry :=
  cc ← mget; mopt (lookupZ (tp_entry cc) n).
Definition mod_entry (n : Z) (f : treepass_entry → treepass_entry) : C unit :=
  e ← treepass_get_entry n;
  mmod (set_entries (insertZ n (f e))).

Definition treepass_get_status (n : Z) : C Z :=
  e ← treepass_get_entry n; mret (e_status e).
Definition treepass_set_flag (n flag : Z) : C Z :=
  st ← treepass_get_status n;
  mod_entry n (with_status (status_set_flag st flag));;
  mret (Z.land flag st).
Definition treepass_clear_flag (n flag : Z) : C Z :=
  st ← treepass_get_status n;
  mod_entry n (with_status (status_clear_flag st flag));;
  mret (Z.land flag st).
Definition treepass_test_flag (n flag : Z) : C bool :=
  st ← treepass_get_status n; mret (has_flag st flag).

(** ** The CLOCK counter *)
Definition treepass_get_clock (n : Z) : C Z :=
  st ← treepass_get_status n; mret (status_get_clock st).
Definition treepass_set_clock (n value : Z) : C unit :=
  st ← treepass_get_status n; mod_entry n (with_status (status_set_clock st value)).
Definition treepass_set_clock_accessed (n : Z) : C unit :=
  st ← treepass_get_status n; mod_entry n (with_status (status_clock_accessed st)).
Definition treepass_try_dec_clock (n : Z) : C bool :=
  st ← treepass_get_status n;
  let '(had, st') := status_try_dec_clock st in
  mod_entry n (with_status st');; mret had.

(** ** Addresses *)
Definition treepass_multiply_by_page_size (cfg : treepass_config) (n : Z) : Z :=
  u64 (Z.shiftl n (tp_log_page_size cfg)).
Definition treepass_divide_by_page_size (cfg : treepass_config) (addr : Z) : Z :=
  Z.shiftr addr (tp_log_page_size cfg).
Definition treepass_lookup (addr : Z) : C Z :=
  cc ← mget;
  mopt (lookupZ (tp_lookup cc) (treepass_divide_by_page_size (tp_cfg cc) addr)).
(** [cc->lookup[addr / page_size] = n] *)
Definition store_lookup (addr n : Z) : C unit :=
  _ ← treepass_lookup addr;
  mmod (λ cc, set_lookup (insertZ (treepass_divide_by_page_size (tp_cfg cc) addr) n) cc).

Definition treepass_inherit_clock (old_addr new_addr divisor : Z) : C unit :=
  old_entry_no ← treepass_lookup old_addr;
  let old_found := negb (old_entry_no =? TP_UNMAPPED_ENTRY) in
  clock_val ← (if old_found
    then old_clock ← treepass_get_clock old_entry_no;
         mret (if 1 <? divisor then old_clock / divisor else old_clock)
    else mret 1);
  let clock_val := if clock_val =? 0 then 1 else clock_val in
  new_entry_no ← treepass_lookup new_addr;
  if new_entry_no =? TP_UNMAPPED_ENTRY then mret tt else
  treepass_set_clock new_entry_no clock_val;;
  if negb old_found then mret tt else
  old ← treepass_get_entry old_entry_no;
  mwhen (negb (e_entry_time old =? 0))
    (mod_entry new_entry_no (with_entry_time (e_entry_time old))).

(** ** Reference counts and pins *)
Definition treepass_get_ref_internal (cfg : treepass_config) (n : Z) : Z :=
  u32 (n `mod` tp_cacheline_capacity cfg * PLATFORM_CACHELINE_SIZE
       + n / tp_cacheline_capacity cfg).
Definition ref_index (cfg : treepass_config) (n counter_no : Z) : Z :=
  counter_no `mod` TP_RC_WIDTH * tp_page_capacity cfg + treepass_get_ref_internal cfg n.
Definition treepass_get_ref (n counter_no : Z) : C Z :=
  cc ← mget; mopt (lookupZ (tp_refcount cc) (ref_index (tp_cfg cc) n counter_no)).
Definition treepass_inc_ref (n counter_no : Z) : C unit :=
  r ← treepass_get_ref n counter_no;
  mmod (λ cc, set_refcount (insertZ (ref_index (tp_cfg cc) n counter_no) (u16 (r + 1))) cc).
Definition treepass_dec_ref (n counter_no : Z) : C unit :=
  r ← treepass_get_ref n counter_no;
  mmod (λ cc, set_refcount (insertZ (ref_index (tp_cfg cc) n counter_no) (u16 (r - 1))) cc).
Definition treepass_get_pin (n : Z) : C Z :=
  cc ← mget; mopt (lookupZ (tp_pincount cc) (treepass_get_ref_internal (tp_cfg cc) n)).
Definition treepass_inc_pin (n : Z) : C unit :=
  r ← treepass_get_pin n;
  mmod (λ cc, set_pincount (insertZ (treepass_get_ref_internal (tp_cfg cc) n) (u8 (r + 1))) cc).
Definition treepass_dec_pin (n : Z) : C unit :=
  r ← treepass_get_pin n;
  mmod (λ cc, set_pincount (insertZ (treepass_get_ref_internal (tp_cfg cc) n) (u8 (r - 1))) cc).
Definition treepass_reset_pin (n : Z) : C unit :=
  r ← treepass_get_pin n;
  mwhen (negb (r =? 0))
    (mmod (λ cc, set_pincount (insertZ (treepass_get_ref_internal (tp_cfg cc) n) 0) cc)).

(** ** Page locks *)
Inductive get_rc : Type :=
| GET_RC_SUCCESS | GET_RC_CONFLICT | GET_RC_EVICTED | GET_RC_FLUSHING.

Definition treepass_try_get_read (n : Z) (set_access : bool) : C get_rc :=
  cc_writing ← treepass_test_flag n TP_WRITELOCKED;
  if cc_writing : bool then mret GET_RC_CONFLICT else
  treepass_inc_ref n (tid th);;
  cc_free ← treepass_test_flag n TP_FREE;
  cc_writing ← treepass_test_flag n TP_WRITELOCKED;
  if negb cc_free && negb cc_writing then
    mwhen set_access (treepass_set_clock_accessed n);; mret GET_RC_SUCCESS
  else
    treepass_dec_ref n (tid th);;
    mret (if cc_free : bool then GET_RC_EVICTED else GET_RC_CONFLICT).

Definition treepass_get_read (n : Z) : C get_rc :=
  rc ← treepass_try_get_read n true;
  match rc with GET_RC_CONFLICT => mblock | _ => mret rc end.

Definition treepass_try_get_claim (n : Z) : C get_rc :=
  old ← treepass_set_flag n TP_CLAIMED;
  mret (if negb (old =? 0) then GET_RC_CONFLICT else GET_RC_SUCCESS).

(** ** Device requests *)
Definition treepass_finish_load (n : Z) : C unit :=
  _ ← treepass_clear_flag n TP_LOADING;
  mod_entry n (with_waiters []).

(** The effect on the device or the page buffers of the [i]-th page of a
    request, performed by the device before the callback runs. *)
Definition io_transfer (r : io_request) (i : Z) : C unit :=
  n ← mopt (lookupZ (io_iovec r) i);
  cc ← mget;
  let addr := u64 (io_addr r + treepass_multiply_by_page_size (tp_cfg cc) i) in
  if io_is_write r then
    e ← treepass_get_entry n;
    mmod (set_device (insert addr (e_data e)) id id)
  else mod_entry n (with_data (disk_read cc addr)).

(** The loop body of [treepass_write_callback]. *)
Definition write_callback_page (r : io_request) (i : Z) : C unit :=
  n ← mopt (lookupZ (io_iovec r) i);
  _ ← treepass_set_flag n TP_CLEAN;
  _ ← treepass_clear_flag n TP_WRITEBACK;
  e ← treepass_get_entry n;
  mwhen ((0 <? io_num_passes r) && (io_num_passes r <? TP_CLOCK_MAX)
         && bool_decide (e_type e = PAGE_TYPE_BRANCH))
    (treepass_set_clock n 0).

Definition treepass_write_callback (r : io_request) : C unit :=
  cc ← mget;
  let count := lengthZ (io_iovec r) in
  massert (0 <? count);;
  massert (count <=? tp_pages_per_extent (tp_cfg cc));;
  mfor (length (io_iovec r)) 0 (write_callback_page r);;
  match io_outstanding r with
  | None => mret tt
  | Some c => mmod (set_device id id (alter (λ v, u64 (v - count)) c))
  end.

Definition treepass_prefetch_callback (r : io_request) : C unit :=
  cc ← mget;
  let count := lengthZ (io_iovec r) in
  massert (0 <? count);;
  massert (count <=? tp_pages_per_extent (tp_cfg cc));;
  mfor (length (io_iovec r)) 0 (λ i,
    n ← mopt (lookupZ (io_iovec r) i); treepass_finish_load n).

(** The device completes the [k]-th submitted request and its callback runs. *)
Definition io_complete (k : nat) : C unit :=
  cc ← mget;
  r ← mopt (tp_pending cc !! k);
  mmod (set_device id (delete k) id);;
  mfor (length (io_iovec r)) 0 (io_transfer r);;
  if io_is_write r then treepass_write_callback r else treepass_prefetch_callback r.

(** [treepass_wait]: poll the device for one completion. *)
Definition treepass_wait : C unit :=
  cc ← mget;
  match io_poll (tp_pending cc) with
  | Some k => mwhen (bool_decide (k < length (tp_pending cc))%nat) (io_complete k)
  | None => mret tt
  end.

(** [while (cond) treepass_wait(cc);] -- when no submitted request can end the
    wait it is another thread that must. *)
Fixpoint wait_while (fuel : nat) (cond : C bool) : C unit :=
  b ← cond;
  if negb b then mret tt else
  match fuel with
  | O => mblock
  | S fuel' => treepass_wait;; wait_while fuel' cond
  end.
Definition wait_flag (n flag : Z) : C unit :=
  cc ← mget; wait_while (length (tp_pending cc)) (treepass_test_flag n flag).

(** Wait until stripe [i] holds no reference but the caller's own. *)
Definition wait_readers (n i : Z) : C unit :=
  r ← treepass_get_ref n i;
  if negb (tid th `mod` TP_RC_WIDTH =? i)
  then (if negb (r =? 0) then mblock else mret tt)
  else (if 1 <? r then mblock else mret tt).

Definition treepass_get_write (n : Z) : C unit :=
  _ ← treepass_set_flag n TP_WRITELOCKED;
  wait_flag n TP_WRITEBACK;;
  mfor (Z.to_nat TP_RC_WIDTH) 0 (wait_readers n).

(** The reader scan of [treepass_try_get_write]: is there another reader? *)
Fixpoint scan_readers (n : Z) (k : nat) (i : Z) : C bool :=
  match k with
  | O => mret false
  | S k' =>
      r ← treepass_get_ref n i;
      if (if negb (tid th `mod` TP_RC_WIDTH =? i) then negb (r =? 0) else 1 <? r)
      then mret true else scan_readers n k' (i + 1)
  end.
Definition treepass_try_get_write (n : Z) : C get_rc :=
  _ ← treepass_set_flag n TP_WRITELOCKED;
  wb ← treepass_test_flag n TP_WRITEBACK;
  if wb : bool then _ ← treepass_clear_flag n TP_WRITELOCKED; mret GET_RC_FLUSHING else
  busy ← scan_readers n (Z.to_nat TP_RC_WIDTH) 0;
  if busy : bool then _ ← treepass_clear_flag n TP_WRITELOCKED; mret GET_RC_CONFLICT else
  mret GET_RC_SUCCESS.

(** ** Statistics *)
Definition stat_add (s : cache_stat) (t : page_type) (k : Z) : C unit :=
  cc ← mget;
  mwhen (tp_use_stats (tp_cfg cc))
    (mmod (set_stats (λ f i s' t',
       if bool_decide (i = tid th ∧ s' = s ∧ t' = t) then u64 (f i s' t' + k) else f i s' t'))).

(** ** Writeback *)
Definition treepass_ok_to_writeback (n num_passes : Z) : C bool :=
  st ← treepass_get_status n; mret (status_cleanable st num_passes).
Definition treepass_try_set_writeback (n num_passes : Z) : C bool :=
  e ← treepass_get_entry n;
  massert (bool_decide (e_waiters e = []));;
  if negb (status_cleanable (e_status e) num_passes) then mret false else
  mod_entry n (with_status (Z.lor (e_status e) TP_WRITEBACK));; mret true.

(** The page at [addr] if it is in the same extent as [base]. *)
Definition extent_neighbour (base addr : Z) : C Z :=
  cc ← mget;
  if allocator_config_pages_share_extent (tp_al cc) addr base
  then treepass_lookup addr else mret TP_UNMAPPED_ENTRY.

(** [do { a += step; ... } while (mapped && try_set_writeback)]: the address of
    the first page that is not taken. *)
Fixpoint extend_writeback (fuel : nat) (step base num_passes a : Z) : C Z :=
  match fuel with
  | O => mfuel
  | S fuel' =>
      let a := u64 (a + step) in
      next ← extent_neighbour base a;
      if next =? TP_UNMAPPED_ENTRY then mret a else
      ok ← treepass_try_set_writeback next num_passes;
      if ok : bool then extend_writeback fuel' step base num_passes a else mret a
  end.

(** The entries of the pages [first, first + page_size, ...]. *)
Fixpoint collect_iovec (k : nat) (first : Z) (i : Z) : C (list Z) :=
  match k with
  | O => mret []
  | S k' =>
      cc ← mget;
      n ← treepass_lookup (u64 (first + treepass_multiply_by_page_size (tp_cfg cc) i));
      _ ← treepass_get_entry n;
      rest ← collect_iovec k' first (i + 1);
      mret (n :: rest)
  end.

Definition submit (r : io_request) : C unit :=
  mmod (set_device id (λ q, q ++ [r]) id).

(** Once the page at [addr] is taken: take its neighbours in the extent and
    submit one request for the run. *)
Definition writeback_run (num_passes addr : Z) (type : page_type) : C unit :=
  cc ← mget;
  let ps := tp_page_size (tp_cfg cc) in
  let fuel := S (Z.to_nat (tp_pages_per_extent (tp_cfg cc))) in
  first ← extend_writeback fuel (- ps) addr num_passes addr;
  let first_addr := u64 (first + ps) in
  end_addr ← extend_writeback fuel ps addr num_passes addr;
  let req_count := treepass_divide_by_page_size (tp_cfg cc) (u64 (end_addr - first_addr)) in
  stat_add page_writes type req_count;;
  stat_add writes_issued PAGE_TYPE_INVALID 1;;
  iovec ← collect_iovec (Z.to_nat req_count) first_addr 0;
  submit (mk_io_request true first_addr iovec num_passes None).

(** The loop body of [treepass_batch_start_writeback]. *)
Definition start_writeback_entry (num_passes n : Z) : C unit :=
  e ← treepass_get_entry n;
  let is_flush := TP_CLOCK_MAX <=? num_passes in
  if (0 <? num_passes) && negb is_flush && negb (bool_decide (e_type e = PAGE_TYPE_BRANCH))
  then mret tt else
  ok ← treepass_ok_to_writeback n num_passes;
  if negb ok then mret tt else
  ok ← treepass_try_set_writeback n num_passes;
  if negb ok then mret tt else
  writeback_run num_passes (e_disk_addr e) (e_type e).

Definition treepass_batch_start_writeback (batch num_passes : Z) : C unit :=
  mfor (Z.to_nat TP_ENTRIES_PER_BATCH) (batch * TP_ENTRIES_PER_BATCH)
    (start_writeback_entry num_passes).

(** ** Eviction *)
(** Unmap the page and free the entry. *)
Definition evict_entry (n : Z) : C unit :=
  e ← treepass_get_entry n;
  mwhen (negb (e_disk_addr e =? TP_UNMAPPED_ADDR))
    (store_lookup (e_disk_addr e) TP_UNMAPPED_ENTRY;;
     mod_entry n (with_disk_addr TP_UNMAPPED_ADDR);;
     mod_entry n (with_entry_time 0));;
  massert (bool_decide (e_waiters e = []));;
  mod_entry n (with_type PAGE_TYPE_INVALID);;
  mod_entry n (with_status TP_FREE_STATUS).

(** Once the page is write locked: check it again and evict it. *)
Definition evict_locked (n : Z) : C bool :=
  status ← treepass_get_status n;
  p ← treepass_get_pin n;
  if negb (status =? TP_LOCKED_EVICTABLE_STATUS) || negb (p =? 0) then
    _ ← treepass_clear_flag n TP_WRITELOCKED;
    _ ← treepass_clear_flag n TP_CLAIMED;
    treepass_dec_ref n (tid th);; mret false
  else
    evict_entry n;;
    treepass_dec_ref n (tid th);; mret true.

Definition treepass_try_evict (n : Z) (ee_pass : bool) : C bool :=
  e ← treepass_get_entry n;
  skip ← (if ee_pass
    then mret (negb (bool_decide (e_type e = PAGE_TYPE_BRANCH))
               || negb (e_entry_time e =? 0))
    else treepass_try_dec_clock n);
  if skip : bool then mret false else
  status ← treepass_get_status n;
  r ← treepass_get_ref n (tid th);
  p ← treepass_get_pin n;
  if negb (status =? TP_EVICTABLE_STATUS) || negb (r =? 0) || negb (p =? 0)
  then mret false else
  rc ← treepass_try_get_read n false;
  match rc with
  | GET_RC_SUCCESS =>
    rc ← treepass_try_get_claim n;
    match rc with
    | GET_RC_SUCCESS =>
      loading ← treepass_test_flag n TP_LOADING;
      rc ← (if loading : bool then mret GET_RC_CONFLICT else treepass_try_get_write n);
      match rc with
      | GET_RC_SUCCESS => evict_locked n
      | _ =>
        _ ← treepass_clear_flag n TP_CLAIMED;
        treepass_dec_ref n (tid th);; mret false
      end
    | _ => treepass_dec_ref n (tid th);; mret false
    end
  | _ => mret false
  end.

(** The loop of [treepass_evict_batch_ee] from entry [n] on. *)
Fixpoint evict_ee_from (k : nat) (n count : Z) : C Z :=
  match k with
  | O => mret count
  | S k' =>
      ok ← treepass_try_evict n true;
      evict_ee_from k' (n + 1) (if ok : bool then u32 (count + 1) else count)
  end.
Definition treepass_evict_batch_ee (batch : Z) : C Z :=
  evict_ee_from (Z.to_nat TP_ENTRIES_PER_BATCH) (batch * TP_ENTRIES_PER_BATCH) 0.

(** *** The eviction interval

    Double arithmetic is IEEE binary64 ([SpecFloat] at precision 53). *)
Definition double_of_Z (z : Z) : spec_float := binary_normalize 53 1024 z 0 false.
Definition double_mul (a b : spec_float) : spec_float := SFmul 53 1024 a b.
Definition double_add (a b : spec_float) : spec_float := SFadd 53 1024 a b.
Definition double_sub (a b : spec_float) : spec_float := SFsub 53 1024 a b.
(** [(uint64)d] for a finite nonnegative [d]; undefined outside the range. *)
Definition uint64_of_double (d : spec_float) : option Z :=
  match d with
  | S754_zero _ => Some 0
  | S754_finite false m e =>
      let z := Z.shiftl (Z.pos m) e in
      if z <? 2 ^ 64 then Some z else None
  | _ => None
  end.
(** [new_ei = alpha * measured + (1 - alpha) * old_ei] *)
Definition ewma (alpha : spec_float) (avg_sweep_time ei : Z) : option Z :=
  uint64_of_double
    (double_add (double_mul (double_of_Z avg_sweep_time) alpha)
       (double_mul (double_of_Z ei) (double_sub (double_of_Z 1) alpha))).

Definition platform_get_timestamp : C Z :=
  k ← mread tp_ts_reads;
  mmod (set_ts_reads S);; mret (timestamps k).

(** The book-keeping of [treepass_evict_batch] after the sweep. *)
Definition ei_update : C unit :=
  mmod (set_evict_batches (λ b, u32 (b + 1)));;
  cc ← mget;
  let batches := tp_evict_batches cc in
  let batch_cap := tp_batch_capacity (tp_cfg cc) in
  let cycle := batches / batch_cap in
  let is_cycle_boundary := batches `mod` batch_cap =? 0 in
  if negb (is_cycle_boundary && (0 <? cycle)) then mret tt else
  now ← platform_get_timestamp;
  let expected := tp_last_ei_check_cycle cc in
  if cycle <=? expected then mret tt else
  let last_ts := tp_last_cycle_ts cc in
  if now <=? last_ts then mret tt else
  let ei := tp_evict_interval cc in
  let avg_sweep_time := (now - last_ts) / (cycle - expected) in
  new_ei ← (if ei =? EI_NOT_READY then
      let seed := u64 (Z.shiftr (tp_capacity (tp_cfg cc)) 30
                       * tp_ei_initial_per_gb_ns (tp_cfg cc)) in
      mret (if seed =? 0 then tp_ei_initial_per_gb_ns (tp_cfg cc) else seed)
    else mopt (ewma (tp_ei_ewma_alpha (tp_cfg cc)) avg_sweep_time ei));
  mmod (set_ei new_ei now now cycle).

Definition treepass_evict_batch (batch : Z) (first_pass : bool) : C unit :=
  mfor (Z.to_nat TP_ENTRIES_PER_BATCH) (batch * TP_ENTRIES_PER_BATCH)
    (λ n, _ ← treepass_try_evict n false; mret tt);;
  if negb first_pass then mret tt else ei_update.

(** ** Moving the hand *)
Definition get_free_hand : C Z :=
  cc ← mget; p ← mopt (lookupZ (tp_per_thread cc) (tid th)); mret (pt_free_hand p).
Definition set_free_hand (h : Z) : C unit :=
  cc ← mget;
  p ← mopt (lookupZ (tp_per_thread cc) (tid th));
  mmod (set_hands id id (insertZ (tid th) (mk_per_thread h (pt_enable_sync_get p)))).
(** [__sync_bool_compare_and_swap(&cc->batch_busy[b], old, new)] *)
Definition cas_batch_busy (b : Z) (old new : bool) : C bool :=
  cc ← mget;
  v ← mopt (lookupZ (tp_batch_busy cc) b);
  if Bool.eqb v old then mmod (set_hands id (insertZ b new) id);; mret true
  else mret false.

Fixpoint advance_hand (fuel : nat) (num_passes : Z) : C Z :=
  match fuel with
  | O => mblock
  | S fuel' =>
      mmod (set_hands (λ h, u32 (h + 1)) id id);;
      cc ← mget;
      let evict_hand := tp_evict_hand cc `mod` tp_batch_capacity (tp_cfg cc) in
      let cleaner_hand :=
        (evict_hand + tp_cleaner_gap cc) `mod` tp_batch_capacity (tp_cfg cc) in
      took ← cas_batch_busy cleaner_hand false true;
      mwhen took
        (treepass_batch_start_writeback cleaner_hand (u32 num_passes);;
         _ ← cas_batch_busy cleaner_hand true false; mret tt);;
      took ← cas_batch_busy evict_hand false true;
      if took : bool then mret evict_hand else advance_hand fuel' num_passes
  end.

Definition treepass_move_hand (num_passes : Z) : C Z :=
  cc ← mget;
  evict_hand ← get_free_hand;
  let cap := tp_batch_capacity (tp_cfg cc) in
  stay ← (if negb (evict_hand =? TP_UNMAPPED_ENTRY) then
      evicted ← treepass_evict_batch_ee (evict_hand `mod` cap);
      if 0 <? evicted then mret true else
      _ ← cas_batch_busy evict_hand true false; mret false
    else mret false);
  if stay : bool then mret num_passes else
  evict_hand ← advance_hand (2 * Z.to_nat cap + 1) num_passes;
  let batch_idx := evict_hand `mod` cap in
  treepass_evict_batch batch_idx (num_passes =? 0);;
  set_free_hand batch_idx;; mret num_passes.

(** ** Free pages *)
(** The scan of one batch for a free entry, from entry [n] on. *)
Fixpoint scan_free (k : nat) (n status : Z) (type : page_type) (refcount : bool) : C (option Z) :=
  match k with
  | O => mret None
  | S k' =>
      st ← treepass_get_status n;
      if st =? TP_FREE_STATUS then
        mod_entry n (with_status TP_ALLOC_STATUS);;
        mwhen refcount (treepass_inc_ref n (tid th));;
        e ← treepass_get_entry n;
        massert (bool_decide (e_waiters e = []));;
        mod_entry n (with_status status);;
        mod_entry n (with_type type);;
        mret (Some n)
      else scan_free k' (n + 1) status type refcount
  end.

Definition latency_elapsed (wait_start : Z) : C bool :=
  k ← mread tp_ts_reads;
  mmod (set_ts_reads S);; mret (io_max_latency_elapsed k wait_start).

(** [num_passes < 3 || (blocking && !io_max_latency_elapsed(cc->io, wait_start))] *)
Definition passes_left (blocking : bool) (num_passes wait_start : Z) : C bool :=
  if num_passes <? 3 then mret true else
  if blocking then (b ← latency_elapsed wait_start; mret (negb b)) else mret false.

(** The [while] loop of [treepass_get_free_page]; [None] when it ends. *)
Fixpoint free_page_loop (fuel : nat) (status : Z) (type : page_type) (refcount blocking : bool)
    (num_passes max_hand wait_start : Z) : C (option Z) :=
  go ← passes_left blocking num_passes wait_start;
  if negb go then mret None else
  match fuel with
  | O => mfuel
  | S fuel' =>
      hand ← get_free_hand;
      found ← scan_free (Z.to_nat TP_ENTRIES_PER_BATCH) (hand * TP_ENTRIES_PER_BATCH)
                status type refcount;
      match found with
      | Some n => mret (Some n)
      | None =>
          num_passes ← treepass_move_hand num_passes;
          hand ← get_free_hand;
          if hand <? max_hand then
            let num_passes := num_passes + 1 in
            wait_start ← (if num_passes =? 1 then platform_get_timestamp else mret wait_start);
            treepass_wait;;
            hand ← get_free_hand;
            free_page_loop fuel' status type refcount blocking num_passes hand wait_start
          else
            free_page_loop fuel' status type refcount blocking num_passes hand wait_start
      end
  end.

Definition treepass_get_free_page (status : Z) (type : page_type) (refcount blocking : bool) : C Z :=
  max_hand ← get_free_hand;
  mwhen (max_hand =? TP_UNMAPPED_ENTRY) (_ ← treepass_move_hand 0; mret tt);;
  found ← free_page_loop retry_fuel status type refcount blocking 0 max_hand 0;
  match found with
  | Some n => mret n
  | None => massert (negb blocking);; mret TP_UNMAPPED_ENTRY
  end.

(** ** Flush and evict everything *)
(** [io_wait_all]: every submitted request completes. *)
Fixpoint io_wait_all (fuel : nat) : C unit :=
  cc ← mget;
  if bool_decide (tp_pending cc = []) then mret tt else
  match fuel with
  | O => mfuel
  | S fuel' => io_complete 0;; io_wait_all fuel'
  end.
Definition wait_all : C unit := cc ← mget; io_wait_all (length (tp_pending cc)).

Definition treepass_flush : C unit :=
  wait_all;;
  cc ← mget;
  mfor (Z.to_nat (tp_page_capacity (tp_cfg cc) / TP_ENTRIES_PER_BATCH)) 0
    (λ flush_hand, treepass_batch_start_writeback flush_hand TP_CLOCK_MAX);;
  wait_all.

Definition treepass_assert_no_refs_and_pins : C unit :=
  cc ← mget;
  mfor (Z.to_nat MAX_THREADS) 0 (λ i,
    mfor (Z.to_nat (tp_page_capacity (tp_cfg cc))) 0 (λ j,
      r ← treepass_get_ref j i; massert (r =? 0))).

Definition treepass_evict_all (ignore_pinned_pages : bool) : C Z :=
  mwhen (negb ignore_pinned_pages) treepass_assert_no_refs_and_pins;;
  cc ← mget;
  mfor (Z.to_nat (tp_batch_capacity (tp_cfg cc))) 0 (λ evict_hand,
    mfor (Z.to_nat (TP_CLOCK_MAX + 1)) 0 (λ _, treepass_evict_batch evict_hand false));;
  mret 0.

(** ** Allocation *)
Definition treepass_alloc (addr : Z) (type : page_type) : C Z :=
  n ← treepass_get_free_page (Z.lor TP_ALLOC_STATUS TP_CLOCK_ONE) type true true;
  mod_entry n (with_disk_addr addr);;
  mod_entry n (with_type type);;
  massert (negb (bool_decide (type = PAGE_TYPE_TRUNK)) || negb (treepass_current_ts th =? 0));;
  mod_entry n (with_entry_time (treepass_current_ts th));;
  store_lookup addr n;; mret n.

Definition treepass_alloc_compaction_hot (addr : Z) (type : page_type) : C Z :=
  n ← treepass_get_free_page
        (Z.lor TP_ALLOC_STATUS (Z.shiftl TP_CLOCK_MAX TP_CLOCK_SHIFT)) type true true;
  mod_entry n (with_disk_addr addr);;
  mod_entry n (with_type type);;
  now ← (if bool_decide (type = PAGE_TYPE_BRANCH) then platform_get_timestamp else mret 0);
  mod_entry n (with_entry_time now);;
  store_lookup addr n;; mret n.

(** ** Discard *)
(** The retries of the C loop change nothing another thread could not: [Block]. *)
Definition treepass_try_page_discard (addr : Z) : C unit :=
  n ← treepass_lookup addr;
  if n =? TP_UNMAPPED_ENTRY then mret tt else
  rc ← treepass_get_read n;
  match rc with
  | GET_RC_SUCCESS =>
    wait_flag n TP_LOADING;;
    e ← treepass_get_entry n;
    if negb (e_disk_addr e =? addr) then mblock else
    rc ← treepass_try_get_claim n;
    match rc with
    | GET_RC_SUCCESS =>
      treepass_get_write n;;
      e ← treepass_get_entry n;
      stat_add (if has_flag (e_status e) TP_CLEAN then discard_clean else discard_dirty)
        (e_type e) 1;;
      store_lookup addr TP_UNMAPPED_ENTRY;;
      mod_entry n (with_disk_addr TP_UNMAPPED_ADDR);;
      mod_entry n (with_entry_time 0);;
      massert (bool_decide (e_waiters e = []));;
      mod_entry n (with_type PAGE_TYPE_INVALID);;
      mod_entry n (with_status TP_FREE_STATUS);;
      treepass_reset_pin n;;
      treepass_dec_ref n (tid th)
    | _ => mblock
    end
  | _ => mblock
  end.

Definition treepass_extent_discard (addr : Z) (type : page_type) : C unit :=
  cc ← mget;
  mfor (Z.to_nat (tp_pages_per_extent (tp_cfg cc))) 0 (λ i,
    let page_addr := u64 (addr + treepass_multiply_by_page_size (tp_cfg cc) i) in
    mwhen (tp_use_stats (tp_cfg cc))
      (e ← treepass_lookup page_addr;
       mwhen (e =? TP_UNMAPPED_ENTRY) (stat_add discard_uncached type 1));;
    treepass_try_page_discard page_addr).

(** ** Get *)
(** What a get leaves in the caller's [page_handle *]. *)
Inductive handle : Type := Page (n : Z) | NULL | Uninitialized.
#[export] Instance handle_eq_dec : EqDecision handle.
Proof. solve_decision. Defined.

(** The tail of [treepass_get_in_cache] once the read lock is held. *)
Definition get_in_cache_locked (addr : Z) (type : page_type) (is_warm : bool) (n : Z)
    : C (bool * handle) :=
  wait_flag n TP_LOADING;;
  e ← treepass_get_entry n;
  if negb (e_disk_addr e =? addr)
  then treepass_dec_ref n (tid th);; mret (true, Uninitialized) else
  massert (bool_decide (e_type e = type));;
  mwhen (is_warm && bool_decide (type = PAGE_TYPE_BRANCH) && (e_entry_time e =? 0))
    (mod_entry n (with_entry_time (treepass_current_ts th)));;
  stat_add cache_hits type 1;;
  mret (false, Page n).

(** Returns whether the caller must retry, and the handle it wrote. *)
Definition treepass_get_in_cache (addr : Z) (blocking : bool) (type : page_type)
    (is_warm : bool) (n : Z) : C (bool * handle) :=
  rc ← (if blocking then treepass_get_read n else treepass_try_get_read n true);
  match rc with
  | GET_RC_SUCCESS =>
      e ← treepass_get_entry n;
      if negb (e_disk_addr e =? addr)
      then treepass_dec_ref n (tid th);; mret (true, Uninitialized)
      else get_in_cache_locked addr type is_warm n
  | GET_RC_CONFLICT => if blocking then mret (true, Uninitialized) else mret (false, NULL)
  | GET_RC_EVICTED => mret (true, Uninitialized)
  | GET_RC_FLUSHING => massert blocking;; mret (true, Uninitialized)
  end.

Definition treepass_acquire_entry_for_load (addr : Z) (type : page_type) : C Z :=
  n ← treepass_get_free_page TP_READ_LOADING_STATUS type true true;
  _ ← treepass_get_entry n;
  m ← treepass_lookup addr;
  if negb (m =? TP_UNMAPPED_ENTRY) then
    treepass_dec_ref n (tid th);;
    e ← treepass_get_entry n;
    massert (bool_decide (e_waiters e = []));;
    mod_entry n (with_type PAGE_TYPE_INVALID);;
    mod_entry n (with_status TP_FREE_STATUS);;
    mret TP_UNMAPPED_ENTRY
  else
    store_lookup addr n;;
    mod_entry n (with_disk_addr addr);;
    mret n.

(** A timestamp taken only for the statistics. *)
Definition stat_timestamp : C Z :=
  cc ← mget; if tp_use_stats (tp_cfg cc) then platform_get_timestamp else mret 0.

Definition treepass_get_from_disk (addr : Z) (type : page_type) (is_warm : bool)
    : C (bool * handle) :=
  n ← treepass_acquire_entry_for_load addr type;
  if n =? TP_UNMAPPED_ENTRY then mret (true, Uninitialized) else
  io_start ← stat_timestamp;
  cc ← mget;
  mod_entry n (with_data (disk_read cc addr));;
  io_end ← stat_timestamp;
  mwhen ((bool_decide (type = PAGE_TYPE_BRANCH) && is_warm) || bool_decide (type = PAGE_TYPE_TRUNK))
    (massert (negb (treepass_current_ts th =? 0));;
     mod_entry n (with_entry_time (treepass_current_ts th)));;
  treepass_finish_load n;;
  stat_add cache_misses type 1;;
  stat_add page_reads type 1;;
  stat_add cache_miss_time_ns type (u64 (io_end - io_start));;
  mret (false, Page n).

Definition treepass_get_internal (addr : Z) (blocking : bool) (type : page_type)
    (is_warm : bool) : C (bool * handle) :=
  n ← treepass_lookup addr;
  if negb (n =? TP_UNMAPPED_ENTRY) then treepass_get_in_cache addr blocking type is_warm n
  else if blocking then treepass_get_from_disk addr type is_warm
  else mret (false, Uninitialized).

Fixpoint get_loop (fuel : nat) (addr : Z) (blocking : bool) (type : page_type)
    (is_warm : bool) : C handle :=
  '(retry, h) ← treepass_get_internal addr blocking type is_warm;
  if negb retry then mret h else
  match fuel with
  | O => mfuel
  | S fuel' => get_loop fuel' addr blocking type is_warm
  end.
Definition treepass_get (addr : Z) (blocking : bool) (type : page_type) (is_warm : bool) : C handle :=
  get_loop retry_fuel addr blocking type is_warm.
Definition treepass_get_with_miss (addr : Z) (blocking : bool) (type : page_type)
    (is_warm : bool) : C (handle * bool) :=
  n ← treepass_lookup addr;
  let was_miss := n =? TP_UNMAPPED_ENTRY in
  h ← treepass_get addr blocking type is_warm;
  mret (h, was_miss).

(** ** Releasing, claiming, locking, pinning *)
Definition treepass_unget (n : Z) : C unit :=
  e ← treepass_get_entry n;
  mwhen (e_entry_time e =? TP_ENTRY_TIME_PREFETCHED) (mod_entry n (with_entry_time 0));;
  treepass_dec_ref n (tid th).
Definition treepass_try_claim (n : Z) : C bool :=
  rc ← treepass_try_get_claim n;
  mret (match rc with GET_RC_SUCCESS => true | _ => false end).
Definition treepass_unclaim (n : Z) : C unit := _ ← treepass_clear_flag n TP_CLAIMED; mret tt.
Definition treepass_lock (n : Z) : C unit := treepass_get_write n.
Definition treepass_unlock (n : Z) : C unit := _ ← treepass_clear_flag n TP_WRITELOCKED; mret tt.
Definition treepass_mark_dirty (n : Z) : C unit := _ ← treepass_clear_flag n TP_CLEAN; mret tt.
Definition treepass_pin (n : Z) : C unit := treepass_inc_pin n.
Definition treepass_unpin (n : Z) : C unit := treepass_dec_pin n.

(** ** Sync *)
Definition treepass_page_sync (n : Z) (is_blocking : bool) (type : page_type) : C unit :=
  e ← treepass_get_entry n;
  let addr := e_disk_addr e in
  ok ← treepass_try_set_writeback n TP_CLOCK_MAX;
  if negb ok then (clean ← treepass_test_flag n TP_CLEAN; massert clean) else
  stat_add page_writes type 1;;
  stat_add syncs_issued PAGE_TYPE_INVALID 1;;
  if negb is_blocking then submit (mk_io_request true addr [n] 0 None) else
  e ← treepass_get_entry n;
  mmod (set_device (insert addr (e_data e)) id id);;
  _ ← treepass_set_flag n TP_CLEAN;
  _ ← treepass_clear_flag n TP_WRITEBACK; mret tt.

(** [treepass_extent_sync] from page [i] on; [req] is the open request, if any:
    its first address and its pages so far. *)
Definition sync_run (c : Z) (req : option (Z * list Z)) : C unit :=
  match req with
  | None => mret tt
  | Some (a, pages) =>
      mmod (set_device id id (alter (λ v, u64 (v + lengthZ pages)) c));;
      submit (mk_io_request true a pages 0 (Some c))
  end.
Fixpoint extent_sync_from (k : nat) (i addr c : Z) (req : option (Z * list Z)) : C unit :=
  match k with
  | O => sync_run c req
  | S k' =>
      cc ← mget;
      let page_addr := u64 (addr + treepass_multiply_by_page_size (tp_cfg cc) i) in
      n ← treepass_lookup page_addr;
      ok ← (if n =? TP_UNMAPPED_ENTRY then mret false
            else treepass_try_set_writeback n TP_CLOCK_MAX);
      if ok : bool then
        extent_sync_from k' (i + 1) addr c
          (Some (match req with
                 | None => (page_addr, [n])
                 | Some (a, pages) => (a, pages ++ [n])
                 end))
      else sync_run c req;; extent_sync_from k' (i + 1) addr c None
  end.
Definition treepass_extent_sync (addr c : Z) : C unit :=
  cc ← mget;
  extent_sync_from (Z.to_nat (tp_pages_per_extent (tp_cfg cc))) 0 addr c None.

(** ** Prefetch *)
Definition prefetch_run (type : page_type) (req : option (Z * list Z)) : C unit :=
  match req with
  | None => mret tt
  | Some (a, pages) =>
      stat_add page_reads type (lengthZ pages);;
      stat_add prefetches_issued type 1;;
      submit (mk_io_request false a pages 0 None)
  end.
(** Map the loading entry [f], or give it back when the page has been cached
    meanwhile ([None]: the page is tried again). *)
Definition prefetch_map (addr f : Z) (req : option (Z * list Z))
    : C (option (option (Z * list Z))) :=
  m ← treepass_lookup addr;
  if m =? TP_UNMAPPED_ENTRY then
    store_lookup addr f;;
    mret (Some (Some (match req with
                      | None => (addr, [f])
                      | Some (a, pages) => (a, pages ++ [f])
                      end)))
  else
    mod_entry f (with_disk_addr TP_UNMAPPED_ADDR);;
    mod_entry f (with_entry_time 0);;
    mod_entry f (with_type PAGE_TYPE_INVALID);;
    e ← treepass_get_entry f;
    massert (bool_decide (e_waiters e = []));;
    mod_entry f (with_status TP_FREE_STATUS);;
    mret None.
(** One page: [None] asks for the page to be tried again. *)
Definition prefetch_page (addr : Z) (type : page_type) (req : option (Z * list Z))
    : C (option (option (Z * list Z))) :=
  n ← treepass_lookup addr;
  rc ← (if n =? TP_UNMAPPED_ENTRY then mret GET_RC_EVICTED else treepass_try_get_read n true);
  match rc with
  | GET_RC_SUCCESS => treepass_dec_ref n (tid th);; prefetch_run type req;; mret (Some None)
  | GET_RC_CONFLICT => prefetch_run type req;; mret (Some None)
  | GET_RC_EVICTED =>
      f ← treepass_get_free_page TP_READ_LOADING_STATUS type false true;
      mod_entry f (with_disk_addr addr);;
      mod_entry f (with_type type);;
      mwhen (bool_decide (type = PAGE_TYPE_BRANCH))
        (mod_entry f (with_entry_time TP_ENTRY_TIME_PREFETCHED));;
      prefetch_map addr f req
  | GET_RC_FLUSHING => massert false;; mret None
  end.
Fixpoint prefetch_from (fuel : nat) (page_off base_addr : Z) (type : page_type)
    (req : option (Z * list Z)) : C unit :=
  cc ← mget;
  if tp_pages_per_extent (tp_cfg cc) <=? page_off then prefetch_run type req else
  match fuel with
  | O => mfuel
  | S fuel' =>
      r ← prefetch_page
            (u64 (base_addr + treepass_multiply_by_page_size (tp_cfg cc) page_off)) type req;
      match r with
      | None => prefetch_from fuel' page_off base_addr type req
      | Some req => prefetch_from fuel' (page_off + 1) base_addr type req
      end
  end.
Definition treepass_prefetch (base_addr : Z) (type : page_type) : C unit :=
  prefetch_from retry_fuel 0 base_addr type None.

(** ** Queries *)
Fixpoint count_dirty_from (k : nat) (n count : Z) : C Z :=
  match k with
  | O => mret count
  | S k' =>
      clean ← treepass_test_flag n TP_CLEAN;
      free ← treepass_test_flag n TP_FREE;
      count_dirty_from k' (n + 1) (if negb clean && negb free then u32 (count + 1) else count)
  end.
Definition treepass_count_dirty : C Z :=
  cc ← mget; count_dirty_from (Z.to_nat (tp_page_capacity (tp_cfg cc))) 0 0.

Fixpoint any_ref (n : Z) (k : nat) (i : Z) : C bool :=
  match k with
  | O => mret false
  | S k' => r ← treepass_get_ref n i; if 0 <? r then mret true else any_ref n k' (i + 1)
  end.
Definition treepass_in_use (addr : Z) : C bool :=
  n ← treepass_lookup addr;
  if n =? TP_UNMAPPED_ENTRY then mret false else
  r ← any_ref n (Z.to_nat TP_RC_WIDTH) 0;
  if r : bool then mret true else treepass_test_flag n TP_WRITELOCKED.
Definition treepass_present (n : Z) : C bool :=
  e ← treepass_get_entry n;
  m ← treepass_lookup (e_disk_addr e);
  mret (negb (m =? TP_UNMAPPED_ENTRY)).
Definition treepass_get_page_clock (addr : Z) : C (Z * Z) :=
  n ← treepass_lookup addr;
  if n =? TP_UNMAPPED_ENTRY then mret (0, 0) else
  e ← treepass_get_entry n;
  c ← treepass_get_clock n; mret (c, e_entry_time e).
Definition treepass_set_page_clock (n clock : Z) : C unit := treepass_set_clock n clock.
End treepass.

(** ** Initialisation *)
(** [ei_ewma_alpha = 0.2]: the double nearest to one fifth. *)
Definition default_alpha : spec_float := S754_finite false 7205759403792794 (-55).

Definition treepass_config_init (io : io_config) (cap : Z) (use_stats : bool) : treepass_config :=
  mk_treepass_config (page_size io) (extent_size io) cap use_stats
    (log2_floor (page_size io)) (u32 (cap / page_size io)) 0 0 0
    default_alpha 1000000000.

Definition empty_entry : treepass_entry :=
  mk_entry [] TP_UNMAPPED_ADDR 0 TP_FREE_STATUS PAGE_TYPE_INVALID [].

(** [treepass_init] when every allocation succeeds; [None] when an assertion
    fails.  [disk] is the device's contents, [now] the clock's reading. *)
Definition treepass_init (cfg0 : treepass_config) (al : allocator_config)
    (disk : gmap Z page_data) (now : Z) : option treepass :=
  let page_cap := tp_page_capacity cfg0 in
  let cfg := mk_treepass_config (tp_page_size cfg0) (tp_extent_size cfg0) (tp_capacity cfg0)
    (tp_use_stats cfg0) (tp_log_page_size cfg0) page_cap
    (page_cap / TP_ENTRIES_PER_BATCH) (page_cap / PLATFORM_CACHELINE_SIZE)
    (treepass_divide_by_page_size cfg0 (tp_extent_size cfg0))
    (tp_ei_ewma_alpha cfg0) (tp_ei_initial_per_gb_ns cfg0) in
  if (page_cap `mod` PLATFORM_CACHELINE_SIZE =? 0)
     && (tp_capacity cfg0 =? treepass_multiply_by_page_size cfg0 page_cap)
     && (page_cap `mod` TP_ENTRIES_PER_BATCH =? 0)
  then Some (mk_treepass cfg al
    (replicate (Z.to_nat (treepass_divide_by_page_size cfg0 (capacity al))) TP_UNMAPPED_ENTRY)
    (replicate (Z.to_nat page_cap) empty_entry)
    (replicate (Z.to_nat (page_cap * TP_RC_WIDTH)) 0)
    (replicate (Z.to_nat page_cap) 0)
    1 0
    (replicate (Z.to_nat (page_cap / TP_ENTRIES_PER_BATCH)) false)
    TP_CLEANER_GAP EI_NOT_READY now 0 0 0 0
    (replicate (Z.to_nat MAX_THREADS) (mk_per_thread TP_UNMAPPED_ENTRY true))
    (λ _ _ _, 0) disk [] ∅ O)
  else None.
