(* ===== verification/TreePassInv.v ===== *)
(** * The cache invariant and the flat memory the cache presents

    Every page of the device has one value a reader must see: the cached copy
    when the page is mapped and loaded, the device's copy otherwise ([view]).
    [Inv v] says the cache state is well formed and presents the memory [v];
    the lemmas here are the atomic updates that keep it. *)
From S2P Require Import Prelude Allocator TreePassStatus TreePassState TreePass.

Definition is_free (e : treepass_entry) : bool := has_flag (e_status e) TP_FREE.
Definition is_clean (e : treepass_entry) : bool := has_flag (e_status e) TP_CLEAN.
Definition is_loading (e : treepass_entry) : bool := has_flag (e_status e) TP_LOADING.
Definition is_writeback (e : treepass_entry) : bool := has_flag (e_status e) TP_WRITEBACK.

Record cfg_ok (cfg : treepass_config) : Prop := {
  cfg_log : 1 ≤ tp_log_page_size cfg < 64;
  cfg_page_size : tp_page_size cfg = 2 ^ tp_log_page_size cfg;
  cfg_cacheline : tp_page_capacity cfg = 64 * tp_cacheline_capacity cfg;
  cfg_cap : 0 < tp_page_capacity cfg < TP_UNMAPPED_ENTRY;
}.

(** The device address of page number [i]. *)
Definition page_addr (cc : treepass) (i : Z) : Z := Z.shiftl i (tp_log_page_size (tp_cfg cc)).

(** What an operation in progress relies on: the configuration, requests whose pages it has
    flagged but which it has not submitted yet, and pages that are not cached and
    that nothing else may cache. *)
Record window := mk_window {
  w_cfg : treepass_config;
  w_open : list io_request;
  w_absent : list Z;
}.
Definition idle (cfg : treepass_config) : window := mk_window cfg [] [].
Definition push (r : io_request) (w : window) : window :=
  mk_window (w_cfg w) (r :: w_open w) (w_absent w).
Definition absent (i : Z) (w : window) : window :=
  mk_window (w_cfg w) (w_open w) (i :: w_absent w).

Section invariant.
  Context {open : window}.

(** What a pending request says of its [k]-th page [n]: it is page [j] of the
    device, mapped to [n], and carries the flag of the transfer. *)
Definition pending_page (cc : treepass) (r : io_request) (k : nat) (n : Z) : Prop :=
  ∃ j e, io_addr r + page_addr cc (Z.of_nat k) = page_addr cc j ∧
    lookupZ (tp_lookup cc) j = Some n ∧ lookupZ (tp_entry cc) n = Some e ∧
    (if io_is_write r then is_writeback e && negb (is_loading e) else is_loading e) = true.

Definition requests (cc : treepass) : list io_request := w_open open ++ tp_pending cc.
Definition pending_pages (cc : treepass) : list Z := concat (io_iovec <$> requests cc).

Record cache_inv (cc : treepass) : Prop := {
  inv_fixed : tp_cfg cc = w_cfg open;
  inv_cfg : cfg_ok (tp_cfg cc);
  inv_entry_len : lengthZ (tp_entry cc) = tp_page_capacity (tp_cfg cc);
  inv_lookup_len : page_addr cc (lengthZ (tp_lookup cc)) ≤ 2 ^ 63;
  inv_status : ∀ n e, lookupZ (tp_entry cc) n = Some e → status_wf (e_status e);
  inv_mapped : ∀ i n, lookupZ (tp_lookup cc) i = Some n → n ≠ TP_UNMAPPED_ENTRY →
    ∃ e, lookupZ (tp_entry cc) n = Some e ∧ e_disk_addr e = page_addr cc i ∧
         is_free e = false;
  inv_homed : ∀ n e, lookupZ (tp_entry cc) n = Some e → is_free e = false →
    ∃ i, lookupZ (tp_lookup cc) i = Some n;
  inv_free : ∀ n e, lookupZ (tp_entry cc) n = Some e → is_free e = true →
    e_disk_addr e = TP_UNMAPPED_ADDR;
  inv_clean : ∀ i n e, lookupZ (tp_lookup cc) i = Some n →
    lookupZ (tp_entry cc) n = Some e → is_clean e = true → is_loading e = false →
    e_data e = disk_read cc (page_addr cc i);
  inv_pending_nodup : NoDup (pending_pages cc);
  inv_pending : ∀ r k n, r ∈ requests cc → io_iovec r !! k = Some n →
    pending_page cc r k n;
  inv_absent : ∀ i, i ∈ w_absent open → lookupZ (tp_lookup cc) i = Some TP_UNMAPPED_ENTRY;
}.

(** The value of page [i] of the flat memory. *)
Definition view (cc : treepass) (i : Z) : page_data :=
  match lookupZ (tp_lookup cc) i with
  | Some n =>
      match lookupZ (tp_entry cc) n with
      | Some e => if is_loading e then disk_read cc (page_addr cc i) else e_data e
      | None => disk_read cc (page_addr cc i)
      end
  | None => disk_read cc (page_addr cc i)
  end.

Definition Inv (v : Z → page_data) (cc : treepass) : Prop :=
  cache_inv cc ∧ ∀ i, view cc i = v i.

(** ** Updates of fields the invariant does not read *)
Definition same_memory (s s' : treepass) : Prop :=
  tp_cfg s' = tp_cfg s ∧ tp_lookup s' = tp_lookup s ∧ tp_entry s' = tp_entry s ∧
  tp_disk s' = tp_disk s ∧ tp_pending s' = tp_pending s.

Lemma Inv_ext v s s' : same_memory s s' → Inv v s → Inv v s'.
Proof.
  destruct s, s'. unfold same_memory. simpl. intros (-> & -> & -> & -> & ->) [Hi Hv].
  split; [|exact Hv]. destruct Hi. constructor; assumption.
Qed.

Lemma preserves_same_memory v {A} (m : C A) :
  (∀ s a s', m s = Ret (a, s') → same_memory s s') → preserves (Inv v) m.
Proof. intros Hm s a s' HI H. eapply Inv_ext; [|done]. by eapply Hm. Qed.

Lemma page_addr_inj cc i j :
  cfg_ok (tp_cfg cc) → page_addr cc i = page_addr cc j → i = j.
Proof.
  intros [Hl _ _ _]. unfold page_addr. rewrite !Z.shiftl_mul_pow2 by lia.
  intros H. apply Z.mul_cancel_r in H; [done|]. apply Z.pow_nonzero; lia.
Qed.

Lemma page_addr_bound cc i n :
  cache_inv cc → lookupZ (tp_lookup cc) i = Some n → 0 ≤ page_addr cc i < 2 ^ 63.
Proof.
  intros [_ [Hl _ _ _] _ Hlen _ _ _ _ _ _ _ _] Hi%lookupZ_Some. unfold page_addr in *.
  rewrite !Z.shiftl_mul_pow2 in * by lia.
  assert (0 < 2 ^ tp_log_page_size (tp_cfg cc)) by (apply Z.pow_pos_nonneg; lia). nia.
Qed.

Lemma page_addr_shiftr cc i :
  cfg_ok (tp_cfg cc) → Z.shiftr (page_addr cc i) (tp_log_page_size (tp_cfg cc)) = i.
Proof.
  intros [Hl _ _ _]. unfold page_addr. rewrite Z.shiftr_shiftl_l by lia.
  by rewrite Z.sub_diag, Z.shiftl_0_r.
Qed.

(** An entry is mapped at one page at most, its own. *)
Lemma mapped_unique cc i j n :
  cache_inv cc → lookupZ (tp_lookup cc) i = Some n → lookupZ (tp_lookup cc) j = Some n →
  n ≠ TP_UNMAPPED_ENTRY → i = j.
Proof.
  intros HI Hi Hj Hn.
  destruct (inv_mapped _ HI _ _ Hi Hn) as (e & He & Ha & _).
  destruct (inv_mapped _ HI _ _ Hj Hn) as (e' & He' & Ha' & _).
  simplify_eq. eapply page_addr_inj; [apply HI|]. congruence.
Qed.

Lemma entry_index_bound cc n e :
  cache_inv cc → lookupZ (tp_entry cc) n = Some e → n ≠ TP_UNMAPPED_ENTRY.
Proof.
  intros HI Hn%lookupZ_Some. rewrite (inv_entry_len _ HI) in Hn.
  pose proof (cfg_cap _ (inv_cfg _ HI)). lia.
Qed.

Definition unmapped (cc : treepass) (n : Z) : Prop :=
  ∀ i, lookupZ (tp_lookup cc) i ≠ Some n.

(** ** Updates of one entry *)
Definition set_entry (n : Z) (e : treepass_entry) (cc : treepass) : treepass :=
  set_entries (insertZ n e) cc.

(** A change that keeps the page where it is and says nothing new of its
    contents: locks, claims, the clock, marking dirty, starting writeback. *)
Record benign (e e' : treepass_entry) : Prop := {
  ben_data : e_data e' = e_data e;
  ben_addr : e_disk_addr e' = e_disk_addr e;
  ben_wf : status_wf (e_status e) → status_wf (e_status e');
  ben_free : status_wf (e_status e) → is_free e' = is_free e;
  ben_loading : status_wf (e_status e) → is_loading e' = is_loading e;
  ben_clean : status_wf (e_status e) → is_clean e' = true → is_clean e = true;
  ben_writeback : status_wf (e_status e) → is_writeback e = true → is_writeback e' = true;
}.

Lemma lookup_set_entry n e cc m e0 :
  lookupZ (tp_entry cc) n = Some e0 →
  lookupZ (tp_entry (set_entry n e cc)) m =
  if decide (n = m) then Some e else lookupZ (tp_entry cc) m.
Proof.
  intros Hn%lookupZ_Some. simpl. destruct (decide (n = m)) as [<-|].
  - by apply lookupZ_insertZ_eq.
  - by apply lookupZ_insertZ_ne.
Qed.

Lemma Inv_benign v cc n e e' :
  Inv v cc → lookupZ (tp_entry cc) n = Some e → benign e e' → Inv v (set_entry n e' cc).
Proof.
  intros [HI Hv] Hn Hb. pose proof (inv_status _ HI _ _ Hn) as Hwf.
  pose proof (λ m, lookup_set_entry n e' cc m e Hn) as Hlk.
  split; [constructor|].
  - apply HI.
  - apply HI.
  - simpl. rewrite lengthZ_insertZ. apply HI.
  - apply HI.
  - intros m e1. rewrite Hlk. case_decide; [|by apply HI].
    intros [= <-]. by eapply ben_wf.
  - intros i m Hi Hm. destruct (inv_mapped _ HI i m Hi Hm) as (e1 & He1 & Ha & Hf).
    rewrite Hlk. case_decide; [|by exists e1]. simplify_eq. exists e'. split; [done|].
    rewrite (ben_addr _ _ Hb). split; [done|]. by rewrite (ben_free _ _ Hb Hwf).
  - intros m e1. rewrite Hlk. case_decide; [|by apply HI]. intros [= <-]. subst m.
    rewrite (ben_free _ _ Hb Hwf). by apply HI.
  - intros m e1. rewrite Hlk. case_decide; [|by apply HI]. intros [= <-]. subst m.
    rewrite (ben_free _ _ Hb Hwf), (ben_addr _ _ Hb). by apply (inv_free _ HI n).
  - intros i m e1 Hi. rewrite Hlk. case_decide; [|by eapply HI].
    intros [= <-] Hc Hl. subst m. rewrite (ben_data _ _ Hb).
    apply (inv_clean _ HI i n e Hi Hn).
    + by eapply ben_clean.
    + by rewrite <-(ben_loading _ _ Hb Hwf).
  - apply HI.
  - intros r k m Hr Hk. destruct (inv_pending _ HI r k m Hr Hk) as (j & e1 & Ha & Hj & He1 & Hfl).
    exists j. unfold page_addr in *. rewrite Hlk. case_decide; [|by exists e1]. simplify_eq.
    exists e'. split_and!; [done|done|done|]. rewrite (ben_loading _ _ Hb Hwf).
    destruct (io_is_write r); [|done]. apply andb_true_iff in Hfl as [Hw ->].
    by rewrite (ben_writeback _ _ Hb Hwf Hw).
  - apply HI.
  - intros i. rewrite <-Hv. unfold view. simpl tp_lookup.
    destruct (lookupZ (tp_lookup cc) i) as [m|]; [|done]. rewrite Hlk. case_decide; [|done].
    subst m. rewrite Hn, (ben_loading _ _ Hb Hwf), (ben_data _ _ Hb). done.
Qed.

Lemma free_unmapped cc n e :
  cache_inv cc → lookupZ (tp_entry cc) n = Some e → is_free e = true → unmapped cc n.
Proof.
  intros HI Hn Hf i Hi. pose proof (entry_index_bound _ _ _ HI Hn) as Hne.
  destruct (inv_mapped _ HI _ _ Hi Hne) as (e' & He' & _ & Hf'). congruence.
Qed.

(** A free entry that stays free may change otherwise. *)
Lemma Inv_unmapped v cc n e e' :
  Inv v cc → lookupZ (tp_entry cc) n = Some e → is_free e = true → is_free e' = true →
  e_disk_addr e' = TP_UNMAPPED_ADDR → status_wf (e_status e') → Inv v (set_entry n e' cc).
Proof.
  intros [HI Hv] Hn Hf Hf' Ha' Hwf. pose proof (free_unmapped _ _ _ HI Hn Hf) as Hu.
  pose proof (λ m, lookup_set_entry n e' cc m e Hn) as Hlk.
  split; [constructor|].
  - apply HI.
  - apply HI.
  - simpl. rewrite lengthZ_insertZ. apply HI.
  - apply HI.
  - intros m e1. rewrite Hlk. case_decide; [congruence|by apply HI].
  - intros i m Hi Hm. rewrite Hlk. case_decide; [subst; by destruct (Hu i)|].
    by apply (inv_mapped _ HI).
  - intros m e1. rewrite Hlk. case_decide; [congruence|by apply HI].
  - intros m e1. rewrite Hlk. case_decide; [congruence|by apply HI].
  - intros i m e1 Hi. rewrite Hlk. case_decide; [subst; by destruct (Hu i)|]. by eapply HI.
  - apply HI.
  - intros r k m Hr Hk. destruct (inv_pending _ HI r k m Hr Hk) as (j & e1 & Ha & Hj & He1 & Hfl).
    exists j, e1. unfold page_addr in *. rewrite Hlk.
    case_decide; [subst; by destruct (Hu j)|]. done.
  - apply HI.
  - intros i. rewrite <-Hv. unfold view. simpl tp_lookup.
    destruct (lookupZ (tp_lookup cc) i) as [m|] eqn:Hi; [|done]. rewrite Hlk.
    case_decide; [subst; by destruct (Hu i)|done].
Qed.

(** ** Updates of the lookup table *)
Definition upd (v : Z → page_data) (i : Z) (d : page_data) : Z → page_data :=
  λ j, if decide (j = i) then d else v j.

Lemma Inv_view_ext v v' cc : Inv v cc → (∀ i, v i = v' i) → Inv v' cc.
Proof. intros [HI Hv] He. split; [done|]. intros i. by rewrite Hv. Qed.

Lemma Inv_upd_same v cc i d : Inv v cc → view cc i = d → Inv (upd v i d) cc.
Proof.
  intros [HI Hv] Hd. split; [done|]. intros j. unfold upd. case_decide; [|done]. by subst.
Qed.

Lemma in_pending_pages cc n :
  n ∈ pending_pages cc ↔ ∃ r k, r ∈ requests cc ∧ io_iovec r !! k = Some n.
Proof.
  unfold pending_pages. rewrite list_elem_of_In, in_concat. split.
  - intros (l & Hl & Hn). apply list_elem_of_In in Hl, Hn.
    apply list_elem_of_fmap in Hl as (r & -> & Hr).
    apply list_elem_of_lookup in Hn as [k Hk]. eauto.
  - intros (r & k & Hr & Hk). exists (io_iovec r). split; apply list_elem_of_In.
    + by apply list_elem_of_fmap_2.
    + by eapply list_elem_of_lookup_2.
Qed.

Lemma pending_mapped cc n :
  cache_inv cc → n ∈ pending_pages cc →
  ∃ j e, lookupZ (tp_lookup cc) j = Some n ∧ lookupZ (tp_entry cc) n = Some e ∧
    is_writeback e || is_loading e = true.
Proof.
  intros HI (r & k & Hr & Hk)%in_pending_pages.
  destruct (inv_pending _ HI r k n Hr Hk) as (j & e & _ & Hj & He & Hf).
  exists j, e. split_and!; [done|done|]. destruct (io_is_write r).
  - by apply andb_true_iff in Hf as [-> _].
  - rewrite Hf. apply orb_true_r.
Qed.

Lemma unmapped_not_pending cc n : cache_inv cc → unmapped cc n → n ∉ pending_pages cc.
Proof. intros HI Hu Hn. destruct (pending_mapped _ _ HI Hn) as (j & e & Hj & _). by apply (Hu j). Qed.

Definition set_page (i n : Z) (cc : treepass) : treepass := set_lookup (insertZ i n) cc.

Lemma lookup_set_page i n cc j m :
  lookupZ (tp_lookup cc) i = Some m →
  lookupZ (tp_lookup (set_page i n cc)) j =
  if decide (i = j) then Some n else lookupZ (tp_lookup cc) j.
Proof.
  intros Hi%lookupZ_Some. simpl. case_decide as E; [subst j; by apply lookupZ_insertZ_eq|].
  by apply lookupZ_insertZ_ne.
Qed.

(** A free entry taken for page [i] shows its contents, unless it loads. *)
Lemma Inv_map v cc i n e0 e :
  Inv v cc → lookupZ (tp_entry cc) n = Some e0 → is_free e0 = true →
  lookupZ (tp_lookup cc) i = Some TP_UNMAPPED_ENTRY → i ∉ w_absent open →
  is_free e = false → status_wf (e_status e) → e_disk_addr e = page_addr cc i →
  is_loading e = true ∨ is_clean e = false ∨ e_data e = disk_read cc (page_addr cc i) →
  Inv (if is_loading e then v else upd v i (e_data e)) (set_entry n e (set_page i n cc)).
Proof.
  intros [HI Hv] Hn Hf0 Hi Hab Hf Hwf Ha Hlc.
  pose proof (entry_index_bound _ _ _ HI Hn) as Hne.
  pose proof (free_unmapped _ _ _ HI Hn Hf0) as Hu.
  pose proof (λ j, lookup_set_page i n cc j _ Hi) as Hlp.
  pose proof (λ m, lookup_set_entry n e (set_page i n cc) m e0 Hn) as Hle.
  split; [constructor|].
  - apply HI.
  - apply HI.
  - simpl. rewrite lengthZ_insertZ. apply HI.
  - simpl. rewrite lengthZ_insertZ. apply HI.
  - intros m e1. rewrite Hle. case_decide; [by intros [= <-]|by apply HI].
  - intros j m. change (tp_lookup (set_entry _ _ ?s)) with (tp_lookup s). rewrite Hlp, Hle.
    case_decide.
    + intros [= <-] _. subst j. exists e. by rewrite decide_True.
    + intros Hj Hm. case_decide; [subst m; by destruct (Hu j)|by apply HI].
  - intros m e1. change (tp_lookup (set_entry _ _ ?s)) with (tp_lookup s). rewrite Hle. case_decide.
    + intros _ _. subst m. exists i. by rewrite Hlp, decide_True.
    + intros He1 Hf1. destruct (inv_homed _ HI m e1 He1 Hf1) as [j Hj]. exists j. rewrite Hlp.
      case_decide; [|done]. subst j. exfalso. rewrite Hi in Hj. injection Hj as [= <-].
      by eapply entry_index_bound; [exact HI|exact He1|].
  - intros m e1. rewrite Hle. case_decide; [congruence|by apply HI].
  - intros j m e1. change (tp_lookup (set_entry _ _ ?s)) with (tp_lookup s). rewrite Hlp, Hle.
    case_decide.
    + intros [= <-]. rewrite decide_True by done. intros [= <-] Hc Hl.
      subst j. destruct Hlc as [|[|]]; congruence || done.
    + intros Hj. case_decide; [subst m; by destruct (Hu j)|by eapply HI].
  - apply HI.
  - intros r k m Hr' Hk. destruct (inv_pending _ HI r k m Hr' Hk) as (j & e1 & Ha' & Hj & He1 & Hfl).
    exists j, e1. change (tp_lookup (set_entry _ _ ?s)) with (tp_lookup s). rewrite Hlp, Hle.
    split_and!; [done| | |done].
    + case_decide; [|done]. subst j. exfalso. assert (m = TP_UNMAPPED_ENTRY) as -> by congruence.
      by eapply entry_index_bound; [exact HI|exact He1|].
    + case_decide; [subst m; by destruct (Hu j)|done].
  - intros j Hj. change (tp_lookup (set_entry _ _ ?s)) with (tp_lookup s). rewrite Hlp.
    case_decide; [congruence|by apply HI].
  - intros j. unfold view. change (tp_lookup (set_entry _ _ ?s)) with (tp_lookup s). rewrite Hlp.
    case_decide as E.
    + subst j. rewrite Hle, decide_True by done.
      destruct (is_loading e).
      * rewrite <-Hv. unfold view. rewrite Hi.
        destruct (lookupZ (tp_entry cc) TP_UNMAPPED_ENTRY) eqn:E; [|done].
        exfalso. by eapply entry_index_bound; [exact HI|exact E|].
      * unfold upd. by rewrite decide_True.
    + assert ((if is_loading e then v else upd v i (e_data e)) j = view cc j) as ->.
      { rewrite Hv. destruct (is_loading e); [done|]. unfold upd. by rewrite decide_False. }
      unfold view. destruct (lookupZ (tp_lookup cc) j) as [m|] eqn:Hj; [|done].
      rewrite Hle. case_decide; [subst m; by destruct (Hu j)|done].
Qed.

(** Unmapping and freeing shows the device's copy again. *)
Lemma Inv_unmap v cc i n e e' :
  Inv v cc → lookupZ (tp_lookup cc) i = Some n → lookupZ (tp_entry cc) n = Some e →
  is_loading e = false → is_writeback e = false → is_free e' = true →
  e_disk_addr e' = TP_UNMAPPED_ADDR → status_wf (e_status e') →
  Inv (upd v i (disk_read cc (page_addr cc i)))
    (set_entry n e' (set_page i TP_UNMAPPED_ENTRY cc)).
Proof.
  intros [HI Hv] Hi Hn Hl Hw Hf' Ha' Hwf. pose proof (entry_index_bound _ _ _ HI Hn) as Hne.
  pose proof (λ j, lookup_set_page i TP_UNMAPPED_ENTRY cc j _ Hi) as Hlp.
  pose proof (λ m, lookup_set_entry n e' (set_page i TP_UNMAPPED_ENTRY cc) m e Hn) as Hle.
  assert (∀ j, lookupZ (tp_lookup cc) j = Some n → j = i) as Huq.
  { intros j Hj. by eapply mapped_unique. }
  assert (∀ e1, lookupZ (tp_entry cc) TP_UNMAPPED_ENTRY ≠ Some e1) as Hno.
  { intros e1 He1. by eapply entry_index_bound; [exact HI|exact He1|]. }
  split; [constructor|].
  - apply HI.
  - apply HI.
  - simpl. rewrite lengthZ_insertZ. apply HI.
  - simpl. rewrite lengthZ_insertZ. apply HI.
  - intros m e1. rewrite Hle. case_decide; [by intros [= <-]|by apply HI].
  - intros j m. change (tp_lookup (set_entry _ _ ?s)) with (tp_lookup s). rewrite Hlp, Hle.
    case_decide; [congruence|]. intros Hj Hm. case_decide; [|by apply HI].
    subst m. by rewrite (Huq j Hj) in *.
  - intros m e1. change (tp_lookup (set_entry _ _ ?s)) with (tp_lookup s). rewrite Hle.
    case_decide; [congruence|]. intros He1 Hf1. destruct (inv_homed _ HI m e1 He1 Hf1) as [j Hj].
    exists j. rewrite Hlp. case_decide; [congruence|done].
  - intros m e1. rewrite Hle. case_decide; [congruence|by apply HI].
  - intros j m e1. change (tp_lookup (set_entry _ _ ?s)) with (tp_lookup s). rewrite Hlp, Hle.
    case_decide; [intros [= <-]; rewrite decide_False by congruence; intros E; by destruct (Hno e1)|].
    intros Hj. case_decide; [subst m; by rewrite (Huq j Hj) in *|by eapply HI].
  - apply HI.
  - intros r k m Hr Hk. destruct (inv_pending _ HI r k m Hr Hk) as (j & e1 & Ha & Hj & He1 & Hfl).
    assert (m ≠ n) as Hmn.
    { intros ->. simplify_eq. rewrite Hl, Hw in Hfl. by destruct (io_is_write r). }
    exists j, e1. change (tp_lookup (set_entry _ _ ?s)) with (tp_lookup s). rewrite Hlp, Hle.
    rewrite (decide_False (P := n = m)) by congruence. split_and!; [done| |done|done].
    case_decide; [congruence|done].
  - intros j Hj. change (tp_lookup (set_entry _ _ ?s)) with (tp_lookup s). rewrite Hlp.
    case_decide; [congruence|by apply HI].
  - intros j. unfold view, upd. change (tp_lookup (set_entry _ _ ?s)) with (tp_lookup s).
    rewrite Hlp. case_decide as E.
    + subst j. rewrite decide_True by done. rewrite Hle, decide_False by congruence.
      simpl. destruct (lookupZ (tp_entry cc) TP_UNMAPPED_ENTRY) eqn:E; [by destruct (Hno t)|done].
    + rewrite decide_False by done. rewrite <-Hv. unfold view.
      destruct (lookupZ (tp_lookup cc) j) as [m|] eqn:Hj; [|done].
      rewrite Hle. case_decide; [subst m; by rewrite (Huq j Hj) in *|done].
Qed.

Lemma view_unmapped v cc i :
  Inv v cc → lookupZ (tp_lookup cc) i = Some TP_UNMAPPED_ENTRY →
  v i = disk_read cc (page_addr cc i).
Proof.
  intros [HI Hv] Hi. rewrite <-Hv. unfold view. rewrite Hi.
  destruct (lookupZ (tp_entry cc) TP_UNMAPPED_ENTRY) eqn:E; [|done].
  exfalso. by eapply entry_index_bound; [exact HI|exact E|].
Qed.

Lemma upd_clean v cc i n e :
  Inv v cc → lookupZ (tp_lookup cc) i = Some n → lookupZ (tp_entry cc) n = Some e →
  is_loading e = false → is_clean e = true →
  ∀ j, upd v i (disk_read cc (page_addr cc i)) j = v j.
Proof.
  intros [HI Hv] Hi Hn Hl Hc j. unfold upd. case_decide; [|done]. subst j.
  rewrite <-Hv. unfold view. by rewrite Hi, Hn, Hl, (inv_clean _ HI i n e).
Qed.

(** ** Transfers *)
(** The device writes the page an entry maps: nothing a reader sees changes. *)
Definition write_disk (a : Z) (d : page_data) (cc : treepass) : treepass :=
  set_device (insert a d) id id cc.

Lemma disk_read_write_disk cc a d b :
  disk_read (write_disk a d cc) b = if decide (a = b) then d else disk_read cc b.
Proof.
  unfold disk_read. simpl. case_decide; [subst; by rewrite lookup_insert_eq|].
  by rewrite lookup_insert_ne.
Qed.

Lemma Inv_write_disk v cc i n e :
  Inv v cc → lookupZ (tp_lookup cc) i = Some n → lookupZ (tp_entry cc) n = Some e →
  is_loading e = false → Inv v (write_disk (page_addr cc i) (e_data e) cc).
Proof.
  intros [HI Hv] Hi Hn Hl.
  assert (∀ j, disk_read (write_disk (page_addr cc i) (e_data e) cc) (page_addr cc j)
    = if decide (i = j) then e_data e else disk_read cc (page_addr cc j)) as Hd.
  { intros j. rewrite disk_read_write_disk. repeat case_decide; try done.
    - by destruct H0; eapply page_addr_inj; [apply HI|].
    - by subst. }
  split; [constructor; try apply HI|].
  - intros j m e1 Hj He1 Hc Hl1. change (page_addr (write_disk _ _ cc)) with (page_addr cc).
    rewrite Hd. case_decide; [|by eapply HI]. subst j. simpl in *. by simplify_eq.
  - intros j. rewrite <-Hv. unfold view.
    change (page_addr (write_disk _ _ cc)) with (page_addr cc). rewrite Hd. simpl.
    case_decide; [|done]. subst j. by rewrite Hi, Hn, Hl.
Qed.

(** The buffer of a loading page may hold anything. *)
Lemma Inv_loading_data v cc n e d :
  Inv v cc → lookupZ (tp_entry cc) n = Some e → is_loading e = true →
  Inv v (set_entry n (with_data d e) cc).
Proof.
  intros [HI Hv] Hn Hl.
  pose proof (λ m, lookup_set_entry n (with_data d e) cc m e Hn) as Hlk.
  split; [constructor|].
  - apply HI.
  - apply HI.
  - simpl. rewrite lengthZ_insertZ. apply HI.
  - apply HI.
  - intros m e1. rewrite Hlk. case_decide; [|by apply HI]. intros [= <-].
    exact (inv_status _ HI _ _ Hn).
  - intros i m Hi Hm. destruct (inv_mapped _ HI i m Hi Hm) as (e1 & He1 & Ha & Hf).
    rewrite Hlk. case_decide; [|by exists e1]. simplify_eq. by exists (with_data d e).
  - intros m e1. rewrite Hlk. case_decide; [|by apply HI]. intros [= <-] Hf. subst m.
    exact (inv_homed _ HI n e Hn Hf).
  - intros m e1. rewrite Hlk. case_decide; [|by apply HI]. intros [= <-] Hf. subst m.
    exact (inv_free _ HI n e Hn Hf).
  - intros i m e1 Hi. rewrite Hlk. case_decide; [|by eapply HI].
    intros [= <-] _ Hl'. unfold is_loading in *. simpl in Hl'. congruence.
  - apply HI.
  - intros r k m Hr Hk. destruct (inv_pending _ HI r k m Hr Hk) as (j & e1 & Ha & Hj & He1 & Hfl).
    exists j. unfold page_addr in *. rewrite Hlk. case_decide; [|by exists e1]. simplify_eq.
    by exists (with_data d e).
  - apply HI.
  - intros i. rewrite <-Hv. unfold view. simpl tp_lookup.
    destruct (lookupZ (tp_lookup cc) i) as [m|]; [|done]. rewrite Hlk. case_decide; [|done].
    subst m. rewrite Hn, Hl. unfold is_loading in *. simpl. by rewrite Hl.
Qed.

(** A page whose buffer agrees with the device, and that no request names, may
    become clean, stop loading and leave writeback. *)
Lemma Inv_settle v cc i n e st :
  Inv v cc → lookupZ (tp_lookup cc) i = Some n → lookupZ (tp_entry cc) n = Some e →
  e_data e = disk_read cc (page_addr cc i) → n ∉ pending_pages cc →
  status_wf st → has_flag st TP_FREE = false →
  Inv v (set_entry n (with_status st e) cc).
Proof.
  intros [HI Hv] Hi Hn Hd Hp Hwf Hf. pose proof (entry_index_bound _ _ _ HI Hn) as Hne.
  pose proof (λ m, lookup_set_entry n (with_status st e) cc m e Hn) as Hlk.
  split; [constructor|].
  - apply HI.
  - apply HI.
  - simpl. rewrite lengthZ_insertZ. apply HI.
  - apply HI.
  - intros m e1. rewrite Hlk. case_decide; [by intros [= <-]|by apply HI].
  - intros j m Hj Hm. destruct (inv_mapped _ HI j m Hj Hm) as (e1 & He1 & Ha & Hf1).
    rewrite Hlk. case_decide; [|by exists e1]. simplify_eq. by exists (with_status st e).
  - intros m e1. rewrite Hlk. case_decide; [intros _ _; subst m; by exists i|by apply HI].
  - intros m e1. rewrite Hlk. case_decide; [|by apply (inv_free _ HI)]. intros [= <-]. unfold is_free. simpl. congruence.
  - intros j m e1 Hj. rewrite Hlk. case_decide; [|by eapply HI]. intros [= <-] _ _. subst m.
    by rewrite (mapped_unique _ _ _ _ HI Hj Hi Hne).
  - apply HI.
  - intros r k m Hr Hk. destruct (inv_pending _ HI r k m Hr Hk) as (j & e1 & Ha & Hj & He1 & Hfl).
    exists j, e1. unfold page_addr in *. rewrite Hlk. case_decide; [|done]. subst m.
    destruct Hp. apply in_pending_pages. eauto.
  - apply HI.
  - intros j. rewrite <-Hv. unfold view. simpl tp_lookup.
    destruct (lookupZ (tp_lookup cc) j) as [m|] eqn:Hj; [|done]. rewrite Hlk.
    case_decide; [|done]. subst m. rewrite Hn. rewrite (mapped_unique _ _ _ _ HI Hj Hi Hne).
    change (disk_read (set_entry n (with_status st e) cc)) with (disk_read cc).
    simpl e_data. rewrite Hd. by repeat case_match.
Qed.

(** A request whose pages no other request names. *)
Definition ready (cc : treepass) (r : io_request) : Prop :=
  NoDup (io_iovec r) ∧ (∀ n, n ∈ io_iovec r → n ∉ pending_pages cc) ∧
  ∀ k n, io_iovec r !! k = Some n → pending_page cc r k n.
End invariant.
Arguments requests open cc : clear implicits.
Arguments pending_pages open cc : clear implicits.
Arguments cache_inv open cc : clear implicits.
Arguments Inv open v cc : clear implicits.
Arguments ready open cc r : clear implicits.

Lemma Inv_requests open open' v s :
  Inv open v s → w_cfg open' = w_cfg open → NoDup (pending_pages open' s) →
  (∀ r k n, r ∈ requests open' s → io_iovec r !! k = Some n → pending_page s r k n) →
  (∀ i, i ∈ w_absent open' → lookupZ (tp_lookup s) i = Some TP_UNMAPPED_ENTRY) →
  Inv open' v s.
Proof.
  intros [HI Hv] Hcfg Hnd Hp Hab. split; [|done]. destruct HI. constructor; congruence || done.
Qed.

Lemma Inv_open open v s r : Inv open v s → ready open s r → Inv (push r open) v s.
Proof.
  intros HI (Hnd & Hd & Hp). apply (Inv_requests open); [done|done| | |apply HI].
  - apply list.NoDup_app. split_and!; [done|done|apply HI].
  - intros r' k n [->|Hr]%elem_of_cons; [by apply Hp|]. by apply (inv_pending _ (proj1 HI)).
Qed.

Lemma Inv_absent open v s i :
  Inv open v s → lookupZ (tp_lookup s) i = Some TP_UNMAPPED_ENTRY → Inv (absent i open) v s.
Proof.
  intros HI Hi. apply (Inv_requests open); [done|done|apply HI|apply HI|].
  intros j [->|Hj]%elem_of_cons; [done|]. by apply HI.
Qed.
Lemma Inv_present open v s i :
  Inv (absent i open) v s →
  Inv open v s ∧ lookupZ (tp_lookup s) i = Some TP_UNMAPPED_ENTRY.
Proof.
  intros HI. split; [|apply (inv_absent _ (proj1 HI)); by left].
  apply (Inv_requests (absent i open)); [done|done|apply HI|apply HI|].
  intros j Hj. apply (inv_absent _ (proj1 HI)). by right.
Qed.

Lemma Inv_submit open v s r :
  Inv (push r open) v s → Inv open v (set_device id (λ q, q ++ [r]) id s).
Proof.
  intros [HI Hv].
  assert (requests open (set_device id (λ q, q ++ [r]) id s) ≡ₚ requests (push r open) s) as Hp.
  { unfold requests. simpl. rewrite app_assoc. symmetry. apply Permutation_cons_append. }
  split; [constructor; try apply HI|exact Hv].
  - unfold pending_pages. rewrite Hp. apply HI.
  - intros r' k n. rewrite Hp. apply (inv_pending _ HI).
Qed.

(** A request under construction takes one more page. *)
Lemma Inv_extend open v s w a pages m n c :
  let r := mk_io_request w a pages m c in
  Inv (push r open) v s → n ∉ pending_pages (push r open) s →
  pending_page s r (length pages) n →
  Inv (push (mk_io_request w a (pages ++ [n]) m c) open) v s.
Proof.
  intros r HI Hn Hp. apply (Inv_requests (push r open)); [done|done| | |apply HI].
  - assert (pending_pages (push (mk_io_request w a (pages ++ [n]) m c) open) s
      ≡ₚ n :: pending_pages (push r open) s) as ->.
    { unfold pending_pages. simpl. rewrite <-app_assoc. simpl. symmetry. apply Permutation_middle. }
    apply list.NoDup_cons. split; [done|apply HI].
  - intros r' k n' [->|Hr]%elem_of_cons.
    + simpl. intros [Hk|[Hge Hk]]%lookup_app_Some.
      * apply (inv_pending _ (proj1 HI) r k); [by left|done].
      * apply list_lookup_singleton_Some in Hk as [Hk ->].
        replace k with (length pages) by lia. exact Hp.
    + apply (inv_pending _ (proj1 HI)). by right.
Qed.

(** * Every cache operation keeps the memory the cache presents

    [preserves (Inv open v) op]: started in a well-formed cache that presents the
    memory [v], [op] ends in one that presents [v].  Eviction, writeback, I/O
    completion, prefetch, reads and the lock operations all do. *)
(** ** Status changes that are benign *)
Definition benign_status (st st' : Z) : bool :=
  (0 <=? st') && (st' <? 512) && Bool.eqb (has_flag st' TP_FREE) (has_flag st TP_FREE)
  && Bool.eqb (has_flag st' TP_LOADING) (has_flag st TP_LOADING)
  && implb (has_flag st' TP_CLEAN) (has_flag st TP_CLEAN)
  && implb (has_flag st TP_WRITEBACK) (has_flag st' TP_WRITEBACK).

Definition benign_update (g : Z → Z) : Prop :=
  ∀ st, status_wf st → benign_status st (g st) = true.

Lemma benign_with_status g e :
  benign_update g → benign e (with_status (g (e_status e)) e).
Proof.
  intros Hg.
  assert (status_wf (e_status e) → benign_status (e_status e) (g (e_status e)) = true) as Hb
    by apply Hg.
  unfold benign_status in Hb.
  constructor; try done; intros Hwf; specialize (Hb Hwf); rewrite !andb_true_iff in Hb;
    destruct Hb as (((((? & ?) & Hf) & Hl) & Hc) & Hw);
    unfold is_free, is_loading, is_clean, is_writeback; simpl.
  - unfold status_wf. lia.
  - by apply eqb_prop.
  - by apply eqb_prop.
  - intros E. by rewrite E in Hc.
  - intros E. by rewrite E in Hw.
Qed.

Lemma benign_set_lock flag :
  flag = TP_CLAIMED ∨ flag = TP_WRITELOCKED ∨ flag = TP_WRITEBACK →
  benign_update (λ st, status_set_flag st flag).
Proof. intros Hf st Hst. destruct_or! Hf; subst flag; status_eval Hst. Qed.
Lemma benign_clear_lock flag :
  flag = TP_CLAIMED ∨ flag = TP_WRITELOCKED ∨ flag = TP_CLEAN →
  benign_update (λ st, status_clear_flag st flag).
Proof. intros Hf st Hst. destruct_or! Hf; subst flag; status_eval Hst. Qed.
Lemma benign_clock_accessed : benign_update status_clock_accessed.
Proof. intros st Hst. status_eval Hst. Qed.
Lemma benign_dec_clock : benign_update (λ st, (status_try_dec_clock st).2).
Proof. intros st Hst. status_eval Hst. Qed.

Lemma flags_eq st st' f :
  Z.land st 63 = Z.land st' 63 → Z.land f 63 = f → has_flag st f = has_flag st' f.
Proof.
  intros H Hf. unfold has_flag, status_test_flag. rewrite <-Hf.
  by rewrite <-!Z.land_assoc, !(Z.land_comm 63), H.
Qed.

Lemma benign_set_clock v : 0 ≤ v → benign_update (λ st, status_set_clock st v).
Proof.
  intros Hv st Hst. destruct (set_clock_spec st v Hst Hv) as ([? ?] & _ & Hfl).
  unfold benign_status. rewrite !(flags_eq _ st _ Hfl) by done.
  rewrite !Bool.eqb_reflx, !implb_same. lia.
Qed.

#[export] Hint Resolve benign_set_lock benign_clear_lock benign_clock_accessed
  benign_dec_clock benign_set_clock : preserves.

(** Solve [preserves I m] along the structure of [m]. *)
Ltac pres :=
  repeat (intros;
    first
      [ solve [eauto 4 with preserves nocore]
      | apply preserves_bind
      | apply preserves_when
      | apply preserves_for
      | match goal with
        | |- preserves _ (if ?b then _ else _) => destruct b
        | |- preserves _ (match ?x with _ => _ end) => destruct x
        end ]); intros.

Section preserve.
Context `{platform} (th : thread) (open : window) (v : Z → page_data).
Abbreviation pres := (preserves (Inv open v)).

(** ** Reads *)
Lemma get_entry_pres n : pres (treepass_get_entry n).
Proof. unfold treepass_get_entry. pres. Qed.
Lemma get_status_pres n : pres (treepass_get_status n).
Proof. unfold treepass_get_status. pose proof get_entry_pres. pres. Qed.
Lemma test_flag_pres n f : pres (treepass_test_flag n f).
Proof. unfold treepass_test_flag. pose proof get_status_pres. pres. Qed.
Lemma get_clock_pres n : pres (treepass_get_clock n).
Proof. unfold treepass_get_clock. pose proof get_status_pres. pres. Qed.
Lemma lookup_pres a : pres (treepass_lookup a).
Proof. unfold treepass_lookup. pres. Qed.
Lemma get_ref_pres n c : pres (treepass_get_ref n c).
Proof. unfold treepass_get_ref. pres. Qed.
Lemma get_pin_pres n : pres (treepass_get_pin n).
Proof. unfold treepass_get_pin. pres. Qed.
Lemma get_free_hand_pres : pres (get_free_hand th).
Proof. unfold get_free_hand. pres. Qed.
End preserve.
#[export] Hint Resolve get_entry_pres get_status_pres test_flag_pres get_clock_pres
  lookup_pres get_ref_pres get_pin_pres get_free_hand_pres : preserves.

Section preserve.
Context `{platform} (th : thread) (open : window) (v : Z → page_data).
Abbreviation pres := (preserves (Inv open v)).

(** ** Updates outside the memory *)
Lemma mod_same_pres f : (∀ s, same_memory s (f s)) → pres (mmod f).
Proof. intros Hf. apply preserves_mod. intros s. by apply Inv_ext. Qed.
Lemma inc_ref_pres n c : pres (treepass_inc_ref n c).
Proof. unfold treepass_inc_ref. pres. by apply mod_same_pres. Qed.
Lemma dec_ref_pres n c : pres (treepass_dec_ref n c).
Proof. unfold treepass_dec_ref. pres. by apply mod_same_pres. Qed.
Lemma inc_pin_pres n : pres (treepass_inc_pin n).
Proof. unfold treepass_inc_pin. pres. by apply mod_same_pres. Qed.
Lemma dec_pin_pres n : pres (treepass_dec_pin n).
Proof. unfold treepass_dec_pin. pres. by apply mod_same_pres. Qed.
Lemma reset_pin_pres n : pres (treepass_reset_pin n).
Proof. unfold treepass_reset_pin. pres. by apply mod_same_pres. Qed.
Lemma stat_add_pres s t k : pres (stat_add th s t k).
Proof. unfold stat_add. pres. by apply mod_same_pres. Qed.
Lemma timestamp_pres : pres platform_get_timestamp.
Proof. unfold platform_get_timestamp. pres. by apply mod_same_pres. Qed.
Lemma latency_pres w : pres (latency_elapsed w).
Proof. unfold latency_elapsed. pres. by apply mod_same_pres. Qed.
Lemma cas_pres b o n : pres (cas_batch_busy b o n).
Proof. unfold cas_batch_busy. pres. by apply mod_same_pres. Qed.
Lemma set_free_hand_pres h : pres (set_free_hand th h).
Proof. unfold set_free_hand. pres. by apply mod_same_pres. Qed.
Lemma set_hands_pres f g h : pres (mmod (set_hands f g h)).
Proof. by apply mod_same_pres. Qed.
Lemma set_evict_batches_pres f : pres (mmod (set_evict_batches f)).
Proof. by apply mod_same_pres. Qed.
Lemma set_ei_pres a b c d : pres (mmod (set_ei a b c d)).
Proof. by apply mod_same_pres. Qed.
Lemma set_counters_pres f : pres (mmod (set_device id id f)).
Proof. by apply mod_same_pres. Qed.

(** ** Updates of one entry *)
Lemma mod_entry_benign n f : (∀ e, benign e (f e)) → pres (mod_entry n f).
Proof.
  intros Hf s a s' HI Hr. unfold mod_entry, treepass_get_entry in Hr. inv_run.
  by eapply Inv_benign.
Qed.
Lemma status_update_pres n g :
  benign_update g →
  pres (st ← treepass_get_status n; mod_entry n (with_status (g st))).
Proof.
  intros Hg s a s' HI Hr.
  unfold mod_entry, treepass_get_status, treepass_get_entry in Hr. inv_run. simplify_eq.
  eapply Inv_benign; [done|done|]. by apply benign_with_status.
Qed.
Lemma entry_time_pres n t : pres (mod_entry n (with_entry_time t)).
Proof. by apply mod_entry_benign. Qed.
Lemma type_pres n t : pres (mod_entry n (with_type t)).
Proof. by apply mod_entry_benign. Qed.
Lemma waiters_pres n t : pres (mod_entry n (with_waiters t)).
Proof. by apply mod_entry_benign. Qed.

Lemma set_flag_pres n f :
  f = TP_CLAIMED ∨ f = TP_WRITELOCKED ∨ f = TP_WRITEBACK → pres (treepass_set_flag n f).
Proof.
  intros Hf s a s' HI Hr. unfold treepass_set_flag in Hr. inv_run.
  eapply (status_update_pres n _ (benign_set_lock f Hf)); [done|]. by erewrite bind_run.
Qed.
Lemma clear_flag_pres n f :
  f = TP_CLAIMED ∨ f = TP_WRITELOCKED ∨ f = TP_CLEAN → pres (treepass_clear_flag n f).
Proof.
  intros Hf s a s' HI Hr. unfold treepass_clear_flag in Hr. inv_run.
  eapply (status_update_pres n _ (benign_clear_lock f Hf)); [done|]. by erewrite bind_run.
Qed.
Lemma set_clock_pres n c : 0 ≤ c → pres (treepass_set_clock n c).
Proof. intros Hc. by apply status_update_pres, benign_set_clock. Qed.
Lemma clock_accessed_pres n : pres (treepass_set_clock_accessed n).
Proof. apply status_update_pres, benign_clock_accessed. Qed.
Lemma try_dec_clock_pres n : pres (treepass_try_dec_clock n).
Proof.
  intros s a s' HI Hr. unfold treepass_try_dec_clock in Hr. inv_run.
  destruct (status_try_dec_clock _) as [had st'] eqn:E. inv_run.
  eapply (status_update_pres n _ benign_dec_clock); [done|]. erewrite bind_run; [|done].
  by rewrite E.
Qed.
End preserve.
#[export] Hint Resolve inc_ref_pres dec_ref_pres inc_pin_pres dec_pin_pres reset_pin_pres
  stat_add_pres timestamp_pres latency_pres cas_pres set_free_hand_pres set_hands_pres
  set_evict_batches_pres set_ei_pres set_counters_pres entry_time_pres type_pres
  waiters_pres set_flag_pres clear_flag_pres set_clock_pres clock_accessed_pres
  try_dec_clock_pres : preserves.
(** The flag of a lock operation is one of the three its lemma allows. *)
#[export] Hint Extern 1 (_ = _ ∨ _) => solve [auto] : preserves.
