(* ===== verification/TreePassWriteback.v ===== *)
(** * Device requests keep the memory

    A request names pages that stay mapped until it completes: the pages of a
    write are in writeback, those of a read are loading.  Completion transfers
    the pages and settles their flags; submission only takes pages it has just
    flagged. *)
From S2P Require Import Prelude Allocator TreePassStatus TreePassState TreePass TreePassInv.

(** The pages of a request taken off the queue: before page [i] they have been
    transferred, and no other request names them. *)
Record in_transfer (open : window) (r : io_request) (i : Z) (s : treepass) : Prop := {
  tr_nodup : NoDup (io_iovec r);
  tr_detached : ∀ n, n ∈ io_iovec r → n ∉ pending_pages open s;
  tr_page : ∀ k n, io_iovec r !! k = Some n → pending_page s r k n;
  tr_done : ∀ k n e, io_iovec r !! k = Some n → Z.of_nat k < i →
    lookupZ (tp_entry s) n = Some e →
    e_data e = disk_read s (io_addr r + page_addr s (Z.of_nat k));
}.

(** The pages from [i] on agree with the device. *)
Record in_callback (open : window) (r : io_request) (i : Z) (s : treepass) : Prop := {
  cb_nodup : NoDup (io_iovec r);
  cb_detached : ∀ n, n ∈ io_iovec r → n ∉ pending_pages open s;
  cb_page : ∀ k n, io_iovec r !! k = Some n → i ≤ Z.of_nat k →
    ∃ j e, lookupZ (tp_lookup s) j = Some n ∧ lookupZ (tp_entry s) n = Some e ∧
      is_free e = false ∧ e_data e = disk_read s (page_addr s j);
}.

Lemma lookupZ_nat {A} (l : list A) i x :
  lookupZ l i = Some x → ∃ k, i = Z.of_nat k ∧ l !! k = Some x.
Proof.
  unfold lookupZ. case_bool_decide; [|done]. intros Hi. exists (Z.to_nat i). by rewrite Z2Nat.id.
Qed.

Lemma nodup_index {A} (l : list A) (k k' : nat) x :
  NoDup l → l !! k = Some x → l !! k' = Some x → k = k'.
Proof. intros. by eapply NoDup_lookup. Qed.

Section complete.
Context `{platform} (th : thread) (open : window) (v : Z → page_data).

Lemma transfer_addr s r k n :
  Inv open v s → pending_page s r k n →
  ∃ j e, u64 (io_addr r + treepass_multiply_by_page_size (tp_cfg s) (Z.of_nat k)) = page_addr s j ∧
    io_addr r + page_addr s (Z.of_nat k) = page_addr s j ∧
    lookupZ (tp_lookup s) j = Some n ∧ lookupZ (tp_entry s) n = Some e ∧
    (if io_is_write r then is_writeback e && negb (is_loading e) else is_loading e) = true.
Proof.
  intros [HI _] (j & e & Ha & Hj & He & Hf). exists j, e. split_and!; try done.
  unfold treepass_multiply_by_page_size, u64. rewrite Zplus_mod_idemp_r.
  fold (page_addr s (Z.of_nat k)). rewrite Ha. apply Z.mod_small.
  pose proof (page_addr_bound _ _ _ HI Hj). lia.
Qed.

(** A state that differs in one entry or one device page. *)
Lemma pending_page_ext s s' r k n :
  tp_cfg s' = tp_cfg s → tp_lookup s' = tp_lookup s →
  (∀ e, lookupZ (tp_entry s) n = Some e → ∃ e', lookupZ (tp_entry s') n = Some e' ∧
     is_writeback e' = is_writeback e ∧ is_loading e' = is_loading e) →
  pending_page s r k n → pending_page s' r k n.
Proof.
  intros Hc Hl He (j & e & Ha & Hj & Hn & Hf). destruct (He e Hn) as (e' & He' & Hw & Hld).
  exists j, e'. unfold page_addr in *. rewrite Hc, Hl, Hw, Hld. done.
Qed.

Lemma io_transfer_triple r i :
  0 ≤ i →
  triple (λ s, Inv open v s ∧ in_transfer open r i s) (io_transfer r i)
    (λ _ s, Inv open v s ∧ in_transfer open r (i + 1) s).
Proof.
  intros Hi0 s [] s' [HI Ht] Hr. unfold io_transfer, mod_entry, treepass_get_entry in Hr. inv_run.
  match goal with E : lookupZ (io_iovec r) i = Some _ |- _ =>
    destruct (lookupZ_nat _ _ _ E) as (k & -> & Hk) end.
  destruct (transfer_addr s r k _ HI (tr_page _ _ _ _ Ht _ _ Hk)) as
    (j & e & Hu & Ha & Hj & He & Hf).
  rewrite Hu in Hr. destruct (io_is_write r) eqn:Hw; inv_run; simplify_eq;
    match goal with He : lookupZ (tp_entry s) ?x = Some ?y |- _ =>
      try rename y into e; try rename x into n; try rename He into Hentry end.
  - apply andb_true_iff in Hf as [_ Hnl%negb_true_iff].
    split; [by eapply Inv_write_disk|]. constructor; [apply Ht..|].
    intros k' n' e' Hk' Hlt He'. simpl in He'.
      change (page_addr (set_device _ _ _ s)) with (page_addr s).
      change (set_device _ id id s) with (write_disk (page_addr s j) (e_data e) s).
      rewrite disk_read_write_disk. destruct (decide (k' = k)) as [->|Hne].
      + simplify_eq. by rewrite Ha, decide_True.
      + rewrite decide_False; [eapply Ht; [done|lia|done]|]. rewrite <-Ha. intros E.
        apply Hne. assert (page_addr s (Z.of_nat k) = page_addr s (Z.of_nat k')) as E' by lia.
        apply page_addr_inj in E'; [lia|apply HI].
  - split; [by apply Inv_loading_data|].
    pose proof (λ m, lookup_set_entry _ (with_data (disk_read s (page_addr s j)) e) s m e Hentry) as Hlk.
    constructor; [apply Ht..| |].
    + intros k' n' Hk'. eapply pending_page_ext; [..|by eapply Ht]; try done.
      intros e' He'. rewrite Hlk. case_decide; [|eauto]. simplify_eq. by eexists.
    + intros k' n' e' Hk' Hlt. rewrite Hlk. case_decide.
      * intros [= <-]. subst n'. rewrite (nodup_index _ _ _ _ (tr_nodup _ _ _ _ Ht) Hk' Hk).
        transitivity (disk_read s (io_addr r + page_addr s (Z.of_nat k))); [by rewrite Ha|done].
      * intros He'. eapply (tr_done _ _ _ _ Ht); [done| |done].
        assert (k' ≠ k) by (intros ->; congruence). lia.
Qed.

(** Giving page [i] a settled status moves the callback to [i + 1]. *)
Lemma settle_step r i n s st :
  Inv open v s → in_callback open r i s → lookupZ (io_iovec r) i = Some n →
  (∀ e, lookupZ (tp_entry s) n = Some e → is_free e = false → status_wf (e_status e) →
     status_wf (st (e_status e)) ∧ has_flag (st (e_status e)) TP_FREE = false) →
  ∀ e, lookupZ (tp_entry s) n = Some e →
  Inv open v (set_entry n (with_status (st (e_status e)) e) s) ∧
  in_callback open r i (set_entry n (with_status (st (e_status e)) e) s).
Proof.
  intros HI Hc Hi Hst e He. destruct (lookupZ_nat _ _ _ Hi) as (k & -> & Hk).
  destruct (cb_page _ _ _ _ Hc k n Hk) as (j & e' & Hj & He' & Hf & Hd); [lia|]. simplify_eq.
  destruct (Hst e He Hf) as [Hwf Hfr]; [exact (inv_status _ (proj1 HI) _ _ He)|].
  pose proof (λ m, lookup_set_entry _ (with_status (st (e_status e)) e) s m e He) as Hlk.
  split.
  - eapply Inv_settle; try done. apply (cb_detached _ _ _ _ Hc). by eapply list_elem_of_lookup_2.
  - constructor; [apply Hc|apply Hc|]. intros k' n' Hk' Hle.
    destruct (cb_page _ _ _ _ Hc k' n' Hk' Hle) as (j' & e' & Hj' & He' & Hf' & Hd').
    exists j'. rewrite Hlk. case_decide; [|by exists e']. simplify_eq. by eexists.
Qed.

Lemma in_callback_next r i s : in_callback open r i s → in_callback open r (i + 1) s.
Proof. intros [? ? Hp]. constructor; [done|done|]. intros k n Hk Hle.
  apply (Hp k n Hk). lia. Qed.

Lemma set_clean_nofree st :
  status_wf st → has_flag st TP_FREE = false →
  status_wf (status_set_flag st TP_CLEAN) ∧ has_flag (status_set_flag st TP_CLEAN) TP_FREE = false.
Proof.
  intros Hst Hf.
  assert ((0 <=? status_set_flag st TP_CLEAN) && (status_set_flag st TP_CLEAN <? 512)
    && Bool.eqb (has_flag (status_set_flag st TP_CLEAN) TP_FREE) (has_flag st TP_FREE) = true)
    as Hb by status_eval Hst.
  apply andb_true_iff in Hb as [Hb ->%eqb_prop]. unfold status_wf. split; [lia|done].
Qed.
Lemma clear_flag_nofree flag st :
  flag = TP_WRITEBACK ∨ flag = TP_LOADING →
  status_wf st → has_flag st TP_FREE = false →
  status_wf (status_clear_flag st flag) ∧ has_flag (status_clear_flag st flag) TP_FREE = false.
Proof.
  intros Hfl Hst Hf.
  assert ((0 <=? status_clear_flag st flag) && (status_clear_flag st flag <? 512)
    && Bool.eqb (has_flag (status_clear_flag st flag) TP_FREE) (has_flag st TP_FREE) = true)
    as Hb by (destruct Hfl; subst flag; status_eval Hst).
  apply andb_true_iff in Hb as [Hb ->%eqb_prop]. unfold status_wf. split; [lia|done].
Qed.

(** A change of one entry's clock or waiters keeps the callback's pages. *)
Lemma in_callback_entry r i s n e e' :
  lookupZ (tp_entry s) n = Some e → e_data e' = e_data e →
  (is_free e = false → is_free e' = false) → in_callback open r i s →
  in_callback open r i (set_entry n e' s).
Proof.
  intros He Hd Hf Hc. pose proof (λ m, lookup_set_entry n e' s m e He) as Hlk.
  constructor; [apply Hc|apply Hc|]. intros k' n' Hk' Hle.
  destruct (cb_page _ _ _ _ Hc k' n' Hk' Hle) as (j & e1 & Hj & He1 & Hf1 & Hd1).
  exists j. rewrite Hlk. case_decide; [|by exists e1]. simplify_eq. exists e'.
  split_and!; [done|done|by apply Hf|rewrite Hd; exact Hd1].
Qed.

Lemma write_callback_page_triple r i :
  triple (λ s, Inv open v s ∧ in_callback open r i s) (write_callback_page r i)
    (λ _ s, Inv open v s ∧ in_callback open r (i + 1) s).
Proof.
  intros s [] s' [HI Hc] Hr.
  unfold write_callback_page, treepass_set_flag, treepass_clear_flag, treepass_get_status,
    mod_entry, treepass_get_entry in Hr. inv_run. simplify_eq.
  match goal with Hn : lookupZ (tp_entry s) ?n = Some ?e |- _ =>
    edestruct (settle_step r i n s (λ st, status_set_flag st TP_CLEAN)) as [HI1 Hc1];
      [done|done|done| |exact Hn|]; [intros; by apply set_clean_nofree|] end.
  match type of HI1 with Inv _ _ ?s1 =>
    match goal with Hn : lookupZ (tp_entry _) ?n = Some ?e, E : lookupZ (io_iovec r) i = Some ?n |- _ =>
    match type of Hn with lookupZ (tp_entry s) _ = _ => fail 1 | _ =>
    edestruct (settle_step r i n s1 (λ st, status_clear_flag st TP_WRITEBACK)) as [HI2 Hc2];
      [done|done|exact E| |exact Hn|]; [intros; apply clear_flag_nofree; auto|] end end end.
  unfold mwhen in Hr. destruct (_ && _) eqn:Hb; [|inv_run; split; [done|by apply in_callback_next]].
  unfold treepass_set_clock, treepass_get_status, mod_entry, treepass_get_entry in Hr. inv_run.
  simplify_eq.
  match goal with Hn : lookupZ (tp_entry (set_entries _ (set_entries _ s))) _ = Some ?e2 |- _ =>
    assert (benign e2 (with_status (status_set_clock (e_status e2) 0) e2)) as Hben
      by (apply (benign_with_status (λ st, status_set_clock st 0)), benign_set_clock; lia);
    pose proof (inv_status _ (proj1 HI2) _ _ Hn) as Hwf2;
    pose proof Hn as Hn2 end.
  split; [eapply Inv_benign; [exact HI2|exact Hn2|exact Hben]|].
  apply in_callback_next. eapply in_callback_entry; [exact Hn2|done| |exact Hc2].
  by rewrite (ben_free _ _ Hben Hwf2).
Qed.

Lemma finish_load_page_triple r i :
  triple (λ s, Inv open v s ∧ in_callback open r i s)
    (n ← mopt (lookupZ (io_iovec r) i); treepass_finish_load n)
    (λ _ s, Inv open v s ∧ in_callback open r (i + 1) s).
Proof.
  intros s [] s' [HI Hc] Hr.
  unfold treepass_finish_load, treepass_clear_flag, treepass_get_status,
    mod_entry, treepass_get_entry in Hr. inv_run. simplify_eq.
  match goal with Hn : lookupZ (tp_entry s) ?n = Some ?e |- _ =>
    edestruct (settle_step r i n s (λ st, status_clear_flag st TP_LOADING)) as [HI1 Hc1];
      [done|done|done| |exact Hn|]; [intros; apply clear_flag_nofree; auto|] end.
  match goal with Hn : lookupZ (tp_entry (set_entries _ s)) _ = Some ?e2 |- _ =>
    assert (benign e2 (with_waiters [] e2)) as Hben by done; pose proof Hn as Hn2 end.
  split; [eapply Inv_benign; [exact HI1|exact Hn2|exact Hben]|].
  apply in_callback_next. eapply in_callback_entry; [exact Hn2|done|done|exact Hc1].
Qed.
End complete.

(** ** Completion *)
Lemma requests_delete open s k r :
  tp_pending s !! k = Some r →
  requests open s ≡ₚ r :: requests open (set_device id (delete k) id s).
Proof.
  intros Hk. unfold requests. simpl. rewrite (Permutation_middle (w_open open)). f_equiv.
  rewrite <-(take_drop_middle _ k r Hk) at 1. rewrite delete_take_drop.
  symmetry. apply Permutation_middle.
Qed.

Section complete.
Context `{platform} (th : thread) (open : window) (v : Z → page_data).
Abbreviation pres := (preserves (Inv open v)).

Lemma delete_request s k r :
  Inv open v s → tp_pending s !! k = Some r →
  Inv open v (set_device id (delete k) id s) ∧
  in_transfer open r 0 (set_device id (delete k) id s).
Proof.
  intros [HI Hv] Hk. pose proof (requests_delete open s k r Hk) as Hp.
  pose proof (inv_pending_nodup _ HI) as Hnd.
  unfold pending_pages in Hnd. rewrite Hp in Hnd. simpl in Hnd.
  apply list.NoDup_app in Hnd as (Hnd1 & Hd & Hnd2).
  split; [split; [constructor; try apply HI|exact Hv]|].
  - exact Hnd2.
  - intros r' k' n Hr'. apply (inv_pending _ HI). rewrite Hp. by right.
  - constructor; [done|exact Hd| |intros; lia].
    intros k' n Hk'. apply (inv_pending _ HI); [|done]. rewrite Hp. by left.
Qed.

Lemma transferred_callback r s :
  Inv open v s → in_transfer open r (lengthZ (io_iovec r)) s → in_callback open r 0 s.
Proof.
  intros HI Ht. constructor; [apply Ht..|]. intros k n Hk _.
  destruct (tr_page _ _ _ _ Ht k n Hk) as (j & e & Ha & Hj & He & _).
  destruct (inv_mapped _ (proj1 HI) j n Hj) as (e' & He' & _ & Hf).
  { eapply entry_index_bound; [apply HI|done]. }
  assert (e' = e) as -> by congruence.
  exists j, e. split_and!; try done. rewrite <-Ha. eapply (tr_done _ _ _ _ Ht); [done| |done].
  apply lookup_lt_Some in Hk. unfold lengthZ. lia.
Qed.

(** The device completing a request leaves the memory as it was. *)
Lemma io_complete_pres k : pres (io_complete k).
Proof.
  intros s [] s' HI Hr. unfold io_complete in Hr. inv_run.
  match goal with Hk : tp_pending s !! k = Some ?r |- _ =>
    destruct (delete_request _ _ _ HI Hk) as [HI1 Ht] end.
  match goal with Hl : mfor (length (io_iovec ?r)) 0 _ _ = Ret (_, ?s2) |- _ =>
    assert (Inv open v s2 ∧ in_transfer open r (lengthZ (io_iovec r)) s2) as [HI2 Ht2];
    [exact (triple_for (λ i s, Inv open v s ∧ in_transfer open r i s) _ 0 _
       (λ i Hi, io_transfer_triple open v r i (proj1 Hi)) _ _ _ (conj HI1 Ht) Hl)|];
    pose proof (transferred_callback _ _ HI2 Ht2) as Hc; clear Hl end.
  match type of Hr with (if io_is_write ?r then _ else _) _ = _ => destruct (io_is_write r) end.
  - unfold treepass_write_callback in Hr. inv_run.
    match goal with Hl : mfor (length (io_iovec ?r)) 0 _ _ = Ret (_, ?s3) |- _ =>
      assert (Inv open v s3) as HI3
      by exact (proj1 (triple_for (λ i s, Inv open v s ∧ in_callback open r i s) _ 0 _
         (λ i _, write_callback_page_triple open v r i) _ _ _ (conj HI2 Hc) Hl)) end.
    destruct (io_outstanding _); inv_run; [|done]. by eapply Inv_ext; [|exact HI3].
  - unfold treepass_prefetch_callback in Hr. inv_run.
    match goal with Hl : mfor (length (io_iovec ?r)) 0 _ _ = Ret (_, ?s3) |- _ =>
      exact (proj1 (triple_for (λ i s, Inv open v s ∧ in_callback open r i s) _ 0 _
         (λ i _, finish_load_page_triple open v r i) _ _ _ (conj HI2 Hc) Hl)) end.
Qed.

Lemma treepass_wait_pres : pres treepass_wait.
Proof. unfold treepass_wait. pose proof io_complete_pres. pres. Qed.
Lemma wait_while_pres fuel cond : pres cond → pres (wait_while fuel cond).
Proof.
  intros Hc. pose proof treepass_wait_pres. induction fuel as [|fuel IH]; simpl; pres.
Qed.
Lemma wait_flag_pres n f : pres (wait_flag n f).
Proof. unfold wait_flag. pose proof wait_while_pres. pres. Qed.
Lemma io_wait_all_pres fuel : pres (io_wait_all fuel).
Proof. pose proof io_complete_pres. induction fuel; simpl; pres. Qed.
Lemma wait_all_pres : pres wait_all.
Proof. unfold wait_all. pose proof io_wait_all_pres. pres. Qed.
End complete.
#[export] Hint Resolve treepass_wait_pres wait_flag_pres wait_all_pres : preserves.

(** * Locks and writeback submission keep the memory

    The lock operations change flags only.  Writeback flags a run of consecutive
    dirty pages of one extent and submits one request for them; the pages of the
    run are the pages of the request, in order. *)
Section locks.
Context `{platform} (th : thread) (open : window) (v : Z → page_data).
Abbreviation pres := (preserves (Inv open v)).

Lemma try_get_read_pres n b : pres (treepass_try_get_read th n b).
Proof. unfold treepass_try_get_read. pres. Qed.
Lemma get_read_pres n : pres (treepass_get_read th n).
Proof. unfold treepass_get_read. pose proof try_get_read_pres. pres. Qed.
Lemma try_get_claim_pres n : pres (treepass_try_get_claim n).
Proof. unfold treepass_try_get_claim. pres. Qed.
Lemma wait_readers_pres n i : pres (wait_readers th n i).
Proof. unfold wait_readers. pres. Qed.
Lemma get_write_pres n : pres (treepass_get_write th n).
Proof. unfold treepass_get_write. pose proof wait_readers_pres. pres. Qed.
Lemma scan_readers_pres n k i : pres (scan_readers th n k i).
Proof. revert i. induction k as [|k IH]; intros i; simpl; pres. Qed.
Lemma try_get_write_pres n : pres (treepass_try_get_write th n).
Proof. unfold treepass_try_get_write. pose proof scan_readers_pres. pres. Qed.

Lemma get_clock_nonneg n : triple (λ _, True) (treepass_get_clock n) (λ c _, 0 ≤ c).
Proof.
  intros s c s' _ Hr. unfold treepass_get_clock in Hr. inv_run.
  unfold status_get_clock. apply Z.land_nonneg. right. done.
Qed.

Lemma inherit_clock_pres a b d : pres (treepass_inherit_clock a b d).
Proof.
  intros s [] s' HI Hr. unfold treepass_inherit_clock in Hr.
  apply bind_Ret in Hr as (o & s1 & Ho & Hr). pose proof (lookup_pres open v _ _ _ _ HI Ho) as HI1.
  apply bind_Ret in Hr as (c & s2 & Hc & Hr).
  assert (Inv open v s2 ∧ 0 ≤ c) as [HI2 Hc0].
  { destruct (negb (o =? TP_UNMAPPED_ENTRY)); [|inv_run; split; [done|lia]].
    apply bind_Ret in Hc as (c0 & s3 & Hc0 & Hc). inv_run.
    assert (0 ≤ c0) by exact (get_clock_nonneg _ _ _ _ I Hc0). apply (get_clock_pres open v) in Hc0; [|done].
    split; [done|]. destruct (1 <? d) eqn:E; [apply Z.div_pos; lia|lia]. }
  assert (0 ≤ (if c =? 0 then 1 else c)) as Hc1 by (destruct (c =? 0); lia).
  match type of Hr with ?m s2 = _ => assert (pres m) as Hp by pres end. by eapply Hp.
Qed.
End locks.
#[export] Hint Resolve try_get_read_pres get_read_pres try_get_claim_pres get_write_pres
  try_get_write_pres inherit_clock_pres : preserves.

(** ** Taking pages for writeback *)
Lemma cleanable_flags st p :
  status_wf st → status_cleanable st p = true →
  has_flag st TP_FREE = false ∧ has_flag st TP_CLEAN = false ∧
  has_flag st TP_WRITEBACK = false ∧ has_flag st TP_LOADING = false ∧
  has_flag st TP_WRITELOCKED = false ∧ has_flag st TP_CLAIMED = false ∧
  status_get_clock st ≤ p.
Proof.
  intros Hst. unfold status_cleanable. rewrite andb_true_iff. intros [Hm Hc].
  assert (implb (Z.land st TP_CLEANABLE_BASE_MASK =? 0)
    (negb (has_flag st TP_FREE || has_flag st TP_CLEAN || has_flag st TP_WRITEBACK
     || has_flag st TP_LOADING || has_flag st TP_WRITELOCKED || has_flag st TP_CLAIMED)) = true)
    as Hb by status_eval Hst.
  rewrite Hm in Hb. simpl in Hb. rewrite !negb_orb, !andb_true_iff, !negb_true_iff in Hb.
  destruct_and!. split_and!; try done. lia.
Qed.

(** An entry taken for writeback by pass [p]: writeback is its only flag. *)
Definition taken_status (p st : Z) : Prop :=
  Z.land st 63 = TP_WRITEBACK ∧ status_get_clock st ≤ p.

(** Page [i] is mapped, taken for writeback, and in no request yet. *)
Definition page_taken (open : window) (p : Z) (s : treepass) (i : Z) : Prop :=
  ∃ n e, lookupZ (tp_lookup s) i = Some n ∧ lookupZ (tp_entry s) n = Some e ∧
    taken_status p (e_status e) ∧ n ∉ pending_pages open s.

Lemma taken_flags p st :
  taken_status p st → has_flag st TP_WRITEBACK = true ∧ has_flag st TP_LOADING = false.
Proof.
  intros [Hst _]. assert (Z.land st 63 = Z.land TP_WRITEBACK 63) as Hf by (rewrite Hst; done).
  split.
  - by rewrite (flags_eq _ TP_WRITEBACK _ Hf).
  - by rewrite (flags_eq _ TP_WRITEBACK _ Hf).
Qed.
Lemma take_status p st :
  status_wf st → status_cleanable st p = true → taken_status p (status_set_flag st TP_WRITEBACK).
Proof.
  intros Hst Hc. pose proof (cleanable_flags _ _ Hst Hc) as Hfl.
  unfold status_cleanable in Hc. apply andb_true_iff in Hc as [Hm _].
  assert (implb (Z.land st TP_CLEANABLE_BASE_MASK =? 0)
    ((Z.land (status_set_flag st TP_WRITEBACK) 63 =? TP_WRITEBACK)
     && (status_get_clock (status_set_flag st TP_WRITEBACK) =? status_get_clock st)) = true) as Hb
    by status_eval Hst.
  rewrite Hm in Hb. simpl in Hb. unfold taken_status. destruct_and!. lia.
Qed.

Lemma page_taken_ext open p s s' i :
  same_memory s s' → page_taken open p s i → page_taken open p s' i.
Proof.
  destruct s, s'. unfold same_memory, page_taken. simpl. by intros (-> & -> & -> & -> & ->).
Qed.

Lemma stat_add_same th c t k s a s' : stat_add th c t k s = Ret (a, s') → same_memory s s'.
Proof. unfold stat_add, mwhen. intros Hr. inv_run. case_match; inv_run; done. Qed.

Section submit.
Context `{platform} (th : thread) (open : window) (v : Z → page_data).
Abbreviation pres := (preserves (Inv open v)).

Lemma try_set_writeback_run n p s b s' :
  treepass_try_set_writeback n p s = Ret (b, s') →
  (b = false ∧ s' = s ∧
     ∃ e, lookupZ (tp_entry s) n = Some e ∧ status_cleanable (e_status e) p = false) ∨
  (b = true ∧ ∃ e, lookupZ (tp_entry s) n = Some e ∧ status_cleanable (e_status e) p = true ∧
     s' = set_entry n (with_status (status_set_flag (e_status e) TP_WRITEBACK) e) s).
Proof.
  unfold treepass_try_set_writeback, mod_entry, treepass_get_entry. intros Hr. inv_run.
  case_match eqn:E; inv_run.
  - left. apply negb_true_iff in E. eauto.
  - right. apply negb_false_iff in E. simplify_eq. eauto.
Qed.

Lemma writeback_benign e : benign e (with_status (status_set_flag (e_status e) TP_WRITEBACK) e).
Proof. apply (benign_with_status (λ st, status_set_flag st TP_WRITEBACK)). auto with preserves. Qed.

Lemma try_set_writeback_pres n p : pres (treepass_try_set_writeback n p).
Proof.
  intros s b s' HI [(_ & -> & _)|(_ & e & He & _ & ->)]%try_set_writeback_run; [done|].
  eapply Inv_benign; [done|done|]. apply writeback_benign.
Qed.
Lemma ok_to_writeback_pres n p : pres (treepass_ok_to_writeback n p).
Proof. unfold treepass_ok_to_writeback. pres. Qed.

(** Taking the page mapped at [i] keeps the pages taken before. *)
Lemma take_page n p s e i :
  Inv open v s → lookupZ (tp_lookup s) i = Some n → lookupZ (tp_entry s) n = Some e →
  status_cleanable (e_status e) p = true →
  let s' := set_entry n (with_status (status_set_flag (e_status e) TP_WRITEBACK) e) s in
  page_taken open p s' i ∧ ∀ j, page_taken open p s j → page_taken open p s' j.
Proof.
  intros [HI _] Hi He Hc s'. pose proof (inv_status _ HI _ _ He) as Hwf.
  destruct (cleanable_flags _ _ Hwf Hc) as (Hf & _ & Hw & Hl & _).
  pose proof (λ m, lookup_set_entry n (with_status (status_set_flag (e_status e) TP_WRITEBACK) e)
    s m e He) as Hlk.
  pose proof (writeback_benign e) as Hb.
  split.
  - exists n, (with_status (status_set_flag (e_status e) TP_WRITEBACK) e).
    unfold s'. rewrite Hlk, decide_True by done. split_and!; try done.
    + by apply take_status.
    + intros Hp. destruct (pending_mapped _ _ HI Hp) as (j & e' & _ & He' & Hfl).
      unfold is_writeback, is_loading in Hfl. simplify_eq. by rewrite Hw, Hl in Hfl.
  - intros j (m & em & Hj & Hem & Htk & Hp).
    exists m. unfold s'. rewrite Hlk. case_decide; [|by exists em]. simplify_eq.
    destruct (taken_flags _ _ Htk). congruence.
Qed.

(** The index of a wrapped page address next to the mapped range. *)
Lemma u64_page_index s i n :
  cache_inv open s → -1 ≤ i ≤ lengthZ (tp_lookup s) →
  lookupZ (tp_lookup s) (treepass_divide_by_page_size (tp_cfg s) (u64 (page_addr s i))) = Some n →
  lookupZ (tp_lookup s) i = Some n ∧ u64 (page_addr s i) = page_addr s i.
Proof.
  intros HI Hi. pose proof (inv_lookup_len _ HI) as Hlen. pose proof (inv_cfg _ HI) as Hcfg.
  pose proof (page_addr_shiftr s i Hcfg) as Hsh. pose proof (cfg_log _ Hcfg) as Hlog.
  unfold treepass_divide_by_page_size, page_addr in *. rewrite !Z.shiftl_mul_pow2 in * by lia.
  assert (0 < 2 ^ tp_log_page_size (tp_cfg s)) as Hps by (apply Z.pow_pos_nonneg; lia).
  destruct (decide (i = -1)) as [->|Hne].
  - intros Hn%lookupZ_Some. exfalso. rewrite Z.shiftr_div_pow2 in Hn by lia.
    assert (u64 (-1 * 2 ^ tp_log_page_size (tp_cfg s)) = 2 ^ 64 - 2 ^ tp_log_page_size (tp_cfg s)) as E.
    { unfold u64. symmetry. apply (Z.mod_unique _ _ (-1)); [|lia]. left.
      assert (2 ^ tp_log_page_size (tp_cfg s) ≤ 2 ^ 63) by (apply Z.pow_le_mono_r; lia). lia. }
    rewrite E in Hn. assert (2 ^ 64 - 2 ^ tp_log_page_size (tp_cfg s) <
      lengthZ (tp_lookup s) * 2 ^ tp_log_page_size (tp_cfg s)); [|].
    { pose proof (Z.mul_succ_div_gt (2 ^ 64 - 2 ^ tp_log_page_size (tp_cfg s)) _ Hps). nia. }
    assert (2 ^ tp_log_page_size (tp_cfg s) ≤ 2 ^ 63) by (apply Z.pow_le_mono_r; lia). lia.
  - rewrite u64_small by nia. by rewrite Hsh.
Qed.

Lemma page_addr_step s i d :
  cfg_ok (tp_cfg s) →
  page_addr s i + d * tp_page_size (tp_cfg s) = page_addr s (i + d).
Proof.
  intros Hcfg. unfold page_addr. pose proof (cfg_log _ Hcfg).
  rewrite (cfg_page_size _ Hcfg), !Z.shiftl_mul_pow2 by lia. lia.
Qed.

Lemma u64_add_l a b : u64 (u64 a + b) = u64 (a + b).
Proof. apply Zplus_mod_idemp_l. Qed.
Lemma u64_add_r a b : u64 (a + u64 b) = u64 (a + b).
Proof. apply Zplus_mod_idemp_r. Qed.

Lemma extent_neighbour_run base a s n s' :
  extent_neighbour base a s = Ret (n, s') →
  s' = s ∧ (n = TP_UNMAPPED_ENTRY ∨
    lookupZ (tp_lookup s) (treepass_divide_by_page_size (tp_cfg s) a) = Some n).
Proof.
  unfold extent_neighbour, treepass_lookup. intros Hr. inv_run.
  case_match; inv_run; auto.
Qed.

(** Both directions of the run: [d] is 1 or -1, [T] the pages taken before. *)
Lemma extend_writeback_run fuel d base p j s a s' (T : Z → Prop) :
  d = 1 ∨ d = -1 → Inv open v s → is_Some (lookupZ (tp_lookup s) j) →
  (∀ i, T i → page_taken open p s i) →
  extend_writeback fuel (d * tp_page_size (tp_cfg s)) base p (page_addr s j) s = Ret (a, s') →
  Inv open v s' ∧ tp_cfg s' = tp_cfg s ∧ tp_lookup s' = tp_lookup s ∧
  tp_pending s' = tp_pending s ∧ ∃ k, 0 ≤ k ∧ a = u64 (page_addr s (j + d * (k + 1))) ∧
    ∀ i, T i ∨ (∃ m, 1 ≤ m ≤ k ∧ i = j + d * m) → page_taken open p s' i.
Proof.
  intros Hd. revert j s T. induction fuel as [|fuel IH]; intros j s T HI Hj HT Hr; simpl in Hr;
    [done|].
  rewrite page_addr_step in Hr by apply HI. apply lookupZ_is_Some in Hj.
  apply bind_Ret in Hr as (next & s1 & Hn & Hr).
  apply extent_neighbour_run in Hn as [-> Hn].
  assert (∃ k, 0 ≤ k ∧ u64 (page_addr s (j + d)) = u64 (page_addr s (j + d * (k + 1))) ∧
    ∀ i, T i ∨ (∃ m, 1 ≤ m ≤ k ∧ i = j + d * m) → page_taken open p s i) as Hstop.
  { exists 0. split; [lia|]. split; [do 2 f_equal; lia|].
    intros i [Hi|(m & ? & _)]; [by apply HT|lia]. }
  destruct (next =? TP_UNMAPPED_ENTRY) eqn:E; [inv_run; done|].
  destruct Hn as [->|Hn]; [done|].
  destruct (u64_page_index s (j + d) next (proj1 HI)) as [Hn' Hu]; [lia|done|].
  apply bind_Ret in Hr as (ok & s1 & Hok & Hr).
  apply try_set_writeback_run in Hok as [(-> & -> & _)|(-> & e & He & Hc & ->)]; [inv_run; done|].
  destruct (take_page _ _ _ _ _ HI Hn' He Hc) as [Ht Hkeep].
  assert (Inv open v (set_entry next (with_status (status_set_flag (e_status e) TP_WRITEBACK) e) s))
    as HI1 by (eapply Inv_benign; [done|done|apply writeback_benign]).
  rewrite Hu in Hr.
  destruct (IH (j + d) _ (λ i, T i ∨ i = j + d) HI1) as (HI2 & Hc2 & Hl2 & Hq2 & k & Hk & Ha & HT2);
    [by eexists| |exact Hr|].
  { intros i [Hi| ->]; [|exact Ht]. by apply Hkeep, HT. }
  split_and!; [done|done|done|done|]. exists (k + 1). split; [lia|].
  split; [rewrite Ha; change (page_addr (set_entry _ _ s)) with (page_addr s); do 2 f_equal; lia|].
  intros i [Hi|(m & Hm & ->)]; apply HT2; [by left; left|].
  destruct (decide (m = 1)) as [->|]; [left; right; lia|]. right. exists (m - 1). lia.
Qed.

Lemma collect_iovec_run k first i s l s' :
  collect_iovec k first i s = Ret (l, s') →
  s' = s ∧ length l = k ∧
  ∀ m n, l !! m = Some n → lookupZ (tp_lookup s) (treepass_divide_by_page_size (tp_cfg s)
     (u64 (first + treepass_multiply_by_page_size (tp_cfg s) (i + Z.of_nat m)))) = Some n.
Proof.
  revert i l s'. induction k as [|k IH]; intros i l s' Hr; simpl in Hr.
  - inv_run. done.
  - unfold treepass_lookup, treepass_get_entry in Hr. inv_run.
    match goal with Hc : collect_iovec _ _ _ _ = _ |- _ => apply IH in Hc as (-> & Hlen & Hl) end.
    split; [done|]. split; [simpl; by rewrite Hlen|]. intros [|m] n Hm; simpl in Hm.
    + simplify_eq. replace (i + Z.of_nat 0) with i by lia. done.
    + replace (i + Z.of_nat (S m)) with (i + 1 + Z.of_nat m) by lia. by apply Hl.
Qed.

(** The entries read back from the lookup table are those of the taken pages. *)
Lemma collect_entries s lo cnt l p :
  Inv open v s → length l = Z.to_nat cnt →
  (∀ i, lo ≤ i < lo + cnt → page_taken open p s i) →
  (∀ m n, l !! m = Some n → lookupZ (tp_lookup s) (treepass_divide_by_page_size (tp_cfg s)
     (u64 (page_addr s lo + treepass_multiply_by_page_size (tp_cfg s) (0 + Z.of_nat m)))) = Some n) →
  ∀ m n, l !! m = Some n → lookupZ (tp_lookup s) (lo + Z.of_nat m) = Some n ∧
    page_taken open p s (lo + Z.of_nat m).
Proof.
  intros [HI _] Hlen HT Hl m n Hmn. pose proof (lookup_lt_Some _ _ _ Hmn) as Hlt.
  destruct (HT (lo + Z.of_nat m)) as (n' & e & Hn' & Hrest); [lia|].
  split; [|by exists n', e]. rewrite <-(Hl m n Hmn).
  unfold treepass_multiply_by_page_size. rewrite u64_add_r.
  change (Z.shiftl (0 + Z.of_nat m) _) with (page_addr s (Z.of_nat m)).
  replace (page_addr s lo + page_addr s (Z.of_nat m)) with (page_addr s (lo + Z.of_nat m)).
  - pose proof (page_addr_bound _ _ _ HI Hn'). rewrite u64_small by lia.
    unfold treepass_divide_by_page_size. by rewrite page_addr_shiftr by apply HI.
  - unfold page_addr. pose proof (cfg_log _ (inv_cfg _ HI)). rewrite !Z.shiftl_mul_pow2 by lia. lia.
Qed.

(** A run of taken pages read back from the lookup table is a request. *)
Lemma collect_ready s lo cnt l p q c :
  Inv open v s → 0 ≤ cnt → length l = Z.to_nat cnt →
  (∀ i, lo ≤ i < lo + cnt → page_taken open p s i) →
  (∀ m n, l !! m = Some n → lookupZ (tp_lookup s) (treepass_divide_by_page_size (tp_cfg s)
     (u64 (page_addr s lo + treepass_multiply_by_page_size (tp_cfg s) (0 + Z.of_nat m)))) = Some n) →
  ready open s (mk_io_request true (page_addr s lo) l q c).
Proof.
  intros HI' Hcnt Hlen HT Hl. pose proof (collect_entries _ _ _ _ _ HI' Hlen HT Hl) as Hm.
  destruct HI' as [HI _].
  split_and!; simpl.
  - apply NoDup_alt. intros a b n Ha Hb. destruct (Hm a n Ha) as [Ha' (n' & e & Hn' & He & _)].
    destruct (Hm b n Hb) as [Hb' _]. rewrite Ha' in Hn'. injection Hn' as <-.
    pose proof (mapped_unique _ _ _ _ HI Ha' Hb' (entry_index_bound _ _ _ HI He)). lia.
  - intros n (m & Hmn)%list_elem_of_lookup. destruct (Hm m n Hmn) as [Hi (n' & e & Hn' & _ & _ & Hp)].
    congruence.
  - intros m n Hmn. destruct (Hm m n Hmn) as [Hi (n' & e & Hn' & He & [Hw Hnl]%taken_flags & _)].
    exists (lo + Z.of_nat m), e. unfold is_writeback, is_loading. simpl. rewrite Hw, Hnl. split_and!; [|done|congruence|done].
    unfold page_addr. pose proof (cfg_log _ (inv_cfg _ HI)). rewrite !Z.shiftl_mul_pow2 by lia. lia.
Qed.

(** The addresses of a run of pages [lo..hi] around [j]. *)
Lemma run_addresses s lo hi :
  cache_inv open s → 0 ≤ lo → lo ≤ hi < lengthZ (tp_lookup s) →
  u64 (u64 (page_addr s (lo - 1)) + tp_page_size (tp_cfg s)) = page_addr s lo ∧
  treepass_divide_by_page_size (tp_cfg s) (u64 (u64 (page_addr s (hi + 1)) - page_addr s lo))
    = hi - lo + 1.
Proof.
  intros HI Hlo Hhi. pose proof (inv_cfg _ HI) as Hcfg. pose proof (inv_lookup_len _ HI) as Hlen.
  pose proof (cfg_log _ Hcfg) as Hlog.
  assert (0 < 2 ^ tp_log_page_size (tp_cfg s)) as Hps by (apply Z.pow_pos_nonneg; lia).
  split.
  - rewrite u64_add_l, <-(Z.mul_1_l (tp_page_size _)), page_addr_step by done.
    rewrite Z.sub_add. apply u64_small.
    unfold page_addr in *. rewrite !Z.shiftl_mul_pow2 in * by lia. nia.
  - unfold treepass_divide_by_page_size.
    rewrite <-(page_addr_shiftr s (hi - lo + 1) Hcfg). f_equal.
    unfold page_addr in *. rewrite !Z.shiftl_mul_pow2 in * by lia.
    rewrite (u64_small ((hi + 1) * _)) by nia. rewrite u64_small by nia. lia.
Qed.

Lemma writeback_run_spec p j t s s' :
  Inv open v s → page_taken open p s j → writeback_run th p (page_addr s j) t s = Ret (tt, s') →
  Inv open v s' ∧ ∃ r, tp_pending s' = tp_pending s ++ [r] ∧
    ∀ n, n ∈ io_iovec r → ∃ e, lookupZ (tp_entry s') n = Some e ∧ taken_status p (e_status e).
Proof.
  intros HI Ht Hr. unfold writeback_run in Hr.
  apply bind_Ret in Hr as (? & ? & Hg%get_Ret & Hr). destruct Hg as [-> ->].
  apply bind_Ret in Hr as (a1 & s2 & Ha1 & Hr).
  replace (- tp_page_size (tp_cfg s)) with (-1 * tp_page_size (tp_cfg s)) in Ha1 by lia.
  assert (is_Some (lookupZ (tp_lookup s) j)) as Hj by (destruct Ht as (? & ? & ? & _); by eexists).
  apply (extend_writeback_run _ _ _ _ _ _ _ _ (λ i, i = j)) in Ha1
    as (HI2 & Hc2 & Hl2 & Hq2 & k1 & Hk1 & -> & HT2); [|auto|done|done|by intros ? ->].
  apply bind_Ret in Hr as (a2 & s3 & Ha2 & Hr).
  assert (∀ i, page_addr s2 i = page_addr s i) as Hpa2 by (intros i; unfold page_addr; by rewrite Hc2).
  rewrite <-Hc2, <-Hpa2, <-(Z.mul_1_l (tp_page_size _)) in Ha2.
  eapply (extend_writeback_run _ _ _ _ _ _ _ _ (λ i, j - k1 ≤ i ≤ j)) in Ha2
    as (HI3 & Hc3 & Hl3 & Hq3 & k2 & Hk2 & -> & HT3); [|by left|done|by rewrite Hl2|].
  2:{ intros i Hi. apply HT2. destruct (decide (i = j)); [by left|]. right. exists (j - i). lia. }
  assert (∀ i, page_addr s3 i = page_addr s i) as Hpa3 by (intros i; unfold page_addr; by rewrite Hc3, Hc2).
  assert (∀ i, j - k1 ≤ i ≤ j + k2 → page_taken open p s3 i) as HT.
  { intros i Hi. apply HT3. destruct (decide (i ≤ j)); [left; lia|]. right. exists (i - j). lia. }
  clear HT2 HT3.
  destruct (run_addresses s3 (j - k1) (j + k2) (proj1 HI3)) as [E1 E2].
  { destruct (HT (j - k1)) as (? & ? & Hx%lookupZ_Some & _); lia. }
  { destruct (HT (j + k2)) as (? & ? & Hy%lookupZ_Some & _); lia. }
  rewrite Hpa2, <-!Hpa3 in Hr. replace (tp_cfg s) with (tp_cfg s3) in Hr by congruence.
  replace (j + -1 * (k1 + 1)) with (j - k1 - 1) in Hr by lia.
  replace (j + 1 * (k2 + 1)) with (j + k2 + 1) in Hr by lia. rewrite E1, E2 in Hr.
  apply bind_Ret in Hr as (? & s4 & Hs4%stat_add_same & Hr).
  apply bind_Ret in Hr as (? & s5 & Hs5%stat_add_same & Hr).
  assert (same_memory s3 s5) as Hs.
  { unfold same_memory in *. destruct_and!. split_and!; congruence. }
  apply bind_Ret in Hr as (l & s6 & (-> & Hl & Hlk)%collect_iovec_run & Hr).
  unfold submit in Hr. inv_run.
  assert (∀ i, page_addr s3 i = page_addr s5 i) as Hpa5.
  { intros i. unfold page_addr. by destruct Hs as (-> & _). }
  assert (∀ i, j - k1 ≤ i < j - k1 + (j + k2 - (j - k1) + 1) → page_taken open p s5 i) as HT5.
  { intros i Hi. eapply page_taken_ext; [done|]. apply HT. lia. }
  assert (Inv open v s5) as HI5 by (by eapply Inv_ext).
  rewrite !Hpa5 in *. split.
  - apply Inv_submit, Inv_open; [done|].
    by eapply (collect_ready _ _ (j + k2 - (j - k1) + 1)); [done|lia|done|exact HT5|done].
  - eexists. split; [simpl; by rewrite (proj2 (proj2 (proj2 (proj2 Hs)))), Hq3, Hq2|]. simpl.
    intros n (m & Hm)%list_elem_of_lookup.
    pose proof (collect_entries _ _ _ _ _ HI5 Hl HT5 Hlk m n Hm) as [Hi (n' & e & Hn' & He & Htk & _)].
    exists e. split; [congruence|done].
Qed.

(** One entry of the cleaner's batch: at most one request is submitted, and only
    for dirty, unlocked, unclaimed pages whose counter is at most [p]. *)
Lemma start_writeback_entry_spec p n s s' :
  Inv open v s → start_writeback_entry th p n s = Ret (tt, s') →
  Inv open v s' ∧ (s' = s ∨ ∃ r, tp_pending s' = tp_pending s ++ [r] ∧
    ∀ m, m ∈ io_iovec r → ∃ e, lookupZ (tp_entry s') m = Some e ∧ taken_status p (e_status e)).
Proof.
  intros HI Hr. unfold start_writeback_entry in Hr.
  apply bind_Ret in Hr as (e & s0 & He & Hr). unfold treepass_get_entry in He. inv_run.
  case_match; [inv_run; split; [done|by left]|].
  apply bind_Ret in Hr as (ok0 & s0 & Hok0 & Hr).
  unfold treepass_ok_to_writeback, treepass_get_status, treepass_get_entry in Hok0. inv_run.
  case_match; [inv_run; split; [done|by left]|].
  apply bind_Ret in Hr as (ok & s1 & Hok & Hr).
  apply try_set_writeback_run in Hok as [(-> & -> & _)|(-> & e' & He' & Hc & ->)];
    [simpl in Hr; inv_run; split; [done|by left]|].
  simpl in Hr. assert (e' = e) as -> by congruence. destruct HI as [HI Hv].
  destruct (inv_homed _ HI n e He') as [j Hj];
    [exact (proj1 (cleanable_flags _ _ (inv_status _ HI _ _ He') Hc))|].
  destruct (inv_mapped _ HI j n Hj (entry_index_bound _ _ _ HI He'))
    as (e'' & He'' & Haddr & _). assert (e'' = e) as -> by congruence.
  destruct (take_page _ _ _ _ _ (conj HI Hv) Hj He' Hc) as [Ht _].
  rewrite Haddr in Hr. assert (Inv open v
    (set_entry n (with_status (status_set_flag (e_status e) TP_WRITEBACK) e) s)) as HI1.
  { eapply Inv_benign; [by split|done|apply writeback_benign]. }
  destruct (writeback_run_spec p j _ _ _ HI1 Ht Hr) as [HI' Hr']. split; [done|]. by right.
Qed.
Lemma start_writeback_entry_pres p n : pres (start_writeback_entry th p n).
Proof. intros s [] s' HI Hr. by apply (start_writeback_entry_spec p n s s' HI). Qed.

Lemma batch_start_writeback_pres b p : pres (treepass_batch_start_writeback th b p).
Proof. unfold treepass_batch_start_writeback. pose proof start_writeback_entry_pres. pres. Qed.
End submit.
#[export] Hint Resolve try_set_writeback_pres ok_to_writeback_pres batch_start_writeback_pres
  : preserves.
