(* ===== verification/TreePassGet.v ===== *)
(** * Eviction, allocation, discard and get over the presented memory

    [at_entry base n e s]: [s] is [base] with entry [n] set to [e], up to the
    fields the memory does not depend on.  Between the moment an entry is taken
    from the free pages and the moment it is mapped (or the converse) the state
    is described this way; the lemmas of TreePassInv close the window. *)
From S2P Require Import Prelude Allocator TreePassStatus TreePassState TreePass TreePassInv TreePassWriteback.

Definition at_entry (base : treepass) (n : Z) (e : treepass_entry) (s : treepass) : Prop :=
  is_Some (lookupZ (tp_entry base) n) ∧ same_memory (set_entry n e base) s.

Lemma same_memory_refl s : same_memory s s.
Proof. done. Qed.
Lemma same_memory_trans s1 s2 s3 : same_memory s1 s2 → same_memory s2 s3 → same_memory s1 s3.
Proof. unfold same_memory. intros. destruct_and!. split_and!; congruence. Qed.

Lemma at_entry_start s n e : lookupZ (tp_entry s) n = Some e → at_entry s n e s.
Proof.
  intros He. split; [by eexists|]. unfold same_memory. simpl. by rewrite insertZ_id.
Qed.
Lemma at_entry_same b n e s s' : at_entry b n e s → same_memory s s' → at_entry b n e s'.
Proof. intros [? ?] ?. split; [done|]. by eapply same_memory_trans. Qed.
Lemma at_entry_lookup b n e s : at_entry b n e s → lookupZ (tp_entry s) n = Some e.
Proof.
  intros [[e0 He0] (_ & _ & -> & _)]. apply lookupZ_insertZ_eq. by eapply lookupZ_Some.
Qed.
Lemma at_entry_get b n e s e' s' :
  at_entry b n e s → treepass_get_entry n s = Ret (e', s') → s' = s ∧ e' = e.
Proof.
  intros Ha%at_entry_lookup Hr. unfold treepass_get_entry in Hr. inv_run. split; congruence.
Qed.
Lemma at_entry_mod b n e s g a s' :
  at_entry b n e s → mod_entry n g s = Ret (a, s') → at_entry b n (g e) s'.
Proof.
  intros Ha Hr. pose proof (at_entry_lookup _ _ _ _ Ha) as He. destruct Ha as [Hb Hs].
  unfold mod_entry, treepass_get_entry in Hr. inv_run. simplify_eq.
  split; [done|]. destruct Hs as (H1 & H2 & H3 & H4 & H5). unfold same_memory. simpl in *.
  by rewrite H3, insertZ_insertZ.
Qed.
Lemma at_entry_clear b n e s f r s' :
  at_entry b n e s → treepass_clear_flag n f s = Ret (r, s') →
  at_entry b n (with_status (status_clear_flag (e_status e) f) e) s'.
Proof.
  intros Ha Hr. unfold treepass_clear_flag, treepass_get_status in Hr.
  apply bind_Ret in Hr as (st & s1 & Hst & Hr). inv_run.
  match goal with H : treepass_get_entry n s = _ |- _ =>
    apply (at_entry_get _ _ _ _ _ _ Ha) in H; destruct H as [-> ->] end.
  by eapply at_entry_mod.
Qed.
Lemma at_entry_set b n e s f r s' :
  at_entry b n e s → treepass_set_flag n f s = Ret (r, s') →
  at_entry b n (with_status (status_set_flag (e_status e) f) e) s'.
Proof.
  intros Ha Hr. unfold treepass_set_flag, treepass_get_status in Hr.
  apply bind_Ret in Hr as (st & s1 & Hst & Hr). inv_run.
  match goal with H : treepass_get_entry n s = _ |- _ =>
    apply (at_entry_get _ _ _ _ _ _ Ha) in H; destruct H as [-> ->] end.
  by eapply at_entry_mod.
Qed.
Lemma at_entry_store b n e s addr m a s' :
  at_entry b n e s → store_lookup addr m s = Ret (a, s') →
  at_entry (set_page (treepass_divide_by_page_size (tp_cfg b) addr) m b) n e s' ∧
  is_Some (lookupZ (tp_lookup b) (treepass_divide_by_page_size (tp_cfg b) addr)).
Proof.
  intros [Hb (H1 & H2 & H3 & H4 & H5)] Hr. unfold store_lookup, treepass_lookup in Hr. inv_run.
  simpl in *. rewrite H1, H2 in *. split; [|by eexists]. split; [done|].
  unfold same_memory. simpl. by rewrite H1, H2, H3, H4, H5.
Qed.

Lemma get_status_run n s st s' :
  treepass_get_status n s = Ret (st, s') →
  s' = s ∧ ∃ e, lookupZ (tp_entry s) n = Some e ∧ st = e_status e.
Proof. unfold treepass_get_status, treepass_get_entry. intros Hr. inv_run. eauto. Qed.
Lemma get_entry_run n s e s' :
  treepass_get_entry n s = Ret (e, s') → s' = s ∧ lookupZ (tp_entry s) n = Some e.
Proof. unfold treepass_get_entry. intros Hr. inv_run. eauto. Qed.
Lemma test_flag_run n f s b s' :
  treepass_test_flag n f s = Ret (b, s') →
  s' = s ∧ ∃ e, lookupZ (tp_entry s) n = Some e ∧ b = has_flag (e_status e) f.
Proof.
  unfold treepass_test_flag. intros Hr. inv_run.
  match goal with H : treepass_get_status _ _ = _ |- _ =>
    apply get_status_run in H; destruct H as (-> & e & He & ->) end. eauto.
Qed.
Lemma lookup_run a s n s' :
  treepass_lookup a s = Ret (n, s') →
  s' = s ∧ lookupZ (tp_lookup s) (treepass_divide_by_page_size (tp_cfg s) a) = Some n.
Proof. unfold treepass_lookup. intros Hr. inv_run. eauto. Qed.

(** Operations that touch none of the fields the memory depends on. *)
Section same.
Context `{platform} (th : thread).
Lemma inc_ref_same n c s a s' : treepass_inc_ref n c s = Ret (a, s') → same_memory s s'.
Proof. unfold treepass_inc_ref, treepass_get_ref. intros Hr. inv_run. done. Qed.
Lemma dec_ref_same n c s a s' : treepass_dec_ref n c s = Ret (a, s') → same_memory s s'.
Proof. unfold treepass_dec_ref, treepass_get_ref. intros Hr. inv_run. done. Qed.
Lemma reset_pin_same n s a s' : treepass_reset_pin n s = Ret (a, s') → same_memory s s'.
Proof. unfold treepass_reset_pin, treepass_get_pin, mwhen. intros Hr. inv_run. case_match; inv_run; done. Qed.
Lemma get_pin_same n s a s' : treepass_get_pin n s = Ret (a, s') → s' = s.
Proof. unfold treepass_get_pin. intros Hr. inv_run. done. Qed.
Lemma timestamp_same s a s' : platform_get_timestamp s = Ret (a, s') → same_memory s s'.
Proof. unfold platform_get_timestamp. intros Hr. inv_run. done. Qed.
Lemma stat_timestamp_same s a s' : stat_timestamp s = Ret (a, s') → same_memory s s'.
Proof.
  unfold stat_timestamp. intros Hr. inv_run. case_match; [by eapply timestamp_same|by inv_run].
Qed.
End same.

(** Walk along straight-line code that handles entry [n]. *)
Ltac walk1 :=
  match goal with
  | H : (_ ≫= _) _ = Ret (_, _) |- _ => apply bind_Ret in H; destruct H as (? & ? & ? & H)
  | Ha : at_entry _ ?n _ ?s, H : mod_entry ?n _ ?s = Ret _ |- _ =>
      eapply at_entry_mod in H; [|exact Ha]; clear Ha
  | Ha : at_entry _ ?n _ ?s, H : treepass_clear_flag ?n _ ?s = Ret _ |- _ =>
      eapply at_entry_clear in H; [|exact Ha]; clear Ha
  | Ha : at_entry _ ?n _ ?s, H : treepass_set_flag ?n _ ?s = Ret _ |- _ =>
      eapply at_entry_set in H; [|exact Ha]; clear Ha
  | Ha : at_entry _ ?n _ ?s, H : treepass_get_entry ?n ?s = Ret _ |- _ =>
      apply (at_entry_get _ _ _ _ _ _ Ha) in H; destruct H as [-> ->]
  | Ha : at_entry _ _ _ ?s, H : store_lookup _ _ ?s = Ret _ |- _ =>
      eapply at_entry_store in H; [|exact Ha]; clear Ha; destruct H as [H ?]
  | Ha : at_entry _ _ _ ?s, H : treepass_inc_ref _ _ ?s = Ret _ |- _ =>
      apply inc_ref_same in H; apply (at_entry_same _ _ _ _ _ Ha) in H; clear Ha
  | Ha : at_entry _ _ _ ?s, H : treepass_dec_ref _ _ ?s = Ret _ |- _ =>
      apply dec_ref_same in H; apply (at_entry_same _ _ _ _ _ Ha) in H; clear Ha
  | Ha : at_entry _ _ _ ?s, H : treepass_reset_pin _ ?s = Ret _ |- _ =>
      apply reset_pin_same in H; apply (at_entry_same _ _ _ _ _ Ha) in H; clear Ha
  | Ha : at_entry _ _ _ ?s, H : platform_get_timestamp ?s = Ret _ |- _ =>
      apply timestamp_same in H; apply (at_entry_same _ _ _ _ _ Ha) in H; clear Ha
  | Ha : at_entry _ _ _ ?s, H : stat_timestamp ?s = Ret _ |- _ =>
      apply stat_timestamp_same in H; apply (at_entry_same _ _ _ _ _ Ha) in H; clear Ha
  | Ha : at_entry _ _ _ ?s, H : stat_add _ _ _ _ ?s = Ret _ |- _ =>
      apply stat_add_same in H; apply (at_entry_same _ _ _ _ _ Ha) in H; clear Ha
  | H : treepass_get_pin _ ?s = Ret _ |- _ => apply get_pin_same in H; subst
  | _ => inv_run1
  end.
Ltac walk := repeat walk1.

Lemma locked_evictable_flags st :
  st = TP_LOCKED_EVICTABLE_STATUS →
  has_flag st TP_FREE = false ∧ has_flag st TP_CLEAN = true ∧ has_flag st TP_WRITEBACK = false ∧
  has_flag st TP_LOADING = false.
Proof. intros ->. done. Qed.

Section evict.
Context `{platform} (th : thread) (open : window) (v : Z → page_data).
Abbreviation pres := (preserves (Inv open v)).

(** A mapped entry knows its page. *)
Lemma homed_page s n e :
  cache_inv open s → lookupZ (tp_entry s) n = Some e → is_free e = false →
  ∃ i, lookupZ (tp_lookup s) i = Some n ∧ e_disk_addr e = page_addr s i ∧
    treepass_divide_by_page_size (tp_cfg s) (e_disk_addr e) = i ∧
    0 ≤ e_disk_addr e < 2 ^ 63.
Proof.
  intros HI He Hf. destruct (inv_homed _ HI n e He Hf) as [i Hi].
  destruct (inv_mapped _ HI i n Hi (entry_index_bound _ _ _ HI He)) as (e' & He' & Ha & _).
  assert (e' = e) as -> by congruence. exists i. split_and!; [done|done|..]; rewrite Ha.
  - apply page_addr_shiftr, HI.
  - apply (page_addr_bound _ _ _ HI Hi).
  - apply (page_addr_bound _ _ _ HI Hi).
Qed.

(** The state once a mapped entry is unmapped and freed. *)
Lemma unmap_at_entry s n i e e' s' :
  Inv open v s → lookupZ (tp_entry s) n = Some e → lookupZ (tp_lookup s) i = Some n →
  is_loading e = false → is_writeback e = false →
  at_entry (set_page i TP_UNMAPPED_ENTRY s) n e' s' → e_status e' = TP_FREE_STATUS →
  e_disk_addr e' = TP_UNMAPPED_ADDR → Inv open (upd v i (disk_read s (page_addr s i))) s'.
Proof.
  intros HI He Hi Hl Hw [_ Ha] Hst Hun. eapply Inv_ext; [exact Ha|].
  eapply Inv_unmap; try done; unfold is_free; by rewrite Hst.
Qed.

Lemma evict_entry_pres s n e s' :
  Inv open v s → lookupZ (tp_entry s) n = Some e → e_status e = TP_LOCKED_EVICTABLE_STATUS →
  evict_entry n s = Ret (tt, s') → Inv open v s'.
Proof.
  intros HI He Hst Hr. destruct (locked_evictable_flags _ Hst) as (Hf & Hc & Hw & Hl).
  destruct (homed_page _ _ _ (proj1 HI) He Hf) as (i & Hi & Ha & Hidx & Hb).
  pose proof (at_entry_start _ _ _ He) as Hat. unfold evict_entry in Hr.
  walk. rewrite (proj2 (Z.eqb_neq (e_disk_addr e) TP_UNMAPPED_ADDR)) in *
    by (unfold TP_UNMAPPED_ADDR, UINT64_MAX; lia).
  simpl negb in *. unfold mwhen in *. walk. rewrite Hidx in *.
  eapply Inv_view_ext; [by eapply unmap_at_entry|]. by eapply upd_clean.
Qed.

Lemma evict_locked_pres n : pres (evict_locked th n).
Proof.
  intros s b s' HI Hr. unfold evict_locked in Hr.
  apply bind_Ret in Hr as (st & s1 & (-> & e & He & ->)%get_status_run & Hr).
  apply bind_Ret in Hr as (p & s1 & Hp%get_pin_same & Hr). subst s1.
  destruct (_ || _) eqn:E.
  - match type of Hr with ?m s = _ => assert (pres m) as Hm by pres end. by eapply Hm.
  - apply orb_false_iff in E as [E%negb_false_iff%Z.eqb_eq _].
    apply bind_Ret in Hr as ([] & s2 & Hev & Hr). eapply evict_entry_pres in Hev; [|done..].
    match type of Hr with ?m s2 = _ => assert (pres m) as Hm by pres end. by eapply Hm.
Qed.

(** Eviction, in either mode, changes nothing a reader sees. *)
Lemma try_evict_pres n ee : pres (treepass_try_evict th n ee).
Proof. unfold treepass_try_evict. pose proof evict_locked_pres. pres. Qed.
Lemma evict_ee_from_pres k n c : pres (evict_ee_from th k n c).
Proof. pose proof try_evict_pres. revert n c. induction k as [|k IH]; intros n c; simpl; pres. Qed.
Lemma evict_batch_ee_pres b : pres (treepass_evict_batch_ee th b).
Proof. apply evict_ee_from_pres. Qed.
Lemma ei_update_pres : pres ei_update.
Proof. unfold ei_update. pres. Qed.
Lemma evict_batch_pres b f : pres (treepass_evict_batch th b f).
Proof. unfold treepass_evict_batch. pose proof try_evict_pres. pose proof ei_update_pres. pres. Qed.
Lemma advance_hand_pres fuel p : pres (advance_hand th fuel p).
Proof. induction fuel as [|fuel IH]; simpl; pres. Qed.
Lemma move_hand_pres p : pres (treepass_move_hand th p).
Proof.
  unfold treepass_move_hand. pose proof evict_batch_ee_pres. pose proof advance_hand_pres.
  pose proof evict_batch_pres. pres.
Qed.
Lemma passes_left_pres b n w : pres (passes_left b n w).
Proof. unfold passes_left. pres. Qed.
Lemma flush_pres : pres (treepass_flush th).
Proof. unfold treepass_flush. pres. Qed.
Lemma evict_all_pres b : pres (treepass_evict_all th b).
Proof.
  unfold treepass_evict_all, treepass_assert_no_refs_and_pins. pose proof evict_batch_pres. pres.
Qed.
End evict.
#[export] Hint Resolve try_evict_pres evict_batch_pres move_hand_pres passes_left_pres
  flush_pres evict_all_pres : preserves.

(** * Free pages, allocation, get and discard over the presented memory *)
(** Entry [n] has been taken from the free entries of a state that presents [v]:
    it is not mapped yet, and its entry is [e]. *)
Definition reserved (open : window) (v : Z → page_data) (n : Z) (e : treepass_entry)
    (s : treepass) : Prop :=
  ∃ base e0, Inv open v base ∧ lookupZ (tp_entry base) n = Some e0 ∧ is_free e0 = true ∧
    at_entry base n e s.

Section reserve.
Context `{platform} (th : thread) (open : window) (v : Z → page_data).

Lemma scan_free_spec k n status type rc s o s' :
  Inv open v s → scan_free th k n status type rc s = Ret (o, s') →
  match o with
  | None => s' = s
  | Some m => ∃ e, reserved open v m e s' ∧ e_status e = status ∧ e_type e = type ∧
      e_disk_addr e = TP_UNMAPPED_ADDR
  end.
Proof.
  intros HI. revert n. induction k as [|k IH]; intros n Hr; simpl in Hr; [by inv_run|].
  apply bind_Ret in Hr as (st & s1 & (-> & e & He & ->)%get_status_run & Hr).
  destruct (e_status e =? TP_FREE_STATUS) eqn:E; [|by eapply IH].
  apply Z.eqb_eq in E. pose proof (at_entry_start _ _ _ He) as Hat.
  assert (is_free e = true) by (unfold is_free; by rewrite E).
  unfold mwhen in Hr. destruct rc; walk; eexists; (split;
    [exists s, e; split_and!; [done|done|done|eassumption]|split_and!; [done|done|]];
    simpl; by apply (inv_free _ (proj1 HI) n)).
Qed.

Lemma free_page_loop_spec fuel status type rc bl np mh ws s o s' :
  Inv open v s → free_page_loop th fuel status type rc bl np mh ws s = Ret (o, s') →
  match o with
  | None => Inv open v s'
  | Some m => ∃ e, reserved open v m e s' ∧ e_status e = status ∧ e_type e = type ∧
      e_disk_addr e = TP_UNMAPPED_ADDR
  end.
Proof.
  revert np mh ws s. induction fuel as [|fuel IH]; intros np mh ws s HI Hr; cbn [free_page_loop] in Hr;
    apply bind_Ret in Hr as (go & s1 & Hgo & Hr);
    pose proof (passes_left_pres _ _ _ _ _ _ _ _ HI Hgo) as HI1;
    (destruct go; cbn [negb] in Hr; [|inv_run; done]); [done|].
  apply bind_Ret in Hr as (hand & s2 & Hh & Hr).
  pose proof (get_free_hand_pres _ _ _ _ _ _ HI1 Hh) as HI2.
  apply bind_Ret in Hr as (found & s3 & Hf & Hr).
  apply (scan_free_spec _ _ _ _ _ _ _ _ HI2) in Hf.
  destruct found as [m|]; [by inv_run|]. subst s3.
  apply bind_Ret in Hr as (np' & s3 & Hmv & Hr).
  pose proof (move_hand_pres _ _ _ _ _ _ _ HI2 Hmv) as HI3.
  apply bind_Ret in Hr as (hand' & s4 & Hh' & Hr).
  pose proof (get_free_hand_pres _ _ _ _ _ _ HI3 Hh') as HI4.
  destruct (hand' <? mh); [|by eapply IH].
  apply bind_Ret in Hr as (ws' & s5 & Hws & Hr).
  assert (Inv open v s5) as HI5.
  { destruct (_ =? 1); [by eapply timestamp_pres|by inv_run]. }
  apply bind_Ret in Hr as ([] & s6 & Hw & Hr).
  pose proof (treepass_wait_pres _ _ _ _ _ HI5 Hw) as HI6.
  apply bind_Ret in Hr as (h'' & s7 & Hh'' & Hr). eapply IH; [|exact Hr].
  by eapply get_free_hand_pres.
Qed.

Lemma get_free_page_spec status type rc bl s n s' :
  Inv open v s → treepass_get_free_page th status type rc bl s = Ret (n, s') →
  (bl = false ∧ n = TP_UNMAPPED_ENTRY ∧ Inv open v s') ∨
  (∃ e, reserved open v n e s' ∧ e_status e = status ∧ e_type e = type ∧
    e_disk_addr e = TP_UNMAPPED_ADDR).
Proof.
  intros HI Hr. unfold treepass_get_free_page in Hr.
  apply bind_Ret in Hr as (mh & s1 & Hmh & Hr).
  pose proof (get_free_hand_pres _ _ _ _ _ _ HI Hmh) as HI1.
  apply bind_Ret in Hr as ([] & s2 & Hmv & Hr).
  assert (Inv open v s2) as HI2.
  { revert Hmv. unfold mwhen. destruct (_ =? _); intros Hmv; inv_run; [by eapply move_hand_pres|done]. }
  apply bind_Ret in Hr as (found & s3 & Hf & Hr).
  apply (free_page_loop_spec _ _ _ _ _ _ _ _ _ _ _ HI2) in Hf.
  destruct found as [m|]; inv_run; [by right|]. left. by destruct bl.
Qed.

(** A reserved entry mapped at an uncached page. *)
Lemma map_reserved i n e' s' base :
  Inv (absent i open) v base → i ∉ w_absent open →
  (∃ e0, lookupZ (tp_entry base) n = Some e0 ∧ is_free e0 = true) →
  at_entry (set_page i n base) n e' s' → e_disk_addr e' = page_addr s' i →
  status_wf (e_status e') → is_free e' = false →
  is_loading e' = true ∨ is_clean e' = false ∨ e_data e' = disk_read base (page_addr base i) →
  Inv open (if is_loading e' then v else upd v i (e_data e')) s' ∧
  lookupZ (tp_lookup s') i = Some n ∧ lookupZ (tp_entry s') n = Some e'.
Proof.
  intros HI Hab (e0 & He0 & Hf0) Hat Ha Hwf Hf Hlc. pose proof (at_entry_lookup _ _ _ _ Hat) as He'.
  apply Inv_present in HI as [HI Hi]. destruct Hat as [_ Hs].
  assert (lookupZ (tp_lookup s') i = Some n) as Hn.
  { destruct Hs as (_ & -> & _). simpl. apply lookupZ_insertZ_eq. by eapply lookupZ_Some. }
  split_and!; [|done|done]. eapply Inv_ext; [exact Hs|]. eapply Inv_map; try done.
  rewrite Ha. unfold page_addr. by destruct Hs as (-> & _).
Qed.
End reserve.

Lemma reserved_cfg open v n e s : reserved open v n e s → tp_cfg s = w_cfg open.
Proof. intros (b & e0 & HI & _ & _ & _ & (-> & _)). apply (inv_fixed _ (proj1 HI)). Qed.

Lemma divide_page_addr open s i :
  cache_inv open s → treepass_divide_by_page_size (tp_cfg s) (page_addr s i) = i.
Proof. intros HI. apply page_addr_shiftr, HI. Qed.

Section get.
Context `{platform} (th : thread) (open : window) (v : Z → page_data).
Abbreviation pres := (preserves (Inv open v)).

(** A reserved entry given back. *)
Lemma free_reserved n e s : reserved open v n e s → e_status e = TP_FREE_STATUS →
  e_disk_addr e = TP_UNMAPPED_ADDR → Inv open v s.
Proof.
  intros (b & e0 & HI & He0 & Hf0 & _ & Hs) Hst Ha. eapply Inv_ext; [exact Hs|].
  eapply Inv_unmapped; try done; unfold is_free; by rewrite Hst.
Qed.

Lemma page_addr_cfg s s' i : tp_cfg s' = tp_cfg s → page_addr s' i = page_addr s i.
Proof. unfold page_addr. by intros ->. Qed.

(** Close an allocation: the reserved entry is mapped at page [i]. *)
Ltac finish_map Hi HIb Hst :=
  match type of Hi with Inv (absent ?i _) _ ?s => match type of HIb with Inv _ _ ?b =>
  rewrite (page_addr_cfg b s) in *
    by (by rewrite (inv_fixed _ (proj1 Hi)), (inv_fixed _ (proj1 HIb)));
  rewrite (divide_page_addr _ _ _ (proj1 HIb)) in *;
  match goal with Ha : at_entry (set_page i ?m b) _ ?e' ?t |- _ =>
    assert (page_addr t i = page_addr b i) as Ht
      by (apply page_addr_cfg; destruct Ha as [_ (-> & _)]; done);
    destruct (map_reserved open v i m e' t b) as (HI' & Hl' & He'); [done|done|by eauto|exact Ha|..];
    [by rewrite Ht|simpl; by rewrite Hst|unfold is_free; simpl; by rewrite Hst|
     right; left; unfold is_clean; simpl; by rewrite Hst|];
    exists e'; unfold is_loading in HI'; simpl in HI'; rewrite Hst in HI';
    split_and!; [exact HI'|exact Hl'|exact He'|done..]
  end end end.

(** Allocating an uncached page shows a fresh buffer there and nothing else. *)
Lemma alloc_spec addr type i s n s' :
  Inv open v s → i ∉ w_absent open →
  lookupZ (tp_lookup s) i = Some TP_UNMAPPED_ENTRY → addr = page_addr s i →
  treepass_alloc th addr type s = Ret (n, s') →
  ∃ e, Inv open (upd v i (e_data e)) s' ∧ lookupZ (tp_lookup s') i = Some n ∧
    lookupZ (tp_entry s') n = Some e ∧ e_disk_addr e = addr ∧ e_type e = type ∧
    e_status e = Z.lor TP_ALLOC_STATUS TP_CLOCK_ONE ∧ e_entry_time e = treepass_current_ts th.
Proof.
  intros HI Hab Hi -> Hr. apply (Inv_absent _ _ _ _ HI) in Hi. clear HI. unfold treepass_alloc in Hr.
  apply bind_Ret in Hr as (n' & s1 & Hfp & Hr).
  apply (get_free_page_spec _ _ _ _ _ _ _ _ _ _ Hi) in Hfp as [(? & _)|(e & Hres & Hst & _)]; [done|].
  destruct Hres as (b & e0 & HIb & He0 & Hf0 & Hat). walk. finish_map Hi HIb Hst.
Qed.

Lemma alloc_compaction_hot_spec addr type i s n s' :
  Inv open v s → i ∉ w_absent open →
  lookupZ (tp_lookup s) i = Some TP_UNMAPPED_ENTRY → addr = page_addr s i →
  treepass_alloc_compaction_hot th addr type s = Ret (n, s') →
  ∃ e, Inv open (upd v i (e_data e)) s' ∧ lookupZ (tp_lookup s') i = Some n ∧
    lookupZ (tp_entry s') n = Some e ∧ e_disk_addr e = addr ∧ e_type e = type ∧
    e_status e = Z.lor TP_ALLOC_STATUS (Z.shiftl TP_CLOCK_MAX TP_CLOCK_SHIFT).
Proof.
  intros HI Hab Hi -> Hr. apply (Inv_absent _ _ _ _ HI) in Hi. clear HI.
  unfold treepass_alloc_compaction_hot in Hr.
  apply bind_Ret in Hr as (n' & s1 & Hfp & Hr).
  apply (get_free_page_spec _ _ _ _ _ _ _ _ _ _ Hi) in Hfp as [(? & _)|(e & Hres & Hst & _)]; [done|].
  destruct Hres as (b & e0 & HIb & He0 & Hf0 & Hat).
  walk. case_bool_decide; walk; finish_map Hi HIb Hst.
Qed.

(** Loading a page: the entry is reserved and the page still uncached. *)
Lemma acquire_spec type i s n s' :
  Inv open v s → treepass_acquire_entry_for_load th (page_addr s i) type s = Ret (n, s') →
  (n = TP_UNMAPPED_ENTRY ∧ Inv open v s') ∨
  (n ≠ TP_UNMAPPED_ENTRY ∧ ∃ b e0 e, Inv open v b ∧
     lookupZ (tp_lookup b) i = Some TP_UNMAPPED_ENTRY ∧
     lookupZ (tp_entry b) n = Some e0 ∧ is_free e0 = true ∧ at_entry (set_page i n b) n e s' ∧
     e_status e = TP_READ_LOADING_STATUS ∧ e_type e = type ∧ e_disk_addr e = page_addr b i).
Proof.
  intros HI Hr. unfold treepass_acquire_entry_for_load in Hr.
  apply bind_Ret in Hr as (n' & s1 & Hfp & Hr).
  apply (get_free_page_spec _ _ _ _ _ _ _ _ _ _ HI) in Hfp as [(? & _)|(e & Hres & Hst & Hty & Hun)]; [done|].
  destruct Hres as (b & e0 & HIb & He0 & Hf0 & Hat).
  rewrite (page_addr_cfg b s) in Hr
    by (by rewrite (inv_fixed _ (proj1 HI)), (inv_fixed _ (proj1 HIb))).
  apply bind_Ret in Hr as (e1 & s2 & [-> ->]%(at_entry_get _ _ _ _ _ _ Hat) & Hr).
  apply bind_Ret in Hr as (m & s2 & [-> Hm]%lookup_run & Hr).
  assert (lookupZ (tp_lookup b) i = Some m) as Hbi.
  { destruct Hat as [_ (Hc & Hl & _)]. rewrite Hc, Hl in Hm. simpl in Hm.
    by rewrite (divide_page_addr _ _ _ (proj1 HIb)) in Hm. }
  destruct (m =? TP_UNMAPPED_ENTRY) eqn:E; simpl in Hr.
  - apply Z.eqb_eq in E as ->. right. walk.
    rewrite (divide_page_addr _ _ _ (proj1 HIb)) in *.
    split; [by eapply entry_index_bound; [apply HIb|]|]. by eexists b, e0, _; split_and!.
  - left. walk. split; [done|]. eapply free_reserved.
    + exists b, e0. by split_and!.
    + done.
    + done.
Qed.

(** The handle a get returns names an entry that holds the page's contents. *)
Definition holds (s : treepass) (i n : Z) (d : page_data) : Prop :=
  ∃ e, lookupZ (tp_lookup s) i = Some n ∧ lookupZ (tp_entry s) n = Some e ∧
    is_loading e = false ∧ e_data e = d.

Lemma loading_status_cleared :
  status_clear_flag TP_READ_LOADING_STATUS TP_LOADING = TP_CLEAN.
Proof. done. Qed.

Lemma get_from_disk_spec type warm i s retry h s' :
  Inv open v s → i ∉ w_absent open →
  treepass_get_from_disk th (page_addr s i) type warm s = Ret ((retry, h), s') →
  Inv open v s' ∧ (retry = false → ∃ n, h = Page n ∧ holds s' i n (v i)).
Proof.
  intros HI Hab Hr. unfold treepass_get_from_disk in Hr.
  apply bind_Ret in Hr as (n & s1 & Hacq & Hr).
  apply acquire_spec in Hacq as [[-> HI1]|(Hn & b & e0 & e & HIb & Hbi & He0 & Hf0 & Hat & Hst & Hty & Ha)];
    [rewrite Z.eqb_refl in Hr; inv_run; simplify_eq; done| |done].
  rewrite (proj2 (Z.eqb_neq _ _) Hn) in Hr.
  rewrite (page_addr_cfg b s) in Hr
    by (by rewrite (inv_fixed _ (proj1 HI)), (inv_fixed _ (proj1 HIb))).
  assert (∃ t e', at_entry (set_page i n b) n e' s' ∧ e_data e' = disk_read b (page_addr b i) ∧
    e_status e' = TP_CLEAN ∧ e_disk_addr e' = page_addr b i ∧ retry = false ∧ h = Page n ∧ t = tt)
    as (_ & e' & Hat' & Hd & Hst' & Ha' & -> & -> & _).
  { apply bind_Ret in Hr as (? & s2 & Hs2 & Hr).
    apply stat_timestamp_same, (at_entry_same _ _ _ _ _ Hat) in Hs2. clear Hat.
    apply bind_Ret in Hr as (? & ? & [-> ->]%get_Ret & Hr).
    assert (disk_read s2 (page_addr b i) = disk_read b (page_addr b i)) as Hdr.
    { unfold disk_read. by destruct Hs2 as [_ (_ & _ & _ & -> & _)]. }
    rewrite Hdr in Hr. unfold treepass_finish_load, mwhen in Hr. walk.
    case_match; walk; eexists tt, _; split_and!; try eassumption; try done; simpl;
      rewrite Hst; done. }
  destruct (map_reserved open v i n e' s' b) as (HI' & Hl' & He');
    [by apply Inv_absent|done|by eauto|exact Hat'|..].
  - rewrite Ha'. symmetry. apply page_addr_cfg. by destruct Hat' as [_ (-> & _)].
  - by rewrite Hst'.
  - unfold is_free. by rewrite Hst'.
  - by right; right.
  - assert (is_loading e' = false) as Hnl by (unfold is_loading; by rewrite Hst').
    rewrite Hnl, Hd, <-(view_unmapped _ _ _ HIb Hbi) in HI'.
    split.
    + eapply Inv_view_ext; [exact HI'|]. intros j. unfold upd. by destruct (decide (j = i)) as [->|].
    + intros _. exists n. split; [done|]. exists e'. split_and!; try done.
      by rewrite Hd, <-(view_unmapped _ _ _ HIb Hbi).
Qed.
End get.

(** ** Get *)
Section get.
Context `{platform} (th : thread) (open : window) (v : Z → page_data).
Abbreviation pres := (preserves (Inv open v)).

(** A wait ends with its condition false. *)
Lemma wait_while_ends fuel n f s s' :
  wait_while fuel (treepass_test_flag n f) s = Ret (tt, s') →
  ∃ e, lookupZ (tp_entry s') n = Some e ∧ has_flag (e_status e) f = false.
Proof.
  revert s. induction fuel as [|fuel IH]; intros s Hr; simpl in Hr;
    apply bind_Ret in Hr as (b & s1 & (-> & e & He & ->)%test_flag_run & Hr);
    destruct (has_flag (e_status e) f) eqn:E; simpl in Hr; inv_run; eauto.
Qed.
Lemma wait_flag_ends n f s s' :
  wait_flag n f s = Ret (tt, s') →
  ∃ e, lookupZ (tp_entry s') n = Some e ∧ has_flag (e_status e) f = false.
Proof. unfold wait_flag. intros Hr. inv_run. by eapply wait_while_ends. Qed.

(** An entry whose address is that of a device page is mapped there. *)
Lemma addr_mapped s n e i :
  cache_inv open s → lookupZ (tp_entry s) n = Some e → e_disk_addr e = page_addr s i →
  0 ≤ page_addr s i < 2 ^ 63 → lookupZ (tp_lookup s) i = Some n.
Proof.
  intros HI He Ha Hb. destruct (is_free e) eqn:Hf.
  - rewrite (inv_free _ HI _ _ He Hf) in Ha. unfold TP_UNMAPPED_ADDR, UINT64_MAX in Ha. lia.
  - destruct (homed_page _ _ _ _ HI He Hf) as (j & Hj & Ha' & _).
    assert (j = i) as <-; [|done]. eapply page_addr_inj; [apply HI|congruence].
Qed.

Lemma page_addr_inv s s' i : Inv open v s → Inv open v s' → page_addr s i = page_addr s' i.
Proof.
  intros HI HI'. apply page_addr_cfg. by rewrite (inv_fixed _ (proj1 HI)), (inv_fixed _ (proj1 HI')).
Qed.

Lemma mwhen_pres b (m : C unit) : pres m → pres (mwhen b m).
Proof. intros. by apply preserves_when. Qed.

Lemma holds_view s i n e :
  Inv open v s → lookupZ (tp_lookup s) i = Some n → lookupZ (tp_entry s) n = Some e →
  is_loading e = false → holds s i n (v i).
Proof.
  intros [HI Hv] Hi He Hl. exists e. split_and!; try done.
  rewrite <-Hv. unfold view. by rewrite Hi, He, Hl.
Qed.

Lemma get_in_cache_locked_spec type warm i n s retry h s' :
  Inv open v s → 0 ≤ page_addr s i < 2 ^ 63 →
  get_in_cache_locked th (page_addr s i) type warm n s = Ret ((retry, h), s') →
  Inv open v s' ∧ (retry = false → ∃ m, h = Page m ∧ holds s' i m (v i)).
Proof.
  intros HI Hb Hr. unfold get_in_cache_locked in Hr.
  apply bind_Ret in Hr as ([] & s1 & Hw & Hr).
  pose proof (wait_flag_pres _ _ _ _ _ _ _ HI Hw) as HI1.
  apply wait_flag_ends in Hw as (e & He & Hl).
  apply bind_Ret in Hr as (e' & s2 & [-> He']%get_entry_run & Hr).
  assert (e' = e) as -> by congruence. rewrite (page_addr_inv s s1) in * by done.
  destruct (e_disk_addr e =? page_addr s1 i) eqn:E; simpl in Hr.
  2:{ apply bind_Ret in Hr as ([] & s2 & Hd & Hr). inv_run. simplify_eq. split; [|done].
      by eapply dec_ref_pres. }
  apply Z.eqb_eq in E. pose proof (addr_mapped _ _ _ _ (proj1 HI1) He E Hb) as Hi.
  pose proof (at_entry_start _ _ _ He) as Hat.
  match type of Hr with ?m s1 = _ =>
    assert (pres m) as Hm by (pres; apply mwhen_pres; pres) end.
  pose proof (Hm _ _ _ HI1 Hr) as HI'. clear Hm.
  split; [done|]. intros _. unfold mwhen in Hr.
  assert (∃ e', at_entry s1 n e' s' ∧ is_loading e' = false ∧ h = Page n) as (e' & Hat' & Hl' & ->).
  { apply bind_Ret in Hr as (? & ? & ?%assert_Ret & Hr). destruct_and!; subst.
    case_match; walk; simplify_eq; by eexists. }
  exists n. split; [done|]. eapply holds_view; [done| |by eapply at_entry_lookup|done].
  by destruct Hat' as [_ (_ & -> & _)].
Qed.

Lemma get_in_cache_spec blocking type warm i n s retry h s' :
  Inv open v s → 0 ≤ page_addr s i < 2 ^ 63 →
  treepass_get_in_cache th (page_addr s i) blocking type warm n s = Ret ((retry, h), s') →
  Inv open v s' ∧ (retry = false → (h = NULL ∧ blocking = false) ∨
    ∃ m, h = Page m ∧ holds s' i m (v i)).
Proof.
  intros HI Hb Hr. unfold treepass_get_in_cache in Hr.
  apply bind_Ret in Hr as (rc & s1 & Hrc & Hr).
  assert (Inv open v s1) as HI1.
  { destruct blocking; [by eapply get_read_pres|by eapply try_get_read_pres]. }
  rewrite (page_addr_inv s s1) in * by done.
  destruct rc; [|destruct blocking; inv_run; simplify_eq; naive_solver..].
  - apply bind_Ret in Hr as (e & s2 & [-> He]%get_entry_run & Hr).
    destruct (e_disk_addr e =? page_addr s1 i) eqn:E; simpl in Hr.
    + destruct (get_in_cache_locked_spec _ _ _ _ _ _ _ _ HI1 Hb Hr) as [? Hh]. split; [done|].
      intros Hn. right. by apply Hh.
    + apply bind_Ret in Hr as ([] & s2 & Hd & Hr). inv_run. simplify_eq. split; [|done].
      by eapply dec_ref_pres.
Qed.

Lemma get_internal_spec blocking type warm i s retry h s' :
  Inv open v s → i ∉ w_absent open →
  treepass_get_internal th (page_addr s i) blocking type warm s = Ret ((retry, h), s') →
  Inv open v s' ∧ (retry = false → (h = NULL ∧ blocking = false) ∨
    (h = Uninitialized ∧ blocking = false) ∨ ∃ m, h = Page m ∧ holds s' i m (v i)).
Proof.
  intros HI Hab Hr. unfold treepass_get_internal in Hr.
  apply bind_Ret in Hr as (n & s1 & [-> Hn]%lookup_run & Hr).
  rewrite (divide_page_addr _ _ _ (proj1 HI)) in Hn.
  pose proof (page_addr_bound _ _ _ (proj1 HI) Hn) as Hb.
  destruct (negb (n =? TP_UNMAPPED_ENTRY)).
  - destruct (get_in_cache_spec _ _ _ _ _ _ _ _ _ HI Hb Hr) as [? Hh]. split; [done|].
    intros Hf. destruct (Hh Hf) as [?|?]; [by left|by right; right].
  - destruct blocking.
    + destruct (get_from_disk_spec _ _ _ _ _ _ _ _ _ _ HI Hab Hr) as [? Hh]. split; [done|].
      intros Hf. right. right. by apply Hh.
    + inv_run. simplify_eq. split; [done|]. auto.
Qed.

Lemma get_loop_spec fuel blocking type warm i s h s' :
  Inv open v s → i ∉ w_absent open →
  get_loop th fuel (page_addr s i) blocking type warm s = Ret (h, s') →
  Inv open v s' ∧ ((h = NULL ∧ blocking = false) ∨
    (h = Uninitialized ∧ blocking = false) ∨ ∃ m, h = Page m ∧ holds s' i m (v i)).
Proof.
  intros HI Hab. revert s HI. induction fuel as [|fuel IH]; intros s HI Hr; simpl in Hr;
    apply bind_Ret in Hr as ([retry h'] & s1 & Hg & Hr);
    destruct (get_internal_spec _ _ _ _ _ _ _ _ HI Hab Hg) as [HI1 Hh];
    destruct retry; simpl in Hr; inv_run; try (split; [done|by apply Hh]).
  rewrite (page_addr_inv s s1) in Hr by done. by eapply IH.
Qed.
End get.
