(* ===== verification/TreePassSync.v ===== *)
(** * Discard: a page's cached contents are dropped, every other page keeps its own *)
From S2P Require Import Prelude Allocator TreePassStatus TreePassState TreePass TreePassInv TreePassWriteback.
From S2P Require Import TreePassGet.

(** Entry [n] is loaded, at address [a]. *)
Definition loaded_at (n a : Z) (s : treepass) : Prop :=
  ∃ e, lookupZ (tp_entry s) n = Some e ∧ is_loading e = false ∧ e_disk_addr e = a.

(** An update of an entry that does not start a load. *)
Definition keeps_loaded (f : treepass_entry → treepass_entry) : Prop :=
  ∀ e, e_disk_addr (f e) = e_disk_addr e ∧ (is_loading e = false → is_loading (f e) = false).

Lemma loading_set st f :
  Z.land TP_LOADING f = 0 → has_flag (status_set_flag st f) TP_LOADING = has_flag st TP_LOADING.
Proof.
  intros Hf. unfold has_flag, status_test_flag, status_set_flag.
  by rewrite Z.land_lor_distr_r, Hf, Z.lor_0_r.
Qed.
Lemma loading_clear st f :
  has_flag st TP_LOADING = false → has_flag (status_clear_flag st f) TP_LOADING = false.
Proof.
  unfold has_flag, status_test_flag, status_clear_flag. rewrite !negb_false_iff, !Z.eqb_eq.
  intros H. by rewrite Z.land_assoc, H, Z.land_0_l.
Qed.

Section loaded.
Context `{platform} (th : thread) (n a : Z).
Abbreviation pres := (preserves (loaded_at n a)).

Lemma entries_loaded f s s' m e :
  loaded_at n a s → lookupZ (tp_entry s) m = Some e → keeps_loaded f →
  tp_entry s' = insertZ m (f e) (tp_entry s) → loaded_at n a s'.
Proof.
  intros (e0 & He0 & Hl & Ha) He Hf Hs. unfold loaded_at. rewrite Hs.
  destruct (decide (m = n)) as [->|Hne].
  - rewrite lookupZ_insertZ_eq by (by eapply lookupZ_Some). simplify_eq. destruct (Hf e0).
    eexists. split_and!; [done|auto|congruence].
  - rewrite lookupZ_insertZ_ne by done. by exists e0.
Qed.
Lemma mod_entry_loaded m f : keeps_loaded f → pres (mod_entry m f).
Proof.
  intros Hf s u s' Hs Hr. unfold mod_entry in Hr. apply bind_Ret in Hr as (e & ? & [-> He]%get_entry_run & Hr).
  inv_run. by eapply entries_loaded.
Qed.
Lemma get_status_loaded m : pres (treepass_get_status m).
Proof. intros s u s' Hs [-> _]%get_status_run. done. Qed.
Lemma get_entry_loaded m : pres (treepass_get_entry m).
Proof. intros s u s' Hs [-> _]%get_entry_run. done. Qed.
Lemma test_flag_loaded m f : pres (treepass_test_flag m f).
Proof. intros s u s' Hs [-> _]%test_flag_run. done. Qed.
Lemma status_update_loaded m g :
  (∀ st, has_flag st TP_LOADING = false → has_flag (g st) TP_LOADING = false) →
  pres (st ← treepass_get_status m; mod_entry m (with_status (g st))).
Proof.
  intros Hg s u s' Hs Hr. unfold mod_entry in Hr.
  apply bind_Ret in Hr as (st & s1 & (-> & e & He & ->)%get_status_run & Hr).
  apply bind_Ret in Hr as (e' & ? & [-> He']%get_entry_run & Hr). inv_run.
  assert (e' = e) as -> by congruence.
  eapply (entries_loaded (λ e0, with_status (g (e_status e0)) e0)); [done|done| |done].
  intros e0. split; [done|]. apply Hg.
Qed.
Lemma set_flag_loaded m f : Z.land TP_LOADING f = 0 → pres (treepass_set_flag m f).
Proof.
  intros Hf s u s' Hs Hr. unfold treepass_set_flag in Hr. inv_run.
  eapply (status_update_loaded m (λ st, status_set_flag st f)); [|done|by erewrite bind_run].
  intros st. by rewrite loading_set.
Qed.
Lemma clear_flag_loaded m f : pres (treepass_clear_flag m f).
Proof.
  intros s u s' Hs Hr. unfold treepass_clear_flag in Hr. inv_run.
  eapply (status_update_loaded m (λ st, status_clear_flag st f)); [|done|by erewrite bind_run].
  intros st. by apply loading_clear.
Qed.
Lemma clear_clock_loaded m : pres (treepass_set_clock m 0).
Proof.
  apply (status_update_loaded m (λ st, status_set_clock st 0)). intros st Hl.
  unfold status_set_clock. simpl. rewrite Z.lor_0_r. by apply (loading_clear st TP_CLOCK_MASK).
Qed.
Lemma waiters_loaded m l : pres (mod_entry m (with_waiters l)).
Proof. by apply mod_entry_loaded. Qed.
Lemma data_loaded m d : pres (mod_entry m (with_data d)).
Proof. by apply mod_entry_loaded. Qed.
Lemma set_device_loaded d q c : pres (mmod (set_device d q c)).
Proof. apply preserves_mod. intros s Hs. exact Hs. Qed.
Hint Resolve get_status_loaded get_entry_loaded test_flag_loaded clear_flag_loaded
  clear_clock_loaded waiters_loaded data_loaded set_device_loaded : preserves.

Lemma io_complete_loaded k : pres (io_complete k).
Proof.
  unfold io_complete, io_transfer, treepass_write_callback, treepass_prefetch_callback,
    write_callback_page, treepass_finish_load.
  assert (∀ m, pres (treepass_set_flag m TP_CLEAN)) by (intros; by apply set_flag_loaded). pres.
Qed.
Lemma wait_loaded : pres treepass_wait.
Proof. unfold treepass_wait. pose proof io_complete_loaded. pres. Qed.
Lemma wait_flag_loaded m f : pres (wait_flag m f).
Proof.
  unfold wait_flag. apply preserves_bind; [pres|]. intros s.
  generalize (length (tp_pending s)) as fuel. intros fuel. pose proof wait_loaded.
  induction fuel as [|fuel IH]; simpl; pres.
Qed.
End loaded.

Section discard.
Context `{platform} (th : thread) (open : window) (v : Z → page_data).
Abbreviation pres := (preserves (Inv open v)).

Lemma wait_readers_same n k i s u s' : mfor k i (wait_readers th n) s = Ret (u, s') → s' = s.
Proof.
  assert (preserves (λ t, t = s) (mfor k i (wait_readers th n))) as Hp.
  { unfold wait_readers, treepass_get_ref. pres. }
  intros Hr. by apply (Hp s u s').
Qed.

(** The write lock of a loaded page: no reader, no writeback, no load remains. *)
Lemma get_write_spec n a s s' :
  Inv open v s → loaded_at n a s → treepass_get_write th n s = Ret (tt, s') →
  Inv open v s' ∧ ∃ e, lookupZ (tp_entry s') n = Some e ∧ is_loading e = false ∧
    is_writeback e = false ∧ e_disk_addr e = a.
Proof.
  intros HI Hl Hr. pose proof (get_write_pres _ _ _ _ _ _ _ HI Hr) as HI'.
  unfold treepass_get_write in Hr.
  apply bind_Ret in Hr as (? & s1 & Hs & Hr).
  apply (set_flag_loaded n a n TP_WRITELOCKED eq_refl) in Hs; [|done].
  apply bind_Ret in Hr as ([] & s2 & Hw & Hr). apply wait_readers_same in Hr as ->.
  pose proof (wait_flag_loaded n a _ _ _ _ _ Hs Hw) as (e & He & Hld & Ha).
  apply wait_flag_ends in Hw as (e' & He' & Hwb). assert (e' = e) as -> by congruence.
  split; [done|]. by exists e.
Qed.

(** After a discard page [i] is not cached and shows the device's copy. *)
Lemma try_page_discard_spec i s s' :
  Inv open v s → treepass_try_page_discard th (page_addr s i) s = Ret (tt, s') →
  Inv open (upd v i (disk_read s' (page_addr s' i))) s' ∧
  lookupZ (tp_lookup s') i = Some TP_UNMAPPED_ENTRY.
Proof.
  intros HI Hr. unfold treepass_try_page_discard in Hr.
  apply bind_Ret in Hr as (n & s1 & [-> Hn]%lookup_run & Hr).
  rewrite (divide_page_addr _ _ _ (proj1 HI)) in Hn.
  destruct (n =? TP_UNMAPPED_ENTRY) eqn:E.
  { apply Z.eqb_eq in E as ->. inv_run. split; [|done].
    eapply Inv_upd_same; [done|]. rewrite (proj2 HI). by apply (view_unmapped _ _ _ HI). }
  pose proof (page_addr_bound _ _ _ (proj1 HI) Hn) as Hb. clear Hn.
  apply bind_Ret in Hr as (rc & s1 & Hrc & Hr).
  apply (get_read_pres _ open v) in Hrc; [|done]. destruct rc; [|by inv_run..].
  apply bind_Ret in Hr as ([] & s2 & Hw & Hr).
  pose proof (wait_flag_pres _ _ _ _ _ _ _ Hrc Hw) as HI2.
  apply wait_flag_ends in Hw as (e & He & Hl).
  apply bind_Ret in Hr as (e' & s3 & [-> He']%get_entry_run & Hr).
  assert (e' = e) as -> by congruence. rewrite (page_addr_inv open v s s2) in * by done.
  destruct (e_disk_addr e =? page_addr s2 i) eqn:Ea; simpl in Hr; [|by inv_run].
  apply Z.eqb_eq in Ea.
  apply bind_Ret in Hr as (rc & s3 & Hc & Hr).
  pose proof (try_get_claim_pres _ _ _ _ _ _ HI2 Hc) as HI3.
  assert (loaded_at n (page_addr s2 i) s3) as Hl3.
  { unfold treepass_try_get_claim in Hc. inv_run.
    match goal with Hs : treepass_set_flag _ _ _ = _ |- _ =>
      apply (set_flag_loaded n (page_addr s2 i) n TP_CLAIMED eq_refl) in Hs; [done|] end. by exists e. }
  destruct rc; [|by inv_run..].
  apply bind_Ret in Hr as ([] & s4 & Hgw & Hr).
  destruct (get_write_spec _ _ _ _ HI3 Hl3 Hgw) as (HI4 & e4 & He4 & Hld4 & Hwb4 & Ha4).
  rewrite (page_addr_inv open v s2 s4) in * by done.
  pose proof (addr_mapped _ _ _ _ _ (proj1 HI4) He4 Ha4 Hb) as Hi.
  pose proof (at_entry_start _ _ _ He4) as Hat. walk.
  rewrite (divide_page_addr _ _ _ (proj1 HI4)) in *.
  match goal with Ha : at_entry (set_page i _ s4) n ?e' s' |- _ =>
    assert (disk_read s' (page_addr s' i) = disk_read s4 (page_addr s4 i)) as ->
      by (unfold disk_read, page_addr; destruct Ha as [_ (-> & _ & _ & -> & _)]; done);
    split; [by eapply (unmap_at_entry _ _ s4 n i e4 e')|] end.
  match goal with Ha : at_entry _ n _ s' |- _ => destruct Ha as [_ (_ & -> & _)] end.
  simpl. apply lookupZ_insertZ_eq. by eapply lookupZ_Some.
Qed.

End discard.

(** ** Extents *)
Section extent.
Context `{platform} (th : thread) (open : window) (v : Z → page_data).

(** The pages [i0 .. i0 + k) have been discarded. *)
Definition discarded (i0 k : Z) (s : treepass) : Prop :=
  ∃ w v', Inv w v' s ∧ w_cfg w = w_cfg open ∧ w_open w = w_open open ∧
    w_absent open ⊆ w_absent w ∧ (∀ j, i0 ≤ j < i0 + k → j ∈ w_absent w) ∧
    ∀ j, ¬ (i0 ≤ j < i0 + k) → v' j = v j.

Lemma discard_body i0 k s u s' :
  discarded i0 k s → 0 ≤ k → 0 ≤ i0 → 0 ≤ page_addr s (i0 + k) < 2 ^ 63 →
  treepass_try_page_discard th
    (u64 (page_addr s i0 + treepass_multiply_by_page_size (tp_cfg s) k)) s = Ret (u, s') →
  discarded i0 (k + 1) s'.
Proof.
  intros (w & v' & HI & Hcfg & Hop & Hsub & Hab & Hv) Hk Hi0 Hb Hr. destruct u.
  assert (u64 (page_addr s i0 + treepass_multiply_by_page_size (tp_cfg s) k) = page_addr s (i0 + k)) as E.
  { unfold treepass_multiply_by_page_size. rewrite u64_add_r.
    change (Z.shiftl k _) with (page_addr s k).
    replace (page_addr s i0 + page_addr s k) with (page_addr s (i0 + k)); [apply u64_small; lia|].
    unfold page_addr. pose proof (cfg_log _ (inv_cfg _ (proj1 HI))).
    rewrite !Z.shiftl_mul_pow2 by lia. lia. }
  rewrite E in Hr. destruct (try_page_discard_spec _ _ _ _ _ _ HI Hr) as [HI' Hun].
  exists (absent (i0 + k) w). eexists. split; [by apply Inv_absent|]. simpl. split_and!; try done.
  - intros j Hj. right. by apply Hsub.
  - intros j Hj. destruct (decide (j = i0 + k)) as [->|]; [by left|]. right. apply Hab. lia.
  - intros j Hj. unfold upd. rewrite decide_False by lia. apply Hv. lia.
Qed.

Lemma discarded_same i0 k s s' : same_memory s s' → discarded i0 k s → discarded i0 k s'.
Proof. intros Hs (w & v' & HI & Hrest). exists w, v'. split; [by eapply Inv_ext|done]. Qed.

Lemma extent_discard_spec i0 type s s' :
  Inv open v s → 0 ≤ i0 → page_addr s (i0 + tp_pages_per_extent (tp_cfg s)) ≤ 2 ^ 63 →
  0 ≤ tp_pages_per_extent (tp_cfg s) →
  treepass_extent_discard th (page_addr s i0) type s = Ret (tt, s') →
  discarded i0 (tp_pages_per_extent (tp_cfg s)) s'.
Proof.
  intros HI Hi0 Hb Hp Hr. unfold treepass_extent_discard in Hr.
  apply bind_Ret in Hr as (? & ? & [-> ->]%get_Ret & Hr).
  assert (discarded i0 0 s) as Hd.
  { exists open, v. split_and!; try done. intros j ?. lia. }
  set (P := λ k t, discarded i0 k t ∧ tp_cfg t = tp_cfg s).
  assert (P (0 + Z.of_nat (Z.to_nat (tp_pages_per_extent (tp_cfg s)))) s') as [HP _].
  { eapply (triple_for P); [|by split|exact Hr]. clear Hr s' Hd.
    intros k Hk t u t' [Hd Hc] Hr. rewrite <-Hc in Hr.
    change (page_addr s i0) with (Z.shiftl i0 (tp_log_page_size (tp_cfg s))) in Hr.
    rewrite <-Hc in Hr. fold (page_addr t i0) in Hr.
    assert (∃ t1, same_memory t t1 ∧ treepass_try_page_discard th
      (u64 (page_addr t i0 + treepass_multiply_by_page_size (tp_cfg t) k)) t1 = Ret (u, t'))
      as (t1 & Hs & Hr1).
    { unfold mwhen in Hr. destruct (tp_use_stats (tp_cfg t)); inv_run; [|by exists t].
      match goal with Hl : treepass_lookup _ _ = _ |- _ => apply lookup_run in Hl as [-> _] end.
      case_match; inv_run; [|by exists t]. eexists. split; [by eapply stat_add_same|done]. }
    pose proof (discarded_same _ _ _ _ Hs Hd) as Hd1.
    assert (tp_cfg t1 = tp_cfg t) as Hc1 by apply Hs.
    rewrite <-Hc1, <-(page_addr_cfg t t1) in Hr1 by done.
    pose proof Hd as (w & v' & HIw & Hwc & _).
    assert (discarded i0 (k + 1) t') as Hd'.
    { eapply discard_body; [done|lia|done| |exact Hr1].
      rewrite (page_addr_cfg s t1) by congruence. unfold page_addr in *.
      pose proof (cfg_log _ (inv_cfg _ (proj1 HI))).
      assert (0 < 2 ^ tp_log_page_size (tp_cfg s)) by (apply Z.pow_pos_nonneg; lia).
      rewrite !Z.shiftl_mul_pow2 in * by lia. nia. }
    split; [done|]. destruct Hd' as (w' & v'' & HIw' & Hwc' & _).
    rewrite (inv_fixed _ (proj1 HIw')), Hwc', <-(inv_fixed _ (proj1 HI)). done. }
  by rewrite Z.add_0_l, Z2Nat.id in HP.
Qed.
End extent.

(** * Sync and prefetch keep the memory

    Both walk the pages of an extent and gather consecutive pages into one
    request; the request under construction is part of the window. *)
Definition add_page (addr n : Z) (req : option (Z * list Z)) : option (Z * list Z) :=
  Some (match req with None => (addr, [n]) | Some (a, pages) => (a, pages ++ [n]) end).

Section gather.
Context (w : bool) (c : option Z) (open : window) (v : Z → page_data).

Definition with_request (req : option (Z * list Z)) : window :=
  match req with
  | None => open
  | Some (a, pages) => push (mk_io_request w a pages 0 c) open
  end.

(** The request under construction ends just before page [i]. *)
Definition gathering (i : Z) (req : option (Z * list Z)) (s : treepass) : Prop :=
  Inv (with_request req) v s ∧
  match req with
  | None => True
  | Some (a, pages) => a + page_addr s (Z.of_nat (length pages)) = page_addr s i
  end.

Lemma with_request_cfg req : w_cfg (with_request req) = w_cfg open.
Proof. by destruct req as [[? ?]|]. Qed.
Lemma with_request_absent req : w_absent (with_request req) = w_absent open.
Proof. by destruct req as [[? ?]|]. Qed.

Lemma page_addr_S s i : cfg_ok (tp_cfg s) → page_addr s (i + 1) = page_addr s i + page_addr s 1.
Proof.
  intros Hc. unfold page_addr. pose proof (cfg_log _ Hc). rewrite !Z.shiftl_mul_pow2 by lia. lia.
Qed.

Lemma gathering_add i req s n e :
  gathering i req s → lookupZ (tp_lookup s) i = Some n → lookupZ (tp_entry s) n = Some e →
  (if w then is_writeback e && negb (is_loading e) else is_loading e) = true →
  n ∉ pending_pages (with_request req) s →
  gathering (i + 1) (add_page (page_addr s i) n req) s.
Proof.
  intros [HI Hreq] Hi He Hf Hp. pose proof (inv_cfg _ (proj1 HI)) as Hcfg.
  destruct req as [[a pages]|]; unfold gathering; simpl in *.
  - split.
    + apply Inv_extend; [done|done|]. exists i, e. by split_and!.
    + rewrite length_app. simpl. rewrite Nat2Z.inj_add, page_addr_S, page_addr_S by done. lia.
  - split.
    + apply Inv_open; [done|]. split_and!; simpl.
      * apply NoDup_singleton.
      * by intros m ->%list_elem_of_singleton.
      * intros [|k] m Hm; simplify_eq/=. exists i, e. simpl. split_and!; try done.
        unfold page_addr. rewrite Z.shiftl_0_l. lia.
    + change (Z.of_nat 1) with 1. by rewrite page_addr_S.
Qed.
End gather.

Section sync.
Context `{platform} (th : thread) (open : window) (v : Z → page_data).
Abbreviation pres := (preserves (Inv open v)).

Lemma sync_run_spec c i req s u s' :
  gathering true (Some c) open v i req s → sync_run c req s = Ret (u, s') → Inv open v s'.
Proof.
  intros [HI _] Hr. unfold sync_run, submit in Hr. destruct req as [[a pages]|]; inv_run; [|done].
  apply Inv_submit. by eapply Inv_ext; [|exact HI].
Qed.

(** The address of page [i] of the extent that starts at page [i0]. *)
Lemma extent_page_addr w s i0 i :
  cache_inv w s → 0 ≤ i0 + i → page_addr s (i0 + i) < 2 ^ 63 →
  u64 (page_addr s i0 + treepass_multiply_by_page_size (tp_cfg s) i) = page_addr s (i0 + i).
Proof.
  intros HI Hi Hb. unfold treepass_multiply_by_page_size. rewrite u64_add_r.
  change (Z.shiftl i _) with (page_addr s i). pose proof (cfg_log _ (inv_cfg _ HI)).
  assert (0 < 2 ^ tp_log_page_size (tp_cfg s)) by (apply Z.pow_pos_nonneg; lia).
  unfold page_addr in *. rewrite !Z.shiftl_mul_pow2 in * by lia. rewrite u64_small; nia.
Qed.

Lemma extent_bound w s i0 i k :
  cache_inv w s → page_addr s (i0 + k) ≤ 2 ^ 63 → i < k → page_addr s (i0 + i) < 2 ^ 63.
Proof.
  intros HI Hb Hi. pose proof (cfg_log _ (inv_cfg _ HI)).
  assert (0 < 2 ^ tp_log_page_size (tp_cfg s)) by (apply Z.pow_pos_nonneg; lia).
  unfold page_addr in *. rewrite !Z.shiftl_mul_pow2 in * by lia. nia.
Qed.

Lemma extent_sync_from_spec k i i0 c req s u s' :
  gathering true (Some c) open v (i0 + i) req s → 0 ≤ i0 → 0 ≤ i →
  page_addr s (i0 + (i + Z.of_nat k)) ≤ 2 ^ 63 →
  extent_sync_from k i (page_addr s i0) c req s = Ret (u, s') → Inv open v s'.
Proof.
  revert i req s. induction k as [|k IH]; intros i req s Hg Hi0 Hi Hb Hr;
    cbn [extent_sync_from] in Hr; [by eapply sync_run_spec|].
  pose proof Hg as [HI _]. set (w := with_request true (Some c) open req) in *.
  apply bind_Ret in Hr as (? & ? & [-> ->]%get_Ret & Hr).
  rewrite (extent_page_addr w) in Hr by (done || lia || (by eapply extent_bound; [apply HI|exact Hb|lia]) || apply HI).
  apply bind_Ret in Hr as (n & s1 & [-> Hn]%lookup_run & Hr).
  rewrite (divide_page_addr _ _ _ (proj1 HI)) in Hn.
  apply bind_Ret in Hr as (ok & s1 & Hok & Hr).
  assert (page_addr s (i0 + (i + 1 + Z.of_nat k)) ≤ 2 ^ 63) as Hb'.
  { by replace (i0 + (i + 1 + Z.of_nat k)) with (i0 + (i + Z.of_nat (S k))) by lia. }
  assert (ok = false → s1 = s) as Hskip.
  { intros ->. destruct (n =? TP_UNMAPPED_ENTRY); [by inv_run|].
    apply try_set_writeback_run in Hok as [(_ & -> & _)|(? & _)]; done. }
  destruct ok.
  - destruct (n =? TP_UNMAPPED_ENTRY); [by inv_run|].
    apply try_set_writeback_run in Hok as [(? & _)|(_ & e & He & Hc & ->)]; [done|].
    destruct (take_page w v _ _ _ _ _ HI Hn He Hc) as [(m & em & Hm & Hem & [Hw Hl]%taken_flags & Hp) _].
    assert (m = n) as -> by (simpl in Hm; congruence).
    refine (IH (i + 1) (add_page (page_addr s (i0 + i)) n req)
      (set_entry n (with_status (status_set_flag (e_status e) TP_WRITEBACK) e) s) _ Hi0 _ Hb' Hr); [|lia].
    replace (i0 + (i + 1)) with (i0 + i + 1) by lia.
    change (page_addr s (i0 + i)) with (page_addr (set_entry n (with_status (status_set_flag (e_status e) TP_WRITEBACK) e) s) (i0 + i)).
    eapply gathering_add; [|exact Hm|exact Hem|unfold is_writeback, is_loading; by rewrite Hw, Hl|done].
    destruct Hg as [_ Hreq]. split; [|exact Hreq].
    eapply Inv_benign; [exact HI|exact He|apply writeback_benign].
  - rewrite Hskip in * by done. apply bind_Ret in Hr as (u1 & s2 & Hs & Hr).
    pose proof (sync_run_spec _ _ _ _ _ _ Hg Hs) as HI2.
    assert (∀ j, page_addr s j = page_addr s2 j) as Hpa.
    { intros j. apply page_addr_cfg. rewrite (inv_fixed _ (proj1 HI2)), (inv_fixed _ (proj1 HI)).
      apply with_request_cfg. }
    rewrite !Hpa in *. eapply (IH (i + 1)); [|done|lia|exact Hb'|exact Hr]. by split.
Qed.

(** Syncing an extent leaves the memory as it was. *)
Lemma extent_sync_pres i0 c s u s' :
  Inv open v s → 0 ≤ i0 → 0 ≤ tp_pages_per_extent (tp_cfg s) →
  page_addr s (i0 + tp_pages_per_extent (tp_cfg s)) ≤ 2 ^ 63 →
  treepass_extent_sync (page_addr s i0) c s = Ret (u, s') → Inv open v s'.
Proof.
  intros HI Hi0 Hp Hb Hr. unfold treepass_extent_sync in Hr.
  apply bind_Ret in Hr as (? & ? & [-> ->]%get_Ret & Hr).
  eapply (extent_sync_from_spec _ 0 i0 c None); [by split|done|done| |exact Hr].
  by rewrite Z.add_0_l, Z2Nat.id.
Qed.
End sync.

(** ** Prefetch *)
Section prefetch.
Context `{platform} (th : thread) (open : window) (v : Z → page_data).
Abbreviation gathering := (gathering false None open v).
Abbreviation with_request := (with_request false None open).

Lemma prefetch_run_spec type i req s u s' :
  gathering i req s → prefetch_run th type req s = Ret (u, s') → Inv open v s'.
Proof.
  intros [HI _] Hr. unfold prefetch_run, submit in Hr.
  destruct req as [[a pages]|]; inv_run; [|done].
  repeat match goal with Hs : stat_add _ _ _ _ _ = _ |- _ => apply stat_add_same in Hs end.
  apply Inv_submit. eapply Inv_ext; [|exact HI]. by eapply same_memory_trans.
Qed.

Lemma gathering_ext i req s s' :
  gathering i req s → tp_cfg s' = tp_cfg s → Inv (with_request req) v s' → gathering i req s'.
Proof.
  intros [_ Hreq] Hc HI. split; [done|]. destruct req as [[a pages]|]; [|done].
  unfold page_addr in *. by rewrite Hc.
Qed.

(** A reserved entry mapped as a loading page joins the request. *)
Lemma gathering_load i req s n e s1 b e0 :
  gathering i req s → i ∉ w_absent open →
  Inv (with_request req) v b → lookupZ (tp_lookup b) i = Some TP_UNMAPPED_ENTRY →
  lookupZ (tp_entry b) n = Some e0 → is_free e0 = true → at_entry (set_page i n b) n e s1 →
  e_status e = TP_READ_LOADING_STATUS → e_disk_addr e = page_addr b i →
  gathering (i + 1) (add_page (page_addr b i) n req) s1.
Proof.
  intros Hg Hab HIb Hbi He0 Hf0 Hat Hst Ha.
  assert (page_addr s1 i = page_addr b i) as Hpa
    by (apply page_addr_cfg; destruct Hat as [_ (-> & _)]; done).
  destruct (map_reserved (with_request req) v i n e s1 b) as (HI' & Hl' & He');
    [by apply Inv_absent|by rewrite with_request_absent|by eauto|done|congruence|
     by rewrite Hst|unfold is_free; by rewrite Hst|left; unfold is_loading; by rewrite Hst|].
  assert (is_loading e = true) as Hld by (unfold is_loading; by rewrite Hst). rewrite Hld in HI'.
  rewrite <-Hpa. eapply gathering_add; [|exact Hl'|exact He'|done|].
  - eapply gathering_ext; [exact Hg| |done].
    rewrite (inv_fixed _ (proj1 HI')), (inv_fixed _ (proj1 (proj1 Hg))). done.
  - intros Hp. apply (unmapped_not_pending b n (proj1 HIb)).
    + by eapply free_unmapped; [apply HIb| |].
    + revert Hp. unfold pending_pages, requests. by destruct Hat as [_ (_ & _ & _ & _ & ->)].
Qed.

Lemma prefetch_map_spec i req s b e0 f e s1 r s' :
  gathering i req s → i ∉ w_absent open →
  Inv (with_request req) v b → lookupZ (tp_entry b) f = Some e0 → is_free e0 = true →
  at_entry b f e s1 → e_status e = TP_READ_LOADING_STATUS → e_disk_addr e = page_addr b i →
  prefetch_map (page_addr b i) f req s1 = Ret (r, s') →
  match r with
  | None => Inv (with_request req) v s'
  | Some req' => gathering (i + 1) req' s'
  end.
Proof.
  intros Hg Hab HIb He0 Hf0 Hat Hst Ha Hr. unfold prefetch_map in Hr.
  apply bind_Ret in Hr as (m & ? & [-> Hm]%lookup_run & Hr).
  assert (lookupZ (tp_lookup b) i = Some m) as Hbm.
  { destruct Hat as [_ (Hc & Hl & _)]. rewrite Hc, Hl in Hm. simpl in Hm.
    by rewrite (divide_page_addr _ _ _ (proj1 HIb)) in Hm. }
  destruct (m =? TP_UNMAPPED_ENTRY) eqn:E.
  - apply Z.eqb_eq in E as ->. walk. rewrite (divide_page_addr _ _ _ (proj1 HIb)) in *.
    by eapply (gathering_load i req s).
  - walk. eapply free_reserved; [exists b, e0; by split_and!|done|done].
Qed.

Lemma prefetch_page_spec i type req s r s' :
  gathering i req s → i ∉ w_absent open →
  prefetch_page th (page_addr s i) type req s = Ret (r, s') →
  match r with
  | None => gathering i req s'
  | Some req' => gathering (i + 1) req' s'
  end.
Proof.
  intros Hg Hab Hr. pose proof Hg as [HI _]. unfold prefetch_page in Hr.
  apply bind_Ret in Hr as (n & s1 & [-> _]%lookup_run & Hr).
  apply bind_Ret in Hr as (rc & s1 & Hrc & Hr).
  assert (Inv (with_request req) v s1) as HI1.
  { destruct (n =? TP_UNMAPPED_ENTRY); [by inv_run|]. by eapply try_get_read_pres. }
  assert (∀ t, Inv (with_request req) v t → gathering i req t) as Hgt.
  { intros t Ht. eapply gathering_ext; [exact Hg| |done].
    by rewrite (inv_fixed _ (proj1 Ht)), (inv_fixed _ (proj1 HI)). }
  destruct rc.
  - apply bind_Ret in Hr as (? & s2 & Hd & Hr). apply (dec_ref_pres (with_request req) v) in Hd; [|done].
    apply bind_Ret in Hr as (? & s3 & Hp & Hr). inv_run. split; [|done].
    eapply prefetch_run_spec; [|exact Hp]; by apply Hgt.
  - apply bind_Ret in Hr as (? & s3 & Hp & Hr). inv_run. split; [|done].
    eapply prefetch_run_spec; [|exact Hp]; by apply Hgt.
  - apply bind_Ret in Hr as (f & s2 & Hfp & Hr).
    apply (get_free_page_spec _ _ _ _ _ _ _ _ _ _ HI1) in Hfp as [(? & _)|(e & Hres & Hst & Hty & Hun)];
      [done|].
    destruct Hres as (b & e0 & HIb & He0 & Hf0 & Hat).
    rewrite (page_addr_inv (with_request req) v s b) in * by done.
    unfold mwhen in Hr.
    assert (match r with None => Inv (with_request req) v s' | Some req' => gathering (i + 1) req' s' end)
      as Hm by (destruct (bool_decide _); walk; by eapply (prefetch_map_spec i req s b)).
    destruct r; [exact Hm|by apply Hgt].
  - by inv_run.
Qed.

(** Prefetching an extent leaves the memory as it was. *)
Lemma prefetch_from_pres fuel i i0 type req s u s' :
  gathering (i0 + i) req s → 0 ≤ i0 → 0 ≤ i →
  page_addr s (i0 + tp_pages_per_extent (tp_cfg s)) ≤ 2 ^ 63 →
  (∀ k, 0 ≤ k < tp_pages_per_extent (tp_cfg s) → i0 + k ∉ w_absent open) →
  prefetch_from th fuel i (page_addr s i0) type req s = Ret (u, s') → Inv open v s'.
Proof.
  revert i req s. induction fuel as [|fuel IH]; intros i req s Hg Hi0 Hi Hb Hab Hr;
    cbn [prefetch_from] in Hr; apply bind_Ret in Hr as (? & ? & [-> ->]%get_Ret & Hr);
    (destruct (tp_pages_per_extent (tp_cfg s) <=? i) eqn:E; [by eapply prefetch_run_spec|]);
    [by inv_run|].
  pose proof Hg as [HI _]. apply Z.leb_gt in E.
  rewrite (extent_page_addr (with_request req)) in Hr;
    [|apply HI|lia|by eapply extent_bound; [apply HI|exact Hb|]].
  apply bind_Ret in Hr as (r & s1 & Hp & Hr).
  apply prefetch_page_spec in Hp; [|done|by apply Hab].
  assert (tp_cfg s1 = tp_cfg s) as Hc.
  { destruct r as [req'|]; destruct Hp as [HI1 _];
      by rewrite (inv_fixed _ (proj1 HI1)), (inv_fixed _ (proj1 HI)), !with_request_cfg. }
  assert (∀ j, page_addr s j = page_addr s1 j) as Hpa by (intros j; by apply page_addr_cfg).
  rewrite <-Hc, !Hpa in *. destruct r as [req'|]; (eapply IH; [..|exact Hr]); try done; [|lia].
  by replace (i0 + (i + 1)) with (i0 + i + 1) by lia.
Qed.
End prefetch.

Section page_sync.
Context `{platform} (th : thread) (open : window) (v : Z → page_data).

(** Syncing one page, in the foreground or as a request. *)
Lemma page_sync_pres n b t s u s' :
  Inv open v s → treepass_page_sync th n b t s = Ret (u, s') → Inv open v s'.
Proof.
  intros HI Hr. unfold treepass_page_sync in Hr.
  apply bind_Ret in Hr as (e & s1 & [-> He]%get_entry_run & Hr).
  apply bind_Ret in Hr as (ok & s1 & Hok & Hr).
  apply try_set_writeback_run in Hok as [(-> & -> & _)|(-> & e' & He' & Hc & ->)]; simpl in Hr.
  { apply bind_Ret in Hr as (? & ? & [-> _]%test_flag_run & Hr). by inv_run. }
  assert (e' = e) as -> by congruence.
  pose proof (inv_status _ (proj1 HI) _ _ He) as Hwf.
  destruct (homed_page _ _ _ _ (proj1 HI) He) as (j & Hj & Ha & _);
    [exact (proj1 (cleanable_flags _ _ Hwf Hc))|].
  destruct (take_page _ _ _ _ _ _ _ HI Hj He Hc) as [(m & em & Hm & Hem & Htk & Hp) _].
  assert (m = n) as -> by (simpl in Hm; congruence).
  eapply Inv_benign in HI; [|exact He|apply writeback_benign].
  revert HI Hm Hem Hp Hr. set (s1 := set_entry n _ s). intros HI Hm Hem Hp Hr.
  rewrite Ha in Hr. change (page_addr s j) with (page_addr s1 j) in Hr.
  apply bind_Ret in Hr as (? & s2 & Hs2%stat_add_same & Hr).
  apply bind_Ret in Hr as (? & s3 & Hs3%stat_add_same & Hr).
  pose proof (same_memory_trans _ _ _ Hs2 Hs3) as Hs.
  assert (page_taken open TP_CLOCK_MAX s3 j) as (n' & e3 & Hj3 & He3 & [Hw3 Hl3]%taken_flags & Hp3).
  { eapply page_taken_ext; [exact Hs|]. by exists n, em. }
  assert (n' = n) as -> by (destruct Hs as (_ & Hlk & _); congruence).
  apply (Inv_ext _ _ _ Hs) in HI.
  rewrite <-(page_addr_cfg s1 s3) in Hr by apply Hs.
  destruct b; simpl in Hr; [|unfold submit in Hr; inv_run].
  - apply bind_Ret in Hr as (e4 & ? & [-> He4]%get_entry_run & Hr).
    apply bind_Ret in Hr as (? & s4 & [-> _]%mod_Ret & Hr).
    assert (e4 = e3) as -> by congruence.
    pose proof (Inv_write_disk _ _ _ _ _ HI Hj3 He3 Hl3) as HI4.
    change (set_device _ id id s3) with (write_disk (page_addr s3 j) (e_data e3) s3) in Hr.
    pose proof (inv_status _ (proj1 HI4) _ _ He3) as Hwf3.
    destruct (inv_mapped _ (proj1 HI) j n Hj3 (entry_index_bound _ _ _ (proj1 HI) He3))
      as (e5 & He5 & _ & Hf5). assert (e5 = e3) as -> by congruence.
    destruct (set_clean_nofree _ Hwf3 Hf5) as [Hwf' Hf'].
    destruct (clear_flag_nofree TP_WRITEBACK _ (or_introl eq_refl) Hwf' Hf') as [Hwf'' Hf''].
    pose proof (at_entry_start (write_disk (page_addr s3 j) (e_data e3) s3) n e3 He3) as Hat. walk.
    match goal with Ha : at_entry _ _ _ _ |- _ => destruct Ha as [_ Hsm] end.
    eapply Inv_ext; [exact Hsm|]. eapply (Inv_settle _ _ j n e3); [exact HI4|done|done| |exact Hp3|done|done].
    by rewrite disk_read_write_disk, decide_True.
  - apply Inv_submit, Inv_open; [done|].
    split_and!; simpl; [apply NoDup_singleton|by intros ? ->%list_elem_of_singleton|].
    intros [|k] m Hk; simplify_eq/=. exists j, e3. unfold is_writeback, is_loading. simpl. rewrite Hw3, Hl3. split_and!; try done.
    unfold page_addr. rewrite Z.shiftl_0_l. lia.
Qed.
End page_sync.
