(* ===== verification/TreePassSpec.v ===== *)
(** * What the cache promises: a flat memory of pages

    The abstract specification of the cache is a memory from page numbers to
    page contents.  [run_op] is the cache's client interface (the operations of
    cache.h as treepass.c implements them), [spec_step] what each operation may
    do to the memory, and the refinement theorem says that the cache, with its
    replacement, write-back, prefetch and asynchronous device, does just that. *)
From S2P Require Import Prelude Allocator TreePassStatus TreePassState TreePass TreePassInv TreePassWriteback.
From S2P Require Import TreePassGet TreePassSync.

(** The client's operations; pages are named by their page number, cached pages
    by the entry a get or an alloc returned. *)
Inductive op : Type :=
| OpGet (i : Z) (blocking : bool) (type : page_type) (is_warm : bool)
| OpUnget (n : Z)
| OpTryClaim (n : Z)
| OpUnclaim (n : Z)
| OpLock (n : Z)
| OpUnlock (n : Z)
| OpMarkDirty (n : Z)
| OpPin (n : Z)
| OpUnpin (n : Z)
| OpWrite (i n : Z) (d : page_data)
| OpAlloc (i : Z) (type : page_type)
| OpAllocCompactionHot (i : Z) (type : page_type)
| OpPageDiscard (i : Z)
| OpExtentDiscard (i : Z) (type : page_type)
| OpPageSync (n : Z) (is_blocking : bool) (type : page_type)
| OpExtentSync (i c : Z)
| OpPrefetch (i : Z) (type : page_type)
| OpFlush
| OpEvictAll (ignore_pinned : bool)
| OpWait
| OpInheritClock (i j divisor : Z)
| OpSetPageClock (n clock : Z).

(** What an operation returns: nothing, or the contents a get made readable. *)
Inductive result : Type := RNone | RData (d : page_data).

Section ops.
Context `{platform} (th : thread).

Definition addr_of (i : Z) : C Z := cc ← mget; mret (page_addr cc i).

Definition run_op (o : op) : C result :=
  match o with
  | OpGet i blocking type is_warm =>
      a ← addr_of i;
      h ← treepass_get th a blocking type is_warm;
      match h with
      | Page n => e ← treepass_get_entry n; mret (RData (e_data e))
      | _ => mret RNone
      end
  | OpUnget n => treepass_unget th n;; mret RNone
  | OpTryClaim n => _ ← treepass_try_claim n; mret RNone
  | OpUnclaim n => treepass_unclaim n;; mret RNone
  | OpLock n => treepass_lock th n;; mret RNone
  | OpUnlock n => treepass_unlock n;; mret RNone
  | OpMarkDirty n => treepass_mark_dirty n;; mret RNone
  | OpPin n => treepass_pin n;; mret RNone
  | OpUnpin n => treepass_unpin n;; mret RNone
  | OpWrite _ n d => mod_entry n (with_data d);; mret RNone
  | OpAlloc i type => a ← addr_of i; _ ← treepass_alloc th a type; mret RNone
  | OpAllocCompactionHot i type =>
      a ← addr_of i; _ ← treepass_alloc_compaction_hot th a type; mret RNone
  | OpPageDiscard i => a ← addr_of i; treepass_try_page_discard th a;; mret RNone
  | OpExtentDiscard i type => a ← addr_of i; treepass_extent_discard th a type;; mret RNone
  | OpPageSync n b type => treepass_page_sync th n b type;; mret RNone
  | OpExtentSync i c => a ← addr_of i; treepass_extent_sync a c;; mret RNone
  | OpPrefetch i type => a ← addr_of i; treepass_prefetch th a type;; mret RNone
  | OpFlush => treepass_flush th;; mret RNone
  | OpEvictAll b => _ ← treepass_evict_all th b; mret RNone
  | OpWait => treepass_wait;; mret RNone
  | OpInheritClock i j d =>
      a ← addr_of i; b ← addr_of j; treepass_inherit_clock a b d;; mret RNone
  | OpSetPageClock n c => treepass_set_page_clock n c;; mret RNone
  end.

(** The extent that starts at page [i] lies in the device. *)
Definition extent_ok (s : treepass) (i : Z) : Prop :=
  0 ≤ i ∧ 0 ≤ tp_pages_per_extent (tp_cfg s) ∧
  i + tp_pages_per_extent (tp_cfg s) ≤ lengthZ (tp_lookup s).

(** What the client must respect: a page is written only while it is mapped,
    loaded and dirty; only an uncached page is allocated. *)
Definition op_ok (o : op) (s : treepass) : Prop :=
  match o with
  | OpWrite i n _ => ∃ e, lookupZ (tp_lookup s) i = Some n ∧ lookupZ (tp_entry s) n = Some e ∧
      is_loading e = false ∧ is_clean e = false
  | OpAlloc i _ | OpAllocCompactionHot i _ => lookupZ (tp_lookup s) i = Some TP_UNMAPPED_ENTRY
  | OpExtentDiscard i _ | OpExtentSync i _ | OpPrefetch i _ => extent_ok s i
  | OpSetPageClock _ c => 0 ≤ c
  | _ => True
  end.

(** The effect on the memory; [k] is the number of pages of an extent. *)
Definition spec_step (k : Z) (o : op) (r : result) (v v' : Z → page_data) : Prop :=
  match o with
  | OpGet i _ _ _ => (∀ d, r = RData d → d = v i) ∧ ∀ j, v' j = v j
  | OpWrite i _ d => v' i = d ∧ ∀ j, j ≠ i → v' j = v j
  | OpAlloc i _ | OpAllocCompactionHot i _ | OpPageDiscard i => ∀ j, j ≠ i → v' j = v j
  | OpExtentDiscard i _ => ∀ j, ¬ (i ≤ j < i + k) → v' j = v j
  | _ => ∀ j, v' j = v j
  end.

Lemma Inv_store open v s i n e d :
  Inv open v s → lookupZ (tp_lookup s) i = Some n → lookupZ (tp_entry s) n = Some e →
  is_loading e = false → is_clean e = false →
  Inv open (upd v i d) (set_entry n (with_data d e) s).
Proof.
  intros [HI Hv] Hi Hn Hl Hc. pose proof (entry_index_bound _ _ _ HI Hn) as Hne.
  pose proof (λ m, lookup_set_entry n (with_data d e) s m e Hn) as Hlk.
  assert (∀ j, lookupZ (tp_lookup s) j = Some n → j = i) as Huq by (intros; by eapply mapped_unique).
  split; [constructor|]; try apply HI.
  - simpl. rewrite lengthZ_insertZ. apply HI.
  - intros m e1. rewrite Hlk. case_decide; [|by apply HI]. intros [= <-].
    exact (inv_status _ HI _ _ Hn).
  - intros j m Hj Hm. destruct (inv_mapped _ HI j m Hj Hm) as (e1 & He1 & Ha & Hf).
    rewrite Hlk. case_decide; [|by exists e1]. simplify_eq. by exists (with_data d e).
  - intros m e1. rewrite Hlk. case_decide; [|by apply HI]. intros [= <-] Hf. subst m.
    exact (inv_homed _ HI n e Hn Hf).
  - intros m e1. rewrite Hlk. case_decide; [|by apply HI]. intros [= <-] Hf. subst m.
    exact (inv_free _ HI n e Hn Hf).
  - intros j m e1 Hj. rewrite Hlk. case_decide; [|by eapply HI].
    intros [= <-] Hc'. unfold is_clean in *. simpl in Hc'. congruence.
  - intros r k m Hr Hk. destruct (inv_pending _ HI r k m Hr Hk) as (j & e1 & Ha & Hj & He1 & Hfl).
    exists j. unfold page_addr in *. rewrite Hlk. case_decide; [|by exists e1]. simplify_eq.
    by exists (with_data d e).
  - intros j. unfold upd, view. simpl tp_lookup. destruct (decide (j = i)) as [->|Hji].
    + rewrite Hi, Hlk, decide_True by done. unfold is_loading in *. simpl. by rewrite Hl.
    + rewrite <-Hv. unfold view. destruct (lookupZ (tp_lookup s) j) as [m|] eqn:Hj; [|done].
      rewrite Hlk. case_decide; [|done]. subst m. by destruct Hji; apply Huq.
Qed.
End ops.

(** ** Refinement *)
Section refine.
Context `{platform} (th : thread) (cfg : treepass_config).
Abbreviation Inv := (Inv (idle cfg)).

Lemma extent_in_device v s i :
  Inv v s → extent_ok s i → page_addr s (i + tp_pages_per_extent (tp_cfg s)) ≤ 2 ^ 63.
Proof.
  intros [HI _] (Hi & Hp & Hle). pose proof (inv_lookup_len _ HI) as Hlen.
  pose proof (cfg_log _ (inv_cfg _ HI)). unfold page_addr in *.
  assert (0 < 2 ^ tp_log_page_size (tp_cfg s)) by (apply Z.pow_pos_nonneg; lia).
  rewrite !Z.shiftl_mul_pow2 in * by lia. nia.
Qed.

Lemma addr_of_run i s a s' : addr_of i s = Ret (a, s') → s' = s ∧ a = page_addr s i.
Proof. unfold addr_of. intros Hr. inv_run. done. Qed.

(** The operations that only take pages in and out of the cache or lock them. *)
Lemma quiet_op (m : C unit) (r : result) v s s' :
  preserves (Inv v) m → Inv v s → (m;; mret RNone) s = Ret (r, s') → Inv v s'.
Proof. intros Hm HI Hr. inv_run. by eapply Hm. Qed.

Lemma unget_pres v n : preserves (Inv v) (treepass_unget th n).
Proof. unfold treepass_unget. pres. Qed.

Lemma op_get_refines i b t w v s r s' :
  Inv v s → run_op th (OpGet i b t w) s = Ret (r, s') →
  Inv v s' ∧ ∀ d, r = RData d → d = v i.
Proof.
  intros HI Hr. simpl in Hr. apply bind_Ret in Hr as (a & ? & [-> ->]%addr_of_run & Hr).
  apply bind_Ret in Hr as (h & s1 & Hg & Hr).
  destruct (get_loop_spec _ (idle cfg) v _ _ _ _ _ _ _ _ HI (not_elem_of_nil _) Hg) as [HI1 Hh].
  destruct Hh as [[-> _]|[[-> _]|(n & -> & e & Hl & He & Hld & Hd)]]; [by inv_run..|].
  apply bind_Ret in Hr as (e' & s2 & [-> He']%get_entry_run & Hr). inv_run. split; [done|].
  intros d [= <-]. congruence.
Qed.

Lemma op_quiet_refines o v s r s' :
  match o with
  | OpUnget _ | OpTryClaim _ | OpUnclaim _ | OpLock _ | OpUnlock _ | OpMarkDirty _ | OpPin _
  | OpUnpin _ | OpPageSync _ _ _ | OpFlush | OpEvictAll _ | OpWait | OpInheritClock _ _ _ => True
  | OpSetPageClock _ c => 0 ≤ c
  | _ => False
  end → Inv v s → run_op th o s = Ret (r, s') → Inv v s'.
Proof.
  intros Ho HI Hr. destruct o; try done;
    try (eapply quiet_op; [|exact HI|exact Hr]; solve
      [ unfold treepass_unclaim, treepass_lock, treepass_unlock, treepass_mark_dirty,
          treepass_pin, treepass_unpin, treepass_set_page_clock;
        first [apply unget_pres | pres] ]); simpl in Hr.
  - unfold treepass_try_claim in Hr. inv_run. by eapply try_get_claim_pres.
  - inv_run. by eapply page_sync_pres.
  - inv_run. by eapply evict_all_pres.
Qed.

(** Allocation and discard of one page, and writing a page. *)
Lemma op_page_refines o i v s r s' :
  match o with
  | OpWrite j _ _ | OpAlloc j _ | OpAllocCompactionHot j _ | OpPageDiscard j => j = i
  | _ => False
  end → Inv v s → op_ok o s → run_op th o s = Ret (r, s') →
  ∃ d, Inv (upd v i d) s' ∧ match o with OpWrite _ _ d' => d = d' | _ => True end.
Proof.
  intros Ho HI Hok Hr. destruct o; try done; simpl in Ho; subst; simpl in Hok, Hr;
    [|apply bind_Ret in Hr as (a & ? & [-> ->]%addr_of_run & Hr)..].
  - destruct Hok as (e & Hi & He & Hl & Hc). unfold mod_entry in Hr. inv_run.
    match goal with Hg : treepass_get_entry _ _ = _ |- _ => apply get_entry_run in Hg as [-> He'] end.
    simplify_eq. eexists. split; [by eapply Inv_store|done].
  - inv_run. match goal with Ha : treepass_alloc _ _ _ _ = _ |- _ =>
      eapply alloc_spec in Ha as (e & HI' & _); [|done|apply not_elem_of_nil|done|done] end. eauto.
  - inv_run. match goal with Ha : treepass_alloc_compaction_hot _ _ _ _ = _ |- _ =>
      eapply alloc_compaction_hot_spec in Ha as (e & HI' & _); [|done|apply not_elem_of_nil|done|done] end.
    eauto.
  - inv_run. match goal with Ha : treepass_try_page_discard _ _ _ = Ret (?u, _) |- _ =>
      destruct u; eapply try_page_discard_spec in Ha as [HI' _]; [|done] end. eauto.
Qed.

Lemma op_extent_discard_refines i t v s r s' :
  Inv v s → extent_ok s i → run_op th (OpExtentDiscard i t) s = Ret (r, s') →
  ∃ v', Inv v' s' ∧ ∀ j, ¬ (i ≤ j < i + tp_pages_per_extent cfg) → v' j = v j.
Proof.
  intros HI Hok Hr. simpl in Hr. apply bind_Ret in Hr as (a & ? & [-> ->]%addr_of_run & Hr). inv_run.
  match goal with Ha : treepass_extent_discard _ _ _ _ = Ret (?u, _) |- _ =>
    destruct u; eapply extent_discard_spec in Ha as (w & v' & HI' & Hc & Ho & _ & _ & Hv');
      [|done|apply Hok|by eapply extent_in_device|apply Hok] end.
  rewrite (inv_fixed _ (proj1 HI)) in Hv'. exists v'. split; [|done].
  eapply (Inv_requests w); [done|done| | |by intros ? ?%elem_of_nil].
  - unfold pending_pages, requests. rewrite <-Ho. apply HI'.
  - unfold requests. rewrite <-Ho. apply (inv_pending _ (proj1 HI')).
Qed.

(** Sync and prefetch of an extent. *)
Lemma op_extent_refines o i v s r s' :
  match o with OpExtentSync j _ | OpPrefetch j _ => j = i | _ => False end →
  Inv v s → extent_ok s i → run_op th o s = Ret (r, s') → Inv v s'.
Proof.
  intros Ho HI Hok Hr. destruct o; try done; simpl in Ho; subst; simpl in Hr;
    apply bind_Ret in Hr as (a & ? & [-> ->]%addr_of_run & Hr); inv_run.
  - eapply (extent_sync_pres _ _ i); [done|apply Hok|apply Hok|exact (extent_in_device _ _ _ HI Hok)|done].
  - unfold treepass_prefetch in *.
    match goal with Hp : prefetch_from _ _ _ _ _ _ _ = _ |- _ =>
      eapply (prefetch_from_pres _ (idle cfg) v _ 0 i) in Hp; [done| |apply Hok|done| |] end.
    + by rewrite Z.add_0_r.
    + by eapply extent_in_device.
    + intros k _. apply not_elem_of_nil.
Qed.

Lemma op_refines o v s r s' :
  Inv v s → op_ok o s → run_op th o s = Ret (r, s') →
  ∃ v', Inv v' s' ∧ spec_step (tp_pages_per_extent cfg) o r v v'.
Proof.
  intros HI Hok Hr.
  assert (∀ i d j, j ≠ i → upd v i d j = v j) as Hupd
    by (intros; unfold upd; by rewrite decide_False).
  destruct o; simpl spec_step;
    try (exists v; split; [|done]; eapply op_quiet_refines; [|exact HI|exact Hr]; done);
    try (exists v; split; [|done]; eapply op_extent_refines; [|exact HI|exact Hok|exact Hr]; done);
    try (eapply op_page_refines in Hr as (d' & HI' & Hd); [|done..]; exists (upd v i d'); split; [done|];
      try subst d'; try (split; [unfold upd; by rewrite decide_True|]); by apply Hupd).
  - destruct (op_get_refines _ _ _ _ _ _ _ _ HI Hr). by exists v.
  - by eapply op_extent_discard_refines.
Qed.
End refine.

(** ** Executions: sequences of operations, each by some thread *)
Section exec.
Context `{platform}.

Inductive exec : treepass → list (thread * op * result) → treepass → Prop :=
| exec_nil s : exec s [] s
| exec_cons s th o r s1 tr s' :
    op_ok o s → run_op th o s = Ret (r, s1) → exec s1 tr s' → exec s ((th, o, r) :: tr) s'.

Inductive spec_exec (k : Z) : (Z → page_data) → list (thread * op * result) → (Z → page_data) → Prop :=
| spec_nil v v' : (∀ j, v' j = v j) → spec_exec k v [] v'
| spec_cons v th o r v1 tr v' :
    spec_step k o r v v1 → spec_exec k v1 tr v' → spec_exec k v ((th, o, r) :: tr) v'.

Lemma exec_refines cfg v s tr s' :
  Inv (idle cfg) v s → exec s tr s' →
  ∃ v', spec_exec (tp_pages_per_extent cfg) v tr v' ∧ Inv (idle cfg) v' s'.
Proof.
  intros HI He. revert v HI. induction He as [s|s th o r s1 tr s' Hok Hr He IH]; intros v HI.
  - exists v. split; [by constructor|done].
  - destruct (op_refines _ _ _ _ _ _ _ HI Hok Hr) as (v1 & HI1 & Hs).
    destruct (IH v1 HI1) as (v' & Hs' & HI'). exists v'. split; [by econstructor|done].
Qed.

(** The operation may change the contents of page [i]. *)
Definition touches (k : Z) (o : op) (i : Z) : bool :=
  match o with
  | OpWrite j _ _ | OpAlloc j _ | OpAllocCompactionHot j _ | OpPageDiscard j => bool_decide (j = i)
  | OpExtentDiscard j _ => bool_decide (j ≤ i < j + k)
  | _ => false
  end.

Lemma spec_step_untouched k o r v v' i :
  spec_step k o r v v' → touches k o i = false → v' i = v i.
Proof.
  intros Hs Ht. destruct o; simpl in *;
    try apply bool_decide_eq_false in Ht; apply Hs; congruence || done.
Qed.

Lemma spec_exec_app k v tr1 tr2 v' :
  spec_exec k v (tr1 ++ tr2) v' → ∃ v1, spec_exec k v tr1 v1 ∧ spec_exec k v1 tr2 v'.
Proof.
  revert v. induction tr1 as [|[[th o] r] tr1 IH]; intros v Hs; simpl in Hs.
  - exists v. split; [by constructor|done].
  - inversion Hs as [|? ? ? ? v1 ? ? Hst Hs']; subst. destruct (IH _ Hs') as (v2 & H1 & H2).
    exists v2. split; [by econstructor|done].
Qed.

Lemma spec_exec_untouched k v tr v' i :
  spec_exec k v tr v' → Forall (λ x, touches k x.1.2 i = false) tr → v' i = v i.
Proof.
  induction 1 as [v v' Hv|v th o r v1 tr v' Hst Hs IH]; intros Hf; [by apply Hv|].
  apply Forall_cons_1 in Hf as [Ht Hf]. rewrite IH by done. by eapply spec_step_untouched.
Qed.
End exec.

(** ** Initialisation *)
Lemma Inv_empty cfg al n_lookup n_entry rc pc eh fh bb cg a1 a2 a3 a4 a5 a6 pt st disk cnt ts :
  cfg_ok cfg → Z.of_nat n_entry = tp_page_capacity cfg →
  Z.shiftl (Z.of_nat n_lookup) (tp_log_page_size cfg) ≤ 2 ^ 63 →
  Inv (idle cfg) (λ i, default [] (disk !! Z.shiftl i (tp_log_page_size cfg)))
    (mk_treepass cfg al (replicate n_lookup TP_UNMAPPED_ENTRY) (replicate n_entry empty_entry)
       rc pc eh fh bb cg a1 a2 a3 a4 a5 a6 pt st disk [] cnt ts).
Proof.
  intros Hcfg Hn Hl.
  assert (∀ i n, lookupZ (replicate n_lookup TP_UNMAPPED_ENTRY) i = Some n → n = TP_UNMAPPED_ENTRY)
    as Hlk by (intros i n Hi; by eapply lookupZ_replicate).
  assert (∀ n e, lookupZ (replicate n_entry empty_entry) n = Some e → e = empty_entry)
    as He by (intros n e Hi; by eapply lookupZ_replicate).
  pose proof (cfg_cap _ Hcfg) as Hcap.
  assert (lookupZ (replicate n_entry empty_entry) TP_UNMAPPED_ENTRY = None) as Hun.
  { apply lookupZ_None. unfold lengthZ. rewrite length_replicate. lia. }
  split; [constructor; simpl|].
  - done.
  - done.
  - unfold lengthZ. by rewrite length_replicate.
  - unfold lengthZ, page_addr. simpl. by rewrite length_replicate.
  - intros n e ->%He. done.
  - intros i n ->%Hlk Hne. done.
  - intros n e ->%He. done.
  - intros n e ->%He. done.
  - intros i n e ->%Hlk ->%He. done.
  - constructor.
  - intros r k n ?%elem_of_nil. done.
  - intros i ?%elem_of_nil. done.
  - intros i. unfold view. simpl. destruct (lookupZ _ i) eqn:E; [|done].
    apply Hlk in E as ->. by rewrite Hun.
Qed.

Definition init_ok (cfg : treepass_config) (al : allocator_config) : Prop :=
  1 ≤ tp_log_page_size cfg < 64 ∧ tp_page_size cfg = 2 ^ tp_log_page_size cfg ∧
  0 < tp_page_capacity cfg < TP_UNMAPPED_ENTRY ∧ 0 ≤ capacity al ≤ 2 ^ 63.

(** The memory a device presents when nothing is cached. *)
Definition device_memory (cfg : treepass_config) (disk : gmap Z page_data) (i : Z) : page_data :=
  default [] (disk !! Z.shiftl i (tp_log_page_size cfg)).

Lemma init_Inv cfg al disk now s :
  init_ok cfg al → treepass_init cfg al disk now = Some s →
  Inv (idle (tp_cfg s)) (device_memory cfg disk) s ∧
  tp_log_page_size (tp_cfg s) = tp_log_page_size cfg.
Proof.
  intros (Hlog & Hps & Hcap & Hal) Hi. unfold treepass_init in Hi. case_match eqn:E; [|done].
  apply andb_true_iff in E as [[E1 E2]%andb_true_iff E3]. apply Z.eqb_eq in E1, E2, E3.
  injection Hi as <-. split; [|done].
  match goal with |- Inv (idle ?c) _ _ => change (idle c) with (idle c); set (cfg' := c) end.
  refine (Inv_empty cfg' _ _ _ _ _ _ _ _ _ _ _ _ _ _ _ _ _ _ _ _ _ _ _).
  - constructor; simpl; try done. unfold PLATFORM_CACHELINE_SIZE in *.
    pose proof (Z.div_mod (tp_page_capacity cfg) 64). lia.
  - simpl. lia.
  - simpl. unfold treepass_divide_by_page_size.
    assert (0 < 2 ^ tp_log_page_size cfg) by (apply Z.pow_pos_nonneg; lia).
    rewrite Z.shiftl_mul_pow2, Z.shiftr_div_pow2 by lia.
    rewrite Z2Nat.id by (apply Z.div_pos; lia).
    pose proof (Z.mul_div_le (capacity al) _ H). lia.
Qed.
