(* ===== verification/TreePassEvict.v ===== *)
(** * The replacement policy

    [treepass_try_evict] run to its end: the pure function [evict_result] is what
    the CLOCK pass and the early-eviction pass do to one entry. *)
From S2P Require Import Prelude Allocator TreePassStatus TreePassState TreePass TreePassInv TreePassWriteback.
From S2P Require Import TreePassGet.

(** The striped counters of entry [n]. *)
Definition stripe (s : treepass) (n i : Z) : Z :=
  default 0 (lookupZ (tp_refcount s) (ref_index (tp_cfg s) n i)).
Definition pins (s : treepass) (n : Z) : Z :=
  default 0 (lookupZ (tp_pincount s) (treepass_get_ref_internal (tp_cfg s) n)).
Definition unreferenced (s : treepass) (n : Z) : bool :=
  forallb (λ i, stripe s n i =? 0) [0; 1; 2; 3].

(** The pass leaves the entry to a later one. *)
Definition evict_skip (e : treepass_entry) (ee_pass : bool) : bool :=
  if ee_pass then negb (bool_decide (e_type e = PAGE_TYPE_BRANCH)) || negb (e_entry_time e =? 0)
  else negb (status_get_clock (e_status e) =? 0).

Definition evictable (s : treepass) (n : Z) (e : treepass_entry) : bool :=
  (e_status e =? TP_EVICTABLE_STATUS) && (pins s n =? 0) && unreferenced s n.

Definition freed_entry (e : treepass_entry) : treepass_entry :=
  mk_entry (e_data e) TP_UNMAPPED_ADDR 0 TP_FREE_STATUS PAGE_TYPE_INVALID (e_waiters e).

Definition evict_result (s : treepass) (n : Z) (e : treepass_entry) (ee_pass : bool) : bool * treepass :=
  if evict_skip e ee_pass then
    (false, if ee_pass then s
            else set_entry n (with_status (status_try_dec_clock (e_status e)).2 e) s)
  else if evictable s n e then
    (true, set_entry n (freed_entry e)
             (set_page (treepass_divide_by_page_size (tp_cfg s) (e_disk_addr e)) TP_UNMAPPED_ENTRY s))
  else (false, s).

(** The counters' arrays cover the entries. *)
Definition counters_ok (s : treepass) : Prop :=
  lengthZ (tp_refcount s) = tp_page_capacity (tp_cfg s) * TP_RC_WIDTH ∧
  lengthZ (tp_pincount s) = tp_page_capacity (tp_cfg s).

(** ** The layout of the counters *)
Section layout.
Context (cfg : treepass_config) (Hcfg : cfg_ok cfg).

(** [treepass_get_ref_internal] spreads the entries over the cache lines: it is
    a permutation of the entry numbers. *)
Lemma ref_internal_range n :
  0 ≤ n < tp_page_capacity cfg → 0 ≤ treepass_get_ref_internal cfg n < tp_page_capacity cfg.
Proof.
  intros Hn. pose proof (cfg_cacheline _ Hcfg). pose proof (cfg_cap _ Hcfg) as Hc.
  unfold treepass_get_ref_internal, PLATFORM_CACHELINE_SIZE, TP_UNMAPPED_ENTRY, UINT32_MAX in *.
  set (q := tp_cacheline_capacity cfg) in *.
  pose proof (Z.mod_pos_bound n q ltac:(lia)). pose proof (Z.div_mod n q ltac:(lia)).
  assert (0 ≤ n / q < 64) by (split; [apply Z.div_pos; lia|apply Z.div_lt_upper_bound; lia]).
  rewrite u32_small; lia.
Qed.

Lemma ref_internal_inj n m :
  0 ≤ n < tp_page_capacity cfg → 0 ≤ m < tp_page_capacity cfg →
  treepass_get_ref_internal cfg n = treepass_get_ref_internal cfg m → n = m.
Proof.
  intros Hn Hm. pose proof (cfg_cacheline _ Hcfg). pose proof (cfg_cap _ Hcfg) as Hc.
  unfold treepass_get_ref_internal, PLATFORM_CACHELINE_SIZE, TP_UNMAPPED_ENTRY, UINT32_MAX in *.
  set (q := tp_cacheline_capacity cfg) in *.
  pose proof (Z.mod_pos_bound n q ltac:(lia)). pose proof (Z.div_mod n q ltac:(lia)).
  pose proof (Z.mod_pos_bound m q ltac:(lia)). pose proof (Z.div_mod m q ltac:(lia)).
  assert (0 ≤ n / q < 64) by (split; [apply Z.div_pos; lia|apply Z.div_lt_upper_bound; lia]).
  assert (0 ≤ m / q < 64) by (split; [apply Z.div_pos; lia|apply Z.div_lt_upper_bound; lia]).
  rewrite !u32_small by lia. intros E.
  assert (n `mod` q = m `mod` q ∧ n / q = m / q) as [E1 E2] by lia.
  rewrite (Z.div_mod n q), (Z.div_mod m q), E1, E2 by lia. done.
Qed.

Lemma ref_index_range n i :
  0 ≤ n < tp_page_capacity cfg → 0 ≤ i →
  0 ≤ ref_index cfg n i < tp_page_capacity cfg * TP_RC_WIDTH.
Proof.
  intros Hn Hi. pose proof (ref_internal_range n Hn). unfold ref_index, TP_RC_WIDTH.
  pose proof (Z.mod_pos_bound i 4 ltac:(lia)). nia.
Qed.

Lemma ref_index_inj n m i j :
  0 ≤ n < tp_page_capacity cfg → 0 ≤ m < tp_page_capacity cfg → 0 ≤ i → 0 ≤ j →
  ref_index cfg n i = ref_index cfg m j → n = m ∧ i `mod` TP_RC_WIDTH = j `mod` TP_RC_WIDTH.
Proof.
  intros Hn Hm Hi Hj. pose proof (ref_internal_range n Hn). pose proof (ref_internal_range m Hm).
  unfold ref_index, TP_RC_WIDTH. intros E.
  assert (i `mod` 4 = j `mod` 4) as Ei by nia. split; [|done].
  apply ref_internal_inj; [done|done|]. rewrite Ei in E. lia.
Qed.
End layout.

(** ** One eviction, run to its end *)
Lemma set_entry_id s n e : lookupZ (tp_entry s) n = Some e → set_entry n e s = s.
Proof. intros He. unfold set_entry, set_entries. rewrite insertZ_id by done. by destruct s. Qed.
Lemma with_status_id e : with_status (e_status e) e = e.
Proof. by destruct e. Qed.
Lemma set_entry_twice s n e1 e2 : set_entry n e2 (set_entry n e1 s) = set_entry n e2 s.
Proof. unfold set_entry, set_entries. simpl. by rewrite insertZ_insertZ. Qed.

Section evict.
Context `{platform} (th : thread) (s : treepass) (n : Z) (e : treepass_entry).
Context {open : window} (HI : cache_inv open s) (Hco : counters_ok s) (Hth : 0 ≤ tid th).
Context (He : lookupZ (tp_entry s) n = Some e).

Abbreviation k := (ref_index (tp_cfg s) n (tid th)).

(** The states in between: entry [n] is [e'] and the caller's stripe holds [r]. *)
Definition mid (e' : treepass_entry) (r : Z) : treepass :=
  set_entry n e' (set_refcount (insertZ k r) s).

Lemma n_range : 0 ≤ n < tp_page_capacity (tp_cfg s).
Proof. rewrite <-(inv_entry_len _ HI). by eapply lookupZ_Some. Qed.
Lemma k_range : 0 ≤ k < lengthZ (tp_refcount s).
Proof. rewrite (proj1 Hco). apply ref_index_range; [apply HI|apply n_range|done]. Qed.

Lemma stripe_Some i : 0 ≤ i →
  lookupZ (tp_refcount s) (ref_index (tp_cfg s) n i) = Some (stripe s n i).
Proof.
  intros Hi. unfold stripe.
  destruct (lookupZ (tp_refcount s) (ref_index (tp_cfg s) n i)) as [r|] eqn:E; [reflexivity|].
  apply lookupZ_None in E. destruct E. rewrite (proj1 Hco). apply ref_index_range; [apply HI|apply n_range|done].
Qed.
Lemma pins_Some : lookupZ (tp_pincount s) (treepass_get_ref_internal (tp_cfg s) n) = Some (pins s n).
Proof.
  unfold pins. destruct (lookupZ (tp_pincount s) _) as [r|] eqn:E; [reflexivity|].
  apply lookupZ_None in E. destruct E. rewrite (proj2 Hco). apply ref_internal_range; [apply HI|apply n_range].
Qed.
Lemma stripe_mod i : 0 ≤ i → stripe s n (i `mod` TP_RC_WIDTH) = stripe s n i.
Proof. intros Hi. unfold stripe, ref_index, TP_RC_WIDTH. by rewrite Zmod_mod. Qed.

Lemma mid_id : mid e (stripe s n (tid th)) = s.
Proof.
  unfold mid, set_entry, set_entries, set_refcount. simpl.
  rewrite (insertZ_id (tp_refcount s)), insertZ_id by (done || by apply stripe_Some). by destruct s.
Qed.
Lemma mid_entry e' r : lookupZ (tp_entry (mid e' r)) n = Some e'.
Proof. apply lookupZ_insertZ_eq. by eapply lookupZ_Some. Qed.
Lemma mid_ref e' r i : 0 ≤ i →
  lookupZ (tp_refcount (mid e' r)) (ref_index (tp_cfg s) n i) =
  Some (if decide (i `mod` TP_RC_WIDTH = tid th `mod` TP_RC_WIDTH) then r else stripe s n i).
Proof.
  intros Hi. simpl. case_decide as E.
  - assert (ref_index (tp_cfg s) n i = k) as -> by (unfold ref_index; by rewrite E).
    apply lookupZ_insertZ_eq, k_range.
  - rewrite lookupZ_insertZ_ne; [by apply stripe_Some|]. intros Ek.
    apply E. symmetry.
    by apply (ref_index_inj _ (inv_cfg _ HI) n n (tid th) i n_range n_range Hth Hi).
Qed.

(** Each primitive on such a state. *)
Lemma mid_get e' r : treepass_get_entry n (mid e' r) = Ret (e', mid e' r).
Proof. unfold treepass_get_entry. by rewrite (bind_run _ _ _ _ _ eq_refl), mid_entry. Qed.
Lemma mid_status e' r : treepass_get_status n (mid e' r) = Ret (e_status e', mid e' r).
Proof. unfold treepass_get_status. by rewrite (bind_run _ _ _ _ _ (mid_get e' r)). Qed.
Lemma mid_test e' r f : treepass_test_flag n f (mid e' r) = Ret (has_flag (e_status e') f, mid e' r).
Proof. unfold treepass_test_flag. by rewrite (bind_run _ _ _ _ _ (mid_status e' r)). Qed.
Lemma mid_mod e' r f : mod_entry n f (mid e' r) = Ret (tt, mid (f e') r).
Proof.
  unfold mod_entry. rewrite (bind_run _ _ _ _ _ (mid_get e' r)). unfold mmod. do 2 f_equal.
  apply set_entry_twice.
Qed.
Lemma mid_set e' r f :
  treepass_set_flag n f (mid e' r) =
  Ret (Z.land f (e_status e'), mid (with_status (status_set_flag (e_status e') f) e') r).
Proof.
  unfold treepass_set_flag. rewrite (bind_run _ _ _ _ _ (mid_status e' r)).
  by rewrite (bind_run _ _ _ _ _ (mid_mod e' r _)).
Qed.
Lemma mid_clear e' r f :
  treepass_clear_flag n f (mid e' r) =
  Ret (Z.land f (e_status e'), mid (with_status (status_clear_flag (e_status e') f) e') r).
Proof.
  unfold treepass_clear_flag. rewrite (bind_run _ _ _ _ _ (mid_status e' r)).
  by rewrite (bind_run _ _ _ _ _ (mid_mod e' r _)).
Qed.
Lemma mid_get_ref e' r i : 0 ≤ i →
  treepass_get_ref n i (mid e' r) =
  Ret (if decide (i `mod` TP_RC_WIDTH = tid th `mod` TP_RC_WIDTH) then r else stripe s n i, mid e' r).
Proof.
  intros Hi. unfold treepass_get_ref. rewrite (bind_run _ _ _ _ _ eq_refl).
  unfold mopt. change (tp_cfg (mid e' r)) with (tp_cfg s). by rewrite mid_ref.
Qed.
Lemma mid_own_ref e' r : treepass_get_ref n (tid th) (mid e' r) = Ret (r, mid e' r).
Proof. rewrite mid_get_ref by done. by rewrite decide_True. Qed.
Lemma mid_set_ref e' r r' : set_refcount (insertZ k r') (mid e' r) = mid e' r'.
Proof. unfold mid, set_entry, set_entries, set_refcount. simpl. by rewrite insertZ_insertZ. Qed.
Lemma mid_inc e' r : treepass_inc_ref n (tid th) (mid e' r) = Ret (tt, mid e' (u16 (r + 1))).
Proof.
  unfold treepass_inc_ref. rewrite (bind_run _ _ _ _ _ (mid_own_ref e' r)). unfold mmod.
  do 2 f_equal. apply mid_set_ref.
Qed.
Lemma mid_dec e' r : treepass_dec_ref n (tid th) (mid e' r) = Ret (tt, mid e' (u16 (r - 1))).
Proof.
  unfold treepass_dec_ref. rewrite (bind_run _ _ _ _ _ (mid_own_ref e' r)). unfold mmod.
  do 2 f_equal. apply mid_set_ref.
Qed.
Lemma mid_pin e' r : treepass_get_pin n (mid e' r) = Ret (pins s n, mid e' r).
Proof.
  unfold treepass_get_pin. rewrite (bind_run _ _ _ _ _ eq_refl). unfold mopt.
  change (lookupZ _ _) with (lookupZ (tp_pincount s) (treepass_get_ref_internal (tp_cfg s) n)).
  by rewrite pins_Some.
Qed.

(** Advance a run by one primitive. *)
Ltac go L := rewrite (bind_run _ _ _ _ _ L).

Lemma mid_scan_readers e' j cnt : 0 ≤ j → j + Z.of_nat cnt ≤ TP_RC_WIDTH →
  scan_readers th n cnt j (mid e' 1) =
  Ret (existsb (λ i, negb (i =? tid th `mod` TP_RC_WIDTH) && negb (stripe s n i =? 0))
         (seqZ j (Z.of_nat cnt)), mid e' 1).
Proof.
  revert j. induction cnt as [|cnt IH]; intros j Hj Hle; [done|].
  cbn [scan_readers]. rewrite (bind_run _ _ _ _ _ (mid_get_ref e' 1 j Hj)).
  rewrite seqZ_cons by lia. replace (Z.pred (Z.of_nat (S cnt))) with (Z.of_nat cnt) by lia.
  cbn [existsb]. rewrite (Z.mod_small j) by (unfold TP_RC_WIDTH in *; lia).
  rewrite (Z.eqb_sym (tid th `mod` TP_RC_WIDTH) j).
  destruct (j =? tid th `mod` TP_RC_WIDTH) eqn:E.
  - apply Z.eqb_eq in E. rewrite decide_True by done. simpl. apply IH; lia.
  - apply Z.eqb_neq in E. rewrite decide_False by done. simpl.
    destruct (negb (stripe s n j =? 0)); [done|]. apply IH; lia.
Qed.

(** With no reference of its own, the caller sees another reader just when the
    entry is referenced. *)
Lemma scan_unreferenced :
  stripe s n (tid th) = 0 →
  existsb (λ i, negb (i =? tid th `mod` TP_RC_WIDTH) && negb (stripe s n i =? 0))
    (seqZ 0 4) = negb (unreferenced s n).
Proof.
  intros Hown. unfold unreferenced. change (seqZ 0 4) with [0; 1; 2; 3]. cbn [existsb forallb].
  pose proof (Z.mod_pos_bound (tid th) TP_RC_WIDTH ltac:(done)) as Hb.
  pose proof (stripe_mod (tid th) Hth) as Hm. rewrite Hown in Hm. unfold TP_RC_WIDTH in *.
  assert (tid th `mod` 4 = 0 ∨ tid th `mod` 4 = 1 ∨ tid th `mod` 4 = 2 ∨ tid th `mod` 4 = 3) as Hc by lia.
  destruct Hc as [E|[E|[E|E]]]; rewrite E in *; rewrite Hm; simpl;
    repeat match goal with |- context [stripe s n ?i =? 0] => destruct (stripe s n i =? 0) end; done.
Qed.

Lemma mid_evict_entry e' r :
  e_waiters e' = [] → e_disk_addr e' = e_disk_addr e → is_free e = false →
  evict_entry n (mid e' r) =
  Ret (tt, set_page (treepass_divide_by_page_size (tp_cfg s) (e_disk_addr e)) TP_UNMAPPED_ENTRY
             (mid (freed_entry e') r)).
Proof.
  intros Hw Ha Hf. destruct (homed_page _ _ _ _ HI He Hf) as (i & Hi & _ & Hidx & Hb).
  unfold evict_entry. go (mid_get e' r). rewrite Ha.
  rewrite (proj2 (Z.eqb_neq _ _)) by (unfold TP_UNMAPPED_ADDR, UINT64_MAX; lia). simpl negb.
  unfold mwhen. rewrite Hw, bool_decide_true by done.
  assert (store_lookup (e_disk_addr e) TP_UNMAPPED_ENTRY (mid e' r) =
    Ret (tt, set_page i TP_UNMAPPED_ENTRY (mid e' r))) as Hst.
  { unfold store_lookup, treepass_lookup, mopt, mget, mmod, mbind, M_bind.
    change (tp_cfg (mid e' r)) with (tp_cfg s). change (tp_lookup (mid e' r)) with (tp_lookup s).
    rewrite Hidx, Hi. unfold set_page. change (tp_cfg (mid e' r)) with (tp_cfg s). by rewrite Hidx. }
  assert (∀ e1 f, mod_entry n f (set_page i TP_UNMAPPED_ENTRY (mid e1 r)) =
    Ret (tt, set_page i TP_UNMAPPED_ENTRY (mid (f e1) r))) as Hmod.
  { intros e1 f. unfold mod_entry, treepass_get_entry, mopt, mget, mmod, mbind, M_bind.
    change (tp_entry (set_page i TP_UNMAPPED_ENTRY (mid e1 r))) with (tp_entry (mid e1 r)).
    rewrite mid_entry. do 2 f_equal. unfold mid.
    change (set_entries (insertZ n (f e1)) (set_page i TP_UNMAPPED_ENTRY (set_entry n e1 ?t)))
      with (set_page i TP_UNMAPPED_ENTRY (set_entry n (f e1) (set_entry n e1 t))).
    by rewrite set_entry_twice. }
  rewrite Hidx.
  erewrite (bind_run (_ ≫= _)); [|go Hst; go (Hmod e' (with_disk_addr TP_UNMAPPED_ADDR)); apply Hmod].
  go (eq_refl : massert true (set_page i TP_UNMAPPED_ENTRY
    (mid (with_entry_time 0 (with_disk_addr TP_UNMAPPED_ADDR e')) r)) = Ret (tt, _)).
  erewrite bind_run by apply Hmod. by rewrite Hmod.
Qed.

(** The part of the eviction after the skip test. *)
Lemma evict_from_clean :
  e_status e = TP_EVICTABLE_STATUS → pins s n = 0 → stripe s n (tid th) = 0 → e_waiters e = [] →
  (rc ← treepass_try_get_read th n false;
   match rc with
   | GET_RC_SUCCESS =>
     rc ← treepass_try_get_claim n;
     match rc with
     | GET_RC_SUCCESS =>
       loading ← treepass_test_flag n TP_LOADING;
       rc ← (if loading : bool then mret GET_RC_CONFLICT else treepass_try_get_write th n);
       match rc with
       | GET_RC_SUCCESS => evict_locked th n
       | _ =>
         _ ← treepass_clear_flag n TP_CLAIMED;
         treepass_dec_ref n (tid th);; mret false
       end
     | _ => treepass_dec_ref n (tid th);; mret false
     end
   | _ => mret false
   end) s =
  Ret (if unreferenced s n then
    (true, set_entry n (freed_entry e)
       (set_page (treepass_divide_by_page_size (tp_cfg s) (e_disk_addr e)) TP_UNMAPPED_ENTRY s))
   else (false, s)).
Proof.
  intros Hst Hpin Hown Hw.
  assert (treepass_try_get_read th n false s = Ret (GET_RC_SUCCESS, mid e 1)) as Hread.
  { rewrite <-mid_id at 1. rewrite Hown. unfold treepass_try_get_read. go (mid_test e 0 TP_WRITELOCKED).
    rewrite Hst. change (has_flag TP_EVICTABLE_STATUS TP_WRITELOCKED) with false. cbv beta iota.
    go (mid_inc e 0). change (u16 (0 + 1)) with 1. go (mid_test e 1 TP_FREE). go (mid_test e 1 TP_WRITELOCKED).
    by rewrite Hst. }
  go Hread. cbv beta iota. set (e1 := with_status (status_set_flag TP_EVICTABLE_STATUS TP_CLAIMED) e).
  assert (treepass_try_get_claim n (mid e 1) = Ret (GET_RC_SUCCESS, mid e1 1)) as Hclaim.
  { unfold treepass_try_get_claim. go (mid_set e 1 TP_CLAIMED). by rewrite Hst. }
  go Hclaim. cbv beta iota. go (mid_test e1 1 TP_LOADING). change (has_flag (e_status e1) TP_LOADING) with false.
  cbv beta iota. set (e2 := with_status (status_set_flag (e_status e1) TP_WRITELOCKED) e1).
  assert (treepass_try_get_write th n (mid e1 1) =
    if unreferenced s n then Ret (GET_RC_SUCCESS, mid e2 1) else Ret (GET_RC_CONFLICT, mid e1 1)) as Hwr.
  { unfold treepass_try_get_write. go (mid_set e1 1 TP_WRITELOCKED). fold e2.
    go (mid_test e2 1 TP_WRITEBACK). change (has_flag (e_status e2) TP_WRITEBACK) with false. cbv beta iota.
    go (mid_scan_readers e2 0 4 ltac:(done) ltac:(done)).
    change (Z.of_nat 4) with 4. rewrite scan_unreferenced by done.
    destruct (unreferenced s n); cbn [negb]; cbv beta iota; [done|].
    go (mid_clear e2 1 TP_WRITELOCKED). done. }
  destruct (unreferenced s n).
  - go Hwr. unfold evict_locked. go (mid_status e2 1). go (mid_pin e2 1). rewrite Hpin. cbn [orb].
    change (e_status e2 =? TP_LOCKED_EVICTABLE_STATUS) with true. cbn [negb orb Z.eqb].
    erewrite bind_run; [|apply mid_evict_entry; [done|done|unfold is_free; by rewrite Hst]].
    set (i := treepass_divide_by_page_size _ _).
    assert (treepass_dec_ref n (tid th) (set_page i TP_UNMAPPED_ENTRY (mid (freed_entry e2) 1)) =
      Ret (tt, set_page i TP_UNMAPPED_ENTRY (mid (freed_entry e) 0))) as Hd.
    { unfold treepass_dec_ref.
      assert (treepass_get_ref n (tid th) (set_page i TP_UNMAPPED_ENTRY (mid (freed_entry e2) 1)) =
        Ret (1, set_page i TP_UNMAPPED_ENTRY (mid (freed_entry e2) 1))) as Hg.
      { pose proof (mid_ref (freed_entry e2) 1 (tid th) Hth) as Hd. rewrite decide_True in Hd by done.
        unfold treepass_get_ref, mopt, mget, mbind, M_bind.
        change (tp_refcount (set_page i _ ?t)) with (tp_refcount t).
        change (tp_cfg (set_page i _ ?t)) with (tp_cfg s). by rewrite Hd. }
      go Hg. unfold mmod. do 2 f_equal.
      change (set_refcount ?f (set_page i TP_UNMAPPED_ENTRY ?t))
        with (set_page i TP_UNMAPPED_ENTRY (set_refcount f t)).
      change (tp_cfg (set_page i _ ?t)) with (tp_cfg s). by rewrite mid_set_ref. }
    go Hd. unfold mret, M_ret. do 3 f_equal. unfold mid.
    rewrite <-Hown. change (set_page i TP_UNMAPPED_ENTRY (set_entry n (freed_entry e) ?t))
      with (set_entry n (freed_entry e) (set_page i TP_UNMAPPED_ENTRY t)).
    do 2 f_equal. unfold set_refcount. rewrite insertZ_id by (by apply stripe_Some). by destruct s.
  - go Hwr. go (mid_clear e1 1 TP_CLAIMED). go (mid_dec (with_status (status_clear_flag (e_status e1) TP_CLAIMED) e1) 1).
    change (u16 (1 - 1)) with 0.
    assert (with_status (status_clear_flag (e_status e1) TP_CLAIMED) e1 = e) as ->.
    { unfold e1. rewrite <-(with_status_id e) at 3. rewrite Hst. done. }
    rewrite <-Hown, mid_id. done.
Qed.

Lemma get_entry_now : treepass_get_entry n s = Ret (e, s).
Proof. unfold treepass_get_entry. by rewrite (bind_run _ _ _ _ _ eq_refl), He. Qed.
Lemma get_status_now : treepass_get_status n s = Ret (e_status e, s).
Proof. unfold treepass_get_status. by rewrite (bind_run _ _ _ _ _ get_entry_now). Qed.
Lemma mod_entry_now f : mod_entry n f s = Ret (tt, set_entry n (f e) s).
Proof. unfold mod_entry. by rewrite (bind_run _ _ _ _ _ get_entry_now). Qed.
Lemma get_ref_now i : 0 ≤ i → treepass_get_ref n i s = Ret (stripe s n i, s).
Proof.
  intros Hi. unfold treepass_get_ref. rewrite (bind_run _ _ _ _ _ eq_refl). unfold mopt.
  by rewrite stripe_Some.
Qed.
Lemma get_pin_now : treepass_get_pin n s = Ret (pins s n, s).
Proof. unfold treepass_get_pin. rewrite (bind_run _ _ _ _ _ eq_refl). unfold mopt. by rewrite pins_Some. Qed.

Lemma try_dec_clock_now :
  treepass_try_dec_clock n s =
  Ret (negb (status_get_clock (e_status e) =? 0),
       set_entry n (with_status (status_try_dec_clock (e_status e)).2 e) s).
Proof.
  unfold treepass_try_dec_clock. go get_status_now. unfold status_try_dec_clock.
  destruct (status_get_clock (e_status e) =? 0); by erewrite bind_run by apply mod_entry_now.
Qed.

(** Both passes, whatever the state of the entry. *)
Lemma try_evict_run ee_pass :
  e_waiters e = [] → treepass_try_evict th n ee_pass s = Ret (evict_result s n e ee_pass).
Proof.
  intros Hw. unfold treepass_try_evict, evict_result. go get_entry_now.
  assert ((if ee_pass
    then mret (negb (bool_decide (e_type e = PAGE_TYPE_BRANCH)) || negb (e_entry_time e =? 0))
    else treepass_try_dec_clock n) s =
    Ret (evict_skip e ee_pass, if evict_skip e ee_pass then
      (if ee_pass then s else set_entry n (with_status (status_try_dec_clock (e_status e)).2 e) s)
      else s)) as Hskip.
  { unfold evict_skip. destruct ee_pass; [by case_match|]. rewrite try_dec_clock_now. unfold status_try_dec_clock.
    destruct (status_get_clock (e_status e) =? 0); [|done]. simpl.
    by rewrite with_status_id, set_entry_id. }
  go Hskip. destruct (evict_skip e ee_pass); [done|]. cbv beta iota.
  go get_status_now. go (get_ref_now (tid th) Hth). go get_pin_now.
  unfold evictable. destruct (e_status e =? TP_EVICTABLE_STATUS) eqn:Est; [|done].
  destruct (pins s n =? 0) eqn:Ep; [|by rewrite orb_true_r].
  destruct (stripe s n (tid th) =? 0) eqn:Er.
  - apply Z.eqb_eq in Est, Ep, Er. cbn [negb orb andb]. rewrite evict_from_clean by done.
    by destruct (unreferenced s n).
  - cbn [negb orb andb]. assert (unreferenced s n = false) as ->; [|done].
    rewrite <-stripe_mod in Er by done. unfold unreferenced.
    pose proof (Z.mod_pos_bound (tid th) TP_RC_WIDTH ltac:(done)). unfold TP_RC_WIDTH in *.
    apply not_true_iff_false. rewrite forallb_forall. intros Hall.
    rewrite Hall in Er; [done|]. simpl. lia.
Qed.
End evict.

(** * Sweeps of the CLOCK hand

    What repeated CLOCK passes do to every entry of the cache: an entry loses one
    unit of its counter per pass, and a clean, unpinned, unreferenced page is
    evicted by the pass that finds the counter at zero. *)
(** One CLOCK pass over an entry; [ok]: it has neither pins nor references. *)
Definition clock_pass (ok : bool) (e : treepass_entry) : treepass_entry :=
  if status_get_clock (e_status e) =? 0 then
    if (e_status e =? TP_EVICTABLE_STATUS) && ok then freed_entry e else e
  else with_status (status_try_dec_clock (e_status e)).2 e.

Definition releasable (s : treepass) (n : Z) : bool := (pins s n =? 0) && unreferenced s n.

Lemma evict_result_entry s n e m em open :
  cache_inv open s → lookupZ (tp_entry s) n = Some e → lookupZ (tp_entry s) m = Some em →
  lookupZ (tp_entry (evict_result s n e false).2) m =
  Some (if decide (n = m) then clock_pass (releasable s n) e else em).
Proof.
  intros HI He Hm. unfold evict_result, evict_skip, clock_pass, evictable, releasable.
  destruct (status_get_clock (e_status e) =? 0); cbn [negb].
  - rewrite <-andb_assoc. destruct (_ && _); cbn [snd].
    + change (set_page ?a ?b s) with (set_page a b s).
      rewrite (lookup_set_entry _ _ (set_page _ _ s) _ e) by done. by case_decide.
    + case_decide; [congruence|done].
  - cbn [snd]. rewrite (lookup_set_entry _ _ _ _ e) by done. by case_decide.
Qed.

(** ** The counter over several passes *)
Lemma clock_pass_fixed ok e :
  status_get_clock (e_status e) = 0 → (e_status e =? TP_EVICTABLE_STATUS) && ok = false →
  ∀ k, Nat.iter k (clock_pass ok) e = e.
Proof.
  intros Hc Hf k. induction k as [|k IH]; [done|]. simpl. rewrite IH. unfold clock_pass.
  by rewrite Hc, Hf.
Qed.

Lemma dec_clock_step st :
  status_wf st → 0 < status_get_clock st →
  status_wf (status_try_dec_clock st).2 ∧
  status_get_clock (status_try_dec_clock st).2 = status_get_clock st - 1 ∧
  status_set_clock (status_try_dec_clock st).2 0 = status_set_clock st 0 ∧
  Z.land (status_try_dec_clock st).2 63 = Z.land st 63.
Proof.
  intros Hst Hc.
  assert (implb (0 <? status_get_clock st)
    ((0 <=? (status_try_dec_clock st).2) && ((status_try_dec_clock st).2 <? 512)
     && (status_get_clock (status_try_dec_clock st).2 =? status_get_clock st - 1)
     && (status_set_clock (status_try_dec_clock st).2 0 =? status_set_clock st 0)
     && (Z.land (status_try_dec_clock st).2 63 =? Z.land st 63)) = true) as Hb
    by status_eval Hst.
  rewrite (proj2 (Z.ltb_lt _ _) Hc) in Hb. simpl in Hb. unfold status_wf. lia.
Qed.

(** After [k] passes, [k] at most the counter, the page is still cached. *)
Lemma clock_passes_dec ok e k :
  status_wf (e_status e) → Z.of_nat k ≤ status_get_clock (e_status e) →
  ∃ st, Nat.iter k (clock_pass ok) e = with_status st e ∧ status_wf st ∧
    status_get_clock st = status_get_clock (e_status e) - Z.of_nat k ∧
    status_set_clock st 0 = status_set_clock (e_status e) 0 ∧
    Z.land st 63 = Z.land (e_status e) 63.
Proof.
  intros Hwf. induction k as [|k IH]; intros Hk.
  - exists (e_status e). rewrite with_status_id. split_and!; try done. lia.
  - destruct IH as (st & Hit & Hst & Hc & Hs & Hl); [lia|]. simpl. rewrite Hit.
    destruct (dec_clock_step st Hst) as (Hst' & Hc' & Hs' & Hl'); [lia|].
    exists (status_try_dec_clock st).2. unfold clock_pass. simpl.
    rewrite (proj2 (Z.eqb_neq _ _)) by lia. split_and!; try done; [lia|congruence..].
Qed.

Lemma status_clock_zero st :
  status_wf st → status_get_clock st = 0 → status_set_clock st 0 = st.
Proof.
  intros Hst Hc. assert (implb (status_get_clock st =? 0) (status_set_clock st 0 =? st) = true) as Hb
    by status_eval Hst.
  rewrite Hc in Hb. simpl in Hb. by apply Z.eqb_eq.
Qed.

(** Eight passes empty the counter and evict what can be evicted. *)
Definition swept_entry (ok : bool) (e : treepass_entry) : treepass_entry :=
  if (Z.land (e_status e) 63 =? TP_EVICTABLE_STATUS) && ok then
    freed_entry e else with_status (status_set_clock (e_status e) 0) e.

Lemma clock_passes_all ok e k :
  status_wf (e_status e) → status_get_clock (e_status e) < Z.of_nat k →
  Nat.iter k (clock_pass ok) e = swept_entry ok e.
Proof.
  intros Hwf Hk. set (c := Z.to_nat (status_get_clock (e_status e))).
  pose proof (get_clock_range (e_status e) Hwf) as Hcr.
  destruct (clock_passes_dec ok e c Hwf) as (st & Hit & Hst & Hc & Hs & Hl); [lia|].
  replace k with ((k - S c) + S c)%nat by lia. rewrite Nat.iter_add.
  change (Nat.iter (S c) (clock_pass ok) e) with (clock_pass ok (Nat.iter c (clock_pass ok) e)).
  rewrite Hit.
  assert (status_get_clock st = 0) as Hc0 by lia.
  assert ((st =? TP_EVICTABLE_STATUS) = (Z.land (e_status e) 63 =? TP_EVICTABLE_STATUS)) as Heq.
  { rewrite <-Hl. assert (implb (status_get_clock st =? 0) (Bool.eqb (st =? TP_EVICTABLE_STATUS)
      (Z.land st 63 =? TP_EVICTABLE_STATUS)) = true) as Hb by status_eval Hst.
    rewrite Hc0 in Hb. by apply eqb_prop. }
  unfold swept_entry. rewrite <-Heq, <-Hs, (status_clock_zero st Hst Hc0).
  assert (clock_pass ok (with_status st e) =
    if (st =? TP_EVICTABLE_STATUS) && ok then freed_entry e else with_status st e) as ->.
  { unfold clock_pass. simpl. by rewrite Hc0. }
  destruct ((st =? TP_EVICTABLE_STATUS) && ok) eqn:E.
  - apply clock_pass_fixed; done.
  - by apply clock_pass_fixed.
Qed.

(** ** The check for references *)
Lemma mfor_assert {S} (P : Z → bool) n first (body : Z → M S unit) s :
  (∀ i, first ≤ i < first + Z.of_nat n → body i s = if P i then Ret (tt, s) else Assert) →
  mfor n first body s = if forallb P (seqZ first (Z.of_nat n)) then Ret (tt, s) else Assert.
Proof.
  revert first. induction n as [|n IH]; intros first Hb; [done|].
  rewrite seqZ_cons by lia. cbn [mfor forallb]. unfold mbind, M_bind. rewrite Hb by lia.
  destruct (P first); [|done]. rewrite IH by (intros; apply Hb; lia).
  by replace (Z.pred (Z.of_nat (Datatypes.S n))) with (Z.of_nat n) by lia.
Qed.
(** Nobody holds a reference to any entry. *)
Definition all_unreferenced (s : treepass) : bool := forallb (unreferenced s) (seqZ 0 (tp_page_capacity (tp_cfg s))).
Lemma assert_no_refs_run open s : cache_inv open s → counters_ok s →
  treepass_assert_no_refs_and_pins s = if all_unreferenced s then Ret (tt, s) else Assert.
Proof.
  intros HI Hco. unfold treepass_assert_no_refs_and_pins. rewrite (bind_run _ _ _ _ _ eq_refl).
  set (cap := tp_page_capacity (tp_cfg s)). assert (0 ≤ cap) as Hcap by (pose proof (cfg_cap _ (inv_cfg _ HI)); lia).
  rewrite (mfor_assert (λ i, forallb (λ j, stripe s j i =? 0) (seqZ 0 cap))).
  - rewrite Z2Nat.id by done. match goal with |- (if ?b then _ else _) = _ => assert (b = all_unreferenced s) as ->; [|done] end.
    apply eq_true_iff_eq. unfold all_unreferenced. rewrite !forallb_forall.
    setoid_rewrite forallb_forall. setoid_rewrite <-list_elem_of_In. setoid_rewrite elem_of_seqZ. split.
    + intros Hall j Hj i Hi. apply Hall; [|done]. change [0; 1; 2; 3] with (seqZ 0 4) in Hi. apply elem_of_seqZ in Hi. unfold MAX_THREADS. lia.
    + intros Hall i Hi j Hj. rewrite <-stripe_mod by lia. apply Hall; [done|]. change [0; 1; 2; 3] with (seqZ 0 4). apply elem_of_seqZ.
      unfold TP_RC_WIDTH. pose proof (Z.mod_pos_bound i 4). lia.
  - intros i Hi. rewrite (mfor_assert (λ j, stripe s j i =? 0)).
    + by rewrite Z2Nat.id by done.
    + intros j Hj. rewrite Z2Nat.id in Hj by done. destruct (proj2 (lookupZ_is_Some (tp_entry s) j)) as [e He]; [rewrite (inv_entry_len _ HI); lia|].
      assert (Hget : treepass_get_ref j i s = Ret (stripe s j i, s)).
      { unfold treepass_get_ref, mopt. rewrite (bind_run _ _ _ _ _ eq_refl). by rewrite (stripe_Some s j e HI Hco He) by lia. }
      rewrite (bind_run _ _ _ _ _ Hget). unfold massert. by destruct (stripe s j i =? 0).
Qed.

(** ** Sweeping the whole cache *)
Section sweep.
Context `{platform} (th : thread) (Hth : 0 ≤ tid th) (open : window) (v : Z → page_data).
Context (s0 : treepass).

(** [cnt n] passes have gone over entry [n] since [s0]. *)
Record swept (cnt : Z → nat) (s : treepass) : Prop := {
  sw_inv : Inv open v s;
  sw_cfg : tp_cfg s = tp_cfg s0;
  sw_refs : tp_refcount s = tp_refcount s0;
  sw_pins : tp_pincount s = tp_pincount s0;
  sw_entry : ∀ n e, lookupZ (tp_entry s0) n = Some e →
    lookupZ (tp_entry s) n = Some (Nat.iter (cnt n) (clock_pass (releasable s0 n)) e);
}.

Lemma clock_pass_waiters ok e : e_waiters (clock_pass ok e) = e_waiters e.
Proof. unfold clock_pass. by repeat case_match. Qed.

Lemma swept_step cnt s n :
  counters_ok s0 → (∀ m e, lookupZ (tp_entry s0) m = Some e → e_waiters e = []) →
  swept cnt s → 0 ≤ n < tp_page_capacity (tp_cfg s0) →
  lengthZ (tp_entry s0) = tp_page_capacity (tp_cfg s0) →
  ∃ s', (_ ← treepass_try_evict th n false; mret tt) s = Ret (tt, s') ∧
    swept (λ m, if decide (m = n) then S (cnt m) else cnt m) s'.
Proof.
  intros Hco Hw Hs Hn Hlen.
  destruct (proj2 (lookupZ_is_Some (tp_entry s0) n)) as [e0 He0]; [by rewrite Hlen|].
  pose proof (sw_entry _ _ Hs n e0 He0) as He. set (e := Nat.iter _ _ e0) in He.
  assert (e_waiters e = []) as Hwe.
  { rewrite <-(Hw n e0 He0). unfold e. generalize (cnt n) as k.
    induction k as [|k IH]; [done|]. simpl. by rewrite clock_pass_waiters. }
  assert (∀ m, releasable s m = releasable s0 m) as Hrel.
  { intros m. unfold releasable, pins, unreferenced, stripe.
    by rewrite (sw_refs _ _ Hs), (sw_pins _ _ Hs), (sw_cfg _ _ Hs). }
  assert (counters_ok s) as Hco'.
  { unfold counters_ok. by rewrite (sw_refs _ _ Hs), (sw_pins _ _ Hs), (sw_cfg _ _ Hs). }
  pose proof (try_evict_run th s n e (proj1 (sw_inv _ _ Hs)) Hco' Hth He false Hwe) as Hrun.
  pose proof (try_evict_pres th open v n false s) as Hp.
  destruct (evict_result s n e false) as [b s'] eqn:E. exists s'.
  split; [by rewrite (bind_run _ _ _ _ _ Hrun)|].
  assert (s' = (evict_result s n e false).2) as Hs' by (by rewrite E).
  constructor.
  - by apply (Hp b s' (sw_inv _ _ Hs)).
  - rewrite Hs'. unfold evict_result. repeat case_match; apply Hs.
  - rewrite Hs'. unfold evict_result. repeat case_match; apply Hs.
  - rewrite Hs'. unfold evict_result. repeat case_match; apply Hs.
  - intros m em Hm. pose proof (sw_entry _ _ Hs m em Hm) as Hem. rewrite Hs'.
    rewrite (evict_result_entry s n e m _ open (proj1 (sw_inv _ _ Hs)) He Hem).
    case_decide; subst.
    + rewrite decide_True by done. simpl. rewrite Hrel. by simplify_eq.
    + rewrite decide_False by congruence. done.
Qed.

Lemma swept_ext cnt cnt' s :
  (∀ n, 0 ≤ n < lengthZ (tp_entry s0) → cnt n = cnt' n) → swept cnt s → swept cnt' s.
Proof.
  intros Hc [? ? ? ? Hs]. constructor; try done. intros n e He. rewrite (Hs n e He).
  rewrite (Hc n); [done|]. by eapply lookupZ_Some.
Qed.

(** Batch [h] has seen [p] passes, the batches before it all of them. *)
Definition batches_swept (h p n : Z) : nat :=
  if n <? h * 64 then 8%nat else if n <? h * 64 + 64 then Z.to_nat p else 0%nat.

Context (Hco : counters_ok s0) (Hlen : lengthZ (tp_entry s0) = tp_page_capacity (tp_cfg s0)).
Context (Hw : ∀ m e, lookupZ (tp_entry s0) m = Some e → e_waiters e = []).
Context (Hcap : tp_batch_capacity (tp_cfg s0) * 64 = tp_page_capacity (tp_cfg s0)).

Lemma evict_batch_swept h p s :
  0 ≤ h < tp_batch_capacity (tp_cfg s0) → 0 ≤ p → swept (batches_swept h p) s →
  ∃ s', treepass_evict_batch th h false s = Ret (tt, s') ∧ swept (batches_swept h (p + 1)) s'.
Proof.
  intros Hh Hp Hs. unfold treepass_evict_batch, TP_ENTRIES_PER_BATCH.
  set (P := λ m s, swept (λ n, if n <? h * 64 then 8%nat else if n <? m then Z.to_nat (p + 1)
                                else if n <? h * 64 + 64 then Z.to_nat p else 0%nat) s).
  destruct (mfor_total P (Z.to_nat 64) (h * 64)
    (λ n, _ ← treepass_try_evict th n false; mret tt) s) as (s' & Hr & HP).
  - intros n t Hn Ht. destruct (swept_step _ t n Hco Hw Ht) as (t' & Hrt & Ht'); [lia|done|].
    exists t'. split; [done|]. eapply swept_ext; [|exact Ht']. intros m _. simpl.
    destruct (decide (m = n)) as [->|]; repeat case_match; lia.
  - eapply swept_ext; [|exact Hs]. intros n _. unfold batches_swept. repeat case_match; lia.
  - exists s'. rewrite (bind_run _ _ _ _ _ Hr). split; [done|].
    change (Z.of_nat (Z.to_nat 64)) with 64 in HP.
    eapply swept_ext; [|exact HP]. intros n _. unfold batches_swept. repeat case_match; lia.
Qed.

Lemma evict_batch_passes h s :
  0 ≤ h < tp_batch_capacity (tp_cfg s0) → swept (batches_swept h 0) s →
  ∃ s', mfor (Z.to_nat (TP_CLOCK_MAX + 1)) 0 (λ _, treepass_evict_batch th h false) s = Ret (tt, s') ∧
    swept (batches_swept (h + 1) 0) s'.
Proof.
  intros Hh Hs. destruct (mfor_total (λ p, swept (batches_swept h p)) (Z.to_nat (TP_CLOCK_MAX + 1)) 0
    (λ _, treepass_evict_batch th h false) s) as (s' & Hr & HP).
  - intros p t Hp Ht. apply evict_batch_swept; [done|lia|done].
  - done.
  - exists s'. split; [done|]. eapply swept_ext; [|exact HP]. intros n _. unfold batches_swept.
    change (0 + Z.of_nat (Z.to_nat (TP_CLOCK_MAX + 1))) with 8. repeat case_match; lia.
Qed.

(** [treepass_evict_all] returns, having swept every entry eight times, unless it has
    to check for references and finds one. *)
Lemma evict_all_stops ignore_pinned_pages :
  Inv open v s0 → ignore_pinned_pages || all_unreferenced s0 = false →
  treepass_evict_all th ignore_pinned_pages s0 = Assert.
Proof.
  intros HI [-> Hu]%orb_false_iff. unfold treepass_evict_all, mwhen, mbind, M_bind. cbn [negb].
  by rewrite (assert_no_refs_run open s0 (proj1 HI) Hco), Hu.
Qed.
Lemma evict_all_swept ignore_pinned_pages :
  Inv open v s0 → ignore_pinned_pages || all_unreferenced s0 = true →
  ∃ s', treepass_evict_all th ignore_pinned_pages s0 = Ret (0, s') ∧ Inv open v s' ∧
    ∀ n e, lookupZ (tp_entry s0) n = Some e →
      lookupZ (tp_entry s') n = Some (swept_entry (releasable s0 n) e).
Proof.
  intros HI Hu. unfold treepass_evict_all.
  assert (Hc0 : mwhen (negb ignore_pinned_pages) treepass_assert_no_refs_and_pins s0 = Ret (tt, s0)).
  { destruct ignore_pinned_pages; [done|]. cbn [negb mwhen orb] in *. by rewrite (assert_no_refs_run open s0 (proj1 HI) Hco), Hu. }
  rewrite (bind_run _ _ _ _ _ Hc0).
  rewrite (bind_run _ _ _ _ _ eq_refl).
  pose proof (cfg_cap _ (inv_cfg _ (proj1 HI))) as Hc.
  destruct (mfor_total (λ h, swept (batches_swept h 0)) (Z.to_nat (tp_batch_capacity (tp_cfg s0))) 0
    (λ h, mfor (Z.to_nat (TP_CLOCK_MAX + 1)) 0 (λ _, treepass_evict_batch th h false)) s0)
    as (s' & Hr & HP).
  - intros h t Hh Ht. apply evict_batch_passes; [lia|done].
  - constructor; try done. intros n e He. rewrite He. unfold batches_swept.
    apply lookupZ_Some in He. by rewrite (proj2 (Z.ltb_ge _ _)) by lia; case_match.
  - exists s'. rewrite (bind_run _ _ _ _ _ Hr). split_and!; [done|apply HP|].
    intros n e He. rewrite (sw_entry _ _ HP n e He). f_equal.
    pose proof (inv_status _ (proj1 HI) _ _ He) as Hwf.
    apply lookupZ_Some in He. unfold batches_swept.
    rewrite (proj2 (Z.ltb_lt _ _)) by lia.
    apply clock_passes_all; [done|]. pose proof (get_clock_range _ Hwf).
    change TP_CLOCK_MAX with 7 in *. lia.
Qed.
End sweep.

(** ** The early-eviction pass *)
Section early.
Context `{platform} (th : thread) (Hth : 0 ≤ tid th) (open : window) (v : Z → page_data).

(** What the early-eviction pass makes of an entry: a branch page no lookup has
    stamped goes, everything else, its counter included, stays. *)
Definition ee_evicts (s : treepass) (m : Z) (e : treepass_entry) : bool :=
  bool_decide (e_type e = PAGE_TYPE_BRANCH) && (e_entry_time e =? 0) && evictable s m e.
Definition ee_entry (s : treepass) (m : Z) (e : treepass_entry) : treepass_entry :=
  if ee_evicts s m e then freed_entry e else e.
Definition ee_hit (s : treepass) (m : Z) : bool :=
  match lookupZ (tp_entry s) m with Some e => ee_evicts s m e | None => false end.
Definition ee_count (s : treepass) (n : Z) (k : nat) : Z :=
  foldr (λ m c, if ee_hit s m then 1 + c else c) 0 (seqZ n (Z.of_nat k)).

Lemma ee_count_S s n k :
  ee_count s n (S k) = if ee_hit s n then 1 + ee_count s (n + 1) k else ee_count s (n + 1) k.
Proof.
  unfold ee_count. rewrite (seqZ_cons n) by lia.
  by replace (Z.pred (Z.of_nat (S k))) with (Z.of_nat k) by lia.
Qed.
Lemma ee_count_ext s s' n k :
  (∀ m, n ≤ m < n + Z.of_nat k → ee_hit s m = ee_hit s' m) → ee_count s n k = ee_count s' n k.
Proof.
  revert n. induction k as [|k IH]; intros n He; [done|]. rewrite !ee_count_S, (IH (n + 1)), He by lia || (intros; apply He; lia). done.
Qed.

Lemma ee_result s n e :
  evict_result s n e true =
  if ee_evicts s n e then
    (true, set_entry n (freed_entry e)
       (set_page (treepass_divide_by_page_size (tp_cfg s) (e_disk_addr e)) TP_UNMAPPED_ENTRY s))
  else (false, s).
Proof.
  unfold evict_result, evict_skip, ee_evicts.
  destruct (bool_decide (e_type e = PAGE_TYPE_BRANCH)), (e_entry_time e =? 0); done.
Qed.

Lemma ee_evicts_frame s n x i m e :
  ee_evicts (set_entry n x (set_page i TP_UNMAPPED_ENTRY s)) m e = ee_evicts s m e.
Proof. done. Qed.

Lemma evict_ee_from_run k n c s :
  Inv open v s → counters_ok s →
  (∀ m e, lookupZ (tp_entry s) m = Some e → e_waiters e = []) →
  0 ≤ n → n + Z.of_nat k ≤ tp_page_capacity (tp_cfg s) → 0 ≤ c → c + Z.of_nat k < 2 ^ 32 →
  ∃ s', evict_ee_from th k n c s = Ret (c + ee_count s n k, s') ∧ Inv open v s' ∧
    ∀ m e, lookupZ (tp_entry s) m = Some e →
      lookupZ (tp_entry s') m =
      Some (if bool_decide (n ≤ m < n + Z.of_nat k) then ee_entry s m e else e).
Proof.
  revert n c s. induction k as [|k IH]; intros n c s HI Hco Hw Hn Hle Hc Hb.
  - exists s. cbn [evict_ee_from]. change (ee_count s n 0) with 0. rewrite Z.add_0_r.
    split_and!; [done|done|].
    intros m e He. rewrite bool_decide_false by lia. done.
  - cbn [evict_ee_from].
    destruct (proj2 (lookupZ_is_Some (tp_entry s) n)) as [e He];
      [rewrite (inv_entry_len _ (proj1 HI)); lia|].
    pose proof (try_evict_run th s n e (proj1 HI) Hco Hth He true (Hw n e He)) as Hrun.
    rewrite (bind_run _ _ _ (evict_result s n e true).1 (evict_result s n e true).2)
      by (rewrite Hrun; by destruct (evict_result s n e true)).
    rewrite ee_result in *.
    set (s1 := (if ee_evicts s n e then _ else (false, s)).2).
    set (b := (if ee_evicts s n e then _ else (false, s)).1).
    assert (b = ee_evicts s n e) as Hbv by (unfold b; by destruct (ee_evicts s n e)).
    assert (Inv open v s1) as HI1.
    { apply (try_evict_pres th open v n true s b s1 HI). rewrite Hrun. unfold s1, b. by destruct (ee_evicts s n e). }
    assert (∀ m e', lookupZ (tp_entry s) m = Some e' → lookupZ (tp_entry s1) m =
      Some (if decide (n = m) then ee_entry s m e' else e')) as Hent.
    { intros m e' Hm. unfold s1, ee_entry. destruct (ee_evicts s n e) eqn:E; cbn [snd].
      - rewrite (lookup_set_entry _ _ (set_page _ _ s) _ e) by done. case_decide; [|done].
        subst. by simplify_eq; rewrite E.
      - case_decide; [|done]. subst. by simplify_eq; rewrite E. }
    assert (∀ m e', ee_evicts s1 m e' = ee_evicts s m e') as Hev.
    { intros m e'. unfold s1. by destruct (ee_evicts s n e). }
    assert (tp_cfg s1 = tp_cfg s ∧ counters_ok s1) as [Hcfg1 Hco1].
    { unfold s1. by destruct (ee_evicts s n e). }
    destruct (IH (n + 1) (if b then u32 (c + 1) else c) s1) as (s' & Hr & HI' & Hent'); try done.
    + intros m e' Hm. destruct (proj2 (lookupZ_is_Some (tp_entry s) m)) as [e0 He0].
      { rewrite (inv_entry_len _ (proj1 HI)), <-Hcfg1, <-(inv_entry_len _ (proj1 HI1)).
        by eapply lookupZ_Some. }
      rewrite (Hent m e0 He0) in Hm. injection Hm as <-. pose proof (Hw m e0 He0).
      unfold ee_entry. by repeat case_match.
    + lia.
    + rewrite Hcfg1. lia.
    + destruct b; [rewrite u32_small|]; lia.
    + destruct b; [rewrite u32_small|]; lia.
    + exists s'. rewrite Hr. split_and!; [|done|].
      * do 2 f_equal. rewrite ee_count_S, (ee_count_ext s1 s).
        -- unfold ee_hit. rewrite He, Hbv. destruct (ee_evicts s n e); [rewrite u32_small by lia|]; lia.
        -- intros m Hm. unfold ee_hit.
           destruct (proj2 (lookupZ_is_Some (tp_entry s) m)) as [e0 He0];
            [rewrite (inv_entry_len _ (proj1 HI)); lia|].
           rewrite (Hent m e0 He0), He0, decide_False by lia. done.
      * intros m e' Hm. rewrite (Hent' m _ (Hent m e' Hm)). f_equal.
        unfold ee_entry at 1. rewrite Hev. fold (ee_entry s m (if decide (n = m) then ee_entry s m e' else e')).
        repeat case_bool_decide; try lia; case_decide; try lia; done.
Qed.
End early.
