(* ===== verification/TreePassLocks.v ===== *)
(** * The page lock under interleaving

    The lock of one cache entry as the threads run it: every atomic access of
    [treepass_try_get_read], [treepass_try_get_claim], [treepass_get_write],
    [treepass_try_get_write], of the releases, of the comparisons of the address in
    [treepass_get_in_cache] and of [treepass_try_evict] and [treepass_try_page_discard]
    is one step of one thread.  An eviction claims and write-locks straight after its
    read lock is granted, without a look at the address: its entry may have been freed
    by then.  Concurrent actors load the page, write it back, set its counter and take
    pins back.

    The state machine covers one residency of a page: from the moment it is in place
    (with the load of its data under way or over) until its entry, once freed, is
    taken for another.  Threads may come into it with read locks from before. *)
From S2P Require Import Prelude Allocator TreePassStatus TreePassState TreePass TreePassInv.

(** Where a thread is in the code; [ev] when it is in [treepass_try_evict]. *)
Inductive pc : Type :=
| Idle
| EvCounter (clock : Z)   (* try_evict: the counter is loaded *)
| EvStatus | EvRef | EvPin  (* the fast test that comes next *)
| EvRead
| SawUnlocked (ev : bool) (* try_get_read: the first test of TP_WRITELOCKED passed *)
| Inced (ev : bool)       (* ... the reference is taken *)
| FreeTested (ev free : bool)
| Undo                    (* the reference must be given back *)
| Access                  (* the tests passed; the counter is loaded next *)
| AccessAdd               (* ... and one is added to it *)
| Granted (ev : bool)     (* GET_RC_SUCCESS; the address is not checked yet *)
| Waiting                 (* the address is the page's; TP_LOADING is tested *)
| Checking                (* ... and the address compared again *)
| Reading
| Claimed
| EvClaimed | EvLoaded    (* TP_LOADING is tested next; it was clear *)
| Locking (ev : bool) (k : Z)  (* TP_WRITELOCKED set; stripe [k] is scanned next, -1: writeback *)
| Writing
| EvWriting | EvRechecked (* the status, then the pins are looked at again *)
| EvUnmapping
| EvUnlock | EvUnclaim
| Unmapped (ev : bool)    (* lookup and address are cleared *)
| Freed.                  (* discard: the status is TP_FREE_STATUS; the pins are reset next *)

(** The writeback of the entry. *)
Inductive io_pc : Type := NoIO | InFlight | Cleaned.

Record lock_state := mk_lock {
  l_status : Z;
  l_refs : list Z;
  l_pin : Z;
  l_mapped : bool;
  l_pcs : list pc;
  l_io : io_pc;
}.

Definition stripe_of (t : nat) : Z := Z.of_nat t `mod` TP_RC_WIDTH.
Definition flag (s : lock_state) (f : Z) : bool := has_flag (l_status s) f.

(** The effect of an atomic step of thread [t] that moves it to [q]. *)
Definition move (t : nat) (q : pc) (s : lock_state) : lock_state :=
  mk_lock (l_status s) (l_refs s) (l_pin s) (l_mapped s) (<[t := q]> (l_pcs s)) (l_io s).
Definition with_word (f : Z → Z) (s : lock_state) : lock_state :=
  mk_lock (f (l_status s)) (l_refs s) (l_pin s) (l_mapped s) (l_pcs s) (l_io s).
Definition set_fl (f : Z) : lock_state → lock_state := with_word (λ st, status_set_flag st f).
Definition clear_fl (f : Z) : lock_state → lock_state := with_word (λ st, status_clear_flag st f).
Definition add_clock (d : Z) : lock_state → lock_state := with_word (λ st, u32 (st + d)).
Definition add_ref (t : nat) (d : Z) (s : lock_state) : lock_state :=
  mk_lock (l_status s)
    (alter (λ r, u16 (r + d)) (Z.to_nat (stripe_of t)) (l_refs s)) (l_pin s) (l_mapped s) (l_pcs s) (l_io s).
Definition with_pin (n : Z) (s : lock_state) : lock_state :=
  mk_lock (l_status s) (l_refs s) n (l_mapped s) (l_pcs s) (l_io s).
Definition with_mapped (b : bool) (s : lock_state) : lock_state :=
  mk_lock (l_status s) (l_refs s) (l_pin s) b (l_pcs s) (l_io s).
Definition with_io (io : io_pc) (s : lock_state) : lock_state :=
  mk_lock (l_status s) (l_refs s) (l_pin s) (l_mapped s) (l_pcs s) io.

(** Another reader holds stripe [k], as seen by thread [t], which holds one
    reference itself. *)
Definition busy (t : nat) (k : Z) (r : Z) : bool :=
  if stripe_of t =? k then 1 <? r else negb (r =? 0).

(** [treepass_try_get_read]; [treepass_get_in_cache] and [treepass_try_page_discard]
    up to where they have the page, and [treepass_unget].  [st_other]: the page that
    the thread looks for was in this entry before. *)
Inductive page_read_step (t : nat) (s : lock_state) : lock_state → Prop :=
| st_read_test : l_pcs s !! t = Some Idle → flag s TP_WRITELOCKED = false →
    page_read_step t s (move t (SawUnlocked false) s)
| st_read_inc ev : l_pcs s !! t = Some (SawUnlocked ev) → page_read_step t s (move t (Inced ev) (add_ref t 1 s))
| st_read_free ev : l_pcs s !! t = Some (Inced ev) → page_read_step t s (move t (FreeTested ev (flag s TP_FREE)) s)
| st_read_lock ev free : l_pcs s !! t = Some (FreeTested ev free) →
    page_read_step t s (move t (if negb free && negb (flag s TP_WRITELOCKED) then if ev then Granted ev else Access else Undo) s)
| st_read_clock : l_pcs s !! t = Some Access →
    page_read_step t s (move t (if status_get_clock (l_status s) <? TP_CLOCK_MAX then AccessAdd else Granted false) s)
| st_read_access : l_pcs s !! t = Some AccessAdd → page_read_step t s (move t (Granted false) (add_clock TP_CLOCK_ONE s))
| st_read_undo : l_pcs s !! t = Some Undo → page_read_step t s (move t Idle (add_ref t (-1) s))
| st_check : l_pcs s !! t = Some (Granted false) → page_read_step t s (move t (if l_mapped s then Waiting else Undo) s)
| st_other : l_pcs s !! t = Some (Granted false) → page_read_step t s (move t Undo s)
| st_wait : l_pcs s !! t = Some Waiting → flag s TP_LOADING = false → page_read_step t s (move t Checking s)
| st_discard_wait : l_pcs s !! t = Some (Granted false) → flag s TP_LOADING = false → page_read_step t s (move t Checking s)
| st_recheck : l_pcs s !! t = Some Checking → page_read_step t s (move t (if l_mapped s then Reading else Undo) s)
| st_unget : l_pcs s !! t = Some Reading → page_read_step t s (move t Idle (add_ref t (-1) s)).

(** [treepass_try_get_claim], [treepass_unclaim], [treepass_get_write],
    [treepass_try_get_write], [treepass_unlock], [treepass_mark_dirty],
    [treepass_pin]. *)
Inductive page_lock_step (t : nat) (s : lock_state) : lock_state → Prop :=
| st_claim : l_pcs s !! t = Some Reading →
    page_lock_step t s (move t (if flag s TP_CLAIMED then Reading else Claimed) (set_fl TP_CLAIMED s))
| st_unclaim : l_pcs s !! t = Some Claimed → page_lock_step t s (move t Reading (clear_fl TP_CLAIMED s))
| st_lock : l_pcs s !! t = Some Claimed → page_lock_step t s (move t (Locking false (-1)) (set_fl TP_WRITELOCKED s))
| st_lock_wb ev : l_pcs s !! t = Some (Locking ev (-1)) → flag s TP_WRITEBACK = false →
    page_lock_step t s (move t (Locking ev 0) s)
| st_lock_scan ev k r : l_pcs s !! t = Some (Locking ev k) → 0 ≤ k < TP_RC_WIDTH →
    l_refs s !! Z.to_nat k = Some r → busy t k r = false →
    page_lock_step t s (move t (if k + 1 =? TP_RC_WIDTH then if ev then EvWriting else Writing else Locking ev (k + 1)) s)
| st_lock_fail_wb : l_pcs s !! t = Some (Locking true (-1)) → flag s TP_WRITEBACK = true →
    page_lock_step t s (move t EvUnclaim (clear_fl TP_WRITELOCKED s))
| st_lock_fail k r : l_pcs s !! t = Some (Locking true k) → 0 ≤ k < TP_RC_WIDTH →
    l_refs s !! Z.to_nat k = Some r → busy t k r = true →
    page_lock_step t s (move t EvUnclaim (clear_fl TP_WRITELOCKED s))
| st_dirty : l_pcs s !! t = Some Writing → page_lock_step t s (clear_fl TP_CLEAN s)
| st_pin : l_pcs s !! t = Some Writing → page_lock_step t s (with_pin (u8 (l_pin s + 1)) s)
| st_unlock : l_pcs s !! t = Some Writing → page_lock_step t s (move t Claimed (clear_fl TP_WRITELOCKED s)).

(** [treepass_try_evict]; [st_ev_early] is its start in the early-eviction pass, for
    a page whose type and stamp are what that asks for. *)
Inductive page_evict_step (t : nat) (s : lock_state) : lock_state → Prop :=
| st_ev_counter : l_pcs s !! t = Some Idle → page_evict_step t s (move t (EvCounter (status_get_clock (l_status s))) s)
| st_ev_age c : l_pcs s !! t = Some (EvCounter c) → c ≠ 0 → page_evict_step t s (move t Idle (add_clock (- TP_CLOCK_ONE) s))
| st_ev_cold : l_pcs s !! t = Some (EvCounter 0) → page_evict_step t s (move t EvStatus s)
| st_ev_early : l_pcs s !! t = Some Idle → page_evict_step t s (move t EvStatus s)
| st_ev_status : l_pcs s !! t = Some EvStatus →
    page_evict_step t s (move t (if l_status s =? TP_EVICTABLE_STATUS then EvRef else Idle) s)
| st_ev_ref r : l_pcs s !! t = Some EvRef → l_refs s !! Z.to_nat (stripe_of t) = Some r →
    page_evict_step t s (move t (if r =? 0 then EvPin else Idle) s)
| st_ev_pin : l_pcs s !! t = Some EvPin → page_evict_step t s (move t (if l_pin s =? 0 then EvRead else Idle) s)
| st_ev_read : l_pcs s !! t = Some EvRead →
    page_evict_step t s (move t (if flag s TP_WRITELOCKED then Idle else SawUnlocked true) s)
| st_ev_claim : l_pcs s !! t = Some (Granted true) →
    page_evict_step t s (move t (if flag s TP_CLAIMED then Undo else EvClaimed) (set_fl TP_CLAIMED s))
| st_ev_loading : l_pcs s !! t = Some EvClaimed →
    page_evict_step t s (move t (if flag s TP_LOADING then EvUnclaim else EvLoaded) s)
| st_ev_lock : l_pcs s !! t = Some EvLoaded → page_evict_step t s (move t (Locking true (-1)) (set_fl TP_WRITELOCKED s))
| st_ev_recheck : l_pcs s !! t = Some EvWriting →
    page_evict_step t s (move t (if l_status s =? TP_LOCKED_EVICTABLE_STATUS then EvRechecked else EvUnlock) s)
| st_ev_repin : l_pcs s !! t = Some EvRechecked →
    page_evict_step t s (move t (if l_pin s =? 0 then EvUnmapping else EvUnlock) s)
| st_ev_unmap : l_pcs s !! t = Some EvUnmapping → page_evict_step t s (move t (Unmapped true) (with_mapped false s))
| st_ev_free : l_pcs s !! t = Some (Unmapped true) →
    page_evict_step t s (move t Undo (with_word (λ _, TP_FREE_STATUS) s))
| st_ev_unlock : l_pcs s !! t = Some EvUnlock → page_evict_step t s (move t EvUnclaim (clear_fl TP_WRITELOCKED s))
| st_ev_unclaim : l_pcs s !! t = Some EvUnclaim → page_evict_step t s (move t Undo (clear_fl TP_CLAIMED s)).

(** [treepass_try_page_discard] from where it has the write lock. *)
Inductive page_discard_step (t : nat) (s : lock_state) : lock_state → Prop :=
| st_unmap : l_pcs s !! t = Some Writing → page_discard_step t s (move t (Unmapped false) (with_mapped false s))
| st_free : l_pcs s !! t = Some (Unmapped false) →
    page_discard_step t s (move t Freed (with_word (λ _, TP_FREE_STATUS) s))
| st_reset_pin : l_pcs s !! t = Some Freed → page_discard_step t s (move t Undo (with_pin 0 s)).

(** What needs no lock: [treepass_try_set_writeback], [treepass_write_callback],
    [treepass_finish_load], [treepass_set_clock], [treepass_unpin]. *)
Inductive page_other_step (s : lock_state) : lock_state → Prop :=
| st_io_start : l_io s = NoIO → Z.land (l_status s) TP_CLEANABLE_BASE_MASK = 0 →
    page_other_step s (with_io InFlight (set_fl TP_WRITEBACK s))
| st_io_clean : l_io s = InFlight → page_other_step s (with_io Cleaned (set_fl TP_CLEAN s))
| st_io_done : l_io s = Cleaned → page_other_step s (with_io NoIO (clear_fl TP_WRITEBACK s))
| st_loaded : flag s TP_LOADING = true → page_other_step s (clear_fl TP_LOADING s)
| st_set_clock v : 0 ≤ v → page_other_step s (with_word (λ st, status_set_clock st v) s)
| st_unpin : 0 < l_pin s → page_other_step s (with_pin (l_pin s - 1) s).

Inductive step (t : nat) (s s' : lock_state) : Prop :=
| step_read : page_read_step t s s' → step t s s'
| step_lock : page_lock_step t s s' → step t s s'
| step_evict : page_evict_step t s s' → step t s s'
| step_discard : page_discard_step t s s' → step t s s'
| step_other : page_other_step s s' → step t s s'.

Inductive reachable (s0 : lock_state) : lock_state → Prop :=
| reach_refl : reachable s0 s0
| reach_step t s s' : reachable s0 s → step t s s' → reachable s0 s'.

(** ** Counting threads *)
Definition holds (p : pc) : bool :=
  match p with Idle | EvCounter _ | EvStatus | EvRef | EvPin | EvRead | SawUnlocked _ => false | _ => true end.
Definition locks (p : pc) : bool :=
  match p with
  | Locking _ _ | Writing | EvWriting | EvRechecked | EvUnmapping | EvUnlock | Unmapped _ => true
  | _ => false
  end.
Definition claims (p : pc) : bool :=
  match p with Claimed | EvClaimed | EvLoaded | EvUnclaim => true | _ => locks p end.
(** The read lock is held, or will be without a further test of the flags. *)
Definition committed (p : pc) : bool :=
  match p with
  | Access | AccessAdd | Granted _ | Waiting | Checking | Reading | Claimed | EvClaimed | EvLoaded | EvUnclaim => true
  | _ => false
  end.
(** The stripes below this one have been seen empty. *)
Definition scanned (p : pc) : Z :=
  match p with
  | Locking _ k => k
  | Writing | EvWriting | EvRechecked | EvUnmapping | EvUnlock | Unmapped _ => TP_RC_WIDTH
  | _ => -1
  end.
(** The address, or for an eviction the status, has been checked. *)
Definition verified (p : pc) : bool :=
  match p with
  | Waiting | Reading | Claimed | Locking false _ | Writing | EvRechecked | EvUnmapping => true
  | _ => false
  end.
(** The write lock is held, to use the page or to drop it. *)
Definition writes (p : pc) : bool := locks p && (scanned p =? TP_RC_WIDTH).

Fixpoint count_from (i : nat) (P : nat → pc → bool) (l : list pc) : Z :=
  match l with
  | [] => 0
  | p :: l => Z.b2z (P i p) + count_from (S i) P l
  end.
Definition count (P : nat → pc → bool) (l : list pc) : Z := count_from 0 P l.

Lemma count_from_insert i P l t p q :
  l !! t = Some p →
  count_from i P (<[t := q]> l) = count_from i P l - Z.b2z (P (i + t)%nat p) + Z.b2z (P (i + t)%nat q).
Proof.
  revert i t. induction l as [|x l IH]; intros i [|t] Ht; simplify_eq/=.
  - rewrite Nat.add_0_r. lia.
  - rewrite (IH (S i) t) by done. replace (S i + t)%nat with (i + S t)%nat by lia. lia.
Qed.
Lemma count_from_range i P l : 0 ≤ count_from i P l ≤ Z.of_nat (length l).
Proof.
  revert i. induction l as [|x l IH]; intros i; simpl; [lia|].
  pose proof (IH (S i)). destruct (P i x); simpl; lia.
Qed.
Lemma count_from_lower i P l t p :
  l !! t = Some p → P (i + t)%nat p = true → 1 ≤ count_from i P l.
Proof.
  revert i t. induction l as [|x l IH]; intros i [|t] Ht HP; simplify_eq/=.
  - rewrite Nat.add_0_r in HP. rewrite HP. pose proof (count_from_range (S i) P l). simpl. lia.
  - replace (i + S t)%nat with (S i + t)%nat in HP by lia. pose proof (IH (S i) t Ht HP).
    destruct (P i x); simpl; lia.
Qed.
Lemma count_from_two i P l t t' p p' :
  t ≠ t' → l !! t = Some p → l !! t' = Some p' → P (i + t)%nat p = true → P (i + t')%nat p' = true →
  2 ≤ count_from i P l.
Proof.
  revert i t t'. induction l as [|x l IH]; intros i [|t] [|t'] Hne Ht Ht' HP HP'; simplify_eq/=.
  - rewrite Nat.add_0_r in HP. rewrite HP. pose proof (count_from_lower (S i) P l t' p' Ht') as Hl.
    replace (S i + t')%nat with (i + S t')%nat in Hl by lia. specialize (Hl HP'). simpl. lia.
  - rewrite Nat.add_0_r in HP'. rewrite HP'. pose proof (count_from_lower (S i) P l t p Ht) as Hl.
    replace (S i + t)%nat with (i + S t)%nat in Hl by lia. specialize (Hl HP). simpl. lia.
  - replace (i + S t)%nat with (S i + t)%nat in * by lia.
    replace (i + S t')%nat with (S i + t')%nat in * by lia.
    assert (2 ≤ count_from (S i) P l) by (by apply (IH (S i) t t'); [congruence|..]).
    destruct (P i x); simpl; lia.
Qed.

Lemma count_insert P l t p q :
  l !! t = Some p → count P (<[t := q]> l) = count P l - Z.b2z (P t p) + Z.b2z (P t q).
Proof. apply count_from_insert. Qed.
Lemma count_lower P l t p : l !! t = Some p → P t p = true → 1 ≤ count P l.
Proof. intros. by apply (count_from_lower 0 P l t p). Qed.
Lemma count_two P l t t' p p' :
  t ≠ t' → l !! t = Some p → l !! t' = Some p' → P t p = true → P t' p' = true → 2 ≤ count P l.
Proof. intros. by apply (count_from_two 0 P l t t' p p'). Qed.
Lemma count_none P l : (∀ t p, l !! t = Some p → P t p = false) → count P l = 0.
Proof.
  unfold count. assert (∀ i, (∀ t p, l !! t = Some p → P (i + t)%nat p = false) →
    count_from i P l = 0) as Hg; [|intros Hf; apply (Hg 0%nat); intros t p; simpl; apply Hf].
  induction l as [|x l IH]; intros i Hf; simpl; [done|].
  rewrite (IH (S i)).
  - specialize (Hf 0%nat x eq_refl). rewrite Nat.add_0_r in Hf. by rewrite Hf.
  - intros t p Ht. specialize (Hf (S t) p Ht). by replace (S i + t)%nat with (i + S t)%nat by lia.
Qed.

(** The references in stripe [k]. *)
Definition in_stripe (k : Z) (t : nat) (p : pc) : bool := (stripe_of t =? k) && holds p.

(** A page in place that nobody has claimed, with readers and evictions under way. *)
Record residency_start (s : lock_state) : Prop := {
  rs_range : 0 ≤ l_status s < 2 ^ 32;
  rs_flags : Z.land (l_status s) (Z.lor TP_FREE (Z.lor TP_WRITEBACK (Z.lor TP_WRITELOCKED TP_CLAIMED))) = 0;
  rs_threads : Z.of_nat (length (l_pcs s)) ≤ MAX_THREADS;
  rs_pcs : ∀ t p, l_pcs s !! t = Some p → claims p = false;
  rs_refs : ∀ k, 0 ≤ k < TP_RC_WIDTH → l_refs s !! Z.to_nat k =
    Some (count (in_stripe k) (l_pcs s));
  rs_mapped : l_mapped s = true;
  rs_io : l_io s = NoIO;
}.
(** A mapped page nobody uses. *)
Definition lock_init (status : Z) (threads : nat) : lock_state :=
  mk_lock status [0; 0; 0; 0] 0 true (replicate threads Idle) NoIO.

(** ** Flags after an atomic update *)
Definition flags : list Z := [TP_FREE; TP_CLEAN; TP_WRITEBACK; TP_LOADING; TP_WRITELOCKED; TP_CLAIMED].
(** The flags are the low six bits; the counter, which a race can carry into the bits
    above it, does not touch them. *)
Lemma flags_small f : existsb (Z.eqb f) flags = true → 0 ≤ f < 64.
Proof. intros (g & Hg & ->%Z.eqb_eq)%existsb_exists. repeat (destruct Hg as [<-|Hg]; [done|]). done. Qed.
Lemma has_flag_low st f : existsb (Z.eqb f) flags = true → has_flag (Z.land st 63) f = has_flag st f.
Proof.
  intros (g & Hg & ->%Z.eqb_eq)%existsb_exists. unfold has_flag, status_test_flag. do 2 f_equal.
  rewrite (Z.land_comm st), Z.land_assoc. f_equal. repeat (destruct Hg as [<-|Hg]; [done|]). done.
Qed.
Lemma low_wf st : status_wf (Z.land st 63).
Proof.
  change 63 with (Z.ones 6). rewrite Z.land_ones by lia. pose proof (Z.mod_pos_bound st (2 ^ 6)). unfold status_wf. lia.
Qed.
Lemma low_eq st st' g : existsb (Z.eqb g) flags = true → Z.land st 63 = Z.land st' 63 → has_flag st g = has_flag st' g.
Proof. intros Hg H. by rewrite <-(has_flag_low st), <-(has_flag_low st'), H. Qed.
Lemma add_clock_low st d : Z.land (u32 (st + 64 * d)) 63 = Z.land st 63.
Proof.
  change 63 with (Z.ones 6). rewrite !Z.land_ones by lia. unfold u32. rewrite Z.mod_mod_divide by (by exists (2 ^ 26)).
  change (2 ^ 6) with 64. by rewrite Z.mul_comm, Z_mod_plus_full.
Qed.
Lemma set_clock_low st v : Z.land (status_set_clock st v) 63 = Z.land st 63.
Proof.
  unfold status_set_clock. set (c := if _ <? v then _ else v). rewrite Z.land_lor_distr_l, <-Z.land_assoc.
  change (Z.land (u32 (Z.lnot TP_CLOCK_MASK)) 63) with 63. change 63 with (Z.ones 6). rewrite (Z.land_ones (Z.shiftl c _)) by lia.
  change TP_CLOCK_SHIFT with 6. rewrite (Z.shiftl_mul_pow2 c), Z.mod_mul by lia. apply Z.lor_0_r.
Qed.
Lemma flag_updates st f g :
  0 ≤ st < 2 ^ 32 → existsb (Z.eqb f) flags = true → existsb (Z.eqb g) flags = true →
  0 ≤ status_set_flag st f < 2 ^ 32 ∧ 0 ≤ status_clear_flag st f < 2 ^ 32 ∧
  has_flag (status_set_flag st f) g = (f =? g) || has_flag st g ∧
  has_flag (status_clear_flag st f) g = negb (f =? g) && has_flag st g.
Proof.
  intros Hst Hf Hg. pose proof (flags_small f Hf) as Hr.
  split; [by apply (update_hi (USet f))|]. split; [by apply (update_hi (UClear f))|].
  rewrite <-(has_flag_low st g Hg).
  assert (E1 : has_flag (status_set_flag st f) g = has_flag (status_set_flag (Z.land st 63) f) g).
  { apply low_eq; [done|]. unfold status_set_flag. by rewrite !Z.land_lor_distr_l, <-Z.land_assoc. }
  assert (E2 : has_flag (status_clear_flag st f) g = has_flag (status_clear_flag (Z.land st 63) f) g).
  { apply low_eq; [done|]. unfold status_clear_flag. rewrite <-!Z.land_assoc. f_equal. by rewrite (Z.land_comm _ 63), Z.land_assoc. }
  rewrite E1, E2. generalize (Z.land st 63), (low_wf st). intros x Hx.
  assert (forallb (λ f, forallb (λ g,
    Bool.eqb (has_flag (status_set_flag x f) g) ((f =? g) || has_flag x g)
    && Bool.eqb (has_flag (status_clear_flag x f) g) (negb (f =? g) && has_flag x g)) flags) flags = true)
    as Hb by status_eval Hx.
  apply existsb_exists in Hf as (f' & Hf & ->%Z.eqb_eq).
  apply existsb_exists in Hg as (g' & Hg & ->%Z.eqb_eq).
  rewrite forallb_forall in Hb. specialize (Hb f' Hf). rewrite forallb_forall in Hb. specialize (Hb g' Hg).
  rewrite andb_true_iff in Hb. by destruct Hb as (?%eqb_prop & ?%eqb_prop).
Qed.
Lemma cleanable_mask st : Z.land st TP_CLEANABLE_BASE_MASK = 0 → has_flag st TP_WRITELOCKED = false.
Proof.
  intros Hm. rewrite <-has_flag_low by done. change TP_CLEANABLE_BASE_MASK with 63 in Hm. by rewrite Hm.
Qed.

(** ** The invariant *)
Record lock_inv (s : lock_state) : Prop := {
  li_range : 0 ≤ l_status s < 2 ^ 32;
  li_threads : Z.of_nat (length (l_pcs s)) ≤ MAX_THREADS;
  li_refs : ∀ k, 0 ≤ k < TP_RC_WIDTH →
    l_refs s !! Z.to_nat k = Some (count (in_stripe k) (l_pcs s));
  li_claim : count (λ _, claims) (l_pcs s) = Z.b2z (flag s TP_CLAIMED);
  li_lock : count (λ _, locks) (l_pcs s) = Z.b2z (flag s TP_WRITELOCKED);
  li_free : flag s TP_FREE = true → l_mapped s = false;
  li_gone : l_mapped s = false → flag s TP_FREE = true ∨ ∃ (t : nat) ev, l_pcs s !! t = Some (Unmapped ev);
  li_unmapped : ∀ t ev, l_pcs s !! t = Some (Unmapped ev) → l_mapped s = false;
  li_verified : ∀ t p, l_pcs s !! t = Some p → verified p = true → l_mapped s = true;
  li_excl : ∀ w t p q, w ≠ t → l_pcs s !! w = Some p → l_pcs s !! t = Some q →
    locks p = true → committed q = true → scanned p ≤ stripe_of t;
  li_io : flag s TP_WRITEBACK = true ↔ l_io s ≠ NoIO;
  li_wb : ∀ w p, l_pcs s !! w = Some p → locks p = true → 0 ≤ scanned p →
    flag s TP_WRITEBACK = false;
  li_clean : ∀ t p, l_pcs s !! t = Some p → p = EvRechecked ∨ p = EvUnmapping → flag s TP_CLEAN = true;
  li_pin : ∀ t, l_pcs s !! t = Some EvUnmapping → l_pin s = 0;
}.

Lemma stripe_range t : 0 ≤ stripe_of t < TP_RC_WIDTH.
Proof. by apply Z.mod_pos_bound. Qed.

(** A lock holder is unique, and so is a claim holder. *)
Lemma lock_unique s w t p q :
  lock_inv s → l_pcs s !! w = Some p → l_pcs s !! t = Some q → locks p = true → locks q = true → w = t.
Proof.
  intros HI Hw Ht Hp Hq. destruct (decide (w = t)); [done|].
  pose proof (count_two (λ _, locks) _ w t p q n Hw Ht Hp Hq) as Hc.
  rewrite (li_lock _ HI) in Hc. destruct (flag s TP_WRITELOCKED); simpl in Hc; lia.
Qed.
Lemma claim_unique s w t p q :
  lock_inv s → l_pcs s !! w = Some p → l_pcs s !! t = Some q → claims p = true → claims q = true → w = t.
Proof.
  intros HI Hw Ht Hp Hq. destruct (decide (w = t)); [done|].
  pose proof (count_two (λ _, claims) _ w t p q n Hw Ht Hp Hq) as Hc.
  rewrite (li_claim _ HI) in Hc. destruct (flag s TP_CLAIMED); simpl in Hc; lia.
Qed.
Lemma locked_flag s t p :
  lock_inv s → l_pcs s !! t = Some p → locks p = true → flag s TP_WRITELOCKED = true.
Proof.
  intros HI Ht Hp. pose proof (count_lower (λ _, locks) _ t p Ht Hp) as Hc.
  rewrite (li_lock _ HI) in Hc. destruct (flag s TP_WRITELOCKED); [done|]. simpl in Hc. lia.
Qed.
Lemma claimed_flag s t p :
  lock_inv s → l_pcs s !! t = Some p → claims p = true → flag s TP_CLAIMED = true.
Proof.
  intros HI Ht Hp. pose proof (count_lower (λ _, claims) _ t p Ht Hp) as Hc.
  rewrite (li_claim _ HI) in Hc. destruct (flag s TP_CLAIMED); [done|]. simpl in Hc. lia.
Qed.
(** A scan that finds a stripe free of other readers. *)
Lemma not_busy s w t k q r p :
  lock_inv s → l_pcs s !! w = Some p → holds p = true → w ≠ t → l_pcs s !! t = Some q → stripe_of t = k →
  l_refs s !! Z.to_nat k = Some r → busy w k r = false → holds q = false.
Proof.
  intros HI Hw Hp Hne Ht Hk Hr Hb. destruct (holds q) eqn:Hq; [|done]. exfalso.
  rewrite (li_refs _ HI k) in Hr by (subst; apply stripe_range). injection Hr as <-.
  unfold busy in Hb. destruct (stripe_of w =? k) eqn:Ew.
  - pose proof (count_two (in_stripe k) _ w t p q Hne Hw Ht) as Hc. unfold in_stripe in Hc at 1 2.
    rewrite Ew, Hp, Hq, Hk, Z.eqb_refl in Hc. specialize (Hc eq_refl eq_refl). lia.
  - pose proof (count_lower (in_stripe k) _ t q Ht) as Hc. unfold in_stripe in Hc at 1.
    rewrite Hq, Hk, Z.eqb_refl in Hc. specialize (Hc eq_refl). lia.
Qed.

(** A step that moves thread [t] from [p] to [q] keeps the invariant when it
    keeps the books. *)
Lemma inv_move s t p q st refs n m io :
  lock_inv s → l_pcs s !! t = Some p → 0 ≤ st < 2 ^ 32 →
  (∀ k, 0 ≤ k < TP_RC_WIDTH → refs !! Z.to_nat k =
     Some (count (in_stripe k) (l_pcs s) - Z.b2z (in_stripe k t p) + Z.b2z (in_stripe k t q))) →
  Z.b2z (claims q) - Z.b2z (claims p) = Z.b2z (has_flag st TP_CLAIMED) - Z.b2z (flag s TP_CLAIMED) →
  Z.b2z (locks q) - Z.b2z (locks p)
    = Z.b2z (has_flag st TP_WRITELOCKED) - Z.b2z (flag s TP_WRITELOCKED) →
  (has_flag st TP_FREE = true → m = false) →
  (flag s TP_FREE = true → has_flag st TP_FREE = true) →
  (∀ ev, p = Unmapped ev → has_flag st TP_FREE = true) →
  (m = l_mapped s ∨ (m = false ∧ (∃ ev, q = Unmapped ev) ∧
     ∀ t' p', t' ≠ t → l_pcs s !! t' = Some p' → verified p' = false)) →
  (∀ ev, q = Unmapped ev → m = false) → (verified q = true → m = true) →
  (committed q = true → ∀ w p', w ≠ t → l_pcs s !! w = Some p' → locks p' = true →
     scanned p' ≤ stripe_of t) →
  (locks q = true → ∀ t' q', t' ≠ t → l_pcs s !! t' = Some q' → committed q' = true →
     scanned q ≤ stripe_of t') →
  (has_flag st TP_WRITEBACK = true ↔ io ≠ NoIO) →
  (has_flag st TP_WRITEBACK = true → flag s TP_WRITEBACK = true) →
  (locks q = true → 0 ≤ scanned q → has_flag st TP_WRITEBACK = false) →
  ((flag s TP_CLEAN = true → has_flag st TP_CLEAN = true) ∧ (l_pin s = 0 → n = 0) ∨ locks p = true) →
  (q = EvRechecked ∨ q = EvUnmapping → has_flag st TP_CLEAN = true) → (q = EvUnmapping → n = 0) →
  lock_inv (mk_lock st refs n m (<[t := q]> (l_pcs s)) io).
Proof.
  intros HI Ht Hwf Hrefs Hcl Hlk Hfr Hfk Hfu Hm Hun Hver Hcom Hloc Hio Hwb Hwq Hkp Hcn Hpn.
  assert (∀ t' p', <[t := q]> (l_pcs s) !! t' = Some p' →
    (t' = t ∧ p' = q) ∨ (t' ≠ t ∧ l_pcs s !! t' = Some p')) as Hlook.
  { intros t' p' H. destruct (decide (t' = t)) as [->|Hne].
    - rewrite list_lookup_insert_eq in H by (by eapply lookup_lt_Some). left. by simplify_eq.
    - rewrite list_lookup_insert_ne in H by done. by right. }
  assert (∀ t' p', t' ≠ t → l_pcs s !! t' = Some p' → locks p' = true →
    (flag s TP_CLEAN = true → has_flag st TP_CLEAN = true) ∧ (l_pin s = 0 → n = 0)) as Hkp'.
  { intros t' p' Hne Ht' Hl. destruct Hkp as [?|Hp]; [done|]. by destruct Hne; eapply (lock_unique s t' t). }
  constructor; unfold flag; simpl.
  - done.
  - rewrite length_insert. apply HI.
  - intros k Hk. rewrite (count_insert _ _ t p) by done. by apply Hrefs.
  - rewrite (count_insert _ _ t p) by done. rewrite (li_claim _ HI). lia.
  - rewrite (count_insert _ _ t p) by done. rewrite (li_lock _ HI). lia.
  - done.
  - intros ->. destruct Hm as [Hm|(_ & (ev & ->) & _)].
    + destruct (li_gone _ HI ltac:(done)) as [?|(t' & ev & Ht')]; [by left; apply Hfk|].
      destruct (decide (t' = t)) as [->|Hne]; [left; simplify_eq; by eapply Hfu|].
      right. exists t', ev. by rewrite list_lookup_insert_ne by done.
    + right. exists t, ev. apply list_lookup_insert_eq. by eapply lookup_lt_Some.
  - intros t' ev [[-> <-]|[Hne Ht']]%Hlook; [by eapply Hun|].
    pose proof (li_unmapped _ HI t' ev Ht'). destruct Hm as [->|[-> _]]; done.
  - intros t' p' [[-> ->]|[Hne Ht']]%Hlook Hv; [by apply Hver|].
    pose proof (li_verified _ HI t' p' Ht' Hv). destruct Hm as [->|(-> & _ & Hno)]; [done|].
    by rewrite (Hno t' p' Hne Ht') in Hv.
  - intros w t' p' q' Hne [[-> ->]|[Hw Hp']]%Hlook [[-> ->]|[Ht' Hq']]%Hlook Hl Hc; try done.
    + by eapply Hloc.
    + by eapply Hcom.
    + by eapply (li_excl _ HI w t').
  - done.
  - intros w p' [[-> ->]|[Hne Hw]]%Hlook Hl Hs; [by apply Hwq|].
    destruct (has_flag st TP_WRITEBACK) eqn:E; [|done].
    by rewrite <-(Hwb eq_refl), (li_wb _ HI w p' Hw Hl Hs).
  - intros t' p' [[-> ->]|[Hne Ht']]%Hlook Hp'; [by apply Hcn|].
    apply (Hkp' t' p' Hne Ht'); [by destruct Hp' as [-> | ->]|by eapply li_clean].
  - intros t' [[-> <-]|[Hne Ht']]%Hlook; [by apply Hpn|]. apply (Hkp' t' EvUnmapping Hne Ht'); [done|by eapply li_pin].
Qed.

(** A step that moves no thread. *)
Lemma inv_still s st n io :
  lock_inv s → 0 ≤ st < 2 ^ 32 →
  (∀ f, f = TP_CLAIMED ∨ f = TP_WRITELOCKED ∨ f = TP_FREE → has_flag st f = flag s f) →
  (has_flag st TP_WRITEBACK = true ↔ io ≠ NoIO) →
  (has_flag st TP_WRITEBACK = true → flag s TP_WRITEBACK = true ∨ flag s TP_WRITELOCKED = false) →
  (∀ t p, l_pcs s !! t = Some p → p = EvRechecked ∨ p = EvUnmapping →
     (flag s TP_CLEAN = true → has_flag st TP_CLEAN = true) ∧ (l_pin s = 0 → n = 0)) →
  lock_inv (mk_lock st (l_refs s) n (l_mapped s) (l_pcs s) io).
Proof.
  intros HI Hwf Hf Hio Hwb Hk. constructor; unfold flag; simpl; rewrite ?Hf by auto; try apply HI; try done.
  - intros w p Hw Hl Hs. destruct (has_flag st TP_WRITEBACK) eqn:E; [|done].
    destruct (Hwb eq_refl) as [Hy|Hn].
    + by rewrite <-Hy, (li_wb _ HI w p Hw Hl Hs).
    + by rewrite (locked_flag _ _ _ HI Hw Hl) in Hn.
  - intros t p Ht Hp. apply (Hk t p Ht Hp). by eapply li_clean.
  - intros t Ht. apply (Hk t EvUnmapping Ht); [by right|]. by eapply li_pin.
Qed.

Lemma refs_same s t p q :
  lock_inv s → holds p = holds q → ∀ k, 0 ≤ k < TP_RC_WIDTH →
  l_refs s !! Z.to_nat k =
  Some (count (in_stripe k) (l_pcs s) - Z.b2z (in_stripe k t p) + Z.b2z (in_stripe k t q)).
Proof.
  intros HI Hh k Hk. rewrite (li_refs _ HI k Hk). unfold in_stripe. rewrite Hh. f_equal. lia.
Qed.

Lemma refs_add s t p q d :
  lock_inv s → l_pcs s !! t = Some p → d = Z.b2z (holds q) - Z.b2z (holds p) →
  ∀ k, 0 ≤ k < TP_RC_WIDTH →
  alter (λ r, u16 (r + d)) (Z.to_nat (stripe_of t)) (l_refs s) !! Z.to_nat k =
  Some (count (in_stripe k) (l_pcs s) - Z.b2z (in_stripe k t p) + Z.b2z (in_stripe k t q)).
Proof.
  intros HI Ht Hd k Hk. pose proof (stripe_range t) as Hst. pose proof (li_threads _ HI) as Hlen.
  pose proof (count_from_range 0 (in_stripe k) (l_pcs s)) as Hc. fold (count (in_stripe k) (l_pcs s)) in Hc.
  unfold MAX_THREADS in Hlen.
  destruct (decide (stripe_of t = k)) as [<-|Hne].
  - rewrite list_lookup_alter_eq, (li_refs _ HI) by done. simpl. f_equal. unfold in_stripe.
    rewrite Z.eqb_refl. simpl andb.
    assert (holds p = true → 1 ≤ count (in_stripe (stripe_of t)) (l_pcs s)) as Hl.
    { intros Hp. apply (count_lower _ _ t p Ht). unfold in_stripe. by rewrite Z.eqb_refl, Hp. }
    unfold in_stripe in *. rewrite u16_small; destruct (holds p), (holds q); simpl in *; lia.
  - rewrite list_lookup_alter_ne by lia. rewrite (li_refs _ HI k Hk). unfold in_stripe.
    rewrite (proj2 (Z.eqb_neq _ _) Hne). simpl. f_equal. lia.
Qed.

(** Entering the scan finds nothing scanned yet. *)
Lemma committed_free s t : flag s TP_WRITELOCKED = false → lock_inv s →
  ∀ w p', w ≠ t → l_pcs s !! w = Some p' → locks p' = true → scanned p' ≤ stripe_of t.
Proof. intros Hf HI w p' _ Hw Hl. by rewrite (locked_flag _ _ _ HI Hw Hl) in Hf. Qed.

Ltac flags_now HI :=
  repeat match goal with
  | |- context [has_flag (status_set_flag ?st ?f) ?g] =>
      rewrite (proj1 (proj2 (proj2 (flag_updates st f g (li_range _ HI) eq_refl eq_refl))))
  | |- context [has_flag (status_clear_flag ?st ?f) ?g] =>
      rewrite (proj2 (proj2 (proj2 (flag_updates st f g (li_range _ HI) eq_refl eq_refl))))
  end.

Section steps.
Context (s : lock_state) (HI : lock_inv s) (t : nat).

(** Moves that change neither the word nor the address nor the pins. *)
Lemma inv_pc p q refs :
  l_pcs s !! t = Some p →
  (∀ k, 0 ≤ k < TP_RC_WIDTH → refs !! Z.to_nat k =
     Some (count (in_stripe k) (l_pcs s) - Z.b2z (in_stripe k t p) + Z.b2z (in_stripe k t q))) →
  claims q = claims p → locks q = locks p → (∀ ev, p ≠ Unmapped ev) → (∀ ev, q ≠ Unmapped ev) →
  (verified q = true → verified p = true ∨ l_mapped s = true) →
  (committed q = true → committed p = true ∨ flag s TP_WRITELOCKED = false) →
  (locks q = true → ∀ t' q', t' ≠ t → l_pcs s !! t' = Some q' → committed q' = true →
     scanned q ≤ stripe_of t') →
  (locks q = true → 0 ≤ scanned q → flag s TP_WRITEBACK = false) →
  (q = EvRechecked ∨ q = EvUnmapping → flag s TP_CLEAN = true) → (q = EvUnmapping → l_pin s = 0) →
  lock_inv (mk_lock (l_status s) refs (l_pin s) (l_mapped s) (<[t := q]> (l_pcs s)) (l_io s)).
Proof.
  intros Ht Hr Hc Hl Hup Hu Hv Hco Hs Hw Hcl Hpi. eapply inv_move; try done; try apply HI.
  - unfold flag. rewrite Hc. lia.
  - unfold flag. rewrite Hl. lia.
  - intros ev ->. by destruct (Hup ev).
  - by left.
  - intros ev ->. by destruct (Hu ev).
  - intros Hq. destruct (Hv Hq) as [Hp|?]; [|done]. by eapply (li_verified _ HI).
  - intros Hq w p' Hne Hw' Hl'. destruct (Hco Hq) as [Hp|Hf].
    + by eapply (li_excl _ HI w t p' p).
    + by eapply committed_free.
  - by left.
Qed.

Lemma range_set f : existsb (Z.eqb f) flags = true → 0 ≤ status_set_flag (l_status s) f < 2 ^ 32.
Proof. intros Hf. by apply (flag_updates _ f TP_FREE (li_range _ HI) Hf). Qed.
Lemma range_clear f : existsb (Z.eqb f) flags = true → 0 ≤ status_clear_flag (l_status s) f < 2 ^ 32.
Proof. intros Hf. by apply (flag_updates _ f TP_FREE (li_range _ HI) Hf). Qed.

(** A change of the counter. *)
Lemma inv_low st : 0 ≤ st < 2 ^ 32 → Z.land st 63 = Z.land (l_status s) 63 →
  lock_inv (with_word (λ _, st) s).
Proof.
  intros Hr He. assert (Hf : ∀ g, existsb (Z.eqb g) flags = true → has_flag st g = flag s g)
    by (intros g Hg; by apply low_eq).
  apply (inv_still s); try done.
  - intros f [->|[->| ->]]; by apply Hf.
  - rewrite Hf by done. apply HI.
  - rewrite Hf by done. by left.
  - intros _ _ _ _. by rewrite Hf.
Qed.
Lemma inv_clock d : lock_inv (add_clock (64 * d) s).
Proof. apply inv_low; [by apply Z.mod_pos_bound|apply add_clock_low]. Qed.

(** The scan of one stripe. *)
Lemma inv_scan ev k r q :
  l_pcs s !! t = Some (Locking ev k) → 0 ≤ k < TP_RC_WIDTH →
  l_refs s !! Z.to_nat k = Some r → busy t k r = false →
  q = (if k + 1 =? TP_RC_WIDTH then if ev then EvWriting else Writing else Locking ev (k + 1)) → lock_inv (move t q s).
Proof.
  intros Ht Hk Hr Hb Hq.
  assert (holds q = true ∧ claims q = true ∧ locks q = true ∧ committed q = false ∧ scanned q = k + 1 ∧ (∀ e, q ≠ Unmapped e) ∧
    (verified q = true → ev = false) ∧ q ≠ EvRechecked ∧ q ≠ EvUnmapping) as (Hh & Hc & Hl & Hco & Hsc & Hu & Hv & H1 & H2).
  { rewrite Hq. destruct (Z.eqb_spec (k + 1) TP_RC_WIDTH) as [E|E], ev; done. }
  apply (inv_pc (Locking ev k)); try done.
  - by apply refs_same.
  - intros Hvq. left. by rewrite (Hv Hvq).
  - by rewrite Hco.
  - intros _ t' q' Hne Ht' Hc'. rewrite Hsc.
    pose proof (li_excl _ HI t t' _ q' ltac:(done) Ht Ht' eq_refl Hc') as Hle. simpl in Hle.
    destruct (decide (stripe_of t' = k)) as [Hek|]; [|lia].
    assert (holds q' = false) as Hq' by (by eapply (not_busy s t t' k q' r)).
    by destruct q'.
  - intros _ _. by apply (li_wb _ HI t _ Ht); [|simpl; lia].
  - intros [?|?]; congruence.
Qed.

(** Giving the write lock back. *)
Lemma inv_unlock p q :
  l_pcs s !! t = Some p → locks p = true → (∀ ev, p ≠ Unmapped ev) →
  (q = Claimed ∧ verified p = true) ∨ q = EvUnclaim →
  lock_inv (move t q (clear_fl TP_WRITELOCKED s)).
Proof.
  intros Ht Hl Hu Hq. pose proof (locked_flag _ _ _ HI Ht Hl) as Hfl.
  assert (holds p = true ∧ claims p = true) as (Hh & Hc) by (by destruct p).
  assert (holds q = true ∧ claims q = true ∧ locks q = false ∧ (∀ ev, q ≠ Unmapped ev) ∧ q ≠ EvRechecked ∧ q ≠ EvUnmapping)
    as (Hhq & Hcq & Hlq & Huq & H1 & H2) by (by destruct Hq as [[-> _]| ->]).
  apply (inv_move s t p); try done; unfold flag in *; simpl; flags_now HI; simpl; try done.
  - by apply range_clear.
  - apply refs_same; [done|congruence].
  - rewrite Hc, Hcq. simpl. lia.
  - by rewrite Hl, Hlq, Hfl.
  - apply HI.
  - intros ev E; by destruct (Hu ev E).
  - by left.
  - intros ev E; by destruct (Huq ev E).
  - intros Hv. destruct Hq as [[-> Hp]| ->]; [by eapply (li_verified _ HI)|done].
  - intros _ w p' Hne Hw Hl'. by destruct Hne; eapply lock_unique.
  - by rewrite Hlq.
  - apply HI.
  - by rewrite Hlq.
  - by left.
  - intros [?|?]; congruence.
Qed.

(** An attempt to claim. *)
Lemma inv_claim p q q' :
  l_pcs s !! t = Some p → p = Reading ∧ q = Reading ∧ q' = Claimed ∨ p = Granted true ∧ q = Undo ∧ q' = EvClaimed →
  lock_inv (move t (if flag s TP_CLAIMED then q else q') (set_fl TP_CLAIMED s)).
Proof.
  intros Ht Hp. set (x := if flag s TP_CLAIMED then q else q').
  assert (holds p = true ∧ claims p = false ∧ locks p = false ∧ committed p = true ∧ (∀ ev, p ≠ Unmapped ev) ∧
    holds x = true ∧ claims x = negb (flag s TP_CLAIMED) ∧ locks x = false ∧ (∀ ev, x ≠ Unmapped ev) ∧ x ≠ EvRechecked ∧ x ≠ EvUnmapping ∧
    (verified x = true → verified p = true)) as (P1 & P2 & P3 & P4 & P5 & X1 & X2 & X3 & X4 & X5 & X6 & X7).
  { subst x. destruct (flag s TP_CLAIMED); by destruct Hp as [(-> & -> & ->)|(-> & -> & ->)]. }
  apply (inv_move s t p); try done; unfold flag in *; simpl; flags_now HI; simpl; try done.
  - by apply range_set.
  - apply refs_same; [done|congruence].
  - rewrite P2, X2. destruct (has_flag (l_status s) TP_CLAIMED); done.
  - rewrite P3, X3. lia.
  - apply HI.
  - intros ev E; by destruct (P5 ev E).
  - by left.
  - intros ev E; by destruct (X4 ev E).
  - intros Hv. by eapply (li_verified _ HI t p), X7.
  - intros _ w p' Hne Hw Hl. by eapply (li_excl _ HI w t p' p).
  - by rewrite X3.
  - apply HI.
  - by rewrite X3.
  - by left.
  - intros [?|?]; congruence.
Qed.
(** Giving the claim back. *)
Lemma inv_unclaim p q :
  l_pcs s !! t = Some p → p = Claimed ∧ q = Reading ∨ p = EvUnclaim ∧ q = Undo →
  lock_inv (move t q (clear_fl TP_CLAIMED s)).
Proof.
  intros Ht Hp.
  assert (holds p = true ∧ claims p = true ∧ locks p = false ∧ committed p = true ∧ (∀ ev, p ≠ Unmapped ev) ∧
    holds q = true ∧ claims q = false ∧ locks q = false ∧ (∀ ev, q ≠ Unmapped ev) ∧ q ≠ EvRechecked ∧ q ≠ EvUnmapping ∧
    (verified q = true → verified p = true)) as (P1 & P2 & P3 & P4 & P5 & X1 & X2 & X3 & X4 & X5 & X6 & X7)
    by (by destruct Hp as [[-> ->]|[-> ->]]).
  apply (inv_move s t p); try done; unfold flag in *; simpl; flags_now HI; simpl; try done.
  - by apply range_clear.
  - apply refs_same; [done|congruence].
  - rewrite P2, X2. by rewrite (claimed_flag _ _ _ HI Ht P2 : has_flag (l_status s) TP_CLAIMED = true).
  - rewrite P3, X3. lia.
  - apply HI.
  - intros ev E; by destruct (P5 ev E).
  - by left.
  - intros ev E; by destruct (X4 ev E).
  - intros Hv. by eapply (li_verified _ HI t p), X7.
  - intros _ w p' Hne Hw Hl. by eapply (li_excl _ HI w t p' p).
  - by rewrite X3.
  - apply HI.
  - by rewrite X3.
  - by left.
  - intros [?|?]; congruence.
Qed.
(** Announcing the write lock. *)
Lemma inv_lock p ev :
  l_pcs s !! t = Some p → p = Claimed ∧ ev = false ∨ p = EvLoaded ∧ ev = true →
  lock_inv (move t (Locking ev (-1)) (set_fl TP_WRITELOCKED s)).
Proof.
  intros Ht Hp.
  assert (holds p = true ∧ claims p = true ∧ locks p = false ∧ (∀ e, p ≠ Unmapped e) ∧ (ev = false → verified p = true))
    as (P1 & P2 & P3 & P4 & P5) by (by destruct Hp as [[-> ->]|[-> ->]]).
  assert (flag s TP_WRITELOCKED = false) as Hf.
  { destruct (flag s TP_WRITELOCKED) eqn:E; [|done]. exfalso.
    pose proof (li_lock _ HI) as Hc. rewrite E in Hc. simpl in Hc.
    assert (count (λ _, locks) (l_pcs s) = 0); [|lia]. apply count_none. intros w p' Hw.
    destruct (locks p') eqn:Hl; [|done]. assert (w = t) as ->; [|simplify_eq; congruence].
    eapply claim_unique; [done|done|done| |done]. by destruct p'. }
  apply (inv_move s t p); try done; unfold flag in *; simpl; flags_now HI; simpl; try done.
  - by apply range_set.
  - by apply refs_same.
  - rewrite P2. simpl. lia.
  - by rewrite P3, Hf.
  - apply HI.
  - intros e E; by destruct (P4 e E).
  - by left.
  - destruct ev; [done|]. intros _. by eapply (li_verified _ HI t p), P5.
  - intros _ t' q' _ _ _. pose proof (stripe_range t'). lia.
  - apply HI.
  - by left.
  - intros [?|?]; congruence.
Qed.
(** Unmapping a page that is being dropped. *)
Lemma inv_unmap p ev :
  l_pcs s !! t = Some p → p = Writing ∨ p = EvUnmapping → lock_inv (move t (Unmapped ev) (with_mapped false s)).
Proof.
  intros Ht Hp.
  assert (holds p = true ∧ claims p = true ∧ locks p = true ∧ scanned p = TP_RC_WIDTH ∧ (∀ e, p ≠ Unmapped e))
    as (P1 & P2 & P3 & P4 & P5) by (by destruct Hp as [-> | ->]).
  apply (inv_move s t p); try done; try apply HI; unfold flag; simpl.
  - by apply refs_same.
  - rewrite P2. simpl. lia.
  - rewrite P3. simpl. lia.
  - intros e E; by destruct (P5 e E).
  - right. split; [done|]. split; [by exists ev|]. intros t' p' Hne Ht'. destruct (verified p') eqn:Hv; [|done]. exfalso.
    destruct (locks p') eqn:Hl; [by destruct Hne; eapply lock_unique|].
    assert (committed p' = true) as Hc by (by destruct p').
    pose proof (li_excl _ HI t t' p p' ltac:(done) Ht Ht' P3 Hc) as Hle.
    pose proof (stripe_range t'). rewrite P4 in Hle. lia.
  - intros _ t' q' Hne Ht' Hc. rewrite <-P4. by apply (li_excl _ HI t t' p q').
  - intros _ _. apply (li_wb _ HI t p); [done..|]. by rewrite P4.
  - by left.
  - intros [?|?]; congruence.
Qed.
(** Freeing its entry. *)
Lemma inv_free ev q :
  l_pcs s !! t = Some (Unmapped ev) → q = Freed ∨ q = Undo →
  lock_inv (move t q (with_word (λ _, TP_FREE_STATUS) s)).
Proof.
  intros Ht Hq.
  pose proof (locked_flag _ _ _ HI Ht eq_refl) as Hf1. pose proof (claimed_flag _ _ _ HI Ht eq_refl) as Hf2.
  assert (l_io s = NoIO) as Hno.
  { pose proof (li_wb _ HI t _ Ht eq_refl ltac:(done)) as Hw. pose proof (li_io _ HI) as Hi.
    destruct (l_io s); [done|..]; rewrite (proj2 Hi) in Hw; done. }
  destruct Hq as [-> | ->]; (apply (inv_move s t (Unmapped ev)); try done; simpl; try (by rewrite ?Hf1, ?Hf2);
    [by apply refs_same|intros _; by eapply (li_unmapped _ HI)|by left|by right|by intros [?|?]]).
Qed.
End steps.

(** ** The steps *)
(** A move by [inv_pc] where the two places differ in nothing that matters. *)
Ltac quiet := try done; try (by apply refs_same); try (by apply refs_add); try (by left); try (intros [?|?]; congruence); try congruence.
Ltac pc_move Ht := eapply (inv_pc _ ltac:(eassumption) _ _ _ _ Ht); quiet.

Lemma page_read_inv t s s' : lock_inv s → page_read_step t s s' → lock_inv s'.
Proof.
  intros HI [Ht Hf|ev Ht|ev Ht|ev free Ht|Ht|Ht|Ht|Ht|Ht|Ht Hf|Ht Hf|Ht|Ht].
  - pc_move Ht.
  - pc_move Ht.
  - pc_move Ht.
  - destruct (negb free && negb (flag s TP_WRITELOCKED)) eqn:E; [|pc_move Ht].
    apply andb_true_iff in E as [_ E%negb_true_iff]. destruct ev; pc_move Ht; intros _; by right.
  - destruct (_ <? _); pc_move Ht.
  - change TP_CLOCK_ONE with (64 * 1). pose proof (inv_clock s HI 1) as HI'.
    apply (inv_pc _ HI' t AccessAdd (Granted false)); quiet.
  - pc_move Ht.
  - destruct (l_mapped s) eqn:E; pc_move Ht; by right.
  - pc_move Ht.
  - pc_move Ht.
  - pc_move Ht.
  - destruct (l_mapped s) eqn:E; pc_move Ht; by right.
  - pc_move Ht.
Qed.
Lemma page_lock_inv t s s' : lock_inv s → page_lock_step t s s' → lock_inv s'.
Proof.
  intros HI [Ht|Ht|Ht|ev Ht Hf|ev k r Ht Hk Hr Hb|Ht Hf|k r Ht Hk Hr Hb|Ht|Ht|Ht].
  - eapply inv_claim; eauto.
  - eapply inv_unclaim; eauto.
  - eapply inv_lock; eauto.
  - pc_move Ht.
    intros _ t' q' _ _ _. simpl. pose proof (stripe_range t'). lia.
  - by eapply inv_scan.
  - eapply (inv_unlock s HI t (Locking true (-1))); auto.
  - eapply (inv_unlock s HI t (Locking true k)); auto.
  - apply (inv_still s); unfold flag; simpl; flags_now HI; simpl; try done.
    + by apply range_clear.
    + intros f [->|[->| ->]]; by flags_now HI.
    + apply HI.
    + by left.
    + intros t' p Ht' Hp. exfalso. assert (t' = t) as ->; [|destruct Hp; congruence].
      eapply (lock_unique s t' t); [done..| |done]. by destruct Hp as [-> | ->].
  - apply (inv_still s); try done; try apply HI.
    + by left.
    + intros t' p Ht' Hp. exfalso. assert (t' = t) as ->; [|destruct Hp; congruence].
      eapply (lock_unique s t' t); [done..| |done]. by destruct Hp as [-> | ->].
  - eapply (inv_unlock s HI t Writing); auto.
Qed.
Lemma locked_evictable_clean s : l_status s = TP_LOCKED_EVICTABLE_STATUS → flag s TP_FREE = false ∧ flag s TP_CLEAN = true.
Proof. unfold flag. by intros ->. Qed.
Lemma page_evict_inv t s s' : lock_inv s → page_evict_step t s s' → lock_inv s'.
Proof.
  intros HI [Ht|c Ht Hc|Ht|Ht|Ht|r Ht Hr|Ht|Ht|Ht|Ht|Ht|Ht|Ht|Ht|Ht|Ht|Ht].
  - pc_move Ht.
  - change (- TP_CLOCK_ONE) with (64 * -1). pose proof (inv_clock s HI (-1)) as HI'.
    apply (inv_pc _ HI' t (EvCounter c) Idle); quiet.
  - pc_move Ht.
  - pc_move Ht.
  - destruct (_ =? _); pc_move Ht.
  - destruct (_ =? _); pc_move Ht.
  - destruct (_ =? _); pc_move Ht.
  - destruct (flag _ _); pc_move Ht.
  - eapply (inv_claim s HI t (Granted true) Undo EvClaimed); auto.
  - destruct (flag _ _); pc_move Ht.
  - eapply inv_lock; eauto.
  - assert (Hloc : ∀ t' q', t' ≠ t → l_pcs s !! t' = Some q' → committed q' = true → TP_RC_WIDTH ≤ stripe_of t')
      by (intros t' q' Hne Ht' Hc; by apply (li_excl _ HI t t' EvWriting q')).
    assert (Hwb : flag s TP_WRITEBACK = false) by by apply (li_wb _ HI t EvWriting).
    destruct (Z.eqb_spec (l_status s) TP_LOCKED_EVICTABLE_STATUS) as [E|_]; [|pc_move Ht].
    apply locked_evictable_clean in E as [Hf Hcl]. pc_move Ht. right. destruct (l_mapped s) eqn:Em; [done|]. exfalso.
    destruct (li_gone _ HI Em) as [?|(t' & ev & Ht')]; [congruence|].
    assert (t' = t) as -> by by eapply (lock_unique s t' t). congruence.
  - assert (Hloc : ∀ t' q', t' ≠ t → l_pcs s !! t' = Some q' → committed q' = true → TP_RC_WIDTH ≤ stripe_of t')
      by (intros t' q' Hne Ht' Hc; by apply (li_excl _ HI t t' EvRechecked q')).
    assert (Hwb : flag s TP_WRITEBACK = false) by by apply (li_wb _ HI t EvRechecked).
    destruct (Z.eqb_spec (l_pin s) 0) as [E|_]; pc_move Ht. intros _. eapply (li_clean _ HI t); [done|by left].
  - eapply inv_unmap; eauto.
  - eapply inv_free; eauto.
  - eapply (inv_unlock s HI t EvUnlock); auto.
  - eapply inv_unclaim; eauto.
Qed.
Lemma page_discard_inv t s s' : lock_inv s → page_discard_step t s s' → lock_inv s'.
Proof.
  intros HI [Ht|Ht|Ht].
  - eapply inv_unmap; eauto.
  - eapply inv_free; eauto.
  - apply (inv_move s t Freed); try done; try apply HI; unfold flag; simpl; try lia; quiet.
Qed.
Lemma page_other_inv s s' : lock_inv s → page_other_step s s' → lock_inv s'.
Proof.
  intros HI [Hio Hm|Hio|Hio|Hf|v Hv|Hp].
  - assert (flag s TP_WRITELOCKED = false) as Hwl by by apply cleanable_mask.
    apply (inv_still s); unfold flag; simpl; flags_now HI; simpl; try done; try (by intros; auto).
    + by apply range_set.
    + intros f [->|[->| ->]]; by flags_now HI.
  - apply (inv_still s); unfold flag; simpl; flags_now HI; simpl; try done.
    + by apply range_set.
    + intros f [->|[->| ->]]; by flags_now HI.
    + rewrite (li_io _ HI : has_flag (l_status s) TP_WRITEBACK = true ↔ _), Hio. done.
    + by left.
  - apply (inv_still s); unfold flag; simpl; flags_now HI; simpl; try done.
    + by apply range_clear.
    + intros f [->|[->| ->]]; by flags_now HI.
  - apply (inv_still s); unfold flag; simpl; flags_now HI; simpl; try done.
    + by apply range_clear.
    + intros f [->|[->| ->]]; by flags_now HI.
    + apply HI.
    + by left.
  - change (lock_inv (with_word (λ _, status_set_clock (l_status s) v) s)). apply inv_low; [done|by apply (update_hi (USetClock v)), HI|apply set_clock_low].
  - apply (inv_still s); try done; try apply HI; [by left|]. intros t p _ _. split; [done|lia].
Qed.
Lemma step_inv t s s' : lock_inv s → step t s s' → lock_inv s'.
Proof.
  intros HI [H|H|H|H|H].
  - by eapply page_read_inv.
  - by eapply page_lock_inv.
  - by eapply page_evict_inv.
  - by eapply page_discard_inv.
  - by eapply page_other_inv.
Qed.

Lemma start_inv s : residency_start s → lock_inv s.
Proof.
  intros [Hr Hm Hn Hp Hrefs Hmap Hio].
  assert (∀ f, f = TP_FREE ∨ f = TP_WRITEBACK ∨ f = TP_WRITELOCKED ∨ f = TP_CLAIMED → flag s f = false) as Hf.
  { assert (Hb : ∀ f, Z.land f 53 = f → flag s f = false).
    { change (Z.lor TP_FREE _) with 53 in Hm. intros f E. unfold flag, has_flag, status_test_flag. by rewrite <-E, <-Z.land_assoc, (Z.land_comm 53), Hm, Z.land_0_r. }
    intros f [->|[->|[->| ->]]]; by apply Hb. }
  assert (Hnl : ∀ t p, l_pcs s !! t = Some p → locks p = false) by (intros t p Ht%Hp; by destruct p).
  constructor; rewrite ?Hf by auto; try done.
  - by rewrite count_none.
  - by rewrite count_none.
  - by rewrite Hmap.
  - by intros t ev Ht%Hnl.
  - intros w t p q _ Hw%Hnl _. by rewrite Hw.
  - intros t p Ht%Hnl. by intros [-> | ->].
  - by intros t Ht%Hnl.
Qed.
Lemma reachable_inv s0 s : residency_start s0 → reachable s0 s → lock_inv s.
Proof. intros H0 Hr. induction Hr as [|t s s' _ IH Hs]; [by apply start_inv|by eapply step_inv]. Qed.
Lemma lock_init_start st n : 0 ≤ st < 2 ^ 32 →
  Z.land st (Z.lor TP_FREE (Z.lor TP_WRITEBACK (Z.lor TP_WRITELOCKED TP_CLAIMED))) = 0 →
  Z.of_nat n ≤ MAX_THREADS → residency_start (lock_init st n).
Proof.
  intros Hr Hm Hn. assert (Hi : ∀ t p, replicate n Idle !! t = Some p → p = Idle) by (by intros t p [-> _]%lookup_replicate).
  split; try done; unfold lock_init; simpl.
  - by rewrite length_replicate.
  - by intros t p ->%Hi.
  - intros k Hk. rewrite count_none by (intros t p ->%Hi; unfold in_stripe; by rewrite andb_false_r).
    unfold TP_RC_WIDTH in Hk. assert (k = 0 ∨ k = 1 ∨ k = 2 ∨ k = 3) as Hc4 by lia.
    by destruct Hc4 as [->|[->|[->| ->]]].
Qed.

(** A thread that holds the write lock. *)
Lemma writes_locks p : writes p = true → locks p = true ∧ scanned p = TP_RC_WIDTH ∧ claims p = true ∧ holds p = true.
Proof. unfold writes. intros [Hl Hs%Z.eqb_eq]%andb_true_iff. split_and!; [done..| |]; by destruct p. Qed.
Lemma writes_excludes s w t p q : lock_inv s → w ≠ t → l_pcs s !! w = Some p → l_pcs s !! t = Some q → writes p = true →
  committed q = false ∧ claims q = false.
Proof.
  intros HI Hne Hw Ht (Hl & Hs & Hcl & _)%writes_locks. split.
  - destruct (committed q) eqn:E; [|done]. pose proof (stripe_range t).
    pose proof (li_excl _ HI w t p q Hne Hw Ht Hl E). lia.
  - destruct (claims q) eqn:E; [|done]. by destruct Hne; eapply claim_unique.
Qed.
Lemma verified_mapped s t p : lock_inv s → l_pcs s !! t = Some p → verified p = true → l_mapped s = true ∧ flag s TP_FREE = false.
Proof.
  intros HI Ht Hp. pose proof (li_verified _ HI t p Ht Hp) as Hmap. split; [done|].
  destruct (flag s TP_FREE) eqn:E; [|done]. by rewrite (li_free _ HI E) in Hmap.
Qed.
