(* ===== verification/TreePassTheorems.v ===== *)
(** * The cache: main theorems

    The properties of treepass.c the development establishes, each with a
    concrete instance. *)
From Stdlib Require Import SpecFloat.
From S2P Require Import Prelude Allocator TreePassStatus TreePassState TreePass TreePassInv TreePassWriteback.
From S2P Require Import TreePassGet TreePassSync TreePassSpec TreePassEvict TreePassLocks.

(** ** A small cache for the instances: 64 entries over a device of 8 pages, 4 to
    an extent *)
Module Demo.
Definition io : io_config := mk_io_config 4096 16384.
Definition al : allocator_config := allocator_config_init io 32768.
Definition cfg : treepass_config := treepass_config_init io (64 * 4096) false.
Definition disk : gmap Z page_data := {[ 0 := [7; 7]; 4096 := [8; 8] ]}.
#[export] Instance pf : platform :=
  mk_platform (λ k, 1000 * Z.of_nat k + 5000) (λ _ _, true)
    (λ q, match q with [] => None | _ => Some O end) 200.
Definition th : thread := mk_thread 3 77.
Definition start : option treepass := treepass_init cfg al disk 1000.
Definition empty : treepass :=
  mk_treepass cfg al [] [] [] [] 0 0 [] 0 0 0 0 0 0 0 [] (λ _ _ _, 0) ∅ [] ∅ O.
(** The state after a sequence of operations, from initialisation. *)
Fixpoint run_script (l : list (thread * op)) (s : treepass) : option treepass :=
  match l with
  | [] => Some s
  | (th, o) :: l => match run_op th o s with Ret (_, s') => run_script l s' | _ => None end
  end.

Lemma init_is_ok : init_ok cfg al.
Proof. unfold init_ok. vm_compute. repeat split; discriminate. Qed.

(** Allocate page 3 as a branch page, write it, release it, flush, evict
    everything, and read it back. *)
Definition script : list (thread * op * result) :=
  [(th, OpAlloc 3 PAGE_TYPE_BRANCH, RNone)].
Definition release : list (thread * op * result) :=
  [(th, OpUnlock 0, RNone); (th, OpUnclaim 0, RNone); (th, OpUnget 0, RNone);
   (th, OpFlush, RNone); (th, OpEvictAll false, RNone)].
(** The state after the write and the first [k] operations of [release]. *)
Definition state_after (k : nat) : treepass :=
  default empty (s ← start; run_script (((λ x, x.1) <$> script)
    ++ [(th, OpWrite 3 0 [1; 2; 3])] ++ take k ((λ x, x.1) <$> release)) s).

(** Prove the invariant of a state by running the script to it. *)
Ltac run_to k :=
  destruct start as [s|] eqn:Hs; [|discriminate Hs];
  destruct (init_Inv _ _ _ _ _ init_is_ok Hs) as [HI _];
  assert (exec s (script ++ [(th, OpWrite 3 0 [1; 2; 3], RNone)] ++ take k release) (state_after k)) as He;
  [ vm_compute in Hs; injection Hs as <-; unfold state_after; vm_compute default;
    cbn [app script release take];
    repeat (eapply exec_cons;
      [ first [exact I | vm_compute; reflexivity | (eexists; split_and!; vm_compute; reflexivity)]
      | vm_compute; reflexivity | ]); apply exec_nil
  | destruct (exec_refines _ _ _ _ _ HI He) as (v & _ & HI');
    assert (tp_cfg (state_after k) = tp_cfg s) as ->
      by (vm_compute in Hs; injection Hs as <-; vm_compute; reflexivity);
    exists v; exact HI' ].

(** Page 3 is cached in entry 0, unreferenced, its counter at 1: dirty, then clean. *)
Definition dirty : treepass := state_after 3.
Definition cached : treepass := state_after 4.
Lemma dirty_Inv : ∃ v, Inv (idle (tp_cfg dirty)) v dirty.
Proof. unfold dirty. run_to 3%nat. Qed.
Lemma cached_Inv : ∃ v, Inv (idle (tp_cfg cached)) v cached.
Proof. unfold cached. run_to 4%nat. Qed.
Lemma cached_counters : counters_ok cached.
Proof. split; vm_compute; reflexivity. Qed.
Lemma cached_waiters : ∀ m e, lookupZ (tp_entry cached) m = Some e → e_waiters e = [].
Proof.
  intros m e Hm. unfold lookupZ in Hm. case_bool_decide; [|done].
  assert (forallb (λ e, bool_decide (e_waiters e = [])) (tp_entry cached) = true) as Hb
    by (vm_compute; reflexivity).
  rewrite forallb_forall in Hb. apply list_elem_of_lookup_2, list_elem_of_In in Hm.
  specialize (Hb e Hm). by apply bool_decide_eq_true in Hb.
Qed.
End Demo.
#[local] Existing Instance Demo.pf.

(** The demo state after a program, as a value. *)
Ltac demo_step :=
  eapply exec_cons;
    [ first [exact I | vm_compute; reflexivity | (eexists; split_and!; vm_compute; reflexivity)]
    | vm_compute; reflexivity | ].

(** C1: The cache refines a flat memory of pages.  From initialisation, any
    sequence of client operations (get, alloc, writes to held pages, discard,
    sync, prefetch, flush, eviction, ...), each by any thread, has on the pages'
    contents just the effects the abstract memory allows: a get reads the value
    of the page, a write changes that page only, and replacement, write-back,
    prefetch and device completion change nothing. *)
Theorem cache_refines_memory `{platform} cfg al disk now s tr s' :
  init_ok cfg al → treepass_init cfg al disk now = Some s → exec s tr s' →
  ∃ v', spec_exec (tp_pages_per_extent (tp_cfg s)) (device_memory cfg disk) tr v' ∧
        Inv (idle (tp_cfg s)) v' s'.
Proof.
  intros Hok Hi He. destruct (init_Inv _ _ _ _ _ Hok Hi) as [HI _]. by eapply exec_refines.
Qed.

Lemma cache_refines_memory_witness :
  ∃ s s' v', treepass_init Demo.cfg Demo.al Demo.disk 1000 = Some s ∧
    spec_exec 4 (device_memory Demo.cfg Demo.disk)
      (Demo.script ++ [(Demo.th, OpWrite 3 0 [1; 2; 3], RNone)] ++ Demo.release) v' ∧
    Inv (idle (tp_cfg s)) v' s'.
Proof.
  destruct (treepass_init Demo.cfg Demo.al Demo.disk 1000) as [s|] eqn:Hs; [|discriminate Hs].
  assert (∃ s', exec s (Demo.script ++ [(Demo.th, OpWrite 3 0 [1; 2; 3], RNone)] ++ Demo.release) s')
    as [s' He].
  { vm_compute in Hs. injection Hs as <-. eexists. cbn [app Demo.script Demo.release].
    do 7 demo_step. apply exec_nil. }
  assert (tp_pages_per_extent (tp_cfg s) = 4) as Hk by (vm_compute in Hs; by injection Hs as <-).
  destruct (cache_refines_memory _ _ _ _ _ _ _ Demo.init_is_ok Hs He) as (v' & Hv & HI).
  rewrite Hk in Hv. exists s, s', v'. done.
Defined.

(** C15: Reads return the last write.  When a client writes [d] to page [i] and
    no later operation of the execution writes, allocates or discards that page,
    a later get of the page that succeeds reads [d], whatever was evicted, written
    back, prefetched or flushed in between. *)
Theorem read_returns_last_write `{platform} cfg al disk now s tr1 t n i d r tr2 t' b ty w d' s' :
  init_ok cfg al → treepass_init cfg al disk now = Some s →
  exec s (tr1 ++ (t, OpWrite i n d, r) :: tr2 ++ [(t', OpGet i b ty w, RData d')]) s' →
  Forall (λ x, touches (tp_pages_per_extent (tp_cfg s)) x.1.2 i = false) tr2 →
  d' = d.
Proof.
  intros Hok Hi He Ht. destruct (init_Inv _ _ _ _ _ Hok Hi) as [HI _].
  destruct (exec_refines _ _ _ _ _ HI He) as (v' & Hs & _).
  apply spec_exec_app in Hs as (v1 & _ & Hs). inversion Hs as [|? ? ? ? v2 ? ? Hw Hs']; subst.
  simpl in Hw. destruct Hw as [Hw _].
  apply spec_exec_app in Hs' as (v3 & H3 & Hs'). inversion Hs' as [|? ? ? ? ? ? ? Hg _]; subst.
  simpl in Hg. destruct Hg as [Hg _]. rewrite (Hg d' eq_refl). by eapply spec_exec_untouched.
Qed.

Lemma read_returns_last_write_witness :
  ∃ d', d' = [1; 2; 3] ∧ ∃ s s', treepass_init Demo.cfg Demo.al Demo.disk 1000 = Some s ∧
  exec s (Demo.script ++ (Demo.th, OpWrite 3 0 [1; 2; 3], RNone) :: Demo.release
    ++ [(Demo.th, OpGet 3 true PAGE_TYPE_BRANCH true, RData d')]) s'.
Proof.
  destruct (treepass_init Demo.cfg Demo.al Demo.disk 1000) as [s|] eqn:Hs; [|discriminate Hs].
  assert (∃ s', exec s (Demo.script ++ (Demo.th, OpWrite 3 0 [1; 2; 3], RNone) :: Demo.release
    ++ [(Demo.th, OpGet 3 true PAGE_TYPE_BRANCH true, RData [1; 2; 3])]) s') as [s' He].
  { vm_compute in Hs. injection Hs as <-. eexists. cbn [app Demo.script Demo.release].
    do 8 demo_step. apply exec_nil. }
  exists [1; 2; 3]. split.
  - eapply (read_returns_last_write _ _ _ _ _ _ _ _ _ _ _ _ _ _ _ _ _ _ Demo.init_is_ok Hs He).
    vm_compute in Hs. injection Hs as <-. repeat constructor.
  - exists s, s'. done.
Defined.

(** C16: One eviction attempt.  [treepass_try_evict] always returns; it evicts
    exactly when the pass does not skip the page (the CLOCK pass skips a page
    whose counter is not zero, the early-eviction pass any page that is not an
    unstamped branch page), the page is clean and carries no other flag, and
    neither a pin nor a reference of any stripe is held.  An evicted page is
    unmapped and its entry free; otherwise nothing changes but, in the CLOCK
    pass, the counter, which loses one. *)
Theorem try_evict_decides `{platform} open th s n e ee_pass :
  cache_inv open s → counters_ok s → 0 ≤ tid th →
  lookupZ (tp_entry s) n = Some e → e_waiters e = [] →
  ∃ b s', treepass_try_evict th n ee_pass s = Ret (b, s') ∧
    (b = true ↔ evict_skip e ee_pass = false ∧ e_status e = TP_EVICTABLE_STATUS ∧
       pins s n = 0 ∧ ∀ i, 0 ≤ i < TP_RC_WIDTH → stripe s n i = 0) ∧
    (b = true → lookupZ (tp_entry s') n = Some (freed_entry e) ∧
       ∃ i, lookupZ (tp_lookup s) i = Some n ∧ lookupZ (tp_lookup s') i = Some TP_UNMAPPED_ENTRY) ∧
    (b = false → s' = s ∨ (ee_pass = false ∧
       s' = set_entry n (with_status (status_try_dec_clock (e_status e)).2 e) s)).
Proof.
  intros HI Hco Hth He Hw. pose proof (try_evict_run th s n e HI Hco Hth He ee_pass Hw) as Hr.
  exists (evict_result s n e ee_pass).1, (evict_result s n e ee_pass).2.
  rewrite Hr. split; [by destruct (evict_result s n e ee_pass)|].
  unfold evict_result. destruct (evict_skip e ee_pass) eqn:Hs.
  { cbn [fst snd]. split_and!; [split; [done|by intros (? & _)]|done|].
    intros _. destruct ee_pass; [by left|by right]. }
  assert (evictable s n e = true ↔ e_status e = TP_EVICTABLE_STATUS ∧ pins s n = 0 ∧
    ∀ i, 0 ≤ i < TP_RC_WIDTH → stripe s n i = 0) as Hev.
  { unfold evictable, unreferenced. rewrite !andb_true_iff, !Z.eqb_eq, forallb_forall.
    unfold TP_RC_WIDTH. split.
    - intros [[? ?] Hall]. split_and!; [done|done|]. intros i Hi. apply Z.eqb_eq, Hall. simpl. lia.
    - intros (? & ? & Hall). split_and!; [done|done|]. intros i Hi. apply Z.eqb_eq, Hall.
      simpl in Hi. lia. }
  destruct (evictable s n e) eqn:E; cbn [fst snd]; split_and!; try done.
  - split; [|done]. intros _. split; [done|]. by apply Hev.
  - intros _. split; [by rewrite (lookup_set_entry _ _ (set_page _ _ s) _ e), decide_True|].
    assert (is_free e = false) as Hf.
    { unfold is_free. rewrite (proj1 (proj1 Hev eq_refl)). done. }
    destruct (homed_page _ _ _ _ HI He Hf) as (i & Hi & _ & Hidx & _). exists i.
    rewrite Hidx. split; [done|]. simpl. apply lookupZ_insertZ_eq. by eapply lookupZ_Some.
  - split; [done|]. intros (_ & Hx). by apply Hev in Hx.
  - by left.
Qed.

Lemma try_evict_decides_witness :
  ∃ b s', treepass_try_evict Demo.th 0 true Demo.cached = Ret (b, s') ∧ b = false ∧ s' = Demo.cached.
Proof.
  destruct Demo.cached_Inv as [v [HI _]].
  destruct (try_evict_decides _ Demo.th Demo.cached 0
    (default empty_entry (lookupZ (tp_entry Demo.cached) 0)) true HI Demo.cached_counters
    ltac:(vm_compute; discriminate) ltac:(vm_compute; reflexivity) ltac:(vm_compute; reflexivity))
    as (b & s' & Hr & Hb & _ & Hf).
  assert (b = false) as ->.
  { destruct b; [|done]. destruct (proj1 Hb eq_refl) as (Hs & _). vm_compute in Hs. discriminate. }
  exists false, s'. split_and!; [done|done|]. destruct (Hf eq_refl) as [?|[? _]]; done.
Defined.

(** C17: [treepass_evict_all] empties the cache of what can leave it, when no thread
    waits for a load and the batches cover the entries.  Asked to respect references
    ([ignore_pinned_pages] false) it first checks that nobody holds a reference to any
    entry, and the check fails if somebody does.  Otherwise it returns, and then every
    entry whose page was clean with no other flag, unpinned and unreferenced is free,
    whatever its counter was; every other entry keeps its page, its data and its flags,
    with its counter at zero. *)
Theorem evict_all_sweeps `{platform} open v th ignore_pinned_pages s :
  Inv open v s → counters_ok s → 0 ≤ tid th →
  (∀ m e, lookupZ (tp_entry s) m = Some e → e_waiters e = []) →
  tp_batch_capacity (tp_cfg s) * TP_ENTRIES_PER_BATCH = tp_page_capacity (tp_cfg s) →
  if ignore_pinned_pages || all_unreferenced s then
    ∃ s', treepass_evict_all th ignore_pinned_pages s = Ret (0, s') ∧ Inv open v s' ∧
    ∀ n e, lookupZ (tp_entry s) n = Some e →
      lookupZ (tp_entry s') n =
      Some (if (Z.land (e_status e) TP_CLEANABLE_BASE_MASK =? TP_CLEAN)
               && ((pins s n =? 0) && unreferenced s n)
            then freed_entry e else with_status (status_set_clock (e_status e) 0) e)
  else treepass_evict_all th ignore_pinned_pages s = Assert.
Proof.
  intros HI Hco Hth Hw Hcap. destruct (ignore_pinned_pages || all_unreferenced s) eqn:E.
  - by apply (evict_all_swept th Hth open v s Hco (inv_entry_len _ (proj1 HI)) Hw Hcap ignore_pinned_pages HI).
  - by apply (evict_all_stops th open v s Hco ignore_pinned_pages HI).
Qed.

Lemma evict_all_sweeps_witness :
  ∃ s', treepass_evict_all Demo.th true Demo.cached = Ret (0, s') ∧
    is_free <$> lookupZ (tp_entry s') 0 = Some true.
Proof.
  destruct Demo.cached_Inv as [v HI].
  destruct (evict_all_sweeps _ v Demo.th true Demo.cached HI Demo.cached_counters
    ltac:(vm_compute; discriminate) Demo.cached_waiters ltac:(vm_compute; reflexivity))
    as (s' & Hr & _ & Hs').
  exists s'. split; [done|].
  rewrite (Hs' 0 (default empty_entry (lookupZ (tp_entry Demo.cached) 0)) ltac:(vm_compute; reflexivity)).
  vm_compute. reflexivity.
Defined.

(** The early-eviction pass.  [treepass_evict_batch_ee] always returns the
    number of pages it evicted; it evicts exactly the clean, unpinned,
    unreferenced branch pages of its batch that no lookup has stamped, and leaves
    every other entry of the cache as it was, counters included. *)
Theorem early_eviction_takes_cold_branches `{platform} open v th s b :
  Inv open v s → counters_ok s → 0 ≤ tid th →
  (∀ m e, lookupZ (tp_entry s) m = Some e → e_waiters e = []) →
  0 ≤ b → (b + 1) * TP_ENTRIES_PER_BATCH ≤ tp_page_capacity (tp_cfg s) →
  ∃ s', treepass_evict_batch_ee th b s = Ret (ee_count s (b * TP_ENTRIES_PER_BATCH) 64, s') ∧
    Inv open v s' ∧
    ∀ m e, lookupZ (tp_entry s) m = Some e →
      lookupZ (tp_entry s') m =
      Some (if bool_decide (b * TP_ENTRIES_PER_BATCH ≤ m < (b + 1) * TP_ENTRIES_PER_BATCH)
               && (bool_decide (e_type e = PAGE_TYPE_BRANCH) && (e_entry_time e =? 0)
                   && evictable s m e)
            then freed_entry e else e).
Proof.
  intros HI Hco Hth Hw Hb Hle. unfold TP_ENTRIES_PER_BATCH in *.
  destruct (evict_ee_from_run th Hth open v 64 (b * 64) 0 s HI Hco Hw) as (s' & Hr & HI' & Hs');
    [lia..|]. exists s'. unfold treepass_evict_batch_ee, TP_ENTRIES_PER_BATCH. change (Z.to_nat 64) with 64%nat. rewrite Hr.
  rewrite Z.add_0_l. split; [reflexivity|]. split; [exact HI'|]. intros m e He. rewrite (Hs' m e He). unfold ee_entry, ee_evicts.
  replace ((b + 1) * 64) with (b * 64 + Z.of_nat 64) by lia. by case_bool_decide.
Qed.

Lemma early_eviction_takes_cold_branches_witness :
  ∃ s', treepass_evict_batch_ee Demo.th 0 Demo.cached = Ret (ee_count Demo.cached 0 64, s') ∧
    ee_count Demo.cached 0 64 = 0.
Proof.
  destruct Demo.cached_Inv as [v HI].
  destruct (early_eviction_takes_cold_branches _ v Demo.th Demo.cached 0 HI Demo.cached_counters
    ltac:(vm_compute; discriminate) Demo.cached_waiters ltac:(vm_compute; discriminate)
    ltac:(vm_compute; discriminate)) as (s' & Hr & _).
  exists s'. split; [exact Hr|vm_compute; reflexivity].
Defined.


(** One more step of an execution of the lock. *)
Ltac fwd_by H k c :=
  eapply reach_step in H; [|eapply k, c; try reflexivity; try done]; vm_compute in H.
Ltac fwd H c :=
  first [fwd_by H step_read c | fwd_by H step_lock c | fwd_by H step_evict c | fwd_by H step_discard c | fwd_by H step_other c].
(** A thread reads, claims and write-locks the page. *)
Ltac write_locked H t :=
  fwd H (st_read_test t); fwd H (st_read_inc t); fwd H (st_read_free t); fwd H (st_read_lock t); fwd H (st_read_clock t);
  fwd H (st_read_access t); fwd H (st_check t); fwd H (st_wait t); fwd H (st_recheck t); fwd H (st_claim t); fwd H (st_lock t);
  fwd H (st_lock_wb t); do 4 fwd H (st_lock_scan t).




(** Thread 1 reads, and is between its two tests while thread 0 discards the page. *)
Lemma stale_read_grant : ∃ s, reachable (lock_init TP_CLEAN 2) s ∧ l_pcs s !! 1%nat = Some (Granted false) ∧
  flag s TP_FREE = true ∧ l_mapped s = false.
Proof.
  pose proof (reach_refl (lock_init TP_CLEAN 2)) as Hr.
  fwd Hr (st_read_test 1). write_locked Hr 0%nat. fwd Hr (st_read_inc 1). fwd Hr (st_read_free 1).
  fwd Hr (st_unmap 0). fwd Hr (st_free 0). fwd Hr (st_read_lock 1). fwd Hr (st_read_clock 1). fwd Hr (st_read_access 1).
  eexists. split; [exact Hr|]. done.
Qed.
(** The grant of a read lock alone does not mean the page is there:
    [treepass_try_get_read] tests TP_FREE and TP_WRITELOCKED in two loads, and a discard
    that finishes between them makes it return GET_RC_SUCCESS on an entry
    that has just been freed.  It is the comparison of the entry's address, which
    every reader makes next, that detects it. *)
Theorem read_grant_can_be_stale :
  ∃ s, reachable (lock_init TP_CLEAN 2) s ∧ l_pcs s !! 1%nat = Some (Granted false) ∧
    flag s TP_FREE = true ∧ l_mapped s = false ∧
    ∀ s', step 1 s s' → l_pcs s' !! 1%nat ≠ Some Waiting.
Proof.
  destruct stale_read_grant as (s & Hr & Hp & Hf & Hm). exists s. split_and!; [done..|]. intros s' Hs.
  destruct Hs as [Hs|Hs|Hs|Hs|Hs]; inversion Hs; subst; try congruence; simpl; try congruence;
    rewrite ?Hm, ?list_lookup_insert_eq by (by eapply lookup_lt_Some); done.
Qed.
(** An eviction does not compare the address: with such a grant it claims and write-locks
    the free entry, and lets go of it when it looks at the status again. *)
Theorem eviction_can_lock_free_entry :
  ∃ s, reachable (lock_init TP_CLEAN 2) s ∧ l_pcs s = [Idle; EvWriting] ∧
    flag s TP_FREE = true ∧ flag s TP_WRITELOCKED = true ∧ l_mapped s = false ∧
    ∀ s', step 1 s s' → l_pcs s' !! 1%nat ≠ Some EvRechecked.
Proof.
  assert (∃ s, reachable (lock_init TP_CLEAN 2) s ∧ l_pcs s = [Idle; EvWriting] ∧
    l_status s = 49 ∧ l_mapped s = false) as (s & Hr & Hp & Hs & Hm).
  { pose proof (reach_refl (lock_init TP_CLEAN 2)) as Hr.
    fwd Hr (st_ev_early 1). fwd Hr (st_ev_status 1). fwd Hr (st_ev_ref 1). fwd Hr (st_ev_pin 1). fwd Hr (st_ev_read 1).
    write_locked Hr 0%nat. fwd Hr (st_read_inc 1). fwd Hr (st_read_free 1).
    fwd Hr (st_unmap 0). fwd Hr (st_free 0). fwd Hr (st_read_lock 1). fwd Hr (st_reset_pin 0). fwd Hr (st_read_undo 0).
    fwd Hr (st_ev_claim 1). fwd Hr (st_ev_loading 1). fwd Hr (st_ev_lock 1). fwd Hr (st_lock_wb 1). do 4 fwd Hr (st_lock_scan 1).
    eexists. split; [exact Hr|]. done. }
  exists s. unfold flag. rewrite Hs. split_and!; [done..|]. intros s' Hst.
  destruct Hst as [Hst|Hst|Hst|Hst|Hst]; inversion Hst; subst; simpl in *; try (rewrite Hp in *; simplify_eq/=; try done).
  by rewrite Hs.
Qed.

(** What the cleaner writes.  A step of [treepass_batch_start_writeback] on
    entry [n] in pass [p] leaves the cache as it is or submits one request, and
    every page of the request was dirty, not locked, claimed, loading or already
    in writeback, with a counter of at most [p]: now writeback is its only flag. *)
Theorem writeback_takes_cold_dirty `{platform} open v th p n s s' :
  Inv open v s → start_writeback_entry th p n s = Ret (tt, s') →
  Inv open v s' ∧ (s' = s ∨ ∃ r, tp_pending s' = tp_pending s ++ [r] ∧
    ∀ m, m ∈ io_iovec r → ∃ e, lookupZ (tp_entry s') m = Some e ∧
      Z.land (e_status e) TP_CLEANABLE_BASE_MASK = TP_WRITEBACK ∧ status_get_clock (e_status e) ≤ p).
Proof. intros HI Hr. by apply (start_writeback_entry_spec th open v p n). Qed.

Lemma writeback_takes_cold_dirty_witness :
  ∃ s' r, start_writeback_entry Demo.th 1 0 Demo.dirty = Ret (tt, s') ∧ tp_pending s' = [r] ∧
    io_iovec r = [0] ∧ io_addr r = 3 * 4096.
Proof.
  destruct Demo.dirty_Inv as [v HI].
  assert (∃ s', start_writeback_entry Demo.th 1 0 Demo.dirty = Ret (tt, s') ∧
    ∃ r, tp_pending s' = [r] ∧ io_iovec r = [0] ∧ io_addr r = 3 * 4096) as (s' & Hr & r & Hq & Hv & Ha).
  { eexists. split; [vm_compute; reflexivity|]. eexists. split; [reflexivity|]. done. }
  destruct (writeback_takes_cold_dirty _ _ _ _ _ _ _ HI Hr) as [_ [Hs|_]].
  - exfalso. rewrite Hs in Hq. vm_compute in Hq. discriminate Hq.
  - exists s', r. split; [exact Hr|]. split; [exact Hq|]. split; [exact Hv|exact Ha].
Defined.

(** The counter protects a page.  A page whose counter is [c] survives [c]
    CLOCK passes, losing one each time, and the next pass evicts it when it is
    clean, unpinned and unreferenced. *)
Theorem clock_protects_page `{platform} open v th s n e k :
  Inv open v s → counters_ok s → 0 ≤ tid th →
  (∀ m e, lookupZ (tp_entry s) m = Some e → e_waiters e = []) →
  lookupZ (tp_entry s) n = Some e →
  ∃ s', mfor k 0 (λ _, _ ← treepass_try_evict th n false; mret tt) s = Ret (tt, s') ∧ Inv open v s' ∧
    (Z.of_nat k ≤ status_get_clock (e_status e) → ∃ st, lookupZ (tp_entry s') n = Some (with_status st e) ∧
       status_get_clock st = status_get_clock (e_status e) - Z.of_nat k ∧
       Z.land st TP_CLEANABLE_BASE_MASK = Z.land (e_status e) TP_CLEANABLE_BASE_MASK) ∧
    (status_get_clock (e_status e) < Z.of_nat k → Z.land (e_status e) TP_CLEANABLE_BASE_MASK = TP_CLEAN →
       pins s n = 0 → unreferenced s n = true → lookupZ (tp_entry s') n = Some (freed_entry e)).
Proof.
  intros HI Hco Hth Hw He. pose proof (inv_status _ (proj1 HI) _ _ He) as Hwf.
  pose proof (inv_entry_len _ (proj1 HI)) as Hlen.
  destruct (mfor_total (λ i t, swept open v s (λ m, if decide (m = n) then Z.to_nat i else 0%nat) t) k 0
    (λ _, _ ← treepass_try_evict th n false; mret tt) s) as (s' & Hr & HP).
  - intros i t Hi Ht. destruct (swept_step th Hth open v s _ t n Hco Hw Ht) as (t' & Hrt & Ht'); [|done|].
    { rewrite <-Hlen. by eapply lookupZ_Some. }
    exists t'. split; [done|]. eapply swept_ext; [|exact Ht']. intros m _. simpl.
    case_decide; [|done]. lia.
  - constructor; try done. intros m em Hm. by case_decide.
  - exists s'. pose proof (sw_entry _ _ _ _ _ HP n e He) as Hn. cbv beta in Hn. rewrite decide_True in Hn by done.
    rewrite Z.add_0_l, Nat2Z.id in Hn. split_and!; [done|apply HP| |].
    + intros Hk. destruct (clock_passes_dec (releasable s n) e k Hwf Hk) as (st & Hit & _ & Hc & _ & Hl).
      exists st. by rewrite Hn, Hit.
    + intros Hk Hm Hp Hu. rewrite Hn, clock_passes_all by done. unfold swept_entry, releasable.
      change TP_CLEANABLE_BASE_MASK with 63 in Hm. by rewrite Hm, Hp, Hu.
Qed.

Lemma clock_protects_page_witness :
  ∃ s', mfor 2 0 (λ _, _ ← treepass_try_evict Demo.th 0 false; mret tt) Demo.cached = Ret (tt, s') ∧
    is_free <$> lookupZ (tp_entry s') 0 = Some true.
Proof.
  destruct Demo.cached_Inv as [v HI].
  destruct (clock_protects_page _ v Demo.th Demo.cached 0
    (default empty_entry (lookupZ (tp_entry Demo.cached) 0)) 2 HI Demo.cached_counters
    ltac:(vm_compute; discriminate) Demo.cached_waiters ltac:(vm_compute; reflexivity))
    as (s' & Hr & _ & _ & He).
  exists s'. split; [done|]. rewrite He; vm_compute; reflexivity.
Defined.

(** C19: The reference counters do not collide.  For every entry and thread the
    striped counter index is inside the array the cache allocates, and two
    different entries, or two threads of different stripes, never share a
    counter. *)
Theorem ref_counters_disjoint cfg n m i j :
  cfg_ok cfg → 0 ≤ n < tp_page_capacity cfg → 0 ≤ m < tp_page_capacity cfg → 0 ≤ i → 0 ≤ j →
  0 ≤ ref_index cfg n i < tp_page_capacity cfg * TP_RC_WIDTH ∧
  (ref_index cfg n i = ref_index cfg m j ↔ n = m ∧ i `mod` TP_RC_WIDTH = j `mod` TP_RC_WIDTH).
Proof.
  intros Hc Hn Hm Hi Hj. split; [by apply ref_index_range|]. split; [by apply ref_index_inj|].
  intros [-> E]. unfold ref_index. by rewrite E.
Qed.

Lemma ref_counters_disjoint_witness :
  ref_index (tp_cfg Demo.cached) 5 3 ≠ ref_index (tp_cfg Demo.cached) 6 3.
Proof.
  destruct Demo.cached_Inv as [v [HI _]].
  destruct (ref_counters_disjoint (tp_cfg Demo.cached) 5 6 3 3 (inv_cfg _ HI)) as [_ Hd];
    [vm_compute; split; discriminate || reflexivity..|vm_compute; discriminate|vm_compute; discriminate|].
  intros [E _]%Hd. discriminate E.
Defined.

Lemma lookup_now s a m :
  lookupZ (tp_lookup s) (treepass_divide_by_page_size (tp_cfg s) a) = Some m →
  treepass_lookup a s = Ret (m, s).
Proof. intros Hm. unfold treepass_lookup. rewrite (bind_run _ _ _ _ _ eq_refl). by rewrite Hm. Qed.
Lemma set_clock_now s n e c :
  lookupZ (tp_entry s) n = Some e →
  treepass_set_clock n c s = Ret (tt, set_entry n (with_status (status_set_clock (e_status e) c) e) s).
Proof.
  intros He. unfold treepass_set_clock. rewrite (bind_run _ _ _ _ _ (get_status_now _ _ _ He)).
  by apply mod_entry_now.
Qed.

(** The counter a page inherits, as the code computes it. *)
Lemma inherited_value old divisor :
  0 ≤ old → 0 ≤ divisor →
  (let z := if 1 <? divisor then old / divisor else old in if z =? 0 then 1 else z)
  = Z.max 1 (old / Z.max 1 divisor).
Proof.
  intros Ho Hd. cbv zeta. destruct (1 <? divisor) eqn:E.
  - apply Z.ltb_lt in E. rewrite (Z.max_r 1 divisor) by lia.
    assert (0 ≤ old / divisor) by (apply Z.div_pos; lia).
    destruct (_ =? 0) eqn:E0; [apply Z.eqb_eq in E0|apply Z.eqb_neq in E0]; lia.
  - apply Z.ltb_ge in E. rewrite (Z.max_l 1 divisor), Z.div_1_r by lia.
    destruct (_ =? 0) eqn:E0; [apply Z.eqb_eq in E0|apply Z.eqb_neq in E0]; lia.
Qed.

(** Handing over a nonzero entry time. *)
Lemma inherit_entry_time s nn no e e1 eo :
  lookupZ (tp_entry s) nn = Some e → e_entry_time e1 = e_entry_time e →
  lookupZ (tp_entry s) no = Some eo →
  (old ← treepass_get_entry no;
   mwhen (negb (e_entry_time old =? 0)) (mod_entry nn (with_entry_time (e_entry_time old))))
    (set_entry nn e1 s) =
  Ret (tt, set_entry nn (with_entry_time
    (if e_entry_time eo =? 0 then e_entry_time e else e_entry_time eo) e1) s).
Proof.
  intros He Ht1 Heo.
  assert (∃ eo1, lookupZ (tp_entry (set_entry nn e1 s)) no = Some eo1 ∧
    e_entry_time eo1 = e_entry_time eo) as (eo1 & Heo1 & Ht).
  { rewrite (lookup_set_entry _ _ _ _ e) by done. case_decide; [|by exists eo].
    exists e1. split; [done|]. subst. by simplify_eq. }
  rewrite (bind_run _ _ _ _ _ (get_entry_now _ _ _ Heo1)), Ht.
  unfold mwhen. destruct (e_entry_time eo =? 0) eqn:E; cbn [negb].
  - unfold mret, M_ret. rewrite <-Ht1. by destruct e1.
  - rewrite (mod_entry_now _ nn e1), set_entry_twice; [done|].
    by rewrite (lookup_set_entry _ _ _ _ e), decide_True.
Qed.

(** Inheriting the counter.  When the page at the new address is cached,
    [treepass_inherit_clock] gives it the old page's counter divided by
    [divisor], at least 1 and at most TP_CLOCK_MAX (1 when the old page is not
    cached), hands over a nonzero entry time, and changes nothing else; so the new
    page survives at least one CLOCK pass. *)
Theorem inherit_clock_floors `{platform} open v s old_addr new_addr divisor no nn e :
  Inv open v s → 0 ≤ divisor →
  lookupZ (tp_lookup s) (treepass_divide_by_page_size (tp_cfg s) old_addr) = Some no →
  lookupZ (tp_lookup s) (treepass_divide_by_page_size (tp_cfg s) new_addr) = Some nn →
  nn ≠ TP_UNMAPPED_ENTRY → lookupZ (tp_entry s) nn = Some e →
  ∃ c t, treepass_inherit_clock old_addr new_addr divisor s =
      Ret (tt, set_entry nn (with_entry_time t (with_status (status_set_clock (e_status e) c) e)) s) ∧
    1 ≤ status_get_clock (status_set_clock (e_status e) c) ≤ TP_CLOCK_MAX ∧
    (no = TP_UNMAPPED_ENTRY → c = 1 ∧ t = e_entry_time e) ∧
    (∀ eo, lookupZ (tp_entry s) no = Some eo →
       c = Z.max 1 (status_get_clock (e_status eo) / Z.max 1 divisor) ∧
       t = if e_entry_time eo =? 0 then e_entry_time e else e_entry_time eo).
Proof.
  intros HI Hd Ho Hn Hne He. pose proof (inv_status _ (proj1 HI) _ _ He) as Hwf.
  assert (∀ c, 1 ≤ c → 1 ≤ status_get_clock (status_set_clock (e_status e) c) ≤ TP_CLOCK_MAX) as Hrange.
  { intros c Hc. destruct (set_clock_spec (e_status e) c Hwf) as (_ & -> & _); [lia|].
    change TP_CLOCK_MAX with 7. lia. }
  unfold treepass_inherit_clock. rewrite (bind_run _ _ _ _ _ (lookup_now _ _ _ Ho)).
  destruct (decide (no = TP_UNMAPPED_ENTRY)) as [->|Hno].
  - exists 1, (e_entry_time e). rewrite Z.eqb_refl. cbn [negb].
    rewrite (bind_run _ _ _ _ _ eq_refl), (bind_run _ _ _ _ _ (lookup_now _ _ _ Hn)).
    rewrite (proj2 (Z.eqb_neq _ _) Hne). rewrite (bind_run _ _ _ _ _ (set_clock_now _ _ _ 1 He)).
    split_and!; [|by apply Hrange|by apply Hrange|done|].
    + unfold mret, M_ret. by destruct e.
    + intros eo Heo. by destruct (entry_index_bound _ _ _ (proj1 HI) Heo).
  - destruct (inv_mapped _ (proj1 HI) _ _ Ho Hno) as (eo & Heo & _).
    pose proof (get_clock_range _ (inv_status _ (proj1 HI) _ _ Heo)) as Hco.
    set (c := Z.max 1 (status_get_clock (e_status eo) / Z.max 1 divisor)).
    exists c, (if e_entry_time eo =? 0 then e_entry_time e else e_entry_time eo).
    rewrite (proj2 (Z.eqb_neq _ _) Hno). cbn [negb].
    erewrite (bind_run (_ ≫= _)); cycle 1.
    { unfold treepass_get_clock. erewrite bind_run; [reflexivity|].
      by rewrite (bind_run _ _ _ _ _ (get_status_now _ _ _ Heo)). }
    pose proof (inherited_value (status_get_clock (e_status eo)) divisor (proj1 Hco) Hd) as Hv.
    cbv zeta in Hv. rewrite Hv. fold c.
    rewrite (bind_run _ _ _ _ _ (lookup_now _ _ _ Hn)), (proj2 (Z.eqb_neq _ _) Hne).
    rewrite (bind_run _ _ _ _ _ (set_clock_now _ _ _ c He)).
    split_and!; [|apply Hrange; lia|apply Hrange; lia|done|].
    + by apply inherit_entry_time.
    + intros eo' Heo'. by simplify_eq.
Qed.

Lemma inherit_clock_floors_witness :
  ∃ c t, treepass_inherit_clock 0 (3 * 4096) 2 Demo.cached =
    Ret (tt, set_entry 0 (with_entry_time t (with_status
      (status_set_clock (e_status (default empty_entry (lookupZ (tp_entry Demo.cached) 0))) c)
      (default empty_entry (lookupZ (tp_entry Demo.cached) 0)))) Demo.cached) ∧ c = 1.
Proof.
  destruct Demo.cached_Inv as [v HI].
  destruct (inherit_clock_floors _ v Demo.cached 0 (3 * 4096) 2 TP_UNMAPPED_ENTRY 0
    (default empty_entry (lookupZ (tp_entry Demo.cached) 0)) HI) as (c & t & Hr & _ & Hc & _);
    [vm_compute; discriminate|vm_compute; reflexivity|vm_compute; reflexivity|vm_compute; discriminate|
     vm_compute; reflexivity|].
  exists c, t. split; [done|]. by apply Hc.
Defined.

(** The eviction interval.  After a sweep of a batch the batch count advances
    by one (modulo 2^32), and the interval, the cycle and its time change only at
    the end of a full cycle that is newer than the last one recorded, with the
    clock past the last reading; then the cycle is recorded, and the interval
    becomes the capacity-based seed, never zero, when it was not ready, and the
    weighted average of the measured sweep time and the old interval otherwise. *)
Theorem evict_interval_updates `{platform} s s' :
  ei_update s = Ret (tt, s') → 0 < tp_ei_initial_per_gb_ns (tp_cfg s) →
  let batches := u32 (tp_evict_batches s + 1) in
  let cap := tp_batch_capacity (tp_cfg s) in
  tp_evict_batches s' = batches ∧
  ((tp_evict_interval s' = tp_evict_interval s ∧ tp_last_cycle_ts s' = tp_last_cycle_ts s ∧
    tp_last_ei_check_cycle s' = tp_last_ei_check_cycle s) ∨
   (batches `mod` cap = 0 ∧ tp_last_ei_check_cycle s < tp_last_ei_check_cycle s' ∧
    tp_last_ei_check_cycle s' = batches / cap ∧ tp_last_cycle_ts s < tp_last_cycle_ts s' ∧
    (tp_evict_interval s = EI_NOT_READY → tp_evict_interval s' ≠ EI_NOT_READY) ∧
    (tp_evict_interval s ≠ EI_NOT_READY →
       ewma (tp_ei_ewma_alpha (tp_cfg s))
         ((tp_last_cycle_ts s' - tp_last_cycle_ts s)
          / (tp_last_ei_check_cycle s' - tp_last_ei_check_cycle s))
         (tp_evict_interval s) = Some (tp_evict_interval s')))).
Proof.
  intros Hr Hgb batches cap. unfold ei_update in Hr.
  apply bind_Ret in Hr as (? & s1 & [-> _]%mod_Ret & Hr).
  apply bind_Ret in Hr as (cc & s1 & [-> ->]%get_Ret & Hr).
  set (t := set_evict_batches (λ b, u32 (b + 1)) s) in *.
  change (tp_evict_batches t) with batches in Hr. change (tp_cfg t) with (tp_cfg s) in Hr. fold cap in Hr.
  destruct (_ && _) eqn:E; cbn [negb] in Hr; [|inv_run; split; [done|by left]].
  apply andb_true_iff in E as [E%Z.eqb_eq _].
  unfold platform_get_timestamp in Hr.
  apply bind_Ret in Hr as (now & s1 & Hts & Hr). inv_run.
  destruct (_ <=? _) eqn:Ecy in Hr; [inv_run; split; [done|by left]|]. apply Z.leb_gt in Ecy.
  destruct (_ <=? _) eqn:Ets in Hr; [inv_run; split; [done|by left]|]. apply Z.leb_gt in Ets.
  apply bind_Ret in Hr as (ei & s2 & Hei & Hr). inv_run.
  change (tp_evict_interval t) with (tp_evict_interval s) in Hei.
  destruct (tp_evict_interval s =? EI_NOT_READY) eqn:Er.
  - apply Z.eqb_eq in Er. inv_run. split; [done|]. right.
    cbn [set_ei tp_evict_interval tp_last_cycle_ts tp_last_ei_check_cycle]. split_and!; try done.
    intros _. unfold EI_NOT_READY. case_match eqn:E0; [clear -Hgb; lia|exact (proj1 (Z.eqb_neq _ _) E0)].
  - apply Z.eqb_neq in Er. inv_run. split; [done|]. right.
    cbn [set_ei tp_evict_interval tp_last_cycle_ts tp_last_ei_check_cycle]. by split_and!.
Qed.

Lemma evict_interval_updates_witness :
  ∃ s s', ei_update s = Ret (tt, s') ∧ tp_evict_batches s' = 1 ∧ tp_evict_interval s' = 1000000000.
Proof.
  destruct (treepass_init Demo.cfg Demo.al Demo.disk 1000) as [s|] eqn:Hs; [|discriminate Hs].
  assert (∃ s', ei_update s = Ret (tt, s') ∧ tp_evict_interval s' = 1000000000) as (s' & Hr & Hi).
  { vm_compute in Hs. injection Hs as <-. eexists. split; vm_compute; reflexivity. }
  destruct (evict_interval_updates s s' Hr) as [Hb _];
    [vm_compute in Hs; injection Hs as <-; vm_compute; reflexivity|].
  exists s, s'. split; [done|]. split; [|done]. rewrite Hb. vm_compute in Hs. injection Hs as <-.
  vm_compute. reflexivity.
Defined.

(** The counter can overflow.  Two threads that both read a counter of
    TP_CLOCK_MAX - 1 in [treepass_set_clock_accessed] and then both add one leave
    a counter of zero and bit 9 of the status word set; no later update of the
    flags or the counter clears that bit, so the word never again equals the
    status an eviction requires. *)
Theorem clock_overflow_sticks st us :
  status_wf st → status_get_clock st = TP_CLOCK_MAX - 1 → Forall update_ok us →
  let raced := u32 (u32 (st + TP_CLOCK_ONE) + TP_CLOCK_ONE) in
  status_get_clock raced = 0 ∧
  foldl (λ w u, apply_update u w) raced us ≠ TP_EVICTABLE_STATUS.
Proof.
  intros Hst Hc Hus raced.
  assert (implb (status_get_clock st =? TP_CLOCK_MAX - 1)
    ((status_get_clock (u32 (u32 (st + TP_CLOCK_ONE) + TP_CLOCK_ONE)) =? 0)
     && (Z.shiftr (u32 (u32 (st + TP_CLOCK_ONE) + TP_CLOCK_ONE)) 9 =? 1)) = true) as Hb
    by status_eval Hst.
  rewrite Hc in Hb. cbn [implb] in Hb. rewrite Z.eqb_refl in Hb. simpl implb in Hb.
  apply andb_true_iff in Hb as [H0%Z.eqb_eq H1%Z.eqb_eq]. split; [done|]. intros E.
  pose proof (updates_hi us raced Hus (u32_range _)) as Hh. rewrite E in Hh.
  unfold raced in Hh. rewrite H1 in Hh. discriminate Hh.
Qed.

Lemma clock_overflow_sticks_witness :
  foldl (λ w u, apply_update u w)
    (u32 (u32 (Z.lor TP_CLEAN (Z.shiftl 6 TP_CLOCK_SHIFT) + TP_CLOCK_ONE) + TP_CLOCK_ONE))
    [UDec; USetClock 0; UClear TP_CLAIMED] ≠ TP_EVICTABLE_STATUS.
Proof.
  apply (clock_overflow_sticks (Z.lor TP_CLEAN (Z.shiftl 6 TP_CLOCK_SHIFT))).
  - done.
  - reflexivity.
  - repeat constructor; done.
Defined.

(** A non-blocking get of a page that is not cached returns a handle nobody
    wrote: [treepass_get_internal] reports that no retry is needed without
    storing to the caller's handle, and [treepass_get] returns it. *)
Theorem nonblocking_miss_uninitialized `{platform} th s addr type is_warm :
  lookupZ (tp_lookup s) (treepass_divide_by_page_size (tp_cfg s) addr) = Some TP_UNMAPPED_ENTRY →
  treepass_get th addr false type is_warm s = Ret (Uninitialized, s).
Proof.
  intros Hn. unfold treepass_get.
  assert (treepass_get_internal th addr false type is_warm s = Ret ((false, Uninitialized), s)) as Hi.
  { unfold treepass_get_internal. by rewrite (bind_run _ _ _ _ _ (lookup_now _ _ _ Hn)), Z.eqb_refl. }
  destruct retry_fuel; cbn [get_loop]; by rewrite (bind_run _ _ _ _ _ Hi).
Qed.

Lemma nonblocking_miss_uninitialized_witness :
  treepass_get Demo.th 0 false PAGE_TYPE_BRANCH false Demo.cached = Ret (Uninitialized, Demo.cached).
Proof. apply nonblocking_miss_uninitialized. vm_compute. reflexivity. Defined.

(** Discarding an extent.  When [treepass_extent_discard] returns, no page of
    the extent is cached any more, and every other page of the memory keeps its
    contents. *)
Theorem extent_discard_drops_extent `{platform} v th s i type s' :
  Inv (idle (tp_cfg s)) v s → extent_ok s i →
  treepass_extent_discard th (page_addr s i) type s = Ret (tt, s') →
  (∀ j, i ≤ j < i + tp_pages_per_extent (tp_cfg s) →
     lookupZ (tp_lookup s') j = Some TP_UNMAPPED_ENTRY) ∧
  (∀ j, ¬ (i ≤ j < i + tp_pages_per_extent (tp_cfg s)) → view s' j = view s j).
Proof.
  intros HI Hok Hr.
  destruct (extent_discard_spec th (idle (tp_cfg s)) v i type s s' HI) as
    (w & v' & HI' & _ & _ & _ & Hab & Hv'); [apply Hok|by eapply extent_in_device|apply Hok|done|].
  split.
  - intros j Hj. by apply (inv_absent _ (proj1 HI')), Hab.
  - intros j Hj. rewrite (proj2 HI'), (proj2 HI). by apply Hv'.
Qed.

Lemma extent_discard_drops_extent_witness :
  ∃ s', treepass_extent_discard Demo.th (page_addr Demo.cached 0) PAGE_TYPE_BRANCH Demo.cached
    = Ret (tt, s') ∧ lookupZ (tp_lookup s') 3 = Some TP_UNMAPPED_ENTRY ∧
    lookupZ (tp_lookup Demo.cached) 3 = Some 0.
Proof.
  destruct Demo.cached_Inv as [v HI].
  assert (∃ s', treepass_extent_discard Demo.th (page_addr Demo.cached 0) PAGE_TYPE_BRANCH Demo.cached
    = Ret (tt, s')) as [s' Hr] by (eexists; vm_compute; reflexivity).
  destruct (extent_discard_drops_extent v Demo.th Demo.cached 0 PAGE_TYPE_BRANCH s' HI) as [Hd _];
    [vm_compute; split_and!; discriminate|done|].
  exists s'. split; [done|]. split; [|vm_compute; reflexivity].
  apply Hd. vm_compute. split; [discriminate|reflexivity].
Defined.
