(* ===== verification/RcAllocator.v ===== *)
(** * The reference-count extent allocator

    rc_allocator.c: one 32-bit reference count per extent, a moving hand that
    looks for a free extent, the meta page with the super-block slots, and the
    device on which counts and meta page persist.  A count of 0 is a free
    extent, 1 an extent without references, and a fresh extent has 2. *)
From S2P Require Import Prelude Allocator.

Definition RC_ALLOCATOR_MAX_ROOT_IDS : Z := 30.
Definition INVALID_ALLOCATOR_ROOT_ID : Z := 0.
Definition SIZEOF_REFCOUNT : Z := 4.
(** The size of [rc_allocator_meta_page]: 30 ids and a 128-bit checksum. *)
Definition SIZEOF_META_PAGE : Z := RC_ALLOCATOR_MAX_ROOT_IDS * 8 + 16.
Definition LAIO_DEFAULT_PAGE_SIZE : Z := 4096.
Definition LAIO_DEFAULT_EXTENT_SIZE : Z := 32 * LAIO_DEFAULT_PAGE_SIZE.

Record rc_allocator_meta_page := mk_meta_page { splinters : list Z; checksum : Z }.

Record rc_allocator_stats := mk_rc_stats {
  curr_allocated : Z;
  max_allocated : Z;
  extent_allocs : page_type → Z;
  extent_deallocs : page_type → Z;
}.

(** What the allocator keeps on the device: its meta page at offset 0 and the
    reference counts, as words, from the second extent on. *)
Record rc_device := mk_rc_device { dev_meta : rc_allocator_meta_page; dev_refs : list Z }.

(** [ref_count] is the whole buffer: [extent_capacity] counts and the padding up
    to a multiple of the page size. *)
Record rc_allocator := mk_rc_allocator {
  rc_cfg : allocator_config;
  rc_ref_count : list Z;
  rc_hand : Z;
  rc_meta : rc_allocator_meta_page;
  rc_stats : rc_allocator_stats;
  rc_io : rc_device;
}.

Definition A := M rc_allocator.

Definition set_rc_refs f al := mk_rc_allocator (rc_cfg al) (f (rc_ref_count al)) (rc_hand al)
  (rc_meta al) (rc_stats al) (rc_io al).
Definition set_rc_hand f al := mk_rc_allocator (rc_cfg al) (rc_ref_count al) (f (rc_hand al))
  (rc_meta al) (rc_stats al) (rc_io al).
Definition set_rc_meta m al := mk_rc_allocator (rc_cfg al) (rc_ref_count al) (rc_hand al)
  m (rc_stats al) (rc_io al).
Definition set_rc_stats f al := mk_rc_allocator (rc_cfg al) (rc_ref_count al) (rc_hand al)
  (rc_meta al) (f (rc_stats al)) (rc_io al).
Definition set_rc_io f al := mk_rc_allocator (rc_cfg al) (rc_ref_count al) (rc_hand al)
  (rc_meta al) (rc_stats al) (f (rc_io al)).

Definition bump (f : page_type → Z) (type : page_type) : page_type → Z :=
  λ t, if decide (t = type) then i64 (f t + 1) else f t.

(** ** Configuration *)
Definition laio_config_valid (io : io_config) : platform_status :=
  if negb (page_size io =? LAIO_DEFAULT_PAGE_SIZE) then STATUS_BAD_PARAM
  else if negb (extent_size io =? LAIO_DEFAULT_EXTENT_SIZE) then STATUS_BAD_PARAM
  else STATUS_OK.

Definition rc_allocator_valid_config (cfg : allocator_config) : platform_status :=
  let rc := laio_config_valid (io_cfg cfg) in
  if negb (SUCCESS rc) then rc
  else if capacity cfg =? 0 then STATUS_BAD_PARAM
  else if extent_capacity cfg =? 0 then STATUS_BAD_PARAM
  else if negb (capacity cfg =? u64 (page_size (io_cfg cfg) * page_capacity cfg))
  then STATUS_BAD_PARAM
  else if negb (capacity cfg =? u64 (extent_size (io_cfg cfg) * extent_capacity cfg))
  then STATUS_BAD_PARAM
  else rc.

Definition rc_allocator_valid_extent_addr (al : rc_allocator) (base_addr : Z) : bool :=
  base_addr `mod` extent_size (io_cfg (rc_cfg al)) =? 0.
Definition rc_allocator_extent_number (al : rc_allocator) (addr : Z) : Z :=
  addr / extent_size (io_cfg (rc_cfg al)).

(** ** Reference counts *)
Definition rc_allocator_inc_ref (addr : Z) : A Z :=
  al ← mget;
  let extent_no := rc_allocator_extent_number al addr in
  r ← mopt (lookupZ (rc_ref_count al) extent_no);
  let ref_count := u32 (r + 1) in
  mmod (set_rc_refs (insertZ extent_no ref_count));;
  massert (negb (ref_count =? 1) && negb (ref_count =? 0));;
  mret ref_count.

Definition count_dealloc (type : page_type) (st : rc_allocator_stats) : rc_allocator_stats :=
  mk_rc_stats (i64 (curr_allocated st - 1)) (max_allocated st) (extent_allocs st)
    (bump (extent_deallocs st) type).
Definition rc_allocator_dec_ref (addr : Z) (type : page_type) : A Z :=
  al ← mget;
  let extent_no := rc_allocator_extent_number al addr in
  r ← mopt (lookupZ (rc_ref_count al) extent_no);
  let ref_count := u32 (r - 1) in
  mmod (set_rc_refs (insertZ extent_no ref_count));;
  massert (negb (ref_count =? u32 (-1)));;
  mwhen (ref_count =? 0)
    (massert (negb (bool_decide (type = PAGE_TYPE_INVALID)));;
     mmod (set_rc_stats (count_dealloc type)));;
  mret ref_count.

Definition rc_allocator_get_ref (addr : Z) : A Z :=
  al ← mget; mopt (lookupZ (rc_ref_count al) (rc_allocator_extent_number al addr)).

(** ** Allocation *)
(** The scan of [rc_allocator_alloc]: the extent it claimed, if any. *)
Fixpoint alloc_scan (fuel : nat) (first_hand : Z) : A (option Z) :=
  match fuel with
  | O => mfuel
  | S fuel' =>
      al ← mget;
      let cap := extent_capacity (rc_cfg al) in
      let hand := rc_hand al `mod` cap in
      mmod (set_rc_hand (λ h, u64 (h + 1)));;
      r ← mopt (lookupZ (rc_ref_count al) hand);
      if r =? 0 then mmod (set_rc_refs (insertZ hand 2));; mret (Some hand)
      else if (hand + 1) `mod` cap =? first_hand then mret None
      else alloc_scan fuel' first_hand
  end.

Definition count_alloc (type : page_type) (st : rc_allocator_stats) : rc_allocator_stats :=
  let curr := i64 (curr_allocated st + 1) in
  mk_rc_stats curr (if max_allocated st <? curr then curr else max_allocated st)
    (bump (extent_allocs st) type) (extent_deallocs st).

(** The status, and the address stored to [*addr] when it is STATUS_OK. *)
Definition rc_allocator_alloc (type : page_type) : A (platform_status * option Z) :=
  al ← mget;
  let cap := extent_capacity (rc_cfg al) in
  found ← alloc_scan (Z.to_nat cap) (rc_hand al `mod` cap);
  match found with
  | None => mret (STATUS_NO_SPACE, None)
  | Some hand =>
      mmod (set_rc_stats (count_alloc type));;
      mret (STATUS_OK, Some (u64 (hand * extent_size (io_cfg (rc_cfg al)))))
  end.

Definition rc_allocator_in_use (al : rc_allocator) : Z := curr_allocated (rc_stats al).
Definition rc_allocator_get_capacity (al : rc_allocator) : Z := capacity (rc_cfg al).

(** [allocator_page_valid] (allocator.h). *)
Definition allocator_page_valid (addr : Z) : A bool :=
  al ← mget;
  let cfg := rc_cfg al in
  if negb (addr `mod` page_size (io_cfg cfg) =? 0) then mret false else
  let base_addr := allocator_config_extent_base_addr cfg addr in
  if negb (base_addr =? 0) && (addr <? capacity cfg) then
    rfc ← rc_allocator_get_ref base_addr; mret (negb (rfc =? 0))
  else mret false.

Definition rc_allocator_assert_noleaks : A unit :=
  al ← mget;
  massert (forallb (λ type,
    bool_decide (type = PAGE_TYPE_LOG) || bool_decide (type = PAGE_TYPE_SUPERBLOCK)
    || (extent_allocs (rc_stats al) type =? extent_deallocs (rc_stats al) type)) all_page_types).

(** ** Super blocks, mounting *)
Section persistent.
(** [platform_checksum128] of the splinter ids, with its seed. *)
Context (platform_checksum128 : list Z → Z).

(** The first slot that holds [id]. *)
Fixpoint find_slot (id : Z) (idx : Z) (l : list Z) : option Z :=
  match l with
  | [] => None
  | x :: l' => if x =? id then Some idx else find_slot id (idx + 1) l'
  end.
Definition super_addr (al : rc_allocator) (idx : Z) : Z :=
  u64 ((1 + idx) * page_size (io_cfg (rc_cfg al))).

Definition rc_allocator_get_super_addr (id : Z) : A (platform_status * option Z) :=
  al ← mget;
  mret (match find_slot id 0 (splinters (rc_meta al)) with
        | Some idx => (STATUS_OK, Some (super_addr al idx))
        | None => (STATUS_NOT_FOUND, None)
        end).

(** Store [id] in slot [idx], update the checksum and write the meta page. *)
Definition write_slot (idx id : Z) : A unit :=
  al ← mget;
  let ids := insertZ idx id (splinters (rc_meta al)) in
  let m := mk_meta_page ids (platform_checksum128 ids) in
  mmod (set_rc_meta m);;
  mmod (set_rc_io (λ d, mk_rc_device m (dev_refs d))).

Definition rc_allocator_alloc_super_addr (id : Z) : A (platform_status * option Z) :=
  al ← mget;
  match find_slot INVALID_ALLOCATOR_ROOT_ID 0 (splinters (rc_meta al)) with
  | Some idx => write_slot idx id;; mret (STATUS_OK, Some (super_addr al idx))
  | None => mret (STATUS_NOT_FOUND, None)
  end.

Definition rc_allocator_remove_super_addr (id : Z) : A unit :=
  al ← mget;
  match find_slot id 0 (splinters (rc_meta al)) with
  | Some idx => write_slot idx INVALID_ALLOCATOR_ROOT_ID
  | None => massert false
  end.

Definition rc_buffer_size (cfg : allocator_config) : Z :=
  ROUNDUP (u64 (extent_capacity cfg * SIZEOF_REFCOUNT)) (page_size (io_cfg cfg)).
Definition rc_buffer_words (cfg : allocator_config) : nat :=
  Z.to_nat (rc_buffer_size cfg / SIZEOF_REFCOUNT).

Definition empty_stats : rc_allocator_stats := mk_rc_stats 0 0 (λ _, 0) (λ _, 0).
(** [rc_allocator_init_meta_page]: its two assertions, and a zeroed page. *)
Definition rc_allocator_init_meta_page (cfg : allocator_config) : outcome rc_allocator_meta_page :=
  if (SIZEOF_META_PAGE <=? page_size (io_cfg cfg))
     && (u64 ((1 + RC_ALLOCATOR_MAX_ROOT_IDS) * page_size (io_cfg cfg)) <=? extent_size (io_cfg cfg))
  then Ret (mk_meta_page (replicate (Z.to_nat RC_ALLOCATOR_MAX_ROOT_IDS) INVALID_ALLOCATOR_ROOT_ID) 0)
  else Assert.

(** The loop that reserves the extents of the counts; [addr] keeps its value
    when an allocation fails. *)
Fixpoint reserve_rc_extents (k : nat) (i addr : Z) : A unit :=
  match k with
  | O => mret tt
  | S k' =>
      r ← rc_allocator_alloc PAGE_TYPE_SUPERBLOCK;
      let addr := default addr r.2 in
      al ← mget;
      massert (addr =? u64 (extent_size (io_cfg (rc_cfg al)) * (i + 1)));;
      reserve_rc_extents k' (i + 1) addr
  end.

Definition rc_extent_count (cfg : allocator_config) : Z :=
  u64 (u64 (rc_buffer_size cfg + extent_size (io_cfg cfg)) - 1) / extent_size (io_cfg cfg).

(** Initialise on a device: the status, and the allocator when it is STATUS_OK. *)
Definition rc_allocator_init (cfg : allocator_config) (io : rc_device)
    : outcome (platform_status * option rc_allocator) :=
  let rc := rc_allocator_valid_config cfg in
  if negb (SUCCESS rc) then Ret (rc, None) else
  match rc_allocator_init_meta_page cfg with
  | Ret meta =>
      let al := mk_rc_allocator cfg (replicate (rc_buffer_words cfg) 0) 0 meta empty_stats io in
      match (r ← rc_allocator_alloc PAGE_TYPE_SUPERBLOCK;
             addr ← mopt r.2;
             massert (addr =? 0);;
             reserve_rc_extents (Z.to_nat (rc_extent_count cfg)) 0 addr) al with
      | Ret (_, al') => Ret (STATUS_OK, Some al')
      | Assert => Assert | Undef => Undef | Block => Block | Fuel => Fuel
      end
  | Assert => Assert | Undef => Undef | Block => Block | Fuel => Fuel
  end.

Definition count_used (l : list Z) : Z := lengthZ (filter (λ r, r ≠ 0) l).

Definition rc_allocator_mount (cfg : allocator_config) (io : rc_device)
    : outcome (platform_status * option rc_allocator) :=
  match rc_allocator_init_meta_page cfg with
  | Ret _ =>
      if (page_size (io_cfg cfg) `mod` 4096 =? 0)
         && (capacity cfg =? u64 (extent_size (io_cfg cfg) * extent_capacity cfg))
         && (capacity cfg =? u64 (page_size (io_cfg cfg) * page_capacity cfg))
         && (checksum (dev_meta io) =? platform_checksum128 (splinters (dev_meta io)))
      then
        let refs := take (rc_buffer_words cfg) (dev_refs io) in
        if lengthZ refs <? Z.of_nat (rc_buffer_words cfg) then Undef else
        Ret (STATUS_OK, Some (mk_rc_allocator cfg refs 0 (dev_meta io)
          (mk_rc_stats (count_used (take (Z.to_nat (extent_capacity cfg)) refs)) 0
             (λ _, 0) (λ _, 0)) io))
      else Assert
  | Assert => Assert | Undef => Undef | Block => Block | Fuel => Fuel
  end.

(** The device after [rc_allocator_unmount]; the size of the write is a [uint32]. *)
Definition rc_allocator_unmount (al : rc_allocator) : rc_device :=
  let io_size := u32 (rc_buffer_size (rc_cfg al)) in
  let n := Z.to_nat (io_size / SIZEOF_REFCOUNT) in
  mk_rc_device (dev_meta (rc_io al))
    (take n (rc_ref_count al) ++ drop n (dev_refs (rc_io al))).
End persistent.

(** ** Concurrent allocation

    Where a thread is in [rc_allocator_alloc]; every shared access is a step. *)
Inductive alloc_pc : Type :=
| AIdle
| AScan (first_hand : Z)          (* before the fetch-and-add of the hand *)
| AProbe (first_hand hand : Z)    (* before the load of the count *)
| ACas (first_hand hand : Z)      (* it was 0: before the compare-and-swap *)
| ATest (first_hand hand : Z)     (* the loop condition *)
| ADone (hand : Z)                (* the extent is the caller's *)
| AFail.                          (* STATUS_NO_SPACE *)

Record alloc_state := mk_alloc { a_cap : Z; a_refs : list Z; a_hand : Z; a_pcs : list alloc_pc }.

Definition a_move (t : nat) (q : alloc_pc) (s : alloc_state) : alloc_state :=
  mk_alloc (a_cap s) (a_refs s) (a_hand s) (<[t := q]> (a_pcs s)).
Definition a_set_ref (i r : Z) (s : alloc_state) : alloc_state :=
  mk_alloc (a_cap s) (insertZ i r (a_refs s)) (a_hand s) (a_pcs s).
Definition a_inc_hand (s : alloc_state) : alloc_state :=
  mk_alloc (a_cap s) (a_refs s) (u64 (a_hand s + 1)) (a_pcs s).

Inductive alloc_step (t : nat) (s : alloc_state) : alloc_state → Prop :=
| as_start : a_pcs s !! t = Some AIdle →
    alloc_step t s (a_move t (AScan (a_hand s `mod` a_cap s)) s)
| as_fetch f : a_pcs s !! t = Some (AScan f) →
    alloc_step t s (a_move t (AProbe f (a_hand s `mod` a_cap s)) (a_inc_hand s))
| as_probe f h r : a_pcs s !! t = Some (AProbe f h) → lookupZ (a_refs s) h = Some r →
    alloc_step t s (a_move t (if r =? 0 then ACas f h else ATest f h) s)
| as_cas f h : a_pcs s !! t = Some (ACas f h) → lookupZ (a_refs s) h = Some 0 →
    alloc_step t s (a_move t (ADone h) (a_set_ref h 2 s))
| as_cas_fail f h r : a_pcs s !! t = Some (ACas f h) → lookupZ (a_refs s) h = Some r → r ≠ 0 →
    alloc_step t s (a_move t (ATest f h) s)
| as_test f h : a_pcs s !! t = Some (ATest f h) →
    alloc_step t s (a_move t (if (h + 1) `mod` a_cap s =? f then AFail else AScan f) s)
| as_free h : a_pcs s !! t = Some (ADone h) →
    alloc_step t s (a_move t AIdle (a_set_ref h 0 s)).

Inductive alloc_reachable (s0 : alloc_state) : alloc_state → Prop :=
| ar_refl : alloc_reachable s0 s0
| ar_step t s s' : alloc_reachable s0 s → alloc_step t s s' → alloc_reachable s0 s'.

Definition alloc_start (refs : list Z) (hand : Z) (threads : nat) : alloc_state :=
  mk_alloc (lengthZ refs) refs hand (replicate threads AIdle).
