(* ===== verification/AllocatorInterface.v ===== *)
(** * What an extent allocator promises its clients

    allocator.h declares the allocator as a table of operations; this is the
    table as a type class with the laws its clients rely on, together with the
    arithmetic of pages and extents.  RcAllocatorFacts.v shows that
    rc_allocator.c keeps the laws; MiniAllocator.v is proved against them. *)
From S2P Require Import Prelude Allocator.

(** ** Geometry *)
Record geometry (cfg : allocator_config) : Prop := {
  geo_page : ∃ p, 0 < p ∧ page_size (io_cfg cfg) = 2 ^ p;
  geo_extent : ∃ k, 0 < k < 63 ∧ extent_size (io_cfg cfg) = 2 ^ k;
  geo_divide : (page_size (io_cfg cfg) | extent_size (io_cfg cfg));
  geo_mask : extent_mask cfg = u64 (Z.lnot (u64 (Z.shiftl 1 (log2_floor (extent_size (io_cfg cfg))) - 1)));
  geo_device : extent_size (io_cfg cfg) * extent_capacity cfg < 2 ^ 63;
}.

(** The base addresses of the extents of the device. *)
Definition is_extent (cfg : allocator_config) (a : Z) : Prop :=
  (extent_size (io_cfg cfg) | a) ∧ 0 ≤ a < extent_size (io_cfg cfg) * extent_capacity cfg.

Section geometry.
Context (cfg : allocator_config) (geo : geometry cfg).
Abbreviation ps := (page_size (io_cfg cfg)).
Abbreviation es := (extent_size (io_cfg cfg)).
Abbreviation base := (allocator_config_extent_base_addr cfg).

Lemma sizes_pos : 2 ≤ ps ∧ ps ≤ es ∧ es < 2 ^ 63.
Proof.
  destruct (geo_page _ geo) as (p & Hp & Ep), (geo_extent _ geo) as (k & Hk & Ek).
  pose proof (Z.pow_le_mono_r 2 1 p ltac:(lia) ltac:(lia)).
  pose proof (Z.pow_pos_nonneg 2 k ltac:(lia) ltac:(lia)).
  pose proof (Z.divide_pos_le ps es ltac:(lia) (geo_divide _ geo)).
  pose proof (Z.pow_lt_mono_r 2 k 63 ltac:(lia) ltac:(lia)). lia.
Qed.

Lemma base_div a : 0 ≤ a < 2 ^ 64 → base a = a / es * es.
Proof.
  intros Ha. unfold allocator_config_extent_base_addr. rewrite (geo_mask _ geo).
  destruct (geo_extent _ geo) as (k & Hk & ->). unfold log2_floor.
  rewrite Z.log2_pow2 by lia. rewrite Z.shiftl_mul_pow2, Z.mul_1_l by lia.
  rewrite (u64_small (2 ^ k - 1)) by (pose proof (Z.pow_le_mono_r 2 k 64 ltac:(lia) ltac:(lia)); lia).
  replace (2 ^ k - 1) with (Z.ones k) by (rewrite Z.ones_equiv; lia).
  unfold u64. rewrite <-(Z.land_ones _ 64), Z.land_assoc by lia.
  rewrite (Z.land_ones _ 64) by lia.
  rewrite <-Z.shiftr_div_pow2, <-Z.shiftl_mul_pow2 by lia.
  rewrite <-Z.ldiff_land.
  rewrite <-Z.ldiff_ones_r by lia. apply Z.mod_small.
  rewrite Z.ldiff_ones_r, Z.shiftr_div_pow2, Z.shiftl_mul_pow2 by lia.
  pose proof (Z.mul_div_le a (2 ^ k) (Z.pow_pos_nonneg 2 k ltac:(lia) ltac:(lia))).
  pose proof (Z.div_pos a (2 ^ k) ltac:(lia) (Z.pow_pos_nonneg 2 k ltac:(lia) ltac:(lia))). nia.
Qed.
Lemma base_range a : 0 ≤ a < 2 ^ 64 → base a ≤ a < base a + es ∧ (es | base a) ∧ 0 ≤ base a.
Proof.
  intros Ha. rewrite base_div by done. pose proof sizes_pos.
  pose proof (Z.div_mod a es ltac:(lia)). pose proof (Z.mod_pos_bound a es ltac:(lia)).
  pose proof (Z.div_pos a es ltac:(lia) ltac:(lia)).
  split_and!; [lia|lia|apply Z.divide_factor_r|nia].
Qed.
Lemma base_unique a d : 0 ≤ a < 2 ^ 64 → (es | d) → d ≤ a < d + es → base a = d.
Proof.
  intros Ha [q ->] Hd. rewrite base_div by done. pose proof sizes_pos.
  replace (a / es) with q; [done|]. apply (Z.div_unique_pos _ _ _ (a - q * es)); lia.
Qed.
Lemma base_extent d : is_extent cfg d → base d = d.
Proof.
  intros [? ?]. pose proof sizes_pos. pose proof (geo_device _ geo).
  apply base_unique; [lia|done|lia].
Qed.
Lemma share_extent a b : allocator_config_pages_share_extent cfg a b = true ↔ base a = base b.
Proof. unfold allocator_config_pages_share_extent. apply Z.eqb_eq. Qed.
End geometry.

(** ** The interface *)
Class extent_allocator (S : Type) := {
  ea_alloc : page_type → M S (platform_status * option Z);
  ea_inc_ref : Z → M S Z;
  ea_dec_ref : Z → page_type → M S Z;
}.

(** [refs s] changed at extent [a] only, to [r]. *)
Definition ref_set (cfg : allocator_config) (f g : Z → Z) (a r : Z) : Prop :=
  ∀ b, is_extent cfg b → g b = if decide (b = a) then r else f b.

(** The laws: [al_ok] is an invariant, [al_ref] the count of an extent. *)
Class allocator_laws (S : Type) `{extent_allocator S} (cfg : allocator_config) := {
  al_ok : S → Prop;
  al_ref : S → Z → Z;
  al_geometry : geometry cfg;
  al_alloc s type r s' :
    al_ok s → type ≠ PAGE_TYPE_INVALID → ea_alloc type s = Ret (r, s') →
    al_ok s' ∧
    match r with
    | (STATUS_OK, Some a) =>
        is_extent cfg a ∧ al_ref s a = 0 ∧ ref_set cfg (al_ref s) (al_ref s') a 2
    | (STATUS_OK, None) => False
    | (_, _) => ∀ b, is_extent cfg b → al_ref s' b = al_ref s b
    end;
  al_inc s a :
    al_ok s → is_extent cfg a → 1 ≤ al_ref s a < 2 ^ 32 - 1 →
    ∃ s', ea_inc_ref a s = Ret (al_ref s a + 1, s') ∧ al_ok s' ∧
      ref_set cfg (al_ref s) (al_ref s') a (al_ref s a + 1);
  al_dec s a type :
    al_ok s → is_extent cfg a → 1 ≤ al_ref s a → type ≠ PAGE_TYPE_INVALID →
    ∃ s', ea_dec_ref a type s = Ret (al_ref s a - 1, s') ∧ al_ok s' ∧
      ref_set cfg (al_ref s) (al_ref s') a (al_ref s a - 1);
}.
