(* ===== verification/RcAllocatorFacts.v ===== *)
(** * Lemmas on the extent allocator

    The scan for a free extent, the effect of each operation on the counts, and
    the consistency of the counters with the counts. *)
From S2P Require Import Prelude Allocator RcAllocator AllocatorInterface.

(** ** Well-formed allocators *)
Record rc_wf (al : rc_allocator) : Prop := {
  wf_cap : 0 < extent_capacity (rc_cfg al);
  wf_extent : 2 ≤ extent_size (io_cfg (rc_cfg al));
  wf_device : extent_size (io_cfg (rc_cfg al)) * extent_capacity (rc_cfg al) < 2 ^ 64;
  wf_len : extent_capacity (rc_cfg al) ≤ lengthZ (rc_ref_count al);
  wf_refs : Forall (λ r, 0 ≤ r < 2 ^ 32) (rc_ref_count al);
  wf_hand : 0 ≤ rc_hand al < 2 ^ 64;
}.

(** The number of slots from [h] on (cyclically) until a free one, among [n]. *)
Fixpoint free_after (refs : list Z) (cap h : Z) (n : nat) : option nat :=
  match n with
  | O => None
  | S n' =>
      if decide (lookupZ refs (h `mod` cap) = Some 0) then Some O
      else S <$> free_after refs cap (h + 1) n'
  end.

Lemma free_after_Some refs cap h n j :
  free_after refs cap h n = Some j →
  (j < n)%nat ∧ lookupZ refs ((h + Z.of_nat j) `mod` cap) = Some 0 ∧
  ∀ i, (i < j)%nat → lookupZ refs ((h + Z.of_nat i) `mod` cap) ≠ Some 0.
Proof.
  revert h j. induction n as [|n IH]; intros h j Hf; [done|]. cbn [free_after] in Hf.
  destruct (decide (lookupZ refs (h `mod` cap) = Some 0)) as [E|E].
  - simplify_eq. rewrite Z.add_0_r. split_and!; [lia|done|lia].
  - apply fmap_Some in Hf as (j' & (? & Hj & Hlt)%IH & ->).
    replace (h + Z.of_nat (S j')) with (h + 1 + Z.of_nat j') by lia.
    split_and!; [lia|done|]. intros [|i] Hi; [by rewrite Z.add_0_r|].
    replace (h + Z.of_nat (S i)) with (h + 1 + Z.of_nat i) by lia. apply Hlt. lia.
Qed.
Lemma free_after_None refs cap h n :
  free_after refs cap h n = None →
  ∀ i, (i < n)%nat → lookupZ refs ((h + Z.of_nat i) `mod` cap) ≠ Some 0.
Proof.
  revert h. induction n as [|n IH]; intros h Hf i Hi; [lia|]. cbn [free_after] in Hf.
  destruct (decide (lookupZ refs (h `mod` cap) = Some 0)) as [E|E]; [done|].
  apply fmap_None in Hf. destruct i as [|i]; [by rewrite Z.add_0_r|].
  replace (h + Z.of_nat (S i)) with (h + 1 + Z.of_nat i) by lia. apply IH; [done|lia].
Qed.

Lemma set_rc_hand_hand f g al : set_rc_hand f (set_rc_hand g al) = set_rc_hand (λ h, f (g h)) al.
Proof. done. Qed.

Lemma mod_shift_inj cap h i j :
  0 < cap → 0 ≤ i < cap → 0 ≤ j < cap → (h + i) `mod` cap = (h + j) `mod` cap → i = j.
Proof.
  intros Hc Hi Hj E.
  assert (((h + i) - (h + j)) `mod` cap = 0) as Hd.
  { rewrite Zminus_mod, E, Z.sub_diag. by apply Zmod_0_l. }
  replace (h + i - (h + j)) with (i - j) in Hd by lia.
  apply Z.mod_divide in Hd as [q Hq]; [|lia].
  assert (q = 0) by nia. lia.
Qed.

(** The scan, started [d] slots after [first], looks at the [n] slots left of the
    cycle and claims the first free one. *)
Lemma alloc_scan_run al first n d :
  0 < extent_capacity (rc_cfg al) ≤ lengthZ (rc_ref_count al) →
  0 ≤ rc_hand al → rc_hand al + Z.of_nat n < 2 ^ 64 → (0 < n)%nat → 0 ≤ d →
  rc_hand al `mod` extent_capacity (rc_cfg al) = (first + d) `mod` extent_capacity (rc_cfg al) →
  0 ≤ first < extent_capacity (rc_cfg al) →
  Z.of_nat n + d = extent_capacity (rc_cfg al) →
  alloc_scan n first al =
  let cap := extent_capacity (rc_cfg al) in
  match free_after (rc_ref_count al) cap (rc_hand al) n with
  | Some j => Ret (Some ((rc_hand al + Z.of_nat j) `mod` cap),
      set_rc_refs (insertZ ((rc_hand al + Z.of_nat j) `mod` cap) 2)
        (set_rc_hand (λ h, h + Z.of_nat j + 1) al))
  | None => Ret (None, set_rc_hand (λ h, h + Z.of_nat n) al)
  end.
Proof.
  revert al d. induction n as [|n IH]; intros al d Hc Hh Hb Hn Hd Hm Hf Hs; [lia|].
  set (cap := extent_capacity (rc_cfg al)) in *.
  cbn [alloc_scan free_after]. rewrite (bind_run _ _ _ al al) by done. fold cap.
  assert (u64 (rc_hand al + 1) = rc_hand al + 1) as Hu by (apply u64_small; lia).
  rewrite (bind_run _ _ _ tt (set_rc_hand (λ h, h + 1) al)); last first.
  { unfold mmod. do 2 f_equal. unfold set_rc_hand. f_equal. done. }
  pose proof (Z.mod_pos_bound (rc_hand al) cap ltac:(lia)) as Hmb.
  assert (is_Some (lookupZ (rc_ref_count al) (rc_hand al `mod` cap))) as [r Hr]
    by (apply lookupZ_is_Some; lia).
  rewrite (bind_run _ _ _ r (set_rc_hand (λ h, h + 1) al)) by (by rewrite Hr).
  rewrite Hr. destruct (decide (Some r = Some 0)) as [[= ->]|Hne].
  { rewrite Z.add_0_r, Z.eqb_refl. unfold set_rc_refs, set_rc_hand. cbn. by rewrite Z.add_0_r. }
  rewrite (proj2 (Z.eqb_neq r 0)) by congruence.
  assert ((rc_hand al + 1) `mod` cap = (rc_hand al `mod` cap + 1) `mod` cap) as Hnext
    by (by rewrite Zplus_mod_idemp_l).
  destruct n as [|n].
  - assert (d = cap - 1) as -> by lia. cbn [free_after fmap option_fmap option_map].
    rewrite Hm, Zplus_mod_idemp_l.
    replace (first + (cap - 1) + 1) with (first + 1 * cap) by lia.
    rewrite Z_mod_plus_full, (Z.mod_small first), Z.eqb_refl by lia. done.
  - rewrite (proj2 (Z.eqb_neq _ _)).
    2:{ rewrite <-Hnext, <-Zplus_mod_idemp_l, Hm, Zplus_mod_idemp_l.
        intros E. assert (d + 1 = 0); [|lia].
        apply (mod_shift_inj cap first); try lia.
        rewrite Z.add_0_r, (Z.mod_small first) by lia. rewrite <-E. f_equal. lia. }
    rewrite (IH _ (d + 1)); cbn [set_rc_hand rc_hand rc_cfg rc_ref_count]; try (fold cap; lia).
    + cbv zeta. fold cap. destruct (free_after (rc_ref_count al) cap (rc_hand al + 1) (S n)) as [j|] eqn:E;
        cbn [fmap option_fmap option_map].
      * replace (rc_hand al + Z.of_nat (S j)) with (rc_hand al + 1 + Z.of_nat j) by lia.
        unfold set_rc_refs, set_rc_hand. cbn [rc_hand].
        replace (rc_hand al + Z.of_nat (S j) + 1) with (rc_hand al + 1 + Z.of_nat j + 1) by lia. done.
      * unfold set_rc_hand. cbn [rc_hand].
        by replace (rc_hand al + Z.of_nat (S (S n))) with (rc_hand al + 1 + Z.of_nat (S n)) by lia.
    + fold cap. rewrite Hnext, Hm, Zplus_mod_idemp_l. f_equal. lia.
Qed.

(** ** Counting used extents *)
Lemma count_used_cons r l : count_used (r :: l) = (if decide (r = 0) then 0 else 1) + count_used l.
Proof. unfold count_used, lengthZ. rewrite filter_cons. repeat case_decide; simpl; lia. Qed.
Lemma count_used_range l : 0 ≤ count_used l ≤ lengthZ l.
Proof. unfold count_used, lengthZ. pose proof (length_filter (λ r : Z, r ≠ 0) l). lia. Qed.
Lemma count_used_replicate n : count_used (replicate n 0) = 0.
Proof. induction n as [|n IH]; [done|]. cbn [replicate]. by rewrite count_used_cons, IH. Qed.
Lemma count_used_insert l (i : nat) r r' :
  l !! i = Some r →
  count_used (<[i := r']> l) =
  count_used l + (if decide (r' = 0) then 0 else 1) - (if decide (r = 0) then 0 else 1).
Proof.
  revert i. induction l as [|x l IH]; intros [|i] Hi; simplify_eq/=; rewrite ?count_used_cons.
  - lia.
  - rewrite (IH i) by done. lia.
Qed.

(** The extents in use: the counts below the capacity that are not 0. *)
Definition used (al : rc_allocator) : Z :=
  count_used (take (Z.to_nat (extent_capacity (rc_cfg al))) (rc_ref_count al)).

Lemma used_insert al i r r' :
  0 ≤ i < extent_capacity (rc_cfg al) → lookupZ (rc_ref_count al) i = Some r →
  used (set_rc_refs (insertZ i r') al) =
  used al + (if decide (r' = 0) then 0 else 1) - (if decide (r = 0) then 0 else 1).
Proof.
  intros Hi Hr. unfold used, set_rc_refs, insertZ. cbn. unfold lookupZ in Hr.
  rewrite bool_decide_true in * by lia. rewrite take_insert_lt by lia.
  apply count_used_insert. rewrite lookup_take_lt by lia. done.
Qed.
Lemma used_range al : 0 ≤ used al ≤ Z.max 0 (extent_capacity (rc_cfg al)).
Proof.
  unfold used. pose proof (count_used_range
    (take (Z.to_nat (extent_capacity (rc_cfg al))) (rc_ref_count al))) as H.
  unfold lengthZ in H. rewrite length_take in H. lia.
Qed.

(** ** The counters *)
Definition footprint (st : rc_allocator_stats) : Z :=
  foldr (λ t acc, extent_allocs st t - extent_deallocs st t + acc) 0 all_page_types.

Lemma i64_cong z : ∃ k, i64 z = z + k * 2 ^ 64.
Proof.
  unfold i64. exists (- ((z + 2 ^ 63) / 2 ^ 64)).
  pose proof (Z.div_mod (z + 2 ^ 63) (2 ^ 64) ltac:(lia)). lia.
Qed.
Lemma footprint_alloc st type :
  type ≠ PAGE_TYPE_INVALID → ∃ k, footprint (count_alloc type st) = footprint st + 1 + k * 2 ^ 64.
Proof.
  intros Ht. destruct (i64_cong (extent_allocs st type + 1)) as [k Hk]. exists k.
  unfold footprint, count_alloc, bump. cbn -[Z.pow i64].
  destruct type; try done; repeat case_decide; simplify_eq; rewrite Hk; lia.
Qed.
Lemma footprint_dealloc st type :
  type ≠ PAGE_TYPE_INVALID → ∃ k, footprint (count_dealloc type st) = footprint st - 1 + k * 2 ^ 64.
Proof.
  intros Ht. destruct (i64_cong (extent_deallocs st type + 1)) as [k Hk]. exists (- k).
  unfold footprint, count_dealloc, bump. cbn -[Z.pow i64].
  destruct type; try done; repeat case_decide; simplify_eq; rewrite Hk; lia.
Qed.

(** The counters agree with the counts. *)
Record rc_consistent (al : rc_allocator) : Prop := {
  con_wf : rc_wf al;
  con_curr : curr_allocated (rc_stats al) = used al;
  con_max : used al ≤ max_allocated (rc_stats al);
  con_footprint : ∃ k, footprint (rc_stats al) = used al + k * 2 ^ 64;
}.

Lemma used_lt_i64 al : rc_wf al → 0 ≤ used al ≤ 2 ^ 63 - 1.
Proof. intros Hw. pose proof (used_range al). destruct Hw. nia. Qed.

Lemma set_ref_wf al i r : rc_wf al → 0 ≤ r < 2 ^ 32 → rc_wf (set_rc_refs (insertZ i r) al).
Proof.
  intros [] Hr. constructor; cbn; try done.
  - by rewrite lengthZ_insertZ.
  - unfold insertZ. case_bool_decide; [|done]. by apply Forall_insert.
Qed.
Lemma set_hand_wf al f : rc_wf al → 0 ≤ f (rc_hand al) < 2 ^ 64 → rc_wf (set_rc_hand f al).
Proof. intros [] ?. by constructor. Qed.
Lemma set_stats_wf al f : rc_wf al → rc_wf (set_rc_stats f al).
Proof. intros []. by constructor. Qed.

(** Claiming a free extent. *)
Lemma claim_consistent al i type :
  rc_consistent al → 0 ≤ i < extent_capacity (rc_cfg al) → type ≠ PAGE_TYPE_INVALID →
  lookupZ (rc_ref_count al) i = Some 0 →
  rc_consistent (set_rc_stats (count_alloc type) (set_rc_refs (insertZ i 2) al)).
Proof.
  intros [Hw Hc Hm [k Hf]] Hi Ht Hl.
  assert (used (set_rc_stats (count_alloc type) (set_rc_refs (insertZ i 2) al)) = used al + 1) as Hu.
  { change (used (set_rc_refs (insertZ i 2) al) = used al + 1). rewrite (used_insert _ _ 0) by done.
    repeat case_decide; lia. }
  assert (rc_wf (set_rc_stats (count_alloc type) (set_rc_refs (insertZ i 2) al))) as Hw'
    by (apply set_stats_wf, set_ref_wf; [done|lia]).
  pose proof (used_lt_i64 _ Hw'). rewrite Hu in *.
  destruct (footprint_alloc (rc_stats al) type Ht) as [k' Hk'].
  constructor; rewrite ?Hu; [done| | |].
  - cbn -[i64]. rewrite Hc. apply i64_small. lia.
  - cbn -[i64]. rewrite Hc, i64_small by lia. case_match; lia.
  - exists (k + k'). change (footprint (count_alloc type (rc_stats al)) = used al + 1 + (k + k') * 2 ^ 64).
    lia.
Qed.
(** Releasing the last reference. *)
Lemma release_consistent al i type :
  rc_consistent al → 0 ≤ i < extent_capacity (rc_cfg al) → type ≠ PAGE_TYPE_INVALID →
  lookupZ (rc_ref_count al) i = Some 1 →
  rc_consistent (set_rc_stats (count_dealloc type) (set_rc_refs (insertZ i 0) al)).
Proof.
  intros [Hw Hc Hm [k Hf]] Hi Ht Hl.
  assert (used (set_rc_stats (count_dealloc type) (set_rc_refs (insertZ i 0) al)) = used al - 1) as Hu.
  { change (used (set_rc_refs (insertZ i 0) al) = used al - 1). rewrite (used_insert _ _ 1) by done.
    repeat case_decide; lia. }
  assert (rc_wf (set_rc_stats (count_dealloc type) (set_rc_refs (insertZ i 0) al))) as Hw'
    by (apply set_stats_wf, set_ref_wf; [done|lia]).
  pose proof (used_lt_i64 _ Hw'). pose proof (used_lt_i64 _ Hw). rewrite Hu in *.
  destruct (footprint_dealloc (rc_stats al) type Ht) as [k' Hk'].
  constructor; rewrite ?Hu; [done| | |].
  - cbn -[i64]. rewrite Hc. apply i64_small. lia.
  - cbn -[i64]. lia.
  - exists (k + k'). change (footprint (count_dealloc type (rc_stats al)) = used al - 1 + (k + k') * 2 ^ 64).
    lia.
Qed.
(** Moving a count between nonzero values. *)
Lemma recount_consistent al i r r' :
  rc_consistent al → 0 ≤ i < extent_capacity (rc_cfg al) →
  lookupZ (rc_ref_count al) i = Some r → r ≠ 0 → r' ≠ 0 → 0 ≤ r' < 2 ^ 32 →
  rc_consistent (set_rc_refs (insertZ i r') al).
Proof.
  intros [Hw Hc Hm Hf] Hi Hl Hr Hr' Hb.
  assert (used (set_rc_refs (insertZ i r') al) = used al) as Hu.
  { rewrite (used_insert _ _ r) by done. repeat case_decide; lia. }
  constructor; rewrite ?Hu; [|done..]. by apply set_ref_wf.
Qed.
Lemma hand_consistent al f :
  rc_consistent al → 0 ≤ f (rc_hand al) < 2 ^ 64 → rc_consistent (set_rc_hand f al).
Proof. intros [] ?. constructor; [|done..]. by apply set_hand_wf. Qed.

(** ** Each operation keeps the counters consistent *)
Definition in_device (al : rc_allocator) (addr : Z) : Prop :=
  0 ≤ addr < extent_size (io_cfg (rc_cfg al)) * extent_capacity (rc_cfg al).
Lemma in_device_extent al addr :
  rc_wf al → in_device al addr →
  0 ≤ rc_allocator_extent_number al addr < extent_capacity (rc_cfg al).
Proof.
  intros [] [? ?]. unfold rc_allocator_extent_number. split.
  - apply Z.div_pos; lia.
  - apply Z.div_lt_upper_bound; lia.
Qed.
Lemma count_in_range al i r : rc_wf al → lookupZ (rc_ref_count al) i = Some r → 0 ≤ r < 2 ^ 32.
Proof.
  intros Hw Hl. unfold lookupZ in Hl. case_bool_decide; [|done].
  by eapply (Forall_lookup_1 _ _ _ _ (wf_refs _ Hw)).
Qed.

Lemma alloc_scan_consistent type fuel first al r al' :
  rc_consistent al → type ≠ PAGE_TYPE_INVALID → alloc_scan fuel first al = Ret (r, al') →
  rc_cfg al' = rc_cfg al ∧
  match r with
  | None => rc_consistent al'
  | Some _ => rc_consistent (set_rc_stats (count_alloc type) al')
  end.
Proof.
  revert al. induction fuel as [|fuel IH]; intros al Hc Ht Hr; [done|]. cbn [alloc_scan] in Hr.
  apply bind_Ret in Hr as (? & ? & [-> ->]%get_Ret & Hr).
  apply bind_Ret in Hr as (? & ? & [-> ->]%mod_Ret & Hr).
  apply bind_Ret in Hr as (c & ? & [-> Hl]%opt_Ret & Hr).
  assert (rc_consistent (set_rc_hand (λ h, u64 (h + 1)) al)) as Hc'
    by (apply hand_consistent; [done|apply u64_range]).
  destruct (c =? 0) eqn:E0; [|case_match].
  - inv_run. simplify_eq. split; [done|]. apply Z.eqb_eq in E0 as ->.
    apply claim_consistent; try done. cbn. apply Z.mod_pos_bound. apply Hc.
  - inv_run. simplify_eq. done.
  - by destruct (IH _ Hc' Ht Hr) as [-> ?].
Qed.
Lemma alloc_consistent type al r al' :
  rc_consistent al → type ≠ PAGE_TYPE_INVALID → rc_allocator_alloc type al = Ret (r, al') →
  rc_consistent al' ∧ rc_cfg al' = rc_cfg al.
Proof.
  intros Hc Ht Hr. unfold rc_allocator_alloc in Hr.
  apply bind_Ret in Hr as (? & ? & [-> ->]%get_Ret & Hr).
  apply bind_Ret in Hr as ([i|] & al1 & Hs & Hr);
    apply (alloc_scan_consistent type) in Hs as [Hcfg ?]; try done; inv_run; done.
Qed.
Lemma inc_ref_consistent addr al r al' :
  rc_consistent al → in_device al addr → rc_allocator_inc_ref addr al = Ret (r, al') →
  rc_consistent al' ∧ rc_cfg al' = rc_cfg al.
Proof.
  intros Hc Hd Hr. unfold rc_allocator_inc_ref in Hr. inv_run.
  rename select (_ = true) into Hb. rename select (lookupZ _ _ = Some _) into Hl.
  apply andb_true_iff in Hb as [Hb1%negb_true_iff%Z.eqb_neq Hb2%negb_true_iff%Z.eqb_neq].
  split; [|done]. eapply recount_consistent; try done.
  - apply in_device_extent; [apply Hc|done].
  - intros ->. by apply Hb1.
  - apply u32_range.
Qed.
Lemma dec_ref_consistent addr type al r al' :
  rc_consistent al → in_device al addr → rc_allocator_dec_ref addr type al = Ret (r, al') →
  rc_consistent al' ∧ rc_cfg al' = rc_cfg al.
Proof.
  intros Hc Hd Hr. unfold rc_allocator_dec_ref in Hr.
  apply bind_Ret in Hr as (? & ? & [-> ->]%get_Ret & Hr).
  apply bind_Ret in Hr as (c & ? & [-> Hl]%opt_Ret & Hr).
  apply bind_Ret in Hr as (? & ? & [-> ->]%mod_Ret & Hr).
  apply bind_Ret in Hr as (? & ? & (-> & -> & Hb%negb_true_iff%Z.eqb_neq)%assert_Ret & Hr).
  pose proof (count_in_range _ _ _ (con_wf _ Hc) Hl) as Hcr.
  pose proof (in_device_extent _ _ (con_wf _ Hc) Hd) as Hi.
  assert (c ≠ 0) by (intros ->; by apply Hb).
  rewrite u32_small in * by lia. unfold mwhen in Hr. destruct (c - 1 =? 0) eqn:E.
  - apply Z.eqb_eq in E. inv_run. rename select (_ = true) into Ht.
    apply negb_true_iff, bool_decide_eq_false in Ht. split; [|done].
    assert (c = 1) as -> by lia. by apply release_consistent.
  - apply Z.eqb_neq in E. inv_run. split; [|done]. eapply recount_consistent; try done. lia.
Qed.

(** * rc_allocator.c keeps the allocator interface's laws *)
#[export] Instance rc_ops : extent_allocator rc_allocator := {|
  ea_alloc := rc_allocator_alloc;
  ea_inc_ref := rc_allocator_inc_ref;
  ea_dec_ref := rc_allocator_dec_ref;
|}.

Definition rc_ok (cfg : allocator_config) (s : rc_allocator) : Prop := rc_wf s ∧ rc_cfg s = cfg.
(** The count of the extent at an address. *)
Definition rc_ref (cfg : allocator_config) (s : rc_allocator) (a : Z) : Z :=
  default 0 (lookupZ (rc_ref_count s) (a / extent_size (io_cfg cfg))).

Section instance.
Context (cfg : allocator_config) (Hgeo : geometry cfg).
Abbreviation es := (extent_size (io_cfg cfg)).

Lemma extent_slot a : is_extent cfg a → ∃ i, 0 ≤ i < extent_capacity cfg ∧ a = i * es ∧ a / es = i.
Proof.
  intros [[i ->] Ha]. pose proof (sizes_pos cfg Hgeo). exists i.
  split; [nia|]. split; [done|]. by rewrite Z.div_mul by lia.
Qed.
Lemma slot_extent i : 0 ≤ i < extent_capacity cfg → is_extent cfg (i * es).
Proof. intros Hi. pose proof (sizes_pos cfg Hgeo). split; [apply Z.divide_factor_r|nia]. Qed.

Lemma ref_set_insert s i r :
  rc_ok cfg s → 0 ≤ i < extent_capacity cfg →
  ref_set cfg (rc_ref cfg s) (rc_ref cfg (set_rc_refs (insertZ i r) s)) (i * es) r.
Proof.
  intros [Hw Hc] Hi b Hb. destruct (extent_slot b Hb) as (j & Hj & -> & Ej).
  unfold rc_ref. cbn [rc_ref_count set_rc_refs]. rewrite Ej. pose proof (sizes_pos cfg Hgeo).
  pose proof (wf_len _ Hw) as Hl. rewrite Hc in Hl.
  destruct (decide (j * es = i * es)) as [E|E].
  - assert (j = i) as -> by nia. by rewrite lookupZ_insertZ_eq by lia.
  - rewrite lookupZ_insertZ_ne; [done|]. intros ->. done.
Qed.
Lemma rc_ref_lookup s i :
  rc_ok cfg s → 0 ≤ i < extent_capacity cfg →
  lookupZ (rc_ref_count s) i = Some (rc_ref cfg s (i * es)) ∧ 0 ≤ rc_ref cfg s (i * es) < 2 ^ 32.
Proof.
  intros [Hw Hc] Hi. pose proof (wf_len _ Hw) as Hl. rewrite Hc in Hl.
  assert (is_Some (lookupZ (rc_ref_count s) i)) as [r Hr] by (apply lookupZ_is_Some; lia).
  pose proof (sizes_pos cfg Hgeo). unfold rc_ref. rewrite Z.div_mul, Hr by lia.
  split; [done|]. by eapply count_in_range.
Qed.

Lemma alloc_scan_spec fuel first s r s' :
  rc_ok cfg s → alloc_scan fuel first s = Ret (r, s') →
  rc_ok cfg s' ∧
  match r with
  | None => rc_ref_count s' = rc_ref_count s
  | Some h => 0 ≤ h < extent_capacity cfg ∧ lookupZ (rc_ref_count s) h = Some 0 ∧
      rc_ref_count s' = insertZ h 2 (rc_ref_count s)
  end.
Proof.
  revert s. induction fuel as [|fuel IH]; intros s [Hw Hc] Hr; [done|]. cbn [alloc_scan] in Hr.
  apply bind_Ret in Hr as (? & ? & [-> ->]%get_Ret & Hr).
  apply bind_Ret in Hr as (? & ? & [-> ->]%mod_Ret & Hr).
  apply bind_Ret in Hr as (c & ? & [-> Hl]%opt_Ret & Hr).
  assert (rc_ok cfg (set_rc_hand (λ h, u64 (h + 1)) s)) as Hw'
    by (split; [apply set_hand_wf; [done|apply u64_range]|done]).
  pose proof (wf_cap _ Hw) as Hcap. rewrite Hc in *.
  pose proof (Z.mod_pos_bound (rc_hand s) (extent_capacity cfg) ltac:(lia)) as Hm.
  destruct (c =? 0) eqn:E; [|case_match].
  - apply Z.eqb_eq in E as ->. inv_run. simplify_eq. split; [|done].
    destruct Hw' as [Hw' ?]. split; [apply set_ref_wf; [done|lia]|done].
  - inv_run. simplify_eq. done.
  - destruct (IH _ Hw' Hr) as [? Hs]. split; [done|]. destruct r; exact Hs.
Qed.

Lemma rc_alloc_law s type r s' :
  rc_ok cfg s → type ≠ PAGE_TYPE_INVALID → rc_allocator_alloc type s = Ret (r, s') →
  rc_ok cfg s' ∧
  match r with
  | (STATUS_OK, Some a) =>
      is_extent cfg a ∧ rc_ref cfg s a = 0 ∧ ref_set cfg (rc_ref cfg s) (rc_ref cfg s') a 2
  | (STATUS_OK, None) => False
  | (_, _) => ∀ b, is_extent cfg b → rc_ref cfg s' b = rc_ref cfg s b
  end.
Proof.
  intros Hok Hty Hr. unfold rc_allocator_alloc in Hr.
  rewrite (bind_run _ _ s s s) in Hr by done.
  apply bind_Ret in Hr as (found & s1 & Hs & Hr).
  destruct (alloc_scan_spec _ _ _ _ _ Hok Hs) as [Hok1 Hspec]. destruct found as [h|].
  - apply bind_Ret in Hr as (? & ? & [-> ->]%mod_Ret & [-> ->]%ret_Ret).
    destruct Hspec as (Hh & Hz & Hrefs). destruct Hok as [Hw Hc]. rewrite Hc.
    pose proof (slot_extent h Hh) as He. pose proof (geo_device _ Hgeo). destruct (He) as [_ Hb].
    rewrite u64_small by lia. destruct Hok1 as [Hw1 Hc1].
    split; [by split; [apply set_stats_wf|]|]. split; [done|].
    destruct (rc_ref_lookup s h) as [Hl _]; [by split|done|]. rewrite Hz in Hl. injection Hl as Hl.
    split; [done|]. intros b Hb'. rewrite <-(ref_set_insert s h 2 (conj Hw Hc) Hh b Hb').
    unfold rc_ref. cbn [rc_ref_count set_rc_stats set_rc_refs]. by rewrite Hrefs.
  - inv_run. simplify_eq. split; [done|]. intros b Hb. unfold rc_ref. by rewrite Hspec.
Qed.

Lemma rc_inc_law s a :
  rc_ok cfg s → is_extent cfg a → 1 ≤ rc_ref cfg s a < 2 ^ 32 - 1 →
  ∃ s', rc_allocator_inc_ref a s = Ret (rc_ref cfg s a + 1, s') ∧ rc_ok cfg s' ∧
    ref_set cfg (rc_ref cfg s) (rc_ref cfg s') a (rc_ref cfg s a + 1).
Proof.
  intros Hok Ha Hr. destruct (extent_slot a Ha) as (i & Hi & -> & Ei).
  destruct (rc_ref_lookup s i Hok Hi) as [Hl _]. destruct Hok as [Hw Hc].
  exists (set_rc_refs (insertZ i (rc_ref cfg s (i * es) + 1)) s). split; [|split].
  - unfold rc_allocator_inc_ref, rc_allocator_extent_number. rewrite (bind_run _ _ s s s) by done.
    rewrite Hc, Ei. rewrite (bind_run _ _ s (rc_ref cfg s (i * es)) s) by (by rewrite Hl).
    rewrite u32_small by lia.
    rewrite (bind_run _ _ s tt (set_rc_refs (insertZ i (rc_ref cfg s (i * es) + 1)) s)) by done.
    rewrite (proj2 (Z.eqb_neq _ 1)), (proj2 (Z.eqb_neq _ 0)) by lia. done.
  - split; [apply set_ref_wf; [done|lia]|done].
  - by apply ref_set_insert.
Qed.

Lemma rc_dec_law s a type :
  rc_ok cfg s → is_extent cfg a → 1 ≤ rc_ref cfg s a → type ≠ PAGE_TYPE_INVALID →
  ∃ s', rc_allocator_dec_ref a type s = Ret (rc_ref cfg s a - 1, s') ∧ rc_ok cfg s' ∧
    ref_set cfg (rc_ref cfg s) (rc_ref cfg s') a (rc_ref cfg s a - 1).
Proof.
  intros Hok Ha Hr Hty. destruct (extent_slot a Ha) as (i & Hi & -> & Ei).
  destruct (rc_ref_lookup s i Hok Hi) as [Hl Hb]. pose proof Hok as [Hw Hc].
  set (s1 := set_rc_refs (insertZ i (rc_ref cfg s (i * es) - 1)) s).
  assert (rc_ok cfg s1) as [Hw1 Hc1] by (split; [apply set_ref_wf; [done|lia]|done]).
  pose proof (ref_set_insert s i (rc_ref cfg s (i * es) - 1) Hok Hi) as Hset. fold s1 in Hset.
  assert (∃ s', rc_allocator_dec_ref (i * es) type s = Ret (rc_ref cfg s (i * es) - 1, s') ∧
    (s' = s1 ∨ s' = set_rc_stats (count_dealloc type) s1)) as (s' & Hrun & Hs').
  { unfold rc_allocator_dec_ref, rc_allocator_extent_number. rewrite (bind_run _ _ s s s) by done.
    rewrite Hc, Ei. rewrite (bind_run _ _ s (rc_ref cfg s (i * es)) s) by (by rewrite Hl).
    rewrite u32_small by lia. rewrite (bind_run _ _ s tt s1) by done.
    change (u32 (-1)) with (2 ^ 32 - 1). rewrite (proj2 (Z.eqb_neq _ (2 ^ 32 - 1))) by lia.
    rewrite (bind_run _ _ s1 tt s1) by done. unfold mwhen. case_match.
    - rewrite bool_decide_false by done. eexists. split; [done|by right].
    - eexists. split; [done|by left]. }
  exists s'. split; [done|]. destruct Hs' as [->| ->].
  - split; [by split|exact Hset].
  - split; [split; [by apply set_stats_wf|done]|exact Hset].
Qed.
End instance.

#[export] Instance rc_laws cfg `(Hgeo : geometry cfg) : allocator_laws rc_allocator cfg := {|
  al_ok := rc_ok cfg;
  al_ref := rc_ref cfg;
  al_geometry := Hgeo;
  al_alloc := rc_alloc_law cfg Hgeo;
  al_inc := rc_inc_law cfg Hgeo;
  al_dec := rc_dec_law cfg Hgeo;
|}.
