(* ===== verification/RcAllocatorTheorems.v ===== *)
(** * What the extent allocator guarantees

    The claims on rc_allocator.c, with the inputs that witness them. *)
From S2P Require Import Prelude Allocator RcAllocator RcAllocatorFacts.

(** ** Initialisation *)
Lemma valid_config_sizes cfg :
  rc_allocator_valid_config cfg = STATUS_OK →
  page_size (io_cfg cfg) = 4096 ∧ extent_size (io_cfg cfg) = 131072 ∧ extent_capacity cfg ≠ 0 ∧
  capacity cfg = u64 (4096 * page_capacity cfg) ∧ capacity cfg = u64 (131072 * extent_capacity cfg).
Proof.
  unfold rc_allocator_valid_config, laio_config_valid, LAIO_DEFAULT_EXTENT_SIZE,
    LAIO_DEFAULT_PAGE_SIZE.
  intros H. destruct (page_size (io_cfg cfg) =? 4096) eqn:E1; [|cbv in H; discriminate H].
  destruct (extent_size (io_cfg cfg) =? 32 * 4096) eqn:E2; [|cbv in H; discriminate H].
  apply Z.eqb_eq in E1, E2. rewrite E1, E2 in H. cbn [negb SUCCESS] in H.
  change (negb (SUCCESS STATUS_OK)) with false in H. cbn iota in H.
  destruct (capacity cfg =? 0); [done|].
  destruct (extent_capacity cfg =? 0) eqn:E3; [done|].
  destruct (capacity cfg =? u64 (4096 * _)) eqn:E4; [|done].
  destruct (capacity cfg =? u64 (_ * extent_capacity cfg)) eqn:E5; [|done].
  apply Z.eqb_neq in E3. apply Z.eqb_eq in E4, E5. by split_and!.
Qed.

(** The buffer holds a count for every extent. *)
Lemma buffer_words_cap cfg :
  page_size (io_cfg cfg) = 4096 → 0 ≤ extent_capacity cfg < 2 ^ 50 →
  extent_capacity cfg ≤ Z.of_nat (rc_buffer_words cfg).
Proof.
  intros Hp Hc. unfold rc_buffer_words, rc_buffer_size, ROUNDUP, SIZEOF_REFCOUNT.
  set (x := extent_capacity cfg * 4).
  pose proof (Z.div_mod (x + 4096 - 1) 4096 ltac:(lia)).
  pose proof (Z.mod_pos_bound (x + 4096 - 1) 4096 ltac:(lia)).
  rewrite Hp, (u64_small x), (u64_small (x + 4096)) by lia.
  rewrite (u64_small (x + 4096 - 1)), u64_small by lia.
  rewrite Z2Nat.id; [|apply Z.div_pos; lia].
  apply Z.div_le_lower_bound; lia.
Qed.

Lemma start_consistent io cap dev meta :
  let cfg := allocator_config_init io cap in
  0 ≤ cap < 2 ^ 64 → rc_allocator_valid_config cfg = STATUS_OK →
  rc_consistent (mk_rc_allocator cfg (replicate (rc_buffer_words cfg) 0) 0 meta empty_stats dev).
Proof.
  intros cfg Hb Hv. pose proof (valid_config_sizes _ Hv) as (Hp & He & Hne & _ & Hcap).
  cbn in Hp, He, Hne. assert (extent_capacity cfg = cap / 131072) as Hec by (cbn; by rewrite He).
  assert (0 ≤ cap / 131072 < 2 ^ 47) as Hr.
  { split; [apply Z.div_pos; lia|apply Z.div_lt_upper_bound; lia]. }
  assert (used (mk_rc_allocator cfg (replicate (rc_buffer_words cfg) 0) 0 meta empty_stats dev) = 0) as Hu.
  { unfold used. cbn [rc_cfg rc_ref_count]. rewrite take_replicate. apply count_used_replicate. }
  constructor; rewrite ?Hu; try done.
  - constructor; cbn [rc_cfg rc_ref_count rc_hand]; rewrite ?Hec.
    + rewrite He in Hne. lia.
    + cbn. lia.
    + cbn. rewrite He. pose proof (Z.mul_div_le cap 131072 ltac:(lia)). lia.
    + unfold lengthZ. rewrite length_replicate, <-Hec. apply buffer_words_cap; [done|lia].
    + apply Forall_replicate. lia.
    + lia.
  - exists 0. done.
Qed.

Lemma reserve_consistent k i addr al al' :
  rc_consistent al → reserve_rc_extents k i addr al = Ret (tt, al') → rc_consistent al'.
Proof.
  revert i addr al. induction k as [|k IH]; intros i addr al Hc Hr; cbn [reserve_rc_extents] in Hr.
  { by inv_run. }
  apply bind_Ret in Hr as (r & al1 & (Hc1 & _)%alloc_consistent & Hr); [|done..].
  apply bind_Ret in Hr as (? & ? & [-> ->]%get_Ret & Hr).
  apply bind_Ret in Hr as (? & ? & (-> & -> & _)%assert_Ret & Hr). by eapply IH.
Qed.
Lemma init_consistent io cap dev al :
  0 ≤ cap < 2 ^ 64 →
  rc_allocator_init (allocator_config_init io cap) dev = Ret (STATUS_OK, Some al) → rc_consistent al.
Proof.
  intros Hb Hi. unfold rc_allocator_init in Hi.
  destruct (SUCCESS (rc_allocator_valid_config _)) eqn:Hv; simpl negb in Hi; cbn iota in Hi; [|done].
  apply bool_decide_eq_true in Hv.
  destruct (rc_allocator_init_meta_page _) as [meta| | | |]; try done.
  pose proof (start_consistent io cap dev meta Hb Hv) as Hs.
  case_match eqn:Hr; try done. destruct a as [[] al']. simplify_eq.
  apply bind_Ret in Hr as (r & al1 & (Hc1 & _)%alloc_consistent & Hr); [|done..].
  inv_run. exact (reserve_consistent _ _ _ _ _ Hc1 Hr).
Qed.

(** ** Sequences of operations *)
Inductive rc_op : Type :=
| RcAlloc (type : page_type)
| RcIncRef (addr : Z)
| RcDecRef (addr : Z) (type : page_type).

Definition rc_run (o : rc_op) : A unit :=
  match o with
  | RcAlloc type => _ ← rc_allocator_alloc type; mret tt
  | RcIncRef addr => _ ← rc_allocator_inc_ref addr; mret tt
  | RcDecRef addr type => _ ← rc_allocator_dec_ref addr type; mret tt
  end.
(** What callers must respect. *)
Definition rc_op_ok (al : rc_allocator) (o : rc_op) : Prop :=
  match o with
  | RcAlloc type => type ≠ PAGE_TYPE_INVALID
  | RcIncRef addr | RcDecRef addr _ => in_device al addr
  end.
Inductive rc_exec : rc_allocator → list rc_op → rc_allocator → Prop :=
| rc_exec_nil al : rc_exec al [] al
| rc_exec_cons al o al1 os al' :
    rc_op_ok al o → rc_run o al = Ret (tt, al1) → rc_exec al1 os al' → rc_exec al (o :: os) al'.

Lemma rc_exec_consistent al os al' : rc_consistent al → rc_exec al os al' → rc_consistent al'.
Proof.
  intros Hc. induction 1 as [|al o al1 os al' Hok Hr _ IH]; [done|]. apply IH.
  destruct o; cbn in Hr; inv_run;
    [by eapply alloc_consistent|by eapply inc_ref_consistent|by eapply dec_ref_consistent].
Qed.

#[export] Instance rc_op_ok_dec al o : Decision (rc_op_ok al o).
Proof. destruct o; cbn; unfold in_device; apply _. Defined.
(** The state after the operations, when each is allowed and returns. *)
Fixpoint rc_runs (os : list rc_op) (al : rc_allocator) : option rc_allocator :=
  match os with
  | [] => Some al
  | o :: os' =>
      if decide (rc_op_ok al o)
      then match rc_run o al with Ret (_, al1) => rc_runs os' al1 | _ => None end
      else None
  end.
Lemma rc_runs_exec os al al' : rc_runs os al = Some al' → rc_exec al os al'.
Proof.
  revert al. induction os as [|o os IH]; intros al Hr; cbn [rc_runs] in Hr.
  { simplify_eq. constructor. }
  destruct (decide (rc_op_ok al o)) as [Hok|]; [|done].
  destruct (rc_run o al) as [[[] al1]| | | |] eqn:E; try done.
  eapply rc_exec_cons; [done|exact E|by apply IH].
Qed.

Module RcDemo.
(** A device of 8 extents. *)
Definition io : io_config := mk_io_config 4096 131072.
Definition cfg : allocator_config := allocator_config_init io (8 * 131072).
Definition dev : rc_device := mk_rc_device (mk_meta_page [] 0) (replicate 1024 7).
Definition init : rc_allocator :=
  match rc_allocator_init cfg dev with Ret (_, Some al) => al | _ =>
    mk_rc_allocator cfg [] 0 (mk_meta_page [] 0) empty_stats dev end.
(** An allocator with every extent but one in use, the hand past it. *)
Definition full : rc_allocator := set_rc_hand (λ _, 6)
  (set_rc_refs (λ _, [2; 2; 2; 2; 0; 3; 2; 1] ++ replicate 1016 0) init).
Lemma init_ok : rc_allocator_init cfg dev = Ret (STATUS_OK, Some init).
Proof.
  unfold init.
  assert (match rc_allocator_init cfg dev with Ret (STATUS_OK, Some _) => true | _ => false end = true)
    by (vm_compute; reflexivity).
  by destruct (rc_allocator_init cfg dev) as [[[] [al|]]| | | |].
Qed.
Definition ck (l : list Z) : Z := foldr Z.add 17 l.
Definition ops : list rc_op :=
  [RcAlloc PAGE_TYPE_TRUNK; RcAlloc PAGE_TYPE_BRANCH; RcIncRef (2 * 131072);
   RcDecRef (3 * 131072) PAGE_TYPE_BRANCH; RcDecRef (3 * 131072) PAGE_TYPE_BRANCH].
Definition final : rc_allocator := default init (rc_runs ops init).
End RcDemo.

(** The allocation of an extent.  As long as the hand does not wrap,
    [rc_allocator_alloc] always returns.  When an extent is free it takes the first
    free one at or after the hand, in cyclic order: its count becomes 2, its base
    address is returned, the hand moves just past it and the counters are updated.
    When none is free it reports STATUS_NO_SPACE after one full cycle and changes
    nothing but the hand. *)
Theorem rc_alloc_first_free al type :
  rc_wf al → rc_hand al + extent_capacity (rc_cfg al) < 2 ^ 64 →
  let cap := extent_capacity (rc_cfg al) in
  let slot j := (rc_hand al + j) `mod` cap in
  (∃ j, 0 ≤ j < cap ∧ lookupZ (rc_ref_count al) (slot j) = Some 0 ∧
     (∀ i, 0 ≤ i < j → lookupZ (rc_ref_count al) (slot i) ≠ Some 0) ∧
     rc_allocator_alloc type al =
       Ret ((STATUS_OK, Some (slot j * extent_size (io_cfg (rc_cfg al)))),
            set_rc_stats (count_alloc type)
              (set_rc_refs (insertZ (slot j) 2) (set_rc_hand (λ h, h + j + 1) al))))
  ∨ ((∀ i, 0 ≤ i < cap → lookupZ (rc_ref_count al) i ≠ Some 0) ∧
     rc_allocator_alloc type al = Ret ((STATUS_NO_SPACE, None), set_rc_hand (λ h, h + cap) al)).
Proof.
  intros Hw Hh cap slot. pose proof (wf_cap _ Hw) as Hc. pose proof (wf_hand _ Hw) as Hb.
  fold cap in Hc, Hh.
  opose proof* (alloc_scan_run al (rc_hand al `mod` cap) (Z.to_nat cap) 0) as Hs; fold cap; try lia.
  { split; [done|apply Hw]. }
  { by rewrite Z.add_0_r, Z.mod_mod by lia. }
  { by apply Z.mod_pos_bound. }
  unfold rc_allocator_alloc. rewrite (bind_run _ _ al al al) by done. fold cap.
  fold cap in Hs. cbv zeta in Hs.
  destruct (free_after (rc_ref_count al) cap (rc_hand al) (Z.to_nat cap)) as [j|] eqn:E;
    rewrite (bind_run _ _ _ _ _ Hs).
  - left. apply free_after_Some in E as (Hj & Hl & Hlt). exists (Z.of_nat j). fold (slot (Z.of_nat j)) in *.
    split_and!; [lia|lia|done| |].
    + intros i Hi. specialize (Hlt (Z.to_nat i) ltac:(lia)). by rewrite Z2Nat.id in Hlt by lia.
    + cbn. rewrite u64_small; [done|].
      pose proof (Z.mod_pos_bound (rc_hand al + Z.of_nat j) cap ltac:(lia)) as Hm. fold (slot (Z.of_nat j)) in Hm.
      pose proof (wf_device _ Hw) as Hd. pose proof (wf_extent _ Hw). fold cap in Hd. nia.
  - right. split; [|cbn; by rewrite Z2Nat.id by lia]. intros i Hi.
    pose proof (free_after_None _ _ _ _ E) as Hn.
    set (j := (i - rc_hand al) `mod` cap). pose proof (Z.mod_pos_bound (i - rc_hand al) cap ltac:(lia)) as Hj.
    fold j in Hj. specialize (Hn (Z.to_nat j) ltac:(lia)). rewrite Z2Nat.id in Hn by lia.
    unfold j in Hn. rewrite Zplus_mod_idemp_r in Hn.
    replace (rc_hand al + (i - rc_hand al)) with i in Hn by lia. by rewrite Z.mod_small in Hn.
Qed.

(** [rc_alloc_first_free] on an allocator with one free extent, behind the hand. *)
Lemma rc_alloc_first_free_witness :
  rc_wf RcDemo.full ∧
  ∃ al', rc_allocator_alloc PAGE_TYPE_BRANCH RcDemo.full = Ret ((STATUS_OK, Some (4 * 131072)), al').
Proof.
  assert (rc_wf RcDemo.full) as Hw.
  { constructor.
    - reflexivity.
    - by vm_compute.
    - reflexivity.
    - by vm_compute.
    - apply (Forall_app_2 _ [2; 2; 2; 2; 0; 3; 2; 1] (replicate 1016 0));
        [repeat constructor; lia|apply Forall_replicate; lia].
    - split; [by vm_compute|reflexivity]. }
  split; [done|].
  destruct (rc_alloc_first_free RcDemo.full PAGE_TYPE_BRANCH Hw ltac:(by vm_compute))
    as [(j & Hj & Hl & Hlt & Hr)|[Hn _]].
  - assert (j = 6) as ->; [|eexists; rewrite Hr; reflexivity].
    change (extent_capacity (rc_cfg RcDemo.full)) with 8 in *.
    assert (¬ 6 < j) as Hle by (intros H; specialize (Hlt 6 ltac:(lia)); apply Hlt; reflexivity).
    assert (j = 0 ∨ j = 1 ∨ j = 2 ∨ j = 3 ∨ j = 4 ∨ j = 5 ∨ j = 6) as Hc by lia.
    repeat (destruct Hc as [->|Hc]; [vm_compute in Hl; discriminate Hl|]). done.
  - exfalso. specialize (Hn 4). apply Hn; [by vm_compute|reflexivity].
Defined.

(** C20: The allocator's counters agree with its counts.  From initialisation on a
    device of any size, after any sequence of allocations, increments and
    decrements that respect the callers' contract, the number of extents reported
    in use is the number of nonzero reference counts, the high-water mark is at
    least that, and allocations less deallocations, summed over the page types,
    give the same number modulo 2^64. *)
Theorem rc_counts_agree io cap dev al os al' :
  0 ≤ cap < 2 ^ 64 →
  rc_allocator_init (allocator_config_init io cap) dev = Ret (STATUS_OK, Some al) →
  rc_exec al os al' →
  rc_allocator_in_use al' = used al' ∧ used al' ≤ max_allocated (rc_stats al') ∧
  used al' ≤ extent_capacity (rc_cfg al') ∧
  u64 (footprint (rc_stats al')) = u64 (used al').
Proof.
  intros Hb Hi He. apply init_consistent in Hi; [|done].
  destruct (rc_exec_consistent _ _ _ Hi He) as [Hw Hc Hm [k Hf]].
  pose proof (used_range al'). pose proof (wf_cap _ Hw).
  split_and!; [done|done|lia|]. rewrite Hf. unfold u64. by rewrite Z_mod_plus_full.
Qed.

(** [rc_counts_agree] on an allocation, an increment and three decrements. *)
Lemma rc_counts_agree_witness :
  rc_exec RcDemo.init RcDemo.ops (RcDemo.final) ∧
  rc_allocator_in_use (RcDemo.final) = 3 ∧ used (RcDemo.final) = 3 ∧
  u64 (footprint (rc_stats (RcDemo.final))) = u64 (used (RcDemo.final)).
Proof.
  assert (rc_exec RcDemo.init RcDemo.ops (RcDemo.final)) as He.
  { apply rc_runs_exec. unfold RcDemo.final.
    assert (match rc_runs RcDemo.ops RcDemo.init with Some _ => true | None => false end = true) as Hs
      by (vm_compute; reflexivity).
    by destruct (rc_runs RcDemo.ops RcDemo.init). }
  destruct (rc_counts_agree RcDemo.io (8 * 131072) RcDemo.dev RcDemo.init _ _
    ltac:(lia) RcDemo.init_ok He) as (_ & _ & _ & Hf).
  split_and!; [exact He|vm_compute; reflexivity|vm_compute; reflexivity|exact Hf].
Defined.

(** ** Super-block slots *)
Lemma find_slot_Some id l k i :
  find_slot id k l = Some i →
  k ≤ i < k + lengthZ l ∧ lookupZ l (i - k) = Some id ∧
  ∀ j, k ≤ j < i → lookupZ l (j - k) ≠ Some id.
Proof.
  revert k. induction l as [|x l IH]; intros k Hf; [done|]. cbn [find_slot] in Hf. unfold lengthZ.
  destruct (x =? id) eqn:E.
  - simplify_eq. apply Z.eqb_eq in E as ->. rewrite Z.sub_diag. split_and!; [lia|simpl; lia|done|lia].
  - apply IH in Hf as (? & Hl & Hlt). unfold lengthZ in *. apply Z.eqb_neq in E.
    assert (∀ j, k + 1 ≤ j → lookupZ (x :: l) (j - k) = lookupZ l (j - (k + 1))) as Hs.
    { intros j Hj. rewrite lookupZ_cons_S by lia. f_equal. lia. }
    split_and!; [lia|simpl; lia|rewrite Hs; [done|lia]|]. intros j Hj.
    destruct (decide (j = k)) as [->|].
    + rewrite Z.sub_diag, lookupZ_cons_0. congruence.
    + rewrite Hs by lia. apply Hlt. lia.
Qed.
Lemma find_slot_first id l k i :
  k ≤ i → lookupZ l (i - k) = Some id → (∀ j, k ≤ j < i → lookupZ l (j - k) ≠ Some id) →
  find_slot id k l = Some i.
Proof.
  revert k. induction l as [|x l IH]; intros k Hk Hl Hlt.
  { unfold lookupZ in Hl. by case_bool_decide. }
  assert (∀ j, k + 1 ≤ j → lookupZ (x :: l) (j - k) = lookupZ l (j - (k + 1))) as Hs.
  { intros j Hj. rewrite lookupZ_cons_S by lia. f_equal. lia. }
  cbn [find_slot]. destruct (decide (i = k)) as [->|].
  - rewrite Z.sub_diag, lookupZ_cons_0 in Hl. simplify_eq. by rewrite Z.eqb_refl.
  - assert (x ≠ id) as Hx.
    { intros ->. apply (Hlt k); [lia|]. by rewrite Z.sub_diag. }
    rewrite (proj2 (Z.eqb_neq _ _)) by done. apply IH; [lia|by rewrite <-Hs by lia|].
    intros j Hj. rewrite <-Hs by lia. apply Hlt. lia.
Qed.
Lemma find_slot_None id l k : find_slot id k l = None ↔ id ∉ l.
Proof.
  revert k. induction l as [|x l IH]; intros k; cbn [find_slot].
  { split; [intros _; apply not_elem_of_nil|done]. }
  rewrite not_elem_of_cons. destruct (x =? id) eqn:E.
  - apply Z.eqb_eq in E. naive_solver.
  - apply Z.eqb_neq in E. rewrite IH. naive_solver.
Qed.
(** Changing a slot that holds another id, to another id, does not move [id]. *)
Lemma find_slot_insert id l i x k y :
  lookupZ l i = Some x → x ≠ id → y ≠ id → find_slot id k (insertZ i y l) = find_slot id k l.
Proof.
  revert i k. induction l as [|z l IH]; intros i k Hl Hx Hy.
  { unfold lookupZ in Hl. by case_bool_decide. }
  unfold lookupZ in Hl. case_bool_decide; [|done]. unfold insertZ. rewrite bool_decide_true by done.
  destruct (Z.to_nat i) as [|n] eqn:En; cbn.
  - simplify_eq/=. by rewrite (proj2 (Z.eqb_neq x id)), (proj2 (Z.eqb_neq y id)).
  - destruct (z =? id); [done|].
    specialize (IH (Z.of_nat n) (k + 1)). unfold insertZ, lookupZ in IH.
    rewrite !bool_decide_true in IH by lia. rewrite Nat2Z.id in IH. by apply IH.
Qed.

Section super.
Context (ck : list Z → Z).

(** The meta page on the device is the one in memory and has its checksum. *)
Definition rc_synced (al : rc_allocator) : Prop :=
  dev_meta (rc_io al) = rc_meta al ∧ checksum (rc_meta al) = ck (splinters (rc_meta al)).

Definition with_slot (idx id : Z) (al : rc_allocator) : rc_allocator :=
  let ids := insertZ idx id (splinters (rc_meta al)) in
  let m := mk_meta_page ids (ck ids) in
  set_rc_io (λ d, mk_rc_device m (dev_refs d)) (set_rc_meta m al).
Lemma write_slot_run idx id al : write_slot ck idx id al = Ret (tt, with_slot idx id al).
Proof. done. Qed.

Lemma super_addr_inj al i j :
  0 < page_size (io_cfg (rc_cfg al)) → 31 * page_size (io_cfg (rc_cfg al)) < 2 ^ 64 →
  0 ≤ i < 30 → 0 ≤ j < 30 → super_addr al i = super_addr al j → i = j.
Proof. intros Hp Hb Hi Hj. unfold super_addr. rewrite !u64_small by nia. nia. Qed.
End super.

(** The super-block slots.  Registering a new root id gives it a page of the
    first extent after the meta page that no registered id has; looking it up
    returns that page, the other ids keep theirs, the meta page with its checksum
    is on the device, and removing the id restores the slots. *)
Theorem rc_super_addr_slots ck al id a al' :
  lengthZ (splinters (rc_meta al)) = RC_ALLOCATOR_MAX_ROOT_IDS →
  0 < page_size (io_cfg (rc_cfg al)) → 31 * page_size (io_cfg (rc_cfg al)) < 2 ^ 64 →
  id ≠ INVALID_ALLOCATOR_ROOT_ID → id ∉ splinters (rc_meta al) →
  rc_allocator_alloc_super_addr ck id al = Ret ((STATUS_OK, Some a), al') →
  page_size (io_cfg (rc_cfg al)) ≤ a < 31 * page_size (io_cfg (rc_cfg al)) ∧
  rc_allocator_get_super_addr id al' = Ret ((STATUS_OK, Some a), al') ∧
  (∀ id' a', id' ≠ INVALID_ALLOCATOR_ROOT_ID →
     rc_allocator_get_super_addr id' al = Ret ((STATUS_OK, Some a'), al) →
     a' ≠ a ∧ rc_allocator_get_super_addr id' al' = Ret ((STATUS_OK, Some a'), al')) ∧
  rc_synced ck al' ∧
  ∃ al'', rc_allocator_remove_super_addr ck id al' = Ret (tt, al'') ∧
    splinters (rc_meta al'') = splinters (rc_meta al) ∧ rc_synced ck al''.
Proof.
  intros Hlen Hp Hb Hid Hni Hr. unfold RC_ALLOCATOR_MAX_ROOT_IDS in Hlen.
  unfold rc_allocator_alloc_super_addr in Hr.
  rewrite (bind_run _ _ al al al) in Hr by done.
  destruct (find_slot INVALID_ALLOCATOR_ROOT_ID 0 (splinters (rc_meta al))) as [idx|] eqn:Ef; [|done].
  rewrite (bind_run _ _ _ _ _ (write_slot_run ck idx id al)) in Hr. injection Hr as <- <-.
  pose proof (find_slot_Some _ _ _ _ Ef) as (Hi & Hl & Hlt). rewrite Z.sub_0_r in Hl.
  rewrite Hlen in Hi.
  assert (find_slot id 0 (insertZ idx id (splinters (rc_meta al))) = Some idx) as Hnew.
  { apply find_slot_first; [lia|rewrite Z.sub_0_r; apply lookupZ_insertZ_eq; lia|].
    intros j Hj. rewrite Z.sub_0_r, lookupZ_insertZ_ne by lia. intros Hj'. apply Hni.
    by eapply lookupZ_elem. }
  split_and!.
  - unfold super_addr. rewrite u64_small; nia.
  - unfold super_addr. rewrite u64_small; nia.
  - unfold rc_allocator_get_super_addr. rewrite (bind_run _ _ _ (with_slot ck idx id al) (with_slot ck idx id al)) by done.
    cbn [with_slot set_rc_io set_rc_meta rc_meta splinters]. by rewrite Hnew.
  - intros id' a' Hid' Hg. unfold rc_allocator_get_super_addr in *.
    rewrite (bind_run _ _ al al al) in Hg by done.
    rewrite (bind_run _ _ _ (with_slot ck idx id al) (with_slot ck idx id al)) by done.
    destruct (find_slot id' 0 (splinters (rc_meta al))) as [i|] eqn:Ef'; [|done].
    injection Hg as <-. pose proof (find_slot_Some _ _ _ _ Ef') as (Hi' & Hl' & _).
    rewrite Z.sub_0_r in Hl'. rewrite Hlen in Hi'. split.
    + intros E%super_addr_inj; [|done|done|lia|lia]. congruence.
    + cbn [with_slot set_rc_io set_rc_meta rc_meta splinters].
      rewrite (find_slot_insert _ _ _ INVALID_ALLOCATOR_ROOT_ID), Ef'; try done.
      intros ->. by eapply Hni, lookupZ_elem.
  - done.
  - exists (with_slot ck idx INVALID_ALLOCATOR_ROOT_ID (with_slot ck idx id al)). split_and!; [|..|done].
    + unfold rc_allocator_remove_super_addr.
      rewrite (bind_run _ _ _ (with_slot ck idx id al) (with_slot ck idx id al)) by done.
      cbn [with_slot set_rc_io set_rc_meta rc_meta splinters]. by rewrite Hnew.
    + cbn. by rewrite insertZ_insertZ, insertZ_id.
Qed.

(** [rc_super_addr_slots] on the second registration of a fresh device. *)
Lemma rc_super_addr_slots_witness :
  ∃ al1 al2 a1 a2,
    rc_allocator_alloc_super_addr RcDemo.ck 7 RcDemo.init = Ret ((STATUS_OK, Some a1), al1) ∧
    rc_allocator_alloc_super_addr RcDemo.ck 9 al1 = Ret ((STATUS_OK, Some a2), al2) ∧
    a1 = 4096 ∧ a2 = 8192 ∧
    rc_allocator_get_super_addr 7 al2 = Ret ((STATUS_OK, Some a1), al2) ∧
    rc_allocator_get_super_addr 9 al2 = Ret ((STATUS_OK, Some a2), al2).
Proof.
  exists (with_slot RcDemo.ck 0 7 RcDemo.init),
    (with_slot RcDemo.ck 1 9 (with_slot RcDemo.ck 0 7 RcDemo.init)), 4096, 8192.
  split; [reflexivity|]. split; [reflexivity|]. split; [done|]. split; [done|].
  assert (9 ∉ splinters (rc_meta (with_slot RcDemo.ck 0 7 RcDemo.init))) as Hni
    by (apply (find_slot_None _ _ 0); reflexivity).
  destruct (rc_super_addr_slots RcDemo.ck (with_slot RcDemo.ck 0 7 RcDemo.init) 9 8192
    (with_slot RcDemo.ck 1 9 (with_slot RcDemo.ck 0 7 RcDemo.init))
    eq_refl eq_refl eq_refl ltac:(done) Hni eq_refl) as (_ & Hg & Ho & _).
  split; [|exact Hg]. apply (Ho 7 4096); [done|reflexivity].
Defined.

(** ** Persistence *)
Lemma io_words_all al :
  lengthZ (rc_ref_count al) = Z.of_nat (rc_buffer_words (rc_cfg al)) →
  0 ≤ rc_buffer_size (rc_cfg al) < 2 ^ 32 →
  take (Z.to_nat (u32 (rc_buffer_size (rc_cfg al)) / SIZEOF_REFCOUNT)) (rc_ref_count al) =
  rc_ref_count al.
Proof.
  intros Hl Hb. rewrite u32_small by done. apply take_ge. unfold lengthZ in Hl.
  unfold rc_buffer_words in Hl. lia.
Qed.

(** C21: Unmounting and mounting again.  When the meta page of the device is
    current (it is after any registration) and the counts take less than 4 GiB,
    mounting what [rc_allocator_unmount] left succeeds and restores every
    reference count, every super-block slot and the number of extents in use. *)
Theorem rc_unmount_mount ck al :
  rc_consistent al → rc_synced ck al → rc_allocator_valid_config (rc_cfg al) = STATUS_OK →
  lengthZ (rc_ref_count al) = Z.of_nat (rc_buffer_words (rc_cfg al)) →
  0 ≤ rc_buffer_size (rc_cfg al) < 2 ^ 32 →
  ∃ al', rc_allocator_mount ck (rc_cfg al) (rc_allocator_unmount al) = Ret (STATUS_OK, Some al') ∧
    rc_ref_count al' = rc_ref_count al ∧ splinters (rc_meta al') = splinters (rc_meta al) ∧
    rc_allocator_in_use al' = rc_allocator_in_use al ∧ rc_wf al'.
Proof.
  intros Hc [Hs1 Hs2] Hv Hl Hb.
  pose proof (valid_config_sizes _ Hv) as (Hp & He & _ & Hc1 & Hc2).
  unfold rc_allocator_mount, rc_allocator_init_meta_page. rewrite Hp, He.
  change (u64 ((1 + RC_ALLOCATOR_MAX_ROOT_IDS) * 4096) <=? 131072) with true.
  change (SIZEOF_META_PAGE <=? 4096) with true. cbn [andb].
  unfold rc_allocator_unmount. cbn [dev_meta dev_refs].
  rewrite <-Hc1, <-Hc2, Hs1, <-Hs2, !Z.eqb_refl. change (4096 `mod` 4096 =? 0) with true. cbn [andb].
  rewrite io_words_all by done.
  assert (∀ l, take (rc_buffer_words (rc_cfg al)) (rc_ref_count al ++ l) = rc_ref_count al) as Ht.
  { intros l. apply take_app_length'. unfold lengthZ in Hl. lia. }
  rewrite Ht, Hl, Z.ltb_irrefl. eexists. split; [reflexivity|]. cbn.
  split_and!; [done|done| |].
  - unfold rc_allocator_in_use. cbn. by rewrite (con_curr _ Hc).
  - destruct (con_wf _ Hc). by constructor.
Qed.

(** [rc_unmount_mount] on the fresh device with one table registered. *)
Lemma rc_unmount_mount_witness :
  let al := with_slot RcDemo.ck 0 7 RcDemo.init in
  ∃ al', rc_allocator_mount RcDemo.ck RcDemo.cfg (rc_allocator_unmount al) = Ret (STATUS_OK, Some al') ∧
    rc_allocator_in_use al' = 2.
Proof.
  intros al.
  assert (rc_consistent al) as Hc.
  { destruct (init_consistent RcDemo.io (8 * 131072) RcDemo.dev RcDemo.init ltac:(lia) RcDemo.init_ok)
      as [[] ? ? ?]. constructor; [|done..]. by constructor. }
  destruct (rc_unmount_mount RcDemo.ck al Hc) as (al' & Hm & _ & _ & Hu & _);
    [done|reflexivity|reflexivity|vm_compute; split; [discriminate|reflexivity]|].
  exists al'. split; [exact Hm|]. rewrite Hu. vm_compute. reflexivity.
Defined.

(** On a device whose counts fill a multiple of 4 GiB, such as one of 128 TiB
    with extents of 128 KiB, the 32-bit size in [rc_allocator_unmount] is 0 and no
    reference count reaches the device. *)
Theorem rc_unmount_truncates al :
  rc_buffer_size (rc_cfg al) `mod` 2 ^ 32 = 0 → rc_allocator_unmount al = rc_io al.
Proof.
  intros Hz. unfold rc_allocator_unmount, u32. rewrite Hz. cbn. by destruct (rc_io al).
Qed.

(** [rc_unmount_truncates] on a device of 128 TiB. *)
Lemma rc_unmount_truncates_witness :
  let al := mk_rc_allocator (allocator_config_init RcDemo.io (2 ^ 47)) [5; 6; 7] 0
              (mk_meta_page [] 0) empty_stats (mk_rc_device (mk_meta_page [] 0) [0; 0; 0]) in
  rc_allocator_valid_config (rc_cfg al) = STATUS_OK ∧ dev_refs (rc_allocator_unmount al) = [0; 0; 0].
Proof.
  intros al. split; [reflexivity|].
  rewrite (rc_unmount_truncates al); [reflexivity|vm_compute; reflexivity].
Defined.

(** ** Concurrent allocations *)
(** Every extent a thread has been given is marked, and nobody else has it. *)
Record alloc_inv (s : alloc_state) : Prop := {
  ai_marked t h : a_pcs s !! t = Some (ADone h) → lookupZ (a_refs s) h = Some 2;
  ai_owner t1 t2 h : a_pcs s !! t1 = Some (ADone h) → a_pcs s !! t2 = Some (ADone h) → t1 = t2;
}.

Lemma alloc_step_inv t s s' : alloc_inv s → alloc_step t s s' → alloc_inv s'.
Proof.
  intros [Hm Ho] Hs.
  assert (∀ q s1, a_pcs s1 = a_pcs s → a_refs s1 = a_refs s → (∀ h, q ≠ ADone h) →
    alloc_inv (a_move t q s1)) as Hmove.
  { intros q s1 Hp Hr Hq. constructor; cbn; rewrite Hp, ?Hr.
    - intros t' h [(_ & E & _)|[_ ?]]%list_lookup_insert_Some; [by destruct (Hq h)|eauto].
    - intros t1 t2 h [(_ & E & _)|[_ ?]]%list_lookup_insert_Some; [by destruct (Hq h)|].
      intros [(_ & E & _)|[_ ?]]%list_lookup_insert_Some; [by destruct (Hq h)|eauto]. }
  destruct Hs as [| |f h r Hp Hr|f h Hp Hr| |f h Hp|h Hp]; try (by apply Hmove).
  - apply Hmove; [done|done|]. intros h'. by case_match.
  - assert (∀ t', a_pcs s !! t' ≠ Some (ADone h)) as Hno.
    { intros t' Ht'. apply Hm in Ht'. congruence. }
    constructor; cbn.
    + intros t' h' [(<- & [= <-] & _)|[_ Ht']]%list_lookup_insert_Some.
      * apply lookupZ_insertZ_eq. by eapply lookupZ_Some.
      * rewrite lookupZ_insertZ_ne; [by eapply Hm|]. intros ->. by eapply Hno.
    + intros t1 t2 h' [(<- & E1 & _)|[? H1]]%list_lookup_insert_Some
        [(<- & E2 & _)|[? H2]]%list_lookup_insert_Some; simplify_eq; [done| | |by eapply Ho].
      * by destruct (Hno t2).
      * by destruct (Hno t1).
  - apply Hmove; [done|done|]. intros h'. by case_match.
  - constructor; cbn.
    + intros t' h' [(_ & E & _)|[Ht Ht']]%list_lookup_insert_Some; [done|].
      rewrite lookupZ_insertZ_ne; [by eapply Hm|]. intros ->. apply Ht. by eapply Ho.
    + intros t1 t2 h' [(_ & E & _)|[? H1]]%list_lookup_insert_Some; [done|].
      intros [(_ & E & _)|[? H2]]%list_lookup_insert_Some; [done|by eapply Ho].
Qed.

(** C22: Concurrent allocations never share an extent.  Under every interleaving
    of the accesses of [rc_allocator_alloc] by any number of threads, with extents
    freed in between, two threads that hold an allocated extent hold different
    ones, and the count of an extent in use is not 0. *)
Theorem rc_alloc_exclusive refs hand threads s t1 t2 h :
  alloc_reachable (alloc_start refs hand threads) s →
  a_pcs s !! t1 = Some (ADone h) →
  lookupZ (a_refs s) h = Some 2 ∧ (a_pcs s !! t2 = Some (ADone h) → t1 = t2).
Proof.
  intros Hr H1.
  assert (alloc_inv s) as [Hm Ho]; [|by eauto].
  clear H1. induction Hr as [|t s s' _ IH Hs]; [|by eapply alloc_step_inv].
  constructor; cbn; [intros t h' Ht|intros t1' t2' h' Ht _];
    by apply lookup_replicate in Ht as [? _].
Qed.

(** The step of thread [t], and the run of a schedule of threads. *)
Definition alloc_next (t : nat) (s : alloc_state) : option alloc_state :=
  q ← a_pcs s !! t;
  match q with
  | AIdle => Some (a_move t (AScan (a_hand s `mod` a_cap s)) s)
  | AScan f => Some (a_move t (AProbe f (a_hand s `mod` a_cap s)) (a_inc_hand s))
  | AProbe f h =>
      r ← lookupZ (a_refs s) h; Some (a_move t (if r =? 0 then ACas f h else ATest f h) s)
  | ACas f h =>
      r ← lookupZ (a_refs s) h;
      Some (if decide (r = 0) then a_move t (ADone h) (a_set_ref h 2 s) else a_move t (ATest f h) s)
  | ATest f h => Some (a_move t (if (h + 1) `mod` a_cap s =? f then AFail else AScan f) s)
  | ADone h => Some (a_move t AIdle (a_set_ref h 0 s))
  | AFail => None
  end.
Fixpoint alloc_schedule (ts : list nat) (s : alloc_state) : option alloc_state :=
  match ts with [] => Some s | t :: ts' => s' ← alloc_next t s; alloc_schedule ts' s' end.

Lemma alloc_next_step t s s' : alloc_next t s = Some s' → alloc_step t s s'.
Proof.
  unfold alloc_next. intros (q & Hq & Hs)%bind_Some. destruct q; simplify_eq; try by econstructor.
  - apply bind_Some in Hs as (r & ? & ?). simplify_eq. by econstructor.
  - apply bind_Some in Hs as (r & ? & ?). case_decide; simplify_eq; by econstructor.
Qed.
Lemma alloc_schedule_reachable ts s0 s s' :
  alloc_reachable s0 s → alloc_schedule ts s = Some s' → alloc_reachable s0 s'.
Proof.
  revert s. induction ts as [|t ts IH]; intros s Hr Hs; cbn [alloc_schedule] in Hs; [by simplify_eq|].
  apply bind_Some in Hs as (s1 & H1%alloc_next_step & Hs). eapply IH; [by eapply ar_step|done].
Qed.

(** [rc_alloc_exclusive] on two threads that scan together. *)
Lemma rc_alloc_exclusive_witness :
  let s := mk_alloc 4 [2; 2; 0; 2] 2 [ADone 0; ADone 1] in
  alloc_reachable (alloc_start [0; 0; 0; 2] 0 2) s ∧ lookupZ (a_refs s) 1 = Some 2.
Proof.
  intros s. assert (alloc_reachable (alloc_start [0; 0; 0; 2] 0 2) s) as Hr.
  { eapply (alloc_schedule_reachable [0; 1; 0; 1; 1; 0; 0; 1]%nat); [apply ar_refl|reflexivity]. }
  split; [exact Hr|]. apply (rc_alloc_exclusive [0; 0; 0; 2] 0 2 s 1 0 1 Hr eq_refl).
Defined.

(** An allocation can fail though the device has room.  The scan ends when it
    meets the extent before the one the hand pointed at when the call began; the
    hand is shared, so after other threads have moved it a call can end after one
    probe: here a thread gets STATUS_NO_SPACE with three of four extents free. *)
Theorem rc_alloc_spurious_no_space :
  ∃ s, alloc_reachable (alloc_start [0; 0; 0; 2] 0 2) s ∧
    a_pcs s = [AFail; AIdle] ∧ a_refs s = [0; 0; 0; 2].
Proof.
  exists (mk_alloc 4 [0; 0; 0; 2] 4 [AFail; AIdle]). split; [|by split].
  eapply (alloc_schedule_reachable
    ([0] ++ concat (replicate 3 [1; 1; 1; 1; 1]) ++ [0; 0; 0])%nat); [apply ar_refl|reflexivity].
Qed.
