(* ===== verification/MiniAllocator.v ===== *)
(** * The mini allocator

    mini_allocator.c: hands out single pages from extents, one extent per batch
    at a time with the next one allocated in advance, and records the extents it
    has started in a linked list of meta pages.  The extents come from an
    allocator of the interface; meta pages are pages of the memory the cache
    presents. *)
From S2P Require Import Prelude Allocator AllocatorInterface.

Definition MINI_WAIT : Z := 1.
Definition MINI_NO_REFS : Z := 2.
Definition MINI_MAX_BATCHES : Z := 8.
(** [sizeof(meta_entry)] and [offsetof(mini_meta_hdr, entry_buffer)]. *)
Definition SIZEOF_META_ENTRY : Z := 8.
Definition OFFSETOF_ENTRY_BUFFER : Z := 20.

(** A meta page: its header, and its entries by byte offset in the page. *)
Record mini_meta_page := mk_mini_meta_page {
  next_meta_addr : Z;
  pos : Z;
  num_entries : Z;
  entry_buffer : gmap Z Z;
}.
Definition blank_page : mini_meta_page := mk_mini_meta_page 0 0 0 ∅.

Record mini_allocator := mk_mini_allocator {
  mini_pinned : bool;
  mini_meta_head : Z;
  mini_meta_tail : Z;
  mini_type : page_type;
  mini_num_extents : Z;
  mini_num_batches : Z;
  mini_next_addr : list Z;
  mini_next_extent : list Z;
}.

Section mini.
Context {S : Type} `{ea : extent_allocator S} (cfg : allocator_config).
Abbreviation page_size := (page_size (io_cfg cfg)).
Abbreviation extent_size := (extent_size (io_cfg cfg)).

(** The extent allocator, the cached meta pages and the pins on them, and the
    mini allocator. *)
Record world := mk_world {
  w_al : S;
  w_pages : gmap Z mini_meta_page;
  w_pins : list Z;
  w_mini : mini_allocator;
}.
Definition X := M world.

Definition set_pages f w := mk_world (w_al w) (f (w_pages w)) (w_pins w) (w_mini w).
Definition set_pins f w := mk_world (w_al w) (w_pages w) (f (w_pins w)) (w_mini w).
Definition set_mini f w := mk_world (w_al w) (w_pages w) (w_pins w) (f (w_mini w)).
Definition set_al a w := mk_world a (w_pages w) (w_pins w) (w_mini w).

Definition with_meta_tail v m := mk_mini_allocator (mini_pinned m) (mini_meta_head m) v
  (mini_type m) (mini_num_extents m) (mini_num_batches m) (mini_next_addr m) (mini_next_extent m).
Definition with_num_extents v m := mk_mini_allocator (mini_pinned m) (mini_meta_head m) (mini_meta_tail m)
  (mini_type m) v (mini_num_batches m) (mini_next_addr m) (mini_next_extent m).
Definition with_next_addr v m := mk_mini_allocator (mini_pinned m) (mini_meta_head m) (mini_meta_tail m)
  (mini_type m) (mini_num_extents m) (mini_num_batches m) v (mini_next_extent m).
Definition with_next_extent v m := mk_mini_allocator (mini_pinned m) (mini_meta_head m) (mini_meta_tail m)
  (mini_type m) (mini_num_extents m) (mini_num_batches m) (mini_next_addr m) v.

(** A call of the extent allocator. *)
Definition lift {A} (m : M S A) : X A := λ w,
  match m (w_al w) with
  | Ret (a, s') => Ret (a, set_al s' w)
  | Assert => Assert | Undef => Undef | Block => Block | Fuel => Fuel
  end.

Definition base_addr (addr : Z) : Z := allocator_config_extent_base_addr cfg addr.

(** [cache_get] of a meta page. *)
Definition get_meta_page (addr : Z) : X mini_meta_page :=
  w ← mget; mopt (w_pages w !! addr).
Definition put_meta_page (addr : Z) (p : mini_meta_page) : X unit := mmod (set_pages (insert addr p)).
(** [cache_alloc]: the contents are whatever the page buffer held. *)
Definition alloc_meta_page (addr : Z) : X unit := put_meta_page addr blank_page.
(** [cache_extent_discard] *)
Definition extent_discard (base : Z) : X unit :=
  mmod (set_pages (filter (λ kv, base_addr kv.1 ≠ base))).

Definition mini_init_meta_page (addr : Z) : X unit :=
  p ← get_meta_page addr;
  put_meta_page addr (mk_mini_meta_page 0 OFFSETOF_ENTRY_BUFFER 0 (entry_buffer p)).

Definition mini_allocator_get_new_extent : X (platform_status * option Z) :=
  w ← mget;
  r ← lift (ea_alloc (mini_type (w_mini w)));
  mwhen (SUCCESS r.1)
    (mmod (set_mini (λ m, with_num_extents (u64 (mini_num_extents m + 1)) m)));;
  mret r.

(** The call with [&mini->next_extent[batch]], and the assertion after it. *)
Definition get_next_extent (batch : Z) : X unit :=
  r ← mini_allocator_get_new_extent;
  massert (SUCCESS r.1);;
  e ← mopt r.2;
  w ← mget;
  _ ← mopt (lookupZ (mini_next_extent (w_mini w)) batch);
  mmod (set_mini (λ m, with_next_extent (insertZ batch e (mini_next_extent m)) m)).

Definition mini_init (meta_head meta_tail num_batches : Z) (type : page_type) : X Z :=
  massert (num_batches <=? MINI_MAX_BATCHES);;
  massert (negb (num_batches =? 0));;
  mmod (set_mini (λ _, mk_mini_allocator (bool_decide (type = PAGE_TYPE_MEMTABLE)) meta_head 0 type 1
    num_batches (replicate 8 0) (replicate 8 0)));;
  (if meta_tail =? 0 then
     mmod (set_mini (with_meta_tail meta_head));;
     alloc_meta_page meta_head;;
     mini_init_meta_page meta_head;;
     ref ← lift (ea_inc_ref (base_addr meta_head));
     massert (ref =? MINI_NO_REFS + 1);;
     w ← mget;
     mwhen (mini_pinned (w_mini w)) (mmod (set_pins (cons meta_head)))
   else mmod (set_mini (with_meta_tail meta_tail)));;
  mfor (Z.to_nat num_batches) 0 get_next_extent;;
  w ← mget;
  mopt (lookupZ (mini_next_extent (w_mini w)) 0).

Definition entry_fits_in_page (start entry_size : Z) : bool := u64 (start + entry_size) <=? page_size.

Definition mini_append_entry_to_page (addr extent_addr : Z) : X bool :=
  p ← get_meta_page addr;
  if negb (entry_fits_in_page (pos p) SIZEOF_META_ENTRY) then mret false else
  put_meta_page addr (mk_mini_meta_page (next_meta_addr p) (u64 (pos p + SIZEOF_META_ENTRY))
    (u32 (num_entries p + 1)) (<[pos p := extent_addr]> (entry_buffer p)));;
  mret true.

Definition mini_set_next_meta_addr (addr next : Z) : X unit :=
  p ← get_meta_page addr;
  put_meta_page addr (mk_mini_meta_page next (pos p) (num_entries p) (entry_buffer p)).

(** The address of the page after the meta tail, in a new extent when the tail
    is the last page of its own. *)
Definition new_meta_addr : X Z :=
  w ← mget;
  let new := u64 (mini_meta_tail (w_mini w) + page_size) in
  if new `mod` extent_size =? 0 then
    r ← mini_allocator_get_new_extent; massert (SUCCESS r.1);; mopt r.2
  else mret new.

(** The branch of [mini_append_entry] for a full meta page. *)
Definition extend_meta (next_addr : Z) : X unit :=
  w ← mget;
  let tail := mini_meta_tail (w_mini w) in
  new ← new_meta_addr;
  mini_set_next_meta_addr tail new;;
  alloc_meta_page new;;
  mmod (set_mini (with_meta_tail new));;
  mini_init_meta_page new;;
  _ ← mini_append_entry_to_page new next_addr;
  mwhen (mini_pinned (w_mini w)) (mmod (set_pins (cons new))).

Definition mini_append_entry (next_addr : Z) : X unit :=
  w ← mget;
  success ← mini_append_entry_to_page (mini_meta_tail (w_mini w)) next_addr;
  if success : bool then mret tt else extend_meta next_addr.

Definition mini_lock_batch_get_next_addr (batch : Z) : X Z :=
  w ← mget;
  next_addr ← mopt (lookupZ (mini_next_addr (w_mini w)) batch);
  if next_addr =? MINI_WAIT then mblock else
  mmod (set_mini (λ m, with_next_addr (insertZ batch MINI_WAIT (mini_next_addr m)) m));;
  mret next_addr.
Definition mini_unlock_batch_set_next_addr (batch next_addr : Z) : X unit :=
  mmod (set_mini (λ m, with_next_addr (insertZ batch next_addr (mini_next_addr m)) m)).

Definition read_next_extent (batch : Z) : X Z :=
  w ← mget; mopt (lookupZ (mini_next_extent (w_mini w)) batch).

(** Start the batch's next extent: allocate its successor and record it. *)
Definition start_extent (batch : Z) : X Z :=
  extent_addr ← read_next_extent batch;
  get_next_extent batch;;
  mini_append_entry extent_addr;;
  mret extent_addr.

(** The address, and what is stored to [*next_extent]. *)
Definition mini_alloc (batch : Z) : X (Z * Z) :=
  next_addr ← mini_lock_batch_get_next_addr batch;
  next_addr ← (if next_addr `mod` extent_size =? 0 then start_extent batch else mret next_addr);
  next_extent ← read_next_extent batch;
  mini_unlock_batch_set_next_addr batch (u64 (next_addr + page_size));;
  mret (next_addr, next_extent).

(** Drop the two references of an extent only the mini allocator holds. *)
Definition release_extent (type : page_type) (e : Z) (between : X unit) : X unit :=
  ref ← lift (ea_dec_ref e type);
  massert (ref =? AL_NO_REFS);;
  between;;
  ref ← lift (ea_dec_ref e type);
  massert (ref =? AL_FREE).

Definition mini_release : X unit :=
  w ← mget;
  mfor (Z.to_nat (mini_num_batches (w_mini w))) 0 (λ batch,
    e ← read_next_extent batch;
    release_extent (mini_type (w_mini w)) e (mret tt)).

Definition mini_dealloc_extent (type : page_type) (base : Z) : X unit :=
  release_extent type base (extent_discard base).

Fixpoint mini_deinit (fuel : nat) (meta_addr : Z) (type : page_type) : X unit :=
  match fuel with
  | O => mfuel
  | Datatypes.S fuel' =>
      p ← get_meta_page meta_addr;
      let next := next_meta_addr p in
      mwhen (negb (allocator_config_pages_share_extent cfg meta_addr next))
        (mini_dealloc_extent type (base_addr meta_addr));;
      if next =? 0 then mret tt else mini_deinit fuel' next type
  end.

Fixpoint mini_for_each_meta_page (fuel : nat) (meta_addr : Z) (func : Z → X unit) : X unit :=
  if meta_addr =? 0 then mret tt else
  match fuel with
  | O => mfuel
  | Datatypes.S fuel' =>
      _ ← get_meta_page meta_addr;
      func meta_addr;;
      p ← get_meta_page meta_addr;
      mini_for_each_meta_page fuel' (next_meta_addr p) func
  end.
(** [mini_for_each_meta_page_func]: the entries of one meta page. *)
Definition mini_for_each_entry (func : Z → X unit) (meta_addr : Z) : X unit :=
  p ← get_meta_page meta_addr;
  mfor (Z.to_nat (num_entries p)) 0 (λ i,
    p ← get_meta_page meta_addr;
    e ← mopt (entry_buffer p !! (OFFSETOF_ENTRY_BUFFER + SIZEOF_META_ENTRY * i));
    func e).
Definition mini_for_each (fuel : nat) (meta_head : Z) (func : Z → X unit) : X unit :=
  mini_for_each_meta_page fuel meta_head (mini_for_each_entry func).

Definition mini_inc_ref (meta_head : Z) : X Z :=
  ref ← lift (ea_inc_ref (base_addr meta_head));
  massert (MINI_NO_REFS <? ref);;
  mret (u32 (ref - MINI_NO_REFS)).

(** The walks take one step per meta page, so the number of pages is fuel enough. *)
Definition walk_fuel (w : world) : nat := Datatypes.S (size (w_pages w)).

Definition mini_dec_ref (meta_head : Z) (type : page_type) : X Z :=
  ref ← lift (ea_dec_ref (base_addr meta_head) type);
  if negb (ref =? MINI_NO_REFS) then mret (u32 (ref - MINI_NO_REFS)) else
  w ← mget;
  mini_for_each (walk_fuel w) meta_head (mini_dealloc_extent type);;
  mini_deinit (walk_fuel w) meta_head type;;
  mret 0.
End mini.
Arguments world S : clear implicits.
