(* ===== verification/MiniAllocatorFacts.v ===== *)
(** * Invariant of the mini allocator

    The chain of meta pages, the extents the mini allocator owns, and the effect
    of each operation on both. *)
From S2P Require Import Prelude Allocator AllocatorInterface MiniAllocator.

(** ** Runs of equal elements *)
(** One element for each run: the extents of consecutive meta pages. *)
Fixpoint runs (l : list Z) : list Z :=
  match l with
  | [] => []
  | x :: l' => match l' with
               | [] => [x]
               | y :: _ => if decide (x = y) then runs l' else x :: runs l'
               end
  end.
Lemma elem_of_runs x l : x ∈ runs l ↔ x ∈ l.
Proof.
  induction l as [|y [|z l] IH]; [done|done|]. cbn [runs] in *.
  rewrite (elem_of_cons (z :: l) x y). destruct (decide (y = z)) as [->|].
  - rewrite IH, elem_of_cons. intuition.
  - by rewrite elem_of_cons, IH.
Qed.
Lemma runs_snoc l x :
  runs (l ++ [x]) = if decide (list.last l = Some x) then runs l else runs l ++ [x].
Proof.
  induction l as [|y l IH]; [done|]. destruct l as [|z l].
  - cbn. repeat case_decide; simplify_eq; done.
  - change (runs ((y :: z :: l) ++ [x])) with
      (if decide (y = z) then runs ((z :: l) ++ [x]) else y :: runs ((z :: l) ++ [x])).
    change (list.last (y :: z :: l)) with (list.last (z :: l)).
    change (runs (y :: z :: l)) with (if decide (y = z) then runs (z :: l) else y :: runs (z :: l)).
    rewrite IH. by repeat case_decide.
Qed.

Section facts.
Context {S : Type} {cfg : allocator_config} `{al : allocator_laws S cfg}.
Abbreviation ps := (page_size (io_cfg cfg)).
Abbreviation es := (extent_size (io_cfg cfg)).
Abbreviation base := (base_addr cfg).
Abbreviation extent := (is_extent cfg).
Implicit Types (w : world S) (L : list (Z * list Z)).

Lemma mini_geo : geometry cfg.
Proof. exact al_geometry. Qed.
Lemma extent_range b : extent b → 0 ≤ b < 2 ^ 63 ∧ b + es ≤ 2 ^ 63.
Proof.
  intros [[q ->] Hb]. pose proof (geo_device _ mini_geo) as Hd. pose proof (sizes_pos _ mini_geo) as Hs.
  assert (q < extent_capacity cfg) by nia. assert (0 ≤ q) by nia. nia.
Qed.

Lemma get_meta_page_run a p w : w_pages w !! a = Some p → get_meta_page a w = Ret (p, w).
Proof.
  intros Hp. unfold get_meta_page. rewrite (bind_run _ _ w w w) by done. by rewrite Hp.
Qed.
Lemma read_next_extent_run b e w :
  lookupZ (mini_next_extent (w_mini w)) b = Some e → read_next_extent b w = Ret (e, w).
Proof.
  intros He. unfold read_next_extent. rewrite (bind_run _ _ w w w) by done. by rewrite He.
Qed.

(** ** The chain of meta pages *)
(** Page [a] of the chain: it links to [nxt] and lists the extents [ds]. *)
Definition page_holds (pages : gmap Z mini_meta_page) (a nxt : Z) (ds : list Z) : Prop :=
  ∃ p, pages !! a = Some p ∧ next_meta_addr p = nxt ∧ pos p = 20 + 8 * lengthZ ds ∧
    pos p ≤ ps ∧ num_entries p = lengthZ ds ∧
    ∀ i d, lookupZ ds i = Some d → entry_buffer p !! (20 + 8 * i) = Some d.

Definition first_addr (nxt : Z) (L : list (Z * list Z)) : Z :=
  match L with [] => nxt | (a, _) :: _ => a end.
Fixpoint linked (pages : gmap Z mini_meta_page) (L : list (Z * list Z)) (nxt : Z) : Prop :=
  match L with
  | [] => True
  | (a, ds) :: L' => page_holds pages a (first_addr nxt L') ds ∧ linked pages L' nxt
  end.
Lemma linked_app pages L1 L2 nxt :
  linked pages (L1 ++ L2) nxt ↔ linked pages L1 (first_addr nxt L2) ∧ linked pages L2 nxt.
Proof.
  induction L1 as [|[a ds] L1 IH]; cbn [linked app]; [tauto|]. rewrite IH.
  assert (first_addr nxt (L1 ++ L2) = first_addr (first_addr nxt L2) L1) as ->
    by (by destruct L1 as [|[]]). tauto.
Qed.
Lemma linked_ext pages pages' L nxt :
  (∀ a, a ∈ L.*1 → pages' !! a = pages !! a) → linked pages L nxt → linked pages' L nxt.
Proof.
  induction L as [|[a ds] L IH]; cbn [linked]; [done|]. intros He [Hp HL]. split.
  - destruct Hp as (p & Hp & ?). exists p. rewrite He by (cbn; by left). done.
  - apply IH; [|done]. intros b Hb. apply He. cbn. by right.
Qed.

(** ** Owned extents *)
(** The counts [refs]: 2 for each extent of [O], and [r0] elsewhere. *)
Definition counts (r0 refs : Z → Z) (O : list Z) : Prop :=
  ∀ b, extent b → refs b = if decide (b ∈ O) then 2 else r0 b.
Record owned (r0 refs : Z → Z) (O : list Z) : Prop := {
  ow_nodup : NoDup O;
  ow_counts : counts r0 refs O;
  ow_fresh : ∀ b, b ∈ O → extent b ∧ b ≠ 0 ∧ r0 b = 0;
}.
Lemma owned_permute r0 refs O O' : O ≡ₚ O' → owned r0 refs O → owned r0 refs O'.
Proof.
  intros HO [Hn Hc Hf]. constructor.
  - by rewrite <-HO.
  - intros b Hb. rewrite Hc by done. by apply decide_ext; rewrite HO.
  - intros b. rewrite <-HO. apply Hf.
Qed.
Lemma owned_ext r0 refs refs' O :
  (∀ b, extent b → refs' b = refs b) → owned r0 refs O → owned r0 refs' O.
Proof. intros He [Hn Hc Hf]. constructor; [done| |done]. intros b Hb. by rewrite He, Hc. Qed.
Lemma owned_add r0 refs refs' O a :
  owned r0 refs O → extent a → refs a = 0 → a ≠ 0 → ref_set cfg refs refs' a 2 →
  owned r0 refs' (a :: O).
Proof.
  intros [Hn Hc Hf] Ha Hr H0 Hs.
  assert (a ∉ O) as HaO by (intros HaO; rewrite (Hc a Ha), decide_True in Hr by done; lia).
  rewrite (Hc a Ha), decide_False in Hr by done. constructor.
  - by apply list.NoDup_cons.
  - intros b Hb. rewrite Hs by done. destruct (decide (b = a)) as [->|Hne].
    + rewrite decide_True; [done|]. by left.
    + rewrite Hc by done. apply decide_ext. rewrite elem_of_cons. tauto.
  - intros b [->|?]%elem_of_cons; [done|by apply Hf].
Qed.

(** Dropping the two references of an owned extent. *)
Lemma release_extent_run r0 type e O between w :
  al_ok (w_al w) → type ≠ PAGE_TYPE_INVALID → owned r0 (al_ref (w_al w)) (e :: O) →
  (∀ s, ∃ w', between (set_al s w) = Ret (tt, w') ∧ w_al w' = s) →
  ∃ s s' w', al_ok s' ∧ owned r0 (al_ref s') O ∧ between (set_al s w) = Ret (tt, w') ∧
    release_extent type e between w = Ret (tt, set_al s' w').
Proof.
  intros Hok Ht Ho Hbt. destruct Ho as [Hn Hc Hf]. apply list.NoDup_cons in Hn as [HeO Hn].
  destruct (Hf e) as (He & H0 & Hr0); [by left|].
  assert (al_ref (w_al w) e = 2) as Hr by (rewrite Hc, decide_True by (done || by left); done).
  destruct (al_dec (w_al w) e type Hok He ltac:(lia) Ht) as (s1 & H1 & Hok1 & Hs1).
  rewrite Hr in H1, Hs1. assert (al_ref s1 e = 1) as Hr1 by (rewrite Hs1, decide_True by done; done).
  destruct (al_dec s1 e type Hok1 He ltac:(lia) Ht) as (s2 & H2 & Hok2 & Hs2).
  rewrite Hr1 in H2, Hs2. destruct (Hbt s1) as (w' & Hb & Hw').
  exists s1, s2, w'. split_and!; [done| |done|].
  - constructor; [done| |].
    + intros b Hb'. rewrite Hs2 by done. destruct (decide (b = e)) as [->|Hne].
      * by rewrite decide_False.
      * rewrite Hs1 by done. rewrite decide_False by done. rewrite Hc by done.
        apply decide_ext. rewrite elem_of_cons. tauto.
    + intros b Hb'. apply Hf. by right.
  - unfold release_extent.
    rewrite (bind_run _ _ w 1 (set_al s1 w)) by (unfold lift; by rewrite H1).
    rewrite (bind_run _ _ _ tt (set_al s1 w)) by done.
    rewrite (bind_run _ _ _ tt w') by done.
    rewrite (bind_run _ _ w' 0 (set_al s2 w')) by (unfold lift; by rewrite Hw', H2). done.
Qed.

(** ** Releasing and destroying *)
Lemma drop_lookupZ {A} (l : list A) i x :
  lookupZ l i = Some x → drop (Z.to_nat i) l = x :: drop (Z.to_nat (i + 1)) l.
Proof.
  intros Hl. pose proof (lookupZ_Some _ _ _ Hl). unfold lookupZ in Hl.
  rewrite bool_decide_true in Hl by lia.
  rewrite (drop_S _ _ _ Hl). do 2 f_equal. lia.
Qed.

Lemma release_all r0 NE R w :
  al_ok (w_al w) → mini_type (w_mini w) ≠ PAGE_TYPE_INVALID →
  lengthZ NE = mini_num_batches (w_mini w) →
  (∀ i e, lookupZ NE i = Some e → lookupZ (mini_next_extent (w_mini w)) i = Some e) →
  owned r0 (al_ref (w_al w)) (NE ++ R) →
  ∃ s', mini_release w = Ret (tt, set_al s' w) ∧ al_ok s' ∧ owned r0 (al_ref s') R.
Proof.
  intros Hok Ht Hl Hne Ho. unfold mini_release. rewrite (bind_run _ _ w w w) by done.
  run_for (λ i w', ∃ s', w' = set_al s' w ∧ al_ok s' ∧
    owned r0 (al_ref s') (drop (Z.to_nat i) NE ++ R)); [|exists (w_al w); by destruct w|].
  - intros i w1 Hi (s & -> & Hs & Hos).
    assert (is_Some (lookupZ NE i)) as [e He] by (apply lookupZ_is_Some; lia).
    rewrite (drop_lookupZ _ _ _ He) in Hos. cbn [app] in Hos.
    destruct (release_extent_run r0 (mini_type (w_mini w)) e (drop (Z.to_nat (i + 1)) NE ++ R) (mret tt : M (world S) unit)
      (set_al s w)) as (s1 & s2 & w2 & Hs2 & Ho2 & Hb & Hr2); [done|done|done|by eexists|].
    exists (set_al s2 w). split; [|by eauto].
    rewrite (bind_run _ _ _ e (set_al s w)) by (apply read_next_extent_run, Hne, He).
    etrans; [exact Hr2|]. by injection Hb as <-.
  - destruct Hfor as (w' & Hr & s' & -> & Hok' & Ho'). exists s'. split; [done|]. split; [done|].
    rewrite drop_ge in Ho'; [done|]. unfold lengthZ in Hl. lia.
Qed.

Lemma dealloc_run r0 type e O w :
  al_ok (w_al w) → type ≠ PAGE_TYPE_INVALID → owned r0 (al_ref (w_al w)) (e :: O) →
  ∃ s', mini_dealloc_extent cfg type e w =
      Ret (tt, set_pages (filter (λ kv, base kv.1 ≠ e)) (set_al s' w)) ∧
    al_ok s' ∧ owned r0 (al_ref s') O.
Proof.
  intros Hok Ht Ho. unfold mini_dealloc_extent.
  destruct (release_extent_run r0 type e O (extent_discard cfg e) w)
    as (s1 & s2 & w2 & Hs2 & Ho2 & Hb & Hr2); [done|done|done|by eexists|].
  exists s2. split; [|done]. rewrite Hr2. injection Hb as <-. done.
Qed.
Lemma discard_keeps (pages : gmap Z mini_meta_page) e a :
  base a ≠ e → filter (λ kv : Z * mini_meta_page, base kv.1 ≠ e) pages !! a = pages !! a.
Proof.
  intros Ha. destruct (pages !! a) as [p|] eqn:E.
  - by apply map_lookup_filter_Some.
  - apply map_lookup_filter_None. by left.
Qed.

(** What the walks keep: the meta pages [P] and the mini allocator. *)
Definition keeps (P : list Z) w w' : Prop :=
  w_mini w' = w_mini w ∧ ∀ a, a ∈ P → w_pages w' !! a = w_pages w !! a.

Lemma for_each_entry_run r0 type P a nxt ds R w :
  al_ok (w_al w) → type ≠ PAGE_TYPE_INVALID → owned r0 (al_ref (w_al w)) (ds ++ R) →
  a ∈ P → page_holds (w_pages w) a nxt ds → (∀ b d, b ∈ P → d ∈ ds → base b ≠ d) →
  ∃ w', mini_for_each_entry (mini_dealloc_extent cfg type) a w = Ret (tt, w') ∧
    al_ok (w_al w') ∧ owned r0 (al_ref (w_al w')) R ∧ keeps P w w'.
Proof.
  intros Hok Ht Ho Ha Hp Hd. unfold mini_for_each_entry.
  destruct Hp as (p & Hp & _ & _ & _ & Hn & He).
  rewrite (bind_run _ _ w p w) by (by apply get_meta_page_run).
  run_for (λ i w', al_ok (w_al w') ∧
    owned r0 (al_ref (w_al w')) (drop (Z.to_nat i) ds ++ R) ∧ keeps P w w');
    [|split_and!; [exact Hok|exact Ho|done]|].
  - intros i w1 Hi (Hs & Hos & Hk1).
    assert (is_Some (lookupZ ds i)) as [d Hdi] by (apply lookupZ_is_Some; lia).
    rewrite (drop_lookupZ _ _ _ Hdi) in Hos. cbn [app] in Hos.
    destruct (dealloc_run r0 type d (drop (Z.to_nat (i + 1)) ds ++ R) w1 Hs Ht Hos)
      as (s2 & Hr2 & Hs2 & Ho2).
    eexists. split.
    + rewrite (bind_run _ _ w1 p w1) by (apply get_meta_page_run; by rewrite (proj2 Hk1)).
      rewrite (bind_run _ _ w1 d w1); [exact Hr2|].
      change (OFFSETOF_ENTRY_BUFFER + SIZEOF_META_ENTRY * i) with (20 + 8 * i).
      by rewrite (He _ _ Hdi).
    + split; [done|]. split; [done|]. split; [apply Hk1|].
      intros b Hb. cbn [w_pages set_pages set_al]. rewrite discard_keeps; [by apply Hk1|].
      apply Hd; [done|by eapply lookupZ_elem].
  - destruct Hfor as (w' & Hr & Hok' & Ho' & Hk).
    exists w'. split; [done|]. split; [done|]. split; [|done].
    rewrite drop_ge in Ho'; [done|]. unfold lengthZ in Hn. lia.
Qed.

Lemma for_each_run r0 type P L R fuel w :
  al_ok (w_al w) → type ≠ PAGE_TYPE_INVALID → owned r0 (al_ref (w_al w)) (concat L.*2 ++ R) →
  linked (w_pages w) L 0 → (∀ a, a ∈ L.*1 → a ∈ P ∧ a ≠ 0) →
  (∀ b d, b ∈ P → d ∈ concat L.*2 → base b ≠ d) → (length L ≤ fuel)%nat →
  ∃ w', mini_for_each fuel (first_addr 0 L) (mini_dealloc_extent cfg type) w = Ret (tt, w') ∧
    al_ok (w_al w') ∧ owned r0 (al_ref (w_al w')) R ∧ keeps P w w'.
Proof.
  unfold mini_for_each. revert fuel w.
  induction L as [|[a ds] L IH]; intros fuel w Hok Ht Ho HL HP Hd Hf.
  { exists w. by destruct fuel. }
  destruct fuel as [|fuel]; [cbn in Hf; lia|]. cbn [first_addr mini_for_each_meta_page].
  destruct (HP a) as [Ha Ha0]; [by left|]. rewrite (proj2 (Z.eqb_neq a 0)) by done.
  destruct HL as [Hp HL]. cbn in Ho. rewrite <-app_assoc in Ho.
  assert (∃ p, w_pages w !! a = Some p ∧ next_meta_addr p = first_addr 0 L) as (p & Hpa & Hnx)
    by (destruct Hp as (p & ? & ? & _); by exists p).
  destruct (for_each_entry_run r0 type P a _ ds (concat L.*2 ++ R) w Hok Ht Ho Ha Hp)
    as (w1 & Hr1 & Hok1 & Ho1 & Hk1).
  { intros b d Hb Hdd. apply Hd; [done|]. cbn. apply elem_of_app. by left. }
  destruct (IH fuel w1) as (w2 & Hr2 & Hok2 & Ho2 & Hk2); try done.
  - apply (linked_ext (w_pages w)); [|done]. intros b Hb. apply Hk1, HP. cbn. by right.
  - intros b Hb. apply HP. cbn. by right.
  - intros b d Hb Hdd. apply Hd; [done|]. cbn. apply elem_of_app. by right.
  - cbn in Hf. lia.
  - exists w2. split_and!; [|done|done|].
    + rewrite (bind_run _ _ w p w) by (by apply get_meta_page_run).
      rewrite (bind_run _ _ _ _ _ Hr1).
      rewrite (bind_run _ _ w1 p w1) by (apply get_meta_page_run; by rewrite (proj2 Hk1)).
      by rewrite Hnx.
    + split; [by rewrite (proj1 Hk2), (proj1 Hk1)|]. intros b Hb.
      by rewrite (proj2 Hk2), (proj2 Hk1).
Qed.

Lemma deinit_run r0 type L R fuel w :
  al_ok (w_al w) → type ≠ PAGE_TYPE_INVALID → L ≠ [] →
  owned r0 (al_ref (w_al w)) (runs (base <$> L.*1) ++ R) →
  linked (w_pages w) L 0 → (∀ a, a ∈ L.*1 → a ≠ 0) → (length L ≤ fuel)%nat →
  ∃ w', mini_deinit cfg fuel (first_addr 0 L) type w = Ret (tt, w') ∧
    al_ok (w_al w') ∧ owned r0 (al_ref (w_al w')) R ∧ w_mini w' = w_mini w.
Proof.
  revert fuel w. induction L as [|[a ds] L IH]; intros fuel w Hok Ht Hne Ho HL HP Hf; [done|].
  destruct fuel as [|fuel]; [cbn in Hf; lia|]. cbn [first_addr mini_deinit].
  destruct HL as [(p & Hp & Hnx & _) HL].
  rewrite (bind_run _ _ w p w) by (by apply get_meta_page_run). rewrite Hnx.
  assert (base 0 = 0) as Hb0.
  { unfold base_addr, allocator_config_extent_base_addr. apply Z.land_0_l. }
  destruct L as [|[b ds'] L].
  - cbn [first_addr]. cbn in Ho.
    destruct (dealloc_run r0 type (base a) R w Hok Ht Ho) as (s1 & Hr1 & Hs1 & Ho1).
    destruct (ow_fresh _ _ _ Ho (base a)) as (_ & Hba & _); [by left|].
    assert (allocator_config_pages_share_extent cfg a 0 = false) as ->.
    { apply not_true_iff_false. rewrite share_extent. unfold base_addr in *. congruence. }
    cbn [negb mwhen]. rewrite (bind_run _ _ _ _ _ Hr1). by eexists.
  - cbn [first_addr].
    rewrite (proj2 (Z.eqb_neq b 0)) by (apply HP; cbn; by right; left).
    destruct (decide (base a = base b)) as [E|E].
    + assert (allocator_config_pages_share_extent cfg a b = true) as -> by (by apply share_extent).
      cbn [negb mwhen]. rewrite (bind_run _ _ w tt w) by done.
      apply (IH fuel w); try done.
      * cbn in Ho. by rewrite decide_True in Ho.
      * intros c Hc. apply HP. by right.
      * cbn in *. lia.
    + assert (allocator_config_pages_share_extent cfg a b = false) as ->.
      { apply not_true_iff_false. by rewrite share_extent. }
      change (runs (base <$> ((a, ds) :: (b, ds') :: L).*1)) with
        (if decide (base a = base b) then runs (base <$> ((b, ds') :: L).*1)
         else base a :: runs (base <$> ((b, ds') :: L).*1)) in Ho.
      rewrite decide_False in Ho by done. cbn [app] in Ho.
      destruct (dealloc_run r0 type (base a) _ w Hok Ht Ho) as (s1 & Hr1 & Hs1 & Ho1).
      cbn [negb mwhen]. rewrite (bind_run _ _ _ _ _ Hr1).
      refine (IH fuel (set_pages _ (set_al s1 w)) Hs1 Ht _ Ho1 _ _ _); [done|..].
      * apply (linked_ext (w_pages w)); [|done]. intros c Hc. cbn [w_pages set_pages set_al].
        apply discard_keeps. intros Hca. apply (ow_nodup _ _ _) in Ho.
        apply list.NoDup_cons in Ho as [Hni _]. apply Hni, elem_of_app. left.
        apply elem_of_runs. rewrite <-Hca. by apply list_elem_of_fmap_2.
      * intros c Hc. apply HP. by right.
      * cbn in *. lia.
Qed.
End facts.

(** * Allocation keeps the mini allocator's invariant *)
Section inv.
Context {S : Type} {cfg : allocator_config} `{al : allocator_laws S cfg}.
Abbreviation ps := (page_size (io_cfg cfg)).
Abbreviation es := (extent_size (io_cfg cfg)).
Abbreviation base := (base_addr cfg).
Abbreviation extent := (is_extent cfg).
Implicit Types (w : world S) (L : list (Z * list Z)).

(** The meta pages of [L] are chained from the head to the tail of the mini
    allocator, page after page and extent after extent. *)
Record chain_ok L w : Prop := {
  ch_linked : linked (cfg := cfg) (w_pages w) L 0;
  ch_head : first_addr 0 L = mini_meta_head (w_mini w);
  ch_tail : ∃ L0 ds, L = L0 ++ [(mini_meta_tail (w_mini w), ds)];
  ch_pages : ∀ a, a ∈ L.*1 → 0 < a < 2 ^ 63 ∧ (ps | a) ∧ extent (base a);
  ch_order : ∀ a, a ∈ L.*1 → base a = base (mini_meta_tail (w_mini w)) →
    a ≤ mini_meta_tail (w_mini w);
  ch_nodup : NoDup L.*1;
}.
Definition meta_extents L : list Z := list.tail (runs (base <$> L.*1)).

(** ** One more extent *)
Lemma new_extent_run r0 O w r w' :
  al_ok (w_al w) → mini_type (w_mini w) ≠ PAGE_TYPE_INVALID →
  owned (cfg := cfg) r0 (al_ref (w_al w)) O → r0 0 ≠ 0 → extent 0 →
  mini_allocator_get_new_extent w = Ret (r, w') → SUCCESS r.1 = true →
  ∃ e s', r.2 = Some e ∧
    w' = set_mini (λ m, with_num_extents (u64 (mini_num_extents m + 1)) m) (set_al s' w) ∧
    al_ok s' ∧ owned (cfg := cfg) r0 (al_ref s') (e :: O) ∧ r0 e = 0.
Proof.
  intros Hok Ht Ho H0 He0 Hr Hs. unfold mini_allocator_get_new_extent in Hr.
  rewrite (bind_run _ _ w w w) in Hr by done.
  apply bind_Ret in Hr as (r1 & w1 & Hl & Hr). unfold lift in Hl.
  destruct (ea_alloc _ (w_al w)) as [[r2 s']| | | |] eqn:Ea; try done.
  injection Hl as -> <-. destruct (al_alloc _ _ _ _ Hok Ht Ea) as [Hok' Hspec].
  assert (r = r1) as ->.
  { destruct (SUCCESS r1.1); cbn in Hr; by inv_run. }
  rewrite Hs in Hr. cbn [mwhen] in Hr. inv_run.
  destruct r1 as [st [e|]]; cbn in Hs; unfold SUCCESS in Hs; apply bool_decide_eq_true in Hs as ->;
    [|done]. destruct Hspec as (He & Hr0 & Hset).
  assert (e ≠ 0) as Hne.
  { intros ->. rewrite (ow_counts _ _ _ Ho 0 He0) in Hr0. case_decide; lia. }
  assert (owned (cfg := cfg) r0 (al_ref s') (e :: O)) as Ho' by (by eapply owned_add).
  exists e, s'. split_and!; try done. apply (ow_fresh _ _ _ Ho'). by left.
Qed.

(** ** Appending to a meta page *)
Lemma append_run w a nxt ds d ok w' :
  28 ≤ ps ≤ 2 ^ 32 →
  page_holds (cfg := cfg) (w_pages w) a nxt ds →
  mini_append_entry_to_page cfg a d w = Ret (ok, w') →
  if ok then ∃ p, w' = set_pages (insert a p) w ∧
    page_holds (cfg := cfg) (<[a := p]> (w_pages w)) a nxt (ds ++ [d])
  else w' = w ∧ ds ≠ [].
Proof.
  intros Hps (p & Hp & Hn & Hpos & Hfit & Hnum & He) Hr. unfold mini_append_entry_to_page in Hr.
  rewrite (bind_run _ _ w p w) in Hr by (by apply get_meta_page_run).
  unfold entry_fits_in_page, SIZEOF_META_ENTRY in Hr.
  pose proof (Zle_0_nat (length ds)) as Hlen. fold (lengthZ ds) in Hlen.
  rewrite !(u64_small (pos p + 8)) in Hr by lia. rewrite u32_small in Hr by lia.
  destruct (pos p + 8 <=? ps) eqn:E; cbn [negb] in Hr.
  - apply Z.leb_le in E. apply bind_Ret in Hr as (? & ? & Hput & Hr). unfold put_meta_page in Hput.
    inv_run. eexists. split; [reflexivity|]. eexists. rewrite lookup_insert_eq. split; [done|].
    assert (lengthZ (ds ++ [d]) = lengthZ ds + 1) as Hl by (unfold lengthZ; rewrite length_app; cbn; lia).
    cbn [next_meta_addr pos num_entries entry_buffer]. rewrite Hl. split_and!; try done; try lia.
    intros i x Hi. destruct (decide (i = lengthZ ds)) as [->|Hne].
    + rewrite Hpos. rewrite lookup_insert_eq. rewrite lookupZ_app_last in Hi. done.
    + rewrite lookup_insert_ne by lia. apply He. by rewrite lookupZ_app_ne in Hi.
  - inv_run. split; [done|]. intros ->. apply Z.leb_gt in E. change (lengthZ (@nil Z)) with 0 in Hpos. lia.
Qed.

(** ** Extending the chain *)
Lemma page_step t :
  0 < t < 2 ^ 63 → (ps | t) → extent (base t) →
  u64 (t + ps) = t + ps ∧ 0 < t + ps ≤ 2 ^ 63 ∧ (ps | t + ps) ∧
  ((t + ps) `mod` es ≠ 0 → t + ps < 2 ^ 63 ∧ base (t + ps) = base t) ∧
  ((t + ps) `mod` es = 0 → t + ps = base t + es).
Proof.
  intros Ht Hd He. pose proof (sizes_pos cfg al_geometry) as Hs.
  pose proof (base_range cfg al_geometry t ltac:(lia)) as (H1 & H2 & H3).
  fold (base_addr cfg t) in *. pose proof (extent_range _ He) as Hb.
  assert ((ps | base t + es - t)) as Hgap.
  { pose proof (geo_divide _ (al_geometry (cfg := cfg))) as Hpe.
    apply Z.divide_sub_r; [|done]. apply Z.divide_add_r; [|done]. by etrans. }
  assert (t + ps ≤ base t + es) as Hle.
  { pose proof (Z.divide_pos_le ps (base t + es - t) ltac:(lia) Hgap). lia. }
  assert (t + ps = base t + es → (t + ps) `mod` es = 0) as Hend.
  { intros ->. apply Z.mod_divide; [lia|]. apply Z.divide_add_r; [done|]. apply Z.divide_refl. }
  split; [apply u64_small; lia|]. split; [lia|]. split; [by apply Z.divide_add_r; [|apply Z.divide_refl]|].
  split.
  - intros Hm. assert (t + ps < base t + es) by (destruct (decide (t + ps = base t + es)); [tauto|lia]).
    split; [lia|]. apply (base_unique cfg al_geometry); [lia|done|lia].
  - intros Hm. apply Z.mod_divide in Hm as [q Hq]; [|lia]. destruct H2 as [q' Hq'].
    rewrite Hq in *. rewrite Hq' in *. assert (q' < q) by nia. assert (q ≤ q' + 1) by nia. nia.
Qed.

(** What an append leaves: the chain [L'], with [d] recorded last, and perhaps one
    more meta extent, [ms]. *)
Record appended r0 O L d w L' ms w' : Prop := {
  ap_al : al_ok (w_al w');
  ap_owned : owned (cfg := cfg) r0 (al_ref (w_al w')) (ms ++ O);
  ap_chain : chain_ok L' w';
  ap_metas : meta_extents L' = meta_extents L ++ ms;
  ap_data : concat L'.*2 = concat L.*2 ++ [d];
  ap_mini : ∃ t n, w_mini w' = with_num_extents n (with_meta_tail t (w_mini w));
}.

Lemma linked_snoc pages L0 a ds nxt :
  linked (cfg := cfg) pages (L0 ++ [(a, ds)]) nxt ↔
  linked (cfg := cfg) pages L0 a ∧ page_holds (cfg := cfg) pages a nxt ds.
Proof. rewrite linked_app. cbn. tauto. Qed.

Lemma meta_extents_snoc L x ds :
  L ≠ [] → meta_extents (L ++ [(x, ds)]) =
  meta_extents L ++ (if decide (list.last (base <$> L.*1) = Some (base x)) then [] else [base x]).
Proof.
  intros HL. unfold meta_extents. rewrite !fmap_app. cbn. rewrite runs_snoc. case_decide.
  - by rewrite app_nil_r.
  - destruct (runs (base <$> L.*1)) as [|y l] eqn:E; [|done].
    destruct L as [|[a d] L]; [done|]. exfalso.
    assert (base a ∈ runs (base <$> ((a, d) :: L).*1)) as Hin by (apply elem_of_runs; by left).
    rewrite E in Hin. by apply elem_of_nil in Hin.
Qed.

Lemma append_here r0 O L0 t ds d w p :
  al_ok (w_al w) → owned (cfg := cfg) r0 (al_ref (w_al w)) O →
  chain_ok (L0 ++ [(t, ds)]) w → mini_meta_tail (w_mini w) = t →
  page_holds (cfg := cfg) (<[t := p]> (w_pages w)) t 0 (ds ++ [d]) →
  appended r0 O (L0 ++ [(t, ds)]) d w (L0 ++ [(t, ds ++ [d])]) [] (set_pages (insert t p) w).
Proof.
  intros Hok Ho [Hl Hh Ht Hp Hor Hnd] Htl Hpage. constructor; [done|done| | | |].
  - constructor; cbn [w_pages w_mini set_pages].
    + apply linked_snoc in Hl as [Hl _]. apply linked_snoc. split; [|done].
      apply (linked_ext (w_pages w)); [|done]. intros a Ha. apply lookup_insert_ne.
      intros ->. rewrite fmap_app in Hnd. apply list.NoDup_app in Hnd as (_ & Hnd & _).
      apply (Hnd _ Ha). by left.
    + rewrite <-Hh. by destruct L0 as [|[]].
    + exists L0, (ds ++ [d]). by rewrite Htl.
    + intros a Ha. apply Hp. by rewrite !fmap_app in *.
    + intros a Ha. apply Hor. by rewrite !fmap_app in *.
    + by rewrite !fmap_app in *.
  - unfold meta_extents. rewrite app_nil_r. by rewrite !fmap_app.
  - rewrite !fmap_app, !concat_app. cbn. by rewrite !app_nil_r, app_assoc.
  - exists t, (mini_num_extents (w_mini w)). cbn. destruct (w_mini w) eqn:E. cbn in *. by subst.
Qed.

(** The address [new_meta_addr] finds, and the extent it may have taken. *)
Lemma new_meta_run r0 O L w new w1 :
  al_ok (w_al w) → mini_type (w_mini w) ≠ PAGE_TYPE_INVALID →
  owned (cfg := cfg) r0 (al_ref (w_al w)) O → r0 0 ≠ 0 → extent 0 →
  chain_ok L w → (∀ a, a ∈ L.*1 → base a ∈ O ∨ r0 (base a) ≠ 0) →
  new_meta_addr cfg w = Ret (new, w1) →
  let t := mini_meta_tail (w_mini w) in
  ∃ ms s n, w1 = set_mini (with_num_extents n) (set_al s w) ∧
    al_ok s ∧ owned (cfg := cfg) r0 (al_ref s) (ms ++ O) ∧
    0 < new < 2 ^ 63 ∧ (ps | new) ∧ extent (base new) ∧
    (ms = [] ∧ base new = base t ∧ t < new ∨
     ms = [new] ∧ base new = new ∧ ∀ a, a ∈ L.*1 → base a ≠ new).
Proof.
  intros Hok Hty Ho H0 He0 Hch Hb Hr t. unfold new_meta_addr in Hr.
  rewrite (bind_run _ _ w w w) in Hr by done. fold t in Hr.
  assert (t ∈ L.*1) as Ht.
  { destruct (ch_tail _ _ Hch) as (L0 & ds & ->). rewrite fmap_app. apply elem_of_app. right. by left. }
  destruct (ch_pages _ _ Hch t Ht) as (Ht1 & Ht2 & Ht3).
  pose proof (sizes_pos cfg al_geometry) as Hs.
  destruct (page_step t Ht1 Ht2 Ht3) as (Hu & Hrange & Hd & Hin & _). rewrite Hu in Hr.
  destruct ((t + ps) `mod` es =? 0) eqn:E.
  - apply bind_Ret in Hr as (r & w2 & Hg & Hr).
    apply bind_Ret in Hr as (? & ? & (-> & -> & Hsuc)%assert_Ret & Hr).
    destruct (new_extent_run r0 O w r w2 Hok Hty Ho H0 He0 Hg Hsuc) as (e & s' & Hre & -> & Hok' & Ho' & Hre0).
    rewrite Hre in Hr. inv_run. simplify_eq.
    pose proof (ow_fresh _ _ _ Ho' new ltac:(by left)) as (Hnew & Hnz & _).
    pose proof (extent_range _ Hnew) as Hnb.
    exists [new], s', (u64 (mini_num_extents (w_mini w) + 1)). split; [done|].
    assert (base new = new) as Hbn by (by apply (base_extent cfg al_geometry)).
    split_and!; [done|done|lia|lia| |by rewrite Hbn|].
    + destruct Hnew as [Hnew _]. etrans; [|exact Hnew]. apply al_geometry.
    + right. split; [done|]. split; [done|]. intros a Ha Ea. destruct (Hb a Ha) as [HaO|Hnr].
      * rewrite Ea in HaO. pose proof (ow_nodup _ _ _ Ho') as Hnd.
        by apply list.NoDup_cons in Hnd as [? _].
      * by rewrite Ea in Hnr.
  - apply Z.eqb_neq in E. destruct (Hin E) as [Hlt Hbn]. inv_run.
    exists [], (w_al w), (mini_num_extents (w_mini w)).
    split; [by destruct w as [? ? ? []]|]. split_and!; [done|done|lia|lia|done|by rewrite Hbn|].
    left. split_and!; [done|done|lia].
Qed.

Lemma extend_meta_run r0 O L d w u w' :
  28 ≤ ps ≤ 2 ^ 32 →
  al_ok (w_al w) → mini_type (w_mini w) ≠ PAGE_TYPE_INVALID →
  owned (cfg := cfg) r0 (al_ref (w_al w)) O → r0 0 ≠ 0 → extent 0 →
  chain_ok L w → (∀ a, a ∈ L.*1 → base a ∈ O ∨ r0 (base a) ≠ 0) →
  extend_meta cfg d w = Ret (u, w') →
  ∃ L' ms, appended r0 O L d w L' ms w'.
Proof.
  intros Hps Hok Hty Ho H0 He0 Hch Hb Hr. unfold extend_meta in Hr.
  rewrite (bind_run _ _ w w w) in Hr by done.
  apply bind_Ret in Hr as (new & w1 & Hnew & Hr).
  destruct (new_meta_run r0 O L w new w1 Hok Hty Ho H0 He0 Hch Hb Hnew)
    as (ms & s & n & -> & Hok1 & Ho1 & Hn1 & Hn2 & Hn3 & Hcase). clear Hnew.
  destruct (ch_tail _ _ Hch) as (L0 & ds & ->). set (t := mini_meta_tail (w_mini w)) in *.
  destruct Hch as [Hl Hh _ Hp Hor Hnd].
  assert (t ∈ (L0 ++ [(t, ds)]).*1) as Ht by (rewrite fmap_app; apply elem_of_app; right; by left).
  assert (new ∉ (L0 ++ [(t, ds)]).*1) as Hni.
  { intros Hi. destruct Hcase as [(_ & E & Hlt)|(_ & E & Hf)]; [|by apply (Hf new)].
    specialize (Hor new Hi E). lia. }
  assert (t ≠ new) as Htn by (intros <-; done).
  apply linked_snoc in Hl as [Hl0 Hlt].
  destruct Hlt as (p & Hp1 & Hp2 & Hp3 & Hp4 & Hp5 & Hp6).
  unfold mini_set_next_meta_addr in Hr.
  apply bind_Ret in Hr as ([] & w2 & Hset & Hr).
  set (w1 := set_mini (with_num_extents n) (set_al s w)) in *.
  rewrite (bind_run _ _ w1 p w1) in Hset by (by apply get_meta_page_run).
  injection Hset as <-.
  apply bind_Ret in Hr as ([] & w3 & [= <-] & Hr).
  apply bind_Ret in Hr as ([] & w4 & [= <-] & Hr).
  unfold mini_init_meta_page in Hr.
  apply bind_Ret in Hr as ([] & w5 & Hinit & Hr).
  apply bind_Ret in Hinit as (p0 & ? & Hg & [= <-]).
  rewrite (get_meta_page_run new blank_page) in Hg by (cbn; apply lookup_insert_eq).
  injection Hg as <- <-.
  apply bind_Ret in Hr as (ok & w6 & Happ & Hr).
  apply (append_run _ new 0 [] d) in Happ; [|done|].
  2:{ eexists. cbn [w_pages set_pages set_mini]. rewrite lookup_insert_eq. split; [done|].
      split_and!; try done.
      - change (20 ≤ ps). lia.
      - intros i x. by rewrite lookupZ_nil. }
  destruct ok; [|by destruct Happ]. destruct Happ as (pf & -> & Hpf). cbn [app] in Hpf.
  set (pages' := <[new := pf]> _) in Hpf.
  assert (∃ pins, w' = mk_world s pages' pins (with_num_extents n (with_meta_tail new (w_mini w)))) as [pins ->].
  { destruct (mini_pinned (w_mini w)); cbn in Hr; injection Hr as _ <-; by eexists. }
  clear Hr.
  assert (∀ a, a ≠ new → a ≠ t → pages' !! a = w_pages w !! a) as Hframe.
  { intros a Ha1 Ha2. unfold pages'. cbn. by rewrite !lookup_insert_ne. }
  exists ((L0 ++ [(t, ds)]) ++ [(new, [d])]), ms.
  assert (page_holds (cfg := cfg) pages' t new ds) as Hpt.
  { exists (mk_mini_meta_page new (pos p) (num_entries p) (entry_buffer p)).
    split; [|done]. unfold pages'. cbn. by rewrite !lookup_insert_ne, lookup_insert_eq by done. }
  constructor; [done|exact Ho1| | | |].
  - constructor; cbn [w_pages w_mini].
    + apply linked_snoc. split; [|exact Hpf]. apply linked_snoc. split; [|done].
      apply (linked_ext (w_pages w)); [|done]. intros a Ha. apply Hframe.
      * intros ->. apply Hni. rewrite fmap_app. apply elem_of_app. by left.
      * intros ->. rewrite fmap_app in Hnd. apply list.NoDup_app in Hnd as (_ & Hnd & _).
        apply (Hnd _ Ha). by left.
    + rewrite <-app_assoc. cbn. rewrite <-Hh. by destruct L0 as [|[]].
    + by exists (L0 ++ [(t, ds)]), [d].
    + intros a. rewrite fmap_app. intros [Ha|Ha]%elem_of_app; [by apply Hp|].
      apply list_elem_of_singleton in Ha as ->. done.
    + intros a. rewrite fmap_app. intros [Ha|Ha]%elem_of_app.
      * cbn. intros E. destruct Hcase as [(_ & En & Hlt)|(_ & En & Hf)].
        -- assert (base a = base t) as Et by (by rewrite E). specialize (Hor a Ha Et). lia.
        -- destruct (Hf a Ha). by rewrite E.
      * apply list_elem_of_singleton in Ha as ->. done.
    + rewrite fmap_app. apply list.NoDup_app. split_and!; [done| |apply NoDup_singleton].
      intros a Ha ->%list_elem_of_singleton. done.
  - rewrite meta_extents_snoc by (by destruct L0). f_equal.
    assert (list.last (base <$> (L0 ++ [(t, ds)]).*1) = Some (base t)) as ->.
    { rewrite !fmap_app. exact (last_snoc (base t) (base <$> L0.*1)). }
    destruct Hcase as [(-> & En & _)|(-> & En & Hf)].
    + by rewrite decide_True by congruence.
    + rewrite decide_False; [by rewrite En|]. intros [= E]. apply (Hf t Ht). congruence.
  - rewrite fmap_app, concat_app. done.
  - by exists new, n.
Qed.

Lemma append_entry_run r0 O L d w u w' :
  28 ≤ ps ≤ 2 ^ 32 →
  al_ok (w_al w) → mini_type (w_mini w) ≠ PAGE_TYPE_INVALID →
  owned (cfg := cfg) r0 (al_ref (w_al w)) O → r0 0 ≠ 0 → extent 0 →
  chain_ok L w → (∀ a, a ∈ L.*1 → base a ∈ O ∨ r0 (base a) ≠ 0) →
  mini_append_entry cfg d w = Ret (u, w') →
  ∃ L' ms, appended r0 O L d w L' ms w'.
Proof.
  intros Hps Hok Hty Ho H0 He0 Hch Hb Hr. unfold mini_append_entry in Hr.
  rewrite (bind_run _ _ w w w) in Hr by done.
  apply bind_Ret in Hr as (ok & w1 & Ha & Hr).
  destruct (ch_tail _ _ Hch) as (L0 & ds & ->). set (t := mini_meta_tail (w_mini w)) in *.
  pose proof (ch_linked _ _ Hch) as Hl. apply linked_snoc in Hl as [_ Hl].
  apply (append_run _ _ 0 ds) in Ha; [|done|done]. destruct ok.
  - destruct Ha as (p & -> & Hp). inv_run. do 2 eexists.
    by eapply append_here.
  - destruct Ha as [-> _]. by eapply extend_meta_run.
Qed.
End inv.
