(* ===== verification/MiniAllocatorTheorems.v ===== *)
(** * What the mini allocator guarantees *)
From S2P Require Import Prelude Allocator RcAllocator AllocatorInterface RcAllocatorFacts RcAllocatorTheorems.
From S2P Require Import MiniAllocator MiniAllocatorFacts.

Section theorems.
Context {S : Type} {cfg : allocator_config} `{al : allocator_laws S cfg}.
Abbreviation ps := (page_size (io_cfg cfg)).
Abbreviation es := (extent_size (io_cfg cfg)).
Abbreviation base := (base_addr cfg).
Abbreviation extent := (is_extent cfg).
Implicit Types (w : world S) (L : list (Z * list Z)).

Definition data_extents L : list Z := concat L.*2.
(** The extents allocated in advance. *)
Definition spare_extents w : list Z :=
  take (Z.to_nat (mini_num_batches (w_mini w))) (mini_next_extent (w_mini w)).

(** The mini allocator with the chain [L], the addresses [Q] handed out so far, and
    the counts [r0] of the extents it does not own. *)
Record mini_inv r0 L (Q : list Z) w : Prop := {
  mi_al : al_ok (w_al w);
  mi_type : mini_type (w_mini w) ≠ PAGE_TYPE_INVALID;
  mi_zero : r0 0 ≠ 0 ∧ extent 0;
  mi_head : r0 (base (mini_meta_head (w_mini w))) ≠ 0;
  mi_batches : 1 ≤ mini_num_batches (w_mini w) ≤ 8;
  mi_len : lengthZ (mini_next_addr (w_mini w)) = 8 ∧ lengthZ (mini_next_extent (w_mini w)) = 8;
  mi_chain : chain_ok (cfg := cfg) L w;
  mi_owned : owned (cfg := cfg) r0 (al_ref (w_al w))
    (meta_extents (cfg := cfg) L ++ data_extents L ++ spare_extents w);
  mi_next b x : 0 ≤ b < mini_num_batches (w_mini w) →
    lookupZ (mini_next_addr (w_mini w)) b = Some x →
    0 ≤ x ≤ 2 ^ 63 ∧ (ps | x) ∧
    (x `mod` es ≠ 0 → base x ∈ data_extents L ∧ ∀ q, q ∈ Q → base q = base x → q < x);
  mi_apart b b' x x' : b ≠ b' → 0 ≤ b < mini_num_batches (w_mini w) →
    0 ≤ b' < mini_num_batches (w_mini w) →
    lookupZ (mini_next_addr (w_mini w)) b = Some x → lookupZ (mini_next_addr (w_mini w)) b' = Some x' →
    x `mod` es ≠ 0 → x' `mod` es ≠ 0 → base x ≠ base x';
  mi_given : NoDup Q ∧ ∀ q, q ∈ Q → 0 ≤ q < 2 ^ 63 ∧ (ps | q) ∧ base q ∈ data_extents L;
}.

Lemma chain_bases r0 L (O : list Z) w :
  chain_ok (cfg := cfg) L w → r0 (base (mini_meta_head (w_mini w))) ≠ 0 →
  (∀ b, b ∈ meta_extents (cfg := cfg) L → b ∈ O) →
  ∀ a, a ∈ L.*1 → base a ∈ O ∨ r0 (base a) ≠ 0.
Proof.
  intros Hc Hh HO a Ha.
  assert (base a ∈ runs (base <$> L.*1)) as Hr by (apply elem_of_runs; by apply list_elem_of_fmap_2).
  destruct L as [|[h ds] L]; [by apply elem_of_nil in Ha|].
  pose proof (ch_head _ _ Hc) as Hhd. cbn in Hhd. unfold meta_extents in HO.
  assert (∃ l, runs (base <$> ((h, ds) :: L).*1) = base h :: l) as [l El].
  { assert (∀ x l', ∃ l, runs (x :: l') = x :: l) as Hruns; [|apply Hruns].
    clear. intros x l'. revert x. induction l' as [|y l' IH]; intros x; [by exists []|].
    change (runs (x :: y :: l')) with (if decide (x = y) then runs (y :: l') else x :: runs (y :: l')).
    destruct (decide (x = y)) as [->|]; [apply IH|by eexists]. }
  rewrite El in Hr, HO. apply elem_of_cons in Hr as [->|Hr]; [right; by rewrite Hhd|left; by apply HO].
Qed.

Lemma get_next_extent_run r0 O b w u w' :
  al_ok (w_al w) → mini_type (w_mini w) ≠ PAGE_TYPE_INVALID →
  owned (cfg := cfg) r0 (al_ref (w_al w)) O → r0 0 ≠ 0 → extent 0 →
  get_next_extent b w = Ret (u, w') →
  ∃ e s n, w' = set_mini (λ m, with_next_extent (insertZ b e (mini_next_extent m))
                                 (with_num_extents n m)) (set_al s w) ∧
    0 ≤ b < lengthZ (mini_next_extent (w_mini w)) ∧ al_ok s ∧
    owned (cfg := cfg) r0 (al_ref s) (e :: O).
Proof.
  intros Hok Hty Ho H0 He0 Hr. unfold get_next_extent in Hr.
  apply bind_Ret in Hr as (r & w1 & Hg & Hr).
  apply bind_Ret in Hr as (? & ? & (-> & -> & Hs)%assert_Ret & Hr).
  destruct (new_extent_run _ _ _ _ _ Hok Hty Ho H0 He0 Hg Hs) as (e & s & He & -> & Hok' & Ho' & _).
  rewrite He in Hr. inv_run. rename select (lookupZ _ _ = _) into Hl.
  apply lookupZ_Some in Hl. cbn in Hl.
  simplify_eq. eexists _, s, (u64 (mini_num_extents (w_mini w) + 1)).
  split_and!; [reflexivity|lia|lia|done|done].
Qed.

Lemma swap_spare (l : list Z) n b e x :
  lookupZ l b = Some x → 0 ≤ b < Z.of_nat n →
  (x :: take n (insertZ b e l)) ≡ₚ (e :: take n l).
Proof.
  intros Hl Hb. unfold lookupZ in Hl. unfold insertZ. rewrite bool_decide_true in * by lia.
  rewrite take_insert_lt by lia.
  assert (take n l !! Z.to_nat b = Some x) as Ht by (rewrite lookup_take_lt by lia; done).
  assert (Z.to_nat b < length (take n l))%nat as Hlt by (by eapply lookup_lt_Some).
  assert (take n l = take (Z.to_nat b) (take n l) ++ (x :: drop (Datatypes.S (Z.to_nat b)) (take n l)))
    as El by (by rewrite take_drop_middle).
  rewrite insert_take_drop by done. rewrite El at 3.
  by rewrite <-!Permutation_middle, Permutation_swap.
Qed.

(** Continuing the current extent of a batch. *)
Lemma alloc_in_extent r0 L Q w b x :
  mini_inv r0 L Q w → 0 ≤ b < mini_num_batches (w_mini w) →
  lookupZ (mini_next_addr (w_mini w)) b = Some x → x `mod` es ≠ 0 →
  (x ∉ Q) ∧ 0 ≤ x < 2 ^ 63 ∧ (ps | x) ∧
  mini_inv r0 L (x :: Q)
    (set_mini (λ m, with_next_addr (insertZ b (u64 (x + ps)) (mini_next_addr m)) m) w).
Proof.
  intros [Hok Hty Hz Hh Hnb Hln Hc Ho Hnx Hap [Hnd Hg]] Hb Hx Hm.
  destruct (Hnx b x Hb Hx) as (Hx1 & Hx2 & Hx3). destruct (Hx3 Hm) as [Hx4 Hx5].
  assert (x ∉ Q) as Hni by (intros HQ; specialize (Hx5 x HQ eq_refl); lia).
  pose proof (sizes_pos cfg al_geometry) as Hs.
  assert (x < 2 ^ 63) as Hlt.
  { destruct (decide (x = 2 ^ 63)) as [->|]; [|lia]. exfalso. apply Hm.
    destruct (geo_extent _ (al_geometry (cfg := cfg))) as (k & Hk & ->).
    replace (2 ^ 63) with (2 ^ (63 - k) * 2 ^ k) by (rewrite <-Z.pow_add_r by lia; f_equal; lia).
    apply Z_mod_mult. }
  assert (0 < x) as Hpos.
  { destruct (decide (x = 0)) as [->|]; [|lia]. by rewrite Zmod_0_l in Hm. }
  assert (extent (base x)) as He.
  { apply (ow_fresh _ _ _ Ho). apply elem_of_app. right. apply elem_of_app. by left. }
  destruct (page_step x ltac:(lia) Hx2 He) as (Hu & Hr & Hd & Hin & _).
  split; [done|]. split; [lia|]. split; [done|].
  assert (∀ y, u64 (x + ps) `mod` es ≠ 0 → base y = base (u64 (x + ps)) → base y = base x) as Hsame.
  { intros y. rewrite Hu. intros Hm' ->. by destruct (Hin Hm'). }
  constructor; cbn [w_al w_mini set_mini with_next_addr mini_type mini_num_batches mini_next_addr
    mini_next_extent mini_meta_head]; try done.
  - by rewrite lengthZ_insertZ.
  - destruct Hc. by constructor.
  - intros b' x' Hb' Hx'. rewrite lookupZ_insertZ in Hx'. case_bool_decide as Hbb.
    + destruct Hbb as [<- _]. injection Hx' as <-. rewrite Hu. split; [lia|]. split; [done|].
      intros Hm'. destruct (Hin Hm') as [_ Eb]. rewrite Eb. split; [done|].
      intros q [->|Hq]%elem_of_cons Eq; [lia|]. specialize (Hx5 q Hq Eq). lia.
    + destruct (Hnx b' x' Hb' Hx') as (H1 & H2 & H3). split; [done|]. split; [done|].
      intros Hm'. destruct (H3 Hm') as [H4 H5]. split; [done|].
      intros q [->|Hq]%elem_of_cons Eq; [|by apply H5]. exfalso.
      assert (b ≠ b') as Hbne by (intros <-; apply Hbb; split; [done|]; by apply lookupZ_Some in Hx).
      by apply (Hap b b' x x').
  - intros b1 b2 x1 x2 Hne Hb1 Hb2 Hx1' Hx2' Hm1 Hm2 E.
    rewrite lookupZ_insertZ in Hx1', Hx2'.
    case_bool_decide as E2; case_bool_decide as E1; simplify_eq.
    + by destruct E1 as [<- _], E2 as [<- _].
    + destruct E2 as [<- _]. apply (Hap b1 b x1 x); try done. by apply Hsame.
    + destruct E1 as [<- _]. apply (Hap b b2 x x2); try done. symmetry. by apply Hsame.
    + by apply (Hap b1 b2 x1 x2).
  - split; [by apply list.NoDup_cons|]. intros q [->|Hq]%elem_of_cons; [|by apply Hg].
    split; [lia|]. done.
Qed.

(** Starting the next extent of a batch. *)
Lemma start_extent_run r0 L Q w b e0 w' :
  28 ≤ ps ≤ 2 ^ 32 → mini_inv r0 L Q w → 0 ≤ b < mini_num_batches (w_mini w) →
  ∀ na, start_extent cfg b (set_mini (with_next_addr na) w) = Ret (e0, w') →
  ∃ L' e n t, extent e0 ∧ 0 < e0 ∧ (e0 ∉ data_extents L) ∧
    chain_ok (cfg := cfg) L' w' ∧ data_extents L' = data_extents L ++ [e0] ∧
    w_mini w' = with_num_extents n (with_meta_tail t (with_next_addr na (with_next_extent
      (insertZ b e (mini_next_extent (w_mini w))) (w_mini w)))) ∧
    al_ok (w_al w') ∧
    owned (cfg := cfg) r0 (al_ref (w_al w'))
      (meta_extents (cfg := cfg) L' ++ data_extents L' ++
       take (Z.to_nat (mini_num_batches (w_mini w))) (insertZ b e (mini_next_extent (w_mini w)))).
Proof.
  intros Hps [Hok Hty [Hz1 Hz2] Hh Hnb Hln Hc Ho Hnx Hap Hg] Hb na Hr. unfold start_extent in Hr.
  apply bind_Ret in Hr as (e1 & w1 & Hrd & Hr). unfold read_next_extent in Hrd. inv_run.
  rename select (lookupZ _ b = Some _) into Hl. cbn in Hl.
  rename select (get_next_extent _ _ = _) into Hg1. rename select (mini_append_entry _ _ _ = _) into Hap1.
  destruct (get_next_extent_run r0 _ b (set_mini (with_next_addr na) w) _ _ Hok Hty Ho Hz1 Hz2 Hg1)
    as (e & s & n & -> & _ & Hok1 & Ho1).
  set (O := meta_extents L ++ _) in Ho1.
  assert (chain_ok (cfg := cfg) L (set_mini (λ m, with_next_extent (insertZ b e (mini_next_extent m))
    (with_num_extents n m)) (set_al s (set_mini (with_next_addr na) w)))) as Hc1.
  { destruct Hc. by constructor. }
  eapply (append_entry_run r0 (e :: O) L) in Hap1 as (L' & ms & [Hok2 Ho2 Hc2 Hm2 Hd2 Hmi2]); try done.
  2:{ eapply chain_bases; [exact Hc1|exact Hh|]. intros y Hy. right. apply elem_of_app. by left. }
  assert (e1 ∈ O) as HeO.
  { unfold O. apply elem_of_app. right. apply elem_of_app. right. unfold spare_extents.
    unfold lookupZ in Hl. rewrite bool_decide_true in Hl by lia.
    apply (list_elem_of_lookup_2 _ (Z.to_nat b)). rewrite lookup_take_lt by lia. done. }
  assert (e1 ∉ data_extents L) as HeD.
  { intros Hd. pose proof (ow_nodup _ _ _ Ho1) as Hnd. apply list.NoDup_cons in Hnd as [_ Hnd].
    unfold O in Hnd. apply list.NoDup_app in Hnd as (_ & _ & Hnd).
    apply list.NoDup_app in Hnd as (_ & Hnd & _). apply (Hnd e1 Hd). unfold spare_extents.
    unfold lookupZ in Hl. rewrite bool_decide_true in Hl by lia.
    apply (list_elem_of_lookup_2 _ (Z.to_nat b)). rewrite lookup_take_lt by lia. done. }
  destruct (ow_fresh _ _ _ Ho1 e1) as (He1 & He2 & _); [by right|].
  destruct Hmi2 as (t & n2 & Hmi2). cbn in Hmi2.
  exists L', e, n2, t. split; [done|]. split; [by destruct He1; lia|]. split; [done|].
  split; [done|]. split; [done|]. split; [by rewrite Hmi2; destruct (w_mini w)|]. split; [done|].
  eapply owned_permute; [|exact Ho2]. rewrite Hm2. fold (data_extents L') in Hd2. rewrite Hd2. unfold O.
  pose proof (swap_spare (mini_next_extent (w_mini w)) (Z.to_nat (mini_num_batches (w_mini w))) b e e1 Hl
    ltac:(lia)) as Hsw. fold (spare_extents w) in Hsw. fold (data_extents L).
  rewrite <-!app_assoc. cbn [app]. rewrite Hsw, (app_assoc (meta_extents L) ms).
  rewrite (Permutation_app_comm (meta_extents L) ms), <-app_assoc. apply Permutation_app_head.
  by rewrite (app_assoc (meta_extents L) _ (e :: _)), <-Permutation_middle, <-app_assoc.
Qed.

(** The invariant after a batch has started extent [e0]. *)
Lemma started_inv r0 L L' Q w b e0 e n t w' :
  mini_inv r0 L Q w → 0 ≤ b < mini_num_batches (w_mini w) →
  extent e0 → 0 < e0 → (e0 ∉ data_extents L) →
  chain_ok (cfg := cfg) L' w' → data_extents L' = data_extents L ++ [e0] →
  w_mini w' = with_num_extents n (with_meta_tail t (with_next_addr
    (insertZ b (u64 (e0 + ps)) (mini_next_addr (w_mini w))) (with_next_extent
      (insertZ b e (mini_next_extent (w_mini w))) (w_mini w)))) →
  al_ok (w_al w') →
  owned (cfg := cfg) r0 (al_ref (w_al w'))
    (meta_extents (cfg := cfg) L' ++ data_extents L' ++
     take (Z.to_nat (mini_num_batches (w_mini w))) (insertZ b e (mini_next_extent (w_mini w)))) →
  (e0 ∉ Q) ∧ 0 ≤ e0 < 2 ^ 63 ∧ (ps | e0) ∧ mini_inv r0 L' (e0 :: Q) w'.
Proof.
  intros [Hok Hty Hz Hh Hnb Hln Hc Ho Hnx Hap [Hnd Hg]] Hb He Hpos HeD Hc' Hd Hm Hok' Ho'.
  assert (base e0 = e0) as Hbe by (by apply (base_extent cfg al_geometry)).
  assert (e0 ∉ Q) as HeQ.
  { intros HQ. destruct (Hg e0 HQ) as (_ & _ & Hin). by rewrite Hbe in Hin. }
  pose proof (extent_range _ He) as Hbd.
  assert ((ps | e0)) as Hpe.
  { destruct He as [He _]. etrans; [|exact He]. apply al_geometry. }
  destruct (page_step e0 ltac:(lia) Hpe ltac:(by rewrite Hbe)) as (Hu & Hr & Hd1 & Hin & _).
  assert (∀ y, y `mod` es ≠ 0 → y = u64 (e0 + ps) → base y = e0) as Hcur.
  { intros y Hy ->. rewrite Hu in *. destruct (Hin Hy) as [_ ->]. done. }
  split; [done|]. split; [lia|]. split; [done|].
  constructor; rewrite ?Hm; cbn [with_num_extents with_meta_tail with_next_addr with_next_extent
    mini_type mini_meta_head mini_num_batches mini_next_addr mini_next_extent]; try done.
  - by rewrite !lengthZ_insertZ.
  - unfold spare_extents. rewrite Hm. exact Ho'.
  - intros b' x' Hb' Hx'. rewrite Hd. rewrite lookupZ_insertZ in Hx'. case_bool_decide as Hbb.
    + injection Hx' as <-. rewrite Hu. split; [lia|]. split; [done|]. intros Hmod.
      rewrite (Hcur _ Hmod) by done. split; [apply elem_of_app; right; by left|].
      intros q [->|Hq]%elem_of_cons Eq; [pose proof (sizes_pos cfg al_geometry); lia|].
      destruct (Hg q Hq) as (_ & _ & Hqd). by rewrite Eq in Hqd.
    + destruct (Hnx b' x' Hb' Hx') as (H1 & H2 & H3). split; [done|]. split; [done|].
      intros Hmod. destruct (H3 Hmod) as [H4 H5]. split; [apply elem_of_app; by left|].
      intros q [->|Hq]%elem_of_cons Eq; [|by apply H5]. by rewrite <-Eq, Hbe in H4.
  - intros b1 b2 x1 x2 Hne Hb1 Hb2 Hx1 Hx2 Hm1 Hm2 E.
    rewrite lookupZ_insertZ in Hx1, Hx2.
    case_bool_decide as E2; case_bool_decide as E1; simplify_eq.
    + by destruct E1 as [<- _], E2 as [<- _].
    + rewrite (Hcur _ Hm2) in E by done. destruct (Hnx b1 x1 Hb1 Hx1) as (_ & _ & H3).
      destruct (H3 Hm1) as [H4 _]. by rewrite E in H4.
    + rewrite (Hcur _ Hm1) in E by done. destruct (Hnx b2 x2 Hb2 Hx2) as (_ & _ & H3).
      destruct (H3 Hm2) as [H4 _]. by rewrite <-E in H4.
    + by apply (Hap b1 b2 x1 x2).
  - split; [by apply list.NoDup_cons|]. rewrite Hd. intros q [->|Hq]%elem_of_cons.
    + split; [lia|]. split; [done|]. rewrite Hbe. apply elem_of_app. right. by left.
    + destruct (Hg q Hq) as (? & ? & ?). split; [done|]. split; [done|]. apply elem_of_app. by left.
Qed.

Lemma mini_alloc_inv r0 L Q w b a nx w' :
  28 ≤ ps ≤ 2 ^ 32 → mini_inv r0 L Q w → 0 ≤ b < mini_num_batches (w_mini w) →
  mini_alloc cfg b w = Ret ((a, nx), w') →
  ∃ L', mini_inv r0 L' (a :: Q) w' ∧ (a ∉ Q) ∧ 0 ≤ a < 2 ^ 63 ∧ (ps | a) ∧
    lookupZ (mini_next_extent (w_mini w')) b = Some nx ∧
    mini_meta_head (w_mini w') = mini_meta_head (w_mini w) ∧
    mini_num_batches (w_mini w') = mini_num_batches (w_mini w) ∧
    mini_type (w_mini w') = mini_type (w_mini w).
Proof.
  intros Hps Hi Hb Hr. unfold mini_alloc, mini_lock_batch_get_next_addr in Hr.
  apply bind_Ret in Hr as (x & w1 & Hl & Hr).
  apply bind_Ret in Hl as (? & ? & [-> ->]%get_Ret & Hl).
  apply bind_Ret in Hl as (x0 & ? & [-> Hx]%opt_Ret & Hl).
  destruct (x0 =? MINI_WAIT); [done|].
  apply bind_Ret in Hl as (? & ? & [-> ->]%mod_Ret & [-> ->]%ret_Ret).
  apply bind_Ret in Hr as (a' & w2 & Hs & Hr).
  apply bind_Ret in Hr as (nx' & w3 & Hne & Hr).
  apply bind_Ret in Hr as ([] & w4 & [= <-] & [-> [= -> ->]]%ret_Ret).
  unfold read_next_extent in Hne. apply bind_Ret in Hne as (? & ? & [-> ->]%get_Ret & [-> Hne]%opt_Ret).
  destruct (x0 `mod` es =? 0) eqn:E.
  - apply (start_extent_run r0 L Q w b) in Hs
      as (L' & e & n & t & He & Hpos & HeD & Hc & Hd & Hm & Hok & Ho); [|done..].
    destruct (started_inv r0 L L' Q w b a' e n t (set_mini (λ m, with_next_addr
      (insertZ b (u64 (a' + ps)) (mini_next_addr m)) m) w2)) as (H1 & H2 & H3 & H4); try done.
    { destruct Hc. by constructor. }
    { cbn. rewrite Hm. cbn. by rewrite insertZ_insertZ. }
    exists L'. split; [exact H4|]. split; [done|]. split; [done|]. split; [done|].
    split; [exact Hne|]. cbn. by rewrite Hm.
  - apply Z.eqb_neq in E. apply ret_Ret in Hs as [-> ->].
    destruct (alloc_in_extent r0 L Q w b x0 Hi Hb Hx E) as (H1 & H2 & H3 & H4).
    exists L. split; [|do 3 (split; [done|]); split; [exact Hne|done]].
    match goal with H : mini_inv _ _ _ ?a |- mini_inv _ _ _ ?b => replace b with a; [done|] end.
    unfold set_mini. cbn. by rewrite insertZ_insertZ.
Qed.

(** ** Initialisation *)
(** What the caller of [mini_init] provides: a fresh extent for the meta pages. *)
Record init_ready head num_batches type w : Prop := {
  ir_al : al_ok (w_al w);
  ir_type : type ≠ PAGE_TYPE_INVALID;
  ir_zero : al_ref (w_al w) 0 ≠ 0 ∧ extent 0;
  ir_head : 0 < head < 2 ^ 63 ∧ (ps | head) ∧ extent (base head) ∧ base head ≠ 0;
  ir_ref : al_ref (w_al w) (base head) = 2;
  ir_batches : 1 ≤ num_batches ≤ 8;
}.
(** The counts with the meta extent's references held by the mini allocator. *)
Definition with_head head (refs : Z → Z) (r : Z) : Z → Z :=
  λ b, if decide (b = base head) then r else refs b.

Lemma init_extents_run r0 s0 pages pins m0 k w' :
  mini_type m0 ≠ PAGE_TYPE_INVALID → r0 0 ≠ 0 → extent 0 → lengthZ (mini_next_extent m0) = 8 →
  (k ≤ 8)%nat → al_ok s0 → owned (cfg := cfg) r0 (al_ref s0) [] →
  mfor k 0 get_next_extent (mk_world s0 pages pins m0) = Ret (tt, w') →
  ∃ s n ne, w' = mk_world s pages pins (with_num_extents n (with_next_extent ne m0)) ∧
    al_ok s ∧ lengthZ ne = 8 ∧ owned (cfg := cfg) r0 (al_ref s) (take k ne).
Proof.
  intros Hty Hz He0 Hl Hk Hok Ho Hr.
  assert (triple (λ w, ∃ s n ne, w = mk_world s pages pins (with_num_extents n (with_next_extent ne m0)) ∧
      al_ok s ∧ lengthZ ne = 8 ∧ owned (cfg := cfg) r0 (al_ref s) (take (Z.to_nat 0) ne))
    (mfor k 0 get_next_extent)
    (λ _ w, ∃ s n ne, w = mk_world s pages pins (with_num_extents n (with_next_extent ne m0)) ∧
      al_ok s ∧ lengthZ ne = 8 ∧
      owned (cfg := cfg) r0 (al_ref s) (take (Z.to_nat (0 + Z.of_nat k)) ne))) as Ht.
  { apply (triple_for (λ i w, ∃ s n ne,
      w = mk_world s pages pins (with_num_extents n (with_next_extent ne m0)) ∧
      al_ok s ∧ lengthZ ne = 8 ∧ owned (cfg := cfg) r0 (al_ref s) (take (Z.to_nat i) ne))).
    intros i Hi w [] w1 (s & n & ne & -> & Hs & Hln & Hos) Hg.
    destruct (get_next_extent_run r0 _ i (mk_world s pages pins
      (with_num_extents n (with_next_extent ne m0))) _ _ Hs Hty Hos Hz He0 Hg)
      as (e & s' & n' & -> & _ & Hs' & Ho').
    exists s', n', (insertZ i e ne). split; [done|]. split; [done|].
    split; [by rewrite lengthZ_insertZ|]. eapply owned_permute; [|exact Ho'].
    unfold lengthZ in Hln. unfold insertZ. rewrite bool_decide_true by lia.
    replace (Z.to_nat (i + 1)) with (Datatypes.S (Z.to_nat i)) by lia.
    rewrite (take_S_r _ _ e) by (apply list_lookup_insert_eq; lia).
    rewrite take_insert_ge by lia. by rewrite Permutation_app_comm. }
  edestruct Ht as (s & n & ne & -> & Hs & Hln & Hos); [|exact Hr|].
  { exists s0, (mini_num_extents m0), (mini_next_extent m0). by destruct m0. }
  exists s, n, ne. split_and!; try done. by replace (Z.to_nat (0 + Z.of_nat k)) with k in Hos by lia.
Qed.

Lemma mini_init_inv head nb type w x w' :
  28 ≤ ps ≤ 2 ^ 32 → init_ready head nb type w →
  mini_init cfg head 0 nb type w = Ret (x, w') →
  mini_inv (with_head head (al_ref (w_al w)) 3) [(head, [])] [] w' ∧
  mini_meta_head (w_mini w') = head ∧ mini_num_batches (w_mini w') = nb ∧
  mini_type (w_mini w') = type.
Proof.
  intros Hps [Hok Hty [Hz1 Hz2] (Hh1 & Hh2 & Hh3 & Hh4) Href Hnb] Hr. unfold mini_init in Hr.
  apply bind_Ret in Hr as (? & ? & (-> & -> & _)%assert_Ret & Hr).
  apply bind_Ret in Hr as (? & ? & (-> & -> & _)%assert_Ret & Hr).
  apply bind_Ret in Hr as (? & ? & [-> ->]%mod_Ret & Hr).
  apply bind_Ret in Hr as ([] & w1 & Hnew & Hr). cbn [Z.eqb] in Hnew.
  apply bind_Ret in Hnew as (? & ? & [-> ->]%mod_Ret & Hnew).
  apply bind_Ret in Hnew as ([] & w2 & [= <-] & Hnew).
  apply bind_Ret in Hnew as ([] & w3 & Hinit & Hnew).
  unfold mini_init_meta_page in Hinit. apply bind_Ret in Hinit as (p0 & ? & Hg & [= <-]).
  rewrite (get_meta_page_run head blank_page) in Hg by (cbn; apply lookup_insert_eq).
  injection Hg as <- <-.
  destruct (al_inc (w_al w) (base head) Hok Hh3 ltac:(lia)) as (s1 & Hinc & Hs1 & Hset).
  rewrite Href in Hinc, Hset.
  rewrite (bind_run _ _ _ 3 (set_al s1 (set_pages _ (set_pages _ (set_mini _ (set_mini _ w)))))) in Hnew
    by (unfold lift; cbn; by rewrite Hinc).
  apply bind_Ret in Hnew as (? & ? & (-> & -> & _)%assert_Ret & Hnew).
  apply bind_Ret in Hnew as (? & ? & [-> ->]%get_Ret & Hnew).
  set (m1 := mk_mini_allocator (bool_decide (type = PAGE_TYPE_MEMTABLE)) head head type 1 nb
    (replicate 8 0) (replicate 8 0)).
  set (pages1 := <[head := mk_mini_meta_page 0 20 0 ∅]> (<[head := blank_page]> (w_pages w))).
  assert (∃ pins, w1 = mk_world s1 pages1 pins m1) as [pins ->].
  { cbn in Hnew. case_bool_decide; cbn in Hnew; injection Hnew as <-; by eexists. }
  clear Hnew. apply bind_Ret in Hr as ([] & w4 & Hfor & Hr).
  set (r0 := with_head head (al_ref (w_al w)) 3).
  assert (owned (cfg := cfg) r0 (al_ref s1) []) as Ho0.
  { constructor; [constructor| |by intros b ?%elem_of_nil].
    intros b Hb. rewrite Hset by done.
    by destruct (decide (b ∈ [])) as [?%elem_of_nil|]. }
  assert (r0 0 ≠ 0) as Hz by (unfold r0, with_head; case_decide; [done|exact Hz1]).
  destruct (init_extents_run r0 s1 pages1 pins m1 (Z.to_nat nb) w4 Hty Hz Hz2 eq_refl
    ltac:(lia) Hs1 Ho0 Hfor) as (s & n & ne & -> & Hs & Hlne & Ho).
  apply bind_Ret in Hr as (? & ? & [-> ->]%get_Ret & [-> _]%opt_Ret). split; [|done].
  constructor; cbn [w_al w_mini m1 with_num_extents with_next_extent mini_type mini_meta_head
    mini_num_batches mini_next_addr mini_next_extent]; try done.
  - unfold r0, with_head. by rewrite decide_True.
  - constructor; cbn [w_pages w_mini m1 with_num_extents with_next_extent mini_meta_head mini_meta_tail].
    + split; [|done]. eexists. unfold pages1. rewrite lookup_insert_eq. split; [done|].
      split_and!; try done; [cbn; lia|]. intros i d Hd. by rewrite lookupZ_nil in Hd.
    + done.
    + by exists [], [].
    + by intros a ->%list_elem_of_singleton.
    + by intros a ->%list_elem_of_singleton.
    + apply NoDup_singleton.
  - intros b y Hb Hy%lookupZ_replicate. subst y. split; [lia|]. split; [apply Z.divide_0_r|].
    intros Hm. by rewrite Zmod_0_l in Hm.
  - intros b b' y y' _ _ _ Hy%lookupZ_replicate _ Hm. subst y. by rewrite Zmod_0_l in Hm.
  - split; [constructor|]. intros q Hq. by apply elem_of_nil in Hq.
Qed.

(** ** Destruction *)
Lemma length_le_size (l : list Z) (m : gmap Z mini_meta_page) :
  NoDup l → (∀ a, a ∈ l → is_Some (m !! a)) → (length l ≤ size m)%nat.
Proof.
  intros Hn Hl. rewrite <-size_dom, <-(size_list_to_set (C := gset Z) l) by done.
  apply subseteq_size. intros a Ha%elem_of_list_to_set. by apply elem_of_dom, Hl.
Qed.
Lemma linked_pages pages L nxt a :
  linked (cfg := cfg) pages L nxt → a ∈ L.*1 → is_Some (pages !! a).
Proof.
  induction L as [|[b ds] L IH]; [by intros _ ?%elem_of_nil|].
  intros [(p & Hp & _) HL] [->|Ha]%elem_of_cons; [by eexists|by apply IH].
Qed.
Lemma runs_head L w :
  chain_ok (cfg := cfg) L w →
  runs (base <$> L.*1) = base (mini_meta_head (w_mini w)) :: meta_extents (cfg := cfg) L.
Proof.
  intros Hc. pose proof (ch_head _ _ Hc) as Hh. destruct (ch_tail _ _ Hc) as (L0 & ds0 & HL).
  destruct L as [|[h ds] L]; [by destruct L0|]. cbn in Hh. subst h. clear. unfold meta_extents.
  cbn [fmap list_fmap fst]. generalize (base <$> L.*1) as l. generalize (base (mini_meta_head (w_mini w))) as x.
  intros x l. revert x. induction l as [|y l IH]; intros x; [done|].
  change (runs (x :: y :: l)) with (if decide (x = y) then runs (y :: l) else x :: runs (y :: l)).
  destruct (decide (x = y)) as [->|]; [apply IH|done].
Qed.

Lemma owned_base r0 r1 refs O :
  (∀ b, r1 b = r0 b) → owned (cfg := cfg) r0 refs O → owned (cfg := cfg) r1 refs O.
Proof.
  intros He [Hn Hc Hf]. constructor; [done| |].
  - intros b Hb. by rewrite He, Hc.
  - intros b Hb. rewrite He. by apply Hf.
Qed.

(** Dropping the last reference frees everything. *)
Lemma destroy_run r0 head L type w :
  al_ok (w_al w) → type ≠ PAGE_TYPE_INVALID → chain_ok (cfg := cfg) L w →
  mini_meta_head (w_mini w) = head → extent (base head) → base head ≠ 0 →
  r0 (base head) = 0 → al_ref (w_al w) (base head) = 3 →
  owned (cfg := cfg) (with_head head r0 3) (al_ref (w_al w)) (meta_extents (cfg := cfg) L ++ data_extents L) →
  ∃ w', mini_dec_ref cfg head type w = Ret (0, w') ∧ al_ok (w_al w') ∧
    ∀ b, extent b → al_ref (w_al w') b = r0 b.
Proof.
  intros Hok Hty Hc Hh He Hne Hr0 Href Ho. unfold mini_dec_ref.
  destruct (al_dec (w_al w) (base head) type Hok He ltac:(lia) Hty) as (s1 & Hd & Hs1 & Hset).
  rewrite Href in Hd, Hset. rewrite (bind_run _ _ w 2 (set_al s1 w)) by (unfold lift; by rewrite Hd).
  cbn [MINI_NO_REFS Z.eqb Pos.eqb negb]. rewrite (bind_run _ _ (set_al s1 w) (set_al s1 w) (set_al s1 w)) by done.
  pose proof (runs_head L w Hc) as Hruns. rewrite Hh in Hruns.
  assert (owned (cfg := cfg) r0 (al_ref s1) (runs (base <$> L.*1) ++ data_extents L)) as Ho1.
  { rewrite Hruns. destruct Ho as [Hn Hcn Hf]. cbn [app].
    assert (base head ∉ meta_extents (cfg := cfg) L ++ data_extents L) as Hni.
    { intros Hi. destruct (Hf _ Hi) as (_ & _ & E). unfold with_head in E. by rewrite decide_True in E. }
    constructor.
    - by apply list.NoDup_cons.
    - intros b Hb. rewrite Hset by done. destruct (decide (b = base head)) as [->|Hbne].
      + rewrite decide_True; [done|by left].
      + rewrite Hcn by done. unfold with_head. rewrite (decide_False (P := b = base head)) by done.
        apply decide_ext. rewrite elem_of_cons. tauto.
    - intros b [->|Hb]%elem_of_cons; [done|]. destruct (Hf b Hb) as (H1 & H2 & H3).
      split; [done|]. split; [done|]. unfold with_head in H3. by case_decide. }
  assert (length L ≤ walk_fuel w)%nat as Hfuel.
  { unfold walk_fuel. rewrite <-(length_fmap fst L). apply le_S, length_le_size; [apply Hc|].
    intros a Ha. by eapply linked_pages; [apply Hc|]. }
  pose proof (ch_head _ _ Hc) as Hfirst. rewrite Hh in Hfirst.
  assert (∀ b d, b ∈ L.*1 → d ∈ data_extents L → base b ≠ d) as Hapart.
  { intros b d Hb Hdd <-. pose proof (ow_nodup _ _ _ Ho1) as Hnd.
    apply list.NoDup_app in Hnd as (_ & Hnd & _). apply (Hnd (base b)); [|done].
    apply elem_of_runs. by apply list_elem_of_fmap_2. }
  destruct (for_each_run (cfg := cfg) r0 type L.*1 L (runs (base <$> L.*1)) (walk_fuel w) (set_al s1 w))
    as (w2 & Hr2 & Hok2 & Ho2 & Hk2); try done.
  { eapply owned_permute; [|exact Ho1]. by rewrite Permutation_app_comm. }
  { apply Hc. }
  { intros a Ha. split; [done|]. destruct (ch_pages _ _ Hc a Ha); lia. }
  destruct (deinit_run (cfg := cfg) r0 type L [] (walk_fuel w) w2) as (w3 & Hr3 & Hok3 & Ho3 & _); try done.
  { intros ->. destruct (ch_tail _ _ Hc) as ([] & ? & ?); done. }
  { by rewrite app_nil_r. }
  { eapply linked_ext; [|apply Hc]. intros a Ha. by apply Hk2. }
  { intros a Ha. destruct (ch_pages _ _ Hc a Ha); lia. }
  exists w3. rewrite Hfirst in Hr2, Hr3. split_and!; [|done|].
  - change (walk_fuel (set_al s1 w)) with (walk_fuel w).
    by rewrite (bind_run _ _ _ _ _ Hr2), (bind_run _ _ _ _ _ Hr3).
  - intros b Hb. rewrite (ow_counts _ _ _ Ho3) by done. by destruct (decide (b ∈ [])) as [?%elem_of_nil|].
Qed.

(** ** A client: a sequence of allocations *)
Fixpoint mini_allocs (bs : list Z) : M (world S) (list Z) :=
  match bs with
  | [] => mret []
  | b :: bs' => r ← mini_alloc cfg b; rs ← mini_allocs bs'; mret (r.1 :: rs)
  end.
Lemma mini_allocs_inv r0 L Q w bs addrs w' :
  28 ≤ ps ≤ 2 ^ 32 → mini_inv r0 L Q w → Forall (λ b, 0 ≤ b < mini_num_batches (w_mini w)) bs →
  mini_allocs bs w = Ret (addrs, w') →
  ∃ L', mini_inv r0 L' (reverse addrs ++ Q) w' ∧
    mini_meta_head (w_mini w') = mini_meta_head (w_mini w) ∧
    mini_num_batches (w_mini w') = mini_num_batches (w_mini w) ∧
    mini_type (w_mini w') = mini_type (w_mini w).
Proof.
  intros Hps. revert L Q w addrs. induction bs as [|b bs IH]; intros L Q w addrs Hi Hb Hr.
  { cbn in Hr. inv_run. by exists L. }
  cbn [mini_allocs] in Hr. apply bind_Ret in Hr as ([a nx] & w1 & Ha & Hr).
  apply bind_Ret in Hr as (rs & w2 & Hrs & [-> ->]%ret_Ret).
  apply list.Forall_cons in Hb as [Hb0 Hbs].
  destruct (mini_alloc_inv r0 L Q w b a nx w1 Hps Hi Hb0 Ha)
    as (L1 & Hi1 & _ & _ & _ & _ & E1 & E2 & E3).
  destruct (IH L1 (a :: Q) w1 rs Hi1) as (L2 & Hi2 & F1 & F2 & F3); [by rewrite E2|done|].
  exists L2. split; [|by rewrite F1, F2, F3].
  cbn [fst]. by rewrite reverse_cons, <-app_assoc.
Qed.

(** C23: The mini allocator leaks nothing and frees nothing twice.  Over any extent
    allocator that keeps the interface's laws: after [mini_init] on a fresh extent,
    any sequence of allocations from its batches, and [mini_release], dropping the
    last reference succeeds (no assertion on a reference count fails) and brings
    every extent's count back to what it was, with the meta extent freed; and the
    addresses handed out were page-aligned and pairwise distinct. *)
Theorem mini_lifecycle head nb type bs w x w1 addrs w2 :
  28 ≤ ps ≤ 2 ^ 32 → init_ready head nb type w →
  Forall (λ b, 0 ≤ b < nb) bs →
  mini_init cfg head 0 nb type w = Ret (x, w1) → mini_allocs bs w1 = Ret (addrs, w2) →
  NoDup addrs ∧ Forall (λ a, (ps | a) ∧ 0 ≤ a) addrs ∧
  ∃ w3 w4, mini_release w2 = Ret (tt, w3) ∧ mini_dec_ref cfg head type w3 = Ret (0, w4) ∧
    ∀ b, extent b → al_ref (w_al w4) b = if decide (b = base head) then 0 else al_ref (w_al w) b.
Proof.
  intros Hps Hir Hbs Hr1 Hr2.
  destruct (mini_init_inv head nb type w x w1 Hps Hir Hr1) as (Hi & E1 & E2 & E3).
  destruct (mini_allocs_inv _ _ _ w1 bs addrs w2 Hps Hi ltac:(by rewrite E2) Hr2) as (L & Hi2 & F1 & F2 & F3).
  rewrite app_nil_r in Hi2. pose proof (mi_given _ _ _ _ Hi2) as [Hnd Hg].
  split; [by rewrite reverse_Permutation in Hnd|]. split.
  { apply list.Forall_forall. intros a Ha. destruct (Hg a) as (? & ? & _); [by rewrite reverse_Permutation|].
    split; [done|lia]. }
  destruct Hi2 as [Hok Hty _ Hhd Hnb Hln Hc Ho _ _ _].
  destruct (release_all (cfg := cfg) (with_head head (al_ref (w_al w)) 3) (spare_extents w2) (meta_extents (cfg := cfg) L ++ data_extents L) w2)
    as (s3 & Hr3 & Hs3 & Ho3); [done|done| | | |].
  { unfold spare_extents, lengthZ in *. rewrite length_take. lia. }
  { intros i e He. unfold spare_extents, lookupZ in *. case_bool_decide; [|done].
    by apply lookup_take_Some in He as [? _]. }
  { eapply owned_permute; [|exact Ho]. by rewrite (app_assoc (meta_extents _)), Permutation_app_comm. }
  set (r0 := λ b, if decide (b = base head) then 0 else al_ref (w_al w) b).
  destruct (destroy_run r0 head L type (set_al s3 w2)) as (w4 & Hr4 & _ & Hfin); try done.
  - apply Hir.
  - destruct Hc. by constructor.
  - cbn. by rewrite F1.
  - apply Hir.
  - apply Hir.
  - unfold r0. by rewrite decide_True.
  - cbn. rewrite (ow_counts _ _ _ Ho3) by apply Hir. rewrite decide_False.
    + unfold with_head. by rewrite decide_True.
    + intros Hi'. destruct (ow_fresh _ _ _ Ho3 _ Hi') as (_ & _ & E). unfold with_head in E.
      by rewrite decide_True in E.
  - eapply owned_base; [|exact Ho3]. intros b. unfold with_head, r0. by case_decide.
  - exists (set_al s3 w2), w4. done.
Qed.
End theorems.

Module MiniDemo.
Lemma demo_geo : geometry RcDemo.cfg.
Proof.
  constructor.
  - by exists 12.
  - by exists 17.
  - by exists 32.
  - reflexivity.
  - reflexivity.
Qed.
#[export] Instance laws : allocator_laws rc_allocator RcDemo.cfg := rc_laws RcDemo.cfg demo_geo.
Definition al : rc_allocator :=
  match rc_allocator_alloc PAGE_TYPE_BRANCH RcDemo.init with Ret (_, s) => s | _ => RcDemo.init end.
Definition start : world rc_allocator :=
  mk_world al ∅ [] (mk_mini_allocator false 0 0 PAGE_TYPE_INVALID 0 0 [] []).
Definition head : Z := 2 * 131072.
Lemma al_ok : rc_ok RcDemo.cfg al.
Proof.
  unfold al. destruct (rc_allocator_alloc PAGE_TYPE_BRANCH RcDemo.init) as [[r s]| | | |] eqn:E.
  - destruct (init_consistent RcDemo.io (8 * 131072) RcDemo.dev RcDemo.init ltac:(lia) RcDemo.init_ok)
      as [Hw Hc Hm Hf].
    apply alloc_consistent in E as [Hc' Hcfg]; [|by constructor|done].
    split; [apply Hc'|by rewrite Hcfg].
  - exfalso. assert (returns (rc_allocator_alloc PAGE_TYPE_BRANCH RcDemo.init) = true) as H
      by (vm_compute; reflexivity). by rewrite E in H.
  - exfalso. assert (returns (rc_allocator_alloc PAGE_TYPE_BRANCH RcDemo.init) = true) as H
      by (vm_compute; reflexivity). by rewrite E in H.
  - exfalso. assert (returns (rc_allocator_alloc PAGE_TYPE_BRANCH RcDemo.init) = true) as H
      by (vm_compute; reflexivity). by rewrite E in H.
  - exfalso. assert (returns (rc_allocator_alloc PAGE_TYPE_BRANCH RcDemo.init) = true) as H
      by (vm_compute; reflexivity). by rewrite E in H.
Qed.
Lemma ready : init_ready head 2 PAGE_TYPE_BRANCH start.
Proof.
  constructor.
  - exact al_ok.
  - done.
  - split; [vm_compute; discriminate|]. split; [by exists 0|by vm_compute].
  - split; [by vm_compute|]. split; [by exists 64|].
    split; [split; [by exists 2|by vm_compute]|by vm_compute].
  - vm_compute. reflexivity.
  - lia.
Qed.
End MiniDemo.

(** [mini_lifecycle] on two batches and three allocations. *)
Lemma mini_lifecycle_witness :
  ∃ x w1 w2 w3 w4, let bs := [0; 1; 0] in
    mini_init RcDemo.cfg MiniDemo.head 0 2 PAGE_TYPE_BRANCH MiniDemo.start = Ret (x, w1) ∧
    mini_allocs (cfg := RcDemo.cfg) bs w1 = Ret ([3 * 131072; 4 * 131072; 3 * 131072 + 4096], w2) ∧
    mini_release w2 = Ret (tt, w3) ∧
    mini_dec_ref RcDemo.cfg MiniDemo.head PAGE_TYPE_BRANCH w3 = Ret (0, w4).
Proof.
  set (prog := (x ← mini_init RcDemo.cfg MiniDemo.head 0 2 PAGE_TYPE_BRANCH;
    addrs ← mini_allocs (cfg := RcDemo.cfg) [0; 1; 0]; mret (x, addrs))%stdpp
    : M (world rc_allocator) (Z * list Z)).
  assert (match prog MiniDemo.start with
          | Ret ((_, l), _) => bool_decide (l = [3 * 131072; 4 * 131072; 3 * 131072 + 4096])
          | _ => false end = true) as H by (vm_compute; reflexivity).
  destruct (prog MiniDemo.start) as [[[x addrs] w2]| | | |] eqn:E; try discriminate H.
  apply bool_decide_eq_true in H. subst addrs. unfold prog in E.
  apply bind_Ret in E as (x' & w1 & H1 & E).
  apply bind_Ret in E as (addrs & w2' & H2 & [-> [= -> <-]]%ret_Ret).
  destruct (mini_lifecycle (al := MiniDemo.laws) MiniDemo.head 2 PAGE_TYPE_BRANCH [0; 1; 0] MiniDemo.start
    x' w1 _ w2' ltac:(vm_compute; split; discriminate) MiniDemo.ready
    ltac:(repeat constructor; lia) H1 H2) as (_ & _ & w3 & w4 & H3 & H4 & _).
  exists x', w1, w2', w3, w4. cbv zeta. split; [exact H1|]. split; [exact H2|]. split; [exact H3|exact H4].
Defined.
