(* ===== verification/Bytes.v ===== *)
(** * Byte arrays

    Memory that C reads and writes through packed structs and [memcpy]: a list
    of byte values, little-endian integers of a given width in it, and the two
    relations the layout proofs use: the bytes a region holds, and two arrays
    that agree on a region. *)
From S2P Require Import Prelude.

Definition mem_read (p : list Z) (off len : Z) : option (list Z) :=
  if bool_decide (0 ≤ off ∧ 0 ≤ len ∧ off + len ≤ lengthZ p)
  then Some (take (Z.to_nat len) (drop (Z.to_nat off) p)) else None.
Definition mem_write (p : list Z) (off : Z) (bs : list Z) : option (list Z) :=
  if bool_decide (0 ≤ off ∧ off + lengthZ bs ≤ lengthZ p)
  then Some (take (Z.to_nat off) p ++ bs ++ drop (Z.to_nat (off + lengthZ bs)) p) else None.
(** [memmove(p + dst, p + src, len)] *)
Definition mem_move (p : list Z) (dst src len : Z) : option (list Z) :=
  bs ← mem_read p src len; mem_write p dst bs.

(** An [n]-byte little-endian integer. *)
Fixpoint le_bytes (n : nat) (z : Z) : list Z :=
  match n with O => [] | S n' => z `mod` 256 :: le_bytes n' (z / 256) end.
Definition le_num (bs : list Z) : Z := foldr (λ b acc, b + 256 * acc) 0 bs.
Definition get_le (n : nat) (p : list Z) (off : Z) : option Z :=
  le_num <$> mem_read p off (Z.of_nat n).
Definition put_le (n : nat) (p : list Z) (off z : Z) : option (list Z) :=
  mem_write p off (le_bytes n z).

Lemma length_le_bytes n z : length (le_bytes n z) = n.
Proof. revert z. induction n as [|n IH]; intros z; cbn; [done|]. by rewrite IH. Qed.
Lemma lengthZ_le_bytes n z : lengthZ (le_bytes n z) = Z.of_nat n.
Proof. unfold lengthZ. by rewrite length_le_bytes. Qed.

Lemma le_num_bytes n z : 0 ≤ z < 256 ^ Z.of_nat n → le_num (le_bytes n z) = z.
Proof.
  revert z. induction n as [|n IH]; intros z Hz.
  - change (256 ^ Z.of_nat 0) with 1 in Hz. cbn. lia.
  - rewrite Nat2Z.inj_succ, Z.pow_succ_r in Hz by lia.
    change (le_bytes (S n) z) with (z `mod` 256 :: le_bytes n (z / 256)).
    change (le_num (?b :: ?l)) with (b + 256 * le_num l). rewrite IH.
    + pose proof (Z.div_mod z 256). lia.
    + split; [apply Z.div_pos; lia|]. apply Z.div_lt_upper_bound; lia.
Qed.


#[global] Arguments le_bytes : simpl never.

(** The bytes of [p] from [off] on are [bs]. *)
Definition holds (p : list Z) (off : Z) (bs : list Z) : Prop :=
  0 ≤ off ∧ off + lengthZ bs ≤ lengthZ p ∧
  ∀ i, 0 ≤ i < lengthZ bs → lookupZ p (off + i) = lookupZ bs i.
(** [p] and [p'] have the same bytes in [a, b). *)
Definition agree (p p' : list Z) (a b : Z) : Prop :=
  ∀ i, a ≤ i < b → lookupZ p' i = lookupZ p i.

Lemma mem_write_ok p off bs :
  0 ≤ off → off + lengthZ bs ≤ lengthZ p → ∃ p', mem_write p off bs = Some p'.
Proof. intros ??. unfold mem_write. rewrite bool_decide_true by done. eauto. Qed.

Section write.
Context (p : list Z) (off : Z) (bs p' : list Z) (Hw : mem_write p off bs = Some p').

Lemma mem_write_range : 0 ≤ off ∧ off + lengthZ bs ≤ lengthZ p.
Proof using Hw. revert Hw. unfold mem_write. by case_bool_decide. Qed.
Lemma mem_write_lookup i :
  lookupZ p' i = if bool_decide (off ≤ i < off + lengthZ bs) then lookupZ bs (i - off) else lookupZ p i.
Proof using Hw.
  pose proof mem_write_range as [Ho Hl]. pose proof (lengthZ_nonneg bs).
  assert (Ht : lengthZ (take (Z.to_nat off) p) = off).
  { unfold lengthZ in *. rewrite length_take. lia. }
  revert Hw. unfold mem_write. rewrite bool_decide_true by done. intros [= <-].
  rewrite lookupZ_app, Ht, lookupZ_take, lookupZ_app.
  repeat case_bool_decide; try lia; try done.
  rewrite lookupZ_drop by lia. f_equal. lia.
Qed.
Lemma mem_write_length : lengthZ p' = lengthZ p.
Proof using Hw.
  pose proof mem_write_range. revert Hw. unfold mem_write. rewrite bool_decide_true by done.
  intros [= <-]. unfold lengthZ in *. rewrite !length_app, length_take, length_drop. lia.
Qed.
Lemma mem_write_holds : holds p' off bs.
Proof using Hw.
  pose proof mem_write_range as [Ho Hl]. split; [done|]. rewrite mem_write_length.
  split; [done|]. intros i Hi. rewrite mem_write_lookup. rewrite bool_decide_true by lia.
  f_equal. lia.
Qed.
Lemma mem_write_agree a b : b ≤ off ∨ off + lengthZ bs ≤ a → agree p p' a b.
Proof using Hw. intros Hd i Hi. rewrite mem_write_lookup. by rewrite bool_decide_false by lia. Qed.
End write.

Lemma holds_nil p off : 0 ≤ off ≤ lengthZ p → holds p off [].
Proof.
  intros ?. split; [lia|]. change (lengthZ []) with 0. split; [lia|]. intros i ?. lia.
Qed.
Lemma holds_read p off bs : holds p off bs → mem_read p off (lengthZ bs) = Some bs.
Proof.
  intros (Ho & Hl & Hb). pose proof (lengthZ_nonneg bs).
  unfold mem_read. rewrite bool_decide_true by done. f_equal. apply lookupZ_eq. intros i Hi.
  rewrite lookupZ_take. case_bool_decide as Hd.
  - rewrite lookupZ_drop by done. rewrite <-Hb by lia. f_equal. lia.
  - symmetry. apply lookupZ_None. lia.
Qed.
Lemma holds_agree p p' off bs :
  lengthZ p' = lengthZ p → agree p p' off (off + lengthZ bs) → holds p off bs → holds p' off bs.
Proof.
  intros HL Ha (Ho & Hl & Hb). split; [done|]. rewrite HL. split; [done|].
  intros i Hi. rewrite Ha by lia. auto.
Qed.
Lemma holds_app p off a b :
  holds p off (a ++ b) ↔ holds p off a ∧ holds p (off + lengthZ a) b.
Proof.
  pose proof (lengthZ_nonneg a). pose proof (lengthZ_nonneg b).
  unfold holds. rewrite lengthZ_app. split.
  - intros (Ho & Hl & Hb). split; (split; [lia|split; [lia|]]); intros i Hi.
    + rewrite Hb by lia. by rewrite lookupZ_app, bool_decide_true by lia.
    + rewrite <-Z.add_assoc, Hb by lia. rewrite lookupZ_app, bool_decide_false by lia.
      f_equal. lia.
  - intros ((Ho & Hl & Ha) & (Ho' & Hl' & Hb)). split; [lia|]. split; [lia|]. intros i Hi.
    rewrite lookupZ_app. case_bool_decide; [auto with lia|].
    rewrite <-Hb by lia. f_equal. lia.
Qed.
Lemma holds_le n p off z :
  0 ≤ z < 256 ^ Z.of_nat n → holds p off (le_bytes n z) → get_le n p off = Some z.
Proof.
  intros Hz Hh. unfold get_le. apply holds_read in Hh. rewrite lengthZ_le_bytes in Hh.
  rewrite Hh. cbn. by rewrite le_num_bytes.
Qed.
Lemma holds_le1 p off z : 0 ≤ z < 2 ^ 8 → holds p off (le_bytes 1 z) → get_le 1 p off = Some z.
Proof. apply (holds_le 1). Qed.
Lemma holds_le2 p off z : 0 ≤ z < 2 ^ 16 → holds p off (le_bytes 2 z) → get_le 2 p off = Some z.
Proof. apply (holds_le 2). Qed.
Lemma holds_le4 p off z : 0 ≤ z < 2 ^ 32 → holds p off (le_bytes 4 z) → get_le 4 p off = Some z.
Proof. apply (holds_le 4). Qed.
Lemma holds_le8 p off z : 0 ≤ z < 2 ^ 64 → holds p off (le_bytes 8 z) → get_le 8 p off = Some z.
Proof. apply (holds_le 8). Qed.
Lemma read_holds p off len bs : mem_read p off len = Some bs → holds p off bs ∧ lengthZ bs = len.
Proof.
  unfold mem_read. case_bool_decide as Hd; [|done]. intros [= <-].
  assert (Hl : lengthZ (take (Z.to_nat len) (drop (Z.to_nat off) p)) = len).
  { unfold lengthZ in *. rewrite length_take, length_drop. lia. }
  split; [|done]. split; [lia|]. rewrite Hl. split; [lia|]. intros i Hi.
  rewrite lookupZ_take, bool_decide_true by lia. rewrite lookupZ_drop by lia. f_equal. lia.
Qed.
Lemma mem_read_ok p off len :
  0 ≤ off → 0 ≤ len → off + len ≤ lengthZ p → ∃ bs, mem_read p off len = Some bs.
Proof. intros. unfold mem_read. rewrite bool_decide_true by done. eauto. Qed.

Lemma agree_refl p a b : agree p p a b.
Proof. by intros i. Qed.
Lemma agree_trans p1 p2 p3 a b : agree p1 p2 a b → agree p2 p3 a b → agree p1 p3 a b.
Proof. intros H1 H2 i Hi. rewrite H2 by done. by apply H1. Qed.
Lemma agree_mono {p p' a b} a' b' : agree p p' a b → a ≤ a' → b' ≤ b → agree p p' a' b'.
Proof. intros H ?? i Hi. apply H. lia. Qed.

(** ** Sequences of writes *)
Lemma mem_write_keep p off bs p' o b :
  mem_write p off bs = Some p' → o + lengthZ b ≤ off ∨ off + lengthZ bs ≤ o →
  holds p o b → holds p' o b.
Proof.
  intros Hw Hd. apply holds_agree; [by eapply mem_write_length|].
  eapply mem_write_agree; [done|]. lia.
Qed.
Lemma mem_write_agree_through p off bs p' p0 a b :
  mem_write p off bs = Some p' → b ≤ off ∨ off + lengthZ bs ≤ a → agree p0 p a b → agree p0 p' a b.
Proof. intros Hw Hd Ha. eapply agree_trans; [done|]. by eapply mem_write_agree. Qed.

Lemma holds_lookup p off x : holds p off [x] → lookupZ p off = Some x.
Proof.
  intros (_ & _ & H). specialize (H 0). rewrite Z.add_0_r in H. rewrite H; [done|]. unfold lengthZ. cbn [length]. lia.
Qed.
Lemma holds_range p off bs : holds p off bs → 0 ≤ off ∧ off + lengthZ bs ≤ lengthZ p.
Proof. by intros (? & ? & _). Qed.

(** Arithmetic over lengths of byte arrays. *)
Ltac zlen :=
  unfold put_le in *;
  repeat match goal with
  | H : mem_write ?p _ _ = Some ?p' |- _ =>
      lazymatch goal with
      | _ : lengthZ p' = lengthZ p |- _ => fail
      | _ => pose proof (mem_write_length _ _ _ _ H)
      end
  end;
  repeat match goal with
  | |- context [lengthZ (_ ++ _)] => rewrite lengthZ_app
  | |- context [lengthZ (_ :: _)] => rewrite lengthZ_cons
  | |- context [lengthZ []] => rewrite lengthZ_nil
  | |- context [lengthZ (le_bytes _ _)] => rewrite lengthZ_le_bytes
  | |- context [lengthZ (replicate _ _)] => rewrite lengthZ_replicate
  | H : context [lengthZ (_ ++ _)] |- _ => rewrite lengthZ_app in H
  | H : context [lengthZ (_ :: _)] |- _ => rewrite lengthZ_cons in H
  | H : context [lengthZ []] |- _ => rewrite lengthZ_nil in H
  | H : context [lengthZ (le_bytes _ _)] |- _ => rewrite lengthZ_le_bytes in H
  | H : context [lengthZ (replicate _ _)] |- _ => rewrite lengthZ_replicate in H
  end;
  repeat match goal with
  | |- context [lengthZ ?l] =>
      lazymatch goal with _ : 0 ≤ lengthZ l |- _ => fail | _ => pose proof (lengthZ_nonneg l) end
  | _ : context [lengthZ ?l] |- _ =>
      lazymatch goal with _ : 0 ≤ lengthZ l |- _ => fail | _ => pose proof (lengthZ_nonneg l) end
  end; lia.

(** The bytes a chain of writes left at a place. *)
Ltac solve_holds :=
  unfold put_le in *;
  first [ eassumption
        | eapply mem_write_holds; eassumption
        | eapply mem_write_keep; [eassumption|zlen|solve_holds] ].

(** [p'] differs from [p] only in [a, b). *)
Definition outside (p p' : list Z) (a b : Z) : Prop :=
  lengthZ p' = lengthZ p ∧ ∀ i, i < a ∨ b ≤ i → lookupZ p' i = lookupZ p i.
Lemma outside_refl p a b : outside p p a b.
Proof. by split. Qed.
Lemma outside_write p0 p off bs p' a b :
  mem_write p off bs = Some p' → a ≤ off → off + lengthZ bs ≤ b →
  outside p0 p a b → outside p0 p' a b.
Proof.
  intros Hw ?? [HL Ho]. split; [by rewrite (mem_write_length _ _ _ _ Hw)|].
  intros i Hi. rewrite (mem_write_lookup _ _ _ _ Hw), bool_decide_false by lia. by apply Ho.
Qed.
Lemma outside_agree p p' a b c d : d ≤ a ∨ b ≤ c → outside p p' a b → agree p p' c d.
Proof. intros ? [_ Ho] i ?. apply Ho. lia. Qed.
Lemma outside_mono p p' a b a' b' : a' ≤ a → b ≤ b' → outside p p' a b → outside p p' a' b'.
Proof. intros ?? [HL Ho]. split; [done|]. intros i ?. apply Ho. lia. Qed.
Lemma outside_trans p1 p2 p3 a b : outside p1 p2 a b → outside p2 p3 a b → outside p1 p3 a b.
Proof. intros [HL Ho] [HL' Ho']. split; [congruence|]. intros i ?. rewrite Ho'; auto. Qed.
Ltac solve_outside :=
  unfold put_le in *;
  first [ apply outside_refl
        | eapply outside_write; [eassumption|zlen|zlen|solve_outside] ].
(** Name the result of the next write of the goal. *)
Ltac step_write p' H :=
  unfold put_le;
  match goal with
  | |- context [mem_write ?p ?off ?bs] =>
      let W := fresh in
      assert (∃ q, mem_write p off bs = Some q) as W by (apply mem_write_ok; zlen);
      destruct W as [p' H]; rewrite H; cbn [mbind option_bind]
  end.

(** ** Moves *)
Lemma mem_move_ok p dst src len :
  0 ≤ dst → 0 ≤ src → 0 ≤ len → dst + len ≤ lengthZ p → src + len ≤ lengthZ p →
  ∃ p', mem_move p dst src len = Some p' ∧ outside p p' dst (dst + len) ∧
    ∀ i, dst ≤ i < dst + len → lookupZ p' i = lookupZ p (src + (i - dst)).
Proof.
  intros. unfold mem_move. destruct (mem_read_ok p src len) as [bs Hr]; [done..|].
  apply read_holds in Hr as Hh. destruct Hh as [(_ & _ & Hb) HL].
  rewrite Hr. cbn [mbind option_bind].
  destruct (mem_write_ok p dst bs) as [p' Hw]; [done|lia|]. rewrite Hw. exists p'.
  split; [done|]. split.
  - eapply outside_write; [exact Hw|lia|lia|apply outside_refl].
  - intros i Hi. rewrite (mem_write_lookup _ _ _ _ Hw), bool_decide_true by lia.
    rewrite <-Hb by lia. done.
Qed.
Lemma holds_shift p p' off off' bs :
  0 ≤ off' → off' + lengthZ bs ≤ lengthZ p' →
  (∀ j, 0 ≤ j < lengthZ bs → lookupZ p' (off' + j) = lookupZ p (off + j)) →
  holds p off bs → holds p' off' bs.
Proof.
  intros ?? Hs (_ & _ & Hb). split; [done|]. split; [done|]. intros j Hj. rewrite Hs by done. auto.
Qed.

(** * Memory bit by bit

    The bits of a byte array from an address on, as the packed arrays and the
    bucket encodings of a filter read and write them through words; the bit
    operations of the compiler they use. *)
(** ** Bits of integers *)
Lemma testbit_add_pow n a b i : 0 ≤ n → 0 ≤ a < 2 ^ n → 0 ≤ i →
  Z.testbit (a + 2 ^ n * b) i = if i <? n then Z.testbit a i else Z.testbit b (i - n).
Proof.
  intros Hn Ha Hi. destruct (Z.ltb_spec i n).
  - rewrite <-(Z.mod_pow2_bits_low _ n) by lia. f_equal. rewrite Z.mul_comm, Z_mod_plus_full. by apply Z.mod_small.
  - replace i with (i - n + n) at 1 by lia. rewrite <-Z.div_pow2_bits by lia. f_equal.
    rewrite Z.mul_comm, Z.div_add by lia. rewrite Z.div_small; lia.
Qed.
Lemma lor_add_pow n a b : 0 ≤ n → 0 ≤ a < 2 ^ n → Z.lor (2 ^ n * b) a = a + 2 ^ n * b.
Proof.
  intros Hn Ha. apply Z.bits_inj'. intros i Hi. rewrite Z.lor_spec, testbit_add_pow by done.
  rewrite <-(Z.add_0_l (2 ^ n * b)), testbit_add_pow by lia. destruct (Z.ltb_spec i n); [by rewrite Z.testbit_0_l|].
  rewrite <-(Z.mod_small a (2 ^ n)), Z.mod_pow2_bits_high by lia. apply orb_false_r.
Qed.
Lemma testbit_small n a i : 0 ≤ a < 2 ^ n → n ≤ i → Z.testbit a i = false.
Proof.
  intros Ha Hi. destruct (decide (0 ≤ n)); [|rewrite Z.pow_neg_r in Ha; lia].
  rewrite <-(Z.mod_small a (2 ^ n)) by done. by apply Z.mod_pow2_bits_high.
Qed.
(** A number whose bits from [n] on are clear is below [2 ^ n]. *)
Lemma bits_range n a : 0 ≤ n → 0 ≤ a → (∀ i, n ≤ i → Z.testbit a i = false) → a < 2 ^ n.
Proof.
  intros Hn Ha H. assert (E : a = a `mod` 2 ^ n).
  { apply Z.bits_inj'. intros i Hi. destruct (decide (i < n)).
    - by rewrite Z.mod_pow2_bits_low.
    - rewrite Z.mod_pow2_bits_high by lia. apply H. lia. }
  rewrite E. by apply Z.mod_pos_bound, Z.pow_pos_nonneg.
Qed.
Lemma testbit_mod n a i : 0 ≤ n → 0 ≤ i → Z.testbit (a `mod` 2 ^ n) i = (i <? n) && Z.testbit a i.
Proof.
  intros Hn Hi. destruct (Z.ltb_spec i n).
  - by rewrite Z.mod_pow2_bits_low.
  - by rewrite Z.mod_pow2_bits_high by lia.
Qed.
Lemma testbit_shiftl a n i : 0 ≤ n → 0 ≤ i → Z.testbit (Z.shiftl a n) i = (n <=? i) && Z.testbit a (i - n).
Proof.
  intros Hn Hi. rewrite Z.shiftl_spec by done. destruct (Z.leb_spec n i); [done|]. by rewrite Z.testbit_neg_r by lia.
Qed.
Lemma testbit_ones n i : 0 ≤ n → 0 ≤ i → Z.testbit (2 ^ n - 1) i = (i <? n).
Proof.
  intros Hn Hi. rewrite Z.sub_1_r, <-Z.ones_equiv, Z.testbit_ones_nonneg by done. done.
Qed.

(** ** The bits of memory *)
Definition bytes_ok (p : list Z) : Prop := Forall (λ b, 0 ≤ b < 256) p.
(** Bit [i] of the memory from [a] on. *)
Definition mbit (p : list Z) (a i : Z) : bool :=
  match lookupZ p (a + i / 8) with Some b => Z.testbit b (i `mod` 8) | None => false end.

Lemma le_num_range bs : bytes_ok bs → 0 ≤ le_num bs < 2 ^ (8 * lengthZ bs).
Proof.
  induction 1 as [|b bs Hb _ IH]; [by cbn|]. rewrite lengthZ_cons. change (le_num (b :: bs)) with (b + 256 * le_num bs).
  pose proof (lengthZ_nonneg bs). replace (8 * (1 + lengthZ bs)) with (8 + 8 * lengthZ bs) by lia.
  rewrite Z.pow_add_r by lia. change (2 ^ 8) with 256. lia.
Qed.
Lemma le_num_testbit bs i : bytes_ok bs → 0 ≤ i → Z.testbit (le_num bs) i = mbit bs 0 i.
Proof.
  intros H. revert i. induction H as [|b bs Hb _ IH]; intros i Hi.
  - unfold mbit. by rewrite lookupZ_nil, Z.testbit_0_l.
  - change (le_num (b :: bs)) with (b + 2 ^ 8 * le_num bs). rewrite testbit_add_pow by (done || lia).
    pose proof (Z.div_pos i 8 Hi ltac:(lia)). unfold mbit. rewrite Z.add_0_l. destruct (Z.ltb_spec i 8).
    + rewrite Z.div_small, Z.mod_small by lia. by rewrite lookupZ_cons_0.
    + rewrite IH by lia. unfold mbit. rewrite Z.add_0_l.
      replace (i - 8) with (i + (-1) * 8) by lia. rewrite Z.div_add, Z_mod_plus_full by lia.
      pose proof (Z.div_le_lower_bound i 8 1 ltac:(lia) ltac:(lia)). rewrite lookupZ_cons_S by lia.
      by replace (i / 8 - 1) with (i / 8 + -1) by lia.
Qed.
Lemma mbit_lookup p q a c i : lookupZ p (a + i / 8) = lookupZ q (c + i / 8) → mbit p a i = mbit q c i.
Proof. unfold mbit. by intros ->. Qed.
(** Moving the base by whole bytes. *)
Lemma mbit_base p a n i : mbit p (a + n) i = mbit p a (8 * n + i).
Proof.
  unfold mbit. rewrite (Z.mul_comm 8 n), (Z.add_comm (n * 8)), Z.div_add, Z_mod_plus_full by lia.
  by replace (a + n + i / 8) with (a + (i / 8 + n)) by lia.
Qed.
Lemma bytes_ok_read p off len bs : bytes_ok p → mem_read p off len = Some bs → bytes_ok bs.
Proof.
  unfold mem_read. case_bool_decide; [|done]. intros Hp [= <-]. by apply list.Forall_take, list.Forall_drop.
Qed.
Lemma bytes_ok_write p off bs p' : bytes_ok p → bytes_ok bs → mem_write p off bs = Some p' → bytes_ok p'.
Proof.
  unfold mem_write. case_bool_decide; [|done]. intros Hp Hb [= <-].
  repeat (apply list.Forall_app; split); [by apply list.Forall_take|done|by apply list.Forall_drop].
Qed.
Lemma bytes_ok_le n z : bytes_ok (le_bytes n z).
Proof.
  revert z. induction n as [|n IH]; intros z; [constructor|]. constructor; [by apply Z.mod_pos_bound|apply IH].
Qed.
Lemma bytes_ok_put n p off z p' : bytes_ok p → put_le n p off z = Some p' → bytes_ok p'.
Proof. intros Hp. apply bytes_ok_write; [done|apply bytes_ok_le]. Qed.

(** The word read at byte [a + 4 j]. *)
Lemma get_le_bits n p a k : bytes_ok p → 0 ≤ a → 0 ≤ k → a + k + Z.of_nat n ≤ lengthZ p →
  ∃ w, get_le n p (a + k) = Some w ∧ 0 ≤ w < 2 ^ (8 * Z.of_nat n) ∧
    ∀ i, 0 ≤ i → Z.testbit w i = (i <? 8 * Z.of_nat n) && mbit p a (8 * k + i).
Proof.
  intros Hp Ha Hk Hl. unfold get_le. destruct (mem_read_ok p (a + k) (Z.of_nat n)) as [bs Hr]; [lia..|].
  rewrite Hr. cbn [fmap option_fmap option_map]. exists (le_num bs). pose proof (bytes_ok_read _ _ _ _ Hp Hr) as Hbs.
  apply read_holds in Hr as [(_ & _ & Hh) Hlen].
  pose proof (le_num_range bs Hbs) as Hrng. rewrite Hlen in Hrng. split_and!; [done|lia|lia|].
  intros i Hi. destruct (Z.ltb_spec i (8 * Z.of_nat n)); [|by eapply testbit_small].
  rewrite le_num_testbit by done. cbn [andb]. rewrite <-mbit_base. apply mbit_lookup.
  rewrite Z.add_0_l. symmetry. apply Hh. pose proof (Z.div_pos i 8 Hi ltac:(lia)).
  assert (i / 8 < Z.of_nat n) by (apply Z.div_lt_upper_bound; lia). lia.
Qed.
Lemma put_le_bits n p a k z : bytes_ok p → 0 ≤ a → 0 ≤ k → a + k + Z.of_nat n ≤ lengthZ p →
  0 ≤ z < 2 ^ (8 * Z.of_nat n) →
  ∃ p', put_le n p (a + k) z = Some p' ∧ bytes_ok p' ∧ outside p p' (a + k) (a + k + Z.of_nat n) ∧
    ∀ i, 0 ≤ i → mbit p' a i =
      if (8 * k <=? i) && (i <? 8 * k + 8 * Z.of_nat n) then Z.testbit z (i - 8 * k) else mbit p a i.
Proof.
  intros Hp Ha Hk Hl Hz. destruct (mem_write_ok p (a + k) (le_bytes n z)) as [p' Hw];
    [lia|rewrite lengthZ_le_bytes; lia|].
  exists p'. split; [done|]. split; [by eapply bytes_ok_put|]. split.
  { eapply outside_write; [exact Hw|lia|rewrite lengthZ_le_bytes; lia|apply outside_refl]. }
  intros i Hi. pose proof (mem_write_lookup _ _ _ _ Hw (a + i / 8)) as Hlk. rewrite lengthZ_le_bytes in Hlk.
  pose proof (Z.div_mod i 8 ltac:(lia)). pose proof (Z.mod_pos_bound i 8 ltac:(lia)).
  destruct (Z.leb_spec (8 * k) i), (Z.ltb_spec i (8 * k + 8 * Z.of_nat n)); cbn [andb].
  - rewrite bool_decide_true in Hlk by lia.
    assert (Hn : le_num (le_bytes n z) = z).
    { apply le_num_bytes. replace (256 ^ Z.of_nat n) with (2 ^ (8 * Z.of_nat n)); [done|].
      rewrite Z.pow_mul_r by lia. done. }
    rewrite <-Hn. rewrite le_num_testbit by (apply bytes_ok_le || lia). unfold mbit. rewrite Hlk, Z.add_0_l.
    replace (i - 8 * k) with (i + (- k) * 8) by lia. rewrite Z.div_add, Z_mod_plus_full by lia.
    by replace (a + i / 8 - (a + k)) with (i / 8 + - k) by lia.
  - rewrite bool_decide_false in Hlk by lia. unfold mbit. by rewrite Hlk.
  - rewrite bool_decide_false in Hlk by lia. unfold mbit. by rewrite Hlk.
  - lia.
Qed.
Lemma outside_mbit p p' a b c i : outside p p' a b → c + i / 8 < a ∨ b ≤ c + i / 8 → mbit p' c i = mbit p c i.
Proof. intros [_ Ho] H. apply mbit_lookup. by apply Ho. Qed.

(** ** Scanning words *)
(** [__builtin_popcount] and [__builtin_ffs]: one more than the lowest set bit, 0 if none. *)
Fixpoint popcount_from (n : nat) (i w : Z) : Z :=
  match n with O => 0 | S n' => (if Z.testbit w i then 1 else 0) + popcount_from n' (i + 1) w end.
Definition popcount (w : Z) : Z := popcount_from 32 0 w.
Fixpoint ffs_from (n : nat) (i w : Z) : Z :=
  match n with O => 0 | S n' => if Z.testbit w i then i + 1 else ffs_from n' (i + 1) w end.
Definition ffs (w : Z) : Z := ffs_from 64 0 w.
