(* ===== verification/DataInternal.v ===== *)
(** * Keys, messages and their on-disk form

    data_internal.h, data.h and util.h: keys with the two infinities, messages,
    the packed [ondisk_key] and [ondisk_tuple] structs read from and written to
    a byte array, the comparison and merge wrappers around the application's
    [data_config] callbacks, and [slice_lex_cmp]. *)
From S2P Require Import Prelude Bytes.

(** ** Slices *)
(** [memcmp] of two arrays of the same length: the sign of the first difference. *)
Fixpoint memcmp (a b : list Z) : Z :=
  match a, b with
  | x :: a', y :: b' => if x <? y then -1 else if y <? x then 1 else memcmp a' b'
  | _, _ => 0
  end.
Definition slice_lex_cmp (a b : list Z) : Z :=
  let len1 := lengthZ a in
  let len2 := lengthZ b in
  let minlen := if len1 <? len2 then len1 else len2 in
  let cmp := memcmp (take (Z.to_nat minlen) a) (take (Z.to_nat minlen) b) in
  if negb (cmp =? 0) then cmp
  else if len1 <? len2 then -1
  else i32 (u64 (len1 - len2)).

(** ** Keys *)
Inductive key : Type :=
| NEGATIVE_INFINITY_KEY
| USER_KEY (user_slice : list Z)
| POSITIVE_INFINITY_KEY.
#[export] Instance key_eq_dec : EqDecision key.
Proof. solve_decision. Defined.

Definition key_kind (k : key) : Z :=
  match k with NEGATIVE_INFINITY_KEY => 1 | USER_KEY _ => 2 | POSITIVE_INFINITY_KEY => 3 end.
Definition key_is_user_key (k : key) : bool := key_kind k =? 2.
Definition key_is_negative_infinity (k : key) : bool := key_kind k =? 1.
Definition key_is_positive_infinity (k : key) : bool := key_kind k =? 3.
Definition key_data (k : key) : list Z := match k with USER_KEY s => s | _ => [] end.
Definition key_length (k : key) : Z := if key_is_user_key k then lengthZ (key_data k) else 0.

(** ** Messages *)
Inductive message_type : Type :=
| MESSAGE_TYPE_INVALID
| MESSAGE_TYPE_INSERT
| MESSAGE_TYPE_UPDATE
| MESSAGE_TYPE_DELETE
| MESSAGE_TYPE_PIVOT_DATA.
#[export] Instance message_type_eq_dec : EqDecision message_type.
Proof. solve_decision. Defined.

Definition message_type_code (t : message_type) : Z :=
  match t with
  | MESSAGE_TYPE_INVALID => 0 | MESSAGE_TYPE_INSERT => 1 | MESSAGE_TYPE_UPDATE => 2
  | MESSAGE_TYPE_DELETE => 3 | MESSAGE_TYPE_PIVOT_DATA => 1000
  end.
(** The message type of a two-bit code. *)
Definition message_type_of (z : Z) : message_type :=
  if z =? 1 then MESSAGE_TYPE_INSERT else if z =? 2 then MESSAGE_TYPE_UPDATE
  else if z =? 3 then MESSAGE_TYPE_DELETE else MESSAGE_TYPE_INVALID.

Record message := message_create { message_class : message_type; message_data : list Z }.
(** [NULL_KEY] and [NULL_MESSAGE] have the null slice, whose length is 0. *)
Definition NULL_KEY : key := USER_KEY [].
Definition NULL_MESSAGE : message := message_create MESSAGE_TYPE_INVALID [].
Definition message_length (m : message) : Z := lengthZ (message_data m).
Definition message_is_definitive (m : message) : bool :=
  bool_decide (message_class m = MESSAGE_TYPE_INSERT) || bool_decide (message_class m = MESSAGE_TYPE_DELETE).
Definition message_is_invalid_user_type (m : message) : bool :=
  bool_decide (message_class m = MESSAGE_TYPE_INVALID) ||
  (message_type_code MESSAGE_TYPE_DELETE <? message_type_code (message_class m)).

(** ** The application's callbacks *)
Record data_config := mk_data_config {
  key_compare : list Z → list Z → Z;
  (** The result code, 0 for success, and what the accumulator then holds. *)
  merge_tuples : list Z → message → message → Z * message;
  merge_tuples_final : list Z → message → Z * message;
}.

Definition data_key_compare (cfg : data_config) (key1 key2 : key) : Z :=
  if key_is_user_key key1 && key_is_user_key key2
  then key_compare cfg (key_data key1) (key_data key2)
  else key_kind key1 - key_kind key2.

(** [merge_accumulator_resize(m, 0)]: shrinking never allocates. *)
Definition resize_0 (m : message) : message := message_create (message_class m) [].
Definition drop_deleted (r : Z * message) : Z * message :=
  if negb (r.1 =? 0) && bool_decide (message_class r.2 = MESSAGE_TYPE_DELETE)
  then (r.1, resize_0 r.2) else r.
Definition data_merge_tuples (cfg : data_config) (tuple_key : key) (old new : message) : Z * message :=
  if message_is_definitive new then (0, new)
  else if bool_decide (message_class old = MESSAGE_TYPE_DELETE)
  then merge_tuples_final cfg (key_data tuple_key) new
  else drop_deleted (merge_tuples cfg (key_data tuple_key) old new).
Definition data_merge_tuples_final (cfg : data_config) (tuple_key : key) (oldest : message) : Z * message :=
  if message_is_definitive oldest then (0, oldest)
  else drop_deleted (merge_tuples_final cfg (key_data tuple_key) oldest).

(** ** On-disk keys: [length] (2 bytes), [flags] (1 byte), [bytes] *)
Definition SIZEOF_ONDISK_KEY : Z := 3.
Definition ONDISK_KEY_NEGATIVE_INFINITY : Z := 2 ^ 16 - 1.
Definition ONDISK_KEY_POSITIVE_INFINITY : Z := 2 ^ 16 - 2.
Definition ONDISK_KEY_DEFAULT_FLAGS : Z := 0.

Definition ondisk_key_length (p : list Z) (odk : Z) : option Z := get_le 2 p odk.
Definition sizeof_ondisk_key_data (p : list Z) (odk : Z) : option Z :=
  length ← ondisk_key_length p odk;
  Some (if (length =? ONDISK_KEY_NEGATIVE_INFINITY) || (length =? ONDISK_KEY_POSITIVE_INFINITY)
        then 0 else length).
Definition ondisk_key_to_key (p : list Z) (odk : Z) : option key :=
  length ← ondisk_key_length p odk;
  if length =? ONDISK_KEY_NEGATIVE_INFINITY then Some NEGATIVE_INFINITY_KEY
  else if length =? ONDISK_KEY_POSITIVE_INFINITY then Some POSITIVE_INFINITY_KEY
  else USER_KEY <$> mem_read p (odk + SIZEOF_ONDISK_KEY) length.
Definition copy_key_to_ondisk_key (p : list Z) (odk : Z) (k : key) : option (list Z) :=
  p ← put_le 1 p (odk + 2) ONDISK_KEY_DEFAULT_FLAGS;
  match k with
  | USER_KEY s =>
      p ← put_le 2 p odk (u16 (lengthZ s));
      mem_write p (odk + SIZEOF_ONDISK_KEY) s
  | NEGATIVE_INFINITY_KEY => put_le 2 p odk ONDISK_KEY_NEGATIVE_INFINITY
  | POSITIVE_INFINITY_KEY => put_le 2 p odk ONDISK_KEY_POSITIVE_INFINITY
  end.

(** ** On-disk tuples: [key_length] (2), [key_flags] (1), [message_length] (2),
    [flags] (1), [key_and_message] *)
Definition SIZEOF_ONDISK_TUPLE : Z := 6.
Definition ONDISK_MESSAGE_TYPE_MASK : Z := 3.

Definition tuple_key_length (p : list Z) (odt : Z) : option Z := get_le 2 p odt.
Definition tuple_message_length (p : list Z) (odt : Z) : option Z := get_le 2 p (odt + 3).
Definition sizeof_ondisk_tuple_data (p : list Z) (odt : Z) : option Z :=
  kl ← tuple_key_length p odt; ml ← tuple_message_length p odt; Some (kl + ml).
Definition ondisk_tuple_key (p : list Z) (odt : Z) : option key :=
  kl ← tuple_key_length p odt;
  USER_KEY <$> mem_read p (odt + SIZEOF_ONDISK_TUPLE) kl.
Definition ondisk_tuple_message_class (p : list Z) (odt : Z) : option message_type :=
  flags ← get_le 1 p (odt + 5);
  Some (message_type_of (Z.land flags ONDISK_MESSAGE_TYPE_MASK)).
Definition ondisk_tuple_message (p : list Z) (odt : Z) : option message :=
  type ← ondisk_tuple_message_class p odt;
  kl ← tuple_key_length p odt;
  ml ← tuple_message_length p odt;
  message_create type <$> mem_read p (odt + SIZEOF_ONDISK_TUPLE + kl) ml.

Definition copy_message_to_ondisk_tuple (p : list Z) (odt : Z) (msg : message) : option (list Z) :=
  p ← put_le 2 p (odt + 3) (u16 (message_length msg));
  p ← put_le 1 p (odt + 5) (u8 (message_type_code (message_class msg)));
  kl ← tuple_key_length p odt;
  mem_write p (odt + SIZEOF_ONDISK_TUPLE + kl) (message_data msg).
(** [flags] is written here, and [key_flags] is not. *)
Definition copy_tuple_to_ondisk_tuple (p : list Z) (odt : Z) (k : key) (msg : message) : option (list Z) :=
  p ← put_le 2 p odt (u16 (key_length k));
  p ← put_le 1 p (odt + 5) ONDISK_KEY_DEFAULT_FLAGS;
  p ← mem_write p (odt + SIZEOF_ONDISK_TUPLE) (key_data k);
  copy_message_to_ondisk_tuple p odt msg.

(** * Facts about keys and on-disk structs

    The order on keys, the place of an [ondisk_key] or [ondisk_tuple] in a byte
    array, and that the writers make what the readers read. *)
(** ** The order of keys *)
(** What data.h asks of [key_compare]: the sign of a total order, on slices
    whose lengths differ by an [int]. *)
Definition slice_small (s : list Z) : Prop := lengthZ s < 2 ^ 31.
Definition key_small (k : key) : Prop := key_length k < 2 ^ 31.
Class key_order (cfg : data_config) : Prop := {
  key_compare_sym a b : slice_small a → slice_small b →
    Z.sgn (key_compare cfg a b) = - Z.sgn (key_compare cfg b a);
  key_compare_trans a b c : slice_small a → slice_small b → slice_small c →
    key_compare cfg a b ≤ 0 → key_compare cfg b c ≤ 0 → key_compare cfg a c ≤ 0;
}.

Section order.
Context (cfg : data_config) `{!key_order cfg}.

Lemma dkc_sym a b : key_small a → key_small b →
  Z.sgn (data_key_compare cfg a b) = - Z.sgn (data_key_compare cfg b a).
Proof.
  destruct a, b; cbn; intros ??; try done. by apply key_compare_sym.
Qed.
Lemma dkc_refl a : key_small a → data_key_compare cfg a a = 0.
Proof. intros Ha. pose proof (dkc_sym a a Ha Ha). lia. Qed.
Lemma dkc_trans a b c : key_small a → key_small b → key_small c →
  data_key_compare cfg a b ≤ 0 → data_key_compare cfg b c ≤ 0 → data_key_compare cfg a c ≤ 0.
Proof.
  destruct a, b, c; cbn; intros ???; try lia. by apply key_compare_trans.
Qed.
Lemma dkc_lt_le a b c : key_small a → key_small b → key_small c →
  data_key_compare cfg a b < 0 → data_key_compare cfg b c ≤ 0 → data_key_compare cfg a c < 0.
Proof.
  intros Ha Hb Hc H1 H2. pose proof (dkc_trans a b c Ha Hb Hc ltac:(lia) H2).
  destruct (decide (data_key_compare cfg a c = 0)); [|lia].
  pose proof (dkc_sym a c Ha Hc). pose proof (dkc_sym a b Ha Hb).
  pose proof (dkc_trans b c a Hb Hc Ha H2 ltac:(lia)). lia.
Qed.
Lemma dkc_le_lt a b c : key_small a → key_small b → key_small c →
  data_key_compare cfg a b ≤ 0 → data_key_compare cfg b c < 0 → data_key_compare cfg a c < 0.
Proof.
  intros Ha Hb Hc H1 H2. pose proof (dkc_trans a b c Ha Hb Hc H1 ltac:(lia)).
  destruct (decide (data_key_compare cfg a c = 0)); [|lia].
  pose proof (dkc_sym a c Ha Hc). pose proof (dkc_sym b c Hb Hc).
  pose proof (dkc_trans c a b Hc Ha Hb ltac:(lia) H1). lia.
Qed.
Lemma dkc_gt a b : key_small a → key_small b →
  0 < data_key_compare cfg a b → data_key_compare cfg b a < 0.
Proof. intros Ha Hb H. pose proof (dkc_sym a b Ha Hb). lia. Qed.
End order.

(** ** The lexicographic order of the default configuration *)
Lemma memcmp_sym a b : memcmp a b = - memcmp b a.
Proof.
  revert b. induction a as [|x a IH]; intros [|y b]; cbn; try done.
  destruct (Z.ltb_spec x y), (Z.ltb_spec y x); try lia. apply IH.
Qed.
(** The lexicographic comparison, by recursion on both slices. *)
Fixpoint lex (a b : list Z) : Z :=
  match a, b with
  | [], [] => 0
  | [], _ :: _ => -1
  | _ :: _, [] => 1
  | x :: a', y :: b' => if x <? y then -1 else if y <? x then 1 else lex a' b'
  end.
Lemma lex_sym a b : lex a b = - lex b a.
Proof.
  revert b. induction a as [|x a IH]; intros [|y b]; cbn; try done.
  destruct (Z.ltb_spec x y), (Z.ltb_spec y x); try lia. apply IH.
Qed.
Lemma lex_trans a b c : lex a b ≤ 0 → lex b c ≤ 0 → lex a c ≤ 0.
Proof.
  revert b c. induction a as [|x a IH]; intros [|y b] [|z c]; cbn; try lia.
  destruct (Z.ltb_spec x y), (Z.ltb_spec y x), (Z.ltb_spec y z), (Z.ltb_spec z y),
    (Z.ltb_spec x z), (Z.ltb_spec z x); try lia. apply IH.
Qed.
Lemma slice_lex_cmp_sgn a b :
  slice_small a → slice_small b → Z.sgn (slice_lex_cmp a b) = lex a b.
Proof.
  unfold slice_small, slice_lex_cmp. intros Ha Hb.
  assert (Hi : ¬ lengthZ a < lengthZ b → i32 (u64 (lengthZ a - lengthZ b)) = lengthZ a - lengthZ b).
  { intros ?. pose proof (lengthZ_nonneg a). pose proof (lengthZ_nonneg b).
    rewrite u64_small by lia. apply i32_small. lia. }
  destruct (Z.ltb_spec (lengthZ a) (lengthZ b)) as [Hl|Hl].
  - clear Hi. revert b Hb Hl. induction a as [|x a IH]; intros [|y b] Hb Hl.
    + rewrite lengthZ_nil in Hl. lia.
    + done.
    + rewrite lengthZ_cons, lengthZ_nil in Hl. pose proof (lengthZ_nonneg a). lia.
    + rewrite !lengthZ_cons in *. pose proof (lengthZ_nonneg a).
      replace (Z.to_nat (1 + lengthZ a)) with (S (Z.to_nat (lengthZ a))) by lia.
      cbn [take memcmp lex]. destruct (Z.ltb_spec x y), (Z.ltb_spec y x); try done.
      apply IH; lia.
  - rewrite Hi by lia. clear Hi. revert b Hb Hl. induction a as [|x a IH]; intros [|y b] Hb Hl.
    + done.
    + rewrite lengthZ_cons, lengthZ_nil in Hl. pose proof (lengthZ_nonneg b). lia.
    + rewrite lengthZ_cons, lengthZ_nil in *. pose proof (lengthZ_nonneg a). cbn [take memcmp lex].
      rewrite Z.eqb_refl. cbn [negb]. rewrite lengthZ_nil. lia.
    + rewrite !lengthZ_cons in *. pose proof (lengthZ_nonneg b).
      replace (Z.to_nat (1 + lengthZ b)) with (S (Z.to_nat (lengthZ b))) by lia.
      cbn [take memcmp lex]. destruct (Z.ltb_spec x y), (Z.ltb_spec y x); try done.
      replace (1 + lengthZ a - (1 + lengthZ b)) with (lengthZ a - lengthZ b) by lia.
      apply IH; lia.
Qed.
Lemma lex_order cfg : key_compare cfg = slice_lex_cmp → key_order cfg.
Proof.
  intros Hc. split; rewrite Hc.
  - intros a b Ha Hb. rewrite !slice_lex_cmp_sgn by done. apply lex_sym.
  - intros a b c Ha Hb Hd H1 H2.
    pose proof (slice_lex_cmp_sgn a b Ha Hb). pose proof (slice_lex_cmp_sgn b c Hb Hd).
    pose proof (slice_lex_cmp_sgn a c Ha Hd). pose proof (lex_trans a b c). lia.
Qed.

(** ** On-disk keys *)
Definition key_fits (k : key) : Prop :=
  match k with USER_KEY s => lengthZ s < ONDISK_KEY_POSITIVE_INFINITY | _ => True end.
Definition key_code (k : key) : Z :=
  match k with
  | NEGATIVE_INFINITY_KEY => ONDISK_KEY_NEGATIVE_INFINITY
  | USER_KEY s => lengthZ s
  | POSITIVE_INFINITY_KEY => ONDISK_KEY_POSITIVE_INFINITY
  end.
Definition ondisk_key_at (p : list Z) (odk : Z) (k : key) : Prop :=
  key_fits k ∧ holds p odk (le_bytes 2 (key_code k)) ∧ holds p (odk + 3) (key_data k).

Lemma key_length_data k : key_length k = lengthZ (key_data k).
Proof. by destruct k. Qed.
Lemma key_code_range k : key_fits k → 0 ≤ key_code k < 2 ^ 16.
Proof.
  destruct k as [|s|]; cbn -[Z.pow]; intros Hf; [done| |done].
  unfold ONDISK_KEY_POSITIVE_INFINITY in Hf. pose proof (lengthZ_nonneg s). lia.
Qed.

Lemma ondisk_key_at_read p odk k : ondisk_key_at p odk k →
  ondisk_key_to_key p odk = Some k ∧ sizeof_ondisk_key_data p odk = Some (key_length k).
Proof.
  intros (Hf & Hl & Hd). unfold ondisk_key_to_key, sizeof_ondisk_key_data, ondisk_key_length.
  rewrite (holds_le2 _ _ _ (key_code_range k Hf) Hl). cbn [mbind option_bind].
  destruct k as [|s|]; [done| |done]. cbn [key_code key_fits key_data] in *.
  apply holds_read in Hd. unfold SIZEOF_ONDISK_KEY. rewrite Hd. cbn.
  unfold ONDISK_KEY_POSITIVE_INFINITY, ONDISK_KEY_NEGATIVE_INFINITY in *.
  by rewrite !(proj2 (Z.eqb_neq _ _)) by lia.
Qed.
Lemma ondisk_key_at_agree p p' odk k :
  lengthZ p' = lengthZ p → agree p p' odk (odk + 3 + key_length k) →
  ondisk_key_at p odk k → ondisk_key_at p' odk k.
Proof.
  rewrite key_length_data. intros HL Ha (Hf & Hl & Hd). split; [done|].
  split; (eapply holds_agree; [exact HL| |eassumption]); apply (agree_mono _ _ Ha); zlen.
Qed.
Lemma copy_key_ok p odk k :
  0 ≤ odk → odk + 3 + key_length k ≤ lengthZ p → key_fits k →
  ∃ p', copy_key_to_ondisk_key p odk k = Some p' ∧
    outside p p' odk (odk + 3 + key_length k) ∧ ondisk_key_at p' odk k.
Proof.
  rewrite key_length_data. intros Ho Hl Hf. unfold copy_key_to_ondisk_key.
  pose proof (key_code_range k Hf) as Hr. step_write p1 H1.
  destruct k as [|s|]; cbn [key_data key_code] in *.
  - step_write p2 H2. exists p2. split; [done|]. split; [solve_outside|]. split; [done|].
    split; [solve_holds|]. apply holds_nil. zlen.
  - rewrite u16_small by done.
    step_write p2 H2. unfold SIZEOF_ONDISK_KEY. step_write p3 H3. exists p3. split; [done|].
    split; [solve_outside|]. split; [done|]. split; solve_holds.
  - step_write p2 H2. exists p2. split; [done|]. split; [solve_outside|]. split; [done|].
    split; [solve_holds|]. apply holds_nil. zlen.
Qed.

(** ** On-disk tuples *)
Definition tuple_fits (k : list Z) (m : message) : Prop :=
  lengthZ k < 2 ^ 16 ∧ message_length m < 2 ^ 16 ∧ message_class m ≠ MESSAGE_TYPE_PIVOT_DATA.
Definition tuple_size (k : list Z) (m : message) : Z := 6 + lengthZ k + message_length m.
Definition ondisk_tuple_at (p : list Z) (odt : Z) (k : list Z) (m : message) : Prop :=
  tuple_fits k m ∧
  holds p odt (le_bytes 2 (lengthZ k)) ∧ holds p (odt + 3) (le_bytes 2 (message_length m)) ∧
  holds p (odt + 5) (le_bytes 1 (message_type_code (message_class m))) ∧
  holds p (odt + 6) (k ++ message_data m).

Lemma message_type_code_of t : t ≠ MESSAGE_TYPE_PIVOT_DATA →
  message_type_of (Z.land (message_type_code t) ONDISK_MESSAGE_TYPE_MASK) = t ∧
  0 ≤ message_type_code t < 4.
Proof. by destruct t. Qed.

Lemma ondisk_tuple_at_lengths p odt k m : ondisk_tuple_at p odt k m →
  tuple_key_length p odt = Some (lengthZ k) ∧ tuple_message_length p odt = Some (message_length m).
Proof.
  intros ((Hk & Hm & _) & Hkl & Hml & _). unfold message_length in *.
  pose proof (lengthZ_nonneg k). pose proof (lengthZ_nonneg (message_data m)).
  split; (apply holds_le2; [lia|done]).
Qed.
Lemma ondisk_tuple_at_read p odt k m : ondisk_tuple_at p odt k m →
  ondisk_tuple_key p odt = Some (USER_KEY k) ∧ ondisk_tuple_message p odt = Some m ∧
  sizeof_ondisk_tuple_data p odt = Some (lengthZ k + message_length m).
Proof.
  intros Hat. pose proof (ondisk_tuple_at_lengths _ _ _ _ Hat) as [Hkl Hml].
  destruct Hat as ((Hk & Hm & Ht) & _ & _ & Hf & Hd).
  apply holds_app in Hd as [Hdk Hdm].
  pose proof (message_type_code_of _ Ht) as [Hc Hr].
  unfold ondisk_tuple_key, ondisk_tuple_message, ondisk_tuple_message_class,
    sizeof_ondisk_tuple_data, SIZEOF_ONDISK_TUPLE.
  rewrite Hkl, Hml. cbn [mbind option_bind].
  rewrite (holds_read _ _ _ Hdk). rewrite (holds_le1 _ _ (message_type_code (message_class m)) ltac:(lia) Hf).
  cbn [mbind option_bind]. unfold message_length. rewrite (holds_read _ _ _ Hdm), Hc.
  by destruct m.
Qed.
Lemma ondisk_tuple_at_agree p p' odt k m :
  lengthZ p' = lengthZ p → agree p p' odt (odt + tuple_size k m) →
  ondisk_tuple_at p odt k m → ondisk_tuple_at p' odt k m.
Proof.
  unfold tuple_size, message_length. intros HL Ha (Hf & H1 & H2 & H3 & H4).
  pose proof (lengthZ_nonneg k). pose proof (lengthZ_nonneg (message_data m)).
  split; [done|].
  split; [|split; [|split]]; (eapply holds_agree; [exact HL| |eassumption]); apply (agree_mono _ _ Ha); zlen.
Qed.
Lemma copy_tuple_ok p odt k m :
  0 ≤ odt → odt + tuple_size k m ≤ lengthZ p → tuple_fits k m →
  ∃ p', copy_tuple_to_ondisk_tuple p odt (USER_KEY k) m = Some p' ∧
    outside p p' odt (odt + tuple_size k m) ∧ ondisk_tuple_at p' odt k m.
Proof.
  unfold tuple_size, message_length. intros Ho Hl Hf.
  pose proof Hf as (Hk & Hm & Ht). unfold message_length in Hm.
  unfold copy_tuple_to_ondisk_tuple, copy_message_to_ondisk_tuple, key_length, message_length. cbn [key_data].
  change (key_is_user_key (USER_KEY k)) with true. cbv iota.
  rewrite !u16_small by zlen.
  pose proof (message_type_code_of _ Ht) as [_ Hr]. rewrite u8_small by lia.
  step_write p1 H1. step_write p2 H2. unfold SIZEOF_ONDISK_TUPLE. step_write p3 H3.
  step_write p4 H4. step_write p5 H5.
  assert (Hkl : tuple_key_length p5 odt = Some (lengthZ k)).
  { apply holds_le2; [zlen|solve_holds]. }
  rewrite Hkl. cbn [mbind option_bind]. step_write p6 H6. exists p6. split; [done|].
  split; [solve_outside|]. split; [done|]. unfold message_length.
  split; [solve_holds|]. split; [solve_holds|]. split; [solve_holds|].
  apply holds_app. split; solve_holds.
Qed.
