(* ===== verification/Iterator.v ===== *)
(** * Iterators

    iterator.h: an object that stands at a tuple of an ordered range and can be
    stepped both ways.  The operations are a class over the type of the object;
    [yields] is what a caller that goes in one direction may expect of it. *)
From S2P Require Import Prelude DataInternal.

(** ** The operations ([iterator_ops]) *)
Class iterator_ops (I : Type) := {
  ops_curr : I → key * message;
  ops_can_prev : I → bool;
  ops_can_next : I → bool;
  ops_next : M I platform_status;
  ops_prev : M I platform_status;
}.

Section iterator.
Context {I : Type} `{!iterator_ops I}.
Definition iterator_curr (itor : I) : key * message := ops_curr itor.
Definition iterator_can_prev (itor : I) : bool := ops_can_prev itor.
Definition iterator_can_next (itor : I) : bool := ops_can_next itor.
Definition iterator_can_curr (itor : I) : bool := ops_can_next itor && ops_can_prev itor.
Definition iterator_next : M I platform_status := ops_next.
Definition iterator_prev : M I platform_status := ops_prev.

(** The step and the bound of a direction. *)
Definition iterator_step (forwards : bool) : M I platform_status :=
  if forwards then iterator_next else iterator_prev.
Definition can_step (forwards : bool) (itor : I) : bool :=
  if forwards then iterator_can_next itor else iterator_can_prev itor.
End iterator.

(** ** What a traversal yields

    [yields forwards itor l]: stepped in that direction, [itor] yields the tuples
    [l], the current one first, every step succeeds, and then it reports the end. *)
Inductive yields {I} `{!iterator_ops I} (forwards : bool) : I → list (key * message) → Prop :=
| yields_end itor : can_step forwards itor = false → yields forwards itor []
| yields_step itor e l itor' :
    iterator_can_curr itor = true → iterator_curr itor = e →
    iterator_step forwards itor = Ret (STATUS_OK, itor') → yields forwards itor' l →
    yields forwards itor (e :: l).

Section yields.
Context {I : Type} `{!iterator_ops I} (forwards : bool).
Lemma can_curr_step (itor : I) : iterator_can_curr itor = true → can_step forwards itor = true.
Proof.
  unfold iterator_can_curr, can_step, iterator_can_next, iterator_can_prev.
  intros [Hn Hp]%andb_true_iff. by destruct forwards.
Qed.
Lemma yields_can_curr (itor : I) l : yields forwards itor l →
  iterator_can_curr itor = negb (bool_decide (l = [])).
Proof.
  destruct 1 as [itor H|]; [|done]. cbn.
  destruct (iterator_can_curr itor) eqn:E; [|done]. apply can_curr_step in E. congruence.
Qed.
Lemma yields_cons_inv (itor : I) e l : yields forwards itor (e :: l) →
  iterator_curr itor = e ∧ ∃ itor', iterator_step forwards itor = Ret (STATUS_OK, itor') ∧ yields forwards itor' l.
Proof. inversion 1; subst. eauto. Qed.
Lemma yields_fun (itor : I) l l' : yields forwards itor l → yields forwards itor l' → l = l'.
Proof.
  intros H. revert l'. induction H as [itor H|itor e l itor' Hc <- Hs _ IH]; intros l' H'; inversion H'; subst.
  - done.
  - apply can_curr_step in H0. congruence.
  - apply can_curr_step in Hc. congruence.
  - match goal with H1 : iterator_step _ itor = Ret (_, ?a), Hy : yields _ ?a _ |- _ =>
      rewrite Hs in H1; injection H1 as <-; f_equal; by apply IH end.
Qed.
End yields.

(** ** An iterator over an array of tuples, to evaluate examples with

    It stands at an index of the array; one before the first or after the last is
    an end of the range. *)
Record array_iterator := mk_array_iterator { ai_tuples : list (key * message); ai_pos : Z; ai_fails : bool }.
Definition array_move (d : Z) : M array_iterator platform_status := λ it,
  if ai_fails it then Ret (STATUS_IO_ERROR, it)
  else Ret (STATUS_OK, mk_array_iterator (ai_tuples it) (ai_pos it + d) false).
#[export] Instance array_iterator_ops : iterator_ops array_iterator := {
  ops_curr it := default (USER_KEY [], message_create MESSAGE_TYPE_INVALID []) (lookupZ (ai_tuples it) (ai_pos it));
  ops_can_prev it := (0 <=? ai_pos it) && negb (bool_decide (ai_tuples it = []));
  ops_can_next it := ai_pos it <? lengthZ (ai_tuples it);
  ops_next := array_move 1;
  ops_prev := array_move (-1);
}.
Lemma array_yields l pos : 0 ≤ pos ≤ lengthZ l →
  yields true (mk_array_iterator l pos false) (drop (Z.to_nat pos) l).
Proof.
  intros H. remember (Z.to_nat (lengthZ l - pos)) as n eqn:Hn. revert pos H Hn.
  induction n as [|n IH]; intros pos H Hn.
  - unfold lengthZ in *. rewrite drop_ge by lia. constructor. cbn. unfold lengthZ. lia.
  - destruct (lookup_lt_is_Some_2 l (Z.to_nat pos)) as [e He]; [unfold lengthZ in *; lia|].
    rewrite (drop_S _ _ _ He). econstructor.
    + unfold iterator_can_curr. cbn. destruct l; [done|]. cbn. lia.
    + cbn. unfold lookupZ. rewrite bool_decide_true by lia. by rewrite He.
    + done.
    + cbn. replace (S (Z.to_nat pos)) with (Z.to_nat (pos + 1)) by lia. apply IH; lia.
Qed.
