(* ===== verification/BtreeNode.v ===== *)
(** * B-tree nodes

    btree.c and btree_private.h: a node is a page with a header, a table of
    offsets growing up from the header and entries growing down from the end of
    the page.  The fields of the header are those of [btree_hdr]; the table and
    the entries are bytes of [page], at their offsets from the node's start. *)
From S2P Require Import Prelude Bytes DataInternal.

Record btree_config := mk_btree_config {
  btree_page_size : Z;
  bt_data_cfg : data_config;
}.
Definition btree_key_compare (cfg : btree_config) : key → key → Z :=
  data_key_compare (bt_data_cfg cfg).

Definition MAX_INLINE_KEY_SIZE (page_size : Z) : Z := page_size / 8.
Definition MAX_INLINE_MESSAGE_SIZE (page_size : Z) : Z := 35 * page_size / 100.
Definition BTREE_SPLIT_THRESHOLD (page_size : Z) : Z := page_size / 2.
Definition BTREE_DEFRAGMENT_THRESHOLD (page_size : Z) : Z := page_size / 4.
Definition BTREE_UNKNOWN_COUNTER : Z := 2 ^ 31 - 1.

Record btree_hdr := mk_btree_hdr {
  prev_addr : Z;
  next_addr : Z;
  next_extent_addr : Z;
  generation : Z;
  height : Z;
  next_entry : Z;
  num_entries : Z;
  page : list Z;
}.
(** [sizeof(btree_hdr)]: four 64-bit fields, one 8-bit and two 16-bit ones, packed. *)
Definition SIZEOF_BTREE_HDR : Z := 37.
Definition SIZEOF_TABLE_ENTRY : Z := 2.

Definition set_prev_addr a h := mk_btree_hdr a (next_addr h) (next_extent_addr h) (generation h)
  (height h) (next_entry h) (num_entries h) (page h).
Definition set_next_addr a h := mk_btree_hdr (prev_addr h) a (next_extent_addr h) (generation h)
  (height h) (next_entry h) (num_entries h) (page h).
Definition incr_generation h := mk_btree_hdr (prev_addr h) (next_addr h) (next_extent_addr h)
  (u64 (generation h + 1)) (height h) (next_entry h) (num_entries h) (page h).
Definition set_height z h := mk_btree_hdr (prev_addr h) (next_addr h) (next_extent_addr h)
  (generation h) (u8 z) (next_entry h) (num_entries h) (page h).
Definition set_next_entry z h := mk_btree_hdr (prev_addr h) (next_addr h) (next_extent_addr h)
  (generation h) (height h) (u16 z) (num_entries h) (page h).
Definition set_num_entries z h := mk_btree_hdr (prev_addr h) (next_addr h) (next_extent_addr h)
  (generation h) (height h) (next_entry h) (u16 z) (page h).
Definition set_page p h := mk_btree_hdr (prev_addr h) (next_addr h) (next_extent_addr h)
  (generation h) (height h) (next_entry h) (num_entries h) p.

Abbreviation N := (M btree_hdr).
(** A write to the page. *)
Definition on_page (f : list Z → option (list Z)) : N unit :=
  h ← mget; p ← mopt (f (page h)); mmod (set_page p).

(** [diff_ptr(hdr, &hdr->offsets[k])] *)
Definition table_at (k : Z) : Z := SIZEOF_BTREE_HDR + SIZEOF_TABLE_ENTRY * k.
Definition btree_get_table_entry (h : btree_hdr) (k : Z) : option Z := get_le 2 (page h) (table_at k).
Definition put_table_entry (k off : Z) : N unit := on_page (λ p, put_le 2 p (table_at k) (u16 off)).

Definition btree_init_hdr (cfg : btree_config) (h : btree_hdr) : btree_hdr :=
  mk_btree_hdr 0 0 0 0 0 (u16 (btree_page_size cfg)) 0 (page h).
Definition btree_num_entries (h : btree_hdr) : Z := num_entries h.
Definition btree_height (h : btree_hdr) : Z := height h.
Definition btree_increment_height (h : btree_hdr) : btree_hdr := set_height (height h + 1) h.
Definition btree_reset_node_entries (cfg : btree_config) (h : btree_hdr) : btree_hdr :=
  set_next_entry (btree_page_size cfg) (set_num_entries 0 h).

(** ** Leaf entries: on-disk tuples *)
Definition SIZEOF_LEAF_ENTRY : Z := SIZEOF_ONDISK_TUPLE.
Definition leaf_entry_required_capacity (tuple_key : key) (msg : message) : Z :=
  SIZEOF_LEAF_ENTRY + key_length tuple_key + message_length msg.
Definition btree_get_leaf_entry (h : btree_hdr) (k : Z) : option Z := btree_get_table_entry h k.
Definition sizeof_leaf_entry (h : btree_hdr) (entry : Z) : option Z :=
  d ← sizeof_ondisk_tuple_data (page h) entry; Some (SIZEOF_LEAF_ENTRY + d).
Definition leaf_entry_key (h : btree_hdr) (entry : Z) : option key := ondisk_tuple_key (page h) entry.
Definition leaf_entry_message (h : btree_hdr) (entry : Z) : option message :=
  ondisk_tuple_message (page h) entry.
Definition btree_get_tuple_key (h : btree_hdr) (k : Z) : option key :=
  btree_get_leaf_entry h k ≫= leaf_entry_key h.
Definition btree_get_tuple_message (h : btree_hdr) (k : Z) : option message :=
  btree_get_leaf_entry h k ≫= leaf_entry_message h.
Definition leaf_size_at (h : btree_hdr) (k : Z) : option Z :=
  btree_get_leaf_entry h k ≫= sizeof_leaf_entry h.

Definition btree_fill_leaf_entry (entry : Z) (tuple_key : key) (msg : message) : N unit :=
  on_page (λ p, copy_tuple_to_ondisk_tuple p entry tuple_key msg).

Definition btree_can_set_leaf_entry (h : btree_hdr) (k : Z) (new_key : key) (new_message : message) : option bool :=
  if num_entries h <? k then Some false
  else
    fits ← (if k <? num_entries h then
              sz ← leaf_size_at h k; Some (leaf_entry_required_capacity new_key new_message <=? sz)
            else Some false);
    if fits : bool then Some true
    else
      let new_num_entries := if k <? num_entries h then num_entries h else k + 1 in
      Some (negb (next_entry h <? table_at new_num_entries
                                  + leaf_entry_required_capacity new_key new_message)).

Definition btree_set_leaf_entry (k : Z) (new_key : key) (new_message : message) : N bool :=
  h ← mget;
  let required := leaf_entry_required_capacity new_key new_message in
  in_place ← (if k <? num_entries h then
                old_entry ← mopt (btree_get_leaf_entry h k);
                sz ← mopt (sizeof_leaf_entry h old_entry);
                mret (if required <=? sz then Some old_entry else None)
              else mret None);
  match in_place with
  | Some old_entry => btree_fill_leaf_entry old_entry new_key new_message;; mret true
  | None =>
      massert (k <=? num_entries h);;
      let new_num_entries := if k <? num_entries h then num_entries h else k + 1 in
      if next_entry h <? table_at new_num_entries + required then mret false
      else
        let new_entry := next_entry h - required in
        massert (table_at new_num_entries <=? new_entry);;
        btree_fill_leaf_entry new_entry new_key new_message;;
        put_table_entry k new_entry;;
        mmod (set_num_entries new_num_entries);;
        mmod (set_next_entry new_entry);;
        massert (0 <? u16 new_num_entries);;
        mret true
  end.

(** Move the last entry of the table to index [k]. *)
Definition rotate_table (k : Z) : N unit :=
  h ← mget;
  this_entry_offset ← mopt (btree_get_table_entry h (num_entries h - 1));
  on_page (λ p, mem_move p (table_at (k + 1)) (table_at k)
                  ((num_entries h - k - 1) * SIZEOF_TABLE_ENTRY));;
  put_table_entry k this_entry_offset.
Definition btree_insert_leaf_entry (k : Z) (new_key : key) (new_message : message) : N bool :=
  h ← mget;
  succeeded ← btree_set_leaf_entry (num_entries h) new_key new_message;
  (if succeeded : bool then rotate_table k else mret tt);;
  mret succeeded.

(** ** Index entries: [child_addr] (8 bytes), the statistics (3 × 4), the pivot *)
Record btree_pivot_stats := mk_pivot_stats { num_kvs : Z; key_bytes : Z; message_bytes : Z }.
Definition BTREE_PIVOT_STATS_UNKNOWN : btree_pivot_stats :=
  mk_pivot_stats BTREE_UNKNOWN_COUNTER BTREE_UNKNOWN_COUNTER BTREE_UNKNOWN_COUNTER.
Definition SIZEOF_PIVOT_DATA : Z := 20.
Definition SIZEOF_INDEX_ENTRY : Z := SIZEOF_PIVOT_DATA + SIZEOF_ONDISK_KEY.

Definition index_entry_required_capacity (pivot : key) : Z := SIZEOF_INDEX_ENTRY + key_length pivot.
Definition btree_get_index_entry (h : btree_hdr) (k : Z) : option Z := btree_get_table_entry h k.
Definition sizeof_index_entry (h : btree_hdr) (entry : Z) : option Z :=
  d ← sizeof_ondisk_key_data (page h) (entry + SIZEOF_PIVOT_DATA); Some (SIZEOF_INDEX_ENTRY + d).
Definition index_entry_key (h : btree_hdr) (entry : Z) : option key :=
  ondisk_key_to_key (page h) (entry + SIZEOF_PIVOT_DATA).
(** The low 12 bits of the field are not part of the address. *)
Definition index_entry_child_addr (h : btree_hdr) (entry : Z) : option Z :=
  a ← get_le 8 (page h) entry; Some (Z.land a (Z.lnot 4095)).
Definition index_entry_stats (h : btree_hdr) (entry : Z) : option btree_pivot_stats :=
  n ← get_le 4 (page h) (entry + 8);
  kb ← get_le 4 (page h) (entry + 12);
  mb ← get_le 4 (page h) (entry + 16);
  Some (mk_pivot_stats n kb mb).
Definition btree_get_pivot (h : btree_hdr) (k : Z) : option key :=
  btree_get_index_entry h k ≫= index_entry_key h.
Definition btree_get_child_addr (h : btree_hdr) (k : Z) : option Z :=
  btree_get_index_entry h k ≫= index_entry_child_addr h.
Definition index_size_at (h : btree_hdr) (k : Z) : option Z :=
  btree_get_index_entry h k ≫= sizeof_index_entry h.

Definition fill_index_entry (p : list Z) (entry : Z) (k : key) (addr : Z) (stats : btree_pivot_stats) : option (list Z) :=
  p ← copy_key_to_ondisk_key p (entry + SIZEOF_PIVOT_DATA) k;
  p ← put_le 8 p entry (u64 addr);
  p ← put_le 4 p (entry + 8) (u32 (num_kvs stats));
  p ← put_le 4 p (entry + 12) (u32 (key_bytes stats));
  put_le 4 p (entry + 16) (u32 (message_bytes stats)).
Definition btree_fill_index_entry (entry : Z) (k : key) (addr : Z) (stats : btree_pivot_stats) : N unit :=
  on_page (λ p, fill_index_entry p entry k addr stats).

Definition btree_set_index_entry (k : Z) (new_pivot_key : key) (new_addr : Z) (stats : btree_pivot_stats) : N bool :=
  h ← mget;
  massert (k <=? num_entries h);;
  let required := index_entry_required_capacity new_pivot_key in
  let new_num_entries := if k <? num_entries h then num_entries h else k + 1 in
  in_place ← (if k <? num_entries h then
                old_entry ← mopt (btree_get_index_entry h k);
                sz ← mopt (sizeof_index_entry h old_entry);
                if (next_entry h =? old_entry) && (table_at new_num_entries + required <=? next_entry h + sz)
                then mmod (set_next_entry (next_entry h + sz));; mret None
                else mret (if required <=? sz then Some old_entry else None)
              else mret None);
  match in_place with
  | Some old_entry => btree_fill_index_entry old_entry new_pivot_key new_addr stats;; mret true
  | None =>
      h ← mget;
      if next_entry h <? table_at new_num_entries + required then mret false
      else
        let new_entry := next_entry h - required in
        btree_fill_index_entry new_entry new_pivot_key new_addr stats;;
        put_table_entry k new_entry;;
        mmod (set_num_entries new_num_entries);;
        mmod (set_next_entry new_entry);;
        mret true
  end.

Definition btree_insert_index_entry (k : Z) (new_pivot_key : key) (new_addr : Z) (stats : btree_pivot_stats) : N bool :=
  h ← mget;
  succeeded ← btree_set_index_entry (num_entries h) new_pivot_key new_addr stats;
  (if succeeded : bool then rotate_table k else mret tt);;
  mret succeeded.

(** ** Searching a node *)
(** The loop of the two searches, over the key of entry [mid]. *)
Fixpoint search_loop (fuel : nat) (cmp : Z → option Z) (lo hi : Z) : N (Z * bool) :=
  match fuel with
  | O => mfuel
  | S fuel' =>
      if lo <? hi then
        let mid := (lo + hi) / 2 in
        c ← mopt (cmp mid);
        if c =? 0 then mret (mid, true)
        else if c <? 0 then search_loop fuel' cmp (mid + 1) hi
        else search_loop fuel' cmp lo mid
      else mret (lo - 1, false)
  end.
Definition search_fuel (h : btree_hdr) : nat := S (Z.to_nat (num_entries h)).
Definition btree_find_pivot (cfg : btree_config) (target : key) : N (Z * bool) :=
  h ← mget;
  search_loop (search_fuel h)
    (λ mid, k ← btree_get_pivot h mid; Some (btree_key_compare cfg k target)) 0 (num_entries h).
Definition btree_find_tuple (cfg : btree_config) (target : key) : N (Z * bool) :=
  h ← mget;
  search_loop (search_fuel h)
    (λ mid, k ← btree_get_tuple_key h mid; Some (btree_key_compare cfg k target)) 0 (num_entries h).

(** ** Incorporating a tuple in a leaf *)
Inductive old_entry_status : Type :=
| ENTRY_DID_NOT_EXIST
| ENTRY_STILL_EXISTS
| ENTRY_HAS_BEEN_REMOVED.
#[export] Instance old_entry_status_eq_dec : EqDecision old_entry_status.
Proof. solve_decision. Defined.

(** [spec_message] is the union: the new message, or the merged one when an old
    entry existed. *)
Record leaf_incorporate_spec := mk_spec {
  tuple_key : key;
  idx : Z;
  old_entry_state : old_entry_status;
  spec_message : message;
}.
Definition set_old_entry_state st (sp : leaf_incorporate_spec) : leaf_incorporate_spec :=
  mk_spec (tuple_key sp) (idx sp) st (spec_message sp).
Definition set_idx i (sp : leaf_incorporate_spec) : leaf_incorporate_spec :=
  mk_spec (tuple_key sp) i (old_entry_state sp) (spec_message sp).
Definition still_exists (sp : leaf_incorporate_spec) : bool :=
  bool_decide (old_entry_state sp = ENTRY_STILL_EXISTS).

(** [heap_ok n]: the heap has [n] bytes for the copy of the message in the
    accumulator; an empty message needs none. *)
Definition btree_create_leaf_incorporate_spec (cfg : btree_config) (heap_ok : Z → bool)
    (tuple_key : key) (msg : message) : N (platform_status * leaf_incorporate_spec) :=
  h ← mget;
  r ← btree_find_tuple cfg tuple_key;
  let '(i, found) := r : Z * bool in
  if negb found then mret (STATUS_OK, mk_spec tuple_key (i + 1) ENTRY_DID_NOT_EXIST msg)
  else
    oldmessage ← mopt (btree_get_tuple_message h i);
    if negb ((message_length msg =? 0) || heap_ok (message_length msg))
    then mret (STATUS_NO_MEMORY, mk_spec tuple_key i ENTRY_STILL_EXISTS NULL_MESSAGE)
    else
      let '(rc, merged) := data_merge_tuples (bt_data_cfg cfg) tuple_key oldmessage msg in
      if negb (rc =? 0) then mret (STATUS_NO_MEMORY, mk_spec tuple_key i ENTRY_STILL_EXISTS NULL_MESSAGE)
      else mret (STATUS_OK, mk_spec tuple_key i ENTRY_STILL_EXISTS merged).

Definition btree_can_perform_leaf_incorporate_spec (h : btree_hdr) (sp : leaf_incorporate_spec) : option bool :=
  btree_can_set_leaf_entry h (if still_exists sp then idx sp else num_entries h)
    (tuple_key sp) (spec_message sp).

(** The generation before the change, when there was room for it. *)
Definition btree_try_perform_leaf_incorporate_spec (sp : leaf_incorporate_spec) : N (option Z) :=
  success ← (if still_exists sp
             then btree_set_leaf_entry (idx sp) (tuple_key sp) (spec_message sp)
             else btree_insert_leaf_entry (idx sp) (tuple_key sp) (spec_message sp));
  if success : bool then h ← mget; mmod incr_generation;; mret (Some (generation h)) else mret None.

(** ** Defragmenting and truncating a leaf *)
Definition removes (sp : option leaf_incorporate_spec) (i : Z) : bool :=
  match sp with Some sp => still_exists sp && (idx sp =? i) | None => false end.
(** Copy the entries of [scratch] from index [i] on to the node's, from [dst_idx] on. *)
Fixpoint copy_leaf_entries (n : nat) (scratch : btree_hdr) (i dst_idx : Z)
    (sp : option leaf_incorporate_spec) : N (option leaf_incorporate_spec) :=
  match n with
  | O => mret sp
  | S n' =>
      if removes sp i
      then copy_leaf_entries n' scratch (i + 1) dst_idx (set_old_entry_state ENTRY_HAS_BEEN_REMOVED <$> sp)
      else
        k ← mopt (btree_get_tuple_key scratch i);
        m ← mopt (btree_get_tuple_message scratch i);
        btree_set_leaf_entry dst_idx k m;;
        copy_leaf_entries n' scratch (i + 1) (dst_idx + 1) sp
  end.
Definition btree_defragment_leaf (cfg : btree_config) (sp : option leaf_incorporate_spec) :
    N (option leaf_incorporate_spec) :=
  scratch_hdr ← mget;
  mmod (btree_reset_node_entries cfg);;
  copy_leaf_entries (Z.to_nat (num_entries scratch_hdr)) scratch_hdr 0 0 sp.

(** The least of [acc] and the offsets of entries [i .. i + n). *)
Fixpoint min_offset (h : btree_hdr) (n : nat) (i acc : Z) : option Z :=
  match n with
  | O => Some acc
  | S n' => o ← btree_get_table_entry h i; min_offset h n' (i + 1) (if o <? acc then o else acc)
  end.
Definition btree_truncate_leaf (cfg : btree_config) (target_entries : Z) : N unit :=
  h ← mget;
  new_next_entry ← mopt (min_offset h (Z.to_nat target_entries) 0 (btree_page_size cfg));
  mmod (set_num_entries target_entries);;
  mmod (set_next_entry new_next_entry).

(** ** Splitting a leaf *)
Record leaf_splitting_plan := mk_plan { split_idx : Z; insertion_goes_left : bool }.

Definition most_of_entry_is_on_left_side (total_bytes left_bytes entry_size : Z) : bool :=
  left_bytes + SIZEOF_TABLE_ENTRY + entry_size
  <? (total_bytes + SIZEOF_TABLE_ENTRY + entry_size) / 2.

(** The new number of bytes and entries on the left. *)
Fixpoint plan_move_more_entries_to_left (fuel : nat) (max_entries total_bytes left_bytes split : Z) : N (Z * Z) :=
  match fuel with
  | O => mfuel
  | S fuel' =>
      if negb (split <? max_entries) then mret (left_bytes, split)
      else
        h ← mget;
        sz ← mopt (leaf_size_at h split);
        if negb (most_of_entry_is_on_left_side total_bytes left_bytes sz) then mret (left_bytes, split)
        else plan_move_more_entries_to_left fuel' max_entries total_bytes
               (left_bytes + (SIZEOF_TABLE_ENTRY + sz)) (split + 1)
  end.

(** The bytes of entries [i .. i + n), without the one a still existing old
    entry occupies. *)
Fixpoint leaf_live_bytes (h : btree_hdr) (n : nat) (i : Z) (sp : leaf_incorporate_spec) : option Z :=
  match n with
  | O => Some 0
  | S n' =>
      sz ← (if negb (i =? idx sp) || negb (still_exists sp) then leaf_size_at h i else Some 0);
      rest ← leaf_live_bytes h n' (i + 1) sp;
      Some (sz + rest)
  end.

Definition btree_build_leaf_splitting_plan (sp : leaf_incorporate_spec) : N leaf_splitting_plan :=
  h ← mget;
  let num := num_entries h in
  let entry_size := leaf_entry_required_capacity (tuple_key sp) (spec_message sp) in
  live ← mopt (leaf_live_bytes h (Z.to_nat num) 0 sp);
  let new_num_entries := num + (if still_exists sp then 0 else 1) in
  let total_bytes := entry_size + live + new_num_entries * SIZEOF_TABLE_ENTRY in
  r ← plan_move_more_entries_to_left (search_fuel h) (idx sp) total_bytes 0 0;
  let '(left_bytes, split) := r : Z * Z in
  if (split =? idx sp) && most_of_entry_is_on_left_side total_bytes left_bytes entry_size
  then
    let left_bytes := left_bytes + (SIZEOF_TABLE_ENTRY + entry_size) in
    let split := if still_exists sp then split + 1 else split in
    r ← plan_move_more_entries_to_left (search_fuel h) num total_bytes left_bytes split;
    mret (mk_plan (r : Z * Z).2 true)
  else mret (mk_plan split false).

Definition btree_splitting_pivot (h : btree_hdr) (sp : leaf_incorporate_spec) (plan : leaf_splitting_plan) : option key :=
  if (split_idx plan =? idx sp) && negb (still_exists sp) && negb (insertion_goes_left plan)
  then Some (tuple_key sp)
  else btree_get_tuple_key h (split_idx plan).

(** Run on the right node; the result is the spec after it, and the generation
    of the insertion when it went right. *)
Definition btree_split_leaf_build_right_node (cfg : btree_config) (left_hdr : btree_hdr) (left_addr : Z)
    (sp : leaf_incorporate_spec) (plan : leaf_splitting_plan) : N (leaf_incorporate_spec * option Z) :=
  right ← mget;
  mput (set_page (page right) left_hdr);;
  mmod incr_generation;;
  mmod (set_prev_addr left_addr);;
  mmod (btree_reset_node_entries cfg);;
  sp' ← copy_leaf_entries (Z.to_nat (num_entries left_hdr - split_idx plan)) left_hdr
          (split_idx plan) 0 (Some sp);
  sp ← mopt sp';
  if negb (insertion_goes_left plan)
  then
    let sp := set_idx (idx sp - split_idx plan) sp in
    incorporated ← btree_try_perform_leaf_incorporate_spec sp;
    massert (bool_decide (is_Some incorporated));;
    mret (sp, incorporated)
  else mret (sp, None).

Definition btree_split_leaf_cleanup_left_node (cfg : btree_config) (sp : leaf_incorporate_spec)
    (plan : leaf_splitting_plan) (right_addr : Z) : N leaf_incorporate_spec :=
  mmod (set_next_addr right_addr);;
  btree_truncate_leaf cfg (split_idx plan);;
  mmod incr_generation;;
  h ← mget;
  if insertion_goes_left plan then
    can ← mopt (btree_can_perform_leaf_incorporate_spec h sp);
    if negb can then sp' ← btree_defragment_leaf cfg (Some sp); mopt sp' else mret sp
  else mret sp.

(** ** Splitting and defragmenting an index *)
Definition btree_index_is_full (cfg : btree_config) (h : btree_hdr) : bool :=
  next_entry h <? table_at (num_entries h + 2) + SIZEOF_INDEX_ENTRY
                  + MAX_INLINE_KEY_SIZE (btree_page_size cfg).

Fixpoint index_live_bytes (h : btree_hdr) (n : nat) (i : Z) : option Z :=
  match n with
  | O => Some 0
  | S n' => sz ← index_size_at h i; rest ← index_live_bytes h n' (i + 1); Some (sz + rest)
  end.
Fixpoint choose_split_loop (fuel : nat) (h : btree_hdr) (total left_bytes target : Z) : outcome Z :=
  match fuel with
  | O => Fuel
  | S fuel' =>
      if negb (left_bytes <? total / 2) then Ret target
      else match index_size_at h target with
           | None => Undef
           | Some sz => choose_split_loop fuel' h total (left_bytes + sz) (target + 1)
           end
  end.
Definition btree_choose_index_split (h : btree_hdr) : outcome Z :=
  match index_live_bytes h (Z.to_nat (num_entries h)) 0 with
  | None => Undef
  | Some total => choose_split_loop (search_fuel h) h total 0 0
  end.

(** Copy [n] entries of [src] from index [from] on to the node's, from [i] on. *)
Fixpoint copy_index_entries (n : nat) (src : btree_hdr) (from i : Z) : N unit :=
  match n with
  | O => mret tt
  | S n' =>
      entry ← mopt (btree_get_index_entry src (from + i));
      k ← mopt (index_entry_key src entry);
      addr ← mopt (index_entry_child_addr src entry);
      stats ← mopt (index_entry_stats src entry);
      succeeded ← btree_set_index_entry i k addr stats;
      massert succeeded;;
      copy_index_entries n' src from (i + 1)
  end.
Definition btree_split_index_build_right_node (cfg : btree_config) (left_hdr : btree_hdr)
    (target_left_entries : Z) : N unit :=
  right ← mget;
  mput (set_page (page right) left_hdr);;
  mmod incr_generation;;
  mmod (btree_reset_node_entries cfg);;
  copy_index_entries (Z.to_nat (num_entries left_hdr - target_left_entries)) left_hdr
    target_left_entries 0.
Definition btree_defragment_index (cfg : btree_config) : N unit :=
  scratch_hdr ← mget;
  mmod (btree_reset_node_entries cfg);;
  copy_index_entries (Z.to_nat (num_entries scratch_hdr)) scratch_hdr 0 0.
Definition btree_truncate_index (cfg : btree_config) (target_entries : Z) : N unit :=
  h ← mget;
  new_next_entry ← mopt (min_offset h (Z.to_nat target_entries) 0 (btree_page_size cfg));
  mmod (set_num_entries target_entries);;
  mmod (set_next_entry new_next_entry);;
  mmod incr_generation;;
  if new_next_entry <? BTREE_DEFRAGMENT_THRESHOLD (btree_page_size cfg)
  then btree_defragment_index cfg else mret tt.
