(* ===== verification/NodeLayout.v ===== *)
(** * The layout of a node

    What the bytes of a B-tree page represent: a list of slots, each an offset
    and the entry stored there, in key order.  The facts hold for any entry
    format, so leaves and index nodes share them. *)
From S2P Require Import Prelude Bytes BtreeNode.

(** The places of entries of type [E] in a page. *)
Class entry_format (E : Type) := {
  esize : E → Z;
  eat : list Z → Z → E → Prop;
  esize_pos e : 0 < esize e;
  eat_agree p p' off e : lengthZ p' = lengthZ p → agree p p' off (off + esize e) →
    eat p off e → eat p' off e;
}.

(** ** Lists with an element put at an index *)
Section insert_at.
Context {A : Type}.
Implicit Types (l : list A) (x : A) (i k : Z).

Definition insert_at k x l : list A := take (Z.to_nat k) l ++ x :: drop (Z.to_nat k) l.
Definition set_at k x l : list A := if k <? lengthZ l then insertZ k x l else l ++ [x].

Lemma lookupZ_insert_at l k x i : 0 ≤ k ≤ lengthZ l →
  lookupZ (insert_at k x l) i =
  if i <? k then lookupZ l i else if i =? k then Some x else lookupZ l (i - 1).
Proof.
  intros Hk. unfold insert_at.
  assert (Ht : lengthZ (take (Z.to_nat k) l) = k).
  { unfold lengthZ in *. rewrite length_take. lia. }
  rewrite lookupZ_app, Ht, lookupZ_take.
  destruct (Z.ltb_spec i k); repeat case_bool_decide; try lia; try done.
  destruct (Z.eqb_spec i k) as [->|].
  - by rewrite Z.sub_diag.
  - rewrite lookupZ_cons_S by lia. rewrite lookupZ_drop by lia. f_equal. lia.
Qed.
Lemma lengthZ_insert_at l k x : lengthZ (insert_at k x l) = lengthZ l + 1.
Proof. unfold insert_at, lengthZ. rewrite length_app. cbn. rewrite length_take, length_drop. lia. Qed.
Lemma lookupZ_set_at l k x i : 0 ≤ k ≤ lengthZ l →
  lookupZ (set_at k x l) i = if i =? k then Some x else lookupZ l i.
Proof.
  intros Hk. unfold set_at. destruct (Z.ltb_spec k (lengthZ l)).
  - destruct (Z.eqb_spec i k) as [->|]; [apply lookupZ_insertZ_eq; lia|].
    by apply lookupZ_insertZ_ne.
  - replace k with (lengthZ l) by lia. destruct (Z.eqb_spec i (lengthZ l)) as [->|].
    + apply lookupZ_app_last.
    + by apply lookupZ_app_ne.
Qed.
Lemma lengthZ_set_at l k x : 0 ≤ k ≤ lengthZ l →
  lengthZ (set_at k x l) = if k <? lengthZ l then lengthZ l else k + 1.
Proof.
  intros Hk. unfold set_at. destruct (Z.ltb_spec k (lengthZ l)).
  - apply lengthZ_insertZ.
  - rewrite lengthZ_app. unfold lengthZ in *. cbn. lia.
Qed.
Lemma lengthZ_delete l k : 0 ≤ k < lengthZ l → lengthZ (delete (Z.to_nat k) l) = lengthZ l - 1.
Proof.
  intros Hk. unfold lengthZ in *. rewrite length_delete; [lia|]. apply lookup_lt_is_Some. lia.
Qed.
Lemma lookupZ_delete l k i : 0 ≤ k < lengthZ l → 0 ≤ i →
  lookupZ (delete (Z.to_nat k) l) i = if i <? k then lookupZ l i else lookupZ l (i + 1).
Proof.
  intros Hk Hi. unfold lookupZ. rewrite !bool_decide_true by lia. destruct (Z.ltb_spec i k).
  - rewrite list_lookup_delete_lt; [done|lia].
  - rewrite list_lookup_delete_ge by lia. f_equal. lia.
Qed.
Lemma insert_at_delete l k x : 0 ≤ k < lengthZ l → insert_at k x (delete (Z.to_nat k) l) = insertZ k x l.
Proof.
  intros Hk. apply lookupZ_eq. intros i Hi.
  rewrite lookupZ_insert_at by (rewrite lengthZ_delete by done; lia).
  rewrite lookupZ_insertZ. destruct (Z.ltb_spec i k), (Z.eqb_spec i k); case_bool_decide; try lia; try done.
  - rewrite lookupZ_delete by lia. by rewrite (proj2 (Z.ltb_lt i k)) by lia.
  - rewrite lookupZ_delete by lia. rewrite (proj2 (Z.ltb_ge (i - 1) k)) by lia. f_equal. lia.
Qed.
End insert_at.

Lemma fmap_insert_at {A B} (f : A → B) k x l : f <$> insert_at k x l = insert_at k (f x) (f <$> l).
Proof. unfold insert_at. rewrite fmap_app, fmap_cons, fmap_take, fmap_drop. done. Qed.
Lemma fmap_set_at {A B} (f : A → B) k x l : f <$> set_at k x l = set_at k (f x) (f <$> l).
Proof.
  unfold set_at. rewrite lengthZ_fmap. destruct (k <? lengthZ l).
  - unfold insertZ. case_bool_decide; [|done]. apply list_fmap_insert.
  - by rewrite fmap_app.
Qed.
Lemma snd_insertZ {A B} (o : A) (v : B) k l :
  k < lengthZ l → (insertZ k (o, v) l).*2 = set_at k v l.*2.
Proof.
  intros Hk. transitivity (set_at k (o, v) l).*2; [|apply (fmap_set_at snd)].
  unfold set_at. by rewrite (proj2 (Z.ltb_lt k (lengthZ l))).
Qed.

(** Arithmetic over places in the table. *)
Ltac table_lia := unfold table_at, SIZEOF_BTREE_HDR, SIZEOF_TABLE_ENTRY in *; lia.

Section layout.
Context {E : Type} `{!entry_format E}.
Implicit Types (l : list (Z * E)) (h : btree_hdr) (e : E).

(** The entry of slot [i] is in the page at the offset its table entry gives. *)
Record slot_ok (ps : Z) h (i : Z) (s : Z * E) : Prop := {
  slot_table : holds (page h) (table_at i) (le_bytes 2 s.1);
  slot_low : next_entry h ≤ s.1;
  slot_high : s.1 + esize s.2 ≤ ps;
  slot_at : eat (page h) s.1 s.2;
}.
Definition apart (s s' : Z * E) : Prop := s.1 + esize s.2 ≤ s'.1 ∨ s'.1 + esize s'.2 ≤ s.1.

(** [h] is a node of [ps] bytes whose slots are [l]; only the [live] ones are
    in place. *)
Record node_repr_of (live : Z → Prop) (ps : Z) h l : Prop := {
  repr_length : lengthZ (page h) = ps;
  repr_width : ps < 2 ^ 16;
  repr_num : num_entries h = lengthZ l;
  repr_table : table_at (lengthZ l) ≤ next_entry h;
  repr_next : next_entry h ≤ ps;
  repr_slot i s : live i → lookupZ l i = Some s → slot_ok ps h i s;
  repr_apart i j s s' : live i → live j → i ≠ j → lookupZ l i = Some s → lookupZ l j = Some s' → apart s s';
}.
Definition node_repr : Z → btree_hdr → list (Z * E) → Prop := node_repr_of (λ _, True).

Lemma repr_weaken live ps h l : node_repr ps h l → node_repr_of live ps h l.
Proof.
  intros [H1 H2 H3 H4 H5 H6 H7]. split; try done.
  - intros i s _. by apply H6.
  - intros i j s s' _ _. by apply H7.
Qed.

Lemma repr_slot_full ps h l i s : node_repr ps h l → lookupZ l i = Some s → slot_ok ps h i s.
Proof. intros Hr. by apply (repr_slot _ _ _ _ Hr). Qed.
Lemma slot_range live ps h l i s : node_repr_of live ps h l → live i → lookupZ l i = Some s →
  0 ≤ i < lengthZ l ∧ table_at (lengthZ l) ≤ s.1 ∧ 0 ≤ s.1 < 2 ^ 16 ∧ 0 ≤ i < 2 ^ 16.
Proof.
  intros Hr Hl Hi. pose proof (lookupZ_Some _ _ _ Hi) as Hb.
  destruct (repr_slot _ _ _ _ Hr _ _ Hl Hi) as [_ Hlow Hhigh _].
  destruct Hr as [_ Hw _ Ht _ _ _]. pose proof (esize_pos s.2).
  table_lia.
Qed.
Lemma repr_get_table_entry live ps h l i s : node_repr_of live ps h l → live i → lookupZ l i = Some s →
  btree_get_table_entry h i = Some s.1.
Proof.
  intros Hr Hl Hi. pose proof (slot_range _ _ _ _ _ _ Hr Hl Hi) as (_ & _ & Ho & _).
  destruct (repr_slot _ _ _ _ Hr _ _ Hl Hi) as [Ht _ _ _]. by apply holds_le2.
Qed.
Lemma repr_num_range ps h l live : node_repr_of live ps h l → 0 ≤ num_entries h < 2 ^ 15.
Proof.
  intros [_ Hw -> Ht Hn _ _]. pose proof (lengthZ_nonneg l).
  table_lia.
Qed.

(** ** The bytes the entries take *)
Fixpoint live_size (l : list (Z * E)) : Z :=
  match l with [] => 0 | s :: l' => esize s.2 + live_size l' end.
(** The same, of a list of entries. *)
Fixpoint total_size (es : list E) : Z :=
  match es with [] => 0 | e :: es' => esize e + total_size es' end.
Lemma live_size_total l : live_size l = total_size l.*2.
Proof. induction l as [|s l IH]; cbn; [done|]. by rewrite IH. Qed.
Lemma total_size_app es es' : total_size (es ++ es') = total_size es + total_size es'.
Proof. induction es as [|e es IH]; cbn; [done|]. rewrite IH. lia. Qed.
Lemma total_size_nonneg es : 0 ≤ total_size es.
Proof. induction es as [|e es IH]; cbn; [done|]. pose proof (esize_pos e). lia. Qed.
Lemma total_size_lookup es i e : lookupZ es i = Some e →
  total_size es = total_size (delete (Z.to_nat i) es) + esize e.
Proof.
  revert i. induction es as [|e' es IH]; intros i Hi; [by rewrite lookupZ_nil in Hi|].
  pose proof (lookupZ_Some _ _ _ Hi). destruct (decide (i = 0)) as [->|].
  - rewrite lookupZ_cons_0 in Hi. injection Hi as ->.
    change (delete (Z.to_nat 0) (e :: es)) with es. cbn [total_size]. lia.
  - rewrite lookupZ_cons_S in Hi by lia. replace (Z.to_nat i) with (S (Z.to_nat (i - 1))) by lia.
    change (delete (S ?n) (e' :: es)) with (e' :: delete n es). cbn [total_size]. rewrite (IH _ Hi). lia.
Qed.
Lemma live_size_app l l' : live_size (l ++ l') = live_size l + live_size l'.
Proof. induction l as [|s l IH]; cbn; [done|]. rewrite IH. lia. Qed.
Lemma live_size_nonneg l : 0 ≤ live_size l.
Proof. induction l as [|s l IH]; cbn; [done|]. pose proof (esize_pos s.2). lia. Qed.

(** Entries that are apart and lie in [a, b) take at most its bytes. *)
Definition slot_bytes (s : Z * E) : list Z := seqZ s.1 (esize s.2).
Lemma slot_bytes_NoDup l :
  (∀ i j s s', i ≠ j → lookupZ l i = Some s → lookupZ l j = Some s' → apart s s') →
  NoDup (mjoin (slot_bytes <$> l)).
Proof.
  induction l as [|s l IH]; cbn; intros Ha; [constructor|].
  apply list.NoDup_app. split; [apply NoDup_seqZ|]. split.
  - intros z Hz Hz'. apply list_elem_of_join in Hz' as (bs & Hz' & Hbs).
    apply list_elem_of_fmap in Hbs as (s' & -> & Hs').
    apply list_elem_of_lookup in Hs' as [j Hj].
    unfold slot_bytes in Hz, Hz'. apply elem_of_seqZ in Hz, Hz'.
    specialize (Ha 0 (Z.of_nat (S j)) s s' ltac:(lia) eq_refl) as [?|?]; [|lia..].
    unfold lookupZ. rewrite bool_decide_true by lia. by rewrite Nat2Z.id.
  - apply IH. intros i j s1 s2 Hij H1 H2. apply (Ha (i + 1) (j + 1)); [lia| |].
    + pose proof (lookupZ_Some _ _ _ H1). rewrite lookupZ_cons_S by lia. by rewrite Z.add_simpl_r.
    + pose proof (lookupZ_Some _ _ _ H2). rewrite lookupZ_cons_S by lia. by rewrite Z.add_simpl_r.
Qed.
Lemma slot_bytes_length l : lengthZ (mjoin (slot_bytes <$> l)) = live_size l.
Proof.
  induction l as [|s l IH]; [done|].
  change (mjoin (slot_bytes <$> s :: l)) with (slot_bytes s ++ mjoin (slot_bytes <$> l)).
  rewrite lengthZ_app, IH. cbn [live_size]. f_equal.
  unfold slot_bytes, lengthZ. rewrite length_seqZ. pose proof (esize_pos s.2). lia.
Qed.
Lemma repr_live_size ps h l : node_repr ps h l → live_size l ≤ ps - next_entry h.
Proof.
  intros Hr. pose proof (repr_next _ _ _ _ Hr).
  assert (Hs : mjoin (slot_bytes <$> l) ⊆ seqZ (next_entry h) (ps - next_entry h)).
  { intros z Hz. apply list_elem_of_join in Hz as (bs & Hz & Hbs).
    apply list_elem_of_fmap in Hbs as (s & -> & Hs). apply list_elem_of_lookup in Hs as [j Hj].
    unfold slot_bytes in Hz. apply elem_of_seqZ in Hz. apply elem_of_seqZ.
    destruct (repr_slot_full ps h l (Z.of_nat j) s Hr) as [_ Hlow Hhigh _]; [|lia].
    unfold lookupZ. rewrite bool_decide_true by lia. by rewrite Nat2Z.id. }
  apply NoDup_submseteq in Hs; [|apply slot_bytes_NoDup; intros i j s s' Hij; by apply (repr_apart _ _ _ _ Hr)].
  apply submseteq_length in Hs. rewrite length_seqZ in Hs.
  pose proof (slot_bytes_length l). unfold lengthZ in *. lia.
Qed.

(** ** Changes to a node *)
Lemma slot_ok_frame ps h h' i s :
  slot_ok ps h i s → lengthZ (page h') = lengthZ (page h) →
  agree (page h) (page h') (table_at i) (table_at i + 2) →
  agree (page h) (page h') s.1 (s.1 + esize s.2) → next_entry h' ≤ s.1 → slot_ok ps h' i s.
Proof.
  intros [Ht Hl Hh Ha] HL A1 A2 Hn. split; [|done|done|].
  - by eapply holds_agree.
  - by eapply eat_agree.
Qed.

(** Overwrite an entry in place with one that is no larger. *)
Lemma repr_overwrite ps h l k o e e' p' :
  node_repr ps h l → lookupZ l k = Some (o, e) → esize e' ≤ esize e →
  outside (page h) p' o (o + esize e') → eat p' o e' →
  node_repr ps (set_page p' h) (insertZ k (o, e') l).
Proof.
  intros Hr Hk Hs Ho He.
  pose proof (slot_range _ _ _ _ _ _ Hr I Hk) as (Hkb & Hto & _ & _). cbn in Hto.
  pose proof (repr_slot_full _ _ _ _ _ Hr Hk) as [_ Hlk Hhk _]. cbn in Hlk, Hhk.
  pose proof (esize_pos e') as Hpos. pose proof Ho as [HL _].
  assert (Hap : ∀ i s, i ≠ k → lookupZ l i = Some s → apart s (o, e')).
  { intros i s Hi Hl. destruct (repr_apart _ _ _ _ Hr i k s (o, e) I I Hi Hl Hk) as [?|?];
      [left|right]; cbn in *; lia. }
  split; cbn.
  - rewrite HL. apply (repr_length _ _ _ _ Hr).
  - apply (repr_width _ _ _ _ Hr).
  - rewrite lengthZ_insertZ. apply (repr_num _ _ _ _ Hr).
  - rewrite lengthZ_insertZ. apply (repr_table _ _ _ _ Hr).
  - apply (repr_next _ _ _ _ Hr).
  - intros i s _. rewrite lookupZ_insertZ. case_bool_decide as Hc.
    + destruct Hc as [<- _]. intros [= <-]. split; cbn; [|done|lia|done].
      apply (holds_agree (page h)); [done| |apply (repr_slot_full _ _ _ _ _ Hr Hk)].
      eapply outside_agree; [|done]. rewrite lengthZ_le_bytes.
      table_lia.
    + intros Hl. assert (i ≠ k) by (intros ->; tauto).
      pose proof (slot_range _ _ _ _ _ _ Hr I Hl) as (Hib & _).
      eapply slot_ok_frame; [by apply (repr_slot_full _ _ _ _ _ Hr)|done| | |].
      * eapply outside_agree; [|done].
        table_lia.
      * eapply outside_agree; [|done]. destruct (Hap i s); [done|done|..]; cbn in *; lia.
      * apply (repr_slot_full _ _ _ _ _ Hr Hl).
  - intros i j s s' _ _ Hij. rewrite !lookupZ_insertZ.
    repeat case_bool_decide; try (exfalso; lia).
    + intros [= <-] Hl. destruct (Hap j s'); [lia|done|right|left]; cbn in *; lia.
    + intros Hl [= <-]. apply (Hap i); [lia|done].
    + by apply (repr_apart _ _ _ _ Hr i j).
Qed.

(** Put an entry below the others and point slot [k] at it. *)
Lemma repr_place ps h l k e new n' p1 p2 :
  node_repr_of (λ i, i ≠ k) ps h l → 0 ≤ k ≤ lengthZ l →
  n' = (if k <? lengthZ l then lengthZ l else k + 1) →
  new + esize e ≤ next_entry h → table_at n' ≤ new →
  outside (page h) p1 new (new + esize e) → eat p1 new e →
  put_le 2 p1 (table_at k) (u16 new) = Some p2 →
  node_repr ps (set_next_entry new (set_num_entries n' (set_page p2 h))) (set_at k (new, e) l).
Proof.
  intros Hr Hk Hn' Hn Ht Ho He Hw. pose proof Ho as [HL _]. pose proof (esize_pos e) as Hpos.
  pose proof (repr_next _ _ _ _ Hr) as Hne. pose proof (repr_width _ _ _ _ Hr) as Hwd.
  pose proof (mem_write_length _ _ _ _ Hw) as HL2.
  assert (Hkn : k < n' ∧ lengthZ l ≤ n' ∧ 0 ≤ n') by (destruct (Z.ltb_spec k (lengthZ l)); lia).
  unfold table_at, SIZEOF_BTREE_HDR, SIZEOF_TABLE_ENTRY in Ht.
  assert (Hnew : 0 ≤ new < 2 ^ 16) by lia.
  rewrite u16_small in Hw by done.
  assert (Hag : ∀ a b, b ≤ table_at k ∨ table_at k + 2 ≤ a → b ≤ new ∨ new + esize e ≤ a →
    agree (page h) p2 a b).
  { intros a b ? ?. eapply mem_write_agree_through; [exact Hw| |].
    - rewrite lengthZ_le_bytes. lia.
    - by eapply outside_agree. }
  split; cbn.
  - rewrite HL2, HL. apply (repr_length _ _ _ _ Hr).
  - done.
  - rewrite lengthZ_set_at by done. rewrite u16_small; [done|]. lia.
  - rewrite lengthZ_set_at by done. rewrite u16_small by done. rewrite <-Hn'.
    table_lia.
  - rewrite u16_small by done. lia.
  - intros i s _. rewrite lookupZ_set_at by done. destruct (Z.eqb_spec i k) as [->|Hi].
    + intros [= <-]. split; cbn; [by eapply mem_write_holds|rewrite u16_small by done; lia|lia|].
      apply (eat_agree p1); [exact HL2| |exact He].
      eapply mem_write_agree; [exact Hw|]. rewrite lengthZ_le_bytes.
      table_lia.
    + intros Hl. pose proof (slot_range _ _ _ _ _ _ Hr Hi Hl) as (Hib & Hts & _ & _).
      pose proof (repr_slot _ _ _ _ Hr i s Hi Hl) as Hsl. pose proof Hsl as [_ Hlow _ _].
      eapply slot_ok_frame; [exact Hsl|cbn; congruence|apply Hag|apply Hag|cbn; rewrite u16_small by done; lia];
        table_lia.
  - intros i j s s' _ _ Hij. rewrite !lookupZ_set_at by done.
    destruct (Z.eqb_spec i k) as [->|Hi], (Z.eqb_spec j k) as [->|Hj]; [done| | |].
    + intros [= <-] Hl. left. cbn. destruct (repr_slot _ _ _ _ Hr j s' Hj Hl). lia.
    + intros Hl [= <-]. right. cbn. destruct (repr_slot _ _ _ _ Hr i s Hi Hl). lia.
    + by apply (repr_apart _ _ _ _ Hr i j).
Qed.

(** A permuted table: the slots of [l'] are slots of [l], at other indices. *)
Lemma repr_retable ps h l l' p' (f : Z → Z) :
  node_repr ps h l → lengthZ p' = lengthZ (page h) → lengthZ l' = lengthZ l →
  agree (page h) p' (table_at (lengthZ l)) ps →
  (∀ i j, 0 ≤ i < lengthZ l → 0 ≤ j < lengthZ l → f i = f j → i = j) →
  (∀ i, 0 ≤ i < lengthZ l → lookupZ l' i = lookupZ l (f i) ∧
    ∀ j, 0 ≤ j < 2 → lookupZ p' (table_at i + j) = lookupZ (page h) (table_at (f i) + j)) →
  node_repr ps (set_page p' h) l'.
Proof.
  intros Hr HL Hl Ha Hf Hi. pose proof (repr_num_range _ _ _ _ Hr) as Hnr.
  destruct Hr as [H1 H2 H3 H4 H5 H6 H7] eqn:Er. clear Er.
  split; cbn; try done; try congruence; rewrite ?Hl; try done.
  - intros i s _ Hls. pose proof (lookupZ_Some _ _ _ Hls) as Hb. rewrite Hl in Hb.
    destruct (Hi i Hb) as [Hll Ht]. rewrite Hll in Hls.
    destruct (H6 _ _ I Hls) as [S1 S2 S3 S4]. split; cbn; try done.
    + eapply holds_shift; [| | |exact S1].
      * table_lia.
      * rewrite lengthZ_le_bytes, HL, H1.
        table_lia.
      * rewrite lengthZ_le_bytes. exact Ht.
    + eapply (eat_agree (page h)); [done| |done]. apply (agree_mono _ _ Ha); lia.
  - intros i j s s' _ _ Hij Hls Hls'.
    pose proof (lookupZ_Some _ _ _ Hls) as Hb. pose proof (lookupZ_Some _ _ _ Hls') as Hb'.
    rewrite Hl in Hb, Hb'. rewrite (proj1 (Hi i Hb)) in Hls. rewrite (proj1 (Hi j Hb')) in Hls'.
    eapply (H7 (f i) (f j)); [done|done| |done|done]. intros E'. apply Hij. by apply Hf.
Qed.

(** Where the table entry of slot [i] was before the rotation to [k]. *)
Definition rotated (n k i : Z) : Z := if i <? k then i else if i =? k then n else i - 1.

Lemma rotate_run ps h l x k :
  node_repr ps h (l ++ [x]) → 0 ≤ k ≤ lengthZ l →
  ∃ p', rotate_table k h = Ret (tt, set_page p' h) ∧ lengthZ p' = lengthZ (page h) ∧
    agree (page h) p' (table_at (lengthZ l + 1)) ps ∧
    ∀ i j, 0 ≤ i < lengthZ l + 1 → 0 ≤ j < 2 →
      lookupZ p' (table_at i + j) = lookupZ (page h) (table_at (rotated (lengthZ l) k i) + j).
Proof.
  intros Hr Hk. pose proof (repr_num _ _ _ _ Hr) as Hn. pose proof (repr_table _ _ _ _ Hr) as Ht.
  rewrite lengthZ_app in Hn, Ht. change (lengthZ [x]) with 1 in Hn, Ht.
  pose proof (repr_next _ _ _ _ Hr) as Hne. pose proof (repr_length _ _ _ _ Hr) as HL.
  pose proof (lookupZ_app_last l x) as Hx.
  pose proof (slot_range _ _ _ _ _ _ Hr I Hx) as (_ & _ & Ho & _).
  pose proof (repr_slot_full _ _ _ _ _ Hr Hx) as [(_ & _ & Hb) _ _ _].
  rewrite lengthZ_le_bytes in Hb.
  destruct (mem_move_ok (page h) (table_at (k + 1)) (table_at k)
    ((lengthZ l + 1 - k - 1) * SIZEOF_TABLE_ENTRY)) as (p1 & Hm & Ho1 & Hm1); [table_lia..|].
  destruct (mem_write_ok p1 (table_at k) (le_bytes 2 x.1)) as [p2 Hw];
    [table_lia|rewrite lengthZ_le_bytes, (proj1 Ho1); table_lia|].
  exists p2. split; [|split; [|split]].
  - unfold rotate_table, put_table_entry, on_page, mbind, M_bind, mget, mopt, mmod, put_le.
    rewrite Hn, Z.add_simpl_r, (repr_get_table_entry _ _ _ _ _ _ Hr I Hx), Hm. cbn [page set_page].
    by rewrite u16_small, Hw by lia.
  - rewrite (mem_write_length _ _ _ _ Hw). apply (proj1 Ho1).
  - eapply mem_write_agree_through; [exact Hw|rewrite lengthZ_le_bytes; table_lia|].
    eapply outside_agree; [|exact Ho1]. table_lia.
  - intros i j Hi Hj. rewrite (mem_write_lookup _ _ _ _ Hw), lengthZ_le_bytes. unfold rotated.
    destruct (Z.ltb_spec i k); [|destruct (Z.eqb_spec i k) as [->|]].
    + rewrite bool_decide_false by table_lia. apply (proj2 Ho1). table_lia.
    + rewrite bool_decide_true by lia. rewrite Hb by lia. f_equal. lia.
    + rewrite bool_decide_false by table_lia. rewrite Hm1 by table_lia. f_equal. table_lia.
Qed.
Lemma repr_rotate ps h l x k :
  node_repr ps h (l ++ [x]) → 0 ≤ k ≤ lengthZ l →
  ∃ p', rotate_table k h = Ret (tt, set_page p' h) ∧
    node_repr ps (set_page p' h) (insert_at k x l).
Proof.
  intros Hr Hk. destruct (rotate_run _ _ _ _ _ Hr Hk) as (p2 & Hrun & HL & Ha & Ht).
  exists p2. split; [done|].
  assert (Hl : lengthZ (l ++ [x]) = lengthZ l + 1) by (rewrite lengthZ_app; done).
  apply (repr_retable ps h (l ++ [x]) _ p2 (rotated (lengthZ l) k)); rewrite ?Hl; try done.
  - apply lengthZ_insert_at.
  - intros i j Hi Hj. unfold rotated.
    destruct (Z.ltb_spec i k), (Z.ltb_spec j k), (Z.eqb_spec i k), (Z.eqb_spec j k); lia.
  - intros i Hi. split; [|intros j Hj; by apply Ht]. unfold rotated.
    rewrite lookupZ_insert_at by done. destruct (Z.ltb_spec i k); [by rewrite lookupZ_app_ne by lia|].
    destruct (Z.eqb_spec i k); [by rewrite lookupZ_app_last|by rewrite lookupZ_app_ne by lia].
Qed.

Lemma min_offset_spec ps h l n i acc : node_repr ps h l → 0 ≤ i → i + Z.of_nat n ≤ lengthZ l →
  next_entry h ≤ acc →
  ∃ m, min_offset h n i acc = Some m ∧ m ≤ acc ∧ next_entry h ≤ m ∧
    ∀ j s, i ≤ j < i + Z.of_nat n → lookupZ l j = Some s → m ≤ s.1.
Proof.
  intros Hr. revert i acc. induction n as [|n IH]; intros i acc Hi Hn Ha.
  - exists acc. split_and!; [done|lia|done|lia].
  - destruct (proj2 (lookupZ_is_Some l i) ltac:(lia)) as [s Hs].
    cbn [min_offset]. rewrite (repr_get_table_entry _ _ _ _ _ _ Hr I Hs). cbn [mbind option_bind].
    pose proof (slot_low _ _ _ _ (repr_slot_full _ _ _ _ _ Hr Hs)) as Hl.
    destruct (IH (i + 1) (if s.1 <? acc then s.1 else acc)) as (m & Hm & Hma & Hmn & Hms); [lia|lia| |].
    { destruct (s.1 <? acc); lia. }
    exists m. rewrite Hm. split; [done|]. destruct (Z.ltb_spec s.1 acc); (split; [lia|]; split; [done|]);
      intros j s' Hj Hs'; destruct (decide (j = i)) as [->|]; try (apply (Hms j s'); [lia|done]);
      rewrite Hs in Hs'; injection Hs' as <-; lia.
Qed.

Lemma repr_truncate ps h l n : node_repr ps h l → 0 ≤ n ≤ lengthZ l →
  ∃ m, min_offset h (Z.to_nat n) 0 ps = Some m ∧ next_entry h ≤ m ∧
    node_repr ps (set_next_entry m (set_num_entries n h)) (take (Z.to_nat n) l).
Proof.
  intros Hr Hn. pose proof (repr_next _ _ _ _ Hr) as Hne. pose proof (repr_width _ _ _ _ Hr) as Hw.
  pose proof (repr_table _ _ _ _ Hr) as Ht.
  destruct (min_offset_spec ps h l (Z.to_nat n) 0 ps Hr) as (m & Hm & Hmp & Hml & Hms); [lia..|].
  exists m. split; [done|]. split; [done|].
  assert (Hlen : lengthZ (take (Z.to_nat n) l) = n) by (unfold lengthZ in *; rewrite length_take; lia).
  assert (Hu : u16 m = m) by (apply u16_small; table_lia).
  assert (Hlk : ∀ i s, lookupZ (take (Z.to_nat n) l) i = Some s → lookupZ l i = Some s ∧ 0 ≤ i < n).
  { intros i s Hs. pose proof (lookupZ_Some _ _ _ Hs). rewrite lookupZ_take in Hs.
    rewrite bool_decide_true in Hs by lia. split; [done|lia]. }
  split; cbn; rewrite ?Hu, ?Hlen.
  - apply (repr_length _ _ _ _ Hr).
  - done.
  - apply u16_small. pose proof (repr_num_range _ _ _ _ Hr) as Hnr.
    rewrite (repr_num _ _ _ _ Hr) in Hnr. lia.
  - table_lia.
  - done.
  - intros i s _ Hs. destruct (Hlk i s Hs) as [Hs' Hi].
    destruct (repr_slot_full _ _ _ _ _ Hr Hs') as [S1 S2 S3 S4]. split; cbn; try done.
    rewrite Hu. apply (Hms i); [lia|done].
  - intros i j s s' _ _ Hij Hs Hs'. apply (repr_apart _ _ _ _ Hr i j); try done; [by apply Hlk..].
Qed.

Lemma repr_empty ps h : lengthZ (page h) = ps → num_entries h = 0 → next_entry h = ps →
  SIZEOF_BTREE_HDR ≤ ps < 2 ^ 16 → node_repr ps h [].
Proof.
  intros HL Hn Hne Hps. split; try done; try lia.
  - change (lengthZ []) with 0. table_lia.
  - intros i s _ Hs. by rewrite lookupZ_nil in Hs.
  - intros i j s s' _ _ _ Hs. by rewrite lookupZ_nil in Hs.
Qed.
(** The layout does not depend on the links, the generation or the height. *)
Lemma repr_same_page ps h h' l : page h' = page h → num_entries h' = num_entries h →
  next_entry h' = next_entry h → node_repr ps h l → node_repr ps h' l.
Proof.
  intros Hp Hn He [H1 H2 H3 H4 H5 H6 H7]. split; rewrite ?Hp, ?Hn, ?He; try done.
  intros i s Hl Hs. destruct (H6 i s Hl Hs). by split; rewrite ?Hp, ?He.
Qed.
(** Raising [next_entry] past slot [k], the lowest, drops it. *)
Lemma repr_drop_lowest ps h l k s z :
  node_repr ps h l → lookupZ l k = Some s → next_entry h = s.1 → z = s.1 + esize s.2 →
  node_repr_of (λ i, i ≠ k) ps (set_next_entry z h) l.
Proof.
  intros Hr Hk Hn ->. pose proof (repr_width _ _ _ _ Hr) as Hw. pose proof (esize_pos s.2) as Hpos.
  destruct (repr_slot_full _ _ _ _ _ Hr Hk) as [_ Hlow Hhigh _].
  pose proof (repr_table _ _ _ _ Hr) as Ht. pose proof (lengthZ_nonneg l) as Hl0.
  assert (Hu : u16 (s.1 + esize s.2) = s.1 + esize s.2) by (apply u16_small; table_lia).
  split; cbn; rewrite ?Hu; try apply Hr; try table_lia.
  - intros i s' Hi Hs'. destruct (repr_slot_full _ _ _ _ _ Hr Hs') as [S1 S2 S3 S4].
    split; cbn; try done. rewrite Hu. pose proof (esize_pos s'.2).
    destruct (repr_apart _ _ _ _ Hr i k s' s I I Hi Hs' Hk); lia.
  - intros i j s1 s2 _ _. by apply (repr_apart _ _ _ _ Hr).
Qed.
End layout.
