(* ===== verification/BtreeLeaf.v ===== *)
(** * Leaves

    A leaf represents a list of keys and messages.  Setting, inserting,
    defragmenting and truncating, as changes of that list and of the space the
    page has left. *)
From S2P Require Import Prelude Bytes DataInternal BtreeNode NodeLayout.

Abbreviation tuple := (list Z * message)%type.

Lemma tuple_size_pos k m : 0 < tuple_size k m.
Proof.
  unfold tuple_size, message_length.
  pose proof (lengthZ_nonneg k). pose proof (lengthZ_nonneg (message_data m)). lia.
Qed.
#[export] Program Instance leaf_format : entry_format tuple := {
  esize e := tuple_size e.1 e.2;
  eat p off e := ondisk_tuple_at p off e.1 e.2;
}.
Next Obligation. intros e. apply tuple_size_pos. Qed.
Next Obligation. intros p p' off e. cbn. apply ondisk_tuple_at_agree. Qed.

(** The header fields that the operations on entries leave alone. *)
Definition same_links (h h' : btree_hdr) : Prop :=
  prev_addr h' = prev_addr h ∧ next_addr h' = next_addr h ∧
  next_extent_addr h' = next_extent_addr h ∧ generation h' = generation h ∧ height h' = height h.
Lemma same_links_refl h : same_links h h.
Proof. done. Qed.
Lemma same_links_trans h1 h2 h3 : same_links h1 h2 → same_links h2 h3 → same_links h1 h3.
Proof. unfold same_links. intros (?&?&?&?&?) (?&?&?&?&?). repeat split; congruence. Qed.

Lemma leaf_required k m : leaf_entry_required_capacity (USER_KEY k) m = tuple_size k m.
Proof. done. Qed.

Section leaf.
Context (ps : Z).
Implicit Types (l : list (Z * tuple)) (h : btree_hdr).

Lemma leaf_get h l i o k m : node_repr ps h l → lookupZ l i = Some (o, (k, m)) →
  btree_get_leaf_entry h i = Some o ∧ leaf_size_at h i = Some (tuple_size k m) ∧
  btree_get_tuple_key h i = Some (USER_KEY k) ∧ btree_get_tuple_message h i = Some m ∧
  tuple_fits k m.
Proof.
  intros Hr Hi. pose proof (repr_get_table_entry _ _ _ _ _ _ Hr I Hi) as Ho. cbn in Ho.
  pose proof (slot_at _ _ _ _ (repr_slot_full _ _ _ _ _ Hr Hi)) as Ha. cbn in Ha.
  pose proof (ondisk_tuple_at_read _ _ _ _ Ha) as (Hk & Hm & Hs).
  unfold leaf_size_at, btree_get_tuple_key, btree_get_tuple_message, btree_get_leaf_entry,
    sizeof_leaf_entry, leaf_entry_key, leaf_entry_message.
  rewrite Ho. cbn [mbind option_bind]. rewrite Hk, Hm, Hs. cbn [mbind option_bind].
  split_and!; try done; [|apply Ha]. unfold tuple_size, SIZEOF_LEAF_ENTRY, SIZEOF_ONDISK_TUPLE.
  f_equal. lia.
Qed.

(** Does the new tuple take the place of entry [k]? *)
Definition replaces l (k : Z) (e : tuple) : bool :=
  match lookupZ l k with Some (_, e') => esize e <=? esize e' | None => false end.
(** The number of slots after entry [k] is set. *)
Definition slots_after l (k : Z) : Z := if k <? lengthZ l then lengthZ l else k + 1.
(** Is there room below the entries for the new tuple? *)
Definition has_room h l (k : Z) (e : tuple) : bool := table_at (slots_after l k) + esize e <=? next_entry h.

Lemma leaf_can_set h l k key m : node_repr ps h l → 0 ≤ k ≤ lengthZ l →
  btree_can_set_leaf_entry h k (USER_KEY key) m =
  Some (replaces l k (key, m) || has_room h l k (key, m)).
Proof.
  intros Hr Hk. pose proof (repr_num _ _ _ _ Hr) as Hn. unfold btree_can_set_leaf_entry, replaces, has_room.
  rewrite Hn, leaf_required. fold (slots_after l k). rewrite (proj2 (Z.ltb_ge _ _)) by lia.
  assert (Hneg : negb (next_entry h <? table_at (slots_after l k) + tuple_size key m) =
    (table_at (slots_after l k) + esize (key, m) <=? next_entry h)).
  { rewrite Z.leb_antisym. done. }
  destruct (Z.ltb_spec k (lengthZ l)) as [Hlt|Hge].
  - destruct (proj2 (lookupZ_is_Some l k) ltac:(lia)) as [[o [k0 m0]] Hs]. rewrite Hs.
    destruct (leaf_get _ _ _ _ _ _ Hr Hs) as (_ & Hsz & _). rewrite Hsz. cbn [mbind option_bind].
    cbn [esize leaf_format fst snd]. destruct (tuple_size key m <=? tuple_size k0 m0); [done|].
    rewrite Hneg. done.
  - rewrite (proj2 (lookupZ_None l k)) by lia. cbn [mbind option_bind]. by rewrite Hneg.
Qed.

Lemma leaf_fill h o key m : 0 ≤ o → o + tuple_size key m ≤ lengthZ (page h) → tuple_fits key m →
  ∃ p', btree_fill_leaf_entry o (USER_KEY key) m h = Ret (tt, set_page p' h) ∧
    outside (page h) p' o (o + tuple_size key m) ∧ ondisk_tuple_at p' o key m.
Proof.
  intros Ho Hl Hf. destruct (copy_tuple_ok (page h) o key m Ho Hl Hf) as (p' & Hc & Hout & Hat).
  exists p'. split; [|done].
  unfold btree_fill_leaf_entry, on_page, mbind, M_bind, mget, mopt, mmod. by rewrite Hc.
Qed.

(** The run of [btree_set_leaf_entry] up to the choice of the place. *)
Lemma set_leaf_choose h l k key m : node_repr ps h l → 0 ≤ k ≤ lengthZ l →
  (if k <? num_entries h then
     old_entry ← mopt (btree_get_leaf_entry h k);
     sz ← mopt (sizeof_leaf_entry h old_entry);
     mret (if leaf_entry_required_capacity (USER_KEY key) m <=? sz then Some old_entry else None)
   else mret None : N (option Z)) h =
  Ret (if replaces l k (key, m) then fst <$> lookupZ l k else None, h).
Proof.
  intros Hr Hk. rewrite (repr_num _ _ _ _ Hr). unfold replaces. destruct (Z.ltb_spec k (lengthZ l)).
  - destruct (proj2 (lookupZ_is_Some l k) ltac:(lia)) as [[o [k0 m0]] Hs]. rewrite Hs.
    destruct (leaf_get _ _ _ _ _ _ Hr Hs) as (Ho & Hsz & _). unfold leaf_size_at in Hsz.
    rewrite Ho in *. cbn [mbind option_bind] in Hsz.
    unfold mbind, M_bind, mopt, mret, M_ret. rewrite Hsz, leaf_required. cbn.
    by destruct (tuple_size key m <=? tuple_size k0 m0).
  - by rewrite (proj2 (lookupZ_None l k)) by lia.
Qed.

Lemma set_leaf_in_place h l k key m : node_repr ps h l → tuple_fits key m →
  replaces l k (key, m) = true →
  ∃ o p', btree_set_leaf_entry k (USER_KEY key) m h = Ret (true, set_page p' h) ∧
    node_repr ps (set_page p' h) (insertZ k (o, (key, m)) l).
Proof.
  intros Hr Hf Hrep. pose proof Hrep as Hrep'. unfold replaces in Hrep.
  destruct (lookupZ l k) as [[o e0]|] eqn:Hs; [|done]. apply Z.leb_le in Hrep.
  pose proof (lookupZ_Some _ _ _ Hs) as Hb. cbn [esize leaf_format fst snd] in Hrep.
  destruct (repr_slot_full _ _ _ _ _ Hr Hs) as [_ Hlow Hhigh _]. cbn in Hlow, Hhigh.
  pose proof (repr_table _ _ _ _ Hr). pose proof (repr_length _ _ _ _ Hr) as HL.
  destruct (leaf_fill h o key m) as (p' & Hrun & Hout & Hat); [table_lia|lia|done|].
  exists o, p'. split.
  - unfold btree_set_leaf_entry. rewrite run_get.
    rewrite (bind_run _ _ _ _ _ (set_leaf_choose h l k key m Hr ltac:(lia))).
    rewrite Hrep', Hs. cbn [fmap option_fmap option_map fst]. by rewrite (bind_run _ _ _ _ _ Hrun).
  - eapply repr_overwrite; [exact Hr|exact Hs|exact Hrep|exact Hout|exact Hat].
Qed.

(** The node after a tuple is put below the others. *)
Definition placed h (p : list Z) (new n : Z) : btree_hdr :=
  set_next_entry new (set_num_entries n (set_page p h)).

Lemma set_leaf_place h l k key m : node_repr ps h l → 0 ≤ k ≤ lengthZ l → tuple_fits key m →
  replaces l k (key, m) = false → has_room h l k (key, m) = true →
  let new := next_entry h - tuple_size key m in
  ∃ p', btree_set_leaf_entry k (USER_KEY key) m h = Ret (true, placed h p' new (slots_after l k)) ∧
    node_repr ps (placed h p' new (slots_after l k)) (set_at k (new, (key, m)) l).
Proof.
  intros Hr Hk Hf Hrep Hroom new. apply Z.leb_le in Hroom. cbn [esize leaf_format fst snd] in Hroom.
  pose proof (repr_length _ _ _ _ Hr) as HL. pose proof (repr_next _ _ _ _ Hr) as Hne.
  pose proof (repr_width _ _ _ _ Hr) as Hw.
  assert (Hsa : k < slots_after l k) by (unfold slots_after; destruct (Z.ltb_spec k (lengthZ l)); lia).
  destruct (leaf_fill h new key m) as (p1 & Hrun & Hout & Hat); [table_lia|lia|done|].
  pose proof (esize_pos (key, m)) as Hpos. cbn in Hpos.
  destruct (mem_write_ok p1 (table_at k) (le_bytes 2 (u16 new))) as [p2 Hw2];
    [table_lia|rewrite lengthZ_le_bytes, (proj1 Hout); table_lia|].
  exists p2. split.
  - unfold btree_set_leaf_entry. rewrite run_get.
    rewrite (bind_run _ _ _ _ _ (set_leaf_choose h l k key m Hr Hk)). rewrite Hrep.
    rewrite (repr_num _ _ _ _ Hr), leaf_required. fold (slots_after l k).
    rewrite run_assert by lia. rewrite (proj2 (Z.ltb_ge _ _)) by lia. fold new.
    rewrite run_assert by lia. rewrite (bind_run _ _ _ _ _ Hrun).
    unfold put_table_entry, on_page, mbind, M_bind, mget, mopt, mmod, massert, put_le. cbn [page set_page].
    rewrite Hw2. rewrite u16_small by table_lia. rewrite (proj2 (Z.ltb_lt _ _)) by lia. done.
  - eapply repr_place; [by apply repr_weaken|done|done| |lia|exact Hout|exact Hat|exact Hw2].
    cbn [esize leaf_format fst snd]. lia.
Qed.

Lemma set_leaf_full h l k key m : node_repr ps h l → 0 ≤ k ≤ lengthZ l →
  replaces l k (key, m) = false → has_room h l k (key, m) = false →
  btree_set_leaf_entry k (USER_KEY key) m h = Ret (false, h).
Proof.
  intros Hr Hk Hrep Hroom. apply Z.leb_gt in Hroom. cbn [esize leaf_format fst snd] in Hroom.
  unfold btree_set_leaf_entry. rewrite run_get.
  rewrite (bind_run _ _ _ _ _ (set_leaf_choose h l k key m Hr Hk)). rewrite Hrep.
  rewrite (repr_num _ _ _ _ Hr), leaf_required. fold (slots_after l k).
  rewrite run_assert by lia. rewrite (proj2 (Z.ltb_lt _ _)) by lia. done.
Qed.

Lemma replaces_end l e : replaces l (lengthZ l) e = false.
Proof. unfold replaces. by rewrite (proj2 (lookupZ_None l (lengthZ l))) by lia. Qed.

Lemma set_leaf_run h l k key m : node_repr ps h l → 0 ≤ k ≤ lengthZ l → tuple_fits key m →
  ∃ h', let b := replaces l k (key, m) || has_room h l k (key, m) in
    btree_set_leaf_entry k (USER_KEY key) m h = Ret (b, h') ∧ same_links h h' ∧
    (b = false → h' = h) ∧
    (b = true → ∃ l', node_repr ps h' l' ∧ l'.*2 = set_at k (key, m) l.*2).
Proof.
  intros Hr Hk Hf. destruct (replaces l k (key, m)) eqn:Hrep; [|destruct (has_room h l k (key, m)) eqn:Hroom].
  - destruct (set_leaf_in_place h l k key m Hr Hf Hrep) as (o & p' & Hrun & Hr').
    eexists. split; [exact Hrun|]. split; [done|]. split; [done|]. intros _.
    eexists. split; [exact Hr'|]. unfold replaces in Hrep.
    destruct (lookupZ l k) as [s|] eqn:Hs; [|done]. pose proof (lookupZ_Some _ _ _ Hs).
    apply snd_insertZ. lia.
  - destruct (set_leaf_place h l k key m Hr Hk Hf Hrep Hroom) as (p' & Hrun & Hr').
    eexists. split; [exact Hrun|]. split; [done|]. split; [done|]. intros _.
    eexists. split; [exact Hr'|]. apply (fmap_set_at snd k (_, (key, m)) l).
  - exists h. split; [by apply (set_leaf_full _ _ _ _ _ Hr)|done].
Qed.

Lemma leaf_insert_run h l k key m : node_repr ps h l → 0 ≤ k ≤ lengthZ l → tuple_fits key m →
  ∃ h', let b := has_room h l (lengthZ l) (key, m) in
    btree_insert_leaf_entry k (USER_KEY key) m h = Ret (b, h') ∧ same_links h h' ∧
    (b = false → h' = h) ∧
    (b = true → ∃ l', node_repr ps h' l' ∧ l'.*2 = insert_at k (key, m) l.*2).
Proof.
  intros Hr Hk Hf. pose proof (lengthZ_nonneg l) as Hl0.
  unfold btree_insert_leaf_entry. rewrite run_get, (repr_num _ _ _ _ Hr).
  destruct (has_room h l (lengthZ l) (key, m)) eqn:Hroom.
  - destruct (set_leaf_place h l (lengthZ l) key m Hr ltac:(lia) Hf (replaces_end _ _) Hroom)
      as (p1 & Hrun & Hr').
    unfold set_at in Hr'. rewrite Z.ltb_irrefl in Hr'.
    destruct (repr_rotate _ _ _ _ k Hr' Hk) as (p2 & Hrot & Hr2).
    eexists. cbn zeta. rewrite (bind_run _ _ _ _ _ Hrun), (bind_run _ _ _ _ _ Hrot).
    split; [done|]. split; [done|]. split; [done|]. intros _.
    eexists. split; [exact Hr2|]. apply (fmap_insert_at snd k (_, (key, m)) l).
  - exists h. cbn zeta. rewrite (bind_run _ _ _ _ _ (set_leaf_full h l (lengthZ l) key m Hr ltac:(lia) (replaces_end _ _) Hroom)).
    done.
Qed.

(** ** Copying entries to an empty node *)
Definition removed (sp : option leaf_incorporate_spec) : option leaf_incorporate_spec :=
  set_old_entry_state ENTRY_HAS_BEEN_REMOVED <$> sp.
(** The tuples of [es], the entries from index [i] on, that are copied. *)
Fixpoint kept (sp : option leaf_incorporate_spec) (i : Z) (es : list tuple) : list tuple :=
  match es with
  | [] => []
  | e :: es' => if removes sp i then kept (removed sp) (i + 1) es' else e :: kept sp (i + 1) es'
  end.
Fixpoint after_copy (sp : option leaf_incorporate_spec) (i : Z) (n : nat) : option leaf_incorporate_spec :=
  match n with
  | O => sp
  | S n' => after_copy (if removes sp i then removed sp else sp) (i + 1) n'
  end.
Definition tuple_ok (e : tuple) : Prop := tuple_fits e.1 e.2.

(** The tuples of [h] from index [i] on are [es]. *)
Definition holds_tuples h (i : Z) (es : list tuple) : Prop :=
  ∀ j e, lookupZ es j = Some e →
    btree_get_tuple_key h (i + j) = Some (USER_KEY e.1) ∧
    btree_get_tuple_message h (i + j) = Some e.2 ∧ tuple_ok e.
Lemma repr_holds_tuples h l : node_repr ps h l → holds_tuples h 0 l.*2.
Proof.
  intros Hr j e Hj. rewrite lookupZ_fmap in Hj.
  destruct (lookupZ l j) as [[o [k m]]|] eqn:Hs; [|done]. injection Hj as <-.
  destruct (leaf_get _ _ _ _ _ _ Hr Hs) as (_ & _ & Hk & Hm & Hf). rewrite Z.add_0_l. done.
Qed.
Lemma holds_tuples_drop h i es n : 0 ≤ n → holds_tuples h i es → holds_tuples h (i + n) (drop (Z.to_nat n) es).
Proof.
  intros Hn Hh j e Hj. pose proof (lookupZ_Some _ _ _ Hj). rewrite lookupZ_drop in Hj by lia.
  rewrite Z2Nat.id in Hj by lia. rewrite <-Z.add_assoc. by apply Hh.
Qed.
Lemma holds_tuples_cons h i e es : holds_tuples h i (e :: es) →
  btree_get_tuple_key h i = Some (USER_KEY e.1) ∧ btree_get_tuple_message h i = Some e.2 ∧ tuple_ok e ∧
  holds_tuples h (i + 1) es.
Proof.
  intros Hh. destruct (Hh 0 e eq_refl) as (Hk & Hm & Hf). rewrite Z.add_0_r in *.
  split_and!; [done..|]. apply (holds_tuples_drop h i (e :: es) 1); [lia|done].
Qed.

Lemma copy_leaf_run es : ∀ scratch i sp h l,
  holds_tuples scratch i es → node_repr ps h l →
  table_at (lengthZ l + lengthZ (kept sp i es)) + total_size (kept sp i es) ≤ next_entry h →
  ∃ h' l', copy_leaf_entries (length es) scratch i (lengthZ l) sp h = Ret (after_copy sp i (length es), h') ∧
    node_repr ps h' l' ∧ l'.*2 = l.*2 ++ kept sp i es ∧
    next_entry h' = next_entry h - total_size (kept sp i es) ∧ same_links h h'.
Proof.
  induction es as [|e es IH]; intros scratch i sp h l Hsrc Hr Hroom.
  - exists h, l. split; [done|]. split; [done|]. cbn. rewrite app_nil_r. split_and!; [done|lia|done].
  - apply holds_tuples_cons in Hsrc as (Hk & Hm & Hf & Hsrc).
    cbn [copy_leaf_entries length after_copy kept] in *. destruct (removes sp i).
    + by apply IH.
    + rewrite (run_opt _ _ _ _ Hk), (run_opt _ _ _ _ Hm). cbn [total_size] in *.
      rewrite lengthZ_cons in Hroom. destruct e as [k m]. cbn [fst snd] in *.
      pose proof (lengthZ_nonneg (kept sp (i + 1) es)). pose proof (total_size_nonneg (kept sp (i + 1) es)).
      assert (Hrm : has_room h l (lengthZ l) (k, m) = true).
      { apply Z.leb_le. unfold slots_after. rewrite Z.ltb_irrefl. table_lia. }
      pose proof (lengthZ_nonneg l).
      destruct (set_leaf_place h l (lengthZ l) k m Hr ltac:(lia) Hf (replaces_end _ _) Hrm) as (p1 & Hrun & Hr').
      rewrite (bind_run _ _ _ _ _ Hrun). unfold set_at in Hr'. rewrite Z.ltb_irrefl in Hr'.
      set (new := next_entry h - tuple_size k m) in *. set (h1 := placed h p1 new _) in *.
      pose proof (repr_width _ _ _ _ Hr) as Hw. pose proof (repr_next _ _ _ _ Hr) as Hne.
      assert (Hn1 : next_entry h1 = new).
      { cbn. apply u16_small. cbn [esize leaf_format fst snd] in Hroom.
        pose proof (tuple_size_pos k m). unfold new. table_lia. }
      destruct (IH scratch (i + 1) sp h1 (l ++ [(new, (k, m))]) Hsrc Hr') as (h' & l' & Hrun' & Hr2 & Hl' & Hn' & Hs').
      { rewrite Hn1, lengthZ_app. change (lengthZ [(new, (k, m))]) with 1.
        cbn [esize leaf_format fst snd] in Hroom. unfold new. table_lia. }
      rewrite lengthZ_app in Hrun'. exists h', l'. split; [exact Hrun'|]. split; [done|].
      rewrite fmap_app, <-app_assoc in Hl'. split; [exact Hl'|].
      rewrite Hn', Hn1. cbn [esize leaf_format fst snd]. split; [unfold new; lia|].
      eapply same_links_trans; [|exact Hs']. done.
Qed.
End leaf.

(** * Searching a sorted node

    The binary searches of btree.c, on keys that are strictly increasing. *)
(** The comparisons of the entries with a target are first negative, then
    possibly zero once, then positive. *)
Definition crossing (n : Z) (c : Z → Z) : Prop :=
  ∀ i j, 0 ≤ i → i < j → j < n → (c j ≤ 0 → c i < 0) ∧ (0 ≤ c i → 0 < c j).
(** What a search returns. *)
Definition search_result (n : Z) (c : Z → Z) (r : Z) (found : bool) : Prop :=
  -1 ≤ r < n ∧ (∀ i, 0 ≤ i < r → c i < 0) ∧ (∀ i, r < i < n → 0 < c i) ∧
  (if found then 0 ≤ r ∧ c r = 0 else 0 ≤ r → c r < 0).

Lemma search_loop_run fuel n cmp c lo hi h :
  (∀ i, 0 ≤ i < n → cmp i = Some (c i)) → crossing n c →
  0 ≤ lo ≤ hi → hi ≤ n → (Z.to_nat (hi - lo) < fuel)%nat →
  (∀ i, 0 ≤ i < lo → c i < 0) → (∀ i, hi ≤ i < n → 0 < c i) →
  ∃ r found, search_loop fuel cmp lo hi h = Ret ((r, found), h) ∧ search_result n c r found.
Proof.
  intros Hc Hx. revert lo hi. induction fuel as [|fuel IH]; intros lo hi Hlo Hhi Hf Hl Hh; [lia|].
  cbn [search_loop]. destruct (Z.ltb_spec lo hi) as [Hlt|Hge].
  - pose proof (Z.div_mod (lo + hi) 2 ltac:(lia)). pose proof (Z.mod_pos_bound (lo + hi) 2 ltac:(lia)).
    set (mid := (lo + hi) / 2) in *. assert (Hm : lo ≤ mid < hi) by lia.
    rewrite (run_opt _ _ _ _ (Hc mid ltac:(lia))).
    destruct (Z.eqb_spec (c mid) 0) as [E|E]; [|destruct (Z.ltb_spec (c mid) 0)].
    + exists mid, true. split; [done|]. split; [lia|].
      split; [|split; [|lia]]; intros i Hi; [apply (Hx i mid)|apply (Hx mid i)]; lia.
    + apply IH; [lia..| |done]. intros i Hi.
      destruct (decide (i = mid)) as [->|]; [done|]. apply (Hx i mid); lia.
    + apply IH; [lia..|done|]. intros i Hi.
      destruct (decide (i = mid)) as [->|]; [lia|]. apply (Hx mid i); lia.
  - exists (lo - 1), false. split; [done|]. split; [lia|]. split; [|split].
    + intros i Hi. apply Hl. lia.
    + intros i Hi. apply Hh. lia.
    + intros ?. apply Hl. lia.
Qed.

Definition sorted_keys (cfg : btree_config) (ks : list key) : Prop :=
  ∀ i j k k', i < j → lookupZ ks i = Some k → lookupZ ks j = Some k' → btree_key_compare cfg k k' < 0.

(** The keys of [ks] on either side of where the search for [target] ends. *)
Definition finds (cfg : btree_config) (ks : list key) (target : key) (r : Z) (found : bool) : Prop :=
  -1 ≤ r < lengthZ ks ∧
  (∀ i k, lookupZ ks i = Some k →
     (i < r → btree_key_compare cfg k target < 0) ∧ (r < i → 0 < btree_key_compare cfg k target)) ∧
  (∀ k, lookupZ ks r = Some k →
     if found then btree_key_compare cfg k target = 0 else btree_key_compare cfg k target < 0) ∧
  (found = true → 0 ≤ r).

Section search.
Context (cfg : btree_config) `{!key_order (bt_data_cfg cfg)}.

Lemma sorted_crossing ks target c :
  sorted_keys cfg ks → Forall key_small ks → key_small target →
  (∀ i k, lookupZ ks i = Some k → c i = btree_key_compare cfg k target) → crossing (lengthZ ks) c.
Proof.
  intros Hs Hk Ht Hc i j Hi Hij Hj.
  destruct (proj2 (lookupZ_is_Some ks i) ltac:(lia)) as [ki Hki].
  destruct (proj2 (lookupZ_is_Some ks j) ltac:(lia)) as [kj Hkj].
  rewrite (Hc _ _ Hki), (Hc _ _ Hkj). pose proof (Hs i j ki kj Hij Hki Hkj) as Hlt.
  rewrite list.Forall_forall in Hk.
  pose proof (Hk ki (lookupZ_elem _ _ _ Hki)). pose proof (Hk kj (lookupZ_elem _ _ _ Hkj)).
  unfold btree_key_compare in *. split; intros Hcmp.
  - eapply dkc_lt_le; [done..|exact Hlt|done].
  - destruct (Z.lt_ge_cases 0 (data_key_compare (bt_data_cfg cfg) kj target)); [done|].
    pose proof (dkc_lt_le (bt_data_cfg cfg) ki kj target). intuition lia.
Qed.

Lemma search_finds get ks target h fuel :
  sorted_keys cfg ks → Forall key_small ks → key_small target →
  (∀ i k, lookupZ ks i = Some k → get i = Some k) → (Z.to_nat (lengthZ ks) < fuel)%nat →
  ∃ r found, search_loop fuel (λ mid, k ← get mid; Some (btree_key_compare cfg k target)) 0 (lengthZ ks) h
      = Ret ((r, found), h) ∧ finds cfg ks target r found.
Proof.
  intros Hs Hk Ht Hg Hf. pose proof (lengthZ_nonneg ks).
  set (c := λ i, match lookupZ ks i with Some k => btree_key_compare cfg k target | None => 0 end).
  assert (Hc : ∀ i k, lookupZ ks i = Some k → c i = btree_key_compare cfg k target).
  { intros i k Hi. unfold c. by rewrite Hi. }
  destruct (search_loop_run fuel (lengthZ ks)
    (λ mid, k ← get mid; Some (btree_key_compare cfg k target)) c 0 (lengthZ ks) h)
    as (r & found & Hrun & Hb & Hlo & Hhi & Hr); try lia.
  - intros i Hi. destruct (proj2 (lookupZ_is_Some ks i) Hi) as [k Hki].
    rewrite (Hg _ _ Hki), (Hc _ _ Hki). done.
  - by eapply sorted_crossing.
  - exists r, found. split; [done|]. split; [done|]. split; [|split].
    + intros i k Hi. pose proof (lookupZ_Some _ _ _ Hi). rewrite <-(Hc _ _ Hi).
      split; intros ?; [apply Hlo|apply Hhi]; lia.
    + intros k Hi. pose proof (lookupZ_Some _ _ _ Hi). rewrite <-(Hc _ _ Hi).
      destruct found; [apply Hr|apply Hr; lia].
    + intros ->. apply Hr.
Qed.
End search.
