(* ===== verification/LeafMap.v ===== *)
(** * Sorted lists of tuples as maps

    What a leaf means: a map from keys, up to the application's comparison, to
    messages.  Putting a tuple at the place a search found is an insertion or
    an update of that map. *)
From S2P Require Import Prelude Bytes DataInternal BtreeNode NodeLayout BtreeLeaf.

Definition tuple_keys (es : list tuple) : list key := (λ e, USER_KEY e.1) <$> es.
Fixpoint tuple_lookup (cfg : btree_config) (es : list tuple) (k : key) : option message :=
  match es with
  | [] => None
  | e :: es' => if btree_key_compare cfg (USER_KEY e.1) k =? 0 then Some e.2 else tuple_lookup cfg es' k
  end.
Definition sorted_tuples (cfg : btree_config) (es : list tuple) : Prop := sorted_keys cfg (tuple_keys es).
Definition same_key (cfg : btree_config) (k k' : key) : bool := btree_key_compare cfg k k' =? 0.
Definition tuple_small (e : tuple) : Prop := key_small (USER_KEY e.1).

Lemma lookupZ_tuple_keys es i : lookupZ (tuple_keys es) i = (λ e, USER_KEY e.1) <$> lookupZ es i.
Proof. apply lookupZ_fmap. Qed.
Lemma tuple_keys_small es : Forall tuple_small es → Forall key_small (tuple_keys es).
Proof. intros H. apply list.Forall_fmap. exact H. Qed.

Section leaf_map.
Context (cfg : btree_config) `{!key_order (bt_data_cfg cfg)}.
Implicit Types (es : list tuple) (k : key).
Local Abbreviation cmp := (btree_key_compare cfg).

Lemma tuple_lookup_Some_inv es k m : tuple_lookup cfg es k = Some m →
  ∃ i e, lookupZ es i = Some e ∧ cmp (USER_KEY e.1) k = 0 ∧ e.2 = m.
Proof.
  induction es as [|e es IH]; cbn; [done|]. destruct (Z.eqb_spec (cmp (USER_KEY e.1) k) 0) as [E|E].
  - intros [= <-]. by exists 0, e.
  - intros (i & e' & Hi & ? & ?)%IH. exists (i + 1), e'. split; [|done].
    pose proof (lookupZ_Some _ _ _ Hi). rewrite lookupZ_cons_S by lia. by rewrite Z.add_simpl_r.
Qed.
Lemma tuple_lookup_None_inv es k i e : tuple_lookup cfg es k = None → lookupZ es i = Some e →
  cmp (USER_KEY e.1) k ≠ 0.
Proof.
  revert i. induction es as [|e' es IH]; intros i; cbn; [by rewrite lookupZ_nil|].
  destruct (Z.eqb_spec (cmp (USER_KEY e'.1) k) 0) as [E|E]; [done|]. intros Hn Hi.
  pose proof (lookupZ_Some _ _ _ Hi). destruct (decide (i = 0)) as [->|].
  - rewrite lookupZ_cons_0 in Hi. by injection Hi as <-.
  - rewrite lookupZ_cons_S in Hi by lia. by eapply IH.
Qed.

(** Two entries of a sorted list that compare equal to a key are the same one. *)
Lemma sorted_unique es k i j e e' :
  sorted_tuples cfg es → Forall tuple_small es → key_small k →
  lookupZ es i = Some e → lookupZ es j = Some e' →
  cmp (USER_KEY e.1) k = 0 → cmp (USER_KEY e'.1) k = 0 → i = j.
Proof.
  intros Hs Hsm Hk Hi Hj He He'. rewrite Forall_lookupZ in Hsm.
  pose proof (Hsm _ _ Hi) as Hse. pose proof (Hsm _ _ Hj) as Hse'.
  assert (Hlt : ∀ a b x y, a < b → lookupZ es a = Some x → lookupZ es b = Some y →
    cmp (USER_KEY x.1) k = 0 → cmp (USER_KEY y.1) k = 0 → tuple_small x → tuple_small y → False).
  { intros a b x y Hab Hx Hy Hxk Hyk Hsx Hsy.
    assert (Hxy : cmp (USER_KEY x.1) (USER_KEY y.1) < 0)
      by (apply (Hs a b); [done|rewrite lookupZ_tuple_keys, Hx; done|rewrite lookupZ_tuple_keys, Hy; done]).
    unfold btree_key_compare in *.
    pose proof (dkc_lt_le (bt_data_cfg cfg) (USER_KEY x.1) (USER_KEY y.1) k Hsx Hsy Hk). lia. }
  destruct (Z.lt_trichotomy i j) as [?|[?|?]]; [exfalso|done|exfalso].
  - by apply (Hlt i j e e').
  - by apply (Hlt j i e' e).
Qed.
Lemma tuple_lookup_at es k i e :
  sorted_tuples cfg es → Forall tuple_small es → key_small k →
  lookupZ es i = Some e → cmp (USER_KEY e.1) k = 0 → tuple_lookup cfg es k = Some e.2.
Proof.
  intros Hs Hsm Hk Hi He. destruct (tuple_lookup cfg es k) as [m|] eqn:Hl.
  - apply tuple_lookup_Some_inv in Hl as (j & e' & Hj & He' & <-).
    rewrite (sorted_unique es k i j e e') in Hi by done. congruence.
  - exfalso. by eapply (tuple_lookup_None_inv es k i e).
Qed.
Lemma tuple_lookup_none es k :
  (∀ i e, lookupZ es i = Some e → cmp (USER_KEY e.1) k ≠ 0) → tuple_lookup cfg es k = None.
Proof.
  intros H. destruct (tuple_lookup cfg es k) as [m|] eqn:Hl; [|done].
  apply tuple_lookup_Some_inv in Hl as (j & e' & Hj & He' & _). exfalso. by eapply H.
Qed.

(** A search finds what the map has. *)
Lemma finds_lookup es k r found :
  sorted_tuples cfg es → Forall tuple_small es → key_small k → finds cfg (tuple_keys es) k r found →
  tuple_lookup cfg es k = if found then snd <$> lookupZ es r else None.
Proof.
  intros Hs Hsm Hk (Hr & Hside & Hat & Hf). unfold tuple_keys in Hr. rewrite lengthZ_fmap in Hr.
  destruct found.
  - destruct (proj2 (lookupZ_is_Some es r)) as [e He]; [specialize (Hf eq_refl); lia|].
    rewrite He. cbn. apply (tuple_lookup_at es k r e); try done.
    apply (Hat (USER_KEY e.1)). by rewrite lookupZ_tuple_keys, He.
  - apply tuple_lookup_none. intros i e He.
    assert (Hi : lookupZ (tuple_keys es) i = Some (USER_KEY e.1)) by by rewrite lookupZ_tuple_keys, He.
    destruct (Hside _ _ Hi). destruct (Z.lt_trichotomy i r) as [?|[->|?]]; [lia| |lia].
    specialize (Hat _ Hi). lia.
Qed.

(** [es'] maps [k] to [m] and every other key as [es] does. *)
Definition lookup_updated es es' k m : Prop :=
  ∀ k', key_small k' → tuple_lookup cfg es' k' = if same_key cfg k k' then Some m else tuple_lookup cfg es k'.

Lemma cmp_zero_trans a b c : key_small a → key_small b → key_small c →
  cmp a b = 0 → cmp b c = 0 → cmp a c = 0.
Proof.
  unfold btree_key_compare. intros Ha Hb Hc H1 H2.
  pose proof (dkc_trans (bt_data_cfg cfg) a b c Ha Hb Hc). pose proof (dkc_trans (bt_data_cfg cfg) c b a Hc Hb Ha).
  pose proof (dkc_sym (bt_data_cfg cfg) a b Ha Hb). pose proof (dkc_sym (bt_data_cfg cfg) b c Hb Hc).
  pose proof (dkc_sym (bt_data_cfg cfg) a c Ha Hc). lia.
Qed.
Lemma cmp_zero_sym a b : key_small a → key_small b → cmp a b = 0 → cmp b a = 0.
Proof. unfold btree_key_compare. intros Ha Hb H. pose proof (dkc_sym (bt_data_cfg cfg) a b Ha Hb). lia. Qed.


Lemma updated_by es es' x :
  sorted_tuples cfg es → Forall tuple_small es → sorted_tuples cfg es' → Forall tuple_small es' →
  x ∈ es' → (∀ e, e ∈ es' → e = x ∨ e ∈ es) →
  (∀ e, e ∈ es → e ∈ es' ∨ cmp (USER_KEY e.1) (USER_KEY x.1) = 0) →
  lookup_updated es es' (USER_KEY x.1) x.2.
Proof.
  intros Hs Hsm Hs' Hsm' Hx H2 H3 k' Hk'. unfold same_key.
  pose proof (proj1 (list.Forall_forall _ _) Hsm') as Hsm''.
  pose proof (proj1 (list.Forall_forall _ _) Hsm) as Hsmx.
  assert (Hxs : tuple_small x) by auto.
  destruct (Z.eqb_spec (cmp (USER_KEY x.1) k') 0) as [E|E].
  - apply elem_lookupZ in Hx as [i Hi]. by eapply tuple_lookup_at.
  - destruct (tuple_lookup cfg es k') as [m|] eqn:Hl.
    + apply tuple_lookup_Some_inv in Hl as (i & e & Hi & He & <-). apply lookupZ_elem in Hi.
      destruct (H3 e Hi) as [Hin|Hz].
      * apply elem_lookupZ in Hin as [j Hj]. by eapply tuple_lookup_at.
      * destruct E. pose proof (Hsmx e Hi). eapply cmp_zero_trans; [exact Hxs| |done| |exact He]; [done|].
        by apply cmp_zero_sym.
    + apply tuple_lookup_none. intros i e Hi. destruct (H2 e) as [->|He]; [by eapply lookupZ_elem|done|].
      apply elem_lookupZ in He as [j Hj]. by eapply tuple_lookup_None_inv.
Qed.

(** Sortedness, with the new key between the keys on its two sides. *)
Definition between es k lo hi : Prop :=
  ∀ i e, lookupZ es i = Some e →
    (i < lo → cmp (USER_KEY e.1) k < 0) ∧ (hi ≤ i → 0 < cmp (USER_KEY e.1) k).
Lemma finds_between es k r found : finds cfg (tuple_keys es) k r found →
  between es k (if found then r else r + 1) (r + 1).
Proof.
  intros (_ & Hside & Hat & _) i e Hi.
  assert (Hk : lookupZ (tuple_keys es) i = Some (USER_KEY e.1)) by by rewrite lookupZ_tuple_keys, Hi.
  destruct (Hside _ _ Hk) as [Hlo Hhi]. split; [|intros ?; apply Hhi; lia].
  intros Hlt. destruct (decide (i = r)) as [->|].
  - specialize (Hat _ Hk). destruct found; [lia|done].
  - apply Hlo. destruct found; lia.
Qed.
Lemma between_pair es k lo hi i e : between es k lo hi → lookupZ es i = Some e → tuple_small e → key_small k →
  (i < lo → cmp (USER_KEY e.1) k < 0) ∧ (hi ≤ i → cmp k (USER_KEY e.1) < 0).
Proof.
  intros Hb Hi He Hk. destruct (Hb i e Hi) as [H1 H2]. split; [done|]. intros ?.
  unfold btree_key_compare in *. apply dkc_gt; auto.
Qed.

Lemma sorted_set es r x : sorted_tuples cfg es → Forall tuple_small es → tuple_small x →
  between es (USER_KEY x.1) r (r + 1) → sorted_tuples cfg (insertZ r x es).
Proof.
  intros Hs Hsm Hx Hb i j k k' Hij. rewrite !lookupZ_tuple_keys, !lookupZ_insertZ.
  rewrite Forall_lookupZ in Hsm.
  repeat case_bool_decide; cbn; try (exfalso; lia).
  - intros [= <-]. destruct (lookupZ es j) as [e|] eqn:He; [|done]. intros [= <-].
    destruct (between_pair _ _ _ _ _ _ Hb He (Hsm _ _ He) Hx). lia.
  - destruct (lookupZ es i) as [e|] eqn:He; [|done]. intros [= <-] [= <-].
    destruct (between_pair _ _ _ _ _ _ Hb He (Hsm _ _ He) Hx). lia.
  - destruct (lookupZ es i) as [e|] eqn:He; [|done]. destruct (lookupZ es j) as [e'|] eqn:He'; [|done].
    intros [= <-] [= <-]. apply (Hs i j); [done|rewrite lookupZ_tuple_keys, He; done|rewrite lookupZ_tuple_keys, He'; done].
Qed.
Lemma sorted_insert es r x : sorted_tuples cfg es → Forall tuple_small es → tuple_small x → 0 ≤ r ≤ lengthZ es →
  between es (USER_KEY x.1) r r → sorted_tuples cfg (insert_at r x es).
Proof.
  intros Hs Hsm Hx Hr Hb i j k k' Hij. rewrite !lookupZ_tuple_keys, !lookupZ_insert_at by done.
  rewrite Forall_lookupZ in Hsm.
  assert (Hold : ∀ a b e e', a < b → lookupZ es a = Some e → lookupZ es b = Some e' →
    cmp (USER_KEY e.1) (USER_KEY e'.1) < 0).
  { intros a b e e' Hab Ha Hb'. apply (Hs a b); [done|rewrite lookupZ_tuple_keys, Ha; done|rewrite lookupZ_tuple_keys, Hb'; done]. }
  assert (Hlo : ∀ a e, lookupZ es a = Some e → a < r → cmp (USER_KEY e.1) (USER_KEY x.1) < 0).
  { intros a e Ha. eapply between_pair; [done|done|by eapply Hsm|done]. }
  assert (Hhi : ∀ a e, lookupZ es a = Some e → r ≤ a → cmp (USER_KEY x.1) (USER_KEY e.1) < 0).
  { intros a e Ha. eapply between_pair; [done|done|by eapply Hsm|done]. }
  destruct (Z.ltb_spec i r), (Z.ltb_spec j r), (Z.eqb_spec i r), (Z.eqb_spec j r); try lia; cbn;
    repeat match goal with
    | |- (_ <$> ?o) = _ → _ => let E := fresh in destruct o as [?|] eqn:E; [|done]; cbn; intros [= <-]
    | |- Some _ = Some _ → _ => intros [= <-]
    end;
    first [ eapply Hold; [|eassumption|eassumption]; lia
          | eapply Hlo; [eassumption|lia] | eapply Hhi; [eassumption|lia] ].
Qed.

Lemma Forall_insert_at {A} (P : A → Prop) l i x : P x → Forall P l → Forall P (insert_at i x l).
Proof.
  intros Hx Hl. unfold insert_at. apply list.Forall_app. split; [by apply list.Forall_take|].
  constructor; [done|by apply list.Forall_drop].
Qed.

(** The two ways a search result is used. *)
Lemma set_updates es r x :
  sorted_tuples cfg es → Forall tuple_small es → tuple_small x →
  finds cfg (tuple_keys es) (USER_KEY x.1) r true →
  sorted_tuples cfg (insertZ r x es) ∧ Forall tuple_small (insertZ r x es) ∧
  lookup_updated es (insertZ r x es) (USER_KEY x.1) x.2.
Proof.
  intros Hs Hsm Hx Hf. pose proof (finds_between _ _ _ _ Hf) as Hb.
  pose proof Hf as (Hr & _ & Hat & Hf0). specialize (Hf0 eq_refl).
  unfold tuple_keys in Hr. rewrite lengthZ_fmap in Hr.
  assert (Hs' : sorted_tuples cfg (insertZ r x es)) by by apply sorted_set.
  assert (Hsm' : Forall tuple_small (insertZ r x es)) by by apply Forall_insertZ.
  split; [done|]. split; [done|]. apply updated_by; try done.
  - apply elem_lookupZ. exists r. rewrite lookupZ_insertZ_eq by lia. done.
  - intros e [i Hi]%elem_lookupZ. rewrite lookupZ_insertZ in Hi. case_bool_decide.
    + left. congruence.
    + right. by eapply lookupZ_elem.
  - intros e [i Hi]%elem_lookupZ. destruct (decide (i = r)) as [->|].
    + right. apply Hat. by rewrite lookupZ_tuple_keys, Hi.
    + left. apply elem_lookupZ. exists i. by rewrite lookupZ_insertZ_ne.
Qed.
Lemma insert_updates es r x :
  sorted_tuples cfg es → Forall tuple_small es → tuple_small x →
  finds cfg (tuple_keys es) (USER_KEY x.1) r false →
  sorted_tuples cfg (insert_at (r + 1) x es) ∧ Forall tuple_small (insert_at (r + 1) x es) ∧
  lookup_updated es (insert_at (r + 1) x es) (USER_KEY x.1) x.2.
Proof.
  intros Hs Hsm Hx Hf. pose proof (finds_between _ _ _ _ Hf) as Hb. cbn in Hb.
  pose proof Hf as (Hr & _). unfold tuple_keys in Hr. rewrite lengthZ_fmap in Hr.
  assert (Hr' : 0 ≤ r + 1 ≤ lengthZ es) by lia.
  assert (Hs' : sorted_tuples cfg (insert_at (r + 1) x es)) by by apply sorted_insert.
  assert (Hsm' : Forall tuple_small (insert_at (r + 1) x es)) by by apply Forall_insert_at.
  split; [done|]. split; [done|]. apply updated_by; try done.
  - unfold insert_at. apply elem_of_app. right. left.
  - intros e He. unfold insert_at in He. apply elem_of_app in He as [He|He].
    + right. eapply subseteq_take. exact He.
    + apply elem_of_cons in He as [->|He]; [by left|]. right. by eapply subseteq_drop.
  - intros e He. left. unfold insert_at. rewrite <-(take_drop (Z.to_nat (r + 1)) es) in He.
    rewrite elem_of_app in *. rewrite elem_of_cons. tauto.
Qed.
End leaf_map.

(** * Incorporating a tuple in a leaf

    The search for the place of a tuple, the insertion or update, and the
    defragmentation that makes room for it, as operations on the map the leaf
    represents. *)
(** A leaf whose tuples, in increasing order, are [es]. *)
Definition leaf_repr (cfg : btree_config) (h : btree_hdr) (es : list tuple) : Prop :=
  ∃ l, node_repr (btree_page_size cfg) h l ∧ l.*2 = es ∧ sorted_tuples cfg es.

(** The message [k] has after [msg] is incorporated. *)
Definition incorporated (cfg : btree_config) (es : list tuple) (k : key) (msg : message) : message :=
  match tuple_lookup cfg es k with
  | None => msg
  | Some old => (data_merge_tuples (bt_data_cfg cfg) k old msg).2
  end.
(** The merge callbacks succeed on [k], and the heap has room for the accumulator. *)
Definition merge_succeeds (cfg : btree_config) (heap_ok : Z → bool) (es : list tuple) (k : key) (msg : message) : Prop :=
  match tuple_lookup cfg es k with
  | None => True
  | Some old => ((message_length msg =? 0) || heap_ok (message_length msg)) = true ∧
                (data_merge_tuples (bt_data_cfg cfg) k old msg).1 = 0
  end.

Lemma tuple_fits_small e : tuple_ok e → tuple_small e.
Proof. intros (Hk & _). unfold tuple_small, key_small. change (key_length (USER_KEY e.1)) with (lengthZ e.1). lia. Qed.
Lemma repr_tuples_ok ps h (l : list (Z * tuple)) : node_repr ps h l → Forall tuple_ok l.*2.
Proof.
  intros Hr. rewrite Forall_lookupZ. intros i e Hi.
  by destruct (repr_holds_tuples ps h l Hr i e Hi) as (_ & _ & ?).
Qed.
Lemma repr_tuples_small ps h (l : list (Z * tuple)) : node_repr ps h l → Forall tuple_small l.*2.
Proof. intros Hr. eapply list.Forall_impl; [by eapply repr_tuples_ok|]. apply tuple_fits_small. Qed.

Section incorporate.
Context (cfg : btree_config) `{!key_order (bt_data_cfg cfg)}.
Local Abbreviation ps := (btree_page_size cfg).
Implicit Types (l : list (Z * tuple)) (h : btree_hdr) (es : list tuple).

Lemma find_tuple_run h l target : node_repr ps h l → sorted_tuples cfg l.*2 → key_small target →
  ∃ r found, btree_find_tuple cfg target h = Ret ((r, found), h) ∧
    finds cfg (tuple_keys l.*2) target r found.
Proof.
  intros Hr Hs Ht. unfold btree_find_tuple. rewrite run_get, (repr_num _ _ _ _ Hr).
  assert (HL : lengthZ (tuple_keys l.*2) = lengthZ l) by (unfold tuple_keys; by rewrite !lengthZ_fmap).
  rewrite <-HL. apply (search_finds cfg (btree_get_tuple_key h)); try done.
  - by apply tuple_keys_small, (repr_tuples_small _ _ _ Hr).
  - intros i k Hi. rewrite lookupZ_tuple_keys in Hi.
    destruct (lookupZ l.*2 i) as [e|] eqn:He; [|done]. injection Hi as <-.
    by destruct (repr_holds_tuples ps h l Hr i e He) as (? & _).
  - unfold search_fuel. rewrite (repr_num _ _ _ _ Hr), HL. lia.
Qed.

(** What the spec of an incorporation is about, for a leaf with tuples [es]. *)
Record spec_for (es : list tuple) (key : list Z) (m : message) (sp : leaf_incorporate_spec) : Prop := {
  spec_key : tuple_key sp = USER_KEY key;
  spec_msg : spec_message sp = m;
  spec_state : old_entry_state sp = ENTRY_STILL_EXISTS ∨ old_entry_state sp = ENTRY_DID_NOT_EXIST;
  spec_finds : finds cfg (tuple_keys es) (USER_KEY key) (if still_exists sp then idx sp else idx sp - 1) (still_exists sp);
}.
Lemma spec_idx es key m sp : spec_for es key m sp →
  0 ≤ idx sp ≤ lengthZ es ∧ (still_exists sp = true → idx sp < lengthZ es).
Proof.
  intros [_ _ _ ((Hl & Hh) & _ & _ & Hf)]. unfold tuple_keys in Hh. rewrite lengthZ_fmap in Hh.
  destruct (still_exists sp); [specialize (Hf eq_refl)|]; split; try done; lia.
Qed.

Lemma create_spec_run h l heap_ok key msg :
  node_repr ps h l → sorted_tuples cfg l.*2 → slice_small key →
  merge_succeeds cfg heap_ok l.*2 (USER_KEY key) msg →
  ∃ sp, btree_create_leaf_incorporate_spec cfg heap_ok (USER_KEY key) msg h = Ret ((STATUS_OK, sp), h) ∧
    spec_for l.*2 key (incorporated cfg l.*2 (USER_KEY key) msg) sp.
Proof.
  intros Hr Hs Hk Hm. pose proof (repr_tuples_small _ _ _ Hr) as Hsm.
  destruct (find_tuple_run h l (USER_KEY key) Hr Hs Hk) as (r & found & Hrun & Hfind).
  pose proof (finds_lookup cfg _ (USER_KEY key) r found Hs Hsm Hk Hfind) as Hlk.
  unfold btree_create_leaf_incorporate_spec, incorporated, merge_succeeds in *.
  rewrite run_get, (bind_run _ _ _ _ _ Hrun). cbn beta iota. destruct found; cbn [negb].
  - pose proof Hfind as (Hr1 & _ & _ & Hr0). specialize (Hr0 eq_refl).
    unfold tuple_keys in Hr1. rewrite lengthZ_fmap in Hr1.
    destruct (proj2 (lookupZ_is_Some l.*2 r) (conj Hr0 (proj2 Hr1))) as [e He]. rewrite He in Hlk. cbn in Hlk.
    rewrite Hlk in *. destruct Hm as [Hheap Hrc].
    destruct (repr_holds_tuples ps h l Hr r e He) as (_ & Hmsg & _). rewrite Z.add_0_l in Hmsg.
    rewrite (run_opt _ _ _ _ Hmsg), Hheap. cbn [negb].
    destruct (data_merge_tuples (bt_data_cfg cfg) (USER_KEY key) e.2 msg) as [rc merged]. cbn in Hrc.
    subst rc. cbn. eexists. split; [done|]. split; [done|done|by left|done].
  - cbn in Hlk. rewrite Hlk. eexists. split; [done|]. split; [done|done|by right|].
    cbn. by rewrite Z.add_simpl_r.
Qed.

(** The tuples after [sp] is performed on tuples [es]. *)
Definition performed (sp : leaf_incorporate_spec) es (x : tuple) : list tuple :=
  if still_exists sp then insertZ (idx sp) x es else insert_at (idx sp) x es.
Lemma performed_updates es key m sp : sorted_tuples cfg es → Forall tuple_small es → slice_small key →
  spec_for es key m sp →
  sorted_tuples cfg (performed sp es (key, m)) ∧ lookup_updated cfg es (performed sp es (key, m)) (USER_KEY key) m.
Proof.
  intros Hs Hsm Hk Hsp. unfold performed. destruct Hsp as [_ _ _ Hf]. destruct (still_exists sp).
  - destruct (set_updates cfg es (idx sp) (key, m)) as (? & _ & ?); done.
  - destruct (insert_updates cfg es (idx sp - 1) (key, m)) as (? & _ & ?); try done.
    by rewrite Z.sub_add in *.
Qed.

(** [h'] is [h] with tuples [es'] and the next generation, when [b]; else it is [h]. *)
Definition perform_result h h' (b : bool) (es' : list tuple) : Prop :=
  (b = false → h' = h) ∧
  (b = true → generation h' = u64 (generation h + 1) ∧ next_addr h' = next_addr h ∧
     prev_addr h' = prev_addr h ∧ height h' = height h ∧
     ∃ l', node_repr ps h' l' ∧ l'.*2 = es').

Lemma perform_tail (op : N bool) h h1 b es' : op h = Ret (b, h1) → same_links h h1 →
  (b = false → h1 = h) → (b = true → ∃ l', node_repr ps h1 l' ∧ l'.*2 = es') →
  ∃ h', (success ← op;
         if success : bool then h ← mget; mmod incr_generation;; mret (Some (generation h)) else mret None) h
      = Ret (if b then Some (generation h) else None, h') ∧ perform_result h h' b es'.
Proof.
  intros Hrun (Ha & Hb & _ & Hg & Hh) Hno Hyes. rewrite (bind_run _ _ _ _ _ Hrun). destruct b.
  - rewrite run_get, run_mod. exists (incr_generation h1). rewrite Hg. split; [done|]. split; [done|].
    intros _. split_and!; [by cbn; rewrite Hg|done..|]. destruct (Hyes eq_refl) as (l' & Hr' & Hl').
    exists l'. split; [by eapply repr_same_page; [..|exact Hr']|done].
  - rewrite (Hno eq_refl). exists h. done.
Qed.

Lemma try_perform_run h l key m sp b :
  node_repr ps h l → tuple_fits key m → tuple_key sp = USER_KEY key → spec_message sp = m →
  0 ≤ idx sp ≤ lengthZ l → (still_exists sp = true → idx sp < lengthZ l) →
  btree_can_perform_leaf_incorporate_spec h sp = Some b →
  ∃ h', btree_try_perform_leaf_incorporate_spec sp h = Ret (if b then Some (generation h) else None, h') ∧
    perform_result h h' b (performed sp l.*2 (key, m)).
Proof.
  intros Hr Hf Hk Hm Hi Hi' Hcan. unfold btree_can_perform_leaf_incorporate_spec in Hcan.
  unfold btree_try_perform_leaf_incorporate_spec, performed. rewrite Hk, Hm in *.
  rewrite (repr_num _ _ _ _ Hr) in Hcan. pose proof (lengthZ_nonneg l) as Hl0. destruct (still_exists sp).
  - rewrite (leaf_can_set _ _ _ (idx sp) key m Hr ltac:(lia)) in Hcan. injection Hcan as <-.
    destruct (set_leaf_run _ _ _ (idx sp) key m Hr ltac:(lia) Hf) as (h1 & Hrun & Hsl & Hno & Hyes).
    replace (insertZ (idx sp) (key, m) l.*2) with (set_at (idx sp) (key, m) l.*2); [by eapply perform_tail|].
    unfold set_at. rewrite lengthZ_fmap. by rewrite (proj2 (Z.ltb_lt _ _)) by auto.
  - rewrite (leaf_can_set _ _ _ (lengthZ l) key m Hr ltac:(lia)) in Hcan. rewrite replaces_end in Hcan.
    injection Hcan as <-. cbn [orb].
    destruct (leaf_insert_run _ _ _ (idx sp) key m Hr Hi Hf) as (h1 & Hrun & Hsl & Hno & Hyes).
    by eapply perform_tail.
Qed.

(** ** Defragmentation *)
(** The tuples but the one [sp] will replace. *)
Definition without (sp : leaf_incorporate_spec) es : list tuple :=
  if still_exists sp then delete (Z.to_nat (idx sp)) es else es.

Lemma kept_all sp i es : (∀ j, i ≤ j < i + lengthZ es → removes sp j = false) →
  kept sp i es = es ∧ after_copy sp i (length es) = sp.
Proof.
  revert i. induction es as [|e es IH]; intros i Hn; [done|]. rewrite lengthZ_cons in Hn.
  pose proof (lengthZ_nonneg es). cbn. rewrite (Hn i) by lia.
  destruct (IH (i + 1)) as [-> ->]; [|done]. intros j Hj. apply Hn. lia.
Qed.
Lemma removes_removed sp j : removes (removed sp) j = false.
Proof. by destruct sp. Qed.
Lemma kept_one sp i es : still_exists sp = true → i ≤ idx sp < i + lengthZ es →
  kept (Some sp) i es = delete (Z.to_nat (idx sp - i)) es ∧
  after_copy (Some sp) i (length es) = Some (set_old_entry_state ENTRY_HAS_BEEN_REMOVED sp).
Proof.
  intros Hs. revert i. induction es as [|e es IH]; intros i Hi.
  { change (lengthZ []) with 0 in Hi. lia. }
  rewrite lengthZ_cons in Hi. cbn [kept after_copy length removes]. rewrite Hs. cbn [andb].
  destruct (Z.eqb_spec (idx sp) i) as [->|Hne].
  - rewrite Z.sub_diag. destruct (kept_all (removed (Some sp)) (i + 1) es) as [-> ->]; [|done].
    intros j _. apply removes_removed.
  - destruct (IH (i + 1)) as [-> ->]; [lia|]. split; [|done].
    replace (Z.to_nat (idx sp - i)) with (S (Z.to_nat (idx sp - (i + 1)))) by lia. done.
Qed.
Lemma kept_without sp es : (still_exists sp = true → 0 ≤ idx sp < lengthZ es) →
  kept (Some sp) 0 es = without sp es ∧
  after_copy (Some sp) 0 (length es) =
    Some (if still_exists sp then set_old_entry_state ENTRY_HAS_BEEN_REMOVED sp else sp).
Proof.
  unfold without. destruct (still_exists sp) eqn:Hs; intros Hi.
  - destruct (kept_one sp 0 es Hs) as [-> ->]; [specialize (Hi eq_refl); lia|]. by rewrite Z.sub_0_r.
  - apply kept_all. intros j _. cbn. by rewrite Hs.
Qed.

Lemma without_sizes sp es : (still_exists sp = true → 0 ≤ idx sp < lengthZ es) →
  lengthZ (without sp es) = lengthZ es - (if still_exists sp then 1 else 0) ∧
  total_size (without sp es) ≤ total_size es.
Proof.
  unfold without. destruct (still_exists sp); intros Hi; [|split; lia]. specialize (Hi eq_refl).
  split; [by apply lengthZ_delete|]. destruct (proj2 (lookupZ_is_Some es (idx sp)) Hi) as [e He].
  rewrite (total_size_lookup _ _ _ He). pose proof (esize_pos e). lia.
Qed.
(** The spec after the old entry, if any, is gone. *)
Definition detached (sp : leaf_incorporate_spec) : leaf_incorporate_spec :=
  if still_exists sp then set_old_entry_state ENTRY_HAS_BEEN_REMOVED sp else sp.
Lemma performed_detached sp es x : 0 ≤ idx sp ≤ lengthZ es → (still_exists sp = true → idx sp < lengthZ es) →
  performed (detached sp) (without sp es) x = performed sp es x.
Proof.
  intros Hi Hs. unfold performed, detached, without.
  destruct (still_exists sp) eqn:E; [|by rewrite E]. apply insert_at_delete. auto with lia.
Qed.
Lemma detached_same sp : still_exists (detached sp) = false ∧ tuple_key (detached sp) = tuple_key sp ∧
  spec_message (detached sp) = spec_message sp ∧ idx (detached sp) = idx sp.
Proof. unfold detached. destruct (still_exists sp) eqn:E; done. Qed.

Lemma reset_repr h l : node_repr ps h l → SIZEOF_BTREE_HDR ≤ ps → node_repr ps (btree_reset_node_entries cfg h) ([] : list (Z * tuple)).
Proof.
  intros Hr Hps. pose proof (repr_width _ _ _ _ Hr). unfold SIZEOF_BTREE_HDR in Hps.
  apply repr_empty; [apply (repr_length _ _ _ _ Hr)|done|cbn; apply u16_small; lia|done].
Qed.

Lemma defragment_run h l sp :
  node_repr ps h l → SIZEOF_BTREE_HDR ≤ ps → (still_exists sp = true → 0 ≤ idx sp < lengthZ l) →
  ∃ h' l', btree_defragment_leaf cfg (Some sp) h = Ret (Some (detached sp), h') ∧ node_repr ps h' l' ∧
    l'.*2 = without sp l.*2 ∧ next_entry h' = ps - total_size (without sp l.*2) ∧ same_links h h'.
Proof.
  intros Hr Hps Hi. unfold SIZEOF_BTREE_HDR in Hps. pose proof (repr_width _ _ _ _ Hr) as Hw.
  assert (Hi' : still_exists sp = true → 0 ≤ idx sp < lengthZ l.*2) by (intros ?; rewrite lengthZ_fmap; auto).
  destruct (kept_without sp l.*2 Hi') as [Hkept Hafter].
  destruct (without_sizes sp l.*2 Hi') as [Hlen Hsz].
  pose proof (repr_live_size _ _ _ Hr) as Hlive. rewrite live_size_total in Hlive.
  pose proof (repr_table _ _ _ _ Hr) as Ht. rewrite lengthZ_fmap in Hlen.
  assert (Hne : next_entry (btree_reset_node_entries cfg h) = ps) by (cbn; apply u16_small; lia).
  destruct (copy_leaf_run ps l.*2 h 0 (Some sp) (btree_reset_node_entries cfg h) [])
    as (h' & l' & Hrun & Hr' & Hl' & Hn' & Hs').
  - apply (repr_holds_tuples ps h l Hr).
  - by eapply reset_repr.
  - rewrite Hkept, Hne, Hlen. change (lengthZ []) with 0.
    destruct (still_exists sp); table_lia.
  - exists h', l'. rewrite Hkept, ?Hafter, ?Hne in *. split_and!; try done.
    unfold btree_defragment_leaf. rewrite run_get, run_mod.
    rewrite (repr_num _ _ _ _ Hr). unfold lengthZ. rewrite Nat2Z.id.
    rewrite length_fmap in Hrun. exact Hrun.
Qed.

(** ** Making room for the tuple *)
Lemma can_perform_room h l sp key m : node_repr ps h l → tuple_key sp = USER_KEY key → spec_message sp = m →
  still_exists sp = false →
  btree_can_perform_leaf_incorporate_spec h sp =
  Some (table_at (lengthZ l + 1) + tuple_size key m <=? next_entry h).
Proof.
  intros Hr Hk Hm Hs. unfold btree_can_perform_leaf_incorporate_spec. rewrite Hs, Hk, Hm.
  rewrite (repr_num _ _ _ _ Hr). pose proof (lengthZ_nonneg l).
  rewrite (leaf_can_set _ _ _ (lengthZ l) key m Hr ltac:(lia)), replaces_end. unfold has_room, slots_after.
  by rewrite Z.ltb_irrefl.
Qed.

(** A packed leaf with room for the tuple takes it. *)
Lemma defragment_perform h l sp key m :
  node_repr ps h l → SIZEOF_BTREE_HDR ≤ ps → tuple_fits key m → tuple_key sp = USER_KEY key → spec_message sp = m →
  0 ≤ idx sp ≤ lengthZ l → (still_exists sp = true → idx sp < lengthZ l) →
  table_at (lengthZ (without sp l.*2) + 1) + total_size (without sp l.*2) + tuple_size key m ≤ ps →
  ∃ h1 h2, btree_defragment_leaf cfg (Some sp) h = Ret (Some (detached sp), h1) ∧
    btree_try_perform_leaf_incorporate_spec (detached sp) h1 = Ret (Some (generation h), h2) ∧
    perform_result h h2 true (performed sp l.*2 (key, m)).
Proof.
  intros Hr Hps Hf Hk Hm Hi Hi' Hroom.
  destruct (defragment_run h l sp Hr Hps) as (h1 & l1 & Hrun & Hr1 & Hl1 & Hn1 & Hs1); [auto with lia|].
  destruct (detached_same sp) as (Hd & Hdk & Hdm & Hdi).
  assert (HL1 : lengthZ l1 = lengthZ (without sp l.*2)) by (rewrite <-Hl1; by rewrite lengthZ_fmap).
  destruct (without_sizes sp l.*2) as [Hlen _]; [rewrite lengthZ_fmap; auto with lia|]. rewrite lengthZ_fmap in Hlen.
  destruct (try_perform_run h1 l1 key m (detached sp) true) as (h2 & Hrun2 & Hres); try congruence.
  - rewrite Hdi, HL1, Hlen. destruct (still_exists sp); [specialize (Hi' eq_refl)|]; lia.
  - rewrite (can_perform_room _ _ _ _ _ Hr1 (eq_trans Hdk Hk) (eq_trans Hdm Hm) Hd). f_equal.
    apply Z.leb_le. rewrite HL1, Hn1. lia.
  - exists h1, h2. destruct Hs1 as (Ha & Hb & _ & Hg & Hh). rewrite Hg in Hrun2. split; [done|]. split; [done|].
    split; [done|]. intros _. destruct (proj2 Hres eq_refl) as (H1 & H2 & H3 & H4 & l2 & Hr2 & Hl2).
    split_and!; try congruence. exists l2. split; [done|]. rewrite Hl2, Hl1.
    apply performed_detached; by rewrite lengthZ_fmap.
Qed.
End incorporate.
