(* ===== verification/BtreeSplit.v ===== *)
(** * Where a leaf is split

    The splitting plan of btree.c is a cut of the tuples the leaf has after the
    new one is incorporated: the longest prefix each of whose entries lies
    mostly in the first half of the bytes. *)
From S2P Require Import Prelude Bytes DataInternal BtreeNode NodeLayout BtreeLeaf LeafMap.

(** ** Weights: the bytes of entries with their table entries *)
Definition weight (e : tuple) : Z := SIZEOF_TABLE_ENTRY + esize e.
Fixpoint total_weight (es : list tuple) : Z :=
  match es with [] => 0 | e :: es' => weight e + total_weight es' end.
(** The weight of the first [i] tuples. *)
Definition pw (es : list tuple) (i : Z) : Z := total_weight (take (Z.to_nat i) es).

Lemma weight_pos e : 8 ≤ weight e.
Proof.
  unfold weight, SIZEOF_TABLE_ENTRY. cbn. unfold tuple_size, message_length.
  pose proof (lengthZ_nonneg e.1). pose proof (lengthZ_nonneg (message_data e.2)). lia.
Qed.
Lemma total_weight_app es es' : total_weight (es ++ es') = total_weight es + total_weight es'.
Proof. induction es as [|e es IH]; cbn [total_weight app]; [done|]. rewrite IH. lia. Qed.
Lemma total_weight_nonneg es : 8 * lengthZ es ≤ total_weight es.
Proof.
  induction es as [|e es IH]; [done|]. rewrite lengthZ_cons. cbn [total_weight app]. pose proof (weight_pos e). lia.
Qed.
Lemma total_weight_size es : total_weight es = total_size es + SIZEOF_TABLE_ENTRY * lengthZ es.
Proof.
  induction es as [|e es IH]; [done|]. rewrite lengthZ_cons. cbn [total_weight total_size]. rewrite IH. unfold weight, SIZEOF_TABLE_ENTRY. lia.
Qed.
Lemma pw_0 es : pw es 0 = 0.
Proof. done. Qed.
Lemma pw_S es i e : lookupZ es i = Some e → pw es (i + 1) = pw es i + weight e.
Proof.
  intros Hi. pose proof (lookupZ_Some _ _ _ Hi). unfold pw.
  replace (Z.to_nat (i + 1)) with (S (Z.to_nat i)) by lia.
  unfold lookupZ in Hi. rewrite bool_decide_true in Hi by lia.
  rewrite (take_S_r _ _ _ Hi), total_weight_app. cbn [total_weight app]. lia.
Qed.
Lemma pw_full es : pw es (lengthZ es) = total_weight es.
Proof. unfold pw, lengthZ. rewrite Nat2Z.id, firstn_all. done. Qed.
Lemma pw_drop es i : total_weight (drop (Z.to_nat i) es) = total_weight es - pw es i.
Proof. unfold pw. rewrite <-(take_drop (Z.to_nat i) es) at 2. rewrite total_weight_app. lia. Qed.

(** ** Greedy cuts *)
Definition mostly_left (T : list tuple) (j : Z) (e : tuple) : bool :=
  most_of_entry_is_on_left_side (total_weight T) (pw T j) (esize e).
Record greedy (T : list tuple) (c : Z) : Prop := {
  greedy_range : 0 ≤ c ≤ lengthZ T;
  greedy_left j e : j < c → lookupZ T j = Some e → mostly_left T j e = true;
  greedy_stop e : lookupZ T c = Some e → mostly_left T c e = false;
}.
Lemma mostly_left_spec T j e : mostly_left T j e = true ↔ pw T j + weight e < (total_weight T + weight e) / 2.
Proof.
  unfold mostly_left, most_of_entry_is_on_left_side, weight. rewrite Z.ltb_lt.
  by rewrite <-!Z.add_assoc.
Qed.

(** Both sides of a greedy cut are non-empty and take about half of the bytes. *)
Lemma greedy_halves T c B : greedy T c → 2 ≤ lengthZ T → Forall (λ e, weight e ≤ B) T →
  0 < c < lengthZ T ∧ 2 * total_weight (take (Z.to_nat c) T) ≤ total_weight T + B ∧
  2 * total_weight (drop (Z.to_nat c) T) ≤ total_weight T + B + 1.
Proof.
  intros [Hr Hl Hs] HT HB. rewrite Forall_lookupZ in HB.
  assert (Hpos : 0 < c).
  { destruct (decide (c = 0)) as [->|]; [exfalso|lia].
    destruct T as [|e0 [|e1 T]]; [done..|]. specialize (Hs e0 (lookupZ_cons_0 _ _)).
    assert (mostly_left (e0 :: e1 :: T) 0 e0 = true); [|congruence]. apply mostly_left_spec.
    rewrite pw_0. cbn [total_weight]. pose proof (weight_pos e1). pose proof (total_weight_nonneg T).
    pose proof (lengthZ_nonneg T).
    assert (weight e0 + 1 ≤ (weight e0 + (weight e1 + total_weight T) + weight e0) / 2); [|lia].
    apply Z.div_le_lower_bound; lia. }
  destruct (proj2 (lookupZ_is_Some T (c - 1)) ltac:(lia)) as [e He].
  assert (Hc1 := Hl (c - 1) e ltac:(lia) He). apply mostly_left_spec in Hc1.
  pose proof (pw_S _ _ _ He) as Hpc. rewrite Z.sub_add in Hpc.
  pose proof (Z.mul_div_le (total_weight T + weight e) 2 ltac:(lia)).
  pose proof (HB _ _ He) as HBe. fold (pw T c). rewrite pw_drop.
  assert (Hlt : c < lengthZ T).
  { destruct (decide (c = lengthZ T)) as [->|]; [exfalso|lia]. rewrite pw_full in Hpc.
    assert (Htot : weight e ≤ total_weight T - 8).
    { destruct (decide (lengthZ T - 1 = 0)); [lia|].
      pose proof (total_weight_nonneg (take (Z.to_nat (lengthZ T - 1)) T)) as Hn.
      unfold pw in Hpc. assert (lengthZ (take (Z.to_nat (lengthZ T - 1)) T) = lengthZ T - 1)
        by (unfold lengthZ in *; rewrite length_take; lia). lia. }
    lia. }
  split; [lia|]. split; [lia|].
  destruct (proj2 (lookupZ_is_Some T c) ltac:(lia)) as [e' He'].
  assert (Hn : ¬ pw T c + weight e' < (total_weight T + weight e') / 2).
  { rewrite <-mostly_left_spec. rewrite (Hs _ He'). done. }
  pose proof (Z.div_mod (total_weight T + weight e') 2 ltac:(lia)).
  pose proof (Z.mod_pos_bound (total_weight T + weight e') 2 ltac:(lia)).
  pose proof (HB _ _ He'). lia.
Qed.

(** ** The plan of a leaf *)
Section plan.
Context (ps : Z).
Implicit Types (l : list (Z * tuple)) (h : btree_hdr) (es : list tuple).

Lemma leaf_size_run h l i e : node_repr ps h l → lookupZ l.*2 i = Some e → leaf_size_at h i = Some (esize e).
Proof.
  intros Hr Hi. rewrite lookupZ_fmap in Hi. destruct (lookupZ l i) as [[o [k m]]|] eqn:Hl; [|done].
  injection Hi as <-. by destruct (leaf_get _ _ _ _ _ _ _ Hr Hl) as (_ & ? & _).
Qed.

Lemma plan_move_run fuel h l max total left split :
  node_repr ps h l → 0 ≤ split ≤ max → max ≤ lengthZ l → (Z.to_nat (max - split) < fuel)%nat →
  ∃ split', plan_move_more_entries_to_left fuel max total left split h
      = Ret ((left + (pw l.*2 split' - pw l.*2 split), split'), h) ∧
    split ≤ split' ≤ max ∧
    (∀ j e, split ≤ j < split' → lookupZ l.*2 j = Some e →
       most_of_entry_is_on_left_side total (left + (pw l.*2 j - pw l.*2 split)) (esize e) = true) ∧
    (∀ e, split' < max → lookupZ l.*2 split' = Some e →
       most_of_entry_is_on_left_side total (left + (pw l.*2 split' - pw l.*2 split)) (esize e) = false).
Proof.
  intros Hr. revert left split. induction fuel as [|fuel IH]; intros left split Hs Hm Hf; [lia|].
  cbn [plan_move_more_entries_to_left]. destruct (Z.ltb_spec split max) as [Hlt|Hge]; cbn [negb].
  - destruct (proj2 (lookupZ_is_Some l.*2 split)) as [e He]; [rewrite lengthZ_fmap; lia|].
    rewrite run_get, (run_opt _ _ _ _ (leaf_size_run _ _ _ _ Hr He)).
    destruct (most_of_entry_is_on_left_side total left (esize e)) eqn:Hmost; cbn [negb].
    + destruct (IH (left + (SIZEOF_TABLE_ENTRY + esize e)) (split + 1)) as (s' & Hrun & Hb & Hl & Hst); [lia..|].
      pose proof (pw_S _ _ _ He) as Hp. unfold weight in Hp. rewrite Hp in *.
      exists s'. split; [rewrite Hrun; do 3 f_equal; lia|]. split; [lia|]. split.
      * intros j e' Hj He'. destruct (decide (j = split)) as [->|].
        -- rewrite Z.sub_diag, Z.add_0_r. rewrite He in He'. by injection He' as <-.
        -- rewrite <-(Hl j e') by (done || lia). f_equal. lia.
      * intros e' Hs' He'. rewrite <-(Hst e') by done. f_equal. lia.
    + exists split. rewrite Z.sub_diag, Z.add_0_r. split; [done|]. split; [lia|]. split; [lia|].
      intros e' _ He'. rewrite He in He'. by injection He' as <-.
  - exists split. rewrite Z.sub_diag, Z.add_0_r. split; [done|]. split; [lia|]. split; lia.
Qed.

Lemma leaf_live_run h l sp : node_repr ps h l → (still_exists sp = true → 0 ≤ idx sp < lengthZ l) →
  leaf_live_bytes h (Z.to_nat (num_entries h)) 0 sp = Some (total_size (without sp l.*2)).
Proof.
  intros Hr Hi. rewrite (repr_num _ _ _ _ Hr).
  assert (Hi' : still_exists sp = true → 0 ≤ idx sp < lengthZ l.*2) by (intros ?; rewrite lengthZ_fmap; auto).
  destruct (kept_without sp l.*2 Hi') as [<- _].
  assert (Hgen : ∀ es i spx, (∀ j e, lookupZ es j = Some e → leaf_size_at h (i + j) = Some (esize e)) →
    (spx = Some sp ∨ (∀ j, i ≤ j → removes (Some sp) j = false) ∧ ∀ j, removes spx j = false) →
    leaf_live_bytes h (length es) i sp = Some (total_size (kept spx i es))).
  { intros es. induction es as [|e es IH]; intros i spx Hsz Hsp; [done|].
    assert (Hrem : removes spx i = removes (Some sp) i).
    { destruct Hsp as [->|[H1 H2]]; [done|]. by rewrite H1, H2. }
    pose proof (Hsz 0 e eq_refl) as He. rewrite Z.add_0_r in He.
    assert (Htl : ∀ j e0, lookupZ es j = Some e0 → leaf_size_at h (i + 1 + j) = Some (esize e0)).
    { intros j e0 Hj. rewrite <-Z.add_assoc. apply Hsz. pose proof (lookupZ_Some _ _ _ Hj).
      rewrite lookupZ_cons_S by lia. rewrite <-Hj. f_equal. lia. }
    cbn [leaf_live_bytes length kept]. rewrite Hrem. cbn [removes].
    rewrite He. destruct (still_exists sp) eqn:Hst, (Z.eqb_spec (idx sp) i) as [Heq|Hne], (Z.eqb_spec i (idx sp));
      cbn [negb andb orb mbind option_bind]; try lia.
    1: { rewrite (IH (i + 1) (removed spx) Htl); [done|]. right. split; [|intros; apply removes_removed].
      intros j Hj. cbn. rewrite Hst. apply Z.eqb_neq. lia. }
    all: (rewrite (IH (i + 1) spx Htl); [done|]; destruct Hsp as [->|[H1 H2]]; [by left|right];
      split; [intros; apply H1; lia|done]). }
  replace (Z.to_nat (lengthZ l)) with (length l.*2) by (unfold lengthZ; rewrite length_fmap; lia).
  apply Hgen; [|by left]. intros j e Hj. rewrite Z.add_0_l. by apply (leaf_size_run h l).
Qed.

(** The tuples after the incorporation, around the new one. *)
Definition after_old (sp : leaf_incorporate_spec) : Z := idx sp + (if still_exists sp then 1 else 0).
Lemma performed_split sp es x : 0 ≤ idx sp ≤ lengthZ es → (still_exists sp = true → idx sp < lengthZ es) →
  performed sp es x = take (Z.to_nat (idx sp)) es ++ x :: drop (Z.to_nat (after_old sp)) es.
Proof.
  unfold performed, after_old. intros Hi Hs. destruct (still_exists sp).
  - unfold insertZ. rewrite bool_decide_true by lia. specialize (Hs eq_refl).
    rewrite insert_take_drop by (unfold lengthZ in *; lia).
    do 3 f_equal. lia.
  - by rewrite Z.add_0_r.
Qed.

(** The place of the cut among the tuples after the incorporation. *)
Definition cut (sp : leaf_incorporate_spec) (plan : leaf_splitting_plan) : Z :=
  split_idx plan + (if insertion_goes_left plan && negb (still_exists sp) then 1 else 0).

Section around.
Context (es : list tuple) (x : tuple) (sp : leaf_incorporate_spec).
Context (Hi : 0 ≤ idx sp ≤ lengthZ es) (Hs : still_exists sp = true → idx sp < lengthZ es).
Local Abbreviation T := (performed sp es x).

Lemma after_old_range : idx sp ≤ after_old sp ≤ lengthZ es.
Proof using Hi Hs. unfold after_old. destruct (still_exists sp); [specialize (Hs eq_refl)|]; lia. Qed.
Lemma length_take_idx : lengthZ (take (Z.to_nat (idx sp)) es) = idx sp.
Proof using Hi. unfold lengthZ in *. rewrite length_take. lia. Qed.
Lemma lookup_low j : j < idx sp → lookupZ T j = lookupZ es j.
Proof using Hi Hs.
  intros Hj. rewrite performed_split by done. rewrite lookupZ_app, length_take_idx.
  rewrite bool_decide_true by done. rewrite lookupZ_take. by rewrite bool_decide_true by lia.
Qed.
Lemma lookup_new : lookupZ T (idx sp) = Some x.
Proof using Hi Hs.
  rewrite performed_split by done. rewrite lookupZ_app, length_take_idx.
  rewrite bool_decide_false by lia. by rewrite Z.sub_diag.
Qed.
Lemma lookup_high j : after_old sp ≤ j → lookupZ T (j - after_old sp + idx sp + 1) = lookupZ es j.
Proof using Hi Hs.
  intros Hj. rewrite performed_split by done. rewrite lookupZ_app, length_take_idx.
  rewrite bool_decide_false by lia. pose proof after_old_range. rewrite lookupZ_cons_S by lia.
  rewrite lookupZ_drop by lia. f_equal. lia.
Qed.
Lemma length_performed : lengthZ T = lengthZ es - after_old sp + idx sp + 1.
Proof using Hi Hs.
  rewrite performed_split by done. rewrite lengthZ_app, lengthZ_cons, length_take_idx.
  pose proof after_old_range. unfold lengthZ in *. rewrite length_drop. lia.
Qed.
Lemma pw_low j : j ≤ idx sp → pw T j = pw es j.
Proof using Hi Hs.
  intros Hj. unfold pw. rewrite performed_split by done. pose proof length_take_idx as HL.
  rewrite take_app_le by (unfold lengthZ in *; lia). rewrite take_take.
  do 2 f_equal. lia.
Qed.
Lemma pw_high j : after_old sp ≤ j →
  pw T (j - after_old sp + idx sp + 1) = pw es (idx sp) + weight x + (pw es j - pw es (after_old sp)).
Proof using Hi Hs.
  intros Hj. pose proof after_old_range. unfold pw. rewrite performed_split by done.
  pose proof length_take_idx as HL. rewrite take_app_ge by (unfold lengthZ in *; lia).
  assert (Hn : (Z.to_nat (j - after_old sp + idx sp + 1) - length (take (Z.to_nat (idx sp)) es))%nat =
    S (Z.to_nat (j - after_old sp))) by (unfold lengthZ in *; lia).
  rewrite Hn, total_weight_app. cbn [take total_weight].
  rewrite <-(take_drop (Z.to_nat (after_old sp)) (take (Z.to_nat j) es)), total_weight_app.
  rewrite take_take, skipn_firstn_comm.
  replace (Init.Nat.min (Z.to_nat (after_old sp)) (Z.to_nat j)) with (Z.to_nat (after_old sp)) by lia.
  replace (Z.to_nat j - Z.to_nat (after_old sp))%nat with (Z.to_nat (j - after_old sp)) by lia. lia.
Qed.
Lemma total_performed :
  total_weight T = esize x + total_size (without sp es) + (lengthZ es + (if still_exists sp then 0 else 1)) * SIZEOF_TABLE_ENTRY.
Proof using Hi Hs.
  rewrite <-(performed_detached sp es x) by done.
  destruct (detached_same sp) as (Hd & _ & _ & Hdi). unfold performed. rewrite Hd, Hdi.
  destruct (without_sizes sp es) as [HL _]; [auto with lia|].
  rewrite total_weight_size, lengthZ_insert_at, HL. unfold insert_at.
  rewrite total_size_app. cbn [total_size].
  rewrite <-(take_drop (Z.to_nat (idx sp)) (without sp es)) at 3. rewrite total_size_app.
  unfold SIZEOF_TABLE_ENTRY. destruct (still_exists sp); lia.
Qed.
End around.

Lemma plan_run h l key m sp : node_repr ps h l →
  tuple_key sp = USER_KEY key → spec_message sp = m →
  0 ≤ idx sp ≤ lengthZ l → (still_exists sp = true → idx sp < lengthZ l) →
  ∃ plan, btree_build_leaf_splitting_plan sp h = Ret (plan, h) ∧
    greedy (performed sp l.*2 (key, m)) (cut sp plan) ∧
    (if insertion_goes_left plan then after_old sp ≤ split_idx plan ≤ lengthZ l else 0 ≤ split_idx plan ≤ idx sp).
Proof.
  intros Hr Hk Hm Hi Hs. set (es := l.*2). set (x := (key, m)).
  assert (HL : lengthZ es = lengthZ l) by apply lengthZ_fmap.
  assert (Hi' : 0 ≤ idx sp ≤ lengthZ es) by lia.
  assert (Hs' : still_exists sp = true → idx sp < lengthZ es) by (intros; rewrite HL; auto).
  pose proof (after_old_range es sp Hi' Hs') as Ha.
  pose proof (length_performed es x sp Hi' Hs') as HlenT.
  pose proof (total_performed es x sp Hi' Hs') as Htot.
  unfold btree_build_leaf_splitting_plan. rewrite run_get.
  rewrite (run_opt _ _ _ _ (leaf_live_run h l sp Hr ltac:(auto with lia))).
  rewrite Hk, Hm, leaf_required, (repr_num _ _ _ _ Hr). change (tuple_size key m) with (esize x).
  fold es. rewrite <-HL. cbv zeta. rewrite <-Htot. set (T := performed sp es x) in *.
  assert (Hfuel : ∀ z, z ≤ lengthZ l → (Z.to_nat z < search_fuel h)%nat).
  { intros z Hz. unfold search_fuel. rewrite (repr_num _ _ _ _ Hr). lia. }
  destruct (plan_move_run (search_fuel h) h l (idx sp) (total_weight T) 0 0 Hr)
    as (s1 & Hrun1 & Hb1 & Hl1 & Hst1); [lia..|apply Hfuel; lia|].
  fold es in Hrun1, Hl1, Hst1. rewrite (bind_run _ _ _ _ _ Hrun1). cbn beta iota.
  rewrite pw_0 in *. rewrite Z.sub_0_r, Z.add_0_l in *.
  assert (Hlow : ∀ j e, j < s1 → lookupZ T j = Some e → mostly_left T j e = true).
  { intros j e Hj He. pose proof (lookupZ_Some _ _ _ He). unfold T in He. rewrite lookup_low in He by (done || lia).
    unfold mostly_left, T at 2. rewrite pw_low by (done || lia).
    pose proof (Hl1 j e ltac:(lia) He) as Hl. by rewrite Z.sub_0_r, Z.add_0_l in Hl. }
  destruct ((s1 =? idx sp) && most_of_entry_is_on_left_side (total_weight T) (pw es s1) (esize x)) eqn:Hgo.
  - apply andb_true_iff in Hgo as [->%Z.eqb_eq Hmost].
    fold (after_old sp). replace (if still_exists sp then idx sp + 1 else idx sp) with (after_old sp)
      by (unfold after_old; destruct (still_exists sp); lia).
    destruct (plan_move_run (search_fuel h) h l (lengthZ es) (total_weight T)
      (pw es (idx sp) + weight x) (after_old sp) Hr) as (s2 & Hrun2 & Hb2 & Hl2 & Hst2); [lia..|apply Hfuel; lia|].
    fold es in Hrun2, Hl2, Hst2. unfold weight in Hrun2. rewrite (bind_run _ _ _ _ _ Hrun2). fold (weight x) in Hrun2.
    eexists. split; [done|]. cbn [snd insertion_goes_left split_idx]. split; [|lia].
    assert (Hcut : cut sp (mk_plan s2 true) = s2 - after_old sp + idx sp + 1).
    { unfold cut, after_old. cbn. destruct (still_exists sp); cbn; lia. }
    rewrite Hcut. split.
    + rewrite HlenT. lia.
    + intros j e Hj He. destruct (Z.lt_trichotomy j (idx sp)) as [?|[->|?]].
      * by apply Hlow.
      * unfold T in He. rewrite lookup_new in He by done. injection He as <-.
        unfold mostly_left, T at 2. by rewrite pw_low by (done || lia).
      * replace j with (j - 1 - idx sp + after_old sp - after_old sp + idx sp + 1) in * by lia.
        set (j' := j - 1 - idx sp + after_old sp) in *. unfold T in He. rewrite lookup_high in He by (done || lia).
        unfold mostly_left, T at 2. rewrite pw_high by (done || lia). apply Hl2; [lia|done].
    + intros e He. unfold T in He. rewrite lookup_high in He by (done || lia).
      unfold mostly_left, T at 2. rewrite pw_high by (done || lia). apply Hst2; [|done].
      pose proof (lookupZ_Some _ _ _ He). lia.
  - exists (mk_plan s1 false). split; [done|]. cbn [snd insertion_goes_left split_idx]. split; [|lia].
    assert (Hcut : cut sp (mk_plan s1 false) = s1) by (unfold cut; cbn; lia). rewrite Hcut.
    split; [lia|done|]. intros e He. unfold mostly_left, T at 2. rewrite pw_low by (done || lia).
    apply andb_false_iff in Hgo. destruct (decide (s1 = idx sp)) as [->|].
    + unfold T in He. rewrite lookup_new in He by done. injection He as <-.
      destruct Hgo as [Hgo|Hgo]; [by rewrite Z.eqb_refl in Hgo|done].
    + unfold T in He. rewrite lookup_low in He by (done || lia). by apply Hst1; [lia|].
Qed.
End plan.

(** * Splitting a leaf

    The right node a split builds and the left node it leaves hold the two
    sides of the plan's cut. *)
(** ** The two sides of the cut *)
Section sides.
Context (es : list tuple) (x : tuple) (sp : leaf_incorporate_spec) (plan : leaf_splitting_plan).
Context (Hi : 0 ≤ idx sp ≤ lengthZ es) (Hs : still_exists sp = true → idx sp < lengthZ es).
Context (Hplan : if insertion_goes_left plan then after_old sp ≤ split_idx plan ≤ lengthZ es
                 else 0 ≤ split_idx plan ≤ idx sp).
Local Abbreviation T := (performed sp es x).
Local Abbreviation split := (split_idx plan).

(** [sp] relative to the right node. *)
Definition shifted : leaf_incorporate_spec := set_idx (idx sp - split) sp.

Lemma split_range : 0 ≤ split ≤ lengthZ es.
Proof using Hi Hs Hplan.
  pose proof (after_old_range es sp Hi Hs). destruct (insertion_goes_left plan); lia.
Qed.
Lemma drop_left : insertion_goes_left plan = true → drop (Z.to_nat (cut sp plan)) T = drop (Z.to_nat split) es.
Proof using Hi Hs Hplan.
  intros Hg. rewrite Hg in Hplan. pose proof (after_old_range es sp Hi Hs).
  rewrite performed_split by done. pose proof (length_take_idx es sp Hi) as HL.
  assert (Hc : cut sp plan = split - after_old sp + idx sp + 1).
  { unfold cut, after_old. rewrite Hg. destruct (still_exists sp); cbn; lia. }
  rewrite Hc, drop_app_ge by (unfold lengthZ in *; lia).
  replace (Z.to_nat (split - after_old sp + idx sp + 1) - length (take (Z.to_nat (idx sp)) es))%nat
    with (S (Z.to_nat (split - after_old sp))) by (unfold lengthZ in *; lia).
  cbn [drop]. rewrite drop_drop. f_equal. lia.
Qed.
Lemma take_left : insertion_goes_left plan = true →
  take (Z.to_nat (cut sp plan)) T = performed sp (take (Z.to_nat split) es) x.
Proof using Hi Hs Hplan.
  intros Hg. rewrite Hg in Hplan. pose proof (after_old_range es sp Hi Hs).
  assert (Hlen : lengthZ (take (Z.to_nat split) es) = split) by (unfold lengthZ in *; rewrite length_take; lia).
  rewrite (performed_split sp es x) by done.
  rewrite (performed_split sp (take (Z.to_nat split) es) x);
    [|lia|unfold after_old in *; intros E; rewrite E in *; lia].
  pose proof (length_take_idx es sp Hi) as HL.
  assert (Hc : cut sp plan = split - after_old sp + idx sp + 1).
  { unfold cut, after_old. rewrite Hg. destruct (still_exists sp); cbn; lia. }
  rewrite Hc, take_app_ge by (unfold lengthZ in *; lia).
  replace (Z.to_nat (split - after_old sp + idx sp + 1) - length (take (Z.to_nat (idx sp)) es))%nat
    with (S (Z.to_nat (split - after_old sp))) by (unfold lengthZ in *; lia).
  cbn [take]. rewrite take_take, skipn_firstn_comm. f_equal.
  - f_equal. lia.
  - do 2 f_equal. lia.
Qed.
Lemma take_right : insertion_goes_left plan = false → take (Z.to_nat (cut sp plan)) T = take (Z.to_nat split) es.
Proof using Hi Hs Hplan.
  intros Hg. rewrite Hg in Hplan. rewrite performed_split by done. unfold cut. rewrite Hg. cbn [andb].
  rewrite Z.add_0_r. rewrite take_app_le.
  - rewrite take_take. f_equal. lia.
  - pose proof (length_take_idx es sp Hi). unfold lengthZ in *. lia.
Qed.
Lemma drop_right : insertion_goes_left plan = false →
  drop (Z.to_nat (cut sp plan)) T = performed shifted (drop (Z.to_nat split) es) x.
Proof using Hi Hs Hplan.
  intros Hg. rewrite Hg in Hplan. pose proof (after_old_range es sp Hi Hs).
  assert (Hlen : lengthZ (drop (Z.to_nat split) es) = lengthZ es - split) by (unfold lengthZ in *; rewrite length_drop; lia).
  rewrite (performed_split sp es x) by done.
  rewrite (performed_split shifted (drop (Z.to_nat split) es) x); cbn [idx shifted set_idx];
    [|lia|change (still_exists shifted) with (still_exists sp); intros E; specialize (Hs E); cbn; lia].
  assert (Hc : cut sp plan = split) by (unfold cut; rewrite Hg; cbn; lia). rewrite Hc.
  pose proof (length_take_idx es sp Hi) as HL. rewrite drop_app_le by (unfold lengthZ in *; lia).
  rewrite skipn_firstn_comm, drop_drop. f_equal.
  - f_equal. unfold shifted. cbn. lia.
  - do 2 f_equal. unfold after_old. change (still_exists shifted) with (still_exists sp). unfold shifted. cbn.
    destruct (still_exists sp); lia.
Qed.
End sides.

(** Keys and messages within the sizes btree.h allows inline. *)
Definition inline_sized (ps : Z) (e : tuple) : Prop :=
  lengthZ e.1 ≤ MAX_INLINE_KEY_SIZE ps ∧ message_length e.2 ≤ MAX_INLINE_MESSAGE_SIZE ps.

Section split_leaf.
Context (cfg : btree_config) `{!key_order (bt_data_cfg cfg)}.
Local Abbreviation ps := (btree_page_size cfg).
Implicit Types (l : list (Z * tuple)) (h : btree_hdr) (es : list tuple).

(** A page of at least 1080 bytes has room for either half of a leaf and one more tuple. *)
Lemma halves_fit h l T c : node_repr ps h l → 1080 ≤ ps → Forall (inline_sized ps) T →
  (∃ x, inline_sized ps x ∧ total_weight T ≤ total_weight l.*2 + weight x) →
  2 ≤ lengthZ T → greedy T c →
  0 < c < lengthZ T ∧
  SIZEOF_BTREE_HDR + total_weight (take (Z.to_nat c) T) ≤ ps ∧
  SIZEOF_BTREE_HDR + total_weight (drop (Z.to_nat c) T) ≤ ps.
Proof.
  intros Hr Hps HT (x & Hx & Htot) HlT Hg. unfold inline_sized, MAX_INLINE_KEY_SIZE, MAX_INLINE_MESSAGE_SIZE in *.
  set (B := 8 + ps / 8 + 35 * ps / 100).
  assert (HB : ∀ e : tuple, lengthZ e.1 ≤ ps / 8 ∧ message_length e.2 ≤ 35 * ps / 100 → weight e ≤ B).
  { intros e He. unfold weight, B, SIZEOF_TABLE_ENTRY. cbn. unfold tuple_size. lia. }
  destruct (greedy_halves T c B Hg HlT) as (Hc & Hl & Hrt).
  { eapply list.Forall_impl; [exact HT|]. exact HB. }
  split; [done|]. pose proof (repr_live_size _ _ _ Hr) as Hlive. rewrite live_size_total in Hlive.
  pose proof (repr_table _ _ _ _ Hr) as Ht. pose proof (total_weight_size l.*2) as Hw. rewrite lengthZ_fmap in Hw.
  pose proof (HB x Hx). unfold B in *. pose proof (Z.mul_div_le ps 8 ltac:(lia)).
  pose proof (Z.mul_div_le (35 * ps) 100 ltac:(lia)). table_lia.
Qed.

Lemma weight_fits es : SIZEOF_BTREE_HDR + total_weight es = table_at (lengthZ es) + total_size es.
Proof. rewrite total_weight_size. table_lia. Qed.

Lemma holds_tuples_from h l n : node_repr ps h l → 0 ≤ n → holds_tuples h n (drop (Z.to_nat n) l.*2).
Proof.
  intros Hr Hn. apply (holds_tuples_drop h 0); [done|]. apply (repr_holds_tuples ps h l Hr).
Qed.

Lemma kept_from sp i es : 0 ≤ i → (still_exists sp = true → i ≤ idx sp < i + lengthZ es) →
  kept (Some sp) i es = without (set_idx (idx sp - i) sp) es ∧
  after_copy (Some sp) i (length es) = Some (detached sp).
Proof.
  intros Hi Hs. unfold without, detached. change (still_exists (set_idx (idx sp - i) sp)) with (still_exists sp).
  destruct (still_exists sp) eqn:E.
  - apply kept_one; auto.
  - apply kept_all. intros j _. cbn. by rewrite E.
Qed.
Lemma kept_beyond sp i es : idx sp < i ∨ still_exists sp = false →
  kept (Some sp) i es = es ∧ after_copy (Some sp) i (length es) = Some sp.
Proof.
  intros H. apply kept_all. intros j Hj. cbn. destruct (still_exists sp); [|done].
  destruct H as [?|?]; [|done]. cbn. apply Z.eqb_neq. lia.
Qed.

(** The copy of the entries from [split] on to the emptied right node. *)
Lemma copy_right_run h l r sp n kp sp' :
  node_repr ps h l → lengthZ (page r) = ps → SIZEOF_BTREE_HDR ≤ ps → 0 ≤ n ≤ lengthZ l →
  kept (Some sp) n (drop (Z.to_nat n) l.*2) = kp →
  after_copy (Some sp) n (length (drop (Z.to_nat n) l.*2)) = Some sp' →
  SIZEOF_BTREE_HDR + total_weight kp ≤ ps →
  ∃ r' lr, copy_leaf_entries (Z.to_nat (num_entries h - n)) h n 0 (Some sp) (btree_reset_node_entries cfg r)
      = Ret (Some sp', r') ∧ node_repr ps r' lr ∧ lr.*2 = kp ∧
    next_entry r' = ps - total_size kp ∧ same_links r r'.
Proof.
  intros Hr HL Hps Hn Hk Ha Hfit. rewrite (repr_num _ _ _ _ Hr). pose proof (repr_width _ _ _ _ Hr) as Hw.
  unfold SIZEOF_BTREE_HDR in Hps.
  assert (Hne : next_entry (btree_reset_node_entries cfg r) = ps) by (cbn; apply u16_small; lia).
  destruct (copy_leaf_run ps (drop (Z.to_nat n) l.*2) h n (Some sp) (btree_reset_node_entries cfg r) [])
    as (r' & lr & Hrun & Hr' & Hl' & Hn' & Hs').
  - apply (holds_tuples_from h l n Hr). lia.
  - apply repr_empty; [done|done|done|unfold SIZEOF_BTREE_HDR; lia].
  - rewrite Hk, Hne. change (lengthZ []) with 0. rewrite weight_fits in Hfit.
    rewrite Z.add_0_l. exact Hfit.
  - exists r', lr. rewrite Hk, Hne in *. rewrite Ha in Hrun. split_and!; try done.
    replace (Z.to_nat (lengthZ l - n)) with (length (drop (Z.to_nat n) l.*2)); [done|].
    rewrite length_drop, length_fmap. unfold lengthZ. lia.
Qed.

(** ** The right node *)
Section right.
Context (h : btree_hdr) (l : list (Z * tuple)) (sp : leaf_incorporate_spec) (plan : leaf_splitting_plan).
Context (key : list Z) (m : message).
Local Abbreviation es := (l.*2).
Local Abbreviation T := (performed sp es (key, m)).
Context (Hr : node_repr ps h l) (Hps : SIZEOF_BTREE_HDR ≤ ps) (Hf : tuple_fits key m).
Context (Hk : tuple_key sp = USER_KEY key) (Hm : spec_message sp = m).
Context (Hi : 0 ≤ idx sp ≤ lengthZ es) (Hs : still_exists sp = true → idx sp < lengthZ es).
Context (Hplan : if insertion_goes_left plan then after_old sp ≤ split_idx plan ≤ lengthZ es
                 else 0 ≤ split_idx plan ≤ idx sp).
Local Abbreviation split := (split_idx plan).

(** The header of the right node before entries are copied to it. *)
Definition right_start (r : btree_hdr) (left_addr : Z) : btree_hdr :=
  set_prev_addr left_addr (incr_generation (set_page (page r) h)).

Lemma right_spec_detached : set_idx (idx (detached sp) - split) (detached sp) = detached (shifted sp plan).
Proof. unfold detached, shifted, still_exists. cbn. by case_bool_decide. Qed.

Lemma build_right_keeps r left_addr : lengthZ (page r) = ps → insertion_goes_left plan = true →
  SIZEOF_BTREE_HDR + total_weight (drop (Z.to_nat (cut sp plan)) T) ≤ ps →
  ∃ r' lr, btree_split_leaf_build_right_node cfg h left_addr sp plan r = Ret ((sp, None), r') ∧
    node_repr ps r' lr ∧ lr.*2 = drop (Z.to_nat (cut sp plan)) T ∧ same_links (right_start r left_addr) r'.
Proof using Hr Hps Hi Hs Hplan.
  intros HL Hg Hroom. rewrite (drop_left es (key, m) sp plan Hi Hs Hplan Hg) in *.
  pose proof (split_range es sp plan Hi Hs Hplan) as Hsr. rewrite Hg in Hplan.
  destruct (kept_beyond sp split (drop (Z.to_nat split) es)) as [Hk' Ha].
  { unfold after_old in Hplan. destruct (still_exists sp); [left; lia|by right]. }
  assert (Hn : 0 ≤ split ≤ lengthZ l) by (rewrite lengthZ_fmap in Hsr; lia).
  destruct (copy_right_run h l (right_start r left_addr) sp split _ _ Hr HL Hps Hn Hk' Ha Hroom)
    as (r' & lr & Hrun & Hr' & Hl' & _ & Hs').
  exists r', lr. split; [|done]. unfold btree_split_leaf_build_right_node.
  rewrite run_get, run_put, !run_mod, (bind_run _ _ _ _ _ Hrun), Hg. done.
Qed.

Lemma build_right_inserts r left_addr : lengthZ (page r) = ps → insertion_goes_left plan = false →
  SIZEOF_BTREE_HDR + total_weight (drop (Z.to_nat (cut sp plan)) T) ≤ ps →
  ∃ r' lr, btree_split_leaf_build_right_node cfg h left_addr sp plan r =
      Ret ((detached (shifted sp plan), Some (u64 (generation h + 1))), r') ∧
    node_repr ps r' lr ∧ lr.*2 = drop (Z.to_nat (cut sp plan)) T ∧
    prev_addr r' = left_addr ∧ next_addr r' = next_addr h ∧ height r' = height h.
Proof using Hr Hps Hf Hk Hm Hi Hs Hplan.
  intros HL Hg Hroom. rewrite (drop_right es (key, m) sp plan Hi Hs Hplan Hg) in *.
  pose proof (split_range es sp plan Hi Hs Hplan) as Hsr. rewrite Hg in Hplan.
  assert (HlenD : lengthZ (drop (Z.to_nat split) es) = lengthZ es - split)
    by (unfold lengthZ in *; rewrite length_drop; lia).
  set (shs := shifted sp plan) in *. set (D := drop (Z.to_nat split) es) in *.
  assert (Hst : still_exists shs = still_exists sp) by done.
  assert (His : 0 ≤ idx shs ≤ lengthZ D) by (cbn; lia).
  assert (Hss : still_exists shs = true → idx shs < lengthZ D) by (cbn; intros E; specialize (Hs E); lia).
  destruct (kept_from sp split D) as [Hk' Ha]; [lia|intros E; specialize (Hs E); lia|].
  change (set_idx (idx sp - split) sp) with shs in Hk'. rewrite (total_performed D (key, m) shs His Hss) in Hroom.
  destruct (without_sizes shs D) as [HlW _]; [auto with lia|].
  pose proof (tuple_size_pos key m). change (esize (key, m)) with (tuple_size key m) in Hroom.
  assert (Hn : 0 ≤ split ≤ lengthZ l) by (rewrite lengthZ_fmap in Hsr; lia).
  destruct (copy_right_run h l (right_start r left_addr) sp split _ _ Hr HL Hps Hn Hk' Ha)
    as (r1 & lr & Hrun & Hr1 & Hl1 & Hn1 & Hs1).
  { rewrite total_weight_size, HlW. destruct (still_exists shs); table_lia. }
  destruct (detached_same shs) as (Hd & Hdk & Hdm & Hdi).
  assert (HL1 : lengthZ lr = lengthZ (without shs D)) by (rewrite <-Hl1; by rewrite lengthZ_fmap).
  destruct (try_perform_run cfg r1 lr key m (detached shs) true) as (r2 & Hrun2 & Hres);
    [done|done|by rewrite Hdk|by rewrite Hdm| |by rewrite Hd| |].
  { rewrite Hdi, HL1, HlW. destruct (still_exists shs); [specialize (Hss eq_refl)|]; lia. }
  { rewrite (can_perform_room cfg r1 lr (detached shs) key m) by (done || by rewrite ?Hdk, ?Hdm).
    f_equal. apply Z.leb_le. rewrite HL1, HlW, Hn1. destruct (still_exists shs); table_lia. }
  destruct (proj2 Hres eq_refl) as (_ & Hnx & Hpv & Hht & l2 & Hr2 & Hl2).
  destruct Hs1 as (Hp1 & Hx1 & _ & Hg1 & Hh1). cbn in Hp1, Hx1, Hh1. exists r2, l2. split.
  - unfold btree_split_leaf_build_right_node.
    rewrite run_get, run_put, !run_mod, (bind_run _ _ _ _ _ Hrun), Hg. cbn [negb].
    rewrite (run_opt _ _ _ _ eq_refl), right_spec_detached. fold shs.
    rewrite (bind_run _ _ _ _ _ Hrun2). rewrite Hg1. done.
  - split; [done|]. split; [|split_and!; congruence].
    rewrite Hl2, Hl1. by apply performed_detached.
Qed.

(** ** The left node *)
Lemma truncate_run h0 l0 n : node_repr ps h0 l0 → 0 ≤ n ≤ lengthZ l0 →
  ∃ h', btree_truncate_leaf cfg n h0 = Ret (tt, h') ∧ node_repr ps h' (take (Z.to_nat n) l0) ∧ same_links h0 h'.
Proof.
  intros Hr0 Hn. destruct (repr_truncate ps h0 l0 n Hr0 Hn) as (o & Ho & _ & Hr').
  exists (set_next_entry o (set_num_entries n h0)). split; [|done].
  unfold btree_truncate_leaf. rewrite run_get, (run_opt _ _ _ _ Ho). done.
Qed.

(** The left node after the cut, its links and generation updated. *)
Lemma cut_left_run right_addr (k : N leaf_incorporate_spec) :
  ∃ h', (mmod (set_next_addr right_addr);; btree_truncate_leaf cfg split;; mmod incr_generation;; k) h = k h' ∧
    node_repr ps h' (take (Z.to_nat split) l) ∧
    next_addr h' = right_addr ∧ prev_addr h' = prev_addr h ∧ height h' = height h ∧
    generation h' = u64 (generation h + 1).
Proof using Hr Hi Hs Hplan.
  pose proof (split_range es sp plan Hi Hs Hplan) as Hsr. rewrite lengthZ_fmap in Hsr.
  destruct (truncate_run (set_next_addr right_addr h) l split) as (h1 & Hrun & Hr1 & Ha & Hb & _ & Hg & Hh).
  { by eapply repr_same_page; [..|exact Hr]. } { done. }
  exists (incr_generation h1). rewrite run_mod, (bind_run _ _ _ _ _ Hrun), run_mod. split; [done|].
  split; [by eapply repr_same_page; [..|exact Hr1]|]. cbn in *. split_and!; congruence.
Qed.

Lemma cleanup_left_stays right_addr sp' : insertion_goes_left plan = false →
  ∃ h' l', btree_split_leaf_cleanup_left_node cfg sp' plan right_addr h = Ret (sp', h') ∧
    node_repr ps h' l' ∧ l'.*2 = take (Z.to_nat (cut sp plan)) T ∧
    next_addr h' = right_addr ∧ prev_addr h' = prev_addr h ∧ height h' = height h.
Proof using Hr Hi Hs Hplan.
  intros Hg. rewrite (take_right es (key, m) sp plan Hi Hs Hplan Hg).
  unfold btree_split_leaf_cleanup_left_node.
  destruct (cut_left_run right_addr (h0 ← mget; if insertion_goes_left plan then
    can ← mopt (btree_can_perform_leaf_incorporate_spec h0 sp');
    if negb can then sp'' ← btree_defragment_leaf cfg (Some sp'); mopt sp'' else mret sp'
  else mret sp')) as (h1 & -> & Hr1 & Hn & Hp & Hh & _).
  exists h1, (take (Z.to_nat split) l). rewrite run_get, Hg. split; [done|]. split; [done|].
  split; [|done]. apply fmap_take.
Qed.

Lemma cleanup_left_inserts right_addr : insertion_goes_left plan = true →
  SIZEOF_BTREE_HDR + total_weight (take (Z.to_nat (cut sp plan)) T) ≤ ps →
  ∃ sp2 h1 h2 l2 g, btree_split_leaf_cleanup_left_node cfg sp plan right_addr h = Ret (sp2, h1) ∧
    btree_try_perform_leaf_incorporate_spec sp2 h1 = Ret (Some g, h2) ∧
    node_repr ps h2 l2 ∧ l2.*2 = take (Z.to_nat (cut sp plan)) T ∧
    next_addr h2 = right_addr ∧ prev_addr h2 = prev_addr h ∧ height h2 = height h ∧
    g = u64 (generation h + 1) ∧ (sp2 = sp ∨ sp2 = detached sp).
Proof using Hr Hps Hf Hk Hm Hi Hs Hplan.
  intros Hg Hroom. rewrite (take_left es (key, m) sp plan Hi Hs Hplan Hg) in *.
  pose proof (split_range es sp plan Hi Hs Hplan) as Hsr.
  unfold btree_split_leaf_cleanup_left_node.
  destruct (cut_left_run right_addr (h0 ← mget; if insertion_goes_left plan then
    can ← mopt (btree_can_perform_leaf_incorporate_spec h0 sp);
    if negb can then sp'' ← btree_defragment_leaf cfg (Some sp); mopt sp'' else mret sp
  else mret sp)) as (h1 & -> & Hr1 & Hn & Hp & Hh & Hgen). rewrite Hg in Hplan.
  set (l1 := take (Z.to_nat split) l) in *.
  assert (El : l1.*2 = take (Z.to_nat split) es) by apply fmap_take.
  assert (HL1 : lengthZ l1 = split).
  { unfold l1, lengthZ in *. rewrite length_fmap in Hsr. rewrite length_take. lia. }
  assert (Hi1 : 0 ≤ idx sp ≤ lengthZ l1) by (rewrite HL1; unfold after_old in *; destruct (still_exists sp); lia).
  assert (Hs1 : still_exists sp = true → idx sp < lengthZ l1)
    by (rewrite HL1; unfold after_old in *; intros E; rewrite E in *; lia).
  rewrite run_get, Hg, <-El in *.
  assert (Hcan : ∃ b, btree_can_perform_leaf_incorporate_spec h1 sp = Some b).
  { unfold btree_can_perform_leaf_incorporate_spec. rewrite Hk, (repr_num _ _ _ _ Hr1).
    destruct (still_exists sp) eqn:E; rewrite (leaf_can_set ps h1 l1) by (done || lia); eauto. }
  destruct Hcan as [b Hcan]. rewrite (run_opt _ _ _ _ Hcan). destruct b; cbn [negb].
  - destruct (try_perform_run cfg h1 l1 key m sp true) as (h2 & Hrun & Hres); [done..|].
    destruct (proj2 Hres eq_refl) as (_ & ? & ? & ? & l2 & Hr2 & Hl2).
    exists sp, h1, h2, l2, (generation h1). split; [done|]. split; [done|]. split; [done|].
    split_and!; [congruence..|by left].
  - assert (Hi2 : 0 ≤ idx sp ≤ lengthZ l1.*2) by by rewrite lengthZ_fmap.
    assert (Hs2 : still_exists sp = true → idx sp < lengthZ l1.*2) by by rewrite lengthZ_fmap.
    rewrite (total_performed l1.*2 (key, m) sp Hi2 Hs2) in Hroom.
    change (esize (key, m)) with (tuple_size key m) in Hroom.
    destruct (without_sizes sp l1.*2) as [HlW _]; [auto with lia|].
    destruct (defragment_perform cfg h1 l1 sp key m) as (h2 & h3 & Hrun & Hrun2 & Hres); try done.
    { rewrite HlW. destruct (still_exists sp); table_lia. }
    destruct (proj2 Hres eq_refl) as (_ & ? & ? & ? & l2 & Hr2 & Hl2).
    exists (detached sp), h2, h3, l2, (generation h1). rewrite (bind_run _ _ _ _ _ Hrun).
    split; [done|]. split; [done|]. split; [done|]. split_and!; [congruence..|by right].
Qed.
End right.
End split_leaf.
