(* ===== verification/BtreeIndex.v ===== *)
(** * Index nodes

    An index node represents a list of pivots: a key, the 64-bit child field
    (the child's address with the metadata byte in its low bits) and the
    statistics of the subtree. *)
From S2P Require Import Prelude Bytes DataInternal BtreeNode NodeLayout BtreeLeaf.

Record pivot := mk_pivot { pivot_key : key; child_field : Z; pivot_stats : btree_pivot_stats }.
Definition stats_fit (s : btree_pivot_stats) : Prop :=
  0 ≤ num_kvs s < 2 ^ 32 ∧ 0 ≤ key_bytes s < 2 ^ 32 ∧ 0 ≤ message_bytes s < 2 ^ 32.
Definition pivot_ok (v : pivot) : Prop :=
  key_fits (pivot_key v) ∧ 0 ≤ child_field v < 2 ^ 64 ∧ stats_fit (pivot_stats v).
(** The address of the child. *)
Definition child_addr (v : pivot) : Z := Z.land (child_field v) (Z.lnot 4095).

Definition pivot_size (v : pivot) : Z := 23 + key_length (pivot_key v).
Definition pivot_at (p : list Z) (o : Z) (v : pivot) : Prop :=
  pivot_ok v ∧ holds p o (le_bytes 8 (child_field v)) ∧
  holds p (o + 8) (le_bytes 4 (num_kvs (pivot_stats v))) ∧
  holds p (o + 12) (le_bytes 4 (key_bytes (pivot_stats v))) ∧
  holds p (o + 16) (le_bytes 4 (message_bytes (pivot_stats v))) ∧
  ondisk_key_at p (o + 20) (pivot_key v).

Lemma key_length_nonneg k : 0 ≤ key_length k.
Proof. rewrite key_length_data. apply lengthZ_nonneg. Qed.
Lemma pivot_size_pos v : 0 < pivot_size v.
Proof. unfold pivot_size. pose proof (key_length_nonneg (pivot_key v)). lia. Qed.
Lemma pivot_at_agree p p' o v : lengthZ p' = lengthZ p → agree p p' o (o + pivot_size v) →
  pivot_at p o v → pivot_at p' o v.
Proof.
  unfold pivot_size. pose proof (key_length_nonneg (pivot_key v)).
  intros HL Ha (Hok & H1 & H2 & H3 & H4 & H5). split; [done|]. split_and!.
  1-4: (eapply holds_agree; [exact HL| |eassumption]); apply (agree_mono _ _ Ha); zlen.
  eapply ondisk_key_at_agree; [exact HL| |done]. apply (agree_mono _ _ Ha); lia.
Qed.

#[export] Program Instance index_format : entry_format pivot := {
  esize v := pivot_size v;
  eat p o v := pivot_at p o v;
}.
Next Obligation. intros v. apply pivot_size_pos. Qed.
Next Obligation. intros p p' o v. cbn. apply pivot_at_agree. Qed.

Lemma fill_index_ok p o k addr st :
  0 ≤ o → o + 23 + key_length k ≤ lengthZ p → pivot_ok (mk_pivot k addr st) →
  ∃ p', fill_index_entry p o k addr st = Some p' ∧
    outside p p' o (o + 23 + key_length k) ∧ pivot_at p' o (mk_pivot k addr st).
Proof.
  intros Ho Hl Hok. pose proof Hok as (Hf & Ha & Hs1 & Hs2 & Hs3). cbn in Hf, Ha, Hs1, Hs2, Hs3.
  pose proof (key_length_nonneg k). unfold fill_index_entry, SIZEOF_PIVOT_DATA.
  rewrite u64_small, !u32_small by done.
  destruct (copy_key_ok p (o + 20) k) as (p1 & H1 & Ho1 & Hat); [lia|lia|done|].
  rewrite H1. cbn [mbind option_bind]. pose proof Ho1 as [HL1 _].
  step_write p2 H2. step_write p3 H3. step_write p4 H4. step_write p5 H5.
  exists p5. split; [done|]. split.
  - apply (outside_mono _ _ _ _ o (o + 23 + key_length k)) in Ho1; [|lia|lia].
    repeat (eapply outside_write; [eassumption|zlen|zlen|]). done.
  - split; [done|]. cbn [pivot_key child_field pivot_stats].
    split; [solve_holds|]. split; [solve_holds|]. split; [solve_holds|]. split; [solve_holds|].
    assert (HL : lengthZ p5 = lengthZ p1) by zlen.
    eapply ondisk_key_at_agree; [exact HL| |exact Hat].
    repeat (eapply mem_write_agree_through; [eassumption|zlen|]). apply agree_refl.
Qed.

Section index.
Context (ps : Z).
Implicit Types (l : list (Z * pivot)) (h : btree_hdr) (v : pivot).

Lemma index_get h l i o v : node_repr ps h l → lookupZ l i = Some (o, v) →
  btree_get_index_entry h i = Some o ∧ index_size_at h i = Some (pivot_size v) ∧
  btree_get_pivot h i = Some (pivot_key v) ∧ btree_get_child_addr h i = Some (child_addr v) ∧
  sizeof_index_entry h o = Some (pivot_size v) ∧ index_entry_key h o = Some (pivot_key v) ∧
  index_entry_child_addr h o = Some (child_addr v) ∧ index_entry_stats h o = Some (pivot_stats v) ∧ pivot_ok v.
Proof.
  intros Hr Hi. pose proof (repr_get_table_entry _ _ _ _ _ _ Hr I Hi) as Ho. cbn in Ho.
  pose proof (slot_at _ _ _ _ (repr_slot_full _ _ _ _ _ Hr Hi)) as Ha. cbn in Ha.
  pose proof Ha as (Hok & H1 & H2 & H3 & H4 & H5). pose proof Hok as (_ & Hc & Hs1 & Hs2 & Hs3).
  apply ondisk_key_at_read in H5 as [Hk Hsz].
  assert (E1 : sizeof_index_entry h o = Some (pivot_size v)).
  { unfold sizeof_index_entry, SIZEOF_PIVOT_DATA. by rewrite Hsz. }
  assert (E2 : index_entry_key h o = Some (pivot_key v)) by done.
  assert (E3 : index_entry_child_addr h o = Some (child_addr v)).
  { unfold index_entry_child_addr. by rewrite (holds_le8 _ _ _ Hc H1). }
  assert (E4 : index_entry_stats h o = Some (pivot_stats v)).
  { unfold index_entry_stats. rewrite (holds_le4 _ _ _ Hs1 H2), (holds_le4 _ _ _ Hs2 H3), (holds_le4 _ _ _ Hs3 H4).
    cbn. by destruct (pivot_stats v). }
  unfold index_size_at, btree_get_pivot, btree_get_child_addr, btree_get_index_entry.
  rewrite Ho. cbn [mbind option_bind]. done.
Qed.

Lemma index_fill h o v : 0 ≤ o → o + pivot_size v ≤ lengthZ (page h) → pivot_ok v →
  ∃ p', btree_fill_index_entry o (pivot_key v) (child_field v) (pivot_stats v) h = Ret (tt, set_page p' h) ∧
    outside (page h) p' o (o + pivot_size v) ∧ pivot_at p' o v.
Proof.
  intros Ho Hl Hok. destruct v as [k a st]. unfold pivot_size in *. cbn in *.
  destruct (fill_index_ok (page h) o k a st) as (p' & Hc & Hout & Hat); [done|lia|done|].
  exists p'. split.
  - unfold btree_fill_index_entry, on_page, mbind, M_bind, mget, mopt, mmod. by rewrite Hc.
  - split; [|done]. by replace (o + (23 + key_length k)) with (o + 23 + key_length k) by lia.
Qed.

Definition index_slots_after l (k : Z) : Z := if k <? lengthZ l then lengthZ l else k + 1.
Definition index_room h l (k : Z) v : bool := table_at (index_slots_after l k) + pivot_size v <=? next_entry h.

(** Put a pivot below the others, entry [k] being dead or new. *)
Lemma place_index_run h l k v :
  node_repr_of (λ i, i ≠ k) ps h l → 0 ≤ k ≤ lengthZ l → pivot_ok v → index_room h l k v = true →
  let new := next_entry h - pivot_size v in
  ∃ p', (btree_fill_index_entry new (pivot_key v) (child_field v) (pivot_stats v);;
         put_table_entry k new;;
         mmod (set_num_entries (index_slots_after l k));;
         mmod (set_next_entry new);;
         mret true) h = Ret (true, placed h p' new (index_slots_after l k)) ∧
    node_repr ps (placed h p' new (index_slots_after l k)) (set_at k (new, v) l).
Proof.
  intros Hr Hk Hok Hroom new. apply Z.leb_le in Hroom.
  pose proof (repr_length _ _ _ _ Hr) as HL. pose proof (repr_next _ _ _ _ Hr) as Hne.
  pose proof (repr_width _ _ _ _ Hr) as Hw. pose proof (pivot_size_pos v).
  assert (Hsa : k < index_slots_after l k) by (unfold index_slots_after; destruct (Z.ltb_spec k (lengthZ l)); lia).
  destruct (index_fill h new v) as (p1 & Hrun & Hout & Hat); [table_lia|lia|done|].
  destruct (mem_write_ok p1 (table_at k) (le_bytes 2 (u16 new))) as [p2 Hw2];
    [table_lia|rewrite lengthZ_le_bytes, (proj1 Hout); table_lia|].
  exists p2. split.
  - rewrite (bind_run _ _ _ _ _ Hrun).
    unfold put_table_entry, on_page, mbind, M_bind, mget, mopt, mmod, put_le. cbn [page set_page].
    by rewrite Hw2.
  - eapply repr_place; [exact Hr|done|done| |lia|exact Hout|exact Hat|exact Hw2]. cbn [esize index_format]. lia.
Qed.

(** What setting pivot [k] to [v] does: [h'] has it, if there is room. *)
Record set_index_ok h l (k : Z) v (b : bool) h' : Prop := {
  set_index_links : same_links h h';
  set_index_room : index_room h l k v = true → b = true;
  set_index_no : b = false → h' = h;
  set_index_next : b = true → next_entry h - pivot_size v ≤ next_entry h';
  set_index_repr : b = true → ∃ l', node_repr ps h' l' ∧ l'.*2 = set_at k v l.*2;
  set_index_end : k = lengthZ l → b = true → next_entry h' = next_entry h - pivot_size v;
}.
(** The part of [btree_set_index_entry] that puts the pivot in the free space. *)
Definition set_index_free l (k : Z) v : N bool :=
  h ← mget;
  if next_entry h <? table_at (index_slots_after l k) + pivot_size v then mret false
  else
    let new := next_entry h - pivot_size v in
    btree_fill_index_entry new (pivot_key v) (child_field v) (pivot_stats v);;
    put_table_entry k new;;
    mmod (set_num_entries (index_slots_after l k));;
    mmod (set_next_entry new);;
    mret true.

Lemma set_index_free_run h h0 l k v :
  node_repr_of (λ i, i ≠ k) ps h0 l → 0 ≤ k ≤ lengthZ l → pivot_ok v →
  same_links h h0 → next_entry h ≤ next_entry h0 → h0 = h ∨ k < lengthZ l ∧ index_room h0 l k v = true →
  ∃ b h', set_index_free l k v h0 = Ret (b, h') ∧ set_index_ok h l k v b h'.
Proof.
  intros Hr Hk Hok Hs Hn Hor. unfold set_index_free. rewrite run_get. pose proof (pivot_size_pos v).
  destruct (index_room h0 l k v) eqn:Hroom.
  - destruct (place_index_run h0 l k v Hr Hk Hok Hroom) as (p' & Hrun & Hr').
    apply Z.leb_le in Hroom. rewrite (proj2 (Z.ltb_ge _ _)) by lia.
    assert (Hnew : u16 (next_entry h0 - pivot_size v) = next_entry h0 - pivot_size v).
    { apply u16_small. pose proof (repr_next _ _ _ _ Hr). pose proof (repr_width _ _ _ _ Hr).
      unfold index_slots_after in Hroom. destruct (Z.ltb_spec k (lengthZ l)); table_lia. }
    exists true. eexists. split; [exact Hrun|]. split; try done.
    + intros _. cbn. lia.
    + intros _. eexists. split; [exact Hr'|]. apply (fmap_set_at snd k (_, v) l).
    + intros E _. destruct Hor as [->|[? _]]; [exact Hnew|lia].
  - destruct Hor as [->|[_ ?]]; [|done]. pose proof Hroom as Hroom'. apply Z.leb_gt in Hroom.
    rewrite (proj2 (Z.ltb_lt _ _)) by lia. exists false, h. split; [done|]. split; try done. congruence.
Qed.

Lemma set_index_overwrite h l k o v0 v : node_repr ps h l → lookupZ l k = Some (o, v0) → pivot_ok v →
  pivot_size v ≤ pivot_size v0 →
  ∃ h', (btree_fill_index_entry o (pivot_key v) (child_field v) (pivot_stats v);; mret true) h = Ret (true, h') ∧
    set_index_ok h l k v true h'.
Proof.
  intros Hr Hs Hok Hsz. destruct (repr_slot_full _ _ _ _ _ Hr Hs) as [_ Hlow Hhigh _]. cbn in Hlow, Hhigh.
  pose proof (lookupZ_Some _ _ _ Hs) as Hk. pose proof (repr_table _ _ _ _ Hr) as Ht.
  pose proof (repr_length _ _ _ _ Hr) as HL. pose proof (pivot_size_pos v).
  destruct (index_fill h o v) as (p' & Hrun & Hout & Hat); [table_lia|lia|done|].
  rewrite (bind_run _ _ _ _ _ Hrun). eexists. split; [done|]. split; try done.
  - intros _. cbn. lia.
  - intros _. eexists. split; [by eapply repr_overwrite|].
    apply snd_insertZ. lia.
  - intros ->. lia.
Qed.

Lemma set_index_run h l k v :
  node_repr ps h l → 0 ≤ k ≤ lengthZ l → pivot_ok v →
  ∃ b h', btree_set_index_entry k (pivot_key v) (child_field v) (pivot_stats v) h = Ret (b, h') ∧
    set_index_ok h l k v b h'.
Proof.
  intros Hr Hk Hok. pose proof (repr_width _ _ _ _ Hr) as Hw. pose proof (repr_table _ _ _ _ Hr) as Ht.
  unfold btree_set_index_entry. rewrite run_get, run_assert by (rewrite (repr_num _ _ _ _ Hr); lia).
  rewrite (repr_num _ _ _ _ Hr). change (index_entry_required_capacity (pivot_key v)) with (pivot_size v).
  fold (index_slots_after l k). destruct (Z.ltb_spec k (lengthZ l)) as [Hlt|Hge].
  - destruct (proj2 (lookupZ_is_Some l k) ltac:(lia)) as [[o v0] Hs].
    destruct (index_get _ _ _ _ _ Hr Hs) as (Ho & _ & _ & _ & Hsz & _).
    destruct (repr_slot_full _ _ _ _ _ Hr Hs) as [_ Hlow Hhigh _]. cbn in Hlow, Hhigh.
    pose proof (pivot_size_pos v0) as Hpos0. pose proof (lengthZ_nonneg l). pose proof (repr_next _ _ _ _ Hr).
    destruct ((next_entry h =? o) && (table_at (index_slots_after l k) + pivot_size v <=? next_entry h + pivot_size v0)) eqn:Hfirst.
    + apply andb_true_iff in Hfirst as [<-%Z.eqb_eq Hfit].
      rewrite (bind_run _ _ h None (set_next_entry (next_entry h + pivot_size v0) h)).
      2: { rewrite (run_opt _ _ _ _ Ho), (run_opt _ _ _ _ Hsz), Z.eqb_refl, Hfit. done. }
      assert (Hn0 : next_entry (set_next_entry (next_entry h + pivot_size v0) h) = next_entry h + pivot_size v0)
        by (apply u16_small; table_lia).
      apply (set_index_free_run h (set_next_entry (next_entry h + pivot_size v0) h)); try done; [|lia|].
      * by eapply repr_drop_lowest.
      * right. split; [done|]. unfold index_room. by rewrite Hn0.
    + rewrite (bind_run _ _ h (if pivot_size v <=? pivot_size v0 then Some o else None) h).
      2: { rewrite (run_opt _ _ _ _ Ho), (run_opt _ _ _ _ Hsz), Hfirst. done. }
      destruct (Z.leb_spec (pivot_size v) (pivot_size v0)).
      * destruct (set_index_overwrite h l k o v0 v Hr Hs Hok) as (h' & Hrun & Hres); [done|]. by exists true, h'.
      * apply set_index_free_run; try done; [by apply repr_weaken|by left].
  - rewrite run_ret. apply set_index_free_run; try done; [by apply repr_weaken|by left].
Qed.

Lemma insert_index_run h l k v :
  node_repr ps h l → 0 ≤ k ≤ lengthZ l → pivot_ok v → index_room h l (lengthZ l) v = true →
  ∃ h' l', btree_insert_index_entry k (pivot_key v) (child_field v) (pivot_stats v) h = Ret (true, h') ∧
    same_links h h' ∧ next_entry h' = next_entry h - pivot_size v ∧
    node_repr ps h' l' ∧ l'.*2 = insert_at k v l.*2.
Proof.
  intros Hr Hk Hok Hroom. pose proof (lengthZ_nonneg l) as Hl0.
  unfold btree_insert_index_entry. rewrite run_get, (repr_num _ _ _ _ Hr).
  assert (Hfree : ∃ p', btree_set_index_entry (lengthZ l) (pivot_key v) (child_field v) (pivot_stats v) h =
      Ret (true, placed h p' (next_entry h - pivot_size v) (index_slots_after l (lengthZ l))) ∧
    node_repr ps (placed h p' (next_entry h - pivot_size v) (index_slots_after l (lengthZ l)))
      (set_at (lengthZ l) (next_entry h - pivot_size v, v) l)).
  { destruct (place_index_run h l (lengthZ l) v) as (p' & Hrun & Hr'); [by apply repr_weaken|lia|done|done|].
    exists p'. split; [|done]. unfold btree_set_index_entry.
    rewrite run_get, run_assert by (rewrite (repr_num _ _ _ _ Hr); lia).
    rewrite (repr_num _ _ _ _ Hr), Z.ltb_irrefl.
    rewrite run_ret, run_get. apply Z.leb_le in Hroom.
    change (index_entry_required_capacity (pivot_key v)) with (pivot_size v).
    unfold index_slots_after in *. rewrite Z.ltb_irrefl in *. rewrite (proj2 (Z.ltb_ge _ _)) by lia. exact Hrun. }
  destruct Hfree as (p1 & Hrun & Hr').
  unfold set_at in Hr'. rewrite Z.ltb_irrefl in Hr'.
  destruct (repr_rotate _ _ _ _ k Hr' Hk) as (p2 & Hrot & Hr2).
  rewrite (bind_run _ _ _ _ _ Hrun), (bind_run _ _ _ _ _ Hrot). eexists _, _. split; [done|]. split; [done|].
  split; [|split; [exact Hr2|apply (fmap_insert_at snd k (_, v) l)]].
  cbn. apply u16_small. pose proof (repr_next _ _ _ _ Hr). pose proof (repr_width _ _ _ _ Hr).
  pose proof (pivot_size_pos v). apply Z.leb_le in Hroom. unfold index_slots_after in Hroom.
  rewrite Z.ltb_irrefl in Hroom. table_lia.
Qed.

(** ** Searching *)
Definition pivot_keys (vs : list pivot) : list key := pivot_key <$> vs.
Lemma repr_pivots_small h l : node_repr ps h l → Forall key_small (pivot_keys l.*2).
Proof.
  intros Hr. apply list.Forall_forall. intros k Hk.
  apply list_elem_of_fmap in Hk as (v & -> & Hv). apply list_elem_of_fmap in Hv as ([o v'] & -> & Hv).
  apply list_elem_of_lookup in Hv as [i Hi]. cbn.
  assert (Hl : lookupZ l (Z.of_nat i) = Some (o, v')).
  { unfold lookupZ. rewrite bool_decide_true by lia. by rewrite Nat2Z.id. }
  destruct (repr_slot_full _ _ _ _ _ Hr Hl) as [_ Hlow Hhigh _]. cbn in *.
  pose proof (repr_width _ _ _ _ Hr). pose proof (repr_table _ _ _ _ Hr). pose proof (lengthZ_nonneg l).
  unfold key_small, pivot_size in *. table_lia.
Qed.
Lemma find_pivot_run cfg `{!key_order (bt_data_cfg cfg)} h l target :
  node_repr ps h l → sorted_keys cfg (pivot_keys l.*2) → key_small target →
  ∃ r found, btree_find_pivot cfg target h = Ret ((r, found), h) ∧
    finds cfg (pivot_keys l.*2) target r found.
Proof.
  intros Hr Hs Ht. unfold btree_find_pivot. rewrite run_get, (repr_num _ _ _ _ Hr).
  assert (HL : lengthZ (pivot_keys l.*2) = lengthZ l) by (unfold pivot_keys; by rewrite !lengthZ_fmap).
  rewrite <-HL. apply (search_finds cfg (btree_get_pivot h)); try done.
  - by apply (repr_pivots_small h).
  - intros i k Hi. unfold pivot_keys in Hi. rewrite !lookupZ_fmap in Hi.
    destruct (lookupZ l i) as [[o v]|] eqn:He; [|done]. injection Hi as <-.
    by destruct (index_get _ _ _ _ _ Hr He) as (_ & _ & ? & _).
  - unfold search_fuel. rewrite (repr_num _ _ _ _ Hr), HL. lia.
Qed.

(** ** Copying pivots to an empty node *)
(** A copied pivot loses the metadata byte. *)
Definition clean v : pivot := mk_pivot (pivot_key v) (child_addr v) (pivot_stats v).
Lemma child_addr_range a : 0 ≤ a < 2 ^ 64 → 0 ≤ Z.land a (Z.lnot 4095) < 2 ^ 64.
Proof.
  intros Ha. change 4095 with (Z.ones 12). rewrite <-Z.ldiff_land, Z.ldiff_ones_r by lia.
  rewrite Z.shiftl_mul_pow2, Z.shiftr_div_pow2 by lia.
  pose proof (Z.mul_div_le a (2 ^ 12) ltac:(lia)). pose proof (Z.div_pos a (2 ^ 12)). lia.
Qed.
Lemma clean_ok v : pivot_ok v → pivot_ok (clean v).
Proof. intros (Hk & Ha & Hs). split; [done|]. split; [by apply child_addr_range|done]. Qed.
Lemma clean_child v : child_addr (clean v) = child_addr v.
Proof. unfold child_addr at 1, clean. cbn [child_field]. unfold child_addr. by rewrite <-Z.land_assoc, Z.land_diag. Qed.

Lemma copy_index_run n ls : ∀ src from i h l,
  node_repr ps src ls → 0 ≤ from → node_repr ps h l → lengthZ l = i → from + i + Z.of_nat n ≤ lengthZ ls →
  let vs := take n (drop (Z.to_nat (from + i)) ls.*2) in
  table_at (i + Z.of_nat n) + total_size vs ≤ next_entry h →
  ∃ h' l', copy_index_entries n src from i h = Ret (tt, h') ∧
    node_repr ps h' l' ∧ l'.*2 = l.*2 ++ (clean <$> vs) ∧
    next_entry h' = next_entry h - total_size vs ∧ same_links h h'.
Proof.
  induction n as [|n IH]; intros src from i h l Hsrc Hfrom Hr Hi Hn vs Hroom; subst vs.
  - exists h, l. split; [done|]. split; [done|]. change (take 0 _) with (@nil pivot) in *. cbn [total_size]. rewrite app_nil_r. split_and!; [done|lia|done].
  - pose proof (lengthZ_nonneg l) as Hl0.
    destruct (proj2 (lookupZ_is_Some ls (from + i)) ltac:(lia)) as [[o v] Hv].
    destruct (index_get _ _ _ _ _ Hsrc Hv) as (Ho & _ & _ & _ & _ & Hk & Ha & Hst & Hok).
    assert (Hd : drop (Z.to_nat (from + i)) ls.*2 = v :: drop (Z.to_nat (from + (i + 1))) ls.*2).
    { replace (Z.to_nat (from + (i + 1))) with (S (Z.to_nat (from + i))) by lia. apply drop_S.
      unfold lookupZ in Hv. rewrite bool_decide_true in Hv by lia. by rewrite list_lookup_fmap, Hv. }
    rewrite Hd in *. cbn [take total_size] in Hroom. change (esize v) with (pivot_size (clean v)) in Hroom.
    pose proof (total_size_nonneg (take n (drop (Z.to_nat (from + (i + 1))) ls.*2))).
    destruct (set_index_run h l i (clean v) Hr ltac:(lia) (clean_ok v Hok)) as (b & h1 & Hrun & [Hs Hb _ _ Hrep Hend]).
    assert (Hbt : b = true).
    { apply Hb. apply Z.leb_le. unfold index_slots_after. rewrite Hi, Z.ltb_irrefl. table_lia. }
    subst b. destruct (Hrep eq_refl) as (l1 & Hr1 & Hl1). specialize (Hend (eq_sym Hi) eq_refl).
    assert (Hl1' : lengthZ l1 = i + 1).
    { rewrite <-(lengthZ_fmap snd l1), Hl1. rewrite lengthZ_set_at by (rewrite lengthZ_fmap; lia).
      rewrite lengthZ_fmap, Hi, Z.ltb_irrefl. done. }
    destruct (IH src from (i + 1) h1 l1 Hsrc Hfrom Hr1 Hl1' ltac:(lia)) as (h' & l' & Hrun' & Hr' & Hl' & Hn' & Hs').
    { rewrite Hend. table_lia. }
    cbn [copy_index_entries]. rewrite (run_opt _ _ _ _ Ho), (run_opt _ _ _ _ Hk), (run_opt _ _ _ _ Ha), (run_opt _ _ _ _ Hst).
    cbn [pivot_key child_field pivot_stats clean] in Hrun. rewrite (bind_run _ _ _ _ _ Hrun), run_assert by done.
    exists h', l'. split; [exact Hrun'|]. split; [done|]. split.
    + rewrite Hl', Hl1. cbn [take]. rewrite fmap_cons. unfold set_at. rewrite lengthZ_fmap, Hi, Z.ltb_irrefl.
      by rewrite <-app_assoc.
    + cbn [take total_size]. change (esize v) with (pivot_size (clean v)). split; [lia|].
      by eapply same_links_trans.
Qed.
End index.

(** * Splitting and defragmenting index nodes

    Where an index node is split, the two nodes that result, and the room they
    have for further pivots. *)
(** The bytes of the first [i] pivots. *)
Definition psize (vs : list pivot) (i : Z) : Z := total_size (take (Z.to_nat i) vs).
Lemma psize_S vs i v : lookupZ vs i = Some v → psize vs (i + 1) = psize vs i + pivot_size v.
Proof.
  intros Hi. pose proof (lookupZ_Some _ _ _ Hi). unfold psize.
  replace (Z.to_nat (i + 1)) with (S (Z.to_nat i)) by lia.
  unfold lookupZ in Hi. rewrite bool_decide_true in Hi by lia.
  rewrite (take_S_r _ _ _ Hi), total_size_app. cbn [total_size]. change (esize v) with (pivot_size v). lia.
Qed.
Lemma psize_full vs : psize vs (lengthZ vs) = total_size vs.
Proof. unfold psize, lengthZ. rewrite Nat2Z.id, firstn_all. done. Qed.
Lemma psize_0 vs : psize vs 0 = 0.
Proof. done. Qed.
Lemma psize_drop vs i : total_size (drop (Z.to_nat i) vs) = total_size vs - psize vs i.
Proof. unfold psize. rewrite <-(take_drop (Z.to_nat i) vs) at 2. rewrite total_size_app. lia. Qed.
Lemma total_size_count (vs : list pivot) : 23 * lengthZ vs ≤ total_size vs.
Proof.
  induction vs as [|v vs IH]; [done|]. rewrite lengthZ_cons. cbn [total_size].
  change (esize v) with (pivot_size v). unfold pivot_size. pose proof (key_length_nonneg (pivot_key v)). lia.
Qed.
Lemma total_size_clean (vs : list pivot) : total_size (clean <$> vs) = total_size vs.
Proof. induction vs as [|v vs IH]; [done|]. rewrite fmap_cons. cbn [total_size]. rewrite IH. done. Qed.
Lemma clean_clean v : clean (clean v) = clean v.
Proof. destruct v. unfold clean at 1. rewrite clean_child. done. Qed.
Lemma clean_clean_list (vs : list pivot) : clean <$> (clean <$> vs) = clean <$> vs.
Proof. rewrite <-list_fmap_compose. apply list_fmap_ext. intros ? v ?. apply clean_clean. Qed.

Section index_split.
Context (cfg : btree_config).
Local Abbreviation ps := (btree_page_size cfg).
Implicit Types (l : list (Z * pivot)) (h : btree_hdr) (v : pivot).

Lemma index_size_run h l i v : node_repr ps h l → lookupZ l.*2 i = Some v → index_size_at h i = Some (pivot_size v).
Proof.
  intros Hr Hi. rewrite lookupZ_fmap in Hi. destruct (lookupZ l i) as [[o v']|] eqn:Hl; [|done].
  injection Hi as <-. by destruct (index_get _ _ _ _ _ _ Hr Hl) as (_ & ? & _).
Qed.
Lemma index_live_run h l n i : node_repr ps h l → 0 ≤ i → i + Z.of_nat n ≤ lengthZ l →
  index_live_bytes h n i = Some (psize l.*2 (i + Z.of_nat n) - psize l.*2 i).
Proof.
  intros Hr. revert i. induction n as [|n IH]; intros i Hi Hn.
  - cbn. rewrite Z.add_0_r. f_equal. lia.
  - destruct (proj2 (lookupZ_is_Some l.*2 i)) as [v Hv]; [rewrite lengthZ_fmap; lia|].
    cbn [index_live_bytes]. rewrite (index_size_run _ _ _ _ Hr Hv), IH by lia. cbn.
    rewrite (psize_S _ _ _ Hv). replace (i + 1 + Z.of_nat n) with (i + Z.of_nat (S n)) by lia. f_equal. lia.
Qed.
Lemma index_total_run h l : node_repr ps h l →
  index_live_bytes h (Z.to_nat (num_entries h)) 0 = Some (total_size l.*2).
Proof.
  intros Hr. pose proof (lengthZ_nonneg l). rewrite (repr_num _ _ _ _ Hr).
  rewrite (index_live_run h l _ _ Hr) by lia. rewrite Z.add_0_l, Z2Nat.id by lia.
  rewrite <-(lengthZ_fmap snd l), psize_full, psize_0, Z.sub_0_r. done.
Qed.

(** The split index: the first prefix with at least half of the bytes. *)
Definition halves (vs : list pivot) (t : Z) : Prop :=
  0 ≤ t ≤ lengthZ vs ∧ total_size vs / 2 ≤ psize vs t ∧ (0 < t → psize vs (t - 1) < total_size vs / 2).
Lemma choose_loop_run fuel h l t : node_repr ps h l → 0 ≤ t ≤ lengthZ l → (Z.to_nat (lengthZ l - t) < fuel)%nat →
  (0 < t → psize l.*2 (t - 1) < total_size l.*2 / 2) →
  ∃ t', choose_split_loop fuel h (total_size l.*2) (psize l.*2 t) t = Ret t' ∧ halves l.*2 t'.
Proof.
  intros Hr. revert t. induction fuel as [|fuel IH]; intros t Ht Hf Hlt; [lia|].
  cbn [choose_split_loop]. destruct (Z.ltb_spec (psize l.*2 t) (total_size l.*2 / 2)) as [Hl|Hge]; cbn [negb].
  - destruct (decide (t = lengthZ l)) as [->|].
    { rewrite <-(lengthZ_fmap snd l), psize_full in Hl. pose proof (total_size_nonneg l.*2).
      pose proof (Z.mul_div_le (total_size l.*2) 2 ltac:(lia)). lia. }
    destruct (proj2 (lookupZ_is_Some l.*2 t)) as [v Hv]; [rewrite lengthZ_fmap; lia|].
    rewrite (index_size_run _ _ _ _ Hr Hv), <-(psize_S _ _ _ Hv). apply IH; [lia|lia|].
    intros _. by rewrite Z.add_simpl_r.
  - exists t. split; [done|]. split; [by rewrite lengthZ_fmap|]. done.
Qed.
Lemma choose_split_run h l : node_repr ps h l →
  ∃ t, btree_choose_index_split h = Ret t ∧ halves l.*2 t.
Proof.
  intros Hr. unfold btree_choose_index_split. rewrite (index_total_run _ _ Hr).
  pose proof (lengthZ_nonneg l). apply (choose_loop_run _ h l 0 Hr); [lia| |lia].
  unfold search_fuel. rewrite (repr_num _ _ _ _ Hr). lia.
Qed.

(** A node whose pivots, but for the metadata byte, are [vs]. *)
Definition index_holds h (vs : list pivot) : Prop := ∃ l, node_repr ps h l ∧ clean <$> l.*2 = vs.

Lemma clean_take n l : clean <$> (take n l).*2 = take n (clean <$> l.*2).
Proof. by rewrite !fmap_take. Qed.
Lemma clean_drop n l : clean <$> (drop n l).*2 = drop n (clean <$> l.*2).
Proof. by rewrite !fmap_drop. Qed.

Lemma reset_index_repr h0 : lengthZ (page h0) = ps → SIZEOF_BTREE_HDR ≤ ps < 2 ^ 16 →
  node_repr ps (btree_reset_node_entries cfg h0) ([] : list (Z * pivot)) ∧
  next_entry (btree_reset_node_entries cfg h0) = ps.
Proof.
  intros HL Hps. unfold SIZEOF_BTREE_HDR in Hps.
  assert (Hn : next_entry (btree_reset_node_entries cfg h0) = ps) by (cbn; apply u16_small; lia).
  split; [|done]. by apply repr_empty.
Qed.

(** Copying the pivots from index [n] on to an emptied node. *)
Lemma copy_from_run h l h0 n : node_repr ps h l → lengthZ (page h0) = ps → SIZEOF_BTREE_HDR ≤ ps →
  0 ≤ n ≤ lengthZ l →
  ∃ h' l', copy_index_entries (Z.to_nat (lengthZ l - n)) h n 0 (btree_reset_node_entries cfg h0) = Ret (tt, h') ∧
    node_repr ps h' l' ∧ l'.*2 = clean <$> drop (Z.to_nat n) l.*2 ∧
    next_entry h' = ps - total_size (drop (Z.to_nat n) l.*2) ∧ same_links h0 h'.
Proof.
  intros Hr HL Hps Hn. pose proof (repr_width _ _ _ _ Hr) as Hw.
  destruct (reset_index_repr h0 HL) as [Hr0 Hn0]; [done|].
  pose proof (repr_live_size _ _ _ Hr) as Hlive. rewrite live_size_total in Hlive.
  pose proof (repr_table _ _ _ _ Hr) as Ht.
  assert (Htake : take (Z.to_nat (lengthZ l - n)) (drop (Z.to_nat (n + 0)) l.*2) = drop (Z.to_nat n) l.*2).
  { rewrite Z.add_0_r. apply take_ge. rewrite length_drop, length_fmap. unfold lengthZ. lia. }
  assert (Hsz : total_size (drop (Z.to_nat n) l.*2) ≤ total_size l.*2).
  { rewrite psize_drop. pose proof (total_size_nonneg (take (Z.to_nat n) l.*2)). unfold psize. lia. }
  destruct (copy_index_run ps (Z.to_nat (lengthZ l - n)) l h n 0 (btree_reset_node_entries cfg h0) [] Hr)
    as (h' & l' & Hrun & Hr' & Hl' & Hn' & Hs'); try done; [lia..| |].
  { rewrite Htake, Hn0. rewrite Z2Nat.id by lia. table_lia. }
  rewrite Htake in *. exists h', l'. rewrite Hn0 in Hn'. done.
Qed.

Lemma defragment_index_run h l : node_repr ps h l → SIZEOF_BTREE_HDR ≤ ps →
  ∃ h' l', btree_defragment_index cfg h = Ret (tt, h') ∧ node_repr ps h' l' ∧ l'.*2 = clean <$> l.*2 ∧
    next_entry h' = ps - total_size l.*2 ∧ same_links h h'.
Proof.
  intros Hr Hps. pose proof (lengthZ_nonneg l).
  destruct (copy_from_run h l h 0 Hr (repr_length _ _ _ _ Hr) Hps) as (h' & l' & Hrun & Hr' & Hl' & Hn' & Hs'); [lia|].
  rewrite Z.sub_0_r in Hrun. exists h', l'. split; [|done].
  unfold btree_defragment_index. rewrite run_get, run_mod, (repr_num _ _ _ _ Hr). exact Hrun.
Qed.

Lemma right_index_run h l r t : node_repr ps h l → lengthZ (page r) = ps → SIZEOF_BTREE_HDR ≤ ps →
  0 ≤ t ≤ lengthZ l →
  ∃ r' lr, btree_split_index_build_right_node cfg h t r = Ret (tt, r') ∧ node_repr ps r' lr ∧
    lr.*2 = clean <$> drop (Z.to_nat t) l.*2 ∧ next_entry r' = ps - total_size (drop (Z.to_nat t) l.*2) ∧
    height r' = height h ∧ prev_addr r' = prev_addr h ∧ next_addr r' = next_addr h.
Proof.
  intros Hr HL Hps Ht.
  destruct (copy_from_run h l (incr_generation (set_page (page r) h)) t Hr HL Hps Ht)
    as (r' & lr & Hrun & Hr' & Hl' & Hn' & Hs1 & Hs2 & _ & _ & Hs5).
  exists r', lr. split; [|done]. unfold btree_split_index_build_right_node.
  rewrite run_get, run_put, !run_mod, (repr_num _ _ _ _ Hr). exact Hrun.
Qed.

(** The left node: truncated, and defragmented when its free space is small. *)
Lemma truncate_index_run h l t : node_repr ps h l → SIZEOF_BTREE_HDR ≤ ps → 0 ≤ t ≤ lengthZ l →
  ∃ h' l', btree_truncate_index cfg t h = Ret (tt, h') ∧ node_repr ps h' l' ∧
    clean <$> l'.*2 = clean <$> take (Z.to_nat t) l.*2 ∧
    (BTREE_DEFRAGMENT_THRESHOLD ps ≤ next_entry h' ∨ next_entry h' = ps - psize l.*2 t) ∧
    height h' = height h ∧ prev_addr h' = prev_addr h ∧ next_addr h' = next_addr h.
Proof.
  intros Hr Hps Ht. destruct (repr_truncate ps h l t Hr Ht) as (o & Ho & _ & Hr1).
  unfold btree_truncate_index. rewrite run_get, (run_opt _ _ _ _ Ho), !run_mod.
  set (h1 := incr_generation (set_next_entry o (set_num_entries t h))).
  assert (Hr1' : node_repr ps h1 (take (Z.to_nat t) l)) by (by eapply repr_same_page; [..|exact Hr1]).
  assert (Ho' : next_entry h1 = o).
  { cbn. apply u16_small. pose proof (repr_next _ _ _ _ Hr). pose proof (repr_width _ _ _ _ Hr).
    destruct (min_offset_spec ps h l (Z.to_nat t) 0 ps Hr) as (m & Hm & Hmp & Hml & _); [lia..|].
    rewrite Ho in Hm. injection Hm as <-. pose proof (repr_table _ _ _ _ Hr). pose proof (lengthZ_nonneg l). table_lia. }
  destruct (Z.ltb_spec o (BTREE_DEFRAGMENT_THRESHOLD ps)) as [Hlt|Hge].
  - destruct (defragment_index_run h1 _ Hr1' Hps) as (h' & l' & Hrun & Hr' & Hl' & Hn' & Hs1 & Hs2 & _ & _ & Hs5).
    exists h', l'. split; [done|]. split; [done|]. split; [|split; [|done]].
    + rewrite Hl', clean_clean_list, !fmap_take. done.
    + right. rewrite Hn', fmap_take. done.
  - exists h1, (take (Z.to_nat t) l). split; [done|]. split; [done|]. split; [|split; [|done]].
    + by rewrite fmap_take.
    + left. by rewrite Ho'.
Qed.

(** ** Room *)
(** Pivots no longer than the longest inline key. *)
Definition inline_pivot (v : pivot) : Prop := key_length (pivot_key v) ≤ MAX_INLINE_KEY_SIZE ps.
Definition not_full h l : Prop := table_at (lengthZ l + 2) + 23 + MAX_INLINE_KEY_SIZE ps ≤ next_entry h.
Lemma index_full_spec h l : node_repr ps h l → btree_index_is_full cfg h = false ↔ not_full h l.
Proof. intros Hr. unfold btree_index_is_full. rewrite (repr_num _ _ _ _ Hr), Z.ltb_ge. done. Qed.
Lemma not_full_room h l v : not_full h l → inline_pivot v → index_room h l (lengthZ l) v = true.
Proof.
  unfold not_full, inline_pivot. intros Hn Hv. apply Z.leb_le. unfold index_slots_after, pivot_size.
  rewrite Z.ltb_irrefl. table_lia.
Qed.

(** The space the defragmentation test asks for, as the code computes it. *)
Definition index_space (vs : list pivot) : Z := total_size vs + 23 * lengthZ vs.

(** A packed node below the split threshold is not full. *)
Lemma packed_not_full h l (vs : list pivot) : 1080 ≤ ps → lengthZ l = lengthZ vs →
  index_space vs < BTREE_SPLIT_THRESHOLD ps → next_entry h = ps - total_size vs → not_full h l.
Proof.
  unfold not_full, index_space, BTREE_SPLIT_THRESHOLD, MAX_INLINE_KEY_SIZE. intros Hps HL Hsp ->.
  pose proof (Z.mul_div_le ps 8 ltac:(lia)). pose proof (Z.mul_div_le ps 2 ltac:(lia)).
  pose proof (lengthZ_nonneg vs). table_lia.
Qed.

Lemma lengthZ_take {A} (vs : list A) t : 0 ≤ t ≤ lengthZ vs → lengthZ (take (Z.to_nat t) vs) = t.
Proof. intros Ht. unfold lengthZ in *. rewrite length_take. lia. Qed.
Lemma lengthZ_drop' {A} (vs : list A) t : 0 ≤ t ≤ lengthZ vs → lengthZ (drop (Z.to_nat t) vs) = lengthZ vs - t.
Proof. intros Ht. unfold lengthZ in *. rewrite length_drop. lia. Qed.
Lemma psize_count (vs : list pivot) t : 0 ≤ t ≤ lengthZ vs →
  23 * t ≤ psize vs t ∧ 23 * (lengthZ vs - t) ≤ total_size vs - psize vs t.
Proof.
  intros Ht. split.
  - pose proof (total_size_count (take (Z.to_nat t) vs)) as H. rewrite lengthZ_take in H by done. exact H.
  - pose proof (total_size_count (drop (Z.to_nat t) vs)) as H. rewrite lengthZ_drop', psize_drop in H by done. exact H.
Qed.

(** A split at or above the threshold leaves pivots on both sides. *)
Lemma halves_inside vs t : 1080 ≤ ps → halves vs t → Forall inline_pivot vs →
  BTREE_SPLIT_THRESHOLD ps ≤ index_space vs → 0 < t < lengthZ vs.
Proof.
  unfold BTREE_SPLIT_THRESHOLD, index_space. intros Hps (Ht & Hge & Hlt) Hin Hsp.
  pose proof (Z.div_mod ps 2 ltac:(lia)). pose proof (Z.mod_pos_bound ps 2 ltac:(lia)).
  pose proof (Z.div_mod (total_size vs) 2 ltac:(lia)). pose proof (Z.mod_pos_bound (total_size vs) 2 ltac:(lia)).
  pose proof (Z.mul_div_le ps 8 ltac:(lia)).
  assert (Hpos : 0 < t).
  { destruct (decide (t = 0)) as [->|]; [|lia]. rewrite psize_0 in Hge.
    pose proof (total_size_count vs). lia. }
  split; [done|]. destruct (decide (t = lengthZ vs)) as [->|]; [exfalso|lia]. specialize (Hlt Hpos).
  destruct (proj2 (lookupZ_is_Some vs (lengthZ vs - 1)) ltac:(lia)) as [v Hv].
  pose proof (psize_S _ _ _ Hv) as Hp. rewrite Z.sub_add, psize_full in Hp.
  destruct (psize_count vs (lengthZ vs - 1)) as [Hc _]; [lia|].
  rewrite list.Forall_forall in Hin. pose proof (Hin v (lookupZ_elem _ _ _ Hv)) as Hv'.
  unfold inline_pivot, MAX_INLINE_KEY_SIZE, pivot_size in *. lia.
Qed.

(** The sizes of the two sides. *)
Lemma halves_sizes vs t : halves vs t → 0 < t → Forall inline_pivot vs →
  2 * psize vs t ≤ total_size vs + 2 * (23 + MAX_INLINE_KEY_SIZE ps) ∧
  2 * (total_size vs - psize vs t) ≤ total_size vs + 1.
Proof.
  intros (Ht & Hge & Hlt) Hpos Hin. specialize (Hlt Hpos).
  pose proof (Z.div_mod (total_size vs) 2 ltac:(lia)). pose proof (Z.mod_pos_bound (total_size vs) 2 ltac:(lia)).
  destruct (proj2 (lookupZ_is_Some vs (t - 1)) ltac:(lia)) as [v Hv].
  pose proof (psize_S _ _ _ Hv) as Hp. rewrite Z.sub_add in Hp.
  rewrite list.Forall_forall in Hin. pose proof (Hin v (lookupZ_elem _ _ _ Hv)) as Hv'.
  unfold inline_pivot, pivot_size in *. lia.
Qed.
(** Neither side of a split node is full. *)
Lemma halves_not_full h l hl ll hr lr t : node_repr ps h l → 1080 ≤ ps → halves l.*2 t → 0 < t →
  Forall inline_pivot l.*2 → lengthZ ll = t → lengthZ lr = lengthZ l - t →
  (BTREE_DEFRAGMENT_THRESHOLD ps ≤ next_entry hl ∨ next_entry hl = ps - psize l.*2 t) →
  next_entry hr = ps - (total_size l.*2 - psize l.*2 t) →
  not_full hl ll ∧ not_full hr lr.
Proof.
  intros Hr Hps Hh Hpos Hin Hll Hlr Hnl Hnr. pose proof Hh as (Ht & _).
  destruct (halves_sizes _ _ Hh Hpos Hin) as [H1 H2]. destruct (psize_count _ _ Ht) as [H3 H4].
  rewrite lengthZ_fmap in Ht, H4. pose proof (repr_live_size _ _ _ Hr) as Hlive.
  rewrite live_size_total in Hlive. pose proof (repr_table _ _ _ _ Hr) as Htab.
  unfold not_full, MAX_INLINE_KEY_SIZE, BTREE_DEFRAGMENT_THRESHOLD in *.
  pose proof (Z.div_mod ps 8 ltac:(lia)). pose proof (Z.mod_pos_bound ps 8 ltac:(lia)).
  pose proof (Z.div_mod ps 4 ltac:(lia)). pose proof (Z.mod_pos_bound ps 4 ltac:(lia)).
  split; table_lia.
Qed.
End index_split.
