(* ===== verification/BtreePivot.v ===== *)
(** * Pivot tracking

    btree_private.h and btree.c: the low byte of a pivot's child field holds
    the access counter (7 bits) and the cache-resident flag, updated by
    concurrent lookups with atomic operations; a lookup decides by it whether
    the child is warm.  [meta_step] is the interleaving of the atomic accesses
    of any number of threads to one such byte, [classify] a reference for the
    decision. *)
From S2P Require Import Prelude Bytes DataInternal BtreeNode NodeLayout BtreeLeaf BtreeIndex.

Definition PIVOT_CACHE_RESIDENT : Z := 128.
Definition PIVOT_AC_MASK : Z := 127.
Definition PIVOT_AC_SATURATION_THRESHOLD : Z := PIVOT_AC_MASK.
Definition EI_NOT_READY : Z := 0.

(** ** The byte *)
Definition pivot_resident (b : Z) : bool := negb (Z.land b PIVOT_CACHE_RESIDENT =? 0).
Definition pivot_count (b : Z) : Z := Z.land b PIVOT_AC_MASK.

(** What each operation writes over [old]; [None] when it returns without writing. *)
Definition ac_set_value (count old : Z) : Z :=
  Z.lor (Z.land old PIVOT_CACHE_RESIDENT) (if PIVOT_AC_MASK <? count then PIVOT_AC_MASK else count).
Definition ac_inc_value (old : Z) : option Z :=
  if pivot_resident old then None
  else if PIVOT_AC_MASK <=? pivot_count old then None
  else Some (Z.lor (Z.land old PIVOT_CACHE_RESIDENT) (pivot_count old + 1)).

(** ** One thread *)
Definition btree_pivot_meta_load (h : btree_hdr) (entry : Z) : option Z := get_le 1 (page h) entry.
Definition btree_pivot_meta_ac_load (h : btree_hdr) (entry : Z) : option Z :=
  pivot_count <$> btree_pivot_meta_load h entry.
Definition pivot_is_cache_resident (h : btree_hdr) (entry : Z) : option bool :=
  pivot_resident <$> btree_pivot_meta_load h entry.
Definition on_meta (entry : Z) (f : Z → Z) : N unit :=
  on_page (λ p, b ← get_le 1 p entry; put_le 1 p entry (f b)).
Definition btree_pivot_meta_mark_cache_resident (entry : Z) : N unit :=
  on_meta entry (λ b, Z.lor b PIVOT_CACHE_RESIDENT).
Definition btree_pivot_meta_clear_cache_resident (entry : Z) : N unit :=
  on_meta entry (λ b, Z.land b (u8 (Z.lnot PIVOT_CACHE_RESIDENT))).
Definition btree_pivot_meta_ac_set (entry count : Z) : N unit := on_meta entry (ac_set_value count).
Definition btree_pivot_meta_ac_inc_atomic (entry : Z) : N unit :=
  on_meta entry (λ b, default b (ac_inc_value b)).

(** ** Warm or cold *)
(** An unsigned integer as the x87 [long double]: 64 bits of significand, ties to even. *)
Definition long_double (z : Z) : Z :=
  if z <? 2 ^ 64 then z
  else
    let e := Z.log2 z - 63 in
    let q := z / 2 ^ e in
    let r := z mod 2 ^ e in
    let up := (2 ^ (e - 1) <? r) || ((r =? 2 ^ (e - 1)) && Z.odd q) in
    (if up then q + 1 else q) * 2 ^ e.

(** The node and the [entry_time] of its page. *)
Abbreviation P := (M (btree_hdr * Z)).
Definition on_hdr {A} (m : N A) : P A := λ s,
  match m s.1 with
  | Ret (a, h) => Ret (a, (h, s.2))
  | Assert => Assert | Undef => Undef | Block => Block | Fuel => Fuel
  end.
Definition reset_pivot_counts : N unit :=
  h ← mget;
  mfor (Z.to_nat (num_entries h)) 0 (λ j,
    h ← mget; sibling ← mopt (btree_get_index_entry h j); btree_pivot_meta_ac_set sibling 0).

(** The access counter after the compensation for a child that was cached. *)
Definition compensate (entry ei t_since_entry : Z) (was_cached : bool) (ac : Z) : P Z :=
  if was_cached && (0 <? ei) then
    let threshold_ac := t_since_entry / ei in
    let max_ac := if 0 <? threshold_ac then threshold_ac - 1 else 0 in
    if ac <? max_ac
    then on_hdr (btree_pivot_meta_ac_set entry (if 127 <? max_ac then 127 else max_ac));; mret max_ac
    else mret ac
  else mret ac.

(** [ei] is the cache's evict interval, [now] and [now'] the two readings of the clock. *)
Definition btree_update_ac_and_classify_warm (ei now now' : Z) (entry : Z) : P bool :=
  s ← mget;
  was_cached ← mopt (pivot_is_cache_resident s.1 entry);
  (if was_cached : bool then on_hdr (btree_pivot_meta_clear_cache_resident entry) else mret tt);;
  if ei =? EI_NOT_READY then on_hdr (btree_pivot_meta_mark_cache_resident entry);; mret true
  else
    let init := s.2 in
    if init =? 0 then mret false
    else
      let t_since_entry := u64 (now - init) in
      s ← mget;
      ac ← mopt (btree_pivot_meta_ac_load s.1 entry);
      ac ← compensate entry ei t_since_entry was_cached ac;
      if ac =? 0 then on_hdr (btree_pivot_meta_ac_inc_atomic entry);; mret false
      else if ei =? 0 then mret true
      else if long_double t_since_entry <=? long_double (long_double ei * long_double ac)
      then on_hdr (btree_pivot_meta_mark_cache_resident entry);; mret true
      else if PIVOT_AC_SATURATION_THRESHOLD <=? ac
      then on_hdr reset_pivot_counts;; mmod (λ s, (s.1, now'));; mret false
      else on_hdr (btree_pivot_meta_ac_inc_atomic entry);; mret false.

(** ** Several threads on one byte *)
Inductive meta_op : Type :=
| MetaLoad
| MetaMark
| MetaClear
| MetaSet (count : Z)
| MetaInc.
(** The value an operation that is not interrupted leaves, and what it returns. *)
Definition meta_effect (o : meta_op) (b : Z) : Z * Z :=
  match o with
  | MetaLoad => (b, b)
  | MetaMark => (Z.lor b PIVOT_CACHE_RESIDENT, b)
  | MetaClear => (Z.land b (u8 (Z.lnot PIVOT_CACHE_RESIDENT)), b)
  | MetaSet count => (ac_set_value count b, b)
  | MetaInc => match ac_inc_value b with None => (b, b) | Some b' => (b', b') end
  end.

(** A thread that has not started, one in the loop of its operation with the
    value it last read, and one that has returned. *)
Inductive meta_pc : Type :=
| Start (o : meta_op)
| Loop (o : meta_op) (old : Z)
| Done (o : meta_op) (r : Z).
Record meta_state := mk_meta_state {
  meta_byte : Z;
  meta_threads : gmap nat meta_pc;
}.
Definition set_thread (i : nat) (pc : meta_pc) (s : meta_state) : meta_state :=
  mk_meta_state (meta_byte s) (<[i := pc]> (meta_threads s)).
Definition set_byte (b : Z) (s : meta_state) : meta_state := mk_meta_state b (meta_threads s).

(** What a compare-and-swap loop does with a value it has read: the exchange it
    will try, or its early return. *)
Definition loop_value (o : meta_op) (old : Z) : option Z :=
  match o with
  | MetaSet count => Some (ac_set_value count old)
  | MetaInc => ac_inc_value old
  | _ => None
  end.
Definition after_read (o : meta_op) (b : Z) : meta_pc :=
  match loop_value o b with Some _ => Loop o b | None => Done o b end.
(** A read takes effect when the loop then returns without writing. *)
Definition early_return (o : meta_op) (b : Z) : option (meta_op * Z) :=
  match loop_value o b with Some _ => None | None => Some (o, b) end.
Definition is_loop (o : meta_op) : bool := match o with MetaSet _ | MetaInc => true | _ => false end.
Definition loop_result (o : meta_op) (old new : Z) : Z := match o with MetaInc => new | _ => old end.

(** A step of thread [i]: one access to the byte, labelled with the operation and
    its result when the operation takes effect at it. *)
Inductive meta_step (i : nat) (s : meta_state) : option (meta_op * Z) → meta_state → Prop :=
| step_single o :
    meta_threads s !! i = Some (Start o) → is_loop o = false →
    meta_step i s (Some (o, (meta_effect o (meta_byte s)).2))
      (set_thread i (Done o (meta_effect o (meta_byte s)).2) (set_byte (meta_effect o (meta_byte s)).1 s))
| step_read o :
    meta_threads s !! i = Some (Start o) → is_loop o = true →
    meta_step i s (early_return o (meta_byte s))
      (set_thread i (after_read o (meta_byte s)) s)
| step_exchange o old new :
    meta_threads s !! i = Some (Loop o old) → loop_value o old = Some new → meta_byte s = old →
    meta_step i s (Some (o, loop_result o old new))
      (set_thread i (Done o (loop_result o old new)) (set_byte new s))
| step_retry o old :
    meta_threads s !! i = Some (Loop o old) → meta_byte s ≠ old →
    meta_step i s (early_return o (meta_byte s))
      (set_thread i (after_read o (meta_byte s)) s).

(** The states reachable from byte [b0], with the operations that took effect. *)
Inductive meta_reach (b0 : Z) (ops : gmap nat meta_op) : list (nat * (meta_op * Z)) → meta_state → Prop :=
| reach_init : meta_reach b0 ops [] (mk_meta_state b0 (Start <$> ops))
| reach_step tr s i l s' :
    meta_reach b0 ops tr s → meta_step i s l s' →
    meta_reach b0 ops (match l with Some e => tr ++ [(i, e)] | None => tr end) s'.
(** The operations of [tr], one after the other, from byte [b]: the byte they
    leave when each returns what [tr] says. *)
Fixpoint replay (b : Z) (tr : list (nat * (meta_op * Z))) : option Z :=
  match tr with
  | [] => Some b
  | (_, (o, r)) :: tr' => if (meta_effect o b).2 =? r then replay (meta_effect o b).1 tr' else None
  end.

(** ** The decision, as a function of the byte *)
Inductive tracking : Type :=
| Resident
| Counted (n : Z)
| Restart.
(** [t] is the time since the page was loaded or its counters restarted. *)
Definition effective_count (ei t b : Z) : Z :=
  if pivot_resident b && (pivot_count b <? t / ei - 1) then t / ei - 1 else pivot_count b.
Definition classify (ei init t b : Z) : bool * tracking :=
  if ei =? EI_NOT_READY then (true, Resident)
  else if init =? 0 then (false, Counted (pivot_count b))
  else if (0 <? pivot_count b) && (t <=? ei * pivot_count b) then (true, Resident)
  else if PIVOT_AC_SATURATION_THRESHOLD <=? effective_count ei t b then (false, Restart)
  else (false, Counted (effective_count ei t b + 1)).

Definition meta (v : pivot) : Z := child_field v mod 256.
Definition with_meta (b : Z) (v : pivot) : pivot :=
  mk_pivot (pivot_key v) (256 * (child_field v / 256) + b) (pivot_stats v).
(** What becomes of the pivots of the node, [v] being the [k]-th. *)
Definition track (k : Z) (v : pivot) (e : tracking) (vs : list pivot) : list pivot :=
  match e with
  | Resident => insertZ k (with_meta (Z.lor (meta v) PIVOT_CACHE_RESIDENT) v) vs
  | Counted n => insertZ k (with_meta n v) vs
  | Restart => insertZ k (with_meta 0 v) ((λ v, with_meta (Z.land (meta v) PIVOT_CACHE_RESIDENT) v) <$> vs)
  end.
