(* ===== verification/BtreePivotFacts.v ===== *)
(** * Facts about pivot tracking

    The atomic operations on the metadata byte, the linearization of any
    interleaving of them, and the decision as [classify] has it. *)
From S2P Require Import Prelude Bytes DataInternal BtreeNode NodeLayout BtreeLeaf BtreeIndex BtreePivot.

(** ** The byte *)
Lemma byte_forall (f : Z → bool) : forallb f (seqZ 0 256) = true → ∀ b, 0 ≤ b < 256 → f b = true.
Proof.
  intros H b Hb. rewrite forallb_forall in H. apply H.
  apply list_elem_of_In, elem_of_seqZ. lia.
Qed.
Ltac byte_cases b Hb :=
  clear - Hb; revert b Hb; apply byte_forall; vm_compute; reflexivity.

Lemma byte_parts b : 0 ≤ b < 256 →
  0 ≤ pivot_count b ≤ 127 ∧ b = (if pivot_resident b then 128 else 0) + pivot_count b.
Proof.
  intros Hb. assert (H : (0 <=? pivot_count b) && (pivot_count b <=? 127) &&
    (b =? (if pivot_resident b then 128 else 0) + pivot_count b) = true) by byte_cases b Hb.
  lia.
Qed.
Lemma byte_mark b : 0 ≤ b < 256 → Z.lor b PIVOT_CACHE_RESIDENT = 128 + pivot_count b.
Proof. intros Hb. apply Z.eqb_eq. byte_cases b Hb. Qed.
Lemma byte_clear b : 0 ≤ b < 256 → Z.land b (u8 (Z.lnot PIVOT_CACHE_RESIDENT)) = pivot_count b.
Proof. intros Hb. apply Z.eqb_eq. byte_cases b Hb. Qed.
Lemma byte_flag b : 0 ≤ b < 256 → Z.land b PIVOT_CACHE_RESIDENT = if pivot_resident b then 128 else 0.
Proof. intros Hb. apply Z.eqb_eq. byte_cases b Hb. Qed.
Lemma flag_lor f n : f = 0 ∨ f = 128 → 0 ≤ n ≤ 127 → Z.lor f n = f + n.
Proof.
  intros Hf Hn. destruct Hf as [-> | ->]; [done|].
  assert (H : (127 <? n) || (Z.lor 128 n =? 128 + n) = true); [|lia].
  assert (Hb : 0 ≤ n < 256) by lia. byte_cases n Hb.
Qed.
Lemma ac_set_spec c b : 0 ≤ b < 256 → 0 ≤ c →
  ac_set_value c b = (if pivot_resident b then 128 else 0) + Z.min c 127.
Proof.
  intros Hb Hc. unfold ac_set_value, PIVOT_AC_MASK. rewrite byte_flag by done.
  destruct (Z.ltb_spec 127 c); rewrite flag_lor by (destruct (pivot_resident b); lia); lia.
Qed.
Lemma ac_inc_spec b : 0 ≤ b < 256 → ac_inc_value b =
  if pivot_resident b || (127 <=? pivot_count b) then None else Some (pivot_count b + 1).
Proof.
  intros Hb. unfold ac_inc_value, PIVOT_AC_MASK. rewrite byte_flag by done.
  destruct (byte_parts b Hb) as [Hc _].
  destruct (pivot_resident b); [done|]. destruct (Z.leb_spec 127 (pivot_count b)); [done|].
  cbn [orb]. by rewrite flag_lor by lia.
Qed.
Lemma plain_byte n : 0 ≤ n ≤ 127 → pivot_resident n = false ∧ pivot_count n = n.
Proof.
  intros Hn. assert (Hb : 0 ≤ n < 256) by lia.
  assert (H : (127 <? n) || (negb (pivot_resident n) && (pivot_count n =? n)) = true) by byte_cases n Hb.
  destruct (pivot_resident n); cbn in H; lia.
Qed.
Lemma flagged_byte n : 0 ≤ n ≤ 127 → pivot_resident (128 + n) = true ∧ pivot_count (128 + n) = n.
Proof.
  intros Hn. assert (Hb : 0 ≤ n < 256) by lia.
  assert (H : (127 <? n) || (pivot_resident (128 + n) && (pivot_count (128 + n) =? n)) = true) by byte_cases n Hb.
  destruct (pivot_resident (128 + n)); cbn in H; lia.
Qed.

(** ** Linearization *)
Definition op_ok (o : meta_op) : Prop := match o with MetaSet c => 0 ≤ c < 256 | _ => True end.
Lemma effect_byte o b : op_ok o → 0 ≤ b < 256 → 0 ≤ (meta_effect o b).1 < 256.
Proof.
  intros Ho Hb. destruct (byte_parts b Hb) as [Hc _]. destruct o; cbn.
  - done.
  - rewrite byte_mark by done. lia.
  - rewrite byte_clear by done. lia.
  - rewrite ac_set_spec by (done || (cbn in Ho; lia)). cbn in Ho. destruct (pivot_resident b); lia.
  - rewrite ac_inc_spec by done. destruct (pivot_resident b); cbn; [done|].
    destruct (Z.leb_spec 127 (pivot_count b)); cbn; lia.
Qed.
Lemma loop_effect o b : is_loop o = true →
  meta_effect o b = match loop_value o b with Some b' => (b', loop_result o b b') | None => (b, b) end.
Proof. by destruct o. Qed.

Lemma replay_app b tr tr' : replay b (tr ++ tr') = replay b tr ≫= λ b', replay b' tr'.
Proof.
  revert b. induction tr as [|[i [o r]] tr IH]; intros b; [done|]. cbn.
  destruct ((meta_effect o b).2 =? r); [apply IH|done].
Qed.

(** The events of thread [i]. *)
Definition events (i : nat) (tr : list (nat * (meta_op * Z))) : list (nat * (meta_op * Z)) :=
  filter (λ e, e.1 = i) tr.
Definition pc_ok (i : nat) (o : meta_op) (tr : list (nat * (meta_op * Z))) (pc : meta_pc) : Prop :=
  match pc with
  | Start o' => o' = o ∧ events i tr = []
  | Loop o' old => o' = o ∧ events i tr = [] ∧ is_loop o = true ∧ is_Some (loop_value o old)
  | Done o' r => o' = o ∧ events i tr = [(i, (o, r))]
  end.
Record meta_inv (b0 : Z) (ops : gmap nat meta_op) (tr : list (nat * (meta_op * Z))) (s : meta_state) : Prop := {
  inv_replay : replay b0 tr = Some (meta_byte s);
  inv_byte : 0 ≤ meta_byte s < 256;
  inv_threads i o : ops !! i = Some o → ∃ pc, meta_threads s !! i = Some pc ∧ pc_ok i o tr pc;
  inv_no_thread i : ops !! i = None → meta_threads s !! i = None ∧ events i tr = [];
}.

Lemma events_app i tr e : events i (tr ++ [e]) = events i tr ++ (if decide (e.1 = i) then [e] else []).
Proof. unfold events. rewrite list.filter_app. cbn. by destruct (decide (e.1 = i)). Qed.

Section linearize.
Context (b0 : Z) (ops : gmap nat meta_op).
Context (Hb0 : 0 ≤ b0 < 256) (Hops : ∀ i o, ops !! i = Some o → op_ok o).

(** The operation of thread [i] takes effect, or the thread moves on without. *)
Lemma inv_effect tr s i o b' r : meta_inv b0 ops tr s → ops !! i = Some o → events i tr = [] →
  meta_effect o (meta_byte s) = (b', r) →
  meta_inv b0 ops (tr ++ [(i, (o, r))]) (set_thread i (Done o r) (set_byte b' s)).
Proof using Hops.
  intros [Hr Hb Ht Hn] Ho He Heff. split; cbn [set_thread set_byte meta_byte meta_threads].
  - rewrite replay_app, Hr. cbn. by rewrite Heff, Z.eqb_refl.
  - pose proof (effect_byte o _ (Hops _ _ Ho) Hb) as H. by rewrite Heff in H.
  - intros j oj Hj. destruct (decide (j = i)) as [->|Hne].
    + replace oj with o by congruence. exists (Done o r). rewrite lookup_insert_eq.
      split; [done|]. split; [done|]. rewrite events_app, He. by destruct (decide _).
    + destruct (Ht j oj Hj) as (pc & Hpc & Hok). exists pc. rewrite lookup_insert_ne by done.
      split; [done|]. assert (E : events j (tr ++ [(i, (o, r))]) = events j tr).
      { rewrite events_app. cbn [fst]. rewrite decide_False by congruence. apply app_nil_r. }
      unfold pc_ok. rewrite E. done.
  - intros j Hj. destruct (decide (j = i)) as [->|Hne]; [congruence|].
    destruct (Hn j Hj). rewrite lookup_insert_ne, events_app by done. cbn [fst].
    rewrite decide_False, app_nil_r by congruence. done.
Qed.
Lemma inv_wait tr s i o pc : meta_inv b0 ops tr s → ops !! i = Some o → pc_ok i o tr pc →
  meta_inv b0 ops tr (set_thread i pc s).
Proof using.
  intros [Hr Hb Ht Hn] Ho Hpc. split; cbn [set_thread meta_byte meta_threads]; [done|done| |].
  - intros j oj Hj. destruct (decide (j = i)) as [->|Hne].
    + exists pc. rewrite lookup_insert_eq. replace oj with o by congruence. done.
    + rewrite lookup_insert_ne by done. by apply Ht.
  - intros j Hj. destruct (decide (j = i)) as [->|Hne]; [congruence|]. rewrite lookup_insert_ne by done. by apply Hn.
Qed.
(** A read of the byte in a loop. *)
Lemma inv_read tr s i o : meta_inv b0 ops tr s → ops !! i = Some o → events i tr = [] → is_loop o = true →
  meta_inv b0 ops (match early_return o (meta_byte s) with Some e => tr ++ [(i, e)] | None => tr end)
    (set_thread i (after_read o (meta_byte s)) s).
Proof using Hops.
  intros Hinv Ho He Hl. unfold early_return, after_read.
  pose proof (loop_effect o (meta_byte s) Hl) as Heff.
  destruct (loop_value o (meta_byte s)) as [b'|] eqn:Hv.
  - apply (inv_wait _ _ _ o); [done..|]. cbn. rewrite Hv. eauto.
  - pose proof (inv_effect tr s i o _ _ Hinv Ho He Heff) as H. by destruct s.
Qed.
Lemma meta_inv_pc tr s i pc : meta_inv b0 ops tr s → meta_threads s !! i = Some pc →
  ∃ o, ops !! i = Some o ∧ pc_ok i o tr pc.
Proof using.
  intros [_ _ Ht Hn] Hpc. destruct (ops !! i) as [o|] eqn:Ho.
  - exists o. split; [done|]. destruct (Ht i o Ho) as (pc' & Hpc' & ?). by replace pc with pc' by congruence.
  - destruct (Hn i Ho). congruence.
Qed.
Lemma inv_step tr s i l s' : meta_inv b0 ops tr s → meta_step i s l s' →
  meta_inv b0 ops (match l with Some e => tr ++ [(i, e)] | None => tr end) s'.
Proof using Hops.
  intros Hinv [o Hpc Hl|o Hpc Hl|o old new Hpc Hv Hb|o old Hpc Hb];
    destruct (meta_inv_pc _ _ _ _ Hinv Hpc) as (o' & Ho & Hok); cbn in Hok.
  - destruct Hok as [<- He]. apply inv_effect; try done. by destruct (meta_effect o (meta_byte s)).
  - destruct Hok as [<- He]. by apply inv_read.
  - destruct Hok as (<- & He & Hl & _). apply inv_effect; try done. rewrite loop_effect by done.
    by rewrite Hb, Hv.
  - destruct Hok as (<- & He & Hl & _). by apply inv_read.
Qed.
Lemma inv_reach tr s : meta_reach b0 ops tr s → meta_inv b0 ops tr s.
Proof using Hb0 Hops.
  induction 1 as [|tr s i l s' _ IH Hs].
  - split; cbn; [done|done| |].
    + intros i o Ho. exists (Start o). rewrite lookup_fmap, Ho. done.
    + intros i Ho. by rewrite lookup_fmap, Ho.
  - by eapply inv_step.
Qed.

(** A thread that runs alone returns within two accesses. *)
Lemma read_step tr s i o : meta_inv b0 ops tr s → ops !! i = Some o → events i tr = [] → is_loop o = true →
  let s' := set_thread i (after_read o (meta_byte s)) s in
  (∃ r, meta_threads s' !! i = Some (Done o r)) ∨
  ∃ l s'' r, meta_step i s' l s'' ∧ meta_threads s'' !! i = Some (Done o r).
Proof using.
  intros Hinv Ho He Hl. cbn. unfold after_read. destruct (loop_value o (meta_byte s)) as [b'|] eqn:Hv.
  - right. eexists _, _, _. split.
    + eapply step_exchange; [cbn; by rewrite lookup_insert_eq|exact Hv|done].
    + cbn. by rewrite lookup_insert_eq.
  - left. eexists. by rewrite lookup_insert_eq.
Qed.
End linearize.

(** ** Comparing in [long double] *)
Lemma long_double_small z : z < 2 ^ 64 → long_double z = z.
Proof. intros Hz. unfold long_double. by rewrite (proj2 (Z.ltb_lt _ _)). Qed.
Lemma long_double_le t p : t < 2 ^ 64 → (t <=? long_double p) = (t <=? p).
Proof.
  intros Ht. unfold long_double. destruct (Z.ltb_spec p (2 ^ 64)) as [Hp|Hp]; [done|].
  assert (Hlog : 64 ≤ Z.log2 p) by (apply Z.log2_le_pow2; lia).
  set (e := Z.log2 p - 63). assert (He : 1 ≤ e) by lia.
  assert (Hq : 2 ^ 63 ≤ p / 2 ^ e).
  { apply Z.div_le_lower_bound; [lia|]. rewrite <-Z.pow_add_r by lia.
    replace (e + 63) with (Z.log2 p) by lia. apply Z.log2_spec. lia. }
  assert (H2 : 2 ≤ 2 ^ e) by (change 2 with (2 ^ 1) at 1; apply Z.pow_le_mono_r; lia).
  rewrite (proj2 (Z.leb_le t p)) by lia. apply Z.leb_le.
  assert (2 ^ 64 ≤ p / 2 ^ e * 2 ^ e) by (change (2 ^ 64) with (2 ^ 63 * 2); nia).
  destruct (_ || _); nia.
Qed.

(** ** The byte in the node *)
Lemma meta_range v : 0 ≤ meta v < 256.
Proof. apply Z.mod_pos_bound. lia. Qed.
Lemma field_meta v : child_field v = 256 * (child_field v / 256) + meta v.
Proof. apply Z.div_mod. lia. Qed.
Lemma with_meta_meta b v : 0 ≤ b < 256 → meta (with_meta b v) = b.
Proof.
  intros Hb. unfold meta, with_meta. cbn [child_field].
  rewrite Z.add_comm, Z.mul_comm, Z.mod_add by lia. by apply Z.mod_small.
Qed.
Lemma with_meta_div b v : 0 ≤ b < 256 → child_field (with_meta b v) / 256 = child_field v / 256.
Proof.
  intros Hb. cbn [with_meta child_field].
  rewrite Z.add_comm, Z.mul_comm, Z.div_add by lia. rewrite Z.div_small by lia. lia.
Qed.
Lemma with_meta_twice b b' v : 0 ≤ b' < 256 → with_meta b (with_meta b' v) = with_meta b v.
Proof. intros Hb. unfold with_meta at 1 3. by rewrite with_meta_div. Qed.
Lemma with_meta_same v : with_meta (meta v) v = v.
Proof. unfold with_meta. rewrite <-field_meta. by destruct v. Qed.
Lemma with_meta_ok b v : 0 ≤ b < 256 → pivot_ok v → pivot_ok (with_meta b v).
Proof.
  intros Hb (Hk & Hf & Hs). split; [done|]. split; [|done]. cbn [with_meta child_field].
  pose proof (field_meta v). pose proof (meta_range v).
  assert (child_field v / 256 < 2 ^ 56) by (apply Z.div_lt_upper_bound; lia).
  assert (0 ≤ child_field v / 256) by (apply Z.div_pos; lia). lia.
Qed.
Lemma le_bytes_cons n z : le_bytes (S n) z = z mod 256 :: le_bytes n (z / 256).
Proof. done. Qed.
Lemma child_bytes b v : 0 ≤ b < 256 → le_bytes 8 (child_field (with_meta b v)) = b :: le_bytes 7 (child_field v / 256).
Proof.
  intros Hb. rewrite le_bytes_cons. fold (meta (with_meta b v)).
  by rewrite with_meta_meta, with_meta_div by done.
Qed.

(** The metadata byte is not part of the address. *)
Lemma clean_with_meta b v : 0 ≤ b < 256 → clean (with_meta b v) = clean v.
Proof.
  intros Hb. unfold clean. cbn [with_meta pivot_key pivot_stats]. f_equal. unfold child_addr.
  change 4095 with (Z.ones 12). rewrite <-!Z.ldiff_land, !Z.ldiff_ones_r by lia.
  f_equal. rewrite !Z.shiftr_div_pow2 by lia. change (2 ^ 12) with (256 * 16).
  rewrite <-!Z.div_div by lia. by rewrite with_meta_div.
Qed.

Section node.
Context (ps : Z).
Implicit Types (l : list (Z * pivot)) (h : btree_hdr) (v : pivot).

Lemma meta_load_run h l k o v : node_repr ps h l → lookupZ l k = Some (o, v) →
  btree_pivot_meta_load h o = Some (meta v).
Proof.
  intros Hr Hk. destruct (repr_slot_full _ _ _ _ _ Hr Hk) as [_ _ _ (Hok & Hf & _)]. cbn in Hf.
  unfold btree_pivot_meta_load. apply holds_le1; [apply meta_range|].
  rewrite (le_bytes_cons 7) in Hf. change (?x :: ?y) with ([x] ++ y) in Hf.
  apply holds_app in Hf as [Hf _]. rewrite le_bytes_cons. unfold meta.
  by rewrite Z.mod_mod by lia.
Qed.
(** Nothing but the metadata of pivots differs. *)
Definition tracked h h' : Prop := same_links h h' ∧ next_entry h' = next_entry h.
Lemma tracked_refl h : tracked h h.
Proof. done. Qed.
Lemma tracked_trans h h1 h2 : tracked h h1 → tracked h1 h2 → tracked h h2.
Proof. intros [? ?] [? ?]. split; [by eapply same_links_trans|congruence]. Qed.

Lemma on_meta_run h l k o v f : node_repr ps h l → lookupZ l k = Some (o, v) →
  0 ≤ f (meta v) < 256 →
  ∃ h', on_meta o f h = Ret (tt, h') ∧ node_repr ps h' (insertZ k (o, with_meta (f (meta v)) v) l) ∧ tracked h h'.
Proof.
  intros Hr Hk Hb. pose proof (meta_load_run _ _ _ _ _ Hr Hk) as Hl. unfold btree_pivot_meta_load in Hl.
  destruct (repr_slot_full _ _ _ _ _ Hr Hk) as [_ Hlow Hhigh Hat]. cbn in Hlow, Hhigh, Hat.
  pose proof (repr_length _ _ _ _ Hr) as HL. pose proof (pivot_size_pos v) as Hpos.
  pose proof (slot_range _ _ _ _ _ _ Hr I Hk) as (_ & _ & Ho & _). cbn in Ho.
  destruct (mem_write_ok (page h) o (le_bytes 1 (f (meta v)))) as [p' Hw]; [lia|rewrite lengthZ_le_bytes; lia|].
  exists (set_page p' h). split; [|split; [|done]].
  - unfold on_meta, on_page, mbind, M_bind, mget, mopt, mmod. rewrite Hl. cbn. unfold put_le. by rewrite Hw.
  - assert (Hone : outside (page h) p' o (o + 1)).
    { eapply outside_write; [exact Hw|lia|rewrite lengthZ_le_bytes; lia|apply outside_refl]. }
    assert (Hsz : 1 < esize (with_meta (f (meta v)) v)).
    { cbn. unfold pivot_size. pose proof (key_length_nonneg (pivot_key (with_meta (f (meta v)) v))). lia. }
    eapply repr_overwrite; [exact Hr|exact Hk|done|by eapply outside_mono; [| |exact Hone]; lia|].
    destruct Hat as (Hok & Hf & H2 & H3 & H4 & H5). split; [by apply with_meta_ok|].
    assert (Hkeep : ∀ off bs, o + 1 ≤ off → holds (page h) off bs → holds p' off bs).
    { intros off bs Hoff Hh. eapply mem_write_keep; [exact Hw| |exact Hh].
      rewrite lengthZ_le_bytes. lia. }
    split.
    + rewrite child_bytes by done. change (?x :: ?y) with ([x] ++ y). apply holds_app. split.
      * pose proof (mem_write_holds _ _ _ _ Hw) as Hh. rewrite le_bytes_cons in Hh.
        by rewrite Z.mod_small in Hh by done.
      * rewrite (le_bytes_cons 7) in Hf. change (?x :: ?y) with ([x] ++ y) in Hf.
        apply holds_app in Hf as [_ Hf]. apply Hkeep; [unfold lengthZ; cbn; lia|done].
    + split_and!; [apply Hkeep; [lia|done]..|].
      destruct H5 as (Hfit & Hlen & Hdat). split; [done|]. split; (apply Hkeep; [lia|done]).
Qed.

(** ** The counters of a node *)
Definition reset_slot (s : Z * pivot) : Z * pivot := (s.1, with_meta (Z.land (meta s.2) PIVOT_CACHE_RESIDENT) s.2).
Definition reset_first (j : Z) l : list (Z * pivot) := (reset_slot <$> take (Z.to_nat j) l) ++ drop (Z.to_nat j) l.
Lemma flag_value b : 0 ≤ b < 256 → ac_set_value 0 b = Z.land b PIVOT_CACHE_RESIDENT.
Proof. intros Hb. rewrite ac_set_spec, byte_flag by lia. destruct (pivot_resident b); lia. Qed.

Lemma reset_first_step l j s : lookupZ l j = Some s →
  lookupZ (reset_first j l) j = Some s ∧ insertZ j (reset_slot s) (reset_first j l) = reset_first (j + 1) l.
Proof.
  intros Hj. pose proof (lookupZ_Some _ _ _ Hj) as Hb. unfold reset_first.
  unfold lookupZ in Hj. rewrite bool_decide_true in Hj by lia.
  assert (Hlen : length (reset_slot <$> take (Z.to_nat j) l) = Z.to_nat j).
  { rewrite length_fmap, length_take. unfold lengthZ in Hb. lia. }
  replace (Z.to_nat (j + 1)) with (S (Z.to_nat j)) by lia.
  rewrite (take_S_r _ _ _ Hj), (drop_S _ _ _ Hj), fmap_app. cbn [fmap list_fmap]. split.
  - unfold lookupZ. rewrite bool_decide_true by lia. rewrite lookup_app_r by lia.
    by rewrite Hlen, Nat.sub_diag.
  - unfold insertZ. rewrite bool_decide_true by lia. rewrite insert_app_r_alt by lia.
    rewrite Hlen, Nat.sub_diag. cbn. by rewrite <-app_assoc.
Qed.

Lemma reset_loop n : ∀ h l j, node_repr ps h (reset_first j l) → 0 ≤ j → j + Z.of_nat n = lengthZ l →
  ∃ h', mfor n j (λ j, h ← mget; sibling ← mopt (btree_get_index_entry h j); btree_pivot_meta_ac_set sibling 0) h
      = Ret (tt, h') ∧ node_repr ps h' (reset_first (lengthZ l) l) ∧ tracked h h'.
Proof.
  induction n as [|n IH]; intros h l j Hr Hj Hn; cbn [mfor].
  - exists h. replace (lengthZ l) with j by lia. done.
  - destruct (proj2 (lookupZ_is_Some l j) ltac:(lia)) as [[o v] Hl].
    destruct (reset_first_step l j (o, v) Hl) as [Hat Hins].
    destruct (index_get _ _ _ _ _ _ Hr Hat) as (Ho & _).
    pose proof (meta_range v). pose proof (flag_value (meta v) ltac:(lia)) as Hf.
    destruct (on_meta_run h (reset_first j l) j o v (ac_set_value 0) Hr Hat) as (h1 & Hrun & Hr1 & Ht1).
    { rewrite ac_set_spec by lia. destruct (pivot_resident (meta v)); lia. }
    rewrite Hf in Hr1. fold (reset_slot (o, v)) in Hr1. cbn [fst snd] in Hr1.
    change (o, with_meta (Z.land (meta v) PIVOT_CACHE_RESIDENT) v) with (reset_slot (o, v)) in Hr1. rewrite Hins in Hr1.
    destruct (IH h1 l (j + 1) Hr1) as (h' & Hrun' & Hr' & Ht'); [lia..|].
    exists h'. split; [|split; [done|by eapply tracked_trans]].
    rewrite (bind_run _ _ h tt h1); [done|]. rewrite run_get, (run_opt _ _ _ _ Ho). exact Hrun.
Qed.
Lemma reset_run h l : node_repr ps h l →
  ∃ h', reset_pivot_counts h = Ret (tt, h') ∧ node_repr ps h' (reset_slot <$> l) ∧ tracked h h'.
Proof.
  intros Hr. pose proof (lengthZ_nonneg l).
  destruct (reset_loop (Z.to_nat (num_entries h)) h l 0) as (h' & Hrun & Hr' & Ht).
  - exact Hr.
  - lia.
  - rewrite (repr_num _ _ _ _ Hr). lia.
  - exists h'. split; [exact Hrun|]. split; [|done].
    unfold reset_first, lengthZ in Hr'. by rewrite Nat2Z.id, firstn_all, drop_all, app_nil_r in Hr'.
Qed.
End node.

Lemma on_hdr_run {A} (m : N A) h e a h' : m h = Ret (a, h') → on_hdr m (h, e) = Ret (a, (h', e)).
Proof. unfold on_hdr. cbn [fst snd]. by intros ->. Qed.
Lemma on_hdr_bind {A B} (m : N A) (f : A → P B) h e a h' : m h = Ret (a, h') → (on_hdr m ≫= f) (h, e) = f a (h', e).
Proof. intros H. apply bind_run, on_hdr_run, H. Qed.

(** ** The decision *)
Lemma classify_compensated ei t b : 0 < ei → 0 ≤ t → 0 ≤ b < 256 → effective_count ei t b ≠ 0 →
  (t <=? ei * effective_count ei t b) = (0 <? pivot_count b) && (t <=? ei * pivot_count b).
Proof.
  intros He Ht Hb. destruct (byte_parts b Hb) as [Hc _]. unfold effective_count.
  destruct (pivot_resident b); cbn [andb].
  - destruct (Z.ltb_spec (pivot_count b) (t / ei - 1)) as [Hlt|Hge]; intros Hne.
    + pose proof (Z.mul_div_le t ei He). rewrite (proj2 (Z.leb_gt _ _)) by nia.
      rewrite (proj2 (Z.leb_gt t (ei * pivot_count b))) by nia. by rewrite andb_false_r.
    + rewrite (proj2 (Z.ltb_lt _ _)) by lia. done.
  - intros Hne. rewrite (proj2 (Z.ltb_lt _ _)) by lia. done.
Qed.
Lemma effective_count_range ei t b : 0 < ei → 0 ≤ t < 2 ^ 64 → 0 ≤ b < 256 →
  pivot_count b ≤ effective_count ei t b < 2 ^ 64.
Proof.
  intros He Ht Hb. destruct (byte_parts b Hb) as [Hc _]. unfold effective_count.
  assert (t / ei ≤ t) by (apply Z.div_le_upper_bound; nia).
  destruct (pivot_resident b); cbn [andb]; [|lia].
  destruct (Z.ltb_spec (pivot_count b) (t / ei - 1)); lia.
Qed.

Section classify_run.
Context (ps : Z) (k o : Z) (v : pivot) (l : list (Z * pivot)).
Context (Hk : lookupZ l k = Some (o, v)).
Implicit Types (h : btree_hdr).

(** The node with metadata [c] for the pivot. *)
Local Abbreviation repr_at h c := (node_repr ps h (insertZ k (o, with_meta c v) l)).

Lemma repr_at_meta h : node_repr ps h l → repr_at h (meta v).
Proof using Hk. intros Hr. rewrite with_meta_same. by rewrite insertZ_id. Qed.
Lemma at_lookup c : lookupZ (insertZ k (o, with_meta c v) l) k = Some (o, with_meta c v).
Proof using Hk. pose proof (lookupZ_Some _ _ _ Hk). by apply lookupZ_insertZ_eq. Qed.
Lemma on_meta_at h c f : repr_at h c → 0 ≤ c < 256 → 0 ≤ f c < 256 →
  ∃ h', on_meta o f h = Ret (tt, h') ∧ repr_at h' (f c) ∧ tracked h h'.
Proof using Hk.
  intros Hr Hc Hf.
  destruct (on_meta_run ps h _ k o (with_meta c v) f Hr (at_lookup c)) as (h' & Hrun & Hr' & Ht);
    [by rewrite with_meta_meta|].
  exists h'. split; [done|]. split; [|done].
  by rewrite with_meta_meta, with_meta_twice, insertZ_insertZ in Hr' by done.
Qed.
Lemma load_at h c : repr_at h c → 0 ≤ c < 256 → btree_pivot_meta_load h o = Some c.
Proof using Hk.
  intros Hr Hc. rewrite (meta_load_run ps h _ k o (with_meta c v) Hr (at_lookup c)).
  by rewrite with_meta_meta.
Qed.
Lemma mark_at h c : repr_at h c → 0 ≤ c < 256 →
  ∃ h', btree_pivot_meta_mark_cache_resident o h = Ret (tt, h') ∧ repr_at h' (128 + pivot_count c) ∧ tracked h h'.
Proof using Hk.
  intros Hr Hc. destruct (byte_parts c Hc). rewrite <-(byte_mark c Hc).
  apply (on_meta_at h c (λ b, Z.lor b PIVOT_CACHE_RESIDENT)); [done|done|]. rewrite byte_mark by done. lia.
Qed.
Lemma clear_at h c : repr_at h c → 0 ≤ c < 256 →
  ∃ h', btree_pivot_meta_clear_cache_resident o h = Ret (tt, h') ∧ repr_at h' (pivot_count c) ∧ tracked h h'.
Proof using Hk.
  intros Hr Hc. destruct (byte_parts c Hc). rewrite <-(byte_clear c Hc).
  apply (on_meta_at h c (λ b, Z.land b (u8 (Z.lnot PIVOT_CACHE_RESIDENT)))); [done|done|]. rewrite byte_clear by done. lia.
Qed.
Lemma set_at_run h c n : repr_at h c → 0 ≤ c ≤ 127 → 0 ≤ n →
  ∃ h', btree_pivot_meta_ac_set o n h = Ret (tt, h') ∧ repr_at h' (Z.min n 127) ∧ tracked h h'.
Proof using Hk.
  intros Hr Hc Hn. destruct (plain_byte c Hc) as [Hp _].
  assert (E : ac_set_value n c = Z.min n 127) by (rewrite ac_set_spec, Hp by lia; lia).
  rewrite <-E. apply (on_meta_at h c (ac_set_value n)); [done|lia|lia].
Qed.
Lemma inc_at h c : repr_at h c → 0 ≤ c < 127 →
  ∃ h', btree_pivot_meta_ac_inc_atomic o h = Ret (tt, h') ∧ repr_at h' (c + 1) ∧ tracked h h'.
Proof using Hk.
  intros Hr Hc. destruct (plain_byte c ltac:(lia)) as [Hp Hpc].
  assert (E : default c (ac_inc_value c) = c + 1).
  { rewrite ac_inc_spec, Hp, Hpc by lia. rewrite (proj2 (Z.leb_gt _ _)) by lia. done. }
  rewrite <-E. apply (on_meta_at h c (λ b, default b (ac_inc_value b))); [done|lia|lia].
Qed.
Lemma reset_at h c : repr_at h c → 0 ≤ c ≤ 127 →
  ∃ h' l', reset_pivot_counts h = Ret (tt, h') ∧ node_repr ps h' l' ∧ l'.*2 = track k v Restart l.*2 ∧ tracked h h'.
Proof using Hk.
  intros Hr Hc. destruct (reset_run ps h _ Hr) as (h' & Hrun & Hr' & Ht).
  eexists h', _. split; [done|]. split; [exact Hr'|]. split; [|done].
  destruct (plain_byte c Hc) as [Hp _]. pose proof (lookupZ_Some _ _ _ Hk) as Hb.
  cbn [track]. unfold insertZ. rewrite bool_decide_true by lia. rewrite list_fmap_insert, list_fmap_insert.
  unfold reset_slot at 1. cbn [fst snd].
  rewrite with_meta_meta, byte_flag, Hp, with_meta_twice by lia. f_equal.
  rewrite <-!list_fmap_compose. done.
Qed.

(** The first two steps: the flag is read, and cleared. *)
Lemma unflag_run h e (g : P bool) : node_repr ps h l →
  ∃ h', ((if pivot_resident (meta v) then on_hdr (btree_pivot_meta_clear_cache_resident o) else mret tt);; g) (h, e)
      = g (h', e) ∧ repr_at h' (pivot_count (meta v)) ∧ tracked h h'.
Proof using Hk.
  intros Hr. apply repr_at_meta in Hr. pose proof (meta_range v) as Hm.
  destruct (byte_parts (meta v) Hm) as [_ Hp].
  destruct (pivot_resident (meta v)).
  - destruct (clear_at h (meta v) Hr Hm) as (h' & Hrun & Hr' & Ht).
    exists h'. by rewrite (on_hdr_bind _ _ _ _ _ _ Hrun).
  - exists h. split; [done|]. by replace (pivot_count (meta v)) with (meta v) by lia.
Qed.
(** The compensation leaves the smaller of the count and the counter's maximum. *)
Lemma compensate_run h e ei t b : 0 < ei → 0 ≤ t → 0 ≤ b < 256 → repr_at h (pivot_count b) →
  ∃ h', compensate o ei t (pivot_resident b) (pivot_count b) (h, e) = Ret (effective_count ei t b, (h', e)) ∧
    repr_at h' (Z.min (effective_count ei t b) 127) ∧ tracked h h'.
Proof using Hk.
  intros He Ht Hb Hr. destruct (byte_parts b Hb) as [Hc _]. unfold compensate, effective_count.
  rewrite (proj2 (Z.ltb_lt 0 ei)) by done. rewrite andb_true_r.
  assert (Hmax : (if 0 <? t / ei then t / ei - 1 else 0) = Z.max 0 (t / ei - 1)).
  { pose proof (Z.div_pos t ei Ht He). destruct (Z.ltb_spec 0 (t / ei)); lia. }
  rewrite Hmax. destruct (pivot_resident b); cbn [andb].
  2: { exists h. rewrite Z.min_l by lia. done. }
  destruct (Z.ltb_spec (pivot_count b) (t / ei - 1)) as [Hlt|Hge].
  - rewrite Z.max_r by lia. rewrite (proj2 (Z.ltb_lt _ _)) by lia.
    assert (Hmin : (if 127 <? t / ei - 1 then 127 else t / ei - 1) = Z.min (t / ei - 1) 127)
      by (destruct (Z.ltb_spec 127 (t / ei - 1)); lia).
    rewrite Hmin. destruct (set_at_run h _ (Z.min (t / ei - 1) 127) Hr Hc) as (h' & Hrun & Hr' & Ht'); [lia|].
    exists h'. rewrite (on_hdr_bind _ _ _ _ _ _ Hrun). split; [done|]. split; [|done].
    by rewrite <-Z.min_assoc in Hr'.
  - rewrite (proj2 (Z.ltb_ge _ _)) by lia. exists h. rewrite Z.min_l by lia. done.
Qed.

Definition after_classify h ei init now now' (r : outcome (bool * (btree_hdr * Z))) : Prop :=
  let '(warm, e) := classify ei init (u64 (now - init)) (meta v) in
  ∃ h' l', r = Ret (warm, (h', if e is Restart then now' else init)) ∧
    node_repr ps h' l' ∧ l'.*2 = track k v e l.*2 ∧ tracked h h'.

Lemma slot_track c : (insertZ k (o, with_meta c v) l).*2 = insertZ k (with_meta c v) l.*2.
Proof using Hk.
  pose proof (lookupZ_Some _ _ _ Hk). rewrite snd_insertZ by lia. unfold set_at.
  by rewrite lengthZ_fmap, (proj2 (Z.ltb_lt _ _)) by lia.
Qed.

(** The comparison and what follows it. *)
Lemma classify_tail h h0 ei init now now' t ac : tracked h0 h → 0 < ei < 2 ^ 64 → 0 ≤ t < 2 ^ 64 →
  ac = effective_count ei t (meta v) → repr_at h (Z.min ac 127) → init ≠ 0 → t = u64 (now - init) →
  after_classify h0 ei init now now'
    ((if ac =? 0 then on_hdr (btree_pivot_meta_ac_inc_atomic o);; mret false
      else if long_double t <=? long_double (long_double ei * long_double ac)
      then on_hdr (btree_pivot_meta_mark_cache_resident o);; mret true
      else if PIVOT_AC_SATURATION_THRESHOLD <=? ac
      then on_hdr reset_pivot_counts;; mmod (λ s, (s.1, now'));; mret false
      else on_hdr (btree_pivot_meta_ac_inc_atomic o);; mret false) (h, init)).
Proof using Hk.
  intros Hh He Ht -> Hr Hi Hnow. pose proof (meta_range v) as Hm. set (b := meta v) in *.
  pose proof (effective_count_range ei t b (proj1 He) Ht Hm) as Hac. destruct (byte_parts b Hm) as [Hc _].
  unfold after_classify, classify. fold b. rewrite <-Hnow. unfold EI_NOT_READY, PIVOT_AC_SATURATION_THRESHOLD, PIVOT_AC_MASK.
  rewrite (proj2 (Z.eqb_neq ei 0)), (proj2 (Z.eqb_neq init 0)) by lia.
  destruct (Z.eqb_spec (effective_count ei t b) 0) as [E0|E0].
  - assert (Hz : pivot_count b = 0) by lia. rewrite Hz, E0 in *. cbn [andb Z.ltb Z.leb Z.compare Z.add Z.min] in *.
    destruct (inc_at h 0 Hr ltac:(lia)) as (h' & Hrun & Hr' & Htr).
    rewrite (on_hdr_bind _ _ _ _ _ _ Hrun). exists h', (insertZ k (o, with_meta (0 + 1) v) l).
    split; [done|]. split; [done|]. split; [apply slot_track|by eapply tracked_trans].
  - rewrite (long_double_small t), (long_double_small ei), (long_double_small (effective_count _ _ _)) by lia.
    rewrite long_double_le by lia. rewrite classify_compensated by (done || lia).
    destruct ((0 <? pivot_count b) && (t <=? ei * pivot_count b)) eqn:Hwarm.
    + rewrite <-classify_compensated in Hwarm by (done || lia). apply Z.leb_le in Hwarm.
      assert (E : effective_count ei t b = pivot_count b).
      { revert Hwarm. unfold effective_count. destruct (pivot_resident b); cbn [andb]; [|done].
        destruct (Z.ltb_spec (pivot_count b) (t / ei - 1)); [|done].
        pose proof (Z.mul_div_le t ei (proj1 He)). nia. }
      rewrite E, Z.min_l in Hr by lia.
      destruct (mark_at h (pivot_count b) Hr) as (h' & Hrun & Hr' & Htr); [lia|].
      rewrite (on_hdr_bind _ _ _ _ _ _ Hrun). exists h', (insertZ k (o, with_meta (128 + pivot_count b) v) l).
      split; [done|]. rewrite (proj2 (plain_byte _ Hc)) in Hr'. split; [done|].
      split; [|by eapply tracked_trans]. rewrite slot_track. cbn [track]. fold b. by rewrite byte_mark.
    + destruct (Z.leb_spec 127 (effective_count ei t b)) as [Hs|Hs].
      * rewrite Z.min_r in Hr by done.
        destruct (reset_at h 127 Hr) as (h' & l' & Hrun & Hr' & Hl' & Htr); [lia|].
        rewrite (on_hdr_bind _ _ _ _ _ _ Hrun), run_mod. exists h', l'.
        split; [done|]. split; [done|]. split; [done|by eapply tracked_trans].
      * rewrite Z.min_l in Hr by lia.
        destruct (inc_at h _ Hr) as (h' & Hrun & Hr' & Htr); [lia|].
        rewrite (on_hdr_bind _ _ _ _ _ _ Hrun). eexists h', _. split; [done|]. split; [exact Hr'|].
        split; [apply slot_track|by eapply tracked_trans].
Qed.

Lemma classify_run h ei init now now' : node_repr ps h l → 0 ≤ ei < 2 ^ 64 →
  after_classify h ei init now now' (btree_update_ac_and_classify_warm ei now now' o (h, init)).
Proof using Hk.
  intros Hr He. pose proof (meta_range v) as Hm. destruct (byte_parts (meta v) Hm) as [Hc _].
  unfold btree_update_ac_and_classify_warm. rewrite run_get. cbn [fst].
  unfold pivot_is_cache_resident. rewrite (meta_load_run _ _ _ _ _ _ Hr Hk). cbn [fmap option_fmap option_map].
  rewrite (run_opt _ _ _ _ eq_refl).
  edestruct (unflag_run h init) as (h1 & Hrun & Hr1 & Ht1); [exact Hr|]. rewrite Hrun. clear Hrun.
  cbv zeta. cbn [snd].
  unfold EI_NOT_READY. destruct (Z.eqb_spec ei 0) as [->|Hei].
  { destruct (mark_at h1 _ Hr1) as (h' & Hrun & Hr' & Htr); [lia|].
    rewrite (on_hdr_bind _ _ _ _ _ _ Hrun). unfold after_classify, classify. cbn.
    exists h', (insertZ k (o, with_meta (128 + pivot_count (meta v)) v) l).
    split; [done|]. rewrite (proj2 (plain_byte _ Hc)) in Hr'. split; [done|].
    split; [|by eapply tracked_trans]. rewrite slot_track. by rewrite byte_mark. }
  destruct (Z.eqb_spec init 0) as [->|Hi].
  { unfold after_classify, classify, EI_NOT_READY. rewrite (proj2 (Z.eqb_neq ei 0)) by done. cbn.
    exists h1, (insertZ k (o, with_meta (pivot_count (meta v)) v) l). split; [done|]. split; [done|].
    split; [apply slot_track|done]. }
  rewrite run_get. cbn [fst]. unfold btree_pivot_meta_ac_load. rewrite (load_at _ _ Hr1) by lia.
  cbn [fmap option_fmap option_map]. rewrite (proj2 (plain_byte _ Hc)), (run_opt _ _ _ _ eq_refl).
  pose proof (u64_range (now - init)) as Ht.
  destruct (compensate_run h1 init ei (u64 (now - init)) (meta v)) as (h2 & Hrun & Hr2 & Ht2); [lia|lia|lia|done|].
  rewrite (bind_run _ _ _ _ _ Hrun).
  apply (classify_tail h2 h ei init now now' _ _); [by eapply tracked_trans|lia|done|done|done|done|done].
Qed.
End classify_run.
