(* ===== verification/Btree.v ===== *)
(** * The B-tree

    btree.c: insertion and lookup over the nodes of a tree, for one thread.
    The cache is what it promises its clients: pages by their address, and for
    each page the read reference, claim and write lock the thread holds; a
    wrong use of them is undefined.  What the other threads and the cache do in
    the meantime is in the state as sequences of outcomes: whether each claim
    succeeds, whether each allocation of memory does, and what pivot tracking
    sees at each node.  Nodes come from an allocator, [node_source]. *)
From S2P Require Import Prelude Allocator Bytes DataInternal BtreeNode BtreePivot.

(** [mini_alloc(mini, height, ...)], and what a page of the cache holds before
    it is written. *)
Class node_source (S : Type) := {
  ns_alloc : Z → S → outcome (Z * S);
  ns_garbage : Z → btree_hdr;
}.

Record hold := mk_hold { hold_read : bool; hold_claim : bool; hold_write : bool }.
Definition NO_HOLD : hold := mk_hold false false false.
Definition READ : hold := mk_hold true false false.
Definition CLAIM : hold := mk_hold true true false.
Definition WRITE : hold := mk_hold true true true.
#[export] Instance hold_eq_dec : EqDecision hold.
Proof. solve_decision. Defined.

(** What the classification of a child sees: whether the child is in the cache,
    the evict interval, the [entry_time] of the node's page, two readings of the clock. *)
Record observation := mk_observation {
  obs_present : bool;
  obs_ei : Z;
  obs_entry_time : Z;
  obs_now : Z;
  obs_now' : Z;
}.
Definition IDLE : observation := mk_observation true 0 0 0 0.

Section btree.
Context {S : Type} `{ns : node_source S} (cfg : btree_config).

Record tree_state := mk_tree_state {
  w_nodes : gmap Z btree_hdr;
  w_held : gmap Z hold;
  w_dirty : gset Z;
  w_pins : gmap Z Z;
  w_entry_time : gmap Z Z;
  w_mini : S;
  w_claims : list bool;
  w_heap : list bool;
  w_obs : list observation;
}.
Local Abbreviation T := (M tree_state).

Definition with_nodes f w := mk_tree_state (f (w_nodes w)) (w_held w) (w_dirty w) (w_pins w) (w_entry_time w)
  (w_mini w) (w_claims w) (w_heap w) (w_obs w).
Definition with_held f w := mk_tree_state (w_nodes w) (f (w_held w)) (w_dirty w) (w_pins w) (w_entry_time w)
  (w_mini w) (w_claims w) (w_heap w) (w_obs w).
Definition with_dirty f w := mk_tree_state (w_nodes w) (w_held w) (f (w_dirty w)) (w_pins w) (w_entry_time w)
  (w_mini w) (w_claims w) (w_heap w) (w_obs w).
Definition with_pins f w := mk_tree_state (w_nodes w) (w_held w) (w_dirty w) (f (w_pins w)) (w_entry_time w)
  (w_mini w) (w_claims w) (w_heap w) (w_obs w).
Definition with_entry_time f w := mk_tree_state (w_nodes w) (w_held w) (w_dirty w) (w_pins w) (f (w_entry_time w))
  (w_mini w) (w_claims w) (w_heap w) (w_obs w).
Definition with_mini s w := mk_tree_state (w_nodes w) (w_held w) (w_dirty w) (w_pins w) (w_entry_time w)
  s (w_claims w) (w_heap w) (w_obs w).
Definition with_claims c w := mk_tree_state (w_nodes w) (w_held w) (w_dirty w) (w_pins w) (w_entry_time w)
  (w_mini w) c (w_heap w) (w_obs w).
Definition with_heap c w := mk_tree_state (w_nodes w) (w_held w) (w_dirty w) (w_pins w) (w_entry_time w)
  (w_mini w) (w_claims w) c (w_obs w).
Definition with_obs c w := mk_tree_state (w_nodes w) (w_held w) (w_dirty w) (w_pins w) (w_entry_time w)
  (w_mini w) (w_claims w) (w_heap w) c.

(** ** Locks *)
Definition holding (w : tree_state) (a : Z) : hold := default NO_HOLD (w_held w !! a).
Definition set_hold (a : Z) (x : hold) (w : tree_state) : tree_state :=
  with_held (λ m, if decide (x = NO_HOLD) then delete a m else <[a := x]> m) w.
(** Change what is held of page [a], which must satisfy [ok]. *)
Definition change_hold (a : Z) (ok : hold → bool) (f : hold → hold) : T unit :=
  w ← mget;
  if ok (holding w a) then mmod (set_hold a (f (holding w a))) else mopt None.

(** The next outcome of a claim; when none is left the claim succeeds. *)
Definition next_claim : T bool :=
  w ← mget;
  match w_claims w with [] => mret true | c :: cs => mmod (with_claims cs);; mret c end.

Definition btree_node_get (a : Z) : T unit :=
  w ← mget;
  _ ← mopt (w_nodes w !! a);
  change_hold a (λ x, bool_decide (x = NO_HOLD)) (λ _, READ).
Definition btree_node_claim (a : Z) : T bool :=
  c ← next_claim;
  change_hold a (λ x, bool_decide (x = READ)) (λ x, if c : bool then CLAIM else x);;
  mret c.
(** The lock is followed by [cache_mark_dirty]. *)
Definition btree_node_lock (a : Z) : T unit :=
  change_hold a (λ x, bool_decide (x = CLAIM)) (λ _, WRITE);;
  mmod (with_dirty (union {[a]})).
Definition btree_node_unlock (a : Z) : T unit :=
  change_hold a hold_write (λ x, mk_hold (hold_read x) (hold_claim x) false).
Definition btree_node_unclaim (a : Z) : T unit :=
  change_hold a (λ x, hold_claim x && negb (hold_write x)) (λ x, mk_hold (hold_read x) false false).
(** The reference goes, and a claim or write lock with it does not. *)
Definition btree_node_unget (a : Z) : T unit :=
  change_hold a hold_read (λ x, mk_hold false (hold_claim x) (hold_write x)).
Definition btree_node_full_unlock (a : Z) : T unit :=
  btree_node_unlock a;; btree_node_unclaim a;; btree_node_unget a.

(** ** Access to nodes *)
(** Read node [a], of which a reference is held. *)
Definition peek {A} (a : Z) (m : N A) : T A := λ w,
  if hold_read (holding w a) then
    match w_nodes w !! a with
    | None => Undef
    | Some h =>
        match m h with
        | Ret (x, _) => Ret (x, w)
        | Assert => Assert | Undef => Undef | Block => Block | Fuel => Fuel
        end
    end
  else Undef.
(** Change node [a], when what is held of it satisfies [ok]. *)
Definition change_node {A} (ok : hold → bool) (a : Z) (m : N A) : T A := λ w,
  if ok (holding w a) then
    match w_nodes w !! a with
    | None => Undef
    | Some h =>
        match m h with
        | Ret (x, h') => Ret (x, with_nodes (insert a h') w)
        | Assert => Assert | Undef => Undef | Block => Block | Fuel => Fuel
        end
    end
  else Undef.
Definition on_node {A} : Z → N A → T A := change_node hold_write.

Definition btree_alloc (height : Z) : T Z := λ w,
  match ns_alloc height (w_mini w) with
  | Ret (a, s) =>
      Ret (a, with_pins (λ m, <[a := default 0 (m !! a) + 1]> m)
                (set_hold a WRITE (with_nodes (insert a (ns_garbage a)) (with_mini s w))))
  | Assert => Assert | Undef => Undef | Block => Block | Fuel => Fuel
  end.

Definition create_spec (a : Z) (k : key) (msg : message) : T (platform_status * leaf_incorporate_spec) :=
  w ← mget;
  let ok := default true (head (w_heap w)) in
  mmod (with_heap (tail (w_heap w)));;
  peek a (btree_create_leaf_incorporate_spec cfg (λ _, ok) k msg).

(** ** Splitting or defragmenting a child *)
(** [n] more claims may fail. *)
Fixpoint claim_or_give_up (n : nat) (a : Z) : T bool :=
  c ← btree_node_claim a;
  if c : bool then mret true
  else
    btree_node_unget a;;
    match n with
    | O => mret false
    | Datatypes.S n' => btree_node_get a;; claim_or_give_up n' a
    end.
Definition lock_next (next : Z) : T bool :=
  if next =? 0 then mret true
  else
    btree_node_get next;;
    c ← claim_or_give_up 100 next;
    if c : bool then btree_node_lock next;; mret true else mret false.

(** [None] when the split is abandoned; else the spec and the generation. *)
Definition btree_split_child_leaf (parent index_of_child_in_parent child : Z) (sp : leaf_incorporate_spec) :
    T (option (leaf_incorporate_spec * option Z)) :=
  plan ← peek child (btree_build_leaf_splitting_plan sp);
  c ← peek child mget;
  right_child ← btree_alloc (btree_height c);
  btree_node_lock parent;;
  let child_next := next_addr c in
  locked ← lock_next child_next;
  if negb locked then
    btree_node_full_unlock right_child;;
    btree_node_full_unlock parent;;
    btree_node_unclaim child;;
    btree_node_unget child;;
    mret None
  else
    btree_node_lock child;;
    c ← peek child mget;
    pivot_key ← mopt (btree_splitting_pivot c sp plan);
    success ← on_node parent
      (btree_insert_index_entry (index_of_child_in_parent + 1) pivot_key right_child BTREE_PIVOT_STATS_UNKNOWN);
    massert success;;
    btree_node_full_unlock parent;;
    (if child_next =? 0 then mret tt
     else on_node child_next (mmod (set_prev_addr right_child));; btree_node_full_unlock child_next);;
    r ← on_node right_child (btree_split_leaf_build_right_node cfg c child sp plan);
    let '(sp, generation) := r : leaf_incorporate_spec * option Z in
    btree_node_full_unlock right_child;;
    sp ← on_node child (btree_split_leaf_cleanup_left_node cfg sp plan right_child);
    generation ← (if insertion_goes_left plan then
                    incorporated ← on_node child (btree_try_perform_leaf_incorporate_spec sp);
                    massert (bool_decide (is_Some incorporated));; mret incorporated
                  else mret generation);
    btree_node_full_unlock child;;
    mret (Some (sp, generation)).

Definition old_entry_state_code (st : old_entry_status) : Z :=
  match st with ENTRY_DID_NOT_EXIST => 0 | ENTRY_STILL_EXISTS => 1 | ENTRY_HAS_BEEN_REMOVED => 2 end.
(** As C parses the condition: the sum is what is compared. *)
Definition leaf_space_required (h : btree_hdr) (sp : leaf_incorporate_spec) : option Z :=
  live ← leaf_live_bytes h (Z.to_nat (num_entries h)) 0 sp;
  Some (live + leaf_entry_required_capacity (tuple_key sp) (spec_message sp)
        + (if num_entries h + old_entry_state_code (old_entry_state sp) =? 1 then 0 else 1) * SIZEOF_INDEX_ENTRY).
Definition btree_defragment_or_split_child_leaf (parent index_of_child_in_parent child : Z)
    (sp : leaf_incorporate_spec) : T (option (leaf_incorporate_spec * option Z)) :=
  c ← peek child mget;
  total_space_required ← mopt (leaf_space_required c sp);
  if total_space_required <? BTREE_SPLIT_THRESHOLD (btree_page_size cfg) then
    btree_node_unclaim parent;;
    btree_node_unget parent;;
    btree_node_lock child;;
    sp' ← on_node child (btree_defragment_leaf cfg (Some sp));
    sp ← mopt sp';
    incorporated ← on_node child (btree_try_perform_leaf_incorporate_spec sp);
    massert (bool_decide (is_Some incorporated));;
    btree_node_full_unlock child;;
    mret (Some (sp, incorporated))
  else btree_split_child_leaf parent index_of_child_in_parent child sp.

(** The new child and the index of the next one in it. *)
Definition btree_split_child_index (parent index_of_child_in_parent child next_child_idx : Z) : T (Z * Z) :=
  c ← peek child mget;
  idx ← (λ w, match btree_choose_index_split c with
              | Ret i => Ret (i, w)
              | Assert => Assert | Undef => Undef | Block => Block | Fuel => Fuel
              end);
  right_child ← btree_alloc (btree_height c);
  pivot_key ← mopt (btree_get_pivot c idx);
  _ ← on_node parent
    (btree_insert_index_entry (index_of_child_in_parent + 1) pivot_key right_child BTREE_PIVOT_STATS_UNKNOWN);
  btree_node_full_unlock parent;;
  let '(new_child, next_child_idx) :=
    if next_child_idx <? idx then (child, next_child_idx) else (right_child, next_child_idx - idx) in
  on_node right_child (btree_split_index_build_right_node cfg c idx);;
  mwhen (negb (new_child =? right_child)) (btree_node_full_unlock right_child);;
  on_node child (btree_truncate_index cfg idx);;
  mwhen (negb (new_child =? child)) (btree_node_full_unlock child);;
  mret (new_child, next_child_idx).
Definition btree_defragment_or_split_child_index (parent index_of_child_in_parent child next_child_idx : Z) :
    T (Z * Z) :=
  c ← peek child mget;
  live_bytes ← mopt (index_live_bytes c (Z.to_nat (num_entries c)) 0);
  let total_space_required := live_bytes + num_entries c * SIZEOF_INDEX_ENTRY in
  if total_space_required <? BTREE_SPLIT_THRESHOLD (btree_page_size cfg) then
    btree_node_full_unlock parent;;
    on_node child (btree_defragment_index cfg);;
    mret (child, next_child_idx)
  else btree_split_child_index parent index_of_child_in_parent child next_child_idx.

(** The root keeps its address: its contents move to a new child. *)
Definition btree_grow_root (root : Z) : T unit :=
  r ← peek root mget;
  child ← btree_alloc (btree_height r);
  on_node child (mput r);;
  btree_node_unlock child;;
  btree_node_unclaim child;;
  on_node root (mmod (btree_reset_node_entries cfg));;
  on_node root (mmod btree_increment_height);;
  c ← peek child mget;
  new_pivot ← mopt (if btree_height c =? 0 then btree_get_tuple_key c 0 else btree_get_pivot c 0);
  succeeded ← on_node root (btree_set_index_entry 0 new_pivot child BTREE_PIVOT_STATS_UNKNOWN);
  massert succeeded;;
  btree_node_unget child.

(** ** Insertion *)
Inductive attempt : Type :=
| StartOver
| Return (rc : platform_status) (was_unique : bool) (generation : option Z).
Definition incorporated_as (sp : leaf_incorporate_spec) (generation : option Z) : attempt :=
  Return STATUS_OK (bool_decide (old_entry_state sp = ENTRY_DID_NOT_EXIST)) generation.

(** Make [k] the first pivot of the index node [a]. *)
Definition set_min_key (a : Z) (k : key) : T bool :=
  h ← peek a mget;
  entry ← mopt (btree_get_index_entry h 0);
  addr ← mopt (index_entry_child_addr h entry);
  stats ← mopt (index_entry_stats h entry);
  on_node a (btree_set_index_entry 0 k addr stats).

(** Claim the leaf, however many times it takes; whether it was let go meanwhile. *)
Fixpoint claim_leaf (fuel : nat) (a : Z) (let_go : bool) : T bool :=
  match fuel with
  | O => mfuel
  | Datatypes.S fuel' =>
      c ← btree_node_claim a;
      if c : bool then mret let_go
      else btree_node_unget a;; btree_node_get a;; claim_leaf fuel' a true
  end.

(** The leaf [child] and its parent are read-locked. *)
Definition insert_leaf (parent child_idx child : Z) (k : key) (msg : message) : T attempt :=
  r ← create_spec child k msg;
  let '(rc, sp) := r : platform_status * leaf_incorporate_spec in
  if negb (SUCCESS rc) then
    btree_node_unget parent;; btree_node_unget child;; mret (Return rc false None)
  else
    c ← peek child mget;
    can ← mopt (btree_can_perform_leaf_incorporate_spec c sp);
    if can : bool then
      btree_node_unget parent;;
      claimed ← btree_node_claim child;
      if negb claimed then btree_node_unget child;; mret StartOver
      else
        btree_node_lock child;;
        incorporated ← on_node child (btree_try_perform_leaf_incorporate_spec sp);
        massert (bool_decide (is_Some incorporated));;
        btree_node_full_unlock child;;
        mret (incorporated_as sp incorporated)
    else
      claimed ← btree_node_claim parent;
      if negb claimed then btree_node_unget parent;; btree_node_unget child;; mret StartOver
      else
        w ← mget;
        need_to_rebuild_spec ← claim_leaf (Datatypes.S (length (w_claims w))) child false;
        r ← (if need_to_rebuild_spec : bool then create_spec child k msg else mret (STATUS_OK, sp));
        let '(rc, sp) := r : platform_status * leaf_incorporate_spec in
        if negb (SUCCESS rc) then
          btree_node_unget parent;; btree_node_unclaim child;; btree_node_unget child;;
          mret (Return rc false None)
        else
          result ← btree_defragment_or_split_child_leaf parent child_idx child sp;
          match result with
          | None => mret StartOver
          | Some (sp, generation) => mret (incorporated_as sp generation)
          end.

(** The index node [child], at index [child_idx] of its parent, is made ready
    to be descended into; its address, which a split may change, and the index
    in it.  [None]: start over. *)
Definition prepare_child (parent child_idx child : Z) (k : key) : T (option (Z * Z)) :=
  r ← peek child (btree_find_pivot cfg k);
  let next_child_idx := (r : Z * bool).1 in
  c ← peek child mget;
  if (next_child_idx <? 0) || btree_index_is_full cfg c then
    claimed ← btree_node_claim parent;
    if negb claimed then btree_node_unget parent;; btree_node_unget child;; mret None
    else
      claimed ← btree_node_claim child;
      if negb claimed then
        btree_node_unclaim parent;; btree_node_unget parent;; btree_node_unget child;; mret None
      else
        btree_node_lock parent;;
        btree_node_lock child;;
        r ← (if next_child_idx <? 0 then done ← set_min_key child k; mret (0, negb done)
             else mret (next_child_idx, false));
        let '(next_child_idx, need_to_set_min_key) := r : Z * bool in
        c ← peek child mget;
        r ← (if btree_index_is_full cfg c
             then btree_defragment_or_split_child_index parent child_idx child next_child_idx
             else btree_node_full_unlock parent;; mret (child, next_child_idx));
        let '(new_child, next_child_idx) := r : Z * Z in
        (if need_to_set_min_key : bool then success ← set_min_key new_child k; massert success else mret tt);;
        btree_node_unlock new_child;;
        btree_node_unclaim new_child;;
        mret (Some (new_child, next_child_idx))
  else btree_node_unget parent;; mret (Some (child, next_child_idx)).

(** The loop from a parent of height [n + 1]. *)
Fixpoint descend (n : nat) (parent child_idx child : Z) (k : key) (msg : message) : T attempt :=
  match n with
  | O => insert_leaf parent child_idx child k msg
  | Datatypes.S n' =>
      r ← prepare_child parent child_idx child k;
      match r with
      | None => mret StartOver
      | Some (parent, child_idx) =>
          p ← peek parent mget;
          child ← mopt (btree_get_child_addr p child_idx);
          btree_node_get child;;
          descend n' parent child_idx child k msg
      end
  end.

(** The root, an index, is read-locked; the index of the child to go to.  [None]: start over. *)
Definition prepare_root (root : Z) (k : key) : T (option Z) :=
  r ← peek root (btree_find_pivot cfg k);
  let child_idx := (r : Z * bool).1 in
  h ← peek root mget;
  if (child_idx <? 0) || btree_index_is_full cfg h then
    claimed ← btree_node_claim root;
    if negb claimed then btree_node_unget root;; mret None
    else
      btree_node_lock root;;
      r ← (if child_idx <? 0 then done ← set_min_key root k; mret (0, negb done)
           else mret (child_idx, false));
      let '(child_idx, need_to_set_min_key) := r : Z * bool in
      h ← peek root mget;
      child_idx ← (if btree_index_is_full cfg h then btree_grow_root root;; mret 0 else mret child_idx);
      (if need_to_set_min_key : bool then success ← set_min_key root k; massert success else mret tt);;
      btree_node_unlock root;;
      btree_node_unclaim root;;
      mret (Some child_idx)
  else mret (Some child_idx).
Definition insert_below (root : Z) (k : key) (msg : message) : T attempt :=
  r ← prepare_root root k;
  match r with
  | None => mret StartOver
  | Some child_idx =>
      h ← peek root mget;
      child ← mopt (btree_get_child_addr h child_idx);
      btree_node_get child;;
      h ← peek root mget;
      descend (Z.to_nat (btree_height h - 1)) root child_idx child k msg
  end.

(** From [start_over] on. *)
Definition insert_attempt (root : Z) (k : key) (msg : message) : T attempt :=
  btree_node_get root;;
  h ← peek root mget;
  if btree_height h =? 0 then
    r ← create_spec root k msg;
    let '(rc, sp) := r : platform_status * leaf_incorporate_spec in
    if negb (SUCCESS rc) then btree_node_unget root;; mret (Return rc false None)
    else
      claimed ← btree_node_claim root;
      if negb claimed then btree_node_unget root;; mret StartOver
      else
        btree_node_lock root;;
        incorporated ← on_node root (btree_try_perform_leaf_incorporate_spec sp);
        match incorporated with
        | Some g => btree_node_full_unlock root;; mret (incorporated_as sp (Some g))
        | None =>
            btree_grow_root root;;
            btree_node_unlock root;;
            btree_node_unclaim root;;
            insert_below root k msg
        end
  else insert_below root k msg.
Fixpoint insert_loop (fuel : nat) (root : Z) (k : key) (msg : message) : T (platform_status * bool * option Z) :=
  match fuel with
  | O => mfuel
  | Datatypes.S fuel' =>
      r ← insert_attempt root k msg;
      match r with
      | StartOver => insert_loop fuel' root k msg
      | Return rc was_unique generation => mret (rc, was_unique, generation)
      end
  end.
(** The status, [was_unique] and [generation]. *)
Definition btree_insert (fuel : nat) (root : Z) (k : key) (msg : message) : T (platform_status * bool * option Z) :=
  if MAX_INLINE_KEY_SIZE (btree_page_size cfg) <? key_length k then mret (STATUS_BAD_PARAM, false, None)
  else if MAX_INLINE_MESSAGE_SIZE (btree_page_size cfg) <? message_length msg
  then mret (STATUS_BAD_PARAM, false, None)
  else if message_is_invalid_user_type msg then mret (STATUS_BAD_PARAM, false, None)
  else insert_loop fuel root k msg.

(** ** Lookup *)
Definition observe : T observation :=
  w ← mget;
  mmod (with_obs (tail (w_obs w)));;
  mret (default IDLE (head (w_obs w))).
(** The node's metadata bytes change under its read reference alone. *)
Definition update_ac_and_classify (a entry : Z) (obs : observation) : T bool :=
  r ← change_node hold_read a (λ h,
        match btree_update_ac_and_classify_warm (u64 (obs_ei obs)) (obs_now obs) (obs_now' obs) entry
                (h, obs_entry_time obs) with
        | Ret (warm, (h', t)) => Ret ((warm, t), h')
        | Assert => Assert | Undef => Undef | Block => Block | Fuel => Fuel
        end);
  let '(warm, t) := r : bool * Z in
  mmod (with_entry_time (insert a t));;
  mret warm.

(** The loop of [btree_lookup_node], for [n] more levels; the node found, and
    whether its path is warm. *)
Fixpoint lookup_levels (n : nat) (type : page_type) (node : Z) (target : key) (is_warm : bool) :
    T (Z * bool) :=
  match n with
  | O => mret (node, is_warm)
  | Datatypes.S n' =>
      h ← peek node mget;
      child_idx ← (if bool_decide (target = POSITIVE_INFINITY_KEY) then mret (btree_num_entries h - 1)
                   else r ← peek node (btree_find_pivot cfg target); mret (r : Z * bool).1);
      let child_idx := if child_idx <? 0 then 0 else child_idx in
      entry ← mopt (btree_get_index_entry h child_idx);
      child ← mopt (index_entry_child_addr h entry);
      obs ← observe;
      let child_in_cache := bool_decide (type = PAGE_TYPE_BRANCH) && is_warm && obs_present obs in
      is_warm ← (if bool_decide (type = PAGE_TYPE_BRANCH) && negb child_in_cache && is_warm
                 then update_ac_and_classify node entry obs else mret is_warm);
      btree_node_get child;;
      (if negb child_in_cache && negb (n' =? 0)%nat && bool_decide (type = PAGE_TYPE_BRANCH)
       then change_node hold_read child reset_pivot_counts else mret tt);;
      btree_node_unget node;;
      lookup_levels n' type child target is_warm
  end.
Definition btree_lookup_node (root : Z) (target : key) (stop_at_height : Z) (type : page_type) : T (Z * bool) :=
  btree_node_get root;;
  h ← peek root mget;
  lookup_levels (Z.to_nat (btree_height h - stop_at_height)) type root target true.

(** The leaf stays referenced when it has the tuple. *)
Definition btree_lookup_with_ref (root : Z) (type : page_type) (target : key) : T (Z * option message) :=
  r ← btree_lookup_node root target 0 type;
  let '(node, _) := r : Z * bool in
  r ← peek node (btree_find_tuple cfg target);
  let '(idx, found) := r : Z * bool in
  if found then
    h ← peek node mget;
    entry ← mopt (btree_get_leaf_entry h idx);
    msg ← mopt (leaf_entry_message h entry);
    mret (node, Some msg)
  else btree_node_unget node;; mret (node, None).

(** Whether the heap has room for the copy of a message. *)
Definition merge_accumulator_copy_message : T bool :=
  w ← mget;
  mmod (with_heap (tail (w_heap w)));;
  mret (default true (head (w_heap w))).
(** [result] is left as it was when nothing is found. *)
Definition btree_lookup (root : Z) (type : page_type) (target : key) (result : option message) :
    T (platform_status * option message) :=
  r ← btree_lookup_with_ref root type target;
  match r : Z * option message with
  | (node, Some data) =>
      success ← merge_accumulator_copy_message;
      btree_node_unget node;;
      mret (if success : bool then (STATUS_OK, Some data) else (STATUS_NO_MEMORY, result))
  | (_, None) => mret (STATUS_OK, result)
  end.
(** [data] is null at first, then what newer trees have for the key. *)
Definition btree_lookup_and_merge (root : Z) (type : page_type) (target : key) (data : option message) :
    T (platform_status * option message * bool) :=
  r ← btree_lookup_with_ref root type target;
  match r : Z * option message with
  | (node, Some local_data) =>
      r ← match data with
          | None =>
              success ← merge_accumulator_copy_message;
              mret (if success : bool then (STATUS_OK, Some local_data) else (STATUS_NO_MEMORY, None))
          | Some new =>
              let '(rc, merged) := data_merge_tuples (bt_data_cfg cfg) target local_data new in
              mret (if negb (rc =? 0) then (STATUS_NO_MEMORY, Some merged) else (STATUS_OK, Some merged))
          end;
      btree_node_unget node;;
      mret (r : platform_status * option message, true)
  | (_, None) => mret (STATUS_OK, data, false)
  end.
End btree.
Arguments tree_state S : clear implicits.
Arguments mk_tree_state {S} _ _ _ _ _ _ _ _ _.
