(* ===== verification/BtreeTree.v ===== *)
(** * Trees of nodes

    What it is for a page address to be the root of a B-tree of a given height
    that holds given tuples, with the nodes it occupies and its leaves in
    order; how such a tree is taken apart along a path and put together again. *)
From S2P Require Import Prelude Bytes DataInternal BtreeNode NodeLayout BtreeLeaf LeafMap BtreeIndex.

(** What the tree predicate says of a node but for its link to the previous one. *)
Definition unlinked (h : btree_hdr) : btree_hdr := set_prev_addr 0 h.
Definition bound (vs : list pivot) (hi : key) : key :=
  match vs with [] => hi | v :: _ => pivot_key v end.
Definition same_pivots (vs vs' : list pivot) : Prop := clean <$> vs = clean <$> vs'.

Section tree.
Context (cfg : btree_config).
Local Abbreviation ps := (btree_page_size cfg).
Local Abbreviation cmp := (btree_key_compare cfg).

(** Keys that leave an index node room for two more after a split of a page of
    4096 bytes: up to a twentieth of the page. *)
Definition short (k : key) : Prop := 20 * key_length k ≤ ps.
Definition sized (e : tuple) : Prop :=
  short (USER_KEY e.1) ∧ message_length e.2 ≤ MAX_INLINE_MESSAGE_SIZE ps.
Definition in_range (lo hi k : key) : Prop := cmp lo k ≤ 0 ∧ cmp k hi < 0.
Definition all_in_range (lo hi : key) (es : list tuple) : Prop := Forall (λ e, in_range lo hi (USER_KEY e.1)) es.

Definition subtree : Type := Z → key → key → list tuple → gset Z → list Z → Prop.
(** A sequence of subtrees, one for each pivot, with the tuples, nodes and leaves of all. *)
Inductive segs (P : subtree) (hi : key) : list pivot → list tuple → gset Z → list Z → Prop :=
| segs_nil : segs P hi [] [] ∅ []
| segs_cons v vs es es' fp fp' ls ls' :
    P (child_addr v) (pivot_key v) (bound vs hi) es fp ls →
    segs P hi vs es' fp' ls' →
    fp ## fp' → cmp (pivot_key v) (bound vs hi) < 0 → short (pivot_key v) →
    segs P hi (v :: vs) (es ++ es') (fp ∪ fp') (ls ++ ls').

Definition leaf_at (ns : gmap Z btree_hdr) a lo hi es (fp : gset Z) (ls : list Z) : Prop :=
  ∃ h l, ns !! a = Some h ∧ height h = 0 ∧ node_repr ps h l ∧ l.*2 = es ∧ sorted_tuples cfg es ∧
    all_in_range lo hi es ∧ Forall sized es ∧ fp = {[a]} ∧ ls = [a].
Definition index_at (P : subtree) (n : nat) (ns : gmap Z btree_hdr) a lo hi es (fp : gset Z) (ls : list Z) : Prop :=
  ∃ h l fp', ns !! a = Some h ∧ height h = Z.of_nat (S n) ∧ node_repr ps h l ∧ l.*2 ≠ [] ∧
    cmp lo (bound l.*2 hi) ≤ 0 ∧ segs P hi l.*2 es fp' ls ∧ (a ∉ fp') ∧ fp = {[a]} ∪ fp'.
(** [tree ns n a lo hi es fp ls]: the tree of height [n] at [a] has tuples [es], whose keys
    are in [lo, hi), nodes [fp] and leaves [ls]. *)
Fixpoint tree (ns : gmap Z btree_hdr) (n : nat) : subtree :=
  match n with
  | O => leaf_at ns
  | S n' => index_at (tree ns n') n' ns
  end.

(** ** Sequences of subtrees *)
Lemma bound_app vs vs' hi : bound (vs ++ vs') hi = bound vs (bound vs' hi).
Proof. by destruct vs. Qed.

Lemma segs_app P hi vs vs' es fp ls : segs P hi (vs ++ vs') es fp ls ↔
  ∃ es1 es2 fp1 fp2 ls1 ls2, segs P (bound vs' hi) vs es1 fp1 ls1 ∧ segs P hi vs' es2 fp2 ls2 ∧ fp1 ## fp2 ∧
    es = es1 ++ es2 ∧ fp = fp1 ∪ fp2 ∧ ls = ls1 ++ ls2.
Proof.
  split.
  - revert es fp ls. induction vs as [|v vs IH]; intros es fp ls H; cbn [app] in H.
    + exists [], es, ∅, fp, [], ls. split; [constructor|]. split; [done|]. set_solver.
    + inversion H as [|? ? es1 es2 fp1 fp2 ls1 ls2 HP Hs Hd Hc Hk]; subst.
      apply IH in Hs as (es3 & es4 & fp3 & fp4 & ls3 & ls4 & H1 & H2 & Hd' & -> & -> & ->).
      rewrite bound_app in HP, Hc.
      exists (es1 ++ es3), es4, (fp1 ∪ fp3), fp4, (ls1 ++ ls3), ls4.
      split; [constructor; [done|done|set_solver|done|done]|]. split; [done|]. rewrite <-!app_assoc. set_solver.
  - intros (es1 & es2 & fp1 & fp2 & ls1 & ls2 & H1 & H2 & Hd & -> & -> & ->).
    revert es1 fp1 ls1 H1 Hd. induction vs as [|v vs IH]; intros es1 fp1 ls1 H1 Hd.
    + inversion H1; subst. cbn [app]. by replace (∅ ∪ fp2) with fp2 by set_solver.
    + inversion H1 as [|? ? es3 es4 fp3 fp4 ls3 ls4 HP Hs Hd' Hc Hk]; subst.
      rewrite <-!app_assoc. cbn [app]. replace (fp3 ∪ fp4 ∪ fp2) with (fp3 ∪ (fp4 ∪ fp2)) by set_solver.
      constructor; [by rewrite bound_app|apply IH; [done|set_solver]|set_solver|by rewrite bound_app|done].
Qed.
Lemma segs_one P hi v es fp ls : segs P hi [v] es fp ls ↔
  P (child_addr v) (pivot_key v) hi es fp ls ∧ cmp (pivot_key v) hi < 0 ∧ short (pivot_key v).
Proof.
  split.
  - intros H. inversion H as [|? ? es1 es2 fp1 fp2 ls1 ls2 HP Hs Hd Hc Hk]; subst.
    inversion Hs; subst. rewrite !app_nil_r. replace (fp1 ∪ ∅) with fp1 by set_solver. done.
  - intros (HP & Hc & Hk). rewrite <-(app_nil_r es), <-(app_nil_r ls). replace fp with (fp ∪ ∅) by set_solver.
    constructor; [done|constructor|set_solver|done|done].
Qed.
Lemma segs_impl (P P' : subtree) hi vs es fp ls : (∀ a lo hi es fp' ls, fp' ⊆ fp → P a lo hi es fp' ls → P' a lo hi es fp' ls) →
  segs P hi vs es fp ls → segs P' hi vs es fp ls.
Proof.
  intros HP H. induction H as [|v vs es es' fp fp' ls ls' H1 H2 IH Hd Hc Hk]; [constructor|].
  constructor; try done.
  - apply HP; [set_solver|done].
  - apply IH. intros. apply HP; [set_solver|done].
Qed.
(** The metadata and the statistics of pivots do not matter. *)
Lemma same_pivots_cons v vs ws : same_pivots (v :: vs) ws →
  ∃ w ws', ws = w :: ws' ∧ clean v = clean w ∧ same_pivots vs ws'.
Proof.
  unfold same_pivots. destruct ws as [|w ws]; [done|]. rewrite !fmap_cons. intros [= Hk Ha Hs Hr].
  exists w, ws. split; [done|]. split; [|done]. unfold clean. by rewrite Hk, Ha, Hs.
Qed.
Lemma clean_same v w : clean v = clean w → pivot_key v = pivot_key w ∧ child_addr v = child_addr w.
Proof. unfold clean. intros [= ? ? ?]. done. Qed.
Lemma segs_same P hi vs ws es fp ls : same_pivots vs ws → segs P hi vs es fp ls → segs P hi ws es fp ls.
Proof.
  intros Hsame H. revert ws Hsame. induction H as [|v vs es es' fp fp' ls ls' H1 H2 IH Hd Hc Hk]; intros ws Hsame.
  - destruct ws; [constructor|done].
  - apply same_pivots_cons in Hsame as (w & ws' & -> & Hw & Hws). apply clean_same in Hw as [Ek Ea].
    assert (Eb : bound vs hi = bound ws' hi).
    { destruct vs as [|v' vs]; [by destruct ws'|]. apply same_pivots_cons in Hws as (w' & ws'' & -> & Hw' & _).
      by apply clean_same in Hw' as [? _]. }
    rewrite Ek, Ea, Eb in *. constructor; [done|by apply IH|done|done|done].
Qed.

(** ** The nodes of a tree *)
Lemma unlinked_repr `{!entry_format E} h h' (l : list (Z * E)) : unlinked h' = unlinked h →
  node_repr ps h l → node_repr ps h' l.
Proof. destruct h, h'. cbn. intros [= -> -> -> -> -> -> ->]. by apply repr_same_page. Qed.
Lemma unlinked_height h h' : unlinked h' = unlinked h → height h' = height h.
Proof. destruct h, h'. cbn. by intros [= -> -> -> -> -> -> ->]. Qed.

Lemma tree_frame ns ns' n a lo hi es fp ls : tree ns n a lo hi es fp ls →
  (∀ b, b ∈ fp → unlinked <$> ns' !! b = unlinked <$> ns !! b) → tree ns' n a lo hi es fp ls.
Proof.
  revert a lo hi es fp ls. induction n as [|n IH]; intros a lo hi es fp ls H Hns.
  - destruct H as (h & l & Ha & Hh & Hr & Hl & Hs & Hin & Hsz & -> & ->).
    specialize (Hns a ltac:(set_solver)). rewrite Ha in Hns. apply fmap_Some in Hns as (h' & Ha' & He).
    exists h', l. split; [done|]. split; [by rewrite (unlinked_height h h')|].
    split; [by eapply unlinked_repr|]. done.
  - destruct H as (h & l & fp' & Ha & Hh & Hr & Hne & Hlo & Hsegs & Hfp & ->).
    pose proof (Hns a ltac:(set_solver)) as Hns'. rewrite Ha in Hns'. apply fmap_Some in Hns' as (h' & Ha' & He).
    exists h', l, fp'. split; [done|]. split; [by rewrite (unlinked_height h h')|].
    split; [by eapply unlinked_repr|]. do 2 (split; [done|]). split; [|done].
    eapply segs_impl; [|exact Hsegs]. intros. apply IH; [done|]. intros. apply Hns. set_solver.
Qed.

Lemma segs_leaves_in P hi vs es fp ls : segs P hi vs es fp ls →
  (∀ a lo hi es fp ls, P a lo hi es fp ls → ∀ b, b ∈ ls → b ∈ fp) → ∀ b, b ∈ ls → b ∈ fp.
Proof.
  intros H HP. induction H as [|v vs es es' fp fp' ls ls' H1 H2 IH Hd Hc Hk]; intros b Hb.
  - by apply not_elem_of_nil in Hb.
  - apply elem_of_app in Hb as [Hb|Hb]; apply elem_of_union; [left; by eapply HP|right; by apply IH].
Qed.
Lemma tree_leaves_in ns n a lo hi es fp ls : tree ns n a lo hi es fp ls → ∀ b, b ∈ ls → b ∈ fp.
Proof.
  revert a lo hi es fp ls. induction n as [|n IH]; intros a lo hi es fp ls H.
  - destruct H as (h & l & _ & _ & _ & _ & _ & _ & _ & -> & ->). set_solver.
  - destruct H as (h & l & fp' & _ & _ & _ & _ & _ & Hs & _ & ->). intros b Hb.
    apply elem_of_union. right. by eapply (segs_leaves_in _ _ _ _ _ _ Hs).
Qed.
Lemma tree_root_in ns n a lo hi es fp ls : tree ns n a lo hi es fp ls → a ∈ fp.
Proof.
  destruct n.
  - intros (h & l & _ & _ & _ & _ & _ & _ & _ & -> & _). set_solver.
  - intros (h & l & fp' & _ & _ & _ & _ & _ & _ & _ & ->). set_solver.
Qed.
Lemma tree_node ns n a lo hi es fp ls : tree ns n a lo hi es fp ls → ∃ h, ns !! a = Some h ∧ height h = Z.of_nat n.
Proof.
  destruct n.
  - intros (h & l & ? & ? & _). by exists h.
  - intros (h & l & fp' & ? & ? & _). by exists h.
Qed.
End tree.

(** ** The tuples of a tree *)
Section tuples.
Context (cfg : btree_config) `{!key_order (bt_data_cfg cfg)}.
Local Abbreviation ps := (btree_page_size cfg).
Local Abbreviation cmp := (btree_key_compare cfg).
Implicit Types (es : list tuple) (k : key).

Lemma cmp_le_lt a b c : key_small a → key_small b → key_small c → cmp a b ≤ 0 → cmp b c < 0 → cmp a c < 0.
Proof. apply dkc_le_lt, _. Qed.
Lemma cmp_lt_le a b c : key_small a → key_small b → key_small c → cmp a b < 0 → cmp b c ≤ 0 → cmp a c < 0.
Proof. apply dkc_lt_le, _. Qed.
Lemma cmp_le_trans a b c : key_small a → key_small b → key_small c → cmp a b ≤ 0 → cmp b c ≤ 0 → cmp a c ≤ 0.
Proof. apply dkc_trans, _. Qed.
Lemma cmp_flip a b : key_small a → key_small b → Z.sgn (cmp a b) = - Z.sgn (cmp b a).
Proof. apply dkc_sym, _. Qed.

Lemma sized_small es : ps < 2 ^ 16 → Forall (sized cfg) es → Forall tuple_small es.
Proof.
  intros Hps Hes. eapply list.Forall_impl; [exact Hes|]. intros e [He _].
  unfold tuple_small, key_small, short in *. lia.
Qed.
Lemma short_small k : ps < 2 ^ 16 → short cfg k → key_small k.
Proof. unfold short, key_small. lia. Qed.

Lemma tuple_lookup_app es es' k :
  tuple_lookup cfg (es ++ es') k = match tuple_lookup cfg es k with Some m => Some m | None => tuple_lookup cfg es' k end.
Proof. induction es as [|e es IH]; [done|]. cbn. by destruct (cmp (USER_KEY e.1) k =? 0). Qed.
Lemma lookup_outside lo hi es k : all_in_range cfg lo hi es → Forall tuple_small es →
  key_small lo → key_small hi → key_small k → cmp hi k ≤ 0 ∨ cmp k lo < 0 → tuple_lookup cfg es k = None.
Proof.
  intros Hin Hsm Hlo Hhi Hk Hor. apply tuple_lookup_none. intros i e Hi.
  apply lookupZ_elem in Hi. unfold all_in_range in Hin. rewrite list.Forall_forall in Hin, Hsm.
  destruct (Hin e Hi) as [H1 H2]. pose proof (Hsm e Hi) as He. unfold tuple_small in He.
  pose proof (cmp_flip (USER_KEY e.1) k He Hk). destruct Hor as [Hor|Hor].
  - pose proof (cmp_lt_le (USER_KEY e.1) hi k). intuition lia.
  - pose proof (cmp_lt_le k lo (USER_KEY e.1)). intuition lia.
Qed.

Lemma sorted_app lo mid hi es es' : sorted_tuples cfg es → sorted_tuples cfg es' →
  all_in_range cfg lo mid es → all_in_range cfg mid hi es' → Forall tuple_small es → Forall tuple_small es' →
  key_small mid → sorted_tuples cfg (es ++ es').
Proof.
  intros Hs Hs' Hin Hin' Hsm Hsm' Hmid i j k k' Hij. rewrite !lookupZ_tuple_keys, !lookupZ_app.
  unfold all_in_range in *. rewrite list.Forall_forall in Hin, Hin', Hsm, Hsm'.
  repeat case_bool_decide; try lia; intros Hi Hj.
  - apply (Hs i j); [done|by rewrite lookupZ_tuple_keys..].
  - apply fmap_Some in Hi as (e & He%lookupZ_elem & ->). apply fmap_Some in Hj as (e' & He'%lookupZ_elem & ->).
    destruct (Hin e He), (Hin' e' He'). eapply (cmp_lt_le _ mid); [by apply Hsm|done|by apply Hsm'|done|done].
  - apply (Hs' (i - lengthZ es) (j - lengthZ es)); [lia|by rewrite lookupZ_tuple_keys..].
Qed.

(** What a tree promises of its tuples. *)
Record tuples_ok (lo hi : key) es : Prop := {
  ok_sorted : sorted_tuples cfg es;
  ok_range : all_in_range cfg lo hi es;
  ok_sized : Forall (sized cfg) es;
}.
Lemma range_weaken lo lo' hi hi' es : key_small lo → key_small lo' → key_small hi → key_small hi' →
  Forall tuple_small es → cmp lo' lo ≤ 0 → cmp hi hi' ≤ 0 → all_in_range cfg lo hi es → all_in_range cfg lo' hi' es.
Proof.
  intros H1 H2 H3 H4 Hsm Hlo Hhi. unfold all_in_range. rewrite !list.Forall_forall. rewrite list.Forall_forall in Hsm.
  intros Hin e He. destruct (Hin e He) as [Ha Hb]. pose proof (Hsm e He). split.
  - by eapply (cmp_le_trans _ lo).
  - by eapply (cmp_lt_le _ hi).
Qed.

Lemma segs_bound P hi vs es fp ls : ps < 2 ^ 16 → key_small hi → segs cfg P hi vs es fp ls → vs ≠ [] →
  key_small (bound vs hi) ∧ cmp (bound vs hi) hi < 0.
Proof.
  intros Hps Hhi H. induction H as [|v vs es es' fp fp' ls ls' H1 H2 IH Hd Hc Hk]; [done|].
  intros _. cbn [bound]. pose proof (short_small _ Hps Hk). split; [done|].
  destruct vs as [|v' vs]; [done|]. destruct IH as [Hs Hlt]; [done|].
  eapply (cmp_lt_le _ (bound (v' :: vs) hi)); [done..|lia].
Qed.
Lemma segs_bound_le P hi vs es fp ls : ps < 2 ^ 16 → key_small hi → segs cfg P hi vs es fp ls →
  key_small (bound vs hi) ∧ cmp (bound vs hi) hi ≤ 0.
Proof.
  intros Hps Hhi H. destruct vs as [|v vs].
  - split; [done|]. cbn. pose proof (cmp_flip hi hi Hhi Hhi). lia.
  - destruct (segs_bound _ _ _ _ _ _ Hps Hhi H) as [? ?]; [done|]. split; [done|lia].
Qed.
Lemma segs_tuples P hi vs es fp ls : ps < 2 ^ 16 → key_small hi →
  (∀ a lo hi es fp ls, key_small lo → key_small hi → P a lo hi es fp ls → tuples_ok lo hi es) →
  segs cfg P hi vs es fp ls → tuples_ok (bound vs hi) hi es.
Proof.
  intros Hps Hhi HP H. induction H as [|v vs es es' fp fp' ls ls' H1 H2 IH Hd Hc Hk].
  - split; [|constructor|constructor]. intros i j k k' _ Hi. by rewrite lookupZ_tuple_keys, lookupZ_nil in Hi.
  - cbn [bound]. destruct (segs_bound_le _ _ _ _ _ _ Hps Hhi H2) as [Hb Hble].
    pose proof (short_small _ Hps Hk) as Hv. destruct (HP _ _ _ _ _ _ Hv Hb H1) as [S1 R1 Z1], IH as [S2 R2 Z2].
    pose proof (sized_small _ Hps Z1). pose proof (sized_small _ Hps Z2). split.
    + by eapply sorted_app.
    + unfold all_in_range. apply list.Forall_app. split.
      * eapply (range_weaken (pivot_key v) _ (bound vs hi)); try done.
        pose proof (cmp_flip (pivot_key v) (pivot_key v) Hv Hv). lia.
      * eapply (range_weaken (bound vs hi) _ hi); try done; [lia|].
        pose proof (cmp_flip hi hi Hhi Hhi). lia.
    + by apply list.Forall_app.
Qed.
Lemma tree_width ns n a lo hi es fp ls : tree cfg ns n a lo hi es fp ls → ps < 2 ^ 16.
Proof.
  destruct n.
  - intros (h & l & _ & _ & Hr & _). apply (repr_width _ _ _ _ Hr).
  - intros (h & l & fp' & _ & _ & Hr & _). apply (repr_width _ _ _ _ Hr).
Qed.
Lemma tree_tuples ns n a lo hi es fp ls : key_small lo → key_small hi → tree cfg ns n a lo hi es fp ls →
  tuples_ok lo hi es.
Proof.
  revert a lo hi es fp ls. induction n as [|n IH]; intros a lo hi es fp ls Hlo Hhi H.
  - destruct H as (h & l & _ & _ & _ & _ & Hs & Hin & Hsz & _). done.
  - pose proof (tree_width _ _ _ _ _ _ _ _ H) as Hps.
    destruct H as (h & l & fp' & _ & _ & Hr & Hne & Hle & Hsegs & _).
    destruct (segs_bound _ _ _ _ _ _ Hps Hhi Hsegs Hne) as [Hb _].
    destruct (segs_tuples _ _ _ _ _ _ Hps Hhi IH Hsegs) as [S1 R1 Z1]. split; [done| |done].
    eapply (range_weaken (bound l.*2 hi) _ hi); try done; [by apply sized_small|].
    pose proof (cmp_flip hi hi Hhi Hhi). lia.
Qed.

Lemma tree_weaken ns n a lo lo' hi es fp ls : key_small lo → key_small lo' → key_small hi →
  cmp lo' lo ≤ 0 → tree cfg ns n a lo hi es fp ls → tree cfg ns n a lo' hi es fp ls.
Proof.
  intros Hlo Hlo' Hhi Hle H. pose proof (tree_width _ _ _ _ _ _ _ _ H) as Hps. destruct n.
  - destruct H as (h & l & Ha & Hh & Hr & Hl & Hs & Hin & Hsz & Hfp & Hls).
    exists h, l. repeat (split; [done|]). split; [|done].
    eapply (range_weaken lo _ hi); try done; [by apply sized_small|].
    pose proof (cmp_flip hi hi Hhi Hhi). lia.
  - destruct H as (h & l & fp' & Ha & Hh & Hr & Hne & Hlo1 & Hsegs & Hfp).
    exists h, l, fp'. repeat (split; [done|]). split; [|done].
    destruct (segs_bound _ _ _ _ _ _ Hps Hhi Hsegs Hne). by eapply (cmp_le_trans _ lo).
Qed.

(** ** The path to a key *)
(** The tuples on the two sides of the subtree [k] belongs to do not have it. *)
Lemma lookup_middle lo1 hi1 lo2 hi2 A es B k : tuples_ok lo1 hi1 A → tuples_ok lo2 hi2 B → ps < 2 ^ 16 →
  key_small lo1 → key_small hi1 → key_small lo2 → key_small hi2 → key_small k →
  cmp hi1 k ≤ 0 → cmp k lo2 < 0 → tuple_lookup cfg (A ++ es ++ B) k = tuple_lookup cfg es k.
Proof.
  intros [_ RA ZA] [_ RB ZB] Hps H1 H2 H3 H4 Hk Ha Hb. rewrite !tuple_lookup_app.
  rewrite (lookup_outside lo1 hi1 A k) by (done || by apply sized_small || by left).
  rewrite (lookup_outside lo2 hi2 B k) by (done || by apply sized_small || by right).
  by destruct (tuple_lookup cfg es k).
Qed.
Lemma updated_middle lo1 hi1 lo2 hi2 A es es' B k m : tuples_ok lo1 hi1 A → tuples_ok lo2 hi2 B → ps < 2 ^ 16 →
  key_small lo1 → key_small hi1 → key_small lo2 → key_small hi2 → key_small k →
  cmp hi1 k ≤ 0 → cmp k lo2 < 0 → lookup_updated cfg es es' k m →
  lookup_updated cfg (A ++ es ++ B) (A ++ es' ++ B) k m.
Proof.
  intros HA HB Hps H1 H2 H3 H4 Hk Ha Hb Hu k' Hk'. specialize (Hu k' Hk').
  destruct (same_key cfg k k') eqn:Hs.
  - unfold same_key in Hs. apply Z.eqb_eq in Hs. pose proof (cmp_flip k k' Hk Hk').
    rewrite (lookup_middle lo1 hi1 lo2 hi2); try done.
    + eapply (cmp_le_trans _ k); try done. lia.
    + eapply (cmp_le_lt _ k); try done. lia.
  - rewrite !tuple_lookup_app, Hu. done.
Qed.
End tuples.

Lemma segs_middle cfg P hi A v B es fp ls : segs cfg P hi (A ++ v :: B) es fp ls ↔
  ∃ esA esc esB fpA fpc fpB lsA lsc lsB,
    segs cfg P (pivot_key v) A esA fpA lsA ∧ P (child_addr v) (pivot_key v) (bound B hi) esc fpc lsc ∧
    segs cfg P hi B esB fpB lsB ∧ btree_key_compare cfg (pivot_key v) (bound B hi) < 0 ∧ short cfg (pivot_key v) ∧
    fpA ## fpc ∧ fpA ## fpB ∧ fpc ## fpB ∧
    es = esA ++ esc ++ esB ∧ fp = fpA ∪ (fpc ∪ fpB) ∧ ls = lsA ++ lsc ++ lsB.
Proof.
  rewrite segs_app. split.
  - intros (esA & es2 & fpA & fp2 & lsA & ls2 & HA & H2 & Hd & -> & -> & ->).
    inversion H2 as [|? ? esc esB fpc fpB lsc lsB HP HB Hd' Hc Hk]; subst.
    exists esA, esc, esB, fpA, fpc, fpB, lsA, lsc, lsB. split_and!; try done; set_solver.
  - intros (esA & esc & esB & fpA & fpc & fpB & lsA & lsc & lsB & HA & HP & HB & Hc & Hk & H1 & H2 & H3 & -> & -> & ->).
    exists esA, (esc ++ esB), fpA, (fpc ∪ fpB), lsA, (lsc ++ lsB).
    split; [done|]. split; [by constructor|]. set_solver.
Qed.

Section path.
Context (cfg : btree_config) `{!key_order (bt_data_cfg cfg)}.
Local Abbreviation ps := (btree_page_size cfg).
Local Abbreviation cmp := (btree_key_compare cfg).

Lemma sorted_keys_cons k ks : sorted_keys cfg ks → (∀ k', k' ∈ ks → cmp k k' < 0) → sorted_keys cfg (k :: ks).
Proof.
  intros Hs Hk i j a b Hij Ha Hb. pose proof (lookupZ_Some _ _ _ Ha). destruct (decide (i = 0)) as [->|].
  - rewrite lookupZ_cons_0 in Ha. injection Ha as <-. rewrite lookupZ_cons_S in Hb by lia.
    apply Hk. by eapply lookupZ_elem.
  - rewrite lookupZ_cons_S in Ha, Hb by lia. eapply (Hs (i - 1) (j - 1)); [lia|done|done].
Qed.
Lemma segs_pivots P hi vs es fp ls : ps < 2 ^ 16 → key_small hi → segs cfg P hi vs es fp ls →
  sorted_keys cfg (pivot_keys vs) ∧ Forall (λ k, short cfg k ∧ cmp (bound vs hi) k ≤ 0 ∧ cmp k hi < 0) (pivot_keys vs).
Proof.
  intros Hps Hhi H. induction H as [|v vs es es' fp fp' ls ls' H1 H2 [IHs IHf] Hd Hc Hk].
  - split; [|constructor]. intros i j k k' _ Hi. change (pivot_keys []) with (@nil key) in Hi.
    by rewrite lookupZ_nil in Hi.
  - pose proof (short_small cfg _ Hps Hk) as Hv.
    destruct (segs_bound_le cfg _ _ _ _ _ _ Hps Hhi H2) as [Hb Hble].
    assert (Hlt : ∀ k', k' ∈ pivot_keys vs → cmp (pivot_key v) k' < 0).
    { intros k' Hk'. rewrite list.Forall_forall in IHf. destruct (IHf k' Hk') as (Hsk & Hle & _).
      eapply (cmp_lt_le cfg _ (bound vs hi)); try done. by apply (short_small cfg). }
    change (pivot_keys (v :: vs)) with (pivot_key v :: pivot_keys vs). split; [by apply sorted_keys_cons|].
    constructor.
    + split; [done|]. cbn [bound]. pose proof (cmp_flip cfg (pivot_key v) (pivot_key v) Hv Hv). split; [lia|].
      by eapply (cmp_lt_le cfg _ (bound vs hi)).
    + apply list.Forall_forall. intros k' Hk'. rewrite list.Forall_forall in IHf. destruct (IHf k' Hk') as (Hsk & Hle & Hlt').
      split; [done|]. split; [|done]. cbn [bound]. pose proof (Hlt k' Hk'). lia.
Qed.

(** Where a search for [k] among the pivots ends. *)
Lemma finds_path P hi vs es fp ls k r found : ps < 2 ^ 16 → key_small hi → key_small k → segs cfg P hi vs es fp ls →
  vs ≠ [] → cmp k hi < 0 → finds cfg (pivot_keys vs) k r found →
  (r < 0 → cmp k (bound vs hi) < 0) ∧
  (0 ≤ r → ∃ A v B, vs = A ++ v :: B ∧ lengthZ A = r ∧ cmp (pivot_key v) k ≤ 0 ∧ cmp k (bound B hi) < 0).
Proof.
  intros Hps Hhi Hk Hs Hne Hkhi (Hr & Hside & Hat & _).
  destruct (segs_pivots _ _ _ _ _ _ Hps Hhi Hs) as [_ Hf]. rewrite list.Forall_forall in Hf.
  assert (Hsm : ∀ i k', lookupZ (pivot_keys vs) i = Some k' → key_small k').
  { intros i k' Hi. apply (short_small cfg); [done|]. apply Hf. by eapply lookupZ_elem. }
  assert (Hgt : ∀ i k', r < i → lookupZ (pivot_keys vs) i = Some k' → cmp k k' < 0).
  { intros i k' Hi Hk'. destruct (Hside _ _ Hk') as [_ Hlt].
    pose proof (cmp_flip cfg k k' Hk (Hsm _ _ Hk')). specialize (Hlt Hi). lia. }
  split.
  - intros Hr0. destruct vs as [|v vs]; [done|]. cbn [bound]. apply (Hgt 0); [lia|apply lookupZ_cons_0].
  - intros Hr0. unfold pivot_keys in Hr. rewrite lengthZ_fmap in Hr.
    destruct (proj2 (lookupZ_is_Some vs r) ltac:(lia)) as [v Hv].
    destruct (lookupZ_middle _ _ _ Hv) as (A & B & -> & HA). exists A, v, B. split; [done|]. split; [done|].
    assert (Hvk : lookupZ (pivot_keys (A ++ v :: B)) r = Some (pivot_key v)).
    { unfold pivot_keys. by rewrite lookupZ_fmap, Hv. }
    split; [specialize (Hat _ Hvk); destruct found; lia|].
    destruct B as [|v' B]; [done|]. cbn [bound]. apply (Hgt (r + 1)); [lia|].
    unfold pivot_keys. rewrite lookupZ_fmap.
    assert (E : lookupZ (A ++ v :: v' :: B) (r + 1) = Some v'); [|by rewrite E].
    change (v :: v' :: B) with ([v] ++ v' :: B). rewrite app_assoc.
    assert (HAv : lengthZ (A ++ [v]) = r + 1) by (rewrite lengthZ_app, lengthZ_cons; change (lengthZ (@nil pivot)) with 0; lia).
    rewrite <-HAv. apply lookupZ_at_length.
Qed.
End path.

(** ** The list of leaves *)
Definition next_leaf (ls : list Z) : Z := default 0 (head ls).
(** The leaves [ls], linked both ways, after leaf [prev]. *)
Fixpoint chain (ns : gmap Z btree_hdr) (prev : Z) (ls : list Z) : Prop :=
  match ls with
  | [] => True
  | a :: ls' => (∃ h, ns !! a = Some h ∧ height h = 0 ∧ prev_addr h = prev ∧ next_addr h = next_leaf ls') ∧
      a ≠ 0 ∧ (a ∉ ls') ∧ chain ns a ls'
  end.
(** What the list of leaves says of a node. *)
Definition links (h : btree_hdr) : Z * Z * Z := (height h, prev_addr h, next_addr h).
Lemma chain_frame ns ns' prev ls : chain ns prev ls → (∀ b, b ∈ ls → links <$> ns' !! b = links <$> ns !! b) →
  chain ns' prev ls.
Proof.
  revert prev. induction ls as [|a ls IH]; intros prev Hc Hns; [done|].
  destruct Hc as ((h & Ha & Hh & Hp & Hn) & Ha0 & Hnin & Hc). split; [|split_and!; [done..|]].
  - specialize (Hns a ltac:(set_solver)). rewrite Ha in Hns. apply fmap_Some in Hns as (h' & Ha' & He).
    injection He as E1 E2 E3. exists h'. split; [done|]. by rewrite <-E1, <-E2, <-E3.
  - apply IH; [done|]. intros b Hb. apply Hns. set_solver.
Qed.
Lemma chain_at ns prev ls1 a ls2 : chain ns prev (ls1 ++ a :: ls2) →
  ∃ h, ns !! a = Some h ∧ height h = 0 ∧ next_addr h = next_leaf ls2 ∧ a ≠ 0 ∧ (a ∉ ls1) ∧ a ∉ ls2.
Proof.
  revert prev. induction ls1 as [|b ls1 IH]; intros prev Hc.
  - destruct Hc as ((h & Ha & Hh & _ & Hn) & Ha0 & Hnin & _). exists h. split_and!; try done. set_solver.
  - destruct Hc as (_ & _ & Hnin & Hc). destruct (IH _ Hc) as (h & Ha & Hh & Hn & Ha0 & H1 & H2).
    exists h. split_and!; try done. set_solver.
Qed.
(** Leaf [a] is split: [r], new, comes after it. *)
Lemma chain_split ns ns' prev ls1 a r ls2 : chain ns prev (ls1 ++ a :: ls2) → r ≠ 0 → r ∉ ls1 ++ a :: ls2 →
  (∃ ha ha', ns !! a = Some ha ∧ ns' !! a = Some ha' ∧ height ha' = 0 ∧ prev_addr ha' = prev_addr ha ∧ next_addr ha' = r) →
  (∃ hr, ns' !! r = Some hr ∧ height hr = 0 ∧ prev_addr hr = a ∧ next_addr hr = next_leaf ls2) →
  (∀ b, b ∈ ls1 → links <$> ns' !! b = links <$> ns !! b) →
  (∀ b ls3, ls2 = b :: ls3 → ∃ hb, ns !! b = Some hb ∧ links <$> ns' !! b = Some (height hb, r, next_addr hb)) →
  (∀ b, b ∈ tail ls2 → links <$> ns' !! b = links <$> ns !! b) →
  chain ns' prev (ls1 ++ a :: r :: ls2).
Proof.
  intros Hc Hr0 Hr (ha & ha' & Ha & Ha' & E1 & E2 & E3) (hr & Hhr & F1 & F2 & F3) H1 H2 H3.
  revert prev Hc. induction ls1 as [|b ls1 IH]; intros prev Hc.
  - destruct Hc as ((h & Ha2 & Hh & Hp & Hn) & Ha0 & Hnin & Hc). rewrite Ha in Ha2. injection Ha2 as <-.
    cbn [app chain]. split; [exists ha'; split_and!; [done|done|congruence|done]|]. split; [done|]. split; [set_solver|].
    split; [exists hr; done|]. split; [done|]. split; [set_solver|].
    destruct ls2 as [|b ls3]; [done|]. destruct Hc as ((hb & Hb & Hhb & Hpb & Hnb) & Hb0 & Hbn & Hc).
    destruct (H2 b ls3 eq_refl) as (hb' & Hb' & Hlb). rewrite Hb in Hb'. injection Hb' as <-.
    apply fmap_Some in Hlb as (hb' & Hb' & Hl). injection Hl as G1 G2 G3.
    split; [exists hb'; split_and!; congruence|]. split; [done|]. split; [done|].
    eapply chain_frame; [exact Hc|]. intros c Hcl. by apply H3.
  - destruct Hc as ((h & Hb & Hh & Hp & Hn) & Hb0 & Hnin & Hc). cbn [app chain].
    pose proof (H1 b ltac:(set_solver)) as Hl. rewrite Hb in Hl. apply fmap_Some in Hl as (h' & Hb' & Hl).
    injection Hl as G1 G2 G3. split.
    { exists h'. split; [done|]. rewrite <-G1, <-G2, <-G3. split_and!; [done..|]. rewrite Hn. by destruct ls1. }
    split; [done|]. split; [set_solver|]. apply IH; [set_solver|intros; apply H1; set_solver|done].
Qed.

Lemma chain_nodup ns prev ls : chain ns prev ls → NoDup ls.
Proof.
  revert prev. induction ls as [|a ls IH]; intros prev H; [constructor|].
  destruct H as (_ & _ & Hn & Hc). constructor; [done|by eapply IH].
Qed.
Lemma chain_leaf ns prev ls b : chain ns prev ls → b ∈ ls → ∃ h, ns !! b = Some h ∧ height h = 0 ∧ b ≠ 0.
Proof.
  revert prev. induction ls as [|a ls IH]; intros prev H Hb; [by apply not_elem_of_nil in Hb|].
  destruct H as ((h & Ha & Hh & _) & H0 & _ & Hc). apply elem_of_cons in Hb as [->|Hb]; [by exists h|by eapply IH].
Qed.

Lemma insert_at_middle {A} (l1 l2 : list A) x y : insert_at (lengthZ l1 + 1) y (l1 ++ x :: l2) = l1 ++ x :: y :: l2.
Proof.
  unfold insert_at. replace (Z.to_nat (lengthZ l1 + 1)) with (length (l1 ++ [x])) by (rewrite length_app; unfold lengthZ; cbn; lia).
  change (l1 ++ x :: l2) with (l1 ++ [x] ++ l2). rewrite app_assoc, take_app_length, drop_app_length.
  by rewrite <-!app_assoc.
Qed.
Lemma same_pivots_insert l A v B x : same_pivots l (A ++ v :: B) →
  same_pivots (insert_at (lengthZ A + 1) x l) (A ++ v :: x :: B).
Proof.
  unfold same_pivots. intros H. rewrite fmap_insert_at, H, <-fmap_insert_at, insert_at_middle. done.
Qed.
Lemma same_pivots_length l l' : same_pivots l l' → lengthZ l = lengthZ l'.
Proof. unfold same_pivots. intros H. rewrite <-(lengthZ_fmap clean l), H. apply lengthZ_fmap. Qed.
