(* ===== verification/BtreeWorld.v ===== *)
(** * Runs of the primitives of the B-tree

    The interface the B-tree needs of its allocator, what a state of the tree is
    made of, and what each access to the cache and the allocator does to it. *)
From S2P Require Import Prelude Allocator Bytes DataInternal BtreeNode NodeLayout BtreePivot Btree.

Definition BTREE_MAX_HEIGHT : Z := 8.
(** What the allocator of nodes promises: a page not in use, at a page-aligned
    address, as long as it has room. *)
Class node_source_laws (S : Type) `{node_source S} (ps : Z) := {
  ns_inv : S → Prop;
  ns_used : S → gset Z;
  ns_room : S → nat;
  ns_alloc_fresh height s : ns_inv s → 0 ≤ height < BTREE_MAX_HEIGHT → ns_room s ≠ 0%nat →
    ∃ a s', ns_alloc height s = Ret (a, s') ∧ ns_inv s' ∧ (a ∉ ns_used s) ∧ ns_used s' = {[a]} ∪ ns_used s ∧
      ns_room s' = Nat.pred (ns_room s) ∧ 0 < a < 2 ^ 64 ∧ Z.land a (Z.lnot 4095) = a;
  ns_garbage_length a : lengthZ (page (ns_garbage a)) = ps;
}.

(** How many of the claims to come fail. *)
Fixpoint failures (cs : list bool) : nat :=
  match cs with [] => 0 | c :: cs' => (if c then 0 else 1) + failures cs' end.
Lemma failures_length cs : (failures cs ≤ length cs)%nat.
Proof. induction cs as [|[] cs IH]; cbn; lia. Qed.

(** What is held, but for page [a]. *)
Definition hset (a : Z) (x : hold) (H : Z → hold) : Z → hold := λ b, if decide (b = a) then x else H b.
Definition nothing_held : Z → hold := λ _, NO_HOLD.
Lemma hset_eq a x H : hset a x H a = x.
Proof. unfold hset. by rewrite decide_True. Qed.
Lemma hset_ne a b x H : b ≠ a → hset a x H b = H b.
Proof. intros ?. unfold hset. by rewrite decide_False. Qed.

Section world.
Context {S : Type} `{ns : node_source S} {ps : Z} `{!node_source_laws S ps} (cfg : btree_config).
Implicit Types (w : tree_state S) (nd : gmap Z btree_hdr) (s : S) (cs : list bool).

(** The parts of a state that matter; the heap never fails. *)
Record st w nd (H : Z → hold) s cs : Prop := {
  st_nodes : w_nodes w = nd;
  st_held a : holding w a = H a;
  st_mini : w_mini w = s;
  st_claims : w_claims w = cs;
  st_heap : Forall (λ b, b = true) (w_heap w);
}.
Lemma st_ext w nd H H' s cs : st w nd H s cs → (∀ a, H a = H' a) → st w nd H' s cs.
Proof. intros [? Hh ? ? ?] He. split; try done. intros a. by rewrite Hh. Qed.

Lemma holding_set a x w b : holding (set_hold a x w) b = if decide (b = a) then x else holding w b.
Proof.
  unfold holding, set_hold, with_held. cbn [w_held].
  destruct (decide (x = NO_HOLD)) as [->|], (decide (b = a)) as [->|].
  - by rewrite lookup_delete_eq.
  - by rewrite lookup_delete_ne.
  - by rewrite lookup_insert_eq.
  - by rewrite lookup_insert_ne.
Qed.
Lemma st_set_hold w nd H s cs a x : st w nd H s cs → st (set_hold a x w) nd (hset a x H) s cs.
Proof.
  intros [? Hh ? ? ?]. split; try done. intros b. rewrite holding_set. unfold hset. by rewrite Hh.
Qed.
Lemma change_hold_run w nd H s cs a ok f : st w nd H s cs → ok (H a) = true →
  ∃ w', change_hold a ok f w = Ret (tt, w') ∧ st w' nd (hset a (f (H a)) H) s cs.
Proof.
  intros Hst Hok. pose proof (st_held _ _ _ _ _ Hst a) as Ha. unfold change_hold. rewrite run_get, Ha, Hok.
  eexists. split; [done|]. by apply st_set_hold.
Qed.

Lemma get_run w nd H s cs a h : st w nd H s cs → nd !! a = Some h → H a = NO_HOLD →
  ∃ w', btree_node_get a w = Ret (tt, w') ∧ st w' nd (hset a READ H) s cs.
Proof.
  intros Hst Hn Ha. unfold btree_node_get. rewrite run_get, (st_nodes _ _ _ _ _ Hst), (run_opt _ _ _ _ Hn).
  apply (change_hold_run w nd H s cs a _ (λ _, READ) Hst). rewrite Ha. by apply bool_decide_eq_true.
Qed.
Lemma next_claim_run w nd H s cs : st w nd H s cs →
  ∃ c w' cs', next_claim w = Ret (c, w') ∧ st w' nd H s cs' ∧ (failures cs' ≤ failures cs)%nat ∧
    (c = false → (failures cs' < failures cs)%nat).
Proof.
  intros Hst. unfold next_claim. rewrite run_get. pose proof (st_claims _ _ _ _ _ Hst) as Hc. rewrite Hc.
  destruct cs as [|c cs].
  - exists true, w, []. done.
  - rewrite run_mod. exists c, (with_claims cs w), cs. split; [done|]. destruct Hst. split; [done|]. cbn [failures]. destruct c; cbn; intuition (congruence || lia).
Qed.
Lemma claim_run w nd H s cs a : st w nd H s cs → H a = READ →
  ∃ c w' cs', btree_node_claim a w = Ret (c, w') ∧ st w' nd (hset a (if c then CLAIM else READ) H) s cs' ∧
    (failures cs' ≤ failures cs)%nat ∧ (c = false → (failures cs' < failures cs)%nat).
Proof.
  intros Hst Ha. destruct (next_claim_run _ _ _ _ _ Hst) as (c & w1 & cs' & Hrun & Hst1 & Hl & Hf).
  unfold btree_node_claim. rewrite (bind_run _ _ _ _ _ Hrun).
  destruct (change_hold_run w1 nd H s cs' a (λ x, bool_decide (x = READ)) (λ x, if c then CLAIM else x) Hst1)
    as (w2 & Hrun2 & Hst2); [rewrite Ha; by apply bool_decide_eq_true|].
  rewrite (bind_run _ _ _ _ _ Hrun2). rewrite Ha in Hst2. by exists c, w2, cs'.
Qed.
Lemma lock_run w nd H s cs a : st w nd H s cs → H a = CLAIM →
  ∃ w', btree_node_lock a w = Ret (tt, w') ∧ st w' nd (hset a WRITE H) s cs.
Proof.
  intros Hst Ha. unfold btree_node_lock.
  destruct (change_hold_run w nd H s cs a (λ x, bool_decide (x = CLAIM)) (λ _, WRITE) Hst) as (w1 & Hrun & Hst1);
    [rewrite Ha; by apply bool_decide_eq_true|].
  rewrite (bind_run _ _ _ _ _ Hrun). eexists. split; [done|]. by destruct Hst1.
Qed.
Lemma unlock_run w nd H s cs a : st w nd H s cs → H a = WRITE →
  ∃ w', btree_node_unlock a w = Ret (tt, w') ∧ st w' nd (hset a CLAIM H) s cs.
Proof.
  intros Hst Ha.
  destruct (change_hold_run w nd H s cs a hold_write (λ x, mk_hold (hold_read x) (hold_claim x) false) Hst)
    as (w1 & Hrun & Hst1); [by rewrite Ha|]. rewrite Ha in Hst1. by exists w1.
Qed.
Lemma unclaim_run w nd H s cs a : st w nd H s cs → H a = CLAIM →
  ∃ w', btree_node_unclaim a w = Ret (tt, w') ∧ st w' nd (hset a READ H) s cs.
Proof.
  intros Hst Ha.
  destruct (change_hold_run w nd H s cs a (λ x, hold_claim x && negb (hold_write x))
    (λ x, mk_hold (hold_read x) false false) Hst) as (w1 & Hrun & Hst1); [by rewrite Ha|].
  rewrite Ha in Hst1. by exists w1.
Qed.
Lemma unget_run w nd H s cs a : st w nd H s cs → H a = READ →
  ∃ w', btree_node_unget a w = Ret (tt, w') ∧ st w' nd (hset a NO_HOLD H) s cs.
Proof.
  intros Hst Ha.
  destruct (change_hold_run w nd H s cs a hold_read (λ x, mk_hold false (hold_claim x) (hold_write x)) Hst)
    as (w1 & Hrun & Hst1); [by rewrite Ha|]. rewrite Ha in Hst1. by exists w1.
Qed.
Lemma hset_twice a x y H b : hset a x (hset a y H) b = hset a x H b.
Proof. unfold hset. by destruct (decide (b = a)). Qed.
Lemma full_unlock_run w nd H s cs a : st w nd H s cs → H a = WRITE →
  ∃ w', btree_node_full_unlock a w = Ret (tt, w') ∧ st w' nd (hset a NO_HOLD H) s cs.
Proof.
  intros Hst Ha. unfold btree_node_full_unlock.
  destruct (unlock_run _ _ _ _ _ _ Hst Ha) as (w1 & Hr1 & Hst1).
  destruct (unclaim_run _ _ _ _ _ a Hst1) as (w2 & Hr2 & Hst2); [apply hset_eq|].
  destruct (unget_run _ _ _ _ _ a Hst2) as (w3 & Hr3 & Hst3); [apply hset_eq|].
  exists w3. rewrite (bind_run _ _ _ _ _ Hr1), (bind_run _ _ _ _ _ Hr2). split; [done|].
  eapply st_ext; [exact Hst3|]. intros b. by rewrite !hset_twice.
Qed.
(** Unlock and unclaim, keeping the reference. *)
Lemma release_run {B} (k : unit → M (tree_state S) B) w nd H s cs a : st w nd H s cs → H a = WRITE →
  ∃ w', (btree_node_unlock a;; btree_node_unclaim a ≫= k) w = k tt w' ∧ st w' nd (hset a READ H) s cs.
Proof.
  intros Hst Ha. destruct (unlock_run _ _ _ _ _ _ Hst Ha) as (w1 & Hr1 & Hst1).
  destruct (unclaim_run _ _ _ _ _ a Hst1) as (w2 & Hr2 & Hst2); [apply hset_eq|].
  exists w2. rewrite (bind_run _ _ _ _ _ Hr1), (bind_run _ _ _ _ _ Hr2). split; [done|].
  eapply st_ext; [exact Hst2|]. intros b. by rewrite !hset_twice.
Qed.

Lemma peek_run {A} w nd H s cs a (m : N A) h x h' : st w nd H s cs → hold_read (H a) = true → nd !! a = Some h →
  m h = Ret (x, h') → peek a m w = Ret (x, w).
Proof.
  intros Hst Ha Hn Hm. unfold peek. by rewrite (st_held _ _ _ _ _ Hst), Ha, (st_nodes _ _ _ _ _ Hst), Hn, Hm.
Qed.
Lemma peek_hdr w nd H s cs a h : st w nd H s cs → hold_read (H a) = true → nd !! a = Some h →
  peek a mget w = Ret (h, w).
Proof. intros ???. by eapply peek_run. Qed.
Lemma change_node_run {A} w nd H s cs ok a (m : N A) h x h' : st w nd H s cs → ok (H a) = true → nd !! a = Some h →
  m h = Ret (x, h') → ∃ w', change_node ok a m w = Ret (x, w') ∧ st w' (<[a := h']> nd) H s cs.
Proof.
  intros Hst Ha Hn Hm. unfold change_node.
  rewrite (st_held _ _ _ _ _ Hst), Ha, (st_nodes _ _ _ _ _ Hst), Hn, Hm. eexists. split; [done|].
  destruct Hst as [Hn' Hh ? ? ?]. split; try done. cbn. by rewrite Hn'.
Qed.
Lemma on_node_run {A} w nd H s cs a (m : N A) h x h' : st w nd H s cs → H a = WRITE → nd !! a = Some h →
  m h = Ret (x, h') → ∃ w', on_node a m w = Ret (x, w') ∧ st w' (<[a := h']> nd) H s cs.
Proof. intros Hst Ha. apply change_node_run; [done|]. by rewrite Ha. Qed.
Lemma alloc_run w nd H s cs height : st w nd H s cs → ns_inv s → 0 ≤ height < BTREE_MAX_HEIGHT → ns_room s ≠ 0%nat →
  ∃ a w' s', btree_alloc height w = Ret (a, w') ∧ st w' (<[a := ns_garbage a]> nd) (hset a WRITE H) s' cs ∧
    ns_inv s' ∧ (a ∉ ns_used s) ∧ ns_used s' = {[a]} ∪ ns_used s ∧ ns_room s' = Nat.pred (ns_room s) ∧
    0 < a < 2 ^ 64 ∧ Z.land a (Z.lnot 4095) = a.
Proof.
  intros Hst Hi Hh Hro. destruct (ns_alloc_fresh height s Hi Hh Hro) as (a & s' & Hrun & Hrest).
  unfold btree_alloc. rewrite (st_mini _ _ _ _ _ Hst), Hrun. eexists a, _, s'. split; [done|]. split; [|done].
  destruct Hst as [Hn Hhd ? ? ?]. split; try done.
  - cbn. by rewrite Hn.
  - intros b. change (holding (set_hold a WRITE w) b = hset a WRITE H b). rewrite holding_set. unfold hset. by rewrite Hhd.
Qed.
Lemma create_spec_at w nd H s cs a k msg h x h' : st w nd H s cs → hold_read (H a) = true → nd !! a = Some h →
  btree_create_leaf_incorporate_spec cfg (λ _, true) k msg h = Ret (x, h') →
  ∃ w', create_spec cfg a k msg w = Ret (x, w') ∧ st w' nd H s cs.
Proof.
  intros Hst Ha Hn Hm. unfold create_spec. rewrite run_get, run_mod.
  assert (E : default true (head (w_heap w)) = true).
  { pose proof (st_heap _ _ _ _ _ Hst) as Hh. destruct (w_heap w); [done|]. by inversion Hh. }
  rewrite E.
  assert (Hst1 : st (with_heap (tail (w_heap w)) w) nd H s cs).
  { destruct Hst as [? ? ? ? Hh]. split; try done. cbn. destruct (w_heap w); [done|]. by inversion Hh. }
  eexists. split; [|exact Hst1]. by eapply peek_run.
Qed.
End world.

(** What is held of a page, and that two descriptions of what is held agree. *)
Ltac hold_solve :=
  intros; unfold hset, nothing_held in *; repeat case_decide; subst; try done; try congruence; try (exfalso; intuition congruence).
Ltac hold_ext := let b := fresh "b" in intros b; hold_solve.
(** Run the primitive at the head by lemma [L]. *)
Tactic Notation "step" open_constr(L) "as" ident(w) ident(H) :=
  let Hrun := fresh "Hrun" in
  edestruct L as (w & Hrun & H); [try hold_solve ..| rewrite (bind_run _ _ _ _ _ Hrun); clear Hrun].
Tactic Notation "look" open_constr(L) :=
  let Hrun := fresh "Hrun" in
  pose proof L as Hrun; rewrite (bind_run _ _ _ _ _ Hrun); clear Hrun.

Section next.
Context {S : Type} `{ns : node_source S} {ps : Z} `{!node_source_laws S ps} (cfg : btree_config).
Implicit Types (w : tree_state S) (nd : gmap Z btree_hdr) (s : S) (cs : list bool).

Lemma claim_or_give_up_run n : ∀ w nd H s cs a h, st w nd H s cs → nd !! a = Some h → H a = READ →
  ∃ c w' cs', claim_or_give_up n a w = Ret (c, w') ∧ st w' nd (hset a (if c then CLAIM else NO_HOLD) H) s cs' ∧
    (failures cs' ≤ failures cs)%nat ∧ (c = false → (failures cs' < failures cs)%nat).
Proof.
  induction n as [|n IH]; intros w nd H s cs a h Hst Hn Ha; cbn [claim_or_give_up];
    destruct (claim_run _ _ _ _ _ a Hst Ha) as (c & w1 & cs1 & Hrun & Hst1 & Hl & Hf);
    rewrite (bind_run _ _ _ _ _ Hrun); destruct c.
  1, 3: by exists true, w1, cs1.
  all: step (unget_run _ _ _ _ _ a Hst1) as w2 Hst2; specialize (Hf eq_refl).
  - exists false, w2, cs1. split; [done|]. split; [|split; [lia|done]]. eapply st_ext; [exact Hst2|]. hold_ext.
  - step (get_run _ _ _ _ _ a _ Hst2 Hn) as w3 Hst3.
    destruct (IH w3 nd _ s cs1 a h Hst3 Hn) as (c & w4 & cs4 & Hrun4 & Hst4 & Hl4 & Hf4); [hold_solve|].
    exists c, w4, cs4. split; [done|]. split; [|split; [lia|lia]]. eapply st_ext; [exact Hst4|]. hold_ext.
Qed.
Lemma lock_next_run w nd H s cs nx : st w nd H s cs → (nx ≠ 0 → is_Some (nd !! nx) ∧ H nx = NO_HOLD) →
  ∃ c w' cs', lock_next nx w = Ret (c, w') ∧
    st w' nd (if decide (nx = 0) then H else hset nx (if c then WRITE else NO_HOLD) H) s cs' ∧
    (failures cs' ≤ failures cs)%nat ∧ (c = false → (failures cs' < failures cs)%nat).
Proof.
  intros Hst Hnx. unfold lock_next. destruct (Z.eqb_spec nx 0) as [->|Hne].
  - by exists true, w, cs.
  - destruct (decide (nx = 0)) as [|_]; [done|]. destruct (Hnx Hne) as [[h Hn] Hh].
    step (get_run _ _ _ _ _ nx _ Hst Hn) as w1 Hst1.
    destruct (claim_or_give_up_run 100 w1 nd _ s cs nx h Hst1 Hn) as (c & w2 & cs2 & Hrun2 & Hst2 & Hl & Hf); [hold_solve|].
    rewrite (bind_run _ _ _ _ _ Hrun2). destruct c.
    + step (lock_run _ _ _ _ _ nx Hst2) as w3 Hst3. exists true, w3, cs2. split; [done|]. split; [|done].
      eapply st_ext; [exact Hst3|]. hold_ext.
    + exists false, w2, cs2. split; [done|]. split; [|done]. eapply st_ext; [exact Hst2|]. hold_ext.
Qed.
Lemma claim_leaf_run fuel : ∀ w nd H s cs c h b, st w nd H s cs → nd !! c = Some h → H c = READ → (failures cs < fuel)%nat →
  ∃ b' w' cs', claim_leaf fuel c b w = Ret (b', w') ∧ st w' nd (hset c CLAIM H) s cs' ∧ (failures cs' ≤ failures cs)%nat.
Proof.
  induction fuel as [|fuel IH]; intros w nd H s cs c h b Hst Hc Hr Hf; [lia|]. cbn [claim_leaf].
  destruct (claim_run _ _ _ _ _ c Hst Hr) as (ok & w1 & cs1 & Hrun & Hst1 & Hl & Hless).
  rewrite (bind_run _ _ _ _ _ Hrun). destruct ok; [by exists b, w1, cs1|]. specialize (Hless eq_refl).
  step (unget_run _ _ _ _ _ c Hst1) as w2 Hst2. step (get_run _ _ _ _ _ c _ Hst2 Hc) as w3 Hst3.
  destruct (IH w3 nd _ s cs1 c h true Hst3 Hc) as (b' & w4 & cs4 & Hrun4 & Hst4 & Hl4); [hold_solve|lia|].
  exists b', w4, cs4. split; [done|]. split; [|lia]. eapply st_ext; [exact Hst4|]. hold_ext.
Qed.

End next.
