(* ===== verification/BtreeInsertLeaf.v ===== *)
(** * Insertion at the leaves

    Splitting and defragmenting a leaf under its parent: the two leaves a split
    makes and the pivot between them, and the runs of the operations over the
    tree's state. *)
From S2P Require Import Prelude Allocator Bytes DataInternal BtreeNode NodeLayout BtreeLeaf LeafMap BtreeSplit.
From S2P Require Import BtreeIndex BtreePivot Btree BtreeTree BtreeWorld.

(** Whether the tuple was not in the leaf. *)
Definition is_new (sp : leaf_incorporate_spec) : bool := bool_decide (old_entry_state sp = ENTRY_DID_NOT_EXIST).
Lemma is_new_detached sp : is_new (detached sp) = is_new sp.
Proof. unfold detached, is_new, still_exists. by destruct sp as [? ? [] ?]. Qed.

Section split_nodes.
Context (cfg : btree_config) `{!key_order (bt_data_cfg cfg)}.
Local Abbreviation ps := (btree_page_size cfg).
Local Abbreviation cmp := (btree_key_compare cfg).
Context (Hps : 4096 ≤ ps).

Lemma sized_inline e : sized cfg e → inline_sized ps e.
Proof using Hps.
  intros [Hk Hm]. split; [|done]. unfold short in Hk. change (key_length (USER_KEY e.1)) with (lengthZ e.1) in Hk.
  unfold MAX_INLINE_KEY_SIZE. pose proof (lengthZ_nonneg e.1). apply Z.div_le_lower_bound; lia.
Qed.
Lemma sized_fits k m : ps < 2 ^ 16 → sized cfg (k, m) → message_class m ≠ MESSAGE_TYPE_PIVOT_DATA → tuple_fits k m.
Proof using Hps.
  intros Hw [Hk Hm] Hc. unfold short in Hk. cbn in Hk, Hm. unfold MAX_INLINE_MESSAGE_SIZE in Hm.
  pose proof (lengthZ_nonneg k). split; [lia|]. split; [|done].
  pose proof (Z.mul_div_le (35 * ps) 100 ltac:(lia)). lia.
Qed.

(** What a leaf holds once the key's tuple is in it. *)
Section leaf.
Context (h : btree_hdr) (l : list (Z * tuple)) (sp : leaf_incorporate_spec) (key : list Z) (m : message).
Local Abbreviation es := (l.*2).
Local Abbreviation T := (performed sp es (key, m)).
Context (Hr : node_repr ps h l) (Hsp : spec_for cfg es key m sp) (Hsort : sorted_tuples cfg es).
Context (Hsz : Forall (sized cfg) es) (Hx : sized cfg (key, m)) (Hclass : message_class m ≠ MESSAGE_TYPE_PIVOT_DATA).

Lemma leaf_width : ps < 2 ^ 16.
Proof using Hr. apply (repr_width _ _ _ _ Hr). Qed.
Lemma leaf_idx : 0 ≤ idx sp ≤ lengthZ es ∧ (still_exists sp = true → idx sp < lengthZ es).
Proof using Hsp. by eapply spec_idx. Qed.
Lemma performed_sized : Forall (sized cfg) T.
Proof using Hsz Hx. unfold performed. destruct (still_exists sp); [by apply Forall_insertZ|by apply Forall_insert_at]. Qed.
Lemma performed_sorted : sorted_tuples cfg T.
Proof using All.
  apply (performed_updates cfg es key m sp); try done.
  - apply (sized_small cfg); [apply leaf_width|done].
  - unfold slice_small. destruct Hx as [Hk _]. unfold short in Hk. cbn in Hk. pose proof leaf_width. lia.
Qed.

(** The pivot a split puts in the parent compares equal to the first key on the right. *)
Lemma splitting_pivot_run plan : 0 < cut sp plan < lengthZ T →
  (if insertion_goes_left plan then after_old sp ≤ split_idx plan ≤ lengthZ es else 0 ≤ split_idx plan ≤ idx sp) →
  ∃ kp e, btree_splitting_pivot h sp plan = Some (USER_KEY kp) ∧ lookupZ T (cut sp plan) = Some e ∧
    cmp (USER_KEY kp) (USER_KEY e.1) = 0 ∧ short cfg (USER_KEY kp).
Proof using All.
  intros Hc Hplan. destruct leaf_idx as [Hi Hs]. pose proof (repr_holds_tuples ps h l Hr) as Hh.
  assert (Hrefl : ∀ k, short cfg (USER_KEY k) → cmp (USER_KEY k) (USER_KEY k) = 0).
  { intros k Hk. apply dkc_refl; [done|]. apply (short_small cfg); [apply leaf_width|done]. }
  assert (Hold : ∀ i e, lookupZ es i = Some e → btree_get_tuple_key h i = Some (USER_KEY e.1) ∧ short cfg (USER_KEY e.1)).
  { intros i e Hie. destruct (Hh i e Hie) as (Hg & _). rewrite Z.add_0_l in Hg. split; [done|].
    rewrite list.Forall_forall in Hsz. apply (Hsz e). by eapply lookupZ_elem. }
  unfold btree_splitting_pivot. destruct (insertion_goes_left plan) eqn:Hg; cbn [negb].
  - rewrite andb_false_r. pose proof (drop_left es (key, m) sp plan Hi Hs) as Hd. rewrite Hg in Hd.
    specialize (Hd Hplan eq_refl). pose proof (after_old_range es sp Hi Hs).
    assert (Hat : lookupZ T (cut sp plan) = lookupZ es (split_idx plan)).
    { pose proof (lookupZ_drop T (Z.to_nat (cut sp plan)) 0 ltac:(lia)) as E1.
      pose proof (lookupZ_drop es (Z.to_nat (split_idx plan)) 0 ltac:(lia)) as E2.
      rewrite Hd in E1. rewrite E1 in E2. rewrite !Z.add_0_r, !Z2Nat.id in E2 by lia. done. }
    assert (Hb : 0 ≤ cut sp plan < lengthZ T) by (clear - Hc; lia).
    destruct (proj2 (lookupZ_is_Some T (cut sp plan)) Hb) as [e He].
    rewrite He in Hat. destruct (Hold _ e (eq_sym Hat)) as [Hk Hke]. exists e.1, e. split_and!; auto.
  - rewrite andb_true_r. assert (Hcut : cut sp plan = split_idx plan) by (unfold cut; rewrite Hg; cbn; lia).
    rewrite Hcut in *. destruct (Z.eqb_spec (split_idx plan) (idx sp)) as [E|E]; cbn [andb].
    + rewrite E, lookup_new by done. destruct (still_exists sp) eqn:Hst; cbn [negb].
      * destruct (proj2 (lookupZ_is_Some es (idx sp)) (conj (proj1 Hi) (Hs eq_refl))) as [e He].
        destruct (Hold _ _ He) as [Hk Hke]. exists e.1, (key, m). split; [done|]. split; [done|]. split; [|done].
        pose proof (spec_finds cfg _ _ _ _ Hsp) as (_ & _ & Hat & _). rewrite Hst in Hat.
        apply (Hat (USER_KEY e.1)). by rewrite lookupZ_tuple_keys, He.
      * exists key, (key, m). rewrite (spec_key cfg _ _ _ _ Hsp). destruct Hx as [Hk _]. split_and!; auto.
    + rewrite lookup_low by (done || lia).
      assert (Hb : 0 ≤ split_idx plan < lengthZ es) by (clear - Hplan Hi E; lia).
      destruct (proj2 (lookupZ_is_Some es (split_idx plan)) Hb) as [e He].
      destruct (Hold _ _ He) as [Hk Hke]. exists e.1, e. split_and!; auto.
Qed.

Lemma performed_weight : total_weight T ≤ total_weight es + weight (key, m).
Proof using Hsp.
  destruct leaf_idx as [Hi Hs]. rewrite (total_performed es (key, m) sp Hi Hs), total_weight_size.
  destruct (without_sizes sp es) as [_ Hw]; [intros E; split; [lia|by apply Hs]|].
  unfold weight, SIZEOF_TABLE_ENTRY. destruct (still_exists sp); lia.
Qed.

(** The nodes of a split: [kp] is the pivot, [c] the number of tuples that stay. *)
Definition split_parts (plan : leaf_splitting_plan) (c : Z) : Prop :=
  ∀ left_addr r right_addr, lengthZ (page r) = ps →
  ∃ sp1 g r' lr sp2 h1 h2 ll gen,
    btree_split_leaf_build_right_node cfg h left_addr sp plan r = Ret ((sp1, g), r') ∧
    node_repr ps r' lr ∧ lr.*2 = drop (Z.to_nat c) T ∧
    prev_addr r' = left_addr ∧ next_addr r' = next_addr h ∧ height r' = height h ∧
    btree_split_leaf_cleanup_left_node cfg sp1 plan right_addr h = Ret (sp2, h1) ∧ is_new sp2 = is_new sp ∧
    node_repr ps h2 ll ∧ ll.*2 = take (Z.to_nat c) T ∧
    next_addr h2 = right_addr ∧ prev_addr h2 = prev_addr h ∧ height h2 = height h ∧
    if insertion_goes_left plan then btree_try_perform_leaf_incorporate_spec sp2 h1 = Ret (Some gen, h2)
    else h1 = h2 ∧ g = Some gen.

Lemma split_leaf_nodes : 2 ≤ lengthZ T →
  ∃ plan kp, let c := cut sp plan in
    btree_build_leaf_splitting_plan sp h = Ret (plan, h) ∧ 0 < c < lengthZ T ∧
    btree_splitting_pivot h sp plan = Some (USER_KEY kp) ∧ short cfg (USER_KEY kp) ∧
    (∃ e, lookupZ T c = Some e ∧ cmp (USER_KEY kp) (USER_KEY e.1) = 0) ∧ split_parts plan c.
Proof using All.
  intros HT. destruct leaf_idx as [Hi Hs]. pose proof (sized_fits key m leaf_width Hx Hclass) as Hf.
  pose proof (spec_key cfg _ _ _ _ Hsp) as Hk. pose proof (spec_msg cfg _ _ _ _ Hsp) as Hm.
  assert (Hi' : 0 ≤ idx sp ≤ lengthZ l) by by rewrite lengthZ_fmap in Hi.
  assert (Hs' : still_exists sp = true → idx sp < lengthZ l) by by rewrite lengthZ_fmap in Hs.
  destruct (plan_run ps h l key m sp Hr Hk Hm Hi' Hs') as (plan & Hplan & Hgreedy & Hside).
  rewrite <-(lengthZ_fmap snd l) in Hside.
  destruct (halves_fit cfg h l T (cut sp plan) Hr) as (Hc & Hleft & Hright); [lia| | |done|done|].
  { eapply list.Forall_impl; [apply performed_sized|apply sized_inline]. }
  { exists (key, m). split; [by apply sized_inline|apply performed_weight]. }
  destruct (splitting_pivot_run plan Hc Hside) as (kp & e & Hkp & He & Heq & Hshort).
  exists plan, kp. split; [done|]. split; [done|]. split; [done|]. split; [done|]. split; [by exists e|].
  assert (Hps' : SIZEOF_BTREE_HDR ≤ ps) by (unfold SIZEOF_BTREE_HDR; lia).
  intros left_addr r right_addr HL. destruct (insertion_goes_left plan) eqn:Hg.
  - destruct (build_right_keeps cfg h l sp plan key m Hr Hps' Hi Hs) with (r := r) (left_addr := left_addr)
      as (r' & lr & Hb & Hr1 & Hl1 & Hp1 & Hn1 & _ & _ & Hh1); [by rewrite Hg|done|done|done|].
    destruct (cleanup_left_inserts cfg h l sp plan key m Hr Hps' Hf Hk Hm Hi Hs) with (right_addr := right_addr)
      as (sp2 & h1 & h2 & l2 & g & Hcl & Htp & Hr2 & Hl2 & Hn2 & Hp2 & Hh2 & _ & Hsp2); [by rewrite Hg|done|done|].
    exists sp, None, r', lr, sp2, h1, h2, l2, g. cbn in Hp1, Hn1, Hh1. split_and!; try done.
    destruct Hsp2 as [-> | ->]; [done|apply is_new_detached].
  - destruct (build_right_inserts cfg h l sp plan key m Hr Hps' Hf Hk Hm Hi Hs) with (r := r) (left_addr := left_addr)
      as (r' & lr & Hb & Hr1 & Hl1 & Hp1 & Hn1 & Hh1); [by rewrite Hg|done|done|done|].
    destruct (cleanup_left_stays cfg h l sp plan key m Hr Hi Hs) with (right_addr := right_addr)
      (sp' := detached (shifted sp plan)) as (h1 & l1 & Hcl & Hr2 & Hl2 & Hn2 & Hp2 & Hh2); [by rewrite Hg|done|].
    eexists (detached (shifted sp plan)), _, r', lr, (detached (shifted sp plan)), h1, h1, l1, _.
    split_and!; try done. exact (is_new_detached (shifted sp plan)).
Qed.
End leaf.
End split_nodes.

(** ** The runs over the tree's state *)
(** Two pages held, and nothing else. *)
Definition held2 (p : Z) (x : hold) (c : Z) (y : hold) : Z → hold := hset p x (hset c y nothing_held).
Ltac hold_unfold := unfold held2 in *.

Section runs.
Context {S : Type} `{ns : node_source S} (cfg : btree_config) `{!node_source_laws S (btree_page_size cfg)}.
Context `{!key_order (bt_data_cfg cfg)}.
Local Abbreviation ps := (btree_page_size cfg).
Local Abbreviation cmp := (btree_key_compare cfg).
Context (Hps : 4096 ≤ ps).
Implicit Types (w : tree_state S) (nd : gmap Z btree_hdr) (s : S) (cs : list bool).

(** The pages the allocator has given out since. *)
Record grown (s s' : S) (cs cs' : list bool) (n : nat) : Prop := {
  grown_inv : ns_inv s';
  grown_used : ns_used s ⊆ ns_used s';
  grown_room : (ns_room s ≤ ns_room s' + n)%nat;
  grown_claims : (failures cs' ≤ failures cs)%nat;
}.

(** What a split that goes through leaves: [kp] separates the leaves, [r] is the new one. *)
Record leaf_was_split nd s s' (p i c : Z) (hp hc : btree_hdr) (lp : list (Z * pivot)) T
    (nd' : gmap Z btree_hdr) (r : Z) (kp : list Z) (n : Z) : Prop := {
  split_cut : 0 < n < lengthZ T;
  split_pivot : ∃ e, lookupZ T n = Some e ∧ cmp (USER_KEY kp) (USER_KEY e.1) = 0;
  split_short : short cfg (USER_KEY kp);
  split_fresh : (r ∉ ns_used s) ∧ r ∈ ns_used s' ∧ 0 < r < 2 ^ 64 ∧ Z.land r (Z.lnot 4095) = r;
  split_parent : ∃ hp' lp', nd' !! p = Some hp' ∧ node_repr ps hp' lp' ∧ height hp' = height hp ∧
    lp'.*2 = insert_at (i + 1) (mk_pivot (USER_KEY kp) r BTREE_PIVOT_STATS_UNKNOWN) lp.*2;
  split_left : ∃ hl ll, nd' !! c = Some hl ∧ node_repr ps hl ll ∧ ll.*2 = take (Z.to_nat n) T ∧
    height hl = height hc ∧ prev_addr hl = prev_addr hc ∧ next_addr hl = r;
  split_right : ∃ hr lr, nd' !! r = Some hr ∧ node_repr ps hr lr ∧ lr.*2 = drop (Z.to_nat n) T ∧
    height hr = height hc ∧ prev_addr hr = c ∧ next_addr hr = next_addr hc;
  split_next : next_addr hc ≠ 0 → nd' !! next_addr hc = set_prev_addr r <$> nd !! next_addr hc;
  split_rest b : b ≠ p → b ≠ c → b ≠ r → (next_addr hc ≠ 0 → next_addr hc ≠ b) → nd' !! b = nd !! b;
}.

(** The split is given up: the new page stays allocated, and nothing is held. *)
Lemma split_abandoned w nd1 s1 cs1 p c r H : p ≠ c → st w nd1 H s1 cs1 → r ≠ p → r ≠ c →
  H r = WRITE → H p = WRITE → H c = CLAIM → (∀ b, b ≠ r → b ≠ p → b ≠ c → H b = NO_HOLD) →
  ∃ w', (btree_node_full_unlock r;; btree_node_full_unlock p;; btree_node_unclaim c;; btree_node_unget c;;
         mret (@None (leaf_incorporate_spec * option Z))) w = Ret (None, w') ∧ st w' nd1 nothing_held s1 cs1.
Proof.
  intros Hne Hst Hrp' Hrc' Hr Hpw Hcc Hrest.
  step (full_unlock_run _ _ _ _ _ r Hst) as w1 Hst1. step (full_unlock_run _ _ _ _ _ p Hst1) as w2 Hst2.
  step (unclaim_run _ _ _ _ _ c Hst2) as w3 Hst3. step (unget_run _ _ _ _ _ c Hst3) as w4 Hst4.
  exists w4. split; [done|]. eapply st_ext; [exact Hst4|]. hold_ext. by apply Hrest.
Qed.

(** The next leaf, if there is one, is linked to [r] and released. *)
Definition link_next (nx r : Z) (nd1 : gmap Z btree_hdr) : gmap Z btree_hdr :=
  if decide (nx = 0) then nd1 else alter (set_prev_addr r) nx nd1.
Lemma link_next_run w nd1 H s1 cs1 nx r : st w nd1 H s1 cs1 →
  (nx ≠ 0 → is_Some (nd1 !! nx) ∧ H nx = WRITE) →
  ∃ w', (if nx =? 0 then mret tt else on_node nx (mmod (set_prev_addr r));; btree_node_full_unlock nx) w
      = Ret (tt, w') ∧ st w' (link_next nx r nd1) (if decide (nx = 0) then H else hset nx NO_HOLD H) s1 cs1.
Proof.
  intros Hst Hn. unfold link_next. destruct (Z.eqb_spec nx 0) as [->|Hne0].
  - by exists w.
  - destruct (decide (nx = 0)) as [|_]; [done|]. destruct (Hn Hne0) as [[h Hh] Hw].
    destruct (on_node_run _ _ _ _ _ nx (mmod (set_prev_addr r)) h tt (set_prev_addr r h) Hst Hw Hh eq_refl) as (w1 & Hrun & Hst1).
    destruct (full_unlock_run _ _ _ _ _ nx Hst1 Hw) as (w2 & Hrun2 & Hst2).
    exists w2. rewrite (bind_run _ _ _ _ _ Hrun). split; [done|].
    replace (alter (set_prev_addr r) nx nd1) with (<[nx := set_prev_addr r h]> nd1); [done|].
    apply map_eq. intros b. destruct (decide (b = nx)) as [->|].
    + by rewrite lookup_insert_eq, lookup_alter_eq, Hh.
    + by rewrite lookup_insert_ne, lookup_alter_ne.
Qed.
Lemma link_next_ne nx r nd1 b : (nx ≠ 0 → nx ≠ b) → link_next nx r nd1 !! b = nd1 !! b.
Proof. intros Hb. unfold link_next. destruct (decide (nx = 0)); [done|]. by rewrite lookup_alter_ne by auto. Qed.
Lemma link_next_eq nx r nd1 : nx ≠ 0 → link_next nx r nd1 !! nx = set_prev_addr r <$> nd1 !! nx.
Proof. intros ?. unfold link_next. destruct (decide (nx = 0)); [done|]. by rewrite lookup_alter_eq. Qed.

Section split_child.
Context (nd : gmap Z btree_hdr) (s : S) (p i c : Z) (hp hc : btree_hdr) (lp : list (Z * pivot)) (lc : list (Z * tuple)).
Context (sp : leaf_incorporate_spec) (key : list Z) (m : message).
Local Abbreviation T := (performed sp lc.*2 (key, m)).
Context (Hp : nd !! p = Some hp) (Hrp : node_repr ps hp lp) (Hi : 0 ≤ i < lengthZ lp) (Hfull : not_full cfg hp lp).
Context (Hc : nd !! c = Some hc) (Hrc : node_repr ps hc lc) (Hhc : height hc = 0).
Context (Hne : p ≠ c) (Hpu : p ∈ ns_used s) (Hcu : c ∈ ns_used s).
Context (Hnx : next_addr hc ≠ 0 →
  is_Some (nd !! next_addr hc) ∧ next_addr hc ≠ p ∧ next_addr hc ≠ c ∧ next_addr hc ∈ ns_used s).
Context (Hsp : spec_for cfg lc.*2 key m sp) (Hsort : sorted_tuples cfg lc.*2).
Context (Hsz : Forall (sized cfg) lc.*2) (Hx : sized cfg (key, m)) (Hclass : message_class m ≠ MESSAGE_TYPE_PIVOT_DATA).
Context (HT : 2 ≤ lengthZ T).

Lemma pivot_fits kp r : short cfg (USER_KEY kp) → 0 < r < 2 ^ 64 →
  let v := mk_pivot (USER_KEY kp) r BTREE_PIVOT_STATS_UNKNOWN in pivot_ok v ∧ inline_pivot cfg v.
Proof using Hps Hrp.
  intros Hk Hr0. pose proof (repr_width _ _ _ _ Hrp). unfold short in Hk. cbn in Hk.
  pose proof (lengthZ_nonneg kp). split.
  - split; [|split]; cbn; [unfold ONDISK_KEY_POSITIVE_INFINITY; lia|lia|].
    unfold stats_fit, BTREE_PIVOT_STATS_UNKNOWN, BTREE_UNKNOWN_COUNTER. cbn. lia.
  - unfold inline_pivot, MAX_INLINE_KEY_SIZE. cbn. apply Z.div_le_lower_bound; lia.
Qed.
(** The new pivot goes in the parent. *)
Lemma parent_insert_run kp r : short cfg (USER_KEY kp) → 0 < r < 2 ^ 64 →
  ∃ hp' lp', btree_insert_index_entry (i + 1) (USER_KEY kp) r BTREE_PIVOT_STATS_UNKNOWN hp = Ret (true, hp') ∧
    node_repr ps hp' lp' ∧ height hp' = height hp ∧
    lp'.*2 = insert_at (i + 1) (mk_pivot (USER_KEY kp) r BTREE_PIVOT_STATS_UNKNOWN) lp.*2.
Proof using Hps Hrp Hi Hfull.
  intros Hk Hr0. destruct (pivot_fits kp r Hk Hr0) as [Hok Hin].
  destruct (insert_index_run ps hp lp (i + 1) (mk_pivot (USER_KEY kp) r BTREE_PIVOT_STATS_UNKNOWN) Hrp)
    as (hp' & lp' & Hrun & (_ & _ & _ & _ & Hh) & _ & Hr' & Hl'); [lia|done|by eapply not_full_room|].
  by exists hp', lp'.
Qed.

Context (Hinv : ns_inv s) (Hroom : ns_room s ≠ 0%nat).
Lemma split_child_run w cs : st w nd (held2 p CLAIM c CLAIM) s cs →
  ∃ res w' nd' s' cs', btree_split_child_leaf cfg p i c sp w = Ret (res, w') ∧ st w' nd' nothing_held s' cs' ∧
    grown s s' cs cs' 1 ∧
    match res with
    | None => (failures cs' < failures cs)%nat ∧ ∀ b, b ∈ ns_used s → nd' !! b = nd !! b
    | Some (sp', g) => is_new sp' = is_new sp ∧ is_Some g ∧
        ∃ r kp n, leaf_was_split nd s s' p i c hp hc lp T nd' r kp n
    end.
Proof using All.
  intros Hst. hold_unfold.
  destruct (split_leaf_nodes cfg Hps hc lc sp key m Hrc Hsp Hsort Hsz Hx Hclass HT)
    as (plan & kp & Hplan & Hcut & Hkp & Hshort & Hkpe & Hparts).
  unfold btree_split_child_leaf.
  look (peek_run _ _ _ _ _ c _ _ _ _ Hst ltac:(hold_solve) Hc Hplan).
  look (peek_hdr _ _ _ _ _ c _ Hst ltac:(hold_solve) Hc).
  unfold btree_height. rewrite Hhc.
  destruct (alloc_run w nd _ s cs 0 Hst Hinv ltac:(unfold BTREE_MAX_HEIGHT; lia) Hroom)
    as (r & w1 & s1 & Hrun & Hst1 & Hinv1 & Hfresh & Hused & Hroom1 & Hr0 & Hal).
  rewrite (bind_run _ _ _ _ _ Hrun). clear Hrun.
  assert (Hrp' : r ≠ p) by (intros ->; done). assert (Hrc' : r ≠ c) by (intros ->; done).
  assert (Hrn : next_addr hc ≠ 0 → next_addr hc ≠ r) by (intros E Er; apply Hnx in E as (_ & _ & _ & Hu); by rewrite Er in Hu).
  step (lock_run _ _ _ _ _ p Hst1) as w2 Hst2.
  set (nx := next_addr hc) in *.
  assert (Hd : nx ≠ 0 → nx ≠ r ∧ nx ≠ p ∧ nx ≠ c).
  { intros E. specialize (Hrn E). by destruct (Hnx E) as (_ & ? & ? & _). }
  destruct (lock_next_run _ _ _ _ _ nx Hst2) as (ok & w3 & cs3 & Hrun & Hst3 & Hlen & Hless).
  { intros E. specialize (Hrn E). destruct (Hnx E) as (? & ? & ? & ?).
    split; [by rewrite lookup_insert_ne|]. hold_solve. }
  rewrite (bind_run _ _ _ _ _ Hrun). clear Hrun. destruct ok; cbn [negb].
  2: { destruct (split_abandoned w3 _ s1 cs3 p c r _ Hne Hst3 Hrp' Hrc') as (w4 & Hrun & Hst4); [hold_solve..|].
    rewrite Hrun. eexists None, w4, _, s1, cs3. split; [done|]. split; [exact Hst4|].
    split; [split; [done|rewrite Hused; set_solver|lia|done]|]. split; [auto|].
    intros b Hb. apply lookup_insert_ne. by intros ->. }
  step (lock_run _ _ _ _ _ c Hst3) as w4 Hst4.
  assert (Hc4 : <[r := ns_garbage r]> nd !! c = Some hc) by by rewrite lookup_insert_ne.
  look (peek_hdr _ _ _ _ _ c _ Hst4 ltac:(hold_solve) Hc4). rewrite (run_opt _ _ _ _ Hkp).
  destruct (parent_insert_run kp r Hshort Hr0) as (hp' & lp' & Hpi & Hrp1 & Hhp1 & Hlp1).
  assert (Hp4 : <[r := ns_garbage r]> nd !! p = Some hp) by by rewrite lookup_insert_ne.
  step (on_node_run _ _ _ _ _ p _ _ _ _ Hst4 ltac:(hold_solve) Hp4 Hpi) as w5 Hst5. rewrite run_assert by done.
  step (full_unlock_run _ _ _ _ _ p Hst5) as w6 Hst6.
  destruct (link_next_run w6 _ _ s1 cs3 nx r Hst6) as (w7 & Hrun & Hst7).
  { intros E. specialize (Hrn E). destruct (Hnx E) as ([? ?] & ? & ? & ?). split; [|hold_solve].
    rewrite !lookup_insert_ne by done. eauto. }
  rewrite (bind_run _ _ _ _ _ Hrun). clear Hrun.
  destruct (Hparts c (ns_garbage r) r (ns_garbage_length r))
    as (sp1 & g & hr & lr & sp2 & h1 & h2 & ll & gen & Hbuild & Hrr & Hlr & Hpr & Hnr & Hhr & Hclean & Hnew & Hrl & Hll & Hnl & Hpl & Hhl & Hgen).
  set (nd5 := <[p := hp']> (<[r := ns_garbage r]> nd)) in *.
  assert (Hr7 : link_next nx r nd5 !! r = Some (ns_garbage r)).
  { rewrite link_next_ne by done. unfold nd5. by rewrite lookup_insert_ne, lookup_insert_eq. }
  step (on_node_run _ _ _ _ _ r _ _ _ _ Hst7 ltac:(hold_solve) Hr7 Hbuild) as w8 Hst8. cbv beta iota.
  step (full_unlock_run _ _ _ _ _ r Hst8) as w9 Hst9.
  set (nd8 := <[r := hr]> (link_next nx r nd5)) in *.
  assert (Hc8 : nd8 !! c = Some hc).
  { unfold nd8. rewrite lookup_insert_ne by done. rewrite link_next_ne by (intros E; by apply Hd).
    unfold nd5. by rewrite !lookup_insert_ne. }
  step (on_node_run _ _ _ _ _ c _ _ _ _ Hst9 ltac:(hold_solve) Hc8 Hclean) as w10 Hst10.
  assert (Hrec : ∀ nd9, nd9 !! c = Some h2 → (∀ b, b ≠ c → nd9 !! b = nd8 !! b) →
    leaf_was_split nd s s1 p i c hp hc lp T nd9 r kp (cut sp plan)).
  { intros nd9 H9c H9. split; try done.
    - rewrite Hused. split_and!; try done; try lia. set_solver.
    - exists hp', lp'. rewrite H9 by done. unfold nd8. rewrite lookup_insert_ne by done.
      rewrite link_next_ne by (intros E; by apply Hd). unfold nd5. by rewrite lookup_insert_eq.
    - by exists h2, ll.
    - exists hr, lr. rewrite H9 by done. unfold nd8. by rewrite lookup_insert_eq.
    - intros E. destruct (Hd E) as (? & ? & ?). rewrite H9 by done. unfold nd8. rewrite lookup_insert_ne by done.
      fold nx. rewrite link_next_eq by done. unfold nd5. by rewrite !lookup_insert_ne.
    - intros b H1 H2 H3 H4. rewrite H9 by done. unfold nd8. rewrite lookup_insert_ne by done.
      rewrite link_next_ne by done. unfold nd5. by rewrite !lookup_insert_ne. }
  assert (Hgrown : grown s s1 cs cs3 1) by (split; [done|rewrite Hused; set_solver|lia|done]).
  destruct (insertion_goes_left plan).
  - assert (Hc10 : <[c := h1]> nd8 !! c = Some h1) by by rewrite lookup_insert_eq.
    destruct (on_node_run _ _ _ _ _ c _ _ _ _ Hst10 ltac:(hold_solve) Hc10 Hgen) as (w11 & Hrun & Hst11).
    rewrite (bind_run _ _ w10 (Some gen) w11); [|by rewrite (bind_run _ _ _ _ _ Hrun)]. clear Hrun.
    step (full_unlock_run _ _ _ _ _ c Hst11) as w12 Hst12.
    exists (Some (sp2, Some gen)), w12, (<[c := h2]> (<[c := h1]> nd8)), s1, cs3. split; [done|].
    split; [eapply st_ext; [exact Hst12|hold_ext]|]. split; [done|]. split; [done|]. split; [eauto|].
    exists r, kp, (cut sp plan). apply Hrec; [by rewrite lookup_insert_eq|].
    intros b ?. by rewrite !lookup_insert_ne.
  - destruct Hgen as [-> ->]. rewrite run_ret. step (full_unlock_run _ _ _ _ _ c Hst10) as w12 Hst12.
    exists (Some (sp2, Some gen)), w12, (<[c := h2]> nd8), s1, cs3. split; [done|].
    split; [eapply st_ext; [exact Hst12|hold_ext]|]. split; [done|]. split; [done|]. split; [eauto|].
    exists r, kp, (cut sp plan). apply Hrec; [by rewrite lookup_insert_eq|].
    intros b ?. by rewrite !lookup_insert_ne.
Qed.
End split_child.

(** ** A leaf with the new tuple *)
Record leaf_was_set nd (c : Z) (hc : btree_hdr) (T : list tuple) (nd' : gmap Z btree_hdr) : Prop := {
  set_leaf : ∃ h' l', nd' !! c = Some h' ∧ node_repr ps h' l' ∧ l'.*2 = T ∧
    height h' = height hc ∧ prev_addr h' = prev_addr hc ∧ next_addr h' = next_addr hc;
  set_rest b : b ≠ c → nd' !! b = nd !! b;
}.

Lemma tuples_count (es : list tuple) : 6 * lengthZ es ≤ total_size es.
Proof.
  induction es as [|e es IH]; [done|]. rewrite lengthZ_cons. cbn [total_size].
  change (esize e) with (tuple_size e.1 e.2). unfold tuple_size, message_length.
  pose proof (lengthZ_nonneg e.1). pose proof (lengthZ_nonneg (message_data e.2)). lia.
Qed.

Lemma nil_length_inv' {A} (l : list A) : lengthZ l = 0 → l = [].
Proof. unfold lengthZ. destruct l; [done|]. cbn. lia. Qed.

Lemma grown_same s cs cs' n : ns_inv s → (failures cs' ≤ failures cs)%nat → grown s s cs cs' n.
Proof. intros Hinv Hl. split; [done|done|lia|done]. Qed.

Section insert_leaf.
Context (nd : gmap Z btree_hdr) (s : S) (p i c : Z) (hp hc : btree_hdr) (lp : list (Z * pivot)) (lc : list (Z * tuple)).
Context (key : list Z) (msg : message).
Local Abbreviation es := (lc.*2).
Local Abbreviation m := (incorporated cfg es (USER_KEY key) msg).
Context (Hp : nd !! p = Some hp) (Hrp : node_repr ps hp lp) (Hi : 0 ≤ i < lengthZ lp) (Hfull : not_full cfg hp lp).
Context (Hc : nd !! c = Some hc) (Hrc : node_repr ps hc lc) (Hhc : height hc = 0).
Context (Hne : p ≠ c) (Hpu : p ∈ ns_used s) (Hcu : c ∈ ns_used s).
Context (Hnx : next_addr hc ≠ 0 →
  is_Some (nd !! next_addr hc) ∧ next_addr hc ≠ p ∧ next_addr hc ≠ c ∧ next_addr hc ∈ ns_used s).
Context (Hsort : sorted_tuples cfg es).
Context (Hsz : Forall (sized cfg) es) (Hx : sized cfg (key, m)) (Hclass : message_class m ≠ MESSAGE_TYPE_PIVOT_DATA).

(** What an attempt that ends at the leaf leaves. *)
Definition leaf_inserted s' nd' (unique : bool) (g : option Z) : Prop :=
  unique = bool_decide (tuple_lookup cfg es (USER_KEY key) = None) ∧ is_Some g ∧
  ∃ sp, spec_for cfg es key m sp ∧
    (leaf_was_set nd c hc (performed sp es (key, m)) nd' ∨
     ∃ r kp n, leaf_was_split nd s s' p i c hp hc lp (performed sp es (key, m)) nd' r kp n).

Lemma small_key : slice_small key.
Proof using Hx Hrc. destruct Hx as [Hk _]. unfold short in Hk. cbn in Hk. pose proof (repr_width _ _ _ _ Hrc). unfold slice_small. lia. Qed.
Lemma spec_is_new sp : spec_for cfg es key m sp → is_new sp = bool_decide (tuple_lookup cfg es (USER_KEY key) = None).
Proof using Hrc Hsort Hx key_order0.
  intros Hsp. pose proof (spec_finds cfg _ _ _ _ Hsp) as Hf. pose proof (spec_state cfg _ _ _ _ Hsp) as Hst.
  pose proof (repr_tuples_small _ _ _ Hrc) as Hsm.
  rewrite (finds_lookup cfg es (USER_KEY key) _ _ Hsort Hsm small_key Hf).
  unfold is_new. destruct (spec_idx cfg _ _ _ _ Hsp) as [[Hlo Hhi] Hs].
  destruct (still_exists sp) eqn:E; unfold still_exists in E.
  - apply bool_decide_eq_true in E. rewrite E.
    destruct (proj2 (lookupZ_is_Some es (idx sp)) (conj Hlo (Hs eq_refl))) as [e He]. by rewrite He.
  - apply bool_decide_eq_false in E. destruct Hst as [?|Hst]; [done|]. by rewrite Hst.
Qed.

(** The leaf's place in [sp], over its slots. *)
Lemma spec_range sp : spec_for cfg es key m sp → 0 ≤ idx sp ≤ lengthZ lc ∧ (still_exists sp = true → idx sp < lengthZ lc).
Proof using. intros Hsp. pose proof (spec_idx cfg _ _ _ _ Hsp) as H. by rewrite lengthZ_fmap in H. Qed.

Lemma space_run sp : spec_for cfg es key m sp →
  ∃ d, leaf_space_required hc sp = Some (total_size (without sp es) + tuple_size key m + d) ∧ 0 ≤ d ≤ 23.
Proof using Hrc.
  intros Hsp. destruct (spec_range sp Hsp) as [[Hlo Hhi] Hs]. unfold leaf_space_required.
  rewrite (leaf_live_run ps hc lc sp Hrc (λ E, conj Hlo (Hs E))).
  rewrite (spec_key cfg _ _ _ _ Hsp), (spec_msg cfg _ _ _ _ Hsp). cbn [mbind option_bind].
  exists ((if num_entries hc + old_entry_state_code (old_entry_state sp) =? 1 then 0 else 1) * SIZEOF_INDEX_ENTRY).
  split; [done|]. change SIZEOF_INDEX_ENTRY with 23. destruct (_ =? 1); lia.
Qed.
(** A leaf over the threshold has two tuples at least after the insertion. *)
Lemma split_two sp d : spec_for cfg es key m sp → 0 ≤ d ≤ 23 →
  BTREE_SPLIT_THRESHOLD ps ≤ total_size (without sp es) + tuple_size key m + d → 2 ≤ lengthZ (performed sp es (key, m)).
Proof using Hne Hx Hps.
  intros Hsp Hd Hge. destruct (spec_idx cfg _ _ _ _ Hsp) as [Hi' Hs].
  rewrite (length_performed es (key, m) sp Hi' Hs).
  destruct (without_sizes sp es) as [HL _]; [intros E; split; [apply Hi'|by apply Hs]|].
  destruct (decide (lengthZ (without sp es) = 0)) as [E0|E0].
  - exfalso. apply nil_length_inv' in E0. rewrite E0 in Hge. cbn [total_size] in Hge.
    destruct Hx as [Hk Hm]. unfold short in Hk. cbn in Hk, Hm. unfold tuple_size, BTREE_SPLIT_THRESHOLD, MAX_INLINE_MESSAGE_SIZE in *.
    pose proof (Z.mul_div_le (35 * ps) 100 ltac:(lia)). pose proof (Z.div_mod ps 2 ltac:(lia)).
    pose proof (Z.mod_pos_bound ps 2 ltac:(lia)). lia.
  - pose proof (lengthZ_nonneg (without sp es)). unfold after_old. destruct (still_exists sp); lia.
Qed.

Context (Hinv : ns_inv s) (Hroom : ns_room s ≠ 0%nat).

(** The leaf has room for the tuple: it is put in. *)
Lemma leaf_incorporate_run {A} (f : option Z → A) w nd1 H cs sp h0 hr sp0 : st w nd1 H s cs → H c = WRITE →
  nd1 !! c = Some h0 → (∀ b, b ≠ c → nd1 !! b = nd !! b) →
  (∃ h2 l2, btree_try_perform_leaf_incorporate_spec sp0 h0 = Ret (Some hr, h2) ∧ node_repr ps h2 l2 ∧
     l2.*2 = performed sp es (key, m) ∧ height h2 = height hc ∧ prev_addr h2 = prev_addr hc ∧ next_addr h2 = next_addr hc) →
  (∀ b, b ≠ c → H b = NO_HOLD) →
  ∃ w' nd', (incorporated ← on_node c (btree_try_perform_leaf_incorporate_spec sp0);
       massert (bool_decide (is_Some incorporated));;
       btree_node_full_unlock c;;
       mret (f incorporated)) w = Ret (f (Some hr), w') ∧ st w' nd' nothing_held s cs ∧
    leaf_was_set nd c hc (performed sp es (key, m)) nd'.
Proof using.
  intros Hst Hw H1 Hnd (h2 & l2 & Htry & Hr2 & Hl2 & Hh2 & Hp2 & Hn2) Hrest.
  step (on_node_run _ _ _ _ _ c _ _ _ _ Hst Hw H1 Htry) as w1 Hst1.
  rewrite run_assert by done. step (full_unlock_run _ _ _ _ _ c Hst1 Hw) as w2 Hst2.
  eexists w2, _. split; [done|]. split; [eapply st_ext; [exact Hst2|]; intros b; unfold hset; case_decide; [done|by apply Hrest]|].
  split.
  - exists h2, l2. by rewrite lookup_insert_eq.
  - intros b ?. rewrite lookup_insert_ne by done. by apply Hnd.
Qed.

Definition child_done cs cs' s' nd' (res : option (leaf_incorporate_spec * option Z)) : Prop :=
  match res with
  | None => (failures cs' < failures cs)%nat ∧ ∀ b, b ∈ ns_used s → nd' !! b = nd !! b
  | Some (sp', g) => leaf_inserted s' nd' (is_new sp') g
  end.
Lemma make_room_run w cs sp : spec_for cfg es key m sp → st w nd (held2 p CLAIM c CLAIM) s cs →
  ∃ res w' nd' s' cs', btree_defragment_or_split_child_leaf cfg p i c sp w = Ret (res, w') ∧
    st w' nd' nothing_held s' cs' ∧ grown s s' cs cs' 1 ∧ child_done cs cs' s' nd' res.
Proof using All.
  intros Hsp Hst. pose proof Hst as Hst0. hold_unfold. unfold btree_defragment_or_split_child_leaf.
  look (peek_hdr _ _ _ _ _ c _ Hst ltac:(hold_solve) Hc).
  destruct (space_run sp Hsp) as (d & Hspace & Hd). rewrite (run_opt _ _ _ _ Hspace).
  destruct (spec_range sp Hsp) as [Hi' Hs']. pose proof (repr_width _ _ _ _ Hrc) as Hw.
  destruct (Z.ltb_spec (total_size (without sp es) + tuple_size key m + d) (BTREE_SPLIT_THRESHOLD ps)) as [Hlt|Hge].
  - step (unclaim_run _ _ _ _ _ p Hst) as w1 Hst1. step (unget_run _ _ _ _ _ p Hst1) as w2 Hst2.
    step (lock_run _ _ _ _ _ c Hst2) as w3 Hst3.
    destruct (defragment_perform cfg hc lc sp key m Hrc) as (h1 & h2 & Hdef & Htry & Hres); try done.
    { unfold SIZEOF_BTREE_HDR. lia. }
    { by apply (sized_fits cfg). }
    { apply (spec_key cfg _ _ _ _ Hsp). }
    { apply (spec_msg cfg _ _ _ _ Hsp). }
    { pose proof (tuples_count (without sp es)). unfold BTREE_SPLIT_THRESHOLD in Hlt.
      pose proof (Z.mul_div_le ps 2 ltac:(lia)). pose proof (tuple_size_pos key m). table_lia. }
    step (on_node_run _ _ _ _ _ c _ _ _ _ Hst3 ltac:(hold_solve) Hc Hdef) as w4 Hst4. rewrite (run_opt _ _ _ _ eq_refl).
    destruct (proj2 Hres eq_refl) as (_ & Hn2 & Hp2 & Hh2 & l2 & Hr2 & Hl2).
    destruct (leaf_incorporate_run (λ g, Some (detached sp, g)) w4 _ _ cs sp h1 (generation hc) (detached sp) Hst4)
      as (w5 & nd5 & Hrun & Hst5 & Hset);
      [hold_solve|by rewrite lookup_insert_eq|intros; by rewrite lookup_insert_ne|by exists h2, l2|hold_solve|].
    rewrite Hrun. exists (Some (detached sp, Some (generation hc))), w5, nd5, s, cs.
    split; [done|]. split; [done|]. split; [by apply grown_same|]. cbn. rewrite is_new_detached.
    split; [by apply spec_is_new|]. split; [eauto|]. exists sp. auto.
  - pose proof (split_two sp d Hsp Hd Hge) as HT.
    destruct (split_child_run nd s p i c hp hc lp lc sp key m Hp Hrp Hi Hfull Hc Hrc Hhc Hne Hpu Hcu Hnx Hsp Hsort Hsz Hx Hclass HT
      Hinv Hroom w cs Hst0) as (res & w' & nd' & s' & cs' & Hrun & Hst' & Hg & Hres).
    exists res, w', nd', s', cs'. split; [done|]. split; [done|]. split; [done|].
    destruct res as [[sp' g]|]; [|done]. destruct Hres as (Hnew & Hsome & Hsplit). cbn. rewrite Hnew.
    split; [by apply spec_is_new|]. split; [done|]. exists sp. auto.
Qed.

(** The end of an attempt: started over, or done with the status [STATUS_OK]. *)
Definition attempt_ok (cs cs' : list bool) (same : Prop) (done : bool → option Z → Prop) (r : attempt) : Prop :=
  match r with
  | StartOver => (failures cs' < failures cs)%nat ∧ same
  | Return rc unique g => rc = STATUS_OK ∧ done unique g
  end.

(** With claims on both, the leaf takes the tuple or the attempt starts over. *)
Lemma claimed_run w cs0 cs sp : spec_for cfg es key m sp → st w nd (held2 p CLAIM c CLAIM) s cs →
  (failures cs ≤ failures cs0)%nat →
  ∃ r w' nd' s' cs', (result ← btree_defragment_or_split_child_leaf cfg p i c sp;
      match result with
      | None => mret StartOver
      | Some (sp, generation) => mret (incorporated_as sp generation)
      end) w = Ret (r, w') ∧ st w' nd' nothing_held s' cs' ∧ grown s s' cs0 cs' 1 ∧
    attempt_ok cs0 cs' (∀ b, b ∈ ns_used s → nd' !! b = nd !! b) (leaf_inserted s' nd') r.
Proof using All.
  intros Hsp Hst Hl. destruct (make_room_run w cs sp Hsp Hst) as (res & w' & nd' & s' & cs' & Hrun & Hst' & [G1 G2 G3 G4] & Hres).
  rewrite (bind_run _ _ _ _ _ Hrun). destruct res as [[sp' g]|].
  - exists (incorporated_as sp' g), w', nd', s', cs'. split; [done|]. split; [done|].
    split; [split; [done|done|done|lia]|]. done.
  - exists StartOver, w', nd', s', cs'. split; [done|]. split; [done|].
    split; [split; [done|done|done|lia]|]. destruct Hres. split; [lia|done].
Qed.

Lemma insert_leaf_run w cs : merge_succeeds cfg (λ _, true) es (USER_KEY key) msg → st w nd (held2 p READ c READ) s cs →
  ∃ r w' nd' s' cs', insert_leaf cfg p i c (USER_KEY key) msg w = Ret (r, w') ∧ st w' nd' nothing_held s' cs' ∧
    grown s s' cs cs' 1 ∧ attempt_ok cs cs' (∀ b, b ∈ ns_used s → nd' !! b = nd !! b) (leaf_inserted s' nd') r.
Proof using All.
  intros Hm Hst. hold_unfold. unfold insert_leaf.
  destruct (create_spec_run cfg hc lc (λ _, true) key msg Hrc Hsort small_key Hm) as (sp & Hcreate & Hsp).
  step (create_spec_at _ _ _ _ _ _ c _ _ _ _ _ Hst ltac:(hold_solve) Hc Hcreate) as w1 Hst1. cbv beta iota. cbn [SUCCESS].
  change (SUCCESS STATUS_OK) with true. cbn [negb].
  look (peek_hdr _ _ _ _ _ c _ Hst1 ltac:(hold_solve) Hc).
  destruct (spec_range sp Hsp) as [Hi' Hs'].
  pose proof (sized_fits cfg Hps key m (repr_width _ _ _ _ Hrc) Hx Hclass) as Hfits.
  pose proof (spec_key cfg _ _ _ _ Hsp) as Hk. pose proof (spec_msg cfg _ _ _ _ Hsp) as Hmsg.
  assert (Hcan : ∃ b, btree_can_perform_leaf_incorporate_spec hc sp = Some b).
  { unfold btree_can_perform_leaf_incorporate_spec. rewrite Hk, (repr_num _ _ _ _ Hrc).
    destruct (still_exists sp) eqn:E; rewrite (leaf_can_set ps hc lc) by (done || lia); eauto. }
  destruct Hcan as [b Hcan]. rewrite (run_opt _ _ _ _ Hcan). destruct b.
  - step (unget_run _ _ _ _ _ p Hst1) as w2 Hst2.
    destruct (claim_run _ _ _ _ _ c Hst2 ltac:(hold_solve)) as (ok & w3 & cs3 & Hrun & Hst3 & Hl & Hless).
    rewrite (bind_run _ _ _ _ _ Hrun). clear Hrun. destruct ok; cbn [negb].
    + step (lock_run _ _ _ _ _ c Hst3) as w4 Hst4.
      destruct (try_perform_run cfg hc lc key m sp true Hrc Hfits Hk Hmsg Hi' Hs' Hcan) as (h2 & Htry & Hres).
      destruct (proj2 Hres eq_refl) as (_ & Hn2 & Hp2 & Hh2 & l2 & Hr2 & Hl2).
      destruct (leaf_incorporate_run (incorporated_as sp) w4 nd _ cs3 sp hc (generation hc) sp Hst4)
        as (w5 & nd5 & Hrun & Hst5 & Hset); [hold_solve|done|done|by exists h2, l2|hold_solve|].
      rewrite Hrun. eexists _, w5, nd5, s, cs3. split; [done|]. split; [done|]. split; [by apply grown_same|].
      split; [done|]. split; [by apply spec_is_new|]. split; [eauto|]. exists sp. auto.
    + step (unget_run _ _ _ _ _ c Hst3) as w4 Hst4. exists StartOver, w4, nd, s, cs3. split; [done|].
      split; [eapply st_ext; [exact Hst4|hold_ext]|]. split; [by apply grown_same|]. split; [auto|done].
  - destruct (claim_run _ _ _ _ _ p Hst1 ltac:(hold_solve)) as (ok & w2 & cs2 & Hrun & Hst2 & Hl & Hless).
    rewrite (bind_run _ _ _ _ _ Hrun). clear Hrun. destruct ok; cbn [negb].
    + rewrite run_get.
      destruct (claim_leaf_run (Datatypes.S (length (w_claims w2))) w2 nd _ s cs2 c hc false Hst2 Hc) as (b & w3 & cs3 & Hrun & Hst3 & Hl3);
        [hold_solve|rewrite (st_claims _ _ _ _ _ Hst2); pose proof (failures_length cs2); lia|].
      rewrite (bind_run _ _ _ _ _ Hrun). clear Hrun.
      assert (Hspec : ∃ w4, (if b : bool then create_spec cfg c (USER_KEY key) msg else mret (STATUS_OK, sp)) w3
          = Ret ((STATUS_OK, sp), w4) ∧ st w4 nd (held2 p CLAIM c CLAIM) s cs3).
      { assert (Hst3' : st w3 nd (held2 p CLAIM c CLAIM) s cs3) by (eapply st_ext; [exact Hst3|hold_unfold; hold_ext]).
        destruct b; [|by exists w3]. by eapply (create_spec_at _ _ _ _ _ _ c); [exact Hst3'|hold_unfold; hold_solve|..]. }
      destruct Hspec as (w4 & Hrun & Hst4). rewrite (bind_run _ _ _ _ _ Hrun). cbv beta iota.
      change (SUCCESS STATUS_OK) with true. cbn [negb]. apply (claimed_run w4 cs cs3 sp Hsp Hst4). lia.
    + step (unget_run _ _ _ _ _ p Hst2) as w3 Hst3. step (unget_run _ _ _ _ _ c Hst3) as w4 Hst4.
      exists StartOver, w4, nd, s, cs2. split; [done|].
      split; [eapply st_ext; [exact Hst4|hold_ext]|]. split; [by apply grown_same|]. split; [auto|done].
Qed.
End insert_leaf.
End runs.
