(* ===== verification/BtreeInsertTree.v ===== *)
(** * Insertion in a tree, below its root

    How a change of one subtree changes the tree around it, and the descent of
    an insertion: at each level the tree keeps its tuples, at the leaf it gets
    the new one. *)
From S2P Require Import Prelude Allocator Bytes DataInternal BtreeNode NodeLayout BtreeLeaf LeafMap BtreeSplit.
From S2P Require Import BtreeIndex BtreePivot Btree BtreeTree BtreeWorld BtreeInsertLeaf.

Section insert_tree.
Context {S : Type} `{ns : node_source S} (cfg : btree_config) `{!node_source_laws S (btree_page_size cfg)}.
Context `{!key_order (bt_data_cfg cfg)}.
Local Abbreviation ps := (btree_page_size cfg).
Local Abbreviation cmp := (btree_key_compare cfg).
Context (Hps : 4096 ≤ ps).
Implicit Types (w : tree_state S) (nd : gmap Z btree_hdr) (s : S) (cs : list bool).

(** The change from [nd] to [nd'] made the tree at [a], between the leaves [pre]
    and [post], one with tuples that satisfy [R], and changed nothing else that
    was in use but links between leaves. *)
Definition subtree_result nd nd' s s' (n : nat) (a : Z) (lo hi : key) (fp : gset Z) (pre post : list Z)
    (R : list tuple → Prop) : Prop :=
  ∃ es' fp' ls', tree cfg nd' n a lo hi es' fp' ls' ∧ R es' ∧ fp' ⊆ fp ∪ (ns_used s' ∖ ns_used s) ∧
    fp' ⊆ ns_used s' ∧ chain nd' 0 (pre ++ ls' ++ post) ∧
    ∀ b, b ∈ ns_used s → b ∉ fp → unlinked <$> nd' !! b = unlinked <$> nd !! b.

Lemma subtree_result_impl nd nd' s s' n a lo hi fp pre post (R R' : list tuple → Prop) : (∀ es, R es → R' es) →
  subtree_result nd nd' s s' n a lo hi fp pre post R → subtree_result nd nd' s s' n a lo hi fp pre post R'.
Proof. intros HR (es' & fp' & ls' & H1 & H2 & H3). exists es', fp', ls'. auto. Qed.

(** A change of the tree at [a] to one that has what [R] says follows one that keeps it. *)
Lemma subtree_result_trans nd nd1 nd2 s s1 s2 n a lo hi fp fp1 pre post R :
  ns_used s ⊆ ns_used s1 → ns_used s1 ⊆ ns_used s2 → fp1 ⊆ fp ∪ (ns_used s1 ∖ ns_used s) →
  (∀ b, b ∈ ns_used s → b ∉ fp → unlinked <$> nd1 !! b = unlinked <$> nd !! b) →
  subtree_result nd1 nd2 s1 s2 n a lo hi fp1 pre post R → subtree_result nd nd2 s s2 n a lo hi fp pre post R.
Proof.
  intros H1 H2 Hfp Hb (es' & fp' & ls' & Ht & HR & Hfp' & Hu & Hc & Hf).
  exists es', fp', ls'. split; [done|]. split; [done|]. split; [|split; [done|split; [done|]]].
  - intros b Hbf. specialize (Hfp' b Hbf). destruct (decide (b ∈ ns_used s)); set_solver.
  - intros b Hbu Hbf. rewrite Hf, Hb by set_solver. done.
Qed.

(** One subtree of an index node. *)
Record around nd (n : nat) (a : Z) (lo hi : key) (A : list pivot) (v : pivot) (B : list pivot)
    (esA esc esB : list tuple) (fpA fpc fpB : gset Z) (lsA lsc lsB : list Z) : Prop := {
  ar_node : ∃ h l, nd !! a = Some h ∧ height h = Z.of_nat (Datatypes.S n) ∧ node_repr ps h l ∧
    same_pivots l.*2 (A ++ v :: B);
  ar_lo : cmp lo (bound (A ++ v :: B) hi) ≤ 0;
  ar_left : segs cfg (tree cfg nd n) (pivot_key v) A esA fpA lsA;
  ar_child : tree cfg nd n (child_addr v) (pivot_key v) (bound B hi) esc fpc lsc;
  ar_right : segs cfg (tree cfg nd n) hi B esB fpB lsB;
  ar_lt : cmp (pivot_key v) (bound B hi) < 0;
  ar_short : short cfg (pivot_key v);
  ar_disjoint : fpA ## fpc ∧ fpA ## fpB ∧ fpc ## fpB;
  ar_root : a ∉ fpA ∪ (fpc ∪ fpB);
}.
Lemma around_tree nd n a lo hi A v B esA esc esB fpA fpc fpB lsA lsc lsB :
  around nd n a lo hi A v B esA esc esB fpA fpc fpB lsA lsc lsB →
  tree cfg nd (Datatypes.S n) a lo hi (esA ++ esc ++ esB) ({[a]} ∪ (fpA ∪ (fpc ∪ fpB))) (lsA ++ lsc ++ lsB).
Proof.
  intros [(h & l & Ha & Hh & Hr & Hl) Hlo HA Hc HB Hlt Hs (H1 & H2 & H3) Hroot].
  assert (Hl' : same_pivots (A ++ v :: B) l.*2) by done.
  exists h, l, (fpA ∪ (fpc ∪ fpB)). split; [done|]. split; [done|]. split; [done|].
  assert (Hb : bound l.*2 hi = bound (A ++ v :: B) hi).
  { destruct (A ++ v :: B) as [|x xs] eqn:E; [by destruct A|].
    apply same_pivots_cons in Hl' as (w & ws & -> & Hw & _). cbn [bound]. apply clean_same in Hw as [Hw _]. by rewrite Hw. }
  split; [|split; [by rewrite Hb|split; [|done]]].
  - intros E. rewrite E in Hl'. unfold same_pivots in Hl'. rewrite fmap_app in Hl'. by destruct A.
  - eapply segs_same; [exact Hl'|]. apply segs_middle.
    exists esA, esc, esB, fpA, fpc, fpB, lsA, lsc, lsB. done.
Qed.
Lemma segs_around nd n a lo hi h l A v B es fp ls : nd !! a = Some h → height h = Z.of_nat (Datatypes.S n) →
  node_repr ps h l → same_pivots l.*2 (A ++ v :: B) → cmp lo (bound (A ++ v :: B) hi) ≤ 0 →
  segs cfg (tree cfg nd n) hi (A ++ v :: B) es fp ls → a ∉ fp →
  ∃ esA esc esB fpA fpc fpB lsA lsc lsB, around nd n a lo hi A v B esA esc esB fpA fpc fpB lsA lsc lsB ∧
    es = esA ++ esc ++ esB ∧ fp = fpA ∪ (fpc ∪ fpB) ∧ ls = lsA ++ lsc ++ lsB.
Proof.
  intros Ha Hh Hr Hl Hlo Hs Hroot.
  apply segs_middle in Hs as (esA & esc & esB & fpA & fpc & fpB & lsA & lsc & lsB & HA & Hc & HB & Hlt & Hsh & H1 & H2 & H3 & -> & -> & ->).
  exists esA, esc, esB, fpA, fpc, fpB, lsA, lsc, lsB. split; [|done]. split; try done. by exists h, l.
Qed.

(** The subtree changes, and the tree with it. *)
Lemma plug nd nd' s s' n a lo hi A v B esA esc esB fpA fpc fpB lsA lsc lsB pre post R :
  around nd n a lo hi A v B esA esc esB fpA fpc fpB lsA lsc lsB → ns_used s ⊆ ns_used s' →
  {[a]} ∪ (fpA ∪ (fpc ∪ fpB)) ⊆ ns_used s →
  subtree_result nd nd' s s' n (child_addr v) (pivot_key v) (bound B hi) fpc (pre ++ lsA) (lsB ++ post) R →
  subtree_result nd nd' s s' (Datatypes.S n) a lo hi ({[a]} ∪ (fpA ∪ (fpc ∪ fpB))) pre post
    (λ es', ∃ esc', es' = esA ++ esc' ++ esB ∧ R esc').
Proof.
  intros [(h & l & Ha & Hh & Hr & Hl) Hlo HA Hc HB Hlt Hs (H1 & H2 & H3) Hroot] Hused Hin
    (esc' & fpc' & lsc' & Ht & HR & Hfp & Hu & Hch & Hf).
  assert (Hkeep : ∀ b, b ∈ fpA ∪ fpB ∪ {[a]} → unlinked <$> nd' !! b = unlinked <$> nd !! b).
  { intros b Hb. apply Hf; [set_solver|]. set_solver. }
  pose proof (Hkeep a ltac:(set_solver)) as Ha'. rewrite Ha in Ha'. apply fmap_Some in Ha' as (h' & Ha' & He).
  assert (Har : around nd' n a lo hi A v B esA esc' esB fpA fpc' fpB lsA lsc' lsB).
  { split; try done.
    - exists h', l. split; [done|]. rewrite (unlinked_height h h') by done. split; [done|].
      split; [|done]. by eapply unlinked_repr.
    - eapply segs_impl; [|exact HA]. intros. eapply tree_frame; [done|]. intros. apply Hkeep. set_solver.
    - eapply segs_impl; [|exact HB]. intros. eapply tree_frame; [done|]. intros. apply Hkeep. set_solver.
    - clear - H1 H2 H3 Hfp Hin. set_solver.
    - clear - Hroot Hfp Hin. set_solver. }
  exists (esA ++ esc' ++ esB), ({[a]} ∪ (fpA ∪ (fpc' ∪ fpB))), (lsA ++ lsc' ++ lsB).
  split; [by eapply around_tree|]. split; [by exists esc'|].
  split; [clear - Hfp; set_solver|]. split; [clear - Hin Hu Hused; set_solver|]. split; [by rewrite <-!app_assoc in *|].
  intros b Hb Hnb. apply Hf; [done|]. clear - Hnb. set_solver.
Qed.

(** ** At the leaf *)
(** What a leaf is in a tree, and in the list of all leaves. *)
Lemma leaf_in_chain nd c lo hi es fp ls pre post : tree cfg nd 0 c lo hi es fp ls → chain nd 0 (pre ++ ls ++ post) →
  ∃ hc lc, nd !! c = Some hc ∧ height hc = 0 ∧ node_repr ps hc lc ∧ lc.*2 = es ∧ sorted_tuples cfg es ∧
    all_in_range cfg lo hi es ∧ Forall (sized cfg) es ∧ fp = {[c]} ∧ ls = [c] ∧
    next_addr hc = next_leaf post ∧ c ≠ 0 ∧ (c ∉ pre) ∧ c ∉ post.
Proof.
  intros (hc & lc & Hc & Hh & Hr & Hl & Hs & Hin & Hsz & -> & ->) Hch. cbn [app] in Hch.
  destruct (chain_at _ _ _ _ _ Hch) as (h & Hc' & _ & Hn & H0 & H1 & H2).
  rewrite Hc in Hc'. injection Hc' as <-. exists hc, lc. done.
Qed.
Lemma next_leaf_eq ls b ls' : ls = b :: ls' → next_leaf ls = b.
Proof. by intros ->. Qed.

Lemma leaf_set_result nd nd' s c hc lo hi es fp ls pre post T :
  tree cfg nd 0 c lo hi es fp ls → chain nd 0 (pre ++ ls ++ post) → nd !! c = Some hc → fp ⊆ ns_used s →
  leaf_was_set cfg nd c hc T nd' → sorted_tuples cfg T → all_in_range cfg lo hi T → Forall (sized cfg) T →
  subtree_result nd nd' s s 0 c lo hi fp pre post (λ es', es' = T).
Proof.
  intros Ht Hch Hc Hu [(h' & l' & Hc' & Hr' & Hl' & Hh' & Hp' & Hn') Hrest] Hs Hin Hsz.
  destruct (leaf_in_chain _ _ _ _ _ _ _ _ _ Ht Hch) as (hc' & lc & Hc2 & Hh & Hr & Hl & _ & _ & _ & -> & -> & Hnx & _).
  rewrite Hc in Hc2. injection Hc2 as <-. exists T, {[c]}, [c].
  split; [by exists h', l'; split_and!; try done; congruence|]. split; [done|]. split; [set_solver|]. split; [done|].
  split.
  - eapply chain_frame; [exact Hch|]. intros b Hb. destruct (decide (b = c)) as [->|]; [|by rewrite Hrest].
    rewrite Hc, Hc'. cbn. unfold links. by rewrite Hh', Hp', Hn'.
  - intros b Hb Hnb. rewrite Hrest; [done|]. set_solver.
Qed.

(** The two leaves of a split, in the order of their parent's pivots. *)
Lemma cut_ranges lo hi T n kp e : ps < 2 ^ 16 → sorted_tuples cfg T → all_in_range cfg lo hi T → Forall (sized cfg) T →
  0 < n → lookupZ T n = Some e → cmp (USER_KEY kp) (USER_KEY e.1) = 0 → short cfg (USER_KEY kp) → key_small lo → key_small hi →
  all_in_range cfg lo (USER_KEY kp) (take (Z.to_nat n) T) ∧ all_in_range cfg (USER_KEY kp) hi (drop (Z.to_nat n) T) ∧
  cmp lo (USER_KEY kp) < 0 ∧ cmp (USER_KEY kp) hi < 0.
Proof.
  intros Hw Hs Hin Hsz Hn He Hkp Hsh Hlo Hhi. pose proof (short_small cfg _ Hw Hsh) as Hk.
  pose proof (sized_small cfg T Hw Hsz) as Hsm. rewrite Forall_lookupZ in Hsm.
  unfold all_in_range in *. rewrite Forall_lookupZ in Hin. rewrite !Forall_lookupZ.
  pose proof (Hsm _ _ He) as Hes. destruct (Hin _ _ He) as [He1 He2].
  pose proof (cmp_flip cfg _ _ Hk Hes) as Hflip.
  assert (Hbelow : ∀ j x, j < n → lookupZ T j = Some x → cmp (USER_KEY x.1) (USER_KEY kp) < 0).
  { intros j x Hj Hx. eapply (cmp_lt_le cfg _ (USER_KEY e.1)); [by eapply Hsm|done|done| |lia].
    apply (Hs j n); [done|by rewrite lookupZ_tuple_keys, Hx|by rewrite lookupZ_tuple_keys, He]. }
  assert (Habove : ∀ j x, n ≤ j → lookupZ T j = Some x → cmp (USER_KEY kp) (USER_KEY x.1) ≤ 0).
  { intros j x Hj Hx. destruct (decide (j = n)) as [->|].
    - rewrite He in Hx. injection Hx as <-. lia.
    - eapply (cmp_le_trans cfg _ (USER_KEY e.1)); [done|done|by eapply Hsm|lia|].
      assert (cmp (USER_KEY e.1) (USER_KEY x.1) < 0); [|lia].
      apply (Hs n j); [lia|by rewrite lookupZ_tuple_keys, He|by rewrite lookupZ_tuple_keys, Hx]. }
  pose proof (lookupZ_Some _ _ _ He) as Hnb.
  destruct (proj2 (lookupZ_is_Some T 0) ltac:(lia)) as [e0 He0].
  split; [|split; [|split]].
  - intros j x Hx. rewrite lookupZ_take in Hx. case_bool_decide; [|done]. split; [by eapply Hin|].
    eapply Hbelow; [|done]. lia.
  - intros j x Hx. pose proof (lookupZ_Some _ _ _ Hx). rewrite lookupZ_drop in Hx by lia.
    split; [|by eapply Hin]. eapply Habove; [|done]. lia.
  - destruct (Hin _ _ He0) as [H0 _]. eapply (cmp_le_lt cfg _ (USER_KEY e0.1)); [done|by eapply Hsm|done|done|].
    by apply (Hbelow 0).
  - eapply (cmp_le_lt cfg _ (USER_KEY e.1)); [done|done|done|lia|done].
Qed.

Lemma sorted_take n T : sorted_tuples cfg T → sorted_tuples cfg (take n T).
Proof.
  intros Hs i j k k' Hij. rewrite !lookupZ_tuple_keys, !lookupZ_take.
  repeat case_bool_decide; try done. intros Hi Hj. apply (Hs i j); by rewrite ?lookupZ_tuple_keys.
Qed.
Lemma sorted_drop n T : sorted_tuples cfg T → sorted_tuples cfg (drop n T).
Proof.
  intros Hs i j k k' Hij. rewrite !lookupZ_tuple_keys. intros Hi Hj.
  pose proof Hi as Hi'. apply fmap_Some in Hi' as (x & Hx%lookupZ_Some & _).
  rewrite lookupZ_drop in Hi, Hj by lia. apply (Hs (Z.of_nat n + i) (Z.of_nat n + j)); [lia|by rewrite lookupZ_tuple_keys..].
Qed.

Section leaf_split_result.
Context (nd nd' : gmap Z btree_hdr) (s s' : S) (p c r : Z) (hp hc : btree_hdr) (lp : list (Z * pivot)) (kp : list Z) (n : Z).
Context (lo hi : key) (A : list pivot) (v : pivot) (B : list pivot) (T : list tuple).
Context (esA esc esB : list tuple) (fpA fpc fpB : gset Z) (lsA lsc lsB pre post : list Z).
Context (Har : around nd 0 p lo hi A v B esA esc esB fpA fpc fpB lsA lsc lsB) (Hcv : child_addr v = c).
Context (Hlp : same_pivots lp.*2 (A ++ v :: B)) (Hp : nd !! p = Some hp) (Hc : nd !! c = Some hc) (Hhp : height hp = 1).
Context (Hch : chain nd 0 ((pre ++ lsA) ++ lsc ++ (lsB ++ post))) (Hcu : ∀ b, b ∈ (pre ++ lsA) ++ lsc ++ (lsB ++ post) → b ∈ ns_used s).
Context (Hused : {[p]} ∪ (fpA ∪ (fpc ∪ fpB)) ⊆ ns_used s) (Hgrow : ns_used s ⊆ ns_used s').
Context (Hsplit : leaf_was_split cfg nd s s' p (lengthZ A) c hp hc lp T nd' r kp n).

Lemma split_facts : height hc = 0 ∧ fpc = {[c]} ∧ lsc = [c] ∧ next_addr hc = next_leaf (lsB ++ post) ∧ c ≠ 0 ∧ p ≠ c ∧ r ≠ p ∧ r ≠ c ∧
  (r ∉ ns_used s) ∧ (∀ b, b ∈ (pre ++ lsA) ++ lsB ++ post → b ≠ c ∧ b ≠ p ∧ b ≠ r ∧ b ≠ 0).
Proof using All.
  destruct (split_fresh _ _ _ _ _ _ _ _ _ _ _ _ _ _ _ Hsplit) as (Hr & _).
  pose proof (ar_child _ _ _ _ _ _ _ _ _ _ _ _ _ _ _ _ _ Har) as Ht. rewrite Hcv in Ht.
  destruct (leaf_in_chain _ _ _ _ _ _ _ _ _ Ht Hch) as (hc' & lc & Hc2 & Hh & _ & _ & _ & _ & _ & -> & -> & Hnx & H0 & Hpre & Hpost).
  rewrite Hc in Hc2. injection Hc2 as <-.
  assert (Hpc : p ≠ c) by (intros ->; congruence).
  split_and!; try done; [set_solver|set_solver|].
  intros b Hb. assert (Hb' : b ∈ (pre ++ lsA) ++ [c] ++ lsB ++ post) by set_solver.
  destruct (chain_leaf _ _ _ _ Hch Hb') as (h & Hbh & Hb0 & Hbz). specialize (Hcu b Hb').
  split_and!; [set_solver|intros ->; congruence|intros ->; done|done].
Qed.

Lemma split_rest_same b : b ∈ (pre ++ lsA) ++ lsB ++ post → (next_addr hc ≠ 0 → next_addr hc ≠ b) → nd' !! b = nd !! b.
Proof using All.
  intros Hb Hn. destruct split_facts as (_ & _ & _ & _ & _ & _ & _ & _ & _ & Hd). destruct (Hd b Hb) as (? & ? & ? & _).
  by apply (split_rest _ _ _ _ _ _ _ _ _ _ _ _ _ _ _ Hsplit).
Qed.
Lemma split_unlinked b : b ∈ ns_used s → b ≠ p → b ≠ c → unlinked <$> nd' !! b = unlinked <$> nd !! b.
Proof using All.
  intros Hb Hbp Hbc. destruct split_facts as (_ & _ & _ & _ & _ & _ & _ & _ & Hr & _).
  assert (Hbr : b ≠ r) by (intros ->; done).
  destruct (decide (next_addr hc ≠ 0 ∧ next_addr hc = b)) as [[E <-]|E].
  - rewrite (split_next _ _ _ _ _ _ _ _ _ _ _ _ _ _ _ Hsplit E). by destruct (nd !! next_addr hc).
  - rewrite (split_rest _ _ _ _ _ _ _ _ _ _ _ _ _ _ _ Hsplit); [done..|]. intros E1 E2. by apply E.
Qed.

Lemma split_chain : chain nd' 0 ((pre ++ lsA) ++ (c :: r :: lsB ++ post)).
Proof using All.
  destruct split_facts as (Hhc & _ & El & Hnx & _ & _ & _ & Hrc & Hr & Hd).
  assert (Hch' : chain nd 0 ((pre ++ lsA) ++ c :: (lsB ++ post))) by (by rewrite El in Hch).
  pose proof (chain_nodup _ _ _ Hch') as Hnd. apply list.NoDup_app in Hnd as (_ & Hsep & Hnd).
  apply list.NoDup_cons in Hnd as [_ Hnd].
  destruct (split_left _ _ _ _ _ _ _ _ _ _ _ _ _ _ _ Hsplit) as (hl & ll & Hl & _ & _ & Hhl & Hpl & Hnl).
  destruct (split_right _ _ _ _ _ _ _ _ _ _ _ _ _ _ _ Hsplit) as (hr & lr & Hrr & _ & _ & Hhr & Hpr & Hnr).
  destruct (split_fresh _ _ _ _ _ _ _ _ _ _ _ _ _ _ _ Hsplit) as (_ & _ & Hr0 & _).
  eapply (chain_split nd); [exact Hch'|lia| | | | | |].
  - intros Hin. apply Hr, Hcu. rewrite El. exact Hin.
  - exists hc, hl. split_and!; try done. congruence.
  - exists hr. split_and!; try done; congruence.
  - intros b Hb. rewrite split_rest_same; [done|set_solver|]. rewrite Hnx. intros E <-.
    apply (Hsep _ Hb). unfold next_leaf in *. destruct (lsB ++ post); [done|]. set_solver.
  - intros b ls3 E. destruct (Hd b) as (_ & _ & _ & Hb0); [rewrite E; set_solver|].
    rewrite (next_leaf_eq _ b ls3 E) in Hnx.
    pose proof (split_next _ _ _ _ _ _ _ _ _ _ _ _ _ _ _ Hsplit) as Hn. rewrite Hnx in Hn. rewrite (Hn Hb0).
    destruct (chain_leaf _ _ _ b Hch') as (hb & Hb & _); [rewrite E; set_solver|]. exists hb. by rewrite Hb.
  - intros b Hb. assert (Hb' : b ∈ lsB ++ post) by (destruct (lsB ++ post); [done|]; set_solver).
    rewrite split_rest_same; [done|set_solver|]. rewrite Hnx. intros E <-. unfold next_leaf in *.
    destruct (lsB ++ post) as [|x xs]; [done|]. apply list.NoDup_cons in Hnd as [Hnd _]. by apply Hnd.
Qed.

Context (Hw : ps < 2 ^ 16) (Hlo : key_small lo) (Hhi : key_small hi).
Context (HTs : sorted_tuples cfg T) (HTr : all_in_range cfg (pivot_key v) (bound B hi) T) (HTz : Forall (sized cfg) T).

Lemma leaf_split_result : subtree_result nd nd' s s' 1 p lo hi ({[p]} ∪ (fpA ∪ (fpc ∪ fpB))) pre post
  (λ es', es' = esA ++ T ++ esB).
Proof using All.
  pose proof split_unlinked as Hun. pose proof split_chain as Hc'. destruct split_facts as (Hhc & Efp & El & Hnx & _ & Hpc & Hrp & Hrc & Hr & Hd). subst fpc lsc.
  destruct Har as [_ Hlo' HA Hchild HB Hlt Hs (D1 & D2 & D3) Hroot].
  destruct (split_fresh _ _ _ _ _ _ _ _ _ _ _ _ _ _ _ Hsplit) as (_ & Hru & Hr0 & Hal).
  destruct (split_pivot _ _ _ _ _ _ _ _ _ _ _ _ _ _ _ Hsplit) as (e & He & Heq).
  pose proof (split_short _ _ _ _ _ _ _ _ _ _ _ _ _ _ _ Hsplit) as Hsh.
  pose proof (split_cut _ _ _ _ _ _ _ _ _ _ _ _ _ _ _ Hsplit) as Hn.
  pose proof (short_small cfg _ Hw Hs) as Hvs.
  destruct (segs_bound_le cfg _ _ _ _ _ _ Hw Hhi HB) as [Hbs _].
  destruct (cut_ranges _ _ T n kp e Hw HTs HTr HTz ltac:(lia) He Heq Hsh Hvs Hbs) as (R1 & R2 & L1 & L2).
  destruct (split_left _ _ _ _ _ _ _ _ _ _ _ _ _ _ _ Hsplit) as (hl & ll & Hl & Hrl & Hll & Hhl & _).
  destruct (split_right _ _ _ _ _ _ _ _ _ _ _ _ _ _ _ Hsplit) as (hr & lr & Hrr & Hrrr & Hlr & Hhr & _).
  destruct (split_parent _ _ _ _ _ _ _ _ _ _ _ _ _ _ _ Hsplit) as (hp' & lp' & Hp' & Hrp' & Hhp' & Hlp').
  set (x := mk_pivot (USER_KEY kp) r BTREE_PIVOT_STATS_UNKNOWN) in *.
  assert (Hrf : r ∉ {[p]} ∪ (fpA ∪ ({[child_addr v]} ∪ fpB))) by (rewrite Hcv; clear - Hr Hused; set_solver).
  rewrite Hcv in *.
  assert (Hkeep : ∀ b, b ∈ fpA ∪ fpB → unlinked <$> nd' !! b = unlinked <$> nd !! b).
  { intros b Hb. clear - Hb Hun Hused D1 D3 Hroot. apply Hun; [set_solver|intros ->; set_solver|intros ->; set_solver]. }
  assert (Hcl : leaf_at cfg nd' c (pivot_key v) (USER_KEY kp) (take (Z.to_nat n) T) {[c]} [c]).
  { exists hl, ll. split; [done|]. split; [congruence|]. split; [done|]. split; [done|].
    split; [by apply sorted_take|]. split; [done|]. split; [by apply list.Forall_take|done]. }
  assert (Hrl' : leaf_at cfg nd' r (USER_KEY kp) (bound B hi) (drop (Z.to_nat n) T) {[r]} [r]).
  { exists hr, lr. split; [done|]. split; [congruence|]. split; [done|]. split; [done|].
    split; [by apply sorted_drop|]. split; [done|]. split; [by apply list.Forall_drop|done]. }
  assert (Hnew : around nd' 0 p lo hi A v (x :: B) esA (take (Z.to_nat n) T) (drop (Z.to_nat n) T ++ esB)
    fpA {[c]} ({[r]} ∪ fpB) lsA [c] ([r] ++ lsB)).
  { split.
    - exists hp', lp'. split; [done|]. split; [by rewrite Hhp', Hhp|]. split; [done|].
      rewrite Hlp'. by apply same_pivots_insert.
    - by destruct A.
    - eapply segs_impl; [|exact HA]. intros. eapply tree_frame; [done|]. intros. apply Hkeep. set_solver.
    - by rewrite Hcv.
    - constructor; [|eapply segs_impl; [|exact HB]; intros; eapply tree_frame; [done|]; intros; apply Hkeep; set_solver|set_solver|done|done].
      assert (Ex : child_addr x = r) by exact Hal. by rewrite Ex.
    - done.
    - done.
    - clear - D1 D2 D3 Hrf Hr Hused. set_solver.
    - clear - Hroot Hrp. set_solver. }
  apply around_tree in Hnew. eexists _, _, _. split; [exact Hnew|]. split; [|split; [|split; [|split]]].
  - by rewrite <-(take_drop (Z.to_nat n) T) at 3; rewrite <-!app_assoc.
  - clear - Hru Hr. set_solver.
  - clear - Hru Hused Hgrow. set_solver.
  - rewrite <-!app_assoc in *. exact Hc'.
  - intros b Hb Hnb. apply Hun; [done|set_solver|set_solver].
Qed.
End leaf_split_result.
End insert_tree.

(** * The descent of an insertion

    From an index node that has room for one more pivot down to the leaf: the
    tree keeps its tuples until the leaf takes the new one, and nothing is held
    at the end. *)
Section descend.
Context {S : Type} `{ns : node_source S} (cfg : btree_config) `{!node_source_laws S (btree_page_size cfg)}.
Context `{!key_order (bt_data_cfg cfg)}.
Local Abbreviation ps := (btree_page_size cfg).
Local Abbreviation cmp := (btree_key_compare cfg).
Context (Hps : 4096 ≤ ps) (key : list Z) (msg : message).
Local Abbreviation K := (USER_KEY key).
Implicit Types (w : tree_state S) (nd : gmap Z btree_hdr) (s : S) (cs : list bool) (es : list tuple).

(** The message to be stored is within the sizes a node is laid out for, and
    merging it succeeds. *)
Record new_ok es : Prop := {
  new_sized : sized cfg (key, incorporated cfg es K msg);
  new_class : message_class (incorporated cfg es K msg) ≠ MESSAGE_TYPE_PIVOT_DATA;
  new_merge : merge_succeeds cfg (λ _, true) es K msg;
}.
Lemma new_ok_same es es' : tuple_lookup cfg es K = tuple_lookup cfg es' K → new_ok es → new_ok es'.
Proof. intros E [H1 H2 H3]. unfold incorporated, merge_succeeds in *. rewrite E in *. done. Qed.

(** [es'] is [es] with the new message; [unique] when the key is new. *)
Definition updated es (unique : bool) es' : Prop :=
  lookup_updated cfg es es' K (incorporated cfg es K msg) ∧ unique = bool_decide (tuple_lookup cfg es K = None).

(** How an attempt ends for the tree at [a]. *)
Definition attempt_tree cs cs' nd nd' s s' n a lo hi es fp pre post (r : attempt) : Prop :=
  match r with
  | StartOver => (failures cs' < failures cs)%nat ∧ subtree_result cfg nd nd' s s' n a lo hi fp pre post (λ es', es' = es)
  | Return rc unique g => rc = STATUS_OK ∧ is_Some g ∧
      subtree_result cfg nd nd' s s' n a lo hi fp pre post (updated es unique)
  end.

(** Node [p] has room for one more pivot. *)
Definition has_room nd (p : Z) : Prop := ∃ hp, nd !! p = Some hp ∧ btree_index_is_full cfg hp = false.
(** The insertion is at index node [p], about to go to its [i]-th child [c]. *)
Record position nd s (n : nat) (p : Z) (lo hi : DataInternal.key) (i c : Z) (A : list pivot) (v : pivot) (B : list pivot)
    (esA esc esB : list tuple) (fpA fpc fpB : gset Z) (lsA lsc lsB pre post : list Z) : Prop := {
  pos_around : around cfg nd n p lo hi A v B esA esc esB fpA fpc fpB lsA lsc lsB;
  pos_index : lengthZ A = i;
  pos_child : child_addr v = c;
  pos_low : cmp (pivot_key v) K ≤ 0;
  pos_high : cmp K (bound B hi) < 0;
  pos_small : key_small lo ∧ key_small hi ∧ key_small K;
  pos_chain : chain nd 0 (pre ++ (lsA ++ lsc ++ lsB) ++ post);
  pos_leaves b : b ∈ pre ++ (lsA ++ lsc ++ lsB) ++ post → b ∈ ns_used s;
  pos_used : {[p]} ∪ (fpA ∪ (fpc ∪ fpB)) ⊆ ns_used s;
}.

Section position_facts.
Context nd s n p lo hi i c A v B esA esc esB fpA fpc fpB lsA lsc lsB pre post
  (Hpos : position nd s n p lo hi i c A v B esA esc esB fpA fpc fpB lsA lsc lsB pre post).

Lemma pos_width : ps < 2 ^ 16.
Proof using Hpos. destruct (pos_around _ _ _ _ _ _ _ _ _ _ _ _ _ _ _ _ _ _ _ _ _ _ Hpos) as [(h & l & _ & _ & Hr & _) _ _ _ _ _ _ _ _]. apply (repr_width _ _ _ _ Hr). Qed.
Lemma pos_keys : key_small (pivot_key v) ∧ key_small (bound B hi) ∧ key_small (bound A (pivot_key v)).
Proof using Hpos key_order0.
  pose proof pos_width as Hw. destruct (pos_small _ _ _ _ _ _ _ _ _ _ _ _ _ _ _ _ _ _ _ _ _ _ Hpos) as (_ & Hhi & _).
  destruct (pos_around _ _ _ _ _ _ _ _ _ _ _ _ _ _ _ _ _ _ _ _ _ _ Hpos) as [_ _ HA _ HB _ Hs _ _].
  pose proof (short_small cfg _ Hw Hs) as Hv. split; [done|].
  destruct (segs_bound_le cfg _ _ _ _ _ _ Hw Hhi HB). by destruct (segs_bound_le cfg _ _ _ _ _ _ Hw Hv HA).
Qed.
Lemma pos_sides : tuples_ok cfg (bound A (pivot_key v)) (pivot_key v) esA ∧ tuples_ok cfg (bound B hi) hi esB ∧
  tuples_ok cfg (pivot_key v) (bound B hi) esc.
Proof using Hpos key_order0.
  pose proof pos_width as Hw. destruct pos_keys as (Hv & Hb & _).
  destruct (pos_small _ _ _ _ _ _ _ _ _ _ _ _ _ _ _ _ _ _ _ _ _ _ Hpos) as (_ & Hhi & _).
  destruct (pos_around _ _ _ _ _ _ _ _ _ _ _ _ _ _ _ _ _ _ _ _ _ _ Hpos) as [_ _ HA Hc HB _ _ _ _].
  split; [|split].
  - apply (segs_tuples cfg _ _ _ _ _ _ Hw Hv (tree_tuples cfg nd n) HA).
  - apply (segs_tuples cfg _ _ _ _ _ _ Hw Hhi (tree_tuples cfg nd n) HB).
  - by eapply (tree_tuples cfg nd n).
Qed.
(** The key's tuple is in the child's tuples. *)
Lemma pos_lookup : tuple_lookup cfg (esA ++ esc ++ esB) K = tuple_lookup cfg esc K.
Proof using Hpos key_order0.
  destruct pos_keys as (Hv & Hb & Ha). destruct pos_sides as (HA & HB & _).
  destruct (pos_small _ _ _ _ _ _ _ _ _ _ _ _ _ _ _ _ _ _ _ _ _ _ Hpos) as (_ & Hhi & HK).
  eapply (lookup_middle cfg); [exact HA|exact HB|exact pos_width|done..| |].
  - apply (pos_low _ _ _ _ _ _ _ _ _ _ _ _ _ _ _ _ _ _ _ _ _ _ Hpos).
  - apply (pos_high _ _ _ _ _ _ _ _ _ _ _ _ _ _ _ _ _ _ _ _ _ _ Hpos).
Qed.
Lemma pos_updated unique es' : updated esc unique es' → updated (esA ++ esc ++ esB) unique (esA ++ es' ++ esB).
Proof using Hpos key_order0.
  intros [Hu Hq]. destruct pos_keys as (Hv & Hb & Ha). destruct pos_sides as (HA & HB & _).
  destruct (pos_small _ _ _ _ _ _ _ _ _ _ _ _ _ _ _ _ _ _ _ _ _ _ Hpos) as (_ & Hhi & HK).
  split; [|by rewrite pos_lookup]. unfold incorporated. rewrite pos_lookup.
  eapply (updated_middle cfg); [exact HA|exact HB|exact pos_width|done..| | |exact Hu].
  - apply (pos_low _ _ _ _ _ _ _ _ _ _ _ _ _ _ _ _ _ _ _ _ _ _ Hpos).
  - apply (pos_high _ _ _ _ _ _ _ _ _ _ _ _ _ _ _ _ _ _ _ _ _ _ Hpos).
Qed.
End position_facts.

(** A change of the child is a change of the parent. *)
Lemma position_plug nd nd' s s' n p lo hi i c A v B esA esc esB fpA fpc fpB lsA lsc lsB pre post (Rc R : list tuple → Prop) :
  position nd s n p lo hi i c A v B esA esc esB fpA fpc fpB lsA lsc lsB pre post → ns_used s ⊆ ns_used s' →
  (∀ es', Rc es' → R (esA ++ es' ++ esB)) →
  subtree_result cfg nd nd' s s' n c (pivot_key v) (bound B hi) fpc (pre ++ lsA) (lsB ++ post) Rc →
  subtree_result cfg nd nd' s s' (Datatypes.S n) p lo hi ({[p]} ∪ (fpA ∪ (fpc ∪ fpB))) pre post R.
Proof.
  intros [Har _ <- _ _ _ _ _ Hu] Hus HR Hres.
  eapply subtree_result_impl; [|by eapply plug]. intros es' (esc' & -> & H). by apply HR.
Qed.

Lemma chain_regroup (pre lsA lsc lsB post : list Z) : pre ++ (lsA ++ lsc ++ lsB) ++ post = (pre ++ lsA) ++ lsc ++ (lsB ++ post).
Proof. by rewrite <-!app_assoc. Qed.

(** The tuples of a leaf with the new one. *)
Lemma performed_ok lo hi es sp m : key_small K → tuples_ok cfg lo hi es → ps < 2 ^ 16 → in_range cfg lo hi K →
  sized cfg (key, m) → spec_for cfg es key m sp →
  tuples_ok cfg lo hi (performed sp es (key, m)) ∧ lookup_updated cfg es (performed sp es (key, m)) K m.
Proof.
  intros HK [Hs Hr Hz] Hw Hk Hsz Hsp.
  destruct (performed_updates cfg es key m sp Hs (sized_small cfg _ Hw Hz) HK Hsp) as [Hs' Hu].
  split; [|done]. split; [done| |].
  - unfold all_in_range, performed. destruct (still_exists sp); [by apply Forall_insertZ|by apply Forall_insert_at].
  - unfold performed. destruct (still_exists sp); [by apply Forall_insertZ|by apply Forall_insert_at].
Qed.

(** A tree none of whose nodes changed. *)
Lemma unchanged_result nd nd' s s' n a lo hi es fp ls pre post : tree cfg nd n a lo hi es fp ls →
  chain nd 0 (pre ++ ls ++ post) → fp ⊆ ns_used s → (∀ b, b ∈ pre ++ ls ++ post → b ∈ ns_used s) → ns_used s ⊆ ns_used s' →
  (∀ b, b ∈ ns_used s → nd' !! b = nd !! b) → subtree_result cfg nd nd' s s' n a lo hi fp pre post (λ es', es' = es).
Proof.
  intros Ht Hc Hfp Hls Hus Hsame. exists es, fp, ls.
  split; [eapply tree_frame; [exact Ht|]; intros b Hb; rewrite Hsame by auto; done|]. split; [done|].
  split; [set_solver|]. split; [set_solver|]. split.
  - eapply chain_frame; [exact Hc|]. intros b Hb. rewrite Hsame by auto. done.
  - intros b Hb _. by rewrite Hsame.
Qed.

Section at_leaf.
Context nd s p lo hi i c A v B esA esc esB fpA fpc fpB lsA lsc lsB pre post
  (Hpos : position nd s 0 p lo hi i c A v B esA esc esB fpA fpc fpB lsA lsc lsB pre post).
Local Abbreviation fp := ({[p]} ∪ (fpA ∪ (fpc ∪ fpB))).
Local Abbreviation es := (esA ++ esc ++ esB).
Context (hc : btree_hdr) (Hc : nd !! c = Some hc).

(** The leaf took the tuple: so did the tree at its parent. *)
Lemma leaf_inserted_tree nd' s' hp lp lc unique g : new_ok esc → lc.*2 = esc → nd !! p = Some hp →
  same_pivots lp.*2 (A ++ v :: B) → height hp = 1 → (ns_used s ⊆ ns_used s') →
  leaf_inserted cfg nd s p i c hp hc lp lc key msg s' nd' unique g →
  subtree_result cfg nd nd' s s' 1 p lo hi fp pre post (updated es unique) ∧ is_Some g.
Proof using All.
  intros [Hsz _ _] <- Hp Hlp Hhp Hus (Huniq & Hg & sp & Hsp & Hor). split; [|done].
  pose proof Hpos as [Har Hi Hcv Hlow Hhigh (Hlo & Hhi & HK) Hch Hlv Hu]. rewrite chain_regroup in Hch.
  pose proof (pos_width _ _ _ _ _ _ _ _ _ _ _ _ _ _ _ _ _ _ _ _ _ _ Hpos) as Hw.
  destruct (pos_sides _ _ _ _ _ _ _ _ _ _ _ _ _ _ _ _ _ _ _ _ _ _ Hpos) as (_ & _ & Hok).
  destruct (performed_ok _ _ _ sp _ HK Hok Hw (conj Hlow Hhigh) Hsz Hsp) as [[Ts Tr Tz] Hupd].
  destruct Hor as [Hset|(r & kp & n & Hsplit)].
  - eapply subtree_result_impl; [|eapply (position_plug _ nd' s s'); [exact Hpos|done| |]].
    + intros x Hx. exact Hx.
    + intros es' Hes'. apply (pos_updated _ _ _ _ _ _ _ _ _ _ _ _ _ _ _ _ _ _ _ _ _ _ Hpos). exact Hes'.
    + pose proof (ar_child _ _ _ _ _ _ _ _ _ _ _ _ _ _ _ _ _ _ Har) as Ht. rewrite Hcv in Ht.
      destruct (leaf_set_result cfg Hps nd nd' s c hc _ _ _ _ _ _ _ (performed sp lc.*2 (key, incorporated cfg lc.*2 K msg)) Ht Hch Hc)
        as (es' & fp' & ls' & H1 & -> & H3 & H4 & H5 & H6); [clear - Hu; set_solver|done..|].
      exists (performed sp lc.*2 (key, incorporated cfg lc.*2 K msg)), fp', ls'. split; [done|]. split; [done|].
      split; [clear - H3; set_solver|]. split; [clear - H4 Hus; set_solver|]. done.
  - rewrite <-Hi in Hsplit. rewrite chain_regroup in Hlv.
    eapply subtree_result_impl; [|eapply (leaf_split_result cfg Hps nd nd' s s' p c r hp hc lp kp n); try done].
    intros es' ->. by apply (pos_updated _ _ _ _ _ _ _ _ _ _ _ _ _ _ _ _ _ _ _ _ _ _ Hpos).
Qed.

Lemma insert_at_leaf w cs : has_room nd p → new_ok es → st w nd (held2 p READ c READ) s cs → ns_inv s → ns_room s ≠ 0%nat →
  ∃ r w' nd' s' cs', insert_leaf cfg p i c K msg w = Ret (r, w') ∧ st w' nd' nothing_held s' cs' ∧
    grown cfg s s' cs cs' 1 ∧ attempt_tree cs cs' nd nd' s s' 1 p lo hi es fp pre post r.
Proof using All.
  intros (hp & Hp & Hfull) Hnew Hst Hinv Hroom. pose proof Hpos as [Har Hi Hcv Hlow Hhigh Hsm Hch Hlv Hu].
  apply (new_ok_same _ esc) in Hnew; [|by rewrite (pos_lookup _ _ _ _ _ _ _ _ _ _ _ _ _ _ _ _ _ _ _ _ _ _ Hpos)].
  pose proof Hnew as [Hsz Hcl Hm].
  destruct (ar_node _ _ _ _ _ _ _ _ _ _ _ _ _ _ _ _ _ _ Har) as (hp' & lp & Hp' & Hhp & Hrp & Hlp).
  rewrite Hp in Hp'. injection Hp' as <-.
  pose proof (ar_child _ _ _ _ _ _ _ _ _ _ _ _ _ _ _ _ _ _ Har) as Ht. rewrite Hcv in Ht.
  pose proof Hch as Hch'. rewrite chain_regroup in Hch'.
  destruct (leaf_in_chain cfg nd c _ _ _ _ _ _ _ Ht Hch')
    as (hc' & lc & Hc2 & Hhc & Hrc & Hlc & Hs & _ & Hz & Efp & Els & Hnx & Hc0 & Hcpre & Hcpost).
  rewrite Hc in Hc2. injection Hc2 as <-.
  apply (index_full_spec cfg hp lp Hrp) in Hfull.
  pose proof (same_pivots_length _ _ Hlp) as HL. rewrite lengthZ_fmap, lengthZ_app, lengthZ_cons in HL.
  assert (Hnx' : next_addr hc ≠ 0 →
    is_Some (nd !! next_addr hc) ∧ next_addr hc ≠ p ∧ next_addr hc ≠ c ∧ next_addr hc ∈ ns_used s).
  { rewrite Hnx. unfold next_leaf. destruct (lsB ++ post) as [|x xs] eqn:E; [done|]. intros Hx0. cbn [head default] in *.
    assert (Hin : x ∈ pre ++ (lsA ++ lsc ++ lsB) ++ post) by (rewrite chain_regroup, E; clear; set_solver).
    destruct (chain_leaf _ _ _ _ Hch Hin) as (hx & Hxx & Hhx & _). change (id x) with x in *.
    split; [eauto|]. split; [intros ->; rewrite Hp in Hxx; injection Hxx as <-; lia|]. split; [|by apply Hlv].
    intros ->. apply Hcpost. clear. set_solver. }
  assert (Hne : p ≠ c) by (intros ->; rewrite Hp in Hc; injection Hc as <-; lia).
  pose proof (Hlv c) as Hcu. rewrite chain_regroup, Els in Hcu. specialize (Hcu ltac:(clear; set_solver)).
  rewrite <-Hlc in Hs, Hz, Hsz, Hcl, Hm.
  destruct (insert_leaf_run cfg Hps nd s p i c hp hc lp lc key msg Hp Hrp) with (w := w) (cs := cs)
    as (r & w' & nd' & s' & cs' & Hrun & Hst' & Hg & Hres); try done.
  { pose proof (lengthZ_nonneg A). pose proof (lengthZ_nonneg B). clear - HL Hi H H0. lia. }
  { clear - Hu. set_solver. }
  exists r, w', nd', s', cs'. split; [done|]. split; [done|]. split; [done|].
  destruct r as [|rc unique g]; cbn in Hres |- *.
  - destruct Hres as [Hless Hsame]. split; [done|]. apply unchanged_result with (ls := lsA ++ lsc ++ lsB); try done.
    + by eapply (around_tree cfg).
    + apply (grown_used _ _ _ _ _ _ Hg).
  - destruct Hres as [-> Hins]. split; [done|]. apply and_comm.
    eapply leaf_inserted_tree; try done. apply (grown_used _ _ _ _ _ _ Hg).
Qed.
End at_leaf.
End descend.

#[global] Arguments pos_width {S ns cfg node_source_laws0 key nd s n p lo hi i c A v B esA esc esB fpA fpc fpB lsA lsc lsB pre post} Hpos.
#[global] Arguments pos_keys {S ns cfg node_source_laws0 key_order0 key nd s n p lo hi i c A v B esA esc esB fpA fpc fpB lsA lsc lsB pre post} Hpos.
#[global] Arguments pos_sides {S ns cfg node_source_laws0 key_order0 key nd s n p lo hi i c A v B esA esc esB fpA fpc fpB lsA lsc lsB pre post} Hpos.
#[global] Arguments pos_lookup {S ns cfg node_source_laws0 key_order0 key nd s n p lo hi i c A v B esA esc esB fpA fpc fpB lsA lsc lsB pre post} Hpos.
#[global] Arguments pos_updated {S ns cfg node_source_laws0 key_order0 key msg nd s n p lo hi i c A v B esA esc esB fpA fpc fpB lsA lsc lsB pre post} Hpos {unique es'}.
