(* ===== verification/BtreePrepare.v ===== *)
(** * Making an index node ready for a descent

    Its first pivot is lowered to the key when the key is below it, and a full
    node is defragmented or split: what the nodes represent afterwards, and the
    room they have. *)
From S2P Require Import Prelude Allocator Bytes DataInternal BtreeNode NodeLayout BtreeLeaf LeafMap BtreeSplit.
From S2P Require Import BtreeIndex BtreePivot Btree BtreeTree BtreeWorld BtreeInsertLeaf.

(** The pivots with [k] for the first key. *)
Definition set_first (k : key) (vs : list pivot) : list pivot :=
  match vs with [] => [] | v :: vs' => mk_pivot k (child_addr v) (pivot_stats v) :: vs' end.
Lemma set_first_same k vs vs' : same_pivots vs vs' → same_pivots (set_first k vs) (set_first k vs').
Proof.
  destruct vs as [|v vs]; [by destruct vs'|]. intros (w & ws & -> & Hw & Hs)%same_pivots_cons.
  unfold same_pivots, set_first in *. rewrite !fmap_cons, Hs. f_equal. unfold clean, child_addr. cbn.
  unfold clean, child_addr in Hw. injection Hw as _ -> ->. done.
Qed.
Lemma set_first_take k vs t : 0 < t → take (Z.to_nat t) (set_first k vs) = set_first k (take (Z.to_nat t) vs).
Proof. intros Ht. destruct (Z.to_nat t) eqn:E; [lia|]. by destruct vs. Qed.
Lemma set_first_drop k vs t : 0 < t → drop (Z.to_nat t) (set_first k vs) = drop (Z.to_nat t) vs.
Proof. intros Ht. destruct (Z.to_nat t) eqn:E; [lia|]. by destruct vs. Qed.
Lemma set_first_length k vs : lengthZ (set_first k vs) = lengthZ vs.
Proof. by destruct vs. Qed.

Section nodes.
Context (cfg : btree_config).
Local Abbreviation ps := (btree_page_size cfg).
Context (Hps : 4096 ≤ ps).
Implicit Types (l : list (Z * pivot)) (h : btree_hdr) (vs : list pivot).

Definition short_pivots vs : Prop := Forall (λ v, short cfg (pivot_key v)) vs.
Lemma short_same vs vs' : same_pivots vs vs' → short_pivots vs → short_pivots vs'.
Proof using.
  revert vs'. induction vs as [|v vs IH]; intros vs' Hs Hf; [by destruct vs'|].
  apply same_pivots_cons in Hs as (w & ws & -> & Hw & Hs). apply clean_same in Hw as [Hw _].
  inversion Hf; subst. constructor; [by rewrite <-Hw|by apply IH].
Qed.
Lemma short_inline vs : short_pivots vs → Forall (inline_pivot cfg) vs.
Proof using Hps.
  intros H. eapply list.Forall_impl; [exact H|]. intros v Hv. unfold short, inline_pivot, MAX_INLINE_KEY_SIZE in *.
  pose proof (key_length_nonneg (pivot_key v)). apply Z.div_le_lower_bound; lia.
Qed.
Lemma short_set_first k vs : short cfg k → short_pivots vs → short_pivots (set_first k vs).
Proof using. intros Hk Hf. destruct vs; [done|]. inversion Hf; subst. by constructor. Qed.

(** Room for a pivot with the longest inline key after the first pivot gets another key. *)
Definition roomy h l : Prop := table_at (lengthZ l + 2) + 46 + MAX_INLINE_KEY_SIZE ps + ps / 20 ≤ next_entry h.
Lemma roomy_not_full h l : roomy h l → not_full cfg h l.
Proof using Hps. unfold roomy, not_full. pose proof (Z.div_pos ps 20). lia. Qed.

Lemma packed_roomy h l vs : lengthZ l = lengthZ vs →
  index_space vs < BTREE_SPLIT_THRESHOLD ps → next_entry h = ps - total_size vs → roomy h l.
Proof using Hps.
  unfold roomy, index_space, BTREE_SPLIT_THRESHOLD, MAX_INLINE_KEY_SIZE. intros HL Hsp ->.
  pose proof (Z.mul_div_le ps 8 ltac:(lia)). pose proof (Z.mul_div_le ps 2 ltac:(lia)).
  pose proof (Z.mul_div_le ps 20 ltac:(lia)). pose proof (lengthZ_nonneg vs). table_lia.
Qed.
Lemma short_halves vs t : halves vs t → 0 < t → short_pivots vs →
  2 * psize vs t ≤ total_size vs + 2 * (23 + ps / 20).
Proof using Hps.
  intros (Ht & Hge & Hlt) Hpos Hin. specialize (Hlt Hpos).
  pose proof (Z.div_mod (total_size vs) 2 ltac:(lia)). pose proof (Z.mod_pos_bound (total_size vs) 2 ltac:(lia)).
  destruct (proj2 (lookupZ_is_Some vs (t - 1)) ltac:(lia)) as [v Hv].
  pose proof (psize_S _ _ _ Hv) as Hp. rewrite Z.sub_add in Hp.
  unfold short_pivots in Hin. rewrite list.Forall_forall in Hin. pose proof (Hin v (lookupZ_elem _ _ _ Hv)) as Hv'.
  assert (key_length (pivot_key v) ≤ ps / 20) by (apply Z.div_le_lower_bound; [lia|]; exact Hv').
  unfold pivot_size in *. lia.
Qed.
Lemma left_roomy h l hl ll t : node_repr ps h l → halves l.*2 t → 0 < t → short_pivots l.*2 → lengthZ ll = t →
  (BTREE_DEFRAGMENT_THRESHOLD ps ≤ next_entry hl ∨ next_entry hl = ps - psize l.*2 t) → roomy hl ll.
Proof using Hps.
  intros Hr Hh Hpos Hin Hll Hnl. pose proof Hh as (Ht & _).
  pose proof (short_halves _ _ Hh Hpos Hin) as H1. destruct (psize_count _ _ Ht) as [H3 H4].
  rewrite lengthZ_fmap in Ht, H4. pose proof (repr_live_size _ _ _ Hr) as Hlive.
  rewrite live_size_total in Hlive. pose proof (repr_table _ _ _ _ Hr) as Htab.
  unfold roomy, MAX_INLINE_KEY_SIZE, BTREE_DEFRAGMENT_THRESHOLD in *.
  pose proof (Z.div_mod ps 8 ltac:(lia)). pose proof (Z.mod_pos_bound ps 8 ltac:(lia)).
  pose proof (Z.div_mod ps 4 ltac:(lia)). pose proof (Z.mod_pos_bound ps 4 ltac:(lia)).
  pose proof (Z.div_mod ps 20 ltac:(lia)). pose proof (Z.mod_pos_bound ps 20 ltac:(lia)).
  table_lia.
Qed.

(** Setting the first key. *)
Lemma set_min_node h l v vs k : node_repr ps h l → l.*2 = v :: vs → key_fits k →
  ∃ o b h', btree_get_index_entry h 0 = Some o ∧ index_entry_child_addr h o = Some (child_addr v) ∧
    index_entry_stats h o = Some (pivot_stats v) ∧
    btree_set_index_entry 0 k (child_addr v) (pivot_stats v) h = Ret (b, h') ∧
    set_index_ok ps h l 0 (mk_pivot k (child_addr v) (pivot_stats v)) b h'.
Proof using.
  intros Hr Hl Hk. destruct l as [|[o v'] l']; [done|]. injection Hl as -> Hl.
  destruct (index_get ps h ((o, v) :: l') 0 o v Hr) as (Ho & _ & _ & _ & _ & _ & Ha & Hst & _ & Hok2 & Hok3); [done|].
  assert (Hok : pivot_ok (mk_pivot k (child_addr v) (pivot_stats v))).
  { split; [done|]. split; [by apply child_addr_range|done]. }
  destruct (set_index_run ps h _ 0 (mk_pivot k (child_addr v) (pivot_stats v)) Hr) as (b & h' & Hrun & Hset); [|done|].
  { rewrite lengthZ_cons. pose proof (lengthZ_nonneg l'). lia. }
  by exists o, b, h'.
Qed.
Lemma set_index_first h l v vs k b h' : l.*2 = v :: vs → b = true →
  set_index_ok ps h l 0 (mk_pivot k (child_addr v) (pivot_stats v)) b h' →
  ∃ l', node_repr ps h' l' ∧ l'.*2 = set_first k l.*2.
Proof using.
  intros Hl Hb [_ _ _ _ Hrep _]. destruct (Hrep Hb) as (l' & Hr' & Hl'). exists l'. split; [done|].
  rewrite Hl', Hl. unfold set_at. rewrite lengthZ_cons. pose proof (lengthZ_nonneg vs).
  rewrite (proj2 (Z.ltb_lt _ _)) by lia. done.
Qed.
End nodes.

Section runs.
Context {S : Type} `{ns : node_source S} (cfg : btree_config) `{!node_source_laws S (btree_page_size cfg)}.
Local Abbreviation ps := (btree_page_size cfg).
Context (Hps : 4096 ≤ ps).
Implicit Types (w : tree_state S) (nd : gmap Z btree_hdr) (s : S) (cs : list bool) (W : list pivot).
Implicit Types (Q : btree_hdr → list (Z * pivot) → Prop).

(** Node [c] has the pivots [W], and room as [Q] says. *)
Definition has_pivots nd (c : Z) (ht : Z) Q W : Prop :=
  ∃ h l, nd !! c = Some h ∧ node_repr ps h l ∧ same_pivots l.*2 W ∧ height h = ht ∧ Q h l.
Definition index_kept nd (c ht : Z) Q W nd' : Prop :=
  has_pivots nd' c ht Q W ∧ ∀ b, b ≠ c → nd' !! b = nd !! b.
(** Node [c] was split at [t]: [r] has the pivots from there on. *)
Record index_was_split nd s s' (p i c : Z) (hp : btree_hdr) (ht : Z) (lp : list (Z * pivot)) Q W nd' (r : Z) (kp : key) (t : Z) : Prop := {
  isplit_cut : 0 < t < lengthZ W;
  isplit_pivot : ∃ v, lookupZ W t = Some v ∧ pivot_key v = kp;
  isplit_fresh : (r ∉ ns_used s) ∧ r ∈ ns_used s' ∧ 0 < r < 2 ^ 64 ∧ Z.land r (Z.lnot 4095) = r;
  isplit_parent : ∃ hp' lp', nd' !! p = Some hp' ∧ node_repr ps hp' lp' ∧ height hp' = height hp ∧
    lp'.*2 = insert_at (i + 1) (mk_pivot kp r BTREE_PIVOT_STATS_UNKNOWN) lp.*2;
  isplit_left : has_pivots nd' c ht Q (take (Z.to_nat t) W);
  isplit_right : has_pivots nd' r ht (not_full cfg) (drop (Z.to_nat t) W);
  isplit_rest b : b ≠ p → b ≠ c → b ≠ r → nd' !! b = nd !! b;
}.
Definition room_made nd s s' (p i c : Z) hp ht lp Q W (idx : Z) nd' (new idx' : Z) : Prop :=
  (s' = s ∧ new = c ∧ idx' = idx ∧ (∀ b, b ≠ c → nd' !! b = nd !! b) ∧ has_pivots nd' c ht Q W) ∨
  ∃ r kp t, index_was_split nd s s' p i c hp ht lp Q W nd' r kp t ∧
    (new, idx') = if idx <? t then (c, idx) else (r, idx - t).

Lemma min_key_run w nd H s cs c hc lc v vs k : st w nd H s cs → H c = WRITE → nd !! c = Some hc →
  node_repr ps hc lc → lc.*2 = v :: vs → key_fits k →
  ∃ b w' h', set_min_key c k w = Ret (b, w') ∧ st w' (<[c := h']> nd) H s cs ∧
    set_index_ok ps hc lc 0 (mk_pivot k (child_addr v) (pivot_stats v)) b h'.
Proof using.
  intros Hst Hw Hc Hr Hl Hk. destruct (set_min_node cfg hc lc v vs k Hr Hl Hk) as (o & b & h' & Ho & Ha & Hs & Hset & Hok).
  unfold set_min_key. look (peek_hdr _ _ _ _ _ c _ Hst ltac:(by rewrite Hw) Hc).
  rewrite (run_opt _ _ _ _ Ho), (run_opt _ _ _ _ Ha), (run_opt _ _ _ _ Hs).
  destruct (on_node_run _ _ _ _ _ c _ _ _ _ Hst Hw Hc Hset) as (w1 & Hrun & Hst1).
  by exists b, w1, h'.
Qed.

(** Setting the first key of a node with that much room. *)
Lemma roomy_min_key_run k nd c ht W w H s cs : has_pivots nd c ht (roomy cfg) W → W ≠ [] → short cfg k → key_fits k →
  st w nd H s cs → H c = WRITE →
  ∃ w' h', set_min_key c k w = Ret (true, w') ∧ st w' (<[c := h']> nd) H s cs ∧
    has_pivots (<[c := h']> nd) c ht (not_full cfg) (set_first k W).
Proof using Hps.
  intros (h & l & Hc & Hr & Hs & Hh & Hq) HW Hk Hf Hst Hw.
  destruct l.*2 as [|v vs] eqn:El; [by destruct W|].
  destruct (min_key_run w nd H s cs c h l v vs k Hst Hw Hc Hr El Hf) as (b & w' & h' & Hrun & Hst' & Hok).
  unfold roomy in Hq. unfold short in Hk.
  assert (Hkl : key_length k ≤ ps / 20) by (apply Z.div_le_lower_bound; lia).
  assert (Hbt : b = true).
  { apply (set_index_room _ _ _ _ _ _ _ Hok). apply Z.leb_le. unfold index_slots_after, pivot_size. cbn [pivot_key].
    assert (0 < lengthZ l) by (rewrite <-(lengthZ_fmap snd l), El, lengthZ_cons; pose proof (lengthZ_nonneg vs); lia).
    rewrite (proj2 (Z.ltb_lt _ _)) by done.
    assert (0 ≤ MAX_INLINE_KEY_SIZE ps) by (unfold MAX_INLINE_KEY_SIZE; apply Z.div_pos; lia). table_lia. }
  destruct (set_index_first cfg h l v vs k b h' El Hbt Hok) as (l' & Hr' & Hl').
  subst b. exists w', h'. split; [done|]. split; [done|]. exists h', l'. split; [apply lookup_insert_eq|]. split; [done|].
  split; [rewrite Hl'; apply set_first_same; by rewrite El|].
  split; [destruct (set_index_links _ _ _ _ _ _ _ Hok) as (_ & _ & _ & _ & ->); done|].
  pose proof (set_index_next _ _ _ _ _ _ _ Hok eq_refl) as Hn. unfold pivot_size in Hn. cbn [pivot_key] in Hn.
  unfold not_full.
  assert (HL : lengthZ l' = lengthZ l) by (rewrite <-(lengthZ_fmap snd l'), Hl', set_first_length; apply lengthZ_fmap).
  rewrite HL. lia.
Qed.
(** There is no room for it only in a full node. *)
Lemma min_key_fails hc (lc : list (Z * pivot)) v vs k h' : node_repr ps hc lc → lc.*2 = v :: vs → short cfg k →
  set_index_ok ps hc lc 0 (mk_pivot k (child_addr v) (pivot_stats v)) false h' → btree_index_is_full cfg hc = true.
Proof using Hps.
  intros Hr El Hk Hok. destruct (btree_index_is_full cfg hc) eqn:E; [done|exfalso].
  apply (index_full_spec cfg hc lc Hr) in E.
  assert (false = true); [|done]. apply (set_index_room _ _ _ _ _ _ _ Hok). apply Z.leb_le.
  assert (0 < lengthZ lc) by (rewrite <-(lengthZ_fmap snd lc), El, lengthZ_cons; pose proof (lengthZ_nonneg vs); lia).
  unfold index_slots_after, pivot_size. cbn [pivot_key]. rewrite (proj2 (Z.ltb_lt _ _)) by done.
  unfold not_full, MAX_INLINE_KEY_SIZE in E. unfold short in Hk.
  assert (key_length k ≤ ps / 8) by (pose proof (key_length_nonneg k); clear - Hk Hps H0; apply Z.div_le_lower_bound; lia).
  table_lia.
Qed.

(** The first key changes after room was made: there is room for it. *)
Lemma room_made_first k nd s s' p i c hp ht lp (lc : list (Z * pivot)) nd' new idx' w H cs :
  p ≠ c → p ∈ ns_used s → c ∈ ns_used s → lc.*2 ≠ [] → short cfg k → key_fits k →
  room_made nd s s' p i c hp ht lp (roomy cfg) lc.*2 0 nd' new idx' → st w nd' H s' cs → H new = WRITE →
  ∃ w' nd'', set_min_key new k w = Ret (true, w') ∧ st w' nd'' H s' cs ∧
    room_made nd s s' p i c hp ht lp (not_full cfg) (set_first k lc.*2) 0 nd'' new idx'.
Proof using Hps.
  intros Hpc Hpu Hcu Hne Hk Hf Hm Hst Hw.
  destruct Hm as [(-> & -> & -> & Hrest & Hh)|(r & kp & t & Hsplit & E)].
  - destruct (roomy_min_key_run k nd' c ht lc.*2 w H s cs Hh Hne Hk Hf Hst Hw) as (w' & h' & Hrun & Hst' & Hhas).
    exists w', (<[c := h']> nd'). split; [done|]. split; [done|]. left. do 3 (split; [done|]).
    split; [intros b ?; rewrite lookup_insert_ne by done; by apply Hrest|done].
  - pose proof (isplit_cut _ _ _ _ _ _ _ _ _ _ _ _ _ _ _ Hsplit) as Ht. rewrite (proj2 (Z.ltb_lt 0 t)) in E by lia.
    injection E as -> ->.
    destruct (roomy_min_key_run k nd' c ht (take (Z.to_nat t) lc.*2) w H s' cs) as (w' & h' & Hrun & Hst' & Hhas); try done.
    { apply (isplit_left _ _ _ _ _ _ _ _ _ _ _ _ _ _ _ Hsplit). }
    { destruct (Z.to_nat t) eqn:Et; [lia|]. by destruct lc.*2. }
    exists w', (<[c := h']> nd'). split; [done|]. split; [done|]. right. exists r, kp, t.
    rewrite (proj2 (Z.ltb_lt 0 t)) by lia. split; [|done].
    destruct (isplit_fresh _ _ _ _ _ _ _ _ _ _ _ _ _ _ _ Hsplit) as (F1 & F2 & F3 & F4).
    assert (Hrc : r ≠ c) by (intros ->; done).
    destruct Hsplit as [_ (v & Hv & Hkp) _ (hp' & lp' & Hp' & Hpr) _ (hr & lr & Hr & Hrr) Hrest]. split.
    + by rewrite set_first_length.
    + exists v. split; [|done]. destruct lc.*2 as [|v0 vs]; [done|]. unfold set_first.
      rewrite lookupZ_cons_S in Hv |- * by lia. done.
    + done.
    + exists hp', lp'. by rewrite lookup_insert_ne.
    + by rewrite set_first_take by lia.
    + rewrite set_first_drop by lia. exists hr, lr. by rewrite lookup_insert_ne.
    + intros b ???. rewrite lookup_insert_ne by done. by apply Hrest.
Qed.

Lemma room_made_weaken nd s s' p i c hp ht lp W idx nd' new idx' :
  room_made nd s s' p i c hp ht lp (roomy cfg) W idx nd' new idx' →
  room_made nd s s' p i c hp ht lp (not_full cfg) W idx nd' new idx'.
Proof using Hps.
  assert (Hw : ∀ nd' c' ht W', has_pivots nd' c' ht (roomy cfg) W' → has_pivots nd' c' ht (not_full cfg) W').
  { intros ???? (h & l & ? & ? & ? & ? & Hq). exists h, l. split_and!; try done. by apply (roomy_not_full cfg Hps). }
  intros [(? & ? & ? & ? & Hh)|(r & kp & t & [] & E)].
  - left. split_and!; auto.
  - right. exists r, kp, t. split; [|done]. split; auto.
Qed.
(** What was so of a change of [nd] but for node [c]. *)
Lemma room_made_from nd nd1 s s' p i c hp ht lp Q W idx nd' new idx' : (∀ b, b ≠ c → nd1 !! b = nd !! b) →
  room_made nd1 s s' p i c hp ht lp Q W idx nd' new idx' → room_made nd s s' p i c hp ht lp Q W idx nd' new idx'.
Proof using.
  intros Hsame [(-> & -> & -> & Hrest & Hh)|(r & kp & t & [H1 H2 H3 H4 H5 H6 H7] & E)].
  - left. split_and!; try done. intros b Hb. by rewrite Hrest, Hsame.
  - right. exists r, kp, t. split; [|done]. split; try done. intros b ???. by rewrite H7, Hsame.
Qed.

Section defragment_or_split.
Context (nd : gmap Z btree_hdr) (s : S) (p i c : Z) (hp hc : btree_hdr) (lp lc : list (Z * pivot)).
Context (Hp : nd !! p = Some hp) (Hrp : node_repr ps hp lp) (Hi : 0 ≤ i < lengthZ lp) (Hfull : not_full cfg hp lp).
Context (Hc : nd !! c = Some hc) (Hrc : node_repr ps hc lc) (Hhc : 0 ≤ height hc < BTREE_MAX_HEIGHT).
Context (Hne : p ≠ c) (Hpu : p ∈ ns_used s) (Hcu : c ∈ ns_used s).
Context (Hsh : short_pivots cfg lc.*2) (Hinv : ns_inv s) (Hroom : ns_room s ≠ 0%nat).

Lemma index_parent_run k r : short cfg k → key_fits k → 0 < r < 2 ^ 64 →
  ∃ hp' lp', btree_insert_index_entry (i + 1) k r BTREE_PIVOT_STATS_UNKNOWN hp = Ret (true, hp') ∧
    node_repr ps hp' lp' ∧ height hp' = height hp ∧
    lp'.*2 = insert_at (i + 1) (mk_pivot k r BTREE_PIVOT_STATS_UNKNOWN) lp.*2.
Proof using Hps Hrp Hi Hfull.
  intros Hk Hf Hr0. set (v := mk_pivot k r BTREE_PIVOT_STATS_UNKNOWN).
  assert (Hok : pivot_ok v).
  { split; [done|]. split; [cbn; clear - Hr0; lia|]. unfold v, stats_fit, BTREE_PIVOT_STATS_UNKNOWN, BTREE_UNKNOWN_COUNTER. cbn. clear. lia. }
  assert (Hin : inline_pivot cfg v).
  { unfold inline_pivot, short, MAX_INLINE_KEY_SIZE in *. cbn. pose proof (key_length_nonneg k). clear - Hk Hps. apply Z.div_le_lower_bound; lia. }
  destruct (insert_index_run ps hp lp (i + 1) v Hrp) as (hp' & lp' & Hrun & (_ & _ & _ & _ & Hh) & _ & Hr' & Hl');
    [clear - Hi; lia|done|by eapply not_full_room|]. by exists hp', lp'.
Qed.

Lemma split_index_run w cs idx : st w nd (held2 p WRITE c WRITE) s cs →
  BTREE_SPLIT_THRESHOLD ps ≤ index_space lc.*2 →
  ∃ new idx' w' nd' s', btree_split_child_index cfg p i c idx w = Ret ((new, idx'), w') ∧
    st w' nd' (hset new WRITE nothing_held) s' cs ∧ grown cfg s s' cs cs 1 ∧
    ∃ r kp t, index_was_split nd s s' p i c hp (height hc) lp (roomy cfg) lc.*2 nd' r kp t ∧
      (new, idx') = if idx <? t then (c, idx) else (r, idx - t).
Proof using All.
  intros Hst Hge. unfold held2 in *. unfold btree_split_child_index.
  destruct (choose_split_run cfg hc lc Hrc) as (t & Hchoose & Hhalves).
  pose proof (halves_inside cfg lc.*2 t ltac:(lia) Hhalves (short_inline cfg Hps _ Hsh) Hge) as Ht.
  look (peek_hdr _ _ _ _ _ c _ Hst ltac:(hold_solve) Hc). rewrite Hchoose.
  rewrite (bind_run _ _ w t w) by done. unfold btree_height.
  destruct (alloc_run w nd _ s cs (height hc) Hst Hinv Hhc Hroom)
    as (r & w1 & s1 & Hrun & Hst1 & Hinv1 & Hfresh & Hused & Hroom1 & Hr0 & Hal).
  rewrite (bind_run _ _ _ _ _ Hrun). clear Hrun.
  assert (Hrp' : r ≠ p) by (intros ->; done). assert (Hrc' : r ≠ c) by (intros ->; done).
  rewrite lengthZ_fmap in Ht. destruct (proj2 (lookupZ_is_Some lc t) ltac:(lia)) as [[o v] Hv].
  destruct (index_get _ _ _ _ _ _ Hrc Hv) as (_ & _ & Hkey & _ & _ & _ & _ & _ & (Hf & _)).
  assert (Hv2 : lookupZ lc.*2 t = Some v) by (by rewrite lookupZ_fmap, Hv).
  rewrite (run_opt _ _ _ _ Hkey).
  assert (Hsv : short cfg (pivot_key v)).
  { pose proof Hsh as Hsh'. unfold short_pivots in Hsh'. rewrite list.Forall_forall in Hsh'. apply Hsh'. by eapply lookupZ_elem. }
  destruct (index_parent_run (pivot_key v) r Hsv Hf Hr0) as (hp' & lp' & Hpi & Hrp1 & Hhp1 & Hlp1).
  assert (Hp1 : <[r := ns_garbage r]> nd !! p = Some hp) by by rewrite lookup_insert_ne.
  step (on_node_run _ _ _ _ _ p _ _ _ _ Hst1 ltac:(hold_solve) Hp1 Hpi) as w2 Hst2.
  step (full_unlock_run _ _ _ _ _ p Hst2) as w3 Hst3.
  assert (Hr3 : <[p := hp']> (<[r := ns_garbage r]> nd) !! r = Some (ns_garbage r)).
  { by rewrite lookup_insert_ne, lookup_insert_eq. }
  destruct (right_index_run cfg hc lc (ns_garbage r) t Hrc (ns_garbage_length r)) as (hr & lr & Hright & Hrr & Hlr & Hnr & Hhr & _);
    [unfold SIZEOF_BTREE_HDR; lia|lia|].
  destruct (truncate_index_run cfg hc lc t Hrc) as (hl & ll & Hleft & Hrl & Hll & Hnl & Hhl & _);
    [unfold SIZEOF_BTREE_HDR; lia|lia|].
  assert (Hlen : lengthZ ll = t ∧ lengthZ lr = lengthZ lc - t).
  { split.
    - rewrite <-(lengthZ_fmap snd ll), <-(lengthZ_fmap clean ll.*2), Hll, lengthZ_fmap, lengthZ_take; [done|rewrite lengthZ_fmap; lia].
    - rewrite <-(lengthZ_fmap snd lr), Hlr, lengthZ_fmap, lengthZ_drop', lengthZ_fmap; [done|rewrite lengthZ_fmap; lia]. }
  destruct Hlen as [Hlen1 Hlen2].
  destruct (halves_not_full cfg hc lc hl ll hr lr t Hrc) as [_ Hnf]; try done; [lia|lia|by apply short_inline|by rewrite Hnr, psize_drop|].
  pose proof (left_roomy cfg Hps hc lc hl ll t Hrc Hhalves ltac:(lia) Hsh Hlen1 Hnl) as Hroomy.
  set (nd3 := <[p := hp']> (<[r := ns_garbage r]> nd)) in *.
  assert (Hsplit : index_was_split nd s s1 p i c hp (height hc) lp (roomy cfg) lc.*2 (<[c := hl]> (<[r := hr]> nd3)) r (pivot_key v) t).
  { split.
    - by rewrite lengthZ_fmap.
    - by exists v.
    - rewrite Hused. split_and!; try done; try lia. set_solver.
    - exists hp', lp'. unfold nd3. rewrite lookup_insert_ne, lookup_insert_ne, lookup_insert_eq by done. done.
    - exists hl, ll. rewrite lookup_insert_eq. done.
    - exists hr, lr. rewrite lookup_insert_ne, lookup_insert_eq by done. split; [done|]. split; [done|].
      split; [unfold same_pivots; by rewrite Hlr, clean_clean_list|]. split; [by rewrite Hhr|done].
    - intros b H1 H2 H3. unfold nd3. by rewrite !lookup_insert_ne. }
  assert (Hgrown : grown cfg s s1 cs cs 1) by (split; [done|rewrite Hused; set_solver|lia|done]).
  assert (Hc3 : <[r := hr]> nd3 !! c = Some hc) by (unfold nd3; by rewrite !lookup_insert_ne).
  destruct (idx <? t) eqn:Hgo.
  - step (on_node_run _ _ _ _ _ r _ _ _ _ Hst3 ltac:(hold_solve) Hr3 Hright) as w4 Hst4.
    rewrite (proj2 (Z.eqb_neq c r)) by done. cbn [negb]. unfold mwhen.
    step (full_unlock_run _ _ _ _ _ r Hst4) as w5 Hst5.
    step (on_node_run _ _ _ _ _ c _ _ _ _ Hst5 ltac:(hold_solve) Hc3 Hleft) as w6 Hst6.
    rewrite Z.eqb_refl. cbn [negb]. rewrite run_ret.
    eexists c, idx, w6, _, s1. split; [done|]. split; [eapply st_ext; [exact Hst6|hold_ext]|].
    split; [done|]. exists r, (pivot_key v), t. rewrite Hgo. done.
  - step (on_node_run _ _ _ _ _ r _ _ _ _ Hst3 ltac:(hold_solve) Hr3 Hright) as w4 Hst4.
    rewrite Z.eqb_refl. cbn [negb]. unfold mwhen. rewrite run_ret.
    step (on_node_run _ _ _ _ _ c _ _ _ _ Hst4 ltac:(hold_solve) Hc3 Hleft) as w5 Hst5.
    rewrite (proj2 (Z.eqb_neq r c)) by done. cbn [negb].
    step (full_unlock_run _ _ _ _ _ c Hst5) as w6 Hst6.
    eexists r, (idx - t), w6, _, s1. split; [done|]. split; [eapply st_ext; [exact Hst6|hold_ext]|].
    split; [done|]. exists r, (pivot_key v), t. rewrite Hgo. done.
Qed.

Lemma defragment_or_split_index_run w cs idx : st w nd (held2 p WRITE c WRITE) s cs →
  ∃ new idx' w' nd' s', btree_defragment_or_split_child_index cfg p i c idx w = Ret ((new, idx'), w') ∧
    st w' nd' (hset new WRITE nothing_held) s' cs ∧ grown cfg s s' cs cs 1 ∧
    room_made nd s s' p i c hp (height hc) lp (roomy cfg) lc.*2 idx nd' new idx'.
Proof using All.
  intros Hst. unfold btree_defragment_or_split_child_index.
  look (peek_hdr _ _ _ _ _ c _ Hst ltac:(unfold held2; hold_solve) Hc).
  rewrite (run_opt _ _ _ _ (index_total_run cfg hc lc Hrc)), (repr_num _ _ _ _ Hrc).
  destruct (Z.ltb_spec (total_size lc.*2 + lengthZ lc * SIZEOF_INDEX_ENTRY) (BTREE_SPLIT_THRESHOLD ps)) as [Hlt|Hge].
  - unfold held2 in *. step (full_unlock_run _ _ _ _ _ p Hst) as w1 Hst1.
    destruct (defragment_index_run cfg hc lc Hrc) as (h' & l' & Hrun & Hr' & Hl' & Hn' & (_ & _ & _ & _ & Hh)); [unfold SIZEOF_BTREE_HDR; lia|].
    step (on_node_run _ _ _ _ _ c _ _ _ _ Hst1 ltac:(hold_solve) Hc Hrun) as w2 Hst2.
    eexists c, idx, w2, _, s. split; [done|]. split; [eapply st_ext; [exact Hst2|hold_ext]|].
    split; [by apply (grown_same cfg)|]. left. split; [done|]. split; [done|]. split; [done|].
    split; [intros b ?; by rewrite lookup_insert_ne|]. exists h', l'. rewrite lookup_insert_eq.
    split; [done|]. split; [done|]. split; [unfold same_pivots; by rewrite Hl', clean_clean_list|]. split; [done|].
    apply (packed_roomy cfg Hps h' l' lc.*2); [|unfold index_space; rewrite lengthZ_fmap; change SIZEOF_INDEX_ENTRY with 23 in Hlt; lia|done].
    by rewrite <-(lengthZ_fmap snd l'), Hl', lengthZ_fmap.
  - destruct (split_index_run w cs idx Hst) as (new & idx' & w' & nd' & s' & H1 & H2 & H3 & H4).
    { unfold index_space. rewrite lengthZ_fmap. change SIZEOF_INDEX_ENTRY with 23 in Hge. lia. }
    exists new, idx', w', nd', s'. split; [done|]. split; [done|]. split; [done|]. by right.
Qed.

(** From the test of fullness on; [need] when the first key is still to be set. *)
Definition finish (k : key) (j : Z) (need : bool) : M (tree_state S) (option (Z * Z)) :=
  h ← peek c mget;
  r ← (if btree_index_is_full cfg h
       then btree_defragment_or_split_child_index cfg p i c j
       else btree_node_full_unlock p;; mret (c, j));
  let '(new_child, next_child_idx) := r : Z * Z in
  (if need : bool then success ← set_min_key new_child k; massert success else mret tt);;
  btree_node_unlock new_child;;
  btree_node_unclaim new_child;;
  mret (Some (new_child, next_child_idx)).
Lemma release_node_run w nd' s' cs new (j : Z) : st w nd' (hset new WRITE nothing_held) s' cs →
  ∃ w', (btree_node_unlock new;; btree_node_unclaim new;; mret (Some (new, j))) w = Ret (Some (new, j), w') ∧
    st w' nd' (hset new READ nothing_held) s' cs.
Proof using.
  intros Hst. destruct (release_run (λ _, mret (Some (new, j))) w nd' _ s' cs new Hst) as (w' & Hrun & Hst'); [apply hset_eq|].
  exists w'. split; [exact Hrun|]. eapply st_ext; [exact Hst'|hold_ext].
Qed.
Lemma finish_run w cs k j (need : bool) : st w nd (held2 p WRITE c WRITE) s cs → short cfg k → key_fits k → lc.*2 ≠ [] →
  (need = true → j = 0 ∧ btree_index_is_full cfg hc = true) →
  ∃ new idx' w' nd' s', finish k j need w = Ret (Some (new, idx'), w') ∧ st w' nd' (hset new READ nothing_held) s' cs ∧
    grown cfg s s' cs cs 1 ∧
    room_made nd s s' p i c hp (height hc) lp (not_full cfg) (if need then set_first k lc.*2 else lc.*2) j nd' new idx'.
Proof using All.
  intros Hst Hk Hf Hnil Hneed. unfold finish. look (peek_hdr _ _ _ _ _ c _ Hst ltac:(unfold held2; hold_solve) Hc).
  destruct (btree_index_is_full cfg hc) eqn:Hfu.
  - destruct (defragment_or_split_index_run w cs j Hst) as (new & idx' & w1 & nd1 & s1 & Hrun & Hst1 & Hg & Hm).
    rewrite (bind_run _ _ _ _ _ Hrun). destruct need.
    + destruct (Hneed eq_refl) as [-> _].
      destruct (room_made_first k nd s s1 p i c hp (height hc) lp lc nd1 new idx' w1 _ cs Hne Hpu Hcu Hnil Hk Hf Hm Hst1)
        as (w2 & nd2 & Hrun2 & Hst2 & Hm2); [apply hset_eq|].
      destruct (release_node_run w2 nd2 s1 cs new idx' Hst2) as (w3 & Hrun3 & Hst3).
      exists new, idx', w3, nd2, s1. split; [|done]. unfold mwhen. rewrite <-Hrun3.
      cbv beta iota. rewrite (bind_run _ _ w1 tt w2); [done|]. by rewrite (bind_run _ _ _ _ _ Hrun2).
    + destruct (release_node_run w1 nd1 s1 cs new idx' Hst1) as (w3 & Hrun3 & Hst3).
      exists new, idx', w3, nd1, s1. split; [exact Hrun3|]. split; [done|]. split; [done|]. by apply room_made_weaken.
  - destruct need; [by destruct (Hneed eq_refl)|]. unfold held2 in Hst.
    destruct (full_unlock_run _ _ _ _ _ p Hst) as (w1 & Hrun & Hst1); [hold_solve|].
    rewrite (bind_run _ _ w (c, j) w1) by by rewrite (bind_run _ _ _ _ _ Hrun).
    destruct (release_node_run w1 nd s cs c j) as (w3 & Hrun3 & Hst3); [eapply st_ext; [exact Hst1|hold_ext]|].
    exists c, j, w3, nd, s. split; [exact Hrun3|]. split; [done|]. split; [by apply (grown_same cfg)|].
    left. do 3 (split; [done|]). split; [done|]. exists hc, lc. apply (index_full_spec cfg _ _ Hrc) in Hfu. done.
Qed.
End defragment_or_split.

(** ** The whole step at one child *)
Section prepare.
Context (nd : gmap Z btree_hdr) (s : S) (p i c : Z) (hp hc : btree_hdr) (lp lc : list (Z * pivot)) (k : key) (r : Z) (found : bool).
Context (Hp : nd !! p = Some hp) (Hrp : node_repr ps hp lp) (Hi : 0 ≤ i < lengthZ lp) (Hfull : not_full cfg hp lp).
Context (Hc : nd !! c = Some hc) (Hrc : node_repr ps hc lc) (Hhc : 0 ≤ height hc < BTREE_MAX_HEIGHT).
Context (Hne : p ≠ c) (Hpu : p ∈ ns_used s) (Hcu : c ∈ ns_used s).
Context (Hsh : short_pivots cfg lc.*2) (Hnil : lc.*2 ≠ []) (Hinv : ns_inv s) (Hroom : ns_room s ≠ 0%nat).
Context (Hk : short cfg k) (Hf : key_fits k) (Hfind : btree_find_pivot cfg k hc = Ret ((r, found), hc)).
(** The child's pivots, the first one lowered to the key, and the index to go to. *)
Definition lowered : list pivot := if r <? 0 then set_first k lc.*2 else lc.*2.
Definition target : Z := Z.max 0 r.
Local Abbreviation made := (λ s' nd' new idx', room_made nd s s' p i c hp (height hc) lp (not_full cfg) lowered target nd' new idx').

(** Both nodes are write-locked. *)
Definition locked : M (tree_state S) (option (Z * Z)) :=
  r ← (if r <? 0 then done ← set_min_key c k; mret (0, negb done) else mret (r, false));
  let '(j, need) := r : Z * bool in finish p i c k j need.
Lemma locked_run w cs : st w nd (held2 p WRITE c WRITE) s cs →
  ∃ new idx' w' nd' s', locked w = Ret (Some (new, idx'), w') ∧
    st w' nd' (hset new READ nothing_held) s' cs ∧ grown cfg s s' cs cs 1 ∧ made s' nd' new idx'.
Proof using All.
  intros Hst. unfold locked, lowered, target. destruct (Z.ltb_spec r 0) as [Hneg|Hpos].
  - rewrite Z.max_l by (clear - Hneg; lia). destruct lc.*2 as [|v vs] eqn:El; [done|].
    destruct (min_key_run w nd _ s cs c hc lc v vs k Hst ltac:(unfold held2; hold_solve) Hc Hrc El Hf) as (b & w1 & h1 & Hrun & Hst1 & Hok).
    rewrite (bind_run _ _ w (0, negb b) w1) by by rewrite (bind_run _ _ _ _ _ Hrun). rewrite <-El in *.
    destruct b; cbn [negb].
    + destruct (set_index_first cfg hc lc v vs k true h1 El eq_refl Hok) as (l1 & Hr1 & Hl1).
      destruct (set_index_links _ _ _ _ _ _ _ Hok) as (_ & _ & _ & _ & Hh1). rewrite <-Hh1 in *.
      destruct (finish_run (<[c := h1]> nd) s p i c hp h1 lp l1) with (w := w1) (cs := cs) (k := k) (j := 0) (need := false)
        as (new & idx' & w' & nd' & s' & H1 & H2 & H3 & H4); try done.
      { by rewrite lookup_insert_ne. }
      { by rewrite lookup_insert_eq. }
      { rewrite Hl1. by apply short_set_first. }
      { rewrite Hl1, El. done. }
      exists new, idx', w', nd', s'. split; [done|]. split; [done|]. split; [done|]. rewrite Hl1 in H4.
      eapply room_made_from; [|exact H4]. intros b ?. by rewrite lookup_insert_ne.
    + rewrite (set_index_no _ _ _ _ _ _ _ Hok eq_refl), insert_id in Hst1 by done.
      destruct (finish_run nd s p i c hp hc lp lc) with (w := w1) (cs := cs) (k := k) (j := 0) (need := true)
        as (new & idx' & w' & nd' & s' & H1 & H2 & H3 & H4); try done; [|by exists new, idx', w', nd', s'].
      intros _. split; [done|]. by eapply min_key_fails.
  - rewrite Z.max_r by done. rewrite run_ret.
    destruct (finish_run nd s p i c hp hc lp lc) with (w := w) (cs := cs) (k := k) (j := r) (need := false)
      as (new & idx' & w' & nd' & s' & H1 & H2 & H3 & H4); try done. by exists new, idx', w', nd', s'.
Qed.

Lemma prepare_child_run w cs : st w nd (held2 p READ c READ) s cs →
  ∃ res w' nd' s' cs', prepare_child cfg p i c k w = Ret (res, w') ∧ grown cfg s s' cs cs' 1 ∧
    match res with
    | None => st w' nd nothing_held s' cs' ∧ s' = s ∧ (failures cs' < failures cs)%nat
    | Some (new, idx') => st w' nd' (hset new READ nothing_held) s' cs' ∧ made s' nd' new idx'
    end.
Proof using All.
  intros Hst. unfold held2 in Hst. unfold prepare_child.
  look (peek_run _ _ _ _ _ c _ _ _ _ Hst ltac:(hold_solve) Hc Hfind). cbn [fst].
  look (peek_hdr _ _ _ _ _ c _ Hst ltac:(hold_solve) Hc).
  destruct ((r <? 0) || btree_index_is_full cfg hc) eqn:Etest.
  - destruct (claim_run _ _ _ _ _ p Hst ltac:(hold_solve)) as (ok & w1 & cs1 & Hrun & Hst1 & Hl & Hless).
    rewrite (bind_run _ _ _ _ _ Hrun). clear Hrun. destruct ok; cbn [negb].
    2: { step (unget_run _ _ _ _ _ p Hst1) as w2 Hst2. step (unget_run _ _ _ _ _ c Hst2) as w3 Hst3.
      exists None, w3, nd, s, cs1. split; [done|]. split; [by apply (grown_same cfg)|].
      split; [eapply st_ext; [exact Hst3|hold_ext]|]. auto. }
    destruct (claim_run _ _ _ _ _ c Hst1 ltac:(hold_solve)) as (ok & w2 & cs2 & Hrun & Hst2 & Hl2 & Hless2).
    rewrite (bind_run _ _ _ _ _ Hrun). clear Hrun. destruct ok; cbn [negb].
    2: { step (unclaim_run _ _ _ _ _ p Hst2) as w3 Hst3. step (unget_run _ _ _ _ _ p Hst3) as w4 Hst4.
      step (unget_run _ _ _ _ _ c Hst4) as w5 Hst5.
      exists None, w5, nd, s, cs2. split; [done|]. split; [apply (grown_same cfg); [done|lia]|].
      split; [eapply st_ext; [exact Hst5|hold_ext]|]. split; [done|]. specialize (Hless2 eq_refl). lia. }
    step (lock_run _ _ _ _ _ p Hst2) as w3 Hst3. step (lock_run _ _ _ _ _ c Hst3) as w4 Hst4.
    destruct (locked_run w4 cs2) as (new & idx' & w' & nd' & s' & Hrun & Hst' & [G1 G2 G3 G4] & Hm);
      [eapply st_ext; [exact Hst4|unfold held2; hold_ext]|].
    exists (Some (new, idx')), w', nd', s', cs2. split; [exact Hrun|]. split; [split; [done|done|done|lia]|]. done.
  - apply orb_false_iff in Etest as [Eneg Efull]. apply Z.ltb_ge in Eneg.
    step (unget_run _ _ _ _ _ p Hst) as w1 Hst1. exists (Some (c, r)), w1, nd, s, cs. split; [done|].
    split; [by apply (grown_same cfg)|]. split; [eapply st_ext; [exact Hst1|hold_ext]|].
    unfold lowered, target. rewrite (proj2 (Z.ltb_ge r 0)), Z.max_r by done. left. do 4 (split; [done|]).
    exists hc, lc. apply (index_full_spec cfg _ _ Hrc) in Efull. done.
Qed.
End prepare.
End runs.
