(* ===== verification/BtreeZoom.v ===== *)
(** * One level down

    What preparing a child for a descent does to the tree: it keeps the tree's
    tuples, and what is then done to the subtree the descent goes to is done to
    the tree. *)
From S2P Require Import Prelude Allocator Bytes DataInternal BtreeNode NodeLayout BtreeLeaf LeafMap BtreeSplit.
From S2P Require Import BtreeIndex BtreePivot Btree BtreeTree BtreeWorld BtreeInsertLeaf BtreeInsertTree BtreePrepare.

(** A list cut before or after one of its elements. *)
Lemma cut_after {A} (l1 l2 : list A) x t : lengthZ l1 < t →
  ∃ m1 m2, l2 = m1 ++ m2 ∧ take (Z.to_nat t) (l1 ++ x :: l2) = l1 ++ x :: m1 ∧ drop (Z.to_nat t) (l1 ++ x :: l2) = m2.
Proof.
  intros Ht. unfold lengthZ in Ht. exists (take (Z.to_nat t - S (length l1)) l2), (drop (Z.to_nat t - S (length l1)) l2).
  split; [by rewrite take_drop|]. replace (Z.to_nat t) with (length l1 + S (Z.to_nat t - S (length l1)))%nat at 1 3 by lia.
  by rewrite take_app_add, drop_app_add.
Qed.
Lemma cut_before {A} (l1 l2 : list A) x t : 0 ≤ t ≤ lengthZ l1 →
  ∃ m1 m2, l1 = m1 ++ m2 ∧ lengthZ m1 = t ∧ take (Z.to_nat t) (l1 ++ x :: l2) = m1 ∧ drop (Z.to_nat t) (l1 ++ x :: l2) = m2 ++ x :: l2.
Proof.
  intros Ht. unfold lengthZ in *. exists (take (Z.to_nat t) l1), (drop (Z.to_nat t) l1).
  split; [by rewrite take_drop|]. split; [rewrite length_take; lia|].
  rewrite take_app_le, drop_app_le by lia. done.
Qed.

Section zoom.
Context {S : Type} `{ns : node_source S} (cfg : btree_config) `{!node_source_laws S (btree_page_size cfg)}.
Context `{!key_order (bt_data_cfg cfg)}.
Local Abbreviation ps := (btree_page_size cfg).
Local Abbreviation cmp := (btree_key_compare cfg).
Context (Hps : 4096 ≤ ps) (key : list Z) (msg : message).
Local Abbreviation K := (USER_KEY key).
Local Abbreviation position := (position cfg key).
Local Abbreviation updated := (updated cfg key msg).
Implicit Types (w : tree_state S) (nd : gmap Z btree_hdr) (s : S) (cs : list bool) (es : list tuple).

(** A change of the tree at [p1] is one of the tree at [p], since [nd] and [s]. *)
Definition zoom nd s n p lo hi es fp pre post nd1 s1 n1 p1 lo1 hi1 es1 fp1 pre1 post1 : Prop :=
  tuple_lookup cfg es K = tuple_lookup cfg es1 K ∧
  ∀ nd2 s2, ns_used s1 ⊆ ns_used s2 →
    (subtree_result cfg nd1 nd2 s1 s2 n1 p1 lo1 hi1 fp1 pre1 post1 (λ es', es' = es1) →
     subtree_result cfg nd nd2 s s2 n p lo hi fp pre post (λ es', es' = es)) ∧
    ∀ unique, subtree_result cfg nd1 nd2 s1 s2 n1 p1 lo1 hi1 fp1 pre1 post1 (updated es1 unique) →
      subtree_result cfg nd nd2 s s2 n p lo hi fp pre post (updated es unique).

Lemma zoom_attempt nd s n p lo hi es fp pre post nd1 s1 n1 p1 lo1 hi1 es1 fp1 pre1 post1 cs cs1 cs2 nd2 s2 r :
  zoom nd s n p lo hi es fp pre post nd1 s1 n1 p1 lo1 hi1 es1 fp1 pre1 post1 →
  ns_used s1 ⊆ ns_used s2 → (failures cs1 ≤ failures cs)%nat →
  attempt_tree cfg key msg cs1 cs2 nd1 nd2 s1 s2 n1 p1 lo1 hi1 es1 fp1 pre1 post1 r →
  attempt_tree cfg key msg cs cs2 nd nd2 s s2 n p lo hi es fp pre post r.
Proof using.
  intros [_ Hz] Hus Hl Ha. destruct (Hz nd2 s2 Hus) as [Hsame Hupd]. destruct r as [|rc unique g]; cbn in *.
  - destruct Ha as [Hless Ha]. split; [lia|by apply Hsame].
  - destruct Ha as (-> & Hg & Ha). split; [done|]. split; [done|by apply Hupd].
Qed.
Lemma position_zoom nd s nd1 s1 n p lo hi i c A v B esA esc esB fpA fpc fpB lsA lsc lsB pre post fp :
  position nd1 s1 n p lo hi i c A v B esA esc esB fpA fpc fpB lsA lsc lsB pre post →
  ns_used s ⊆ ns_used s1 → {[p]} ∪ (fpA ∪ (fpc ∪ fpB)) ⊆ fp ∪ (ns_used s1 ∖ ns_used s) →
  (∀ b, b ∈ ns_used s → b ∉ fp → unlinked <$> nd1 !! b = unlinked <$> nd !! b) →
  zoom nd s (Datatypes.S n) p lo hi (esA ++ esc ++ esB) fp pre post
    nd1 s1 n c (pivot_key v) (bound B hi) esc fpc (pre ++ lsA) (lsB ++ post).
Proof using key_order0 Hps.
  intros Hpos Hus Hfp Hun. split; [apply (pos_lookup Hpos)|]. intros nd2 s2 Hus2. split.
  - intros Hr. eapply (subtree_result_trans cfg Hps); [exact Hus|exact Hus2|exact Hfp|exact Hun|].
    eapply (position_plug cfg Hps key); [exact Hpos|done| |exact Hr]. by intros es' ->.
  - intros unique Hr. eapply (subtree_result_trans cfg Hps); [exact Hus|exact Hus2|exact Hfp|exact Hun|].
    eapply (position_plug cfg Hps key); [exact Hpos|done| |exact Hr]. intros es'. apply (pos_updated Hpos).
Qed.

(** The insertion is at node [p], for its child [c], in a tree with tuples [es]. *)
Definition site nd s n p lo hi i c es fp pre post : Prop :=
  ∃ A v B esA esc esB fpA fpc fpB lsA lsc lsB,
    es = esA ++ esc ++ esB ∧ fp = {[p]} ∪ (fpA ∪ (fpc ∪ fpB)) ∧
    position nd s n p lo hi i c A v B esA esc esB fpA fpc fpB lsA lsc lsB pre post.

(** The child at a position is a tree of its own. *)
Lemma site_below nd s n p lo hi i c A v B esA esc esB fpA fpc fpB lsA lsc lsB pre post hc lc W fpk A2 v2 B2 :
  position nd s (Datatypes.S n) p lo hi i c A v B esA esc esB fpA fpc fpB lsA lsc lsB pre post →
  nd !! c = Some hc → node_repr ps hc lc → height hc = Z.of_nat (Datatypes.S n) → same_pivots lc.*2 W →
  cmp (pivot_key v) (bound W (bound B hi)) ≤ 0 → segs cfg (tree cfg nd n) (bound B hi) W esc fpk lsc → c ∉ fpk →
  fpc = {[c]} ∪ fpk → W = A2 ++ v2 :: B2 → cmp (pivot_key v2) K ≤ 0 → cmp K (bound B2 (bound B hi)) < 0 →
  site nd s n c (pivot_key v) (bound B hi) (lengthZ A2) (child_addr v2) esc fpc (pre ++ lsA) (lsB ++ post).
Proof using key_order0.
  intros Hpos Hc Hr Hh Hs Hlo Hsegs Hcf -> -> Hlow Hhigh.
  destruct (segs_around cfg nd n c (pivot_key v) (bound B hi) hc lc A2 v2 B2 esc fpk lsc Hc Hh Hr Hs Hlo Hsegs Hcf)
    as (esA2 & esc2 & esB2 & fpA2 & fpc2 & fpB2 & lsA2 & lsc2 & lsB2 & Har & -> & -> & ->).
  exists A2, v2, B2, esA2, esc2, esB2, fpA2, fpc2, fpB2, lsA2, lsc2, lsB2. split; [done|]. split; [done|].
  destruct (pos_keys Hpos) as (Hv & Hb & _).
  destruct Hpos as [_ _ _ _ _ (_ & _ & HK) Hch Hlv Hu]. rewrite chain_regroup in Hch, Hlv.
  split; try done.
  - clear - Hu. set_solver.
Qed.

(** The descent goes on at [p1], for its child [idx]: what it then does to the tree at [p1] is done to the tree at [p]. *)
Definition went nd s n p lo hi es fp pre post nd' s' p1 idx : Prop :=
  ∃ lo1 hi1 c1 es1 fp1 pre1 post1, site nd' s' n p1 lo1 hi1 idx c1 es1 fp1 pre1 post1 ∧
    zoom nd s (Datatypes.S (Datatypes.S n)) p lo hi es fp pre post nd' s' (Datatypes.S n) p1 lo1 hi1 es1 fp1 pre1 post1.

(** ** The child's pivots *)
Lemma lowered_path nd n hi vs es fp ls r found : ps < 2 ^ 16 → key_small hi → short cfg K →
  segs cfg (tree cfg nd n) hi vs es fp ls → vs ≠ [] → cmp K hi < 0 → finds cfg (pivot_keys vs) K r found →
  let W := if r <? 0 then set_first K vs else vs in
  segs cfg (tree cfg nd n) hi W es fp ls ∧
  ∃ A v B, W = A ++ v :: B ∧ lengthZ A = Z.max 0 r ∧ cmp (pivot_key v) K ≤ 0 ∧ cmp K (bound B hi) < 0.
Proof using key_order0.
  intros Hw Hhi Hsh Hs Hne Hlt Hf W. pose proof (short_small cfg _ Hw Hsh) as HK.
  destruct (finds_path cfg _ hi vs es fp ls K r found Hw Hhi HK Hs Hne Hlt Hf) as [Hneg Hpos]. subst W.
  destruct (Z.ltb_spec r 0) as [Hr|Hr].
  - specialize (Hneg Hr). rewrite Z.max_l by lia. destruct vs as [|v vs]; [done|]. cbn [bound] in Hneg.
    inversion Hs as [|? ? es1 es2 fp1 fp2 ls1 ls2 HP Hs2 Hd Hc Hk]; subst.
    destruct (segs_bound_le cfg _ _ _ _ _ _ Hw Hhi Hs2) as [Hb _]. pose proof (short_small cfg _ Hw Hk) as Hvk.
    assert (Hle : cmp K (bound vs hi) < 0) by (eapply (cmp_lt_le cfg _ (pivot_key v)); [done..|lia]).
    set (u := mk_pivot K (child_addr v) (pivot_stats v)).
    assert (Eu : child_addr u = child_addr v) by exact (clean_child v).
    split.
    + cbn [set_first]. fold u. constructor; [|done|done|done|done]. rewrite Eu. cbn [pivot_key].
      eapply (tree_weaken cfg); [exact Hvk| | | |exact HP]; [done|done|]. cbn. lia.
    + exists [], u, vs. split; [done|]. split; [done|]. split; [|done].
      cbn [pivot_key u]. pose proof (cmp_flip cfg K K HK HK). subst u. cbn [pivot_key]. lia.
  - split; [done|]. rewrite Z.max_r by lia. by apply Hpos.
Qed.
Lemma lowered_bound vs hi r : vs ≠ [] → bound (if r <? 0 then set_first K vs else vs) hi = if r <? 0 then K else bound vs hi.
Proof using. intros Hne. destruct (r <? 0); [|done]. by destruct vs. Qed.

(** Node [c], not a leaf, was changed: the leaves are the same. *)
Lemma chain_index nd nd' prev ls (P : Z → Prop) : chain nd prev ls →
  (∀ b, P b → ∃ h, nd !! b = Some h ∧ height h ≠ 0) → (∀ b, b ∈ ls → ¬ P b → nd' !! b = nd !! b) → chain nd' prev ls.
Proof using key_order0 Hps.
  intros Hc Hh Hsame. eapply chain_frame; [exact Hc|]. intros b Hb. rewrite Hsame; [done|done|].
  intros HP. destruct (Hh b HP) as (h & Hbh & H0). destruct (chain_leaf _ _ _ _ Hc Hb) as (h' & Hb' & H0' & _). congruence.
Qed.

Lemma same_pivots_bound vs ws hi : same_pivots vs ws → bound vs hi = bound ws hi.
Proof using.
  destruct vs as [|v vs]; [by destruct ws|]. intros (w & ws' & -> & Hw & _)%same_pivots_cons. by apply clean_same in Hw as [? _].
Qed.
Lemma same_pivots_nil vs ws : same_pivots vs ws → ws ≠ [] → vs ≠ [].
Proof using. intros Hs Hne ->. by destruct ws. Qed.
(** A node with the pivots of a sequence of trees is the root of a tree. *)
Lemma has_pivots_tree nd n c Q W lo hi es fpk ls : has_pivots cfg nd c (Z.of_nat (Datatypes.S n)) Q W → W ≠ [] →
  cmp lo (bound W hi) ≤ 0 → segs cfg (tree cfg nd n) hi W es fpk ls → c ∉ fpk →
  tree cfg nd (Datatypes.S n) c lo hi es ({[c]} ∪ fpk) ls.
Proof using key_order0 Hps.
  intros (h & l & Hc & Hr & Hs & Hh & _) Hne Hlo Hsegs Hnin. exists h, l, fpk. do 3 (split; [done|]).
  split; [by eapply same_pivots_nil|]. split; [by rewrite (same_pivots_bound _ _ hi Hs)|]. split; [|done].
  by eapply segs_same.
Qed.
Lemma segs_frame nd nd' n hi vs es fp ls : segs cfg (tree cfg nd n) hi vs es fp ls →
  (∀ b, b ∈ fp → nd' !! b = nd !! b) → segs cfg (tree cfg nd' n) hi vs es fp ls.
Proof using key_order0 Hps.
  intros Hs Hsame. eapply segs_impl; [|exact Hs]. intros. eapply tree_frame; [done|].
  intros b Hb. rewrite Hsame; [done|]. set_solver.
Qed.

Section at_child.
Context nd s n p lo hi i c A v B esA esc esB fpA fpc fpB lsA lsc lsB pre post
  (Hpos : position nd s (Datatypes.S n) p lo hi i c A v B esA esc esB fpA fpc fpB lsA lsc lsB pre post).
Context (hc : btree_hdr) (Hc : nd !! c = Some hc) (Hhc : height hc = Z.of_nat (Datatypes.S n)).
Context (W : list pivot) (fpk : gset Z) (Hlow : cmp (pivot_key v) (bound W (bound B hi)) ≤ 0).
Context (Hsegs : segs cfg (tree cfg nd n) (bound B hi) W esc fpk lsc) (Hcf : c ∉ fpk) (Hfpc : fpc = {[c]} ∪ fpk).
Context (A2 : list pivot) (v2 : pivot) (B2 : list pivot) (HW : W = A2 ++ v2 :: B2).
Context (Hlow2 : cmp (pivot_key v2) K ≤ 0) (Hhigh2 : cmp K (bound B2 (bound B hi)) < 0).
Local Abbreviation fp := ({[p]} ∪ (fpA ∪ (fpc ∪ fpB))).

Lemma child_apart : p ≠ c ∧ c ∈ ns_used s ∧ (c ∉ fpA) ∧ (c ∉ fpB) ∧ fpk ⊆ ns_used s ∧ p ∉ fpk.
Proof using Hpos Hfpc.
  destruct Hpos as [[_ _ _ _ _ _ _ (D1 & D2 & D3) Hroot] _ _ _ _ _ _ _ Hu]. rewrite Hfpc in *.
  clear - D1 D2 D3 Hroot Hu. set_solver.
Qed.

Lemma kept_zoom Q nd' : has_pivots cfg nd' c (Z.of_nat (Datatypes.S n)) Q W → (∀ b, b ≠ c → nd' !! b = nd !! b) →
  site nd' s n c (pivot_key v) (bound B hi) (lengthZ A2) (child_addr v2) esc fpc (pre ++ lsA) (lsB ++ post) ∧
  zoom nd s (Datatypes.S (Datatypes.S n)) p lo hi (esA ++ esc ++ esB) fp pre post
    nd' s (Datatypes.S n) c (pivot_key v) (bound B hi) esc fpc (pre ++ lsA) (lsB ++ post).
Proof using All.
  intros (h & l & Hch & Hr & Hs & Hh & _) Hrest. destruct child_apart as (Hpc & Hcu & HcA & HcB & Hku & _).
  assert (Hsegs' : segs cfg (tree cfg nd' n) (bound B hi) W esc fpk lsc).
  { eapply segs_frame; [exact Hsegs|]. intros b Hb. apply Hrest. intros ->. done. }
  assert (HWn : W ≠ []) by (rewrite HW; by destruct A2).
  assert (Hpos' : position nd' s (Datatypes.S n) p lo hi i c A v B esA esc esB fpA fpc fpB lsA lsc lsB pre post).
  { destruct Hpos as [[(hp & lp & Hp & Hhp & Hrp & Hlp) H2 HA Hct HB H6 H7 H8 H9] E1 E2 E3 E4 E5 Hchain E7 E8]. split; try done.
    - split; try done.
      + exists hp, lp. by rewrite Hrest.
      + eapply segs_frame; [exact HA|]. intros b Hb. apply Hrest. intros ->. done.
      + rewrite E2, Hfpc. eapply has_pivots_tree; try done. by exists h, l.
      + eapply segs_frame; [exact HB|]. intros b Hb. apply Hrest. intros ->. done.
    - eapply (chain_index nd nd' _ _ (λ b, b = c)); [exact Hchain| |intros b _ Hb; by apply Hrest].
      intros b ->. exists hc. split; [done|lia]. }
  split.
  - eapply site_below; try done.
  - eapply position_zoom; [exact Hpos'|done|clear; set_solver|].
    intros b Hb Hnb. rewrite Hrest; [done|]. intros ->. apply Hnb. rewrite Hfpc. clear. set_solver.
Qed.

(** The child was split. *)
Section split.
Context (s' : S) (nd' : gmap Z btree_hdr) (hp : btree_hdr) (lp : list (Z * pivot)) (r : Z) (kp : DataInternal.key) (t : Z).
Context (Hp : nd !! p = Some hp) (Hhp : height hp = Z.of_nat (Datatypes.S (Datatypes.S n))) (Hlp : same_pivots lp.*2 (A ++ v :: B)).
Context (Hgrow : ns_used s ⊆ ns_used s').
Context (Hsplit : index_was_split cfg nd s s' p i c hp (Z.of_nat (Datatypes.S n)) lp (not_full cfg) W nd' r kp t).
Local Abbreviation L := (take (Z.to_nat t) W).
Local Abbreviation R := (drop (Z.to_nat t) W).
Local Abbreviation hi' := (bound B hi).
Local Abbreviation x := (mk_pivot kp r BTREE_PIVOT_STATS_UNKNOWN).

Lemma isplit_same b : b ∈ ns_used s → b ≠ p → b ≠ c → nd' !! b = nd !! b.
Proof using Hsplit.
  intros Hb H1 H2. destruct (isplit_fresh _ _ _ _ _ _ _ _ _ _ _ _ _ _ _ _ Hsplit) as (Hr & _).
  apply (isplit_rest _ _ _ _ _ _ _ _ _ _ _ _ _ _ _ _ Hsplit); [done|done|]. intros ->. done.
Qed.
Lemma isplit_facts : kp = bound R hi' ∧ short cfg kp ∧ key_small kp ∧ cmp (pivot_key v) kp < 0 ∧ cmp kp hi' < 0 ∧ L ≠ [] ∧ R ≠ [].
Proof using All.
  destruct (isplit_pivot _ _ _ _ _ _ _ _ _ _ _ _ _ _ _ _ Hsplit) as (vt & Hvt & Hk).
  pose proof (isplit_cut _ _ _ _ _ _ _ _ _ _ _ _ _ _ _ _ Hsplit) as Ht.
  pose proof (pos_width Hpos) as Hw. destruct (pos_keys Hpos) as (Hv & Hb & _).
  assert (HR : R = vt :: drop (Datatypes.S (Z.to_nat t)) W).
  { apply drop_S. unfold lookupZ in Hvt. by rewrite bool_decide_true in Hvt by lia. }
  assert (HL : L ≠ []). { rewrite HW. destruct (Z.to_nat t) eqn:E; [lia|]. by destruct A2. }
  pose proof Hsegs as Hs. rewrite <-(take_drop (Z.to_nat t) W) in Hs.
  apply segs_app in Hs as (es1 & es2 & fp1 & fp2 & ls1 & ls2 & H1 & H2 & _ & _ & _ & _).
  rewrite HR in H1, H2 |- *. cbn [bound] in *. rewrite Hk in *.
  assert (Hsh : short cfg kp) by (inversion H2; subst; done). pose proof (short_small cfg _ Hw Hsh) as Hks.
  destruct (segs_bound cfg _ _ _ _ _ _ Hw Hb H2) as [_ Hlt2]; [done|]. cbn [bound] in Hlt2. rewrite Hk in Hlt2.
  destruct (segs_bound cfg _ _ _ _ _ _ Hw Hks H1 HL) as [Hbs Hlt1].
  split; [done|]. split; [done|]. split; [done|]. split; [|done].
  eapply (cmp_le_lt cfg _ (bound L kp)); [done|done|done| |done].
  replace (bound L kp) with (bound W hi'); [exact Hlow|].
  rewrite <-(take_drop (Z.to_nat t) W) at 1. rewrite bound_app. by destruct L.
Qed.

(** The two nodes of the split are trees, which part the child's tuples. *)
Lemma isplit_trees : ∃ es1 es2 fp1 fp2 ls1 ls2,
  segs cfg (tree cfg nd' n) kp L es1 fp1 ls1 ∧ segs cfg (tree cfg nd' n) hi' R es2 fp2 ls2 ∧
  tree cfg nd' (Datatypes.S n) c (pivot_key v) kp es1 ({[c]} ∪ fp1) ls1 ∧
  tree cfg nd' (Datatypes.S n) r kp hi' es2 ({[r]} ∪ fp2) ls2 ∧
  fp1 ## fp2 ∧ esc = es1 ++ es2 ∧ fpk = fp1 ∪ fp2 ∧ lsc = ls1 ++ ls2.
Proof using All.
  destruct isplit_facts as (Ek & Hsh & Hks & Hlt1 & Hlt2 & HL & HR). destruct child_apart as (Hpc & Hcu & HcA & HcB & Hku & Hpk).
  assert (Hs : segs cfg (tree cfg nd' n) hi' W esc fpk lsc).
  { eapply segs_frame; [exact Hsegs|]. intros b Hb. apply isplit_same; [auto|intros ->; done|intros ->; done]. }
  assert (Eb : bound W hi' = bound L kp).
  { rewrite <-(take_drop (Z.to_nat t) W) at 1. rewrite bound_app. by destruct L. }
  rewrite <-(take_drop (Z.to_nat t) W) in Hs. apply segs_app in Hs as (es1 & es2 & fp1 & fp2 & ls1 & ls2 & H1 & H2 & Hd & E1 & E2 & E3).
  rewrite <-Ek in H1. exists es1, es2, fp1, fp2, ls1, ls2. split; [done|]. split; [done|].
  destruct (isplit_fresh _ _ _ _ _ _ _ _ _ _ _ _ _ _ _ _ Hsplit) as (Hr & _).
  rewrite E2 in Hcf, Hku. split; [|split; [|done]].
  - eapply has_pivots_tree; [apply (isplit_left _ _ _ _ _ _ _ _ _ _ _ _ _ _ _ _ Hsplit)|done|by rewrite <-Eb|done|set_solver].
  - eapply has_pivots_tree; [apply (isplit_right _ _ _ _ _ _ _ _ _ _ _ _ _ _ _ _ Hsplit)|done| |done|set_solver].
    rewrite <-Ek. pose proof (cmp_flip cfg kp kp Hks Hks). lia.
Qed.
Lemma isplit_chain : chain nd' 0 (pre ++ (lsA ++ lsc ++ lsB) ++ post).
Proof using All.
  destruct Hpos as [_ _ _ _ _ _ Hch Hlv _]. eapply (chain_index nd nd' _ _ (λ b, b = p ∨ b = c)); [exact Hch| |].
  - intros b [-> | ->]; [exists hp|exists hc]; (split; [done|]); lia.
  - intros b Hb Hn. apply isplit_same; [by apply Hlv|intros ->; auto|intros ->; auto].
Qed.
Lemma isplit_around : ∃ es1 es2 fp1 fp2 ls1 ls2, esc = es1 ++ es2 ∧ fpk = fp1 ∪ fp2 ∧ lsc = ls1 ++ ls2 ∧
  segs cfg (tree cfg nd' n) kp L es1 fp1 ls1 ∧ segs cfg (tree cfg nd' n) hi' R es2 fp2 ls2 ∧
  around cfg nd' (Datatypes.S n) p lo hi A v (x :: B) esA es1 (es2 ++ esB) fpA ({[c]} ∪ fp1) (({[r]} ∪ fp2) ∪ fpB) lsA ls1 (ls2 ++ lsB) ∧
  around cfg nd' (Datatypes.S n) p lo hi (A ++ [v]) x B (esA ++ es1) es2 esB (fpA ∪ ({[c]} ∪ fp1)) ({[r]} ∪ fp2) fpB (lsA ++ ls1) ls2 lsB.
Proof using All.
  destruct isplit_trees as (es1 & es2 & fp1 & fp2 & ls1 & ls2 & S1 & S2 & T1 & T2 & Hd & E1 & E2 & E3).
  destruct isplit_facts as (Ek & Hsh & Hks & Hlt1 & Hlt2 & HL & HR). destruct child_apart as (Hpc & Hcu & HcA & HcB & Hku & Hpk).
  destruct (isplit_fresh _ _ _ _ _ _ _ _ _ _ _ _ _ _ _ _ Hsplit) as (Hr & _ & Hr0 & Hal).
  destruct (isplit_parent _ _ _ _ _ _ _ _ _ _ _ _ _ _ _ _ Hsplit) as (hp' & lp' & Hp' & Hrp' & Hhp' & Hlp').
  destruct Hpos as [[_ Hlo HA Hct HB Hlt Hsv (D1 & D2 & D3) Hroot] Hi Hcv _ _ _ _ _ Hu].
  exists es1, es2, fp1, fp2, ls1, ls2. do 3 (split; [done|]). do 2 (split; [done|]).
  assert (HA' : segs cfg (tree cfg nd' (Datatypes.S n)) (pivot_key v) A esA fpA lsA).
  { eapply segs_frame; [exact HA|]. intros b Hb. apply isplit_same; [set_solver|intros ->; set_solver|intros ->; done]. }
  assert (HB' : segs cfg (tree cfg nd' (Datatypes.S n)) hi B esB fpB lsB).
  { eapply segs_frame; [exact HB|]. intros b Hb. apply isplit_same; [set_solver|intros ->; set_solver|intros ->; done]. }
  assert (Hpiv : same_pivots lp'.*2 (A ++ v :: x :: B)) by (rewrite Hlp', <-Hi; by apply same_pivots_insert).
  assert (Hnode : ∃ h l, nd' !! p = Some h ∧ height h = Z.of_nat (Datatypes.S (Datatypes.S n)) ∧ node_repr ps h l ∧
    same_pivots l.*2 (A ++ v :: x :: B)) by (exists hp', lp'; split_and!; try done; congruence).
  assert (Ex : child_addr x = r) by exact Hal.
  rewrite E2 in Hfpc, Hku, Hpk, Hcf. rewrite Hfpc in *. clear E2 Hfpc.
  assert (Hdis : fpA ## {[c]} ∪ fp1 ∧ fpA ## {[r]} ∪ fp2 ∧ {[c]} ∪ fp1 ## {[r]} ∪ fp2 ∧ {[c]} ∪ fp1 ## fpB ∧ {[r]} ∪ fp2 ## fpB ∧
    p ∉ fpA ∪ (({[c]} ∪ fp1) ∪ (({[r]} ∪ fp2) ∪ fpB))).
  { clear - D1 D2 D3 Hroot Hu Hr Hcu Hku Hcf Hd. set_solver. }
  destruct Hdis as (F1 & F2 & F3 & F4 & F5 & F6). split.
  - split; try done.
    + by destruct A.
    + by rewrite Hcv.
    + constructor; [by rewrite Ex|done..].
    + clear - F1 F2 F3 F4 F5 D2. set_solver.
  - split; try done.
    + by rewrite <-app_assoc.
    + rewrite <-app_assoc. by destruct A.
    + apply segs_app. exists esA, es1, fpA, ({[c]} ∪ fp1), lsA, ls1. split; [done|]. split; [|done].
      apply segs_one. rewrite Hcv. done.
    + by rewrite Ex.
    + clear - F1 F2 F3 F4 F5 D2. set_solver.
    + clear - F6. set_solver.
Qed.

Lemma split_zoom : let '(new, idx) := if lengthZ A2 <? t then (c, lengthZ A2) else (r, lengthZ A2 - t) in
  went nd s n p lo hi (esA ++ esc ++ esB) fp pre post nd' s' new idx.
Proof using All.
  destruct isplit_facts as (Ek & Hsh & Hks & Hlt1 & Hlt2 & HL & HR).
  destruct isplit_around as (es1 & es2 & fp1 & fp2 & ls1 & ls2 & Ees & Efp & Els & S1 & S2 & Al & Ar).
  pose proof isplit_chain as Hch. pose proof isplit_same as Hsame.
  pose proof (isplit_cut _ _ _ _ _ _ _ _ _ _ _ _ _ _ _ _ Hsplit) as Ht.
  destruct (isplit_fresh _ _ _ _ _ _ _ _ _ _ _ _ _ _ _ _ Hsplit) as (Hr & Hr' & _ & Hal).
  pose proof (isplit_left _ _ _ _ _ _ _ _ _ _ _ _ _ _ _ _ Hsplit) as (hl & ll & Hl1 & Hl2 & Hl3 & Hl4 & _).
  pose proof (isplit_right _ _ _ _ _ _ _ _ _ _ _ _ _ _ _ _ Hsplit) as (hr & lr & Hr1 & Hr2 & Hr3 & Hr4 & _).
  destruct child_apart as (Hpc & Hcu & HcA & HcB & Hku & Hpk). pose proof (pos_width Hpos) as Hw.
  destruct (pos_keys Hpos) as (Hvs & Hbs & _).
  pose proof Hpos as [Hold Hi Hcv Hlow1 Hhigh1 (Hlo & Hhi & HK) _ Hlv Hu].
  rewrite Efp in Hfpc, Hku, Hcf. rewrite Hfpc in *. rewrite Els in Hch, Hlv.
  assert (Hun : ∀ b, b ∈ ns_used s → b ∉ {[p]} ∪ (fpA ∪ ({[c]} ∪ (fp1 ∪ fp2) ∪ fpB)) → unlinked <$> nd' !! b = unlinked <$> nd !! b).
  { intros b Hb Hnb. rewrite Hsame; [done|done|clear - Hnb; set_solver..]. }
  rewrite HW in *. destruct (Z.ltb_spec (lengthZ A2) t) as [Hlt|Hge].
  - destruct (cut_after A2 B2 v2 t Hlt) as (B1 & B3 & EB & ETL & ETR). rewrite ETL in S1, Hl3. rewrite ETR in Ek.
    assert (HKk : cmp K (bound B1 kp) < 0) by (rewrite EB, bound_app, <-Ek in Hhigh2; done).
    assert (Hpl : position nd' s' (Datatypes.S n) p lo hi i c A v (x :: B) esA es1 (es2 ++ esB) fpA ({[c]} ∪ fp1) (({[r]} ∪ fp2) ∪ fpB)
      lsA ls1 (ls2 ++ lsB) pre post).
    { split; try done.
      - cbn [bound pivot_key]. apply segs_middle in S1 as (? & ? & ? & ? & ? & ? & ? & ? & ? & _ & _ & SB & _).
        destruct (segs_bound_le cfg _ _ _ _ _ _ Hw Hks SB) as [Hbb Hle]. by eapply (cmp_lt_le cfg _ (bound B1 kp)).
      - by rewrite <-!app_assoc in *.
      - intros b Hb. apply Hgrow, Hlv. by rewrite <-!app_assoc in *.
      - clear - Hu Hku Hr' Hgrow Hcu. set_solver. }
    exists (pivot_key v), (bound (x :: B) hi), (child_addr v2), es1, ({[c]} ∪ fp1), (pre ++ lsA), ((ls2 ++ lsB) ++ post). split.
    + eapply site_below; [exact Hpl|exact Hl1|done|done|exact Hl3| |exact S1| |done|done|done|done].
      * cbn [bound pivot_key] in *. rewrite bound_app in *. by destruct A2.
      * clear - Hcf. set_solver.
    + rewrite Ees, <-app_assoc. eapply position_zoom; [exact Hpl|done| |done].
      clear - Hr Hr' Hgrow. set_solver.
  - destruct (cut_before A2 B2 v2 t) as (A1 & A3 & EA & HA1 & ETL & ETR); [lia|]. rewrite ETR in S2, Hr3, Ek.
    assert (HkK : cmp kp K ≤ 0).
    { rewrite Ek, bound_app. cbn [bound]. apply segs_middle in S2 as (? & ? & ? & ? & ? & ? & ? & ? & ? & SA & _ & _ & _ & Hv2 & _).
      pose proof (short_small cfg _ Hw Hv2) as Hv2s.
      destruct (segs_bound_le cfg _ _ _ _ _ _ Hw Hv2s SA) as [Hbb Hle]. by eapply (cmp_le_trans cfg _ (pivot_key v2)). }
    assert (Hpr : position nd' s' (Datatypes.S n) p lo hi (i + 1) r (A ++ [v]) x B (esA ++ es1) es2 esB (fpA ∪ ({[c]} ∪ fp1)) ({[r]} ∪ fp2) fpB
      (lsA ++ ls1) ls2 lsB pre post).
    { split; try done.
      - rewrite lengthZ_app, lengthZ_cons. change (lengthZ []) with 0. lia.
      - by rewrite <-!app_assoc in *.
      - intros b Hb. apply Hgrow, Hlv. by rewrite <-!app_assoc in *.
      - clear - Hu Hku Hr' Hgrow Hcu. set_solver. }
    exists (pivot_key x), (bound B hi), (child_addr v2), es2, ({[r]} ∪ fp2), (pre ++ (lsA ++ ls1)), (lsB ++ post). split.
    + replace (lengthZ A2 - t) with (lengthZ A3) by (rewrite EA, lengthZ_app; lia).
      eapply site_below; [exact Hpr|exact Hr1|done|done|exact Hr3| |exact S2| |done|done|done|done].
      * cbn [bound pivot_key]. rewrite <-Ek. pose proof (cmp_flip cfg kp kp Hks Hks). lia.
      * clear - Hr Hku. set_solver.
    + replace (esA ++ esc ++ esB) with ((esA ++ es1) ++ es2 ++ esB) by (rewrite Ees, <-!app_assoc; done).
      eapply position_zoom; [exact Hpr|done| |done].
      clear - Hr Hr' Hgrow. set_solver.
Qed.
End split.
End at_child.
End zoom.

(** * Insertion

    The descent from an index node to the leaf, the root, and the loop that
    starts over: an insertion returns, and the tree's tuples are those it had
    with the message merged in at its key. *)
Section insert.
Context {S : Type} `{ns : node_source S} (cfg : btree_config) `{!node_source_laws S (btree_page_size cfg)}.
Context `{!key_order (bt_data_cfg cfg)}.
Local Abbreviation ps := (btree_page_size cfg).
Local Abbreviation cmp := (btree_key_compare cfg).
Context (Hps : 4096 ≤ ps) (key : list Z) (msg : message).
Local Abbreviation K := (USER_KEY key).
Local Abbreviation site := (site cfg key).
Local Abbreviation attempt_tree := (attempt_tree cfg key msg).
Implicit Types (w : tree_state S) (nd : gmap Z btree_hdr) (s : S) (cs : list bool) (es : list tuple).

Lemma short_fits k : ps < 2 ^ 16 → short cfg (USER_KEY k) → key_fits (USER_KEY k).
Proof using Hps.
  intros Hw Hk. unfold short in Hk. cbn in Hk |- *. pose proof (lengthZ_nonneg k).
  unfold ONDISK_KEY_POSITIVE_INFINITY. lia.
Qed.

(** The child the descent goes to. *)
Lemma site_child nd s n p lo hi i c es fp pre post : site nd s n p lo hi i c es fp pre post →
  ∃ hp hc, nd !! p = Some hp ∧ btree_get_child_addr hp i = Some c ∧ height hp = Z.of_nat (Datatypes.S n) ∧
    nd !! c = Some hc ∧ height hc = Z.of_nat n ∧ p ≠ c.
Proof using.
  intros (A & v & B & esA & esc & esB & fpA & fpc & fpB & lsA & lsc & lsB & _ & _ & Hpos).
  destruct Hpos as [[(hp & lp & Hp & Hh & Hr & Hl) _ _ Hct _ _ _ _ Hroot] <- <- _ _ _ _ _ _].
  destruct (tree_node cfg _ _ _ _ _ _ _ _ Hct) as (hc & Hc & Hhc). exists hp, hc. split; [done|].
  split; [|split_and!; try done; intros E; rewrite <-E in Hc; rewrite Hp in Hc; injection Hc as <-; lia].
  assert (Hv : lookupZ (clean <$> lp.*2) (lengthZ A) = Some (clean v)).
  { unfold same_pivots in Hl. rewrite Hl, lookupZ_fmap, lookupZ_at_length. done. }
  rewrite !lookupZ_fmap in Hv. destruct (lookupZ lp (lengthZ A)) as [[o v']|] eqn:E; [|done].
  destruct (index_get _ _ _ _ _ _ Hr E) as (_ & _ & _ & Ha & _). rewrite Ha.
  apply (inj Some) in Hv. apply clean_same in Hv as [_ Hv]. by rewrite <-Hv.
Qed.

Lemma prepare_run w nd s cs n p lo hi i c es fp pre post : site nd s (Datatypes.S n) p lo hi i c es fp pre post →
  has_room cfg nd p → short cfg K → st w nd (held2 p READ c READ) s cs → ns_inv s → ns_room s ≠ 0%nat →
  Z.of_nat (Datatypes.S n) < BTREE_MAX_HEIGHT →
  ∃ res w' nd' s' cs', prepare_child cfg p i c K w = Ret (res, w') ∧ grown cfg s s' cs cs' 1 ∧
    match res with
    | None => st w' nd nothing_held s' cs' ∧ s' = s ∧ (failures cs' < failures cs)%nat
    | Some (p1, idx) => st w' nd' (hset p1 READ nothing_held) s' cs' ∧ has_room cfg nd' p1 ∧
        went cfg key msg nd s n p lo hi es fp pre post nd' s' p1 idx
    end.
Proof using Hps key_order0.
  intros (A & v & B & esA & esc & esB & fpA & fpc & fpB & lsA & lsc & lsB & -> & -> & Hpos) (hp & Hp & Hfull) Hsh Hst Hinv Hroom Hn.
  pose proof (pos_width Hpos) as Hw. destruct (pos_keys Hpos) as (Hvs & Hbs & _). pose proof (short_small cfg _ Hw Hsh) as HK.
  pose proof Hpos as [[(hp' & lp & Hp' & Hhp & Hrp & Hlp) _ _ Hct _ _ _ (D1 & D2 & D3) Hroot] Hi Hcv Hlow Hhigh _ _ _ Hu].
  rewrite Hp in Hp'. injection Hp' as <-. rewrite Hcv in Hct.
  destruct Hct as (hc & lc & fpk & Hc & Hhc & Hrc & Hne & Hlo & Hsegs & Hck & Efp). rewrite Efp in D1, D3, Hroot, Hu.
  destruct (segs_pivots cfg _ _ _ _ _ _ Hw Hbs Hsegs) as [Hsort Hshort].
  destruct (find_pivot_run ps cfg hc lc K Hrc Hsort HK) as (r & found & Hfind & Hfinds).
  destruct (lowered_path cfg key nd n (bound B hi) lc.*2 esc fpk lsc r found Hw Hbs Hsh Hsegs Hne Hhigh Hfinds)
    as (HsegsW & A2 & v2 & B2 & HW & HA2 & Hlow2 & Hhigh2).
  assert (Hpc : p ≠ c) by (intros ->; clear - Hroot; set_solver).
  assert (Hil : 0 ≤ i < lengthZ lp).
  { pose proof (same_pivots_length _ _ Hlp) as HL. rewrite lengthZ_fmap, lengthZ_app, lengthZ_cons in HL.
    pose proof (lengthZ_nonneg A). pose proof (lengthZ_nonneg B). lia. }
  assert (Hshp : short_pivots cfg lc.*2).
  { unfold short_pivots. rewrite list.Forall_forall in Hshort. apply list.Forall_forall. intros u Hu'.
    apply Hshort. unfold pivot_keys. apply list_elem_of_fmap. by exists u. }
  apply (index_full_spec cfg _ _ Hrp) in Hfull.
  destruct (prepare_child_run cfg Hps nd s p i c hp hc lp lc K r found Hp Hrp Hil Hfull Hc Hrc) with (w := w) (cs := cs)
    as (res & w' & nd' & s' & cs' & Hrun & Hg & Hres); try done.
  { rewrite Hhc. lia. }
  { clear - Hu. set_solver. }
  { clear - Hu. set_solver. }
  { by apply short_fits. }
  exists res, w', nd', s', cs'. split; [done|]. split; [done|]. destruct res as [[p1 idx]|]; [|done].
  destruct Hres as (Hst' & Hm). split; [done|]. unfold lowered, target in Hm. rewrite Hhc in Hm.
  set (W := if r <? 0 then set_first K lc.*2 else lc.*2) in *.
  assert (HlowW : cmp (pivot_key v) (bound W (bound B hi)) ≤ 0).
  { unfold W. rewrite (lowered_bound key) by done. by destruct (r <? 0). }
  destruct Hm as [(-> & -> & -> & Hrest & Hhas)|(rr & kp & t & Hsplit & E)].
  - split.
    + destruct Hhas as (h & l & Hc' & Hr' & _ & _ & Hq). exists h. split; [done|]. by apply (index_full_spec cfg _ l).
    + destruct (kept_zoom cfg Hps key msg nd s n p lo hi i c A v B esA esc esB fpA fpc fpB lsA lsc lsB pre post Hpos hc Hc Hhc W fpk
        HlowW HsegsW Hck Efp A2 v2 B2 HW Hlow2 Hhigh2 _ nd' Hhas Hrest) as [Hsite Hzoom].
      rewrite HA2 in Hsite. eexists _, _, _, _, _, _, _. split; [exact Hsite|exact Hzoom].
  - pose proof (split_zoom cfg Hps key msg nd s n p lo hi i c A v B esA esc esB fpA fpc fpB lsA lsc lsB pre post Hpos hc Hc Hhc W fpk
      HlowW HsegsW Hck Efp A2 v2 B2 HW Hlow2 Hhigh2 s' nd' hp lp rr kp t Hp Hhp Hlp (grown_used _ _ _ _ _ _ Hg) Hsplit) as Hz.
    rewrite HA2 in Hz. destruct (Z.max 0 r <? t); injection E as -> ->; (split; [|exact Hz]).
    + destruct (isplit_left _ _ _ _ _ _ _ _ _ _ _ _ _ _ _ _ Hsplit) as (h & l & Hc' & Hr' & _ & _ & Hq). exists h. split; [done|]. by apply (index_full_spec cfg _ l).
    + destruct (isplit_right _ _ _ _ _ _ _ _ _ _ _ _ _ _ _ _ Hsplit) as (h & l & Hc' & Hr' & _ & _ & Hq). exists h. split; [done|]. by apply (index_full_spec cfg _ l).
Qed.

(** ** The descent *)
Lemma grown_trans s s1 s2 cs cs1 cs2 n1 n2 : grown cfg s s1 cs cs1 n1 → grown cfg s1 s2 cs1 cs2 n2 →
  grown cfg s s2 cs cs2 (n1 + n2).
Proof using Hps key_order0. intros [A1 A2 A3 A4] [B1 B2 B3 B4]. split; [done|set_solver|lia|lia]. Qed.

Lemma descend_run n : ∀ w nd s cs p lo hi i c es fp pre post, site nd s n p lo hi i c es fp pre post → has_room cfg nd p →
  new_ok cfg key msg es → st w nd (held2 p READ c READ) s cs → ns_inv s → (n < ns_room s)%nat →
  Z.of_nat n < BTREE_MAX_HEIGHT →
  ∃ r w' nd' s' cs', descend cfg n p i c K msg w = Ret (r, w') ∧ st w' nd' nothing_held s' cs' ∧
    grown cfg s s' cs cs' (Datatypes.S n) ∧ attempt_tree cs cs' nd nd' s s' (Datatypes.S n) p lo hi es fp pre post r.
Proof using Hps key_order0.
  induction n as [|n IH]; intros w nd s cs p lo hi i c es fp pre post Hsite Hhas Hnew Hst Hinv Hroom Hn.
  - destruct (site_child _ _ _ _ _ _ _ _ _ _ _ _ Hsite) as (_ & hc & _ & _ & _ & Hc & _).
    destruct Hsite as (A & v & B & esA & esc & esB & fpA & fpc & fpB & lsA & lsc & lsB & -> & -> & Hpos).
    apply (insert_at_leaf cfg Hps key msg nd s p lo hi i c A v B esA esc esB fpA fpc fpB lsA lsc lsB pre post Hpos hc Hc); try done. lia.
  - cbn [descend]. pose proof (new_sized _ _ _ _ Hnew) as [Hsh _].
    destruct (prepare_run w nd s cs n p lo hi i c es fp pre post Hsite Hhas Hsh Hst Hinv) as (res & w1 & nd1 & s1 & cs1 & Hrun & Hg & Hres);
      [lia|done|]. rewrite (bind_run _ _ _ _ _ Hrun). destruct res as [[p1 idx]|].
    + destruct Hres as (Hst1 & Hhas1 & lo1 & hi1 & c1 & es1 & fp1 & pre1 & post1 & Hsite1 & Hzoom).
      destruct (site_child _ _ _ _ _ _ _ _ _ _ _ _ Hsite1) as (hp & hc & Hp & Hchild & _ & Hc & _ & Hne).
      look (peek_hdr _ _ _ _ _ p1 _ Hst1 ltac:(by rewrite hset_eq) Hp). rewrite (run_opt _ _ _ _ Hchild).
      step (get_run _ _ _ _ _ c1 _ Hst1 Hc) as w2 Hst2.
      assert (Hroom1 : (n < ns_room s1)%nat) by (pose proof (grown_room _ _ _ _ _ _ Hg); lia).
      destruct (IH w2 nd1 s1 cs1 p1 lo1 hi1 idx c1 es1 fp1 pre1 post1 Hsite1 Hhas1) as (r & w3 & nd3 & s3 & cs3 & Hrun3 & Hst3 & Hg3 & Ha3).
      { eapply new_ok_same; [|exact Hnew]. apply Hzoom. }
      { eapply st_ext; [exact Hst2|]. unfold held2. hold_ext. }
      { apply (grown_inv _ _ _ _ _ _ Hg). }
      { done. }
      { lia. }
      exists r, w3, nd3, s3, cs3. split; [done|]. split; [done|]. split; [exact (grown_trans _ _ _ _ _ _ 1 _ Hg Hg3)|].
      eapply zoom_attempt; [exact Hzoom|apply (grown_used _ _ _ _ _ _ Hg3)|apply (grown_claims _ _ _ _ _ _ Hg)|exact Ha3].
    + destruct Hres as (Hst1 & -> & Hless). exists StartOver, w1, nd, s, cs1. split; [done|]. split; [done|].
      split; [apply (grown_same cfg); [done|lia]|]. split; [done|].
      destruct Hsite as (A & v & B & esA & esc & esB & fpA & fpc & fpB & lsA & lsc & lsB & -> & -> & [Har _ _ _ _ _ Hch Hlv Hu]).
      eapply (unchanged_result cfg Hps); [by eapply (around_tree cfg)|done..].
Qed.
End insert.
