(* ===== verification/BtreeInsertLoop.v ===== *)
(** * The root

    A root that is full keeps its address and gets a level more: its contents
    move to a new node, its only child. *)
From S2P Require Import Prelude Allocator Bytes DataInternal BtreeNode NodeLayout BtreeLeaf LeafMap BtreeSplit.
From S2P Require Import BtreeIndex BtreePivot Btree BtreeTree BtreeWorld BtreeInsertLeaf BtreeInsertTree BtreePrepare.
From S2P Require Import BtreeZoom.

Section root.
Context {S : Type} `{ns : node_source S} (cfg : btree_config) `{!node_source_laws S (btree_page_size cfg)}.
Context `{!key_order (bt_data_cfg cfg)}.
Local Abbreviation ps := (btree_page_size cfg).
Local Abbreviation cmp := (btree_key_compare cfg).
Context (Hps : 4096 ≤ ps).
Implicit Types (w : tree_state S) (nd : gmap Z btree_hdr) (s : S) (cs : list bool) (es : list tuple).

(** What growing leaves: [c] has what the root [hr] had, which has [c] for its only child. *)
Record root_grown nd s s' (root : Z) (hr : btree_hdr) (k0 : key) (nd' : gmap Z btree_hdr) (c : Z) : Prop := {
  grown_fresh : (c ∉ ns_used s) ∧ ns_used s' = {[c]} ∪ ns_used s ∧ 0 < c < 2 ^ 64 ∧ Z.land c (Z.lnot 4095) = c;
  grown_child : nd' !! c = Some hr;
  grown_node : has_pivots cfg nd' root (height hr + 1) (roomy cfg) [mk_pivot k0 c BTREE_PIVOT_STATS_UNKNOWN];
  grown_rest b : b ≠ root → b ≠ c → nd' !! b = nd !! b;
}.

Lemma grow_root_run w nd s cs root hr k0 : st w nd (hset root WRITE nothing_held) s cs → nd !! root = Some hr →
  lengthZ (page hr) = ps → ps < 2 ^ 16 → root ∈ ns_used s → ns_inv s → ns_room s ≠ 0%nat →
  0 ≤ height hr → height hr < BTREE_MAX_HEIGHT → short cfg k0 → key_fits k0 →
  (if btree_height hr =? 0 then btree_get_tuple_key hr 0 else btree_get_pivot hr 0) = Some k0 →
  ∃ c w' nd' s', btree_grow_root cfg root w = Ret (tt, w') ∧ st w' nd' (hset root WRITE nothing_held) s' cs ∧
    grown cfg s s' cs cs 1 ∧ root_grown nd s s' root hr k0 nd' c.
Proof using Hps key_order0.
  intros Hst Hroot HL Hw Hru Hinv Hroom Hh0 Hh8 Hk Hf Hkey. unfold btree_grow_root.
  look (peek_hdr _ _ _ _ _ root _ Hst ltac:(hold_solve) Hroot). unfold btree_height in *.
  destruct (alloc_run w nd _ s cs (height hr) Hst Hinv (conj Hh0 Hh8) Hroom)
    as (c & w1 & s1 & Hrun & Hst1 & Hinv1 & Hfresh & Hused & Hroom1 & Hc0 & Hal).
  rewrite (bind_run _ _ _ _ _ Hrun). clear Hrun. assert (Hrc : root ≠ c) by (intros ->; done).
  step (on_node_run _ _ _ _ _ c (mput hr) (ns_garbage c) tt hr Hst1 ltac:(hold_solve) (lookup_insert_eq _ _ _) eq_refl) as w2 Hst2.
  step (unlock_run _ _ _ _ _ c Hst2) as w3 Hst3. step (unclaim_run _ _ _ _ _ c Hst3) as w4 Hst4.
  set (nd4 := <[c := hr]> (<[c := ns_garbage c]> nd)) in *.
  assert (Hr4 : nd4 !! root = Some hr) by (unfold nd4; by rewrite !lookup_insert_ne).
  step (on_node_run _ _ _ _ _ root (mmod (btree_reset_node_entries cfg)) hr tt _ Hst4 ltac:(hold_solve) Hr4 eq_refl) as w5 Hst5.
  step (on_node_run _ _ _ _ _ root (mmod btree_increment_height) _ tt _ Hst5 ltac:(hold_solve) (lookup_insert_eq _ _ _) eq_refl) as w6 Hst6.
  set (h1 := btree_increment_height (btree_reset_node_entries cfg hr)) in *.
  set (nd6 := <[root := h1]> (<[root := btree_reset_node_entries cfg hr]> nd4)) in *.
  assert (Hc6 : nd6 !! c = Some hr) by (unfold nd6, nd4; rewrite !lookup_insert_ne, lookup_insert_eq by done; done).
  look (peek_hdr _ _ _ _ _ c _ Hst6 ltac:(hold_solve) Hc6). unfold btree_height. rewrite (run_opt _ _ _ _ Hkey).
  destruct (reset_index_repr cfg hr HL) as [Hr0 Hn0]; [unfold SIZEOF_BTREE_HDR; lia|].
  assert (Hr1 : node_repr ps h1 ([] : list (Z * pivot))) by (eapply repr_same_page; [..|exact Hr0]; done).
  assert (Hn1 : next_entry h1 = ps) by exact Hn0.
  set (v := mk_pivot k0 c BTREE_PIVOT_STATS_UNKNOWN).
  assert (Hok : pivot_ok v).
  { split; [done|]. split; [cbn; lia|]. unfold v, stats_fit, BTREE_PIVOT_STATS_UNKNOWN, BTREE_UNKNOWN_COUNTER. cbn. lia. }
  destruct (set_index_run ps h1 [] 0 v Hr1) as (b & h2 & Hset & [Hlinks Hb _ _ Hrep Hend]); [done|done|].
  assert (Hkl : key_length k0 ≤ ps / 20) by (unfold short in Hk; apply Z.div_le_lower_bound; lia).
  pose proof (Z.mul_div_le ps 20 ltac:(lia)). pose proof (Z.mul_div_le ps 8 ltac:(lia)).
  assert (Hbt : b = true).
  { apply Hb. apply Z.leb_le. rewrite Hn1. unfold index_slots_after, pivot_size, v. cbn [pivot_key]. change (0 <? lengthZ (@nil (Z * pivot))) with false. cbv iota. table_lia. }
  subst b. destruct (Hrep eq_refl) as (l2 & Hr2 & Hl2). specialize (Hend eq_refl eq_refl).
  assert (Hroot6 : nd6 !! root = Some h1) by apply lookup_insert_eq.
  step (on_node_run _ _ _ _ _ root _ _ _ _ Hst6 ltac:(hold_solve) Hroot6 Hset) as w7 Hst7. rewrite run_assert by done.
  destruct (unget_run _ _ _ _ _ c Hst7) as (w8 & Hrun & Hst8); [hold_solve|].
  exists c, w8, (<[root := h2]> nd6), s1. split; [exact Hrun|]. split; [eapply st_ext; [exact Hst8|hold_ext]|].
  split; [split; [done|rewrite Hused; set_solver|lia|done]|]. split.
  - done.
  - by rewrite lookup_insert_ne.
  - exists h2, l2. rewrite lookup_insert_eq. split; [done|]. split; [done|].
    assert (El : l2.*2 = [v]) by exact Hl2.
    split; [by rewrite El|]. split.
    + destruct Hlinks as (_ & _ & _ & _ & ->). cbn. apply u8_small. unfold BTREE_MAX_HEIGHT in Hh8. lia.
    + assert (HL2 : lengthZ l2 = 1) by (rewrite <-(lengthZ_fmap snd l2), El; done).
      unfold roomy. rewrite HL2, Hend, Hn1. unfold pivot_size, v, MAX_INLINE_KEY_SIZE. cbn. table_lia.
  - intros b H1 H2. unfold nd6, nd4. by rewrite !lookup_insert_ne.
Qed.

(** ** The tree under the root *)
(** The tree at [root] has tuples [es]; its pages are the allocator's. *)
Record btree_at nd s (root : Z) (n : nat) es (fp : gset Z) (ls : list Z) : Prop := {
  bt_tree : tree cfg nd n root NEGATIVE_INFINITY_KEY POSITIVE_INFINITY_KEY es fp ls;
  bt_chain : chain nd 0 ls;
  bt_used : fp ⊆ ns_used s;
}.
(** The first key of a node, as growing the root reads it. *)
Definition first_key nd (root : Z) (n : nat) hr es (k0 : key) : Prop :=
  (if btree_height hr =? 0 then btree_get_tuple_key hr 0 else btree_get_pivot hr 0) = Some k0 ∧ short cfg k0 ∧ key_fits k0 ∧
  ∀ lo' nd' c fp ls, key_small lo' → cmp lo' k0 ≤ 0 → tree cfg nd n root NEGATIVE_INFINITY_KEY POSITIVE_INFINITY_KEY es fp ls →
    nd' !! c = Some hr → (∀ b, b ∈ fp → b ≠ root → nd' !! b = nd !! b) → c ∉ fp →
    ∃ ls', tree cfg nd' n c lo' POSITIVE_INFINITY_KEY es ({[c]} ∪ fp ∖ {[root]}) ls' ∧
      ls' = if n is O then [c] else ls.

Lemma infinite_small : key_small NEGATIVE_INFINITY_KEY ∧ key_small POSITIVE_INFINITY_KEY.
Proof using. split; cbv; done. Qed.

Lemma first_key_leaf nd root hr (l : list (Z * tuple)) e es : nd !! root = Some hr → height hr = 0 → node_repr ps hr l →
  l.*2 = e :: es → sorted_tuples cfg (e :: es) → sized cfg e → first_key nd root 0 hr (e :: es) (USER_KEY e.1).
Proof using Hps key_order0.
  intros Hroot Hh Hr Hl Hs [Hsh _]. pose proof (repr_width _ _ _ _ Hr) as Hw. split; [|split; [done|split; [by eapply short_fits|]]].
  - unfold btree_height. rewrite Hh, Z.eqb_refl.
    destruct (repr_holds_tuples ps hr l Hr 0 e) as (Hg & _); [by rewrite Hl|]. exact Hg.
  - intros lo' nd' c fp ls Hlo Hle (h & l' & Ha & _ & Hr' & Hl' & _ & Hin & Hsz & -> & ->) Hc Hrest Hnc.
    rewrite Hroot in Ha. injection Ha as <-. exists [c]. split; [|done].
    exists hr, l'. split; [done|]. split; [done|]. split; [done|]. split; [done|]. split; [done|].
    split; [|split; [done|split; [clear; set_solver|done]]].
    pose proof (short_small cfg _ Hw Hsh) as Hks.
    unfold all_in_range in *. rewrite list.Forall_forall in Hin |- *. intros x Hx. split; [|by apply Hin].
    pose proof (sized_small cfg _ Hw Hsz) as Hsm. rewrite list.Forall_forall in Hsm. pose proof (Hsm x Hx) as Hxs.
    eapply (cmp_le_trans cfg _ (USER_KEY e.1)); [done|done|done|done|].
    apply elem_of_cons in Hx as [->|Hx].
    + pose proof (cmp_flip cfg _ _ Hks Hks). lia.
    + apply list_elem_of_lookup in Hx as [j Hj].
      assert (cmp (USER_KEY e.1) (USER_KEY x.1) < 0); [|lia]. apply (Hs 0 (1 + Z.of_nat j)); [lia|done|].
      rewrite lookupZ_tuple_keys, lookupZ_cons_S by lia. unfold lookupZ. rewrite bool_decide_true by lia.
      replace (Z.to_nat (1 + Z.of_nat j - 1)) with j by lia. by rewrite Hj.
Qed.
Lemma first_key_index nd root m hr (l : list (Z * pivot)) v vs es : nd !! root = Some hr → height hr = Z.of_nat (Datatypes.S m) →
  node_repr ps hr l → l.*2 = v :: vs → short cfg (pivot_key v) → first_key nd root (Datatypes.S m) hr es (pivot_key v).
Proof using Hps key_order0.
  intros Hroot Hh Hr Hl Hsh. pose proof (repr_width _ _ _ _ Hr) as Hw.
  destruct l as [|[o v'] l']; [done|]. injection Hl as -> Hl.
  destruct (index_get ps hr ((o, v) :: l') 0 o v Hr) as (_ & _ & Hk & _ & _ & _ & _ & _ & (Hf & _)); [done|].
  split; [|split; [done|split; [done|]]].
  - unfold btree_height. rewrite Hh, (proj2 (Z.eqb_neq _ _)) by lia. done.
  - intros lo' nd' c fp ls Hlo Hle (h & l2 & fp2 & Ha & _ & Hr2 & Hne & _ & Hs & Hnr & ->) Hc Hrest Hnc.
    rewrite Hroot in Ha. injection Ha as <-. exists ls. split; [|done].
    assert (Hk2 : bound l2.*2 POSITIVE_INFINITY_KEY = pivot_key v).
    { destruct l2 as [|[o2 v2] l2]; [done|].
      destruct (index_get ps hr _ 0 o2 v2 Hr2) as (_ & _ & Hk2 & _); [done|]. cbn. congruence. }
    assert (Efp : {[c]} ∪ ({[root]} ∪ fp2) ∖ {[root]} = {[c]} ∪ fp2) by (clear - Hnr; set_solver).
    rewrite Efp. exists hr, l2, fp2. do 4 (split; [done|]). split; [by rewrite Hk2|]. split; [|split; [clear - Hnc; set_solver|done]].
    eapply (segs_frame cfg Hps); [exact Hs|]. intros b Hb. apply Hrest; [clear - Hb; set_solver|]. intros ->. done.
Qed.

(** A root whose pivots are [W], on the way to a key. *)
Lemma root_site key nd s root n W es fpk ls Q A v B : has_pivots cfg nd root (Z.of_nat (Datatypes.S n)) Q W →
  segs cfg (tree cfg nd n) POSITIVE_INFINITY_KEY W es fpk ls → root ∉ fpk → chain nd 0 ls → {[root]} ∪ fpk ⊆ ns_used s →
  W = A ++ v :: B → cmp (pivot_key v) (USER_KEY key) ≤ 0 → cmp (USER_KEY key) (bound B POSITIVE_INFINITY_KEY) < 0 →
  key_small (USER_KEY key) → ps < 2 ^ 16 →
  site cfg key nd s n root NEGATIVE_INFINITY_KEY POSITIVE_INFINITY_KEY (lengthZ A) (child_addr v) es ({[root]} ∪ fpk) [] [].
Proof using key_order0.
  intros (h & l & Hroot & Hr & Hs & Hh & _) Hsegs Hnin Hch Hu -> Hlow Hhigh HK Hw. destruct infinite_small as [Hneg Hpos].
  destruct (segs_around cfg nd n root NEGATIVE_INFINITY_KEY POSITIVE_INFINITY_KEY h l A v B es fpk ls Hroot Hh Hr Hs)
    as (esA & esc & esB & fpA & fpc & fpB & lsA & lsc & lsB & Har & -> & -> & ->); [|done|done|].
  { destruct (segs_bound cfg _ _ _ _ _ _ Hw Hpos Hsegs) as [Hb Hlt]; [by destruct A|].
    destruct (bound (A ++ v :: B) POSITIVE_INFINITY_KEY); cbn; lia. }
  exists A, v, B, esA, esc, esB, fpA, fpc, fpB, lsA, lsc, lsB. split; [done|]. split; [done|]. split; try done.
  - by rewrite app_nil_l, app_nil_r.
  - intros b Hb. rewrite app_nil_l, app_nil_r in Hb. apply Hu.
    assert (Hb' : b ∈ fpA ∪ (fpc ∪ fpB)); [|clear - Hb'; set_solver].
    eapply (segs_leaves_in cfg _ _ _ _ _ _ Hsegs); [|done]. intros. by eapply (tree_leaves_in cfg nd n).
Qed.

(** The tree after the root has grown, the only pivot being [v]. *)
Lemma grown_site key nd s s' root n es fp ls hr k0 nd1 c nd2 v Q : btree_at nd s root n es fp ls →
  nd !! root = Some hr → first_key nd root n hr es k0 → root_grown nd s s' root hr k0 nd1 c → height hr = Z.of_nat n →
  has_pivots cfg nd2 root (Z.of_nat (Datatypes.S n)) Q [v] → (∀ b, b ≠ root → nd2 !! b = nd1 !! b) → child_addr v = c →
  ps < 2 ^ 16 → cmp (pivot_key v) k0 ≤ 0 → short cfg (pivot_key v) → cmp (pivot_key v) (USER_KEY key) ≤ 0 →
  cmp (pivot_key v) POSITIVE_INFINITY_KEY < 0 → key_small (USER_KEY key) →
  ∃ fp', site cfg key nd2 s' n root NEGATIVE_INFINITY_KEY POSITIVE_INFINITY_KEY 0 c es fp' [] [].
Proof using key_order0 Hps.
  intros [Ht Hch Hu] Hroot (_ & _ & _ & Hchild) [(Hc1 & Hus & Hc0 & _) Hcn _ Hrest] Hh Hhas Hsame Hcv Hw Hle Hsh HvK Hk HK.
  assert (Hrin : root ∈ fp) by by eapply tree_root_in.
  assert (Hrc : root ≠ c) by (intros ->; clear - Hrin Hu Hc1; set_solver).
  assert (Hcf : c ∉ fp) by (clear - Hu Hc1; set_solver).
  destruct (Hchild (pivot_key v) nd2 c fp ls) as (ls' & Htc & Els); [by apply (short_small cfg)|done|done|by rewrite Hsame| |done|].
  { intros b Hb Hbr. rewrite Hsame by done. apply Hrest; [done|]. intros ->. done. }
  eexists. rewrite <-Hcv in Htc |- *. eapply (root_site key nd2 s' root n [v] es _ ls' Q [] v []); try done.
  - apply segs_one. done.
  - rewrite Hcv. clear - Hrc. set_solver.
  - subst ls'. destruct n as [|n].
    + destruct Ht as (h & l & Hroot2 & _ & _ & _ & _ & _ & _ & _ & ->). destruct Hch as ((h' & Hr' & Hh' & Hp' & Hn') & _).
      rewrite Hroot in Hr'. injection Hr' as <-. split; [|split; [lia|split; [clear; set_solver|done]]].
      exists hr. rewrite Hsame by done. done.
    + eapply (chain_index cfg Hps nd nd2 _ _ (λ b, b = root)); [exact Hch|intros b ->; exists hr; split; [done|lia]|].
      intros b Hb Hbr. rewrite Hsame by done. apply Hrest; [done|]. intros ->. apply Hcf. by eapply (tree_leaves_in cfg).
  - rewrite Hcv, Hus. clear - Hu Hrin. set_solver.
Qed.

(** ** Preparing the root *)
Section prepare_root.
Context (key : list Z) (root : Z) (n : nat).
Local Abbreviation K := (USER_KEY key).
Context (HK : short cfg K) (Hw : ps < 2 ^ 16) (Hn : Z.of_nat (Datatypes.S n) < BTREE_MAX_HEIGHT).

(** From the test of fullness on; [need] when the first key is still to be set. *)
Definition finish_root (child_idx : Z) (need : bool) : M (tree_state S) (option Z) :=
  h ← peek root mget;
  child_idx ← (if btree_index_is_full cfg h then btree_grow_root cfg root;; mret 0 else mret child_idx);
  (if need : bool then success ← set_min_key root K; massert success else mret tt);;
  btree_node_unlock root;;
  btree_node_unclaim root;;
  mret (Some child_idx).
Lemma release_root_run w nd s cs (j : Z) : st w nd (hset root WRITE nothing_held) s cs →
  ∃ w', (btree_node_unlock root;; btree_node_unclaim root;; mret (Some j)) w = Ret (Some j, w') ∧
    st w' nd (hset root READ nothing_held) s cs.
Proof using.
  intros Hst. destruct (release_run (λ _, mret (Some j)) w nd _ s cs root Hst) as (w' & Hrun & Hst'); [apply hset_eq|].
  exists w'. split; [exact Hrun|]. eapply st_ext; [exact Hst'|hold_ext].
Qed.
Lemma user_small : key_small K.
Proof using HK Hw. by apply (short_small cfg). Qed.
Lemma user_below : cmp K POSITIVE_INFINITY_KEY < 0.
Proof using. done. Qed.

(** The root is ready: the insertion is at it. *)
Definition ready nd s idx es : Prop :=
  has_room cfg nd root ∧ ∃ n' c fp, (n ≤ n' ≤ Datatypes.S n)%nat ∧
    site cfg key nd s n' root NEGATIVE_INFINITY_KEY POSITIVE_INFINITY_KEY idx c es fp [] [].

Lemma finish_root_run w nd s cs hr l es fp0 ls r (need : bool) A v B :
  st w nd (hset root WRITE nothing_held) s cs → nd !! root = Some hr → height hr = Z.of_nat (Datatypes.S n) → node_repr ps hr l →
  segs cfg (tree cfg nd n) POSITIVE_INFINITY_KEY l.*2 es fp0 ls → root ∉ fp0 → chain nd 0 ls → {[root]} ∪ fp0 ⊆ ns_used s →
  l.*2 = A ++ v :: B → lengthZ A = r →
  (need = true → A = [] ∧ btree_index_is_full cfg hr = true ∧ cmp K (pivot_key v) ≤ 0) →
  (need = false → cmp (bound l.*2 POSITIVE_INFINITY_KEY) K ≤ 0 ∧
    cmp (pivot_key v) K ≤ 0 ∧ cmp K (bound B POSITIVE_INFINITY_KEY) < 0) →
  ns_inv s → ns_room s ≠ 0%nat →
  ∃ idx w' nd' s', finish_root r need w = Ret (Some idx, w') ∧ st w' nd' (hset root READ nothing_held) s' cs ∧
    grown cfg s s' cs cs 1 ∧ ready nd' s' idx es.
Proof using All.
  intros Hst Hroot Hh Hr Hsegs Hnr Hch Hu Hl Hi Hneed Hno Hinv Hroom. unfold finish_root. pose proof user_small as HKs.
  destruct infinite_small as [_ Hpos]. pose proof user_below as HKp.
  look (peek_hdr _ _ _ _ _ root _ Hst ltac:(hold_solve) Hroot).
  destruct (btree_index_is_full cfg hr) eqn:Hfull.
  - destruct l.*2 as [|v0 vs] eqn:El; [by destruct A|]. cbn [bound] in Hno.
    assert (Hv0 : short cfg (pivot_key v0) ∧ cmp (pivot_key v0) POSITIVE_INFINITY_KEY < 0).
    { destruct (segs_bound cfg _ _ _ _ _ _ Hw Hpos Hsegs) as [_ Hlt]; [done|]. split; [by inversion Hsegs|done]. }
    destruct Hv0 as [Hv0 Hv0p].
    pose proof (first_key_index nd root n hr l v0 vs es Hroot Hh Hr El Hv0) as Hfk. pose proof Hfk as (Hkey & _ & Hkf & _).
    destruct (grow_root_run w nd s cs root hr (pivot_key v0) Hst Hroot (repr_length _ _ _ _ Hr) Hw) as (c & w1 & nd1 & s1 & Hrun & Hst1 & Hg & Hgrown);
      try done; [clear - Hu; set_solver|lia|lia|].
    rewrite (bind_run _ _ w 0 w1) by by rewrite (bind_run _ _ _ _ _ Hrun). clear Hrun.
    assert (Hbt : btree_at nd s root (Datatypes.S n) es ({[root]} ∪ fp0) ls).
    { split; [|done|done]. exists hr, l, fp0. rewrite El. split_and!; try done. destruct (bound (v0 :: vs) POSITIVE_INFINITY_KEY); cbn; lia. }
    pose proof (grown_node _ _ _ _ _ _ _ _ Hgrown) as Hhas. pose proof (grown_fresh _ _ _ _ _ _ _ _ Hgrown) as (_ & _ & _ & Hal).
    rewrite Hh in Hhas. replace (Z.of_nat (Datatypes.S n) + 1) with (Z.of_nat (Datatypes.S (Datatypes.S n))) in Hhas by lia.
    set (u := mk_pivot (pivot_key v0) c BTREE_PIVOT_STATS_UNKNOWN) in *. assert (Hcu : child_addr u = c) by exact Hal.
    assert (Hsite : ∀ nd2 u' Q, has_pivots cfg nd2 root (Z.of_nat (Datatypes.S (Datatypes.S n))) Q [u'] → (∀ b, b ≠ root → nd2 !! b = nd1 !! b) →
      child_addr u' = c → cmp (pivot_key u') (pivot_key v0) ≤ 0 → short cfg (pivot_key u') → cmp (pivot_key u') K ≤ 0 →
      cmp (pivot_key u') POSITIVE_INFINITY_KEY < 0 → (∀ h2 l2, Q h2 l2 → not_full cfg h2 l2) → ready nd2 s1 0 es).
    { intros nd2 u' Q H1 H2 H3 H4 H5 H6 H7 HQ. split.
      - destruct H1 as (h2 & l2 & Hr2 & Hrr & _ & _ & Hq). exists h2. split; [done|]. apply (index_full_spec cfg _ _ Hrr). by apply HQ.
      - destruct (grown_site key nd s s1 root _ es _ ls hr _ nd1 c nd2 u' Q Hbt Hroot Hfk Hgrown Hh H1 H2 H3 Hw H4 H5 H6 H7 HKs) as (fp' & Hs').
        exists (Datatypes.S n), c, fp'. split; [lia|done]. }
    assert (Hrefl : ∀ k, key_small k → cmp k k ≤ 0) by (intros k Hk; pose proof (cmp_flip cfg k k Hk Hk); lia).
    destruct need.
    + destruct (Hneed eq_refl) as (-> & _ & HKv). injection Hl as <- ->.
      destruct (roomy_min_key_run cfg Hps K nd1 root _ [u] w1 (hset root WRITE nothing_held) s1 cs Hhas) as (w2 & h2 & Hrun & Hst2 & Hhas2); try done;
        [by apply (short_fits cfg)|apply hset_eq|].
      rewrite (bind_run _ _ w1 tt w2) by by rewrite (bind_run _ _ _ _ _ Hrun).
      destruct (release_root_run w2 _ s1 cs 0 Hst2) as (w3 & Hrun3 & Hst3).
      exists 0, w3, (<[root := h2]> nd1), s1. split; [exact Hrun3|]. split; [done|]. split; [done|].
      eapply Hsite; [exact Hhas2|intros b ?; by rewrite lookup_insert_ne| | | | | |done]; try done.
      * rewrite <-Hcu. exact (clean_child u).
      * by apply Hrefl.
    + destruct (Hno eq_refl) as (Hle & _). rewrite run_ret.
      destruct (release_root_run w1 _ s1 cs 0 Hst1) as (w3 & Hrun3 & Hst3).
      exists 0, w3, nd1, s1. split; [exact Hrun3|]. split; [done|]. split; [done|].
      eapply Hsite; [exact Hhas|done|done| |done|done|done|by intros; apply (roomy_not_full cfg Hps)].
      apply Hrefl. by apply (short_small cfg).
  - destruct need; [by destruct (Hneed eq_refl) as (_ & ? & _)|]. destruct (Hno eq_refl) as (_ & Hlow & Hhigh). rewrite !run_ret.
    destruct (release_root_run w _ s cs r Hst) as (w3 & Hrun3 & Hst3).
    exists r, w3, nd, s. split; [exact Hrun3|]. split; [done|]. split; [by apply (grown_same cfg)|].
    split; [by exists hr|]. exists n, (child_addr v), ({[root]} ∪ fp0). split; [lia|]. rewrite <-Hi.
    eapply root_site; try done. exists hr, l. split; [done|]. split; [done|]. split; [done|]. split; [done|].
    by apply (index_full_spec cfg _ _ Hr).
Qed.

Lemma prepare_root_run w nd s cs es fp ls : st w nd (hset root READ nothing_held) s cs →
  btree_at nd s root (Datatypes.S n) es fp ls → ns_inv s → ns_room s ≠ 0%nat →
  ∃ res w' nd' s' cs', prepare_root cfg root K w = Ret (res, w') ∧ grown cfg s s' cs cs' 1 ∧
    match res with
    | None => st w' nd nothing_held s' cs' ∧ s' = s ∧ (failures cs' < failures cs)%nat
    | Some idx => st w' nd' (hset root READ nothing_held) s' cs' ∧ ready nd' s' idx es
    end.
Proof using All.
  intros Hst [(hr & l & fp0 & Hroot & Hh & Hr & Hne & _ & Hsegs & Hnr & ->) Hch Hu] Hinv Hroom.
  pose proof user_small as HKs. destruct infinite_small as [_ Hpos]. pose proof user_below as HKp.
  destruct (segs_pivots cfg _ _ _ _ _ _ Hw Hpos Hsegs) as [Hsort Hshort].
  destruct (find_pivot_run ps cfg hr l K Hr Hsort HKs) as (r & found & Hfind & Hfinds).
  destruct (lowered_path cfg key nd n POSITIVE_INFINITY_KEY l.*2 es fp0 ls r found Hw Hpos HK Hsegs Hne HKp Hfinds)
    as (HsegsW & A & v & B & HW & HA & Hlow & Hhigh).
  destruct (finds_path cfg _ _ _ _ _ _ K r found Hw Hpos HKs Hsegs Hne HKp Hfinds) as [Hbelow _].
  unfold prepare_root. look (peek_run _ _ _ _ _ root _ _ _ _ Hst ltac:(hold_solve) Hroot Hfind). cbn [fst].
  look (peek_hdr _ _ _ _ _ root _ Hst ltac:(hold_solve) Hroot).
  destruct l.*2 as [|v0 vs] eqn:El; [done|]. cbn [bound] in Hbelow.
  destruct ((r <? 0) || btree_index_is_full cfg hr) eqn:Etest.
  - destruct (claim_run _ _ _ _ _ root Hst ltac:(hold_solve)) as (ok & w1 & cs1 & Hrun & Hst1 & Hl & Hless).
    rewrite (bind_run _ _ _ _ _ Hrun). clear Hrun. destruct ok; cbn [negb].
    2: { step (unget_run _ _ _ _ _ root Hst1) as w2 Hst2. exists None, w2, nd, s, cs1. split; [done|].
      split; [by apply (grown_same cfg)|]. split; [eapply st_ext; [exact Hst2|hold_ext]|]. auto. }
    step (lock_run _ _ _ _ _ root Hst1) as w2 Hst2.
    assert (Hst2' : st w2 nd (hset root WRITE nothing_held) s cs1) by (eapply st_ext; [exact Hst2|hold_ext]).
    assert (Hfinish : ∃ need j w3 nd3 idx w' nd' s', (if r <? 0 then done ← set_min_key root K; mret (0, negb done) else mret (r, false)) w2 = Ret ((j, need), w3) ∧
      st w3 nd3 (hset root WRITE nothing_held) s cs1 ∧
      finish_root j need w3 = Ret (Some idx, w') ∧ st w' nd' (hset root READ nothing_held) s' cs1 ∧ grown cfg s s' cs1 cs1 1 ∧ ready nd' s' idx es).
    { destruct (Z.ltb_spec r 0) as [Hneg|Hge].
      - specialize (Hbelow Hneg). rewrite Z.max_l in HA by lia.
        destruct (min_key_run cfg w2 nd _ s cs1 root hr l v0 vs K Hst2' ltac:(apply hset_eq) Hroot Hr El) as (b & w3 & h3 & Hrun & Hst3 & Hok);
          [by apply (short_fits cfg)|]. exists (negb b), 0, w3.
        rewrite (bind_run _ _ _ _ _ Hrun). destruct b; cbn [negb].
        + destruct (set_index_first cfg hr l v0 vs K true h3 El eq_refl Hok) as (l3 & Hr3 & Hl3). rewrite El in Hl3.
          destruct (set_index_links _ _ _ _ _ _ _ Hok) as (_ & _ & _ & _ & Hh3).
          destruct (finish_root_run w3 _ s cs1 h3 l3 es fp0 ls 0 false A v B Hst3) as (idx & w' & nd' & s' & H1 & H2 & H3 & H4); try done.
          * apply lookup_insert_eq.
          * congruence.
          * rewrite Hl3. eapply (segs_frame cfg Hps); [exact HsegsW|]. intros b Hb. apply lookup_insert_ne. intros ->. done.
          * eapply (chain_index cfg Hps nd _ _ _ (λ b, b = root)); [exact Hch|intros b ->; exists hr; split; [done|lia]|].
            intros b _ Hb. by apply lookup_insert_ne.
          * by rewrite Hl3.
          * intros _. rewrite Hl3. split; [|done]. cbn [set_first bound pivot_key]. pose proof (cmp_flip cfg K K HKs HKs). lia.
          * exists (<[root := h3]> nd), idx, w', nd', s'. done.
        + rewrite (set_index_no _ _ _ _ _ _ _ Hok eq_refl), insert_id in Hst3 by done.
          destruct (finish_root_run w3 _ s cs1 hr l es fp0 ls 0 true [] v0 vs Hst3) as (idx & w' & nd' & s' & H1 & H2 & H3 & H4); try done.
          * by rewrite El.
          * intros _. split; [done|]. split; [by eapply (min_key_fails cfg Hps)|]. lia.
          * exists nd, idx, w', nd', s'. done.
      - rewrite Z.max_r in HA by lia. exists false, r, w2, nd.
        destruct (finish_root_run w2 nd s cs1 hr l es fp0 ls r false A v B Hst2') as (idx & w' & nd' & s' & H1 & H2 & H3 & H4); try done.
        + by rewrite El.
        + by rewrite El.
        + intros _. split; [|done]. rewrite El. rewrite HW in *. rewrite bound_app. cbn [bound].
          apply segs_middle in HsegsW as (? & ? & ? & ? & ? & ? & ? & ? & ? & SA & _ & _ & _ & Hv & _).
          pose proof (short_small cfg _ Hw Hv) as Hvs. destruct (segs_bound_le cfg _ _ _ _ _ _ Hw Hvs SA) as [Hbb Hle].
          by eapply (cmp_le_trans cfg _ (pivot_key v)).
        + exists idx, w', nd', s'. done. }
    destruct Hfinish as (need & j & w3 & nd3 & idx & w' & nd' & s' & Hrun & _ & H1 & H2 & [G1 G2 G3 G4] & H4).
    rewrite (bind_run _ _ _ _ _ Hrun). exists (Some idx), w', nd', s', cs1. split; [exact H1|].
    split; [split; [done|done|done|lia]|]. done.
  - apply orb_false_iff in Etest as [Eneg Efull]. rewrite Eneg in HW, HsegsW. apply Z.ltb_ge in Eneg. rewrite Z.max_r in HA by lia.
    exists (Some r), w, nd, s, cs. split; [done|]. split; [by apply (grown_same cfg)|]. split; [done|].
    split; [by exists hr|]. exists n, (child_addr v), ({[root]} ∪ fp0). split; [lia|]. rewrite <-HA.
    eapply (root_site key nd s root n (v0 :: vs)); try done.
    exists hr, l. split; [done|]. split; [done|]. split; [by rewrite El|]. split; [done|].
    by apply (index_full_spec cfg _ _ Hr).
Qed.
End prepare_root.
End root.

(** * The loop of an insertion

    One attempt from the root, a leaf or an index, and the attempts until one
    goes through. *)
Section loop.
Context {S : Type} `{ns : node_source S} (cfg : btree_config) `{!node_source_laws S (btree_page_size cfg)}.
Context `{!key_order (bt_data_cfg cfg)}.
Local Abbreviation ps := (btree_page_size cfg).
Local Abbreviation cmp := (btree_key_compare cfg).
Context (Hps : 4096 ≤ ps) (Hw : ps < 2 ^ 16) (key : list Z) (msg : message) (root : Z).
Local Abbreviation K := (USER_KEY key).
Local Abbreviation updated := (updated cfg key msg).
Implicit Types (w : tree_state S) (nd : gmap Z btree_hdr) (s : S) (cs : list bool) (es : list tuple).

(** How an attempt ends: the tree may have got a level more. *)
Definition ended cs cs' nd' s' (n : nat) es (r : attempt) : Prop :=
  ∃ n' es' fp' ls', (n' ≤ n + 1)%nat ∧ btree_at cfg nd' s' root n' es' fp' ls' ∧
    match r with
    | StartOver => (failures cs' < failures cs)%nat ∧ es' = es
    | Return rc unique g => rc = STATUS_OK ∧ is_Some g ∧ updated es unique es'
    end.
Lemma ended_claims cs cs1 cs' nd' s' n es r : (failures cs1 ≤ failures cs)%nat → ended cs1 cs' nd' s' n es r → ended cs cs' nd' s' n es r.
Proof using.
  intros Hl (n' & es' & fp' & ls' & Hn & Hbt & Hr). exists n', es', fp', ls'. split; [done|]. split; [done|].
  destruct r; [|done]. destruct Hr. split; [lia|done].
Qed.

Lemma insert_below_run w nd s cs n es fp ls : st w nd (hset root READ nothing_held) s cs →
  btree_at cfg nd s root (Datatypes.S n) es fp ls → new_ok cfg key msg es → ns_inv s → (n + 3 ≤ ns_room s)%nat →
  Z.of_nat (Datatypes.S n) < BTREE_MAX_HEIGHT →
  ∃ r w' nd' s' cs', insert_below cfg root K msg w = Ret (r, w') ∧ st w' nd' nothing_held s' cs' ∧
    grown cfg s s' cs cs' (n + 3) ∧ ended cs cs' nd' s' (Datatypes.S n) es r.
Proof using Hps Hw key_order0.
  intros Hst Hbt Hnew Hinv Hroom Hn. pose proof (new_sized _ _ _ _ Hnew) as [Hsh _]. unfold insert_below.
  destruct (prepare_root_run cfg Hps key root n Hsh Hw Hn w nd s cs es fp ls Hst Hbt Hinv) as (res & w1 & nd1 & s1 & cs1 & Hrun & Hg & Hres); [lia|].
  rewrite (bind_run _ _ _ _ _ Hrun). destruct res as [idx|].
  - destruct Hres as (Hst1 & Hhas & n' & c & fp1 & Hn' & Hsite).
    destruct (site_child cfg key _ _ _ _ _ _ _ _ _ _ _ _ Hsite) as (hp & hc & Hp & Hchild & Hhp & Hc & _ & Hne).
    look (peek_hdr _ _ _ _ _ root _ Hst1 ltac:(by rewrite hset_eq) Hp). rewrite (run_opt _ _ _ _ Hchild).
    step (get_run _ _ _ _ _ c _ Hst1 Hc) as w2 Hst2.
    look (peek_hdr _ _ _ _ _ root _ Hst2 ltac:(hold_solve) Hp). unfold btree_height. rewrite Hhp.
    replace (Z.to_nat (Z.of_nat (Datatypes.S n') - 1)) with n' by lia. destruct Hg as [G1 G2 G3 G4].
    destruct (descend_run cfg Hps key msg n' w2 nd1 s1 cs1 root _ _ idx c es fp1 [] [] Hsite Hhas Hnew) as (r & w3 & nd3 & s3 & cs3 & Hrun3 & Hst3 & [F1 F2 F3 F4] & Ha);
      [eapply st_ext; [exact Hst2|unfold held2; hold_ext]|done|lia|lia|].
    exists r, w3, nd3, s3, cs3. split; [done|]. split; [done|]. split; [split; [done|set_solver|lia|lia]|].
    assert (Hres : ∀ R, subtree_result cfg nd1 nd3 s1 s3 (Datatypes.S n') root NEGATIVE_INFINITY_KEY POSITIVE_INFINITY_KEY fp1 [] [] R →
      ∃ es' fp' ls', btree_at cfg nd3 s3 root (Datatypes.S n') es' fp' ls' ∧ R es').
    { intros R (es' & fp' & ls' & H1 & H2 & _ & H4 & H5 & _). rewrite app_nil_l, app_nil_r in H5. exists es', fp', ls'. done. }
    destruct r as [|rc unique g]; cbn in Ha.
    + destruct Ha as [Hless Ha]. apply Hres in Ha as (es' & fp' & ls' & Hbt' & ->).
      exists (Datatypes.S n'), es, fp', ls'. split; [lia|]. split; [done|]. split; [lia|done].
    + destruct Ha as (-> & Hsome & Ha). apply Hres in Ha as (es' & fp' & ls' & Hbt' & Hu).
      exists (Datatypes.S n'), es', fp', ls'. split; [lia|]. done.
  - destruct Hres as (Hst1 & -> & Hless). exists StartOver, w1, nd, s, cs1. split; [done|]. split; [done|].
    split; [apply (grown_same cfg); [done|lia]|]. exists (Datatypes.S n), es, fp, ls. split; [lia|]. done.
Qed.

(** ** A leaf for the root *)
(** A root that is a leaf is empty only when new. *)
Definition fresh_or_full nd (n : nat) es : Prop := es = [] → n = 0%nat ∧ ∃ h, nd !! root = Some h ∧ next_entry h = ps.

Lemma empty_leaf_room hr (l : list (Z * tuple)) sp m : node_repr ps hr l → l.*2 = [] → next_entry hr = ps → spec_for cfg [] key m sp →
  sized cfg (key, m) → btree_can_perform_leaf_incorporate_spec hr sp = Some true.
Proof using Hps.
  intros Hr Hl Hn Hsp [Hk Hm]. destruct (spec_idx cfg _ _ _ _ Hsp) as [Hi Hs]. change (lengthZ []) with 0 in *.
  assert (Hst : still_exists sp = false) by (destruct (still_exists sp); [specialize (Hs eq_refl); lia|done]).
  rewrite (can_perform_room cfg hr l sp key m Hr (spec_key cfg _ _ _ _ Hsp) (spec_msg cfg _ _ _ _ Hsp) Hst). f_equal. apply Z.leb_le.
  assert (HL : lengthZ l = 0) by (rewrite <-(lengthZ_fmap snd l), Hl; done). rewrite HL, Hn.
  unfold short in Hk. cbn in Hk, Hm. unfold tuple_size, MAX_INLINE_MESSAGE_SIZE in *.
  pose proof (Z.mul_div_le (35 * ps) 100 ltac:(lia)). table_lia.
Qed.
(** The tree after a leaf root has grown. *)
Lemma leaf_root_grown nd s s' hr es fp ls e0 nd1 c : btree_at cfg nd s root 0 (e0 :: es) fp ls → nd !! root = Some hr → height hr = 0 →
  first_key cfg nd root 0 hr (e0 :: es) (USER_KEY e0.1) → root_grown cfg nd s s' root hr (USER_KEY e0.1) nd1 c →
  ∃ fp', btree_at cfg nd1 s' root 1 (e0 :: es) fp' [c].
Proof using key_order0 Hps Hw.
  intros [Ht Hch Hu] Hroot Hh (_ & Hsh & _ & Hchild) [(Hc1 & Hus & Hc0 & Hal) Hcn Hnode Hrest].
  assert (Hrin : root ∈ fp) by by eapply tree_root_in.
  assert (Hrc : root ≠ c) by (intros ->; clear - Hrin Hu Hc1; set_solver).
  assert (Hks : key_small (USER_KEY e0.1)) by by apply (short_small cfg).
  destruct (Hchild (USER_KEY e0.1) nd1 c fp ls) as (ls' & Htc & ->); [done| |done|done| | |].
  { pose proof (cmp_flip cfg _ _ Hks Hks). lia. }
  { intros b Hb Hbr. apply Hrest; [done|]. intros ->. clear - Hb Hu Hc1. set_solver. }
  { clear - Hu Hc1. set_solver. }
  exists ({[root]} ∪ ({[c]} ∪ fp ∖ {[root]})). rewrite Hh in Hnode. split.
  - eapply (has_pivots_tree cfg Hps); [exact Hnode|done|done| |clear - Hrc; set_solver].
    apply segs_one. unfold child_addr at 1. cbn [child_field pivot_key]. rewrite Hal. done.
  - destruct Ht as (h & l & _ & _ & _ & _ & _ & _ & _ & _ & ->). destruct Hch as ((h' & Hr' & Hh' & Hp' & Hn') & _).
    rewrite Hroot in Hr'. injection Hr' as <-. split; [|split; [lia|split; [clear; set_solver|done]]]. by exists hr.
  - rewrite Hus. clear - Hu Hrin. set_solver.
Qed.

(** ** One attempt *)
Definition attempted cs cs' nd' s' (n : nat) es (r : attempt) : Prop :=
  ended cs cs' nd' s' (Nat.max 1 n) es r ∧
  (r = StartOver → ∀ n' fp' ls', btree_at cfg nd' s' root n' es fp' ls' → fresh_or_full nd' n' es).

Lemma tree_height nd s n es fp ls : btree_at cfg nd s root n es fp ls → ∃ h, nd !! root = Some h ∧ height h = Z.of_nat n.
Proof using. intros [Ht _ _]. by apply (tree_node cfg nd n _ _ _ _ _ _ Ht). Qed.

Lemma updated_nonempty es unique es' : key_small K → updated es unique es' → es' ≠ [].
Proof using key_order0.
  intros HK [Hu _] ->. specialize (Hu K HK). cbn in Hu. unfold same_key in Hu.
  pose proof (cmp_flip cfg K K HK HK). rewrite (proj2 (Z.eqb_eq _ _)) in Hu by lia. done.
Qed.

Lemma leaf_root_run w nd s cs hr es fp ls : st w nd (hset root READ nothing_held) s cs → nd !! root = Some hr → height hr = 0 →
  btree_at cfg nd s root 0 es fp ls → fresh_or_full nd 0 es → new_ok cfg key msg es → ns_inv s → (8 ≤ ns_room s)%nat →
  ∃ r w' nd' s' cs',
    (r ← create_spec cfg root K msg;
     let '(rc, sp) := r : platform_status * leaf_incorporate_spec in
     if negb (SUCCESS rc) then btree_node_unget root;; mret (Return rc false None)
     else
       claimed ← btree_node_claim root;
       if negb claimed then btree_node_unget root;; mret StartOver
       else
         btree_node_lock root;;
         incorporated ← on_node root (btree_try_perform_leaf_incorporate_spec sp);
         match incorporated with
         | Some g => btree_node_full_unlock root;; mret (incorporated_as sp (Some g))
         | None =>
             btree_grow_root cfg root;;
             btree_node_unlock root;;
             btree_node_unclaim root;;
             insert_below cfg root K msg
         end) w = Ret (r, w') ∧ st w' nd' nothing_held s' cs' ∧ grown cfg s s' cs cs' 8 ∧ attempted cs cs' nd' s' 0 es r.
Proof using All.
  intros Hst Hroot Hh Hbt Hfresh Hnew Hinv Hroom. pose proof Hnew as [Hsized Hclass Hm]. pose proof Hsized as [Hsh _].
  pose proof (short_small cfg _ Hw Hsh) as HK. destruct infinite_small as [Hng Hps'].
  pose proof Hbt as [(h & l & Hroot2 & _ & Hr & Hl & Hs & Hin & Hsz & Efp & Els) Hch Hu]. rewrite Hroot in Hroot2. injection Hroot2 as <-.
  rewrite <-Hl in Hs, Hm. destruct (create_spec_run cfg hr l (λ _, true) key msg Hr Hs HK Hm) as (sp & Hcreate & Hsp). rewrite Hl in Hsp, Hs, Hm.
  step (create_spec_at cfg _ _ _ _ _ root _ _ _ _ _ Hst ltac:(hold_solve) Hroot Hcreate) as w1 Hst1. cbv beta iota.
  change (SUCCESS STATUS_OK) with true. cbn [negb].
  destruct (claim_run _ _ _ _ _ root Hst1 ltac:(hold_solve)) as (ok & w2 & cs2 & Hrun & Hst2 & Hlen & Hless).
  rewrite (bind_run _ _ _ _ _ Hrun). clear Hrun. destruct ok; cbn [negb].
  2: { step (unget_run _ _ _ _ _ root Hst2) as w3 Hst3. exists StartOver, w3, nd, s, cs2. split; [done|].
    split; [eapply st_ext; [exact Hst3|hold_ext]|]. split; [by apply (grown_same cfg)|]. split.
    - exists 0%nat, es, fp, ls. split; [lia|]. split; [done|]. auto.
    - intros _ n' fp' ls' Hbt' E. destruct (Hfresh E) as (_ & h & Hrt & Hnx). split; [|by exists h].
      destruct (tree_height _ _ _ _ _ _ Hbt') as (h' & Hrt' & Hh'). rewrite Hroot in Hrt'. injection Hrt' as <-. lia. }
  step (lock_run _ _ _ _ _ root Hst2) as w3 Hst3.
  pose proof (spec_key cfg _ _ _ _ Hsp) as Hk. pose proof (spec_msg cfg _ _ _ _ Hsp) as Hmsg.
  destruct (spec_idx cfg _ _ _ _ Hsp) as [Hi Hi2]. rewrite <-Hl, lengthZ_fmap in Hi, Hi2.
  assert (Hcan : ∃ b, btree_can_perform_leaf_incorporate_spec hr sp = Some b).
  { unfold btree_can_perform_leaf_incorporate_spec. rewrite Hk, (repr_num _ _ _ _ Hr).
    destruct (still_exists sp); rewrite (leaf_can_set ps hr l) by (done || lia); eauto. }
  destruct Hcan as [b Hcan]. pose proof (sized_fits cfg Hps key _ Hw Hsized Hclass) as Hfits.
  destruct (try_perform_run cfg hr l key _ sp b Hr Hfits Hk Hmsg Hi Hi2 Hcan) as (h2 & Htry & Hno & Hyes).
  assert (Hst3' : st w3 nd (hset root WRITE nothing_held) s cs2) by (eapply st_ext; [exact Hst3|hold_ext]).
  destruct (on_node_run _ _ _ _ _ root _ _ _ _ Hst3' ltac:(apply hset_eq) Hroot Htry) as (w4 & Hrun & Hst4).
  rewrite (bind_run _ _ _ _ _ Hrun). clear Hrun. destruct b.
  - destruct (Hyes eq_refl) as (_ & Hn2 & Hp2 & Hh2 & l2 & Hr2 & Hl2). rewrite Hl in Hl2.
    step (full_unlock_run _ _ _ _ _ root Hst4) as w5 Hst5.
    eexists _, w5, _, s, cs2. split; [done|]. split; [eapply st_ext; [exact Hst5|hold_ext]|].
    split; [by apply (grown_same cfg)|]. split; [|done].
    destruct (performed_ok cfg key NEGATIVE_INFINITY_KEY POSITIVE_INFINITY_KEY es sp (incorporated cfg es K msg) HK (Build_tuples_ok _ _ _ _ Hs Hin Hsz) Hw) as [[Ts Tr Tz] Hupd];
      [split; done|done|exact Hsp|].
    exists 0%nat, (performed sp es (key, incorporated cfg es K msg)), fp, ls. split; [lia|]. split.
    + split; [|eapply chain_frame; [exact Hch|]|done].
      * exists h2, l2. rewrite lookup_insert_eq. split_and!; try done. congruence.
      * intros b Hb. rewrite Els in Hb. apply list_elem_of_singleton in Hb as ->. rewrite lookup_insert_eq, Hroot. cbn. unfold links. congruence.
    + split; [done|]. split; [eauto|]. split; [done|].
      rewrite <-Hl in Hsp, Hs, Hsized |- *. by apply (spec_is_new cfg hr l key msg Hr Hs Hsized sp Hsp).
  - rewrite (Hno eq_refl), insert_id in Hst4 by done.
    destruct es as [|e0 es].
    { destruct (Hfresh eq_refl) as (_ & h & Hrt & Hnx). rewrite Hroot in Hrt. injection Hrt as <-.
      rewrite (empty_leaf_room hr l sp (incorporated cfg [] K msg) Hr Hl Hnx Hsp Hsized) in Hcan. done. }
    assert (He0 : sized cfg e0) by (by inversion Hsz).
    pose proof (first_key_leaf cfg Hps nd root hr l e0 es Hroot Hh Hr Hl Hs He0) as Hfk. pose proof Hfk as (Hkey & Hks & Hkf & _).
    destruct (grow_root_run cfg Hps w4 nd s cs2 root hr (USER_KEY e0.1) Hst4 Hroot (repr_length _ _ _ _ Hr) Hw) as (c & w5 & nd5 & s5 & Hrun & Hst5 & [G1 G2 G3 G4] & Hgrown);
      try done; [rewrite Efp in Hu; clear - Hu; set_solver|lia|lia|unfold BTREE_MAX_HEIGHT; lia|].
    rewrite (bind_run _ _ _ _ _ Hrun). clear Hrun.
    destruct (leaf_root_grown nd s s5 hr es fp ls e0 nd5 c Hbt Hroot Hh Hfk Hgrown) as (fp5 & Hbt5).
    destruct (release_run (λ _, insert_below cfg root K msg) w5 nd5 _ s5 cs2 root Hst5) as (w6 & Hrun & Hst6); [apply hset_eq|].
    assert (Hst6' : st w6 nd5 (hset root READ nothing_held) s5 cs2) by (eapply st_ext; [exact Hst6|hold_ext]).
    destruct (insert_below_run w6 nd5 s5 cs2 0 (e0 :: es) fp5 [c] Hst6' Hbt5 Hnew G1) as (r & w7 & nd7 & s7 & cs7 & Hrun7 & Hst7 & [F1 F2 F3 F4] & Hend);
      [lia|done|].
    exists r, w7, nd7, s7, cs7. split; [by rewrite <-Hrun7, <-Hrun|]. split; [done|]. split; [split; [done|set_solver|lia|lia]|].
    split; [by eapply ended_claims|done].
Qed.

Lemma insert_attempt_run w nd s cs n es fp ls : st w nd nothing_held s cs → btree_at cfg nd s root n es fp ls →
  fresh_or_full nd n es → new_ok cfg key msg es → ns_inv s → (8 ≤ ns_room s)%nat → Z.of_nat (Nat.max 1 n) + 1 < BTREE_MAX_HEIGHT →
  ∃ r w' nd' s' cs', insert_attempt cfg root K msg w = Ret (r, w') ∧ st w' nd' nothing_held s' cs' ∧ grown cfg s s' cs cs' 8 ∧
    attempted cs cs' nd' s' n es r.
Proof using All.
  intros Hst Hbt Hfresh Hnew Hinv Hroom Hn. unfold BTREE_MAX_HEIGHT in Hn.
  destruct (tree_height _ _ _ _ _ _ Hbt) as (hr & Hroot & Hh). unfold insert_attempt.
  step (get_run _ _ _ _ _ root _ Hst Hroot) as w1 Hst1.
  look (peek_hdr _ _ _ _ _ root _ Hst1 ltac:(hold_solve) Hroot). unfold btree_height. rewrite Hh. destruct n as [|n].
  - rewrite Z.eqb_refl. by apply (leaf_root_run w1 nd s cs hr es fp ls).
  - rewrite (proj2 (Z.eqb_neq _ _)) by lia.
    destruct (insert_below_run w1 nd s cs n es fp ls Hst1 Hbt Hnew Hinv) as (r & w' & nd' & s' & cs' & Hrun & Hst' & [G1 G2 G3 G4] & Hend);
      [lia|unfold BTREE_MAX_HEIGHT; lia|].
    exists r, w', nd', s', cs'. split; [done|]. split; [done|]. split; [split; [done|done|lia|done]|].
    replace (Nat.max 1 (Datatypes.S n)) with (Datatypes.S n) by lia. split; [done|]. intros _ n' fp' ls' _ E.
    by destruct (Hfresh E).
Qed.

(** ** The attempts *)
Lemma insert_loop_run fuel : ∀ w nd s cs n es fp ls, st w nd nothing_held s cs → btree_at cfg nd s root n es fp ls →
  fresh_or_full nd n es → new_ok cfg key msg es → ns_inv s → (failures cs < fuel)%nat →
  (8 * (failures cs + 1) ≤ ns_room s)%nat → Z.of_nat (Nat.max 1 n) + Z.of_nat (failures cs) + 1 < BTREE_MAX_HEIGHT →
  ∃ unique g w' nd' s' cs' n' es' fp' ls', insert_loop cfg fuel root K msg w = Ret ((STATUS_OK, unique, Some g), w') ∧
    st w' nd' nothing_held s' cs' ∧ ns_inv s' ∧ btree_at cfg nd' s' root n' es' fp' ls' ∧ fresh_or_full nd' n' es' ∧ updated es unique es'.
Proof using All.
  induction fuel as [|fuel IH]; intros w nd s cs n es fp ls Hst Hbt Hfresh Hnew Hinv Hfuel Hroom Hn; [lia|]. cbn [insert_loop].
  destruct (insert_attempt_run w nd s cs n es fp ls Hst Hbt Hfresh Hnew Hinv) as (r & w1 & nd1 & s1 & cs1 & Hrun & Hst1 & [G1 G2 G3 G4] & Hend & Hnext);
    [lia|lia|]. rewrite (bind_run _ _ _ _ _ Hrun). destruct Hend as (n' & es' & fp' & ls' & Hn' & Hbt' & Hr). destruct r as [|rc unique g].
  - destruct Hr as [Hless ->]. apply (IH w1 nd1 s1 cs1 n' es fp' ls'); try done; [by eapply Hnext|lia|lia|lia].
  - destruct Hr as (-> & [g' ->] & Hu). exists unique, g', w1, nd1, s1, cs1, n', es', fp', ls'. do 4 (split; [done|]). split; [|done].
    pose proof (new_sized _ _ _ _ Hnew) as [Hsh _]. intros E. exfalso. eapply updated_nonempty; [by apply (short_small cfg)|exact Hu|exact E].
Qed.
End loop.
