(* ===== verification/BtreeLookup.v ===== *)
(** * Lookup

    A lookup finds the message of its key in the tuples of the tree.  On the
    way it changes what the index nodes record of their children, which is not
    part of the tree. *)
From S2P Require Import Prelude Allocator Bytes DataInternal BtreeNode NodeLayout BtreeLeaf LeafMap BtreeSplit.
From S2P Require Import BtreeIndex BtreePivot BtreePivotFacts Btree BtreeTree BtreeWorld BtreeInsertLeaf.
From S2P Require Import BtreeInsertTree BtreePrepare BtreeZoom BtreeInsertLoop.

(** ** What does not matter of an index node *)
Lemma same_pivots_refl vs : same_pivots vs vs.
Proof. done. Qed.
Lemma same_pivots_track k v e vs : lookupZ vs k = Some v →
  (∀ n, e = Counted n → 0 ≤ n < 256) → same_pivots (track k v e vs) vs.
Proof.
  intros Hk He. pose proof (lookupZ_Some _ _ _ Hk) as Hb. unfold same_pivots.
  assert (Hins : ∀ b us, 0 ≤ b < 256 → clean <$> us = clean <$> vs → clean <$> insertZ k (with_meta b v) us = clean <$> vs).
  { intros b us Hbb Hus. unfold insertZ in *. rewrite bool_decide_true by lia.
    rewrite list_fmap_insert, clean_with_meta, Hus by done. apply list_insert_id.
    unfold lookupZ in Hk. rewrite bool_decide_true in Hk by lia. by rewrite list_lookup_fmap, Hk. }
  pose proof (meta_range v) as Hm. destruct e as [|n|]; cbn [track].
  - apply Hins; [|done]. destruct (byte_parts (meta v) Hm) as [Hc _]. rewrite byte_mark by done. lia.
  - apply Hins; [by apply He|done].
  - apply Hins; [lia|]. rewrite <-list_fmap_compose. apply list_fmap_ext. intros i u Hu. cbn.
    apply clean_with_meta. pose proof (meta_range u). rewrite byte_flag by done. destruct (pivot_resident (meta u)); lia.
Qed.
Lemma classify_counted ei init t b w n : 0 ≤ b < 256 → 0 ≤ ei < 2 ^ 64 → 0 ≤ t < 2 ^ 64 → classify ei init t b = (w, Counted n) → 0 ≤ n < 256.
Proof.
  intros Hb He Ht. unfold classify. destruct (byte_parts b Hb) as [Hc _].
  destruct (Z.eqb_spec ei EI_NOT_READY) as [E|E]; [done|]. destruct (init =? 0); [intros [= _ <-]; lia|].
  destruct (_ && _); [done|]. destruct (Z.leb_spec PIVOT_AC_SATURATION_THRESHOLD (effective_count ei t b)) as [|Hlt]; [done|].
  intros [= _ <-]. change PIVOT_AC_SATURATION_THRESHOLD with 127 in Hlt. change EI_NOT_READY with 0 in E.
  pose proof (effective_count_range ei t b ltac:(lia) Ht Hb). lia.
Qed.

Section retrack.
Context (cfg : btree_config).
Local Abbreviation ps := (btree_page_size cfg).
Implicit Types (nd : gmap Z btree_hdr) (h : btree_hdr) (l : list (Z * pivot)).

(** What a page says of the pivots, but for their metadata, is unique. *)
Lemma repr_pivots_same h l l' : node_repr ps h l → node_repr ps h l' → same_pivots l.*2 l'.*2.
Proof.
  intros Hr Hr'. assert (HL : lengthZ l = lengthZ l') by (rewrite <-(repr_num _ _ _ _ Hr), <-(repr_num _ _ _ _ Hr'); done).
  unfold same_pivots. apply list_eq. intros i. rewrite !list_lookup_fmap.
  destruct (l !! i) as [[o v]|] eqn:E, (l' !! i) as [[o' v']|] eqn:E'; cbn; [|exfalso|exfalso|done].
  - assert (Hi : lookupZ l (Z.of_nat i) = Some (o, v)) by (unfold lookupZ; rewrite bool_decide_true by lia; by rewrite Nat2Z.id).
    assert (Hi' : lookupZ l' (Z.of_nat i) = Some (o', v')) by (unfold lookupZ; rewrite bool_decide_true by lia; by rewrite Nat2Z.id).
    destruct (index_get _ _ _ _ _ _ Hr Hi) as (Ho & _ & _ & _ & _ & Hk & Ha & Hs & _).
    destruct (index_get _ _ _ _ _ _ Hr' Hi') as (Ho' & _ & _ & _ & _ & Hk' & Ha' & Hs' & _).
    assert (o' = o) as -> by congruence. f_equal. unfold clean. congruence.
  - apply lookup_lt_Some in E. apply lookup_ge_None in E'. unfold lengthZ in HL. lia.
  - apply lookup_lt_Some in E'. apply lookup_ge_None in E. unfold lengthZ in HL. lia.
Qed.

(** Index node [a] got other metadata for its pivots. *)
Definition retracked nd (a : Z) nd' : Prop :=
  (∃ h h' l l', nd !! a = Some h ∧ nd' !! a = Some h' ∧ node_repr ps h l ∧ node_repr ps h' l' ∧ same_pivots l.*2 l'.*2 ∧
     same_links h h' ∧ 0 < height h) ∧
  ∀ b, b ≠ a → nd' !! b = nd !! b.
Lemma tree_retracked nd a nd' n c lo hi es fp ls : retracked nd a nd' → tree cfg nd n c lo hi es fp ls → tree cfg nd' n c lo hi es fp ls.
Proof.
  intros [(h & h' & l & l' & Ha & Ha' & Hr & Hr' & Hs & (_ & _ & _ & _ & Hh) & Hpos) Hrest].
  revert c lo hi es fp ls. induction n as [|n IH]; intros c lo hi es fp ls.
  - intros (hc & lc & Hc & H0 & Hrc). exists hc, lc. rewrite Hrest; [done|]. intros ->. rewrite Ha in Hc. injection Hc as <-. lia.
  - intros (hc & lc & fpk & Hc & Hhc & Hrc & Hne & Hlo & Hsegs & Hnin & ->).
    assert (Hsegs' : segs cfg (tree cfg nd' n) hi lc.*2 es fpk ls) by (eapply segs_impl; [|exact Hsegs]; intros; by apply IH).
    destruct (decide (c = a)) as [->|Hca].
    + rewrite Ha in Hc. injection Hc as <-. pose proof (repr_pivots_same _ _ _ Hr Hrc) as Hs2.
      assert (Hs3 : same_pivots lc.*2 l'.*2) by (unfold same_pivots in *; congruence).
      exists h', l', fpk. do 1 (split; [done|]). split; [by rewrite Hh|]. split; [done|].
      split; [by eapply same_pivots_nil; [symmetry; exact Hs3|]|]. split; [by rewrite <-(same_pivots_bound _ _ hi Hs3)|].
      split; [by eapply segs_same|]. done.
    + exists hc, lc, fpk. rewrite Hrest by done. done.
Qed.
Lemma chain_retracked nd a nd' prev ls : retracked nd a nd' → chain nd prev ls → chain nd' prev ls.
Proof.
  intros [(h & h' & l & l' & Ha & Ha' & Hr & Hr' & Hs & Hl & Hpos) Hrest] Hc.
  eapply chain_frame; [exact Hc|]. intros b Hb. rewrite Hrest; [done|]. intros ->.
  destruct (chain_leaf _ _ _ _ Hc Hb) as (hb & Hab & H0 & _). rewrite Ha in Hab. injection Hab as <-. lia.
Qed.
End retrack.

Section lookup.
Context {S : Type} `{ns : node_source S} (cfg : btree_config) `{!node_source_laws S (btree_page_size cfg)}.
Context `{!key_order (bt_data_cfg cfg)}.
Local Abbreviation ps := (btree_page_size cfg).
Local Abbreviation cmp := (btree_key_compare cfg).
Context (Hps : 4096 ≤ ps) (key : list Z).
Local Abbreviation K := (USER_KEY key).
Implicit Types (w : tree_state S) (nd : gmap Z btree_hdr) (s : S) (cs : list bool) (es : list tuple).

Lemma observe_run w nd H s cs : st w nd H s cs → ∃ o w', observe w = Ret (o, w') ∧ st w' nd H s cs.
Proof using. intros Hst. unfold observe. rewrite run_get, run_mod. eexists _, _. split; [done|]. by destruct Hst. Qed.

(** An index node among those with [p] held. *)
Lemma retrack_insert nd a h h' (l l' : list (Z * pivot)) : nd !! a = Some h → node_repr ps h l → node_repr ps h' l' →
  same_pivots l'.*2 l.*2 → same_links h h' → 0 < height h → retracked cfg nd a (<[a := h']> nd).
Proof using.
  intros Ha Hr Hr' Hs Hl H0. split; [|intros b Hb; by rewrite lookup_insert_ne].
  exists h, h', l, l'. rewrite lookup_insert_eq. done.
Qed.
Lemma classify_node_run w nd H s cs a h l k o v obs : st w nd H s cs → hold_read (H a) = true → nd !! a = Some h →
  node_repr ps h l → 0 < height h → lookupZ l k = Some (o, v) →
  ∃ warm w' nd', update_ac_and_classify a o obs w = Ret (warm, w') ∧ st w' nd' H s cs ∧ retracked cfg nd a nd'.
Proof using.
  intros Hst Hh Ha Hr Hpos Hk. pose proof (u64_range (obs_ei obs)) as He.
  pose proof (classify_run ps k o v l Hk h (u64 (obs_ei obs)) (obs_entry_time obs) (obs_now obs) (obs_now' obs) Hr He) as Hc.
  unfold after_classify in Hc. destruct (classify _ _ _ _) as [warm e] eqn:Ec.
  destruct Hc as (h' & l' & Hrun & Hr' & Hl' & [Hlinks _]). unfold update_ac_and_classify.
  destruct (change_node_run w nd H s cs hold_read a (λ h,
      match btree_update_ac_and_classify_warm (u64 (obs_ei obs)) (obs_now obs) (obs_now' obs) o (h, obs_entry_time obs) with
      | Ret (warm, (h', t)) => Ret ((warm, t), h')
      | Assert => Assert | Undef => Undef | Block => Block | Fuel => Fuel
      end) h (warm, if e is Restart then obs_now' obs else obs_entry_time obs) h' Hst Hh Ha) as (w1 & Hrun1 & Hst1); [by rewrite Hrun|].
  rewrite (bind_run _ _ _ _ _ Hrun1). rewrite run_mod.
  eexists warm, _, (<[a := h']> nd). split; [done|]. split; [by destruct Hst1|].
  eapply retrack_insert; try done. rewrite Hl'. apply same_pivots_track; [by rewrite lookupZ_fmap, Hk|].
  intros n ->. by eapply (classify_counted _ _ _ _ _ _ (meta_range v) He (u64_range _) Ec).
Qed.
Lemma reset_node_run w nd H s cs a h (l : list (Z * pivot)) : st w nd H s cs → hold_read (H a) = true → nd !! a = Some h →
  node_repr ps h l → 0 < height h →
  ∃ w' nd', change_node hold_read a reset_pivot_counts w = Ret (tt, w') ∧ st w' nd' H s cs ∧ retracked cfg nd a nd'.
Proof using.
  intros Hst Hh Ha Hr Hpos. destruct (reset_run ps h l Hr) as (h' & Hrun & Hr' & [Hlinks _]).
  destruct (change_node_run w nd H s cs hold_read a _ h tt h' Hst Hh Ha Hrun) as (w1 & Hrun1 & Hst1).
  exists w1, (<[a := h']> nd). split; [done|]. split; [done|]. eapply retrack_insert; try done.
  unfold same_pivots. rewrite <-!list_fmap_compose. apply list_fmap_ext. intros i [o u] _. cbn.
  apply clean_with_meta. pose proof (meta_range u). rewrite byte_flag by done. destruct (pivot_resident (meta u)); lia.
Qed.

(** The tuples at the child a lookup goes to have the key if any have. *)
Lemma child_lookup nd n a lo hi A v B esA esc esB fpA fpc fpB lsA lsc lsB r : ps < 2 ^ 16 → key_small hi → key_small K →
  around cfg nd n a lo hi A v B esA esc esB fpA fpc fpB lsA lsc lsB →
  (0 ≤ r ∧ cmp (pivot_key v) K ≤ 0 ∧ cmp K (bound B hi) < 0 ∨ A = [] ∧ cmp K (pivot_key v) < 0) →
  tuple_lookup cfg (esA ++ esc ++ esB) K = tuple_lookup cfg esc K.
Proof using key_order0.
  intros Hw Hhi HK [_ _ HA Hc HB Hlt Hs _ _] Hor. pose proof (short_small cfg _ Hw Hs) as Hv.
  destruct (segs_bound_le cfg _ _ _ _ _ _ Hw Hhi HB) as [Hb Hbhi]. destruct (segs_bound_le cfg _ _ _ _ _ _ Hw Hv HA) as [Ha _].
  pose proof (segs_tuples cfg _ _ _ _ _ _ Hw Hv (tree_tuples cfg nd n) HA) as TA.
  pose proof (segs_tuples cfg _ _ _ _ _ _ Hw Hhi (tree_tuples cfg nd n) HB) as TB.
  destruct Hor as [(_ & Hlow & Hhigh)|[-> Hbelow]]; [by eapply (lookup_middle cfg)|].
  inversion HA; subst. pose proof (tree_tuples cfg nd n _ _ _ _ _ _ Hv Hb Hc) as TC. rewrite app_nil_l, tuple_lookup_app.
  destruct TB as [_ RB ZB], TC as [_ RC ZC].
  rewrite (lookup_outside cfg (pivot_key v) (bound B hi) esc K) by (done || by apply (sized_small cfg) || by right).
  rewrite (lookup_outside cfg (bound B hi) hi esB K); try done; [by apply (sized_small cfg)|].
  right. by eapply (cmp_lt_le cfg _ (pivot_key v)); [..|lia].
Qed.

(** The child, and the index of its pivot, that a lookup in an index node goes to. *)
Lemma lookup_child nd n a lo hi es fp ls : ps < 2 ^ 16 → key_small hi → key_small K → cmp K hi < 0 →
  tree cfg nd (Datatypes.S n) a lo hi es fp ls →
  ∃ h l r found o A v B esA esc esB fpA fpc fpB lsA lsc lsB, nd !! a = Some h ∧ height h = Z.of_nat (Datatypes.S n) ∧ node_repr ps h l ∧
    btree_find_pivot cfg K h = Ret ((r, found), h) ∧ lookupZ l (if r <? 0 then 0 else r) = Some (o, v) ∧
    around cfg nd n a lo hi A v B esA esc esB fpA fpc fpB lsA lsc lsB ∧
    es = esA ++ esc ++ esB ∧ fp = {[a]} ∪ (fpA ∪ (fpc ∪ fpB)) ∧ ls = lsA ++ lsc ++ lsB ∧
    tuple_lookup cfg es K = tuple_lookup cfg esc K ∧ cmp K (bound B hi) < 0 ∧ key_small (pivot_key v) ∧ key_small (bound B hi).
Proof using key_order0 Hps.
  intros Hw Hhi HK HKhi (h & l & fp0 & Ha & Hh & Hr & Hne & Hlo & Hsegs & Hnin & ->).
  destruct (segs_pivots cfg _ _ _ _ _ _ Hw Hhi Hsegs) as [Hsort _].
  destruct (find_pivot_run ps cfg h l K Hr Hsort HK) as (r & found & Hfind & Hfinds).
  destruct (finds_path cfg _ _ _ _ _ _ K r found Hw Hhi HK Hsegs Hne HKhi Hfinds) as [Hneg Hge].
  assert (Hpath : ∃ A v B, l.*2 = A ++ v :: B ∧ lengthZ A = (if r <? 0 then 0 else r) ∧
    (0 ≤ r ∧ cmp (pivot_key v) K ≤ 0 ∧ cmp K (bound B hi) < 0 ∨ A = [] ∧ cmp K (pivot_key v) < 0)).
  { destruct (Z.ltb_spec r 0) as [Hr0|Hr0].
    - specialize (Hneg Hr0). destruct l.*2 as [|v vs]; [done|]. exists [], v, vs. split_and!; auto.
    - destruct (Hge Hr0) as (A & v & B & E & HA & H1 & H2). exists A, v, B. split_and!; auto. }
  destruct Hpath as (A & v & B & El & HA & Hor).
  assert (Hv : lookupZ l.*2 (if r <? 0 then 0 else r) = Some v) by (rewrite El, <-HA; apply lookupZ_at_length).
  rewrite lookupZ_fmap in Hv. destruct (lookupZ l (if r <? 0 then 0 else r)) as [[o v']|] eqn:Eo; [|done]. injection Hv as Hv. cbn in Hv. subst v'.
  destruct (segs_around cfg nd n a lo hi h l A v B es fp0 ls Ha Hh Hr) as (esA & esc & esB & fpA & fpc & fpB & lsA & lsc & lsB & Har & -> & -> & ->);
    [by rewrite El|by rewrite <-El|by rewrite <-El|done|].
  exists h, l, r, found, o, A, v, B, esA, esc, esB, fpA, fpc, fpB, lsA, lsc, lsB. do 9 (split; [done|]).
  pose proof Har as [_ _ _ _ HB Hlt Hs _ _]. pose proof (short_small cfg _ Hw Hs) as Hvs.
  destruct (segs_bound_le cfg _ _ _ _ _ _ Hw Hhi HB) as [Hbs _].
  split; [by apply (child_lookup nd n a lo hi A v B esA esc esB fpA fpc fpB lsA lsc lsB r)|]. split; [|done]. destruct Hor as [(_ & _ & ?)|[_ Hb]]; [done|].
  by eapply (cmp_lt_le cfg _ (pivot_key v)); [..|lia].
Qed.

Lemma around_retracked nd b nd' n a lo hi A v B esA esc esB fpA fpc fpB lsA lsc lsB : nd' = nd ∨ retracked cfg nd b nd' →
  around cfg nd n a lo hi A v B esA esc esB fpA fpc fpB lsA lsc lsB → around cfg nd' n a lo hi A v B esA esc esB fpA fpc fpB lsA lsc lsB.
Proof using.
  intros [-> | Hre]; [done|]. intros [(h & l & Ha & Hh & Hr & Hl) H2 HA Hc HB H6 H7 H8 H9]. split; try done.
  - pose proof Hre as [(hb & hb' & lb & lb' & Hb & Hb' & Hrb & Hrb' & Hs & (_ & _ & _ & _ & Hhb) & _) Hrest].
    destruct (decide (a = b)) as [->|Hab]; [|exists h, l; by rewrite Hrest].
    rewrite Ha in Hb. injection Hb as <-. exists hb', lb'. split; [done|]. split; [by rewrite Hhb|]. split; [done|].
    pose proof (repr_pivots_same cfg _ _ _ Hr Hrb). unfold same_pivots in *. congruence.
  - eapply segs_impl; [|exact HA]. intros. by eapply (tree_retracked cfg nd b).
  - by eapply (tree_retracked cfg nd b).
  - eapply segs_impl; [|exact HB]. intros. by eapply (tree_retracked cfg nd b).
Qed.
Lemma chain_maybe nd b nd' prev ls : nd' = nd ∨ retracked cfg nd b nd' → chain nd prev ls → chain nd' prev ls.
Proof using. intros [-> | Hre]; [done|]. by eapply chain_retracked. Qed.
Lemma lookup_levels_run type n : ∀ w nd s cs a warm lo hi es fp ls pre post, ps < 2 ^ 16 → key_small lo → key_small hi → key_small K →
  st w nd (hset a READ nothing_held) s cs → tree cfg nd n a lo hi es fp ls → chain nd 0 (pre ++ ls ++ post) → fp ⊆ ns_used s →
  cmp K hi < 0 →
  ∃ leaf warm' w' nd', lookup_levels cfg n type a K warm w = Ret ((leaf, warm'), w') ∧ st w' nd' (hset leaf READ nothing_held) s cs ∧
    subtree_result cfg nd nd' s s n a lo hi fp pre post (λ es', es' = es) ∧ (n = 0%nat → nd' = nd) ∧
    ∃ h l, nd' !! leaf = Some h ∧ node_repr ps h l ∧ sorted_tuples cfg l.*2 ∧ tuple_lookup cfg l.*2 K = tuple_lookup cfg es K.
Proof using key_order0 Hps.
  induction n as [|n IH]; intros w nd s cs a warm lo hi es fp ls pre post Hw Hlo Hhi HK Hst Ht Hch Hu HKhi.
  - exists a, warm, w, nd. split; [done|]. split; [done|]. split.
    + exists es, fp, ls. split_and!; try done. clear; set_solver.
    + split; [done|]. destruct Ht as (h & l & Ha & _ & Hr & <- & Hs & _). by exists h, l.
  - destruct (lookup_child nd n a lo hi es fp ls Hw Hhi HK HKhi Ht)
      as (h & l & r & found & o & A & v & B & esA & esc & esB & fpA & fpc & fpB & lsA & lsc & lsB & Ha & Hh & Hr & Hfind & Hv & Har & -> & -> & -> & Hlk & HKb & Hvs & Hbs).
    destruct (index_get _ _ _ _ _ _ Hr Hv) as (Ho & _ & _ & _ & _ & _ & Hchild & _).
    cbn [lookup_levels]. look (peek_hdr _ _ _ _ _ a _ Hst ltac:(by rewrite hset_eq) Ha).
    rewrite (bool_decide_false (K = POSITIVE_INFINITY_KEY)) by discriminate. rewrite (bind_run _ _ w r w).
    2: { rewrite (bind_run _ _ w (r, found) w); [done|]. apply (peek_run w nd _ s cs a _ h (r, found) h Hst); [by rewrite hset_eq|done|done]. }
    rewrite (run_opt _ _ _ _ Ho), (run_opt _ _ _ _ Hchild).
    destruct (observe_run w nd _ s cs Hst) as (obs & w1 & Hrun & Hst1). rewrite (bind_run _ _ _ _ _ Hrun). clear Hrun.
    set (c := child_addr v). set (cached := bool_decide (type = PAGE_TYPE_BRANCH) && warm && obs_present obs).
    assert (Hclass : ∃ warm2 w2 nd2, (if bool_decide (type = PAGE_TYPE_BRANCH) && negb cached && warm
        then update_ac_and_classify a o obs else mret warm) w1 = Ret (warm2, w2) ∧
        st w2 nd2 (hset a READ nothing_held) s cs ∧ (nd2 = nd ∨ retracked cfg nd a nd2)).
    { destruct (bool_decide (type = PAGE_TYPE_BRANCH) && negb cached && warm).
      - destruct (classify_node_run w1 nd _ s cs a h l _ o v obs Hst1 ltac:(by rewrite hset_eq) Ha Hr ltac:(lia) Hv) as (warm2 & w2 & nd2 & H1 & H2 & H3).
        exists warm2, w2, nd2. auto.
      - exists warm, w1, nd. auto. }
    destruct Hclass as (warm2 & w2 & nd2 & Hrun & Hst2 & Hnd2). rewrite (bind_run _ _ _ _ _ Hrun). clear Hrun.
    assert (Har2 : around cfg nd2 n a lo hi A v B esA esc esB fpA fpc fpB lsA lsc lsB) by (eapply around_retracked; [exact Hnd2|exact Har]).
    pose proof Har2 as [_ _ _ Hct _ _ _ (D1 & D2 & D3) Hroot]. fold c in Hct.
    destruct (tree_node cfg _ _ _ _ _ _ _ _ Hct) as (hc & Hc & Hhc).
    assert (Hac : a ≠ c) by (intros E; apply Hroot; rewrite E; pose proof (tree_root_in cfg _ _ _ _ _ _ _ _ Hct); clear - H; set_solver).
    step (get_run _ _ _ _ _ c _ Hst2 Hc) as w3 Hst3.
    assert (Hreset : ∃ w4 nd4, (if negb cached && negb (n =? 0)%nat && bool_decide (type = PAGE_TYPE_BRANCH)
        then change_node hold_read c reset_pivot_counts else mret tt) w3 = Ret (tt, w4) ∧
        st w4 nd4 (hset c READ (hset a READ nothing_held)) s cs ∧ (nd4 = nd2 ∨ retracked cfg nd2 c nd4)).
    { destruct (negb cached && negb (n =? 0)%nat && bool_decide (type = PAGE_TYPE_BRANCH)) eqn:Et; [|exists w3, nd2; auto].
      destruct n as [|n']; [by rewrite andb_comm, !andb_false_r in Et|]. pose proof Hct as (hc' & lc & fpk & Hc' & _ & Hrc & _).
      rewrite Hc in Hc'. injection Hc' as <-.
      destruct (reset_node_run w3 nd2 _ s cs c hc lc Hst3 ltac:(by rewrite hset_eq) Hc Hrc ltac:(lia)) as (w4 & nd4 & H1 & H2 & H3).
      exists w4, nd4. auto. }
    destruct Hreset as (w4 & nd4 & Hrun & Hst4 & Hnd4). rewrite (bind_run _ _ _ _ _ Hrun). clear Hrun.
    assert (Har4 : around cfg nd4 n a lo hi A v B esA esc esB fpA fpc fpB lsA lsc lsB) by (eapply around_retracked; [exact Hnd4|exact Har2]).
    assert (Hch4 : chain nd4 0 ((pre ++ lsA) ++ lsc ++ (lsB ++ post))).
    { rewrite <-chain_regroup. eapply chain_maybe; [exact Hnd4|]. eapply chain_maybe; [exact Hnd2|exact Hch]. }
    step (unget_run _ _ _ _ _ a Hst4) as w5 Hst5.
    destruct (IH w5 nd4 s cs c warm2 (pivot_key v) (bound B hi) esc fpc lsc (pre ++ lsA) (lsB ++ post)) as (leaf & warm' & w6 & nd6 & Hrun & Hst6 & Hsub & _ & hl & ll & Hleaf & Hrl & Hsl & Hll);
      try done.
    { eapply st_ext; [exact Hst5|hold_ext]. }
    { apply Har4. }
    { clear - Hu. set_solver. }
    exists leaf, warm', w6, nd6. split; [exact Hrun|]. split; [done|]. split; [|split; [done|exists hl, ll; rewrite Hlk; done]].
    eapply (subtree_result_trans cfg Hps nd nd4 nd6 s s s _ _ _ _ _ ({[a]} ∪ (fpA ∪ (fpc ∪ fpB)))); [done|done|clear; set_solver| |].
    { intros b _ Hb. assert (Hba : b ≠ a) by (intros ->; clear - Hb; set_solver).
      assert (Hbc : b ≠ c). { intros ->. apply Hb. pose proof (tree_root_in cfg _ _ _ _ _ _ _ _ Hct). clear - H. set_solver. }
      destruct Hnd4 as [-> | [_ H4]]; [|rewrite H4 by done]; (destruct Hnd2 as [-> | [_ H2]]; [done|by rewrite H2]). }
    eapply (subtree_result_impl cfg); [|eapply (plug cfg Hps nd4 nd6 s s); [exact Har4|done|done|exact Hsub]].
    intros es' (esc' & -> & ->). done.
Qed.

(** ** The operations *)
Section at_root.
Context (w : tree_state S) (nd : gmap Z btree_hdr) (s : S) (cs : list bool) (root : Z) (type : page_type) (n : nat) (es : list tuple) (fp : gset Z) (ls : list Z).
Context (Hw : ps < 2 ^ 16) (HK : key_small K) (Hst : st w nd nothing_held s cs) (Hbt : btree_at cfg nd s root n es fp ls).
(** The state after a lookup. *)
Definition looked_up w' : Prop := ∃ nd' fp' ls', st w' nd' nothing_held s cs ∧ btree_at cfg nd' s root n es fp' ls' ∧ (n = 0%nat → nd' = nd).

Lemma lookup_with_ref_run : ∃ leaf w' nd' fp' ls', btree_lookup_with_ref cfg root type K w = Ret ((leaf, tuple_lookup cfg es K), w') ∧
  st w' nd' (match tuple_lookup cfg es K with Some _ => hset leaf READ nothing_held | None => nothing_held end) s cs ∧
  btree_at cfg nd' s root n es fp' ls' ∧ (n = 0%nat → nd' = nd).
Proof using All.
  destruct infinite_small as [Hng Hps']. pose proof Hbt as [Ht Hch Hu].
  destruct (tree_node cfg _ _ _ _ _ _ _ _ Ht) as (hr & Hroot & Hh).
  unfold btree_lookup_with_ref, btree_lookup_node.
  destruct (get_run _ _ _ _ _ root _ Hst Hroot) as (w1 & Hrun & Hst1); [done|].
  assert (Hch0 : chain nd 0 ([] ++ ls ++ [])) by by rewrite app_nil_r.
  destruct (lookup_levels_run type n w1 nd s cs root true _ _ es fp ls [] [] Hw Hng Hps' HK Hst1 Ht Hch0 Hu)
    as (leaf & warm & w2 & nd2 & Hrun2 & Hst2 & (es2 & fp2 & ls2 & Ht2 & -> & _ & Hu2 & Hch2 & _) & Hsame & h & l & Hleaf & Hr & Hs & Hlk); [done|].
  rewrite app_nil_l, app_nil_r in Hch2.
  rewrite (bind_run _ _ w (leaf, warm) w2).
  2: { rewrite (bind_run _ _ _ _ _ Hrun). rewrite (bind_run _ _ w1 hr w1) by (apply (peek_hdr _ _ _ _ _ root _ Hst1); [by rewrite hset_eq|done]).
    unfold btree_height. rewrite Hh. by replace (Z.to_nat (Z.of_nat n - 0)) with n by lia. }
  pose proof (repr_tuples_small _ _ _ Hr) as Hsm.
  destruct (find_tuple_run cfg h l K Hr Hs HK) as (r & found & Hfind & Hfinds).
  pose proof (finds_lookup cfg _ K r found Hs Hsm HK Hfinds) as Hlk2. rewrite Hlk in Hlk2.
  look (peek_run _ _ _ _ _ leaf _ _ _ _ Hst2 ltac:(by rewrite hset_eq) Hleaf Hfind). cbv beta iota. destruct found.
  - pose proof Hfinds as (Hr1 & _ & _ & Hr0). specialize (Hr0 eq_refl). unfold tuple_keys in Hr1. rewrite lengthZ_fmap in Hr1.
    destruct (proj2 (lookupZ_is_Some l.*2 r) (conj Hr0 (proj2 Hr1))) as [[k m] He]. rewrite He in Hlk2. cbn in Hlk2. rewrite Hlk2.
    rewrite lookupZ_fmap in He. destruct (lookupZ l r) as [[o [k' m']]|] eqn:Ho; [|done]. injection He as -> ->.
    destruct (leaf_get ps h l r o k m Hr Ho) as (He & _ & _ & Hm & _). unfold btree_get_tuple_message in Hm. rewrite He in Hm. cbn in Hm.
    look (peek_hdr _ _ _ _ _ leaf _ Hst2 ltac:(by rewrite hset_eq) Hleaf). rewrite (run_opt _ _ _ _ He), (run_opt _ _ _ _ Hm).
    exists leaf, w2, nd2, fp2, ls2. done.
  - rewrite Hlk2. step (unget_run _ _ _ _ _ leaf Hst2) as w3 Hst3. exists leaf, w3, nd2, fp2, ls2. split; [done|].
    split; [eapply st_ext; [exact Hst3|hold_ext]|done].
Qed.

Lemma copy_run w1 nd1 H s1 cs1 : st w1 nd1 H s1 cs1 → ∃ w2, merge_accumulator_copy_message w1 = Ret (true, w2) ∧ st w2 nd1 H s1 cs1.
Proof using.
  intros [H1 H2 H3 H4 H5]. unfold merge_accumulator_copy_message. rewrite run_get, run_mod.
  eexists. split; [|].
  - assert (E : default true (head (w_heap w1)) = true) by (destruct (w_heap w1); [done|]; by inversion H5).
    by rewrite E.
  - split; try done. cbn. destruct (w_heap w1); [done|]. by inversion H5.
Qed.
Lemma release_leaf w1 nd1 leaf : st w1 nd1 (hset leaf READ nothing_held) s cs →
  ∃ w2, btree_node_unget leaf w1 = Ret (tt, w2) ∧ st w2 nd1 nothing_held s cs.
Proof using.
  intros Hst1. destruct (unget_run _ _ _ _ _ leaf Hst1) as (w2 & Hrun & Hst2); [apply hset_eq|].
  exists w2. split; [done|]. eapply st_ext; [exact Hst2|hold_ext].
Qed.

Lemma btree_lookup_run result : ∃ w', btree_lookup cfg root type K result w =
    Ret ((STATUS_OK, match tuple_lookup cfg es K with Some m => Some m | None => result end), w') ∧ looked_up w'.
Proof using All.
  destruct lookup_with_ref_run as (leaf & w1 & nd1 & fp1 & ls1 & Hrun & Hst1 & Hbt1). unfold btree_lookup.
  rewrite (bind_run _ _ _ _ _ Hrun). destruct (tuple_lookup cfg es K) as [m|].
  - destruct (copy_run _ _ _ _ _ Hst1) as (w2 & Hc & Hst2). rewrite (bind_run _ _ _ _ _ Hc).
    destruct (release_leaf _ _ _ Hst2) as (w3 & Hg & Hst3). rewrite (bind_run _ _ _ _ _ Hg).
    exists w3. split; [done|]. by exists nd1, fp1, ls1.
  - exists w1. split; [done|]. by exists nd1, fp1, ls1.
Qed.

(** What is known of the key after this tree, [data] being known from newer ones. *)
Definition merged_lookup (data : option message) : option message * platform_status :=
  match tuple_lookup cfg es K, data with
  | None, _ => (data, STATUS_OK)
  | Some m, None => (Some m, STATUS_OK)
  | Some m, Some new =>
      let r := data_merge_tuples (bt_data_cfg cfg) K m new in
      (Some r.2, if r.1 =? 0 then STATUS_OK else STATUS_NO_MEMORY)
  end.
Lemma lookup_and_merge_run data : ∃ w', btree_lookup_and_merge cfg root type K data w =
    Ret (((merged_lookup data).2, (merged_lookup data).1, bool_decide (is_Some (tuple_lookup cfg es K))), w') ∧ looked_up w'.
Proof using All.
  destruct lookup_with_ref_run as (leaf & w1 & nd1 & fp1 & ls1 & Hrun & Hst1 & Hbt1). unfold btree_lookup_and_merge, merged_lookup.
  rewrite (bind_run _ _ _ _ _ Hrun). destruct (tuple_lookup cfg es K) as [m|].
  - destruct data as [new|].
    + destruct (data_merge_tuples (bt_data_cfg cfg) K m new) as [rc merged] eqn:Em.
      destruct (release_leaf _ _ _ Hst1) as (w3 & Hg & Hst3). exists w3. split; [|by exists nd1, fp1, ls1].
      cbn [fst snd]. rewrite (bind_run _ _ w1 _ w1 eq_refl), (bind_run _ _ _ _ _ Hg). by destruct (rc =? 0).
    + destruct (copy_run _ _ _ _ _ Hst1) as (w2 & Hc & Hst2).
      destruct (release_leaf _ _ _ Hst2) as (w3 & Hg & Hst3). exists w3. split; [|by exists nd1, fp1, ls1].
      rewrite (bind_run _ _ w1 (STATUS_OK, Some m) w2) by by rewrite (bind_run _ _ _ _ _ Hc).
      by rewrite (bind_run _ _ _ _ _ Hg).
  - exists w1. split; [done|]. by exists nd1, fp1, ls1.
Qed.
End at_root.
End lookup.
