(* ===== verification/BtreeExample.v ===== *)
(** * A tree to evaluate

    Nodes of 4096 bytes from an allocator that hands out page after page, keys
    in lexicographic order, messages merged by appending; and the empty tree. *)
From S2P Require Import Prelude Allocator Bytes DataInternal BtreeNode NodeLayout BtreeLeaf LeafMap BtreeIndex.
From S2P Require Import BtreePivot Btree BtreeTree BtreeWorld BtreeInsertLeaf BtreeInsertTree BtreeInsertLoop.

Definition append_data : data_config :=
  mk_data_config slice_lex_cmp
    (λ _ old new, (0, message_create (message_class old) (message_data old ++ message_data new)))
    (λ _ new, (0, message_create MESSAGE_TYPE_INSERT (message_data new))).
Definition small_pages : btree_config := mk_btree_config 4096 append_data.
#[export] Instance append_order : key_order (bt_data_cfg small_pages).
Proof. by apply lex_order. Qed.

Definition empty_node : btree_hdr := mk_btree_hdr 0 0 0 0 0 4096 0 (replicate 4096 0).
#[export] Instance bump_source : node_source Z := {
  ns_alloc _ s := Ret (4096 * s, s + 1);
  ns_garbage _ := empty_node;
}.
Definition bump_used (s : Z) : gset Z := list_to_set ((λ i, 4096 * i) <$> seqZ 1 (s - 1)).
Lemma bump_used_S s : 1 ≤ s → bump_used (s + 1) = {[4096 * s]} ∪ bump_used s.
Proof.
  intros Hs. apply set_eq. intros b. unfold bump_used. rewrite elem_of_union, !elem_of_list_to_set, elem_of_singleton.
  rewrite !list_elem_of_fmap. setoid_rewrite elem_of_seqZ. split.
  - intros (i & -> & Hi). destruct (decide (i = s)) as [->|]; [by left|right; exists i; split; [done|lia]].
  - intros [-> | (i & -> & Hi)]; [exists s|exists i]; (split; [done|lia]).
Qed.
#[export] Program Instance bump_laws : node_source_laws Z (btree_page_size small_pages) := {
  ns_inv s := 1 ≤ s;
  ns_used := bump_used;
  ns_room s := Z.to_nat (2 ^ 40 - s);
}.
Next Obligation.
  cbn beta. intros ht s Hs _ Hr. assert (Hlt : s < 2 ^ 40) by (clear - Hr; lia). assert (Hs' : 1 ≤ s + 1) by (clear - Hs; lia).
  exists (4096 * s), (s + 1). split; [done|]. split; [exact Hs'|]. split.
  - unfold bump_used. rewrite elem_of_list_to_set, list_elem_of_fmap. intros (i & E & Hi%elem_of_seqZ). lia.
  - split; [by apply bump_used_S|]. split; [lia|]. split; [lia|].
    change 4095 with (Z.ones 12). rewrite <-Z.ldiff_land, Z.ldiff_ones_r by lia.
    rewrite Z.shiftl_mul_pow2, Z.shiftr_div_pow2 by lia. change (2 ^ 12) with 4096. rewrite (Z.mul_comm 4096 s), Z.div_mul by lia. lia.
Qed.
Next Obligation. done. Qed.

(** The empty tree, its root the first page. *)
Definition empty_tree : tree_state Z :=
  mk_tree_state {[4096 := empty_node]} ∅ ∅ ∅ ∅ 2 [] [] [].
Lemma empty_node_repr : node_repr 4096 empty_node ([] : list (Z * tuple)).
Proof. by apply repr_empty. Qed.
Lemma empty_tree_st : st empty_tree {[4096 := empty_node]} nothing_held 2 [].
Proof. split; try done. Qed.
Lemma empty_tree_at : btree_at small_pages {[4096 := empty_node]} 2 4096 0 [] {[4096]} [4096].
Proof.
  split.
  - exists empty_node, []. split; [apply lookup_insert_eq|]. split; [done|]. split; [apply empty_node_repr|]. split; [done|].
    split; [intros i j k k' _ Hi; by rewrite lookupZ_tuple_keys, lookupZ_nil in Hi|]. split; [constructor|]. split; [constructor|done].
  - split; [|split; [done|split; [set_solver|done]]]. exists empty_node. split; [apply lookup_insert_eq|done].
  - set_solver.
Qed.
Lemma empty_tree_fresh : fresh_or_full small_pages 4096 {[4096 := empty_node]} 0 [].
Proof. intros _. split; [done|]. exists empty_node. split; [apply lookup_insert_eq|done]. Qed.

(** A node of [n] equal pivots. *)
Definition one_pivot : pivot := mk_pivot (USER_KEY []) 4096 BTREE_PIVOT_STATS_UNKNOWN.
Lemma filled_index n : 25 * Z.of_nat n ≤ 3072 → ∃ h l, node_repr 4096 h l ∧ l.*2 = replicate n one_pivot ∧
  next_entry h = 4096 - 23 * Z.of_nat n.
Proof.
  induction n as [|n IH]; intros Hn; [exists empty_node, []; split; [by apply repr_empty|done]|].
  destruct IH as (h & l & Hr & Hl & Hnext); [lia|]. assert (HL : lengthZ l = Z.of_nat n).
  { rewrite <-(lengthZ_fmap snd), Hl. unfold lengthZ. by rewrite length_replicate. }
  destruct (insert_index_run 4096 h l (lengthZ l) one_pivot Hr) as (h' & l' & _ & _ & Hn' & Hr' & Hl'); [lia| | |].
  - split; [done|]. split; [done|]. split; [done|]. split; done.
  - unfold index_room, index_slots_after. rewrite Z.ltb_irrefl, HL. apply Z.leb_le.
    change (pivot_size one_pivot) with 23. table_lia.
  - exists h', l'. split; [done|]. change (pivot_size one_pivot) with 23 in Hn'. split; [|lia].
    rewrite Hl', Hl, HL. unfold insert_at. rewrite Nat2Z.id, take_ge, drop_ge by (rewrite length_replicate; lia).
    change [one_pivot] with (replicate 1 one_pivot). rewrite <-replicate_add. f_equal. lia.
Qed.
