(* ===== verification/BtreeTheorems.v ===== *)
(** * The B-tree: theorems *)
From S2P Require Import Prelude Allocator Bytes DataInternal BtreeNode NodeLayout BtreeLeaf LeafMap BtreeSplit.
From S2P Require Import BtreeIndex BtreePivot BtreePivotFacts Btree BtreeTree BtreeWorld BtreeInsertLeaf.
From S2P Require Import BtreeInsertTree BtreePrepare BtreeInsertLoop BtreeLookup BtreeExample.

(** ** A tree between operations *)
(** The tree at [root] holds the tuples [es] in a tree of height [n]; the thread
    holds no page, and no allocation of memory is going to fail. *)
Record btree_state {S : Type} `{ns : node_source S} (cfg : btree_config) `{!node_source_laws S (btree_page_size cfg)}
    (root : Z) (n : nat) (es : list tuple) (w : tree_state S) : Prop := {
  bs_tree : ∃ fp ls, btree_at cfg (w_nodes w) (w_mini w) root n es fp ls;
  bs_held a : holding w a = NO_HOLD;
  bs_alloc : ns_inv (w_mini w);
  bs_heap : Forall (λ ok, ok = true) (w_heap w);
  bs_fresh : fresh_or_full cfg root (w_nodes w) n es;
}.
Lemma state_st {S : Type} `{ns : node_source S} cfg `{!node_source_laws S (btree_page_size cfg)} root n es w :
  btree_state cfg root n es w → st w (w_nodes w) nothing_held (w_mini w) (w_claims w).
Proof. intros [_ Hh _ Hheap _]. by split. Qed.
Lemma st_state {S : Type} `{ns : node_source S} cfg `{!node_source_laws S (btree_page_size cfg)} root n es fp ls w nd s cs :
  st w nd nothing_held s cs → btree_at cfg nd s root n es fp ls → ns_inv s → fresh_or_full cfg root nd n es →
  btree_state cfg root n es w.
Proof. intros [<- Hh <- _ Hheap] Hbt Hi Hf. split; [by exists fp, ls|done..]. Qed.

(** What an insertion needs of its tuple and of the state. *)
Record can_insert {S : Type} `{ns : node_source S} (cfg : btree_config) `{!node_source_laws S (btree_page_size cfg)}
    (n : nat) (es : list tuple) (k : list Z) (msg : message) (w : tree_state S) : Prop := {
  ci_page : 4096 ≤ btree_page_size cfg < 2 ^ 16;
  ci_new : new_ok cfg k msg es;
  ci_message : message_length msg ≤ MAX_INLINE_MESSAGE_SIZE (btree_page_size cfg);
  ci_type : message_is_invalid_user_type msg = false;
  ci_room : (8 * (failures (w_claims w) + 1) ≤ ns_room (w_mini w))%nat;
  ci_height : Z.of_nat (Nat.max 1 n) + Z.of_nat (failures (w_claims w)) + 1 < BTREE_MAX_HEIGHT;
}.

Lemma insert_result {S : Type} `{ns : node_source S} cfg `{!node_source_laws S (btree_page_size cfg)} `{!key_order (bt_data_cfg cfg)}
    root n es k msg w fuel :
  btree_state cfg root n es w → can_insert cfg n es k msg w → (failures (w_claims w) < fuel)%nat →
  ∃ unique g w' n' es', btree_insert cfg fuel root (USER_KEY k) msg w = Ret ((STATUS_OK, unique, Some g), w') ∧
    btree_state cfg root n' es' w' ∧ lookup_updated cfg es es' (USER_KEY k) (incorporated cfg es (USER_KEY k) msg) ∧
    unique = bool_decide (tuple_lookup cfg es (USER_KEY k) = None).
Proof.
  intros Hs [[Hps Hw] Hnew Hm Ht Hroom Hn] Hfuel. pose proof (state_st cfg _ _ _ _ Hs) as Hst. destruct Hs as [(fp & ls & Hbt) _ Hi _ Hf].
  destruct (insert_loop_run cfg Hps Hw k msg root fuel w _ _ _ n es fp ls Hst Hbt Hf Hnew Hi Hfuel Hroom Hn)
    as (unique & g & w' & nd' & s' & cs' & n' & es' & fp' & ls' & Hrun & Hst' & Hi' & Hbt' & Hf' & Hu & Hq).
  exists unique, g, w', n', es'. split; [|split; [by eapply st_state|done]].
  unfold btree_insert. pose proof (new_sized _ _ _ _ Hnew) as [Hsh _]. unfold short in Hsh. cbn in Hsh.
  rewrite (proj2 (Z.ltb_ge _ _)).
  - rewrite (proj2 (Z.ltb_ge _ _)) by done. by rewrite Ht.
  - unfold MAX_INLINE_KEY_SIZE. cbn. pose proof (lengthZ_nonneg k). apply Z.div_le_lower_bound; lia.
Qed.

(** The tree after a lookup: an empty root is as it was. *)
Lemma looked_up_state {S : Type} `{ns : node_source S} cfg `{!node_source_laws S (btree_page_size cfg)} root n es w w' nd' fp' ls' :
  btree_state cfg root n es w → st w' nd' nothing_held (w_mini w) (w_claims w) → btree_at cfg nd' (w_mini w) root n es fp' ls' →
  (n = 0%nat → nd' = w_nodes w) → btree_state cfg root n es w'.
Proof.
  intros [_ _ Hi _ Hf] Hst Hbt Hn. eapply st_state; [exact Hst|exact Hbt|done|].
  intros E. destruct (Hf E) as [E0 Hh]. split; [done|]. by rewrite (Hn E0).
Qed.
Lemma lookup_result {S : Type} `{ns : node_source S} cfg `{!node_source_laws S (btree_page_size cfg)} `{!key_order (bt_data_cfg cfg)}
    root type n es k result w :
  4096 ≤ btree_page_size cfg → btree_page_size cfg < 2 ^ 16 → btree_state cfg root n es w → key_small (USER_KEY k) →
  ∃ w', btree_lookup cfg root type (USER_KEY k) result w =
      Ret ((STATUS_OK, match tuple_lookup cfg es (USER_KEY k) with Some m => Some m | None => result end), w') ∧
    btree_state cfg root n es w'.
Proof.
  intros Hps Hw Hs Hk. pose proof (state_st cfg _ _ _ _ Hs) as Hst. pose proof Hs as [(fp & ls & Hbt) _ Hi _ Hf].
  destruct (btree_lookup_run cfg Hps k w _ _ _ root type n es fp ls Hw Hk Hst Hbt result) as (w' & Hrun & nd' & fp' & ls' & Hst' & Hbt' & Hn).
  exists w'. split; [done|]. by eapply looked_up_state.
Qed.

(** The empty tree takes the key [1] with the message [2]. *)
Definition one_message : message := message_create MESSAGE_TYPE_INSERT [2].
Lemma empty_tree_state : btree_state small_pages 4096 0 [] empty_tree.
Proof. eapply st_state; [apply empty_tree_st|apply empty_tree_at|cbv; done|apply empty_tree_fresh]. Qed.
Lemma empty_tree_insert : can_insert small_pages 0 [] [1] one_message empty_tree.
Proof.
  split; [done| |done|done| |done].
  - split; [split; vm_compute; done|done|done].
  - change (8 * 1 ≤ Z.to_nat (2 ^ 40 - 2))%nat. lia.
Qed.

(** C2: an insertion returns, whatever claims fail along the way (each failure makes it start over at most once):
    the status is [STATUS_OK], and the tree, still a B-tree with nothing held, maps the key to the message
    merged with what the key had, and every other key to what it was mapped to; the flag says whether the key is new. *)
Theorem btree_insert_refines {S : Type} `{ns : node_source S} cfg `{!node_source_laws S (btree_page_size cfg)} `{!key_order (bt_data_cfg cfg)}
    root n es k msg w fuel :
  btree_state cfg root n es w → can_insert cfg n es k msg w → (failures (w_claims w) < fuel)%nat →
  ∃ unique g w' n' es', btree_insert cfg fuel root (USER_KEY k) msg w = Ret ((STATUS_OK, unique, Some g), w') ∧
    btree_state cfg root n' es' w' ∧ lookup_updated cfg es es' (USER_KEY k) (incorporated cfg es (USER_KEY k) msg) ∧
    unique = bool_decide (tuple_lookup cfg es (USER_KEY k) = None).
Proof. apply (insert_result cfg root n es k msg w fuel). Qed.
Lemma btree_insert_refines_witness : ∃ unique g w' n' es',
  btree_insert small_pages 1 4096 (USER_KEY [1]) one_message empty_tree = Ret ((STATUS_OK, unique, Some g), w') ∧
  btree_state small_pages 4096 n' es' w' ∧
  lookup_updated small_pages [] es' (USER_KEY [1]) (incorporated small_pages [] (USER_KEY [1]) one_message) ∧ unique = true.
Proof.
  apply (btree_insert_refines small_pages 4096 0 [] [1] one_message empty_tree 1);
    [apply empty_tree_state|apply empty_tree_insert|cbn; lia].
Defined.

(** C24: a lookup returns the message the tree maps the key to, or leaves the result as it was when there is none;
    it leaves the tree the tuples it had, and nothing held, whatever pivot tracking sees and changes on the way. *)
Theorem btree_lookup_finds {S : Type} `{ns : node_source S} cfg `{!node_source_laws S (btree_page_size cfg)} `{!key_order (bt_data_cfg cfg)}
    root type n es k result w :
  4096 ≤ btree_page_size cfg < 2 ^ 16 → btree_state cfg root n es w → key_small (USER_KEY k) →
  ∃ w', btree_lookup cfg root type (USER_KEY k) result w =
      Ret ((STATUS_OK, match tuple_lookup cfg es (USER_KEY k) with Some m => Some m | None => result end), w') ∧
    btree_state cfg root n es w'.
Proof. intros [Hps Hw] Hs Hk. by apply lookup_result. Qed.
Lemma btree_lookup_finds_witness : ∃ w', btree_lookup small_pages 4096 PAGE_TYPE_MEMTABLE (USER_KEY [1]) None empty_tree =
  Ret ((STATUS_OK, None), w') ∧ btree_state small_pages 4096 0 [] w'.
Proof. apply (btree_lookup_finds small_pages 4096 PAGE_TYPE_MEMTABLE 0 [] [1] None empty_tree); [done|apply empty_tree_state|done]. Defined.

(** C9: after an insertion a lookup of any key finds what it should: at the inserted key the merged message, at any
    other key what was there before. *)
Theorem btree_insert_lookup {S : Type} `{ns : node_source S} cfg `{!node_source_laws S (btree_page_size cfg)} `{!key_order (bt_data_cfg cfg)}
    root type n es k msg fuel k' w :
  btree_state cfg root n es w → can_insert cfg n es k msg w → (failures (w_claims w) < fuel)%nat → key_small (USER_KEY k') →
  ∃ r w1 w2, btree_insert cfg fuel root (USER_KEY k) msg w = Ret (r, w1) ∧
    btree_lookup cfg root type (USER_KEY k') None w1 =
      Ret ((STATUS_OK, if same_key cfg (USER_KEY k) (USER_KEY k') then Some (incorporated cfg es (USER_KEY k) msg)
                       else tuple_lookup cfg es (USER_KEY k')), w2).
Proof.
  intros Hs Hc Hf Hk'. pose proof (ci_page _ _ _ _ _ _ Hc) as [Hps Hw].
  destruct (insert_result cfg root n es k msg w fuel Hs Hc Hf) as (unique & g & w1 & n' & es' & Hrun & Hs1 & Hu & _).
  destruct (lookup_result cfg root type n' es' k' None w1 Hps Hw Hs1 Hk') as (w2 & Hrun2 & _).
  exists (STATUS_OK, unique, Some g), w1, w2. split; [done|]. rewrite Hrun2, (Hu _ Hk').
  destruct (same_key cfg (USER_KEY k) (USER_KEY k')); [done|]. by destruct (tuple_lookup cfg es (USER_KEY k')).
Qed.
Lemma btree_insert_lookup_witness : ∃ r w1 w2, btree_insert small_pages 1 4096 (USER_KEY [1]) one_message empty_tree = Ret (r, w1) ∧
  btree_lookup small_pages 4096 PAGE_TYPE_MEMTABLE (USER_KEY [1]) None w1 = Ret ((STATUS_OK, Some one_message), w2).
Proof.
  apply (btree_insert_lookup small_pages 4096 PAGE_TYPE_MEMTABLE 0 [] [1] one_message 1 [1] empty_tree);
    [apply empty_tree_state|apply empty_tree_insert|cbn; lia|done].
Defined.

(** C25: a lookup that merges what the tree has with what newer trees had: the messages are merged by the application,
    older first, and the status says whether that succeeded. *)
Theorem btree_lookup_and_merge_merges {S : Type} `{ns : node_source S} cfg `{!node_source_laws S (btree_page_size cfg)} `{!key_order (bt_data_cfg cfg)}
    root type n es k data w :
  4096 ≤ btree_page_size cfg < 2 ^ 16 → btree_state cfg root n es w → key_small (USER_KEY k) →
  ∃ rc data' w', btree_lookup_and_merge cfg root type (USER_KEY k) data w =
      Ret ((rc, data', bool_decide (is_Some (tuple_lookup cfg es (USER_KEY k)))), w') ∧ btree_state cfg root n es w' ∧
    match tuple_lookup cfg es (USER_KEY k), data with
    | None, _ => rc = STATUS_OK ∧ data' = data
    | Some m, None => rc = STATUS_OK ∧ data' = Some m
    | Some m, Some new => data' = Some (data_merge_tuples (bt_data_cfg cfg) (USER_KEY k) m new).2 ∧
        (rc = STATUS_OK ↔ (data_merge_tuples (bt_data_cfg cfg) (USER_KEY k) m new).1 = 0)
    end.
Proof.
  intros [Hps Hw] Hs Hk. pose proof (state_st cfg _ _ _ _ Hs) as Hst. pose proof Hs as [(fp & ls & Hbt) _ Hi _ Hf].
  destruct (lookup_and_merge_run cfg Hps k w _ _ _ root type n es fp ls Hw Hk Hst Hbt data) as (w' & Hrun & nd' & fp' & ls' & Hst' & Hbt' & Hn).
  eexists _, _, w'. split; [exact Hrun|]. split; [by eapply looked_up_state|]. unfold merged_lookup.
  destruct (tuple_lookup cfg es (USER_KEY k)) as [m|], data as [new|]; try done. cbn [fst snd]. split; [done|].
  destruct (Z.eqb_spec (data_merge_tuples (bt_data_cfg cfg) (USER_KEY k) m new).1 0) as [E|E]; split; done.
Qed.
Lemma btree_lookup_and_merge_merges_witness : ∃ rc data' w',
  btree_lookup_and_merge small_pages 4096 PAGE_TYPE_MEMTABLE (USER_KEY [1]) (Some one_message) empty_tree = Ret ((rc, data', false), w') ∧
  btree_state small_pages 4096 0 [] w' ∧ rc = STATUS_OK ∧ data' = Some one_message.
Proof.
  apply (btree_lookup_and_merge_merges small_pages 4096 PAGE_TYPE_MEMTABLE 0 [] [1] (Some one_message) empty_tree); [done|apply empty_tree_state|done].
Defined.

(** ** An error path *)
(** The parts of a state that this path reads, the outcomes of claims and of the heap as they come. *)
Record now {S : Type} (w : tree_state S) nd (H : Z → hold) cs hp : Prop := {
  now_nodes : w_nodes w = nd;
  now_held a : holding w a = H a;
  now_claims : w_claims w = cs;
  now_heap : w_heap w = hp;
}.
Section now.
Context {S : Type} `{ns : node_source S} (cfg : btree_config).
Implicit Types (w : tree_state S).
Lemma hold_now w nd H cs hp a ok f : now w nd H cs hp → ok (H a) = true →
  ∃ w', change_hold a ok f w = Ret (tt, w') ∧ now w' nd (hset a (f (H a)) H) cs hp.
Proof.
  intros [? Hh ? ?] E. unfold change_hold. rewrite run_get, Hh, E. eexists. split; [done|]. split; try done.
  intros b. rewrite holding_set. unfold hset. by rewrite Hh.
Qed.
Lemma get_now w nd H cs hp a h : now w nd H cs hp → nd !! a = Some h → H a = NO_HOLD →
  ∃ w', btree_node_get a w = Ret (tt, w') ∧ now w' nd (hset a READ H) cs hp.
Proof.
  intros Hw Hn Ha. unfold btree_node_get. rewrite run_get, (now_nodes _ _ _ _ _ Hw), (run_opt _ _ _ _ Hn).
  apply (hold_now w nd H cs hp a _ (λ _, READ) Hw). rewrite Ha. by apply bool_decide_eq_true.
Qed.
Lemma claim_now w nd H c cs hp a : now w nd H (c :: cs) hp → H a = READ →
  ∃ w', btree_node_claim a w = Ret (c, w') ∧ now w' nd (hset a (if c then CLAIM else READ) H) cs hp.
Proof.
  intros [Hn Hh Hc Hhp] Ha. assert (Hnext : next_claim w = Ret (c, with_claims cs w)) by (unfold next_claim; by rewrite run_get, Hc).
  unfold btree_node_claim. rewrite (bind_run _ _ _ _ _ Hnext).
  destruct (hold_now (with_claims cs w) nd H cs hp a (λ x, bool_decide (x = READ)) (λ x, if c then CLAIM else x))
    as (w' & Hrun & Hw'); [by split|rewrite Ha; by apply bool_decide_eq_true|].
  rewrite (bind_run _ _ _ _ _ Hrun). rewrite Ha in Hw'. by exists w'.
Qed.
Lemma create_now w nd H cs ok hp a k msg h x : now w nd H cs (ok :: hp) → hold_read (H a) = true → nd !! a = Some h →
  btree_create_leaf_incorporate_spec cfg (λ _, ok) k msg h = Ret (x, h) →
  ∃ w', create_spec cfg a k msg w = Ret (x, w') ∧ now w' nd H cs hp.
Proof.
  intros [Hn Hh Hc Hhp] Hr Ha Hm. unfold create_spec. rewrite run_get, run_mod, Hhp. cbn [head tail default].
  exists (with_heap hp w). split; [|by split].
  unfold peek. change (holding (with_heap hp w) a) with (holding w a). change (w_nodes (with_heap hp w)) with (w_nodes w).
  rewrite Hh, Hr, Hn, Ha. cbn [from_option id]. by rewrite Hm.
Qed.
Lemma reclaim_now w nd H cs hp a h n : now w nd H (false :: true :: cs) hp → H a = READ → nd !! a = Some h →
  ∃ w' H', claim_leaf (Datatypes.S (Datatypes.S n)) a false w = Ret (true, w') ∧ now w' nd H' cs hp ∧
    ∀ b, H' b = hset a CLAIM H b.
Proof.
  intros Hw Ha Hn. cbn [claim_leaf].
  step (claim_now _ _ _ _ _ _ a Hw Ha) as w1 Hw1. cbv iota.
  step (hold_now _ _ _ _ _ a hold_read (λ x, mk_hold false (hold_claim x) (hold_write x)) Hw1 ltac:(by rewrite hset_eq)) as w2 Hw2.
  step (get_now _ _ _ _ _ a h Hw2 Hn ltac:(by rewrite !hset_eq)) as w3 Hw3.
  step (claim_now _ _ _ _ _ _ a Hw3 ltac:(by rewrite hset_eq)) as w4 Hw4. cbv iota.
  exists w4. eexists. split; [done|]. split; [exact Hw4|]. intros b. by rewrite !hset_twice.
Qed.
Lemma peek_now w nd H cs hp a h : now w nd H cs hp → hold_read (H a) = true → nd !! a = Some h → peek a mget w = Ret (h, w).
Proof. intros [Hn Hh _ _] Hr Ha. unfold peek. by rewrite Hh, Hr, Hn, Ha. Qed.
End now.

(** A full leaf that has the key, whose claim fails once so that the message is merged again, for which there is
    then no memory: the insertion reports it, and has let the leaf go, but the claim on the parent stays. *)
Theorem insert_leaf_no_memory {S : Type} `{ns : node_source S} cfg parent i child k msg (h : btree_hdr) sp sp' nd H cs hp (w : tree_state S) :
  now w nd H (true :: false :: true :: cs) (true :: false :: hp) → parent ≠ child → H parent = READ → H child = READ →
  nd !! child = Some h →
  btree_create_leaf_incorporate_spec cfg (λ _, true) k msg h = Ret ((STATUS_OK, sp), h) →
  btree_create_leaf_incorporate_spec cfg (λ _, false) k msg h = Ret ((STATUS_NO_MEMORY, sp'), h) →
  btree_can_perform_leaf_incorporate_spec h sp = Some false →
  ∃ w', insert_leaf cfg parent i child k msg w = Ret (Return STATUS_NO_MEMORY false None, w') ∧ w_nodes w' = nd ∧
    holding w' child = NO_HOLD ∧ holding w' parent = mk_hold false true false.
Proof.
  intros Hw Hne Hp Hc Hn Hok Hno Hcan. unfold insert_leaf.
  step (create_now cfg _ _ _ _ _ _ child k msg h _ Hw ltac:(by rewrite Hc) Hn Hok) as w1 Hw1. cbn beta iota.
  change (negb (SUCCESS STATUS_OK)) with false. cbn beta iota.
  look (peek_now _ _ _ _ _ child h Hw1 ltac:(by rewrite Hc) Hn). rewrite (run_opt _ _ _ _ Hcan).
  step (claim_now _ _ _ _ _ _ parent Hw1 Hp) as w2 Hw2. cbn [negb]. rewrite run_get, (now_claims _ _ _ _ _ Hw2).
  cbn [length]. destruct (reclaim_now _ _ _ _ _ child h (Datatypes.S (length cs)) Hw2 ltac:(by rewrite hset_ne) Hn) as (w3 & H3 & Hrun & Hw3 & HH3).
  rewrite (bind_run _ _ _ _ _ Hrun). clear Hrun. cbv iota.
  step (create_now cfg _ _ _ _ _ _ child k msg h _ Hw3 ltac:(by rewrite HH3, hset_eq) Hn Hno) as w4 Hw4. cbn beta iota.
  change (negb (SUCCESS STATUS_NO_MEMORY)) with true. cbv iota.
  assert (Hp3 : H3 parent = CLAIM) by (by rewrite HH3, hset_ne, hset_eq). assert (Hc3 : H3 child = CLAIM) by (by rewrite HH3, hset_eq).
  step (hold_now _ _ _ _ _ parent hold_read (λ x, mk_hold false (hold_claim x) (hold_write x)) Hw4 ltac:(by rewrite Hp3)) as w5 Hw5.
  step (hold_now _ _ _ _ _ child (λ x, hold_claim x && negb (hold_write x)) (λ x, mk_hold (hold_read x) false false) Hw5
    ltac:(by rewrite hset_ne, Hc3)) as w6 Hw6.
  step (hold_now _ _ _ _ _ child hold_read (λ x, mk_hold false (hold_claim x) (hold_write x)) Hw6
    ltac:(by rewrite hset_eq, hset_ne, Hc3)) as w7 Hw7.
  exists w7. split; [done|]. split; [apply Hw7|]. rewrite !(now_held _ _ _ _ _ Hw7).
  rewrite Hp3, !hset_eq. split; [done|]. rewrite 2!(hset_ne child parent) by done. by rewrite hset_eq.
Qed.
(** A leaf of 80 bytes that has the key, and no room for another byte of its message. *)
Definition tiny_pages : btree_config := mk_btree_config 80 append_data.
Definition tiny_leaf : btree_hdr :=
  match btree_insert_leaf_entry 0 (USER_KEY [1]) (message_create MESSAGE_TYPE_INSERT (replicate 10 7))
          (mk_btree_hdr 0 0 0 0 0 80 0 (replicate 80 0)) with
  | Ret (_, h) => h
  | _ => empty_node
  end.
Definition tiny_tree : tree_state Z :=
  mk_tree_state {[16 := tiny_leaf]} {[8 := READ; 16 := READ]} ∅ ∅ ∅ 2 [true; false; true] [true; false] [].
Lemma insert_leaf_no_memory_witness : ∃ w',
  insert_leaf tiny_pages 8 0 16 (USER_KEY [1]) (message_create MESSAGE_TYPE_UPDATE (replicate 20 8)) tiny_tree =
    Ret (Return STATUS_NO_MEMORY false None, w') ∧ w_nodes w' = {[16 := tiny_leaf]} ∧
  holding w' 16 = NO_HOLD ∧ holding w' 8 = mk_hold false true false.
Proof.
  eapply (insert_leaf_no_memory tiny_pages 8 0 16 (USER_KEY [1]) _ tiny_leaf _ _ _ (holding tiny_tree) [] [] tiny_tree).
  - by split.
  - done.
  - by vm_compute.
  - by vm_compute.
  - by vm_compute.
  - by vm_compute.
  - by vm_compute.
  - by vm_compute.
Defined.
