(* ===== verification/BtreePivotTheorems.v ===== *)
(** * Pivot tracking: theorems *)
From S2P Require Import Prelude Bytes DataInternal BtreeNode NodeLayout BtreeLeaf BtreeIndex BtreePivot BtreePivotFacts.
From S2P Require Import BtreeExample.

(** C30: what a lookup decides of a child and what it leaves of the node's counters are a function of the evict
    interval, the times and the child's byte: the child is warm when the clock hand cannot have come past it since, the
    counter restarts when it is full, and nothing of the node but its tracking bytes changes. *)
Theorem classification_matches ps h (l : list (Z * pivot)) k o v ei init now now' :
  node_repr ps h l → lookupZ l k = Some (o, v) → 0 ≤ ei < 2 ^ 64 →
  let '(warm, e) := classify ei init (u64 (now - init)) (meta v) in
  ∃ h' l', btree_update_ac_and_classify_warm ei now now' o (h, init) =
      Ret (warm, (h', if e is Restart then now' else init)) ∧
    node_repr ps h' l' ∧ l'.*2 = track k v e l.*2 ∧ tracked h h'.
Proof. intros Hr Hk He. apply (classify_run ps k o v l Hk h ei init now now' Hr He). Qed.

Lemma classification_matches_witness : ∃ h (l : list (Z * pivot)) o h' l', node_repr 4096 h l ∧ l.*2 = [one_pivot] ∧
  btree_update_ac_and_classify_warm 5 20 20 o (h, 10) = Ret (false, (h', 10)) ∧
  node_repr 4096 h' l' ∧ l'.*2 = [with_meta 1 one_pivot] ∧ tracked h h'.
Proof.
  destruct (filled_index 1) as (h & l & Hr & Hl & _); [done|].
  destruct l as [|[o v] [|]]; try done. injection Hl as ->.
  destruct (classification_matches 4096 h [(o, one_pivot)] 0 o one_pivot 5 10 20 20) as (h' & l' & H1 & H2 & H3 & H4); [done..|].
  exists h, [(o, one_pivot)], o, h', l'. done.
Defined.

(** ** Several threads *)
(** Two threads on one byte: a lookup counts while another marks the child. *)
Definition two_ops : gmap nat meta_op := {[0%nat := MetaInc; 1%nat := MetaMark]}.
Lemma two_ops_ok i o : two_ops !! i = Some o → op_ok o.
Proof. unfold two_ops. intros [[_ <-]|[_ [_ <-]%lookup_singleton_Some]]%lookup_insert_Some; done. Qed.

(** C31: the operations on a pivot's byte, however the accesses of the threads interleave, are linearizable: the byte is
    what the operations leave when they are done one after the other in the order they took effect, an operation that
    has returned took effect once, and returned what it returns in that order. *)
Theorem meta_linearizable b0 ops tr s :
  0 ≤ b0 < 256 → (∀ i o, ops !! i = Some o → op_ok o) → meta_reach b0 ops tr s →
  replay b0 tr = Some (meta_byte s) ∧ 0 ≤ meta_byte s < 256 ∧
  ∀ i o r, meta_threads s !! i = Some (Done o r) → ops !! i = Some o ∧ events i tr = [(i, (o, r))].
Proof.
  intros Hb Hops Hreach. pose proof (inv_reach b0 ops Hb Hops tr s Hreach) as Hinv.
  split; [apply (inv_replay _ _ _ _ Hinv)|]. split; [apply (inv_byte _ _ _ _ Hinv)|].
  intros i o r Hi. destruct (meta_inv_pc b0 ops tr s i _ Hinv Hi) as (o' & Ho & -> & He). done.
Qed.
Lemma meta_linearizable_witness : ∃ s, meta_reach 5 two_ops [(1%nat, (MetaMark, 5)); (0%nat, (MetaInc, 133))] s ∧
  replay 5 [(1%nat, (MetaMark, 5)); (0%nat, (MetaInc, 133))] = Some (meta_byte s).
Proof.
  pose proof (reach_init 5 two_ops) as R.
  match type of R with meta_reach _ _ _ ?s => pose proof (reach_step _ _ _ _ 0 _ _ R (step_read 0 s MetaInc eq_refl eq_refl)) as R1 end.
  match type of R1 with meta_reach _ _ _ ?s => pose proof (reach_step _ _ _ _ 1 _ _ R1 (step_single 1 s MetaMark eq_refl eq_refl)) as R2 end.
  match type of R2 with meta_reach _ _ _ ?s => pose proof (reach_step _ _ _ _ 0 _ _ R2 (step_retry 0 s MetaInc 5 eq_refl ltac:(done))) as R3 end.
  eexists. split; [exact R3|]. apply (meta_linearizable 5 two_ops _ _); [done|apply two_ops_ok|exact R3].
Defined.

(** No operation on the byte is stuck: from any state that can be reached, a thread that has not returned does
    so within two accesses when no other thread gets in between. *)
Theorem meta_obstruction_free b0 ops tr s i pc :
  0 ≤ b0 < 256 → (∀ i o, ops !! i = Some o → op_ok o) → meta_reach b0 ops tr s → meta_threads s !! i = Some pc →
  ∃ s1 s2 o r, (s1 = s ∨ ∃ l, meta_step i s l s1) ∧ (s2 = s1 ∨ ∃ l, meta_step i s1 l s2) ∧
    meta_threads s2 !! i = Some (Done o r).
Proof.
  intros Hb Hops Hreach Hi. pose proof (inv_reach b0 ops Hb Hops tr s Hreach) as Hinv.
  destruct (meta_inv_pc b0 ops tr s i _ Hinv Hi) as (o & Ho & Hok).
  assert (Hread : ∀ o, meta_step i s (early_return o (meta_byte s)) (set_thread i (after_read o (meta_byte s)) s) →
    ∃ s1 s2 o' r, (s1 = s ∨ ∃ l, meta_step i s l s1) ∧ (s2 = s1 ∨ ∃ l, meta_step i s1 l s2) ∧
      meta_threads s2 !! i = Some (Done o' r)).
  { intros o1 Hs. exists (set_thread i (after_read o1 (meta_byte s)) s). unfold after_read in *.
    destruct (loop_value o1 (meta_byte s)) as [new|] eqn:Hv.
    - eexists _, _, _. split; [right; by eexists|]. split; [right; eexists; apply (step_exchange _ _ o1 (meta_byte s) new)|];
        cbn; by rewrite ?lookup_insert_eq.
    - eexists _, _, _. split; [right; by eexists|]. split; [by left|]. cbn. by rewrite lookup_insert_eq. }
  destruct pc as [o'|o' old|o' r]; cbn in Hok.
  - destruct (is_loop o') eqn:Hl; [by apply (Hread o'), step_read|].
    eexists _, _, _, _. split; [right; eexists; by apply (step_single _ _ o')|]. split; [by left|]. cbn. by rewrite lookup_insert_eq.
  - destruct Hok as (-> & _ & _ & [new Hv]). destruct (decide (meta_byte s = old)) as [<-|Hne].
    + eexists _, _, _, _. split; [right; eexists; by apply (step_exchange _ _ o (meta_byte s) new)|]. split; [by left|].
      cbn. by rewrite lookup_insert_eq.
    + by apply (Hread o), (step_retry _ _ o old).
  - exists s, s, o', r. by repeat split; try left.
Qed.
Lemma meta_obstruction_free_witness : ∃ s1 s2 o r,
  (s1 = mk_meta_state 5 (Start <$> two_ops) ∨ ∃ l, meta_step 0 (mk_meta_state 5 (Start <$> two_ops)) l s1) ∧
  (s2 = s1 ∨ ∃ l, meta_step 0 s1 l s2) ∧ meta_threads s2 !! 0%nat = Some (Done o r).
Proof.
  apply (meta_obstruction_free 5 two_ops [] _ 0 (Start MetaInc)); [done|apply two_ops_ok|apply reach_init|done].
Defined.
