(* ===== verification/BtreeNodeTheorems.v ===== *)
(** * B-tree nodes and pivot tracking: theorems *)
From S2P Require Import Prelude Allocator Bytes DataInternal BtreeNode NodeLayout BtreeLeaf LeafMap BtreeSplit.
From S2P Require Import BtreeIndex BtreePivot BtreePivotFacts Btree BtreeTree BtreeWorld BtreeInsertLeaf BtreePrepare.
From S2P Require Import BtreeExample.

(** Leaves to evaluate: none, and one, of the tuples. *)
Definition first_message : message := message_create MESSAGE_TYPE_INSERT [2].
Lemma no_tuples_sorted : sorted_tuples small_pages [].
Proof. intros i j a b _ Hi. change (tuple_keys []) with (@nil key) in Hi. by rewrite lookupZ_nil in Hi. Qed.
Lemma one_tuple_sorted e : sorted_tuples small_pages [e].
Proof.
  intros i j a b Hij Hi Hj. rewrite lookupZ_tuple_keys in Hi, Hj. apply fmap_Some in Hi as (? & Hi%lookupZ_Some & _).
  apply fmap_Some in Hj as (? & Hj%lookupZ_Some & _). change (lengthZ [e]) with 1 in *. lia.
Qed.
Lemma one_leaf : ∃ h l, node_repr 4096 h l ∧ l.*2 = [([1], first_message)].
Proof.
  assert (Hf : tuple_fits [1] first_message) by by vm_compute.
  destruct (create_spec_run small_pages empty_node [] (λ _, true) [1] first_message empty_node_repr no_tuples_sorted) as (sp & _ & Hsp); [done|done|].
  destruct (try_perform_run small_pages empty_node [] [1] first_message sp true empty_node_repr Hf) as (h & _ & _ & Hyes);
    try apply Hsp; try apply (spec_idx small_pages _ _ _ _ Hsp).
  - destruct (spec_idx small_pages _ _ _ _ Hsp) as [Hi Hi2]. change (lengthZ [].*2) with 0 in *.
    rewrite (can_perform_room small_pages empty_node [] sp [1] first_message empty_node_repr (spec_key _ _ _ _ _ Hsp) (spec_msg _ _ _ _ _ Hsp)); [done|].
    destruct (still_exists sp); [specialize (Hi2 eq_refl); lia|done].
  - destruct (Hyes eq_refl) as (_ & _ & _ & _ & l & Hr & Hl). exists h, l. split; [done|]. rewrite Hl.
    destruct (spec_idx small_pages _ _ _ _ Hsp) as [Hi Hi2]. change (lengthZ [].*2) with 0 in *. unfold performed.
    destruct (still_exists sp); [specialize (Hi2 eq_refl); lia|]. by replace (idx sp) with 0 by lia.
Qed.

(** ** Leaves *)
(** C26: a leaf with room for the merged tuple takes it in one step, so that the leaf, still sorted, maps the key to
    the merged message and all other keys as before; a leaf without room is not changed. *)
Theorem leaf_incorporate_updates cfg `{!key_order (bt_data_cfg cfg)} h l k msg :
  node_repr (btree_page_size cfg) h l → sorted_tuples cfg l.*2 → slice_small k →
  merge_succeeds cfg (λ _, true) l.*2 (USER_KEY k) msg → tuple_fits k (incorporated cfg l.*2 (USER_KEY k) msg) →
  ∃ sp b h', btree_create_leaf_incorporate_spec cfg (λ _, true) (USER_KEY k) msg h = Ret ((STATUS_OK, sp), h) ∧
    btree_can_perform_leaf_incorporate_spec h sp = Some b ∧
    btree_try_perform_leaf_incorporate_spec sp h = Ret (if b then Some (generation h) else None, h') ∧
    if b : bool then generation h' = u64 (generation h + 1) ∧
      ∃ l', node_repr (btree_page_size cfg) h' l' ∧ sorted_tuples cfg l'.*2 ∧
        lookup_updated cfg l.*2 l'.*2 (USER_KEY k) (incorporated cfg l.*2 (USER_KEY k) msg)
    else h' = h.
Proof.
  intros Hr Hs Hk Hm Hf. pose proof (repr_tuples_small _ _ _ Hr) as Hsm.
  destruct (create_spec_run cfg h l (λ _, true) k msg Hr Hs Hk Hm) as (sp & Hc & Hsp). exists sp.
  destruct (spec_idx cfg _ _ _ _ Hsp) as [Hi Hi2]. rewrite lengthZ_fmap in Hi, Hi2.
  assert (Hcan : ∃ b, btree_can_perform_leaf_incorporate_spec h sp = Some b).
  { unfold btree_can_perform_leaf_incorporate_spec. rewrite (spec_key cfg _ _ _ _ Hsp), (repr_num _ _ _ _ Hr).
    destruct (still_exists sp); rewrite (leaf_can_set (btree_page_size cfg) h l) by (done || lia); eauto. }
  destruct Hcan as [b Hcan]. exists b.
  destruct (try_perform_run cfg h l k _ sp b Hr Hf (spec_key cfg _ _ _ _ Hsp) (spec_msg cfg _ _ _ _ Hsp) Hi Hi2 Hcan) as (h' & Hrun & Hno & Hyes).
  exists h'. do 3 (split; [done|]). destruct b; [|by apply Hno].
  destruct (Hyes eq_refl) as (Hg & _ & _ & _ & l' & Hr' & Hl'). split; [done|]. exists l'. rewrite Hl'.
  split; [done|]. by apply performed_updates.
Qed.
Lemma leaf_incorporate_updates_witness : ∃ sp b h',
  btree_create_leaf_incorporate_spec small_pages (λ _, true) (USER_KEY [1]) first_message empty_node = Ret ((STATUS_OK, sp), empty_node) ∧
  btree_can_perform_leaf_incorporate_spec empty_node sp = Some b ∧
  btree_try_perform_leaf_incorporate_spec sp empty_node = Ret (if b then Some 0 else None, h') ∧
  if b : bool then generation h' = 1 ∧ ∃ l', node_repr 4096 h' l' ∧ sorted_tuples small_pages l'.*2 ∧
    lookup_updated small_pages [] l'.*2 (USER_KEY [1]) first_message
  else h' = empty_node.
Proof.
  apply (leaf_incorporate_updates small_pages empty_node [] [1] first_message);
    [apply empty_node_repr|apply no_tuples_sorted|done|done|by vm_compute].
Defined.

(** C27: splitting a leaf for a new tuple: the leaf's tuples, with the new one in its place, are cut in two, neither
    part empty; the left part stays and the right part goes to the new node, both fit, the leaves are linked, and the
    pivot compares equal to the first key on the right. *)
Theorem leaf_split_cuts cfg `{!key_order (bt_data_cfg cfg)} h l sp k m :
  4096 ≤ btree_page_size cfg → node_repr (btree_page_size cfg) h l → spec_for cfg l.*2 k m sp → sorted_tuples cfg l.*2 →
  Forall (sized cfg) l.*2 → sized cfg (k, m) → message_class m ≠ MESSAGE_TYPE_PIVOT_DATA →
  let T := performed sp l.*2 (k, m) in 2 ≤ lengthZ T →
  ∃ plan kp e c, btree_build_leaf_splitting_plan sp h = Ret (plan, h) ∧ 0 < c < lengthZ T ∧ lookupZ T c = Some e ∧
    btree_splitting_pivot h sp plan = Some (USER_KEY kp) ∧ btree_key_compare cfg (USER_KEY kp) (USER_KEY e.1) = 0 ∧
    ∀ left_addr right_addr r, lengthZ (page r) = btree_page_size cfg →
    ∃ sp1 g1 r' lr sp2 h1 h2 ll, btree_split_leaf_build_right_node cfg h left_addr sp plan r = Ret ((sp1, g1), r') ∧
      node_repr (btree_page_size cfg) r' lr ∧ lr.*2 = drop (Z.to_nat c) T ∧ prev_addr r' = left_addr ∧ next_addr r' = next_addr h ∧
      btree_split_leaf_cleanup_left_node cfg sp1 plan right_addr h = Ret (sp2, h1) ∧
      (if insertion_goes_left plan then ∃ g, btree_try_perform_leaf_incorporate_spec sp2 h1 = Ret (Some g, h2) else h1 = h2) ∧
      node_repr (btree_page_size cfg) h2 ll ∧ ll.*2 = take (Z.to_nat c) T ∧ next_addr h2 = right_addr ∧ prev_addr h2 = prev_addr h.
Proof.
  intros Hps Hr Hsp Hs Hsz Hx Hcl T HT.
  destruct (split_leaf_nodes cfg Hps h l sp k m Hr Hsp Hs Hsz Hx Hcl HT) as (plan & kp & Hp & Hc & Hkp & _ & (e & He & Hcmp) & Hparts).
  exists plan, kp, e, (cut sp plan). do 5 (split; [done|]). intros la ra r HL.
  destruct (Hparts la r ra HL) as (sp1 & g & r' & lr & sp2 & h1 & h2 & ll & gen & H1 & H2 & H3 & H4 & H5 & _ & H7 & _ & H9 & H10 & H11 & H12 & _ & H14).
  exists sp1, g, r', lr, sp2, h1, h2, ll. do 6 (split; [done|]). split; [|done].
  destruct (insertion_goes_left plan); [by exists gen|by destruct H14].
Qed.
Lemma leaf_split_cuts_witness : ∃ h l sp, node_repr 4096 h l ∧ 2 ≤ lengthZ (performed sp l.*2 ([2], first_message)) ∧
  ∃ plan kp e c, btree_build_leaf_splitting_plan sp h = Ret (plan, h) ∧ 0 < c < lengthZ (performed sp l.*2 ([2], first_message)) ∧
    lookupZ (performed sp l.*2 ([2], first_message)) c = Some e ∧ btree_splitting_pivot h sp plan = Some (USER_KEY kp) ∧
    btree_key_compare small_pages (USER_KEY kp) (USER_KEY e.1) = 0.
Proof.
  destruct one_leaf as (h & l & Hr & Hl). assert (Hs : sorted_tuples small_pages l.*2) by (rewrite Hl; apply one_tuple_sorted).
  destruct (create_spec_run small_pages h l (λ _, true) [2] first_message Hr Hs) as (sp & _ & Hsp); [done|by rewrite Hl|].
  assert (Hinc : incorporated small_pages l.*2 (USER_KEY [2]) first_message = first_message) by by rewrite Hl.
  rewrite Hinc in Hsp. destruct (spec_idx small_pages _ _ _ _ Hsp) as [Hi Hi2].
  assert (HT : 2 ≤ lengthZ (performed sp l.*2 ([2], first_message))).
  { unfold performed. destruct (still_exists sp) eqn:E.
    - exfalso. pose proof (spec_finds small_pages _ _ _ _ Hsp) as (_ & _ & Hat & _). rewrite E in Hat. specialize (Hi2 eq_refl).
      rewrite Hl in Hat, Hi2, Hi. change (lengthZ [([1], first_message)]) with 1 in *. replace (idx sp) with 0 in Hat by lia.
      specialize (Hat (USER_KEY [1]) eq_refl). vm_compute in Hat. done.
    - rewrite lengthZ_insert_at by lia. rewrite Hl. done. }
  exists h, l, sp. split; [done|]. split; [done|].
  destruct (leaf_split_cuts small_pages h l sp [2] first_message) as (plan & kp & e & c & H1 & H2 & H3 & H4 & H5 & _); try done.
  - rewrite Hl. repeat constructor; by vm_compute.
  - exists plan, kp, e, c. done.
Defined.

(** ** Index nodes *)
(** Splitting an index node that holds at least the threshold's worth of bytes: the split index leaves pivots on
    both sides, the right ones move to the new node and the left ones stay, their statistics and children unchanged
    but for the tracking byte, and neither node is full. *)
Theorem index_split_balances cfg h (l : list (Z * pivot)) r :
  1080 ≤ btree_page_size cfg → node_repr (btree_page_size cfg) h l → lengthZ (page r) = btree_page_size cfg →
  Forall (inline_pivot cfg) l.*2 → BTREE_SPLIT_THRESHOLD (btree_page_size cfg) ≤ index_space l.*2 →
  ∃ t h' ll r' lr, btree_choose_index_split h = Ret t ∧ 0 < t < lengthZ l ∧
    btree_split_index_build_right_node cfg h t r = Ret (tt, r') ∧ node_repr (btree_page_size cfg) r' lr ∧
    lr.*2 = clean <$> drop (Z.to_nat t) l.*2 ∧ btree_truncate_index cfg t h = Ret (tt, h') ∧
    node_repr (btree_page_size cfg) h' ll ∧ clean <$> ll.*2 = clean <$> take (Z.to_nat t) l.*2 ∧
    btree_index_is_full cfg h' = false ∧ btree_index_is_full cfg r' = false ∧ height r' = height h ∧ height h' = height h.
Proof.
  intros Hps Hr HL Hin Hsp. assert (Hh : SIZEOF_BTREE_HDR ≤ btree_page_size cfg) by (unfold SIZEOF_BTREE_HDR; lia).
  destruct (choose_split_run cfg h l Hr) as (t & Hc & Ht). pose proof (halves_inside cfg _ t Hps Ht Hin Hsp) as Hb.
  rewrite lengthZ_fmap in Hb.
  destruct (right_index_run cfg h l r t Hr HL Hh ltac:(lia)) as (r' & lr & Hrun & Hrr & Hlr & Hnr & Hhr & _).
  destruct (truncate_index_run cfg h l t Hr Hh ltac:(lia)) as (h' & ll & Hrun' & Hrl & Hll & Hnl & Hhl & _).
  assert (HLr : lengthZ lr = lengthZ l - t).
  { rewrite <-(lengthZ_fmap snd lr), Hlr, lengthZ_fmap, lengthZ_drop' by (rewrite lengthZ_fmap; lia). by rewrite lengthZ_fmap. }
  assert (HLl : lengthZ ll = t).
  { rewrite <-(lengthZ_fmap snd ll), <-(lengthZ_fmap clean), Hll, lengthZ_fmap, lengthZ_take by (rewrite lengthZ_fmap; lia). done. }
  rewrite psize_drop in Hnr.
  destruct (halves_not_full cfg h l h' ll r' lr t Hr Hps Ht ltac:(lia) Hin HLl HLr Hnl Hnr) as [Hf1 Hf2].
  exists t, h', ll, r', lr. rewrite (index_full_spec cfg h' ll Hrl), (index_full_spec cfg r' lr Hrr). done.
Qed.
Lemma index_split_balances_witness : ∃ h (l : list (Z * pivot)) t h' r', node_repr 4096 h l ∧ lengthZ l = 45 ∧
  btree_choose_index_split h = Ret t ∧ 0 < t < 45 ∧
  btree_split_index_build_right_node small_pages h t empty_node = Ret (tt, r') ∧ btree_truncate_index small_pages t h = Ret (tt, h').
Proof.
  destruct (filled_index 45) as (h & l & Hr & Hl & _); [done|].
  assert (HL : lengthZ l = 45) by (rewrite <-(lengthZ_fmap snd), Hl; done).
  destruct (index_split_balances small_pages h l empty_node) as (t & h' & ll & r' & lr & H1 & H2 & H3 & _ & _ & H6 & _); try done.
  - rewrite Hl. repeat constructor; done.
  - rewrite Hl. done.
  - exists h, l, t, h', r'. rewrite HL in H2. done.
Defined.

(** ** Searches *)
(** The number of keys not above [target], and whether [target] is one of them. *)
Definition rank (cfg : btree_config) (ks : list key) (target : key) : Z :=
  lengthZ (filter (λ k, btree_key_compare cfg k target ≤ 0) ks).
Definition has_key (cfg : btree_config) (ks : list key) (target : key) : bool :=
  existsb (λ k, btree_key_compare cfg k target =? 0) ks.
Lemma length_filter_prefix (P : key → Prop) `{!∀ k, Decision (P k)} ks r :
  (∀ i k, lookupZ ks i = Some k → (P k ↔ i ≤ r)) → lengthZ (filter P ks) = Z.max 0 (Z.min (r + 1) (lengthZ ks)).
Proof.
  revert r. induction ks as [|k ks IH]; intros r Hks; [rewrite list.filter_nil; change (lengthZ (@nil key)) with 0; lia|].
  assert (E : lengthZ (filter P ks) = Z.max 0 (Z.min (r - 1 + 1) (lengthZ ks))).
  { apply IH. intros i k' Hi. pose proof (lookupZ_Some _ _ _ Hi). rewrite (Hks (i + 1) k'); [lia|].
    by rewrite lookupZ_cons_S, Z.add_simpl_r by lia. }
  specialize (Hks 0 k eq_refl). rewrite list.filter_cons, lengthZ_cons. pose proof (lengthZ_nonneg ks).
  destruct (decide (P k)) as [Hp|Hp]; rewrite ?lengthZ_cons, E.
  - apply Hks in Hp. lia.
  - assert (¬ 0 ≤ r) by (intros ?; by apply Hp, Hks). lia.
Qed.
Lemma finds_rank cfg ks target r found : finds cfg ks target r found → r = rank cfg ks target - 1 ∧ found = has_key cfg ks target.
Proof.
  intros (Hr & Hks & Hat & Hf). assert (Hp : ∀ i k, lookupZ ks i = Some k → (btree_key_compare cfg k target ≤ 0 ↔ i ≤ r)).
  { intros i k Hi. destruct (Hks i k Hi) as [Hl Hg]. destruct (Z.lt_trichotomy i r) as [?|[->|?]]; [|destruct found|]; naive_solver lia. }
  split; [unfold rank; rewrite (length_filter_prefix _ ks r Hp); lia|]. unfold has_key. symmetry.
  destruct found.
  - specialize (Hf eq_refl). destruct (proj2 (lookupZ_is_Some ks r)) as [k Hk]; [lia|]. apply existsb_exists. exists k.
    split; [by apply list_elem_of_In, (lookupZ_elem _ _ _ Hk)|by apply Z.eqb_eq, Hat].
  - apply not_true_iff_false. intros (k & Hin & E%Z.eqb_eq)%existsb_exists.
    apply list_elem_of_In, list_elem_of_lookup in Hin as [i Hi].
    assert (Hz : lookupZ ks (Z.of_nat i) = Some k) by (unfold lookupZ; by rewrite bool_decide_true, Nat2Z.id by lia).
    destruct (Hks _ _ Hz) as [Hl Hg]. destruct (Z.lt_trichotomy (Z.of_nat i) r) as [?|[<-|?]]; [|specialize (Hat _ Hz)|]; lia.
Qed.

(** C28: the binary searches of a node return, of a sorted node, the place of the last key not above the target, and
    whether it is equal to the target; they look at the node without changing it. *)
Theorem node_searches_rank cfg `{!key_order (bt_data_cfg cfg)} h (li : list (Z * pivot)) hl (ll : list (Z * tuple)) target :
  key_small target → node_repr (btree_page_size cfg) h li → sorted_keys cfg (pivot_keys li.*2) →
  node_repr (btree_page_size cfg) hl ll → sorted_tuples cfg ll.*2 →
  btree_find_pivot cfg target h =
    Ret ((rank cfg (pivot_keys li.*2) target - 1, has_key cfg (pivot_keys li.*2) target), h) ∧
  btree_find_tuple cfg target hl =
    Ret ((rank cfg (tuple_keys ll.*2) target - 1, has_key cfg (tuple_keys ll.*2) target), hl).
Proof.
  intros Ht Hr Hs Hrl Hsl. destruct (find_pivot_run (btree_page_size cfg) cfg h li target Hr Hs Ht) as (r & f & Hrun & [-> ->]%finds_rank).
  destruct (find_tuple_run cfg hl ll target Hrl Hsl Ht) as (r' & f' & Hrun' & [-> ->]%finds_rank). done.
Qed.
Lemma node_searches_rank_witness : ∃ h l, node_repr 4096 h l ∧ l.*2 = [one_pivot] ∧
  btree_find_pivot small_pages (USER_KEY [7]) h = Ret ((0, false), h) ∧
  btree_find_tuple small_pages (USER_KEY [7]) empty_node = Ret ((-1, false), empty_node).
Proof.
  destruct (filled_index 1) as (h & l & Hr & Hl & _); [done|]. exists h, l. split; [done|]. split; [done|].
  destruct (node_searches_rank small_pages h l empty_node [] (USER_KEY [7])) as [H1 H2];
    [done|done| |apply empty_node_repr|apply no_tuples_sorted|].
  - rewrite Hl. intros i j a b Hij Hi%lookupZ_Some Hj%lookupZ_Some. change (lengthZ (pivot_keys (replicate 1 one_pivot))) with 1 in *. lia.
  - rewrite Hl in H1. done.
Defined.

(** ** Tuples on disk *)
(** C29: a tuple written to a page is read back, key, message and sizes, and no byte outside its place changes; so the
    tuples that are elsewhere on the page read as before. *)
Theorem ondisk_tuple_roundtrip p odt k m :
  0 ≤ odt → odt + tuple_size k m ≤ lengthZ p → tuple_fits k m →
  ∃ p', copy_tuple_to_ondisk_tuple p odt (USER_KEY k) m = Some p' ∧ lengthZ p' = lengthZ p ∧
    ondisk_tuple_key p' odt = Some (USER_KEY k) ∧ ondisk_tuple_message p' odt = Some m ∧
    sizeof_ondisk_tuple_data p' odt = Some (lengthZ k + message_length m) ∧
    ∀ odt' k' m', odt' + tuple_size k' m' ≤ odt ∨ odt + tuple_size k m ≤ odt' → ondisk_tuple_at p odt' k' m' →
      ondisk_tuple_key p' odt' = Some (USER_KEY k') ∧ ondisk_tuple_message p' odt' = Some m'.
Proof.
  intros Ho Hl Hf. destruct (copy_tuple_ok p odt k m Ho Hl Hf) as (p' & Hc & [HL Hout] & Hat). exists p'.
  destruct (ondisk_tuple_at_read _ _ _ _ Hat) as (Hk & Hm & Hs). do 5 (split; [done|]).
  intros odt' k' m' Hap Hat'. assert (Hat2 : ondisk_tuple_at p' odt' k' m').
  { apply (ondisk_tuple_at_agree p); [done| |done]. intros i Hi. apply Hout. lia. }
  by destruct (ondisk_tuple_at_read _ _ _ _ Hat2) as (? & ? & _).
Qed.
Lemma ondisk_tuple_roundtrip_witness : ∃ p', copy_tuple_to_ondisk_tuple (replicate 20 0) 5 (USER_KEY [1; 2]) first_message = Some p' ∧
  ondisk_tuple_key p' 5 = Some (USER_KEY [1; 2]) ∧ ondisk_tuple_message p' 5 = Some first_message.
Proof.
  destruct (ondisk_tuple_roundtrip (replicate 20 0) 5 [1; 2] first_message) as (p' & H1 & _ & H2 & H3 & _); [done|by vm_compute|by vm_compute|].
  exists p'. done.
Defined.
