(* ===== verification/Merge.v ===== *)
(** * The merge iterator

    merge.c and merge.h.  A merge iterator goes over a forest of iterators and
    yields their tuples in key order; the later an iterator is in the forest the
    newer its tuples are, and (unless the mode is RAW) the messages of a key are
    merged, the newest first.

    The array [ordered_iterators] of pointers into [ordered_iterator_stored] is
    only ever permuted, so the model permutes the structs.  [mi_pad_next_key_equal]
    is the field of the struct at index -1 that the code may write. *)
From S2P Require Import Prelude DataInternal Iterator.

Definition MAX_MERGE_ARITY : Z := 1024.

Record ordered_iterator (I : Type) := mk_ordered_iterator {
  oi_itor : I;
  oi_seq : Z;
  oi_curr_key : key;
  oi_curr_data : message;
  oi_next_key_equal : bool;
}.
Arguments mk_ordered_iterator {I} _ _ _ _ _.
Arguments oi_itor {I} _.
Arguments oi_seq {I} _.
Arguments oi_curr_key {I} _.
Arguments oi_curr_data {I} _.
Arguments oi_next_key_equal {I} _.

(** [mi_curr_in_buffer]: [curr_data] points into [merge_buffer].  [mi_copies]: whether
    each copy into the merge buffer gets the memory it needs (all do after the end of
    the list).  [mi_freed]: the struct was freed. *)
Record merge_iterator (I : Type) := mk_merge_iterator {
  mi_num_trees : Z;
  mi_merge_messages : bool;
  mi_finalize_updates : bool;
  mi_emit_deletes : bool;
  mi_can_prev : bool;
  mi_can_next : bool;
  mi_num_remaining : Z;
  mi_cfg : data_config;
  mi_curr_key : key;
  mi_curr_data : message;
  mi_curr_in_buffer : bool;
  mi_forwards : bool;
  mi_pad_next_key_equal : bool;
  mi_ordered_iterators : list (ordered_iterator I);
  mi_discarded_deletes : Z;
  mi_merge_buffer : message;
  mi_copies : list bool;
  mi_freed : bool;
}.
Arguments mk_merge_iterator {I} _ _ _ _ _ _ _ _ _ _ _ _ _ _ _ _ _ _.
Arguments mi_num_trees {I} _.
Arguments mi_merge_messages {I} _.
Arguments mi_finalize_updates {I} _.
Arguments mi_emit_deletes {I} _.
Arguments mi_can_prev {I} _.
Arguments mi_can_next {I} _.
Arguments mi_num_remaining {I} _.
Arguments mi_cfg {I} _.
Arguments mi_curr_key {I} _.
Arguments mi_curr_data {I} _.
Arguments mi_curr_in_buffer {I} _.
Arguments mi_forwards {I} _.
Arguments mi_pad_next_key_equal {I} _.
Arguments mi_ordered_iterators {I} _.
Arguments mi_discarded_deletes {I} _.
Arguments mi_merge_buffer {I} _.
Arguments mi_copies {I} _.
Arguments mi_freed {I} _.

(** ** Assignments to groups of fields *)
Section assignments.
Context {I : Type}.
Implicit Types (m : merge_iterator I).
Definition set_ends (p n : bool) m : merge_iterator I :=
  mk_merge_iterator (mi_num_trees m) (mi_merge_messages m) (mi_finalize_updates m) (mi_emit_deletes m)
    p n (mi_num_remaining m) (mi_cfg m) (mi_curr_key m) (mi_curr_data m) (mi_curr_in_buffer m) (mi_forwards m)
    (mi_pad_next_key_equal m) (mi_ordered_iterators m) (mi_discarded_deletes m) (mi_merge_buffer m)
    (mi_copies m) (mi_freed m).
Definition set_curr (k : key) (d : message) (in_buffer : bool) m : merge_iterator I :=
  mk_merge_iterator (mi_num_trees m) (mi_merge_messages m) (mi_finalize_updates m) (mi_emit_deletes m)
    (mi_can_prev m) (mi_can_next m) (mi_num_remaining m) (mi_cfg m) k d in_buffer (mi_forwards m)
    (mi_pad_next_key_equal m) (mi_ordered_iterators m) (mi_discarded_deletes m) (mi_merge_buffer m)
    (mi_copies m) (mi_freed m).
Definition set_array (l : list (ordered_iterator I)) (n : Z) m : merge_iterator I :=
  mk_merge_iterator (mi_num_trees m) (mi_merge_messages m) (mi_finalize_updates m) (mi_emit_deletes m)
    (mi_can_prev m) (mi_can_next m) n (mi_cfg m) (mi_curr_key m) (mi_curr_data m) (mi_curr_in_buffer m) (mi_forwards m)
    (mi_pad_next_key_equal m) l (mi_discarded_deletes m) (mi_merge_buffer m) (mi_copies m) (mi_freed m).
Definition set_pad (b : bool) m : merge_iterator I :=
  mk_merge_iterator (mi_num_trees m) (mi_merge_messages m) (mi_finalize_updates m) (mi_emit_deletes m)
    (mi_can_prev m) (mi_can_next m) (mi_num_remaining m) (mi_cfg m) (mi_curr_key m) (mi_curr_data m)
    (mi_curr_in_buffer m) (mi_forwards m) b (mi_ordered_iterators m) (mi_discarded_deletes m)
    (mi_merge_buffer m) (mi_copies m) (mi_freed m).
Definition set_forwards (b : bool) m : merge_iterator I :=
  mk_merge_iterator (mi_num_trees m) (mi_merge_messages m) (mi_finalize_updates m) (mi_emit_deletes m)
    (mi_can_prev m) (mi_can_next m) (mi_num_remaining m) (mi_cfg m) (mi_curr_key m) (mi_curr_data m)
    (mi_curr_in_buffer m) b (mi_pad_next_key_equal m) (mi_ordered_iterators m) (mi_discarded_deletes m)
    (mi_merge_buffer m) (mi_copies m) (mi_freed m).
Definition set_buffer (b : message) (copies : list bool) m : merge_iterator I :=
  mk_merge_iterator (mi_num_trees m) (mi_merge_messages m) (mi_finalize_updates m) (mi_emit_deletes m)
    (mi_can_prev m) (mi_can_next m) (mi_num_remaining m) (mi_cfg m) (mi_curr_key m) (mi_curr_data m)
    (mi_curr_in_buffer m) (mi_forwards m) (mi_pad_next_key_equal m) (mi_ordered_iterators m)
    (mi_discarded_deletes m) b copies (mi_freed m).
Definition count_discarded m : merge_iterator I :=
  mk_merge_iterator (mi_num_trees m) (mi_merge_messages m) (mi_finalize_updates m) (mi_emit_deletes m)
    (mi_can_prev m) (mi_can_next m) (mi_num_remaining m) (mi_cfg m) (mi_curr_key m) (mi_curr_data m)
    (mi_curr_in_buffer m) (mi_forwards m) (mi_pad_next_key_equal m) (mi_ordered_iterators m)
    (u64 (mi_discarded_deletes m + 1)) (mi_merge_buffer m) (mi_copies m) (mi_freed m).
Definition set_freed m : merge_iterator I :=
  mk_merge_iterator (mi_num_trees m) (mi_merge_messages m) (mi_finalize_updates m) (mi_emit_deletes m)
    (mi_can_prev m) (mi_can_next m) (mi_num_remaining m) (mi_cfg m) (mi_curr_key m) (mi_curr_data m)
    (mi_curr_in_buffer m) (mi_forwards m) (mi_pad_next_key_equal m) (mi_ordered_iterators m)
    (mi_discarded_deletes m) (mi_merge_buffer m) (mi_copies m) true.
End assignments.

Definition oi_set_itor {I} (it : I) (o : ordered_iterator I) : ordered_iterator I :=
  mk_ordered_iterator it (oi_seq o) (oi_curr_key o) (oi_curr_data o) (oi_next_key_equal o).
Definition oi_set_curr {I} (k : key) (d : message) (o : ordered_iterator I) : ordered_iterator I :=
  mk_ordered_iterator (oi_itor o) (oi_seq o) k d (oi_next_key_equal o).
Definition oi_set_equal {I} (b : bool) (o : ordered_iterator I) : ordered_iterator I :=
  mk_ordered_iterator (oi_itor o) (oi_seq o) (oi_curr_key o) (oi_curr_data o) b.

(** [qsort_r]: the code sorts by a total order without ties, so which sorting
    algorithm the C library has does not show. *)
Fixpoint sort_insert {A} (cmp : A → A → Z) (x : A) (l : list A) : list A :=
  match l with
  | [] => [x]
  | y :: l' => if cmp x y <=? 0 then x :: l else y :: sort_insert cmp x l'
  end.
Definition platform_sort_slow {A} (cmp : A → A → Z) (l : list A) : list A := foldr (sort_insert cmp) [] l.

(** ** Comparison and search *)
Section merge.
Context {I : Type} `{!iterator_ops I}.
Implicit Types (o : ordered_iterator I) (m : merge_iterator I).

(** The comparison and [keys_equal]. *)
Definition bsearch_comp (itor_one itor_two : ordered_iterator I) (forwards : bool) (cfg : data_config) : Z * bool :=
  let cmp := data_key_compare cfg (oi_curr_key itor_one) (oi_curr_key itor_two) in
  let cmp := if forwards then cmp else - cmp in
  let keys_equal := cmp =? 0 in
  (if cmp =? 0 then oi_seq itor_two - oi_seq itor_one else cmp, keys_equal).
Definition merge_comp (forwards : bool) (cfg : data_config) (one two : ordered_iterator I) : Z :=
  (bsearch_comp one two forwards cfg).1.

(** The loop, from [base] with [lim] elements; [p] and [cmp] are those of the last
    iteration, unset before the first. *)
Fixpoint bsearch_loop (fuel : nat) (k : ordered_iterator I) (arr : list (ordered_iterator I))
    (cfg : data_config) (forwards : bool) (base lim : Z) (last : option (Z * Z)) (prev_equal next_equal : bool)
    : option (Z * bool * bool) :=
  match fuel with
  | O => None
  | S fuel' =>
      if lim =? 0 then
        p_cmp ← last;
        Some (p_cmp.1 - (if p_cmp.2 <? 0 then 1 else 0), prev_equal, next_equal)
      else
        let p := base + Z.shiftr lim 1 in
        x ← lookupZ arr p;
        let (cmp, keys_equal) := bsearch_comp k x forwards cfg in
        if 0 <? cmp
        then bsearch_loop fuel' k arr cfg forwards (p + 1) (Z.shiftr (lim - 1) 1) (Some (p, cmp))
               (prev_equal || keys_equal) next_equal
        else bsearch_loop fuel' k arr cfg forwards base (Z.shiftr lim 1) (Some (p, cmp))
               prev_equal (next_equal || ((cmp <? 0) && keys_equal))
  end.
(** The index in [base0], [prev_equal] and [next_equal]. *)
Definition bsearch_insert (k : ordered_iterator I) (base0 : list (ordered_iterator I)) (nmemb : Z)
    (cfg : data_config) (forwards : bool) : option (Z * bool * bool) :=
  bsearch_loop (S (Z.to_nat nmemb)) k base0 cfg forwards 0 nmemb None false false.

(** ** Access to the array *)
Definition at_index (i : Z) : M (merge_iterator I) (ordered_iterator I) :=
  m ← mget; mopt (lookupZ (mi_ordered_iterators m) i).
Definition put_index (i : Z) o : M (merge_iterator I) unit :=
  mmod (λ m, set_array (insertZ i o (mi_ordered_iterators m)) (mi_num_remaining m) m).
(** The first [index] pointers after the first move up by one, and the first takes the
    place after them. *)
Definition rotate_first (index : Z) (l : list (ordered_iterator I)) : list (ordered_iterator I) :=
  match l with
  | [] => []
  | o :: l' => take (Z.to_nat index) l' ++ o :: drop (Z.to_nat index) l'
  end.
Definition set_curr_ordered_iterator o : ordered_iterator I :=
  let (k, d) := iterator_curr (oi_itor o) in oi_set_curr k d o.

(** [x->itor] is stepped; the result and the iterator after it. *)
Definition mstep (forwards : bool) (itor : I) : M (merge_iterator I) (platform_status * I) := λ m,
  match iterator_step forwards itor with
  | Ret r => Ret (r, m)
  | Assert => Assert | Undef => Undef | Block => Block | Fuel => Fuel
  end.
Definition step_index (forwards : bool) (i : Z) : M (merge_iterator I) platform_status :=
  o ← at_index i;
  r ← mstep forwards (oi_itor o);
  put_index i (oi_set_itor r.2 o);;
  mret r.1.

Definition set_next_key_equal (i : Z) (b : bool) : M (merge_iterator I) unit :=
  if i =? -1 then mmod (set_pad b) else o ← at_index i; put_index i (oi_set_equal b o).

Definition advance_and_resort_min_ritor : M (merge_iterator I) platform_status :=
  o ← at_index 0;
  put_index 0 (oi_set_curr NULL_KEY NULL_MESSAGE (oi_set_equal false o));;
  m ← mget;
  rc ← step_index (mi_forwards m) 0;
  if negb (SUCCESS rc) then mret rc else
  o ← at_index 0;
  if negb (iterator_can_curr (oi_itor o)) then
    m ← mget;
    let num_remaining := mi_num_remaining m - 1 in
    (* [num_remaining] indexes the array of pointers *)
    mopt (if num_remaining <? 0 then None else Some tt);;
    mput (set_array (rotate_first num_remaining (mi_ordered_iterators m)) num_remaining m);;
    mret STATUS_OK
  else
    put_index 0 (set_curr_ordered_iterator o);;
    m ← mget;
    if mi_num_remaining m =? 1 then mret STATUS_OK else
    o ← at_index 0;
    r ← mopt (bsearch_insert o (drop 1 (mi_ordered_iterators m)) (mi_num_remaining m - 1)
                (mi_cfg m) (mi_forwards m));
    let '(r, prev_equal, next_equal) := r in
    let index := 1 + r in
    mwhen (negb (index =? 0))
      (mmod (λ m, set_array (rotate_first index (mi_ordered_iterators m)) (mi_num_remaining m) m));;
    set_next_key_equal (index - 1) prev_equal;;
    set_next_key_equal index next_equal;;
    mret STATUS_OK.
End merge.

(** ** Merging *)
Section merging.
Context {I : Type} `{!iterator_ops I}.
Implicit Types (o : ordered_iterator I) (m : merge_iterator I).

Definition merge_buffer_copy_message (msg : message) : M (merge_iterator I) bool :=
  m ← mget;
  match mi_copies m with
  | false :: copies => mput (set_buffer (mi_merge_buffer m) copies m);; mret false
  | true :: copies => mput (set_buffer msg copies m);; mret true
  | [] => mput (set_buffer msg [] m);; mret true
  end.

(** The do-while loop of [merge_resolve_equal_keys]. *)
Fixpoint resolve_loop (fuel : nat) : M (merge_iterator I) platform_status :=
  match fuel with
  | O => mfuel
  | S fuel' =>
      m ← mget;
      o ← at_index 1;
      let (result, merged) := data_merge_tuples (mi_cfg m) (mi_curr_key m) (oi_curr_data o) (mi_merge_buffer m) in
      mmod (λ m, set_buffer merged (mi_copies m) m);;
      if negb (result =? 0) then mret STATUS_NO_MEMORY else
      mmod (λ m, set_curr (oi_curr_key o) (mi_curr_data m) (mi_curr_in_buffer m) m);;
      rc ← advance_and_resort_min_ritor;
      if negb (SUCCESS rc) then mret rc else
      o ← at_index 0;
      if oi_next_key_equal o then resolve_loop fuel' else mret STATUS_OK
  end.
Definition merge_resolve_equal_keys (fuel : nat) : M (merge_iterator I) platform_status :=
  m ← mget;
  success ← merge_buffer_copy_message (mi_curr_data m);
  if negb success then mret STATUS_NO_MEMORY else
  rc ← resolve_loop fuel;
  if negb (SUCCESS rc) then mret rc else
  mmod (λ m, set_curr (mi_curr_key m) (mi_merge_buffer m) true m);;
  mret STATUS_OK.

(** The status and [discarded], which only a success sets. *)
Definition merge_finalize_updates_and_discard_deletes : M (merge_iterator I) (platform_status * bool) :=
  m ← mget;
  let class := message_class (mi_curr_data m) in
  rc ← (if negb (bool_decide (class = MESSAGE_TYPE_INSERT)) && mi_finalize_updates m then
          success ← (if negb (mi_curr_in_buffer m) then merge_buffer_copy_message (mi_curr_data m) else mret true);
          if negb success then mret STATUS_NO_MEMORY else
          m ← mget;
          let (result, merged) := data_merge_tuples_final (mi_cfg m) (mi_curr_key m) (mi_merge_buffer m) in
          mmod (λ m, set_buffer merged (mi_copies m) m);;
          if negb (result =? 0) then mret STATUS_NO_MEMORY else
          mmod (λ m, set_curr (mi_curr_key m) merged true m);;
          mret STATUS_OK
        else mret STATUS_OK);
  if negb (SUCCESS rc) then mret (rc, false) else
  m ← mget;
  if bool_decide (message_class (mi_curr_data m) = MESSAGE_TYPE_DELETE) && negb (mi_emit_deletes m) then
    mmod count_discarded;; mret (STATUS_OK, true)
  else mret (STATUS_OK, false).

(** The status and [retry]. *)
Definition advance_one_loop (fuel : nat) : M (merge_iterator I) (platform_status * bool) :=
  m ← mget;
  if mi_num_remaining m =? 0 then
    mput (if mi_forwards m then set_ends (mi_can_prev m) false m else set_ends false (mi_can_next m) m);;
    mret (STATUS_OK, false)
  else
  o ← at_index 0;
  mput (set_curr (oi_curr_key o) (oi_curr_data o) false m);;
  if negb (mi_merge_messages m) then mret (STATUS_OK, false) else
  rc ← (if oi_next_key_equal o then merge_resolve_equal_keys fuel else mret STATUS_OK);
  if negb (SUCCESS rc) then mret (rc, false) else
  '(rc, discarded) ← merge_finalize_updates_and_discard_deletes;
  if negb (SUCCESS rc) then mret (rc, false) else mret (STATUS_OK, discarded).

(** The do-while loop. *)
Fixpoint merge_advance_helper (fuel : nat) : M (merge_iterator I) platform_status :=
  match fuel with
  | O => mfuel
  | S fuel' =>
      mmod (set_curr NULL_KEY NULL_MESSAGE false);;
      rc ← advance_and_resort_min_ritor;
      if negb (SUCCESS rc) then mret rc else
      '(rc, retry) ← advance_one_loop fuel';
      if negb (SUCCESS rc) then mret rc else
      if retry : bool then merge_advance_helper fuel' else mret STATUS_OK
  end.

(** ** Set-up and direction *)
(** The while loop from [i]: dead iterators go to the end. *)
Fixpoint partition_loop (fuel : nat) (i : Z) : M (merge_iterator I) unit :=
  match fuel with
  | O => mfuel
  | S fuel' =>
      m ← mget;
      if negb (i <? mi_num_remaining m) then mret tt else
      o ← at_index i;
      mput (set_ends (mi_can_prev m || iterator_can_prev (oi_itor o))
                     (mi_can_next m || iterator_can_next (oi_itor o)) m);;
      if negb (iterator_can_curr (oi_itor o)) then
        let last := mi_num_remaining m - 1 in
        tmp ← at_index last;
        put_index last o;;
        put_index i tmp;;
        mmod (λ m, set_array (mi_ordered_iterators m) last m);;
        partition_loop fuel' i
      else
        put_index i (set_curr_ordered_iterator o);;
        partition_loop fuel' (i + 1)
  end.
(** The [next_key_equal] bits of the iterators before the last live one. *)
Definition init_next_key_equal : M (merge_iterator I) unit :=
  m ← mget;
  mfor (Z.to_nat (mi_num_remaining m - 1)) 0 (λ i,
    o ← at_index i;
    o' ← at_index (i + 1);
    put_index i (oi_set_equal (data_key_compare (mi_cfg m) (oi_curr_key o) (oi_curr_key o') =? 0) o)).

Definition merge_iterator_destroy : M (merge_iterator I) platform_status :=
  m ← mget;
  mopt (if mi_freed m then None else Some tt);;
  mput (set_freed m : merge_iterator I);;
  mret STATUS_OK.

(** [merge_move fuel forwards] is [merge_next] or [merge_prev]; [fuel] bounds the calls
    between it and [setup_ordered_iterators] and the loops. *)
Definition setup_ordered_iterators_with (move : bool → M (merge_iterator I) platform_status) (fuel : nat)
    : M (merge_iterator I) platform_status :=
  mmod (λ m, set_array (mi_ordered_iterators m) (mi_num_trees m) (set_ends false false m));;
  m ← mget;
  partition_loop (S (Z.to_nat (mi_num_trees m))) 0;;
  m ← mget;
  let n := Z.to_nat (mi_num_remaining m) in
  mput (set_array (platform_sort_slow (merge_comp (mi_forwards m) (mi_cfg m)) (take n (mi_ordered_iterators m))
                   ++ drop n (mi_ordered_iterators m)) (mi_num_remaining m) m);;
  init_next_key_equal;;
  '(rc, retry) ← advance_one_loop fuel;
  rc ← (if retry && SUCCESS rc then m ← mget; move (mi_forwards m) else mret rc);
  if negb (SUCCESS rc) then merge_iterator_destroy;; mret rc else mret rc.
(** The statuses of the steps are not looked at. *)
Definition merge_iterator_set_direction_with (setup : M (merge_iterator I) platform_status) (forwards : bool)
    : M (merge_iterator I) platform_status :=
  mmod (set_forwards forwards);;
  m ← mget;
  mfor (Z.to_nat (mi_num_trees m)) 0 (λ i,
    o ← at_index i;
    if can_step forwards (oi_itor o) then step_index forwards i;; mret tt else mret tt);;
  setup.
Fixpoint merge_move (fuel : nat) (forwards : bool) : M (merge_iterator I) platform_status :=
  match fuel with
  | O => mfuel
  | S fuel' =>
      m ← mget;
      mopt (if mi_freed m then None else Some tt);;
      if negb (eqb (mi_forwards m) forwards)
      then merge_iterator_set_direction_with (setup_ordered_iterators_with (merge_move fuel') fuel') forwards
      else merge_advance_helper fuel'
  end.
Definition merge_next (fuel : nat) : M (merge_iterator I) platform_status := merge_move fuel true.
Definition merge_prev (fuel : nat) : M (merge_iterator I) platform_status := merge_move fuel false.
Definition setup_ordered_iterators (fuel : nat) : M (merge_iterator I) platform_status :=
  setup_ordered_iterators_with (merge_move fuel) fuel.
Definition merge_iterator_set_direction (fuel : nat) (forwards : bool) : M (merge_iterator I) platform_status :=
  merge_iterator_set_direction_with (setup_ordered_iterators fuel) forwards.

Definition merge_can_prev m : bool := mi_can_prev m.
Definition merge_can_next m : bool := mi_can_next m.
Definition merge_curr m : key * message := (mi_curr_key m, mi_curr_data m).
Definition merge_ops (fuel : nat) : iterator_ops (merge_iterator I) := {|
  ops_curr := merge_curr;
  ops_can_prev := merge_can_prev;
  ops_can_next := merge_can_next;
  ops_next := merge_next fuel;
  ops_prev := merge_prev fuel;
|}.
End merging.

(** ** Creation *)
Inductive merge_behavior : Type := MERGE_RAW | MERGE_INTERMEDIATE | MERGE_FULL.
#[export] Instance merge_behavior_eq_dec : EqDecision merge_behavior.
Proof. solve_decision. Defined.

Section create.
Context {I : Type} `{!iterator_ops I}.
Fixpoint init_ordered (seq : Z) (itors : list I) : list (ordered_iterator I) :=
  match itors with
  | [] => []
  | itor :: itors' => mk_ordered_iterator itor seq NULL_KEY NULL_MESSAGE false :: init_ordered (seq + 1) itors'
  end.
Definition merge_init (cfg : data_config) (num_trees : Z) (itors : list I) (mode : merge_behavior)
    (forwards : bool) (copies : list bool) : merge_iterator I :=
  mk_merge_iterator num_trees (negb (bool_decide (mode = MERGE_RAW))) (bool_decide (mode = MERGE_FULL))
    (negb (bool_decide (mode = MERGE_FULL))) false false 0 cfg NULL_KEY NULL_MESSAGE false forwards false
    (init_ordered 0 itors) 0 NULL_MESSAGE copies false.
(** The pointers that may be null are options, [zalloc] is whether the struct can be
    allocated.  The result has [*out_itor] when it is set; what a failing set-up leaves
    is freed. *)
Definition merge_iterator_create (fuel : nat) (cfg : option data_config) (num_trees : Z) (itor_arr : option (list I))
    (mode : merge_behavior) (forwards out_itor zalloc : bool) (copies : list bool)
    : outcome (platform_status * option (merge_iterator I)) :=
  match cfg, itor_arr with
  | Some cfg, Some itors =>
      if negb out_itor || (num_trees <? 0) || (MAX_MERGE_ARITY <=? num_trees) then Ret (STATUS_BAD_PARAM, None)
      else if negb zalloc then Ret (STATUS_NO_MEMORY, None)
      else if lengthZ itors <? num_trees then Undef
      else
        match setup_ordered_iterators fuel
                (merge_init cfg num_trees (take (Z.to_nat num_trees) itors) mode forwards copies) with
        | Ret (rc, m) => Ret (rc, if SUCCESS rc then Some m else None)
        | Assert => Assert | Undef => Undef | Block => Block | Fuel => Fuel
        end
  | _, _ => Ret (STATUS_BAD_PARAM, None)
  end.
End create.
