(* ===== verification/MergeOrder.v ===== *)
(** * The order of a merge

    The tuples of a forest tagged with the place of their iterator, the order the
    merge iterator keeps, and its binary search against that order. *)
From stdpp Require Import sorting.
From S2P Require Import Prelude DataInternal Iterator Merge.

(** ** Sorting *)
Section sort.
Context {A : Type} (cmp : A → A → Z) (P : A → Prop).
Hypothesis cmp_trans : ∀ x y z, P x → P y → P z → cmp x y < 0 → cmp y z < 0 → cmp x z < 0.
Local Abbreviation lt := (λ x y, cmp x y < 0).
(** Never a tie. *)
Definition compared (x y : A) : Prop := cmp x y < 0 ∨ 0 < cmp x y ∧ cmp y x < 0.

Lemma sort_insert_perm x l : sort_insert cmp x l ≡ₚ x :: l.
Proof using. induction l as [|y l IH]; cbn; [done|]. case_match; [done|]. rewrite IH. apply Permutation_swap. Qed.
Lemma sort_perm l : platform_sort_slow cmp l ≡ₚ l.
Proof using. induction l as [|x l IH]; cbn; [done|]. by rewrite sort_insert_perm, IH. Qed.
Lemma sort_insert_sorted x l : P x → Forall P l → Forall (compared x) l →
  StronglySorted lt l → StronglySorted lt (sort_insert cmp x l).
Proof using cmp_trans.
  intros Hx. induction l as [|y l IH]; intros HP Hc Hs; [by repeat constructor|]. cbn.
  apply list.Forall_cons in HP as [Hy HP]. apply list.Forall_cons in Hc as [Hxy Hc].
  pose proof Hs as [Hyl Hs']%StronglySorted_cons. unfold compared in Hxy. destruct (Z.leb_spec (cmp x y) 0).
  - apply StronglySorted_cons. split; [|done]. constructor; [lia|].
    rewrite list.Forall_forall in HP, Hyl |- *. intros z Hz. apply (cmp_trans x y z); [done|done|by apply HP|lia|by apply Hyl].
  - apply StronglySorted_cons. split; [|by apply IH]. rewrite sort_insert_perm. constructor; [lia|done].
Qed.
Lemma sort_sorted l : Forall P l → StronglySorted compared l → StronglySorted lt (platform_sort_slow cmp l).
Proof using cmp_trans.
  induction l as [|x l IH]; intros HP Hc; [constructor|].
  change (platform_sort_slow cmp (x :: l)) with (sort_insert cmp x (platform_sort_slow cmp l)). apply list.Forall_cons in HP as [Hx HP].
  apply StronglySorted_cons in Hc as [Hxl Hc].
  apply sort_insert_sorted; [done|by rewrite sort_perm|by rewrite sort_perm|by apply IH].
Qed.
End sort.

(** A tuple and the [seq] of the iterator it comes from. *)
Abbreviation entry := (Z * (key * message))%type.
Definition entry_key (e : entry) : key := e.2.1.
Definition entry_small (e : entry) : Prop := key_small (entry_key e).

Section order.
Context (cfg : data_config) `{!key_order cfg} (forwards : bool).

(** The comparison of keys in the direction of the traversal. *)
Definition key_cmp (k k' : key) : Z :=
  if forwards then data_key_compare cfg k k' else - data_key_compare cfg k k'.
Definition entry_cmp (e e' : entry) : Z :=
  if key_cmp (entry_key e) (entry_key e') =? 0 then e'.1 - e.1 else key_cmp (entry_key e) (entry_key e').
Definition before (e e' : entry) : Prop := entry_cmp e e' < 0.
#[export] Instance before_dec e e' : Decision (before e e').
Proof. unfold before. apply _. Defined.

Lemma key_cmp_sym k k' : key_small k → key_small k' → Z.sgn (key_cmp k k') = - Z.sgn (key_cmp k' k).
Proof. intros H H'. unfold key_cmp. pose proof (dkc_sym cfg k k' H H'). destruct forwards; lia. Qed.
Lemma key_cmp_trans a b c : key_small a → key_small b → key_small c →
  key_cmp a b ≤ 0 → key_cmp b c ≤ 0 → key_cmp a c ≤ 0.
Proof.
  intros Ha Hb Hc. unfold key_cmp. destruct forwards; [by apply dkc_trans|].
  intros H1 H2. pose proof (dkc_sym cfg a b Ha Hb). pose proof (dkc_sym cfg b c Hb Hc).
  pose proof (dkc_sym cfg a c Ha Hc). pose proof (dkc_trans cfg c b a Hc Hb Ha). lia.
Qed.
Lemma key_cmp_refl k : key_small k → key_cmp k k = 0.
Proof. intros H. pose proof (key_cmp_sym k k H H). lia. Qed.
Lemma key_cmp_zero k k' : (key_cmp k k' =? 0) = (data_key_compare cfg k k' =? 0).
Proof. unfold key_cmp. destruct forwards; lia. Qed.
(** Keys that compare equal compare alike. *)
Lemma key_cmp_eq_l a b c : key_small a → key_small b → key_small c →
  key_cmp a b = 0 → Z.sgn (key_cmp a c) = Z.sgn (key_cmp b c).
Proof.
  intros Ha Hb Hc Hab. pose proof (key_cmp_sym a b Ha Hb). pose proof (key_cmp_sym b c Hb Hc).
  pose proof (key_cmp_sym a c Ha Hc).
  pose proof (key_cmp_trans a b c Ha Hb Hc). pose proof (key_cmp_trans b a c Hb Ha Hc).
  pose proof (key_cmp_trans c a b Hc Ha Hb). pose proof (key_cmp_trans c b a Hc Hb Ha). lia.
Qed.

Lemma key_cmp_lt_le a b c : key_small a → key_small b → key_small c →
  key_cmp a b < 0 → key_cmp b c ≤ 0 → key_cmp a c < 0.
Proof.
  intros Ha Hb Hc Hab Hbc. pose proof (key_cmp_sym a b Ha Hb). pose proof (key_cmp_sym a c Ha Hc).
  pose proof (key_cmp_trans a b c Ha Hb Hc ltac:(lia) Hbc). pose proof (key_cmp_trans b c a Hb Hc Ha Hbc). lia.
Qed.
Lemma before_le e e' : before e e' → key_cmp (entry_key e) (entry_key e') ≤ 0.
Proof. unfold before, entry_cmp. case_match; lia. Qed.
Lemma before_irrefl e : entry_small e → ¬ before e e.
Proof. unfold before, entry_cmp. intros H. rewrite key_cmp_refl by done. cbn. lia. Qed.
Lemma before_asym e e' : entry_small e → entry_small e' → before e e' → ¬ before e' e.
Proof.
  unfold before, entry_cmp. intros H H'. pose proof (key_cmp_sym _ _ H H').
  destruct (Z.eqb_spec (key_cmp (entry_key e) (entry_key e')) 0),
    (Z.eqb_spec (key_cmp (entry_key e') (entry_key e)) 0); lia.
Qed.
Lemma before_flip e e' : entry_small e → entry_small e' → before e e' → 0 < entry_cmp e' e.
Proof.
  unfold before, entry_cmp. intros H H'. pose proof (key_cmp_sym _ _ H H').
  destruct (Z.eqb_spec (key_cmp (entry_key e) (entry_key e')) 0),
    (Z.eqb_spec (key_cmp (entry_key e') (entry_key e)) 0); lia.
Qed.
(** A key between two equal ones in the order is equal to them. *)
Lemma before_between a b c : entry_small a → entry_small b → entry_small c →
  before a b → before b c → key_cmp (entry_key a) (entry_key c) = 0 → key_cmp (entry_key b) (entry_key c) = 0.
Proof.
  intros Ha Hb Hc Hab%before_le Hbc%before_le Hac.
  pose proof (key_cmp_eq_l _ _ _ Ha Hc Hb Hac). pose proof (key_cmp_sym _ _ Hb Hc). lia.
Qed.
Lemma before_total e e' : entry_small e → entry_small e' → e.1 ≠ e'.1 → before e e' ∨ before e' e.
Proof.
  unfold before, entry_cmp. intros H H' Hne. pose proof (key_cmp_sym _ _ H H').
  destruct (Z.eqb_spec (key_cmp (entry_key e) (entry_key e')) 0),
    (Z.eqb_spec (key_cmp (entry_key e') (entry_key e)) 0); lia.
Qed.
Lemma before_trans e e' e'' : entry_small e → entry_small e' → entry_small e'' →
  before e e' → before e' e'' → before e e''.
Proof.
  unfold before, entry_cmp. intros H H' H''.
  pose proof (key_cmp_sym _ _ H H') as S1. pose proof (key_cmp_sym _ _ H' H'') as S2.
  pose proof (key_cmp_sym _ _ H H'') as S3.
  pose proof (key_cmp_trans _ _ _ H H' H'') as T1. pose proof (key_cmp_trans _ _ _ H'' H H') as T2.
  pose proof (key_cmp_trans _ _ _ H' H'' H) as T3.
  destruct (Z.eqb_spec (key_cmp (entry_key e) (entry_key e')) 0),
    (Z.eqb_spec (key_cmp (entry_key e') (entry_key e'')) 0),
    (Z.eqb_spec (key_cmp (entry_key e) (entry_key e'')) 0); lia.
Qed.
End order.

(** ** The search of [bsearch_insert] *)
Section search.
Context {I : Type} (cfg : data_config) (forwards : bool).
Implicit Types (o : ordered_iterator I) (arr : list (ordered_iterator I)).

Definition oi_entry o : entry := (oi_seq o, (oi_curr_key o, oi_curr_data o)).
Definition keys_equal o o' : bool := data_key_compare cfg (oi_curr_key o) (oi_curr_key o') =? 0.

Lemma bsearch_comp_entry o o' :
  bsearch_comp o o' forwards cfg = (entry_cmp cfg forwards (oi_entry o) (oi_entry o'), keys_equal o o').
Proof.
  unfold bsearch_comp, entry_cmp, keys_equal, key_cmp. destruct forwards; cbn; f_equal; lia.
Qed.

(** An array whose elements compare to [k] with the sign [c] and the equality [q]
    crosses at [r]; equal keys are next to the crossing. *)
Definition crosses k arr (n r : Z) (c : Z → Z) (q : Z → bool) : Prop :=
  (∀ i, 0 ≤ i < n → ∃ x, lookupZ arr i = Some x ∧ bsearch_comp k x forwards cfg = (c i, q i)) ∧
  (∀ i, 0 ≤ i < n → if i <? r then 0 < c i else c i < 0) ∧
  (∀ i j, 0 ≤ i ≤ j → j < r → q i = true → q j = true) ∧
  (∀ i j, r ≤ j ≤ i → i < n → q i = true → q j = true).

Lemma bsearch_loop_run fuel k arr n r c q base lim last :
  crosses k arr n r c q → (Z.to_nat lim < fuel)%nat →
  0 ≤ base → 0 ≤ lim → base ≤ r ≤ base + lim → base + lim ≤ n →
  (lim = 0 → ∃ p x, last = Some (p, x) ∧ (0 < x ∧ base = p + 1 ∨ x < 0 ∧ p = base)) →
  bsearch_loop fuel k arr cfg forwards base lim last
    ((0 <? base) && q (base - 1)) ((base + lim <? n) && q (base + lim)) =
  Some (r - 1, (0 <? r) && q (r - 1), (r <? n) && q r).
Proof.
  intros (Hc & Hs & Hl & Hr). revert base lim last.
  induction fuel as [|fuel IH]; intros base lim last Hf Hb Hlim Hbr Hn Hlast; [lia|]. cbn [bsearch_loop].
  destruct (Z.eqb_spec lim 0) as [->|Hne].
  - destruct (Hlast eq_refl) as (p & x & -> & Hp). cbn.
    assert (base = r) as -> by lia. rewrite Z.add_0_r.
    by assert (p - (if x <? 0 then 1 else 0) = r - 1) as -> by (destruct (Z.ltb_spec x 0); lia).
  - set (p := base + Z.shiftr lim 1).
    assert (Hp : Z.shiftr lim 1 = lim / 2) by (by rewrite Z.shiftr_div_pow2).
    assert (Hpe : p = base + lim / 2) by (unfold p; lia).
    assert (Hp' : Z.shiftr (lim - 1) 1 = (lim - 1) / 2) by (by rewrite Z.shiftr_div_pow2).
    pose proof (Z.div_mod lim 2 ltac:(lia)). pose proof (Z.mod_pos_bound lim 2 ltac:(lia)).
    pose proof (Z.div_mod (lim - 1) 2 ltac:(lia)). pose proof (Z.mod_pos_bound (lim - 1) 2 ltac:(lia)).
    destruct (Hc p) as (x & Hx & Hcx); [lia|]. rewrite Hx. cbn [mbind option_bind]. rewrite Hcx.
    pose proof (Hs p ltac:(lia)) as Hsp. destruct (Z.ltb_spec p r).
    + rewrite (proj2 (Z.ltb_lt 0 (c p))) by lia.
      replace ((0 <? base) && q (base - 1) || q p) with ((0 <? p + 1) && q (p + 1 - 1)).
      2:{ rewrite Z.add_simpl_r. destruct (Z.ltb_spec 0 (p + 1)); [|lia]. cbn.
          destruct (Z.ltb_spec 0 base); [|done]. cbn.
          destruct (q (base - 1)) eqn:Hq; [|done]. cbn. apply (Hl (base - 1)); [lia|lia|done]. }
      replace (base + lim) with (p + 1 + Z.shiftr (lim - 1) 1) by lia.
      apply IH; try lia. intros ?. exists p, (c p). split; [done|]. lia.
    + rewrite (proj2 (Z.ltb_ge 0 (c p))) by lia. rewrite (proj2 (Z.ltb_lt (c p) 0)) by lia. cbn [andb].
      replace ((base + lim <? n) && q (base + lim) || q p) with ((base + Z.shiftr lim 1 <? n) && q (base + Z.shiftr lim 1)).
      2:{ change (base + Z.shiftr lim 1) with p. destruct (Z.ltb_spec p n); [|lia]. cbn. destruct (Z.ltb_spec (base + lim) n); [|done]. cbn.
          destruct (q (base + lim)) eqn:Hq; [|done]. cbn. apply (Hr (base + lim)); [lia|lia|done]. }
      apply IH; try lia. intros ?. exists p, (c p). split; [done|]. lia.
Qed.
Lemma bsearch_insert_run k arr n r c q : crosses k arr n r c q → 0 < n → 0 ≤ r ≤ n →
  bsearch_insert k arr n cfg forwards = Some (r - 1, (0 <? r) && q (r - 1), (r <? n) && q r).
Proof.
  intros H Hn Hr. unfold bsearch_insert.
  pose proof (bsearch_loop_run (S (Z.to_nat n)) k arr n r c q 0 n None H) as E.
  rewrite Z.ltb_irrefl, Z.add_0_l, Z.ltb_irrefl in E. apply E; lia.
Qed.
End search.

(** * The array of a merge iterator

    What the live part of [ordered_iterators] says of the tuples still to come
    ([live_rep]), and what advancing the first iterator does to it. *)
Lemma join_cons {A} (l : list A) ls : mjoin (l :: ls) = l ++ mjoin ls.
Proof. done. Qed.

Section array.
Context {I : Type} `{!iterator_ops I} (cfg : data_config) `{!key_order cfg} (forwards : bool).
Implicit Types (o : ordered_iterator I) (live : list (ordered_iterator I)) (ts : list entry).
Local Abbreviation before := (before cfg forwards).

Definition oi_curr o : key * message := (oi_curr_key o, oi_curr_data o).
Definition tagged (seq : Z) (l : list (key * message)) : list entry := (λ x, (seq, x)) <$> l.
(** The tuples an iterator still has, with the current one. *)
Definition pending o (l : list (key * message)) : list entry := tagged (oi_seq o) (oi_curr o :: l).
Definition runs o (l : list (key * message)) : Prop :=
  yields forwards (oi_itor o) (oi_curr o :: l) ∧ StronglySorted before (pending o l).

(** The iterators [live] stand at the first tuples of [ts], and [ls] are what follows
    the current tuple of each. *)
Record live_rep live (ls : list (list (key * message))) ts : Prop := {
  lr_runs : Forall2 runs live ls;
  lr_sorted : StronglySorted before (oi_entry <$> live);
  lr_seqs : NoDup (oi_seq <$> live);
  lr_ts : StronglySorted before ts;
  lr_perm : ts ≡ₚ mjoin (zip_with pending live ls);
  lr_small : Forall entry_small ts;
}.
(** [next_key_equal] says whether the next iterator has the same key. *)
Fixpoint flags_ok live : Prop :=
  match live with
  | [] => True
  | o :: live' =>
      oi_next_key_equal o = match live' with [] => false | o' :: _ => keys_equal cfg o o' end ∧ flags_ok live'
  end.

Lemma pending_cons o l : pending o l = oi_entry o :: tagged (oi_seq o) l.
Proof. done. Qed.
Lemma live_entry live ls ts o : live_rep live ls ts → o ∈ live → oi_entry o ∈ ts.
Proof.
  intros [Hr _ _ _ -> _] Ho. apply list_elem_of_lookup in Ho as [i Hi].
  destruct (Forall2_lookup_l _ _ _ _ _ Hr Hi) as (l & Hl & _).
  apply list_elem_of_join. exists (pending o l). split; [by left|].
  apply list_elem_of_lookup. exists i. by rewrite lookup_zip_with, Hi; cbn; rewrite Hl.
Qed.
Lemma live_small live ls ts o : live_rep live ls ts → o ∈ live → entry_small (oi_entry o).
Proof. intros Hr Ho. eapply list.Forall_forall; [apply (lr_small _ _ _ Hr)|]. by eapply live_entry. Qed.
Lemma live_nil ls ts : live_rep [] ls ts → ts = [].
Proof. intros [Hr _ _ _ Hp _]. inversion Hr; subst. cbn in Hp. by apply Permutation_nil_r. Qed.
Lemma live_ts_nil live ls : live_rep live ls [] → live = [].
Proof.
  intros H. destruct live as [|o live]; [done|]. exfalso.
  apply (list.not_elem_of_nil (oi_entry o)). apply (live_entry _ _ _ _ H). by left.
Qed.

(** The first live iterator has the first tuple. *)
Lemma live_head o live ls e ts : live_rep (o :: live) ls (e :: ts) → e = oi_entry o.
Proof.
  intros H. pose proof (live_entry _ _ _ o H ltac:(by left)) as Ho.
  pose proof (lr_ts _ _ _ H) as Hts. pose proof (lr_small _ _ _ H) as Hsm.
  apply list.elem_of_cons in Ho as [|Ho]; [done|]. exfalso.
  apply StronglySorted_inv in Hts as [_ He]. rewrite list.Forall_forall in He. specialize (He _ Ho).
  assert (Hme : e ∈ mjoin (zip_with pending (o :: live) ls)) by (rewrite <-(lr_perm _ _ _ H); by left).
  apply list_elem_of_join in Hme as (p & Hep & Hp).
  apply list_elem_of_lookup in Hp as [i Hi]. rewrite lookup_zip_with in Hi.
  destruct ((o :: live) !! i) as [o'|] eqn:Hoi; [|done]. cbn in Hi.
  destruct (ls !! i) as [l|] eqn:Hli; [|done]. cbn in Hi. simplify_eq.
  rewrite list.Forall_forall in Hsm.
  assert (Hse : entry_small e) by (apply Hsm; by left).
  assert (Hso : entry_small (oi_entry o)) by (apply Hsm; by right).
  assert (Ho'e : oi_entry o' = e ∨ before (oi_entry o') e).
  { destruct (Forall2_lookup_lr _ _ _ _ _ _ (lr_runs _ _ _ H) Hoi Hli) as [_ Hs].
    apply StronglySorted_inv in Hs as [_ Hs]. apply list.elem_of_cons in Hep as [->|Hep]; [by left|]. right. rewrite list.Forall_forall in Hs. by apply Hs. }
  assert (Hso' : entry_small (oi_entry o')) by (eapply live_small; [done|by eapply list_elem_of_lookup_2]).
  assert (Hoo' : o = o' ∨ before (oi_entry o) (oi_entry o')).
  { pose proof (lr_sorted _ _ _ H) as Hs. cbn in Hs. apply StronglySorted_inv in Hs as [_ Hs].
    destruct i as [|i]; cbn in Hoi; [left; congruence|]. right. rewrite list.Forall_forall in Hs. apply Hs.
    apply list_elem_of_fmap. exists o'. split; [done|]. by eapply list_elem_of_lookup_2. }
  assert (Hcyc : before e (oi_entry o')).
  { destruct Hoo' as [->|Hoo']; [done|]. by apply (before_trans cfg forwards _ (oi_entry o)). }
  destruct Ho'e as [<-|Ho'e]; [by eapply before_irrefl|]. by eapply (before_asym cfg forwards e).
Qed.

(** ** The first iterator leaves *)
Lemma flags_tail o live : flags_ok (o :: live) → flags_ok live.
Proof. by intros [_ H]. Qed.
Lemma live_exhausted o live ls e ts :
  live_rep (o :: live) ([] :: ls) (e :: ts) → live_rep live ls ts.
Proof.
  intros H. pose proof (live_head _ _ _ _ _ H) as ->. destruct H as [Hr Hs Hn Ht Hp Hsm].
  inversion Hr; subst. split.
  - done.
  - by cbn in Hs; apply StronglySorted_inv in Hs as [Hs _].
  - by cbn in Hn; apply list.NoDup_cons in Hn as [_ Hn].
  - by apply StronglySorted_inv in Ht as [Ht _].
  - by apply (inj (oi_entry o ::.)) in Hp.
  - by inversion Hsm.
Qed.

(** ** The first iterator is put at its new place *)
(** Its place among the others. *)
Lemma live_place o (live : list (ordered_iterator I)) :
  StronglySorted before (oi_entry <$> live) → Forall entry_small (oi_entry <$> live) →
  entry_small (oi_entry o) → oi_seq o ∉ (oi_seq <$> live) →
  ∃ L1 L2, live = L1 ++ L2 ∧ Forall (λ x, before (oi_entry x) (oi_entry o)) L1 ∧
    Forall (λ x, before (oi_entry o) (oi_entry x)) L2.
Proof.
  intros Hs Hsm Ho Hni. induction live as [|a live IH]; [by exists [], []|]. cbn in *.
  apply StronglySorted_cons in Hs as [Ha Hs]. apply list.Forall_cons in Hsm as [Hsa Hsm].
  apply list.not_elem_of_cons in Hni as [Hne Hni].
  destruct (before_total cfg forwards (oi_entry o) (oi_entry a)) as [Hlt|Hlt]; [done..| |].
  - exists [], (a :: live). split; [done|]. split; [done|]. constructor; [done|].
    rewrite list.Forall_fmap in Ha, Hsm. rewrite list.Forall_forall in Ha, Hsm |- *. intros x Hx.
    apply (before_trans cfg forwards _ (oi_entry a)); [done|done|by apply Hsm|done|by apply Ha].
  - destruct IH as (L1 & L2 & -> & H1 & H2); [done..|]. exists (a :: L1), L2. split; [done|].
    split; [by constructor|done].
Qed.

Lemma live_reinsert o x L1 L2 l ls e ts o1 :
  live_rep (o :: L1 ++ L2) ((x :: l) :: ls) (e :: ts) →
  oi_seq o1 = oi_seq o → oi_curr o1 = x → yields forwards (oi_itor o1) (x :: l) →
  Forall (λ y, before (oi_entry y) (oi_entry o1)) L1 → Forall (λ y, before (oi_entry o1) (oi_entry y)) L2 →
  ∃ ls', live_rep (L1 ++ o1 :: L2) ls' ts.
Proof.
  intros H Hseq Hcur Hy H1 H2. pose proof (live_head _ _ _ _ _ H) as ->. destruct H as [Hr Hs Hn Ht Hp Hsm].
  apply list.Forall2_cons in Hr as [[_ Hown] Hr]. apply Forall2_app_inv_l in Hr as (lsa & lsb & Hra & Hrb & ->).
  exists (lsa ++ l :: lsb).
  assert (Hpo : pending o1 l = tagged (oi_seq o) (x :: l)) by (unfold pending; by rewrite Hseq, Hcur).
  split.
  - apply Forall2_app; [done|]. constructor; [|done]. split; [by rewrite Hcur|].
    rewrite Hpo. by apply StronglySorted_inv in Hown as [Hown _].
  - cbn in Hs. apply StronglySorted_inv in Hs as [Hs _]. rewrite fmap_app in Hs |- *. cbn [fmap list_fmap].
    apply StronglySorted_app in Hs as (H12 & Hs1 & Hs2).
    rewrite list.Forall_forall in H1, H2. apply StronglySorted_app_2; [|done|].
    + intros a b Ha Hb. apply list.elem_of_cons in Hb as [->|Hb]; [|by apply H12].
      apply list_elem_of_fmap in Ha as (y & -> & Hy'). by apply H1.
    + constructor; [done|]. apply list.Forall_fmap, list.Forall_forall. exact H2.
  - rewrite fmap_app. cbn [fmap list_fmap]. rewrite Hseq, <-Permutation_middle, <-fmap_app. done.
  - by apply StronglySorted_inv in Ht as [Ht _].
  - apply Forall2_length in Hra. cbn [zip_with mjoin list_join] in Hp.
    rewrite pending_cons in Hp. cbn [app] in Hp. apply (inj (oi_entry o ::.)) in Hp. rewrite Hp.
    rewrite !zip_with_app by done. rewrite !join_app. cbn [zip_with mjoin list_join]. rewrite Hpo.
    rewrite !(assoc (++)). by rewrite (comm (++) (tagged _ _)).
  - by inversion Hsm.
Qed.
End array.

(** * What a merge should yield

    The reference a merge iterator is proved against: the tuples of all iterators in
    key order, newest first, then group by group of equal keys. *)
Definition entry_message (e : entry) : message := e.2.2.

Section spec.
Context (cfg : data_config).
Implicit Types (e : entry) (ts : list entry).

Definition equal_keys e e' : bool := data_key_compare cfg (entry_key e) (entry_key e') =? 0.
(** The maximal runs of equal keys. *)
Fixpoint groups ts : list (list entry) :=
  match ts with
  | [] => []
  | e :: ts' =>
      match groups ts' with
      | (e' :: g) :: gs => if equal_keys e e' then (e :: e' :: g) :: gs else [e] :: (e' :: g) :: gs
      | gs => [e] :: gs
      end
  end.
(** An older tuple under a newer one: the older key with the merged message. *)
Definition merge_older (newer : key * message) e : key * message :=
  (entry_key e, (data_merge_tuples cfg newer.1 (entry_message e) newer.2).2).
Definition merge_group (g : list entry) : key * message :=
  match g with
  | [] => (NULL_KEY, NULL_MESSAGE)
  | e :: older => foldl merge_older e.2 older
  end.
Definition finalize (mode : merge_behavior) (t : key * message) : key * message :=
  if bool_decide (mode = MERGE_FULL) && negb (bool_decide (message_class t.2 = MESSAGE_TYPE_INSERT))
  then (t.1, (data_merge_tuples_final cfg t.1 t.2).2) else t.
Definition kept (mode : merge_behavior) (t : key * message) : bool :=
  negb (bool_decide (mode = MERGE_FULL) && bool_decide (message_class t.2 = MESSAGE_TYPE_DELETE)).
Definition emit (mode : merge_behavior) (g : list entry) : list (key * message) :=
  let t := finalize mode (merge_group g) in if kept mode t then [t] else [].
Definition merge_spec (mode : merge_behavior) ts : list (key * message) :=
  match mode with MERGE_RAW => snd <$> ts | _ => groups ts ≫= emit mode end.

(** All the tuples of a forest in the order of the merge. *)
Fixpoint forest_from (seq : Z) (ls : list (list (key * message))) : list entry :=
  match ls with [] => [] | l :: ls' => tagged seq l ++ forest_from (seq + 1) ls' end.
Definition forest (ls : list (list (key * message))) : list entry := forest_from 0 ls.
Definition merged (forwards : bool) (mode : merge_behavior) (ls : list (list (key * message))) : list (key * message) :=
  merge_spec mode (platform_sort_slow (entry_cmp cfg forwards) (forest ls)).

(** The application's callbacks report success. *)
Class merges_succeed : Prop := {
  merge_tuples_success k old new : (data_merge_tuples cfg k old new).1 = 0;
  merge_final_success k m : (data_merge_tuples_final cfg k m).1 = 0;
}.

(** ** Groups *)
Definition first_equal e ts : bool := match ts with e' :: _ => equal_keys e e' | [] => false end.
Lemma groups_step e ts : groups (e :: ts) =
  match groups ts with
  | (e' :: g) :: gs => if equal_keys e e' then (e :: e' :: g) :: gs else [e] :: (e' :: g) :: gs
  | gs => [e] :: gs
  end.
Proof. done. Qed.
Lemma groups_cons e ts : ∃ g rest, ts = g ++ rest ∧ groups (e :: ts) = (e :: g) :: groups rest ∧
  first_equal (default e (list.last g)) rest = false.
Proof.
  revert e. induction ts as [|e' ts IH]; intros e; [by exists [], []|].
  destruct (IH e') as (g & rest & -> & E & Hf). rewrite groups_step.
  rewrite E. destruct (equal_keys e e') eqn:Ee.
  - exists (e' :: g), rest. split_and!; [done..|]. rewrite last_cons. destruct (list.last g) eqn:Hl; cbn in *; done.
  - exists [], (e' :: g ++ rest). split_and!; [done|by rewrite E|]. done.
Qed.
Lemma groups_same e e' ts g rest : equal_keys e e' = true → groups (e' :: ts) = (e' :: g) :: groups rest →
  groups (e :: e' :: ts) = (e :: e' :: g) :: groups rest.
Proof. intros He E. rewrite groups_step. by rewrite E, He.
Qed.
Lemma groups_alone e ts : first_equal e ts = false → groups (e :: ts) = [e] :: groups ts.
Proof.
  destruct ts as [|e' ts]; [done|]. intros He. destruct (groups_cons e' ts) as (g & rest & -> & E & _).
  rewrite groups_step. rewrite E. cbn in He. by rewrite He.
Qed.
Lemma groups_nil ts : groups ts = [] → ts = [].
Proof. destruct ts as [|e ts]; [done|]. by destruct (groups_cons e ts) as (g & rest & _ & -> & _). Qed.
End spec.
