(* ===== verification/MergeStep.v ===== *)
(** * Advancing a merge iterator

    [advance_and_resort_min_ritor] takes the first tuple off what is to come and
    keeps the array in order. *)
From stdpp Require Import sorting.
From S2P Require Import Prelude DataInternal Iterator Merge MergeOrder.

Section step.
Context {I : Type} `{!iterator_ops I} (cfg : data_config) `{!key_order cfg} (forwards : bool).
Implicit Types (o : ordered_iterator I) (live dead : list (ordered_iterator I)) (ts : list entry).
Local Abbreviation before := (before cfg forwards).
Local Abbreviation flags_ok := (flags_ok cfg).
Local Abbreviation live_rep := (live_rep cfg forwards).

(** ** The flags *)
Definition core o : ordered_iterator I := oi_set_equal false o.
Lemma live_rep_core live ls ts : live_rep (core <$> live) ls ts ↔ live_rep live ls ts.
Proof.
  assert (E1 : oi_entry <$> (core <$> live) = oi_entry <$> live) by (by rewrite <-list_fmap_compose).
  assert (E2 : oi_seq <$> (core <$> live) = oi_seq <$> live) by (by rewrite <-list_fmap_compose).
  assert (E3 : zip_with pending (core <$> live) ls = zip_with pending live ls) by (by rewrite zip_with_fmap_l).
  split; intros [Hr Hs Hn Ht Hp Hsm]; rewrite ?E1, ?E2, ?E3 in *.
  - split; try done. by rewrite list.Forall2_fmap_l in Hr.
  - split; rewrite ?E1, ?E2, ?E3; try done. by rewrite list.Forall2_fmap_l.
Qed.
Lemma live_rep_same live live' ls ts : core <$> live = core <$> live' → live_rep live ls ts → live_rep live' ls ts.
Proof. intros E H. apply live_rep_core. rewrite <-E. by apply live_rep_core. Qed.

(** The last of [L] gets the flag for [o]. *)
Fixpoint link (L : list (ordered_iterator I)) o : list (ordered_iterator I) :=
  match L with
  | [] => []
  | [a] => [oi_set_equal (keys_equal cfg a o) a]
  | a :: L' => a :: link L' o
  end.
Definition equals_first o (L : list (ordered_iterator I)) : bool :=
  match L with [] => false | x :: _ => keys_equal cfg o x end.
Lemma link_core L o : core <$> link L o = core <$> L.
Proof. induction L as [|a [|b L] IH]; [done..|]. cbn [link fmap list_fmap] in *. by rewrite IH. Qed.
Lemma link_snoc L a o : link (L ++ [a]) o = L ++ [oi_set_equal (keys_equal cfg a o) a].
Proof. induction L as [|b [|c L] IH]; [done..|]. cbn [app link] in *. by rewrite IH. Qed.
Lemma flags_link L1 o L2 : flags_ok (L1 ++ L2) →
  flags_ok (link L1 o ++ oi_set_equal (equals_first o L2) o :: L2).
Proof.
  induction L1 as [|a [|b L1] IH]; intros H.
  - done.
  - cbn. repeat split; try done. by destruct H.
  - destruct H as [Ha H]. specialize (IH H). cbn [link app MergeOrder.flags_ok] in *.
    destruct L1; (split; [exact Ha|exact IH]).
Qed.

(** ** Runs of the accesses to the array *)
Lemma run_at {A} m i o (f : ordered_iterator I → M (merge_iterator I) A) :
  lookupZ (mi_ordered_iterators m) i = Some o → (at_index i ≫= f) m = f o m.
Proof. intros H. unfold at_index. unfold mbind, M_bind, mget, mopt. by rewrite H. Qed.
Lemma run_put_index {A} m i o (f : unit → M (merge_iterator I) A) :
  (put_index i o ≫= f) m = f tt (set_array (insertZ i o (mi_ordered_iterators m)) (mi_num_remaining m) m).
Proof. done. Qed.
Lemma run_step_index {A} m i o rc itor' (f : platform_status → M (merge_iterator I) A) :
  lookupZ (mi_ordered_iterators m) i = Some o → iterator_step forwards (oi_itor o) = Ret (rc, itor') →
  (step_index forwards i ≫= f) m =
  f rc (set_array (insertZ i (oi_set_itor itor' o) (mi_ordered_iterators m)) (mi_num_remaining m) m).
Proof.
  intros Ho Hs. unfold step_index, at_index, mstep. unfold mbind, M_bind, mget, mopt, mret, M_ret.
  rewrite Ho, Hs. done.
Qed.

Lemma insertZ_app_mid {A} (l1 l2 : list A) x y i : i = lengthZ l1 → insertZ i y (l1 ++ x :: l2) = l1 ++ y :: l2.
Proof.
  intros ->. unfold insertZ, lengthZ. rewrite bool_decide_true by lia. rewrite Nat2Z.id.
  rewrite insert_app_r_alt by done. by rewrite Nat.sub_diag.
Qed.
Lemma rotate_first_app o (L1 L2 : list (ordered_iterator I)) i : i = lengthZ L1 →
  rotate_first i (o :: L1 ++ L2) = L1 ++ o :: L2.
Proof.
  intros ->. unfold rotate_first, lengthZ. rewrite Nat2Z.id.
  by rewrite take_app_length, drop_app_length.
Qed.

(** ** The search among the others *)
Lemma keys_equal_sym o o' : key_small (oi_curr_key o) → key_small (oi_curr_key o') →
  keys_equal cfg o o' = keys_equal cfg o' o.
Proof. intros H H'. unfold keys_equal. pose proof (dkc_sym cfg _ _ H H'). lia. Qed.

Lemma strongly_lookup {A} (R : relation A) l i j x y : StronglySorted R l →
  lookupZ l i = Some x → lookupZ l j = Some y → i < j → R x y.
Proof.
  unfold lookupZ. intros Hs Hx Hy Hij. repeat case_bool_decide; try done.
  rewrite <-(take_drop_middle _ _ _ Hy) in Hs. apply StronglySorted_app in Hs as [HR _].
  apply HR; [|by left]. apply (list_elem_of_lookup_2 _ (Z.to_nat i)). by rewrite lookup_take_lt by lia.
Qed.
Lemma lookupZ_around {A} (L1 L2 D : list A) (z : A) i x : 0 ≤ i < lengthZ (L1 ++ L2) →
  lookupZ ((L1 ++ L2) ++ D) i = Some x →
  lookupZ (L1 ++ z :: L2) (if i <? lengthZ L1 then i else i + 1) = Some x.
Proof.
  unfold lookupZ, lengthZ. intros Hi. rewrite length_app in Hi. rewrite bool_decide_true by lia.
  intros Hx. rewrite bool_decide_true by (destruct (Z.ltb_spec i (Z.of_nat (length L1))); lia).
  rewrite lookup_app_l in Hx by (rewrite length_app; lia).
  destruct (Z.ltb_spec i (Z.of_nat (length L1))).
  - rewrite lookup_app_l in Hx |- * by lia. done.
  - rewrite lookup_app_r in Hx |- * by lia.
    by replace (Z.to_nat (i + 1) - length L1)%nat with (S (Z.to_nat i - length L1)) by lia.
Qed.

Lemma search_place o L1 L2 dead :
  StronglySorted before (oi_entry <$> L1 ++ o :: L2) → Forall entry_small (oi_entry <$> L1 ++ o :: L2) →
  0 < lengthZ (L1 ++ L2) →
  bsearch_insert o ((L1 ++ L2) ++ dead) (lengthZ (L1 ++ L2)) cfg forwards =
  Some (lengthZ L1 - 1, match list.last L1 with Some a => keys_equal cfg a o | None => false end, equals_first o L2).
Proof.
  intros Hs Hsm Hn. set (r := lengthZ L1).
  set (arr := (L1 ++ L2) ++ dead). set (n := lengthZ (L1 ++ L2)).
  set (c i := match lookupZ arr i with
              | Some x => entry_cmp cfg forwards (oi_entry o) (oi_entry x) | None => 0 end).
  set (q i := match lookupZ arr i with Some x => keys_equal cfg o x | None => false end).
  assert (Hr : 0 ≤ r ≤ n) by (unfold r, n, lengthZ; rewrite length_app; lia).
  assert (Hsome : ∀ i, 0 ≤ i < n → ∃ x, lookupZ arr i = Some x).
  { intros i Hi. apply lookupZ_is_Some. unfold arr, n, lengthZ in *. rewrite length_app. lia. }
  set (at_ i := if i <? r then i else i + 1).
  assert (Hat : ∀ i x, 0 ≤ i < n → lookupZ arr i = Some x →
    lookupZ (oi_entry <$> L1 ++ o :: L2) (at_ i) = Some (oi_entry x)).
  { intros i x Hi Hx. rewrite lookupZ_fmap. unfold at_, r. by erewrite lookupZ_around. }
  assert (Ho : lookupZ (oi_entry <$> L1 ++ o :: L2) r = Some (oi_entry o)).
  { rewrite lookupZ_fmap. unfold r. by rewrite lookupZ_at_length. }
  rewrite Forall_lookupZ in Hsm. pose proof (Hsm _ _ Ho) as Hso.
  assert (Hsx : ∀ i x, 0 ≤ i < n → lookupZ arr i = Some x → entry_small (oi_entry x)) by (intros; eapply Hsm, Hat; done).
  assert (Hq : ∀ i x, lookupZ arr i = Some x → q i = (key_cmp cfg forwards (oi_curr_key x) (oi_curr_key o) =? 0) ∨ ¬ 0 ≤ i < n).
  { intros i x Hx. destruct (decide (0 ≤ i < n)) as [Hi|]; [left|by right]. unfold q. rewrite Hx, key_cmp_zero.
    rewrite keys_equal_sym; [done|exact Hso|exact (Hsx _ _ Hi Hx)]. }
  assert (Hbe : ∀ i j x y, 0 ≤ i < n → 0 ≤ j < n → i < j → lookupZ arr i = Some x → lookupZ arr j = Some y →
    before (oi_entry x) (oi_entry y)).
  { intros i j x y Hi Hj Hij Hx Hy. eapply (strongly_lookup _ _ (at_ i) (at_ j) _ _ Hs); [by apply Hat..|].
    unfold at_. destruct (Z.ltb_spec i r), (Z.ltb_spec j r); lia. }
  assert (Hlo : ∀ i x, 0 ≤ i < r → lookupZ arr i = Some x → before (oi_entry x) (oi_entry o)).
  { intros i x Hi Hx. eapply (strongly_lookup _ _ i r _ _ Hs); [|done|lia].
    specialize (Hat i x ltac:(lia) Hx). unfold at_ in Hat. by rewrite (proj2 (Z.ltb_lt i r)) in Hat by lia. }
  assert (Hhi : ∀ i x, r ≤ i < n → lookupZ arr i = Some x → before (oi_entry o) (oi_entry x)).
  { intros i x Hi Hx. eapply (strongly_lookup _ _ r (i + 1) _ _ Hs); [done| |lia].
    specialize (Hat i x ltac:(lia) Hx). unfold at_ in Hat. by rewrite (proj2 (Z.ltb_ge i r)) in Hat by lia. }
  rewrite (bsearch_insert_run cfg forwards o arr n r c q); [|split_and!|done..].
  - f_equal. f_equal; [f_equal|].
    + destruct (list.last L1) as [a|] eqn:Hla.
      * assert (Ha : lookupZ arr (r - 1) = Some a).
        { apply last_Some in Hla as [L' ->]. unfold arr, r. rewrite <-!(assoc (++)). cbn.
          rewrite lengthZ_app. change (lengthZ [a]) with 1. rewrite Z.add_simpl_r. apply lookupZ_at_length. }
        pose proof (lookupZ_Some _ _ _ Ha). unfold q. rewrite Ha. rewrite (proj2 (Z.ltb_lt 0 r)) by lia. cbn.
        apply keys_equal_sym; [exact Hso|]. exact (Hsx (r - 1) a ltac:(lia) Ha).
      * apply last_None in Hla as ->. done.
    + destruct L2 as [|x L2]; cbn [equals_first].
      * rewrite (proj2 (Z.ltb_ge r n)); [done|]. unfold n, r. rewrite app_nil_r. lia.
      * assert (Hx : lookupZ arr r = Some x) by (unfold arr, r; rewrite <-!(assoc (++)); cbn [app]; apply lookupZ_at_length).
        unfold q. rewrite Hx. rewrite (proj2 (Z.ltb_lt r n)); [done|].
        unfold n, r. rewrite lengthZ_app, lengthZ_cons. pose proof (lengthZ_nonneg L2). lia.
  - intros i Hi. destruct (Hsome i Hi) as [x Hx]. exists x. split; [done|].
    unfold c, q. rewrite Hx. apply bsearch_comp_entry.
  - intros i Hi. destruct (Hsome i Hi) as [x Hx]. unfold c. rewrite Hx. destruct (Z.ltb_spec i r).
    + apply (before_flip cfg forwards); [exact (Hsx i x Hi Hx)|done|]. apply (Hlo i); [lia|done].
    + apply (Hhi i); [lia|done].
  - intros i j Hij Hj Hqi. destruct (Hsome i ltac:(lia)) as [x Hx]. destruct (Hsome j ltac:(lia)) as [y Hy].
    destruct (Hq i x Hx) as [E|]; [|lia]. destruct (Hq j y Hy) as [->|]; [|lia]. rewrite E in Hqi.
    destruct (decide (i = j)) as [->|]; [congruence|]. apply Z.eqb_eq in Hqi. apply Z.eqb_eq.
    refine (before_between cfg forwards (oi_entry x) (oi_entry y) (oi_entry o) _ _ _ _ _ Hqi);
      [exact (Hsx i x ltac:(lia) Hx)|exact (Hsx j y ltac:(lia) Hy)|done|apply (Hbe i j); (lia || done)
      |apply (Hlo j); (lia || done)].
  - intros i j Hij Hi Hqi. destruct (Hsome i ltac:(lia)) as [x Hx]. destruct (Hsome j ltac:(lia)) as [y Hy].
    unfold q in *. rewrite Hx in Hqi. rewrite Hy. unfold keys_equal in *. rewrite <-(key_cmp_zero cfg forwards) in Hqi |- *.
    destruct (decide (i = j)) as [->|]; [congruence|]. apply Z.eqb_eq in Hqi. apply Z.eqb_eq.
    pose proof (Hhi j y ltac:(lia) Hy) as H1. pose proof (Hbe j i y x ltac:(lia) ltac:(lia) ltac:(lia) Hy Hx) as H2.
    pose proof (Hsx i x ltac:(lia) Hx) as Sx. pose proof (Hsx j y ltac:(lia) Hy) as Sy.
    pose proof (before_between cfg forwards _ _ _ Hso Sy Sx H1 H2 Hqi).
    pose proof (key_cmp_eq_l cfg forwards _ _ _ Hso Sx Sy Hqi). pose proof (key_cmp_sym cfg forwards _ _ Sx Sy).
    cbn in *. lia.
Qed.

(** ** The step *)
(** [live] and [ls] are the live iterators and what follows their tuples; the struct's
    array and count say so. *)
Record array_rep (m : merge_iterator I) ts : Prop := {
  ar_cfg : mi_cfg m = cfg;
  ar_forwards : mi_forwards m = forwards;
  ar_live : ∃ live dead ls, mi_ordered_iterators m = live ++ dead ∧ mi_num_remaining m = lengthZ live ∧
    live_rep live ls ts ∧ flags_ok live;
}.
(** [m'] differs from [m] only in the array, the count and the pad. *)
Definition array_changed (m m' : merge_iterator I) : Prop :=
  ∃ l n b, m' = set_pad b (set_array l n m) ∧ length l = length (mi_ordered_iterators m).

(** The end of the function, when the iterator that was stepped has another tuple. *)
Lemma reinsert_run m o L1 L2 dead ls ts x l e o1 :
  mi_cfg m = cfg → mi_forwards m = forwards → mi_ordered_iterators m = o1 :: (L1 ++ L2) ++ dead →
  mi_num_remaining m = 1 + lengthZ (L1 ++ L2) →
  live_rep (o :: L1 ++ L2) ((x :: l) :: ls) (e :: ts) → flags_ok (L1 ++ L2) →
  oi_seq o1 = oi_seq o → oi_curr o1 = x → yields forwards (oi_itor o1) (x :: l) →
  Forall (λ y, before (oi_entry y) (oi_entry o1)) L1 → Forall (λ y, before (oi_entry o1) (oi_entry y)) L2 →
  0 < lengthZ (L1 ++ L2) →
  ∃ m', (r ← mopt (bsearch_insert o1 (drop 1 (mi_ordered_iterators m)) (mi_num_remaining m - 1)
                    (mi_cfg m) (mi_forwards m));
         let '(r, prev_equal, next_equal) := r in
         let index := 1 + r in
         mwhen (negb (index =? 0))
           (mmod (λ m, set_array (rotate_first index (mi_ordered_iterators m)) (mi_num_remaining m) m));;
         set_next_key_equal (index - 1) prev_equal;;
         set_next_key_equal index next_equal;;
         mret STATUS_OK) m = Ret (STATUS_OK, m') ∧ array_rep m' ts ∧ array_changed m m'.
Proof.
  intros Hcfg Hfw Harr Hnum Hrep Hfl Hseq Hcur Hy H1 H2 Hn.
  destruct (live_reinsert cfg forwards _ _ _ _ _ _ _ _ _ Hrep Hseq Hcur Hy H1 H2) as [ls' Hrep'].
  rewrite Harr, Hnum, Hcfg, Hfw. cbn [drop].
  replace (1 + lengthZ (L1 ++ L2) - 1) with (lengthZ (L1 ++ L2)) by lia.
  rewrite (run_opt _ _ _ _ (search_place o1 L1 L2 dead (lr_sorted _ _ _ _ _ Hrep')
    ltac:(apply list.Forall_fmap, list.Forall_forall; intros y Hin; exact (live_small _ _ _ _ _ y Hrep' Hin)) Hn)).
  cbv iota. replace (1 + (lengthZ L1 - 1)) with (lengthZ L1) by lia.
  assert (Hrot : ∀ f, (mwhen (negb (lengthZ L1 =? 0))
      (mmod (λ m, set_array (rotate_first (lengthZ L1) (mi_ordered_iterators m)) (mi_num_remaining m) m)) ≫= f) m =
      f tt (set_array (L1 ++ o1 :: L2 ++ dead) (mi_num_remaining m) m) :> outcome (platform_status * _)).
  { intros f. assert (E : rotate_first (lengthZ L1) (mi_ordered_iterators m) = L1 ++ o1 :: L2 ++ dead).
    { rewrite Harr, <-(assoc (++)). by rewrite rotate_first_app. }
    destruct (Z.eqb_spec (lengthZ L1) 0) as [E0|E0]; cbn [negb mwhen].
    - rewrite run_ret. f_equal. destruct L1; [|rewrite lengthZ_cons in E0; pose proof (lengthZ_nonneg L1); lia].
      cbn in *. rewrite <-Harr. by destruct m.
    - rewrite run_mod. by rewrite E. }
  rewrite Hrot. clear Hrot.
  set (pe := match list.last L1 with Some a => keys_equal cfg a o1 | None => false end).
  assert (Hset1 : ∃ b, ∀ f : unit → M _ platform_status,
    (set_next_key_equal (lengthZ L1 - 1) pe ≫= f) (set_array (L1 ++ o1 :: L2 ++ dead) (mi_num_remaining m) m) =
    f tt (set_pad b (set_array (link L1 o1 ++ o1 :: L2 ++ dead) (mi_num_remaining m) m))).
  { unfold pe. destruct L1 as [|a L1 _] using rev_ind.
    - exists false. intros f. done.
    - exists (mi_pad_next_key_equal m). intros f. rewrite last_snoc, link_snoc. unfold set_next_key_equal.
      rewrite lengthZ_app. change (lengthZ [a]) with 1. rewrite Z.add_simpl_r.
      rewrite (proj2 (Z.eqb_neq _ _)) by (pose proof (lengthZ_nonneg L1); lia).
      unfold mbind at 1, M_bind at 1. rewrite (run_at _ _ a); cbn.
      2:{ rewrite <-(assoc (++)). apply lookupZ_at_length. }
      rewrite <-!(assoc (++)). cbn. by rewrite insertZ_app_mid. }
  destruct Hset1 as [b Hset1]. rewrite Hset1.
  assert (Hlk : lengthZ (link L1 o1) = lengthZ L1).
  { unfold lengthZ. f_equal. rewrite <-(length_fmap core (link L1 o1)), link_core. apply length_fmap. }
  exists (set_pad b (set_array (link L1 o1 ++ oi_set_equal (equals_first o1 L2) o1 :: L2 ++ dead) (mi_num_remaining m) m)).
  assert (Hat : lookupZ (link L1 o1 ++ o1 :: L2 ++ dead) (lengthZ L1) = Some o1) by (rewrite <-Hlk; apply lookupZ_at_length).
  split; [|split].
  - unfold set_next_key_equal. rewrite (proj2 (Z.eqb_neq _ _)) by (pose proof (lengthZ_nonneg L1); lia).
    unfold mbind at 1, M_bind at 1. rewrite (run_at _ _ o1); [|exact Hat]. cbn.
    rewrite insertZ_app_mid by done. done.
  - split; [done..|]. exists (link L1 o1 ++ oi_set_equal (equals_first o1 L2) o1 :: L2), dead, ls'.
    split_and!.
    + cbn. by rewrite <-(assoc (++)).
    + cbn. rewrite Hnum, !lengthZ_app, lengthZ_cons, Hlk. lia.
    + eapply live_rep_same; [|exact Hrep']. rewrite !fmap_app. cbn [fmap list_fmap]. by rewrite link_core.
    + by apply flags_link.
  - eexists _, _, _. split; [done|]. rewrite Harr. unfold lengthZ in Hlk. rewrite !length_app. cbn. rewrite !length_app. lia.
Qed.

Lemma advance_run m e ts : array_rep m (e :: ts) →
  ∃ m', advance_and_resort_min_ritor m = Ret (STATUS_OK, m') ∧ array_rep m' ts ∧ array_changed m m'.
Proof.
  intros [Hcfg Hfw (live & dead & ls & Harr & Hnum & Hrep & Hfl)].
  destruct live as [|o live].
  { exfalso. apply live_nil in Hrep. done. }
  destruct ls as [|l ls]; [destruct Hrep as [Hr _ _ _ _ _]; inversion Hr|].
  pose proof (lr_runs _ _ _ _ _ Hrep) as Hr. apply list.Forall2_cons in Hr as [[Hy Hown] Hr].
  apply yields_cons_inv in Hy as [_ (itor' & Hstep & Hy)].
  unfold advance_and_resort_min_ritor. cbn [app] in Harr.
  rewrite (run_at _ _ o) by (by rewrite Harr). rewrite run_put_index, run_get, Harr.
  change (insertZ 0 ?x (o :: ?l)) with (x :: l). cbn [mi_forwards set_array]. rewrite Hfw.
  erewrite run_step_index; [|done|exact Hstep]. cbn [SUCCESS negb].
  change (negb (SUCCESS STATUS_OK)) with false. cbv iota. cbn [mi_ordered_iterators set_array mi_num_remaining].
  change (insertZ 0 ?x (?y :: ?l)) with (x :: l).
  set (o2 := oi_set_itor itor' _). rewrite (run_at _ _ o2) by done.
  change (oi_itor o2) with itor'. rewrite (yields_can_curr forwards itor' l Hy).
  destruct l as [|x l].
  - rewrite bool_decide_true by done. cbn [negb]. rewrite run_get. cbn [mi_num_remaining set_array mi_ordered_iterators]. rewrite Hnum, lengthZ_cons.
    replace (1 + lengthZ live - 1) with (lengthZ live) by lia.
    rewrite (proj2 (Z.ltb_ge (lengthZ live) 0)) by apply lengthZ_nonneg.
    rewrite (run_opt _ _ _ tt) by done. rewrite run_put. rewrite rotate_first_app by done.
    eexists. split; [done|]. split.
    + split; [done..|]. exists live, (o2 :: dead), ls. split_and!; [done..| |by eapply flags_tail].
      by eapply live_exhausted.
    + exists (live ++ o2 :: dead), (lengthZ live), (mi_pad_next_key_equal m). split; [done|].
      rewrite Harr. cbn. rewrite !length_app. cbn. lia.
  - rewrite bool_decide_false by done. cbn [negb]. rewrite run_put_index, run_get.
    cbn [mi_num_remaining set_array mi_ordered_iterators]. change (insertZ 0 ?x (?y :: ?l)) with (x :: l).
    pose proof (yields_cons_inv _ _ _ _ Hy) as [Hcur _].
    assert (Ho1 : ∃ o1, set_curr_ordered_iterator o2 = o1 ∧ oi_seq o1 = oi_seq o ∧ oi_curr o1 = x ∧
      oi_itor o1 = itor' ∧ oi_next_key_equal o1 = false).
    { unfold set_curr_ordered_iterator. change (oi_itor o2) with itor'. rewrite Hcur. destruct x as [k d].
      eexists. by split_and!. }
    destruct Ho1 as (o1 & -> & Hseq & Hcur1 & Hit & Hf1).
    assert (Hn1 : oi_seq o1 ∉ (oi_seq <$> live)).
    { pose proof (lr_seqs _ _ _ _ _ Hrep) as Hnd. cbn in Hnd. apply list.NoDup_cons in Hnd as [Hnd _]. by rewrite Hseq. }
    assert (Hsm1 : entry_small (oi_entry o1)).
    { pose proof (lr_small _ _ _ _ _ Hrep) as Hsm. rewrite list.Forall_forall in Hsm.
      change (oi_entry o1) with (oi_seq o1, oi_curr o1). rewrite Hseq, Hcur1. apply Hsm.
      rewrite (lr_perm _ _ _ _ _ Hrep). cbn. right. by left. }
    rewrite Hnum, lengthZ_cons. destruct (Z.eqb_spec (1 + lengthZ live) 1) as [E|E].
    + destruct live as [|y live]; [|rewrite lengthZ_cons in E; pose proof (lengthZ_nonneg live); lia].
      eexists. split; [done|]. split.
      * split; [done..|].
        destruct (live_reinsert cfg forwards o x [] [] l ls e ts o1 Hrep) as [ls' Hrep']; [by rewrite ?Hit..|].
        exists [o1], dead, ls'. split_and!; done.
      * exists (o1 :: [] ++ dead), (1 + lengthZ (@nil (ordered_iterator I))), (mi_pad_next_key_equal m). split; [done|]. by rewrite Harr.
    + pose proof (lr_sorted _ _ _ _ _ Hrep) as Hs. cbn in Hs. apply StronglySorted_inv in Hs as [Hs _].
      destruct (live_place cfg forwards o1 live Hs) as (L1 & L2 & -> & H1 & H2); [|done..|].
      { apply list.Forall_fmap, list.Forall_forall. intros y Hin. apply (live_small _ _ _ _ _ y Hrep). by right. }
      rewrite (run_at _ _ o1) by done.
      set (S := set_array _ _ _).
      destruct (reinsert_run S o L1 L2 dead ls ts x l e o1) as (m' & Hrun & Hrep' & l' & n' & b' & -> & Hl');
        [done..|by eapply flags_tail|done|done|by rewrite Hit|done|done| |].
      { rewrite lengthZ_app in *. pose proof (lengthZ_nonneg L1). pose proof (lengthZ_nonneg L2). lia. }
      eexists. split; [exact Hrun|]. split; [done|]. exists l', n', b'. split; [done|]. rewrite Hl', Harr. done.
Qed.
End step.
