(* ===== verification/MergeRun.v ===== *)
(** * The loops of a merge iterator

    [merge_resolve_equal_keys], [advance_one_loop] and [merge_advance_helper] follow
    the reference of MergeOrder, group by group. *)
From stdpp Require Import sorting.
From S2P Require Import Prelude DataInternal Iterator Merge MergeOrder MergeStep.

Section run.
Context {I : Type} `{!iterator_ops I} (cfg : data_config) `{!key_order cfg} (forwards : bool).
Implicit Types (o : ordered_iterator I) (live : list (ordered_iterator I)) (ts rest : list entry) (m : merge_iterator I).
Local Abbreviation before := (before cfg forwards).
Local Abbreviation live_rep := (live_rep cfg forwards).
Local Abbreviation array_rep := (array_rep cfg forwards).

(** ** The second tuple *)
(** What is to come after the first tuple has another key, or is not before the tuple
    of the second live iterator. *)
Lemma rest_source o live ls e ts x : live_rep (o :: live) ls (e :: ts) → x ∈ ts →
  equal_keys cfg (oi_entry o) x = false ∨
  ∃ o2 live', live = o2 :: live' ∧ (x = oi_entry o2 ∨ before (oi_entry o2) x).
Proof.
  intros H Hx. pose proof (live_head _ _ _ _ _ _ _ H) as ->.
  destruct H as [Hr Hs Hn Ht Hp Hsm]. destruct ls as [|l ls]; [inversion Hr|].
  apply list.Forall2_cons in Hr as [[_ Hown] Hr]. cbn [zip_with mjoin list_join] in Hp.
  rewrite pending_cons in Hp, Hown. cbn [app] in Hp. apply (inj (oi_entry o ::.)) in Hp.
  apply list.Forall_cons in Hsm as [Hso Hsm]. rewrite list.Forall_forall in Hsm.
  pose proof (Hsm x Hx) as Hsx. rewrite Hp in Hx. apply list.elem_of_app in Hx as [Hx|Hx].
  - left. apply StronglySorted_inv in Hown as [_ Hown]. rewrite list.Forall_forall in Hown.
    specialize (Hown x Hx). unfold equal_keys. rewrite <-(key_cmp_zero cfg forwards).
    unfold MergeOrder.before, entry_cmp in Hown. apply list_elem_of_fmap in Hx as (y & -> & _). cbn in *.
    case_match; lia.
  - right. destruct live as [|o2 live]; [by cbn in Hx; apply list.not_elem_of_nil in Hx|].
    exists o2, live. split; [done|]. apply list_elem_of_join in Hx as (p & Hxp & Hpp).
    apply list_elem_of_lookup in Hpp as [i Hi]. rewrite lookup_zip_with in Hi.
    destruct ((o2 :: live) !! i) as [o'|] eqn:Hoi; [|done]. change (Some o' ≫= ?f) with (f o') in Hi. cbv beta in Hi.
    destruct (ls !! i) as [l'|] eqn:Hli; [|done]. cbn [mbind option_bind] in Hi. injection Hi as <-.
    destruct (Forall2_lookup_lr _ _ _ _ _ _ Hr Hoi Hli) as [_ Hs'].
    assert (Ho'x : x = oi_entry o' ∨ before (oi_entry o') x).
    { apply StronglySorted_inv in Hs' as [_ Hs']. apply list.elem_of_cons in Hxp as [->|Hxp]; [by left|].
      right. rewrite list.Forall_forall in Hs'. by apply Hs'. }
    destruct i as [|i]; cbn in Hoi; [injection Hoi as ->; exact Ho'x|]. right.
    cbn in Hs. apply StronglySorted_inv in Hs as [Hs _]. apply StronglySorted_inv in Hs as [_ Hs].
    rewrite list.Forall_fmap, list.Forall_forall in Hs.
    pose proof (Hs o' ltac:(by eapply list_elem_of_lookup_2)) as H2. cbn in H2.
    destruct Ho'x as [->|Ho'x]; [done|].
    assert (Hin : ∀ o3 l3 j, (o2 :: live) !! j = Some o3 → ls !! j = Some l3 → entry_small (oi_entry o3)).
    { intros o3 l3 j Hj Hl3. apply Hsm. rewrite Hp. apply list.elem_of_app. right. apply list_elem_of_join.
      exists (pending o3 l3). split; [by left|]. apply (list_elem_of_lookup_2 _ j). by rewrite lookup_zip_with, Hj; cbn; rewrite Hl3. }
    destruct ls as [|l2 ls]; [done|].
    apply (before_trans cfg forwards _ (oi_entry o')); [exact (Hin o2 l2 0%nat eq_refl eq_refl)|by eapply (Hin o' l' (S i))|done..].
Qed.

Lemma flag_first o live ls e ts : live_rep (o :: live) ls (e :: ts) → flags_ok cfg (o :: live) →
  oi_next_key_equal o = first_equal cfg e ts ∧
  (first_equal cfg e ts = true → ∃ o2 live' e2 ts', live = o2 :: live' ∧ ts = e2 :: ts' ∧ oi_entry o2 = e2).
Proof.
  intros H [Hfl _]. pose proof (live_head _ _ _ _ _ _ _ H) as ->. rewrite Hfl.
  pose proof (lr_ts _ _ _ _ _ H) as Ht. apply StronglySorted_inv in Ht as [Ht Hfirst].
  assert (Hsm : ∀ x, x ∈ oi_entry o :: ts → entry_small x) by (apply list.Forall_forall, (lr_small _ _ _ _ _ H)).
  rewrite list.Forall_forall in Hfirst.
  destruct ts as [|e2 ts].
  { destruct live as [|o2 live]; [done|]. exfalso.
    pose proof (live_entry _ _ _ _ _ o2 H ltac:(right; by left)) as Ho2. apply list.elem_of_cons in Ho2 as [E|Ho2].
    - pose proof (lr_seqs _ _ _ _ _ H) as Hn. cbn in Hn. apply list.NoDup_cons in Hn as [Hn _].
      apply Hn. injection E as E _ _. rewrite E. by left.
    - by apply list.not_elem_of_nil in Ho2. }
  assert (He2 : entry_small e2) by (apply Hsm; right; by left).
  assert (Ho : entry_small (oi_entry o)) by (apply Hsm; by left).
  cbn [first_equal].
  assert (Hne2 : ∀ o2 live', live = o2 :: live' → oi_entry o2 = e2 ∨ before e2 (oi_entry o2)).
  { intros o2 live' ->. pose proof (live_entry _ _ _ _ _ o2 H ltac:(right; by left)) as Ho2.
    apply StronglySorted_inv in Ht as [_ Ht]. rewrite list.Forall_forall in Ht.
    apply list.elem_of_cons in Ho2 as [E|Ho2].
    - exfalso. pose proof (lr_seqs _ _ _ _ _ H) as Hn. cbn in Hn. apply list.NoDup_cons in Hn as [Hn _].
      apply Hn. injection E as E _ _. rewrite E. by left.
    - apply list.elem_of_cons in Ho2 as [->|Ho2]; [by left|]. right. by apply Ht. }
  assert (Hsm2 : ∀ o2 live', live = o2 :: live' → entry_small (oi_entry o2)).
  { intros o2 live' ->. apply (live_small _ _ _ _ _ o2 H). right. by left. }
  destruct (rest_source _ _ _ _ _ e2 H ltac:(by left)) as [Hne|(o2 & live' & -> & Hx)].
  - rewrite Hne. split; [|done]. destruct live as [|o2 live]; [done|].
    destruct (keys_equal cfg o o2) eqn:E; [|done]. exfalso.
    destruct (Hne2 _ _ eq_refl) as [E2|Hb]; [rewrite <-E2 in Hne; unfold keys_equal in E; unfold equal_keys in Hne; cbn in *; congruence|].
    unfold keys_equal in E. unfold equal_keys in Hne. rewrite <-(key_cmp_zero cfg forwards) in E, Hne.
    pose proof (Hsm2 _ _ eq_refl) as So2.
    pose proof (before_between cfg forwards _ _ _ Ho He2 So2 (Hfirst e2 ltac:(by left)) Hb ltac:(cbn in *; lia)) as E3.
    pose proof (key_cmp_eq_l cfg forwards _ _ _ He2 So2 Ho E3). pose proof (key_cmp_sym cfg forwards _ _ He2 Ho).
    pose proof (key_cmp_sym cfg forwards _ _ So2 Ho). cbn in *. lia.
  - assert (oi_entry o2 = e2) as <-.
    { destruct (Hne2 _ _ eq_refl) as [|Hb]; [done|]. destruct Hx as [->|Hx]; [done|]. exfalso.
      by apply (before_asym cfg forwards _ _ He2 (Hsm2 _ _ eq_refl) Hb). }
    split; [done|]. intros _. eauto 10.
Qed.

(** ** Merging a group *)
(** What the loops do not touch. *)
Definition settings m :=
  (mi_num_trees m, mi_merge_messages m, mi_finalize_updates m, mi_emit_deletes m, mi_can_prev m, mi_can_next m,
   mi_copies m, mi_freed m, length (mi_ordered_iterators m)).
Lemma changed_settings m m' : array_changed m m' → settings m' = settings m ∧
  mi_curr_key m' = mi_curr_key m ∧ mi_curr_data m' = mi_curr_data m ∧ mi_curr_in_buffer m' = mi_curr_in_buffer m ∧
  mi_merge_buffer m' = mi_merge_buffer m.
Proof. intros (l & n & b & -> & Hl). unfold settings. cbn. by rewrite Hl. Qed.
(** The first live iterators. *)
Lemma array_first m e ts : array_rep m (e :: ts) → ∃ o,
  lookupZ (mi_ordered_iterators m) 0 = Some o ∧ oi_entry o = e ∧ oi_next_key_equal o = first_equal cfg e ts ∧
  mi_num_remaining m ≠ 0 ∧
  ∀ e2 ts', ts = e2 :: ts' → first_equal cfg e ts = true →
    ∃ o2, lookupZ (mi_ordered_iterators m) 1 = Some o2 ∧ oi_entry o2 = e2.
Proof.
  intros [_ _ (live & dead & ls & Harr & Hnum & Hrep & Hfl)].
  destruct live as [|o live]; [exfalso; apply live_nil in Hrep; done|].
  exists o. rewrite Harr. split_and!; [done|symmetry; by eapply live_head|by eapply flag_first| |].
  - rewrite Hnum, lengthZ_cons. pose proof (lengthZ_nonneg live). lia.
  - intros e2 ts' -> Hf. destruct (flag_first _ _ _ _ _ Hrep Hfl) as [_ Hx].
    destruct (Hx Hf) as (o2 & live' & e2' & ts'' & -> & E & Ho2). injection E as <- <-. by exists o2.
Qed.
Lemma array_rep_curr m ts k d b : array_rep m ts → array_rep (set_curr k d b m) ts.
Proof. by intros [??]. Qed.
Lemma array_rep_buffer m ts b c : array_rep m ts → array_rep (set_buffer b c m) ts.
Proof. by intros [??]. Qed.

Lemma resolve_loop_run `{!merges_succeed cfg} fuel m e ts :
  array_rep m (e :: ts) → mi_curr_key m = entry_key e → first_equal cfg e ts = true → (length ts ≤ fuel)%nat →
  ∃ m' g last rest, resolve_loop fuel m = Ret (STATUS_OK, m') ∧
    groups cfg (e :: ts) = (e :: g) :: groups cfg rest ∧ (length rest < length ts)%nat ∧
    array_rep m' (last :: rest) ∧ settings m' = settings m ∧
    (mi_curr_key m', mi_merge_buffer m') = foldl (merge_older cfg) (entry_key e, mi_merge_buffer m) g.
Proof.
  revert m e ts. induction fuel as [|fuel IH]; intros m e ts Hrep Hk Hf Hlen; [by destruct ts; cbn in *; [|lia]|].
  destruct ts as [|e2 ts]; [done|]. cbn [length] in Hlen. cbn [resolve_loop].
  destruct (array_first _ _ _ Hrep) as (o & _ & _ & _ & _ & Hsnd). destruct (Hsnd e2 ts eq_refl Hf) as (o2 & Ho2 & <-).
  rewrite run_get, (run_at _ _ o2) by done.
  rewrite (ar_cfg _ _ _ _ Hrep), Hk.
  pose proof (merge_tuples_success cfg (entry_key e) (oi_curr_data o2) (mi_merge_buffer m)) as Hok.
  destruct (data_merge_tuples cfg (entry_key e) (oi_curr_data o2) (mi_merge_buffer m)) as [rc acc] eqn:Eacc.
  cbn in Hok. subst rc. rewrite run_mod. cbn [negb Z.eqb]. rewrite run_mod.
  set (m1 := set_curr _ _ _ _).
  destruct (advance_run cfg forwards m1 e (oi_entry o2 :: ts)) as (m2 & Hadv & Hrep2 & Hch);
    [by apply array_rep_curr, array_rep_buffer|].
  rewrite (bind_run _ _ _ _ _ Hadv). change (negb (SUCCESS STATUS_OK)) with false. cbv iota.
  destruct (changed_settings _ _ Hch) as (Hset & Hk2 & _ & _ & Hb2).
  destruct (array_first _ _ _ Hrep2) as (o' & Ho' & _ & Hfo & _ & _).
  rewrite (run_at _ _ o') by done. rewrite Hfo.
  assert (Hacc : (mi_curr_key m2, mi_merge_buffer m2) = merge_older cfg (entry_key e, mi_merge_buffer m) (oi_entry o2)).
  { unfold merge_older. change (entry_message (oi_entry o2)) with (oi_curr_data o2). cbn [fst snd].
    rewrite Eacc, Hk2, Hb2. done. }
  cbn in Hf. destruct (first_equal cfg (oi_entry o2) ts) eqn:Hf2.
  - destruct (IH m2 (oi_entry o2) ts) as (m' & g & la & rest & Hrun & Hg & Hlt & Hrep' & Hset' & Hfold);
      [done|by rewrite Hk2|done|lia|].
    exists m', (oi_entry o2 :: g), la, rest. split_and!; [done|by apply groups_same|cbn; lia|done| |].
    + by rewrite Hset'.
    + cbn [foldl]. rewrite <-Hacc, Hk2. exact Hfold.
  - exists m2, [oi_entry o2], (oi_entry o2), ts.
    split_and!; [done| |cbn; lia|done|done|by rewrite Hacc].
    apply groups_same; [done|]. by apply groups_alone.
Qed.

(** ** One group *)
Record ready (mode : merge_behavior) m : Prop := {
  rd_merge : mi_merge_messages m = negb (bool_decide (mode = MERGE_RAW));
  rd_finalize : mi_finalize_updates m = bool_decide (mode = MERGE_FULL);
  rd_emit : mi_emit_deletes m = negb (bool_decide (mode = MERGE_FULL));
  rd_prev : mi_can_prev m = true;
  rd_next : mi_can_next m = true;
  rd_copies : mi_copies m = [];
  rd_freed : mi_freed m = false;
}.
Lemma ready_settings mode m m' : settings m' = settings m → ready mode m → ready mode m'.
Proof. unfold settings. intros E [???????]. split; congruence. Qed.

Lemma copy_message_run {A} m msg (f : bool → M (merge_iterator I) A) : mi_copies m = [] →
  (merge_buffer_copy_message msg ≫= f) m = f true (set_buffer msg [] m).
Proof.
  intros E. unfold merge_buffer_copy_message. unfold mbind, M_bind, mget, mput, mret, M_ret. by rewrite E.
Qed.
Lemma set_buffer_settings m b : mi_copies m = [] → settings (set_buffer b [] m) = settings m.
Proof. intros E. unfold settings. cbn. by rewrite E. Qed.

Lemma finalize_run `{!merges_succeed cfg} mode m ts t :
  array_rep m ts → ready mode m → merge_curr m = t → (mi_curr_in_buffer m = true → mi_merge_buffer m = t.2) →
  ∃ m', merge_finalize_updates_and_discard_deletes m = Ret ((STATUS_OK, negb (kept mode (finalize cfg mode t))), m') ∧
    array_rep m' ts ∧ settings m' = settings m ∧ merge_curr m' = finalize cfg mode t.
Proof.
  intros Hrep Hrd Ht Hbuf. unfold merge_finalize_updates_and_discard_deletes. rewrite run_get.
  rewrite (rd_finalize _ _ Hrd). pose proof (ar_cfg _ _ _ _ Hrep) as Hcfg.
  assert (Hend : ∀ m1, array_rep m1 ts → settings m1 = settings m → merge_curr m1 = finalize cfg mode t →
    ∃ m', (if negb (SUCCESS STATUS_OK) then mret (STATUS_OK, false) else
      m ← mget;
      if bool_decide (message_class (mi_curr_data m) = MESSAGE_TYPE_DELETE) && negb (mi_emit_deletes m) then
        mmod count_discarded;; mret (STATUS_OK, true)
      else mret (STATUS_OK, false)) m1 = Ret ((STATUS_OK, negb (kept mode (finalize cfg mode t))), m') ∧
      array_rep m' ts ∧ settings m' = settings m ∧ merge_curr m' = finalize cfg mode t).
  { intros m1 Hr1 Hs1 Hc1. change (negb (SUCCESS STATUS_OK)) with false. cbv iota. rewrite run_get.
    rewrite (rd_emit _ _ (ready_settings _ _ _ Hs1 Hrd)), negb_involutive, andb_comm.
    unfold kept. rewrite negb_involutive, <-Hc1. unfold merge_curr at 1 3 4. cbn [snd].
    destruct (bool_decide (mode = MERGE_FULL) && bool_decide (message_class (mi_curr_data m1) = MESSAGE_TYPE_DELETE)).
    - exists (count_discarded m1). split_and!; [done| |done|done]. by destruct Hr1.
    - by exists m1. }
  rewrite andb_comm. assert (Htm : t.2 = mi_curr_data m ∧ t.1 = mi_curr_key m) by (by rewrite <-Ht).
  destruct Htm as [Htd Htk].
  destruct (bool_decide (mode = MERGE_FULL) && negb (bool_decide (message_class (mi_curr_data m) = MESSAGE_TYPE_INSERT))) eqn:Ec.
  2:{ rewrite run_ret. apply Hend; [done|done|]. unfold finalize. by rewrite Htd, Ec. }
  assert (Hmid : ∀ m1, array_rep m1 ts → settings m1 = settings m → merge_curr m1 = t → mi_merge_buffer m1 = t.2 →
    ∃ m2, (m ← mget;
      let (result, merged) := data_merge_tuples_final (mi_cfg m) (mi_curr_key m) (mi_merge_buffer m) in
      mmod (λ m, set_buffer merged (mi_copies m) m);;
      if negb (result =? 0) then mret STATUS_NO_MEMORY else
      mmod (λ m, set_curr (mi_curr_key m) merged true m);;
      mret STATUS_OK) m1 = Ret (STATUS_OK, m2) ∧
      array_rep m2 ts ∧ settings m2 = settings m ∧ merge_curr m2 = finalize cfg mode t).
  { intros m1 Hr1 Hs1 Hc1 Hb1. rewrite run_get, (ar_cfg _ _ _ _ Hr1), Hb1.
    assert (mi_curr_key m1 = t.1) as Hk1 by (by rewrite <-Hc1). rewrite Hk1.
    pose proof (merge_final_success cfg t.1 t.2) as Hok.
    destruct (data_merge_tuples_final cfg t.1 t.2) as [rc merged] eqn:Ef. cbn in Hok. subst rc.
    rewrite run_mod. cbn [negb Z.eqb]. rewrite run_mod. eexists. split; [done|]. split_and!.
    - by apply array_rep_curr, array_rep_buffer.
    - unfold settings in *. cbn. done.
    - unfold finalize. rewrite Htd, Ec, <-Htd, Ef. unfold merge_curr. cbn. by rewrite Hk1. }
  destruct (mi_curr_in_buffer m) eqn:Eb; cbn [negb].
  - destruct (Hmid m Hrep eq_refl Ht (Hbuf eq_refl)) as (m2 & Hrun & Hr2 & Hs2 & Hc2).
    erewrite bind_run; [by apply Hend|]. rewrite run_ret. exact Hrun.
  - pose proof (rd_copies _ _ Hrd) as Hcp.
    destruct (Hmid (set_buffer (mi_curr_data m) [] m)) as (m2 & Hrun & Hr2 & Hs2 & Hc2);
      [by apply array_rep_buffer|by apply set_buffer_settings|done|done|].
    erewrite bind_run; [by apply Hend|]. rewrite copy_message_run by done. exact Hrun.
Qed.

(** ** The outer loops *)
Lemma groups_emit mode e ts g rest : mode ≠ MERGE_RAW → groups cfg (e :: ts) = (e :: g) :: groups cfg rest →
  merge_spec cfg mode (e :: ts) = emit cfg mode (e :: g) ++ merge_spec cfg mode rest.
Proof. intros Hm E. unfold merge_spec. destruct mode; [done|..]; by rewrite E. Qed.

(** A merge iterator that stands at the first tuple of [out]. *)
Definition positioned (mode : merge_behavior) m (out : list (key * message)) (n : nat) : Prop :=
  match out with
  | [] => (if forwards then mi_can_next m else mi_can_prev m) = false
  | t :: out' => ∃ la rest, array_rep m (la :: rest) ∧ ready mode m ∧ merge_curr m = t ∧
      out' = merge_spec cfg mode rest ∧ (length rest < n)%nat
  end.

(** The first group is merged, and its last tuple is left at the front. *)
Lemma group_run `{!merges_succeed cfg} fuel m e ts :
  array_rep m (e :: ts) → merge_curr m = e.2 → mi_curr_in_buffer m = false → mi_copies m = [] →
  (length ts ≤ fuel)%nat →
  ∃ m' g la rest,
    (if first_equal cfg e ts then merge_resolve_equal_keys fuel else mret STATUS_OK) m = Ret (STATUS_OK, m') ∧
    groups cfg (e :: ts) = (e :: g) :: groups cfg rest ∧ (length rest ≤ length ts)%nat ∧
    array_rep m' (la :: rest) ∧ settings m' = settings m ∧ merge_curr m' = merge_group cfg (e :: g) ∧
    (mi_curr_in_buffer m' = true → mi_merge_buffer m' = (merge_group cfg (e :: g)).2).
Proof.
  intros Hrep Hc Hb Hcp Hlen. destruct (first_equal cfg e ts) eqn:Hf.
  2:{ exists m, [], e, ts. split_and!; [done|by apply groups_alone|done|done|done|done|by rewrite Hb]. }
  unfold merge_resolve_equal_keys. rewrite run_get, copy_message_run by done. cbn [negb].
  destruct (resolve_loop_run fuel (set_buffer (mi_curr_data m) [] m) e ts)
    as (m1 & g & la & rest & Hrun & Hg & Hlt & Hrep1 & Hset1 & Hfold);
    [by apply array_rep_buffer|change (mi_curr_key m = e.2.1); by rewrite <-Hc|done|done|].
  rewrite (bind_run _ _ _ _ _ Hrun). change (negb (SUCCESS STATUS_OK)) with false. cbv iota. rewrite run_mod.
  assert (Hmg : merge_group cfg (e :: g) = (mi_curr_key m1, mi_merge_buffer m1)).
  { rewrite Hfold. cbn [merge_group mi_merge_buffer set_buffer]. f_equal. rewrite <-Hc.
    unfold entry_key. by rewrite <-Hc. }
  eexists _, g, la, rest. rewrite Hmg.
  split_and!; [done|done|lia|by apply array_rep_curr| |done|done].
  transitivity (settings m1); [done|]. by rewrite Hset1, set_buffer_settings.
Qed.

Lemma advance_one_run `{!merges_succeed cfg} mode fuel m ts :
  array_rep m ts → (ts ≠ [] → ready mode m) → (length ts ≤ fuel)%nat →
  (∃ m', advance_one_loop fuel m = Ret ((STATUS_OK, false), m') ∧ positioned mode m' (merge_spec cfg mode ts) (length ts)) ∨
  (∃ m' la rest, advance_one_loop fuel m = Ret ((STATUS_OK, true), m') ∧
     array_rep m' (la :: rest) ∧ ready mode m' ∧ (length rest < length ts)%nat ∧
     merge_spec cfg mode ts = merge_spec cfg mode rest).
Proof.
  intros Hrep Hrd Hlen. unfold advance_one_loop. rewrite run_get.
  destruct ts as [|e ts].
  { left. destruct Hrep as [_ Hfw (live & dead & ls & _ & Hnum & Hr & _)]. apply live_ts_nil in Hr as ->.
    rewrite Hnum, Hfw. change (lengthZ [] =? 0) with true. cbv iota. rewrite run_put. eexists. split; [done|].
    assert (merge_spec cfg mode [] = []) as -> by (by destruct mode). cbn. by destruct forwards. }
  specialize (Hrd ltac:(done)). destruct (array_first _ _ _ Hrep) as (o & Ho & Hoe & Hof & Hn0 & _).
  rewrite (proj2 (Z.eqb_neq _ _) Hn0), (run_at _ _ o) by done. rewrite run_put.
  set (m1 := set_curr _ _ _ m).
  assert (Hrep1 : array_rep m1 (e :: ts)) by (by apply array_rep_curr).
  assert (Hrd1 : ready mode m1) by (by eapply ready_settings; [|exact Hrd]).
  rewrite (rd_merge _ _ Hrd), negb_involutive.
  destruct (decide (mode = MERGE_RAW)) as [->|Hm].
  { left. rewrite bool_decide_true by done. exists m1. split; [done|]. exists e, ts.
    split_and!; [done|done| |done|cbn; lia]. by rewrite <-Hoe. }
  rewrite (bool_decide_false (mode = _)) by done. rewrite Hof.
  destruct (group_run fuel m1 e ts) as (m2 & g & la & rest & Hrun & Hg & Hlt & Hrep2 & Hset2 & Hc2 & Hb2);
    [done|by rewrite <-Hoe|done|by apply (rd_copies _ _ Hrd1)|cbn in Hlen; lia|].
  rewrite (bind_run _ _ _ _ _ Hrun). change (negb (SUCCESS STATUS_OK)) with false. cbv iota.
  destruct (finalize_run mode m2 (la :: rest) _ Hrep2 (ready_settings _ _ _ Hset2 Hrd1) Hc2 Hb2)
    as (m3 & Hfin & Hrep3 & Hset3 & Hc3).
  rewrite (bind_run _ _ _ _ _ Hfin). change (negb (SUCCESS STATUS_OK)) with false. cbv iota.
  rewrite (groups_emit mode e ts g rest Hm Hg). unfold emit.
  assert (Hrd3 : ready mode m3) by (by eapply ready_settings, ready_settings, Hrd1; [exact Hset3|exact Hset2]).
  destruct (kept mode _); cbn [negb app].
  - left. exists m3. split; [done|]. exists la, rest. split_and!; [done..|]. cbn. lia.
  - right. exists m3, la, rest. split_and!; [done..|cbn; lia|done].
Qed.

Lemma advance_helper_run `{!merges_succeed cfg} mode fuel m la rest :
  array_rep m (la :: rest) → ready mode m → (length rest < fuel)%nat →
  ∃ m', merge_advance_helper fuel m = Ret (STATUS_OK, m') ∧
    positioned mode m' (merge_spec cfg mode rest) (length rest).
Proof.
  revert m la rest. induction fuel as [|fuel IH]; intros m la rest Hrep Hrd Hlen; [lia|].
  cbn [merge_advance_helper]. rewrite run_mod.
  destruct (advance_run cfg forwards (set_curr NULL_KEY NULL_MESSAGE false m) la rest)
    as (m1 & Hadv & Hrep1 & Hch); [by apply array_rep_curr|].
  destruct (changed_settings _ _ Hch) as (Hset & _).
  rewrite (bind_run _ _ _ _ _ Hadv). change (negb (SUCCESS STATUS_OK)) with false. cbv iota.
  destruct (advance_one_run mode fuel m1 rest Hrep1) as [(m2 & Hrun & Hpos)|(m2 & la2 & rest2 & Hrun & Hrep2 & Hrd2 & Hlt & E)];
    [intros _; by apply (ready_settings _ m)|lia| |]; rewrite (bind_run _ _ _ _ _ Hrun); change (negb (SUCCESS STATUS_OK)) with false; cbv iota.
  - by exists m2.
  - destruct (IH m2 la2 rest2 Hrep2 Hrd2 ltac:(lia)) as (m3 & Hrun3 & Hpos). exists m3. split; [done|].
    rewrite E. destruct (merge_spec cfg mode rest2); [done|]. destruct Hpos as (la3 & rest3 & ? & ? & ? & ? & ?).
    exists la3, rest3. split_and!; [done..|lia].
Qed.

(** ** The iterator that results *)
Lemma positioned_yields `{!merges_succeed cfg} mode fuel m out n : positioned mode m out n → (n < fuel)%nat →
  @yields _ (merge_ops (S fuel)) forwards m out.
Proof.
  revert m n. induction out as [|t out IH]; intros m n Hp Hn.
  { constructor. cbn in Hp. unfold can_step. destruct forwards; exact Hp. }
  destruct Hp as (la & rest & Hrep & Hrd & Hc & -> & Hlt).
  destruct (advance_helper_run mode fuel m la rest Hrep Hrd ltac:(lia)) as (m' & Hrun & Hpos).
  econstructor; [| |  |by eapply IH; [exact Hpos|lia]].
  - unfold iterator_can_curr. cbn. unfold merge_can_next, merge_can_prev. by rewrite (rd_next _ _ Hrd), (rd_prev _ _ Hrd).
  - exact Hc.
  - assert (Hst : merge_move (S fuel) forwards m = Ret (STATUS_OK, m')).
    { cbn [merge_move]. rewrite run_get, (rd_freed _ _ Hrd), (run_opt _ _ _ tt) by done.
      rewrite (ar_forwards _ _ _ _ Hrep), eqb_reflx. exact Hrun. }
    unfold iterator_step. destruct forwards; exact Hst.
Qed.
End run.

(** * Creating a merge iterator

    [setup_ordered_iterators] establishes the representation of MergeOrder from
    iterators in any order, some of them at their end. *)
Section setup.
Context {I : Type} `{!iterator_ops I} (cfg : data_config) `{!key_order cfg} (forwards : bool).
Implicit Types (o : ordered_iterator I) (A U D L : list (ordered_iterator I)) (m : merge_iterator I).
Local Abbreviation before := (before cfg forwards).

Definition alive o : bool := iterator_can_curr (oi_itor o).
Definition load o : ordered_iterator I := set_curr_ordered_iterator o.

(** ** The partition *)
Definition any_prev U : bool := existsb (λ o, iterator_can_prev (oi_itor o)) U.
Definition any_next U : bool := existsb (λ o, iterator_can_next (oi_itor o)) U.
(** [m] after the loop has seen [U]. *)
Definition partitioned m A' D' p n : merge_iterator I := set_array (A' ++ D') (lengthZ A') (set_ends p n m).

Lemma partition_run fuel m A U D p n : (length U < fuel)%nat →
  ∃ A' D' p' n',
    partition_loop fuel (lengthZ A) (set_array (A ++ U ++ D) (lengthZ (A ++ U)) (set_ends p n m)) =
      Ret (tt, partitioned m A' D' p' n') ∧
    A' ≡ₚ A ++ (load <$> filter (λ o, alive o = true) U) ∧ length (A' ++ D') = length (A ++ U ++ D) ∧
    p' = p || any_prev U ∧ n' = n || any_next U.
Proof.
  revert A U D p n. induction fuel as [|fuel IH]; intros A U D p n Hf; [lia|]. cbn [partition_loop].
  rewrite run_get. cbn [mi_num_remaining set_array]. destruct U as [|u U].
  { rewrite app_nil_r, Z.ltb_irrefl. cbn [negb]. exists A, D, p, n. cbn. rewrite app_nil_r, !orb_false_r. by split_and!. }
  rewrite (proj2 (Z.ltb_lt _ _)) by (rewrite lengthZ_app, lengthZ_cons; pose proof (lengthZ_nonneg U); lia).
  cbn [negb]. cbn [app]. rewrite (run_at _ _ u) by apply lookupZ_at_length. rewrite run_put.
  cbn [mi_can_prev mi_can_next set_array set_ends]. fold (alive u).
  set (p1 := p || _). set (n1 := n || _). rewrite list.filter_cons. destruct (alive u) eqn:Ea; cbn [negb].
  - rewrite run_put_index. cbn [mi_ordered_iterators set_array set_ends mi_num_remaining].
    rewrite insertZ_app_mid by done. rewrite decide_True by done.
    destruct (IH (A ++ [load u]) U D p1 n1) as (A' & D' & p' & n' & Hrun & Hp & Hl & -> & ->); [cbn in Hf; lia|].
    exists A', D', (p1 || any_prev U), (n1 || any_next U). split_and!.
    + rewrite lengthZ_app in Hrun. change (lengthZ [load u]) with 1 in Hrun.
      rewrite <-!(assoc (++)) in Hrun. cbn [app] in Hrun. rewrite lengthZ_app, lengthZ_cons in *. exact Hrun.
    + rewrite Hp, <-(assoc (++)). done.
    + rewrite Hl, !length_app. cbn. rewrite !length_app. cbn. lia.
    + unfold p1, any_prev. cbn. by rewrite orb_assoc.
    + unfold n1, any_next. cbn. by rewrite orb_assoc.
  - rewrite decide_False by done. cbn [mi_num_remaining set_array].
    replace (lengthZ (A ++ u :: U) - 1) with (lengthZ (A ++ U)) by (rewrite !lengthZ_app, lengthZ_cons; lia).
    destruct U as [|z U _] using rev_ind.
    + rewrite app_nil_r. cbn [app].
      rewrite (run_at _ _ u) by apply lookupZ_at_length. rewrite !run_put_index, run_mod.
      cbn [mi_ordered_iterators set_array set_ends mi_num_remaining].
      rewrite insertZ_app_mid by done. rewrite insertZ_app_mid by done.
      destruct (IH A [] (u :: D) p1 n1) as (A' & D' & p' & n' & Hrun & Hp & Hl & -> & ->); [cbn in *; lia|].
      rewrite app_nil_r in Hrun. cbn [app] in Hrun.
      exists A', D', (p1 || any_prev []), (n1 || any_next []). split_and!; [exact Hrun|exact Hp|exact Hl|..].
      * unfold p1, any_prev. cbn. by rewrite !orb_false_r.
      * unfold n1, any_next. cbn. by rewrite !orb_false_r.
    + assert (Harr : A ++ u :: (U ++ [z]) ++ D = (A ++ u :: U) ++ z :: D) by (rewrite <-!(assoc (++)); done).
      assert (Hpos : lengthZ (A ++ U ++ [z]) = lengthZ (A ++ u :: U)).
      { rewrite !lengthZ_app, !lengthZ_cons, lengthZ_nil. lia. }
      rewrite Harr, Hpos. rewrite (run_at _ _ z) by apply lookupZ_at_length.
      rewrite !run_put_index, run_mod. cbn [mi_ordered_iterators set_array set_ends mi_num_remaining].
      rewrite insertZ_app_mid by done. rewrite <-app_assoc. cbn [app]. rewrite insertZ_app_mid by done.
      destruct (IH A (z :: U) (u :: D) p1 n1) as (A' & D' & p' & n' & Hrun & Hp & Hl & -> & ->);
        [cbn in *; rewrite length_app in Hf; cbn in Hf; lia|].
      exists A', D', (p1 || any_prev (z :: U)), (n1 || any_next (z :: U)).
      assert (Hperm : U ++ [z] ≡ₚ z :: U) by (symmetry; apply Permutation_cons_append). split_and!.
      * rewrite <-Hrun. cbn [app]. rewrite !lengthZ_app, !lengthZ_cons. done.
      * by rewrite Hperm.
      * rewrite Hl. cbn. rewrite !length_app. cbn. rewrite !length_app. cbn. lia.
      * unfold p1, any_prev. cbn [existsb]. rewrite existsb_app. cbn [existsb].
        by rewrite orb_false_r, (orb_comm (existsb _ U)), !orb_assoc.
      * unfold n1, any_next. cbn [existsb]. rewrite existsb_app. cbn [existsb].
        by rewrite orb_false_r, (orb_comm (existsb _ U)), !orb_assoc.
Qed.

(** ** The flags *)
Fixpoint set_flags L : list (ordered_iterator I) :=
  match L with
  | o :: (o' :: _) as L' => oi_set_equal (keys_equal cfg o o') o :: set_flags L'
  | L => L
  end.
Lemma set_flags_core L : core <$> set_flags L = core <$> L.
Proof. induction L as [|o [|o' L] IH]; [done..|]. cbn [set_flags fmap list_fmap] in *. by rewrite IH. Qed.
Lemma set_flags_length L : length (set_flags L) = length L.
Proof. rewrite <-(length_fmap core (set_flags L)), set_flags_core. apply length_fmap. Qed.
Lemma set_flags_head o L : ∃ o1 L1, set_flags (o :: L) = o1 :: L1 ∧ oi_curr_key o1 = oi_curr_key o.
Proof. destruct L; eexists _, _; done. Qed.
(** Only the flag of the last one must have been clear before. *)
Lemma set_flags_ok L : (∀ o, list.last L = Some o → oi_next_key_equal o = false) → flags_ok cfg (set_flags L).
Proof.
  induction L as [|o [|o' L] IH]; intros H; [done|split; [by apply H|done]|].
  destruct (set_flags_head o' L) as (o1 & L1 & E & Hk). specialize (IH H).
  change (set_flags (o :: o' :: L)) with (oi_set_equal (keys_equal cfg o o') o :: set_flags (o' :: L)).
  rewrite E in *. split; [|exact IH]. unfold keys_equal. cbn. by rewrite Hk.
Qed.

Lemma init_flags_run m A L D n : mi_cfg m = cfg →
  mfor (length L - 1) (lengthZ A) (λ i,
    o ← at_index i;
    o' ← at_index (i + 1);
    put_index i (oi_set_equal (data_key_compare cfg (oi_curr_key o) (oi_curr_key o') =? 0) o))
    (set_array (A ++ L ++ D) n m) = Ret (tt, set_array (A ++ set_flags L ++ D) n m).
Proof.
  intros Hcfg. revert A. induction L as [|o [|o' L] IH]; intros A; [done..|].
  replace (length (o :: o' :: L) - 1)%nat with (S (length (o' :: L) - 1)) by (cbn; lia). cbn [mfor].
  erewrite bind_run.
  2:{ cbn [app]. rewrite (run_at _ _ o) by apply lookupZ_at_length.
      rewrite (run_at _ _ o').
      2:{ change (A ++ o :: o' :: L ++ D) with (A ++ [o] ++ o' :: L ++ D). rewrite (assoc (++)).
          replace (lengthZ A + 1) with (lengthZ (A ++ [o])) by (by rewrite lengthZ_app).
          apply lookupZ_at_length. }
      unfold put_index. done. }
  cbn [mi_ordered_iterators set_array mi_num_remaining]. rewrite insertZ_app_mid by done.
  specialize (IH (A ++ [oi_set_equal (keys_equal cfg o o') o])).
  rewrite lengthZ_app in IH. change (lengthZ [_]) with 1 in IH.
  rewrite <-!(assoc (++)) in IH. cbn [app] in IH. exact IH.
Qed.

(** ** The sources *)
(** What the iterators of a forest yield: keys in the direction of the traversal, of a
    length that fits an int, none twice. *)
Definition source_ok (l : list (key * message)) : Prop :=
  Forall (λ x, key_small x.1) l ∧ StronglySorted (λ x y, key_cmp cfg forwards x.1 y.1 < 0) l.
Definition sources U (ls : list (list (key * message))) : list entry :=
  mjoin (zip_with (λ o l, tagged (oi_seq o) l) U ls).
Definition stands o (l : list (key * message)) : Prop := yields forwards (oi_itor o) l ∧ source_ok l.

Lemma load_facts o : oi_itor (load o) = oi_itor o ∧ oi_seq (load o) = oi_seq o ∧
  oi_curr (load o) = iterator_curr (oi_itor o) ∧ oi_next_key_equal (load o) = oi_next_key_equal o.
Proof. unfold load, set_curr_ordered_iterator. by destruct (iterator_curr (oi_itor o)). Qed.
Lemma tagged_sorted seq l : source_ok l → StronglySorted before (tagged seq l).
Proof.
  intros [_ H]. unfold tagged. induction H as [|x l H IH Hx]; cbn; [constructor|].
  constructor; [done|]. apply list.Forall_fmap. eapply list.Forall_impl; [exact Hx|].
  intros y Hy. cbv beta in Hy. unfold MergeOrder.before, entry_cmp, entry_key. cbn.
  rewrite (proj2 (Z.eqb_neq _ _)) by lia. exact Hy.
Qed.
Lemma tagged_small seq l : source_ok l → Forall entry_small (tagged seq l).
Proof. intros [H _]. by apply list.Forall_fmap. Qed.
Lemma tagged_seq seq l e : e ∈ tagged seq l → e.1 = seq.
Proof. intros (x & -> & _)%list_elem_of_fmap. done. Qed.

Lemma sources_live U ls : Forall2 stands U ls → ∃ ls',
  Forall2 (runs cfg forwards) (load <$> filter (λ o, alive o = true) U) ls' ∧
  mjoin (zip_with pending (load <$> filter (λ o, alive o = true) U) ls') = sources U ls.
Proof.
  induction 1 as [|o l U ls [Hy Hok] _ (ls' & Hr & E)]; [by exists []|].
  unfold sources in *. rewrite list.filter_cons. cbn [zip_with].
  rewrite !join_cons.
  destruct (load_facts o) as (Hi & Hs & Hc & _).
  assert (Ha : alive o = negb (bool_decide (l = []))) by exact (yields_can_curr _ _ _ Hy).
  destruct l as [|x l].
  - rewrite decide_False by (rewrite Ha, bool_decide_true by done; done). by exists ls'.
  - rewrite decide_True by (rewrite Ha, bool_decide_false by done; done). exists (l :: ls'). cbn [fmap list_fmap zip_with].
    destruct (yields_cons_inv _ _ _ _ Hy) as [Hx _]. rewrite Hx in Hc. split.
    + constructor; [|done]. split; [by rewrite Hi, Hc|]. unfold pending. rewrite Hs, Hc. by apply tagged_sorted.
    + rewrite !join_cons. rewrite E. unfold pending. by rewrite Hs, Hc.
Qed.
Lemma sources_small U ls : Forall2 stands U ls → Forall entry_small (sources U ls).
Proof.
  induction 1 as [|o l U ls [_ Hok] _ IH]; [constructor|].
  apply list.Forall_app. split; [by apply tagged_small|done].
Qed.
Lemma sources_seq U ls e : e ∈ sources U ls → e.1 ∈ (oi_seq <$> U).
Proof.
  revert ls. induction U as [|o U IH]; intros [|l ls]; cbn; try by intros ?%list.not_elem_of_nil.
  intros [->%tagged_seq|H]%list.elem_of_app; [by left|]. right. by eapply IH.
Qed.
Definition never_tied (e e' : entry) : Prop := compared (entry_cmp cfg forwards) e e'.
Lemma before_never_tied e e' : entry_small e → entry_small e' → before e e' ∨ before e' e → never_tied e e'.
Proof.
  intros H H' [Hb|Hb]; [by left|right]. split; [|exact Hb]. by apply (before_flip cfg forwards).
Qed.
Lemma sources_compared U ls : Forall2 stands U ls → NoDup (oi_seq <$> U) → StronglySorted never_tied (sources U ls).
Proof.
  induction 1 as [|o l U ls [Hy Hok] HU IH]; intros Hn; [constructor|].
  cbn in Hn. apply list.NoDup_cons in Hn as [Hni Hn]. apply StronglySorted_app_2; [| |by apply IH].
  - intros x y Hx Hy'. pose proof (tagged_small (oi_seq o) l Hok) as Hs1. pose proof (sources_small _ _ HU) as Hs2.
    rewrite list.Forall_forall in Hs1, Hs2. specialize (Hs1 x Hx). specialize (Hs2 y Hy').
    apply before_never_tied; [done|done|]. apply (before_total cfg forwards); [done..|].
    rewrite (tagged_seq _ _ _ Hx). intros E. apply Hni. rewrite E. by eapply sources_seq.
  - pose proof (tagged_small (oi_seq o) l Hok) as Hs. pose proof (tagged_sorted (oi_seq o) l Hok) as Hl.
    induction Hl as [|x l' Hl IHl Hx]; [constructor|]. apply list.Forall_cons in Hs as [Hsx Hs].
    constructor; [by apply IHl|]. rewrite list.Forall_forall in Hs, Hx |- *. intros y Hy'.
    apply before_never_tied; [done|by apply Hs|left; by apply Hx].
Qed.
Definition merge_order (ts : list entry) : list entry := platform_sort_slow (entry_cmp cfg forwards) ts.
Lemma sources_sorted U ls : Forall2 stands U ls → NoDup (oi_seq <$> U) →
  StronglySorted before (merge_order (sources U ls)) ∧ merge_order (sources U ls) ≡ₚ sources U ls.
Proof.
  intros H Hn. split; [|apply sort_perm]. apply (sort_sorted _ entry_small).
  - intros x y z. apply (before_trans cfg forwards).
  - by apply sources_small.
  - by apply sources_compared.
Qed.

(** ** The representation *)
Lemma perm_futures {B C} (R : ordered_iterator I → B → Prop) (f : ordered_iterator I → B → list C) L L' (ls : list B) :
  L ≡ₚ L' → Forall2 R L ls → ∃ ls', Forall2 R L' ls' ∧ mjoin (zip_with f L' ls') ≡ₚ mjoin (zip_with f L ls).
Proof.
  intros HP. revert ls. induction HP as [|o L L' HP IH|o o' L|L1 L2 L3 _ IH1 _ IH2]; intros ls H.
  - by exists ls.
  - destruct ls as [|l ls]; [inversion H|]. apply list.Forall2_cons in H as [Hl H].
    destruct (IH ls H) as (ls' & H' & E). exists (l :: ls'). split; [by constructor|].
    cbn [zip_with]. rewrite !join_cons. by rewrite E.
  - destruct ls as [|l [|l' ls]]; [inversion H|by apply list.Forall2_cons in H as [_ H]; inversion H|].
    apply list.Forall2_cons in H as [Hl [Hl' H]%list.Forall2_cons]. exists (l' :: l :: ls).
    split; [by repeat constructor|]. cbn [zip_with]. rewrite !join_cons.
    rewrite !(assoc (++)). by rewrite (comm (++) (f o l')).
  - destruct (IH1 ls H) as (ls2 & H2 & E2). destruct (IH2 ls2 H2) as (ls3 & H3 & E3).
    exists ls3. split; [done|]. by rewrite E3.
Qed.

Lemma sorted_rep U ls L : Forall2 stands U ls → NoDup (oi_seq <$> U) →
  L ≡ₚ load <$> filter (λ o, alive o = true) U →
  ∃ ls', live_rep cfg forwards (platform_sort_slow (merge_comp forwards cfg) L) ls' (merge_order (sources U ls)).
Proof.
  intros HU Hn HL. destruct (sources_live _ _ HU) as (ls1 & Hr1 & E1).
  destruct (perm_futures _ pending _ (platform_sort_slow (merge_comp forwards cfg) L) _ (symmetry (transitivity (sort_perm _ _) HL)) Hr1)
    as (ls2 & Hr2 & E2).
  destruct (sources_sorted _ _ HU Hn) as [Hts Hperm].
  assert (Hseqs : NoDup (oi_seq <$> L)).
  { assert (Hsub : oi_seq <$> filter (λ o, alive o = true) U = oi_seq <$> (load <$> filter (λ o, alive o = true) U)).
    { rewrite <-list_fmap_compose. apply list_fmap_ext. intros i o _. cbn. symmetry. apply load_facts. }
    rewrite HL, <-Hsub. eapply sublist_NoDup; [exact Hn|]. by apply fmap_sublist, sublist_filter. }
  assert (Hsm : Forall entry_small (merge_order (sources U ls))) by (rewrite Hperm; by apply sources_small).
  assert (Hent : ∀ o, o ∈ L → entry_small (oi_entry o)).
  { intros o Ho. pose proof (sources_small _ _ HU) as Hs. rewrite <-E1, list.Forall_forall in Hs. apply Hs.
    rewrite HL in Ho. apply list_elem_of_lookup in Ho as [i Hi].
    destruct (Forall2_lookup_l _ _ _ _ _ Hr1 Hi) as (l & Hl & _).
    apply list_elem_of_join. exists (pending o l). split; [by left|].
    apply (list_elem_of_lookup_2 _ i). by rewrite lookup_zip_with, Hi; cbn; rewrite Hl. }
  exists ls2. split; [done| | |done| |done].
  - apply StronglySorted_fmap with (R1 := λ o o', merge_comp forwards cfg o o' < 0).
    + intros o o'. unfold merge_comp. by rewrite bsearch_comp_entry.
    + apply (sort_sorted _ (λ o, entry_small (oi_entry o))).
      * intros x y z. unfold merge_comp. rewrite !bsearch_comp_entry. apply (before_trans cfg forwards).
      * by apply list.Forall_forall.
      * clear E2 Hr2 Hr1 E1 HL. induction L as [|o L IH]; [constructor|].
        cbn in Hseqs. apply list.NoDup_cons in Hseqs as [Hni Hseqs].
        constructor; [apply IH; [done|]; intros; apply Hent; by right|].
        apply list.Forall_forall. intros o' Ho'. unfold compared, merge_comp. rewrite !bsearch_comp_entry. cbn [fst].
        apply (before_never_tied (oi_entry o) (oi_entry o')); [apply Hent; by left|apply Hent; by right|].
        apply (before_total cfg forwards); [apply Hent; by left|apply Hent; by right|].
        cbn. intros E. apply Hni. rewrite E. by apply list_elem_of_fmap_2.
  - by rewrite sort_perm.
  - by rewrite Hperm, E2, <-E1.
Qed.

(** ** The set-up *)
Definition configured (mode : merge_behavior) m : Prop :=
  mi_cfg m = cfg ∧ mi_forwards m = forwards ∧ mi_copies m = [] ∧ mi_freed m = false ∧
  mi_merge_messages m = negb (bool_decide (mode = MERGE_RAW)) ∧
  mi_finalize_updates m = bool_decide (mode = MERGE_FULL) ∧
  mi_emit_deletes m = negb (bool_decide (mode = MERGE_FULL)).

(** The array after the partition, the sort and the flags. *)
Lemma arranged_run `{!merges_succeed cfg} mode m U ls (k : M (merge_iterator I) platform_status) :
  configured mode m → mi_ordered_iterators m = U → mi_num_trees m = lengthZ U →
  Forall2 stands U ls → NoDup (oi_seq <$> U) → Forall (λ o, oi_next_key_equal o = false) U →
  ∃ m', (mmod (λ m, set_array (mi_ordered_iterators m) (mi_num_trees m) (set_ends false false m));;
         m ← mget;
         partition_loop (S (Z.to_nat (mi_num_trees m))) 0;;
         m ← mget;
         let n := Z.to_nat (mi_num_remaining m) in
         mput (set_array (platform_sort_slow (merge_comp (mi_forwards m) (mi_cfg m)) (take n (mi_ordered_iterators m))
                          ++ drop n (mi_ordered_iterators m)) (mi_num_remaining m) m);;
         init_next_key_equal;;
         k) m = k m' ∧
    array_rep cfg forwards m' (merge_order (sources U ls)) ∧
    (merge_order (sources U ls) ≠ [] → ready mode m').
Proof.
  intros (Hcfg & Hfw & Hcp & Hfr & Hmm & Hfu & Hed) HU Hnt Hst Hnd Hfl.
  rewrite run_mod, run_get. cbn [mi_num_trees set_array set_ends]. rewrite HU, Hnt.
  destruct (partition_run (S (Z.to_nat (lengthZ U))) m [] U [] false false) as (A & D & p & n & Hrun & HA & Hlen & -> & ->);
    [unfold lengthZ; lia|].
  cbn [app] in Hrun. rewrite app_nil_r in Hrun. change (lengthZ []) with 0 in Hrun.
  rewrite (bind_run _ _ _ _ _ Hrun), run_get. cbn [app] in HA.
  unfold partitioned. cbn [mi_num_remaining mi_ordered_iterators mi_forwards mi_cfg set_array set_ends].
  unfold lengthZ at 1 2. rewrite Nat2Z.id, take_app_length, drop_app_length, Hcfg, Hfw, run_put.
  set (S1 := platform_sort_slow _ A).
  assert (Hinit : init_next_key_equal (set_array (S1 ++ D) (lengthZ A) (set_ends (any_prev U) (any_next U) m)) =
    Ret (tt, set_array (set_flags S1 ++ D) (lengthZ A) (set_ends (any_prev U) (any_next U) m))).
  { unfold init_next_key_equal. rewrite run_get. cbn [mi_num_remaining mi_cfg set_array set_ends]. rewrite Hcfg.
    replace (Z.to_nat (lengthZ A - 1)) with (length S1 - 1)%nat
      by (unfold S1, lengthZ; rewrite (Permutation_length (sort_perm _ _)); lia).
    apply (init_flags_run (set_ends (any_prev U) (any_next U) m) [] S1 D (lengthZ A)). exact Hcfg. }
  erewrite (bind_run _ _ _ _ _ Hinit).
  destruct (sorted_rep U ls A Hst Hnd HA) as [ls' Hrep]. eexists. split; [done|].
  assert (Hlive : merge_order (sources U ls) ≠ [] → ∃ o, o ∈ U ∧ alive o = true).
  { intros Hne. destruct (filter (λ o, alive o = true) U) as [|o L] eqn:EU.
    - cbn in HA. apply Permutation_nil_r in HA as ->. by apply live_nil in Hrep.
    - exists o. assert (Ho : o ∈ filter (λ o, alive o = true) U) by (rewrite EU; by left).
      by apply list_elem_of_filter in Ho as [? ?]. }
  split.
  - split; [done..|]. exists (set_flags S1), D, ls'. split_and!; [done| | |].
    + cbn. unfold lengthZ. unfold S1. by rewrite set_flags_length, (Permutation_length (sort_perm _ _)).
    + eapply live_rep_same; [|exact Hrep]. by rewrite set_flags_core.
    + apply set_flags_ok. intros o Ho. apply last_Some_elem_of in Ho. unfold S1 in Ho. rewrite sort_perm, HA in Ho.
      apply list_elem_of_fmap in Ho as (o1 & -> & Ho1). apply list_elem_of_filter in Ho1 as [_ Ho1].
      rewrite list.Forall_forall in Hfl. destruct (load_facts o1) as (_ & _ & _ & ->). by apply Hfl.
  - intros Hne. destruct (Hlive Hne) as (o & Ho & Ha). unfold alive, iterator_can_curr in Ha.
    apply andb_true_iff in Ha as [Hn Hp].
    split; cbn; try done; apply existsb_exists; exists o; (split; [by apply list_elem_of_In|done]).
Qed.

Lemma setup_run `{!merges_succeed cfg} mode fuel m U ls :
  configured mode m → mi_ordered_iterators m = U → mi_num_trees m = lengthZ U →
  Forall2 stands U ls → NoDup (oi_seq <$> U) → Forall (λ o, oi_next_key_equal o = false) U →
  (length (sources U ls) < fuel)%nat →
  ∃ m', setup_ordered_iterators fuel m = Ret (STATUS_OK, m') ∧
    positioned cfg forwards mode m' (merge_spec cfg mode (merge_order (sources U ls))) (length (sources U ls)).
Proof.
  intros Hc HU Hnt Hst Hnd Hfl Hlen.
  set (k := '(rc, retry) ← advance_one_loop fuel;
            rc ← (if retry && SUCCESS rc then m ← mget; merge_move fuel (mi_forwards m) else mret rc);
            if negb (SUCCESS rc) then merge_iterator_destroy;; mret rc else mret rc : M (merge_iterator I) platform_status).
  destruct (arranged_run mode m U ls k Hc HU Hnt Hst Hnd Hfl) as (m1 & Hrun & Hrep & Hrd).
  assert (Hset : setup_ordered_iterators fuel m = k m1) by exact Hrun. rewrite Hset. unfold k.
  assert (Hlts : length (merge_order (sources U ls)) = length (sources U ls)) by (apply Permutation_length, sort_perm).
  destruct (advance_one_run cfg forwards mode fuel m1 _ Hrep Hrd)
    as [(m2 & Hone & Hpos)|(m2 & la & rest & Hone & Hrep2 & Hrd2 & Hlt & E)]; [lia| |];
    rewrite (bind_run _ _ _ _ _ Hone); cbn [andb].
  - exists m2. rewrite <-Hlts. by split.
  - change (SUCCESS STATUS_OK) with true. cbn [andb]. destruct fuel as [|fuel]; [lia|].
    destruct (advance_helper_run cfg forwards mode fuel m2 la rest Hrep2 Hrd2 ltac:(lia)) as (m3 & Hmv & Hpos).
    exists m3. split.
    + rewrite (bind_run _ _ _ STATUS_OK m3); [done|]. rewrite run_get, (ar_forwards _ _ _ _ Hrep2). cbn [merge_move].
      rewrite run_get, (rd_freed _ _ Hrd2), (run_opt _ _ _ tt) by done.
      rewrite (ar_forwards _ _ _ _ Hrep2), eqb_reflx. exact Hmv.
    + rewrite E. destruct (merge_spec cfg mode rest); [done|]. destruct Hpos as (la3 & rest3 & ? & ? & ? & ? & ?).
      exists la3, rest3. split_and!; [done..|lia].
Qed.
End setup.
