(* ===== verification/MergeMap.v ===== *)
(** * A merge as a map

    What the reference of MergeOrder means: a sorted list that maps each key to its
    versions in the sources, merged from the newest to the oldest. *)
From stdpp Require Import sorting.
From S2P Require Import Prelude DataInternal Iterator Merge MergeOrder MergeStep MergeRun.

Section map.
Context (cfg : data_config) `{!key_order cfg} (forwards : bool).
Implicit Types (k : key) (l : list (key * message)) (ls : list (list (key * message))) (e : entry) (ts g : list entry).
Local Abbreviation before := (before cfg forwards).
Local Abbreviation source_ok := (source_ok cfg forwards).

Definition is_key k k' : bool := data_key_compare cfg k' k =? 0.
(** The tuple a list has for a key. *)
Definition find_key k l : option (key * message) := head (filter (λ x, is_key k x.1 = true) l).
(** The tuples of a key, the newest first. *)
Definition versions k ls : list (key * message) := omap (find_key k) (reverse ls).
Definition older_under (newer older : key * message) : key * message :=
  (older.1, (data_merge_tuples cfg newer.1 older.2 newer.2).2).
(** What a merge makes of them. *)
Definition resolve (mode : merge_behavior) (vs : list (key * message)) : option (key * message) :=
  match vs with
  | [] => None
  | t :: older =>
      let r := finalize cfg mode (foldl older_under t older) in if kept mode r then Some r else None
  end.

(** ** Keys up to the comparison *)
Lemma is_key_cmp k k' : is_key k k' = (key_cmp cfg forwards k' k =? 0).
Proof. symmetry. apply key_cmp_zero. Qed.
Lemma is_key_same k a b : key_small k → key_small a → key_small b →
  key_cmp cfg forwards a b = 0 → is_key k a = is_key k b.
Proof.
  intros Hk Ha Hb E. rewrite !is_key_cmp. pose proof (key_cmp_eq_l cfg forwards _ _ _ Ha Hb Hk E). lia.
Qed.
Lemma is_key_unique k a b : key_small k → key_small a → key_small b →
  key_cmp cfg forwards a b < 0 → is_key k a = true → is_key k b = false.
Proof.
  intros Hk Ha Hb Hab. rewrite !is_key_cmp. intros E%Z.eqb_eq. apply Z.eqb_neq. intros E'.
  pose proof (key_cmp_eq_l cfg forwards _ _ _ Ha Hk Hb E). pose proof (key_cmp_sym cfg forwards _ _ Hb Hk). lia.
Qed.

(** ** The groups of a sorted list *)
Lemma merge_group_key e g : (merge_group cfg (e :: g)).1 = entry_key (default e (list.last g)).
Proof.
  cbn. assert (H : ∀ acc, (foldl (merge_older cfg) acc g).1 = default acc.1 (entry_key <$> list.last g)).
  { induction g as [|e' g IH]; intros acc; [done|]. cbn [foldl]. rewrite IH, last_cons. by destruct (list.last g). }
  rewrite H. by destruct (list.last g).
Qed.
Lemma finalize_key mode t : (finalize cfg mode t).1 = t.1.
Proof. unfold finalize. by case_match. Qed.
(** The keys of a group are equal, and those of the rest are after them. *)
Lemma group_split e ts g rest : StronglySorted before (e :: ts) → Forall entry_small (e :: ts) →
  ts = g ++ rest → groups cfg (e :: ts) = (e :: g) :: groups cfg rest →
  first_equal cfg (default e (list.last g)) rest = false →
  Forall (λ x, key_cmp cfg forwards (entry_key e) (entry_key x) = 0) (e :: g) ∧
  Forall (λ x, Forall (λ y, key_cmp cfg forwards (entry_key x) (entry_key y) < 0) rest) (e :: g).
Proof.
  intros Hs Hsm -> Hg Hf.
  assert (Heq : Forall (λ x, key_cmp cfg forwards (entry_key e) (entry_key x) = 0) g).
  { clear Hf. revert e rest Hs Hsm Hg. induction g as [|e' g IH]; intros e rest Hs Hsm Hg; [constructor|].
    cbn [app] in *. destruct (groups_cons cfg e' (g ++ rest)) as (g' & rest' & E & Eg & _).
    rewrite groups_step, Eg in Hg. destruct (equal_keys cfg e e') eqn:Ee; [|done]. injection Hg as -> Hrest.
    pose proof Hs as [Hs' _]%StronglySorted_inv. pose proof Hsm as [Hse Hsm']%list.Forall_cons.
    specialize (IH e' rest Hs' Hsm' ltac:(by rewrite Eg, Hrest)).
    unfold equal_keys in Ee. rewrite <-(key_cmp_zero cfg forwards) in Ee. apply Z.eqb_eq in Ee.
    pose proof Hsm' as [Hse' Hsmg]%list.Forall_cons. apply list.Forall_app in Hsmg as [Hsmg _].
    constructor; [done|]. rewrite list.Forall_forall in IH, Hsmg |- *. intros x Hx.
    pose proof (key_cmp_eq_l cfg forwards _ _ _ Hse Hse' (Hsmg x Hx) Ee). rewrite (IH x Hx) in *. lia. }
  pose proof Hsm as [Hse Hsm']%list.Forall_cons. apply list.Forall_app in Hsm' as [Hsg Hsr].
  assert (Hall : Forall (λ x, key_cmp cfg forwards (entry_key e) (entry_key x) = 0) (e :: g)).
  { constructor; [by apply key_cmp_refl|done]. }
  split; [done|]. rewrite list.Forall_forall in Hall |- *. intros x Hx. apply list.Forall_forall. intros y Hy.
  assert (Hsx : entry_small x).
  { rewrite list.Forall_forall in Hsg. apply list.elem_of_cons in Hx as [->|Hx]; [done|by apply Hsg]. }
  assert (Hsy : entry_small y) by (rewrite list.Forall_forall in Hsr; by apply Hsr).
  pose proof (key_cmp_eq_l cfg forwards _ _ _ Hse Hsx Hsy (Hall x Hx)) as Exy.
  destruct rest as [|r rest]; [by apply list.not_elem_of_nil in Hy|].
  set (la := default e (list.last g)) in *.
  assert (Hla : la ∈ e :: g).
  { unfold la. destruct (list.last g) as [z|] eqn:El; [|by left]. right. by apply last_Some_elem_of. }
  assert (Hsla : entry_small la).
  { rewrite list.Forall_forall in Hsg. apply list.elem_of_cons in Hla as [->|Hla']; [done|by apply Hsg]. }
  assert (Hsr' : entry_small r) by (rewrite list.Forall_forall in Hsr; apply Hsr; by left).
  change (e :: g ++ r :: rest) with ((e :: g) ++ r :: rest) in Hs. apply StronglySorted_app in Hs as (Hcross & _ & Hsr2).
  pose proof (before_le cfg forwards _ _ (Hcross la r Hla ltac:(by left))) as Hlr.
  cbn [first_equal] in Hf. unfold equal_keys in Hf. rewrite <-(key_cmp_zero cfg forwards) in Hf.
  assert (Hry : key_cmp cfg forwards (entry_key r) (entry_key y) ≤ 0).
  { apply list.elem_of_cons in Hy as [->|Hy]; [by rewrite key_cmp_refl|].
    apply StronglySorted_inv in Hsr2 as [_ Hry]. rewrite list.Forall_forall in Hry. by apply (before_le cfg forwards), Hry. }
  pose proof (key_cmp_eq_l cfg forwards _ _ _ Hse Hsla Hsr' (Hall la Hla)).
  pose proof (key_cmp_lt_le cfg forwards _ _ _ Hse Hsr' Hsy ltac:(lia) Hry). lia.
Qed.

(** ** Looking up in the groups *)
Lemma find_key_cons k x l : find_key k (x :: l) = if is_key k x.1 then Some x else find_key k l.
Proof. unfold find_key. rewrite list.filter_cons. by destruct (is_key k x.1). Qed.
Lemma find_key_none k l : Forall (λ x, is_key k x.1 = false) l → find_key k l = None.
Proof. induction 1 as [|x l Hx _ IH]; [done|]. by rewrite find_key_cons, Hx. Qed.
Lemma filter_all {A} (P : A → Prop) `{!∀ x, Decision (P x)} (l : list A) : Forall P l → filter P l = l.
Proof. induction 1; [done|]. rewrite list.filter_cons, decide_True by done. by f_equal. Qed.
Lemma filter_none {A} (P : A → Prop) `{!∀ x, Decision (P x)} (l : list A) : Forall (λ x, ¬ P x) l → filter P l = [].
Proof. induction 1; [done|]. by rewrite list.filter_cons, decide_False. Qed.

(** Every tuple emitted has the key of an entry. *)
Lemma emitted_keys mode ts : Forall (λ t, ∃ e, e ∈ ts ∧ t.1 = entry_key e) (groups cfg ts ≫= emit cfg mode).
Proof.
  remember (length ts) as n eqn:Hn. revert ts Hn. induction n as [n IH] using lt_wf_ind. intros ts ->.
  destruct ts as [|e ts]; [constructor|]. destruct (groups_cons cfg e ts) as (g & rest & -> & -> & _).
  change ((?g :: ?gs) ≫= ?f) with (f g ++ (gs ≫= f)). apply list.Forall_app. split.
  - unfold emit. case_match; [|constructor]. constructor; [|constructor].
    exists (default e (list.last g)). rewrite finalize_key, merge_group_key. split; [|done].
    destruct (list.last g) as [z|] eqn:El; [|by left]. right. apply list.elem_of_app. left. by apply last_Some_elem_of.
  - eapply list.Forall_impl; [apply (IH (length rest)); [cbn; rewrite length_app; lia|done]|].
    intros t (x & Hx & Ht). exists x. split; [|done]. right. apply list.elem_of_app. by right.
Qed.

Abbreviation of_key k := (λ e : entry, is_key k (entry_key e) = true).
Lemma foldl_older acc g : foldl (merge_older cfg) acc g = foldl older_under acc (snd <$> g).
Proof. revert acc. induction g as [|e g IH]; intros acc; [done|]. cbn. apply IH. Qed.
Lemma find_emit mode k e g : Forall (λ x, is_key k (entry_key x) = is_key k (entry_key e)) (e :: g) →
  find_key k (emit cfg mode (e :: g)) = if is_key k (entry_key e) then resolve mode (snd <$> e :: g) else None.
Proof.
  intros Hall. unfold emit, resolve. cbn [fmap list_fmap]. rewrite <-foldl_older.
  change (foldl (merge_older cfg) e.2 g) with (merge_group cfg (e :: g)).
  assert (Hk : is_key k (finalize cfg mode (merge_group cfg (e :: g))).1 = is_key k (entry_key e)).
  { rewrite finalize_key, merge_group_key. rewrite list.Forall_forall in Hall. apply Hall.
    destruct (list.last g) as [z|] eqn:El; [|by left]. right. by apply last_Some_elem_of. }
  case_match; [|by case_match]. rewrite find_key_cons, Hk. by case_match.
Qed.
Lemma find_app k l l' : find_key k (l ++ l') = match find_key k l with Some t => Some t | None => find_key k l' end.
Proof.
  induction l as [|x l IH]; [done|]. cbn [app]. rewrite !find_key_cons, IH. by destruct (is_key k x.1).
Qed.

Lemma find_emitted mode k ts : key_small k → StronglySorted before ts → Forall entry_small ts →
  find_key k (groups cfg ts ≫= emit cfg mode) = resolve mode (snd <$> filter (of_key k) ts).
Proof.
  intros Hk. remember (length ts) as n eqn:Hn. revert ts Hn. induction n as [n IH] using lt_wf_ind.
  intros ts -> Hs Hsm. destruct ts as [|e ts]; [done|].
  destruct (groups_cons cfg e ts) as (g & rest & Ets & Eg & Hf).
  destruct (group_split e ts g rest Hs Hsm Ets Eg Hf) as [Hsame Hafter]. subst ts.
  rewrite Eg. change ((?g :: ?gs) ≫= ?f) with (f g ++ (gs ≫= f)).
  change (e :: g ++ rest) with ((e :: g) ++ rest) in *.
  apply list.Forall_app in Hsm as [Hsg Hsr]. apply StronglySorted_app in Hs as (_ & _ & Hsrest).
  pose proof Hsg as [Hse _]%list.Forall_cons.
  assert (Hall : Forall (λ x, is_key k (entry_key x) = is_key k (entry_key e)) (e :: g)).
  { rewrite list.Forall_forall in Hsame, Hsg |- *. intros x Hx. symmetry.
    apply (is_key_same k (entry_key e) (entry_key x)); [done|done|by apply Hsg|by apply Hsame]. }
  rewrite find_app, (find_emit mode k e g Hall), list.filter_app, fmap_app.
  specialize (IH (length rest) ltac:(rewrite length_app; cbn; lia) rest eq_refl Hsrest Hsr).
  destruct (is_key k (entry_key e)) eqn:Ek.
  - assert (Hrest : Forall (λ x, is_key k (entry_key x) = false) rest).
    { apply list.Forall_cons in Hafter as [Hafter _]. rewrite list.Forall_forall in Hafter, Hsr |- *.
      intros x Hx. apply (is_key_unique k (entry_key e)); [done|done|by apply Hsr|by apply Hafter|done]. }
    rewrite (filter_all (of_key k)) by exact Hall.
    rewrite (filter_none (of_key k) rest) in IH |- * by (eapply list.Forall_impl; [exact Hrest|]; cbv beta; congruence).
    rewrite IH, app_nil_r. by case_match.
  - rewrite (filter_none (of_key k) (e :: g)) by (eapply list.Forall_impl; [exact Hall|]; cbv beta; congruence).
    exact IH.
Qed.

(** ** The versions of a key *)
Lemma emitted_sorted mode ts : StronglySorted before ts → Forall entry_small ts →
  source_ok (groups cfg ts ≫= emit cfg mode).
Proof.
  intros Hs Hsm. split.
  - eapply list.Forall_impl; [apply emitted_keys|]. intros t (e & He & ->). rewrite list.Forall_forall in Hsm. by apply Hsm.
  - remember (length ts) as n eqn:Hn. revert ts Hn Hs Hsm. induction n as [n IH] using lt_wf_ind.
    intros ts -> Hs Hsm. destruct ts as [|e ts]; [constructor|].
    destruct (groups_cons cfg e ts) as (g & rest & Ets & Eg & Hf).
    destruct (group_split e ts g rest Hs Hsm Ets Eg Hf) as [_ Hafter]. subst ts.
    rewrite Eg. change ((?g :: ?gs) ≫= ?f) with (f g ++ (gs ≫= f)).
    change (e :: g ++ rest) with ((e :: g) ++ rest) in *.
    apply list.Forall_app in Hsm as [_ Hsr]. apply StronglySorted_app in Hs as (_ & _ & Hsrest).
    apply StronglySorted_app_2; [|unfold emit; case_match; repeat constructor|].
    + intros x y Hx Hy. pose proof (emitted_keys mode rest) as Hkeys. rewrite list.Forall_forall in Hkeys.
      destruct (Hkeys y Hy) as (ey & Hey & ->). unfold emit in Hx. case_match; [|by apply list.not_elem_of_nil in Hx].
      apply list.elem_of_cons in Hx as [->|Hx]; [|by apply list.not_elem_of_nil in Hx].
      rewrite finalize_key, merge_group_key. rewrite list.Forall_forall in Hafter.
      assert (Hla : default e (list.last g) ∈ e :: g).
      { destruct (list.last g) as [z|] eqn:El; [|by left]. right. by apply last_Some_elem_of. }
      specialize (Hafter _ Hla). rewrite list.Forall_forall in Hafter. by apply Hafter.
    + apply (IH (length rest)); [rewrite length_app; cbn; lia|done|done|done].
Qed.

Lemma sorted_reverse {A} (R : relation A) (l : list A) : StronglySorted (flip R) l → StronglySorted R (reverse l).
Proof.
  induction 1 as [|x l H IH Hx]; [constructor|]. rewrite reverse_cons. apply StronglySorted_app_2; [|done|by repeat constructor].
  intros y z Hy Hz. rewrite elem_of_reverse in Hy. apply list.elem_of_cons in Hz as [->|Hz]; [|by apply list.not_elem_of_nil in Hz].
  rewrite list.Forall_forall in Hx. by apply Hx.
Qed.
Lemma sorted_filter {A} (R : relation A) (P : A → Prop) `{!∀ x, Decision (P x)} (l : list A) :
  StronglySorted R l → StronglySorted R (filter P l).
Proof.
  induction 1 as [|x l _ IH Hx]; [constructor|]. rewrite list.filter_cons. case_decide; [|done].
  constructor; [done|]. rewrite list.Forall_forall in Hx |- *. intros y [_ Hy]%list_elem_of_filter. by apply Hx.
Qed.

(** A source has at most one tuple for a key. *)
Lemma source_filter k seq l : key_small k → source_ok l →
  filter (of_key k) (tagged seq l) = tagged seq (option_list (find_key k l)).
Proof.
  intros Hk [Hsm Hs]. induction Hs as [|x l Hs IH Hx]; [done|]. apply list.Forall_cons in Hsm as [Hsx Hsm].
  specialize (IH Hsm). unfold tagged in *. cbn [fmap list_fmap]. rewrite list.filter_cons, find_key_cons.
  change (is_key k (entry_key (seq, x))) with (is_key k x.1). destruct (is_key k x.1) eqn:Ek.
  - rewrite decide_True by done. change (option_list (Some x)) with [x]. cbn [fmap list_fmap]. f_equal. apply filter_none, list.Forall_fmap.
    rewrite list.Forall_forall in Hx, Hsm |- *. intros y Hy. cbn.
    change (entry_key (seq, y)) with y.1. by rewrite (is_key_unique k x.1 y.1 Hk Hsx (Hsm y Hy) (Hx y Hy) Ek).
  - rewrite decide_False by done. exact IH.
Qed.
Lemma forest_filter k seq ls : key_small k → Forall source_ok ls →
  snd <$> filter (of_key k) (forest_from seq ls) = omap (find_key k) ls ∧
  Forall (λ e, seq ≤ e.1) (filter (of_key k) (forest_from seq ls)) ∧
  (Forall entry_small (forest_from seq ls) → StronglySorted (flip before) (filter (of_key k) (forest_from seq ls))).
Proof.
  intros Hk Hok. revert seq. induction Hok as [|l ls Hl _ IH]; intros seq; [by repeat constructor|].
  destruct (IH (seq + 1)) as (E & Hge & Hs). cbn [forest_from].
  rewrite list.filter_app, (source_filter k seq l Hk Hl), fmap_app, E.
  assert (Hge' : Forall (λ e, seq ≤ e.1) (filter (of_key k) (forest_from (seq + 1) ls))).
  { eapply list.Forall_impl; [exact Hge|]. cbv beta. lia. }
  split_and!.
  - cbn [omap list_omap]. by destruct (find_key k l).
  - apply list.Forall_app. split; [|done]. destruct (find_key k l); repeat constructor. cbn. lia.
  - intros [Hsl Hsr]%list.Forall_app. apply StronglySorted_app_2; [|destruct (find_key k l); repeat constructor|by apply Hs].
    intros x y Hx Hy. rewrite list.Forall_forall in Hge. specialize (Hge y Hy).
    assert (Hx' : x ∈ filter (of_key k) (tagged seq l)) by (by rewrite source_filter).
    apply list_elem_of_filter in Hx' as [Hxk Hxt]. apply list_elem_of_filter in Hy as [Hyk Hyf].
    rewrite list.Forall_forall in Hsl, Hsr. specialize (Hsl x Hxt). specialize (Hsr y Hyf).
    rewrite is_key_cmp in Hxk, Hyk. apply Z.eqb_eq in Hxk, Hyk. unfold flip, MergeOrder.before, entry_cmp.
    pose proof (key_cmp_eq_l cfg forwards _ _ _ Hsr Hk Hsl Hyk). pose proof (key_cmp_sym cfg forwards _ _ Hk Hsl).
    rewrite (proj2 (Z.eqb_eq _ _)) by lia. rewrite (tagged_seq _ _ _ Hxt). lia.
Qed.
Lemma omap_reverse {A B} (f : A → option B) (l : list A) : omap f (reverse l) = reverse (omap f l).
Proof.
  induction l as [|x l IH]; [done|]. rewrite reverse_cons, omap_app, IH. cbn [omap list_omap].
  destruct (f x); [by rewrite reverse_cons|by rewrite app_nil_r].
Qed.
Lemma versions_filter k ls ts : key_small k → Forall source_ok ls → Forall entry_small (forest ls) →
  StronglySorted before ts → ts ≡ₚ forest ls → snd <$> filter (of_key k) ts = versions k ls.
Proof.
  intros Hk Hok Hsm Hs Hp. destruct (forest_filter k 0 ls Hk Hok) as (E & _ & Hrev).
  assert (Hts : filter (of_key k) ts = reverse (filter (of_key k) (forest ls))).
  { apply (StronglySorted_unique_strong before).
    - intros x y Hx Hy Hxy Hyx. exfalso. apply list_elem_of_filter in Hx as [_ Hx].
      rewrite elem_of_reverse in Hy. apply list_elem_of_filter in Hy as [_ Hy]. rewrite Hp in Hx.
      rewrite list.Forall_forall in Hsm. by apply (before_asym cfg forwards x y (Hsm x Hx) (Hsm y Hy)).
    - by apply sorted_filter.
    - apply sorted_reverse. by apply Hrev.
    - by rewrite reverse_Permutation, Hp. }
  rewrite Hts, fmap_reverse. unfold forest. rewrite E. unfold versions. by rewrite omap_reverse.
Qed.
End map.
