(* ===== verification/MergeTheorems.v ===== *)
(** * Theorems about the merge iterator

    A merge of a forest yields what the reference yields, in both directions and in
    every mode; merged, it is a map; a change of direction is not sound. *)
From stdpp Require Import sorting.
From S2P Require Import Prelude DataInternal Iterator Merge MergeOrder MergeStep MergeRun MergeMap.

(** ** Iterators as they are created *)
Section created.
Context {I : Type} `{!iterator_ops I} (cfg : data_config) `{!key_order cfg} (forwards : bool).

Lemma init_seq_ge seq (itors : list I) o : o ∈ init_ordered seq itors → seq ≤ oi_seq o.
Proof.
  revert seq. induction itors as [|it itors IH]; intros seq; cbn; [by intros ?%list.not_elem_of_nil|].
  intros [->|H]%list.elem_of_cons; [done|]. apply IH in H. lia.
Qed.
Lemma init_seqs seq (itors : list I) : NoDup (oi_seq <$> init_ordered seq itors).
Proof.
  revert seq. induction itors as [|it itors IH]; intros seq; cbn; constructor; [|apply IH].
  intros (o & E & Ho)%list_elem_of_fmap. apply init_seq_ge in Ho. lia.
Qed.
Lemma init_flags seq (itors : list I) : Forall (λ o, oi_next_key_equal o = false) (init_ordered seq itors).
Proof. revert seq. induction itors as [|it itors IH]; intros seq; cbn; constructor; [done|apply IH]. Qed.
Lemma init_length seq (itors : list I) : length (init_ordered seq itors) = length itors.
Proof. revert seq. induction itors as [|it itors IH]; intros seq; cbn; [done|by rewrite IH]. Qed.
Lemma init_stands seq (itors : list I) ls :
  Forall2 (yields forwards) itors ls → Forall (source_ok cfg forwards) ls →
  Forall2 (stands cfg forwards) (init_ordered seq itors) ls.
Proof.
  intros H. revert seq. induction H as [|it l itors ls Hy _ IH]; intros seq; cbn; [constructor|].
  intros [Hl Hls]%list.Forall_cons. constructor; [by split|by apply IH].
Qed.
Lemma init_sources seq (itors : list I) ls : Forall2 (yields forwards) itors ls →
  sources (init_ordered seq itors) ls = forest_from seq ls.
Proof.
  intros H. revert seq. induction H as [|it l itors ls _ _ IH]; intros seq; [done|].
  cbn [init_ordered forest_from]. rewrite <-IH. done.
Qed.

Lemma create_yields `{!merges_succeed cfg} mode fuel itors ls :
  Forall2 (yields forwards) itors ls → Forall (source_ok cfg forwards) ls → lengthZ itors < MAX_MERGE_ARITY →
  (length (forest ls) < fuel)%nat →
  ∃ m, merge_iterator_create (S fuel) (Some cfg) (lengthZ itors) (Some itors) mode forwards true true [] =
         Ret (STATUS_OK, Some m) ∧
    @yields _ (merge_ops (S fuel)) forwards m (merged cfg forwards mode ls).
Proof.
  intros Hy Hok Hn Hf. unfold merge_iterator_create. pose proof (lengthZ_nonneg itors).
  rewrite (proj2 (Z.ltb_ge _ 0)), (proj2 (Z.leb_gt _ _)), Z.ltb_irrefl by lia. cbn [negb orb].
  unfold lengthZ at 2. rewrite Nat2Z.id, firstn_all.
  destruct (setup_run cfg forwards mode (S fuel) (merge_init cfg (lengthZ itors) itors mode forwards [])
    (init_ordered 0 itors) ls) as (m & Hrun & Hpos).
  - by split_and!.
  - done.
  - cbn. unfold lengthZ. by rewrite init_length.
  - by apply init_stands.
  - apply init_seqs.
  - apply init_flags.
  - rewrite init_sources by done. fold (forest ls). lia.
  - rewrite init_sources in Hpos by done. fold (forest ls) in Hpos.
    rewrite Hrun. exists m. split; [done|]. by eapply positioned_yields.
Qed.
Lemma merged_map mode itors ls : mode ≠ MERGE_RAW →
  Forall2 (yields forwards) itors ls → Forall (source_ok cfg forwards) ls →
  source_ok cfg forwards (merged cfg forwards mode ls) ∧
  ∀ k, key_small k → find_key cfg k (merged cfg forwards mode ls) = resolve cfg mode (versions cfg k ls).
Proof.
  intros Hm Hy Hok. pose proof (init_stands 0 itors ls Hy Hok) as Hst.
  pose proof (sources_sorted cfg forwards _ _ Hst (init_seqs 0 itors)) as [Hs Hp].
  pose proof (sources_small cfg forwards _ _ Hst) as Hsm. rewrite init_sources in Hs, Hp, Hsm by done.
  fold (forest ls) in Hs, Hp, Hsm. unfold merge_order in Hs, Hp.
  assert (E : merged cfg forwards mode ls =
    groups cfg (platform_sort_slow (entry_cmp cfg forwards) (forest ls)) ≫= emit cfg mode) by (by destruct mode).
  rewrite E. split.
  - apply emitted_sorted; [done..|]. by rewrite Hp.
  - intros k Hk. rewrite (find_emitted cfg forwards) by (rewrite ?Hp; done).
    by rewrite (versions_filter cfg forwards k ls).
Qed.
End created.

(** ** A forest to evaluate *)
Definition insert (v : list Z) : message := message_create MESSAGE_TYPE_INSERT v.
Definition example_config : data_config :=
  mk_data_config slice_lex_cmp (λ _ old new, (0, message_create (message_class old) (message_data new ++ message_data old)))
    (λ _ m, (0, insert (message_data m))).
#[export] Instance example_order : key_order example_config.
Proof. by apply lex_order. Qed.
#[export] Instance example_succeed : merges_succeed example_config.
Proof.
  split; intros; unfold data_merge_tuples, data_merge_tuples_final, drop_deleted; by repeat case_match.
Qed.
Definition stand (l : list (key * message)) : array_iterator := mk_array_iterator l 0 false.
Lemma stand_yields ls : Forall2 (yields true) (stand <$> ls) ls.
Proof.
  induction ls as [|l ls IH]; cbn; constructor; [|done]. apply (array_yields l 0). pose proof (lengthZ_nonneg l). lia.
Qed.
Definition example_forest : list (list (key * message)) :=
  [[(USER_KEY [1], insert [10]); (USER_KEY [3], insert [31])];
   [(USER_KEY [1], insert [11]); (USER_KEY [2], insert [20])];
   [(USER_KEY [2], message_create MESSAGE_TYPE_DELETE []); (USER_KEY [3], message_create MESSAGE_TYPE_UPDATE [30])]].
Lemma example_ok : Forall (source_ok example_config true) example_forest.
Proof. repeat constructor. Qed.

(** C32: [merge_iterator_create] succeeds and, stepped in its direction, the merge
    iterator yields what the reference yields: in RAW mode every tuple of every source
    in key order (the newest first among equal keys); in the other modes a tuple per
    key with its messages merged, finalized and without deletes in FULL mode.  Every
    step returns [STATUS_OK], and the traversal ends. *)
Theorem merge_iterator_yields {I} `{!iterator_ops I} cfg `{!key_order cfg, !merges_succeed cfg} forwards mode fuel
    (itors : list I) ls :
  Forall2 (yields forwards) itors ls → Forall (source_ok cfg forwards) ls → lengthZ itors < MAX_MERGE_ARITY →
  (length (forest ls) < fuel)%nat →
  ∃ m, merge_iterator_create (S fuel) (Some cfg) (lengthZ itors) (Some itors) mode forwards true true [] =
         Ret (STATUS_OK, Some m) ∧
    @yields _ (merge_ops (S fuel)) forwards m (merged cfg forwards mode ls).
Proof. intros. by apply create_yields. Qed.
Lemma merge_iterator_yields_witness : ∃ m,
  merge_iterator_create 8 (Some example_config) 3 (Some (stand <$> example_forest)) MERGE_FULL true true true [] =
    Ret (STATUS_OK, Some m) ∧
  @yields _ (merge_ops 8) true m [(USER_KEY [1], insert [11]); (USER_KEY [3], insert [30; 31])].
Proof.
  assert (E : merged example_config true MERGE_FULL example_forest =
    [(USER_KEY [1], insert [11]); (USER_KEY [3], insert [30; 31])]) by (vm_compute; reflexivity).
  assert (Hn : lengthZ (stand <$> example_forest) = 3) by (vm_compute; reflexivity).
  rewrite <-E, <-Hn. apply (merge_iterator_yields example_config true MERGE_FULL 7 (stand <$> example_forest) example_forest);
    [exact (stand_yields example_forest)|exact example_ok|vm_compute; reflexivity|vm_compute; lia].
Defined.

(** C7: the merge iterator of any mode but RAW is a map: what it yields is sorted with no
    key twice, and a key is mapped to its versions in the sources, from the last source
    to the first, each older message merged under the newer ones, then finalized and
    dropped as the mode says; so a merge can itself be a source of a merge. *)
Theorem merge_iterator_is_map {I} `{!iterator_ops I} cfg `{!key_order cfg, !merges_succeed cfg} forwards mode fuel
    (itors : list I) ls :
  mode ≠ MERGE_RAW → Forall2 (yields forwards) itors ls → Forall (source_ok cfg forwards) ls →
  lengthZ itors < MAX_MERGE_ARITY → (length (forest ls) < fuel)%nat →
  ∃ m out, merge_iterator_create (S fuel) (Some cfg) (lengthZ itors) (Some itors) mode forwards true true [] =
      Ret (STATUS_OK, Some m) ∧
    @yields _ (merge_ops (S fuel)) forwards m out ∧ source_ok cfg forwards out ∧
    ∀ k, key_small k → find_key cfg k out = resolve cfg mode (versions cfg k ls).
Proof.
  intros Hm Hy Hok Hn Hf. destruct (create_yields cfg forwards mode fuel itors ls Hy Hok Hn Hf) as (m & Hc & Hout).
  exists m, (merged cfg forwards mode ls). split_and!; [done..| |]; by eapply merged_map.
Qed.
Lemma merge_iterator_is_map_witness : ∃ m out,
  merge_iterator_create 8 (Some example_config) 3 (Some (stand <$> example_forest)) MERGE_FULL true true true [] =
    Ret (STATUS_OK, Some m) ∧
  @yields _ (merge_ops 8) true m out ∧ find_key example_config (USER_KEY [2]) out = None ∧
  find_key example_config (USER_KEY [3]) out = Some (USER_KEY [3], insert [30; 31]).
Proof.
  assert (Hn : lengthZ (stand <$> example_forest) = 3) by (vm_compute; reflexivity). rewrite <-Hn.
  destruct (merge_iterator_is_map example_config true MERGE_FULL 7 (stand <$> example_forest) example_forest)
    as (m & out & Hc & Hy & _ & Hf); [done|exact (stand_yields example_forest)|exact example_ok|vm_compute; reflexivity|vm_compute; lia|].
  exists m, out. split_and!; [exact Hc|exact Hy| |]; rewrite Hf by done; vm_compute; reflexivity.
Defined.

(** ** Changes of direction *)
(** Three iterators are merged forwards up to a place before a key that two of them share,
    then backwards: the last iterator to be reached still has the [next_key_equal] of that
    key, since [setup_ordered_iterators] only sets the bits of the iterators before the
    last, and its tuple comes out with a null key. *)
Definition direction_forest : list (list (key * message)) :=
  [[(USER_KEY [4], insert [11]); (USER_KEY [30], insert [12])];
   [(USER_KEY [1], insert [21]); (USER_KEY [30], insert [22])];
   [(USER_KEY [5], insert [31]); (USER_KEY [6], insert [32])]].
Fixpoint steps {I} `{!iterator_ops I} (fuel : nat) (moves : list bool) (m : merge_iterator I) : list (key * message) :=
  merge_curr m ::
  match moves with
  | [] => []
  | forwards :: moves' =>
      match merge_move fuel forwards m with Ret (STATUS_OK, m') => steps fuel moves' m' | _ => [] end
  end.
Theorem merge_direction_loses_key :
  match merge_iterator_create 20 (Some example_config) 3 (Some (stand <$> direction_forest)) MERGE_FULL true true true [] with
  | Ret (STATUS_OK, Some m) => steps 20 [true; true; true; false; false; false] m
  | _ => []
  end =
  [(USER_KEY [1], insert [21]); (USER_KEY [4], insert [11]); (USER_KEY [5], insert [31]); (USER_KEY [6], insert [32]);
   (USER_KEY [5], insert [31]); (USER_KEY [4], insert [11]); (NULL_KEY, insert [21])].
Proof. vm_compute. reflexivity. Qed.

(** A step that fails while the direction changes (here the second copy into the merge
    buffer) frees the iterator its caller still holds; destroying it frees it again. *)
Theorem merge_direction_frees_iterator :
  match merge_iterator_create 20 (Some example_config) 2
          (Some (stand <$> [[(USER_KEY [1], insert [1]); (USER_KEY [3], insert [3])];
                            [(USER_KEY [1], insert [1]); (USER_KEY [2], insert [2])]]))
          MERGE_FULL true true true [true; false] with
  | Ret (STATUS_OK, Some m) =>
      match merge_next 20 m with
      | Ret (STATUS_OK, m1) =>
          match merge_prev 20 m1 with
          | Ret (STATUS_NO_MEMORY, m2) => mi_freed m2 = true ∧ merge_iterator_destroy m2 = Undef
          | _ => False
          end
      | _ => False
      end
  | _ => False
  end.
Proof. vm_compute. split; reflexivity. Qed.
