(* ===== verification/PackedArray.v ===== *)
(** * Packed arrays

    PackedArray.c: integers of 1 to 32 bits packed into 32-bit words, here words of
    the memory of a page.  The code instantiates its loops for each width; the width
    is an argument here.  [pack] and [unpack] jump into an unrolled loop of 32 cases,
    run it as often as it fits and then run the same cases for the rest: item [k] of
    a call goes through case [(offset + k) mod 32]. *)
From S2P Require Import Prelude Bytes.

Section cases.
Context (bits : Z).
Definition START_BIT (i : Z) : Z := (i * bits) `mod` 32.
Definition BITS_AVAILABLE (i : Z) : Z := 32 - (i * bits) `mod` 32.
Definition ITEM_MASK : Z := u32 (2 ^ bits - 1).

(** A case of the packing loop: the word it stores, if any, and [packed] after it. *)
Definition pack_case (i packed x : Z) : option Z * Z :=
  if bits <=? BITS_AVAILABLE i then
    let packed := Z.lor packed (u32 (Z.shiftl x (START_BIT i))) in
    if bits =? BITS_AVAILABLE i then (Some packed, 0) else (None, packed)
  else
    (Some (Z.lor packed (u32 (Z.shiftl x (START_BIT i)))), Z.shiftr x (BITS_AVAILABLE i)).
(** The cases of the items of [xs]; [out] is the index of the next word. *)
Fixpoint pack_cases (a i : Z) (p : list Z) (out packed : Z) (xs : list Z) : option (list Z * Z * Z) :=
  match xs with
  | [] => Some (p, out, packed)
  | x :: xs' =>
      match pack_case i packed x with
      | (Some w, packed') =>
          p' ← put_le 4 p (a + 4 * out) w;
          pack_cases a ((i + 1) `mod` 32) p' (out + 1) packed' xs'
      | (None, packed') => pack_cases a ((i + 1) `mod` 32) p out packed' xs'
      end
  end.
(** The loop and the last word, whose other bits are kept.  Called with no items the
    code runs into its assertion after the cases. *)
Definition PackedArray_pack_bits (p : list Z) (a offset : Z) (xs : list Z) : option (list Z) :=
  if bool_decide (xs = []) then None else
  let out := (offset * bits) / 32 in
  let startBit := (offset * bits) `mod` 32 in
  word ← get_le 4 p (a + 4 * out);
  '(p, out, packed) ← pack_cases a (offset `mod` 32) p out (Z.land word (2 ^ startBit - 1)) xs;
  let last := (lengthZ xs * bits + startBit) `mod` 32 in
  if last =? 0 then Some p
  else
    word ← get_le 4 p (a + 4 * out);
    put_le 4 p (a + 4 * out) (Z.lor packed (Z.land word (u32 (Z.lnot (2 ^ last - 1))))).

(** A case of the unpacking loop: the item, and the word it reads on the way. *)
Definition unpack_case (p : list Z) (a i inp packed : Z) : option (Z * Z * Z) :=
  if bits <=? BITS_AVAILABLE i
  then Some (Z.land (Z.shiftr packed (START_BIT i)) ITEM_MASK, inp, packed)
  else
    let low := Z.shiftr packed (START_BIT i) in
    packed ← get_le 4 p (a + 4 * (inp + 1));
    let high := u32 (Z.shiftl packed (BITS_AVAILABLE i)) in
    Some (Z.land (Z.lor low high) ITEM_MASK, inp + 1, packed).
(** Between two items, a word that is used up is followed by the next. *)
Fixpoint unpack_cases (n : nat) (p : list Z) (a i inp packed : Z) : option (list Z) :=
  match n with
  | O => Some []
  | S n' =>
      '(x, inp, packed) ← unpack_case p a i inp packed;
      if bool_decide (n' = O) then Some [x]
      else if bits =? BITS_AVAILABLE i then
        packed ← get_le 4 p (a + 4 * (inp + 1));
        xs ← unpack_cases n' p a ((i + 1) `mod` 32) (inp + 1) packed;
        Some (x :: xs)
      else
        xs ← unpack_cases n' p a ((i + 1) `mod` 32) inp packed;
        Some (x :: xs)
  end.
Definition PackedArray_unpack_bits (p : list Z) (a offset count : Z) : option (list Z) :=
  if count =? 0 then None else
  let inp := (offset * bits) / 32 in
  packed ← get_le 4 p (a + 4 * inp);
  unpack_cases (Z.to_nat count) p a (offset `mod` 32) inp packed.
End cases.

(** The switch over the width: other widths do nothing. *)
Definition PackedArray_pack (p : list Z) (a offset : Z) (xs : list Z) (bits : Z) : option (list Z) :=
  if (1 <=? bits) && (bits <=? 32) then PackedArray_pack_bits bits p a offset xs else Some p.
(** The items, that replace the first ones of [out]. *)
Definition PackedArray_unpack (p : list Z) (a offset : Z) (out : list Z) (count bits : Z) : option (list Z) :=
  if (1 <=? bits) && (bits <=? 32)
  then xs ← PackedArray_unpack_bits bits p a offset count; Some (xs ++ drop (length xs) out)
  else Some out.

Definition PackedArray_get (p : list Z) (a offset bits : Z) : option Z :=
  let inp := (offset * bits) / 32 in
  let startBit := (offset * bits) `mod` 32 in
  let bitsAvailable := 32 - startBit in
  let mask := u32 (2 ^ bits - 1) in
  in0 ← get_le 4 p (a + 4 * inp);
  if bits <=? bitsAvailable then Some (Z.land (Z.shiftr in0 startBit) mask)
  else
    in1 ← get_le 4 p (a + 4 * (inp + 1));
    let low := Z.shiftr in0 startBit in
    let high := u32 (Z.shiftl in1 (32 - startBit)) in
    Some (Z.lxor low (Z.land (Z.lxor low high) (u32 (Z.shiftl (Z.shiftr mask bitsAvailable) bitsAvailable)))).

(** [None] is also the failed assertion on an item of too many bits. *)
Definition PackedArray_set (p : list Z) (a offset x bits : Z) : option (list Z) :=
  let out := (offset * bits) / 32 in
  let startBit := (offset * bits) `mod` 32 in
  let bitsAvailable := 32 - startBit in
  let mask := u32 (2 ^ bits - 1) in
  if negb (Z.land (u32 (Z.lnot mask)) x =? 0) then None else
  out0 ← get_le 4 p (a + 4 * out);
  let kept := Z.land out0 (u32 (Z.lnot (u32 (Z.shiftl mask startBit)))) in
  if bits <=? bitsAvailable then put_le 4 p (a + 4 * out) (Z.lor kept (u32 (Z.shiftl x startBit)))
  else
    p ← put_le 4 p (a + 4 * out) (Z.lor kept (u32 (Z.shiftl x startBit)));
    out1 ← get_le 4 p (a + 4 * (out + 1));
    put_le 4 p (a + 4 * (out + 1))
      (Z.lor (Z.land out1 (u32 (Z.lnot (Z.shiftr mask (32 - startBit))))) (Z.shiftr x bitsAvailable)).

(** ** What the memory holds *)
(** The [k]-th item of [bits] bits from [a] on, bit by bit. *)
Definition item_at (bits : Z) (p : list Z) (a k x : Z) : Prop :=
  0 ≤ x < 2 ^ bits ∧ ∀ i, 0 ≤ i < bits → Z.testbit x i = mbit p a (k * bits + i).
Definition items_at (bits : Z) (p : list Z) (a : Z) (xs : list Z) : Prop :=
  ∀ k x, lookupZ xs k = Some x → item_at bits p a k x.

Lemma item_at_unique bits p a k x y : item_at bits p a k x → item_at bits p a k y → x = y.
Proof.
  intros [Hx Ex] [Hy Ey]. apply Z.bits_inj'. intros i Hi. destruct (decide (i < bits)).
  - by rewrite Ex, Ey by lia.
  - by rewrite (testbit_small bits x), (testbit_small bits y) by (done || lia).
Qed.

Section proofs.
Context (bits : Z) (Hbits : 1 ≤ bits ≤ 32).
Local Abbreviation START_BIT := (START_BIT bits).
Local Abbreviation BITS_AVAILABLE := (BITS_AVAILABLE bits).

(** The bytes that [n] items from bit 0 of [a] on reach into. *)
Definition packed_bytes (n : Z) : Z := 4 * ((n * bits + 31) / 32).

Lemma u32_testbit x i : 0 ≤ i → Z.testbit (u32 x) i = (i <? 32) && Z.testbit x i.
Proof using. intros. by apply testbit_mod. Qed.
Lemma mask_testbit i : 0 ≤ i → Z.testbit (ITEM_MASK bits) i = (i <? bits).
Proof using Hbits.
  intros Hi. unfold ITEM_MASK. rewrite u32_testbit, testbit_ones by lia.
  destruct (Z.ltb_spec i bits), (Z.ltb_spec i 32); try lia; done.
Qed.

(** ** Words *)
Lemma word_at p a j : bytes_ok p → 0 ≤ a → 0 ≤ j → a + 4 * j + 4 ≤ lengthZ p →
  ∃ w, get_le 4 p (a + 4 * j) = Some w ∧ 0 ≤ w < 2 ^ 32 ∧
    ∀ i, 0 ≤ i → Z.testbit w i = (i <? 32) && mbit p a (32 * j + i).
Proof using.
  intros Hp Ha Hj Hl. destruct (get_le_bits 4 p a (4 * j) Hp Ha) as (w & Hw & Hr & Hb); [lia|cbn; lia|].
  exists w. split_and!; [done|exact (proj1 Hr)|exact (proj2 Hr)|]. intros i Hi. rewrite Hb by done.
  change (8 * Z.of_nat 4) with 32. by replace (8 * (4 * j) + i) with (32 * j + i) by lia.
Qed.
Lemma word_put p a j z : bytes_ok p → 0 ≤ a → 0 ≤ j → a + 4 * j + 4 ≤ lengthZ p → 0 ≤ z < 2 ^ 32 →
  ∃ p', put_le 4 p (a + 4 * j) z = Some p' ∧ bytes_ok p' ∧ outside p p' (a + 4 * j) (a + 4 * j + 4) ∧
    ∀ i, 0 ≤ i → mbit p' a i = if (32 * j <=? i) && (i <? 32 * j + 32) then Z.testbit z (i - 32 * j) else mbit p a i.
Proof using.
  intros Hp Ha Hj Hl Hz. destruct (put_le_bits 4 p a (4 * j) z Hp Ha) as (p' & Hput & Hok & Ho & Hb);
    [lia|cbn; lia|done|].
  exists p'. split_and!; [done|done|done|]. intros i Hi. rewrite Hb by done.
  change (8 * Z.of_nat 4) with 32. by replace (8 * (4 * j)) with (32 * j) by lia.
Qed.

(** The position of item [k]: word, bit, and what is left of the word. *)
Lemma position k i : 0 ≤ k → i = k `mod` 32 →
  START_BIT i = (k * bits) `mod` 32 ∧ BITS_AVAILABLE i = 32 - (k * bits) `mod` 32 ∧
  k * bits = 32 * (k * bits / 32) + (k * bits) `mod` 32 ∧ 0 ≤ (k * bits) `mod` 32 < 32.
Proof using.
  intros Hk ->. unfold PackedArray.START_BIT, PackedArray.BITS_AVAILABLE. rewrite Z.mul_mod_idemp_l by lia.
  split_and!; [done|done|by apply Z.div_mod|by apply Z.mod_pos_bound..].
Qed.
(** The word and bit of the next item. *)
Lemma next_position k : 0 ≤ k →
  if bits <? 32 - (k * bits) `mod` 32
  then (k + 1) * bits / 32 = k * bits / 32 ∧ ((k + 1) * bits) `mod` 32 = (k * bits) `mod` 32 + bits
  else (k + 1) * bits / 32 = k * bits / 32 + 1 ∧ ((k + 1) * bits) `mod` 32 = (k * bits) `mod` 32 + bits - 32.
Proof using Hbits.
  intros Hk. pose proof (Z.div_mod (k * bits) 32 ltac:(lia)). pose proof (Z.mod_pos_bound (k * bits) 32 ltac:(lia)).
  replace ((k + 1) * bits) with (k * bits + bits) by lia. set (s := (k * bits) `mod` 32) in *.
  set (q := k * bits / 32) in *.
  destruct (Z.ltb_spec bits (32 - s)).
  - split; [symmetry; apply (Z.div_unique _ _ _ (s + bits)); lia|symmetry; apply (Z.mod_unique _ _ q); lia].
  - split; [symmetry; apply (Z.div_unique _ _ _ (s + bits - 32)); lia|symmetry; apply (Z.mod_unique _ _ (q + 1)); lia].
Qed.

(** Bit [t] of the items [xs] in a row. *)
Definition items_bit (xs : list Z) (t : Z) : bool :=
  match lookupZ xs (t / bits) with Some x => Z.testbit x (t `mod` bits) | None => false end.
Lemma items_bit_item xs k x j : lookupZ xs k = Some x → 0 ≤ j < bits → items_bit xs (k * bits + j) = Z.testbit x j.
Proof using Hbits.
  intros Hx Hj. unfold items_bit. rewrite (Z.add_comm (k * bits)), Z.div_add, Z_mod_plus_full by lia.
  rewrite Z.div_small, Z.mod_small by lia. by rewrite Z.add_0_l, Hx.
Qed.

(** ** Packing *)
Record packing (p0 p : list Z) (a : Z) (ys : list Z) (k packed : Z) : Prop := {
  pk_ok : bytes_ok p;
  pk_outside : outside p0 p a (a + 4 * (k * bits / 32));
  pk_words : ∀ t, 0 ≤ t < 32 * (k * bits / 32) → mbit p a t = items_bit ys t;
  pk_pos : 0 ≤ packed;
  pk_packed : ∀ t, 0 ≤ t →
    Z.testbit packed t = (t <? (k * bits) `mod` 32) && items_bit ys (32 * (k * bits / 32) + t);
}.

(** The bits of [packed] with the item above them. *)
Lemma lor_item_bits ys k packed x t :
  0 ≤ k → lookupZ ys k = Some x → 0 ≤ x < 2 ^ bits → 0 ≤ t →
  (∀ t, 0 ≤ t → Z.testbit packed t = (t <? (k * bits) `mod` 32) && items_bit ys (32 * (k * bits / 32) + t)) →
  Z.testbit (Z.lor packed (u32 (Z.shiftl x ((k * bits) `mod` 32)))) t =
  (t <? Z.min 32 ((k * bits) `mod` 32 + bits)) && items_bit ys (32 * (k * bits / 32) + t).
Proof using Hbits.
  intros Hk Hx Hxr Ht Hp. destruct (position k _ Hk eq_refl) as (_ & _ & Hkb & Hs).
  set (s := (k * bits) `mod` 32) in *. set (q := k * bits / 32) in *.
  rewrite Z.lor_spec, u32_testbit, testbit_shiftl, Hp by lia.
  destruct (Z.ltb_spec t s); cbn [andb orb].
  - rewrite (proj2 (Z.leb_gt s t)), (proj2 (Z.ltb_lt t 32)), (proj2 (Z.ltb_lt t _)) by lia.
    cbn [andb]. apply orb_false_r.
  - rewrite (proj2 (Z.leb_le s t)) by lia. cbn [andb].
    destruct (Z.ltb_spec t (s + bits)).
    + replace (32 * q + t) with (k * bits + (t - s)) by lia. rewrite (items_bit_item ys k x) by (done || lia).
      replace (t <? Z.min 32 (s + bits)) with (t <? 32) by (destruct (Z.ltb_spec t 32), (Z.ltb_spec t (Z.min 32 (s + bits))); lia).
      done.
    + rewrite (testbit_small bits x) by (done || lia). rewrite andb_false_r.
      by rewrite (proj2 (Z.ltb_ge t _)) by lia.
Qed.
Lemma lor_item_range packed x s : 0 ≤ packed → (∀ t, 32 ≤ t → Z.testbit packed t = false) →
  0 ≤ Z.lor packed (u32 (Z.shiftl x s)) < 2 ^ 32.
Proof using.
  intros Hp Hb. pose proof (u32_range (Z.shiftl x s)). split; [apply Z.lor_nonneg; lia|].
  apply bits_range; [lia|apply Z.lor_nonneg; lia|]. intros t Ht. rewrite Z.lor_spec, Hb by done.
  by apply (testbit_small 32).
Qed.

Lemma pack_step p0 p a ys k packed x xs :
  0 ≤ a → 0 ≤ k → packing p0 p a ys k packed → lookupZ ys k = Some x → 0 ≤ x < 2 ^ bits →
  a + packed_bytes (k + 1) ≤ lengthZ p0 →
  ∃ p' packed', pack_cases bits a (k `mod` 32) p (k * bits / 32) packed (x :: xs) =
      pack_cases bits a ((k + 1) `mod` 32) p' ((k + 1) * bits / 32) packed' xs ∧
    packing p0 p' a ys (k + 1) packed'.
Proof using Hbits.
  intros Ha Hk [Hok Ho Hw Hpos Hpk] Hx Hxr Hroom.
  destruct (position k _ Hk eq_refl) as (HS & HA & Hkb & Hs). pose proof (next_position k Hk) as Hnext.
  pose proof (lor_item_bits ys k packed x) as Hlor. unfold packed_bytes in Hroom.
  pose proof (Z.div_mod ((k + 1) * bits + 31) 32 ltac:(lia)). pose proof (Z.mod_pos_bound ((k + 1) * bits + 31) 32 ltac:(lia)).
  assert (Hq : 0 ≤ k * bits / 32) by (apply Z.div_pos; lia).
  assert (Hroom' : a + 4 * (k * bits / 32) + 4 ≤ lengthZ p) by (rewrite (proj1 Ho); lia).
  assert (Hi : (k `mod` 32 + 1) `mod` 32 = (k + 1) `mod` 32) by (by rewrite Z.add_mod_idemp_l).
  set (s := (k * bits) `mod` 32) in *. set (q := k * bits / 32) in *.
  cbn [pack_cases]. unfold pack_case. rewrite HS, HA, Hi.
  set (v := Z.lor packed (u32 (Z.shiftl x s))) in *.
  assert (Hvr : 0 ≤ v < 2 ^ 32).
  { apply lor_item_range; [done|]. intros t Ht. rewrite Hpk by lia. by rewrite (proj2 (Z.ltb_ge t s)) by lia. }
  destruct (Z.leb_spec bits (32 - s)) as [Hle|Hgt]; [destruct (Z.eqb_spec bits (32 - s)) as [He|Hne]|].
  2:{ rewrite (proj2 (Z.ltb_lt bits _)) in Hnext by lia. destruct Hnext as [Hd Hm]. rewrite Hd.
      exists p, v. split; [done|]. split; rewrite ?Hd, ?Hm; [done|done|done|lia|].
      intros t Ht. rewrite Hlor by done. by replace (Z.min 32 (s + bits)) with (s + bits) by lia. }
  all: rewrite (proj2 (Z.ltb_ge bits _)) in Hnext by lia; destruct Hnext as [Hd Hm]; rewrite Hd.
  all: destruct (word_put p a q v Hok Ha Hq Hroom' Hvr) as (p' & Hput & Hok' & Ho' & Hb).
  all: rewrite Hput; cbn [mbind option_bind].
  all: assert (Hout' : outside p0 p' a (a + 4 * (q + 1))) by
    (eapply outside_trans; [eapply outside_mono; [| |exact Ho]; lia|eapply outside_mono; [| |exact Ho']; lia]).
  all: assert (Hw' : ∀ t, 0 ≤ t < 32 * (q + 1) → mbit p' a t = items_bit ys t) by
    (intros t Ht; rewrite Hb by lia; destruct (Z.leb_spec (32 * q) t), (Z.ltb_spec t (32 * q + 32)); cbn [andb];
     [rewrite Hlor by (done || lia); rewrite (proj2 (Z.ltb_lt _ _)) by lia; cbn [andb]; f_equal; lia|lia|apply Hw; lia|lia]).
  - eexists p', 0. split; [done|]. split; rewrite ?Hd, ?Hm; [done..|]. intros t Ht. rewrite Z.testbit_0_l.
    by rewrite (proj2 (Z.ltb_ge t _)) by lia.
  - eexists p', _. split; [done|]. split; rewrite ?Hd, ?Hm; [done..|apply Z.shiftr_nonneg; lia|].
    intros t Ht. rewrite Z.shiftr_spec by done. destruct (Z.ltb_spec t (s + bits - 32)); cbn [andb].
    + replace (32 * (q + 1) + t) with (k * bits + (t + (32 - s))) by lia. symmetry. apply items_bit_item; [done|lia].
    + apply (testbit_small bits); [done|lia].
Qed.

Lemma packed_bytes_mono n m : n ≤ m → packed_bytes n ≤ packed_bytes m.
Proof using Hbits. intros H. unfold packed_bytes. apply Z.mul_le_mono_nonneg_l; [lia|]. apply Z.div_le_mono; nia. Qed.
Lemma pack_cases_run p0 p a ys done xs packed :
  0 ≤ a → ys = done ++ xs → Forall (λ x, 0 ≤ x < 2 ^ bits) xs →
  packing p0 p a ys (lengthZ done) packed → a + packed_bytes (lengthZ ys) ≤ lengthZ p0 →
  ∃ p' packed',
    pack_cases bits a (lengthZ done `mod` 32) p (lengthZ done * bits / 32) packed xs =
      Some (p', lengthZ ys * bits / 32, packed') ∧
    packing p0 p' a ys (lengthZ ys) packed'.
Proof using Hbits.
  intros Ha. revert done p packed. induction xs as [|x xs IH]; intros done p packed -> Hxs Hpk Hroom.
  { rewrite app_nil_r in *. by exists p, packed. }
  apply list.Forall_cons in Hxs as [Hx Hxs].
  destruct (pack_step p0 p a (done ++ x :: xs) (lengthZ done) packed x xs) as (p1 & packed1 & Hrun & Hpk1);
    [done|apply lengthZ_nonneg|done|apply lookupZ_at_length|done| |].
  { etransitivity; [|exact Hroom]. apply Z.add_le_mono_l, packed_bytes_mono. rewrite lengthZ_app, lengthZ_cons.
    pose proof (lengthZ_nonneg xs). lia. }
  rewrite Hrun. destruct (IH (done ++ [x]) p1 packed1) as (p' & packed' & Hrun' & Hpk'); [by rewrite <-app_assoc|done| |done|].
  - by rewrite lengthZ_app.
  - rewrite lengthZ_app in Hrun'. by exists p', packed'.
Qed.

(** Packing from item 0 on: the items are in place, the bits after the last one and
    the bytes outside are kept. *)
Lemma pack_run p a xs : bytes_ok p → 0 ≤ a → xs ≠ [] → Forall (λ x, 0 ≤ x < 2 ^ bits) xs →
  a + packed_bytes (lengthZ xs) ≤ lengthZ p →
  ∃ p', PackedArray_pack p a 0 xs bits = Some p' ∧ bytes_ok p' ∧ items_at bits p' a xs ∧
    outside p p' a (a + packed_bytes (lengthZ xs)) ∧
    ∀ t, lengthZ xs * bits ≤ t → mbit p' a t = mbit p a t.
Proof using Hbits.
  intros Hok Ha Hne Hxs Hroom. set (n := lengthZ xs).
  assert (Hn : 1 ≤ n) by (unfold n; destruct xs; [done|rewrite lengthZ_cons; pose proof (lengthZ_nonneg xs); lia]).
  unfold packed_bytes in *. fold n in Hroom.
  pose proof (Z.div_mod (n * bits + 31) 32 ltac:(lia)). pose proof (Z.mod_pos_bound (n * bits + 31) 32 ltac:(lia)).
  unfold PackedArray_pack, PackedArray_pack_bits. rewrite (proj2 (Z.leb_le 1 bits)), (proj2 (Z.leb_le bits 32)) by lia.
  cbn [andb]. rewrite bool_decide_false by done. cbn [mbind option_bind].
  change (0 * bits) with 0. change (0 / 32) with 0. change (0 `mod` 32) with 0. rewrite Z.mul_0_r.
  destruct (word_at p a 0 Hok Ha) as (w & Hw & _); [lia|nia|]. rewrite Z.mul_0_r in Hw. rewrite Hw. cbn [mbind option_bind].
  change (2 ^ 0 - 1) with 0. rewrite Z.land_0_r.
  destruct (pack_cases_run p p a xs [] xs 0 Ha) as (p1 & packed & Hrun & [Hok1 Ho1 Hw1 Hpos Hpk]); [done|done| |done|].
  { change (lengthZ (@nil Z)) with 0.
    split; change (0 * bits / 32) with 0; change ((0 * bits) `mod` 32) with 0; [done|apply outside_refl|lia|done|].
    intros t Ht. rewrite Z.testbit_0_l. by rewrite (proj2 (Z.ltb_ge t 0)). }
  change (lengthZ (@nil Z)) with 0 in Hrun. change (0 `mod` 32) with 0 in Hrun.
  change (0 * bits / 32) with 0 in Hrun. rewrite Hrun. cbn [mbind option_bind]. fold n in Hrun, Ho1, Hw1, Hpk |- *.
  rewrite Z.add_0_r. destruct (position n _ ltac:(lia) eq_refl) as (_ & _ & Hnb & Hs).
  set (s := (n * bits) `mod` 32) in *. set (q := n * bits / 32) in *.
  assert (Hitems : ∀ p', (∀ t, 0 ≤ t < n * bits → mbit p' a t = items_bit xs t) → items_at bits p' a xs).
  { intros p' Hbit k x Hk. pose proof (lookupZ_Some _ _ _ Hk) as Hkn. fold n in Hkn. rewrite list.Forall_forall in Hxs.
    split; [apply Hxs; by eapply lookupZ_elem|]. intros i Hi. assert ((k + 1) * bits ≤ n * bits) by nia. rewrite Hbit by nia. symmetry. by apply items_bit_item. }
  destruct (Z.eqb_spec s 0) as [Hs0|Hs0].
  - exists p1. split_and!; [done|done|apply Hitems; intros t Ht; apply Hw1; lia| |].
    + eapply outside_mono; [| |exact Ho1]; lia.
    + intros t Ht. eapply outside_mbit; [exact Ho1|]. right. pose proof (Z.div_le_lower_bound t 8 (4 * q) ltac:(lia)). lia.
  - destruct (word_at p1 a q Hok1 Ha) as (w1 & Hw1' & Hr1 & Hb1); [lia|rewrite (proj1 Ho1); lia|].
    rewrite Hw1'. cbn [mbind option_bind].
    set (v := Z.lor packed _).
    assert (Hv : ∀ t, 0 ≤ t → Z.testbit v t = (t <? 32) && (if t <? s then items_bit xs (32 * q + t) else mbit p1 a (32 * q + t))).
    { intros t Ht. unfold v. rewrite Z.lor_spec, Z.land_spec, u32_testbit, Z.lnot_spec, testbit_ones, Hpk, Hb1 by lia.
      destruct (Z.ltb_spec t s), (Z.ltb_spec t 32); cbn [andb orb negb]; try lia; try done.
      - by rewrite andb_false_r, orb_false_r.
      - by rewrite andb_true_r. }
    assert (Hvr : 0 ≤ v < 2 ^ 32).
    { assert (0 ≤ v) by (apply Z.lor_nonneg; split; [done|apply Z.land_nonneg; lia]).
      split; [done|]. apply bits_range; [lia|done|]. intros t Ht. rewrite Hv by lia. by rewrite (proj2 (Z.ltb_ge t 32)). }
    destruct (word_put p1 a q v Hok1 Ha) as (p' & Hput & Hok' & Ho' & Hb'); [lia|rewrite (proj1 Ho1); lia|done|].
    exists p'. split_and!; [exact Hput|done| | |].
    + apply Hitems. intros t Ht. rewrite Hb' by lia.
      destruct (Z.leb_spec (32 * q) t), (Z.ltb_spec t (32 * q + 32)); cbn [andb]; [|lia|apply Hw1; lia|lia].
      rewrite Hv by lia. rewrite (proj2 (Z.ltb_lt (t - 32 * q) 32)), (proj2 (Z.ltb_lt (t - 32 * q) s)) by lia.
      cbn [andb]. f_equal. lia.
    + eapply outside_trans; [eapply outside_mono; [| |exact Ho1]; lia|eapply outside_mono; [| |exact Ho']; lia].
    + intros t Ht. rewrite Hb' by nia.
      assert (Hold : ∀ t, 32 * q ≤ t → mbit p1 a t = mbit p a t).
      { intros t' Ht'. eapply outside_mbit; [exact Ho1|]. right. pose proof (Z.div_le_lower_bound t' 8 (4 * q) ltac:(lia)). lia. }
      destruct (Z.leb_spec (32 * q) t), (Z.ltb_spec t (32 * q + 32)); cbn [andb]; [|apply Hold; lia|lia|lia].
      rewrite Hv by lia. rewrite (proj2 (Z.ltb_lt (t - 32 * q) 32)), (proj2 (Z.ltb_ge (t - 32 * q) s)) by lia.
      cbn [andb]. replace (32 * q + (t - 32 * q)) with t by lia. apply Hold. lia.
Qed.

(** ** Unpacking *)
Definition is_word (p : list Z) (a j w : Z) : Prop :=
  get_le 4 p (a + 4 * j) = Some w ∧ 0 ≤ w < 2 ^ 32 ∧
  ∀ i, 0 ≤ i → Z.testbit w i = (i <? 32) && mbit p a (32 * j + i).
Lemma is_word_at (p : list Z) a j : bytes_ok p → 0 ≤ a → 0 ≤ j → a + 4 * j + 4 ≤ lengthZ p → ∃ w, is_word p a j w.
Proof using. apply word_at. Qed.
(** The words that hold item [k]. *)
Lemma item_room (p : list Z) a k : 0 ≤ k → a + packed_bytes (k + 1) ≤ lengthZ p →
  0 ≤ k * bits / 32 ∧ a + 4 * (k * bits / 32) + 4 ≤ lengthZ p ∧
  (32 - (k * bits) `mod` 32 < bits → a + 4 * (k * bits / 32 + 1) + 4 ≤ lengthZ p).
Proof using Hbits.
  unfold packed_bytes. intros Hk Hroom.
  pose proof (Z.div_mod ((k + 1) * bits + 31) 32 ltac:(lia)). pose proof (Z.mod_pos_bound ((k + 1) * bits + 31) 32 ltac:(lia)).
  pose proof (Z.div_mod (k * bits) 32 ltac:(lia)). pose proof (Z.mod_pos_bound (k * bits) 32 ltac:(lia)).
  split_and!; [apply Z.div_pos; lia|lia|intros; lia].
Qed.

Lemma unpack_case_run p a k packed x : bytes_ok p → 0 ≤ a → 0 ≤ k →
  is_word p a (k * bits / 32) packed → item_at bits p a k x → a + packed_bytes (k + 1) ≤ lengthZ p →
  ∃ packed', unpack_case bits p a (k `mod` 32) (k * bits / 32) packed =
      Some (x, if bits <=? 32 - (k * bits) `mod` 32 then k * bits / 32 else k * bits / 32 + 1, packed') ∧
    is_word p a (if bits <=? 32 - (k * bits) `mod` 32 then k * bits / 32 else k * bits / 32 + 1) packed'.
Proof using Hbits.
  intros Hok Ha Hk Hw [Hxr Hx] Hroom. destruct (position k _ Hk eq_refl) as (HS & HA & Hkb & Hs).
  destruct (item_room p a k Hk Hroom) as (Hq & Hr1 & Hr2). pose proof Hw as (_ & _ & Hbw).
  unfold unpack_case. rewrite HS, HA. set (s := (k * bits) `mod` 32) in *. set (q := k * bits / 32) in *.
  destruct (Z.leb_spec bits (32 - s)).
  - exists packed. split; [|done]. repeat f_equal. apply Z.bits_inj'. intros i Hi.
    rewrite Z.land_spec, mask_testbit, Z.shiftr_spec, Hbw by lia. destruct (Z.ltb_spec i bits).
    + rewrite Hx by lia. rewrite (proj2 (Z.ltb_lt (i + s) 32)), andb_true_r by lia. cbn [andb]. f_equal. lia.
    + rewrite andb_false_r. symmetry. by apply (testbit_small bits).
  - destruct (is_word_at p a (q + 1) Hok Ha) as (w & Hw1); [lia|by apply Hr2|]. pose proof Hw1 as (Hget & _ & Hb1).
    rewrite Hget. cbn [mbind option_bind]. exists w. split; [|done]. repeat f_equal. apply Z.bits_inj'. intros i Hi.
    rewrite Z.land_spec, mask_testbit, Z.lor_spec, Z.shiftr_spec, Hbw, u32_testbit, testbit_shiftl by lia.
    destruct (Z.ltb_spec i bits); [|rewrite andb_false_r; symmetry; by apply (testbit_small bits)].
    rewrite Hx, andb_true_r, (proj2 (Z.ltb_lt i 32)) by lia. cbn [andb].
    destruct (Z.leb_spec (32 - s) i); cbn [andb].
    + rewrite (proj2 (Z.ltb_ge (i + s) 32)) by lia. cbn [andb orb]. rewrite Hb1 by lia.
      rewrite (proj2 (Z.ltb_lt _ 32)) by lia. cbn [andb]. f_equal. lia.
    + rewrite (proj2 (Z.ltb_lt (i + s) 32)), orb_false_r by lia. cbn [andb]. f_equal. lia.
Qed.

Lemma unpack_cases_run p a k xs packed : bytes_ok p → 0 ≤ a → 0 ≤ k → xs ≠ [] →
  is_word p a (k * bits / 32) packed → (∀ j x, lookupZ xs j = Some x → item_at bits p a (k + j) x) →
  a + packed_bytes (k + lengthZ xs) ≤ lengthZ p →
  unpack_cases bits (length xs) p a (k `mod` 32) (k * bits / 32) packed = Some xs.
Proof using Hbits.
  intros Hok Ha Hk _ Hw Hxs Hroom. revert k packed Hk Hw Hxs Hroom.
  induction xs as [|x xs IH]; intros k packed Hk Hw Hxs Hroom; [done|]. cbn [unpack_cases length].
  rewrite lengthZ_cons in Hroom. pose proof (lengthZ_nonneg xs) as Hl.
  assert (Hroom1 : a + packed_bytes (k + 1) ≤ lengthZ p).
  { pose proof (packed_bytes_mono (k + 1) (k + (1 + lengthZ xs)) ltac:(lia)). lia. }
  assert (Hitem : item_at bits p a k x) by (rewrite <-(Z.add_0_r k); by apply Hxs).
  destruct (unpack_case_run p a k packed x Hok Ha Hk Hw Hitem Hroom1) as (packed' & Hrun & Hw').
  rewrite Hrun. cbn [mbind option_bind].
  destruct xs as [|y xs]; [done|]. rewrite bool_decide_false by done.
  pose proof (next_position k Hk) as Hnext. destruct (position k _ Hk eq_refl) as (_ & HA & Hkb & Hs).
  rewrite HA. replace ((k `mod` 32 + 1) `mod` 32) with ((k + 1) `mod` 32) by (by rewrite Z.add_mod_idemp_l).
  assert (Htail : ∀ w, is_word p a ((k + 1) * bits / 32) w →
    unpack_cases bits (length (y :: xs)) p a ((k + 1) `mod` 32) ((k + 1) * bits / 32) w = Some (y :: xs)).
  { intros w Hw1. apply IH; [lia|done| |by rewrite <-Z.add_assoc].
    intros j z Hz. pose proof (lookupZ_Some _ _ _ Hz). rewrite <-Z.add_assoc. apply Hxs.
    rewrite lookupZ_cons_S by lia. by replace (1 + j - 1) with j by lia. }
  destruct (Z.eqb_spec bits (32 - (k * bits) `mod` 32)) as [E|E].
  - rewrite (proj2 (Z.leb_le bits _)) in * by lia. rewrite (proj2 (Z.ltb_ge bits _)) in Hnext by lia.
    destruct Hnext as [Hd _]. rewrite <-Hd.
    destruct (is_word_at p a ((k + 1) * bits / 32) Hok Ha) as (w & Hw1).
    + apply Z.div_pos; lia.
    + apply (item_room p a (k + 1)); [lia|].
      pose proof (packed_bytes_mono (k + 1 + 1) (k + (1 + lengthZ (y :: xs)))). rewrite lengthZ_cons in *.
      pose proof (lengthZ_nonneg xs). lia.
    + rewrite (proj1 Hw1). cbn [mbind option_bind]. by rewrite Htail.
  - destruct (Z.leb_spec bits (32 - (k * bits) `mod` 32)).
    + rewrite (proj2 (Z.ltb_lt bits _)) in Hnext by lia. destruct Hnext as [Hd _]. rewrite <-Hd in Hw' |- *.
      by rewrite Htail.
    + rewrite (proj2 (Z.ltb_ge bits _)) in Hnext by lia. destruct Hnext as [Hd _]. rewrite <-Hd in Hw' |- *.
      by rewrite Htail.
Qed.

Lemma unpack_run p a xs out : bytes_ok p → 0 ≤ a → xs ≠ [] → items_at bits p a xs →
  a + packed_bytes (lengthZ xs) ≤ lengthZ p →
  PackedArray_unpack p a 0 out (lengthZ xs) bits = Some (xs ++ drop (length xs) out).
Proof using Hbits.
  intros Hok Ha Hne Hxs Hroom. unfold PackedArray_unpack, PackedArray_unpack_bits.
  rewrite (proj2 (Z.leb_le 1 bits)), (proj2 (Z.leb_le bits 32)) by lia. cbn [andb].
  rewrite (proj2 (Z.eqb_neq _ 0)) by (destruct xs; [done|rewrite lengthZ_cons; pose proof (lengthZ_nonneg xs); lia]).
  change (0 * bits / 32) with 0. change (0 `mod` 32) with 0. rewrite Z.mul_0_r.
  destruct (is_word_at p a 0 Hok Ha) as (w & Hw); [lia| |].
  { apply (item_room p a 0); [lia|]. pose proof (packed_bytes_mono (0 + 1) (lengthZ xs)).
    destruct xs; [done|rewrite lengthZ_cons in *; pose proof (lengthZ_nonneg xs); lia]. }
  pose proof (proj1 Hw) as Hget. rewrite Z.mul_0_r in Hget. rewrite Hget. cbn [mbind option_bind].
  pose proof (unpack_cases_run p a 0 xs w Hok Ha ltac:(lia) Hne Hw Hxs Hroom) as Hrun.
  change (0 `mod` 32) with 0 in Hrun. change (0 * bits / 32) with 0 in Hrun.
  unfold lengthZ. by rewrite Nat2Z.id, Hrun.
Qed.

Lemma packed_get_run p a k x : bytes_ok p → 0 ≤ a → 0 ≤ k → item_at bits p a k x →
  a + packed_bytes (k + 1) ≤ lengthZ p → PackedArray_get p a k bits = Some x.
Proof using Hbits.
  intros Hok Ha Hk [Hxr Hx] Hroom. destruct (position k _ Hk eq_refl) as (_ & _ & Hkb & Hs).
  destruct (item_room p a k Hk Hroom) as (Hq & Hr1 & Hr2).
  unfold PackedArray_get. set (s := (k * bits) `mod` 32) in *. set (q := k * bits / 32) in *.
  destruct (is_word_at p a q Hok Ha) as (w & Hw); [lia..|]. destruct Hw as (Hget & _ & Hbw). rewrite Hget.
  cbn [mbind option_bind]. change (u32 (2 ^ bits - 1)) with (ITEM_MASK bits).
  destruct (Z.leb_spec bits (32 - s)).
  - f_equal. apply Z.bits_inj'. intros i Hi.
    rewrite Z.land_spec, mask_testbit, Z.shiftr_spec, Hbw by lia. destruct (Z.ltb_spec i bits).
    + rewrite Hx by lia. rewrite (proj2 (Z.ltb_lt (i + s) 32)), andb_true_r by lia. cbn [andb]. f_equal. lia.
    + rewrite andb_false_r. symmetry. by apply (testbit_small bits).
  - destruct (is_word_at p a (q + 1) Hok Ha) as (w1 & Hget1 & _ & Hb1); [lia|by apply Hr2|].
    rewrite Hget1. cbn [mbind option_bind]. f_equal. apply Z.bits_inj'. intros i Hi.
    rewrite Z.lxor_spec, Z.land_spec, Z.lxor_spec, !u32_testbit, !testbit_shiftl, !Z.shiftr_spec, Hbw by lia.
    destruct (Z.leb_spec (32 - s) i); cbn [andb].
    + rewrite Z.shiftr_spec, mask_testbit by lia. replace (i - (32 - s) + (32 - s)) with i by lia.
      rewrite (proj2 (Z.ltb_ge (i + s) 32)) by lia. cbn [andb xorb]. rewrite Hb1 by lia.
      destruct (Z.ltb_spec i bits).
      * rewrite Hx, (proj2 (Z.ltb_lt i 32)), (proj2 (Z.ltb_lt (i - (32 - s)) 32)) by lia. cbn [andb xorb].
        rewrite andb_true_r. f_equal. lia.
      * rewrite !andb_false_r. symmetry. by apply (testbit_small bits).
    + rewrite !andb_false_r. rewrite (proj2 (Z.ltb_lt (i + s) 32)) by lia. cbn [andb]. rewrite xorb_false_r.
      rewrite Hx by lia. f_equal. lia.
Qed.

(** ** Setting an item *)
Lemma u32_lnot_testbit x i : 0 ≤ i < 32 → Z.testbit (u32 (Z.lnot x)) i = negb (Z.testbit x i).
Proof using. intros Hi. rewrite u32_testbit, Z.lnot_spec by lia. by rewrite (proj2 (Z.ltb_lt i 32)) by lia. Qed.
(** A word with some of its bits replaced. *)
Lemma set_word_range w m x : 0 ≤ w < 2 ^ 32 → 0 ≤ x < 2 ^ 32 → 0 ≤ Z.lor (Z.land w (u32 m)) x < 2 ^ 32.
Proof using.
  intros Hw Hx. pose proof (u32_range m). assert (0 ≤ Z.lor (Z.land w (u32 m)) x) by (apply Z.lor_nonneg; split; [apply Z.land_nonneg; lia|lia]).
  split; [done|]. apply bits_range; [lia|done|]. intros i Hi. rewrite Z.lor_spec, Z.land_spec, (testbit_small 32 w), (testbit_small 32 x) by done. done.
Qed.
Lemma item_fits x : 0 ≤ x < 2 ^ bits → Z.land (u32 (Z.lnot (ITEM_MASK bits))) x = 0.
Proof using Hbits.
  intros Hx. apply Z.bits_inj'. intros i Hi. rewrite Z.land_spec, Z.testbit_0_l. destruct (decide (i < bits)).
  - rewrite u32_lnot_testbit, mask_testbit, (proj2 (Z.ltb_lt i bits)) by lia. done.
  - rewrite (testbit_small bits x) by lia. apply andb_false_r.
Qed.
Lemma set_run p a k x : bytes_ok p → 0 ≤ a → 0 ≤ k → 0 ≤ x < 2 ^ bits → a + packed_bytes (k + 1) ≤ lengthZ p →
  ∃ p', PackedArray_set p a k x bits = Some p' ∧ bytes_ok p' ∧ lengthZ p' = lengthZ p ∧
    ∀ t, 0 ≤ t → mbit p' a t = if (k * bits <=? t) && (t <? k * bits + bits) then Z.testbit x (t - k * bits) else mbit p a t.
Proof using Hbits.
  intros Hok Ha Hk Hx Hroom. destruct (position k _ Hk eq_refl) as (_ & _ & Hkb & Hs).
  destruct (item_room p a k Hk Hroom) as (Hq & Hr1 & Hr2).
  unfold PackedArray_set. change (u32 (2 ^ bits - 1)) with (ITEM_MASK bits). rewrite item_fits by done. cbn [Z.eqb negb].
  set (s := (k * bits) `mod` 32) in *. set (q := k * bits / 32) in *.
  destruct (word_at p a q Hok Ha Hq Hr1) as (w0 & Hw0 & Hw0r & Hb0). rewrite Hw0. cbn [mbind option_bind].
  set (v0 := Z.lor _ _).
  assert (Hv0r : 0 ≤ v0 < 2 ^ 32) by (apply set_word_range; [done|apply u32_range]).
  assert (Hv0 : ∀ i, 0 ≤ i < 32 → Z.testbit v0 i = if (s <=? i) && (i <? s + bits) then Z.testbit x (i - s) else mbit p a (32 * q + i)).
  { intros i Hi. unfold v0. rewrite Z.lor_spec, Z.land_spec, u32_lnot_testbit, !u32_testbit, !testbit_shiftl, Hb0 by lia.
    rewrite (proj2 (Z.ltb_lt i 32)) by lia. cbn [andb]. destruct (Z.leb_spec s i); cbn [andb].
    - rewrite mask_testbit by lia. destruct (Z.ltb_spec i (s + bits)).
      + rewrite (proj2 (Z.ltb_lt (i - s) bits)) by lia. by rewrite andb_false_r.
      + rewrite (proj2 (Z.ltb_ge (i - s) bits)), (testbit_small bits x) by lia. by rewrite andb_true_r, orb_false_r.
    - by rewrite andb_true_r, orb_false_r. }
  destruct (word_put p a q v0 Hok Ha Hq Hr1 Hv0r) as (p1 & Hput1 & Hok1 & Ho1 & Hb1).
  destruct (Z.leb_spec bits (32 - s)) as [Hfit|Hspan].
  - exists p1. split_and!; [done|done|apply Ho1|]. intros t Ht. rewrite Hb1 by done.
    destruct (Z.leb_spec (32 * q) t), (Z.ltb_spec t (32 * q + 32)); cbn [andb].
    + rewrite Hv0 by lia. replace (s <=? t - 32 * q) with (k * bits <=? t) by (destruct (Z.leb_spec (k * bits) t), (Z.leb_spec s (t - 32 * q)); lia).
      replace (t - 32 * q <? s + bits) with (t <? k * bits + bits) by (destruct (Z.ltb_spec t (k * bits + bits)), (Z.ltb_spec (t - 32 * q) (s + bits)); lia).
      replace (t - 32 * q - s) with (t - k * bits) by lia. by replace (32 * q + (t - 32 * q)) with t by lia.
    + rewrite (proj2 (Z.ltb_ge t (k * bits + bits))) by lia. by rewrite andb_false_r.
    + rewrite (proj2 (Z.leb_gt (k * bits) t)) by lia. done.
    + lia.
  - rewrite Hput1. cbn [mbind option_bind]. specialize (Hr2 Hspan).
    destruct (word_at p1 a (q + 1) Hok1 Ha) as (w1 & Hw1 & Hw1r & Hbw1); [lia|rewrite (proj1 Ho1); lia|]. rewrite Hw1. cbn [mbind option_bind].
    set (v1 := Z.lor _ (Z.shiftr x _)).
    assert (Hxr : 0 ≤ Z.shiftr x (32 - s) < 2 ^ 32).
    { split; [apply Z.shiftr_nonneg; lia|]. apply bits_range; [lia|apply Z.shiftr_nonneg; lia|]. intros i Hi.
      rewrite Z.shiftr_spec by lia. apply (testbit_small bits); lia. }
    assert (Hv1r : 0 ≤ v1 < 2 ^ 32) by (by apply set_word_range).
    assert (Hv1 : ∀ i, 0 ≤ i < 32 → Z.testbit v1 i = if i <? s + bits - 32 then Z.testbit x (i + 32 - s) else mbit p1 a (32 * (q + 1) + i)).
    { intros i Hi. unfold v1. rewrite Z.lor_spec, Z.land_spec, u32_lnot_testbit, !Z.shiftr_spec, mask_testbit, Hbw1 by lia.
      rewrite (proj2 (Z.ltb_lt i 32)) by lia. cbn [andb]. destruct (Z.ltb_spec i (s + bits - 32)).
      - rewrite (proj2 (Z.ltb_lt (i + (32 - s)) bits)) by lia. rewrite andb_false_r. cbn [orb]. f_equal. lia.
      - rewrite (proj2 (Z.ltb_ge (i + (32 - s)) bits)), (testbit_small bits x) by lia. by rewrite andb_true_r, orb_false_r. }
    destruct (word_put p1 a (q + 1) v1 Hok1 Ha) as (p2 & Hput2 & Hok2 & Ho2 & Hb2); [lia|rewrite (proj1 Ho1); lia|done|].
    exists p2. split_and!; [done|done|by rewrite (proj1 Ho2), (proj1 Ho1)|]. intros t Ht. rewrite Hb2 by done.
    destruct (Z.leb_spec (32 * (q + 1)) t), (Z.ltb_spec t (32 * (q + 1) + 32)); cbn [andb].
    + rewrite Hv1 by lia. rewrite (proj2 (Z.leb_le (k * bits) t)) by lia. cbn [andb].
      replace (32 * (q + 1) + (t - 32 * (q + 1))) with t by lia. rewrite Hb1 by lia. rewrite (proj2 (Z.ltb_ge t (32 * q + 32))), andb_false_r by lia.
      destruct (Z.ltb_spec (t - 32 * (q + 1)) (s + bits - 32)), (Z.ltb_spec t (k * bits + bits)); try lia; [|done]. f_equal. lia.
    + rewrite Hb1 by lia. rewrite (proj2 (Z.ltb_ge t (32 * q + 32))), andb_false_r by lia.
      rewrite (proj2 (Z.ltb_ge t (k * bits + bits))) by lia. by rewrite andb_false_r.
    + rewrite Hb1 by lia. rewrite (proj2 (Z.ltb_lt t (32 * q + 32))), andb_true_r by lia.
      destruct (Z.leb_spec (32 * q) t).
      * rewrite Hv0 by lia. replace (32 * q + (t - 32 * q)) with t by lia. rewrite (proj2 (Z.ltb_lt (t - 32 * q) (s + bits))), (proj2 (Z.ltb_lt t (k * bits + bits))) by lia.
        rewrite !andb_true_r. replace (t - 32 * q - s) with (t - k * bits) by lia.
        destruct (Z.leb_spec s (t - 32 * q)), (Z.leb_spec (k * bits) t); try lia; done.
      * rewrite (proj2 (Z.leb_gt (k * bits) t)) by lia. done.
    + lia.
Qed.
End proofs.
