(* ===== verification/RadixSort.v ===== *)
(** * The radix sort of the filters

    RadixSort (routing_filter.c): a least significant byte first sort of 32-bit
    integers between two buffers, with a matrix of counts that becomes one of
    positions.  The passes are shown to be stable bucket sorts. *)
From S2P Require Import Prelude.
From stdpp Require Import sorting.
Open Scope Z_scope.

Definition MATRIX_ROWS : Z := 4.
Definition MATRIX_COLS : Z := 256.

(** [mIndex], the buffer that [pSrc] points to and the one of [pDst]. *)
Record radix := mk_radix { rx_index : list (list Z); rx_src : list Z; rx_dst : list Z }.
Definition with_index (m : list (list Z)) (r : radix) : radix := mk_radix m (rx_src r) (rx_dst r).

(** [((uint8 * )&u)[j]] *)
Definition byte_of (u j : Z) : Z := (u / 256 ^ j) `mod` 256.

Definition get_index (j c : Z) : M radix Z :=
  r ← mget; row ← mopt (lookupZ (rx_index r) j); mopt (lookupZ row c).
Definition set_index (j c v : Z) : M radix unit :=
  r ← mget; row ← mopt (lookupZ (rx_index r) j); _ ← mopt (lookupZ row c);
  mput (with_index (insertZ j (insertZ c v row) (rx_index r)) r).
Definition get_src (i : Z) : M radix Z := r ← mget; mopt (lookupZ (rx_src r) i).
Definition set_dst (i u : Z) : M radix unit :=
  r ← mget; _ ← mopt (lookupZ (rx_dst r) i); mput (mk_radix (rx_index r) (rx_src r) (insertZ i u (rx_dst r))).

Definition check_zero : M radix unit :=
  mfor (Z.to_nat MATRIX_ROWS) 0 (λ i, mfor (Z.to_nat MATRIX_COLS) 0 (λ j, v ← get_index i j; massert (v =? 0))).
(** One element into the histograms. *)
Definition histogram (rounds : Z) (u : Z) : M radix unit :=
  mfor (Z.to_nat rounds) 0 (λ j, n ← get_index j (byte_of u j); set_index j (byte_of u j) (u32 (n + 1))).
(** A row of counts into positions: [k] entries from [i] on, [n] elements before. *)
Fixpoint to_indices (k : nat) (count j i n : Z) : M radix unit :=
  match k with
  | O => mret tt
  | S k' =>
      m ← get_index j i;
      set_index j i n;;
      massert (n <=? count);;
      to_indices k' count j (i + 1) (u32 (n + m))
  end.
Definition scatter (count j i : Z) : M radix unit :=
  u ← get_src i;
  k ← get_index j (byte_of u j);
  massert (k <? count);;
  set_dst k u;;
  set_index j (byte_of u j) (u32 (k + 1)).
Definition swap_buffers : M radix unit := mmod (λ r, mk_radix (rx_index r) (rx_dst r) (rx_src r)).

Definition radix_sort (fp_size : Z) : M radix (list Z) :=
  let fp_size := if fp_size =? 0 then 1 else fp_size in
  let rounds := u32 (fp_size + 7) / 8 in
  massert (rounds <=? MATRIX_ROWS);;
  check_zero;;
  count ← mread (λ r, lengthZ (rx_src r));
  mfor (Z.to_nat count) 0 (λ i, u ← get_src i; massert (u <? 2 ^ (8 * rounds));; histogram rounds u);;
  mfor (Z.to_nat rounds) 0 (λ j, to_indices (Z.to_nat MATRIX_COLS) count j 0 0);;
  mfor (Z.to_nat rounds) 0 (λ j, mfor (Z.to_nat count) 0 (scatter count j);; swap_buffers);;
  mread rx_src.
(** [RadixSort(pData, mBuf, pTemp, count, fp_size)] with the rows of [mBuf]. *)
Definition RadixSort (pData : list Z) (mBuf : list (list Z)) (pTemp : list Z) (fp_size : Z) : outcome (list Z) :=
  match radix_sort fp_size (mk_radix mBuf pData pTemp) with
  | Ret (l, _) => Ret l
  | Assert => Assert | Undef => Undef | Block => Block | Fuel => Fuel
  end.
Definition zero_matrix : list (list Z) := replicate (Z.to_nat MATRIX_ROWS) (replicate (Z.to_nat MATRIX_COLS) 0).

Example RadixSort_ex :
  RadixSort [70000; 3; 515; 3; 259] zero_matrix [0; 0; 0; 0; 0] 17 = Ret [3; 3; 259; 515; 70000].
Proof. vm_compute. reflexivity. Qed.

(** ** Elements by byte *)
Definition with_byte (j c : Z) (l : list Z) : list Z := filter (λ u, byte_of u j = c) l.
Definition below_byte (j c : Z) (l : list Z) : list Z := filter (λ u, byte_of u j < c) l.
Lemma byte_of_range u j : 0 ≤ byte_of u j < 256.
Proof. by apply Z.mod_pos_bound. Qed.

Lemma with_byte_app j c l u :
  with_byte j c (l ++ [u]) = if decide (byte_of u j = c) then with_byte j c l ++ [u] else with_byte j c l.
Proof.
  unfold with_byte. rewrite list.filter_app, list.filter_cons, list.filter_nil. case_decide; [done|]. apply app_nil_r.
Qed.
Lemma filter_length_le {A} (P : A → Prop) `{!∀ x, Decision (P x)} l : lengthZ (filter P l) ≤ lengthZ l.
Proof. unfold lengthZ. pose proof (list.length_filter P l). lia. Qed.
Lemma below_byte_le j c l : lengthZ (below_byte j c l) ≤ lengthZ l.
Proof. apply filter_length_le. Qed.
Lemma below_byte_next j c l : lengthZ (below_byte j (c + 1) l) = lengthZ (below_byte j c l) + lengthZ (with_byte j c l).
Proof.
  unfold below_byte, with_byte. induction l as [|u l IH]; [done|]. rewrite !list.filter_cons.
  repeat case_decide; rewrite ?lengthZ_cons; lia.
Qed.
Lemma below_byte_0 j l : below_byte j 0 l = [].
Proof.
  unfold below_byte. induction l as [|u l IH]; [done|]. rewrite list.filter_cons. case_decide; [|done].
  pose proof (byte_of_range u j). lia.
Qed.
Lemma below_byte_all j l : below_byte j 256 l = l.
Proof.
  unfold below_byte. induction l as [|u l IH]; [done|]. rewrite list.filter_cons. case_decide; [by f_equal|].
  pose proof (byte_of_range u j). lia.
Qed.
Lemma below_byte_mono j c c' l : c ≤ c' → lengthZ (below_byte j c l) ≤ lengthZ (below_byte j c' l).
Proof.
  intros H. replace c' with (c + Z.of_nat (Z.to_nat (c' - c))) by lia. generalize (Z.to_nat (c' - c)) as n.
  induction n as [|n IH]; [rewrite Z.add_0_r; lia|]. rewrite Nat2Z.inj_succ. unfold Z.succ.
  rewrite Z.add_assoc, below_byte_next. pose proof (lengthZ_nonneg (with_byte j (c + Z.of_nat n) l)). lia.
Qed.
Lemma with_byte_room j c l : 0 ≤ c → c < 256 → lengthZ (below_byte j c l) + lengthZ (with_byte j c l) ≤ lengthZ l.
Proof. intros ??. rewrite <-below_byte_next. apply below_byte_le. Qed.
Lemma filter_app_length {A} (P : A → Prop) `{!∀ x, Decision (P x)} l l' :
  lengthZ (filter P l) ≤ lengthZ (filter P (l ++ l')).
Proof. rewrite list.filter_app, lengthZ_app. pose proof (lengthZ_nonneg (filter P l')). lia. Qed.
Lemma with_byte_prefix j c l l' k u : lookupZ (with_byte j c l) k = Some u → lookupZ (with_byte j c (l ++ l')) k = Some u.
Proof.
  intros H. unfold with_byte. rewrite list.filter_app, lookupZ_app, bool_decide_true; [done|].
  apply lookupZ_Some in H. unfold with_byte in H. lia.
Qed.

(** ** The matrix as a function *)
Definition matrix_is (g : Z → Z → Z) (m : list (list Z)) : Prop :=
  ∀ j, 0 ≤ j < MATRIX_ROWS → ∃ row, lookupZ m j = Some row ∧ lengthZ row = MATRIX_COLS ∧
    ∀ c, 0 ≤ c < MATRIX_COLS → lookupZ row c = Some (g j c).
Definition upd (g : Z → Z → Z) (j c v : Z) : Z → Z → Z := λ j' c', if decide (j' = j ∧ c' = c) then v else g j' c'.
Record radix_at (g : Z → Z → Z) (src dst : list Z) (r : radix) : Prop := {
  ra_index : matrix_is g (rx_index r); ra_src : rx_src r = src; ra_dst : rx_dst r = dst }.

Lemma radix_at_ext g g' src dst r :
  (∀ j c, 0 ≤ j < MATRIX_ROWS → 0 ≤ c < MATRIX_COLS → g j c = g' j c) → radix_at g src dst r → radix_at g' src dst r.
Proof.
  intros E [Hm ? ?]. split; [|done|done]. intros j Hj. destruct (Hm j Hj) as (row & ? & ? & Hr).
  exists row. split_and!; [done|done|]. intros c Hc. by rewrite <-E, Hr.
Qed.
Lemma get_index_run g src dst r j c : radix_at g src dst r → 0 ≤ j < MATRIX_ROWS → 0 ≤ c < MATRIX_COLS →
  get_index j c r = Ret (g j c, r).
Proof.
  intros [Hm _ _] Hj Hc. destruct (Hm j Hj) as (row & Hr & _ & Hl). unfold get_index.
  rewrite run_get, (run_opt _ _ _ _ Hr). unfold mopt. by rewrite Hl.
Qed.
Lemma row_index_run g src dst r j c v : radix_at g src dst r → 0 ≤ j < MATRIX_ROWS → 0 ≤ c < MATRIX_COLS →
  ∃ r', set_index j c v r = Ret (tt, r') ∧ radix_at (upd g j c v) src dst r'.
Proof.
  intros [Hm Hs Hd] Hj Hc. destruct (Hm j Hj) as (row & Hr & Hlen & Hl). unfold set_index.
  rewrite run_get, (run_opt _ _ _ _ Hr), (run_opt _ _ _ _ (Hl c Hc)). eexists. split; [done|]. split; [|done|done].
  pose proof (lookupZ_Some _ _ _ Hr) as Hjl. intros j' Hj'. cbn [rx_index with_index]. unfold upd.
  destruct (decide (j' = j)) as [->|Hne].
  - exists (insertZ c v row). rewrite lookupZ_insertZ_eq, lengthZ_insertZ by lia. split_and!; [done|done|].
    intros c' Hc'. destruct (decide (j = j ∧ c' = c)) as [[_ ->]|Hd'].
    + apply lookupZ_insertZ_eq. lia.
    + rewrite lookupZ_insertZ_ne by naive_solver. by apply Hl.
  - destruct (Hm j' Hj') as (row' & Hr' & Hlen' & Hl'). exists row'. rewrite lookupZ_insertZ_ne by done.
    split_and!; [done|done|]. intros c' Hc'. rewrite decide_False by naive_solver. by apply Hl'.
Qed.
Lemma upd_eq g j c v : upd g j c v j c = v.
Proof. unfold upd. by rewrite decide_True. Qed.
Lemma upd_ne g j c v j' c' : j' ≠ j ∨ c' ≠ c → upd g j c v j' c' = g j' c'.
Proof. intros ?. unfold upd. rewrite decide_False; naive_solver. Qed.
(** Read an entry and write it. *)
Lemma bump_run {B} g src dst r j c (f : Z → Z) (k : Z → M radix B) :
  radix_at g src dst r → 0 ≤ j < MATRIX_ROWS → 0 ≤ c < MATRIX_COLS →
  (get_index j c ≫= k) r = k (g j c) r.
Proof. intros Hr Hj Hc. by rewrite (bind_run _ _ _ _ _ (get_index_run g src dst r j c Hr Hj Hc)). Qed.

Lemma get_src_run g src dst r i u : radix_at g src dst r → lookupZ src i = Some u → get_src i r = Ret (u, r).
Proof. intros [_ <- _] Hu. unfold get_src. rewrite run_get. unfold mopt. by rewrite Hu. Qed.
Lemma set_dst_run g src dst r i u : radix_at g src dst r → 0 ≤ i < lengthZ dst →
  ∃ r', set_dst i u r = Ret (tt, r') ∧ radix_at g src (insertZ i u dst) r'.
Proof.
  intros [Hm <- <-] Hi. unfold set_dst. rewrite run_get. apply lookupZ_is_Some in Hi as [x Hx].
  rewrite (run_opt _ _ _ _ Hx). eexists. by split.
Qed.

(** ** The histograms and the positions *)
Section sort.
Context (rounds : Z) (Hrounds : 0 ≤ rounds ≤ MATRIX_ROWS).

(** The matrix after the elements [l]. *)
Definition counts (l : list Z) (j c : Z) : Z := if decide (j < rounds) then lengthZ (with_byte j c l) else 0.

Lemma histogram_run u l src dst r : lengthZ l < 2 ^ 32 - 1 → radix_at (counts l) src dst r →
  ∃ r', histogram rounds u r = Ret (tt, r') ∧ radix_at (counts (l ++ [u])) src dst r'.
Proof using Hrounds.
  intros Hl Hr. unfold histogram.
  run_for (λ i, radix_at (λ j c, if decide (j < i) then counts (l ++ [u]) j c else counts l j c) src dst).
  - intros i t Hi Ht. unfold MATRIX_ROWS in *.
    rewrite (bump_run _ _ _ _ _ _ id _ Ht) by (apply byte_of_range || (unfold MATRIX_ROWS; lia)).
    destruct (row_index_run _ _ _ t i (byte_of u i) (u32 ((if decide (i < i) then counts (l ++ [u]) i (byte_of u i) else counts l i (byte_of u i)) + 1)) Ht)
      as (t' & Hrun & Ht'); [unfold MATRIX_ROWS; lia|apply byte_of_range|].
    exists t'. split; [exact Hrun|]. eapply radix_at_ext; [|exact Ht']. intros j c Hj Hc. cbv beta.
    rewrite (decide_False (P := i < i)) by lia. unfold counts. rewrite (decide_True (P := i < rounds)) by lia.
    unfold upd. rewrite with_byte_app. destruct (decide (j = i ∧ c = byte_of u i)) as [[-> ->]|Hne].
    + rewrite (decide_True (P := i < i + 1)), (decide_True (P := byte_of u i = byte_of u i)) by lia. rewrite lengthZ_app, lengthZ_cons, lengthZ_nil.
      pose proof (filter_length_le (λ v, byte_of v i = byte_of u i) l). unfold with_byte.
      pose proof (lengthZ_nonneg (filter (λ v, byte_of v i = byte_of u i) l)). rewrite u32_small by lia.
      destruct (decide (i < rounds)); lia.
    + destruct (decide (j < i)), (decide (j < i + 1)); try lia.
      assert (j = i) as -> by lia. rewrite (decide_False (P := byte_of u i = c)) by naive_solver.
      by destruct (decide (i < rounds)).
  - eapply radix_at_ext; [|exact Hr]. intros j c Hj Hc. cbv beta. by rewrite decide_False by lia.
  - destruct Hfor as (r' & Hrun & Hr'). exists r'. split; [exact Hrun|].
    eapply radix_at_ext; [|exact Hr']. intros j c Hj Hc. cbv beta. unfold counts.
    destruct (decide (j < 0 + Z.of_nat (Z.to_nat rounds))); [done|]. by rewrite !decide_False by lia.
Qed.

Lemma histograms_run src dst r : lengthZ src < 2 ^ 32 → Forall (λ u, u < 2 ^ (8 * rounds)) src →
  radix_at (counts []) src dst r →
  ∃ r', mfor (Z.to_nat (lengthZ src)) 0 (λ i, u ← get_src i; massert (u <? 2 ^ (8 * rounds));; histogram rounds u) r =
      Ret (tt, r') ∧ radix_at (counts src) src dst r'.
Proof using Hrounds.
  intros Hl Hs Hr.
  run_for (λ i, radix_at (counts (take (Z.to_nat i) src)) src dst).
  - intros i t Hi Ht. destruct (lookupZ src i) as [u|] eqn:Hu; [|apply lookupZ_None in Hu; unfold lengthZ in *; lia].
    rewrite Forall_lookupZ in Hs. destruct (histogram_run u (take (Z.to_nat i) src) src dst t) as (t' & Hrun & Ht').
    + unfold lengthZ in *. rewrite length_take. lia.
    + done.
    + exists t'. split.
      * rewrite (bind_run _ _ _ _ _ (get_src_run _ _ _ _ _ _ Ht Hu)).
        rewrite run_assert by (apply Z.ltb_lt; by eapply Hs). exact Hrun.
      * replace (Z.to_nat (i + 1)) with (S (Z.to_nat i)) by lia. erewrite take_S_r; [exact Ht'|].
        unfold lookupZ in Hu. by rewrite bool_decide_true in Hu by lia.
  - done.
  - destruct Hfor as (r' & Hrun & Hr'). exists r'. split; [exact Hrun|].
    rewrite take_ge in Hr'; [done|]. unfold lengthZ. lia.
Qed.

(** The first position of an element whose byte [j] is [c]. *)
Definition starts (l : list Z) (j c : Z) : Z := lengthZ (below_byte j c l).
Lemma to_indices_run l src dst j k i r g :
  0 ≤ j < rounds → lengthZ l < 2 ^ 32 → 0 ≤ i → i + Z.of_nat k = MATRIX_COLS →
  (∀ c, i ≤ c < MATRIX_COLS → g j c = lengthZ (with_byte j c l)) → radix_at g src dst r →
  ∃ r', to_indices k (lengthZ l) j i (starts l j i) r = Ret (tt, r') ∧
    radix_at (λ j' c, if decide (j' = j ∧ i ≤ c) then starts l j c else g j' c) src dst r'.
Proof using Hrounds.
  intros Hj Hl. revert i r g. induction k as [|k IH]; intros i r g Hi Hk Hg Hr.
  { exists r. split; [done|]. eapply radix_at_ext; [|exact Hr]. intros j' c Hj' Hc. rewrite decide_False by lia. done. }
  cbn [to_indices]. unfold MATRIX_COLS, MATRIX_ROWS in *.
  rewrite (bump_run _ _ _ _ _ _ id _ Hr) by (unfold MATRIX_ROWS, MATRIX_COLS; lia).
  destruct (row_index_run _ _ _ r j i (starts l j i) Hr) as (r1 & Hrun & Hr1); [unfold MATRIX_ROWS, MATRIX_COLS; lia..|].
  rewrite (bind_run _ _ _ _ _ Hrun). rewrite run_assert by (apply Z.leb_le, below_byte_le).
  pose proof (with_byte_room j i l ltac:(lia) ltac:(lia)). unfold starts in *.
  pose proof (lengthZ_nonneg (below_byte j i l)). pose proof (lengthZ_nonneg (with_byte j i l)).
  rewrite Hg by lia. rewrite u32_small, <-below_byte_next by lia.
  destruct (IH (i + 1) r1 (upd g j i (lengthZ (below_byte j i l)))) as (r' & Hrun' & Hr'); [lia|lia| |done|].
  { intros c Hc. rewrite upd_ne by (right; lia). apply Hg. lia. }
  exists r'. split; [exact Hrun'|]. eapply radix_at_ext; [|exact Hr']. intros j' c Hj' Hc. cbv beta. unfold upd.
  repeat case_decide; try done; try (f_equal; f_equal; lia); try lia.
Qed.
Lemma all_indices_run l src dst r : lengthZ l < 2 ^ 32 → radix_at (counts l) src dst r →
  ∃ r', mfor (Z.to_nat rounds) 0 (λ j, to_indices (Z.to_nat MATRIX_COLS) (lengthZ l) j 0 0) r = Ret (tt, r') ∧
    radix_at (λ j c, if decide (j < rounds) then starts l j c else counts l j c) src dst r'.
Proof using Hrounds.
  intros Hl Hr. run_for (λ i, radix_at (λ j c, if decide (j < i) then starts l j c else counts l j c) src dst).
  - intros j t Hj Ht.
    edestruct (to_indices_run l src dst j (Z.to_nat MATRIX_COLS) 0 t) as (t' & Hrun & Ht'); [lia|done|lia|done| |exact Ht|].
    + intros c Hc. cbv beta. rewrite decide_False by lia. unfold counts. by rewrite decide_True by lia.
    + exists t'. split.
      * unfold starts in Hrun. rewrite below_byte_0 in Hrun. exact Hrun.
      * eapply radix_at_ext; [|exact Ht']. intros j' c Hj' Hc. cbv beta. repeat case_decide; try done; try lia.
        by replace j' with j by lia.
  - eapply radix_at_ext; [|exact Hr]. intros j c Hj Hc. cbv beta. by rewrite decide_False by lia.
  - destruct Hfor as (r' & Hrun & Hr'). exists r'. split; [exact Hrun|].
    eapply radix_at_ext; [|exact Hr']. intros j c Hj Hc. cbv beta.
    by replace (0 + Z.of_nat (Z.to_nat rounds)) with rounds by lia.
Qed.

(** ** A pass *)
(** The elements by byte, one class after the other, in the order they have. *)
Fixpoint buckets (n : nat) (j : Z) (l : list Z) : list Z :=
  match n with O => [] | S n' => buckets n' j l ++ with_byte j (Z.of_nat n') l end.
(** The elements of [pre] are where those of [l] go. *)
Definition placed (l pre d : list Z) (j : Z) : Prop :=
  ∀ c k u, 0 ≤ c < 256 → lookupZ (with_byte j c pre) k = Some u → lookupZ d (starts l j c + k) = Some u.

Lemma starts_next l j c : starts l j (c + 1) = starts l j c + lengthZ (with_byte j c l).
Proof using. apply below_byte_next. Qed.
Lemma lengthZ_buckets n j l : lengthZ (buckets n j l) = starts l j (Z.of_nat n).
Proof using.
  induction n as [|n IH]; [unfold starts; by rewrite below_byte_0|]. cbn [buckets].
  rewrite lengthZ_app, IH, <-starts_next. f_equal. lia.
Qed.
Lemma placed_buckets l d j : placed l l d j → lengthZ d = lengthZ l → d = buckets 256 j l.
Proof using.
  intros Hp Hd.
  assert (Hb : ∀ n i u, (n ≤ 256)%nat → lookupZ (buckets n j l) i = Some u → lookupZ d i = Some u).
  { induction n as [|n IH]; intros i u Hn; cbn [buckets]; [by rewrite lookupZ_nil|]. rewrite lookupZ_app.
    case_bool_decide; [apply IH; lia|]. intros Hu. rewrite lengthZ_buckets in Hu. apply Hp in Hu; [|lia].
    by replace (starts l j (Z.of_nat n) + (i - starts l j (Z.of_nat n))) with i in Hu by lia. }
  apply lookupZ_eq. intros i Hi.
  assert (HL : lengthZ (buckets 256 j l) = lengthZ l) by (rewrite lengthZ_buckets; unfold starts; by rewrite below_byte_all).
  destruct (decide (i < lengthZ l)).
  - destruct (proj2 (lookupZ_is_Some (buckets 256 j l) i)) as [u Hu]; [lia|]. rewrite Hu. by apply (Hb 256%nat).
  - by rewrite (proj2 (lookupZ_None d i)), (proj2 (lookupZ_None (buckets 256 j l) i)) by lia.
Qed.

Lemma placed_step l pre d j u post : l = pre ++ u :: post → lengthZ d = lengthZ l → placed l pre d j →
  let k := starts l j (byte_of u j) + lengthZ (with_byte j (byte_of u j) pre) in
  0 ≤ k < lengthZ l ∧ placed l (pre ++ [u]) (insertZ k u d) j.
Proof using.
  intros El Hd Hp k. pose proof (byte_of_range u j) as Hc. set (c := byte_of u j) in *.
  assert (Hcnt : lengthZ (with_byte j c pre) + 1 ≤ lengthZ (with_byte j c l)).
  { rewrite El. replace (pre ++ u :: post) with ((pre ++ [u]) ++ post) by (by rewrite <-app_assoc).
    etransitivity; [|apply filter_app_length]. change (filter (λ u, byte_of u j = c) ?x) with (with_byte j c x).
    rewrite with_byte_app, decide_True by done. rewrite lengthZ_app, lengthZ_cons, lengthZ_nil. lia. }
  pose proof (with_byte_room j c l ltac:(lia) ltac:(lia)). fold (starts l j c) in *.
  pose proof (lengthZ_nonneg (below_byte j c l)). pose proof (lengthZ_nonneg (with_byte j c pre)). unfold starts in *.
  split; [lia|]. intros c' k' v Hc'. rewrite with_byte_app. fold c.
  assert (Hold : lookupZ (with_byte j c' pre) k' = Some v → lookupZ (insertZ k u d) (lengthZ (below_byte j c' l) + k') = Some v).
  { intros Hv. rewrite lookupZ_insertZ_ne; [by apply Hp|]. pose proof (lookupZ_Some _ _ _ Hv) as Hk'.
    assert (lengthZ (with_byte j c' pre) ≤ lengthZ (with_byte j c' l)) by (rewrite El; apply filter_app_length).
    destruct (Z.lt_trichotomy c' c) as [Hlt|[->|Hgt]]; [|lia|].
    - pose proof (below_byte_mono j (c' + 1) c l ltac:(lia)) as Hm. rewrite below_byte_next in Hm. lia.
    - pose proof (below_byte_mono j (c + 1) c' l ltac:(lia)) as Hm. rewrite below_byte_next in Hm. lia. }
  case_decide as E; [subst c'|exact Hold]. rewrite lookupZ_app. case_bool_decide; [exact Hold|].
  intros Hv. pose proof (lookupZ_Some _ _ _ Hv) as Hk'. change (lengthZ [u]) with 1 in Hk'.
  assert (k' = lengthZ (with_byte j c pre)) as -> by lia. rewrite Z.sub_diag, lookupZ_cons_0 in Hv. simplify_eq.
  unfold starts. apply lookupZ_insertZ_eq. lia.
Qed.

Lemma pass_run l src dst j r g : 0 ≤ j < MATRIX_ROWS → lengthZ src < 2 ^ 32 → lengthZ dst = lengthZ src →
  (∀ c, 0 ≤ c < MATRIX_COLS → g j c = starts src j c) → radix_at g src dst r → l = lengthZ src →
  ∃ r' g', mfor (Z.to_nat l) 0 (scatter l j) r = Ret (tt, r') ∧ radix_at g' src (buckets 256 j src) r' ∧
    ∀ j' c, j' ≠ j → g' j' c = g j' c.
Proof using.
  intros Hj Hl Hd Hg Hr ->.
  run_for (λ i t, ∃ g' d, radix_at g' src d t ∧ lengthZ d = lengthZ src ∧ placed src (take (Z.to_nat i) src) d j ∧
    (∀ c, 0 ≤ c < MATRIX_COLS → g' j c = starts src j c + lengthZ (with_byte j c (take (Z.to_nat i) src))) ∧
    ∀ j' c, j' ≠ j → g' j' c = g j' c).
  - intros i t Hi (g' & d & Ht & Hdl & Hp & Hgj & Hgo).
    destruct (lookupZ src i) as [u|] eqn:Hu; [|apply lookupZ_None in Hu; unfold lengthZ in *; lia].
    assert (Hnext : take (Z.to_nat (i + 1)) src = take (Z.to_nat i) src ++ [u]).
    { replace (Z.to_nat (i + 1)) with (S (Z.to_nat i)) by lia. apply take_S_r.
      unfold lookupZ in Hu. by rewrite bool_decide_true in Hu by lia. }
    destruct (placed_step src (take (Z.to_nat i) src) d j u (drop (S (Z.to_nat i)) src)) as [Hk Hp']; [|done|done|].
    { symmetry. apply take_drop_middle. unfold lookupZ in Hu. by rewrite bool_decide_true in Hu by lia. }
    pose proof (byte_of_range u j) as Hc. unfold scatter. rewrite (bind_run _ _ _ _ _ (get_src_run _ _ _ _ _ _ Ht Hu)).
    rewrite (bump_run _ _ _ _ _ _ id _ Ht), Hgj by done. rewrite run_assert by (apply Z.ltb_lt; lia).
    destruct (set_dst_run _ _ _ t (starts src j (byte_of u j) + lengthZ (with_byte j (byte_of u j) (take (Z.to_nat i) src))) u Ht)
      as (t1 & Hrun1 & Ht1); [lia|].
    rewrite (bind_run _ _ _ _ _ Hrun1).
    destruct (row_index_run _ _ _ t1 j (byte_of u j)
      (u32 (starts src j (byte_of u j) + lengthZ (with_byte j (byte_of u j) (take (Z.to_nat i) src)) + 1)) Ht1) as (t2 & Hrun2 & Ht2);
      [done..|].
    exists t2. split; [exact Hrun2|]. eexists _, _. split; [exact Ht2|]. rewrite Hnext, lengthZ_insertZ.
    split_and!; [done|done| |].
    + intros c Hc'. rewrite with_byte_app. destruct (decide (byte_of u j = c)) as [<-|Hne].
      * rewrite upd_eq, lengthZ_app, lengthZ_cons, lengthZ_nil, u32_small by lia. lia.
      * rewrite upd_ne by auto. by apply Hgj.
    + intros j' c Hj'. rewrite upd_ne by auto. by apply Hgo.
  - exists g, dst. split_and!; [done|done| | |done].
    + intros c k u Hc. change (take (Z.to_nat 0) src) with (@nil Z). change (with_byte j c []) with (@nil Z). by rewrite lookupZ_nil.
    + intros c Hc. rewrite Hg by done. change (take (Z.to_nat 0) src) with (@nil Z). change (lengthZ (with_byte j c [])) with 0. lia.
  - destruct Hfor as (r' & Hrun & g' & d & Hr' & Hdl & Hp & _ & Hgo).
    rewrite take_ge in Hp by (unfold lengthZ; lia). apply placed_buckets in Hp as ->; [|done].
    by exists r', g'.
Qed.

(** ** A pass keeps the elements and what earlier passes sorted *)
Lemma lengthZ_Permutation {A} (l l' : list A) : l ≡ₚ l' → lengthZ l = lengthZ l'.
Proof using. intros H. unfold lengthZ. by rewrite (Permutation_length H). Qed.
Lemma starts_Permutation l l' j c : l ≡ₚ l' → starts l j c = starts l' j c.
Proof using. intros H. unfold starts, below_byte. apply lengthZ_Permutation. by rewrite H. Qed.
Lemma below_byte_split j c l : below_byte j c l ++ with_byte j c l ≡ₚ below_byte j (c + 1) l.
Proof using.
  unfold below_byte, with_byte. induction l as [|u l IH]; [done|]. rewrite !list.filter_cons.
  destruct (decide (byte_of u j < c)), (decide (byte_of u j = c)), (decide (byte_of u j < c + 1)); try lia; [|by rewrite <-Permutation_middle, IH|done].
  cbn. by rewrite IH.
Qed.
Lemma buckets_below n j l : buckets n j l ≡ₚ below_byte j (Z.of_nat n) l.
Proof using.
  induction n as [|n IH]; [by rewrite below_byte_0|]. cbn [buckets]. rewrite IH, below_byte_split.
  by replace (Z.of_nat n + 1) with (Z.of_nat (S n)) by lia.
Qed.
Lemma buckets_Permutation j l : buckets 256 j l ≡ₚ l.
Proof using. by rewrite buckets_below, below_byte_all. Qed.

(** The order on the [j] low bytes. *)
Definition low_le (j x y : Z) : Prop := x `mod` 256 ^ j ≤ y `mod` 256 ^ j.
Lemma low_next j x : 0 ≤ j → x `mod` 256 ^ (j + 1) = x `mod` 256 ^ j + 256 ^ j * byte_of x j.
Proof using. intros Hj. rewrite Z.pow_add_r by lia. rewrite Z.rem_mul_r by lia. done. Qed.
Lemma StronglySorted_filter {A} (R : relation A) (P : A → Prop) `{!∀ x, Decision (P x)} l :
  StronglySorted R l → StronglySorted R (filter P l).
Proof using.
  induction 1 as [|x l Hl IH Hx]; [constructor|]. rewrite list.filter_cons. case_decide; [|done].
  constructor; [done|]. rewrite list.Forall_forall in *. intros y [_ Hy]%list_elem_of_filter. by apply Hx.
Qed.
Lemma StronglySorted_impl_elem {A} (R R' : relation A) l :
  (∀ x y, x ∈ l → y ∈ l → R x y → R' x y) → StronglySorted R l → StronglySorted R' l.
Proof using.
  clear Hrounds rounds. intros H. induction 1 as [|x l Hl IH Hx]; constructor; [apply IH; set_solver|].
  rewrite list.Forall_forall in *. intros y Hy. apply H; [set_solver..|by apply Hx].
Qed.
Lemma with_byte_elem j c l x : x ∈ with_byte j c l → byte_of x j = c.
Proof using. unfold with_byte. by intros [? _]%list_elem_of_filter. Qed.
Lemma buckets_sorted n j l : 0 ≤ j → StronglySorted (low_le j) l → StronglySorted (low_le (j + 1)) (buckets n j l).
Proof using.
  clear Hrounds rounds. intros Hj Hl. induction n as [|n IH]; [constructor|]. cbn [buckets]. apply StronglySorted_app_2; [|done|].
  - intros x y Hx Hy. rewrite buckets_below in Hx. apply with_byte_elem in Hy.
    unfold below_byte in Hx. apply list_elem_of_filter in Hx as [Hx _].
    unfold low_le. rewrite !low_next by done. pose proof (Z.mod_pos_bound x (256 ^ j) ltac:(lia)).
    pose proof (Z.mod_pos_bound y (256 ^ j) ltac:(lia)). nia.
  - eapply StronglySorted_impl_elem; [|by apply (StronglySorted_filter _ (λ u, byte_of u j = Z.of_nat n))].
    intros x y Hx%with_byte_elem Hy%with_byte_elem Hxy. unfold low_le in *. rewrite !low_next by done. nia.
Qed.

Lemma passes_run l src dst r : lengthZ src < 2 ^ 32 → lengthZ dst = lengthZ src → l = lengthZ src →
  radix_at (λ j c, if decide (j < rounds) then starts src j c else counts src j c) src dst r →
  ∃ r', mfor (Z.to_nat rounds) 0 (λ j, mfor (Z.to_nat l) 0 (scatter l j);; swap_buffers) r = Ret (tt, r') ∧
    rx_src r' ≡ₚ src ∧ StronglySorted (low_le rounds) (rx_src r').
Proof using Hrounds.
  intros Hl Hd -> Hr.
  run_for (λ i t, ∃ g s d, radix_at g s d t ∧ lengthZ d = lengthZ s ∧ s ≡ₚ src ∧ StronglySorted (low_le i) s ∧
    ∀ j c, i ≤ j < rounds → g j c = starts src j c).
  - intros j t Hj (g & s & d & Ht & Hds & Hs & Hsort & Hg). pose proof (lengthZ_Permutation _ _ Hs) as Hsl.
    destruct (pass_run (lengthZ src) s d j t g) as (t' & g' & Hrun & Ht' & Hgo); [lia|lia|done| |done|done|].
    { intros c Hc. rewrite Hg by lia. by apply starts_Permutation. }
    rewrite (bind_run _ _ _ _ _ Hrun). eexists. split; [done|].
    exists g', (buckets 256 j s), s. destruct Ht' as [Hm <- Hdst]. split_and!.
    + split; [done|exact Hdst|done].
    + symmetry. apply lengthZ_Permutation, buckets_Permutation.
    + by rewrite buckets_Permutation.
    + apply buckets_sorted; [lia|done].
    + intros j' c Hj'. rewrite Hgo by lia. apply Hg. lia.
  - exists (λ j c, if decide (j < rounds) then starts src j c else counts src j c), src, dst.
    split_and!; [done..| |].
    + clear. induction src as [|x src IH]; constructor; [done|]. apply list.Forall_forall. intros y _. unfold low_le.
      by rewrite !Z.mod_1_r.
    + intros j c Hj. by rewrite decide_True by lia.
  - destruct Hfor as (r' & Hrun & g & s & d & Hr' & _ & Hs & Hsort & _). exists r'. split; [exact Hrun|].
    rewrite (ra_src _ _ _ _ Hr'). by replace (0 + Z.of_nat (Z.to_nat rounds)) with rounds in Hsort by lia.
Qed.
End sort.

Lemma check_zero_run g src dst r : radix_at g src dst r → (∀ j c, g j c = 0) → check_zero r = Ret (tt, r).
Proof.
  intros Hr Hg. unfold check_zero. run_for (λ _ : Z, eq r).
  - intros i t Hi <-. exists r. split; [|done]. run_for (λ _ : Z, eq r).
    + intros j t Hj <-. exists r. split; [|done].
      rewrite (bump_run _ _ _ _ _ _ id _ Hr), Hg by (unfold MATRIX_ROWS, MATRIX_COLS in *; lia). done.
    + done.
    + by destruct Hfor as (r' & -> & <-).
  - done.
  - by destruct Hfor as (r' & -> & <-).
Qed.
Lemma zero_matrix_is src dst : radix_at (λ _ _, 0) src dst (mk_radix zero_matrix src dst).
Proof.
  split; [|done|done]. intros j Hj. exists (replicate (Z.to_nat MATRIX_COLS) 0). split_and!.
  - apply lookupZ_replicate_lt. unfold MATRIX_ROWS in *. lia.
  - rewrite lengthZ_replicate. done.
  - intros c Hc. apply lookupZ_replicate_lt. unfold MATRIX_COLS in *. lia.
Qed.

Lemma RadixSort_run data temp fp_size : 0 ≤ fp_size ≤ 32 → lengthZ data < 2 ^ 32 → lengthZ temp = lengthZ data →
  Forall (λ u, 0 ≤ u < 2 ^ fp_size) data →
  ∃ l, RadixSort data zero_matrix temp fp_size = Ret l ∧ l ≡ₚ data ∧ StronglySorted Z.le l.
Proof.
  intros Hfp Hl Ht Hd. unfold RadixSort, radix_sort. set (fs := if fp_size =? 0 then 1 else fp_size).
  assert (Hfs : 1 ≤ fs ≤ 32 ∧ fp_size ≤ fs) by (unfold fs; destruct (Z.eqb_spec fp_size 0); lia).
  rewrite u32_small by lia. pose proof (Z.div_mod (fs + 7) 8 ltac:(lia)). pose proof (Z.mod_pos_bound (fs + 7) 8 ltac:(lia)).
  remember ((fs + 7) / 8) as rounds eqn:Er. clear Er.
  assert (Hr : 0 ≤ rounds ≤ MATRIX_ROWS) by (unfold MATRIX_ROWS; lia).
  assert (Hbound : Forall (λ u, 0 ≤ u < 2 ^ (8 * rounds)) data).
  { eapply list.Forall_impl; [exact Hd|]. cbn. intros u Hu. pose proof (Z.pow_le_mono_r 2 fp_size (8 * rounds) ltac:(lia) ltac:(lia)). lia. }
  pose proof (zero_matrix_is data temp) as Hz.
  rewrite run_assert by (apply Z.leb_le; unfold MATRIX_ROWS in *; lia).
  rewrite (bind_run _ _ _ _ _ (check_zero_run _ _ _ _ Hz ltac:(done))).
  rewrite (bind_run _ _ _ _ _ (eq_refl : mread (λ r, lengthZ (rx_src r)) (mk_radix zero_matrix data temp) = Ret (lengthZ data, _))).
  destruct (histograms_run rounds Hr data temp (mk_radix zero_matrix data temp)) as (r1 & Hrun1 & Hr1); [done| | |].
  { eapply list.Forall_impl; [exact Hbound|]. cbn. lia. }
  { eapply radix_at_ext; [|exact Hz]. intros j c _ _. unfold counts. by case_decide. }
  rewrite (bind_run _ _ _ _ _ Hrun1).
  destruct (all_indices_run rounds Hr data data temp r1) as (r2 & Hrun2 & Hr2); [done|done|].
  rewrite (bind_run _ _ _ _ _ Hrun2).
  destruct (passes_run rounds Hr (lengthZ data) data temp r2) as (r3 & Hrun3 & Hp & Hs); [done..|].
  rewrite (bind_run _ _ _ _ _ Hrun3). cbn. eexists. split_and!; [done|done|].
  eapply StronglySorted_impl_elem; [|exact Hs]. intros x y Hx Hy. rewrite Hp in Hx, Hy.
  rewrite list.Forall_forall in Hbound. apply Hbound in Hx, Hy.
  unfold low_le. change 256 with (2 ^ 8). rewrite <-Z.pow_mul_r by lia. rewrite !Z.mod_small by lia. done.
Qed.
