(* ===== verification/RoutingFilter.v ===== *)
(** * Routing filters

    routing_filter.c and routing_filter.h: a filter of fingerprints that maps a key to
    a set of values, on pages.  An index has the address of a block for each run of
    [index_size] buckets; a block is the number of its fingerprints, the bucket of
    each in unary, and the remainders and values in a packed array.

    Pages are byte arrays by address.  The pages an add may use are those whose
    addresses the mini allocator will hand out, with whatever they held before. *)
From S2P Require Import Prelude Bytes PackedArray.

Definition MAX_FILTERS : Z := 32.
Definition ROUTING_NOT_FOUND : Z := UINT16_MAX.
Definition FILTER_META_SHIFT : Z := 56.
Definition FILTER_ADDR_MASK : Z := 2 ^ FILTER_META_SHIFT - 1.
Definition FILTER_ADDR (entry : Z) : Z := Z.land entry FILTER_ADDR_MASK.
Definition ROUTING_FPS_PER_PAGE : Z := 4096.
Definition SIZEOF_ROUTING_HDR : Z := 2.

(** ** The metadata byte of an index entry *)
Definition FILTER_META_SPECIAL : Z := 128.
Definition FILTER_META_CNT_MASK : Z := 127.
Definition filter_meta_load (entry : Z) : Z := u8 (Z.shiftr entry FILTER_META_SHIFT).
Definition filter_meta_is_special (entry : Z) : bool := negb (Z.land (filter_meta_load entry) FILTER_META_SPECIAL =? 0).
Definition filter_meta_cnt (entry : Z) : Z := Z.land (filter_meta_load entry) FILTER_META_CNT_MASK.
(** The atomic updates: what the exchange that succeeds writes for what it read. *)
Definition filter_meta_mark_special (old_val : Z) : Z := Z.lor old_val (Z.shiftl FILTER_META_SPECIAL FILTER_META_SHIFT).
Definition filter_meta_clear_special (old_val : Z) : Z := Z.land old_val (u64 (Z.lnot (Z.shiftl FILTER_META_SPECIAL FILTER_META_SHIFT))).
Definition filter_meta_set_count (old_val count : Z) : Z :=
  let count := if FILTER_META_CNT_MASK <? count then FILTER_META_CNT_MASK else count in
  let new_meta := Z.lor (Z.land (filter_meta_load old_val) FILTER_META_SPECIAL) count in
  Z.lor (Z.land old_val FILTER_ADDR_MASK) (Z.shiftl new_meta FILTER_META_SHIFT).
Definition filter_meta_cnt_inc (old_val : Z) : Z :=
  let meta := filter_meta_load old_val in
  if negb (Z.land meta FILTER_META_SPECIAL =? 0) then old_val
  else
    let cnt := Z.land meta FILTER_META_CNT_MASK in
    let new_meta :=
      if cnt =? FILTER_META_CNT_MASK then FILTER_META_SPECIAL
      else Z.lor (Z.land meta FILTER_META_SPECIAL) (u8 (cnt + 1)) in
    Z.lor (Z.land old_val FILTER_ADDR_MASK) (Z.shiftl new_meta FILTER_META_SHIFT).

(** The sizes are those of the cache configuration. *)
Record routing_config := mk_routing_config {
  rc_page_size : Z;
  rc_extent_size : Z;
  rc_fingerprint_size : Z;
  rc_index_size : Z;
  rc_log_index_size : Z;
  rc_hash : list Z → Z → Z;
  rc_seed : Z;
}.
Definition routing_config_init (page_size extent_size fingerprint_size log_index_size : Z)
    (hash : list Z → Z → Z) (seed : Z) : routing_config :=
  mk_routing_config page_size extent_size fingerprint_size (u32 (2 ^ log_index_size)) log_index_size hash seed.

Record routing_filter := mk_routing_filter {
  rf_addr : Z;
  rf_meta_head : Z;
  rf_num_fingerprints : Z;
  rf_num_unique : Z;
  rf_value_size : Z;
}.
Definition NULL_ROUTING_FILTER : routing_filter := mk_routing_filter 0 0 0 0 0.
Definition routing_filters_equal (f1 f2 : routing_filter) : bool := rf_addr f1 =? rf_addr f2.

(** The pages, the extent for the metadata and the pages the allocators have next. *)
Record filter_store := mk_filter_store { fs_pages : gmap Z (list Z); fs_meta : option Z; fs_next : list Z }.

(** ** Found values *)
(** [1 << value] is a shift of an int, undefined from 32 on; with 31 the mask of the
    second function overflows. *)
Definition routing_filter_is_value_found (found_values value : Z) : option bool :=
  if value <? 32 then Some (negb (Z.land found_values (u64 (i32 (2 ^ value))) =? 0)) else None.
Definition routing_filter_get_next_value (found_values last_value : Z) : option Z :=
  found_values ←
    (if negb (last_value =? ROUTING_NOT_FOUND)
     then if last_value <? 31 then Some (Z.land found_values (2 ^ last_value - 1)) else None
     else Some found_values);
  Some (if found_values =? 0 then ROUTING_NOT_FOUND else Z.log2 found_values).
(** The loop of the callers: [for (idx = next(found, NOT_FOUND); idx != NOT_FOUND; idx = next(found, idx))]. *)
Fixpoint found_values_from (fuel : nat) (found_values last_value : Z) : option (list Z) :=
  match fuel with
  | O => None
  | S fuel' =>
      idx ← routing_filter_get_next_value found_values last_value;
      if idx =? ROUTING_NOT_FOUND then Some []
      else l ← found_values_from fuel' found_values idx; Some (idx :: l)
  end.

(** ** Fields of a fingerprint *)
Definition routing_get_bucket (fp remainder_and_value_size : Z) : Z := Z.shiftr fp remainder_and_value_size.
Definition routing_get_index (fp index_remainder_and_value_size : Z) : Z :=
  if index_remainder_and_value_size =? 32 then 0 else Z.shiftr fp index_remainder_and_value_size.
(** The buffer is an array of 64-bit words. *)
Definition routing_unset_bit (data : list Z) (bitnum : Z) : option (list Z) :=
  w ← get_le 8 data (8 * (bitnum / 64));
  put_le 8 data (8 * (bitnum / 64)) (Z.land w (u64 (Z.lnot (2 ^ (bitnum `mod` 64))))).

(** [31 - clz(n)], at least the size of an index. *)
Definition log_num_buckets (cfg : routing_config) (num_fingerprints : Z) : Z :=
  let l := Z.log2 num_fingerprints in
  if l <? rc_log_index_size cfg then rc_log_index_size cfg else l.
Definition addrs_per_page (cfg : routing_config) : Z := rc_page_size cfg / 8.

Section read.
Context (cfg : routing_config).

(** The page of the block's header and its place there. *)
Definition routing_get_header (pages : gmap Z (list Z)) (filter_addr index : Z) : outcome (list Z * Z) :=
  let index_addr := filter_addr + rc_page_size cfg * (index / addrs_per_page cfg) in
  match pages !! index_addr ≫= λ p, get_le 8 p (8 * (index `mod` addrs_per_page cfg)) with
  | None => Undef
  | Some raw_entry =>
      let hdr_raw_addr := FILTER_ADDR raw_entry in
      if hdr_raw_addr =? 0 then Assert else
      let header_addr := hdr_raw_addr - hdr_raw_addr `mod` rc_page_size cfg in
      match pages !! header_addr with
      | None => Undef
      | Some p => Ret (p, hdr_raw_addr - header_addr)
      end
  end.
Definition encoding_size (num_remainders : Z) : Z := (num_remainders + rc_index_size cfg - 1) / 8 + 4.
Definition routing_header_length (num_remainders : Z) : Z := encoding_size num_remainders + SIZEOF_ROUTING_HDR.

(** ** Parsing the bucket encoding *)
Definition encoding_word (p : list Z) (encoding word : Z) : option Z := get_le 4 p (encoding + 4 * word).
(** [while (encoding_word == 0) encoding_word = next word] *)
Fixpoint skip_zero_words (fuel : nat) (p : list Z) (encoding word w : Z) : option (Z * Z) :=
  match fuel with
  | O => None
  | S fuel' =>
      if w =? 0 then w ← encoding_word p encoding (word + 1); skip_zero_words fuel' p encoding (word + 1) w
      else Some (word, w)
  end.
Fixpoint skip_buckets (fuel : nat) (p : list Z) (encoding len bucket_offset word bucket bucket_pop : Z) : option (Z * Z) :=
  match fuel with
  | O => None
  | S fuel' =>
      if (4 * word <? len) && (bucket + bucket_pop <? bucket_offset) then
        w ← encoding_word p encoding (word + 1);
        skip_buckets fuel' p encoding len bucket_offset (word + 1) (bucket + bucket_pop) (popcount w)
      else Some (word, bucket)
  end.
(** [n] times [w &= w - 1] *)
Fixpoint clear_lowest (n : nat) (w : Z) : Z :=
  match n with O => w | S n' => clear_lowest n' (Z.land w (u32 (w - 1))) end.
Definition routing_get_bucket_bounds (fuel : nat) (p : list Z) (encoding len bucket_offset : Z) : option (Z * Z) :=
  w ← encoding_word p encoding 0;
  if bucket_offset =? 0 then
    '(word, w) ← skip_zero_words fuel p encoding 0 w;
    Some (0, 32 * word + (ffs w - 1))
  else
    '(word, bucket) ← skip_buckets fuel p encoding len bucket_offset 0 0 (popcount w);
    w ← encoding_word p encoding word;
    let w := clear_lowest (Z.to_nat (bucket_offset - 1 - bucket)) w in
    let start := 32 * word + (ffs w - 1) - bucket_offset + 1 in
    let w := Z.land w (u32 (w - 1)) in
    '(word, w) ← skip_zero_words fuel p encoding word w;
    Some (start, 32 * word + (ffs w - 1) - bucket_offset).

(** The count of a bucket: words of 64 bits, [word] is the index of the current one. *)
Fixpoint count_bucket (fuel : nat) (p : list Z) (encoding word w start count : Z) : option (Z * Z * Z * Z) :=
  match fuel with
  | O => None
  | S fuel' =>
      if w =? 0 then
        w ← get_le 8 p (encoding + 8 * (word + 1));
        count_bucket fuel' p encoding (word + 1) w 0 (u32 (count + (64 - start)))
      else
        let last := ffs w - 1 in
        Some (word, Z.land w (u64 (w - 1)), last + 1, u32 (count + (last - start)))
  end.
Fixpoint bucket_counts_loop (n : nat) (fuel : nat) (p : list Z) (encoding word w start : Z) : option (list Z) :=
  match n with
  | O => Some []
  | S n' =>
      '(word, w, start, count) ← count_bucket fuel p encoding word w start 0;
      counts ← bucket_counts_loop n' fuel p encoding word w start;
      Some (count :: counts)
  end.
Definition routing_get_bucket_counts (fuel : nat) (p : list Z) (encoding : Z) : option (list Z) :=
  w ← get_le 8 p encoding;
  bucket_counts_loop (Z.to_nat (rc_index_size cfg)) fuel p encoding 0 w 0.

(** ** Lookup *)
(** The scan of a bucket from its end; a value of 64 or more is a failed assertion. *)
Fixpoint lookup_loop (n : nat) (p : list Z) (block pos value_size remainder_size remainder found_values : Z) : outcome Z :=
  match n with
  | O => Ret found_values
  | S n' =>
      match PackedArray_get p block (pos - 1) (remainder_size + value_size) with
      | None => Undef
      | Some found =>
          if Z.shiftr found value_size =? remainder then
            let found_value := u16 (Z.land found (2 ^ value_size - 1)) in
            if found_value <? 64
            then lookup_loop n' p block (pos - 1) value_size remainder_size remainder
                   (Z.lor found_values (Z.shiftl 1 found_value))
            else Assert
          else lookup_loop n' p block (pos - 1) value_size remainder_size remainder found_values
      end
  end.
(** From the fingerprint on; [hash] of the key is the caller's argument below. *)
Definition lookup_fingerprint (pages : gmap Z (list Z)) (f : routing_filter) (fp : Z) : outcome Z :=
  let value_size := rf_value_size f in
  let remainder_size := u32 (rc_fingerprint_size cfg - log_num_buckets cfg (rf_num_fingerprints f)) in
  let remainder_and_value_size := remainder_size + value_size in
  let bucket := routing_get_bucket (u32 (Z.shiftl fp value_size)) remainder_and_value_size in
  let bucket_off := bucket `mod` rc_index_size cfg in
  let index := routing_get_index (u32 (Z.shiftl fp value_size)) (remainder_and_value_size + rc_log_index_size cfg) in
  let remainder := Z.land fp (2 ^ remainder_size - 1) in
  match routing_get_header pages (rf_addr f) index with
  | Ret (p, hdr) =>
      match get_le 2 p hdr with
      | None => Undef
      | Some num_remainders =>
          let header_length := routing_header_length num_remainders in
          match routing_get_bucket_bounds (length p) p (hdr + SIZEOF_ROUTING_HDR) header_length bucket_off with
          | None => Undef
          | Some (first, last) =>
              if first =? last then Ret 0
              else lookup_loop (Z.to_nat (last - first)) p (hdr + header_length) last value_size remainder_size remainder 0
          end
      end
  | Assert => Assert | Undef => Undef | Block => Block | Fuel => Fuel
  end.
Definition routing_filter_lookup (pages : gmap Z (list Z)) (f : routing_filter) (target : list Z) : outcome (platform_status * Z) :=
  if rf_addr f =? 0 then Ret (STATUS_OK, 0)
  else if rf_num_fingerprints f =? 0 then Undef
  else
    let fp := u32 (rc_hash cfg target (rc_seed cfg)) in
    match lookup_fingerprint pages f (Z.shiftr fp (32 - rc_fingerprint_size cfg)) with
    | Ret found => Ret (STATUS_OK, found)
    | Assert => Assert | Undef => Undef | Block => Block | Fuel => Fuel
    end.
End read.
