(* ===== verification/RoutingAdd.v ===== *)
(** * Adding to a filter

    routing_filter_add (routing_filter.c): a new filter with the entries of an old one
    and new fingerprints.  The old index is read, its fingerprints are put together
    again from buckets and remainders, merged with the new ones and written as one
    or more indices of the new filter.

    The store gives the pages of the allocators in the order they come.  The clock a
    page inherits, the locks of the pages and the prefetch change no contents. *)
From S2P Require Import Prelude Bytes PackedArray RadixSort RoutingFilter.

Definition pages_per_extent (cfg : routing_config) : Z := rc_extent_size cfg / rc_page_size cfg.
(** [(n * rv - 1) / 8 + 4], computed in 64 bits and kept in 32. *)
Definition remainder_block_size (n rv : Z) : Z := u32 (u64 (n * rv - 1) / 8 + 4).

(** The cursor is the page [as_addr], the offset in it and the bytes left. *)
Record add_state := mk_add_state {
  as_pages : gmap Z (list Z);
  as_next : list Z;
  as_addr : Z;
  as_cursor : Z;
  as_remaining : Z;
  as_encoding : list Z;
  as_old_src : list Z;
  as_fp_no : Z;
  as_num_unique : Z;
}.
Definition with_pages (ps : gmap Z (list Z)) (a : add_state) : add_state :=
  mk_add_state ps (as_next a) (as_addr a) (as_cursor a) (as_remaining a) (as_encoding a) (as_old_src a) (as_fp_no a) (as_num_unique a).
Definition with_cursor (addr cursor remaining : Z) (a : add_state) : add_state :=
  mk_add_state (as_pages a) (as_next a) addr cursor remaining (as_encoding a) (as_old_src a) (as_fp_no a) (as_num_unique a).
Definition with_encoding (e : list Z) (a : add_state) : add_state :=
  mk_add_state (as_pages a) (as_next a) (as_addr a) (as_cursor a) (as_remaining a) e (as_old_src a) (as_fp_no a) (as_num_unique a).
Definition with_old_src (l : list Z) (a : add_state) : add_state :=
  mk_add_state (as_pages a) (as_next a) (as_addr a) (as_cursor a) (as_remaining a) (as_encoding a) l (as_fp_no a) (as_num_unique a).
Definition with_merged (encoding : list Z) (num_unique : Z) (a : add_state) : add_state :=
  mk_add_state (as_pages a) (as_next a) (as_addr a) (as_cursor a) (as_remaining a) encoding (as_old_src a) (as_fp_no a) num_unique.
Definition with_fp_no (n : Z) (a : add_state) : add_state :=
  mk_add_state (as_pages a) (as_next a) (as_addr a) (as_cursor a) (as_remaining a) (as_encoding a) (as_old_src a) n (as_num_unique a).

(** The outcome of a pure function in a stateful one. *)
Definition mlift {S A} (o : outcome A) : M S A :=
  λ s, match o with Ret a => Ret (a, s) | Assert => Assert | Undef => Undef | Block => Block | Fuel => Fuel end.

(** [mini_alloc] and [cache_alloc]: without a page the allocator asserts. *)
Definition next_page : M add_state Z :=
  a ← mget;
  match as_next a with
  | [] => mlift Assert
  | addr :: next =>
      _ ← mopt (as_pages a !! addr);
      mput (mk_add_state (as_pages a) next (as_addr a) (as_cursor a) (as_remaining a) (as_encoding a) (as_old_src a)
        (as_fp_no a) (as_num_unique a));;
      mret addr
  end.
(** An index out of range. *)
Definition massert_defined {S} (b : bool) : M S unit := if b then mret tt else mlift Undef.
Definition get_page (addr : Z) : M add_state (list Z) := a ← mget; mopt (as_pages a !! addr).
Definition set_page (addr : Z) (p : list Z) : M add_state unit := mmod (λ a, with_pages (<[addr := p]> (as_pages a)) a).

(** ** The new fingerprints *)
(** The duplicates of the last one kept are dropped. *)
Fixpoint unique_fps (last : option Z) (fps : list Z) : list Z :=
  match fps with
  | [] => []
  | fp :: fps' => if bool_decide (last = Some fp) then unique_fps last fps' else fp :: unique_fps (Some fp) fps'
  end.
(** How many of the first fingerprints have index [index_no]. *)
Fixpoint count_index (irv index_no : Z) (fps : list Z) : Z :=
  match fps with
  | [] => 0
  | fp :: fps' => if routing_get_index fp irv =? index_no then 1 + count_index irv index_no fps' else 0
  end.
Fixpoint index_counts (n : nat) (irv index_no : Z) (fps : list Z) : list Z :=
  match n with
  | O => []
  | S n' =>
      let k := count_index irv index_no fps in
      k :: index_counts n' irv (index_no + 1) (drop (Z.to_nat k) fps)
  end.

Section add.
Context (cfg : routing_config).

(** ** The old fingerprints *)
(** The bucket is put above the remainders of its count. *)
Fixpoint or_buckets (old_rv bucket : Z) (counts src : list Z) : option (list Z) :=
  match counts with
  | [] => Some src
  | c :: counts' =>
      if c <=? lengthZ src then
        rest ← or_buckets old_rv (u32 (bucket + 1)) counts' (drop (Z.to_nat c) src);
        Some (((λ x, Z.lor x (u32 (Z.shiftl bucket old_rv))) <$> take (Z.to_nat c) src) ++ rest)
      else None
  end.
(** The room a wider value needs. *)
Definition rescale (old_value_size value_size x : Z) : Z :=
  let old_value := Z.land x (2 ^ old_value_size - 1) in
  Z.lor (u32 (Z.shiftl (x - old_value) (value_size - old_value_size))) old_value.
(** The fingerprints of an old index, at the start of [old_src]; how many. *)
Definition read_old_index (old_filter : routing_filter) (old_rv value_size old_index_no : Z) : M add_state Z :=
  if rf_addr old_filter =? 0 then mret 0 else
  a ← mget;
  '(p, old_hdr) ← mlift (routing_get_header cfg (as_pages a) (rf_addr old_filter) old_index_no);
  num ← mopt (get_le 2 p old_hdr);
  let header_length := u16 (routing_header_length cfg num) in
  counts ← mopt (routing_get_bucket_counts cfg (length p) p (old_hdr + SIZEOF_ROUTING_HDR));
  if num =? 0 then mret 0 else
  massert (num <=? ROUTING_FPS_PER_PAGE);;
  src ← mopt (PackedArray_unpack p (old_hdr + header_length) 0 (as_old_src a) num old_rv);
  src ← mopt (or_buckets old_rv (u32 (old_index_no * rc_index_size cfg)) counts src);
  src ←
    (if negb (rf_value_size old_filter =? value_size) then
       if value_size <? rf_value_size old_filter then mopt None
       else mret ((rescale (rf_value_size old_filter) value_size <$> take (Z.to_nat num) src) ++ drop (Z.to_nat num) src)
     else mret src);
  mmod (with_old_src src);;
  mret num.

(** ** The merge into one index *)
Record merge_state := mk_merge_state {
  mg_old : Z;
  mg_new : Z;
  mg_last_bucket : Z;
  mg_header_bit : Z;
  mg_encoding : list Z;
  mg_dst : list Z;
  mg_num_unique : Z;
  mg_last_fp : Z;
}.
Section merge.
Context (value_size rv : Z).
Context (old_src fp_arr : list Z) (fp_no old_index_count new_index_count end_bucket : Z).

(** Whether the next one is an old one, and the next one. *)
Definition next_fp (m : merge_state) : option (bool * Z) :=
  is_old ←
    (if mg_new m =? new_index_count then Some true
     else if mg_old m =? old_index_count then Some false
     else o ← lookupZ old_src (mg_old m); n ← lookupZ fp_arr (fp_no + mg_new m); Some (o <=? n));
  fp ← (if is_old : bool then lookupZ old_src (mg_old m) else lookupZ fp_arr (fp_no + mg_new m));
  Some (is_old, fp).
(** An iteration; [false] when it breaks.  [dst_fp] has room for as many entries as the
    encoding has bits, and a bit is unset first. *)
Definition merge_iteration : M merge_state bool :=
  m ← mget;
  '(is_old, fp) ← mopt (next_fp m);
  let old := if is_old : bool then mg_old m + 1 else mg_old m in
  let new := if is_old then mg_new m else mg_new m + 1 in
  let num_unique :=
    if negb (Z.shiftr (mg_last_fp m) value_size =? Z.shiftr fp value_size)
    then u32 (mg_num_unique m + 1) else mg_num_unique m in
  let bucket := routing_get_bucket fp rv in
  if end_bucket <=? bucket then
    mput (mk_merge_state (u32 (old - 1)) new (mg_last_bucket m) (mg_header_bit m) (mg_encoding m) (mg_dst m) num_unique (mg_last_fp m));;
    mret false
  else
    let header_bit := u64 (mg_header_bit m + u32 (bucket - mg_last_bucket m)) in
    encoding ← mopt (routing_unset_bit (mg_encoding m) header_bit);
    mput (mk_merge_state old new bucket (header_bit + 1) encoding
      (mg_dst m ++ [Z.land fp (u32 (2 ^ rv - 1))]) num_unique fp);;
    mret true.
Fixpoint merge_loop (n : nat) : M merge_state unit :=
  match n with
  | O => mfuel
  | S n' =>
      m ← mget;
      if (mg_new m <? new_index_count) || (mg_old m <? old_index_count) then
        continue ← merge_iteration;
        if continue : bool then merge_loop n' else mret tt
      else mret tt
  end.
End merge.

(** ** The block of an index *)
Definition header_size (n : Z) : Z := u32 (routing_header_length cfg n).
(** Its bytes: the header with its part of the encoding buffer, the remainders. *)
Definition fill_block (rv : Z) (p encoding : list Z) (cursor : Z) (dst : list Z) : option (list Z) :=
  let fps_added := lengthZ dst in
  p ← put_le 2 p cursor (u16 fps_added);
  bits ← mem_read encoding 0 (encoding_size cfg fps_added);
  p ← mem_write p (cursor + SIZEOF_ROUTING_HDR) bits;
  if negb (fps_added =? 0) then PackedArray_pack p (cursor + header_size fps_added) 0 dst rv else Some p.
(** [index_addr] is the address of the new filter. *)
Definition write_block (index_addr rv index_no : Z) (dst : list Z) : M add_state unit :=
  let fps_added := lengthZ dst in
  let block_size := u32 (header_size fps_added + remainder_block_size fps_added rv) in
  a ← mget;
  mwhen (as_remaining a <? block_size) (addr ← next_page; mmod (with_cursor addr 0 (rc_page_size cfg)));;
  a ← mget;
  let index_page_no := index_no / addrs_per_page cfg in
  massert_defined (index_page_no <? pages_per_extent cfg);;
  ip ← get_page (index_addr + rc_page_size cfg * index_page_no);
  ip ← mopt (put_le 8 ip (8 * (index_no `mod` addrs_per_page cfg)) (as_addr a + as_cursor a));
  set_page (index_addr + rc_page_size cfg * index_page_no) ip;;
  p ← get_page (as_addr a);
  p ← mopt (fill_block rv p (as_encoding a) (as_cursor a) dst);
  set_page (as_addr a) p;;
  encoding ← mopt (mem_write (as_encoding a) 0 (replicate (Z.to_nat (encoding_size cfg fps_added)) 255));
  mmod (with_encoding encoding);;
  mmod (with_cursor (as_addr a) (as_cursor a + header_size fps_added + remainder_block_size fps_added rv)
    (u64 (as_remaining a - block_size))).

Section indices.
Context (index_addr value_size rv : Z) (fp_arr index_count : list Z).
(** One index of the new filter; the result is [old_fps_added]. *)
Definition add_index (old_index_count index_no old_fps_added : Z) : M add_state Z :=
  new_index_count ← mopt (lookupZ index_count index_no);
  a ← mget;
  let m := mk_merge_state old_fps_added 0 (u32 (index_no * rc_index_size cfg)) 0 (as_encoding a) [] (as_num_unique a) UINT32_MAX in
  '(_, m) ← mlift (merge_loop value_size rv (as_old_src a) fp_arr (as_fp_no a) old_index_count new_index_count
    (u32 ((index_no + 1) * rc_index_size cfg)) (S (Z.to_nat new_index_count + Z.to_nat old_index_count)) m);
  mmod (with_merged (mg_encoding m) (mg_num_unique m));;
  write_block index_addr rv index_no (mg_dst m);;
  mmod (λ a, with_fp_no (u32 (as_fp_no a + new_index_count)) a);;
  mret (mg_old m).
Fixpoint add_indices (n : nat) (old_index_count index_no old_fps_added : Z) : M add_state unit :=
  match n with
  | O => mret tt
  | S n' =>
      old_fps_added ← add_index old_index_count index_no old_fps_added;
      add_indices n' old_index_count (index_no + 1) old_fps_added
  end.
(** An index of the old filter. *)
Definition add_old_index (old_filter : routing_filter) (old_rv new_indices_per_old_index old_index_no : Z) : M add_state unit :=
  old_index_count ← read_old_index old_filter old_rv value_size old_index_no;
  add_indices (Z.to_nat new_indices_per_old_index) old_index_count (old_index_no * new_indices_per_old_index) 0.
End indices.

(** The pages of the index: an extent of its own. *)
Definition alloc_index_pages : M add_state Z :=
  index_addr ← next_page;
  massert (index_addr `mod` rc_extent_size cfg =? 0);;
  mfor (Z.to_nat (pages_per_extent cfg - 1)) 1 (λ i,
    next_index_addr ← next_page;
    massert (next_index_addr =? index_addr + i * rc_page_size cfg));;
  mret index_addr.

(** The fingerprints in the order the filter has them. *)
Definition sort_fps (new_fp_arr : list Z) (value_size value : Z) : outcome (list Z) :=
  match RadixSort ((λ fp, Z.shiftr fp (32 - rc_fingerprint_size cfg)) <$> new_fp_arr) zero_matrix
          (replicate (length new_fp_arr) 0) (rc_fingerprint_size cfg) with
  | Ret fps => Ret (unique_fps None ((λ fp, Z.lor (u32 (Z.shiftl fp value_size)) value) <$> fps))
  | Assert => Assert | Undef => Undef | Block => Block | Fuel => Fuel
  end.

(** The part after the parameters: [zalloc] is whether the buffers are allocated. *)
Definition build_filter (old_filter : routing_filter) (new_fp_arr : list Z) (value value_size old_rv rv num_indices old_num_indices : Z) :
    M add_state Z :=
  index_addr ← alloc_index_pages;
  addr ← next_page;
  mmod (with_cursor addr 0 (rc_page_size cfg));;
  fp_arr ← mlift (sort_fps new_fp_arr value_size value);
  let index_count := index_counts (Z.to_nat num_indices) (rv + rc_log_index_size cfg) 0 fp_arr in
  mfor (Z.to_nat old_num_indices) 0
    (add_old_index index_addr value_size rv fp_arr index_count old_filter old_rv (num_indices / old_num_indices));;
  mret index_addr.
Definition routing_filter_add (zalloc : bool) (old_filter : routing_filter) (new_fp_arr : list Z) (value : Z) (s : filter_store) :
    outcome (platform_status * routing_filter * filter_store) :=
  let old := negb (rf_addr old_filter =? 0) in
  if old && (rf_num_fingerprints old_filter =? 0) then Undef else
  let old_value_size := if old then rf_value_size old_filter else 0 in
  let old_log := log_num_buckets cfg (rf_num_fingerprints old_filter) in
  let old_num_indices := if old then u32 (2 ^ (old_log - rc_log_index_size cfg)) else 1 in
  let old_rv := if old then old_value_size + u32 (rc_fingerprint_size cfg - old_log) else 0 in
  if old && negb (rc_fingerprint_size cfg + old_value_size <=? 32) then Assert else
  let num_fingerprints := u32 (lengthZ new_fp_arr + rf_num_fingerprints old_filter) in
  if num_fingerprints =? 0 then Undef else
  let log := log_num_buckets cfg num_fingerprints in
  let num_indices := u32 (2 ^ (log - rc_log_index_size cfg)) in
  let value_size := if value =? 0 then 0 else Z.log2 value + 1 in
  let rv := value_size + u32 (rc_fingerprint_size cfg - log) in
  if negb (rc_fingerprint_size cfg + value_size <=? 32) then Assert else
  if negb zalloc then Ret (STATUS_NO_MEMORY, mk_routing_filter 0 0 num_fingerprints 0 value_size, s) else
  match fs_meta s with
  | None => Assert
  | Some meta_head =>
      match build_filter old_filter new_fp_arr value value_size old_rv rv num_indices old_num_indices
              (mk_add_state (fs_pages s) (fs_next s) 0 0 0 (replicate (Z.to_nat (ROUTING_FPS_PER_PAGE / 8)) 255)
                (replicate (Z.to_nat ROUTING_FPS_PER_PAGE) 0) 0 0) with
      | Ret (index_addr, a) =>
          Ret (STATUS_OK, mk_routing_filter index_addr meta_head num_fingerprints (as_num_unique a) value_size,
               mk_filter_store (as_pages a) None (as_next a))
      | Assert => Assert | Undef => Undef | Block => Block | Fuel => Fuel
      end
  end.
End add.
