(* ===== verification/RoutingRepr.v ===== *)
(** * The bucket encoding of a filter

    The encoding is a string of bits in which a one ends a bucket and a zero is a
    fingerprint of the bucket.  Here the scans of the words that hold it are shown to
    find the ones: [pos c] is the position of the one that ends bucket [c]. *)
From S2P Require Import Prelude Bytes PackedArray RadixSort RoutingFilter RoutingAdd.
From stdpp Require Import sorting.
Open Scope Z_scope.

(** ** The lowest bit *)
Definition lowest (v l : Z) : Prop := 0 ≤ l ∧ Z.testbit v l = true ∧ ∀ t, 0 ≤ t < l → Z.testbit v t = false.
Lemma lowest_nonzero v l : lowest v l → v ≠ 0.
Proof. intros (_ & H & _) ->. by rewrite Z.testbit_0_l in H. Qed.
Lemma clear_lowest_testbit v l i : lowest v l → 0 ≤ i → Z.testbit (Z.land v (v - 1)) i = (l <? i) && Z.testbit v i.
Proof.
  intros (Hl & Hb & Hlow) Hi.
  assert (Hmod : v `mod` 2 ^ l = 0).
  { apply Z.bits_inj'. intros t Ht. rewrite Z.testbit_0_l, testbit_mod by done.
    destruct (Z.ltb_spec t l); [|done]. by rewrite Hlow. }
  pose proof (Z.div_mod v (2 ^ l) ltac:(lia)) as Hdiv. rewrite Hmod in Hdiv.
  set (q := v / 2 ^ l) in *. assert (Hq : Z.testbit q 0 = true) by (unfold q; by rewrite Z.div_pow2_bits by lia).
  rewrite Z.bit0_odd in Hq. apply Z.odd_spec in Hq as [m Hm].
  assert (E1 : v = 0 + 2 ^ l * (2 * m + 1)) by lia. assert (E2 : v - 1 = (2 ^ l - 1) + 2 ^ l * (2 * m)) by lia.
  rewrite Z.land_spec. rewrite E2 at 1. rewrite E1 at 1 2. rewrite !testbit_add_pow by lia.
  destruct (Z.ltb_spec i l), (Z.ltb_spec l i); try lia; cbn [andb]; [by rewrite Z.testbit_0_l| |].
  - replace (i - l) with (Z.succ (i - l - 1)) by lia. rewrite Z.testbit_odd_succ, Z.testbit_even_succ by lia. apply andb_diag.
  - replace (i - l) with 0 by lia. by rewrite Z.testbit_even_0, andb_false_r.
Qed.
Lemma ffs_from_lowest n i v l : i ≤ l < i + Z.of_nat n → Z.testbit v l = true → (∀ t, i ≤ t < l → Z.testbit v t = false) →
  ffs_from n i v = l + 1.
Proof.
  revert i. induction n as [|n IH]; intros i Hl Hb Hlow; [lia|]. cbn [ffs_from].
  destruct (decide (i = l)) as [->|]; [by rewrite Hb|]. rewrite Hlow by lia. apply IH; [lia|done|]. intros t Ht. apply Hlow. lia.
Qed.
Lemma ffs_lowest v l : lowest v l → l < 64 → ffs v = l + 1.
Proof. intros (H0 & Hb & Hlow) Hl. apply ffs_from_lowest; [cbn; lia|done|done]. Qed.

(** ** Counting ones *)
Section ones.
Context (f : Z → bool).
Fixpoint ones (n : nat) (s : Z) : Z := match n with O => 0 | S n' => (if f s then 1 else 0) + ones n' (s + 1) end.
Lemma ones_app n m s : ones (n + m) s = ones n s + ones m (s + Z.of_nat n).
Proof using.
  revert s. induction n as [|n IH]; intros s; [cbn; by rewrite Z.add_0_r|]. cbn [ones Nat.add]. rewrite IH.
  replace (s + 1 + Z.of_nat n) with (s + Z.of_nat (S n)) by lia. lia.
Qed.
Lemma ones_zeros n s : (∀ t, s ≤ t < s + Z.of_nat n → f t = false) → ones n s = 0.
Proof using.
  revert s. induction n as [|n IH]; intros s H; [done|]. cbn [ones]. rewrite H by lia. rewrite IH; [done|]. intros t Ht. apply H. lia.
Qed.
Lemma ones_range n s : 0 ≤ ones n s ≤ Z.of_nat n.
Proof using. revert s. induction n as [|n IH]; intros s; [done|]. cbn [ones]. specialize (IH (s + 1)). destruct (f s); lia. Qed.
(** The ones below position [t]. *)
Definition rank (t : Z) : Z := ones (Z.to_nat t) 0.
Lemma rank_add t d : 0 ≤ t → 0 ≤ d → rank (t + d) = rank t + ones (Z.to_nat d) t.
Proof using.
  intros. unfold rank. rewrite Z2Nat.inj_add, ones_app by done. by rewrite Z2Nat.id, Z.add_0_l by done.
Qed.
Lemma rank_mono t t' : 0 ≤ t ≤ t' → rank t ≤ rank t'.
Proof using.
  intros. replace t' with (t + (t' - t)) by lia. rewrite rank_add by lia. pose proof (ones_range (Z.to_nat (t' - t)) t). lia.
Qed.

(** ** The ends of buckets *)
Definition first_one (s P : Z) : Prop := s ≤ P ∧ f P = true ∧ ∀ t, s ≤ t < P → f t = false.
Record ends (size : Z) (pos : Z → Z) : Prop := {
  ends_first : pos (-1) = -1;
  ends_next : ∀ c, 0 ≤ c < size → first_one (pos (c - 1) + 1) (pos c);
}.

Section ends.
Context (size : Z) (pos : Z → Z) (Hends : ends size pos).
Lemma pos_rank c : 0 ≤ c < size → 0 ≤ pos c ∧ rank (pos c) = c.
Proof using Hends.
  intros Hc. replace c with (Z.of_nat (Z.to_nat c)) in * by lia. revert Hc. generalize (Z.to_nat c) as n. clear c.
  induction n as [|n IH]; intros Hc; destruct (ends_next _ _ Hends _ Hc) as (Hle & Hb & Hz).
  - change (Z.of_nat 0 - 1) with (-1) in *. rewrite (ends_first _ _ Hends) in *. change (-1 + 1) with 0 in *.
    split; [done|]. unfold rank. apply ones_zeros. intros t Ht. apply Hz. lia.
  - replace (Z.of_nat (S n) - 1) with (Z.of_nat n) in * by lia. destruct IH as [H0 Hr]; [lia|].
    destruct (ends_next _ _ Hends (Z.of_nat n) ltac:(lia)) as (_ & Hbn & _).
    split; [lia|]. replace (pos (Z.of_nat (S n))) with (pos (Z.of_nat n) + 1 + (pos (Z.of_nat (S n)) - (pos (Z.of_nat n) + 1))) by lia.
    rewrite rank_add, (ones_zeros _ (pos (Z.of_nat n) + 1)) by (lia || (intros t Ht; apply Hz; lia)).
    rewrite rank_add, Hr by lia. change (Z.to_nat 1) with 1%nat. cbn [ones]. rewrite Hbn. lia.
Qed.
Lemma pos_rank_after c : 0 ≤ c < size → rank (pos c + 1) = c + 1.
Proof using Hends.
  intros Hc. destruct (pos_rank c Hc) as [H0 Hr]. destruct (ends_next _ _ Hends c Hc) as (_ & Hb & _).
  rewrite rank_add, Hr by lia. change (Z.to_nat 1) with 1%nat. cbn [ones]. rewrite Hb. lia.
Qed.
Lemma pos_lt c c' : 0 ≤ c → c < c' → c' < size → pos c < pos c'.
Proof using Hends.
  intros ???. destruct (decide (pos c < pos c')); [done|].
  pose proof (rank_mono (pos c') (pos c)). pose proof (pos_rank c ltac:(lia)). pose proof (pos_rank c' ltac:(lia)). lia.
Qed.
(** Where a one lies, from the ranks around it. *)
Lemma pos_below t c : 0 ≤ c < size → 0 ≤ t → c < rank t → pos c < t.
Proof using Hends.
  intros Hc Ht Hr. destruct (decide (pos c < t)); [done|]. pose proof (rank_mono t (pos c)). pose proof (pos_rank c Hc). lia.
Qed.
Lemma pos_above t c : 0 ≤ c < size → rank t ≤ c → t ≤ pos c.
Proof using Hends.
  intros Hc Hr. destruct (decide (t ≤ pos c)); [done|]. pose proof (pos_rank c Hc).
  pose proof (rank_mono (pos c + 1) t). pose proof (pos_rank_after c Hc). lia.
Qed.
End ends.

(** ** Words *)
(** [v] is word [w], of [W] bits, without its bits below [s]. *)
Definition rest (W w v s : Z) : Prop :=
  0 ≤ v ∧ ∀ i, 0 ≤ i → Z.testbit v i = (s <=? i) && (i <? W) && f (W * w + i).
Context (W : Z) (HW : 0 ≤ W).
Lemma rest_range w v s : rest W w v s → 0 ≤ v < 2 ^ W.
Proof using HW.
  intros [H0 Hb]. split; [done|]. apply bits_range; [done..|]. intros i Hi. rewrite Hb by lia.
  by rewrite (proj2 (Z.ltb_ge i W)), andb_false_r by done.
Qed.
Lemma rest_lowest w v s P : 0 ≤ s → rest W w v s → first_one (W * w + s) P → P < W * (w + 1) → lowest v (P - W * w).
Proof using.
  intros Hs [H0 Hb] (Hle & HP & Hz) Hlt. split_and!; [lia| |].
  - rewrite Hb, (proj2 (Z.leb_le s _)), (proj2 (Z.ltb_lt _ W)) by lia. cbn [andb]. by replace (W * w + (P - W * w)) with P by lia.
  - intros t Ht. rewrite Hb by lia. destruct (Z.leb_spec s t); [|done]. rewrite Hz by lia. apply andb_false_r.
Qed.
Lemma rest_zero w v s P : 0 ≤ s → rest W w v s → first_one (W * w + s) P → W * (w + 1) ≤ P → v = 0.
Proof using.
  intros Hs [H0 Hb] (Hle & HP & Hz) Hlt. apply Z.bits_inj'. intros t Ht. rewrite Hb, Z.testbit_0_l by done.
  destruct (Z.leb_spec s t), (Z.ltb_spec t W); try done. cbn [andb]. apply Hz. lia.
Qed.
Lemma rest_clear w v s l : rest W w v s → lowest v l → rest W w (Z.land v (v - 1)) (l + 1).
Proof using.
  intros Hr Hl. pose proof (lowest_nonzero _ _ Hl). destruct Hr as [H0 Hb]. split; [apply Z.land_nonneg; lia|].
  intros i Hi. rewrite (clear_lowest_testbit v l) by done. rewrite Hb by done.
  destruct (Z.ltb_spec l i), (Z.leb_spec (l + 1) i); try lia; cbn [andb].
  assert (s ≤ l). { destruct Hl as (Hl0 & Hlb & _). rewrite Hb in Hlb by done. by destruct (Z.leb_spec s l). }
  by rewrite (proj2 (Z.leb_le s i)) by lia.
Qed.
Lemma rest_pop w v : 0 ≤ w → rest W w v 0 → popcount_from (Z.to_nat W) 0 v = rank (W * (w + 1)) - rank (W * w).
Proof using HW.
  intros Hw [_ Hb]. replace (W * (w + 1)) with (W * w + W) by lia. rewrite rank_add by nia.
  assert (H : ∀ n i, 0 ≤ i → i + Z.of_nat n ≤ W → popcount_from n i v = ones n (W * w + i)).
  { induction n as [|n IH]; intros i Hi Hn; [done|]. cbn [popcount_from ones].
    rewrite Hb, (proj2 (Z.leb_le 0 i)), (proj2 (Z.ltb_lt i W)) by lia. cbn [andb].
    rewrite IH by lia. by replace (W * w + (i + 1)) with (W * w + i + 1) by lia. }
  rewrite H by lia. rewrite Z.add_0_r. lia.
Qed.
End ones.

(** ** The scans *)
Section scan.
Context (p : list Z) (enc size : Z) (pos : Z → Z).
Context (Hok : bytes_ok p) (Henc : 0 ≤ enc) (Hends : ends (mbit p enc) size pos).
Local Abbreviation f := (mbit p enc).

Lemma encoding_word_run j : 0 ≤ j → enc + 4 * j + 4 ≤ lengthZ p →
  ∃ v, encoding_word p enc j = Some v ∧ rest f 32 j v 0.
Proof using Hok Henc.
  intros Hj Hl. destruct (word_at p enc j Hok Henc Hj Hl) as (v & Hv & [H0 _] & Hb). exists v. split; [done|].
  split; [done|]. intros i Hi. rewrite Hb by done. by rewrite (proj2 (Z.leb_le 0 i)).
Qed.
Lemma encoding_word8_run j : 0 ≤ j → enc + 8 * j + 8 ≤ lengthZ p →
  ∃ v, get_le 8 p (enc + 8 * j) = Some v ∧ rest f 64 j v 0.
Proof using Hok Henc.
  intros Hj Hl. destruct (get_le_bits 8 p enc (8 * j) Hok Henc) as (v & Hv & [H0 _] & Hb); [lia|cbn; lia|].
  exists v. split; [done|]. split; [done|]. intros i Hi. rewrite Hb by done. change (8 * Z.of_nat 8) with 64.
  rewrite (proj2 (Z.leb_le 0 i)) by done. by replace (8 * (8 * j) + i) with (64 * j + i) by lia.
Qed.

(** The words up to the one with position [P] are read. *)
Definition readable (P : Z) : Prop := enc + 4 * (P / 32) + 4 ≤ lengthZ p.
Lemma readable_le P P' : P ≤ P' → readable P' → readable P.
Proof using. unfold readable. intros H. pose proof (Z.div_le_mono P P' 32 ltac:(lia) H). lia. Qed.

Lemma skip_zero_words_run fuel w v s P : 0 ≤ w → 0 ≤ s ≤ 32 → rest f 32 w v s → first_one f (32 * w + s) P →
  readable P → P / 32 - w < Z.of_nat fuel →
  ∃ v', skip_zero_words fuel p enc w v = Some (P / 32, v') ∧ lowest v' (P `mod` 32).
Proof using Hok Henc.
  revert w v s. induction fuel as [|fuel IH]; intros w v s Hw Hs Hv HP Hread Hf.
  { pose proof (proj1 HP). assert (w ≤ P / 32) by (apply Z.div_le_lower_bound; lia). lia. }
  pose proof (Z.div_mod P 32 ltac:(lia)). pose proof (Z.mod_pos_bound P 32 ltac:(lia)). cbn [skip_zero_words].
  destruct (decide (P < 32 * (w + 1))) as [Hlt|Hge].
  - pose proof (rest_lowest f 32 w v s P (proj1 Hs) Hv HP Hlt) as Hlow. pose proof (lowest_nonzero _ _ Hlow).
    rewrite (proj2 (Z.eqb_neq v 0)) by done. pose proof (proj1 HP).
    assert (w = P / 32) as -> by (apply Z.div_unique with (P - 32 * w); lia).
    exists v. split; [done|]. by replace (P `mod` 32) with (P - 32 * (P / 32)) by lia.
  - rewrite (proj2 (Z.eqb_eq v 0)) by (eapply (rest_zero f 32 w v s P); [lia|done..|lia]).
    assert (w + 1 ≤ P / 32) by (apply Z.div_le_lower_bound; lia). unfold readable in Hread.
    destruct (encoding_word_run (w + 1)) as (v' & Hv' & Hr'); [lia..|]. rewrite Hv'. cbn [mbind option_bind].
    apply (IH (w + 1) v' 0); [lia|lia|done| |done|lia]. destruct HP as (? & ? & Hz). split_and!; [lia|done|].
    intros t Ht. apply Hz. lia.
Qed.

Lemma skip_buckets_run fuel len c w : 0 ≤ c < size → 0 ≤ w → readable (pos c) → 4 * (pos c / 32) < len →
  rank f (32 * w) ≤ c → pos c / 32 - w < Z.of_nat fuel →
  skip_buckets fuel p enc len (c + 1) w (rank f (32 * w)) (rank f (32 * (w + 1)) - rank f (32 * w)) =
    Some (pos c / 32, rank f (32 * (pos c / 32))).
Proof using Hok Henc Hends.
  intros Hc. revert w. induction fuel as [|fuel IH]; intros w Hw Hread Hlen Hr Hf.
  { pose proof (pos_above f size pos Hends (32 * w) c Hc Hr). assert (w ≤ pos c / 32) by (apply Z.div_le_lower_bound; lia). lia. }
  pose proof (pos_above f size pos Hends (32 * w) c Hc Hr). assert (w ≤ pos c / 32) by (apply Z.div_le_lower_bound; lia).
  cbn [skip_buckets]. rewrite (proj2 (Z.ltb_lt (4 * w) len)) by lia. cbn [andb].
  replace (rank f (32 * w) + (rank f (32 * (w + 1)) - rank f (32 * w))) with (rank f (32 * (w + 1))) by lia.
  destruct (Z.ltb_spec (rank f (32 * (w + 1))) (c + 1)).
  - pose proof (pos_above f size pos Hends (32 * (w + 1)) c Hc ltac:(lia)).
    assert (w + 1 ≤ pos c / 32) by (apply Z.div_le_lower_bound; lia). unfold readable in Hread.
    destruct (encoding_word_run (w + 1)) as (v' & Hv' & Hr'); [lia..|]. rewrite Hv'. cbn [mbind option_bind].
    unfold popcount. change 32%nat with (Z.to_nat 32). rewrite (rest_pop f 32 ltac:(lia) (w + 1) v' ltac:(lia) Hr').
    apply IH; [lia|done|done|lia|lia].
  - pose proof (pos_below f size pos Hends (32 * (w + 1)) c Hc ltac:(lia) ltac:(lia)).
    assert (w = pos c / 32) as <- by (apply Z.div_unique with (pos c - 32 * w); lia). done.
Qed.

(** Clearing the ones of a word up to, and not with, the one of bucket [b + k]. *)
Lemma clear_lowest_run k b w v s : 0 ≤ b → b + Z.of_nat k < size → 0 ≤ s → rest f 32 w v s →
  first_one f (32 * w + s) (pos b) → pos (b + Z.of_nat k) < 32 * (w + 1) →
  ∃ s', 0 ≤ s' ∧ rest f 32 w (clear_lowest k v) s' ∧ first_one f (32 * w + s') (pos (b + Z.of_nat k)).
Proof using Hends.
  revert b v s. induction k as [|k IH]; intros b v s Hb Hbk Hs Hv HP Hlt.
  { exists s. rewrite Z.add_0_r in *. done. }
  pose proof (pos_lt f size pos Hends b (b + Z.of_nat (S k)) Hb ltac:(lia) Hbk).
  pose proof (rest_lowest f 32 w v s (pos b) Hs Hv HP ltac:(lia)) as Hlow.
  pose proof (rest_range f 32 ltac:(lia) w v s Hv). pose proof (lowest_nonzero _ _ Hlow).
  cbn [clear_lowest]. rewrite u32_small by lia.
  destruct (IH (b + 1) (Z.land v (v - 1)) (pos b - 32 * w + 1)) as (s' & Hs' & Hr' & HP').
  - lia.
  - lia.
  - pose proof (proj1 HP). lia.
  - by eapply rest_clear.
  - replace (32 * w + (pos b - 32 * w + 1)) with (pos b + 1) by lia.
    pose proof (ends_next _ _ _ Hends (b + 1) ltac:(lia)) as Hn. by replace (b + 1 - 1) with b in Hn by lia.
  - by replace (b + 1 + Z.of_nat k) with (b + Z.of_nat (S k)) by lia.
  - exists s'. by replace (b + Z.of_nat (S k)) with (b + 1 + Z.of_nat k) by lia.
Qed.
Lemma rank_first w b : 0 ≤ w → 0 ≤ b < size → rank f (32 * w) = b → first_one f (32 * w) (pos b).
Proof using Hends.
  intros Hw Hb Hr. destruct (ends_next _ _ _ Hends b Hb) as (Hle & HP & Hz).
  split_and!; [apply (pos_above f size pos Hends); lia|done|]. intros t Ht. apply Hz. split; [|lia].
  destruct (decide (b = 0)) as [->|]; [change (0 - 1) with (-1); rewrite (ends_first _ _ _ Hends); lia|].
  enough (pos (b - 1) < 32 * w) by lia. apply (pos_below f size pos Hends); [lia..|]. lia.
Qed.

Lemma routing_get_bucket_bounds_run fuel len c : 0 ≤ c < size → readable (pos c) → 4 * (pos c / 32) < len →
  pos c / 32 < Z.of_nat fuel →
  routing_get_bucket_bounds fuel p enc len c = Some (pos (c - 1) - (c - 1), pos c - c).
Proof using Hok Henc Hends.
  intros Hc Hread Hlen Hf. unfold routing_get_bucket_bounds.
  destruct (pos_rank f size pos Hends c Hc) as [Hp0 _].
  pose proof (Z.div_pos (pos c) 32 Hp0 ltac:(lia)). pose proof (Z.div_mod (pos c) 32 ltac:(lia)). pose proof (Z.mod_pos_bound (pos c) 32 ltac:(lia)).
  destruct (encoding_word_run 0) as (v0 & Hv0 & Hr0); [lia|unfold readable in Hread; lia|].
  rewrite Hv0. cbn [mbind option_bind]. destruct (Z.eqb_spec c 0) as [->|Hc0].
  - pose proof (rank_first 0 0 ltac:(lia) Hc eq_refl) as HP.
    destruct (skip_zero_words_run fuel 0 v0 0 (pos 0)) as (v' & Hrun & Hlow); [lia|lia|done|by rewrite Z.add_0_r|done|lia|].
    rewrite Hrun. cbn [mbind option_bind]. rewrite (ffs_lowest _ _ Hlow) by lia.
    change (0 - 1) with (-1). rewrite (ends_first _ _ _ Hends). f_equal. f_equal; lia.
  - assert (Hc1 : 0 ≤ c - 1 < size) by lia. pose proof (pos_lt f size pos Hends (c - 1) c ltac:(lia) ltac:(lia) ltac:(lia)) as Hlt.
    pose proof (pos_rank f size pos Hends (c - 1) Hc1) as [Hq0 _]. pose proof (Z.div_le_mono (pos (c - 1)) (pos c) 32 ltac:(lia) ltac:(lia)).
    pose proof (Z.div_pos (pos (c - 1)) 32 ltac:(lia) ltac:(lia)).
    pose proof (Z.div_mod (pos (c - 1)) 32 ltac:(lia)). pose proof (Z.mod_pos_bound (pos (c - 1)) 32 ltac:(lia)).
    set (w := pos (c - 1) / 32) in *.
    assert (Hread1 : readable (pos (c - 1))) by (eapply readable_le; [|exact Hread]; lia).
    pose proof (skip_buckets_run fuel len (c - 1) 0 Hc1 ltac:(lia) Hread1) as Hskip.
    fold w in Hskip. replace (c - 1 + 1) with c in Hskip by lia.
    unfold popcount. change 32%nat with (Z.to_nat 32). rewrite (rest_pop f 32 ltac:(lia) 0 v0 ltac:(lia) Hr0).
    change (rank f (32 * 0)) with 0 in *. rewrite Hskip by lia. cbn [mbind option_bind].
    destruct (encoding_word_run w) as (v1 & Hv1 & Hr1); [lia|unfold readable in Hread; lia|]. rewrite Hv1. cbn [mbind option_bind].
    set (b := rank f (32 * w)).
    assert (Hb : 0 ≤ b ≤ c - 1).
    { split; [apply ones_range|]. unfold b. destruct (pos_rank f size pos Hends (c - 1) Hc1) as [_ <-]. apply rank_mono. lia. }
    destruct (clear_lowest_run (Z.to_nat (c - 1 - b)) b w v1 0) as (s & Hs & Hr2 & HP2); [lia|lia|lia|done| | |].
    { rewrite Z.add_0_r. apply rank_first; [lia|lia|done]. }
    { replace (b + Z.of_nat (Z.to_nat (c - 1 - b))) with (c - 1) by lia. lia. }
    replace (b + Z.of_nat (Z.to_nat (c - 1 - b))) with (c - 1) in HP2 by lia.
    set (v2 := clear_lowest (Z.to_nat (c - 1 - b)) v1) in *.
    pose proof (rest_lowest f 32 w v2 s (pos (c - 1)) Hs Hr2 HP2 ltac:(lia)) as Hlow.
    pose proof (lowest_nonzero _ _ Hlow). pose proof (rest_range f 32 ltac:(lia) w v2 s Hr2).
    rewrite (ffs_lowest _ _ Hlow) by lia. rewrite (u32_small (v2 - 1)) by lia.
    pose proof (rest_clear f 32 w v2 s _ Hr2 Hlow) as Hr3.
    destruct (skip_zero_words_run fuel w (Z.land v2 (v2 - 1)) (pos (c - 1) - 32 * w + 1) (pos c)) as (v3 & Hrun & Hlow3);
      [lia|lia|done| |done|lia|].
    { replace (32 * w + (pos (c - 1) - 32 * w + 1)) with (pos (c - 1) + 1) by lia. by apply (ends_next _ _ _ Hends). }
    rewrite Hrun. cbn [mbind option_bind]. rewrite (ffs_lowest _ _ Hlow3) by lia. f_equal. f_equal; lia.
Qed.

(** ** The counts *)
Definition readable8 (P : Z) : Prop := enc + 8 * (P / 64) + 8 ≤ lengthZ p.
Lemma readable8_le P P' : P ≤ P' → readable8 P' → readable8 P.
Proof using. unfold readable8. intros H. pose proof (Z.div_le_mono P P' 64 ltac:(lia) H). lia. Qed.

Lemma count_bucket_run fuel w v s count P : 0 ≤ w → 0 ≤ s ≤ 64 → rest f 64 w v s → first_one f (64 * w + s) P →
  readable8 P → P / 64 - w < Z.of_nat fuel → 0 ≤ count → count + (P - (64 * w + s)) < 2 ^ 32 →
  ∃ v', count_bucket fuel p enc w v s count = Some (P / 64, v', P `mod` 64 + 1, count + (P - (64 * w + s))) ∧
    rest f 64 (P / 64) v' (P `mod` 64 + 1).
Proof using Hok Henc.
  revert w v s count. induction fuel as [|fuel IH]; intros w v s count Hw Hs Hv HP Hread Hf Hc Hbound.
  { pose proof (proj1 HP). assert (w ≤ P / 64) by (apply Z.div_le_lower_bound; lia). lia. }
  pose proof (Z.div_mod P 64 ltac:(lia)). pose proof (Z.mod_pos_bound P 64 ltac:(lia)). pose proof (proj1 HP).
  cbn [count_bucket]. destruct (decide (P < 64 * (w + 1))) as [Hlt|Hge].
  - pose proof (rest_lowest f 64 w v s P (proj1 Hs) Hv HP Hlt) as Hlow. pose proof (lowest_nonzero _ _ Hlow).
    pose proof (rest_range f 64 ltac:(lia) w v s Hv). rewrite (proj2 (Z.eqb_neq v 0)) by done.
    assert (w = P / 64) as -> by (apply Z.div_unique with (P - 64 * w); lia).
    replace (P - 64 * (P / 64)) with (P `mod` 64) in Hlow by lia. rewrite (ffs_lowest _ _ Hlow) by lia.
    rewrite u64_small, u32_small by lia. exists (Z.land v (v - 1)).
    split; [f_equal; f_equal; [f_equal|]; lia|]. by eapply rest_clear.
  - rewrite (proj2 (Z.eqb_eq v 0)) by (eapply (rest_zero f 64 w v s P); [lia|done..|lia]).
    assert (w + 1 ≤ P / 64) by (apply Z.div_le_lower_bound; lia). unfold readable8 in Hread.
    destruct (encoding_word8_run (w + 1)) as (v' & Hv' & Hr'); [lia..|]. rewrite Hv'. cbn [mbind option_bind].
    rewrite u32_small by lia.
    destruct (IH (w + 1) v' 0 (count + (64 - s))) as (v2 & Hrun & Hr2); [lia|lia|done| |done|lia|lia|lia|].
    + destruct HP as (? & ? & Hz). split_and!; [lia|done|]. intros t Ht. apply Hz. lia.
    + exists v2. split; [|done]. rewrite Hrun. f_equal. f_equal. lia.
Qed.

Lemma bucket_counts_loop_run fuel n c w v s : 0 ≤ c → c + Z.of_nat n ≤ size → 0 ≤ w → 0 ≤ s ≤ 64 → rest f 64 w v s →
  64 * w + s = pos (c - 1) + 1 → readable8 (pos (size - 1)) → pos (size - 1) / 64 < Z.of_nat fuel → pos (size - 1) < 2 ^ 32 →
  bucket_counts_loop n fuel p enc w v s = Some ((λ c, pos c - pos (c - 1) - 1) <$> seqZ c (Z.of_nat n)).
Proof using Hok Henc Hends.
  revert c w v s. induction n as [|n IH]; intros c w v s Hc Hn Hw Hs Hv Hpos Hread Hf Hb; [done|].
  assert (Hcs : 0 ≤ c < size) by lia. pose proof (ends_next _ _ _ Hends c Hcs) as HP. rewrite <-Hpos in HP.
  assert (Hle : pos c ≤ pos (size - 1)).
  { destruct (decide (c = size - 1)) as [->|]; [lia|]. pose proof (pos_lt f size pos Hends c (size - 1) ltac:(lia) ltac:(lia) ltac:(lia)). lia. }
  pose proof (pos_rank f size pos Hends c Hcs) as [Hp0 _]. pose proof (Z.div_le_mono _ _ 64 ltac:(lia) Hle).
  pose proof (Z.div_mod (pos c) 64 ltac:(lia)). pose proof (Z.mod_pos_bound (pos c) 64 ltac:(lia)).
  pose proof (Z.div_pos (pos c) 64 Hp0 ltac:(lia)).
  destruct (count_bucket_run fuel w v s 0 (pos c)) as (v' & Hrun & Hr'); [lia|lia|done|done| |lia|lia|lia|].
  { by eapply readable8_le. }
  cbn [bucket_counts_loop]. rewrite Hrun. cbn [mbind option_bind].
  rewrite (IH (c + 1) (pos c / 64) v' (pos c `mod` 64 + 1)); [|lia|lia|lia|lia|done| |done|done|done].
  - cbn [mbind option_bind]. rewrite (seqZ_cons c (Z.of_nat (S n))), fmap_cons by lia. unfold Z.succ.
    replace (Z.pred (Z.of_nat (S n))) with (Z.of_nat n) by lia. f_equal. f_equal. lia.
  - replace (c + 1 - 1) with c by lia. lia.
Qed.
Lemma routing_get_bucket_counts_run cfg fuel : rc_index_size cfg = size → 0 < size →
  readable8 (pos (size - 1)) → pos (size - 1) / 64 < Z.of_nat fuel → pos (size - 1) < 2 ^ 32 →
  routing_get_bucket_counts cfg fuel p enc = Some ((λ c, pos c - pos (c - 1) - 1) <$> seqZ 0 size).
Proof using Hok Henc Hends.
  intros Hcfg Hsize Hread Hf Hb. unfold routing_get_bucket_counts. rewrite Hcfg.
  pose proof (pos_rank f size pos Hends (size - 1) ltac:(lia)) as [Hp0 _]. pose proof (Z.div_pos (pos (size - 1)) 64 Hp0 ltac:(lia)).
  destruct (encoding_word8_run 0) as (v & Hv & Hr); [lia|unfold readable8 in Hread; lia|]. rewrite Z.mul_0_r, Z.add_0_r in Hv.
  rewrite Hv. cbn [mbind option_bind].
  rewrite (bucket_counts_loop_run fuel (Z.to_nat size) 0 0 v 0); [|lia|lia|lia|lia|done| |done|done|done].
  - by rewrite Z2Nat.id by lia.
  - change (0 - 1) with (-1). by rewrite (ends_first _ _ _ Hends).
Qed.
End scan.

(** ** The encoding of sorted buckets *)
(** [bs] are the buckets of the fingerprints of a block, in order; the zero of
    fingerprint [j] is at [b + j]. *)
Definition upto (bs : list Z) (c : Z) : Z := lengthZ (filter (λ b, b ≤ c) bs).
Definition bucket_end (bs : list Z) (c : Z) : Z := c + upto bs c.
Definition encodes (f : Z → bool) (size : Z) (bs : list Z) : Prop :=
  ∀ t, 0 ≤ t < lengthZ bs + size → f t = false ↔ ∃ j b, lookupZ bs j = Some b ∧ t = b + j.

Section encoding.
Context (bs : list Z) (Hbs : StronglySorted Z.le bs).
Lemma upto_range c : 0 ≤ upto bs c ≤ lengthZ bs.
Proof using. split; [apply lengthZ_nonneg|]. unfold upto, lengthZ. pose proof (list.length_filter (λ b, b ≤ c) bs). lia. Qed.
Lemma upto_neg c : c < 0 → Forall (λ b, 0 ≤ b) bs → upto bs c = 0.
Proof using.
  intros Hc Hb. unfold upto. clear Hbs. induction Hb as [|b bs Hb _ IH]; [done|]. rewrite list.filter_cons, decide_False by lia. done.
Qed.
(** The fingerprints of the first buckets come first. *)
Lemma upto_lookup j b c : lookupZ bs j = Some b → b ≤ c ↔ j < upto bs c.
Proof using Hbs.
  unfold upto. revert j. induction Hbs as [|x l Hl IH Hx]; intros j Hj; [by rewrite lookupZ_nil in Hj|].
  rewrite list.filter_cons. pose proof (lookupZ_Some _ _ _ Hj) as Hr. destruct (decide (x ≤ c)) as [Hle|Hgt].
  - rewrite lengthZ_cons. destruct (decide (j = 0)) as [->|].
    + rewrite lookupZ_cons_0 in Hj. simplify_eq. pose proof (lengthZ_nonneg (filter (λ b, b ≤ c) l)). lia.
    + rewrite lookupZ_cons_S in Hj by lia. rewrite (IH Hl (j - 1) Hj). lia.
  - assert (E : filter (λ b, b ≤ c) l = []).
    { clear Hbs IH Hj Hr Hl. induction Hx as [|y l Hy _ IH]; [done|]. rewrite list.filter_cons, decide_False by lia. done. }
    rewrite E. change (lengthZ []) with 0. split; [|lia]. intros Hbc.
    destruct (decide (j = 0)) as [->|]; [rewrite lookupZ_cons_0 in Hj; simplify_eq; lia|].
    rewrite lookupZ_cons_S in Hj by lia. apply lookupZ_elem in Hj. rewrite list.Forall_forall in Hx. apply Hx in Hj. lia.
Qed.
Lemma upto_mono c c' : c ≤ c' → upto bs c ≤ upto bs c'.
Proof using Hbs.
  intros H. destruct (decide (upto bs c = 0)) as [E|Hne]; [pose proof (upto_range c'); lia|].
  pose proof (upto_range c) as Hr. destruct (proj2 (lookupZ_is_Some bs (upto bs c - 1))) as [b Hb]; [lia|].
  pose proof (proj2 (upto_lookup _ _ c Hb) ltac:(lia)). pose proof (proj1 (upto_lookup _ _ c' Hb) ltac:(lia)). lia.
Qed.
Lemma encodes_ends f size : encodes f size bs → Forall (λ b, 0 ≤ b < size) bs → ends f size (bucket_end bs).
Proof using Hbs.
  intros He Hb. unfold bucket_end. split.
  { rewrite upto_neg; [done|lia|]. eapply list.Forall_impl; [exact Hb|]. cbn. lia. }
  intros c Hc. pose proof (upto_mono (c - 1) c ltac:(lia)). pose proof (upto_range c). pose proof (upto_range (c - 1)).
  split_and!; [lia| |].
  - destruct (f (c + upto bs c)) eqn:E; [done|]. apply He in E as (j & b & Hj & Ht); [|lia].
    pose proof (upto_lookup j b c Hj). lia.
  - intros t Ht. apply He; [lia|]. destruct (proj2 (lookupZ_is_Some bs (t - c))) as [b Hj]; [lia|].
    exists (t - c), b. split; [done|]. pose proof (upto_lookup _ _ c Hj). pose proof (upto_lookup _ _ (c - 1) Hj). lia.
Qed.
End encoding.

(** * What the pages of a filter hold

    A filter holds a sorted list of entries: a fingerprint above a value of
    [rf_value_size] bits.  Block [i] of its pages has the entries of index [i]. *)
(** ** The parts of an entry *)
(** With [rv] bits of remainder and value, and [2 ^ lis] buckets to an index. *)
Definition index_of (rv lis e : Z) : Z := e / 2 ^ (rv + lis).
Definition bucket_off (rv lis e : Z) : Z := (e / 2 ^ rv) `mod` 2 ^ lis.
Definition rem_value (rv e : Z) : Z := e `mod` 2 ^ rv.

Lemma entry_split rv lis e : 0 ≤ rv → 0 ≤ lis →
  e / 2 ^ rv = index_of rv lis e * 2 ^ lis + bucket_off rv lis e.
Proof.
  intros. unfold index_of, bucket_off. rewrite Z.pow_add_r, <-Z.div_div by lia.
  pose proof (Z.div_mod (e / 2 ^ rv) (2 ^ lis) ltac:(lia)). lia.
Qed.
Lemma bucket_off_range rv lis e : 0 ≤ lis → 0 ≤ bucket_off rv lis e < 2 ^ lis.
Proof. intros. apply Z.mod_pos_bound. lia. Qed.
Lemma rem_value_range rv e : 0 ≤ rv → 0 ≤ rem_value rv e < 2 ^ rv.
Proof. intros. apply Z.mod_pos_bound. lia. Qed.
Lemma bucket_off_le rv lis i x y : 0 ≤ rv → 0 ≤ lis → index_of rv lis x = i → index_of rv lis y = i → x ≤ y →
  bucket_off rv lis x ≤ bucket_off rv lis y.
Proof.
  intros Hrv Hl Hx Hy Hxy. pose proof (entry_split rv lis x Hrv Hl). pose proof (entry_split rv lis y Hrv Hl).
  pose proof (Z.div_le_mono x y (2 ^ rv) ltac:(lia) Hxy). subst i. rewrite Hy in *. nia.
Qed.
(** [routing_get_index] on 32 bits. *)
Lemma routing_get_index_run rv lis e : 0 ≤ e < 2 ^ 32 → 0 ≤ rv + lis ≤ 32 → routing_get_index e (rv + lis) = index_of rv lis e.
Proof.
  intros He Hs. unfold routing_get_index, index_of. destruct (Z.eqb_spec (rv + lis) 32) as [->|].
  - by rewrite Z.div_small by lia.
  - by rewrite Z.shiftr_div_pow2 by lia.
Qed.

(** ** A block *)
Lemma remainder_block_size_packed n rv : 0 ≤ n < 2 ^ 16 → 1 ≤ rv ≤ 32 →
  packed_bytes rv n ≤ remainder_block_size n rv ∧ 3 ≤ remainder_block_size n rv ≤ n * rv + 4.
Proof.
  intros Hn Hrv. unfold packed_bytes, remainder_block_size. destruct (decide (n = 0)) as [->|].
  { change (u32 (u64 (0 * rv - 1) / 8 + 4)) with 3. change ((0 * rv + 31) / 32) with 0. lia. }
  assert (1 ≤ n * rv < 2 ^ 32) by nia. rewrite u64_small by lia.
  pose proof (Z.div_mod (n * rv - 1) 8 ltac:(lia)). pose proof (Z.mod_pos_bound (n * rv - 1) 8 ltac:(lia)).
  pose proof (Z.div_mod (n * rv + 31) 32 ltac:(lia)). pose proof (Z.mod_pos_bound (n * rv + 31) 32 ltac:(lia)).
  rewrite u32_small by lia. lia.
Qed.

Record block_at (cfg : routing_config) (rv i : Z) (p : list Z) (off : Z) (E : list Z) : Prop := {
  bk_bytes : bytes_ok p;
  bk_off : 0 ≤ off;
  bk_num : get_le 2 p off = Some (lengthZ E);
  bk_small : lengthZ E ≤ ROUTING_FPS_PER_PAGE;
  bk_room : off + routing_header_length cfg (lengthZ E) + remainder_block_size (lengthZ E) rv ≤ lengthZ p;
  bk_encoding : encodes (mbit p (off + SIZEOF_ROUTING_HDR)) (rc_index_size cfg) (bucket_off rv (rc_log_index_size cfg) <$> E);
  bk_items : items_at rv p (off + routing_header_length cfg (lengthZ E)) (rem_value rv <$> E);
  bk_sorted : StronglySorted Z.le E;
  bk_index : Forall (λ e, index_of rv (rc_log_index_size cfg) e = i) E;
}.

Record routing_config_ok (cfg : routing_config) : Prop := {
  rok_log : 6 ≤ rc_log_index_size cfg ≤ 16;
  rok_size : rc_index_size cfg = 2 ^ rc_log_index_size cfg;
  rok_fp : rc_log_index_size cfg ≤ rc_fingerprint_size cfg ≤ 32;
  rok_page : 0 < rc_page_size cfg < 2 ^ 32 ∧ rc_page_size cfg `mod` 8 = 0;
}.

(** ** A filter *)
Section filter_at.
Context (cfg : routing_config) (f : routing_filter).
Definition remainder_bits : Z := rc_fingerprint_size cfg - log_num_buckets cfg (rf_num_fingerprints f).
Definition rv_bits : Z := remainder_bits + rf_value_size f.
Definition num_indices_of : Z := 2 ^ (log_num_buckets cfg (rf_num_fingerprints f) - rc_log_index_size cfg).

Record filter_sizes : Prop := {
  fz_num : 1 ≤ rf_num_fingerprints f < 2 ^ 32;
  fz_log : log_num_buckets cfg (rf_num_fingerprints f) ≤ rc_fingerprint_size cfg;
  fz_value : 0 ≤ rf_value_size f;
  fz_fp : rc_fingerprint_size cfg + rf_value_size f ≤ 32;
  fz_rv : 1 ≤ rv_bits;
}.
(** Index entry [i] is [a]. *)
Definition index_entry (pages : gmap Z (list Z)) (i a : Z) : Prop :=
  ∃ p raw, pages !! (rf_addr f + rc_page_size cfg * (i / addrs_per_page cfg)) = Some p ∧
    get_le 8 p (8 * (i `mod` addrs_per_page cfg)) = Some raw ∧ FILTER_ADDR raw = a.
Definition entries_of (i : Z) (F : list Z) : list Z := filter (λ e, index_of rv_bits (rc_log_index_size cfg) e = i) F.
Definition indexed (pages : gmap Z (list Z)) (F : list Z) (i : Z) : Prop :=
  ∃ a p, index_entry pages i a ∧ 0 < a ∧ pages !! (a - a `mod` rc_page_size cfg) = Some p ∧
    block_at cfg rv_bits i p (a `mod` rc_page_size cfg) (entries_of i F).
Record filter_at (pages : gmap Z (list Z)) (F : list Z) : Prop := {
  fa_addr : rf_addr f ≠ 0;
  fa_sizes : filter_sizes;
  fa_sorted : StronglySorted Z.le F;
  fa_range : Forall (λ e, 0 ≤ e < 2 ^ (rc_fingerprint_size cfg + rf_value_size f)) F;
  fa_blocks : ∀ i, 0 ≤ i < num_indices_of → indexed pages F i;
}.
(** The entries of [fp]: its values. *)
Definition has_value (F : list Z) (fp v : Z) : Prop := 0 ≤ v < 2 ^ rf_value_size f ∧ fp * 2 ^ rf_value_size f + v ∈ F.
End filter_at.
(** The null filter, or one with the entries [F]. *)
Definition holds_entries (cfg : routing_config) (f : routing_filter) (pages : gmap Z (list Z)) (F : list Z) : Prop :=
  (rf_addr f = 0 ∧ rf_num_fingerprints f = 0 ∧ F = []) ∨ filter_at cfg f pages F.

Lemma filter_at_mono cfg f pages pages' F : pages ⊆ pages' → filter_at cfg f pages F → filter_at cfg f pages' F.
Proof.
  intros Hsub [Ha Hz Hs Hr Hb]. split; [done..|]. intros i Hi. destruct (Hb i Hi) as (a & p & (ip & raw & Hip & Hraw) & H0 & Hp & Hbk).
  exists a, p. split_and!; [|done|by eapply lookup_weaken|done]. exists ip, raw. split; [by eapply lookup_weaken|done].
Qed.
#[export] Instance has_value_dec f F fp v : Decision (has_value f F fp v).
Proof. apply _. Defined.
(** The pages that are not to be allocated. *)
Definition settled (s : filter_store) : gmap Z (list Z) := filter (λ kv, kv.1 ∉ fs_next s) (fs_pages s).
Lemma settled_subseteq s pages : (∀ x, x ∉ fs_next s → pages !! x = fs_pages s !! x) → settled s ⊆ pages.
Proof.
  intros H. apply map_subseteq_spec. intros x p [Hp Hx]%map_lookup_filter_Some. by rewrite H.
Qed.
Lemma settled_fs_pages s : settled s ⊆ fs_pages s.
Proof. by apply settled_subseteq. Qed.
