(* ===== verification/RoutingLookup.v ===== *)
(** * Lookups in a filter *)
From S2P Require Import Prelude Bytes PackedArray RadixSort RoutingFilter RoutingAdd RoutingRepr.
From stdpp Require Import sorting.
Open Scope Z_scope.

Section lookup.
Context (cfg : routing_config) (Hcfg : routing_config_ok cfg).
Local Abbreviation lis := (rc_log_index_size cfg).
Local Abbreviation size := (rc_index_size cfg).

Lemma log_num_buckets_ge n : lis ≤ log_num_buckets cfg n.
Proof using. unfold log_num_buckets. destruct (Z.ltb_spec (Z.log2 n) lis); lia. Qed.
Lemma size_range : 64 ≤ size ≤ 2 ^ 16 ∧ size `mod` 64 = 0.
Proof using Hcfg.
  destruct Hcfg as [Hl -> _ _]. split; [split|].
  - change 64 with (2 ^ 6). apply Z.pow_le_mono_r; lia.
  - apply Z.pow_le_mono_r; lia.
  - replace lis with (6 + (lis - 6)) by lia. rewrite Z.pow_add_r by lia. rewrite Z.mul_comm. by apply Z.mod_mul.
Qed.
Lemma sizes_bounds f : filter_sizes cfg f →
  0 ≤ remainder_bits cfg f ∧ 1 ≤ rv_bits cfg f ≤ 32 ∧ rv_bits cfg f + lis ≤ 32 ∧ 0 ≤ rf_value_size f ∧
  rv_bits cfg f = remainder_bits cfg f + rf_value_size f.
Proof using Hcfg.
  intros [Hn Hl Hv Hfp Hrv]. destruct Hcfg as [Hlis _ _ _]. pose proof (log_num_buckets_ge (rf_num_fingerprints f)).
  unfold rv_bits, remainder_bits in *. lia.
Qed.

(** ** The place of a bucket *)
Section block.
Context (rv i : Z) (p : list Z) (off : Z) (E : list Z) (Hrv : 1 ≤ rv ≤ 32) (Hb : block_at cfg rv i p off E).
Local Abbreviation n := (lengthZ E).
Definition bucket_list : list Z := bucket_off rv lis <$> E.
Lemma bucket_list_sorted : StronglySorted Z.le bucket_list.
Proof using Hcfg Hb Hrv.
  unfold bucket_list. pose proof (bk_sorted _ _ _ _ _ _ Hb) as Hs. pose proof (bk_index _ _ _ _ _ _ Hb) as Hi.
  destruct Hcfg as [Hlis _ _ _]. clear Hb. induction Hs as [|x l Hl IH Hx]; [constructor|]. cbn.
  apply list.Forall_cons in Hi as [Hxi Hi]. constructor; [by apply IH|].
  rewrite list.Forall_fmap. rewrite list.Forall_forall in Hx, Hi |- *. intros y Hy. cbn.
  apply (bucket_off_le rv lis i); [lia|lia|done|apply Hi, Hy|apply Hx, Hy].
Qed.
Lemma bucket_list_range : Forall (λ b, 0 ≤ b < size) bucket_list.
Proof using Hcfg.
  unfold bucket_list. rewrite list.Forall_fmap. apply list.Forall_forall. intros e _. cbn. rewrite (rok_size _ Hcfg).
  apply bucket_off_range. destruct Hcfg. lia.
Qed.
Lemma bucket_list_length : lengthZ bucket_list = n.
Proof using. apply lengthZ_fmap. Qed.
Lemma block_ends : ends (mbit p (off + SIZEOF_ROUTING_HDR)) size (bucket_end bucket_list).
Proof using Hcfg Hb Hrv.
  apply encodes_ends; [apply bucket_list_sorted|exact (bk_encoding _ _ _ _ _ _ Hb)|apply bucket_list_range].
Qed.
Lemma upto_bounds c : 0 ≤ upto bucket_list c ≤ n.
Proof using. rewrite <-bucket_list_length. apply upto_range. Qed.
Lemma block_room : 0 ≤ off ∧ 0 ≤ n ≤ 4096 ∧
  off + SIZEOF_ROUTING_HDR + ((n + size - 1) / 8 + 4) + remainder_block_size n rv ≤ lengthZ p ∧
  packed_bytes rv n ≤ remainder_block_size n rv ∧ 3 ≤ remainder_block_size n rv.
Proof using Hb Hrv.
  destruct Hb as [_ H0 _ Hs Hr _ _ _ _]. unfold ROUTING_FPS_PER_PAGE in Hs. pose proof (lengthZ_nonneg E).
  pose proof (remainder_block_size_packed n rv ltac:(lia) Hrv). unfold routing_header_length, encoding_size in Hr. lia.
Qed.

Lemma bounds_run c : 0 ≤ c < size →
  routing_get_bucket_bounds (length p) p (off + SIZEOF_ROUTING_HDR) (routing_header_length cfg n) c =
    Some (upto bucket_list (c - 1), upto bucket_list c).
Proof using Hcfg Hb Hrv.
  intros Hc. destruct block_room as (H0 & Hn & Hroom & _ & Hr3). pose proof (upto_bounds c). pose proof size_range.
  pose proof (Z.div_mod (n + size - 1) 8 ltac:(lia)). pose proof (Z.mod_pos_bound (n + size - 1) 8 ltac:(lia)).
  set (P := bucket_end bucket_list c). assert (HP : 0 ≤ P ≤ n + size - 1) by (unfold P, bucket_end; lia).
  pose proof (Z.div_mod P 32 ltac:(lia)). pose proof (Z.mod_pos_bound P 32 ltac:(lia)).
  unfold SIZEOF_ROUTING_HDR in *.
  rewrite (routing_get_bucket_bounds_run p (off + 2) size (bucket_end bucket_list)).
  - unfold bucket_end. f_equal. f_equal; lia.
  - apply (bk_bytes _ _ _ _ _ _ Hb).
  - lia.
  - exact block_ends.
  - done.
  - unfold readable. fold P. lia.
  - fold P. unfold routing_header_length, encoding_size, SIZEOF_ROUTING_HDR. lia.
  - fold P. change (lengthZ p) with (Z.of_nat (length p)) in *. lia.
Qed.
(** The entries of a bucket. *)
Lemma in_bucket j e c : lookupZ E j = Some e →
  bucket_off rv lis e = c ↔ upto bucket_list (c - 1) ≤ j < upto bucket_list c.
Proof using Hcfg Hb Hrv.
  intros Hj. assert (Hj' : lookupZ bucket_list j = Some (bucket_off rv lis e)) by (unfold bucket_list; by rewrite lookupZ_fmap, Hj).
  pose proof (upto_lookup _ bucket_list_sorted _ _ c Hj'). pose proof (upto_lookup _ bucket_list_sorted _ _ (c - 1) Hj'). lia.
Qed.
Lemma item_run j e : lookupZ E j = Some e →
  PackedArray_get p (off + routing_header_length cfg n) j rv = Some (rem_value rv e).
Proof using Hcfg Hb Hrv.
  intros Hj. destruct block_room as (H0 & Hn & Hroom & Hpk & _). pose proof (lookupZ_Some _ _ _ Hj). pose proof size_range.
  assert (0 ≤ (n + size - 1) / 8) by (apply Z.div_pos; lia).
  pose proof (packed_bytes_mono rv ltac:(lia) (j + 1) n ltac:(lia)).
  unfold routing_header_length, encoding_size, SIZEOF_ROUTING_HDR in *.
  apply packed_get_run; [lia|apply (bk_bytes _ _ _ _ _ _ Hb)|lia|lia| |lia].
  apply (bk_items _ _ _ _ _ _ Hb). by rewrite lookupZ_fmap, Hj.
Qed.

(** ** The scan of the bucket *)
Context (vs fp : Z) (Hvs : 0 ≤ vs ≤ rv) (Hvals : Forall (λ e, e `mod` 2 ^ vs < 64) E).
Context (Hfp : 0 ≤ fp) (Hidx : index_of rv lis (fp * 2 ^ vs) = i).
Local Abbreviation c := (bucket_off rv lis (fp * 2 ^ vs)).

(** Of the entries of the bucket, those with the remainder are those of [fp]. *)
Lemma remainder_match e : index_of rv lis e = i → bucket_off rv lis e = c →
  rem_value rv e / 2 ^ vs = fp `mod` 2 ^ (rv - vs) ↔ e / 2 ^ vs = fp.
Proof using Hcfg Hrv Hvs Hidx.
  intros Hi Hc. destruct Hcfg as [Hlis _ _ _].
  pose proof (entry_split rv lis e ltac:(lia) ltac:(lia)) as He. pose proof (entry_split rv lis (fp * 2 ^ vs) ltac:(lia) ltac:(lia)) as Hf.
  rewrite Hi, Hc in He. rewrite Hidx, <-He in Hf. clear He.
  assert (Hf' : fp / 2 ^ (rv - vs) = e / 2 ^ rv).
  { rewrite <-Hf. replace rv with (vs + (rv - vs)) at 2 by lia. rewrite Z.pow_add_r, <-Z.div_div, Z.div_mul by lia. done. }
  assert (He' : e / 2 ^ vs = 2 ^ (rv - vs) * (e / 2 ^ rv) + rem_value rv e / 2 ^ vs).
  { pose proof (Z.div_mod e (2 ^ rv) ltac:(lia)) as E1. unfold rem_value.
    replace (2 ^ rv) with (2 ^ (rv - vs) * 2 ^ vs) in E1 at 1 by (rewrite <-Z.pow_add_r by lia; f_equal; lia).
    rewrite E1 at 1.
    replace (2 ^ (rv - vs) * 2 ^ vs * (e / 2 ^ rv) + e `mod` 2 ^ rv) with (e `mod` 2 ^ rv + (2 ^ (rv - vs) * (e / 2 ^ rv)) * 2 ^ vs) by ring.
    rewrite Z.div_add by lia. ring. }
  pose proof (Z.div_mod fp (2 ^ (rv - vs)) ltac:(lia)) as E2. rewrite Hf' in E2. rewrite He'. lia.
Qed.

Lemma entry_value e v : 0 ≤ v < 2 ^ vs → e = fp * 2 ^ vs + v ↔ e / 2 ^ vs = fp ∧ e `mod` 2 ^ vs = v.
Proof using Hvs.
  clear Hidx Hfp. intros Hv. pose proof (Z.div_mod e (2 ^ vs) ltac:(lia)). split; [intros ->|intros [<- <-]; lia].
  split; [rewrite Z.div_add_l, Z.div_small by lia; lia|]. rewrite Z.add_comm, Z_mod_plus_full. by apply Z.mod_small.
Qed.
Lemma item_value e : e `mod` 2 ^ vs < 64 → u16 (Z.land (rem_value rv e) (2 ^ vs - 1)) = e `mod` 2 ^ vs.
Proof using Hrv Hvs.
  clear Hidx Hfp. intros He. pose proof (Z.mod_pos_bound e (2 ^ vs) ltac:(lia)).
  rewrite Z.sub_1_r, <-Z.ones_equiv, Z.land_ones by lia. unfold rem_value.
  rewrite Z.mod_mod_divide; [apply u16_small; lia|].
  exists (2 ^ (rv - vs)). rewrite <-Z.pow_add_r by lia. f_equal. lia.
Qed.

(** The values of the entries of [fp] from [lo] to [hi]. *)
Definition found_in (lo hi v : Z) : Prop := v < 2 ^ vs ∧ ∃ j, lo ≤ j < hi ∧ lookupZ E j = Some (fp * 2 ^ vs + v).
Lemma found_in_step lo hi e v : 0 ≤ v → lo < hi → lookupZ E (hi - 1) = Some e →
  found_in lo hi v ↔ found_in lo (hi - 1) v ∨ e / 2 ^ vs = fp ∧ e `mod` 2 ^ vs = v.
Proof using Hvs.
  clear Hidx Hfp. intros Hv Hlt He. unfold found_in. split.
  - intros (Hv' & j & Hj & Hl). destruct (decide (j = hi - 1)) as [->|].
    + right. rewrite He in Hl. simplify_eq. by apply entry_value.
    + left. split; [done|]. exists j. split; [lia|done].
  - intros [(Hv' & j & Hj & Hl)|[Ed Em]].
    + split; [done|]. exists j. split; [lia|done].
    + pose proof (Z.mod_pos_bound e (2 ^ vs) ltac:(lia)). split; [lia|]. exists (hi - 1). split; [lia|]. rewrite He. f_equal.
      apply entry_value; [lia|done].
Qed.

Lemma lookup_loop_run k last found : upto bucket_list (c - 1) ≤ last - Z.of_nat k → last ≤ upto bucket_list c →
  ∃ r, lookup_loop k p (off + routing_header_length cfg n) last vs (rv - vs) (fp `mod` 2 ^ (rv - vs)) found = Ret r ∧
    ∀ v, 0 ≤ v → Z.testbit r v = true ↔ Z.testbit found v = true ∨ found_in (last - Z.of_nat k) last v.
Proof using All.
  revert last found. induction k as [|k IH]; intros last found Hlo Hhi.
  { exists found. split; [done|]. intros v Hv. split; [by left|]. intros [?|(_ & j & ? & _)]; [done|lia]. }
  pose proof (upto_bounds c). pose proof (upto_bounds (c - 1)). cbn [lookup_loop].
  destruct (proj2 (lookupZ_is_Some E (last - 1))) as [e He]; [lia|].
  replace (rv - vs + vs) with rv by lia. rewrite (item_run (last - 1) e He).
  pose proof (proj1 (Forall_lookupZ _ _) (bk_index _ _ _ _ _ _ Hb) _ _ He) as Hei. cbn in Hei.
  pose proof (proj1 (Forall_lookupZ _ _) Hvals _ _ He) as Hev. cbn in Hev.
  assert (Hec : bucket_off rv lis e = c) by (apply (in_bucket (last - 1) e); [done|lia]).
  pose proof (remainder_match e Hei Hec) as Hmatch. rewrite Z.shiftr_div_pow2 by lia.
  rewrite (item_value e Hev). pose proof (Z.mod_pos_bound e (2 ^ vs) ltac:(lia)) as Hv0.
  replace (last - Z.of_nat (S k)) with (last - 1 - Z.of_nat k) in * by lia.
  destruct (Z.eqb_spec (rem_value rv e / 2 ^ vs) (fp `mod` 2 ^ (rv - vs))) as [Eq|Ne].
  - rewrite (proj2 (Z.ltb_lt _ 64)) by done.
    destruct (IH (last - 1) (Z.lor found (Z.shiftl 1 (e `mod` 2 ^ vs)))) as (r & Hr & Hbits); [lia|lia|].
    exists r. split; [exact Hr|]. intros v Hv. rewrite Hbits, (found_in_step _ last e) by (done || lia).
    rewrite Z.lor_spec, orb_true_iff. apply Hmatch in Eq.
    assert (Z.testbit (Z.shiftl 1 (e `mod` 2 ^ vs)) v = true ↔ e `mod` 2 ^ vs = v); [|naive_solver].
    rewrite Z.shiftl_1_l, Z.pow2_bits_eqb by lia. apply Z.eqb_eq.
  - destruct (IH (last - 1) found) as (r & Hr & Hbits); [lia..|]. exists r. split; [exact Hr|].
    intros v Hv. rewrite Hbits, (found_in_step _ last e) by (done || lia). naive_solver.
Qed.
End block.

(** ** A lookup *)
Lemma routing_get_header_run pages f F i : filter_at cfg f pages F → 0 ≤ i < num_indices_of cfg f →
  ∃ p off, routing_get_header cfg pages (rf_addr f) i = Ret (p, off) ∧
    block_at cfg (rv_bits cfg f) i p off (entries_of cfg f i F).
Proof using Hcfg.
  intros Hf Hi. destruct (fa_blocks _ _ _ _ Hf i Hi) as (a & p & (ip & raw & Hip & Hraw & Ha) & Ha0 & Hp & Hb).
  exists p, (a `mod` rc_page_size cfg). split; [|done]. unfold routing_get_header. rewrite Hip. cbn [mbind option_bind].
  rewrite Hraw. cbn [mbind option_bind]. rewrite Ha, (proj2 (Z.eqb_neq a 0)) by lia. rewrite Hp. do 2 f_equal. lia.
Qed.
Lemma entries_of_elem f i F e : e ∈ entries_of cfg f i F ↔ index_of (rv_bits cfg f) lis e = i ∧ e ∈ F.
Proof using. unfold entries_of. by rewrite list_elem_of_filter. Qed.
Lemma has_value_found f i F fp v E : 0 ≤ v → E = entries_of cfg f i F → filter_sizes cfg f →
  index_of (rv_bits cfg f) lis (fp * 2 ^ rf_value_size f) = i →
  has_value f F fp v ↔ v < 2 ^ rf_value_size f ∧ ∃ j, lookupZ E j = Some (fp * 2 ^ rf_value_size f + v).
Proof using Hcfg.
  intros Hv -> Hs Hi. unfold has_value. rewrite <-elem_lookupZ, entries_of_elem. split; [|naive_solver lia].
  intros [Hv' HF]. split; [lia|]. split; [|done]. rewrite <-Hi.
  destruct (sizes_bounds f Hs) as (H0 & Hrv & _ & Hvs & Hsum). destruct Hcfg as [Hlis _ _ _].
  unfold index_of. replace (rv_bits cfg f + lis) with (rf_value_size f + (remainder_bits cfg f + lis)) by lia.
  rewrite Z.pow_add_r, <-!Z.div_div, Z.div_add_l, (Z.div_small v), Z.add_0_r, Z.div_mul by lia. done.
Qed.

Lemma lookup_fingerprint_run pages f F fp : filter_at cfg f pages F → 0 ≤ fp < 2 ^ rc_fingerprint_size cfg →
  Forall (λ e, e `mod` 2 ^ rf_value_size f < 64) F →
  ∃ r, lookup_fingerprint cfg pages f fp = Ret r ∧ ∀ v, 0 ≤ v → Z.testbit r v = true ↔ has_value f F fp v.
Proof using Hcfg.
  intros Hf Hfp Hvals. pose proof (fa_sizes _ _ _ _ Hf) as Hs. destruct (sizes_bounds f Hs) as (Hrem & Hrv & Hrl & Hvs & Hsum).
  pose proof Hs as [Hn HL Hv0 Hfs Hrv1].
  set (vs := rf_value_size f) in *. set (rv := rv_bits cfg f) in *. destruct size_range as [Hsz _].
  pose proof (log_num_buckets_ge (rf_num_fingerprints f)) as Hlog. pose proof Hcfg as [Hlis Hsize _ _].
  assert (Hfpv : 0 ≤ fp * 2 ^ vs < 2 ^ 32).
  { split; [nia|]. apply Z.lt_le_trans with (2 ^ (rc_fingerprint_size cfg + vs)); [|apply Z.pow_le_mono_r; lia].
    rewrite Z.pow_add_r by lia. apply Z.mul_lt_mono_pos_r; lia. }
  unfold lookup_fingerprint. fold vs.
  rewrite (u32_small (rc_fingerprint_size cfg - log_num_buckets cfg (rf_num_fingerprints f))) by (unfold remainder_bits in *; lia).
  change (rc_fingerprint_size cfg - log_num_buckets cfg (rf_num_fingerprints f)) with (remainder_bits cfg f).
  rewrite <-Hsum. rewrite Z.shiftl_mul_pow2, u32_small by lia. unfold routing_get_bucket.
  rewrite routing_get_index_run by lia. set (i := index_of rv lis (fp * 2 ^ vs)).
  rewrite Z.shiftr_div_pow2, Hsize by lia. change ((fp * 2 ^ vs / 2 ^ rv) `mod` 2 ^ lis) with (bucket_off rv lis (fp * 2 ^ vs)).
  set (c := bucket_off rv lis (fp * 2 ^ vs)).
  assert (Hc : 0 ≤ c < size) by (rewrite Hsize; apply bucket_off_range; lia).
  rewrite Z.sub_1_r, <-Z.ones_equiv, Z.land_ones by done.
  assert (Hi : 0 ≤ i < num_indices_of cfg f).
  { unfold i, index_of, num_indices_of. split; [apply Z.div_pos; lia|]. apply Z.div_lt_upper_bound; [lia|].
    rewrite <-Z.pow_add_r by lia. apply Z.lt_le_trans with (2 ^ (rc_fingerprint_size cfg + vs)).
    - rewrite Z.pow_add_r by lia. apply Z.mul_lt_mono_pos_r; lia.
    - apply Z.pow_le_mono_r; [lia|]. unfold rv, rv_bits, remainder_bits. fold vs. lia. }
  destruct (routing_get_header_run pages f F i Hf Hi) as (p & off & -> & Hb). fold rv in Hb.
  set (E := entries_of cfg f i F) in *. rewrite (bk_num _ _ _ _ _ _ Hb).
  rewrite (bounds_run rv i p off E Hrv Hb c Hc). set (lo := upto (bucket_list rv E) (c - 1)). set (hi := upto (bucket_list rv E) c).
  assert (Hle : lo ≤ hi) by (apply upto_mono; [by eapply bucket_list_sorted|lia]).
  assert (Hhas : ∀ v, 0 ≤ v → has_value f F fp v ↔ found_in E vs fp lo hi v).
  { intros v Hv. rewrite (has_value_found f i F fp v E) by done. fold vs. unfold found_in.
    split; [|naive_solver]. intros (Hvv & j & Hj). split; [done|]. exists j. split; [|done].
    apply (in_bucket rv i p off E Hrv Hb j _ c Hj). unfold c, bucket_off. f_equal.
    replace rv with (vs + remainder_bits cfg f) by lia.
    rewrite Z.pow_add_r, <-!Z.div_div, Z.div_add_l, (Z.div_small v), Z.add_0_r, Z.div_mul by lia. done. }
  destruct (Z.eqb_spec lo hi) as [Eq|Ne].
  { exists 0. split; [done|]. intros v Hv. rewrite Z.testbit_0_l, Hhas by done. split; [done|].
    intros (_ & j & Hj & _). lia. }
  destruct (lookup_loop_run rv i p off E Hrv Hb vs fp ltac:(lia)) with (k := Z.to_nat (hi - lo)) (last := hi) (found := 0)
    as (r & Hrun & Hbits).
  - rewrite list.Forall_forall in *. intros e He. apply Hvals. by apply entries_of_elem in He as [_ He].
  - lia.
  - done.
  - fold c lo. lia.
  - done.
  - replace (rv - vs) with (remainder_bits cfg f) in Hrun by lia. exists r. split; [exact Hrun|].
    intros v Hv. rewrite Hbits, Z.testbit_0_l, Hhas by done. replace (hi - Z.of_nat (Z.to_nat (hi - lo))) with lo by lia.
    naive_solver.
Qed.
End lookup.

(** * Reading an index of the old filter

    The fingerprints of an index are put together again from the counts of its
    buckets and its packed remainders, with room for the new values. *)
(** An entry with a value of [vs] bits as one with a value of [vs'] bits. *)
Definition widen (vs vs' e : Z) : Z := (e / 2 ^ vs) * 2 ^ vs' + e `mod` 2 ^ vs.
Lemma widen_same vs e : 0 ≤ vs → widen vs vs e = e.
Proof. intros. unfold widen. pose proof (Z.div_mod e (2 ^ vs) ltac:(lia)). lia. Qed.
Lemma widen_le vs vs' x y : 0 ≤ vs ≤ vs' → x ≤ y → widen vs vs' x ≤ widen vs vs' y.
Proof.
  intros Hvs Hxy. unfold widen. pose proof (Z.pow_le_mono_r 2 vs vs' ltac:(lia) ltac:(lia)).
  pose proof (Z.mod_pos_bound x (2 ^ vs) ltac:(lia)). pose proof (Z.mod_pos_bound y (2 ^ vs) ltac:(lia)).
  pose proof (Z.div_mod x (2 ^ vs) ltac:(lia)). pose proof (Z.div_mod y (2 ^ vs) ltac:(lia)).
  pose proof (Z.div_le_mono x y (2 ^ vs) ltac:(lia) Hxy). destruct (decide (x / 2 ^ vs = y / 2 ^ vs)) as [E|]; [rewrite E in *; lia|nia].
Qed.
(** The fingerprint and the value of a widened entry. *)
Lemma widen_entry vs vs' fp v : 0 ≤ vs ≤ vs' → 0 ≤ v < 2 ^ vs → widen vs vs' (fp * 2 ^ vs + v) = fp * 2 ^ vs' + v.
Proof.
  intros Hvs Hv. unfold widen. rewrite Z.div_add_l, Z.div_small, Z.add_0_r by lia. f_equal.
  rewrite Z.add_comm, Z_mod_plus_full. by apply Z.mod_small.
Qed.
Lemma widen_div vs vs' e : 0 ≤ vs ≤ vs' → widen vs vs' e / 2 ^ vs' = e / 2 ^ vs ∧ widen vs vs' e `mod` 2 ^ vs' = e `mod` 2 ^ vs.
Proof.
  intros Hvs. unfold widen. pose proof (Z.mod_pos_bound e (2 ^ vs) ltac:(lia)). pose proof (Z.pow_le_mono_r 2 vs vs' ltac:(lia) ltac:(lia)).
  split; [rewrite Z.div_add_l, (Z.div_small (e `mod` 2 ^ vs)) by lia; lia|]. rewrite Z.add_comm, Z_mod_plus_full. apply Z.mod_small. lia.
Qed.
Lemma rescale_run fs vs vs' e : 0 ≤ fs → 0 ≤ vs ≤ vs' → fs + vs' ≤ 32 → 0 ≤ e < 2 ^ (fs + vs) → rescale vs vs' e = widen vs vs' e.
Proof.
  intros Hfs Hvs Hsum He. unfold rescale, widen. rewrite Z.sub_1_r, <-Z.ones_equiv, Z.land_ones by lia.
  pose proof (Z.div_mod e (2 ^ vs) ltac:(lia)) as Hd. pose proof (Z.mod_pos_bound e (2 ^ vs) ltac:(lia)).
  pose proof (Z.pow_le_mono_r 2 vs vs' ltac:(lia) ltac:(lia)).
  assert (Hq : 0 ≤ e / 2 ^ vs < 2 ^ fs).
  { split; [apply Z.div_pos; lia|]. apply Z.div_lt_upper_bound; [lia|]. rewrite <-Z.pow_add_r by lia. rewrite (Z.add_comm vs). lia. }
  assert (Es : Z.shiftl (e - e `mod` 2 ^ vs) (vs' - vs) = 2 ^ vs' * (e / 2 ^ vs)).
  { rewrite Z.shiftl_mul_pow2 by lia. replace (e - e `mod` 2 ^ vs) with (2 ^ vs * (e / 2 ^ vs)) by lia.
    replace (2 ^ vs * (e / 2 ^ vs) * 2 ^ (vs' - vs)) with (2 ^ vs * 2 ^ (vs' - vs) * (e / 2 ^ vs)) by ring.
    rewrite <-Z.pow_add_r by lia. do 2 f_equal. lia. }
  rewrite Es, u32_small.
  - rewrite lor_add_pow by lia. lia.
  - split; [nia|]. apply Z.lt_le_trans with (2 ^ (vs' + fs)); [|apply Z.pow_le_mono_r; lia]. rewrite Z.pow_add_r by lia.
    apply Z.mul_lt_mono_pos_l; lia.
Qed.

Section old.
Context (cfg : routing_config) (Hcfg : routing_config_ok cfg).
Local Abbreviation lis := (rc_log_index_size cfg).
Local Abbreviation size := (rc_index_size cfg).

Section buckets.
Context (rv i : Z) (E : list Z) (Hrv : 1 ≤ rv ≤ 32).
Context (HE : StronglySorted Z.le (bucket_list cfg rv E)).
Context (Hidx : Forall (λ e, index_of rv lis e = i) E) (Hrange : Forall (λ e, 0 ≤ e < 2 ^ 32) E).
Local Abbreviation up := (upto (bucket_list cfg rv E)).

Lemma or_entry c j e : lookupZ E j = Some e → up (c - 1) ≤ j < up c →
  Z.lor (rem_value rv e) (u32 (Z.shiftl (i * 2 ^ lis + c) rv)) = e.
Proof using Hcfg Hrv HE Hidx Hrange.
  intros Hj Hc. destruct Hcfg as [Hlis _ _ _].
  assert (Hb : bucket_off rv lis e = c).
  { assert (Hj' : lookupZ (bucket_list cfg rv E) j = Some (bucket_off rv lis e)) by (unfold bucket_list; by rewrite lookupZ_fmap, Hj).
    pose proof (upto_lookup _ HE _ _ c Hj'). pose proof (upto_lookup _ HE _ _ (c - 1) Hj'). lia. }
  rewrite Forall_lookupZ in Hidx, Hrange. pose proof (Hidx _ _ Hj) as Hi. pose proof (Hrange _ _ Hj) as Hr. cbn in Hi, Hr.
  pose proof (entry_split rv lis e ltac:(lia) ltac:(lia)) as Hs. rewrite Hi, Hb in Hs.
  pose proof (Z.div_mod e (2 ^ rv) ltac:(lia)). pose proof (rem_value_range rv e ltac:(lia)). unfold rem_value in *.
  pose proof (Z.div_pos e (2 ^ rv) ltac:(lia) ltac:(lia)). rewrite Z.shiftl_mul_pow2 by lia. rewrite <-Hs, u32_small by nia.
  rewrite Z.lor_comm, Z.mul_comm, lor_add_pow by lia. lia.
Qed.
Lemma or_buckets_run k c tail : 0 ≤ c → c + Z.of_nat k = size → 0 ≤ i → (i + 1) * 2 ^ lis < 2 ^ 32 →
  or_buckets rv (i * 2 ^ lis + c)
    ((λ c, bucket_end (bucket_list cfg rv E) c - bucket_end (bucket_list cfg rv E) (c - 1) - 1) <$> seqZ c (Z.of_nat k))
    ((rem_value rv <$> drop (Z.to_nat (up (c - 1))) E) ++ tail) =
  Some (drop (Z.to_nat (up (c - 1))) E ++ tail).
Proof using Hcfg Hrv HE Hidx Hrange.
  intros Hc Hk Hi Hend. revert c Hc Hk. induction k as [|k IH]; intros c Hc Hk.
  { cbn. replace (c - 1) with (size - 1) by lia. rewrite (drop_ge E); [done|].
    enough (lengthZ E ≤ up (size - 1)) by (unfold lengthZ in *; lia).
    destruct (decide (lengthZ E = 0)); [pose proof (upto_range (bucket_list cfg rv E) (size - 1)); lia|].
    pose proof (lengthZ_nonneg E). destruct (proj2 (lookupZ_is_Some (bucket_list cfg rv E) (lengthZ E - 1))) as [b Hb].
    { rewrite bucket_list_length. lia. }
    pose proof (proj1 (Forall_lookupZ _ _) (bucket_list_range cfg Hcfg rv E) _ _ Hb) as Hbr. cbn in Hbr.
    pose proof (proj1 (upto_lookup _ HE _ _ (size - 1) Hb) ltac:(lia)). lia. }
  destruct Hcfg as [Hlis Hsize _ _]. rewrite Hsize in Hk.
  rewrite (seqZ_cons c (Z.of_nat (S k))) by lia. rewrite fmap_cons. cbn [or_buckets].
  replace (Z.pred (Z.of_nat (S k))) with (Z.of_nat k) by lia.
  pose proof (upto_mono _ HE (c - 1) c ltac:(lia)) as Hmono. pose proof (upto_bounds cfg rv E c) as Hu. pose proof (upto_bounds cfg rv E (c - 1)) as Hu'.
  set (lo := up (c - 1)) in *. set (hi := up c) in *.
  assert (Hcnt : bucket_end (bucket_list cfg rv E) c - bucket_end (bucket_list cfg rv E) (c - 1) - 1 = hi - lo).
  { unfold bucket_end, hi, lo. lia. }
  rewrite Hcnt. set (L := drop (Z.to_nat lo) E).
  assert (HL : lengthZ L = lengthZ E - lo) by (unfold L, lengthZ in *; rewrite length_drop; lia).
  rewrite (proj2 (Z.leb_le _ _)) by (rewrite lengthZ_app, lengthZ_fmap; pose proof (lengthZ_nonneg tail); lia).
  assert (Hfit : (Z.to_nat (hi - lo) ≤ length (rem_value rv <$> L))%nat) by (rewrite length_fmap; unfold lengthZ in *; lia).
  rewrite drop_app_le, take_app_le by done. rewrite <-fmap_drop, <-fmap_take.
  assert (Hd : drop (Z.to_nat (hi - lo)) L = drop (Z.to_nat (up (c + 1 - 1))) E).
  { unfold L. rewrite drop_drop. f_equal. replace (c + 1 - 1) with c by lia. fold hi. lia. }
  assert (0 ≤ i * 2 ^ lis) by (apply Z.mul_nonneg_nonneg; lia).
  rewrite Hd, (u32_small (i * 2 ^ lis + c + 1)) by lia. replace (i * 2 ^ lis + c + 1) with (i * 2 ^ lis + (c + 1)) by lia. unfold Z.succ.
  rewrite IH by lia. cbn [mbind option_bind]. rewrite <-Hd, app_assoc. do 2 f_equal.
  rewrite <-(take_drop (Z.to_nat (hi - lo)) L) at 3. f_equal.
  rewrite <-list_fmap_compose. rewrite <-(list_fmap_id (take _ L)) at 2. apply list_fmap_ext. intros j e Hj. cbn.
  apply lookup_take_Some in Hj as [Hj Hjlt]. unfold L in Hj. rewrite lookup_drop in Hj.
  apply (or_entry c (lo + Z.of_nat j)); [|fold hi lo; lia].
  unfold lookupZ. rewrite bool_decide_true by lia. by replace (Z.to_nat (lo + Z.of_nat j)) with (Z.to_nat lo + j)%nat by lia.
Qed.
End buckets.

(** ** The bucket counts of a block *)
Lemma block_counts_run rv i p off E : 1 ≤ rv ≤ 32 → block_at cfg rv i p off E →
  routing_get_bucket_counts cfg (length p) p (off + SIZEOF_ROUTING_HDR) =
    Some ((λ c, bucket_end (bucket_list cfg rv E) c - bucket_end (bucket_list cfg rv E) (c - 1) - 1) <$> seqZ 0 size).
Proof using Hcfg.
  intros Hrv Hb. destruct (block_room cfg rv i p off E Hrv Hb) as (H0 & Hn & Hroom & _ & Hr3).
  destruct (size_range cfg Hcfg) as [Hsz Hmod]. pose proof (upto_bounds cfg rv E (size - 1)) as Hu.
  set (P := bucket_end (bucket_list cfg rv E) (size - 1)).
  assert (HP : 0 ≤ P ≤ lengthZ E + size - 1) by (unfold P, bucket_end; lia).
  pose proof (Z.div_mod (lengthZ E + size - 1) 8 ltac:(lia)). pose proof (Z.mod_pos_bound (lengthZ E + size - 1) 8 ltac:(lia)).
  pose proof (Z.div_mod P 64 ltac:(lia)). pose proof (Z.mod_pos_bound P 64 ltac:(lia)).
  assert (Hread : off + 2 + 8 * (P / 64) + 8 ≤ lengthZ p).
  { pose proof (remainder_block_size_packed (lengthZ E) rv ltac:(lia) Hrv) as [_ Hbs]. unfold SIZEOF_ROUTING_HDR in *.
    destruct (decide (lengthZ E = 0)) as [E0|].
    - pose proof (Z.div_mod size 64 ltac:(lia)). rewrite E0 in *. lia.
    - assert (4 ≤ remainder_block_size (lengthZ E) rv); [|lia].
      unfold remainder_block_size. rewrite u64_small by nia. pose proof (Z.div_pos (lengthZ E * rv - 1) 8 ltac:(nia) ltac:(lia)).
      assert ((lengthZ E * rv - 1) / 8 < 2 ^ 20) by (apply Z.div_lt_upper_bound; nia). rewrite u32_small; lia. }
  unfold SIZEOF_ROUTING_HDR. rewrite (routing_get_bucket_counts_run p (off + 2) size (bucket_end (bucket_list cfg rv E))).
  - done.
  - apply (bk_bytes _ _ _ _ _ _ Hb).
  - lia.
  - by apply (block_ends cfg Hcfg rv i p off E Hrv Hb).
  - done.
  - lia.
  - unfold readable8. fold P. lia.
  - fold P. unfold lengthZ in *. lia.
  - fold P. lia.
Qed.

Lemma with_old_src_same a : with_old_src (as_old_src a) a = a.
Proof using. by destruct a. Qed.
Lemma rescaled_lookup (g : Z → Z) l n j x : 0 ≤ n ≤ lengthZ l → 0 ≤ j < n → lookupZ l j = Some x →
  lookupZ ((g <$> take (Z.to_nat n) l) ++ drop (Z.to_nat n) l) j = Some (g x).
Proof using.
  intros Hn Hj Hx. rewrite lookupZ_app, bool_decide_true.
  - by rewrite lookupZ_fmap, lookupZ_take, bool_decide_true, Hx by lia.
  - rewrite lengthZ_fmap. unfold lengthZ in *. rewrite length_take. lia.
Qed.

(** [read_old_index] leaves the widened entries of the index. *)
Lemma read_old_index_run old F vs' o a : filter_at cfg old (as_pages a) F → 0 ≤ o < num_indices_of cfg old →
  rf_value_size old ≤ vs' → rc_fingerprint_size cfg + vs' ≤ 32 → lengthZ (as_old_src a) = 4096 →
  ∃ src, read_old_index cfg old (rv_bits cfg old) vs' o a = Ret (lengthZ (entries_of cfg old o F), with_old_src src a) ∧
    lengthZ src = 4096 ∧
    ∀ j e, lookupZ (entries_of cfg old o F) j = Some e → lookupZ src j = Some (widen (rf_value_size old) vs' e).
Proof using Hcfg.
  intros Hf Ho Hvs Hfs Hsrc. unfold read_old_index. rewrite (proj2 (Z.eqb_neq _ _)) by apply (fa_addr _ _ _ _ Hf).
  rewrite run_get. destruct (routing_get_header_run cfg Hcfg _ old F o Hf Ho) as (p & off & Hhdr & Hb).
  pose proof (fa_sizes _ _ _ _ Hf) as Hs. destruct (sizes_bounds cfg Hcfg old Hs) as (Hrem & Hrv & Hrl & Hvs0 & Hsum).
  pose proof Hs as [Hn HL _ Hfp _].
  set (rv := rv_bits cfg old) in *. set (vs := rf_value_size old) in *. set (E := entries_of cfg old o F) in *.
  assert (Hlift : ∀ B (k : list Z * Z → M add_state B), (mlift (routing_get_header cfg (as_pages a) (rf_addr old) o) ≫= k) a = k (p, off) a).
  { intros B k. unfold mbind, M_bind, mlift. by rewrite Hhdr. }
  rewrite Hlift. cbn beta iota. rewrite (run_opt _ _ _ _ (bk_num _ _ _ _ _ _ Hb)), (run_opt _ _ _ _ (block_counts_run rv o p off E Hrv Hb)).
  destruct (block_room cfg rv o p off E Hrv Hb) as (H0 & Hn' & Hroom & Hpk & Hr3). destruct (size_range cfg Hcfg) as [Hsz _].
  destruct (Z.eqb_spec (lengthZ E) 0) as [E0|Hne].
  { exists (as_old_src a). rewrite with_old_src_same, E0. split_and!; [done|done|]. intros j e Hj. apply lookupZ_Some in Hj. lia. }
  rewrite run_assert by (apply Z.leb_le; exact (bk_small _ _ _ _ _ _ Hb)).
  assert (Hhl : u16 (routing_header_length cfg (lengthZ E)) = routing_header_length cfg (lengthZ E)).
  { unfold routing_header_length, encoding_size, SIZEOF_ROUTING_HDR. pose proof (Z.div_pos (lengthZ E + size - 1) 8 ltac:(lia) ltac:(lia)).
    assert ((lengthZ E + size - 1) / 8 < 2 ^ 15) by (apply Z.div_lt_upper_bound; lia). apply u16_small. lia. }
  rewrite Hhl. assert (HE : StronglySorted Z.le (bucket_list cfg rv E)) by (by eapply bucket_list_sorted).
  assert (Hrange : Forall (λ e, 0 ≤ e < 2 ^ (rc_fingerprint_size cfg + vs)) E).
  { pose proof (fa_range _ _ _ _ Hf) as Hr. rewrite list.Forall_forall in *. intros e He. apply Hr. by apply entries_of_elem in He as [_ ?]. }
  assert (Hrange32 : Forall (λ e, 0 ≤ e < 2 ^ 32) E).
  { eapply list.Forall_impl; [exact Hrange|]. cbn. intros e He. pose proof (Z.pow_le_mono_r 2 (rc_fingerprint_size cfg + vs) 32 ltac:(lia) ltac:(lia)). lia. }
  assert (Hunp : PackedArray_unpack p (off + routing_header_length cfg (lengthZ E)) 0 (as_old_src a) (lengthZ E) rv =
    Some ((rem_value rv <$> E) ++ drop (length E) (as_old_src a))).
  { rewrite <-(lengthZ_fmap (rem_value rv) E) at 2. rewrite <-(length_fmap (rem_value rv) E). apply unpack_run.
    - lia.
    - apply (bk_bytes _ _ _ _ _ _ Hb).
    - unfold routing_header_length, encoding_size, SIZEOF_ROUTING_HDR. pose proof (Z.div_pos (lengthZ E + size - 1) 8 ltac:(lia) ltac:(lia)). lia.
    - intros Hnil. apply fmap_nil_inv in Hnil. rewrite Hnil in Hne. done.
    - apply (bk_items _ _ _ _ _ _ Hb).
    - rewrite lengthZ_fmap. unfold routing_header_length, encoding_size, SIZEOF_ROUTING_HDR in *. lia. }
  rewrite (run_opt _ _ _ _ Hunp). pose proof Hcfg as [Hlis Hsize _ _].
  assert (Hoend : (o + 1) * 2 ^ lis < 2 ^ 32).
  { unfold num_indices_of in Ho. pose proof (log_num_buckets_ge cfg (rf_num_fingerprints old)).
    assert (log_num_buckets cfg (rf_num_fingerprints old) < 32).
    { unfold log_num_buckets. destruct (Z.ltb_spec (Z.log2 (rf_num_fingerprints old)) lis); [lia|]. apply Z.log2_lt_pow2; lia. }
    apply Z.le_lt_trans with (2 ^ log_num_buckets cfg (rf_num_fingerprints old)); [|apply Z.pow_lt_mono_r; lia].
    replace (log_num_buckets cfg (rf_num_fingerprints old)) with (log_num_buckets cfg (rf_num_fingerprints old) - lis + lis) by lia.
    rewrite Z.pow_add_r by lia. apply Z.mul_le_mono_nonneg_r; lia. }
  assert (Hor : or_buckets rv (u32 (o * size)) ((λ c, bucket_end (bucket_list cfg rv E) c - bucket_end (bucket_list cfg rv E) (c - 1) - 1) <$> seqZ 0 size)
    ((rem_value rv <$> E) ++ drop (length E) (as_old_src a)) = Some (E ++ drop (length E) (as_old_src a))).
  { pose proof (or_buckets_run rv o E Hrv HE (bk_index _ _ _ _ _ _ Hb) Hrange32 (Z.to_nat size) 0 (drop (length E) (as_old_src a))) as Hrun.
    rewrite Z2Nat.id, Z.add_0_r in Hrun by lia. change (0 - 1) with (-1) in Hrun. rewrite upto_neg in Hrun; [|lia|].
    - change (Z.to_nat 0) with 0%nat in Hrun. rewrite !drop_0 in Hrun. rewrite Hsize, u32_small in * by nia. apply Hrun; lia.
    - eapply list.Forall_impl; [by apply bucket_list_range|]. cbn. lia. }
  rewrite (run_opt _ _ _ _ Hor). set (src := E ++ drop (length E) (as_old_src a)).
  assert (Hsl : lengthZ src = 4096).
  { unfold src. rewrite lengthZ_app. unfold lengthZ in *. rewrite length_drop. lia. }
  assert (Hlk : ∀ j e, lookupZ E j = Some e → lookupZ src j = Some e).
  { intros j e Hj. unfold src. rewrite lookupZ_app, bool_decide_true; [done|]. by apply lookupZ_Some in Hj as [_ ?]. }
  destruct (Z.eqb_spec vs vs') as [<-|Hvne]; cbn [negb].
  - exists src. split_and!; [done|done|]. intros j e Hj. rewrite widen_same by lia. by apply Hlk.
  - rewrite (proj2 (Z.ltb_ge vs' vs)) by lia.
    exists ((rescale vs vs' <$> take (Z.to_nat (lengthZ E)) src) ++ drop (Z.to_nat (lengthZ E)) src).
    split_and!; [done| |].
    + rewrite lengthZ_app, lengthZ_fmap, <-lengthZ_app, take_drop. done.
    + intros j e Hj. pose proof (lookupZ_Some _ _ _ Hj). pose proof (proj1 (Forall_lookupZ _ _) Hrange _ _ Hj) as He. cbn in He.
      rewrite (rescaled_lookup _ _ _ j e) by (done || lia || by apply Hlk). f_equal.
      pose proof (rok_fp _ Hcfg). apply (rescale_run (rc_fingerprint_size cfg)); lia.
Qed.
End old.
