(* ===== verification/RoutingMerge.v ===== *)
(** * The merge into an index

    What the loop over the old and the new fingerprints of an index leaves: the
    bits of the encoding buffer and the remainders of the merged list. *)
From S2P Require Import Prelude Bytes PackedArray RadixSort RoutingFilter RoutingAdd RoutingRepr.
From stdpp Require Import sorting.
Open Scope Z_scope.

(** ** The encoding buffer *)
Record encoding_buffer (buf : list Z) : Prop := { eb_ok : bytes_ok buf; eb_len : lengthZ buf = 512 }.
Lemma land_lnot_testbit w b i : 0 ≤ b < 64 → 0 ≤ i < 64 →
  Z.testbit (Z.land w (u64 (Z.lnot (2 ^ b)))) i = (if decide (i = b) then false else Z.testbit w i).
Proof.
  intros Hb Hi. rewrite Z.land_spec. unfold u64. rewrite testbit_mod, Z.lnot_spec, Z.pow2_bits_eqb by lia.
  rewrite (proj2 (Z.ltb_lt i 64)) by lia. destruct (decide (i = b)) as [->|].
  - rewrite Z.eqb_refl. apply andb_false_r.
  - rewrite (proj2 (Z.eqb_neq b i)) by lia. apply andb_true_r.
Qed.
Lemma routing_unset_bit_run buf b : encoding_buffer buf → 0 ≤ b < 4096 →
  ∃ buf', routing_unset_bit buf b = Some buf' ∧ encoding_buffer buf' ∧
    ∀ t, 0 ≤ t → mbit buf' 0 t = (if decide (t = b) then false else mbit buf 0 t).
Proof.
  intros [Hok Hlen] Hb. unfold routing_unset_bit.
  pose proof (Z.div_mod b 64 ltac:(lia)). pose proof (Z.mod_pos_bound b 64 ltac:(lia)).
  pose proof (Z.div_pos b 64 ltac:(lia) ltac:(lia)). assert (b / 64 < 64) by (apply Z.div_lt_upper_bound; lia).
  destruct (get_le_bits 8 buf 0 (8 * (b / 64)) Hok) as (w & Hw & [Hw0 _] & Hwb); [lia|lia|cbn; lia|].
  rewrite Z.add_0_l in Hw. rewrite Hw. cbn [mbind option_bind].
  set (z := Z.land w (u64 (Z.lnot (2 ^ (b `mod` 64))))).
  assert (Hz : 0 ≤ z < 2 ^ 64).
  { pose proof (u64_range (Z.lnot (2 ^ (b `mod` 64)))). split; [apply Z.land_nonneg; lia|]. apply bits_range; [lia|apply Z.land_nonneg; lia|].
    intros i Hi. unfold z. rewrite Z.land_spec, (testbit_small 64 (u64 _)) by (done || apply u64_range). apply andb_false_r. }
  destruct (put_le_bits 8 buf 0 (8 * (b / 64)) z Hok) as (buf' & Hput & Hok' & Ho & Hbits); [lia|lia|cbn; lia|exact Hz|].
  rewrite Z.add_0_l in Hput. exists buf'. split_and!; [exact Hput|split; [done|by rewrite (proj1 Ho)]|].
  intros t Ht. rewrite Hbits by done. change (8 * Z.of_nat 8) with 64 in *.
  destruct (Z.leb_spec (8 * (8 * (b / 64))) t), (Z.ltb_spec t (8 * (8 * (b / 64)) + 64)); cbn [andb];
    [|by rewrite decide_False by lia..].
  unfold z. rewrite land_lnot_testbit by lia. destruct (decide (t = b)) as [->|Hne].
  - by rewrite decide_True by lia.
  - rewrite decide_False by lia. rewrite Hwb, (proj2 (Z.ltb_lt _ 64)) by lia. cbn [andb]. f_equal. lia.
Qed.

Lemma land_rem_value rv e : 0 ≤ rv ≤ 32 → Z.land e (u32 (2 ^ rv - 1)) = rem_value rv e.
Proof.
  intros Hrv. rewrite u32_small.
  - by rewrite Z.sub_1_r, <-Z.ones_equiv, Z.land_ones by lia.
  - pose proof (Z.pow_le_mono_r 2 rv 32 ltac:(lia) ltac:(lia)). lia.
Qed.
Lemma routing_get_bucket_run rv e : 0 ≤ rv → routing_get_bucket e rv = e / 2 ^ rv.
Proof. intros. by apply Z.shiftr_div_pow2. Qed.

Section merge.
Context (vs rv lis i : Z) (Hrv : 1 ≤ rv ≤ 32) (Hlis : 0 ≤ lis ≤ 16) (Hi : 0 ≤ i) (Hend : (i + 1) * 2 ^ lis ≤ 2 ^ 32).
Context (old_src fp_arr : list Z) (fp_no old_n new_n : Z).
Local Abbreviation loop := (merge_loop vs rv old_src fp_arr fp_no old_n new_n ((i + 1) * 2 ^ lis)).
Local Abbreviation iteration := (merge_iteration vs rv old_src fp_arr fp_no old_n new_n ((i + 1) * 2 ^ lis)).
Local Abbreviation in_index := (λ e, index_of rv lis e = i).

(** The entries [P] are in the encoding and in [dst]. *)
Record merged (P : list Z) (m : merge_state) : Prop := {
  mr_buffer : encoding_buffer (mg_encoding m);
  mr_bits : ∀ t, 0 ≤ t → mbit (mg_encoding m) 0 t = false ↔
    4096 ≤ t ∨ ∃ j b, lookupZ (bucket_off rv lis <$> P) j = Some b ∧ t = b + j;
  mr_dst : mg_dst m = rem_value rv <$> P;
  mr_bit : mg_header_bit m = mg_last_bucket m - i * 2 ^ lis + lengthZ P;
  mr_last : i * 2 ^ lis ≤ mg_last_bucket m < (i + 1) * 2 ^ lis;
}.
(** The state after [e] is emitted. *)
Definition emit (m : merge_state) (old new num_unique e : Z) (encoding : list Z) : merge_state :=
  mk_merge_state old new (e / 2 ^ rv) (e / 2 ^ rv - i * 2 ^ lis + lengthZ (mg_dst m) + 1) encoding
    (mg_dst m ++ [rem_value rv e]) num_unique e.

Lemma in_index_bucket e : in_index e → i * 2 ^ lis ≤ e / 2 ^ rv < (i + 1) * 2 ^ lis.
Proof using Hrv Hlis.
  intros He. pose proof (entry_split rv lis e ltac:(lia) ltac:(lia)) as Hs. rewrite He in Hs.
  pose proof (bucket_off_range rv lis e ltac:(lia)). lia.
Qed.
Lemma index_bucket_end e : i < index_of rv lis e → (i + 1) * 2 ^ lis ≤ e / 2 ^ rv.
Proof using Hrv Hlis.
  intros He. pose proof (entry_split rv lis e ltac:(lia) ltac:(lia)) as Hs. pose proof (bucket_off_range rv lis e ltac:(lia)). nia.
Qed.

Lemma merged_emit P m old new nu e : merged P m → in_index e → mg_last_bucket m ≤ e / 2 ^ rv → lengthZ P + 2 ^ lis < 4096 →
  ∃ encoding, routing_unset_bit (mg_encoding m) (u64 (mg_header_bit m + u32 (e / 2 ^ rv - mg_last_bucket m))) = Some encoding ∧
    u64 (mg_header_bit m + u32 (e / 2 ^ rv - mg_last_bucket m)) + 1 = e / 2 ^ rv - i * 2 ^ lis + lengthZ (mg_dst m) + 1 ∧
    merged (P ++ [e]) (emit m old new nu e encoding).
Proof using Hrv Hlis Hend Hi.
  intros [Hbuf Hbits Hdst Hbit Hlast] He Hle Hroom. pose proof (in_index_bucket e He) as Hb. pose proof (lengthZ_nonneg P).
  pose proof (entry_split rv lis e ltac:(lia) ltac:(lia)) as Hs. rewrite He in Hs.
  rewrite (u32_small (e / 2 ^ rv - mg_last_bucket m)), u64_small by lia.
  assert (Hhb : mg_header_bit m + (e / 2 ^ rv - mg_last_bucket m) = bucket_off rv lis e + lengthZ P) by lia. rewrite Hhb.
  destruct (routing_unset_bit_run (mg_encoding m) (bucket_off rv lis e + lengthZ P) Hbuf) as (enc & Hrun & Hbuf' & Hbits').
  { pose proof (bucket_off_range rv lis e ltac:(lia)). lia. }
  exists enc. split; [done|]. split; [rewrite Hdst, lengthZ_fmap; lia|]. split; cbn.
  - done.
  - intros t Ht. rewrite Hbits' by done. rewrite fmap_app. cbn. destruct (decide (t = _)) as [->|Hne].
    + split; [|done]. intros _. right. exists (lengthZ P), (bucket_off rv lis e). split; [|done].
      rewrite <-(lengthZ_fmap (bucket_off rv lis) P). apply lookupZ_at_length.
    + rewrite Hbits by done. split.
      * intros [?|(j & b & Hj & ->)]; [by left|]. right. exists j, b. split; [|done]. rewrite lookupZ_app.
        rewrite bool_decide_true; [done|]. apply lookupZ_Some in Hj. lia.
      * intros [?|(j & b & Hj & ->)]; [by left|]. right. exists j, b. split; [|done]. rewrite lookupZ_app in Hj.
        case_bool_decide; [done|]. pose proof (lookupZ_Some _ _ _ Hj) as Hjr. change (lengthZ [bucket_off rv lis e]) with 1 in Hjr.
        rewrite lengthZ_fmap in *. replace (j - lengthZ P) with 0 in Hj by lia. rewrite lookupZ_cons_0 in Hj. simplify_eq. lia.
  - by rewrite fmap_app, Hdst.
  - rewrite Hdst, lengthZ_fmap, lengthZ_app. change (lengthZ [e]) with 1. lia.
  - done.
Qed.

Lemma iteration_emit P m is_old e :
  next_fp old_src fp_arr fp_no old_n new_n m = Some (is_old, e) → merged P m → in_index e →
  mg_last_bucket m ≤ e / 2 ^ rv → lengthZ P + 2 ^ lis < 4096 →
  ∃ m', iteration m = Ret (true, m') ∧ merged (P ++ [e]) m' ∧ mg_last_bucket m' = e / 2 ^ rv ∧
    mg_old m' = (if is_old then mg_old m + 1 else mg_old m) ∧ mg_new m' = (if is_old then mg_new m else mg_new m + 1).
Proof using Hrv Hlis Hend Hi.
  intros Hnext Hm He Hle Hroom. unfold merge_iteration. rewrite run_get, (run_opt _ _ _ _ Hnext).
  rewrite routing_get_bucket_run, land_rem_value by lia. pose proof (in_index_bucket e He).
  rewrite (proj2 (Z.leb_gt _ _)) by lia.
  destruct (merged_emit P m (if is_old then mg_old m + 1 else mg_old m) (if is_old then mg_new m else mg_new m + 1)
    (if negb (Z.shiftr (mg_last_fp m) vs =? Z.shiftr e vs) then u32 (mg_num_unique m + 1) else mg_num_unique m) e Hm He Hle Hroom)
    as (enc & Hrun & Hbit & Hm').
  rewrite (run_opt _ _ _ _ Hrun). eexists. split; [reflexivity|]. rewrite Hbit. split; [exact Hm'|]. done.
Qed.
Lemma iteration_break P m e : next_fp old_src fp_arr fp_no old_n new_n m = Some (true, e) → merged P m →
  i < index_of rv lis e → 0 ≤ mg_old m < 2 ^ 32 →
  ∃ m', iteration m = Ret (false, m') ∧ merged P m' ∧ mg_old m' = mg_old m.
Proof using Hrv Hlis.
  intros Hnext [] He Ho. unfold merge_iteration. rewrite run_get, (run_opt _ _ _ _ Hnext).
  rewrite routing_get_bucket_run by lia. rewrite (proj2 (Z.leb_le _ _)) by (by apply index_bucket_end).
  eexists. split; [reflexivity|]. split; [by split|]. cbn. rewrite u32_small; lia.
Qed.

(** What is left of the two lists. *)
Definition olds (m : merge_state) (O : list Z) : Prop :=
  0 ≤ mg_old m ∧ old_n = mg_old m + lengthZ O ∧ ∀ j e, lookupZ O j = Some e → lookupZ old_src (mg_old m + j) = Some e.
Definition news (m : merge_state) (N : list Z) : Prop :=
  new_n = mg_new m + lengthZ N ∧ ∀ j e, lookupZ N j = Some e → lookupZ fp_arr (fp_no + mg_new m + j) = Some e.
Lemma olds_step m m' e O : olds m (e :: O) → mg_old m' = mg_old m + 1 → olds m' O.
Proof using.
  clear Hrv Hlis Hi Hend. intros (H0 & Hn & Hl) E. rewrite lengthZ_cons in Hn. split_and!; [lia|lia|]. intros j x Hj. pose proof (lookupZ_Some _ _ _ Hj).
  rewrite E. replace (mg_old m + 1 + j) with (mg_old m + (j + 1)) by lia. apply Hl.
  rewrite lookupZ_cons_S by lia. by replace (j + 1 - 1) with j by lia.
Qed.
Lemma news_step m m' e N : news m (e :: N) → mg_new m' = mg_new m + 1 → news m' N.
Proof using.
  clear Hrv Hlis Hi Hend. intros (Hn & Hl) E. rewrite lengthZ_cons in Hn. split_and!; [lia|]. intros j x Hj. pose proof (lookupZ_Some _ _ _ Hj).
  rewrite E. replace (fp_no + (mg_new m + 1) + j) with (fp_no + mg_new m + (j + 1)) by lia. apply Hl.
  rewrite lookupZ_cons_S by lia. by replace (j + 1 - 1) with j by lia.
Qed.
Lemma olds_same m m' O : olds m O → mg_old m' = mg_old m → olds m' O.
Proof using. unfold olds. by intros ? ->. Qed.
Lemma news_same m m' N : news m N → mg_new m' = mg_new m → news m' N.
Proof using. unfold news. by intros ? ->. Qed.
(** The next one is the least, an old one when they are equal. *)
Lemma next_fp_run m O N : olds m O → news m N →
  next_fp old_src fp_arr fp_no old_n new_n m =
    match O, N with
    | o :: _, n :: _ => Some (if o <=? n then (true, o) else (false, n))
    | o :: _, [] => Some (true, o)
    | [], n :: _ => Some (false, n)
    | [], [] => next_fp old_src fp_arr fp_no old_n new_n m
    end.
Proof using.
  clear Hrv Hlis Hi Hend. intros (H0 & Hon & Ho) (Hnn & Hn). unfold next_fp. rewrite Hon, Hnn.
  pose proof (Ho 0) as Ho0. pose proof (Hn 0) as Hn0. rewrite Z.add_0_r in Ho0, Hn0.
  destruct O as [|o O], N as [|n N]; rewrite ?lengthZ_cons, ?lengthZ_nil, ?Z.add_0_r; [done| | |].
  - rewrite (proj2 (Z.eqb_neq _ _)) by (pose proof (lengthZ_nonneg N); lia). rewrite Z.eqb_refl. cbn [mbind option_bind].
    by rewrite (Hn0 n eq_refl).
  - rewrite Z.eqb_refl. cbn [mbind option_bind]. by rewrite (Ho0 o eq_refl).
  - rewrite !(proj2 (Z.eqb_neq _ _)) by (pose proof (lengthZ_nonneg N); pose proof (lengthZ_nonneg O); lia).
    rewrite (Ho0 o eq_refl), (Hn0 n eq_refl). cbn [mbind option_bind].
    destruct (o <=? n); cbv beta iota; by rewrite ?(Ho0 o eq_refl), ?(Hn0 n eq_refl).
Qed.
Lemma loop_continues m O N : olds m O → news m N →
  (mg_new m <? new_n) || (mg_old m <? old_n) = negb (bool_decide (O = [] ∧ N = [])).
Proof using.
  clear Hrv Hlis Hi Hend. intros (H0 & -> & _) (-> & _). destruct O as [|o O], N as [|n N]; rewrite ?lengthZ_cons, ?lengthZ_nil.
  - rewrite !(proj2 (Z.ltb_ge _ _)) by lia. done.
  - rewrite (proj2 (Z.ltb_lt _ _)) by (pose proof (lengthZ_nonneg N); lia). done.
  - rewrite orb_comm, (proj2 (Z.ltb_lt _ _)) by (pose proof (lengthZ_nonneg O); lia). done.
  - rewrite (proj2 (Z.ltb_lt _ _)) by (pose proof (lengthZ_nonneg N); lia). done.
Qed.

Lemma merge_loop_run k P m O1 O2 N :
  olds m (O1 ++ O2) → news m N → merged P m → old_n < 2 ^ 32 →
  StronglySorted Z.le (O1 ++ O2) → StronglySorted Z.le N →
  Forall in_index O1 → Forall (λ e, i < index_of rv lis e) O2 → Forall in_index N →
  Forall (λ e, mg_last_bucket m ≤ e / 2 ^ rv) (O1 ++ N) →
  lengthZ P + lengthZ O1 + lengthZ N + 2 ^ lis ≤ 4096 → lengthZ O1 + lengthZ N < Z.of_nat k →
  ∃ m', loop k m = Ret (tt, m') ∧ merged (P ++ list_merge Z.le O1 N) m' ∧ mg_old m' = mg_old m + lengthZ O1.
Proof using Hrv Hlis Hend Hi.
  revert P m O1 N. induction k as [|k IH]; intros P m O1 N HO HN Hm Hon HsO HsN HO1 HO2 HN1 Hlast Hroom Hk.
  { pose proof (lengthZ_nonneg O1). pose proof (lengthZ_nonneg N). lia. }
  cbn [merge_loop]. rewrite run_get, (loop_continues m _ N HO HN).
  pose proof (next_fp_run m _ N HO HN) as Hnext.
  pose proof (lengthZ_nonneg O1) as L1. pose proof (lengthZ_nonneg N) as L2.
  (* an entry of the index is emitted *)
  assert (Hgo : ∀ is_old e O1' N', next_fp old_src fp_arr fp_no old_n new_n m = Some (is_old, e) →
    (if is_old : bool then O1 = e :: O1' ∧ N = N' else O1' = O1 ∧ N = e :: N') →
    Forall (Z.le e) (O1' ++ N') → list_merge Z.le O1 N = e :: list_merge Z.le O1' N' →
    ∃ m', (continue ← iteration; if continue : bool then loop k else mret tt) m = Ret (tt, m') ∧
      merged (P ++ list_merge Z.le O1 N) m' ∧ mg_old m' = mg_old m + lengthZ O1).
  { intros is_old e O1' N' Hfp Hcase Hleast Hmerge.
    assert (He : e ∈ O1 ++ N) by (destruct is_old; destruct Hcase as [H1 H2]; subst; set_solver).
    assert (Hin : in_index e).
    { rewrite list.Forall_forall in HO1, HN1. apply elem_of_app in He as [He|He]; [by apply HO1|by apply HN1]. }
    assert (Hle : mg_last_bucket m ≤ e / 2 ^ rv) by (rewrite list.Forall_forall in Hlast; by apply Hlast).
    assert (Hlen : lengthZ O1 + lengthZ N = 1 + lengthZ O1' + lengthZ N').
    { destruct is_old; destruct Hcase as [H1 H2]; subst; rewrite lengthZ_cons; lia. }
    pose proof (lengthZ_nonneg O1'). pose proof (lengthZ_nonneg N').
    destruct (iteration_emit P m is_old e Hfp Hm Hin Hle ltac:(lia)) as (m1 & Hrun & Hm1 & Hl1 & Ho1 & Hn1).
    rewrite (bind_run _ _ _ _ _ Hrun). rewrite Hmerge.
    destruct (IH (P ++ [e]) m1 O1' N') as (m' & Hrun' & Hm' & Ho').
    - destruct is_old; destruct Hcase as [H1 H2]; subst; [by eapply olds_step|by eapply olds_same].
    - destruct is_old; destruct Hcase as [H1 H2]; subst; [by eapply news_same|by eapply news_step].
    - done.
    - done.
    - destruct is_old; destruct Hcase as [H1 H2]; subst; [|done]. by apply StronglySorted_inv in HsO as [? _].
    - destruct is_old; destruct Hcase as [H1 H2]; subst; [done|]. by apply StronglySorted_inv in HsN as [? _].
    - destruct is_old; destruct Hcase as [H1 H2]; subst; [|done]. by apply list.Forall_cons in HO1 as [_ ?].
    - done.
    - destruct is_old; destruct Hcase as [H1 H2]; subst; [done|]. by apply list.Forall_cons in HN1 as [_ ?].
    - rewrite Hl1. eapply list.Forall_impl; [exact Hleast|]. intros x Hx. apply Z.div_le_mono; [lia|exact Hx].
    - rewrite lengthZ_app. change (lengthZ [e]) with 1. lia.
    - lia.
    - exists m'. rewrite <-app_assoc in Hm'. split_and!; [done|done|]. rewrite Ho', Ho1.
      destruct is_old; destruct Hcase as [H1 H2]; subst; [rewrite lengthZ_cons|]; lia. }
  destruct O1 as [|o O1], N as [|n N]; cbn [app] in *.
  - (* the index is done, or an old entry of the next one is seen *)
    destruct O2 as [|o O2].
    + rewrite bool_decide_true by done. exists m. rewrite list_merge_nil_l, app_nil_r. split_and!; [done|done|].
      change (lengthZ []) with 0. lia.
    + rewrite bool_decide_false by naive_solver. apply list.Forall_cons in HO2 as [Ho _].
      destruct HO as (H0 & Hn & _). rewrite lengthZ_cons in Hn. pose proof (lengthZ_nonneg O2).
      destruct (iteration_break P m o Hnext Hm Ho ltac:(lia)) as (m' & Hrun & Hm' & Hold).
      exists m'. cbn [negb]. rewrite (bind_run _ _ _ _ _ Hrun). rewrite list_merge_nil_l, app_nil_r. split_and!; [done|done|].
      change (lengthZ []) with 0. lia.
  - rewrite bool_decide_false by naive_solver. apply StronglySorted_inv in HsN as Hs. destruct Hs as [_ Hn].
    apply (Hgo false n [] N); [|done|done|by rewrite !list_merge_nil_l].
    destruct O2 as [|o O2]; [done|]. rewrite Hnext. apply list.Forall_cons in HO2 as [Ho _].
    apply list.Forall_cons in HN1 as [Hni _]. apply index_bucket_end in Ho. apply in_index_bucket in Hni.
    destruct (Z.leb_spec o n) as [Hon'|]; [|done]. pose proof (Z.div_le_mono o n (2 ^ rv) ltac:(lia) Hon'). lia.
  - rewrite bool_decide_false by naive_solver. apply StronglySorted_inv in HsO as Hs. destruct Hs as [_ Ho].
    apply (Hgo true o O1 []); [done|done| |by rewrite !list_merge_nil_r]. rewrite app_nil_r.
    by apply list.Forall_app in Ho as [? _].
  - rewrite bool_decide_false by naive_solver. apply StronglySorted_inv in HsO as Hs. destruct Hs as [_ Ho].
    apply StronglySorted_inv in HsN as Hs. destruct Hs as [_ Hn]. apply list.Forall_app in Ho as [Ho _].
    rewrite list.Forall_forall in Ho, Hn.
    destruct (Z.leb_spec o n) as [Hle|Hgt].
    + apply (Hgo true o O1 (n :: N)); [done|done| |by rewrite list_merge_cons, decide_True by lia].
      apply list.Forall_forall. intros x [Hx|[->|Hx]%list.elem_of_cons]%elem_of_app; [by apply Ho|done|]. apply Hn in Hx. lia.
    + apply (Hgo false n (o :: O1) N); [done|done| |by rewrite list_merge_cons, decide_False by lia].
      apply list.Forall_forall. intros x [[->|Hx]%list.elem_of_cons|Hx]%elem_of_app; [lia|apply Ho in Hx; lia|by apply Hn].
Qed.
End merge.

(** * The new fingerprints of a filter

    They are sorted, given the value, and counted by index. *)
(** The entry of a hash. *)
Definition fingerprint_of (cfg : routing_config) (h : Z) : Z := Z.shiftr h (32 - rc_fingerprint_size cfg).
Definition new_entry (cfg : routing_config) (vs value h : Z) : Z := fingerprint_of cfg h * 2 ^ vs + value.

(** ** Dropping duplicates *)
Lemma unique_fps_sublist last l : unique_fps last l `sublist_of` l.
Proof.
  revert last. induction l as [|x l IH]; intros last; [done|]. cbn. case_bool_decide; [by apply sublist_cons|by apply sublist_skip].
Qed.
Lemma unique_fps_elem last l e : e ∈ unique_fps last l ∨ last = Some e ↔ e ∈ l ∨ last = Some e.
Proof.
  revert last. induction l as [|x l IH]; intros last; [done|]. cbn. case_bool_decide as E.
  - rewrite IH, list.elem_of_cons. naive_solver.
  - rewrite !list.elem_of_cons. specialize (IH (Some x)). naive_solver.
Qed.
Lemma unique_fps_filter (P : Z → Prop) `{!∀ x, Decision (P x)} last l :
  lengthZ (filter P (unique_fps last l)) ≤ lengthZ (filter P l).
Proof.
  revert last. induction l as [|x l IH]; intros last; [done|]. cbn [unique_fps]. rewrite (list.filter_cons P x l).
  case_bool_decide; [|rewrite list.filter_cons].
  - specialize (IH last). case_decide; rewrite ?lengthZ_cons; lia.
  - specialize (IH (Some x)). case_decide; rewrite ?lengthZ_cons; lia.
Qed.
Lemma unique_fps_sorted last l : StronglySorted Z.le l → StronglySorted Z.le (unique_fps last l).
Proof.
  intros Hl. revert last. induction Hl as [|x l Hl IH Hx]; intros last; [constructor|]. cbn. case_bool_decide; [apply IH|].
  constructor; [apply IH|]. rewrite list.Forall_forall in *. intros y Hy. apply Hx. by eapply list.elem_of_sublist; [|apply unique_fps_sublist].
Qed.
Lemma StronglySorted_fmap_mono (f : Z → Z) l : (∀ x y, x ≤ y → f x ≤ f y) → StronglySorted Z.le l → StronglySorted Z.le (f <$> l).
Proof.
  intros Hf. induction 1 as [|x l Hl IH Hx]; [constructor|]. rewrite fmap_cons. constructor; [done|].
  rewrite list.Forall_fmap. eapply list.Forall_impl; [exact Hx|]. intros y Hy. by apply Hf.
Qed.

Lemma fingerprint_range cfg h : 0 < rc_fingerprint_size cfg ≤ 32 → 0 ≤ h < 2 ^ 32 → 0 ≤ fingerprint_of cfg h < 2 ^ rc_fingerprint_size cfg.
Proof.
  intros Hfs Hh. unfold fingerprint_of. rewrite Z.shiftr_div_pow2 by lia. split; [apply Z.div_pos; lia|].
  apply Z.div_lt_upper_bound; [lia|]. rewrite <-Z.pow_add_r by lia. replace (32 - rc_fingerprint_size cfg + rc_fingerprint_size cfg) with 32 by lia. lia.
Qed.
Lemma entry_range fs vs fp v : 0 ≤ fs → 0 ≤ vs → 0 ≤ fp < 2 ^ fs → 0 ≤ v < 2 ^ vs → 0 ≤ fp * 2 ^ vs + v < 2 ^ (fs + vs).
Proof. intros. rewrite Z.pow_add_r by lia. nia. Qed.

Lemma sort_fps_run cfg hashes vs value : 0 < rc_fingerprint_size cfg → 0 ≤ vs → rc_fingerprint_size cfg + vs ≤ 32 →
  0 ≤ value < 2 ^ vs → Forall (λ h, 0 ≤ h < 2 ^ 32) hashes → lengthZ hashes < 2 ^ 32 →
  ∃ G, sort_fps cfg hashes vs value = Ret G ∧ StronglySorted Z.le G ∧
    (∀ e, e ∈ G ↔ e ∈ new_entry cfg vs value <$> hashes) ∧
    ∀ (P : Z → Prop) (HP : ∀ x, Decision (P x)), lengthZ (filter P G) ≤ lengthZ (filter P (new_entry cfg vs value <$> hashes)).
Proof.
  intros Hfs Hvs Hsum Hv Hh Hl. unfold sort_fps. change (λ fp, Z.shiftr fp (32 - rc_fingerprint_size cfg)) with (fingerprint_of cfg).
  set (data := fingerprint_of cfg <$> hashes).
  assert (Hd : Forall (λ u, 0 ≤ u < 2 ^ rc_fingerprint_size cfg) data).
  { unfold data. rewrite list.Forall_fmap. eapply list.Forall_impl; [exact Hh|]. intros h Hh'. apply fingerprint_range; [lia|exact Hh']. }
  destruct (RadixSort_run data (replicate (length hashes) 0) (rc_fingerprint_size cfg)) as (l & Hrun & Hp & Hs).
  - lia.
  - unfold data. by rewrite lengthZ_fmap.
  - unfold data. rewrite lengthZ_fmap. apply lengthZ_replicate.
  - done.
  - rewrite Hrun. eexists. split; [done|].
    assert (Hmap : (λ fp, Z.lor (u32 (Z.shiftl fp vs)) value) <$> l = (λ fp, fp * 2 ^ vs + value) <$> l).
    { apply list_fmap_ext. intros i x Hx. assert (Hxd : x ∈ data) by (rewrite <-Hp; by eapply list_elem_of_lookup_2).
      rewrite list.Forall_forall in Hd. apply Hd in Hxd. pose proof (entry_range (rc_fingerprint_size cfg) vs x 0 ltac:(lia) Hvs Hxd ltac:(lia)).
      pose proof (Z.pow_le_mono_r 2 (rc_fingerprint_size cfg + vs) 32 ltac:(lia) ltac:(lia)).
      rewrite Z.shiftl_mul_pow2, u32_small by lia. rewrite Z.mul_comm, lor_add_pow by lia. lia. }
    rewrite Hmap.
    assert (Hperm : (λ fp, fp * 2 ^ vs + value) <$> l ≡ₚ new_entry cfg vs value <$> hashes).
    { rewrite Hp. unfold data. by rewrite <-list_fmap_compose. }
    split_and!.
    + apply unique_fps_sorted, StronglySorted_fmap_mono; [|done]. intros x y Hxy. nia.
    + intros e. rewrite <-Hperm. pose proof (unique_fps_elem None ((λ fp, fp * 2 ^ vs + value) <$> l) e). naive_solver.
    + intros P HP. etransitivity; [apply unique_fps_filter|]. by rewrite (lengthZ_Permutation _ _ (filter_Permutation P _ _ Hperm)).
Qed.

(** ** The fingerprints by index *)
Section by_index.
Context (rv lis : Z) (Hsum : 0 ≤ rv + lis ≤ 32).
Local Abbreviation idx := (index_of rv lis).
Definition below_index (i : Z) (l : list Z) : list Z := filter (λ e, idx e < i) l.
Definition at_index (i : Z) (l : list Z) : list Z := filter (λ e, idx e = i) l.
Definition above_index (i : Z) (l : list Z) : list Z := filter (λ e, i < idx e) l.

Lemma index_of_mono x y : x ≤ y → idx x ≤ idx y.
Proof using Hsum. intros. apply Z.div_le_mono; [apply Z.pow_pos_nonneg; lia|done]. Qed.
Lemma filter_empty (P : Z → Prop) `{!∀ x, Decision (P x)} l : Forall (λ x, ¬ P x) l → filter P l = [].
Proof using. induction 1 as [|x l Hx _ IH]; [done|]. by rewrite list.filter_cons, decide_False. Qed.
Lemma sorted_split i l : StronglySorted Z.le l → l = below_index i l ++ at_index i l ++ above_index i l.
Proof using Hsum.
  unfold below_index, at_index, above_index. induction 1 as [|x l Hl IH Hx]; [done|]. rewrite !list.filter_cons.
  assert (Hmono : ∀ y, y ∈ l → idx x ≤ idx y) by (intros y Hy; rewrite list.Forall_forall in Hx; by apply index_of_mono, Hx).
  destruct (Z.lt_trichotomy (idx x) i) as [Hlt|[Heq|Hgt]].
  - rewrite decide_True, !decide_False by lia. cbn. by rewrite <-IH.
  - rewrite decide_False, decide_True, decide_False by lia.
    assert (E : filter (λ e, idx e < i) l = []) by (apply filter_empty, list.Forall_forall; intros y Hy%Hmono; lia).
    rewrite E in *. cbn. cbn in IH. by rewrite <-IH.
  - rewrite !decide_False, decide_True by lia.
    assert (E : filter (λ e, idx e < i) l = []) by (apply filter_empty, list.Forall_forall; intros y Hy%Hmono; lia).
    assert (E' : filter (λ e, idx e = i) l = []) by (apply filter_empty, list.Forall_forall; intros y Hy%Hmono; lia).
    rewrite E, E' in *. cbn in *. by rewrite <-IH.
Qed.
Lemma below_index_next i l : lengthZ (below_index (i + 1) l) = lengthZ (below_index i l) + lengthZ (at_index i l).
Proof using.
  clear Hsum. unfold below_index, at_index. induction l as [|x l IH]; [done|]. rewrite !list.filter_cons.
  repeat case_decide; rewrite ?lengthZ_cons; lia.
Qed.
Lemma below_index_0 l : Forall (λ e, 0 ≤ e) l → below_index 0 l = [].
Proof using Hsum.
  intros Hl. apply filter_empty. eapply list.Forall_impl; [exact Hl|]. cbn. intros e He.
  assert (0 ≤ idx e) by (apply Z.div_pos; [lia|apply Z.pow_pos_nonneg; lia]). lia.
Qed.
(** The entries of an index are together, after those of the indices below. *)
Lemma from_index_lookup i l j e : StronglySorted Z.le l → lookupZ (at_index i l ++ above_index i l) j = Some e →
  lookupZ l (lengthZ (below_index i l) + j) = Some e.
Proof using Hsum.
  intros Hl Hj. pose proof (lookupZ_Some _ _ _ Hj). rewrite (sorted_split i l Hl) at 1. rewrite lookupZ_app, bool_decide_false by lia.
  by replace (lengthZ (below_index i l) + j - lengthZ (below_index i l)) with j by lia.
Qed.
Lemma at_index_lookup i l j e : StronglySorted Z.le l → lookupZ (at_index i l) j = Some e →
  lookupZ l (lengthZ (below_index i l) + j) = Some e.
Proof using Hsum.
  intros Hl Hj. apply from_index_lookup; [done|]. rewrite lookupZ_app, bool_decide_true; [done|].
  by apply lookupZ_Some in Hj as [_ ?].
Qed.
Lemma at_index_elem i l e : e ∈ at_index i l ↔ idx e = i ∧ e ∈ l.
Proof using. unfold at_index. by rewrite list_elem_of_filter. Qed.

Lemma drop_below i l : StronglySorted Z.le l → drop (Z.to_nat (lengthZ (below_index i l))) l = at_index i l ++ above_index i l.
Proof using Hsum.
  intros Hl. rewrite (sorted_split i l Hl) at 2. unfold lengthZ. rewrite Nat2Z.id. apply drop_app_length.
Qed.
Lemma count_index_run i l : StronglySorted Z.le l → Forall (λ e, 0 ≤ e < 2 ^ 32) l →
  count_index (rv + lis) i (drop (Z.to_nat (lengthZ (below_index i l))) l) = lengthZ (at_index i l).
Proof using Hsum.
  intros Hl Hr. rewrite drop_below by done.
  assert (Hc : ∀ l1 l2, Forall (λ e, 0 ≤ e < 2 ^ 32 ∧ idx e = i) l1 → Forall (λ e, 0 ≤ e < 2 ^ 32 ∧ i < idx e) l2 →
    count_index (rv + lis) i (l1 ++ l2) = lengthZ l1).
  { intros l1 l2 H1 H2. induction H1 as [|x l1 [Hx Hi] _ IH]; cbn.
    - destruct H2 as [|x l2 [Hx Hi] _]; [done|]. cbn. rewrite routing_get_index_run by lia. by rewrite (proj2 (Z.eqb_neq _ _)) by lia.
    - rewrite routing_get_index_run by lia. rewrite (proj2 (Z.eqb_eq _ _)) by done. rewrite IH. by rewrite lengthZ_cons. }
  rewrite list.Forall_forall in Hr.
  apply Hc; apply list.Forall_forall; unfold at_index, above_index; intros e [He Hel]%list_elem_of_filter; (split; [by apply Hr|lia]).
Qed.
Lemma index_counts_run n i l : StronglySorted Z.le l → Forall (λ e, 0 ≤ e < 2 ^ 32) l → 0 ≤ i →
  index_counts n (rv + lis) i (drop (Z.to_nat (lengthZ (below_index i l))) l) =
    (λ i, lengthZ (at_index i l)) <$> seqZ i (Z.of_nat n).
Proof using Hsum.
  intros Hl Hr. revert i. induction n as [|n IH]; intros i Hi; [done|]. cbn [index_counts].
  rewrite count_index_run by done. rewrite (seqZ_cons i (Z.of_nat (S n))), fmap_cons by lia. f_equal.
  pose proof (lengthZ_nonneg (below_index i l)). pose proof (lengthZ_nonneg (at_index i l)).
  rewrite drop_drop. replace (Z.to_nat (lengthZ (below_index i l)) + Z.to_nat (lengthZ (at_index i l)))%nat
    with (Z.to_nat (lengthZ (below_index (i + 1) l))) by (rewrite below_index_next; lia).
  rewrite IH by lia. do 2 f_equal. lia.
Qed.
Lemma index_counts_lookup n l i : StronglySorted Z.le l → Forall (λ e, 0 ≤ e < 2 ^ 32) l → 0 ≤ i < Z.of_nat n →
  lookupZ (index_counts n (rv + lis) 0 l) i = Some (lengthZ (at_index i l)).
Proof using Hsum.
  intros Hl Hr Hi. pose proof (index_counts_run n 0 l Hl Hr ltac:(lia)) as Hrun.
  rewrite below_index_0 in Hrun by (eapply list.Forall_impl; [exact Hr|]; cbn; lia).
  change (Z.to_nat (lengthZ [])) with 0%nat in Hrun. rewrite drop_0 in Hrun. rewrite Hrun, lookupZ_fmap.
  assert (E : lookupZ (seqZ 0 (Z.of_nat n)) i = Some i); [|by rewrite E].
  unfold lookupZ. rewrite bool_decide_true by lia. apply lookup_seqZ. lia.
Qed.
End by_index.
