(* ===== verification/RoutingWrite.v ===== *)
(** * Writing the block of an index *)
From S2P Require Import Prelude Bytes PackedArray RadixSort RoutingFilter RoutingAdd RoutingRepr RoutingLookup.
From S2P Require Import RoutingMerge.
From stdpp Require Import sorting.
Open Scope Z_scope.

Lemma mbit_write p off bs p' t : mem_write p off bs = Some p' → 0 ≤ t < 8 * lengthZ bs → mbit p' off t = mbit bs 0 t.
Proof.
  intros Hw Ht. apply mbit_lookup. rewrite (mem_write_lookup _ _ _ _ Hw). pose proof (Z.div_pos t 8 ltac:(lia) ltac:(lia)).
  assert (t / 8 < lengthZ bs) by (apply Z.div_lt_upper_bound; lia). rewrite bool_decide_true by lia. f_equal. lia.
Qed.
Lemma mbit_read p off len bs t : mem_read p off len = Some bs → 0 ≤ t < 8 * len → mbit bs 0 t = mbit p off t.
Proof.
  intros Hr Ht. apply read_holds in Hr as [(_ & _ & Hh) Hl]. apply mbit_lookup. pose proof (Z.div_pos t 8 ltac:(lia) ltac:(lia)).
  assert (t / 8 < lengthZ bs) by (apply Z.div_lt_upper_bound; lia). rewrite Z.add_0_l. symmetry. apply Hh. lia.
Qed.
Lemma mbit_beyond p a t : lengthZ p ≤ a + t / 8 → mbit p a t = false.
Proof. intros H. unfold mbit. rewrite (proj2 (lookupZ_None p _)); [done|lia]. Qed.
Lemma mbit_replicate n t : 0 ≤ t < 8 * Z.of_nat n → mbit (replicate n 255) 0 t = true.
Proof.
  intros Ht. unfold mbit. pose proof (Z.div_pos t 8 ltac:(lia) ltac:(lia)).
  assert (t / 8 < Z.of_nat n) by (apply Z.div_lt_upper_bound; lia). rewrite lookupZ_replicate_lt by lia.
  pose proof (Z.mod_pos_bound t 8 ltac:(lia)). set (b := t `mod` 8) in *.
  assert (b = 0 ∨ b = 1 ∨ b = 2 ∨ b = 3 ∨ b = 4 ∨ b = 5 ∨ b = 6 ∨ b = 7) as Hb by lia.
  destruct Hb as [->|[->|[->|[->|[->|[->|[->| ->]]]]]]]; reflexivity.
Qed.
Lemma bytes_ok_replicate n b : 0 ≤ b < 256 → bytes_ok (replicate n b).
Proof. intros Hb. apply list.Forall_replicate. done. Qed.

Lemma get_le_agree n p p' off z : lengthZ p' = lengthZ p → agree p p' off (off + Z.of_nat n) →
  get_le n p off = Some z → get_le n p' off = Some z.
Proof.
  unfold get_le. intros Hl Ha H. destruct (mem_read p off (Z.of_nat n)) as [bs|] eqn:Hr; [|done].
  apply read_holds in Hr as [Hh Hbl]. eapply holds_agree in Hh; [|exact Hl|by rewrite Hbl].
  apply holds_read in Hh. rewrite Hbl in Hh. by rewrite Hh.
Qed.

Section write.
Context (cfg : routing_config) (Hcfg : routing_config_ok cfg) (rv : Z) (Hrv : 1 ≤ rv ≤ 32).
Local Abbreviation lis := (rc_log_index_size cfg).
Local Abbreviation size := (rc_index_size cfg).
Local Abbreviation ps := (rc_page_size cfg).

(** A block of [n] entries fits a page, and its encoding the buffer. *)
Definition block_fits (n : Z) : Prop :=
  routing_header_length cfg n + remainder_block_size n rv ≤ ps ∧ encoding_size cfg n ≤ 512.
Lemma block_fits_bound n : 0 ≤ n → block_fits n → n + size ≤ 4072.
Proof using.
  intros Hn [_ He]. unfold encoding_size in He. destruct (decide (n + size ≤ 4072)); [done|].
  pose proof (Z.div_le_lower_bound (n + size - 1) 8 509 ltac:(lia) ltac:(lia)). lia.
Qed.
(** The size of a block. *)
Definition block_bytes (n : Z) : Z := routing_header_length cfg n + remainder_block_size n rv.
Lemma header_bits n : 0 ≤ n → n + size ≤ 8 * encoding_size cfg n - 24 ∧ 0 < encoding_size cfg n.
Proof using Hcfg.
  intros Hn. destruct (size_range cfg Hcfg) as [Hsz _]. unfold encoding_size.
  pose proof (Z.div_mod (n + size - 1) 8 ltac:(lia)). pose proof (Z.mod_pos_bound (n + size - 1) 8 ltac:(lia)). lia.
Qed.

Lemma header_size_run n : 0 ≤ n ≤ 4096 → header_size cfg n = routing_header_length cfg n ∧ 0 ≤ routing_header_length cfg n.
Proof using Hcfg.
  intros Hn. unfold header_size, routing_header_length, encoding_size, SIZEOF_ROUTING_HDR. destruct (size_range cfg Hcfg) as [Hsz _].
  pose proof (Z.div_pos (n + size - 1) 8 ltac:(lia) ltac:(lia)).
  assert ((n + size - 1) / 8 < 2 ^ 20) by (apply Z.div_lt_upper_bound; lia). split; [apply u32_small; lia|lia].
Qed.

Lemma fill_block_run i p encoding cursor (P : list Z) : bytes_ok p → 0 ≤ cursor → cursor + block_bytes (lengthZ P) ≤ lengthZ p →
  block_fits (lengthZ P) → encoding_buffer encoding →
  encodes (mbit encoding 0) size (bucket_off rv lis <$> P) →
  StronglySorted Z.le P → Forall (λ e, index_of rv lis e = i) P →
  ∃ p', fill_block cfg rv p encoding cursor (rem_value rv <$> P) = Some p' ∧ bytes_ok p' ∧
    outside p p' cursor (cursor + block_bytes (lengthZ P)) ∧ block_at cfg rv i p' cursor P.
Proof using Hcfg Hrv.
  intros Hok Hc Hroom Hfits [Heok Helen] Henc Hs Hidx. set (n := lengthZ P) in *. pose proof (lengthZ_nonneg P) as Hn. fold n in Hn.
  pose proof (block_fits_bound n Hn Hfits) as Hbound. destruct Hfits as [Hpage Hes]. destruct (header_bits n Hn) as [Hhb He0].
  destruct (size_range cfg Hcfg) as [Hsz _]. destruct (remainder_block_size_packed n rv ltac:(lia) Hrv) as [Hpk Hbs].
  unfold fill_block. rewrite lengthZ_fmap. fold n. rewrite u16_small, (proj1 (header_size_run n ltac:(lia))) by lia. unfold block_bytes, routing_header_length, SIZEOF_ROUTING_HDR in *.
  set (es := encoding_size cfg n) in *.
  destruct (mem_write_ok p cursor (le_bytes 2 n)) as [p1 Hp1]; [lia|rewrite lengthZ_le_bytes; lia|]. unfold put_le. rewrite Hp1. cbn [mbind option_bind].
  destruct (mem_read_ok encoding 0 es) as [bits Hbits]; [lia..|]. rewrite Hbits. cbn [mbind option_bind].
  pose proof (read_holds _ _ _ _ Hbits) as [_ Hbl]. pose proof (mem_write_length _ _ _ _ Hp1) as Hl1.
  destruct (mem_write_ok p1 (cursor + 2) bits) as [p2 Hp2]; [lia..|]. rewrite Hp2. cbn [mbind option_bind].
  pose proof (mem_write_length _ _ _ _ Hp2) as Hl2.
  assert (Hok2 : bytes_ok p2).
  { eapply bytes_ok_write; [|by eapply bytes_ok_read|exact Hp2]. eapply bytes_ok_write; [exact Hok|apply bytes_ok_le|exact Hp1]. }
  assert (Ho2 : outside p p2 cursor (cursor + (es + 2))).
  { eapply outside_write; [exact Hp2|lia|lia|]. eapply outside_write; [exact Hp1|lia|rewrite lengthZ_le_bytes; lia|apply outside_refl]. }
  assert (Hnum : holds p2 cursor (le_bytes 2 n)).
  { eapply mem_write_keep; [exact Hp2|rewrite lengthZ_le_bytes; lia|]. by eapply mem_write_holds. }
  assert (Henc2 : ∀ t, 0 ≤ t < n + size → mbit p2 (cursor + 2) t = mbit encoding 0 t).
  { intros t Ht. rewrite (mbit_write _ _ _ _ t Hp2) by lia. apply (mbit_read _ _ _ _ _ Hbits). lia. }
  assert (Hp3 : ∃ p3, (if negb (n =? 0) then PackedArray_pack p2 (cursor + (es + 2)) 0 (rem_value rv <$> P) rv else Some p2) = Some p3 ∧
    bytes_ok p3 ∧ outside p2 p3 (cursor + (es + 2)) (cursor + (es + 2) + remainder_block_size n rv) ∧
    items_at rv p3 (cursor + (es + 2)) (rem_value rv <$> P)).
  { destruct (Z.eqb_spec n 0) as [En|Hne]; cbn [negb].
    - exists p2. split_and!; [done|done|apply outside_refl|]. intros k x Hk. apply lookupZ_Some in Hk. rewrite lengthZ_fmap in Hk. fold n in Hk. lia.
    - destruct (pack_run rv Hrv p2 (cursor + (es + 2)) (rem_value rv <$> P)) as (p3 & Hrun & Hok3 & Hit & Ho3 & _).
      + done.
      + lia.
      + intros Hnil. apply fmap_nil_inv in Hnil. unfold n in Hne. by rewrite Hnil in Hne.
      + rewrite list.Forall_fmap. apply list.Forall_forall. intros e _. apply rem_value_range. lia.
      + rewrite lengthZ_fmap. fold n. lia.
      + rewrite lengthZ_fmap in Ho3. fold n in Ho3. exists p3. split_and!; [done|done|eapply outside_mono; [| |exact Ho3]; lia|done]. }
  destruct Hp3 as (p3 & Hrun & Hok3 & Ho3 & Hit). exists p3. split; [exact Hrun|]. split; [done|]. split.
  { eapply outside_trans; eapply outside_mono; [| |exact Ho2| | |exact Ho3]; lia. }
  split; fold n; unfold routing_header_length, SIZEOF_ROUTING_HDR; fold es.
  - done.
  - lia.
  - apply holds_le2; [lia|]. eapply holds_agree; [exact (proj1 Ho3)|eapply outside_agree; [|exact Ho3]|exact Hnum].
    left. rewrite lengthZ_le_bytes. lia.
  - unfold ROUTING_FPS_PER_PAGE. lia.
  - rewrite (proj1 Ho3). lia.
  - unfold encodes in *. rewrite lengthZ_fmap in *. fold n in Henc |- *. intros t Ht. rewrite <-Henc by done.
    rewrite (outside_mbit _ _ _ _ (cursor + 2) t Ho3); [by rewrite Henc2|]. left.
    assert (t / 8 < es) by (apply Z.div_lt_upper_bound; lia). lia.
  - done.
  - done.
  - done.
Qed.

(** A block is its bytes. *)
Lemma block_at_agree i p p' off E : block_at cfg rv i p off E → bytes_ok p' → lengthZ p' = lengthZ p →
  agree p p' off (off + block_bytes (lengthZ E)) → block_at cfg rv i p' off E.
Proof using Hcfg Hrv.
  intros Hb Hok Hl Ha. destruct (block_room cfg rv i p off E Hrv Hb) as (H0 & Hn & Hroom & Hpk & Hbs).
  destruct Hb as [_ _ Hnum Hsm Hr Henc Hit Hs Hi]. destruct (header_bits (lengthZ E) ltac:(lia)) as [Hhb He0].
  unfold block_bytes, routing_header_length, SIZEOF_ROUTING_HDR in *. set (n := lengthZ E) in *. set (es := encoding_size cfg n) in *.
  assert (Hbit : ∀ c t, 0 ≤ t → off ≤ c → c + t / 8 < off + (es + 2 + remainder_block_size n rv) → mbit p' c t = mbit p c t).
  { intros c t Ht Hc Hlt. apply mbit_lookup, Ha. pose proof (Z.div_pos t 8 Ht ltac:(lia)). lia. }
  split; fold n; unfold routing_header_length, SIZEOF_ROUTING_HDR; fold es.
  - done.
  - done.
  - eapply get_le_agree; [exact Hl| |exact Hnum]. eapply agree_mono; [exact Ha|lia|lia].
  - done.
  - lia.
  - unfold encodes in *. rewrite lengthZ_fmap in *. fold n in Henc |- *. intros t Ht.
    rewrite <-Henc by done. assert (t / 8 < es) by (apply Z.div_lt_upper_bound; lia). by rewrite Hbit by lia.
  - intros k x Hk. specialize (Hit k x Hk). pose proof (lookupZ_Some _ _ _ Hk) as Hkn. rewrite lengthZ_fmap in Hkn. fold n in Hkn.
    destruct Hit as [Hx Hxb]. split; [done|]. intros j Hj. rewrite Hxb by done. symmetry. apply Hbit; [nia|lia|].
    assert ((k * rv + j) / 8 < packed_bytes rv n); [|lia].
    apply Z.div_lt_upper_bound; [lia|]. unfold packed_bytes.
    pose proof (Z.div_mod (n * rv + 31) 32 ltac:(lia)). pose proof (Z.mod_pos_bound (n * rv + 31) 32 ltac:(lia)). nia.
  - done.
  - done.
Qed.
End write.

(** ** The pages while a filter is built *)
Section pages.
Context (cfg : routing_config) (Hcfg : routing_config_ok cfg) (rv : Z) (Hrv : 1 ≤ rv ≤ 32).
Local Abbreviation lis := (rc_log_index_size cfg).
Local Abbreviation size := (rc_index_size cfg).
Local Abbreviation ps := (rc_page_size cfg).
Local Abbreviation app := (addrs_per_page cfg).
Local Abbreviation ppe := (pages_per_extent cfg).
(** The index pages from [A] on, the data pages in the order they come, the pages
    before, and the entries of each index. *)
Context (A : Z) (data : list Z) (pages0 : gmap Z (list Z)) (entries : Z → list Z) (num_indices : Z).
Definition index_pages : list Z := (λ j, A + ps * j) <$> seqZ 0 ppe.
Definition good_page (a : Z) : Prop := 0 < a ∧ a `mod` ps = 0 ∧ a + ps ≤ 2 ^ FILTER_META_SHIFT.
Definition has_page (pages : gmap Z (list Z)) (a : Z) : Prop := ∃ p, pages !! a = Some p ∧ lengthZ p = ps ∧ bytes_ok p.
Context (Hgood : Forall good_page (index_pages ++ data)) (Hnodup : NoDup (index_pages ++ data)).
Context (Hni : num_indices ≤ app * ppe) (Hfits : ∀ i, 0 ≤ i < num_indices → block_fits cfg rv (lengthZ (entries i))).
Context (Hsorted : ∀ i, 0 ≤ i < num_indices → StronglySorted Z.le (entries i)).
Context (Hindex : ∀ i, 0 ≤ i < num_indices → Forall (λ e, index_of rv lis e = i) (entries i)).

(** Index [i] is in its place, in a page of [used], and before the cursor if in its page. *)
Definition written (used : list Z) (addr cursor : Z) (pages : gmap Z (list Z)) (i : Z) : Prop :=
  ∃ q c p ip, q ∈ used ∧ 0 ≤ c ∧ c + block_bytes cfg rv (lengthZ (entries i)) ≤ ps ∧
    (q = addr → c + block_bytes cfg rv (lengthZ (entries i)) ≤ cursor) ∧
    pages !! q = Some p ∧ block_at cfg rv i p c (entries i) ∧
    pages !! (A + ps * (i / app)) = Some ip ∧ get_le 8 ip (8 * (i `mod` app)) = Some (q + c).
Record pages_inv (used : list Z) (room k : Z) (a : add_state) : Prop := {
  pi_next : data = used ++ as_next a;
  pi_addr : as_addr a ∈ used;
  pi_other : ∀ x, x ∉ index_pages ++ data → as_pages a !! x = pages0 !! x;
  pi_pages : ∀ x, x ∈ index_pages ++ data → has_page (as_pages a) x;
  pi_cursor : 0 ≤ as_cursor a ∧ 0 ≤ as_remaining a ∧ as_cursor a + as_remaining a = ps;
  pi_room : room ≤ lengthZ (as_next a);
  pi_written : ∀ i, 0 ≤ i < k → written used (as_addr a) (as_cursor a) (as_pages a) i;
}.

Lemma index_page_elem j : 0 ≤ j < ppe → A + ps * j ∈ index_pages.
Proof using. intros Hj. apply list_elem_of_fmap. exists j. split; [done|]. apply elem_of_seqZ. lia. Qed.
Lemma app_pos : 0 < app ∧ 8 * app = ps.
Proof using Hcfg.
  destruct (rok_page _ Hcfg) as [Hp Hm]. unfold addrs_per_page. pose proof (Z.div_mod ps 8 ltac:(lia)). lia.
Qed.
Lemma index_page_of i : 0 ≤ i < num_indices → 0 ≤ i / app < ppe ∧ 0 ≤ i `mod` app < app ∧ i = app * (i / app) + i `mod` app.
Proof using Hcfg Hni.
  intros Hi. destruct app_pos as [Ha _]. split; [split|split].
  - apply Z.div_pos; lia.
  - apply Z.div_lt_upper_bound; lia.
  - by apply Z.mod_pos_bound.
  - apply Z.div_mod. lia.
Qed.
Lemma data_not_index q j : q ∈ data → 0 ≤ j < ppe → A + ps * j ≠ q.
Proof using Hnodup.
  intros Hq Hj <-. apply list.NoDup_app in Hnodup as (_ & Hd & _). eapply Hd; [by apply index_page_elem|done].
Qed.
Lemma block_bytes_pos n : 0 ≤ n ≤ 4096 → 2 < block_bytes cfg rv n.
Proof using Hcfg Hrv.
  intros Hn. unfold block_bytes, routing_header_length, SIZEOF_ROUTING_HDR. destruct (header_bits cfg Hcfg n ltac:(lia)) as [_ He].
  destruct (remainder_block_size_packed n rv ltac:(lia) Hrv) as [_ Hb]. lia.
Qed.
Lemma entries_small k : 0 ≤ k < num_indices → 0 ≤ lengthZ (entries k) ≤ 4096.
Proof using Hfits Hcfg.
  intros Hk. pose proof (lengthZ_nonneg (entries k)). pose proof (block_fits_bound cfg rv _ ltac:(done) (Hfits k Hk)).
  destruct (size_range cfg Hcfg). lia.
Qed.

(** The cursor after the check for room. *)
Lemma place_run used k a n : pages_inv used (num_indices - k) k a → 0 ≤ k < num_indices → block_fits cfg rv n → 0 ≤ n →
  ∃ a' used', mwhen (as_remaining a <? u32 (header_size cfg n + remainder_block_size n rv))
      (addr ← next_page; mmod (with_cursor addr 0 ps)) a = Ret (tt, a') ∧
    pages_inv used' (num_indices - (k + 1)) k a' ∧ as_cursor a' + block_bytes cfg rv n ≤ ps ∧
    as_encoding a' = as_encoding a ∧ as_old_src a' = as_old_src a ∧ as_fp_no a' = as_fp_no a.
Proof using All.
  intros Hp Hk Hf Hn. pose proof (block_fits_bound cfg rv n Hn Hf) as Hbound. destruct (rok_page _ Hcfg) as [Hps _]. destruct (size_range cfg Hcfg) as [Hsz _].
  pose proof (block_bytes_pos n ltac:(lia)) as Hpos. destruct Hf as [Hf _]. fold (block_bytes cfg rv n) in Hf.
  destruct (remainder_block_size_packed n rv ltac:(lia) Hrv) as [_ Hb]. unfold block_bytes in Hf.
  destruct (header_size_run cfg Hcfg n ltac:(lia)) as [Hhs Hhl]. rewrite Hhs, u32_small by lia.
  change (routing_header_length cfg n + remainder_block_size n rv) with (block_bytes cfg rv n) in *.
  pose proof Hp as [Hnext Haddr Hother Hpages Hcur Hroom Hwr].
  destruct (Z.ltb_spec (as_remaining a) (block_bytes cfg rv n)) as [Hlt|Hge]; cbn [mwhen].
  - destruct (as_next a) as [|q next] eqn:Hq; [change (lengthZ []) with 0 in Hroom; lia|]. rewrite lengthZ_cons in Hroom.
    destruct (Hpages q) as (p & Hqp & _); [rewrite Hnext; set_solver|].
    assert (Hnew : q ∉ used).
    { intros Hin. rewrite Hnext in Hnodup. apply list.NoDup_app in Hnodup as (_ & _ & Hd).
      apply list.NoDup_app in Hd as (_ & Hd & _). eapply Hd; [exact Hin|set_solver]. }
    eexists _, (used ++ [q]). split.
    { unfold next_page. unfold mbind, M_bind, mget, mopt, mput, mret, M_ret, mmod. rewrite Hq, Hqp. reflexivity. }
    split; [split; cbn|split_and!; [cbn; lia|done..]].
    + by rewrite <-app_assoc.
    + set_solver.
    + done.
    + done.
    + lia.
    + lia.
    + intros i Hi. destruct (Hwr i Hi) as (q' & c & p' & ip & Hq' & Hc & Hcb & Hin & Hrest). exists q', c, p', ip.
      split_and!; [set_solver|done|done| |apply Hrest..]. intros ->. done.
  - exists a, used. split_and!; [done| |lia|done..]. split; [done..|lia|done].
Qed.

(** ** The writes *)
(** All bits of the buffer are set. *)
Definition clean_buffer (buf : list Z) : Prop := encoding_buffer buf ∧ ∀ t, 0 ≤ t < 4096 → mbit buf 0 t = true.
Lemma encoding_reset_run buf es : encoding_buffer buf → 0 ≤ es ≤ 512 → (∀ t, 8 * es ≤ t < 4096 → mbit buf 0 t = true) →
  ∃ buf', mem_write buf 0 (replicate (Z.to_nat es) 255) = Some buf' ∧ clean_buffer buf'.
Proof using.
  intros [Hok Hl] Hes Hrest. destruct (mem_write_ok buf 0 (replicate (Z.to_nat es) 255)) as [buf' Hw]; [lia|rewrite lengthZ_replicate; lia|].
  exists buf'. split; [done|]. split; [split|].
  - eapply (bytes_ok_write _ _ _ _ Hok); [|exact Hw]. by apply bytes_ok_replicate.
  - by rewrite (mem_write_length _ _ _ _ Hw).
  - intros t Ht. destruct (decide (t < 8 * es)).
    + rewrite (mbit_write _ _ _ _ _ Hw) by (rewrite lengthZ_replicate; lia). apply mbit_replicate. lia.
    + rewrite <-(Hrest t) by lia. apply mbit_lookup. rewrite (mem_write_lookup _ _ _ _ Hw), lengthZ_replicate.
      pose proof (Z.div_le_lower_bound t 8 es ltac:(lia) ltac:(lia)). by rewrite bool_decide_false by lia.
Qed.
(** What the merge left of the buffer is the encoding of a block. *)
Lemma merged_encodes (P : list Z) buf n : n = lengthZ P → n + size ≤ 4096 →
  (∀ t, 0 ≤ t → mbit buf 0 t = false ↔ 4096 ≤ t ∨ ∃ j b, lookupZ (bucket_off rv lis <$> P) j = Some b ∧ t = b + j) →
  encodes (mbit buf 0) size (bucket_off rv lis <$> P) ∧ ∀ t, n + size ≤ t < 4096 → mbit buf 0 t = true.
Proof using Hcfg Hrv.
  intros -> Hroom Hb. split.
  - intros t Ht. rewrite lengthZ_fmap in Ht. rewrite Hb by lia. naive_solver lia.
  - intros t Ht. pose proof (lengthZ_nonneg P). destruct (size_range cfg Hcfg). destruct (mbit buf 0 t) eqn:E; [done|]. apply Hb in E as [?|(j & b & Hj & ->)]; [lia| |lia].
    pose proof (lookupZ_Some _ _ _ Hj) as Hjr. rewrite lengthZ_fmap in Hjr.
    pose proof (proj1 (Forall_lookupZ _ _) (bucket_list_range cfg Hcfg rv P) _ _ Hj) as Hbr. cbn in Hbr. lia.
Qed.

Lemma put_entry_run pages k v : has_page pages (A + ps * (k / app)) → 0 ≤ k < num_indices → 0 ≤ v < 2 ^ 64 →
  ∃ ip ip', pages !! (A + ps * (k / app)) = Some ip ∧ put_le 8 ip (8 * (k `mod` app)) v = Some ip' ∧
    bytes_ok ip' ∧ lengthZ ip' = ps ∧ get_le 8 ip' (8 * (k `mod` app)) = Some v ∧
    ∀ i z, 0 ≤ i < num_indices → i ≠ k → i / app = k / app →
      get_le 8 ip (8 * (i `mod` app)) = Some z → get_le 8 ip' (8 * (i `mod` app)) = Some z.
Proof using All.
  intros (ip & Hip & Hlen & Hok) Hk Hv. destruct (index_page_of k Hk) as (Hq & Hr & Hke). destruct app_pos as [Ha Hps].
  destruct (mem_write_ok ip (8 * (k `mod` app)) (le_bytes 8 v)) as [ip' Hw]; [lia|rewrite lengthZ_le_bytes; lia|].
  exists ip, ip'. split_and!.
  - done.
  - exact Hw.
  - eapply bytes_ok_write; [exact Hok|apply bytes_ok_le|exact Hw].
  - by rewrite (mem_write_length _ _ _ _ Hw).
  - apply holds_le8; [done|]. by eapply mem_write_holds.
  - intros i z Hi Hne Hsame Hz. destruct (index_page_of i Hi) as (_ & Hri & Hie).
    eapply get_le_agree; [by eapply mem_write_length| |exact Hz]. eapply mem_write_agree; [exact Hw|].
    rewrite lengthZ_le_bytes. rewrite Hsame in Hie. lia.
Qed.

(** The index and the block of entry [k] are written at the cursor. *)
Lemma write_at_cursor_run used room k a ip' p' ip p encoding : let n := lengthZ (entries k) in
  pages_inv used room k a → 0 ≤ k < num_indices → as_cursor a + block_bytes cfg rv n ≤ ps →
  as_pages a !! (A + ps * (k / app)) = Some ip → bytes_ok ip' → lengthZ ip' = ps →
  get_le 8 ip' (8 * (k `mod` app)) = Some (as_addr a + as_cursor a) →
  (∀ i z, 0 ≤ i < num_indices → i ≠ k → i / app = k / app →
      get_le 8 ip (8 * (i `mod` app)) = Some z → get_le 8 ip' (8 * (i `mod` app)) = Some z) →
  as_pages a !! as_addr a = Some p → bytes_ok p' → outside p p' (as_cursor a) (as_cursor a + block_bytes cfg rv n) →
  block_at cfg rv k p' (as_cursor a) (entries k) →
  pages_inv used room (k + 1) (mk_add_state (<[as_addr a := p']> (<[A + ps * (k / app) := ip']> (as_pages a))) (as_next a) (as_addr a)
    (as_cursor a + block_bytes cfg rv n) (as_remaining a - block_bytes cfg rv n) encoding (as_old_src a) (as_fp_no a) (as_num_unique a)).
Proof using All.
  intros n Hp Hk Hroom Hip Hokip Hlip Hget Hkeep Hpq Hokp Ho Hb. pose proof Hp as [Hnext Haddr Hother Hpages Hcur Hrm Hwr].
  assert (Hdata : ∀ q, q ∈ used → q ∈ data) by (intros q Hq; rewrite Hnext; set_solver).
  assert (Hne : ∀ i q, 0 ≤ i < num_indices → q ∈ used → A + ps * (i / app) ≠ q).
  { intros i q Hi Hq. apply data_not_index; [by apply Hdata|]. by apply index_page_of. }
  assert (Hlp : lengthZ p' = ps).
  { rewrite (proj1 Ho). destruct (Hpages (as_addr a)) as (p2 & Hp2 & Hl & _); [apply elem_of_app; right; by apply Hdata|]. congruence. }
  pose proof (block_bytes_pos n (entries_small k Hk)) as Hpos.
  split; cbn.
  - done.
  - done.
  - intros x Hx. rewrite !lookup_insert_ne; [by apply Hother| |].
    + intros <-. apply Hx, elem_of_app. left. apply index_page_elem. by apply index_page_of.
    + intros <-. apply Hx, elem_of_app. right. by apply Hdata.
  - intros x Hx. unfold has_page. destruct (decide (x = as_addr a)) as [->|].
    { exists p'. by rewrite lookup_insert_eq. }
    rewrite lookup_insert_ne by done. destruct (decide (x = A + ps * (k / app))) as [->|].
    { exists ip'. by rewrite lookup_insert_eq. }
    destruct (Hpages x Hx) as (p2 & ? & ?). exists p2. by rewrite lookup_insert_ne by done.
  - lia.
  - done.
  - intros i Hi. unfold written. destruct (decide (i = k)) as [->|Hik].
    { exists (as_addr a), (as_cursor a), p', ip'. rewrite lookup_insert_eq, lookup_insert_ne, lookup_insert_eq by (apply not_eq_sym; by apply Hne).
      split_and!; try done; lia. }
    destruct (Hwr i ltac:(lia)) as (q & c & p2 & ip2 & Hq & Hc & Hcb & Hsame & Hpq2 & Hb2 & Hip2 & Hget2).
    assert (Hipg : ∃ ip3, <[as_addr a := p']> (<[A + ps * (k / app) := ip']> (as_pages a)) !! (A + ps * (i / app)) = Some ip3 ∧
      get_le 8 ip3 (8 * (i `mod` app)) = Some (q + c)).
    { rewrite lookup_insert_ne by (apply not_eq_sym; apply Hne; [lia|done]).
      destruct (decide (A + ps * (k / app) = A + ps * (i / app))) as [Heq|Hneq].
      - exists ip'. rewrite Heq, lookup_insert_eq. split; [done|].
        assert (i / app = k / app) by (destruct app_pos; apply (Z.mul_reg_l _ _ ps); lia).
        apply Hkeep; [lia|done|done|]. congruence.
      - exists ip2. by rewrite lookup_insert_ne. }
    destruct Hipg as (ip3 & Hip3 & Hget3).
    destruct (decide (q = as_addr a)) as [->|Hqa].
    + exists (as_addr a), c, p', ip3. rewrite lookup_insert_eq. specialize (Hsame eq_refl). assert (p2 = p) as -> by congruence.
      split_and!; try done; [lia|]. eapply (block_at_agree cfg Hcfg rv Hrv); [exact Hb2|done|by rewrite (proj1 Ho)|].
      eapply outside_agree; [|exact Ho]. lia.
    + exists q, c, p2, ip3. rewrite !lookup_insert_ne by (done || (apply Hne; [lia|done])). split_and!; done.
Qed.

Lemma get_page_run a x p : as_pages a !! x = Some p → get_page x a = Ret (p, a).
Proof using. intros H. unfold get_page. rewrite run_get. unfold mopt. by rewrite H. Qed.
Lemma set_page_run a x p : set_page x p a = Ret (tt, with_pages (<[x := p]> (as_pages a)) a).
Proof using. done. Qed.

Lemma write_block_run used k a : pages_inv used (num_indices - k) k a → 0 ≤ k < num_indices →
  encoding_buffer (as_encoding a) →
  (∀ t, 0 ≤ t → mbit (as_encoding a) 0 t = false ↔
    4096 ≤ t ∨ ∃ j b, lookupZ (bucket_off rv lis <$> entries k) j = Some b ∧ t = b + j) →
  ∃ a' used', write_block cfg A rv k (rem_value rv <$> entries k) a = Ret (tt, a') ∧
    pages_inv used' (num_indices - (k + 1)) (k + 1) a' ∧ clean_buffer (as_encoding a') ∧
    as_old_src a' = as_old_src a ∧ as_fp_no a' = as_fp_no a.
Proof using All.
  intros Hp Hk Hbuf Hbits. set (n := lengthZ (entries k)). pose proof (entries_small k Hk) as Hn. fold n in Hn.
  pose proof (Hfits k Hk) as Hf. fold n in Hf. pose proof (block_fits_bound cfg rv n ltac:(lia) Hf) as Hbound.
  destruct (place_run used k a n Hp Hk Hf ltac:(lia)) as (a1 & used1 & Hplace & Hp1 & Hcur & Henc1 & Hsrc1 & Hfp1).
  destruct (header_size_run cfg Hcfg n Hn) as [Hhs Hhl]. destruct (remainder_block_size_packed n rv ltac:(lia) Hrv) as [_ Hbs].
  destruct (header_bits cfg Hcfg n ltac:(lia)) as [Hhb He0]. destruct (rok_page _ Hcfg) as [Hps _]. pose proof Hf as [Hfp Hfe].
  assert (Hbytes : u32 (header_size cfg n + remainder_block_size n rv) = block_bytes cfg rv n) by (rewrite Hhs; unfold block_bytes; apply u32_small; lia).
  unfold write_block. rewrite lengthZ_fmap. fold n. rewrite run_get, (bind_run _ _ _ _ _ Hplace), run_get. clear Hplace.
  destruct (index_page_of k Hk) as (Hq & Hr & Hke). rewrite (proj2 (Z.ltb_lt (k / app) ppe)) by lia.
  change (massert_defined true) with (mret tt : M add_state unit). rewrite run_ret.
  pose proof Hp1 as [Hnext Haddr Hother Hpages Hc1 Hrm Hwr].
  assert (Hin : as_addr a1 ∈ index_pages ++ data) by (rewrite Hnext; set_solver).
  assert (Hne : as_addr a1 ≠ A + ps * (k / app)).
  { apply not_eq_sym. apply data_not_index; [|lia]. rewrite Hnext. set_solver. }
  pose proof (proj1 (list.Forall_forall _ _) Hgood _ Hin) as (Ha0 & Ham & Haps). unfold FILTER_META_SHIFT in Haps.
  destruct (put_entry_run (as_pages a1) k (as_addr a1 + as_cursor a1)) as (ip & ip' & Hip & Hput & Hokip & Hlip & Hget & Hkeep); [|done|lia|].
  { apply Hpages, elem_of_app. left. by apply index_page_elem. }
  rewrite (bind_run _ _ _ _ _ (get_page_run _ _ _ Hip)), (run_opt _ _ _ _ Hput), (bind_run _ _ _ _ _ (set_page_run _ _ _)).
  destruct (Hpages (as_addr a1) Hin) as (p & Hpq & Hlp & Hokp).
  assert (Hpq' : as_pages (with_pages (<[A + ps * (k / app) := ip']> (as_pages a1)) a1) !! as_addr a1 = Some p) by (cbn; by rewrite lookup_insert_ne).
  rewrite (bind_run _ _ _ _ _ (get_page_run _ _ _ Hpq')).
  rewrite <-Henc1 in Hbuf, Hbits. destruct (merged_encodes (entries k) (as_encoding a1) n eq_refl ltac:(lia) Hbits) as [Hencodes Hones].
  destruct (fill_block_run cfg Hcfg rv Hrv k p (as_encoding a1) (as_cursor a1) (entries k)) as (p' & Hfill & Hokp' & Ho & Hblock);
    [done|lia|fold n; lia|done|done|done|by apply Hsorted|by apply Hindex|].
  rewrite (run_opt _ _ _ _ Hfill), (bind_run _ _ _ _ _ (set_page_run _ _ _)).
  destruct (encoding_reset_run (as_encoding a1) (encoding_size cfg n) Hbuf ltac:(lia)) as (buf' & Hreset & Hclean);
    [intros t Ht; apply Hones; lia|].
  rewrite (run_opt _ _ _ _ Hreset). rewrite Hbytes, Hhs.
  eexists _, used1. split; [reflexivity|]. split; [|by split_and!].
  pose proof (write_at_cursor_run used1 (num_indices - (k + 1)) k a1 ip' p' ip p buf' Hp1 Hk Hcur Hip Hokip Hlip Hget Hkeep Hpq Hokp' Ho Hblock) as Hfinal.
  fold n in Hfinal. unfold with_cursor, with_encoding, with_pages. cbn.
  pose proof (block_bytes_pos n Hn). rewrite u64_small by lia. unfold block_bytes in *. by rewrite Z.add_assoc in Hfinal.
Qed.
End pages.
