(* ===== verification/RoutingRun.v ===== *)
(** * Building a filter

    The indices of the new filter, one after the other, hold the merge of the old
    and the new entries of their range. *)
From S2P Require Import Prelude Bytes PackedArray RadixSort RoutingFilter RoutingAdd RoutingRepr RoutingLookup.
From S2P Require Import RoutingMerge RoutingWrite.
From stdpp Require Import sorting.
Open Scope Z_scope.

Lemma mlift_run {S A B} (o : outcome A) x (k : A → M S B) s : o = Ret x → (mlift o ≫= k) s = k x s.
Proof. intros ->. done. Qed.

Section build.
Context (cfg : routing_config) (Hcfg : routing_config_ok cfg) (rv vs : Z) (Hrv : 1 ≤ rv ≤ 32).
Local Abbreviation lis := (rc_log_index_size cfg).
Local Abbreviation size := (rc_index_size cfg).
Context (Hrl : rv + lis ≤ 32).
Context (A : Z) (data : list Z) (pages0 : gmap Z (list Z)) (num_indices m : Z) (W : Z → list Z) (G : list Z).
Local Abbreviation below := (below_index rv lis).
Local Abbreviation at_ := (at_index rv lis).

(** The entries of a new index: [m] new indices to an old one, [W] the old entries
    of an old index, [G] the new ones. *)
Definition new_entries (k : Z) : list Z := list_merge Z.le (at_ k (W (k / m))) (at_ k G).

Context (Hgood : Forall (good_page cfg) (index_pages cfg A ++ data)) (Hnodup : NoDup (index_pages cfg A ++ data)).
Context (Hni : num_indices ≤ addrs_per_page cfg * pages_per_extent cfg) (Hm : 0 < m).
Context (Hbuckets : num_indices * size < 2 ^ 32).
Context (HW : ∀ o, StronglySorted Z.le (W o)) (HG : StronglySorted Z.le G).
Context (HWidx : ∀ o, Forall (λ e, o * m ≤ index_of rv lis e < (o + 1) * m) (W o)) (HWlen : ∀ o, lengthZ (W o) ≤ 4096).
Context (HG32 : Forall (λ e, 0 ≤ e < 2 ^ 32) G) (HGlen : lengthZ G < 2 ^ 32).
Context (Hfits : ∀ k, 0 ≤ k < num_indices → block_fits cfg rv (lengthZ (new_entries k))).

Lemma new_entries_Permutation k : new_entries k ≡ₚ at_ k (W (k / m)) ++ at_ k G.
Proof using. apply merge_Permutation. Qed.
Lemma at_index_sorted k l : StronglySorted Z.le l → StronglySorted Z.le (at_ k l).
Proof using. apply StronglySorted_filter. Qed.
Lemma new_entries_sorted k : StronglySorted Z.le (new_entries k).
Proof using HG HW.
  clear - HG HW. apply Sorted_StronglySorted; [intros x y z; apply Z.le_trans|]. unfold new_entries. apply Sorted_list_merge.
  - intros x y. apply Z.le_total.
  - by apply StronglySorted_Sorted, at_index_sorted.
  - by apply StronglySorted_Sorted, at_index_sorted.
Qed.
Lemma new_entries_index k : Forall (λ e, index_of rv lis e = k) (new_entries k).
Proof using. clear Hrv. rewrite list.Forall_forall. intros e. rewrite new_entries_Permutation, elem_of_app, !at_index_elem. naive_solver. Qed.
Lemma new_entries_length k : lengthZ (new_entries k) = lengthZ (at_ k (W (k / m))) + lengthZ (at_ k G).
Proof using. by rewrite (lengthZ_Permutation _ _ (new_entries_Permutation k)), lengthZ_app. Qed.

(** What a state has before index [k]. *)
Record build_inv (k : Z) (a : add_state) : Prop := {
  bi_pages : ∃ used, pages_inv cfg rv A data pages0 new_entries used (num_indices - k) k a;
  bi_clean : clean_buffer (as_encoding a);
  bi_src : lengthZ (as_old_src a) = 4096;
  bi_fp : as_fp_no a = lengthZ (below k G);
}.
(** The old source has the entries of old index [o]. *)
Definition has_old (o : Z) (a : add_state) : Prop := ∀ j e, lookupZ (W o) j = Some e → lookupZ (as_old_src a) j = Some e.

Lemma index_split k l : StronglySorted Z.le l → lengthZ l = lengthZ (below k l) + lengthZ (at_ k l ++ above_index rv lis k l).
Proof using Hrv Hrl Hcfg.
  intros Hl. rewrite (sorted_split rv lis) with (i := k) (l := l) at 1; [by rewrite lengthZ_app| |done].
  pose proof (rok_log _ Hcfg). lia.
Qed.
Lemma merged_start k a : clean_buffer (as_encoding a) → 0 ≤ k < num_indices →
  merged rv lis k [] (mk_merge_state (lengthZ (below k (W (k / m)))) 0 (u32 (k * size)) 0 (as_encoding a) [] (as_num_unique a) UINT32_MAX).
Proof using Hcfg Hbuckets.
  intros [[Hok Hl] Hc] Hk. destruct (rok_log _ Hcfg) as [Hlis _]. destruct (size_range cfg Hcfg) as [Hsz _].
  rewrite (rok_size _ Hcfg) in *. assert (0 ≤ k * 2 ^ lis < 2 ^ 32) by nia. rewrite u32_small by lia.
  split; cbn.
  - done.
  - intros t Ht. split.
    + intros Hf. left. destruct (decide (4096 ≤ t)); [done|]. rewrite Hc in Hf; [done|lia].
    + intros [Hge|(j & b & Hj & _)]; [|by rewrite lookupZ_nil in Hj]. apply mbit_beyond.
      pose proof (Z.div_le_lower_bound t 8 512 ltac:(lia) ltac:(lia)). lia.
  - done.
  - change (lengthZ []) with 0. lia.
  - lia.
Qed.

Lemma add_index_run k a : build_inv k a → has_old (k / m) a → 0 ≤ k < num_indices →
  ∃ a', add_index cfg A vs rv G (index_counts (Z.to_nat num_indices) (rv + lis) 0 G) (lengthZ (W (k / m))) k
      (lengthZ (below k (W (k / m)))) a = Ret (lengthZ (below (k + 1) (W (k / m))), a') ∧
    build_inv (k + 1) a' ∧ as_old_src a' = as_old_src a.
Proof using All.
  intros [[used Hp] Hclean Hsrc Hfp] Hold Hk. destruct (rok_log _ Hcfg) as [Hlis0 Hlis1]. set (o := k / m) in *.
  destruct (size_range cfg Hcfg) as [Hsz _]. pose proof (new_entries_length k) as Hnl. fold o in Hnl.
  pose proof (block_fits_bound cfg rv _ (lengthZ_nonneg _) (Hfits k Hk)) as Hbound.
  pose proof (rok_size _ Hcfg) as Hsize. assert (Hend : 0 ≤ (k + 1) * size < 2 ^ 32) by nia.
  pose proof (index_split k (W o) (HW o)) as Hsplit. pose proof (lengthZ_nonneg (below k (W o))) as Hb0.
  unfold add_index. rewrite (run_opt _ _ _ (lengthZ (at_ k G))) by (apply index_counts_lookup; [lia|done|done|lia]).
  rewrite run_get, (u32_small ((k + 1) * size)) by lia.
  replace ((k + 1) * size) with ((k + 1) * 2 ^ lis) by (by rewrite Hsize).
  destruct (merge_loop_run vs rv lis k Hrv ltac:(lia) ltac:(lia) ltac:(lia) (as_old_src a) G (as_fp_no a) (lengthZ (W o)) (lengthZ (at_ k G))
    (S (Z.to_nat (lengthZ (at_ k G)) + Z.to_nat (lengthZ (W o)))) []
    (mk_merge_state (lengthZ (below k (W o))) 0 (u32 (k * size)) 0 (as_encoding a) [] (as_num_unique a) UINT32_MAX)
    (at_ k (W o)) (above_index rv lis k (W o)) (at_ k G)) as (m' & Hrun & Hm' & Hmo).
  - split_and!; cbn; [done|done|]. intros j e Hj. apply Hold. apply (from_index_lookup rv lis); [lia|done|done].
  - split; cbn; [lia|]. intros j e Hj. rewrite Hfp, Z.add_0_r. apply (at_index_lookup rv lis); [lia|done|done].
  - by apply merged_start.
  - pose proof (HWlen o). lia.
  - pose proof (HW o) as Ho. rewrite (sorted_split rv lis) with (i := k) (l := W o) in Ho; [|lia|done].
    by apply StronglySorted_app in Ho as (_ & _ & ?).
  - by apply at_index_sorted.
  - apply list.Forall_forall. intros e. rewrite at_index_elem. naive_solver.
  - apply list.Forall_forall. intros e [? _]%list_elem_of_filter. done.
  - apply list.Forall_forall. intros e. rewrite at_index_elem. naive_solver.
  - cbn. rewrite u32_small by nia. rewrite Hsize. apply list.Forall_forall. intros e He.
    assert (Hi : index_of rv lis e = k) by (rewrite elem_of_app, !at_index_elem in He; naive_solver).
    apply (in_index_bucket rv lis k Hrv ltac:(lia) e Hi).
  - change (lengthZ []) with 0. lia.
  - pose proof (lengthZ_nonneg (at_ k G)). rewrite lengthZ_app in Hsplit. pose proof (lengthZ_nonneg (above_index rv lis k (W o))). lia.
  - rewrite (mlift_run _ _ _ _ Hrun). cbn beta iota. cbn [app] in Hm'. change (list_merge Z.le (at_ k (W o)) (at_ k G)) with (new_entries k) in Hm'.
    destruct Hm' as [Hbuf Hbits Hdst _ _].
    rewrite run_mod. rewrite Hdst.
    destruct (write_block_run cfg Hcfg rv Hrv A data pages0 new_entries num_indices Hgood Hnodup Hni Hfits
      (λ i _, new_entries_sorted i) (λ i _, new_entries_index i) used k (with_merged (mg_encoding m') (mg_num_unique m') a))
      as (a' & used' & Hw & Hp' & Hclean' & Hsrc' & Hfp'); [|done|done|exact Hbits|].
    { destruct Hp. by split. }
    rewrite (bind_run _ _ _ _ _ Hw), run_mod. eexists. split; [unfold mret, M_ret; rewrite Hmo; cbn [mg_old]; rewrite <-below_index_next; done|].
    split; [split|]; cbn.
    + exists used'. destruct Hp'. by split.
    + done.
    + by rewrite Hsrc'.
    + rewrite Hfp'. cbn. rewrite Hfp, <-below_index_next. apply u32_small. pose proof (lengthZ_nonneg (below (k + 1) G)).
      pose proof (RadixSort.filter_length_le (λ e, index_of rv lis e < k + 1) G). unfold below_index. unfold below_index in *. lia.
    + done.
Qed.

Local Abbreviation counts := (index_counts (Z.to_nat num_indices) (rv + lis) 0 G).

(** The [n] indices from [k] on, of old index [o]. *)
Lemma add_indices_run n o k a : build_inv k a → has_old o a → 0 ≤ k → o * m ≤ k → k + Z.of_nat n = (o + 1) * m →
  (o + 1) * m ≤ num_indices →
  ∃ a', add_indices cfg A vs rv G counts n (lengthZ (W o)) k (lengthZ (below k (W o))) a = Ret (tt, a') ∧
    build_inv ((o + 1) * m) a'.
Proof using All.
  revert k a. induction n as [|n IH]; intros k a Hb Hold H0 Hk Hn Hend.
  { exists a. split; [done|]. by replace ((o + 1) * m) with k by lia. }
  assert (Ho : k / m = o) by (symmetry; apply (Z.div_unique_pos _ _ _ (k - o * m)); lia).
  destruct (add_index_run k a Hb ltac:(by rewrite Ho) ltac:(lia)) as (a1 & Hrun & Hb1 & Hsrc). rewrite Ho in Hrun.
  cbn [add_indices]. rewrite (bind_run _ _ _ _ _ Hrun). apply IH; [done| |lia..].
  intros j e Hj. rewrite Hsrc. by apply Hold.
Qed.

Context (old_filter : routing_filter) (old_rv old_num_indices : Z).
Context (Hdiv : num_indices = old_num_indices * m) (H0old : 0 ≤ old_num_indices).
(** Reading an old index gives its entries, as long as the pages of others are as before. *)
Context (Hread : ∀ o a, 0 ≤ o < old_num_indices → (∀ x, x ∉ index_pages cfg A ++ data → as_pages a !! x = pages0 !! x) →
  lengthZ (as_old_src a) = 4096 →
  ∃ src, read_old_index cfg old_filter old_rv vs o a = Ret (lengthZ (W o), with_old_src src a) ∧ lengthZ src = 4096 ∧
    ∀ j e, lookupZ (W o) j = Some e → lookupZ src j = Some e).

Lemma build_inv_old_src k a src : build_inv k a → lengthZ src = 4096 → build_inv k (with_old_src src a).
Proof using. intros [[used Hp] ? ? ?] Hs. split; cbn; try done. exists used. destruct Hp. by split. Qed.
Lemma below_start o : lengthZ (below (o * m) (W o)) = 0.
Proof using HWidx.
  unfold below_index. rewrite filter_empty; [done|]. eapply list.Forall_impl; [apply HWidx|]. cbn. intros e He. lia.
Qed.
Lemma add_old_index_run o a : build_inv (o * m) a → 0 ≤ o < old_num_indices →
  ∃ a', add_old_index cfg A vs rv G counts old_filter old_rv m o a = Ret (tt, a') ∧ build_inv ((o + 1) * m) a'.
Proof using All.
  intros Hb Ho. pose proof Hb as [[used Hp] _ Hsrc _].
  destruct (Hread o a Ho (pi_other _ _ _ _ _ _ _ _ _ _ Hp) Hsrc) as (src & Hrun & Hsl & Hlk).
  unfold add_old_index. rewrite (bind_run _ _ _ _ _ Hrun).
  destruct (add_indices_run (Z.to_nat m) o (o * m) (with_old_src src a)) as (a' & Hadd & Hb');
    [by apply build_inv_old_src|exact Hlk|nia|lia|lia|nia|].
  rewrite below_start in Hadd. by exists a'.
Qed.

(** The allocation of the index pages. *)
Lemma next_page_run a q next p : as_next a = q :: next → as_pages a !! q = Some p →
  next_page a = Ret (q, mk_add_state (as_pages a) next (as_addr a) (as_cursor a) (as_remaining a) (as_encoding a) (as_old_src a)
    (as_fp_no a) (as_num_unique a)).
Proof using.
  intros Hq Hp. unfold next_page. unfold mbind, M_bind, mget, mopt, mput, mret, M_ret. by rewrite Hq, Hp.
Qed.
Context (Hppe : 0 < pages_per_extent cfg) (HA : A `mod` rc_extent_size cfg = 0).
Context (Hpages0 : ∀ x, x ∈ index_pages cfg A ++ data → has_page cfg pages0 x).
Local Abbreviation ppe := (pages_per_extent cfg).
Local Abbreviation ps := (rc_page_size cfg).

Lemma alloc_index_pages_run next encoding src : as_next next = index_pages cfg A ++ data → as_pages next = pages0 →
  as_encoding next = encoding → as_old_src next = src →
  ∃ a', alloc_index_pages cfg next = Ret (A, a') ∧ as_next a' = data ∧ as_pages a' = pages0 ∧ as_encoding a' = encoding ∧
    as_old_src a' = src ∧ as_fp_no a' = as_fp_no next ∧ as_num_unique a' = as_num_unique next.
Proof using Hppe HA Hpages0.
  intros Hn Hp He Hs. unfold alloc_index_pages.
  assert (Hip : ∀ i, 0 ≤ i ≤ ppe → index_pages cfg A = ((λ j, A + ps * j) <$> seqZ 0 i) ++ ((λ j, A + ps * j) <$> seqZ i (ppe - i))).
  { intros i Hi. unfold index_pages. rewrite <-fmap_app. f_equal. replace ppe with (i + (ppe - i)) at 1 by lia. rewrite seqZ_app by lia. by rewrite Z.add_0_l. }
  assert (Hcons : ∀ i, 0 ≤ i < ppe → (λ j, A + ps * j) <$> seqZ i (ppe - i) = A + ps * i :: ((λ j, A + ps * j) <$> seqZ (i + 1) (ppe - (i + 1)))).
  { intros i Hi. rewrite seqZ_cons by lia. rewrite fmap_cons. unfold Z.succ. by replace (Z.pred (ppe - i)) with (ppe - (i + 1)) by lia. }
  assert (Hin : ∀ i, 0 ≤ i < ppe → ∃ p, pages0 !! (A + ps * i) = Some p).
  { intros i Hi. destruct (Hpages0 (A + ps * i)) as (p & ? & _); [apply elem_of_app; left; by apply index_page_elem|by exists p]. }
  destruct (Hin 0 ltac:(lia)) as [p Hp0]. rewrite Z.mul_0_r, Z.add_0_r in Hp0.
  assert (Hn0 : as_next next = A :: ((λ j, A + ps * j) <$> seqZ 1 (ppe - 1)) ++ data).
  { rewrite Hn, (Hip 0) by lia. change (seqZ 0 0) with (@nil Z). cbn [fmap list_fmap app]. rewrite Hcons by lia. by rewrite Z.mul_0_r, Z.add_0_r. }
  rewrite (bind_run _ _ _ _ _ (next_page_run next A _ p Hn0 ltac:(by rewrite Hp))). rewrite run_assert by by apply Z.eqb_eq.
  set (a1 := mk_add_state _ _ _ _ _ _ _ _ _).
  assert (Hloop : ∃ a', mfor (Z.to_nat (ppe - 1)) 1 (λ i, next_index_addr ← next_page; massert (next_index_addr =? A + i * ps)) a1 = Ret (tt, a') ∧
    (as_next a' = ((λ j, A + ps * j) <$> seqZ (1 + Z.of_nat (Z.to_nat (ppe - 1))) (ppe - (1 + Z.of_nat (Z.to_nat (ppe - 1))))) ++ data ∧
     as_pages a' = pages0 ∧ as_encoding a' = encoding ∧ as_old_src a' = src ∧ as_fp_no a' = as_fp_no next ∧ as_num_unique a' = as_num_unique next)).
  { apply (mfor_total (λ i a', as_next a' = ((λ j, A + ps * j) <$> seqZ i (ppe - i)) ++ data ∧
     as_pages a' = pages0 ∧ as_encoding a' = encoding ∧ as_old_src a' = src ∧ as_fp_no a' = as_fp_no next ∧ as_num_unique a' = as_num_unique next)).
    - intros i t Hi (Htn & Htp & Hrest). rewrite Hcons in Htn by lia. destruct (Hin i ltac:(lia)) as [pi Hpi].
      rewrite (bind_run _ _ _ _ _ (next_page_run t (A + ps * i) _ pi Htn ltac:(by rewrite Htp))).
      unfold massert. rewrite (proj2 (Z.eqb_eq _ _)) by lia. eexists. split; [reflexivity|]. done.
    - done. }
  destruct Hloop as (a' & Hrun & Hfin). rewrite (bind_run _ _ _ _ _ Hrun). exists a'. split; [done|].
  replace (ppe - (1 + Z.of_nat (Z.to_nat (ppe - 1)))) with 0 in Hfin by lia. rewrite seqZ_nil in Hfin by lia. exact Hfin.
Qed.

(** ** The filter is built *)
Context (Hroom : num_indices + 1 ≤ lengthZ data).
Lemma old_indices_run a : build_inv 0 a →
  ∃ a', mfor (Z.to_nat old_num_indices) 0 (add_old_index cfg A vs rv G counts old_filter old_rv m) a = Ret (tt, a') ∧
    build_inv num_indices a'.
Proof using All.
  intros Hb. destruct (mfor_total (λ o a, build_inv (o * m) a) (Z.to_nat old_num_indices) 0
    (add_old_index cfg A vs rv G counts old_filter old_rv m) a) as (a' & Hrun & Hb').
  - intros o t Ho Ht. apply add_old_index_run; [done|lia].
  - done.
  - exists a'. split; [exact Hrun|]. replace num_indices with ((0 + Z.of_nat (Z.to_nat old_num_indices)) * m); [done|]. rewrite Hdiv. nia.
Qed.
Lemma build_filter_run hashes value a : sort_fps cfg hashes vs value = Ret G → as_next a = index_pages cfg A ++ data →
  as_pages a = pages0 → clean_buffer (as_encoding a) → lengthZ (as_old_src a) = 4096 → as_fp_no a = 0 →
  ∃ a', build_filter cfg old_filter hashes value vs old_rv rv num_indices old_num_indices a = Ret (A, a') ∧ build_inv num_indices a'.
Proof using All.
  intros Hsort Hnext Hpg Hclean Hsrc Hfp. unfold build_filter.
  destruct (alloc_index_pages_run a _ _ Hnext Hpg eq_refl eq_refl) as (a1 & Hrun1 & Hn1 & Hp1 & He1 & Hs1 & Hf1 & _).
  rewrite (bind_run _ _ _ _ _ Hrun1). 
  assert (Hcons : ∃ q rest, data = q :: rest).
  { pose proof Hroom as Hr. destruct data as [|q rest]; [change (lengthZ []) with 0 in Hr; nia|by exists q, rest]. }
  destruct Hcons as (q & rest & Hd).
  destruct (Hpages0 q) as (p & Hq & Hlp & _); [rewrite Hd; set_solver|]. rewrite Hd in Hn1.
  rewrite (bind_run _ _ _ _ _ (next_page_run a1 q rest p Hn1 ltac:(by rewrite Hp1))), run_mod.
  rewrite (mlift_run _ _ _ _ Hsort). set (a2 := with_cursor q 0 ps _).
  assert (Hmdiv : num_indices `div` old_num_indices = m ∨ old_num_indices = 0).
  { destruct (decide (old_num_indices = 0)); [by right|left]. rewrite Hdiv, Z.mul_comm. by apply Z.div_mul. }
  assert (Hb : build_inv 0 a2).
  { split.
    - exists [q]. split; cbn.
      + exact Hd.
      + set_solver.
      + intros x _. by rewrite Hp1.
      + intros x Hx. unfold has_page. rewrite Hp1. by apply Hpages0.
      + destruct (rok_page _ Hcfg). lia.
      + pose proof Hroom as Hr. rewrite Hd, lengthZ_cons in Hr. lia.
      + lia.
    - cbn. by rewrite He1.
    - cbn. by rewrite Hs1.
    - cbn. rewrite Hf1, Hfp. rewrite below_index_0; [done| |].
      + pose proof (rok_log _ Hcfg). lia.
      + eapply list.Forall_impl; [exact HG32|]. cbn. lia. }
  destruct (old_indices_run a2 Hb) as (a3 & Hrun3 & Hb3). exists a3. split; [|done].
  destruct Hmdiv as [->|Hz]; [by rewrite (bind_run _ _ _ _ _ Hrun3)|].
  rewrite Hz in *. cbn in Hrun3 |- *. injection Hrun3 as ->. done.
Qed.
End build.

(** * The filter that an add leaves *)
(** [value_size] of routing_filter_add. *)
Definition value_bits (value : Z) : Z := if value =? 0 then 0 else Z.log2 value + 1.
Lemma value_bits_range value : 0 ≤ value → 0 ≤ value_bits value ∧ 0 ≤ value < 2 ^ value_bits value.
Proof.
  intros Hv. unfold value_bits. destruct (Z.eqb_spec value 0) as [->|]; [done|].
  pose proof (Z.log2_nonneg value). split; [lia|]. pose proof (Z.log2_spec value ltac:(lia)). lia.
Qed.

Lemma remainder_block_size_mono rv n n' : 1 ≤ rv ≤ 32 → 0 ≤ n ≤ n' → n' < 2 ^ 16 → remainder_block_size n rv ≤ remainder_block_size n' rv.
Proof.
  intros Hrv Hn Hn'. destruct (decide (n = 0)) as [->|].
  - pose proof (remainder_block_size_packed n' rv ltac:(lia) Hrv) as [_ H]. change (remainder_block_size 0 rv) with 3. lia.
  - unfold remainder_block_size. assert (1 ≤ n * rv ∧ n * rv ≤ n' * rv ∧ n' * rv < 2 ^ 22) as (H1 & H2 & H3) by nia.
    rewrite !u64_small by lia. pose proof (Z.div_le_mono (n * rv - 1) (n' * rv - 1) 8 ltac:(lia) ltac:(lia)).
    assert ((n' * rv - 1) / 8 < 2 ^ 20) by (apply Z.div_lt_upper_bound; lia). pose proof (Z.div_pos (n * rv - 1) 8 ltac:(lia) ltac:(lia)).
    rewrite !u32_small by lia. lia.
Qed.
Lemma block_fits_mono cfg rv n n' : routing_config_ok cfg → 1 ≤ rv ≤ 32 → 0 ≤ n ≤ n' → block_fits cfg rv n' → block_fits cfg rv n.
Proof.
  intros Hcfg Hrv Hn Hf. pose proof (block_fits_bound cfg rv n' ltac:(lia) Hf). destruct (size_range cfg Hcfg) as [Hsz _].
  pose proof (remainder_block_size_mono rv n n' Hrv Hn ltac:(lia)). destruct Hf as [Hp He].
  unfold block_fits, routing_header_length, encoding_size in *.
  pose proof (Z.div_le_mono (n + rc_index_size cfg - 1) (n' + rc_index_size cfg - 1) 8 ltac:(lia) ltac:(lia)). lia.
Qed.

Lemma filter_of_fmap {A B} (f : A → B) (P : B → Prop) `{!∀ x, Decision (P x)} (l : list A) : filter P (f <$> l) = f <$> filter (λ x, P (f x)) l.
Proof. induction l as [|x l IH]; [done|]. rewrite fmap_cons, !list.filter_cons, IH. by case_decide. Qed.

(** ** Old and new indices *)
Section index.
Context (fs vs vs' L L' lis : Z) (Hvs : 0 ≤ vs ≤ vs') (HL : lis ≤ L ≤ L') (Hfs : L' ≤ fs) (Hlis : 0 ≤ lis).
Local Abbreviation rv := (fs - L + vs).
Local Abbreviation rv' := (fs - L' + vs').
Lemma widen_index e : index_of rv' lis (widen vs vs' e) / 2 ^ (L' - L) = index_of rv lis e.
Proof using Hvs HL Hfs Hlis.
  unfold index_of. replace (rv' + lis) with (vs' + (fs - L' + lis)) by lia. replace (rv + lis) with (vs + ((fs - L' + lis) + (L' - L))) by lia.
  rewrite !Z.pow_add_r by lia. rewrite <-!Z.div_div by lia. by rewrite (proj1 (widen_div vs vs' e Hvs)).
Qed.
Lemma widen_index_range e : index_of rv lis e * 2 ^ (L' - L) ≤ index_of rv' lis (widen vs vs' e) < (index_of rv lis e + 1) * 2 ^ (L' - L).
Proof using Hvs HL Hfs Hlis.
  rewrite <-widen_index. set (x := index_of rv' lis (widen vs vs' e)).
  pose proof (Z.div_mod x (2 ^ (L' - L)) ltac:(lia)). pose proof (Z.mod_pos_bound x (2 ^ (L' - L)) ltac:(lia)). lia.
Qed.
Lemma widen_range e : 0 ≤ e < 2 ^ (fs + vs) → 0 ≤ widen vs vs' e < 2 ^ (fs + vs').
Proof using Hvs HL Hfs Hlis.
  intros He. unfold widen. apply entry_range; [lia|lia| |].
  - split; [apply Z.div_pos; lia|]. apply Z.div_lt_upper_bound; [lia|]. rewrite <-Z.pow_add_r by lia. rewrite (Z.add_comm vs). lia.
  - pose proof (Z.mod_pos_bound e (2 ^ vs) ltac:(lia)). pose proof (Z.pow_le_mono_r 2 vs vs' ltac:(lia) ltac:(lia)). lia.
Qed.
(** Widened, the entries of an old index that are of new index [k] are all of that index. *)
Lemma widen_at_index k F : at_index rv' lis k (widen vs vs' <$> filter (λ e, index_of rv lis e = k / 2 ^ (L' - L)) F) =
  at_index rv' lis k (widen vs vs' <$> F).
Proof using Hvs HL Hfs Hlis.
  unfold at_index. rewrite !filter_of_fmap. f_equal. apply list_filter_filter_l. intros e He. cbn in He. by rewrite <-He, widen_index.
Qed.
End index.

(** ** The representation of the filter that is built *)
Section built.
Context (cfg : routing_config) (Hcfg : routing_config_ok cfg) (f : routing_filter) (Hz : filter_sizes cfg f).
Local Abbreviation lis := (rc_log_index_size cfg).
Local Abbreviation ps := (rc_page_size cfg).
Local Abbreviation rv := (rv_bits cfg f).
Local Abbreviation num_indices := (num_indices_of cfg f).
Context (data : list Z) (pages0 : gmap Z (list Z)) (m : Z) (W : Z → list Z) (Fw G : list Z).
Context (Hgood : Forall (good_page cfg) (index_pages cfg (rf_addr f) ++ data)) (Hnodup : NoDup (index_pages cfg (rf_addr f) ++ data)).
Context (Hni : num_indices ≤ addrs_per_page cfg * pages_per_extent cfg).
Context (HW : ∀ o, StronglySorted Z.le (W o)) (HG : StronglySorted Z.le G) (HFw : StronglySorted Z.le Fw).
Context (HWF : ∀ k, 0 ≤ k < num_indices → at_index rv lis k (W (k / m)) = at_index rv lis k Fw).
Context (HFr : Forall (λ e, 0 ≤ e < 2 ^ (rc_fingerprint_size cfg + rf_value_size f)) Fw).
Context (HGr : Forall (λ e, 0 ≤ e < 2 ^ (rc_fingerprint_size cfg + rf_value_size f)) G).
Context (Hfits : ∀ k, 0 ≤ k < num_indices → block_fits cfg rv (lengthZ (new_entries cfg rv m W G k))).

Lemma merged_sorted : StronglySorted Z.le (list_merge Z.le Fw G).
Proof using HG HFw.
  apply Sorted_StronglySorted; [intros x y z; apply Z.le_trans|]. apply Sorted_list_merge; [intros x y; apply Z.le_total|..].
  - by apply StronglySorted_Sorted.
  - by apply StronglySorted_Sorted.
Qed.
Lemma merged_index k : 0 ≤ k < num_indices → entries_of cfg f k (list_merge Z.le Fw G) = new_entries cfg rv m W G k.
Proof using HG HFw HW HWF.
  intros Hk. apply (StronglySorted_unique Z.le).
  - apply StronglySorted_filter, merged_sorted.
  - by apply new_entries_sorted.
  - rewrite new_entries_Permutation, HWF by done. unfold entries_of, at_index.
    by rewrite (filter_Permutation _ _ _ (merge_Permutation Z.le Fw G)), list.filter_app.
Qed.
Lemma FILTER_ADDR_small x : 0 ≤ x < 2 ^ FILTER_META_SHIFT → FILTER_ADDR x = x.
Proof using.
  intros Hx. unfold FILTER_ADDR, FILTER_ADDR_MASK. rewrite Z.sub_1_r, <-Z.ones_equiv, Z.land_ones by done. by apply Z.mod_small.
Qed.
(** The pages of the filter are not among those to come. *)
Definition kept (a : add_state) : gmap Z (list Z) := filter (λ kv, kv.1 ∉ as_next a) (as_pages a).
Lemma kept_lookup used a x p : data = used ++ as_next a → x ∈ index_pages cfg (rf_addr f) ++ used → as_pages a !! x = Some p →
  kept a !! x = Some p.
Proof using Hnodup.
  intros Hd Hx Hp. apply map_lookup_filter_Some. split; [done|]. cbn. intros Hn. pose proof Hnodup as Hnd.
  rewrite Hd, app_assoc in Hnd. apply list.NoDup_app in Hnd as (_ & Hnd & _). by eapply Hnd.
Qed.

Lemma built_filter_at a : build_inv cfg rv (rf_addr f) data pages0 num_indices m W G num_indices a →
  filter_at cfg f (kept a) (list_merge Z.le Fw G).
Proof using All.
  intros [[used Hp] _ _ _]. destruct (sizes_bounds cfg Hcfg f Hz) as (_ & Hrv & _ & _ & _). destruct Hp as [Hnext _ _ Hpages _ _ Hwr].
  assert (Hni0 : 0 < num_indices).
  { unfold num_indices_of. pose proof (log_num_buckets_ge cfg (rf_num_fingerprints f)). apply Z.pow_pos_nonneg; lia. }
  assert (Hidx : ∀ i, 0 ≤ i < num_indices → 0 ≤ i / addrs_per_page cfg < pages_per_extent cfg).
  { intros i Hi. by apply (index_page_of cfg Hcfg num_indices Hni i Hi). }
  split.
  - destruct (Hidx 0 ltac:(lia)) as [_ Hppe].
    assert (Hin : rf_addr f + ps * 0 ∈ index_pages cfg (rf_addr f) ++ data).
    { apply elem_of_app. left. apply index_page_elem. pose proof (Z.div_pos 0 (addrs_per_page cfg) ltac:(lia)). change (0 / addrs_per_page cfg) with 0 in Hppe. lia. }
    pose proof (proj1 (list.Forall_forall _ _) Hgood _ Hin) as (H0 & _). lia.
  - done.
  - apply merged_sorted.
  - rewrite list.Forall_forall in *. intros e. rewrite merge_Permutation, elem_of_app. intros [He|He]; [by apply HFr|by apply HGr].
  - intros i Hi. destruct (Hwr i Hi) as (q & c & p & ip & Hq & Hc & Hcb & _ & Hpq & Hb & Hip & Hget).
    assert (Hqin : q ∈ index_pages cfg (rf_addr f) ++ data) by (rewrite Hnext; set_solver).
    pose proof (proj1 (list.Forall_forall _ _) Hgood _ Hqin) as (Hq0 & Hqm & Hqs).
    pose proof (entries_small cfg Hcfg rv (new_entries cfg rv m W G) num_indices Hfits i Hi) as Hn.
    pose proof (block_bytes_pos cfg Hcfg rv Hrv _ Hn) as Hpos. destruct (rok_page _ Hcfg) as [Hps _].
    assert (Hmod : (q + c) `mod` ps = c).
    { rewrite Z.add_mod, Hqm, Z.add_0_l, Z.mod_mod by lia. apply Z.mod_small. lia. }
    exists (q + c), p. rewrite Hmod. split_and!.
    + exists ip, (q + c). split_and!; [|done|apply FILTER_ADDR_small; lia].
      apply (kept_lookup used); [done| |done]. apply elem_of_app. left. by apply index_page_elem, Hidx.
    + lia.
    + replace (q + c - c) with q by lia. apply (kept_lookup used); [done| |done]. set_solver.
    + by rewrite merged_index by done.
Qed.
End built.

(** ** An add *)
(** The filter it returns. *)
Definition added (old : routing_filter) (hashes : list Z) (value addr meta_head num_unique : Z) : routing_filter :=
  mk_routing_filter addr meta_head (lengthZ hashes + rf_num_fingerprints old) num_unique (value_bits value).
Lemma filter_sizes_ext cfg f f' : rf_num_fingerprints f = rf_num_fingerprints f' → rf_value_size f = rf_value_size f' →
  filter_sizes cfg f → filter_sizes cfg f'.
Proof.
  intros En Ev [H1 H2 H3 H4 H5]. rewrite En, Ev in *. split; [done..|].
  unfold rv_bits, remainder_bits in *. by rewrite <-En, <-Ev.
Qed.

Lemma filter_at_ext cfg f f' pages F : rf_addr f = rf_addr f' → rf_num_fingerprints f = rf_num_fingerprints f' →
  rf_value_size f = rf_value_size f' → filter_at cfg f pages F → filter_at cfg f' pages F.
Proof.
  destruct f as [a m n u v], f' as [a' m' n' u' v']. cbn. intros -> -> -> [Ha Hz Hs Hr Hb]. split; [exact Ha| |exact Hs|exact Hr|exact Hb].
  eapply filter_sizes_ext; [..|exact Hz]; done.
Qed.

(** The pages to come: the index pages from [A] on, then data pages. *)
Record fresh_pages (cfg : routing_config) (s : filter_store) (A : Z) (data : list Z) : Prop := {
  fr_next : fs_next s = index_pages cfg A ++ data;
  fr_nodup : NoDup (fs_next s);
  fr_good : Forall (good_page cfg) (fs_next s);
  fr_pages : Forall (has_page cfg (fs_pages s)) (fs_next s);
  fr_extent : A `mod` rc_extent_size cfg = 0;
  fr_ppe : 0 < pages_per_extent cfg;
}.
(** What an add needs: an old filter, hashes, widths and pages that fit. *)
Record can_add (cfg : routing_config) (old : routing_filter) (F hashes : list Z) (value : Z) (s : filter_store) (A : Z) (data : list Z) : Prop := {
  ca_old : holds_entries cfg old (settled s) F;
  ca_hashes : Forall (λ h, 0 ≤ h < 2 ^ 32) hashes;
  ca_value : 0 ≤ value;
  ca_widens : rf_value_size old ≤ value_bits value;
  ca_old_value : 0 ≤ rf_value_size old;
  ca_sizes : filter_sizes cfg (added old hashes value A 0 0);
  ca_fresh : fresh_pages cfg s A data;
  ca_room : num_indices_of cfg (added old hashes value A 0 0) + 1 ≤ lengthZ data;
  ca_index : num_indices_of cfg (added old hashes value A 0 0) ≤ addrs_per_page cfg * pages_per_extent cfg;
  ca_fits : ∀ k, 0 ≤ k < num_indices_of cfg (added old hashes value A 0 0) →
    block_fits cfg (rv_bits cfg (added old hashes value A 0 0))
      (lengthZ (entries_of cfg (added old hashes value A 0 0) k
        ((widen (rf_value_size old) (value_bits value) <$> F) ++ (new_entry cfg (value_bits value) value <$> hashes))));
}.

Section add.
Context (cfg : routing_config) (Hcfg : routing_config_ok cfg).
Context (old : routing_filter) (F hashes : list Z) (value : Z) (s : filter_store) (A : Z) (data : list Z).
Context (Hca : can_add cfg old F hashes value s A data).
Local Abbreviation f' := (added old hashes value A 0 0).
Local Abbreviation vs' := (value_bits value).
Local Abbreviation vs := (rf_value_size old).
Local Abbreviation lis := (rc_log_index_size cfg).
Local Abbreviation fs := (rc_fingerprint_size cfg).
Local Abbreviation L' := (log_num_buckets cfg (rf_num_fingerprints f')).
Local Abbreviation L := (log_num_buckets cfg (rf_num_fingerprints old)).

Lemma num_indices_bound f : filter_sizes cfg f → 0 < num_indices_of cfg f ∧ num_indices_of cfg f * rc_index_size cfg < 2 ^ 32.
Proof using Hcfg.
  clear Hca. intros [Hn _ _ _ _]. pose proof (log_num_buckets_ge cfg (rf_num_fingerprints f)) as Hge. destruct Hcfg as [Hlis Hsize _ _].
  assert (Hlt : log_num_buckets cfg (rf_num_fingerprints f) < 32).
  { unfold log_num_buckets. destruct (Z.ltb_spec (Z.log2 (rf_num_fingerprints f)) lis); [lia|]. apply Z.log2_lt_pow2; lia. }
  unfold num_indices_of. split; [apply Z.pow_pos_nonneg; lia|]. rewrite Hsize, <-Z.pow_add_r by lia. apply Z.pow_lt_mono_r; lia.
Qed.
Lemma initial_buffer : clean_buffer (replicate (Z.to_nat (ROUTING_FPS_PER_PAGE / 8)) 255).
Proof using.
  change (Z.to_nat (ROUTING_FPS_PER_PAGE / 8)) with 512%nat. split; [split|].
  - by apply bytes_ok_replicate.
  - done.
  - intros t Ht. apply mbit_replicate. lia.
Qed.

(** The call of [build_filter], given what the old filter has. *)
Lemma add_build_run (W : Z → list Z) (m old_num old_rv : Z) G :
  num_indices_of cfg f' = old_num * m → 0 < m → 0 ≤ old_num → (∀ o, StronglySorted Z.le (W o)) → (∀ o, lengthZ (W o) ≤ 4096) →
  (∀ o, Forall (λ e, o * m ≤ index_of (rv_bits cfg f') lis e < (o + 1) * m) (W o)) →
  (∀ k, at_index (rv_bits cfg f') lis k (W (k / m)) = at_index (rv_bits cfg f') lis k (widen vs vs' <$> F)) →
  (∀ o a, 0 ≤ o < old_num → settled s ⊆ as_pages a → lengthZ (as_old_src a) = 4096 →
    ∃ src, read_old_index cfg old old_rv vs' o a = Ret (lengthZ (W o), with_old_src src a) ∧ lengthZ src = 4096 ∧
      ∀ j e, lookupZ (W o) j = Some e → lookupZ src j = Some e) →
  sort_fps cfg hashes vs' value = Ret G → StronglySorted Z.le G → (∀ e, e ∈ G ↔ e ∈ new_entry cfg vs' value <$> hashes) →
  (∀ (P : Z → Prop) (HP : ∀ x, Decision (P x)), lengthZ (filter P G) ≤ lengthZ (filter P (new_entry cfg vs' value <$> hashes))) →
  StronglySorted Z.le (widen vs vs' <$> F) → Forall (λ e, 0 ≤ e < 2 ^ (fs + vs')) (widen vs vs' <$> F) →
  ∃ a, build_filter cfg old hashes value vs' old_rv (rv_bits cfg f') (num_indices_of cfg f') old_num
      (mk_add_state (fs_pages s) (fs_next s) 0 0 0 (replicate (Z.to_nat (ROUTING_FPS_PER_PAGE / 8)) 255)
        (replicate (Z.to_nat ROUTING_FPS_PER_PAGE) 0) 0 0) = Ret (A, a) ∧
    filter_at cfg f' (kept a) (list_merge Z.le (widen vs vs' <$> F) G) ∧
    (∀ x, x ∉ fs_next s → as_pages a !! x = fs_pages s !! x) ∧ ∃ used, fs_next s = index_pages cfg A ++ used ++ as_next a.
Proof using All.
  intros Hdiv Hm Hon HW HWlen HWidx HWF Hread Hsort HG HGe HGl HFs HFr.
  pose proof (ca_sizes _ _ _ _ _ _ _ _ Hca) as Hz. destruct (sizes_bounds cfg Hcfg f' Hz) as (_ & Hrv & Hrl & _ & _).
  destruct (num_indices_bound f' Hz) as [Hni0 Hnis]. pose proof (ca_fresh _ _ _ _ _ _ _ _ Hca) as [Hnext Hnd Hgood Hhas Hext Hppe].
  rewrite Hnext in Hnd, Hgood, Hhas. pose proof (rok_fp _ Hcfg) as Hfp. pose proof (rok_log _ Hcfg) as Hlis.
  assert (Hvs' : 0 ≤ vs' ∧ fs + vs' ≤ 32) by (pose proof (fz_value _ _ Hz); pose proof (fz_fp _ _ Hz); done).
  assert (HGr : Forall (λ e, 0 ≤ e < 2 ^ (fs + vs')) G).
  { rewrite list.Forall_forall. intros e He. apply HGe, list_elem_of_fmap in He as (h & -> & Hh).
    apply entry_range; [lia|lia| |by apply value_bits_range, (ca_value _ _ _ _ _ _ _ _ Hca)].
    apply fingerprint_range; [lia|]. exact (proj1 (list.Forall_forall _ _) (ca_hashes _ _ _ _ _ _ _ _ Hca) h Hh). }
  assert (HG32 : Forall (λ e, 0 ≤ e < 2 ^ 32) G).
  { eapply list.Forall_impl; [exact HGr|]. cbn. intros e He. pose proof (Z.pow_le_mono_r 2 (fs + vs') 32 ltac:(lia) ltac:(lia)). lia. }
  assert (HGlen : lengthZ G < 2 ^ 32).
  { assert (Hall : ∀ l : list Z, filter (λ _, True) l = l) by (induction l as [|x l IH]; [done|]; rewrite list.filter_cons, decide_True, IH; done).
    pose proof (HGl (λ _, True) _) as Hlen. rewrite !Hall, lengthZ_fmap in Hlen.
    pose proof (fz_num _ _ Hz) as Hn. cbn in Hn.
    destruct (ca_old _ _ _ _ _ _ _ _ Hca) as [(_ & E & _)|Hf]; [lia|]. pose proof (fz_num _ _ (fa_sizes _ _ _ _ Hf)). lia. }
  assert (Hfits : ∀ k, 0 ≤ k < num_indices_of cfg f' → block_fits cfg (rv_bits cfg f') (lengthZ (new_entries cfg (rv_bits cfg f') m W G k))).
  { intros k Hk. eapply (block_fits_mono cfg _ _ _ Hcfg Hrv); [|by apply (ca_fits _ _ _ _ _ _ _ _ Hca)].
    split; [apply lengthZ_nonneg|]. rewrite new_entries_length, HWF. unfold entries_of. rewrite list.filter_app, lengthZ_app.
    apply Z.add_le_mono_l, HGl. }
  destruct (build_filter_run cfg Hcfg (rv_bits cfg f') vs' Hrv Hrl A data (fs_pages s) (num_indices_of cfg f') m W G Hgood Hnd
    (ca_index _ _ _ _ _ _ _ _ Hca) Hm Hnis HW HG HWidx HWlen HG32 HGlen Hfits old old_rv old_num Hdiv Hon) with
    (hashes := hashes) (value := value) (a := mk_add_state (fs_pages s) (fs_next s) 0 0 0 (replicate (Z.to_nat (ROUTING_FPS_PER_PAGE / 8)) 255)
        (replicate (Z.to_nat ROUTING_FPS_PER_PAGE) 0) 0 0) as (a & Hrun & Hb).
  - intros o t Ho Hother Hsrc. apply Hread; [done| |done]. apply settled_subseteq. by rewrite Hnext.
  - done.
  - done.
  - intros x Hx. exact (proj1 (list.Forall_forall _ _) Hhas x Hx).
  - apply (ca_room _ _ _ _ _ _ _ _ Hca).
  - done.
  - done.
  - done.
  - apply initial_buffer.
  - done.
  - done.
  - exists a. split; [exact Hrun|]. split_and!.
    + apply (built_filter_at cfg Hcfg f' Hz data (fs_pages s) m W (widen vs vs' <$> F) G); done || (intros k _; apply HWF) || apply (ca_index _ _ _ _ _ _ _ _ Hca).
    + destruct Hb as [[used Hp] _ _ _]. rewrite Hnext. apply (pi_other _ _ _ _ _ _ _ _ _ _ Hp).
    + destruct Hb as [[used Hp] _ _ _]. exists used. rewrite Hnext. f_equal. apply (pi_next _ _ _ _ _ _ _ _ _ _ Hp).
Qed.

(** ** What the old filter gives *)
Lemma null_read o a : rf_addr old = 0 → read_old_index cfg old 0 vs' o a = Ret (lengthZ (@nil Z), with_old_src (as_old_src a) a).
Proof using. intros E. unfold read_old_index. rewrite E. cbn. by rewrite with_old_src_same. Qed.
Definition old_entries (o : Z) : list Z := widen vs vs' <$> entries_of cfg old o F.
Lemma entries_of_out pages o : filter_at cfg old pages F → ¬ (0 ≤ o < num_indices_of cfg old) → entries_of cfg old o F = [].
Proof using Hcfg.
  clear Hca. intros Hf Ho. destruct (sizes_bounds cfg Hcfg old (fa_sizes _ _ _ _ Hf)) as (Hrem & Hrv & _ & Hvs & Hsum).
  unfold entries_of. apply filter_empty. eapply list.Forall_impl; [exact (fa_range _ _ _ _ Hf)|]. cbn. intros e He E. apply Ho. subst o.
  pose proof (log_num_buckets_ge cfg (rf_num_fingerprints old)). pose proof (fz_log _ _ (fa_sizes _ _ _ _ Hf)). pose proof (rok_log _ Hcfg).
  unfold index_of, num_indices_of. split; [apply Z.div_pos; lia|]. apply Z.div_lt_upper_bound; [lia|].
  rewrite <-Z.pow_add_r by lia. unfold rv_bits, remainder_bits in *.
  replace (fs - L + vs + lis + (L - lis)) with (fs + vs) by lia. lia.
Qed.
Lemma old_entries_small pages o : filter_at cfg old pages F → lengthZ (old_entries o) ≤ 4096.
Proof using Hcfg.
  clear Hca. intros Hf. unfold old_entries. rewrite lengthZ_fmap. destruct (decide (0 ≤ o < num_indices_of cfg old)) as [Ho|Ho].
  - destruct (fa_blocks _ _ _ _ Hf o Ho) as (x & p & _ & _ & _ & Hb). exact (bk_small _ _ _ _ _ _ Hb).
  - rewrite (entries_of_out pages o Hf Ho). done.
Qed.
Lemma sizes_steps pages : filter_at cfg old pages F → 0 ≤ vs ≤ vs' ∧ lis ≤ L ≤ L' ∧ L' ≤ fs ∧ rv_bits cfg old = fs - L + vs ∧ rv_bits cfg f' = fs - L' + vs'.
Proof using Hcfg Hca.
  intros Hf. pose proof (ca_widens _ _ _ _ _ _ _ _ Hca). pose proof (fz_value _ _ (fa_sizes _ _ _ _ Hf)). pose proof (log_num_buckets_ge cfg (rf_num_fingerprints old)).
  pose proof (fz_log _ _ (ca_sizes _ _ _ _ _ _ _ _ Hca)) as HL. split_and!; [done|done|done| |exact HL|done|done].
  pose proof (fz_num _ _ (fa_sizes _ _ _ _ Hf)). unfold log_num_buckets at 1 2. cbn [rf_num_fingerprints added].
  pose proof (Z.log2_le_mono (rf_num_fingerprints old) (lengthZ hashes + rf_num_fingerprints old) ltac:(pose proof (lengthZ_nonneg hashes); lia)).
  destruct (Z.ltb_spec (Z.log2 (rf_num_fingerprints old)) lis), (Z.ltb_spec (Z.log2 (lengthZ hashes + rf_num_fingerprints old)) lis); lia.
Qed.
Lemma old_entries_facts pages : filter_at cfg old pages F → let m := 2 ^ (L' - L) in
  num_indices_of cfg f' = num_indices_of cfg old * m ∧ 0 < m ∧ (∀ o, StronglySorted Z.le (old_entries o)) ∧
  (∀ o, Forall (λ e, o * m ≤ index_of (rv_bits cfg f') lis e < (o + 1) * m) (old_entries o)) ∧
  (∀ k, at_index (rv_bits cfg f') lis k (old_entries (k / m)) = at_index (rv_bits cfg f') lis k (widen vs vs' <$> F)) ∧
  StronglySorted Z.le (widen vs vs' <$> F) ∧ Forall (λ e, 0 ≤ e < 2 ^ (fs + vs')) (widen vs vs' <$> F).
Proof using Hcfg Hca.
  intros Hf m. destruct (sizes_steps pages Hf) as (Hvs & HL & HLf & Hrv & Hrv'). pose proof (rok_log _ Hcfg) as Hlis.
  rewrite Hrv'. unfold old_entries, entries_of. rewrite Hrv. split_and!.
  - unfold num_indices_of, m. rewrite <-Z.pow_add_r by lia. f_equal. lia.
  - unfold m. apply Z.pow_pos_nonneg; lia.
  - intros o. apply StronglySorted_fmap_mono; [intros x y; by apply widen_le|]. apply StronglySorted_filter, (fa_sorted _ _ _ _ Hf).
  - intros o. rewrite list.Forall_fmap. apply list.Forall_forall. intros e [<- _]%list_elem_of_filter. cbn.
    apply (widen_index_range fs vs vs' L L' lis); lia.
  - intros k. apply (widen_at_index fs vs vs' L L' lis); lia.
  - apply StronglySorted_fmap_mono; [intros x y; by apply widen_le|apply (fa_sorted _ _ _ _ Hf)].
  - rewrite list.Forall_fmap. eapply list.Forall_impl; [exact (fa_range _ _ _ _ Hf)|]. cbn. intros e He. apply (widen_range fs vs vs' L L' lis); lia.
Qed.
Lemma old_read pages o a : filter_at cfg old pages F → 0 ≤ o < num_indices_of cfg old → pages ⊆ as_pages a → lengthZ (as_old_src a) = 4096 →
  ∃ src, read_old_index cfg old (rv_bits cfg old) vs' o a = Ret (lengthZ (old_entries o), with_old_src src a) ∧ lengthZ src = 4096 ∧
    ∀ j e, lookupZ (old_entries o) j = Some e → lookupZ src j = Some e.
Proof using Hcfg Hca.
  intros Hf Ho Hsub Hsrc. destruct (sizes_steps pages Hf) as (Hvs & _). pose proof (fz_fp _ _ (ca_sizes _ _ _ _ _ _ _ _ Hca)) as Hfp.
  destruct (read_old_index_run cfg Hcfg old F vs' o a) as (src & Hrun & Hl & Hlk); [by eapply filter_at_mono|done|lia|done|done|].
  exists src. unfold old_entries. rewrite lengthZ_fmap. split_and!; [done|done|]. intros j e Hj. rewrite lookupZ_fmap in Hj.
  destruct (lookupZ (entries_of cfg old o F) j) as [e0|] eqn:E; [|done]. injection Hj as <-. by apply Hlk.
Qed.

(** ** The add *)
Context (meta : Z) (Hmeta : fs_meta s = Some meta).
Lemma routing_filter_add_run : ∃ nu s' F', routing_filter_add cfg true old hashes value s =
    Ret (STATUS_OK, added old hashes value A meta nu, s') ∧
  filter_at cfg (added old hashes value A meta nu) (settled s') F' ∧ settled s ⊆ settled s' ∧
  ∀ e, e ∈ F' ↔ e ∈ widen vs vs' <$> F ∨ e ∈ new_entry cfg vs' value <$> hashes.
Proof using All.
  pose proof (ca_sizes _ _ _ _ _ _ _ _ Hca) as Hz. destruct (sizes_bounds cfg Hcfg f' Hz) as (Hrem & Hrv & Hrl & Hvs' & Hsum).
  pose proof Hz as [Hnf HLf Hv0 Hfp _]. cbn [rf_num_fingerprints rf_value_size added] in Hnf, Hv0, Hfp.
  pose proof (log_num_buckets_ge cfg (rf_num_fingerprints old)) as Hge. pose proof (log_num_buckets_ge cfg (rf_num_fingerprints f')) as Hge'.
  destruct (num_indices_bound f' Hz) as [Hni0 Hnis]. destruct (size_range cfg Hcfg) as [Hsz _]. pose proof (rok_fp _ Hcfg) as Hfs. pose proof (rok_log _ Hcfg) as Hlis.
  assert (Hni32 : num_indices_of cfg f' < 2 ^ 32) by nia.
  assert (Er' : vs' + u32 (fs - L') = rv_bits cfg f').
  { rewrite Hsum. unfold remainder_bits in *. rewrite u32_small by lia. cbn [rf_value_size added]. lia. }
  assert (En' : u32 (2 ^ (L' - lis)) = num_indices_of cfg f') by (apply u32_small; unfold num_indices_of in *; lia).
  pose proof (value_bits_range value (ca_value _ _ _ _ _ _ _ _ Hca)) as [_ Hval].
  destruct (sort_fps_run cfg hashes vs' value) as (G & Hsort & HG & HGe & HGl); [lia|lia|lia|done|apply (ca_hashes _ _ _ _ _ _ _ _ Hca)| |].
  { destruct (ca_old _ _ _ _ _ _ _ _ Hca) as [(_ & E & _)|Hf]; [lia|]. pose proof (fz_num _ _ (fa_sizes _ _ _ _ Hf)). lia. }
  assert (Hbuild : ∃ a, build_filter cfg old hashes value vs'
      (if negb (rf_addr old =? 0) then (if negb (rf_addr old =? 0) then rf_value_size old else 0) + u32 (fs - L) else 0) (rv_bits cfg f') (num_indices_of cfg f')
      (if negb (rf_addr old =? 0) then u32 (2 ^ (L - lis)) else 1)
      (mk_add_state (fs_pages s) (fs_next s) 0 0 0 (replicate (Z.to_nat (ROUTING_FPS_PER_PAGE / 8)) 255)
        (replicate (Z.to_nat ROUTING_FPS_PER_PAGE) 0) 0 0) = Ret (A, a) ∧
    filter_at cfg f' (kept a) (list_merge Z.le (widen vs vs' <$> F) G) ∧
    (∀ x, x ∉ fs_next s → as_pages a !! x = fs_pages s !! x) ∧ ∃ used, fs_next s = index_pages cfg A ++ used ++ as_next a).
  { destruct (ca_old _ _ _ _ _ _ _ _ Hca) as [(Ea & En & EF)|Hf].
    - rewrite Ea. cbn [Z.eqb negb]. assert (EFn : F = []) by done.
      apply (add_build_run (λ _, []) (num_indices_of cfg f') 1 0 G); try done; try lia.
      + intros _. constructor.
      + intros k. by rewrite EFn.
      + intros o a _ _ Ha. exists (as_old_src a). split_and!; [by apply null_read|done|]. intros j e Hj. by rewrite lookupZ_nil in Hj.
      + rewrite EFn. constructor.
      + rewrite EFn. constructor.
    - rewrite (proj2 (Z.eqb_neq _ _)) by apply (fa_addr _ _ _ _ Hf). cbn [negb].
      destruct (old_entries_facts _ Hf) as (Hdiv & Hm & HW & HWidx & HWF & HFs & HFr). pose proof (fa_sizes _ _ _ _ Hf) as Hzo.
      destruct (num_indices_bound old Hzo) as [Hno0 Hnos]. destruct (sizes_bounds cfg Hcfg old Hzo) as (Hremo & Hrvo & _ & _ & Hsumo).
      assert (Eo : u32 (2 ^ (L - lis)) = num_indices_of cfg old) by (assert (num_indices_of cfg old < 2 ^ 32) by nia; apply u32_small; unfold num_indices_of in *; lia).
      assert (Er : vs + u32 (fs - L) = rv_bits cfg old) by (unfold remainder_bits in *; rewrite u32_small; lia).
      rewrite Eo, Er. apply (add_build_run old_entries (2 ^ (L' - L)) (num_indices_of cfg old) (rv_bits cfg old) G); try done; [lia| |].
      + intros o. by apply (old_entries_small (settled s)).
      + intros o a Ho Hsub Ha. by apply (old_read (settled s)). }
  destruct Hbuild as (a & Hrun & Hfa & Hother & used & Hnext).
  exists (as_num_unique a), (mk_filter_store (as_pages a) None (as_next a)), (list_merge Z.le (widen vs vs' <$> F) G).
  assert (Hsz' : filter_at cfg (added old hashes value A meta (as_num_unique a)) (kept a) (list_merge Z.le (widen vs vs' <$> F) G)).
  { eapply filter_at_ext; [..|exact Hfa]; done. }
  split; [|split_and!].
  - unfold routing_filter_add.
    assert (Hok : negb (rf_addr old =? 0) && (rf_num_fingerprints old =? 0) = false ∧
      negb (rf_addr old =? 0) && negb (fs + (if negb (rf_addr old =? 0) then vs else 0) <=? 32) = false).
    { destruct (ca_old _ _ _ _ _ _ _ _ Hca) as [(Ea & _)|Hf]; [by rewrite Ea|].
      rewrite (proj2 (Z.eqb_neq (rf_addr old) _)) by apply (fa_addr _ _ _ _ Hf). pose proof (fz_num _ _ (fa_sizes _ _ _ _ Hf)).
      pose proof (fz_fp _ _ (fa_sizes _ _ _ _ Hf)). cbn [negb andb]. rewrite (proj2 (Z.eqb_neq _ 0)), (proj2 (Z.leb_le _ _)) by lia. done. }
    destruct Hok as [-> ->]. rewrite (u32_small (lengthZ hashes + rf_num_fingerprints old)) by lia.
    rewrite (proj2 (Z.eqb_neq (lengthZ hashes + _) 0)) by lia. change (if value =? 0 then 0 else Z.log2 value + 1) with vs'.
    change (log_num_buckets cfg (lengthZ hashes + rf_num_fingerprints old)) with L'.
    rewrite (proj2 (Z.leb_le _ _)) by lia. cbn [negb]. rewrite Hmeta.
    rewrite Er', En', Hrun. done.
  - exact Hsz'.
  - apply map_subseteq_spec. intros x p [Hp Hx]%map_lookup_filter_Some. cbn in Hx. apply map_lookup_filter_Some. cbn.
    rewrite Hother by done. split; [done|]. intros Hin. apply Hx. rewrite Hnext. set_solver.
  - intros e. rewrite merge_Permutation, elem_of_app. by rewrite (HGe e).
Qed.
End add.
