(* ===== verification/RoutingTheorems.v ===== *)
(** * Theorems about the filters

    What a packed array, a sort, a lookup and an add promise. *)
From S2P Require Import Prelude Bytes PackedArray RadixSort RoutingFilter RoutingAdd RoutingRepr RoutingLookup.
From S2P Require Import RoutingMerge RoutingWrite RoutingRun.
From stdpp Require Import sorting.
Open Scope Z_scope.

(** The fingerprint of a key. *)
Definition key_fingerprint (cfg : routing_config) (target : list Z) : Z := fingerprint_of cfg (u32 (rc_hash cfg target (rc_seed cfg))).

Lemma routing_filter_lookup_run cfg f pages F target : routing_config_ok cfg → holds_entries cfg f pages F →
  Forall (λ e, e `mod` 2 ^ rf_value_size f < 64) F →
  ∃ r, routing_filter_lookup cfg pages f target = Ret (STATUS_OK, r) ∧
    ∀ v, 0 ≤ v → Z.testbit r v = true ↔ has_value f F (key_fingerprint cfg target) v.
Proof.
  intros Hcfg [(Ha & _ & ->)|Hf] Hv; unfold routing_filter_lookup.
  - rewrite Ha. exists 0. split; [done|]. intros v Hv0. rewrite Z.testbit_0_l. split; [done|]. intros [_ Hin].
    by apply list.not_elem_of_nil in Hin.
  - rewrite (proj2 (Z.eqb_neq _ _)) by apply (fa_addr _ _ _ _ Hf). pose proof (fz_num _ _ (fa_sizes _ _ _ _ Hf)).
    rewrite (proj2 (Z.eqb_neq (rf_num_fingerprints f) 0)) by lia. pose proof (rok_fp _ Hcfg). pose proof (rok_log _ Hcfg).
    destruct (lookup_fingerprint_run cfg Hcfg pages f F (key_fingerprint cfg target)) as (r & Hrun & Hr); [done| |done|].
    + apply fingerprint_range; [lia|apply u32_range].
    + exists r. split; [|done]. unfold key_fingerprint, fingerprint_of in Hrun. by rewrite Hrun.
Qed.
Lemma added_values cfg old F hashes value A meta nu F' fp v : 0 ≤ value → 0 ≤ rf_value_size old ≤ value_bits value →
  (∀ e, e ∈ F' ↔ e ∈ widen (rf_value_size old) (value_bits value) <$> F ∨ e ∈ new_entry cfg (value_bits value) value <$> hashes) →
  has_value (added old hashes value A meta nu) F' fp v ↔ has_value old F fp v ∨ v = value ∧ fp ∈ fingerprint_of cfg <$> hashes.
Proof.
  intros Hval Hvs HF. destruct (value_bits_range value Hval) as [Hvs' Hvr]. unfold has_value. cbn [rf_value_size added].
  set (vs := rf_value_size old) in *. set (vs' := value_bits value) in *. rewrite HF, !list_elem_of_fmap.
  pose proof (Z.pow_le_mono_r 2 vs vs' ltac:(lia) ltac:(lia)). split.
  - intros [Hv [(e & He & Hin)|(h & He & Hin)]].
    + left. destruct (widen_div vs vs' e Hvs) as [Hd Hm]. rewrite <-He in Hd, Hm.
      rewrite Z.div_add_l, (Z.div_small v), Z.add_0_r in Hd by lia. rewrite Z.add_comm, Z_mod_plus_full, Z.mod_small in Hm by lia.
      pose proof (Z.mod_pos_bound e (2 ^ vs) ltac:(lia)). split; [lia|].
      replace (fp * 2 ^ vs + v) with e; [done|]. rewrite Hd, Hm. pose proof (Z.div_mod e (2 ^ vs) ltac:(lia)). lia.
    + right. unfold new_entry in He.
      assert (E : fp = fingerprint_of cfg h ∧ v = value) by (apply (Z.div_mod_unique (2 ^ vs')); [lia..|]; clear - He; lia). destruct E as [-> ->]. split; [done|]. by exists h.
  - intros [[Hv Hin]|[-> (h & -> & Hin)]].
    + split; [lia|]. left. exists (fp * 2 ^ vs + v). split; [|done]. by rewrite widen_entry.
    + split; [done|]. right. by exists h.
Qed.
(** Values below 64 stay so. *)
Lemma added_small cfg old F (hashes : list Z) value F' : 0 ≤ value < 64 → 0 ≤ rf_value_size old ≤ value_bits value →
  Forall (λ e, e `mod` 2 ^ rf_value_size old < 64) F →
  (∀ e, e ∈ F' ↔ e ∈ widen (rf_value_size old) (value_bits value) <$> F ∨ e ∈ new_entry cfg (value_bits value) value <$> hashes) →
  Forall (λ e, e `mod` 2 ^ value_bits value < 64) F'.
Proof.
  intros Hval Hvs Hsm HF. destruct (value_bits_range value ltac:(lia)) as [Hvs' Hvr]. apply list.Forall_forall. intros e.
  rewrite HF, !list_elem_of_fmap. rewrite list.Forall_forall in Hsm. intros [(x & -> & Hx)|(h & -> & _)].
  - destruct (widen_div (rf_value_size old) (value_bits value) x Hvs) as [_ ->]. by apply Hsm.
  - unfold new_entry. rewrite Z.add_comm, Z_mod_plus_full, Z.mod_small by lia. lia.
Qed.

(** C13: A lookup in a filter of any entries returns, and bit [v] of the values it finds is
    set exactly when the filter has an entry of the key's fingerprint with value [v]:
    the decoding of the unary bucket encoding by words, the positions of the bucket and
    the packed remainders lose nothing and invent nothing. *)
Theorem routing_filter_lookup_exact cfg f pages F target : routing_config_ok cfg → filter_at cfg f pages F →
  Forall (λ e, e `mod` 2 ^ rf_value_size f < 64) F →
  ∃ r, routing_filter_lookup cfg pages f target = Ret (STATUS_OK, r) ∧
    ∀ v, 0 ≤ v → Z.testbit r v = bool_decide (has_value f F (key_fingerprint cfg target) v).
Proof.
  intros Hcfg Hf Hv. destruct (routing_filter_lookup_run cfg f pages F target Hcfg ltac:(by right) Hv) as (r & Hrun & Hr).
  exists r. split; [done|]. intros v Hv0. apply eq_bool_prop_intro. rewrite bool_decide_spec, <-Hr by done. apply Is_true_true.
Qed.

(** C8: Adding hashes with a value to a filter (or to none) returns a filter that, for
    every key, is looked up as the old one with the value's bit set in addition when the
    key's fingerprint is among those added, so there are no false negatives and no other
    positives than equal fingerprints; the old filter is looked up as before, and the new
    one holds entries in pages that are not handed out again, so that it can be added to. *)
Theorem routing_filter_add_lookup cfg old F hashes value s A data meta :
  routing_config_ok cfg → can_add cfg old F hashes value s A data → fs_meta s = Some meta → value < 64 →
  Forall (λ e, e `mod` 2 ^ rf_value_size old < 64) F →
  ∃ f' s' F', routing_filter_add cfg true old hashes value s = Ret (STATUS_OK, f', s') ∧
    holds_entries cfg f' (settled s') F' ∧ Forall (λ e, e `mod` 2 ^ rf_value_size f' < 64) F' ∧
    ∀ target, ∃ r r', routing_filter_lookup cfg (fs_pages s) old target = Ret (STATUS_OK, r) ∧
      routing_filter_lookup cfg (fs_pages s') old target = Ret (STATUS_OK, r) ∧
      routing_filter_lookup cfg (fs_pages s') f' target = Ret (STATUS_OK, r') ∧
      ∀ v, 0 ≤ v → Z.testbit r' v =
        Z.testbit r v || bool_decide (v = value ∧ key_fingerprint cfg target ∈ fingerprint_of cfg <$> hashes).
Proof.
  intros Hcfg Hca Hmeta Hv64 Hsm.
  destruct (routing_filter_add_run cfg Hcfg old F hashes value s A data Hca meta Hmeta) as (nu & s' & F' & Hrun & Hf' & Hsub & HF').
  destruct Hca as [Hold Hhash Hval Hwid Hv0 _ _ _ _ _].
  exists (added old hashes value A meta nu), s', F'. pose proof (added_small cfg old F hashes value F' ltac:(lia) ltac:(lia) Hsm HF') as Hsm'.
  split; [exact Hrun|]. split; [by right|]. split; [exact Hsm'|]. intros target.
  assert (Hmono : ∀ pages, settled s ⊆ pages → holds_entries cfg old pages F).
  { intros pages Hp. destruct Hold as [?|Ho]; [by left|right]. by eapply filter_at_mono. }
  destruct (routing_filter_lookup_run cfg old (fs_pages s) F target Hcfg) as (r & Hr & Hrb); [apply Hmono, settled_fs_pages|done|].
  destruct (routing_filter_lookup_run cfg old (fs_pages s') F target Hcfg) as (r2 & Hr2 & Hrb2);
    [apply Hmono; etransitivity; [exact Hsub|apply settled_fs_pages]|done|].
  destruct (routing_filter_lookup_run cfg (added old hashes value A meta nu) (fs_pages s') F' target Hcfg) as (r' & Hr' & Hrb').
  { right. eapply filter_at_mono; [apply settled_fs_pages|exact Hf']. }
  { exact Hsm'. }
  assert (E : r2 = r).
  { apply Z.bits_inj'. intros v Hv. apply eq_true_iff_eq. rewrite Hrb, Hrb2 by done. done. }
  exists r, r'. rewrite E in Hr2. split_and!; [done..|]. intros v Hv. apply eq_true_iff_eq.
  rewrite orb_true_iff, Hrb', Hrb, bool_decide_eq_true by done. by apply added_values; [|lia|].
Qed.

(** A filter of a page for its index and a page for its block. *)
Definition sample_hash (k : list Z) (seed : Z) : Z := foldr (λ b h, b + 256 * h) seed k.
Definition sample_config : routing_config := routing_config_init 512 1024 20 6 sample_hash 0.
Definition sample_store : filter_store :=
  mk_filter_store (list_to_map ((λ a, (a, replicate 512 0)) <$> [1024; 1536; 2048; 2560])) (Some 7) [1024; 1536; 2048; 2560].
Definition sample_hashes : list Z := [20480; 286720000; 20480].
Lemma sample_config_ok : routing_config_ok sample_config.
Proof. split; done. Qed.
Lemma sample_can_add : can_add sample_config NULL_ROUTING_FILTER [] sample_hashes 3 sample_store 1024 [2048; 2560].
Proof.
  split.
  - by left.
  - repeat constructor; done.
  - done.
  - done.
  - done.
  - split; done.
  - split; [done|by apply (bool_decide_unpack _); vm_compute| | |done|done].
    + repeat constructor; done.
    + repeat constructor; eexists; (split; [reflexivity|]); (split; [done|by apply bytes_ok_replicate]).
  - done.
  - done.
  - intros k Hk. assert (k = 0) as -> by (change (num_indices_of _ _) with 1 in Hk; lia). by split.
Qed.
Lemma sample_filter_at : ∃ f' s' F', filter_at sample_config f' (settled s') F' ∧ Forall (λ e, e `mod` 2 ^ rf_value_size f' < 64) F'.
Proof.
  destruct (routing_filter_add_run sample_config sample_config_ok _ _ _ _ _ _ _ sample_can_add 7 eq_refl) as (nu & s' & F' & _ & Hf & _ & HF).
  exists (added NULL_ROUTING_FILTER sample_hashes 3 1024 7 nu), s', F'. split; [exact Hf|].
  by apply (added_small sample_config NULL_ROUTING_FILTER [] sample_hashes 3).
Qed.
Lemma routing_filter_lookup_exact_witness : ∃ f pages F r, filter_at sample_config f pages F ∧
  routing_filter_lookup sample_config pages f [0; 80] = Ret (STATUS_OK, r) ∧
  ∀ v, 0 ≤ v → Z.testbit r v = bool_decide (has_value f F (key_fingerprint sample_config [0; 80]) v).
Proof.
  destruct sample_filter_at as (f & s & F & Hf & Hv).
  destruct (routing_filter_lookup_exact sample_config f (settled s) F [0; 80] sample_config_ok Hf Hv) as (r & Hr & Hb).
  by exists f, (settled s), F, r.
Defined.
Lemma routing_filter_add_lookup_witness : ∃ f' s',
  routing_filter_add sample_config true NULL_ROUTING_FILTER sample_hashes 3 sample_store = Ret (STATUS_OK, f', s') ∧
  routing_filter_lookup sample_config (fs_pages s') f' [0; 80] = Ret (STATUS_OK, 8).
Proof.
  destruct (routing_filter_add_lookup sample_config NULL_ROUTING_FILTER [] sample_hashes 3 sample_store 1024 [2048; 2560] 7
    sample_config_ok sample_can_add eq_refl ltac:(done) ltac:(done)) as (f' & s' & F' & Hrun & _ & _ & Hall).
  exists f', s'. split; [exact Hrun|]. destruct (Hall [0; 80]) as (r & r' & Hr & _ & Hr' & Hb).
  replace 8 with r'; [exact Hr'|]. apply Z.bits_inj'. intros v Hv. rewrite Hb by done.
  assert (r = 0) as -> by (clear -Hr; vm_compute in Hr; congruence). rewrite Z.testbit_0_l, orb_false_l by done.
  change 8 with (2 ^ 3). rewrite Z.pow2_bits_eqb by done.
  rewrite (bool_decide_ext _ (v = 3)); [|].
  - destruct (Z.eqb_spec 3 v) as [<-|]; [done|]. by rewrite bool_decide_eq_false_2 by lia.
  - split; [by intros [??]|]. intros ->. split; [done|]. by apply (bool_decide_unpack _); vm_compute.
Defined.

(** ** Packed arrays and the sort *)
Lemma items_at_insert bits p p' a xs k x : 1 ≤ bits ≤ 32 → items_at bits p a xs → 0 ≤ k < lengthZ xs → 0 ≤ x < 2 ^ bits →
  (∀ t, 0 ≤ t → mbit p' a t = if (k * bits <=? t) && (t <? k * bits + bits) then Z.testbit x (t - k * bits) else mbit p a t) →
  items_at bits p' a (insertZ k x xs).
Proof.
  intros Hb Hxs Hk Hx Hp' j y. destruct (decide (k = j)) as [<-|Hkj].
  - rewrite lookupZ_insertZ_eq by done. intros [= <-]. split; [done|]. intros i Hi. rewrite Hp' by nia.
    rewrite (proj2 (Z.leb_le _ _)), (proj2 (Z.ltb_lt _ _)) by lia. cbn [andb]. f_equal. lia.
  - rewrite lookupZ_insertZ_ne by done. intros Hj. pose proof (lookupZ_Some _ _ _ Hj). destruct (Hxs j y Hj) as [Hy Hbit].
    split; [done|]. intros i Hi. rewrite Hp', Hbit by nia. destruct (decide (k < j)).
    + rewrite (proj2 (Z.ltb_ge _ _)), andb_false_r by nia. done.
    + rewrite (proj2 (Z.leb_gt _ _)) by nia. done.
Qed.

(** C33: For every width of 1 to 32 bits, items packed into a memory are unpacked to the
    same items, each is what PackedArray_get returns, no byte outside the words they need
    changes; and when PackedArray_set replaces one, the array is unpacked with that one
    item replaced: items that cross a word boundary do not disturb their neighbours. *)
Theorem PackedArray_round_trip bits p a xs : 1 ≤ bits ≤ 32 → bytes_ok p → 0 ≤ a → xs ≠ [] →
  Forall (λ x, 0 ≤ x < 2 ^ bits) xs → a + packed_bytes bits (lengthZ xs) ≤ lengthZ p →
  ∃ p', PackedArray_pack p a 0 xs bits = Some p' ∧ outside p p' a (a + packed_bytes bits (lengthZ xs)) ∧
    (∀ out, PackedArray_unpack p' a 0 out (lengthZ xs) bits = Some (xs ++ drop (length xs) out)) ∧
    (∀ k x, lookupZ xs k = Some x → PackedArray_get p' a k bits = Some x) ∧
    ∀ k x out, 0 ≤ k < lengthZ xs → 0 ≤ x < 2 ^ bits → ∃ p'', PackedArray_set p' a k x bits = Some p'' ∧
      PackedArray_unpack p'' a 0 out (lengthZ xs) bits = Some (insertZ k x xs ++ drop (length xs) out).
Proof.
  intros Hb Hp Ha Hne Hxs Hroom. destruct (pack_run bits Hb p a xs Hp Ha Hne Hxs Hroom) as (p' & Hrun & Hok & Hit & Hout & _).
  pose proof (proj1 Hout) as Hlen.
  assert (Hkr : ∀ k, k < lengthZ xs → a + packed_bytes bits (k + 1) ≤ lengthZ p').
  { intros k Hk. pose proof (packed_bytes_mono bits Hb (k + 1) (lengthZ xs) ltac:(lia)). lia. }
  exists p'. split; [done|]. split; [done|]. split; [|split].
  - intros out. apply unpack_run; try done. by rewrite Hlen.
  - intros k x Hk. pose proof (lookupZ_Some _ _ _ Hk). apply packed_get_run; [done|done|done|lia|by apply Hit|apply Hkr; lia].
  - intros k x out Hk Hx. destruct (set_run bits Hb p' a k x) as (p'' & Hset & Hok'' & Hl'' & Hbits); [done|done|lia|done|apply Hkr; lia|].
    exists p''. split; [done|]. pose proof (items_at_insert bits p' p'' a xs k x Hb Hit Hk Hx Hbits) as Hit''.
    pose proof (lengthZ_insertZ xs k x) as Hli. rewrite <-Hli.
    rewrite (unpack_run bits Hb p'' a (insertZ k x xs) out); [|done|done| |done|by rewrite Hli, Hl'', Hlen].
    + do 3 f_equal. unfold lengthZ in Hli. lia.
    + intros E. rewrite E in Hli. change (lengthZ (@nil Z)) with 0 in Hli. lia.
Qed.
Lemma PackedArray_round_trip_witness : ∃ p', PackedArray_pack (replicate 16 255) 4 0 [5; 100000; 77] 20 = Some p' ∧
  PackedArray_get p' 4 1 20 = Some 100000.
Proof.
  destruct (PackedArray_round_trip 20 (replicate 16 255) 4 [5; 100000; 77]) as (p' & Hp & _ & _ & Hget & _);
    [done|by apply bytes_ok_replicate|done|done|repeat constructor; done|done|].
  exists p'. split; [exact Hp|]. by apply (Hget 1 100000).
Defined.

(** The radix sort of fingerprints of at most 32 bits returns what sorting by order
    does, for any number of them below 2^32, whatever the scratch buffer holds and however
    many of the four passes the width takes (an odd number ends in the other buffer). *)
Theorem RadixSort_sorts data temp fp_size : 0 ≤ fp_size ≤ 32 → lengthZ data < 2 ^ 32 → lengthZ temp = lengthZ data →
  Forall (λ u, 0 ≤ u < 2 ^ fp_size) data → RadixSort data zero_matrix temp fp_size = Ret (merge_sort Z.le data).
Proof.
  intros Hfp Hl Ht Hd. destruct (RadixSort_run data temp fp_size Hfp Hl Ht Hd) as (l & Hrun & Hperm & Hs).
  rewrite Hrun. f_equal. apply (StronglySorted_unique Z.le); [done| |].
  - apply (StronglySorted_merge_sort Z.le).
  - rewrite Hperm. symmetry. apply merge_sort_Permutation.
Qed.
Lemma RadixSort_sorts_witness : RadixSort [70000; 3; 258; 3] zero_matrix [0; 0; 0; 0] 17 = Ret [3; 3; 258; 70000].
Proof. rewrite RadixSort_sorts; [reflexivity|done|done|done|repeat constructor; done]. Defined.

(** ** The metadata of an index entry *)
Lemma entry_parts entry : 0 ≤ entry < 2 ^ 64 →
  entry = FILTER_ADDR entry + filter_meta_load entry * 2 ^ 56 ∧ 0 ≤ FILTER_ADDR entry < 2 ^ 56 ∧ 0 ≤ filter_meta_load entry < 256.
Proof.
  intros He. unfold FILTER_ADDR, FILTER_ADDR_MASK, filter_meta_load, FILTER_META_SHIFT.
  rewrite Z.sub_1_r, <-Z.ones_equiv, Z.land_ones, Z.shiftr_div_pow2 by done.
  pose proof (Z.div_mod entry (2 ^ 56) ltac:(done)). pose proof (Z.mod_pos_bound entry (2 ^ 56) ltac:(done)).
  assert (0 ≤ entry / 2 ^ 56 < 256) by (split; [apply Z.div_pos; lia|apply Z.div_lt_upper_bound; lia]).
  unfold u8. rewrite (Z.mod_small (entry / 2 ^ 56)) by lia. lia.
Qed.
Lemma entry_build addr meta : 0 ≤ addr < 2 ^ 56 → 0 ≤ meta < 256 → let entry := addr + meta * 2 ^ 56 in
  FILTER_ADDR entry = addr ∧ filter_meta_load entry = meta ∧ 0 ≤ entry < 2 ^ 64.
Proof.
  intros Ha Hm. cbn zeta. destruct (entry_parts (addr + meta * 2 ^ 56) ltac:(lia)) as (E & Hr & Hr'). lia.
Qed.
Lemma meta_step meta : 0 ≤ meta < 256 →
  (if negb (Z.land meta FILTER_META_SPECIAL =? 0) then meta
   else if Z.land meta FILTER_META_CNT_MASK =? FILTER_META_CNT_MASK then FILTER_META_SPECIAL
   else Z.lor (Z.land meta FILTER_META_SPECIAL) (u8 (Z.land meta FILTER_META_CNT_MASK + 1))) =
  if meta <? 128 then meta + 1 else meta.
Proof.
  intros Hm. pose (ok := λ m, (if negb (Z.land m FILTER_META_SPECIAL =? 0) then m
   else if Z.land m FILTER_META_CNT_MASK =? FILTER_META_CNT_MASK then FILTER_META_SPECIAL
   else Z.lor (Z.land m FILTER_META_SPECIAL) (u8 (Z.land m FILTER_META_CNT_MASK + 1))) =? (if m <? 128 then m + 1 else m)).
  assert (Hall : forallb ok (seqZ 0 256) = true) by (vm_compute; done). rewrite forallb_forall in Hall.
  apply Z.eqb_eq, (Hall meta), list_elem_of_In, elem_of_seqZ. lia.
Qed.
Lemma filter_meta_cnt_inc_run entry : 0 ≤ entry < 2 ^ 64 → let entry' := filter_meta_cnt_inc entry in
  0 ≤ entry' < 2 ^ 64 ∧ FILTER_ADDR entry' = FILTER_ADDR entry ∧
  filter_meta_load entry' = if filter_meta_load entry <? 128 then filter_meta_load entry + 1 else filter_meta_load entry.
Proof.
  intros He. destruct (entry_parts entry He) as (E & Ha & Hm). pose proof (meta_step _ Hm) as Hstep. cbn zeta.
  unfold filter_meta_cnt_inc. destruct (negb (Z.land (filter_meta_load entry) FILTER_META_SPECIAL =? 0)).
  { by rewrite <-Hstep. }
  rewrite Hstep. rewrite Z.shiftl_mul_pow2, Z.lor_comm, (Z.mul_comm _ (2 ^ _)) by done. fold (FILTER_ADDR entry).
  unfold FILTER_META_SHIFT. rewrite lor_add_pow, (Z.mul_comm (2 ^ 56)) by lia.
  destruct (entry_build (FILTER_ADDR entry) (if filter_meta_load entry <? 128 then filter_meta_load entry + 1 else filter_meta_load entry)
    Ha) as (E1 & E2 & E3); [destruct (Z.ltb_spec (filter_meta_load entry) 128); lia|]. done.
Qed.

(** However often the count of an index entry is incremented, the address it carries
    stays; the count goes up by one each time to 127, the next increment marks the index
    special, and a special one is never changed again, so the byte does not overflow into
    the address or wrap around. *)
Theorem filter_meta_cnt_saturates entry n : 0 ≤ entry < 2 ^ 64 → let entry' := Nat.iter n filter_meta_cnt_inc entry in
  let meta := filter_meta_load entry in
  0 ≤ entry' < 2 ^ 64 ∧ FILTER_ADDR entry' = FILTER_ADDR entry ∧
  filter_meta_load entry' = (if meta <? 128 then Z.min (meta + Z.of_nat n) 128 else meta) ∧
  filter_meta_is_special entry' = (128 <=? meta + Z.of_nat n).
Proof.
  intros He. cbn zeta. pose proof (entry_parts entry He) as (_ & _ & Hm).
  assert (H : 0 ≤ Nat.iter n filter_meta_cnt_inc entry < 2 ^ 64 ∧ FILTER_ADDR (Nat.iter n filter_meta_cnt_inc entry) = FILTER_ADDR entry ∧
    filter_meta_load (Nat.iter n filter_meta_cnt_inc entry) =
      if filter_meta_load entry <? 128 then Z.min (filter_meta_load entry + Z.of_nat n) 128 else filter_meta_load entry).
  { induction n as [|n (IHr & IHa & IHm)]; [|].
    { change (Nat.iter 0 filter_meta_cnt_inc entry) with entry. split; [done|]. split; [done|]. destruct (Z.ltb_spec (filter_meta_load entry) 128); lia. }
    change (Nat.iter (S n) filter_meta_cnt_inc entry) with (filter_meta_cnt_inc (Nat.iter n filter_meta_cnt_inc entry)).
    destruct (filter_meta_cnt_inc_run _ IHr) as (E1 & E2 & E3). split; [exact E1|]. split; [by rewrite E2, IHa|].
    rewrite E3, IHm. destruct (Z.ltb_spec (filter_meta_load entry) 128).
    - destruct (Z.ltb_spec (Z.min (filter_meta_load entry + Z.of_nat n) 128) 128); lia.
    - by rewrite (proj2 (Z.ltb_ge _ _)) by lia. }
  destruct H as (H1 & H2 & H3). split_and!; [lia..|done|done|].
  unfold filter_meta_is_special. rewrite H3. set (m := filter_meta_load entry) in *. clearbody m. clear - Hm.
  set (t := if m <? 128 then Z.min (m + Z.of_nat n) 128 else m).
  assert (Ht : 0 ≤ t < 256 ∧ (128 ≤ t ↔ 128 ≤ m + Z.of_nat n)) by (unfold t; destruct (Z.ltb_spec m 128); lia). clearbody t.
  assert (Hall : forallb (λ t, eqb (negb (Z.land t FILTER_META_SPECIAL =? 0)) (128 <=? t)) (seqZ 0 256) = true) by (vm_compute; done).
  rewrite forallb_forall in Hall. rewrite (eqb_prop _ _ (Hall t ltac:(apply list_elem_of_In, elem_of_seqZ; lia))).
  apply eq_true_iff_eq. rewrite !Z.leb_le. lia.
Qed.
Lemma filter_meta_cnt_saturates_witness : filter_meta_load (Nat.iter 200 filter_meta_cnt_inc 4096) = 128.
Proof. destruct (filter_meta_cnt_saturates 4096 200) as (_ & _ & -> & _); [done|reflexivity]. Defined.

(** ** The values of a lookup *)
Lemma StronglySorted_gt_cons x l : StronglySorted Z.gt l → (∀ v, v ∈ l → v < x) → StronglySorted Z.gt (x :: l).
Proof. intros Hl Hx. constructor; [done|]. apply list.Forall_forall. intros v Hv. specialize (Hx v Hv). lia. Qed.
Lemma log2_cut found last : 0 ≤ found → 0 ≤ last → found `mod` 2 ^ last ≠ 0 →
  let idx := Z.log2 (found `mod` 2 ^ last) in 0 ≤ idx < last ∧ ∀ v, 0 ≤ v < last → (v < idx ∧ Z.testbit found v = true ∨ v = idx) ↔ Z.testbit found v = true.
Proof.
  intros Hf Hl Hne. set (idx := Z.log2 (found `mod` 2 ^ last)). cbn zeta. pose proof (Z.mod_pos_bound found (2 ^ last) ltac:(lia)) as Hr.
  assert (Hidx : 0 ≤ idx < last) by (split; [apply Z.log2_nonneg|apply Z.log2_lt_pow2; lia]). split; [done|]. intros v Hv.
  assert (Hb : ∀ j, 0 ≤ j < last → Z.testbit found j = Z.testbit (found `mod` 2 ^ last) j) by (intros j Hj; by rewrite Z.mod_pow2_bits_low by lia).
  split.
  - intros [(_ & H)| ->]; [done|]. rewrite Hb by done. apply Z.bit_log2. lia.
  - intros H. destruct (Z.lt_trichotomy v idx) as [?|[?|Hgt]]; [by left|by right|].
    rewrite Hb, Z.bits_above_log2 in H by (lia || done). done.
Qed.
Lemma found_values_from_S n found last : found_values_from (S n) found last =
  (idx ← routing_filter_get_next_value found last;
   if idx =? ROUTING_NOT_FOUND then Some [] else l ← found_values_from n found idx; Some (idx :: l)).
Proof. reflexivity. Qed.
Lemma first_value found : routing_filter_get_next_value found ROUTING_NOT_FOUND = Some (if found =? 0 then ROUTING_NOT_FOUND else Z.log2 found).
Proof. reflexivity. Qed.
Lemma next_value found last : 0 ≤ last < 64 → routing_filter_get_next_value found last =
  if last <? 31 then Some (if found `mod` 2 ^ last =? 0 then ROUTING_NOT_FOUND else Z.log2 (found `mod` 2 ^ last)) else None.
Proof.
  intros Hl. unfold routing_filter_get_next_value. rewrite (proj2 (Z.eqb_neq last _)) by (unfold ROUTING_NOT_FOUND, UINT16_MAX; lia).
  cbn [negb]. destruct (last <? 31); [|done]. cbn [mbind option_bind]. by rewrite Z.sub_1_r, <-Z.ones_equiv, Z.land_ones by lia.
Qed.
Lemma not_found_ne idx : idx < 64 → (idx =? ROUTING_NOT_FOUND) = false.
Proof. intros H. apply Z.eqb_neq. unfold ROUTING_NOT_FOUND, UINT16_MAX. lia. Qed.
Lemma found_values_from_run n found last : 0 ≤ found → 0 ≤ last < 31 → last < Z.of_nat n →
  ∃ l, found_values_from n found last = Some l ∧ StronglySorted Z.gt l ∧ ∀ v, v ∈ l ↔ 0 ≤ v < last ∧ Z.testbit found v = true.
Proof.
  intros Hf. revert last. induction n as [|n IH]; intros last Hl Hn; [lia|].
  rewrite found_values_from_S, next_value, (proj2 (Z.ltb_lt last 31)) by lia. cbn [mbind option_bind]. destruct (Z.eqb_spec (found `mod` 2 ^ last) 0) as [E|Hne].
  - cbn. exists []. split_and!; [done|constructor|]. intros v. split; [by intros ?%list.not_elem_of_nil|]. intros [Hv Hb].
    rewrite <-(Z.mod_pow2_bits_low found last v), E, Z.testbit_0_l in Hb by lia. done.
  - destruct (log2_cut found last Hf ltac:(lia) Hne) as [Hi Hb]. set (idx := Z.log2 (found `mod` 2 ^ last)) in *.
    rewrite not_found_ne by lia. destruct (IH idx ltac:(lia) ltac:(lia)) as (l & Hrun & Hs & Hin). rewrite Hrun.
    exists (idx :: l). split_and!; [done|apply StronglySorted_gt_cons; [done|]; intros v Hv; apply Hin in Hv; lia|]. intros v.
    rewrite elem_of_cons, Hin. split.
    + intros H. assert (Hv : 0 ≤ v < last) by lia. split; [done|]. apply Hb; [done|]. destruct H as [->|[??]]; [by right|left; split; [lia|done]].
    + intros [Hv Hbit]. destruct (proj2 (Hb v Hv) Hbit) as [[??]| ->]; [right; split; [lia|done]|by left].
Qed.

(** C34: The loop over the values of a lookup ends after at most 32 calls with each value
    once, in decreasing order, when all values are below 31; a larger one makes the next
    call shift an int by 31 or more, which C does not define. *)
Theorem found_values_enumerate found : 0 ≤ found < 2 ^ 64 →
  if found <? 2 ^ 31
  then ∃ l, found_values_from 32 found ROUTING_NOT_FOUND = Some l ∧ StronglySorted Z.gt l ∧
    ∀ v, v ∈ l ↔ 0 ≤ v ∧ Z.testbit found v = true
  else ∀ fuel, found_values_from fuel found ROUTING_NOT_FOUND = None.
Proof.
  intros Hf. destruct (Z.ltb_spec found (2 ^ 31)) as [Hlt|Hge].
  - rewrite found_values_from_S, first_value. cbn [mbind option_bind].
    destruct (Z.eqb_spec found 0) as [->|Hne].
    + cbn. exists []. split_and!; [done|constructor|]. intros v. rewrite Z.testbit_0_l. split; [by intros ?%list.not_elem_of_nil|by intros []].
    + assert (Hm : found `mod` 2 ^ 31 = found) by (apply Z.mod_small; lia).
      destruct (log2_cut found 31 ltac:(lia) ltac:(lia) ltac:(by rewrite Hm)) as [Hi Hb]. rewrite Hm in *. set (idx := Z.log2 found) in *.
      rewrite not_found_ne by lia.
      destruct (found_values_from_run 31 found idx ltac:(lia) Hi ltac:(lia)) as (l & Hrun & Hs & Hin). rewrite Hrun.
      exists (idx :: l). split_and!; [done|apply StronglySorted_gt_cons; [done|]; intros v Hv; apply Hin in Hv; lia|]. intros v.
      rewrite elem_of_cons, Hin. split.
      * intros H. assert (Hv : 0 ≤ v < 31) by lia. split; [lia|]. apply Hb; [done|]. destruct H as [->|[??]]; [by right|left; split; [lia|done]].
      * intros [Hv Hbit]. assert (v < 31).
        { destruct (Z.lt_ge_cases v 31); [done|]. rewrite Z.bits_above_log2 in Hbit; [done|lia|]. fold idx. lia. }
        destruct (proj2 (Hb v ltac:(lia)) Hbit) as [[??]| ->]; [right; split; [lia|done]|by left].
  - intros [|fuel]; [done|]. rewrite found_values_from_S, first_value. cbn [mbind option_bind]. rewrite (proj2 (Z.eqb_neq found 0)) by lia.
    assert (H31 : 31 ≤ Z.log2 found < 64) by (split; [apply Z.log2_le_pow2; lia|apply Z.log2_lt_pow2; lia]).
    rewrite not_found_ne by lia. destruct fuel as [|fuel]; [done|].
    by rewrite found_values_from_S, next_value, (proj2 (Z.ltb_ge _ _)) by lia.
Qed.
Lemma found_values_enumerate_witness : ∃ l, found_values_from 32 41 ROUTING_NOT_FOUND = Some l ∧ 5 ∈ l ∧
  ∀ fuel, found_values_from fuel (2 ^ 40) ROUTING_NOT_FOUND = None.
Proof.
  destruct (found_values_enumerate 41) as (l & Hl & _ & Hin); [done|]. exists l. split; [exact Hl|]. split; [by apply Hin|].
  exact (found_values_enumerate (2 ^ 40) ltac:(done)).
Defined.

(** ** The count of unique fingerprints *)
(** An add to a filter of [h0]: both counts, and how many fingerprints there are. *)
Definition two_adds (h0 h1 : list Z) : option (Z * Z * nat) :=
  let pages := list_to_map ((λ a, (a, replicate 512 0)) <$> ((λ k, 1024 + 512 * k) <$> seqZ 0 10)) in
  match routing_filter_add sample_config true NULL_ROUTING_FILTER h0 0 (mk_filter_store pages (Some 7) [1024; 1536; 2048]) with
  | Ret (_, f, s) =>
      match routing_filter_add sample_config true f h1 3 (mk_filter_store (fs_pages s) (Some 8) [3072; 3584; 4096; 4608; 5120]) with
      | Ret (_, f', _) => Some (rf_num_unique f, rf_num_unique f', length (remove_dups (fingerprint_of sample_config <$> (h0 ++ h1))))
      | _ => None
      end
  | _ => None
  end.
(** The fingerprint on which the loop of an index breaks is counted again for the next
    index: 128 fingerprints are counted as 129. *)
Example num_unique_counts_twice : two_adds [UINT32_MAX] ((λ k, k * 4096) <$> seqZ 0 127) = Some (1, 129, 128%nat).
Proof. vm_compute. reflexivity. Qed.
