(* ===== verification/BatchRwlock.v ===== *)
(** * The batch read-write lock

    platform_batch_rwlock_get, _unget, _try_claim, _unclaim, _lock and _unlock
    (platform_linux/platform.c) for one of the locks of a batch: a lock byte, a claim
    byte and a counter for each thread.  Every access of a byte is a step of one
    thread.  [lock_step] is the state machine that platform_types.h documents; the
    lock is shown to refine it, and the memtables use it in its place. *)
From S2P Require Import Prelude.

(** ** What the lock promises *)
Inductive mode : Type := Unlocked | ReadLocked | ClaimLocked | WriteLocked.
#[export] Instance mode_eq_dec : EqDecision mode.
Proof. solve_decision. Defined.

Definition has_mode (m : mode) (ms : list mode) : bool := bool_decide (m ∈ ms).
(** Whether a thread in mode [m] may be given [m'] when the threads are in [ms]. *)
Definition lock_allows (ms : list mode) (m m' : mode) : bool :=
  match m, m' with
  | Unlocked, ReadLocked => negb (has_mode WriteLocked ms)
  | ReadLocked, Unlocked => true
  | ReadLocked, ClaimLocked => negb (has_mode ClaimLocked ms) && negb (has_mode WriteLocked ms)
  | ClaimLocked, ReadLocked => true
  | ClaimLocked, WriteLocked => negb (has_mode ReadLocked ms)
  | WriteLocked, ClaimLocked => true
  | _, _ => false
  end.
Definition lock_step (ms : list mode) (t : nat) (ms' : list mode) : Prop :=
  ∃ m m', ms !! t = Some m ∧ lock_allows ms m m' = true ∧ ms' = <[t := m']> ms.

(** Claims and write locks are exclusive, and a write lock excludes readers. *)
Definition claims (m : mode) : bool := match m with ClaimLocked | WriteLocked => true | _ => false end.
Record modes_ok (ms : list mode) : Prop := {
  mo_claim : ∀ t t' m m', ms !! t = Some m → ms !! t' = Some m' → claims m = true → claims m' = true → t = t';
  mo_write : WriteLocked ∈ ms → ReadLocked ∉ ms;
}.
Lemma has_mode_false m ms : has_mode m ms = false ↔ m ∉ ms.
Proof. apply bool_decide_eq_false. Qed.
Lemma not_in_insert (m m' : mode) (t : nat) (ms : list mode) : m ≠ m' → m ∉ ms → m ∉ <[t := m']> ms.
Proof.
  intros Hne Hn [i Hi]%list_elem_of_lookup. apply list_lookup_insert_Some in Hi as [(-> & -> & _)|[_ Hi]]; [done|].
  apply Hn. by eapply list_elem_of_lookup_2.
Qed.
Lemma lock_step_ok ms t ms' : modes_ok ms → lock_step ms t ms' → modes_ok ms'.
Proof.
  intros [Hc Hw] (m & m' & Ht & Ha & ->). split.
  - intros i j x y Hi Hj Hx Hy. apply list_lookup_insert_Some in Hi as [(<- & <- & _)|[Hni Hi]], Hj as [(<- & <- & _)|[Hnj Hj]].
    + done.
    + destruct (claims m) eqn:Em; [by eapply Hc|]. exfalso. destruct m, m'; try done. cbn in Ha.
      apply andb_true_iff in Ha as [H1%negb_true_iff%has_mode_false H2%negb_true_iff%has_mode_false].
      destruct y; try done; [apply H1|apply H2]; by eapply list_elem_of_lookup_2.
    + destruct (claims m) eqn:Em; [by eapply Hc|]. exfalso. destruct m, m'; try done. cbn in Ha.
      apply andb_true_iff in Ha as [H1%negb_true_iff%has_mode_false H2%negb_true_iff%has_mode_false].
      destruct x; try done; [apply H1|apply H2]; by eapply list_elem_of_lookup_2.
    + by eapply Hc.
  - intros Hin. apply list_elem_of_lookup in Hin as [i Hi]. apply list_lookup_insert_Some in Hi as [(<- & -> & Hlt)|[Hne Hi]].
    + destruct m; try done. cbn in Ha. apply not_in_insert; [done|]. by apply has_mode_false, negb_true_iff.
    + assert (Hwm : WriteLocked ∈ ms) by by eapply list_elem_of_lookup_2. specialize (Hw Hwm).
      destruct m' eqn:Em'; try (by apply not_in_insert). destruct m; try done; cbn in Ha.
      * by apply negb_true_iff, has_mode_false in Ha.
      * exfalso. apply Hne. symmetry. by eapply (Hc i t WriteLocked ClaimLocked).
Qed.

(** ** The lock *)
(** Where a thread is. *)
Inductive rw_pc : Type :=
| Idle                 (* it has nothing, or is in the loop of _get before the increment *)
| GetInc               (* _get: the lock byte was zero *)
| GetTest              (* ... the counter is incremented *)
| GetUndo              (* ... the lock byte was set *)
| Reader
| ClaimDec             (* _try_claim: the claim byte is set *)
| Claimer
| UnclaimRel           (* _unclaim: the counter is incremented *)
| Locking (i : nat)    (* _lock: the lock byte is set, counter [i] is read next *)
| Writer.

Record batch_rwlock := mk_batch_rwlock {
  rw_lock : bool;
  rw_claim : bool;
  rw_read_counter : list Z;
  rw_pcs : list rw_pc;
}.
Definition at_pc (t : nat) (q : rw_pc) (s : batch_rwlock) : batch_rwlock :=
  mk_batch_rwlock (rw_lock s) (rw_claim s) (rw_read_counter s) (<[t := q]> (rw_pcs s)).
Definition count_by (t : nat) (d : Z) (s : batch_rwlock) : batch_rwlock :=
  mk_batch_rwlock (rw_lock s) (rw_claim s) (alter (λ c, u8 (c + d)) t (rw_read_counter s)) (rw_pcs s).
Definition set_lock (b : bool) (s : batch_rwlock) : batch_rwlock := mk_batch_rwlock b (rw_claim s) (rw_read_counter s) (rw_pcs s).
Definition set_claim (b : bool) (s : batch_rwlock) : batch_rwlock := mk_batch_rwlock (rw_lock s) b (rw_read_counter s) (rw_pcs s).

Inductive rw_step (t : nat) (s : batch_rwlock) : outcome batch_rwlock → Prop :=
| rw_get_wait : rw_pcs s !! t = Some Idle → rw_lock s = false → rw_step t s (Ret (at_pc t GetInc s))
| rw_get_inc : rw_pcs s !! t = Some GetInc → rw_step t s (Ret (at_pc t GetTest (count_by t 1 s)))
| rw_get_test : rw_pcs s !! t = Some GetTest → rw_step t s (Ret (at_pc t (if rw_lock s then GetUndo else Reader) s))
| rw_get_undo : rw_pcs s !! t = Some GetUndo → rw_step t s (Ret (at_pc t Idle (count_by t (-1) s)))
| rw_unget : rw_pcs s !! t = Some Reader → rw_step t s (Ret (at_pc t Idle (count_by t (-1) s)))
| rw_try_claim : rw_pcs s !! t = Some Reader →
    rw_step t s (Ret (at_pc t (if rw_claim s then Reader else ClaimDec) (set_claim true s)))
| rw_claim_dec : rw_pcs s !! t = Some ClaimDec → rw_step t s (Ret (at_pc t Claimer (count_by t (-1) s)))
| rw_unclaim : rw_pcs s !! t = Some Claimer → rw_step t s (Ret (at_pc t UnclaimRel (count_by t 1 s)))
| rw_unclaim_rel : rw_pcs s !! t = Some UnclaimRel → rw_step t s (Ret (at_pc t Reader (set_claim false s)))
| rw_lock_set : rw_pcs s !! t = Some Claimer →
    rw_step t s (if rw_claim s then Ret (at_pc t (Locking 0) (set_lock true s)) else Assert)
| rw_lock_scan i : rw_pcs s !! t = Some (Locking i) → rw_read_counter s !! i = Some 0 →
    rw_step t s (Ret (at_pc t (if bool_decide (S i = length (rw_read_counter s)) then Writer else Locking (S i)) s))
| rw_unlock : rw_pcs s !! t = Some Writer → rw_step t s (Ret (at_pc t Claimer (set_lock false s))).

(** [platform_batch_rwlock_init], for [n] threads. *)
Definition platform_batch_rwlock_init (n : nat) : batch_rwlock := mk_batch_rwlock false false (replicate n 0) (replicate n Idle).
Inductive rw_reachable (n : nat) : batch_rwlock → Prop :=
| rw_init : rw_reachable n (platform_batch_rwlock_init n)
| rw_next t s s' : rw_reachable n s → rw_step t s (Ret s') → rw_reachable n s'.

(** ** The mode a thread is in *)
Definition mode_of (p : rw_pc) : mode :=
  match p with
  | Idle | GetInc | GetTest | GetUndo => Unlocked
  | Reader => ReadLocked
  | ClaimDec | Claimer | UnclaimRel | Locking _ => ClaimLocked
  | Writer => WriteLocked
  end.
Definition modes (s : batch_rwlock) : list mode := mode_of <$> rw_pcs s.
Definition counted (p : rw_pc) : bool :=
  match p with GetTest | GetUndo | Reader | ClaimDec | UnclaimRel => true | _ => false end.
Definition locked_pc (p : rw_pc) : bool := match p with Locking _ | Writer => true | _ => false end.
(** The threads whose counters have been seen at zero. *)
Definition scanned (p : rw_pc) (j : nat) : Prop := match p with Locking i => (j < i)%nat | Writer => True | _ => False end.

Record rw_inv (s : batch_rwlock) : Prop := {
  ri_length : length (rw_read_counter s) = length (rw_pcs s);
  ri_count : ∀ t p, rw_pcs s !! t = Some p → rw_read_counter s !! t = Some (Z.b2z (counted p));
  ri_claim : ∀ t p, rw_pcs s !! t = Some p → claims (mode_of p) = true → rw_claim s = true;
  ri_unique : ∀ t t' p p', rw_pcs s !! t = Some p → rw_pcs s !! t' = Some p' →
    claims (mode_of p) = true → claims (mode_of p') = true → t = t';
  ri_lock : ∀ t p, rw_pcs s !! t = Some p → locked_pc p = true → rw_lock s = true;
  ri_scan : ∀ t j p, rw_pcs s !! t = Some p → scanned p j → rw_pcs s !! j ≠ Some Reader;
}.

Lemma rw_inv_init n : rw_inv (platform_batch_rwlock_init n).
Proof.
  assert (Hi : ∀ t p, rw_pcs (platform_batch_rwlock_init n) !! t = Some p → p = Idle) by (by intros t p [-> _]%lookup_replicate).
  split; cbn.
  - by rewrite !length_replicate.
  - intros t p Hp. pose proof (Hi t p Hp) as ->. apply lookup_replicate in Hp as [_ Hn]. by apply lookup_replicate.
  - by intros t p ->%Hi.
  - by intros t t' p p' ->%Hi.
  - by intros t p ->%Hi.
  - by intros t j p ->%Hi.
Qed.

(** A step that moves thread [t] from [p] to [q] keeps the invariant when the bytes
    agree with the claims and locks afterwards and [q] is not a reader under a scan. *)
Lemma rw_inv_move t s p q lock claim counters : rw_inv s → rw_pcs s !! t = Some p →
  length counters = length (rw_pcs s) → (∀ j, j ≠ t → counters !! j = rw_read_counter s !! j) →
  counters !! t = Some (Z.b2z (counted q)) →
  (∀ j r, j ≠ t → rw_pcs s !! j = Some r → claims (mode_of r) = true → claim = true ∧ claims (mode_of q) = false) →
  (claims (mode_of q) = true → claim = true) →
  (∀ j r, j ≠ t → rw_pcs s !! j = Some r → locked_pc r = true → lock = true) → (locked_pc q = true → lock = true) →
  (∀ j r, j ≠ t → rw_pcs s !! j = Some r → scanned r t → q ≠ Reader) →
  (∀ j, j ≠ t → scanned q j → rw_pcs s !! j ≠ Some Reader) →
  rw_inv (mk_batch_rwlock lock claim counters (<[t := q]> (rw_pcs s))).
Proof.
  intros [Hlen Hcnt Hcl Huq Hlk Hsc] Ht Hl Hc Hct Hclaims Hq Hlocks Hql Hscan Hqs.
  assert (Hcase : ∀ j r, <[t := q]> (rw_pcs s) !! j = Some r → j = t ∧ r = q ∨ j ≠ t ∧ rw_pcs s !! j = Some r).
  { intros j r [(<- & <- & _)|[? ?]]%list_lookup_insert_Some; [by left|right; by split]. }
  split; cbn.
  - by rewrite length_insert.
  - intros j r [[-> ->]|[Hj Hr]]%Hcase; [done|]. by rewrite Hc, (Hcnt j r).
  - intros j r [[-> ->]|[Hj Hr]]%Hcase Hm; [by apply Hq|by eapply Hclaims].
  - intros i j x y [[-> ->]|[Hi Hx]]%Hcase [[-> ->]|[Hj Hy]]%Hcase Hmx Hmy; [done|..].
    + destruct (Hclaims j y Hj Hy Hmy) as [_ E]. congruence.
    + destruct (Hclaims i x Hi Hx Hmx) as [_ E]. congruence.
    + by eapply Huq.
  - intros j r [[-> ->]|[Hj Hr]]%Hcase Hm; [by apply Hql|by eapply Hlocks].
  - intros i j x [[-> ->]|[Hi Hx]]%Hcase Hs.
    + intros [[-> E]|[Hj Hr]]%Hcase; [by subst q|by apply (Hqs j)].
    + intros [[-> E]|[Hj Hr]]%Hcase; [by apply (Hscan i x)|]. by eapply (Hsc i j).
Qed.
Lemma count_by_spec t d s p (c : bool) : rw_inv s → rw_pcs s !! t = Some p → u8 (Z.b2z (counted p) + d) = Z.b2z c →
  let counters := alter (λ x, u8 (x + d)) t (rw_read_counter s) in
  length counters = length (rw_pcs s) ∧ (∀ j, j ≠ t → counters !! j = rw_read_counter s !! j) ∧ counters !! t = Some (Z.b2z c).
Proof.
  intros HI Ht Hd. cbn. split_and!.
  - by rewrite length_alter, (ri_length _ HI).
  - intros j Hj. by rewrite list_lookup_alter_ne.
  - rewrite list_lookup_alter_eq, (ri_count _ HI t p Ht). cbn [fmap option_fmap option_map]. by rewrite Hd.
Qed.

Lemma modes_at t q s : modes (at_pc t q s) = <[t := mode_of q]> (modes s).
Proof. apply list_fmap_insert. Qed.
Lemma modes_lookup s t p : rw_pcs s !! t = Some p → modes s !! t = Some (mode_of p).
Proof. intros Ht. unfold modes. by rewrite list_lookup_fmap, Ht. Qed.
Lemma in_modes s m : m ∈ modes s → ∃ j r, rw_pcs s !! j = Some r ∧ mode_of r = m.
Proof.
  intros [j Hj]%list_elem_of_lookup. unfold modes in Hj. rewrite list_lookup_fmap in Hj.
  destruct (rw_pcs s !! j) as [r|] eqn:E; [|done]. injection Hj as <-. by exists j, r.
Qed.
(** A change of the pc only keeps the modes or is a step of the lock. *)
Lemma mode_step s s' t p q : rw_pcs s !! t = Some p → modes s' = <[t := mode_of q]> (modes s) →
  mode_of q = mode_of p ∨ lock_allows (modes s) (mode_of p) (mode_of q) = true →
  modes s' = modes s ∨ lock_step (modes s) t (modes s').
Proof.
  intros Ht Hs' [E|Ha].
  - left. rewrite Hs', E. by apply list_insert_id, modes_lookup.
  - right. exists (mode_of p), (mode_of q). split_and!; [by apply modes_lookup|done|done].
Qed.
Lemma lock_held s t p : rw_inv s → rw_pcs s !! t = Some p → locked_pc p = true → claims (mode_of p) = true.
Proof. by destruct p. Qed.

Section steps.
Context (s : batch_rwlock) (HI : rw_inv s) (t : nat).
Definition refined (o : outcome batch_rwlock) : Prop :=
  ∃ s', o = Ret s' ∧ rw_inv s' ∧ (modes s' = modes s ∨ lock_step (modes s) t (modes s')).

Definition counters_for (q : rw_pc) (counters : list Z) : Prop :=
  length counters = length (rw_pcs s) ∧ (∀ j, j ≠ t → counters !! j = rw_read_counter s !! j) ∧ counters !! t = Some (Z.b2z (counted q)).
(** Steps that leave the lock and the claim. *)
Lemma step_pc p q counters : rw_pcs s !! t = Some p → counters_for q counters →
  claims (mode_of p) = claims (mode_of q) → locked_pc q = locked_pc p →
  (q = Reader → p = Reader ∨ rw_lock s = false ∨ claims (mode_of p) = true) →
  (∀ j, j ≠ t → scanned q j → scanned p j ∨ rw_pcs s !! j ≠ Some Reader) →
  mode_of q = mode_of p ∨ lock_allows (modes s) (mode_of p) (mode_of q) = true →
  refined (Ret (mk_batch_rwlock (rw_lock s) (rw_claim s) counters (<[t := q]> (rw_pcs s)))).
Proof using HI.
  intros Ht (H1 & H2 & H3) Hcl Hlk Hr Hsc Hm.
  eexists. split; [done|]. split.
  - apply (rw_inv_move t s p q); try done.
    + intros j r Hj Hjr Hc. split; [by eapply (ri_claim _ HI)|]. rewrite <-Hcl. destruct (claims (mode_of p)) eqn:E; [|done].
      exfalso. apply Hj. by eapply (ri_unique _ HI).
    + intros Hq. eapply (ri_claim _ HI); [exact Ht|congruence].
    + intros j r _. apply (ri_lock _ HI).
    + intros Hq. eapply (ri_lock _ HI); [exact Ht|congruence].
    + intros j r Hj Hjr Hs Hq. destruct (Hr Hq) as [->|[E|E]].
      * by apply (ri_scan _ HI j t r).
      * enough (rw_lock s = true) by congruence. eapply (ri_lock _ HI); [exact Hjr|]. by destruct r.
      * apply Hj. eapply (ri_unique _ HI); [exact Hjr|exact Ht| |done]. by destruct r.
    + intros j Hj Hs. destruct (Hsc j Hj Hs); [by apply (ri_scan _ HI t j p)|done].
  - apply (mode_step s _ t p q Ht); [apply list_fmap_insert|done].
Qed.
Lemma counters_same p q : rw_pcs s !! t = Some p → counted q = counted p → counters_for q (rw_read_counter s).
Proof using HI. intros Ht E. split_and!; [apply (ri_length _ HI)|done|]. rewrite E. by apply (ri_count _ HI). Qed.
Lemma counters_by p q d : rw_pcs s !! t = Some p → u8 (Z.b2z (counted p) + d) = Z.b2z (counted q) →
  counters_for q (alter (λ x, u8 (x + d)) t (rw_read_counter s)).
Proof using HI. intros Ht E. by apply (count_by_spec t d s p (counted q) HI Ht E). Qed.

(** The steps that change the claim or the lock. *)
Lemma step_claim : rw_pcs s !! t = Some Reader → rw_claim s = false → refined (Ret (at_pc t ClaimDec (set_claim true s))).
Proof using HI.
  intros Ht Hc. destruct (counters_same Reader ClaimDec Ht eq_refl) as (H1 & H2 & H3).
  assert (Hno : ∀ j r, rw_pcs s !! j = Some r → claims (mode_of r) = false).
  { intros j r Hj. destruct (claims (mode_of r)) eqn:E; [|done]. rewrite (ri_claim _ HI j r Hj E) in Hc. done. }
  eexists. split; [done|]. split.
  - apply (rw_inv_move t s Reader ClaimDec); try done.
    + intros j r _ Hj Hm. by rewrite (Hno j r Hj) in Hm.
    + intros j r _. apply (ri_lock _ HI).
  - apply (mode_step s _ t Reader ClaimDec Ht); [apply list_fmap_insert|]. right. cbn.
    rewrite !(proj2 (has_mode_false _ _)); [done|..]; intros (j & r & Hj & E)%in_modes; pose proof (Hno j r Hj) as Hn; by rewrite E in Hn.
Qed.
Lemma step_unclaim : rw_pcs s !! t = Some UnclaimRel → refined (Ret (at_pc t Reader (set_claim false s))).
Proof using HI.
  intros Ht. destruct (counters_same UnclaimRel Reader Ht eq_refl) as (H1 & H2 & H3).
  assert (Hno : ∀ j r, j ≠ t → rw_pcs s !! j = Some r → claims (mode_of r) = false).
  { intros j r Hj Hr. destruct (claims (mode_of r)) eqn:E; [|done]. exfalso. apply Hj. by eapply (ri_unique _ HI). }
  eexists. split; [done|]. split.
  - apply (rw_inv_move t s UnclaimRel Reader); try done.
    + intros j r Hj Hr Hm. by rewrite (Hno j r Hj Hr) in Hm.
    + intros j r _. apply (ri_lock _ HI).
    + intros j r Hj Hr Hs. pose proof (Hno j r Hj Hr) as E. by destruct r.
  - apply (mode_step s _ t UnclaimRel Reader Ht); [apply list_fmap_insert|by right].
Qed.
Lemma step_lock : rw_pcs s !! t = Some Claimer → refined (Ret (at_pc t (Locking 0) (set_lock true s))).
Proof using HI.
  intros Ht. destruct (counters_same Claimer (Locking 0) Ht eq_refl) as (H1 & H2 & H3).
  eexists. split; [done|]. split.
  - apply (rw_inv_move t s Claimer (Locking 0)); try done.
    + intros j r Hj Hr Hm. exfalso. apply Hj. by eapply (ri_unique _ HI).
    + intros _. by eapply (ri_claim _ HI).
    + intros j _ Hs. cbn in Hs. lia.
  - apply (mode_step s _ t Claimer (Locking 0) Ht); [apply list_fmap_insert|by left].
Qed.
Lemma step_unlock : rw_pcs s !! t = Some Writer → refined (Ret (at_pc t Claimer (set_lock false s))).
Proof using HI.
  intros Ht. destruct (counters_same Writer Claimer Ht eq_refl) as (H1 & H2 & H3).
  assert (Hno : ∀ j r, j ≠ t → rw_pcs s !! j = Some r → claims (mode_of r) = false).
  { intros j r Hj Hr. destruct (claims (mode_of r)) eqn:E; [|done]. exfalso. apply Hj. by eapply (ri_unique _ HI). }
  eexists. split; [done|]. split.
  - apply (rw_inv_move t s Writer Claimer); try done.
    + intros j r Hj Hr Hm. by rewrite (Hno j r Hj Hr) in Hm.
    + intros _. by eapply (ri_claim _ HI).
    + intros j r Hj Hr Hm. pose proof (Hno j r Hj Hr) as E. by destruct r.
  - apply (mode_step s _ t Writer Claimer Ht); [apply list_fmap_insert|by right].
Qed.
(** The scan: a counter at zero is not that of a reader; after the last there is none. *)
Lemma step_scan i : rw_pcs s !! t = Some (Locking i) → rw_read_counter s !! i = Some 0 →
  refined (Ret (at_pc t (if bool_decide (S i = length (rw_read_counter s)) then Writer else Locking (S i)) s)).
Proof using HI.
  intros Ht Hi.
  assert (Hnr : ∀ j, (j ≤ i)%nat → rw_pcs s !! j ≠ Some Reader).
  { intros j Hj. destruct (decide (j = i)) as [->|].
    - intros E. by rewrite (ri_count _ HI i Reader E) in Hi.
    - apply (ri_scan _ HI t j (Locking i) Ht). cbn. lia. }
  case_bool_decide as Hlast.
  - assert (Hall : ∀ j, rw_pcs s !! j ≠ Some Reader).
    { intros j E. destruct (decide (j ≤ i)%nat) as [Hj|]; [by apply (Hnr j)|]. apply lookup_lt_Some in E. rewrite <-(ri_length _ HI) in E. lia. }
    apply (step_pc (Locking i) Writer); try done.
    + by apply (counters_same (Locking i)).
    + intros j _ _. right. apply Hall.
    + right. cbn. rewrite (proj2 (has_mode_false _ _)); [done|]. intros (j & r & Hj & E)%in_modes. destruct r; try done. by apply (Hall j).
  - apply (step_pc (Locking i) (Locking (S i))); try done.
    + by apply (counters_same (Locking i)).
    + intros j _ Hs. cbn in Hs. destruct (decide (j = i)) as [->|]; [right; by apply Hnr|left; cbn; lia].
    + by left.
Qed.

Lemma rw_step_refines o : rw_step t s o → refined o.
Proof using HI.
  intros Hs. destruct Hs as [Ht Hl|Ht|Ht|Ht|Ht|Ht|Ht|Ht|Ht|Ht|i Ht Hi|Ht].
  - apply (step_pc Idle GetInc); try done; [by apply (counters_same Idle)|by left].
  - apply (step_pc GetInc GetTest); try done; [by apply (counters_by GetInc)|by left].
  - destruct (rw_lock s) eqn:El; unfold at_pc.
    + apply (step_pc GetTest GetUndo); try done; [by apply (counters_same GetTest)|by left].
    + apply (step_pc GetTest Reader); try done; [by apply (counters_same GetTest)|by right; left|].
      right. cbn. rewrite (proj2 (has_mode_false _ _)); [done|]. intros (j & r & Hj & E)%in_modes. destruct r; try done.
      by rewrite (ri_lock _ HI j Writer Hj eq_refl) in El.
  - apply (step_pc GetUndo Idle); try done; [by apply (counters_by GetUndo)|by left].
  - apply (step_pc Reader Idle); try done; [by apply (counters_by Reader)|by right].
  - destruct (rw_claim s) eqn:Ec; [|by apply step_claim].
    replace (at_pc t Reader (set_claim true s)) with (mk_batch_rwlock (rw_lock s) (rw_claim s) (rw_read_counter s) (<[t := Reader]> (rw_pcs s))) by (by rewrite Ec).
    apply (step_pc Reader Reader); try done; [by apply (counters_same Reader)|by left|by left].
  - apply (step_pc ClaimDec Claimer); try done; [by apply (counters_by ClaimDec)|by left].
  - apply (step_pc Claimer UnclaimRel); try done; [by apply (counters_by Claimer)|by left].
  - by apply step_unclaim.
  - rewrite (ri_claim _ HI t Claimer Ht eq_refl). by apply step_lock.
  - by apply step_scan.
  - by apply step_unlock.
Qed.
End steps.

Lemma rw_reachable_inv n s : rw_reachable n s → rw_inv s.
Proof.
  induction 1 as [|t s s' _ IH Hs]; [apply rw_inv_init|]. destruct (rw_step_refines s IH t _ Hs) as (s1 & [= <-] & H & _). done.
Qed.
Lemma modes_init_ok n : modes_ok (modes (platform_batch_rwlock_init n)).
Proof.
  assert (H : ∀ t m, modes (platform_batch_rwlock_init n) !! t = Some m → m = Unlocked).
  { intros t m. unfold modes. cbn. rewrite list_lookup_fmap. destruct (replicate n Idle !! t) as [p|] eqn:E; [|done].
    apply lookup_replicate in E as [-> _]. by intros [= <-]. }
  split; [by intros t t' m m' ->%H|]. intros [t Ht]%list_elem_of_lookup. by apply H in Ht.
Qed.
Lemma rw_reachable_modes n s : rw_reachable n s → modes_ok (modes s).
Proof.
  induction 1 as [|t s s' Hr IH Hs]; [apply modes_init_ok|].
  destruct (rw_step_refines s (rw_reachable_inv n s Hr) t _ Hs) as (s1 & [= <-] & _ & [E|Hm]); [by rewrite E|by eapply lock_step_ok].
Qed.
