(* ===== verification/Memtable.v ===== *)
(** * Memtables

    memtable.c, memtable.h and the functions of core.c that rotate, compact,
    incorporate and look up memtables: a ring of memtables, each for one generation
    of the insertions, that threads fill, hand to a task and merge into the trunk.
    Every access of a shared variable is a step of one thread.

    The contents of a memtable and of its compacted branch are not here, only its
    state, its generation and the references to its tree.  The two locks are the
    state machine of BatchRwlock: the mode of a thread is a function of where it is. *)
From S2P Require Import Prelude BatchRwlock.

Definition CORE_NUM_MEMTABLES : Z := 4.

Inductive memtable_state : Type :=
| MEMTABLE_STATE_INVALID
| MEMTABLE_STATE_READY
| MEMTABLE_STATE_FINALIZED
| MEMTABLE_STATE_COMPACTED
| MEMTABLE_STATE_COMPACTING
| MEMTABLE_STATE_INCORPORATION_ASSIGNED
| MEMTABLE_STATE_INCORPORATING
| MEMTABLE_STATE_INCORPORATED.
#[export] Instance memtable_state_eq_dec : EqDecision memtable_state.
Proof. solve_decision. Defined.

(** The tree, by the number of references to it. *)
Record memtable := mk_memtable { mt_state : memtable_state; mt_generation : Z; mt_refs : Z }.
Definition with_state (st : memtable_state) (mt : memtable) : memtable := mk_memtable st (mt_generation mt) (mt_refs mt).
Definition with_generation (g : Z) (mt : memtable) : memtable := mk_memtable (mt_state mt) g (mt_refs mt).
Definition with_refs (r : Z) (mt : memtable) : memtable := mk_memtable (mt_state mt) (mt_generation mt) r.

(** A compare-and-swap that fails is an assertion unless the old state is COMPACTED. *)
Definition memtable_try_transition (mt : memtable) (old_state new_state : memtable_state) : outcome (memtable * bool) :=
  if bool_decide (mt_state mt = old_state) then Ret (with_state new_state mt, true)
  else if bool_decide (old_state = MEMTABLE_STATE_COMPACTED) then Ret (mt, false) else Assert.
Definition memtable_transition (mt : memtable) (old_state new_state : memtable_state) : outcome memtable :=
  match memtable_try_transition mt old_state new_state with
  | Ret (mt, true) => Ret mt
  | Ret (_, false) => Assert
  | Assert => Assert | Undef => Undef | Block => Block | Fuel => Fuel
  end.

(** ** What the threads share *)
Record memtable_context := mk_memtable_context {
  mc_generation : Z;
  mc_generation_to_incorporate : Z;
  mc_generation_retired : Z;
  mc_mt : list memtable;
  mc_tasks : list Z;  (* the queue of generations to flush *)
}.
Definition with_mt (l : list memtable) (c : memtable_context) : memtable_context :=
  mk_memtable_context (mc_generation c) (mc_generation_to_incorporate c) (mc_generation_retired c) l (mc_tasks c).
Definition with_tasks (l : list Z) (c : memtable_context) : memtable_context :=
  mk_memtable_context (mc_generation c) (mc_generation_to_incorporate c) (mc_generation_retired c) (mc_mt c) l.
Definition advance_generation (c : memtable_context) : memtable_context :=
  mk_memtable_context (u64 (mc_generation c + 1)) (mc_generation_to_incorporate c) (mc_generation_retired c) (mc_mt c) (mc_tasks c).
Definition advance_retired (c : memtable_context) : memtable_context :=
  mk_memtable_context (mc_generation c) (mc_generation_to_incorporate c) (u64 (mc_generation_retired c + 1)) (mc_mt c) (mc_tasks c).
Definition advance_to_incorporate (c : memtable_context) : memtable_context :=
  mk_memtable_context (mc_generation c) (u64 (mc_generation_to_incorporate c + 1)) (mc_generation_retired c) (mc_mt c) (mc_tasks c).

Definition memtable_init (generation : Z) : memtable := mk_memtable MEMTABLE_STATE_READY generation 1.
Definition memtable_context_create : memtable_context :=
  mk_memtable_context 0 0 UINT64_MAX (memtable_init <$> seqZ 0 CORE_NUM_MEMTABLES) [].

Definition slot (generation : Z) : nat := Z.to_nat (generation `mod` CORE_NUM_MEMTABLES).
(** The memtable in the place of a generation, and what becomes of it. *)
Definition core_mt (c : memtable_context) (generation : Z) : option memtable := mc_mt c !! slot generation.
Definition set_mt (i : nat) (mt : memtable) (c : memtable_context) : memtable_context := with_mt (<[i := mt]> (mc_mt c)) c.
Definition core_try_get_memtable (c : memtable_context) (generation : Z) : option memtable :=
  mt ← core_mt c generation; if mt_generation mt =? generation then Some mt else None.
Definition core_get_memtable (c : memtable_context) (generation : Z) : outcome memtable :=
  match core_mt c generation with
  | None => Undef
  | Some mt => if mt_generation mt =? generation then Ret mt else Assert
  end.
Definition core_get_compacted_memtable (c : memtable_context) (generation : Z) : outcome memtable :=
  match core_get_memtable c generation with
  | Ret mt => if bool_decide (mt_state mt = MEMTABLE_STATE_READY) then Assert else Ret mt
  | o => o
  end.

(** ** Where a thread is *)
(** What follows a decrement of references: the incorporation of the next generation,
    or the other memtables an iterator holds. *)
Inductive after_dec : Type := NextGeneration (g : Z) | NextHeld (held : list Z).
Inductive thread_pc : Type :=
| Idle
(* memtable_maybe_rotate_and_begin_insert *)
| InsGet | InsGen | InsState (g : Z) | InsBackoff | InsFull (g : Z) | InsNext (g : Z) | InsBusy
| InsClaim (g : Z) | InsLock (g : Z) | InsFinalize (g : Z) | InsAdvance (g : Z) | InsCheck (g : Z)
| InsUnlock (g : Z) | InsUnclaim (g : Z) | InsEnd (g : Z) | InsProcess (g : Z)
| Inserting (g : Z)
(* core_memtable_flush_internal *)
| FlCompact (g : Z) | FlPack (g : Z) | FlPacked (g : Z)
| FlStart (g : Z) | FlTry (g : Z) | FlStarted (g : Z) (should_start : bool)
| FlPrepare (g : Z) | FlGet (g : Z) | FlClaim (g : Z) | FlUnget (g : Z) | FlLock (g : Z)
| FlLocked (g : Z) | FlIncorporating (g : Z) | FlRetire (g : Z) | FlUnlock (g : Z) | FlUnclaim (g : Z) | FlRelease (g : Z)
(* memtable_dec_ref_maybe_recycle *)
| RcDec (i : nat) (k : after_dec) | RcCheck (i : nat) (k : after_dec) | RcCreate (i : nat) (k : after_dec)
| RcLock (i : nat) (k : after_dec) | RcGen (i : nat) (k : after_dec) | RcUnlock (i : nat) (k : after_dec) | RcReady (i : nat) (k : after_dec)
(* core_try_continue_incorporate *)
| CnLock (g : Z) | CnTry (g : Z) | CnUnlock (g : Z) (should_continue : bool)
(* core_lookup, core_range_iterator_init when [range] *)
| LkGet (range : bool) | LkGen (range : bool) | LkRetired (range : bool) (g : Z) | LkCheck (range : bool) (g e : Z)
| LkLoop (range : bool) (held : list Z) (g e : Z) | LkRoot (range : bool) (held : list Z) (g e : Z)
| LkOk (range : bool) (held : list Z) (g e : Z) | LkCompacted (range : bool) (held : list Z) (g e : Z)
| LkAssigned (range : bool) (held : list Z) (g e : Z) | LkBranch (range : bool) (held : list Z) (g e : Z)
| LkTree (range : bool) (held : list Z) (g e : Z) | LkEnd (range : bool) (held : list Z)
(* a range iterator, and core_range_iterator_deinit *)
| Holding (held : list Z).

Definition insert_mode (p : thread_pc) : mode :=
  match p with
  | InsGen | InsState _ | InsBackoff | InsFull _ | InsNext _ | InsBusy | InsClaim _ | InsEnd _ | Inserting _ => ReadLocked
  | InsLock _ | InsUnclaim _ => ClaimLocked
  | InsFinalize _ | InsAdvance _ | InsCheck _ | InsUnlock _ => WriteLocked
  | _ => Unlocked
  end.
Definition lookup_mode (p : thread_pc) : mode :=
  match p with
  | LkGen _ | LkRetired _ _ | LkCheck _ _ _ | LkLoop _ _ _ _ | LkRoot _ _ _ _ | LkOk _ _ _ _ | LkCompacted _ _ _ _
  | LkAssigned _ _ _ _ | LkBranch _ _ _ _ | LkTree _ _ _ _ | LkEnd _ _ => ReadLocked
  | FlClaim _ | FlUnget _ | FlRelease _ => ReadLocked
  | FlLock _ | FlUnclaim _ => ClaimLocked
  | FlLocked _ | FlIncorporating _ | FlRetire _ | FlUnlock _ => WriteLocked
  | _ => Unlocked
  end.
(** The holder of [incorporation_mutex]. *)
Definition in_mutex (p : thread_pc) : bool :=
  match p with FlTry _ | FlStarted _ _ | RcGen _ _ | RcUnlock _ _ | CnTry _ | CnUnlock _ _ => true | _ => false end.

Record system := mk_system { sy_ctxt : memtable_context; sy_pcs : list thread_pc }.
(** A step to [q] takes and releases the locks that [p] and [q] differ in. *)
Definition mode_allows (ms : list mode) (m m' : mode) : bool := bool_decide (m = m') || lock_allows ms m m'.
Definition may_move (pcs : list thread_pc) (p q : thread_pc) : bool :=
  mode_allows (insert_mode <$> pcs) (insert_mode p) (insert_mode q) &&
  mode_allows (lookup_mode <$> pcs) (lookup_mode p) (lookup_mode q) &&
  (negb (in_mutex q) || in_mutex p || forallb (λ r, negb (in_mutex r)) pcs).

(** What the code leaves open: what a thread calls, whether a memtable is full, whether
    a lookup has found its answer. *)
Inductive choice : Type := CInsert | CTask | CLookup | CRange | CGo | CFull (b : bool) | CFound.

Section steps.
Context (pcs : list thread_pc) (t : nat) (p : thread_pc).
(** [None]: the thread has to wait. *)
Definition goto (q : thread_pc) (c : memtable_context) : option (outcome system) :=
  if may_move pcs p q then Some (Ret (mk_system c (<[t := q]> pcs))) else None.
Definition get_then {A} (o : outcome A) (k : A → option (outcome system)) : option (outcome system) :=
  match o with Ret a => k a | Assert => Some Assert | Undef => Some Undef | Block => Some Block | Fuel => Some Fuel end.
Definition at_slot (i : nat) (c : memtable_context) (k : memtable → option (outcome system)) : option (outcome system) :=
  match mc_mt c !! i with Some mt => k mt | None => Some Undef end.
Definition assert_then (b : bool) (k : option (outcome system)) : option (outcome system) := if b then k else Some Assert.

Definition go_on (k : after_dec) : thread_pc := match k with NextGeneration g => CnLock g | NextHeld held => Holding held end.

Definition insert_step (ch : choice) (c : memtable_context) : option (outcome system) :=
  match p with
  | InsGet => goto InsGen c
  | InsGen => goto (InsState (mc_generation c)) c
  | InsState g => at_slot (slot g) c (λ mt,
      goto (if bool_decide (mt_state mt = MEMTABLE_STATE_READY) then InsFull g else InsBackoff) c)
  | InsBackoff => goto InsGet c
  | InsFull g => match ch with CFull b => goto (if b then InsNext g else Inserting g) c | _ => None end
  | InsNext g => at_slot (slot (u64 (g + 1))) c (λ mt,
      goto (if bool_decide (mt_state mt = MEMTABLE_STATE_READY) then InsClaim g else InsBusy) c)
  | InsBusy => goto Idle c
  | InsClaim g => if may_move pcs p (InsLock g) then goto (InsLock g) c else goto InsBackoff c
  | InsLock g => goto (InsFinalize g) c
  | InsFinalize g => at_slot (slot g) c (λ mt,
      get_then (memtable_transition mt MEMTABLE_STATE_READY MEMTABLE_STATE_FINALIZED) (λ mt, goto (InsAdvance g) (set_mt (slot g) mt c)))
  | InsAdvance g => goto (InsCheck g) (advance_generation c)
  | InsCheck g =>
      assert_then (u64 (mc_generation c - mc_generation_retired c) <=? CORE_NUM_MEMTABLES)
        (assert_then (u64 (g + 1) =? mc_generation c) (goto (InsUnlock g) c))
  | InsUnlock g => goto (InsUnclaim g) c
  | InsUnclaim g => goto (InsEnd g) c
  | InsEnd g => goto (InsProcess g) c
  | InsProcess g => get_then (core_get_compacted_memtable c g) (λ _, goto InsGet (with_tasks (mc_tasks c ++ [g]) c))
  | Inserting g => get_then (core_get_memtable c g) (λ _, goto Idle c)
  | _ => None
  end.
Definition flush_step (c : memtable_context) : option (outcome system) :=
  match p with
  | FlCompact g => get_then (core_get_memtable c g) (λ mt,
      get_then (memtable_transition mt MEMTABLE_STATE_FINALIZED MEMTABLE_STATE_COMPACTING) (λ mt, goto (FlPack g) (set_mt (slot g) mt c)))
  | FlPack g => get_then (core_get_compacted_memtable c g) (λ _, goto (FlPacked g) c)
  | FlPacked g => at_slot (slot g) c (λ mt,
      get_then (memtable_transition mt MEMTABLE_STATE_COMPACTING MEMTABLE_STATE_COMPACTED) (λ mt, goto (FlStart g) (set_mt (slot g) mt c)))
  | FlStart g => goto (FlTry g) c
  | FlTry g =>
      match core_try_get_memtable c g with
      | None => goto (FlStarted g false) c
      | Some mt =>
          if negb (g =? mc_generation_to_incorporate c) then goto (FlStarted g false) c
          else get_then (memtable_try_transition mt MEMTABLE_STATE_COMPACTED MEMTABLE_STATE_INCORPORATION_ASSIGNED) (λ r,
            goto (FlStarted g r.2) (set_mt (slot g) r.1 c))
      end
  | FlStarted g b => goto (if b then FlPrepare g else Idle) c
  | FlPrepare g => get_then (core_get_compacted_memtable c g) (λ _, goto (FlGet g) c)
  | FlGet g => goto (FlClaim g) c
  | FlClaim g => if may_move pcs p (FlLock g) then goto (FlLock g) c else goto (FlUnget g) c
  | FlUnget g => goto (FlGet g) c
  | FlLock g => goto (FlLocked g) c
  | FlLocked g => get_then (core_get_memtable c g) (λ mt,
      get_then (memtable_transition mt MEMTABLE_STATE_INCORPORATION_ASSIGNED MEMTABLE_STATE_INCORPORATING) (λ mt,
        goto (FlIncorporating g) (set_mt (slot g) mt c)))
  | FlIncorporating g => at_slot (slot g) c (λ mt,
      get_then (memtable_transition mt MEMTABLE_STATE_INCORPORATING MEMTABLE_STATE_INCORPORATED) (λ mt,
        goto (FlRetire g) (set_mt (slot g) mt c)))
  | FlRetire g => assert_then (u64 (mc_generation_retired c + 1) =? g) (goto (FlUnlock g) (advance_retired c))
  | FlUnlock g => goto (FlUnclaim g) c
  | FlUnclaim g => goto (FlRelease g) c
  | FlRelease g => goto (RcDec (slot g) (NextGeneration (u64 (g + 1)))) c
  | RcDec i k => at_slot i c (λ mt,
      let refs := mt_refs mt - 1 in
      goto (if refs =? 0 then RcCheck i k else go_on k) (set_mt i (with_refs refs mt) c))
  | RcCheck i k => at_slot i c (λ mt, assert_then (bool_decide (mt_state mt = MEMTABLE_STATE_INCORPORATED)) (goto (RcCreate i k) c))
  | RcCreate i k => at_slot i c (λ mt, goto (RcLock i k) (set_mt i (with_refs 1 mt) c))
  | RcLock i k => goto (RcGen i k) c
  | RcGen i k => at_slot i c (λ mt,
      goto (RcUnlock i k) (set_mt i (with_generation (u64 (mt_generation mt + CORE_NUM_MEMTABLES)) mt) c))
  | RcUnlock i k => goto (RcReady i k) c
  | RcReady i k => at_slot i c (λ mt,
      get_then (memtable_transition mt MEMTABLE_STATE_INCORPORATED MEMTABLE_STATE_READY) (λ mt, goto (go_on k) (set_mt i mt c)))
  | CnLock g => goto (CnTry g) c
  | CnTry g =>
      match core_try_get_memtable c g with
      | None => goto (CnUnlock g false) c
      | Some mt =>
          get_then (memtable_try_transition mt MEMTABLE_STATE_COMPACTED MEMTABLE_STATE_INCORPORATION_ASSIGNED) (λ r,
            assert_then (u64 (mc_generation_to_incorporate c + 1) =? g)
              (goto (CnUnlock g r.2) (advance_to_incorporate (set_mt (slot g) r.1 c))))
      end
  | CnUnlock g b => goto (if b then FlPrepare g else Idle) c
  | _ => None
  end.
Definition lookup_step (ch : choice) (c : memtable_context) : option (outcome system) :=
  match p with
  | LkGet range => goto (LkGen range) c
  | LkGen range => goto (LkRetired range (mc_generation c)) c
  | LkRetired range g => goto (LkCheck range g (mc_generation_retired c)) c
  | LkCheck range g e => assert_then (range || (u64 (g - e) <=? CORE_NUM_MEMTABLES)) (goto (LkLoop range [] g e) c)
  | LkLoop range held g e => goto (if g =? e then LkEnd range held else LkRoot range held g e) c
  | LkRoot range held g e => get_then (core_get_memtable c g) (λ mt,
      assert_then (negb (bool_decide (mt_state mt = MEMTABLE_STATE_INCORPORATING))) (goto (LkOk range held g e) c))
  | LkOk range held g e => at_slot (slot g) c (λ mt,
      assert_then (negb (bool_decide (mt_state mt = MEMTABLE_STATE_INCORPORATED))) (goto (LkCompacted range held g e) c))
  | LkCompacted range held g e => at_slot (slot g) c (λ mt,
      goto (if bool_decide (mt_state mt = MEMTABLE_STATE_COMPACTED) then LkBranch range held g e else LkAssigned range held g e) c)
  | LkAssigned range held g e => at_slot (slot g) c (λ mt,
      goto (if bool_decide (mt_state mt = MEMTABLE_STATE_INCORPORATION_ASSIGNED) then LkBranch range held g e else LkTree range held g e) c)
  | LkBranch range held g e => get_then (core_get_compacted_memtable c g) (λ _,
      goto (match ch with CFound => if range then LkLoop range held (u64 (g - 1)) e else LkEnd range held | _ => LkLoop range held (u64 (g - 1)) e end) c)
  | LkTree range held g e =>
      if range then get_then (core_get_memtable c g) (λ mt,
        goto (LkLoop range (held ++ [g]) (u64 (g - 1)) e) (set_mt (slot g) (with_refs (mt_refs mt + 1) mt) c))
      else goto (match ch with CFound => LkEnd range held | _ => LkLoop range held (u64 (g - 1)) e end) c
  | LkEnd range held => goto (if range then Holding held else Idle) c
  | Holding [] => goto Idle c
  | Holding (g :: held) => get_then (core_get_memtable c g) (λ _, goto (RcDec (slot g) (NextHeld held)) c)
  | _ => None
  end.
Definition idle_step (ch : choice) (c : memtable_context) : option (outcome system) :=
  match ch with
  | CInsert => goto InsGet c
  | CTask => match mc_tasks c with [] => None | g :: gs => goto (FlCompact g) (with_tasks gs c) end
  | CLookup => goto (LkGet false) c
  | CRange => goto (LkGet true) c
  | _ => None
  end.
End steps.

(** A step of thread [t], when it can make one. *)
Definition memtable_step (t : nat) (ch : choice) (s : system) : option (outcome system) :=
  p ← sy_pcs s !! t;
  match p with
  | Idle => idle_step (sy_pcs s) t p ch (sy_ctxt s)
  | InsGet | InsGen | InsState _ | InsBackoff | InsFull _ | InsNext _ | InsBusy | InsClaim _ | InsLock _ | InsFinalize _
  | InsAdvance _ | InsCheck _ | InsUnlock _ | InsUnclaim _ | InsEnd _ | InsProcess _ | Inserting _ =>
      insert_step (sy_pcs s) t p ch (sy_ctxt s)
  | LkGet _ | LkGen _ | LkRetired _ _ | LkCheck _ _ _ | LkLoop _ _ _ _ | LkRoot _ _ _ _ | LkOk _ _ _ _ | LkCompacted _ _ _ _
  | LkAssigned _ _ _ _ | LkBranch _ _ _ _ | LkTree _ _ _ _ | LkEnd _ _ | Holding _ => lookup_step (sy_pcs s) t p ch (sy_ctxt s)
  | _ => flush_step (sy_pcs s) t p (sy_ctxt s)
  end.
Definition system_init (threads : nat) : system := mk_system memtable_context_create (replicate threads Idle).
(** The states after [k] steps. *)
Inductive memtable_reachable (threads : nat) : Z → system → Prop :=
| reach_init : memtable_reachable threads 0 (system_init threads)
| reach_step k s t ch s' : memtable_reachable threads k s → memtable_step t ch s = Some (Ret s') → memtable_reachable threads (k + 1) s'.
(** A schedule of threads and choices. *)
Fixpoint run (sched : list (nat * choice)) (s : system) : option (outcome system) :=
  match sched with
  | [] => Some (Ret s)
  | (t, ch) :: sched' =>
      match memtable_step t ch s with
      | Some (Ret s') => run sched' s'
      | o => o
      end
  end.

(** ** Shutting down *)
(** [memtable_force_finalize], which is called when no other call is under way. *)
Definition memtable_force_finalize : M memtable_context Z :=
  c ← mget;
  let generation := mc_generation c in
  mt ← mopt (core_mt c generation);
  match memtable_transition mt MEMTABLE_STATE_READY MEMTABLE_STATE_FINALIZED with
  | Ret mt =>
      mput (advance_generation (set_mt (slot generation) mt c));;
      c ← mget;
      massert (u64 (mc_generation c - mc_generation_retired c) <=? CORE_NUM_MEMTABLES);;
      mret generation
  | Assert => λ _, Assert | Undef => λ _, Undef | Block => λ _, Block | Fuel => λ _, Fuel
  end.
Definition core_memtable_flush (generation : Z) : M memtable_context unit :=
  c ← mget;
  match core_get_compacted_memtable c generation with
  | Ret _ => mput (with_tasks (mc_tasks c ++ [generation]) c)
  | Assert => λ _, Assert | Undef => λ _, Undef | Block => λ _, Block | Fuel => λ _, Fuel
  end.
