(* ===== verification/MemtableInv.v ===== *)
(** * The invariant of the memtables

    [inv k s] holds after [k] steps: which generations the ring has, in which state,
    which thread (or task) each state is waiting for, and who holds the references. *)
From S2P Require Import Prelude BatchRwlock Memtable.

(** ** What a thread knows, by where it is *)
(** The state a thread has brought a generation to, and is to bring it on from. *)
Definition stage_of (p : thread_pc) : option (memtable_state * Z) :=
  match p with
  | InsAdvance g | InsCheck g | InsUnlock g | InsUnclaim g | InsEnd g | InsProcess g | FlCompact g => Some (MEMTABLE_STATE_FINALIZED, g)
  | FlPack g | FlPacked g => Some (MEMTABLE_STATE_COMPACTING, g)
  | FlStart g | FlTry g => Some (MEMTABLE_STATE_COMPACTED, g)
  | FlStarted g true | CnUnlock g true | FlPrepare g | FlGet g | FlClaim g | FlUnget g | FlLock g | FlLocked g =>
      Some (MEMTABLE_STATE_INCORPORATION_ASSIGNED, g)
  | FlIncorporating g => Some (MEMTABLE_STATE_INCORPORATING, g)
  | FlRetire g => Some (MEMTABLE_STATE_INCORPORATED, g)
  | _ => None
  end.
Definition after_generation (k : after_dec) : option (Z * bool) :=
  match k with NextGeneration g => Some (g - 1, true) | NextHeld _ => None end.
(** The generation a thread incorporates, and whether it is retired. *)
Definition incorporates (p : thread_pc) : option (Z * bool) :=
  match p with
  | FlStarted g true | CnUnlock g true | FlPrepare g | FlGet g | FlClaim g | FlUnget g | FlLock g | FlLocked g
  | FlIncorporating g | FlRetire g => Some (g, false)
  | FlUnlock g | FlUnclaim g | FlRelease g => Some (g, true)
  | RcDec _ k | RcCheck _ k | RcCreate _ k | RcLock _ k | RcGen _ k | RcUnlock _ k | RcReady _ k => after_generation k
  | CnLock g | CnTry g => Some (g - 1, true)
  | _ => None
  end.
(** The generation of the insertions, and the memtables that are ready. *)
Definition current_of (p : thread_pc) : option Z :=
  match p with
  | InsState g | InsFull g | InsNext g | Inserting g | InsClaim g | InsLock g | InsFinalize g | InsAdvance g => Some g
  | InsCheck g => Some (g + 1)
  | _ => None
  end.
Definition ready_of (p : thread_pc) : list Z :=
  match p with
  | InsFull g | InsNext g | Inserting g => [g]
  | InsClaim g | InsLock g | InsFinalize g => [g; g + 1]
  | InsAdvance g => [g + 1]
  | _ => []
  end.
(** The generation a lookup is at and the one it ends at; the first may be the second
    when [LkLoop] is to end. *)
Definition window_of (p : thread_pc) : option (Z * option Z) :=
  match p with
  | LkRetired _ g => Some (g, None)
  | LkCheck _ g e | LkRoot _ _ g e | LkOk _ _ g e | LkCompacted _ _ g e | LkAssigned _ _ g e | LkBranch _ _ g e | LkTree _ _ g e => Some (g, Some e)
  | _ => None
  end.
Definition loop_of (p : thread_pc) : option (Z * Z) := match p with LkLoop _ _ g e => Some (g, e) | _ => None end.
Definition branch_of (p : thread_pc) : option Z := match p with LkBranch _ _ g _ => Some g | _ => None end.
(** The memtables whose references an iterator has to give back. *)
Definition after_held (k : after_dec) : list Z := match k with NextHeld held => held | NextGeneration _ => [] end.
Definition held_of (p : thread_pc) : list Z :=
  match p with
  | LkLoop _ held _ _ | LkRoot _ held _ _ | LkOk _ held _ _ | LkCompacted _ held _ _ | LkAssigned _ held _ _ | LkBranch _ held _ _
  | LkTree _ held _ _ | LkEnd _ held | Holding held => held
  | RcDec _ k | RcCheck _ k | RcCreate _ k | RcLock _ k | RcGen _ k | RcUnlock _ k | RcReady _ k => after_held k
  | _ => []
  end.
(** A lookup, which takes no reference. *)
Definition plain (p : thread_pc) : bool :=
  match p with
  | LkLoop r _ _ _ | LkRoot r _ _ _ | LkOk r _ _ _ | LkCompacted r _ _ _ | LkAssigned r _ _ _ | LkBranch r _ _ _ | LkTree r _ _ _
  | LkEnd r _ => negb r
  | _ => false
  end.
(** Recycling: the tree is gone, made again, the generation is the next. *)
Inductive rc_stage : Type := NoTree | NewTree | NewGeneration.
Definition recycles (p : thread_pc) : option (nat * rc_stage) :=
  match p with
  | RcCheck i _ | RcCreate i _ => Some (i, NoTree)
  | RcLock i _ | RcGen i _ => Some (i, NewTree)
  | RcUnlock i _ | RcReady i _ => Some (i, NewGeneration)
  | _ => None
  end.
(** The references of the thread to the memtable in place [i]. *)
Definition owns (i : nat) (p : thread_pc) : Z :=
  match p with
  | FlRetire g | FlUnlock g | FlUnclaim g | FlRelease g => Z.b2z (bool_decide (slot g = i))
  | RcDec j _ | RcLock j _ | RcGen j _ | RcUnlock j _ | RcReady j _ => Z.b2z (bool_decide (j = i))
  | _ => 0
  end.
Definition weight (i : nat) (p : thread_pc) : Z := owns i p + lengthZ (filter (λ g, slot g = i) (held_of p)).
Fixpoint total (i : nat) (pcs : list thread_pc) : Z := match pcs with [] => 0 | p :: pcs => weight i p + total i pcs end.

Lemma b2z_nonneg b : 0 ≤ Z.b2z b.
Proof. by destruct b. Qed.
Lemma owns_nonneg i p : 0 ≤ owns i p.
Proof. destruct p; try done; apply b2z_nonneg. Qed.
Lemma weight_nonneg i p : 0 ≤ weight i p.
Proof. apply Z.add_nonneg_nonneg; [apply owns_nonneg|apply lengthZ_nonneg]. Qed.
Lemma total_nonneg i pcs : 0 ≤ total i pcs.
Proof. induction pcs as [|p pcs IH]; cbn [total]; [lia|]. pose proof (weight_nonneg i p). lia. Qed.
Lemma total_insert i pcs t p q : pcs !! t = Some p → total i (<[t := q]> pcs) = total i pcs - weight i p + weight i q.
Proof.
  revert t. induction pcs as [|x pcs IH]; intros [|t] Ht; cbn in Ht; simplify_eq.
  - change (<[O := q]> (p :: pcs)) with (q :: pcs). cbn [total]. lia.
  - change (<[S t := q]> (x :: pcs)) with (x :: <[t := q]> pcs). cbn [total]. rewrite (IH t Ht). lia.
Qed.
Lemma total_one i pcs t p : pcs !! t = Some p → weight i p ≤ total i pcs.
Proof.
  revert t. induction pcs as [|x pcs IH]; intros [|t] Ht; cbn in Ht; simplify_eq; cbn [total].
  - pose proof (total_nonneg i pcs). lia.
  - pose proof (IH t Ht). pose proof (weight_nonneg i x). lia.
Qed.
Lemma total_two i pcs t t' p p' : t ≠ t' → pcs !! t = Some p → pcs !! t' = Some p' → weight i p + weight i p' ≤ total i pcs.
Proof.
  revert t t'. induction pcs as [|x pcs IH]; intros [|t] [|t'] Hne Ht Ht'; cbn in Ht, Ht'; simplify_eq; cbn [total].
  - pose proof (total_one i pcs t' p' Ht'). lia.
  - pose proof (total_one i pcs t p Ht). lia.
  - pose proof (IH t t' ltac:(congruence) Ht Ht'). pose proof (weight_nonneg i x). lia.
Qed.

(** ** What holds of the ring *)
Definition retired (c : memtable_context) : Z := i64 (mc_generation_retired c).
Definition gen_at (c : memtable_context) (g : Z) (st : memtable_state) : Prop :=
  ∃ mt, core_mt c g = Some mt ∧ mt_generation mt = g ∧ mt_state mt = st.
Definition gen_here (c : memtable_context) (g : Z) : Prop := ∃ mt, core_mt c g = Some mt ∧ mt_generation mt = g.
Definition late (st : memtable_state) : Prop :=
  match st with
  | MEMTABLE_STATE_COMPACTED | MEMTABLE_STATE_INCORPORATION_ASSIGNED | MEMTABLE_STATE_INCORPORATING | MEMTABLE_STATE_INCORPORATED => True
  | _ => False
  end.
(** The states of a generation below, at and above the current one. *)
Definition state_fits (G R : Z) (mt : memtable) : Prop :=
  match mt_state mt with
  | MEMTABLE_STATE_INVALID => False
  | MEMTABLE_STATE_READY => G ≤ mt_generation mt
  | MEMTABLE_STATE_FINALIZED => R < mt_generation mt ≤ G
  | MEMTABLE_STATE_INCORPORATED => mt_generation mt ≠ G
  | _ => R < mt_generation mt < G
  end.
Record ring_ok (k : Z) (c : memtable_context) : Prop := {
  rg_length : length (mc_mt c) = 4%nat;
  rg_gen : 0 ≤ mc_generation c ≤ k;
  rg_retired : -1 ≤ retired c < mc_generation c;
  rg_retired_u64 : mc_generation_retired c = u64 (retired c);
  rg_room : mc_generation c ≤ retired c + 4;
  rg_inc : 0 ≤ mc_generation_to_incorporate c;
  rg_inc_retired : mc_generation_to_incorporate c = retired c + 1 ∨ mc_generation_to_incorporate c = retired c;
  rg_slots : ∀ i mt, mc_mt c !! i = Some mt → slot (mt_generation mt) = i ∧ 0 ≤ mt_generation mt ∧
    mc_generation c - 4 < mt_generation mt ≤ retired c + 4;
  rg_states : ∀ i mt, mc_mt c !! i = Some mt → state_fits (mc_generation c) (retired c) mt;
  rg_tasks : ∀ g, g ∈ mc_tasks c → gen_at c g MEMTABLE_STATE_FINALIZED ∧ g < mc_generation c;
  rg_tasks_nodup : NoDup (mc_tasks c);
}.
Definition rc_fits (c : memtable_context) (r : rc_stage) (mt : memtable) : Prop :=
  mt_state mt = MEMTABLE_STATE_INCORPORATED ∧
  match r with
  | NoTree => mt_refs mt = 0 ∧ mt_generation mt ≤ retired c
  | NewTree => mt_refs mt = 1 ∧ mt_generation mt ≤ retired c
  | NewGeneration => mt_refs mt = 1 ∧ mc_generation c < mt_generation mt
  end.
Record pc_inv (c : memtable_context) (p : thread_pc) : Prop := {
  pi_current : ∀ g, current_of p = Some g → mc_generation c = g;
  pi_ready : ∀ g, g ∈ ready_of p → gen_at c g MEMTABLE_STATE_READY;
  pi_stage : ∀ st g, stage_of p = Some (st, g) → st ≠ MEMTABLE_STATE_COMPACTED → gen_at c g st;
  pi_below : ∀ st g, stage_of p = Some (st, g) → 0 ≤ g ≤ mc_generation c ∧ (current_of p ≠ Some g → g < mc_generation c);
  pi_tried : ∀ g mt, stage_of p = Some (MEMTABLE_STATE_COMPACTED, g) → core_mt c g = Some mt → mt_generation mt = g → late (mt_state mt);
  pi_inc : ∀ g b, incorporates p = Some (g, b) → mc_generation_to_incorporate c = g ∧ retired c = if b : bool then g else g - 1;
  pi_held : ∀ g, g ∈ held_of p → gen_here c g;
  pi_window : ∀ g e, window_of p = Some (g, e) → retired c < g ≤ mc_generation c ∧ ∀ x, e = Some x → x = mc_generation_retired c;
  pi_loop : ∀ g e, loop_of p = Some (g, e) → e = mc_generation_retired c ∧ ∃ h, g = u64 h ∧ retired c ≤ h ≤ mc_generation c;
  pi_branch : ∀ g, branch_of p = Some g → gen_at c g MEMTABLE_STATE_COMPACTED ∨ gen_at c g MEMTABLE_STATE_INCORPORATION_ASSIGNED;
  pi_recycle : ∀ i r, recycles p = Some (i, r) → ∃ mt, mc_mt c !! i = Some mt ∧ rc_fits c r mt;
  pi_plain : plain p = true → held_of p = [];
  pi_slot : ∀ i k, p = RcDec i k → (i < 4)%nat;
}.
(** ** What the states wait for *)
Definition at_stage (pcs : list thread_pc) (st : memtable_state) (g : Z) : Prop := ∃ (t : nat) p, pcs !! t = Some p ∧ stage_of p = Some (st, g).
Definition owned (c : memtable_context) (pcs : list thread_pc) (i : nat) (mt : memtable) : Prop :=
  let g := mt_generation mt in
  match mt_state mt with
  | MEMTABLE_STATE_INVALID | MEMTABLE_STATE_READY => True
  | MEMTABLE_STATE_FINALIZED => g ∈ mc_tasks c ∨ at_stage pcs MEMTABLE_STATE_FINALIZED g
  | MEMTABLE_STATE_COMPACTED => mc_generation_to_incorporate c = g → at_stage pcs MEMTABLE_STATE_COMPACTED g
  | MEMTABLE_STATE_INCORPORATED => g ≤ retired c ∨ at_stage pcs MEMTABLE_STATE_INCORPORATED g ∨
      mc_generation c < g ∧ ∃ (t : nat) p, pcs !! t = Some p ∧ recycles p = Some (i, NewGeneration)
  | st => at_stage pcs st g
  end.
Record inv (k : Z) (s : system) : Prop := {
  iv_ring : ring_ok k (sy_ctxt s);
  iv_pcs : ∀ t p, sy_pcs s !! t = Some p → pc_inv (sy_ctxt s) p;
  iv_insert : modes_ok (insert_mode <$> sy_pcs s);
  iv_lookup : modes_ok (lookup_mode <$> sy_pcs s);
  iv_stage : ∀ t t' p p' x, sy_pcs s !! t = Some p → sy_pcs s !! t' = Some p' → stage_of p = Some x → stage_of p' = Some x →
    x.1 ≠ MEMTABLE_STATE_COMPACTED → t = t';
  iv_task : ∀ t p g, sy_pcs s !! t = Some p → stage_of p = Some (MEMTABLE_STATE_FINALIZED, g) → g ∉ mc_tasks (sy_ctxt s);
  iv_inc : ∀ t t' p p', sy_pcs s !! t = Some p → sy_pcs s !! t' = Some p' → incorporates p ≠ None → incorporates p' ≠ None → t = t';
  iv_recycle : ∀ t t' p p' i r r', sy_pcs s !! t = Some p → sy_pcs s !! t' = Some p' → recycles p = Some (i, r) → recycles p' = Some (i, r') → t = t';
  iv_owned : ∀ i mt, mc_mt (sy_ctxt s) !! i = Some mt → owned (sy_ctxt s) (sy_pcs s) i mt;
  iv_next : mc_generation_to_incorporate (sy_ctxt s) = retired (sy_ctxt s) →
    ∃ t p g, sy_pcs s !! t = Some p ∧ incorporates p = Some (g, true);
  iv_refs : ∀ i mt, mc_mt (sy_ctxt s) !! i = Some mt →
    mt_refs mt = Z.b2z (negb (bool_decide (mt_state mt = MEMTABLE_STATE_INCORPORATED))) + total i (sy_pcs s);
}.
