(* ===== verification/MemtableFrame.v ===== *)
(** * What a step of the memtables leaves

    The invariant after a step from what holds before it: of the thread that moves,
    of the other threads, of the memtable that changes and of those that do not. *)
From S2P Require Import Prelude BatchRwlock Memtable MemtableInv.

(** ** The ring *)
Lemma slot_lt g : (slot g < 4)%nat.
Proof. unfold slot, CORE_NUM_MEMTABLES. pose proof (Z.mod_pos_bound g 4 ltac:(lia)). lia. Qed.
Lemma slot_eq g h : slot g = slot h ↔ g `mod` 4 = h `mod` 4.
Proof.
  unfold slot, CORE_NUM_MEMTABLES. pose proof (Z.mod_pos_bound g 4 ltac:(lia)). pose proof (Z.mod_pos_bound h 4 ltac:(lia)). lia.
Qed.
Lemma slot_near g h : slot g = slot h → -4 < g - h < 4 → g = h.
Proof. intros E%slot_eq H. pose proof (Z.div_mod g 4). pose proof (Z.div_mod h 4). lia. Qed.
Lemma slot_add g : slot (g + 4) = slot g.
Proof. apply slot_eq. replace (g + 4) with (g + 1 * 4) by lia. apply Z.mod_add. lia. Qed.

Section ring.
Context (k : Z) (c : memtable_context) (HR : ring_ok k c).
Lemma ring_slot g : ∃ mt, core_mt c g = Some mt ∧ slot (mt_generation mt) = slot g.
Proof using HR.
  destruct (mc_mt c !! slot g) as [mt|] eqn:E.
  - exists mt. split; [done|]. by apply (rg_slots _ _ HR).
  - apply lookup_ge_None in E. rewrite (rg_length _ _ HR) in E. pose proof (slot_lt g). lia.
Qed.
Lemma ring_some i : (i < 4)%nat → ∃ mt, mc_mt c !! i = Some mt.
Proof using HR. intros Hi. apply lookup_lt_is_Some. rewrite (rg_length _ _ HR). lia. Qed.
Lemma ring_lt i mt : mc_mt c !! i = Some mt → (i < 4)%nat.
Proof using HR. intros H%lookup_lt_Some. by rewrite (rg_length _ _ HR) in H. Qed.
(** The generations that are not retired have their memtables. *)
Lemma ring_live g : retired c < g ≤ mc_generation c → gen_here c g.
Proof using HR.
  intros Hg. destruct (ring_slot g) as (mt & E & Hs). exists mt. split; [done|].
  destruct (rg_slots _ _ HR _ _ E) as (_ & H0 & H). destruct HR.
  destruct (decide (g < mt_generation mt)).
  - enough (g = mt_generation mt - 4 ∨ mt_generation mt - g < 4) as [?|?] by (lia || (symmetry; apply slot_near; [done|lia])); lia.
  - apply slot_near; [done|lia].
Qed.
End ring.

(** ** The modes *)
Lemma mode_allows_ok ms t m m' : modes_ok ms → ms !! t = Some m → mode_allows ms m m' = true → modes_ok (<[t := m']> ms).
Proof.
  intros Hms Ht [<-%bool_decide_eq_true|Ha]%orb_true_iff; [by rewrite list_insert_id|].
  eapply lock_step_ok; [exact Hms|]. by exists m, m'.
Qed.
Lemma write_alone ms t t' m : modes_ok ms → ms !! t = Some WriteLocked → ms !! t' = Some m → t' ≠ t → m = Unlocked.
Proof.
  intros [Hc Hw] Ht Ht' Hne. destruct m; [done|exfalso..].
  - apply Hw; by eapply list_elem_of_lookup_2.
  - by apply Hne, (Hc t' t ClaimLocked WriteLocked).
  - by apply Hne, (Hc t' t WriteLocked WriteLocked).
Qed.

(** ** A step *)
Section frame.
Context (k : Z) (c : memtable_context) (pcs : list thread_pc) (HI : inv k (mk_system c pcs)).
Context (t : nat) (p q : thread_pc) (Ht : pcs !! t = Some p) (Hmove : may_move pcs p q = true).

Definition others (P : thread_pc → Prop) : Prop := ∀ (t' : nat) p', t' ≠ t → pcs !! t' = Some p' → P p'.
Lemma pcs_case (t' : nat) p' : <[t := q]> pcs !! t' = Some p' → t' = t ∧ p' = q ∨ t' ≠ t ∧ pcs !! t' = Some p'.
Proof. intros [(<- & <- & _)|[? ?]]%list_lookup_insert_Some; [by left|right; by split]. Qed.
Lemma pcs_q : <[t := q]> pcs !! t = Some q.
Proof using Ht. apply list_lookup_insert_eq. by eapply lookup_lt_Some. Qed.
Lemma pcs_other (t' : nat) p' : t' ≠ t → pcs !! t' = Some p' → <[t := q]> pcs !! t' = Some p'.
Proof. intros Hne E. by rewrite list_lookup_insert_ne. Qed.
Lemma at_stage_keep st g : at_stage pcs st g → (stage_of p = Some (st, g) → stage_of q = Some (st, g)) → at_stage (<[t := q]> pcs) st g.
Proof using Ht.
  intros (t' & p' & E & Hs) Hq. destruct (decide (t' = t)) as [->|Hne].
  - exists t, q. split; [apply pcs_q|]. apply Hq. congruence.
  - exists t', p'. split; [by apply pcs_other|done].
Qed.
Lemma at_stage_q st g : stage_of q = Some (st, g) → at_stage (<[t := q]> pcs) st g.
Proof using Ht. intros E. exists t, q. split; [apply pcs_q|done]. Qed.

Lemma inv_intro c' :
  ring_ok (k + 1) c' → pc_inv c' q → others (pc_inv c') →
  (∀ x, stage_of q = Some x → x.1 ≠ MEMTABLE_STATE_COMPACTED → stage_of p = Some x ∨ others (λ p', stage_of p' ≠ Some x)) →
  (∀ g, stage_of q = Some (MEMTABLE_STATE_FINALIZED, g) → g ∉ mc_tasks c') →
  others (λ p', ∀ g, stage_of p' = Some (MEMTABLE_STATE_FINALIZED, g) → g ∉ mc_tasks c') →
  (incorporates q ≠ None → incorporates p ≠ None ∨ others (λ p', incorporates p' = None)) →
  (∀ i r, recycles q = Some (i, r) → (∃ r', recycles p = Some (i, r')) ∨ others (λ p', ∀ r', recycles p' ≠ Some (i, r'))) →
  (∀ i mt, mc_mt c' !! i = Some mt → owned c' (<[t := q]> pcs) i mt) →
  (mc_generation_to_incorporate c' = retired c' →
     ∃ (t' : nat) p' g, <[t := q]> pcs !! t' = Some p' ∧ incorporates p' = Some (g, true)) →
  (∀ i mt, mc_mt c' !! i = Some mt → mt_refs mt =
     Z.b2z (negb (bool_decide (mt_state mt = MEMTABLE_STATE_INCORPORATED))) + (total i pcs - weight i p + weight i q)) →
  inv (k + 1) (mk_system c' (<[t := q]> pcs)).
Proof using HI Ht Hmove.
  intros Hring Hq Hoth Hst Htq Hto Hinc Hrec Hown Hnext Hrefs. destruct HI as [_ _ Hmi Hml Hss _ Hii Hrr _ _ _]. cbn in *.
  apply andb_true_iff in Hmove as [[Hi Hl]%andb_true_iff _].
  split; cbn.
  - done.
  - intros t' p' [[-> ->]|[Hne E]]%pcs_case; [done|by eapply Hoth].
  - rewrite list_fmap_insert. eapply mode_allows_ok; [done| |exact Hi]. by rewrite list_lookup_fmap, Ht.
  - rewrite list_fmap_insert. eapply mode_allows_ok; [done| |exact Hl]. by rewrite list_lookup_fmap, Ht.
  - intros t1 t2 p1 p2 x [[-> ->]|[H1 E1]]%pcs_case [[-> ->]|[H2 E2]]%pcs_case S1 S2 Hx; [done|..].
    + destruct (Hst x S1 Hx) as [Sp|Ho]; [by eapply Hss|]. by destruct (Ho t2 p2 H2 E2).
    + destruct (Hst x S2 Hx) as [Sp|Ho]; [by eapply Hss|]. by destruct (Ho t1 p1 H1 E1).
    + by eapply Hss.
  - intros t' p' g [[-> ->]|[Hne E]]%pcs_case; [apply Htq|by eapply Hto].
  - intros t1 t2 p1 p2 [[-> ->]|[H1 E1]]%pcs_case [[-> ->]|[H2 E2]]%pcs_case I1 I2; [done|..].
    + destruct (Hinc I1) as [Ip|Ho]; [by eapply Hii|]. by rewrite (Ho t2 p2 H2 E2) in I2.
    + destruct (Hinc I2) as [Ip|Ho]; [by eapply Hii|]. by rewrite (Ho t1 p1 H1 E1) in I1.
    + by eapply Hii.
  - intros t1 t2 p1 p2 i r r' [[-> ->]|[H1 E1]]%pcs_case [[-> ->]|[H2 E2]]%pcs_case R1 R2; [done|..].
    + destruct (Hrec i r R1) as [[r0 Rp]|Ho]; [by eapply Hrr|]. by destruct (Ho t2 p2 H2 E2 r').
    + destruct (Hrec i r' R2) as [[r0 Rp]|Ho]; [by eapply Hrr|]. by destruct (Ho t1 p1 H1 E1 r).
    + by eapply Hrr.
  - done.
  - done.
  - intros i mt E. rewrite (total_insert i pcs t p q Ht). by apply Hrefs.
Qed.

(** ** A step that changes one memtable, but not its generation *)
Context (i : nat) (mt mt' : memtable) (Hi : mc_mt c !! i = Some mt) (Hgen : mt_generation mt' = mt_generation mt).
Context (inc' : Z) (tasks' : list Z).
Definition changed : memtable_context :=
  mk_memtable_context (mc_generation c) inc' (mc_generation_retired c) (<[i := mt']> (mc_mt c)) tasks'.
Lemma changed_case j x : mc_mt changed !! j = Some x → j = i ∧ x = mt' ∨ j ≠ i ∧ mc_mt c !! j = Some x.
Proof. cbn. intros [(<- & <- & _)|[? ?]]%list_lookup_insert_Some; [by left|right; by split]. Qed.
Lemma changed_eq : mc_mt changed !! i = Some mt'.
Proof using Hi. cbn. apply list_lookup_insert_eq. by eapply lookup_lt_Some. Qed.
Lemma changed_ne j x : j ≠ i → mc_mt c !! j = Some x → mc_mt changed !! j = Some x.
Proof. intros Hne E. cbn. by rewrite list_lookup_insert_ne. Qed.
Lemma slot_mt : slot (mt_generation mt) = i.
Proof using HI Hi. by apply (rg_slots _ _ (iv_ring _ _ HI)). Qed.

Lemma gen_at_changed g st : gen_at c g st → (g = mt_generation mt → mt_state mt = st → mt_state mt' = st) → gen_at changed g st.
Proof using HI Hi Hgen.
  intros (x & E & Hg & Hs) Hst. unfold core_mt in E. destruct (decide (slot g = i)) as [Ei|Hne].
  - rewrite Ei in E. replace x with mt in * by congruence. exists mt'. unfold core_mt. rewrite Ei. split; [apply changed_eq|].
    split; [congruence|]. by apply Hst.
  - exists x. split; [by apply changed_ne|done].
Qed.
Lemma gen_here_changed g : gen_here c g → gen_here changed g.
Proof using HI Hi Hgen.
  intros (x & E & Hg). unfold core_mt in E. destruct (decide (slot g = i)) as [Ei|Hne].
  - rewrite Ei in E. replace x with mt in * by congruence. exists mt'. unfold core_mt. rewrite Ei. split; [apply changed_eq|congruence].
  - exists x. split; [by apply changed_ne|done].
Qed.

(** What a thread needs of the change. *)
Record unaffected (p' : thread_pc) : Prop := {
  un_ready : mt_state mt = MEMTABLE_STATE_READY → mt_state mt' ≠ MEMTABLE_STATE_READY → mt_generation mt ∉ ready_of p';
  un_stage : stage_of p' = Some (mt_state mt, mt_generation mt) → mt_state mt = MEMTABLE_STATE_COMPACTED ∨ mt_state mt' = mt_state mt;
  un_late : late (mt_state mt) → late (mt_state mt') ∨ mc_generation c < mt_generation mt;
  un_branch : branch_of p' = Some (mt_generation mt) → mt_state mt' = mt_state mt ∨
    mt_state mt = MEMTABLE_STATE_COMPACTED ∧ mt_state mt' = MEMTABLE_STATE_INCORPORATION_ASSIGNED;
  un_recycles : ∀ r, recycles p' = Some (i, r) → mt' = mt;
  un_inc : incorporates p' ≠ None → inc' = mc_generation_to_incorporate c;
}.
Lemma pc_inv_changed p' : pc_inv c p' → unaffected p' → pc_inv changed p'.
Proof using HI Hi Hgen.
  intros [] []. split; try done.
  - intros g Hg. apply gen_at_changed; [by apply pi_ready|]. intros -> Hs.
    destruct (decide (mt_state mt' = MEMTABLE_STATE_READY)); [done|]. by destruct un_ready0.
  - intros st g Hs Hne. apply gen_at_changed; [by apply pi_stage|]. intros -> <-. by destruct un_stage0.
  - intros g x Hs Hx Hgx. unfold core_mt in Hx. apply changed_case in Hx as [[Ei ->]|[Hne Hx]]; [|by eapply pi_tried].
    destruct un_late0 as [?|Hlt]; [|done|].
    + eapply pi_tried; [exact Hs|unfold core_mt; by rewrite Ei|congruence].
    + destruct (pi_below _ _ Hs). lia.
  - intros g b E. destruct (pi_inc g b E). cbn. rewrite un_inc0; [by split|]. by rewrite E.
  - intros g Hg. by apply gen_here_changed, pi_held.
  - intros g E. destruct (decide (g = mt_generation mt)) as [->|Hne].
    + destruct (un_branch0 E) as [Es|[E0 E1]].
      * destruct (pi_branch _ E) as [H|H]; [left|right]; apply gen_at_changed; try done; by intros _ <-.
      * right. exists mt'. unfold core_mt. rewrite slot_mt. split; [apply changed_eq|by split].
    + destruct (pi_branch _ E) as [H|H]; [left|right]; by apply gen_at_changed.
  - intros j r E. destruct (pi_recycle j r E) as (x & Ex & Hfit). destruct (decide (j = i)) as [->|Hne].
    + exists mt'. split; [apply changed_eq|]. rewrite (un_recycles0 r E). by replace mt with x by congruence.
    + exists x. split; [by apply changed_ne|done].
Qed.

Record slot_step : Prop := {
  sl_fits : state_fits (mc_generation c) (retired c) mt';
  sl_inc : 0 ≤ inc' ∧ (inc' = retired c + 1 ∨ inc' = retired c);
  sl_tasks : ∀ g, g ∈ tasks' → gen_at changed g MEMTABLE_STATE_FINALIZED ∧ g < mc_generation c;
  sl_tasks_nodup : NoDup tasks';
  sl_q : pc_inv changed q;
  sl_others : others (λ p', pc_inv c p' → unaffected p');
  sl_stage : ∀ x, stage_of q = Some x → x.1 ≠ MEMTABLE_STATE_COMPACTED → stage_of p = Some x ∨ others (λ p', stage_of p' ≠ Some x);
  sl_task_q : ∀ g, stage_of q = Some (MEMTABLE_STATE_FINALIZED, g) → g ∉ tasks';
  sl_task_others : others (λ p', ∀ g, stage_of p' = Some (MEMTABLE_STATE_FINALIZED, g) → g ∈ tasks' → g ∈ mc_tasks c);
  sl_incorporates : incorporates q ≠ None → incorporates p ≠ None ∨ others (λ p', incorporates p' = None);
  sl_recycles : ∀ j r, recycles q = Some (j, r) → (∃ r', recycles p = Some (j, r')) ∨ others (λ p', ∀ r', recycles p' ≠ Some (j, r'));
  sl_owned : owned changed (<[t := q]> pcs) i mt';
  sl_stage_keep : ∀ x, stage_of p = Some x → stage_of q = Some x ∨ slot x.2 = i;
  sl_task_keep : ∀ g, g ∈ mc_tasks c → g ∈ tasks' ∨ slot g = i;
  sl_inc_keep : inc' = mc_generation_to_incorporate c ∨ slot inc' = i;
  sl_recycles_keep : ∀ j, recycles p = Some (j, NewGeneration) → recycles q = Some (j, NewGeneration) ∨ j = i;
  sl_next : inc' = retired c → (∃ g, incorporates q = Some (g, true)) ∨
    inc' = mc_generation_to_incorporate c ∧ ∀ g, incorporates p = Some (g, true) → incorporates q = Some (g, true);
  sl_weight : ∀ j, j ≠ i → weight j q = weight j p;
  sl_refs : mt_refs mt' - Z.b2z (negb (bool_decide (mt_state mt' = MEMTABLE_STATE_INCORPORATED))) =
    mt_refs mt - Z.b2z (negb (bool_decide (mt_state mt = MEMTABLE_STATE_INCORPORATED))) + (weight i q - weight i p);
}.
Lemma owned_changed j x : slot_step → j ≠ i → mc_mt c !! j = Some x → owned c pcs j x → owned changed (<[t := q]> pcs) j x.
Proof using HI Ht Hi Hgen.
  intros Hst Hne Ex Ho. destruct Hst. pose proof (proj1 (rg_slots _ _ (iv_ring _ _ HI) _ _ Ex)) as Hsl. cbn in Hsl.
  assert (Hkeep : ∀ st, at_stage pcs st (mt_generation x) → at_stage (<[t := q]> pcs) st (mt_generation x)).
  { intros st Ha. apply at_stage_keep; [done|]. intros Es. destruct (sl_stage_keep0 _ Es) as [?|E]; [done|]. cbn in E. congruence. }
  unfold owned in *. destruct (mt_state x); try done; try (by apply Hkeep).
  - destruct Ho as [Hin|Ha]; [|by right; apply Hkeep]. destruct (sl_task_keep0 _ Hin); [by left|congruence].
  - cbn. intros E. apply Hkeep, Ho. destruct sl_inc_keep0 as [?|?]; congruence.
  - destruct Ho as [?|[?|(Hlt & t' & p' & Et & Er)]]; [by left|right; left; by apply Hkeep|]. right; right. split; [done|].
    destruct (decide (t' = t)) as [->|Hnt].
    + exists t, q. split; [apply pcs_q|]. replace p' with p in * by congruence. destruct (sl_recycles_keep0 j Er); [done|congruence].
    + exists t', p'. split; [by apply pcs_other|done].
Qed.
Lemma ring_changed : slot_step → ring_ok (k + 1) changed.
Proof using HI Hi Hgen.
  intros []. pose proof (iv_ring _ _ HI) as HR. pose proof slot_mt as Hsl. destruct HR. cbn in *. split; try done.
  - cbn. by rewrite length_insert.
  - cbn. lia.
  - apply sl_inc0.
  - apply sl_inc0.
  - intros j x [[-> ->]|[Hne E]]%changed_case; cbn; [|by apply rg_slots]. rewrite Hgen. by apply rg_slots.
  - intros j x [[-> ->]|[Hne E]]%changed_case; cbn; [done|by eapply rg_states].
Qed.
Lemma inv_changed : slot_step → inv (k + 1) (mk_system changed (<[t := q]> pcs)).
Proof using All.
  intros Hst. pose proof (ring_changed Hst) as HR'. pose proof (owned_changed) as Hoc. pose proof HI as [_ Hpcs _ _ _ Htask _ _ Hown Hnext Hrefs].
  cbn in *. apply inv_intro; try done; try apply Hst.
  - intros t' p' Hne E. apply pc_inv_changed; [by eapply Hpcs|]. eapply (sl_others Hst); [done|exact E|by eapply Hpcs].
  - intros t' p' Hne E g Hs Hg. eapply Htask; [exact E|exact Hs|]. by eapply (sl_task_others Hst).
  - intros j x [[-> ->]|[Hne E]]%changed_case; [apply Hst|]. by apply Hoc, Hown.
  - cbn. intros E. destruct (sl_next Hst E) as [[g Hg]|[E1 Hpq]].
    + exists t, q, g. split; [apply pcs_q|done].
    + destruct (Hnext (eq_trans (eq_sym E1) E)) as (t' & p' & g & Et & Ep). destruct (decide (t' = t)) as [->|Hne].
      * exists t, q, g. split; [apply pcs_q|]. apply Hpq. congruence.
      * exists t', p', g. split; [by apply pcs_other|done].
  - intros j x [[-> ->]|[Hne E]]%changed_case.
    + pose proof (sl_refs Hst). pose proof (Hrefs i mt Hi). lia.
    + pose proof (sl_weight Hst j Hne). pose proof (Hrefs j x E). lia.
Qed.
End frame.
