(* ===== verification/MemtableInsert.v ===== *)
(** * Steps that keep the invariant: moves and insertions

    Steps of a thread that change no shared variable, and those of
    memtable_maybe_rotate_and_begin_insert and of the insertion. *)
From S2P Require Import Prelude BatchRwlock Memtable MemtableInv MemtableFrame.

Ltac pc_simpl := cbn [stage_of incorporates current_of ready_of window_of loop_of branch_of held_of recycles plain after_held after_generation negb] in *.
(** [pc_inv] of a place from that of the place before it. *)
Ltac elems :=
  repeat match goal with
  | H : _ ∈ [] |- _ => by apply not_elem_of_nil in H
  | H : _ ∈ _ :: _ |- _ => apply elem_of_cons in H as [->|H]
  end.
(** [pc_inv] of a place from that of the place before it. *)
Ltac pc_from HP :=
  let H := fresh in pose proof HP as H; destruct H; split; pc_simpl; intros; simplify_eq; try done; eauto; elems;
  eauto using list_elem_of_here, list_elem_of_further;
  try match goal with Hi : ∀ (g : Z) (b : bool), _ → _ ∧ retired _ = _ |- _ ∧ retired _ = _ => exact (Hi _ _ eq_refl) end.

(** A step that can be made is safe: it returns, and keeps the invariant. *)
Definition safe (k : Z) (oo : option (outcome system)) : Prop := ∀ o, oo = Some o → ∃ s', o = Ret s' ∧ inv (k + 1) s'.
Lemma safe_none k : safe k None.
Proof. done. Qed.
#[export] Hint Resolve safe_none : core.

Section moves.
Context (k : Z) (c : memtable_context) (pcs : list thread_pc) (HI : inv k (mk_system c pcs)).
Context (t : nat) (p : thread_pc) (Ht : pcs !! t = Some p).

Lemma goto_safe q c' : (may_move pcs p q = true → inv (k + 1) (mk_system c' (<[t := q]> pcs))) → safe k (goto pcs t p q c').
Proof. intros H o. unfold goto. destruct (may_move pcs p q); [|done]. intros [= <-]. eexists. split; [done|]. by apply H. Qed.
Lemma at_slot_safe g c' f : ring_ok k c' → (∀ mt, core_mt c' g = Some mt → safe k (f mt)) → safe k (at_slot (slot g) c' f).
Proof.
  intros HR Hf. unfold at_slot. destruct (ring_slot k c' HR g) as (mt & E & _). unfold core_mt in *. rewrite E. by apply Hf.
Qed.
Lemma get_safe g c' f : gen_here c' g → (∀ mt, core_mt c' g = Some mt → mt_generation mt = g → safe k (f mt)) →
  safe k (get_then (core_get_memtable c' g) f).
Proof. intros (mt & E & Hg) Hf. unfold core_get_memtable. rewrite E, Hg, Z.eqb_refl. by apply Hf. Qed.
Lemma get_compacted_safe g st c' f : gen_at c' g st → st ≠ MEMTABLE_STATE_READY →
  (∀ mt, core_mt c' g = Some mt → mt_generation mt = g → mt_state mt = st → safe k (f mt)) →
  safe k (get_then (core_get_compacted_memtable c' g) f).
Proof.
  intros (mt & E & Hg & Hs) Hst Hf. unfold core_get_compacted_memtable, core_get_memtable. rewrite E, Hg, Z.eqb_refl.
  rewrite bool_decide_false by congruence. by apply Hf.
Qed.
Lemma gen_at_here g st : gen_at c g st → gen_here c g.
Proof. intros (mt & ? & ? & _). by exists mt. Qed.
Lemma my_pc : pc_inv c p.
Proof using HI Ht. by eapply (iv_pcs _ _ HI). Qed.
Lemma my_ring : ring_ok k c.
Proof using HI. apply (iv_ring _ _ HI). Qed.

(** A move that leaves what is shared. *)
Lemma changed_same i mt : mc_mt c !! i = Some mt → changed c i mt (mc_generation_to_incorporate c) (mc_tasks c) = c.
Proof. intros E. unfold changed. rewrite list_insert_id by done. clear. by destruct c. Qed.
Lemma quiet q : pc_inv c q → stage_of q = stage_of p → incorporates q = incorporates p → recycles q = recycles p →
  (∀ i, weight i q = weight i p) → safe k (goto pcs t p q c).
Proof using HI Ht.
  intros Hq Es Ei Er Hw. apply goto_safe. intros Hmove.
  destruct (ring_some k c my_ring 0 ltac:(lia)) as (mt & E0). pose proof (changed_same 0 mt E0) as Ec.
  pose proof HI as [[] _ _ _ _ Htask _ _ Hown _ _]. cbn in *.
  rewrite <-Ec. apply (inv_changed k c pcs HI t p q Ht Hmove 0 mt mt E0 eq_refl). split; rewrite ?Ec; try done; try (by intros; left; congruence).
  - by eapply rg_states.
  - intros t' p' _ E _. split; intros; first [done|by left|by right].
  - intros g. rewrite Es. by apply (Htask t p g Ht).
  - by intros t' p' _ _ g _.
  - intros j r. rewrite Er. intros E. left. by exists r.
  - pose proof (Hown 0%nat mt E0) as Ho. unfold owned in *.
    assert (Hkeep : ∀ st g, at_stage pcs st g → at_stage (<[t := q]> pcs) st g).
    { intros st g Ha. apply (at_stage_keep pcs t p q Ht); [done|]. by rewrite Es. }
    destruct (mt_state mt); try done; try (by apply Hkeep).
    + destruct Ho as [?|Ha]; [by left|right; by apply Hkeep].
    + intros E. by apply Hkeep, Ho.
    + destruct Ho as [?|[Ha|(Hlt & t' & p' & Et & Ep)]]; [by left|right; left; by apply Hkeep|]. right; right. split; [done|].
      destruct (decide (t' = t)) as [->|Hne].
      * exists t, q. split; [by eapply pcs_q|]. congruence.
      * exists t', p'. split; [by apply pcs_other|done].
  - rewrite Ei. intros E. right. split; [done|]. by intros g ->.
  - rewrite Hw. lia.
Qed.

(** ** Insertions *)
Context (Hk : 0 ≤ k < 2 ^ 62).
Lemma counters_small : 0 ≤ mc_generation c < 2 ^ 62 ∧ -1 ≤ retired c < 2 ^ 62.
Proof using HI Hk. destruct my_ring. lia. Qed.
Lemma distance_small : u64 (mc_generation c - mc_generation_retired c) = mc_generation c - retired c.
Proof using HI Hk.
  destruct my_ring. rewrite rg_retired_u64. unfold u64. rewrite Zminus_mod_idemp_r. apply Z.mod_small. lia.
Qed.
Lemma insert_ready g mt : current_of p = Some g → core_mt c g = Some mt → mt_state mt = MEMTABLE_STATE_READY →
  gen_at c g MEMTABLE_STATE_READY.
Proof using HI Ht.
  intros Hg E Hs. pose proof (pi_current _ _ my_pc g Hg) as HG. destruct (ring_live k c my_ring g) as (x & Ex & Hx).
  - destruct my_ring. lia.
  - exists mt. split_and!; [done| |done]. congruence.
Qed.
Lemma insert_ready_next g mt : current_of p = Some g → core_mt c (g + 1) = Some mt → mt_state mt = MEMTABLE_STATE_READY →
  gen_at c (g + 1) MEMTABLE_STATE_READY.
Proof using HI Ht.
  intros Hg E Hs. pose proof (pi_current _ _ my_pc g Hg) as HG. pose proof my_ring as HR. exists mt. split_and!; [done| |done].
  destruct (rg_slots _ _ HR _ _ E) as (Hsl & H0 & H1). pose proof (rg_states _ _ HR _ _ E) as Hf. unfold state_fits in Hf.
  rewrite Hs in Hf. destruct HR. apply slot_near; [done|]. lia.
Qed.


End moves.
Arguments my_pc {k c pcs} HI {t p} Ht.
Arguments my_ring {k c pcs} HI.

(** A move: the place after it has its invariant from the place before. *)
Ltac moves :=
  lazymatch goal with
  | HI : inv _ _, Ht : _ !! _ = @Some thread_pc _ |- _ => eapply quiet; [exact HI|exact Ht|pc_from (my_pc HI Ht)|done..]
  end.

Section insertion.
Context (k : Z) (c : memtable_context) (pcs : list thread_pc) (HI : inv k (mk_system c pcs)) (Hk : 0 ≤ k < 2 ^ 62).
Context (t : nat).
Lemma check_passes g : pcs !! t = Some (InsCheck g) →
  (u64 (mc_generation c - mc_generation_retired c) <=? CORE_NUM_MEMTABLES) = true ∧ (u64 (g + 1) =? mc_generation c) = true.
Proof using HI Hk.
  intros Ht. rewrite (distance_small k c pcs HI Hk). pose proof (counters_small k c pcs HI Hk) as H.
  pose proof (pi_current _ _ (my_pc HI Ht) _ eq_refl) as HG. pose proof (my_ring HI) as [].
  unfold CORE_NUM_MEMTABLES. rewrite u64_small by lia. lia.
Qed.
(** The moves of an insertion that change nothing. *)
Lemma insert_moves ch p : pcs !! t = Some p →
  match p with
  | InsGet | InsGen | InsState _ | InsBackoff | InsFull _ | InsNext _ | InsBusy | InsClaim _ | InsLock _
  | InsCheck _ | InsUnlock _ | InsUnclaim _ | InsEnd _ | Inserting _ => safe k (insert_step pcs t p ch c)
  | _ => True
  end.
Proof using HI Hk.
  intros Ht. destruct p eqn:Ep; try done; cbn [insert_step].
  - moves.
  - moves.
  - apply at_slot_safe; [apply (my_ring HI)|]. intros mt E. case_bool_decide; moves.
    by eapply insert_ready.
  - moves.
  - destruct ch as [| | | | |b|]; try done. destruct b; moves.
  - assert (u64 (g + 1) = g + 1) as ->.
    { apply u64_small. pose proof (counters_small k c pcs HI Hk). pose proof (pi_current _ _ (my_pc HI Ht) g eq_refl). lia. }
    apply at_slot_safe; [apply (my_ring HI)|]. intros mt E. case_bool_decide; moves.
    by eapply insert_ready_next.
  - moves.
  - destruct (may_move pcs (InsClaim g) (InsLock g)); moves.
  - moves.
  - destruct (check_passes g Ht) as [-> ->]. cbn [assert_then]. moves.
    destruct (pi_below _ _ eq_refl). pose proof (pi_current _ eq_refl). split; [done|lia].
  - moves.
  - moves.
  - moves.
  - apply get_safe; [|intros; moves]. apply (gen_at_here c g MEMTABLE_STATE_READY), (pi_ready _ _ (my_pc HI Ht)), list_elem_of_here.
Qed.

(** While a thread has the write lock of the insertions, no other one is at an insertion. *)
Lemma insert_alone p : pcs !! t = Some p → insert_mode p = WriteLocked →
  others pcs t (λ p', ready_of p' = [] ∧ current_of p' = None).
Proof using HI.
  intros Ht Hm t' p' Hne E. enough (insert_mode p' = Unlocked) by (by destruct p').
  apply (write_alone (insert_mode <$> pcs) t t'); [apply (iv_insert _ _ HI)| | |done]; rewrite list_lookup_fmap.
  - rewrite Ht. cbn. by rewrite Hm.
  - by rewrite E.
Qed.
End insertion.
Lemma transition_ret mt st st' : mt_state mt = st → memtable_transition mt st st' = Ret (with_state st' mt).
Proof. intros E. unfold memtable_transition, memtable_try_transition. by rewrite bool_decide_true. Qed.
Lemma slot_safe k c pcs t p q i mt mt' inc' tasks' : inv k (mk_system c pcs) → pcs !! t = Some p → mc_mt c !! i = Some mt →
  mt_generation mt' = mt_generation mt →
  (may_move pcs p q = true → slot_step c pcs t p q i mt mt' inc' tasks') → safe k (goto pcs t p q (changed c i mt' inc' tasks')).
Proof.
  intros HI Ht Hi Hg Hs. apply goto_safe. intros Hmove. by apply (inv_changed k c pcs HI t p q Ht Hmove i mt mt' Hi Hg), Hs.
Qed.

Lemma stage_not_ready p g : stage_of p ≠ Some (MEMTABLE_STATE_READY, g).
Proof. destruct p; cbn; try done; by case_match. Qed.

(** ** A transition of a memtable
    The thread brings generation [g] from [st0] to the state that it is at afterwards. *)
Section transition.
Context (k : Z) (c : memtable_context) (pcs : list thread_pc) (HI : inv k (mk_system c pcs)).
Context (t : nat) (p q : thread_pc) (Ht : pcs !! t = Some p).
Context (g : Z) (st0 st1 : memtable_state) (mt : memtable) (inc' : Z).
Context (Emt : core_mt c g = Some mt) (Hg : mt_generation mt = g) (Hs : mt_state mt = st0).
Definition brought : memtable_context := changed c (slot g) (with_state st1 mt) inc' (mc_tasks c).
Record transition_ok : Prop := {
  tr_p : stage_of p = Some (st0, g) ∨ stage_of p = None ∧ (st0 = MEMTABLE_STATE_READY ∨ st0 = MEMTABLE_STATE_COMPACTED);
  tr_q : stage_of q = Some (st1, g);
  tr_ne : st0 ≠ MEMTABLE_STATE_INCORPORATED ∧ st1 ≠ st0;
  tr_late : late st0 → late st1;
  tr_fits : state_fits (mc_generation c) (retired c) (with_state st1 mt);
  tr_inc : 0 ≤ inc' ∧ (inc' = retired c + 1 ∨ inc' = retired c);
  tr_inc_others : inc' = mc_generation_to_incorporate c ∨ inc' = g ∧ others pcs t (λ p', incorporates p' = None);
  tr_final : st1 = MEMTABLE_STATE_FINALIZED → st0 = MEMTABLE_STATE_READY;
  tr_ready : st0 = MEMTABLE_STATE_READY → others pcs t (λ p', ready_of p' = []);
  tr_branch : others pcs t (λ p', branch_of p' = Some g → st0 = MEMTABLE_STATE_COMPACTED ∧ st1 = MEMTABLE_STATE_INCORPORATION_ASSIGNED);
  tr_incorporates : incorporates q ≠ None → incorporates p ≠ None ∨ others pcs t (λ p', incorporates p' = None);
  tr_next : inc' = retired c → inc' = mc_generation_to_incorporate c ∧ ∀ h, incorporates p ≠ Some (h, true);
  tr_recycles : recycles p = None ∧ recycles q = None;
  tr_weight : ∀ j, j ≠ slot g → weight j q = weight j p;
  tr_refs : weight (slot g) q = weight (slot g) p + Z.b2z (bool_decide (st1 = MEMTABLE_STATE_INCORPORATED));
  tr_pc : pc_inv brought q;
}.
Lemma transition_task : transition_ok → g ∉ mc_tasks c.
Proof using HI Ht Emt Hs.
  intros [] Hin. destruct (rg_tasks _ _ (my_ring HI) g Hin) as [(x & Ex & _ & Hx) _].
  destruct tr_p0 as [Hp|[_ Hst]]; [|replace x with mt in * by congruence; destruct Hst; congruence].
  apply (iv_task _ _ HI t p g Ht); [|done]. rewrite Hp. congruence.
Qed.
Lemma transition_owned : transition_ok → owned brought (<[t := q]> pcs) (slot g) (with_state st1 mt).
Proof using Ht Hg.
  intros []. assert (Ha : at_stage (<[t := q]> pcs) st1 g) by by apply (at_stage_q pcs t p q Ht).
  unfold owned, brought. cbn. rewrite Hg. destruct st1; auto.
Qed.
Lemma transition_unaffected p' t' : transition_ok → t' ≠ t → pcs !! t' = Some p' → unaffected c (slot g) mt (with_state st1 mt) inc' p'.
Proof using HI Ht Emt Hg Hs.
  intros Hok Hne E. pose proof Hok as []. split; cbn; rewrite ?Hg, ?Hs.
  - intros Hr _. rewrite (tr_ready0 Hr t' p' Hne E). apply not_elem_of_nil.
  - intros Est. left. destruct tr_p0 as [Hp|[_ [->|?]]]; [|by apply stage_not_ready in Est|done].
    destruct (decide (st0 = MEMTABLE_STATE_COMPACTED)); [done|]. destruct Hne. by apply (iv_stage _ _ HI t' t p' p _ E Ht Est Hp).
  - auto.
  - intros Eb. right. by apply (tr_branch0 t' p' Hne E).
  - intros r Er. destruct (pi_recycle _ _ (iv_pcs _ _ HI t' p' E) _ r Er) as (x & Ex & Hx & _). destruct tr_ne0 as [Hn _].
    destruct Hn. unfold core_mt in Emt. cbn in Ex. congruence.
  - destruct tr_inc_others0 as [?|[_ Ho]]; [done|]. intros []. by apply (Ho t' p').
Qed.
Lemma transition_step : (may_move pcs p q = true → transition_ok) → safe k (goto pcs t p q brought).
Proof using All.
  intros Hmove. apply (slot_safe k c pcs t p q (slot g) mt); [done..|]. intros Hok%Hmove.
  pose proof (transition_task Hok) as Htask. pose proof (transition_owned Hok) as Hown. pose proof transition_unaffected as Hun.
  pose proof Hok as [? ? [] ? ? ? ? ? ? ? ? ? [Hr0 Hr1] ? ? ?]. split; try done.
  - intros h Hin. destruct (rg_tasks _ _ (my_ring HI) h Hin) as [Hat ?]. split; [|done].
    apply (gen_at_changed k c pcs HI (slot g) mt); [done|done|done|]. intros ->. by rewrite Hg in Hin.
  - apply (rg_tasks_nodup _ _ (my_ring HI)).
  - intros t' p' Hne E _. by eapply Hun.
  - intros x Ex Hx. right. intros t' p' Hne E Ep. rewrite tr_q0 in Ex. injection Ex as <-.
    destruct (pi_stage _ _ (iv_pcs _ _ HI t' p' E) st1 g Ep Hx) as (y & Ey & _ & Hy). cbn in Ey. congruence.
  - intros h Eh. rewrite tr_q0 in Eh. by injection Eh as _ <-.
  - by intros t' p' _ _ h _.
  - intros j r Er. congruence.
  - intros x Ex. right. destruct tr_p0 as [Ep|[Ep _]]; [|congruence]. rewrite Ep in Ex. by injection Ex as <-.
  - intros h Hh. by left.
  - destruct tr_inc_others0 as [?|[-> _]]; [by left|by right].
  - intros j Ej. congruence.
  - intros E. destruct (tr_next0 E) as [? Hn]. right. split; [done|]. intros h Eh. by destruct (Hn h).
  - cbn. rewrite Hs, (bool_decide_false (st0 = _)) by done. rewrite tr_refs0. case_bool_decide; cbn; lia.
Qed.

Lemma brought_here : gen_at brought g st1.
Proof using Emt Hg.
  exists (with_state st1 mt). split; [|done]. unfold core_mt, brought, changed. cbn. apply list_lookup_insert_eq.
  by eapply lookup_lt_Some.
Qed.
Lemma brought_other h st : gen_at c h st → h ≠ g → gen_at brought h st.
Proof using HI Emt Hg. intros Hat Hne. apply (gen_at_changed k c pcs HI (slot g) mt); try done. congruence. Qed.
(** A place that knows no more than the stage and the incorporation. *)
Lemma brought_pc : stage_of q = Some (st1, g) → 0 ≤ g < mc_generation c → current_of q = None → ready_of q = [] →
  held_of q = [] → window_of q = None → loop_of q = None → branch_of q = None → recycles q = None →
  (∀ h b, incorporates q = Some (h, b) → inc' = h ∧ retired c = if b : bool then h else h - 1) → pc_inv brought q.
Proof using Emt Hg.
  intros Es Hlt Ec Er Eh Ew El Eb Ey Ei. split; try (by intros; congruence).
  - rewrite Er. by intros h ?%not_elem_of_nil.
  - intros st h Eq _. rewrite Es in Eq. injection Eq as <- <-. apply brought_here.
  - intros st h Eq. rewrite Es in Eq. injection Eq as <- <-. cbn. split; lia.
  - intros h x Eq Ex Hx. rewrite Es in Eq. injection Eq as E1 <-. destruct brought_here as (y & Ey' & _ & Hy).
    replace x with y by congruence. by rewrite Hy, E1.
  - apply Ei.
  - rewrite Eh. by intros h ?%not_elem_of_nil.
  - intros i a Eq. by rewrite Eq in Es.
Qed.
End transition.

(** ** Rotating *)
Section rotation.
Context (k : Z) (c : memtable_context) (pcs : list thread_pc) (HI : inv k (mk_system c pcs)) (Hk : 0 ≤ k < 2 ^ 62).
Context (t : nat).

Lemma finalize_safe g ch : pcs !! t = Some (InsFinalize g) → safe k (insert_step pcs t (InsFinalize g) ch c).
Proof using HI.
  intros Ht. destruct (pi_ready _ _ (my_pc HI Ht) g (list_elem_of_here _ _)) as (mt & E & Hg & Hs).
  pose proof (insert_alone _ _ _ HI _ _ Ht eq_refl) as Halone. pose proof (pi_current _ _ (my_pc HI Ht) g eq_refl) as HG.
  cbn [insert_step]. unfold at_slot. fold (core_mt c g). rewrite E, (transition_ret mt _ _ Hs). cbn [get_then].
  apply (transition_step k c pcs HI t (InsFinalize g) (InsAdvance g) Ht g MEMTABLE_STATE_READY MEMTABLE_STATE_FINALIZED mt
    (mc_generation_to_incorporate c) E Hg Hs).
  intros _. pose proof (my_ring HI) as []. split; try done.
  - right. by split; [|left].
  - unfold state_fits. cbn. lia.
  - by left.
  - intros _ t' p' Hne Ep. by destruct (Halone t' p' Hne Ep).
  - intros t' p' Hne Ep Eb. destruct (pi_branch _ _ (iv_pcs _ _ HI t' p' Ep) g Eb) as [(y & Ey & _ & Hy)|(y & Ey & _ & Hy)]; cbn in Ey; congruence.
  - pose proof (my_pc HI Ht) as Hp. assert (HB : gen_at (brought c g MEMTABLE_STATE_FINALIZED mt (mc_generation_to_incorporate c)) g MEMTABLE_STATE_FINALIZED)
      by by apply brought_here.
    split; pc_simpl; try (by intros; simplify_eq); intros; simplify_eq; elems.
    + apply (brought_other k c pcs HI); [done|done|apply (pi_ready _ _ Hp)|lia]. apply list_elem_of_further, list_elem_of_here.
    + cbn. split; [lia|done].
Qed.

Lemma process_safe g ch : pcs !! t = Some (InsProcess g) → safe k (insert_step pcs t (InsProcess g) ch c).
Proof using HI.
  intros Ht. pose proof (my_pc HI Ht) as Hp. pose proof (my_ring HI) as HR. cbn [insert_step].
  pose proof (pi_stage _ _ Hp _ _ eq_refl ltac:(done)) as Hat. destruct (pi_below _ _ Hp _ _ eq_refl) as [_ Hlt].
  specialize (Hlt ltac:(done)). pose proof (iv_task _ _ HI t _ g Ht eq_refl) as Hni. cbn in Hni.
  apply (get_compacted_safe k g MEMTABLE_STATE_FINALIZED); [done..|]. intros mt E Hg Hs.
  assert (Ec : with_tasks (mc_tasks c ++ [g]) c = changed c (slot g) mt (mc_generation_to_incorporate c) (mc_tasks c ++ [g])).
  { unfold changed. by rewrite list_insert_id. }
  rewrite Ec. apply (slot_safe k c pcs t (InsProcess g) InsGet (slot g) mt); [done..|]. intros _. rewrite <-?Ec.
  pose proof HR as []. split; rewrite <-?Ec; try done; try (by left).
  - by eapply rg_states.
  - intros h [Hin| ->%list_elem_of_singleton]%elem_of_app; [by apply rg_tasks|done].
  - apply list.NoDup_app. split_and!; [done| |apply list.NoDup_singleton]. intros h Hh ->%list_elem_of_singleton. done.
  - pc_from Hp.
  - intros t' p' _ _ _. split; intros; first [done|by left|by right].
  - intros t' p' Hne Ep h Es [?| ->%list_elem_of_singleton]%elem_of_app; [done|]. exfalso.
    apply Hne. by apply (iv_stage _ _ HI t' t p' _ _ Ep Ht Es eq_refl).
  - unfold owned. rewrite Hs, Hg. left. cbn. apply elem_of_app. right. apply list_elem_of_here.
  - intros x [= <-]. by right.
  - intros h Hh. left. apply elem_of_app. by left.
  - intros E0. right. split; [done|]. intros h. done.
  - change (weight (slot g) InsGet) with (weight (slot g) (InsProcess g)). lia.
Qed.

(** The next generation: its memtable is ready, and those of the generation that ends are not. *)
Section advance.
Context (g : Z) (Ht : pcs !! t = Some (InsAdvance g)).
Let c' : memtable_context := advance_generation c.
Lemma advance_facts : mc_generation c = g ∧ mc_generation c' = g + 1 ∧ gen_at c g MEMTABLE_STATE_FINALIZED ∧
  gen_at c (g + 1) MEMTABLE_STATE_READY ∧ others pcs t (λ p', ready_of p' = [] ∧ current_of p' = None).
Proof using HI Hk Ht.
  pose proof (my_pc HI Ht) as Hp. pose proof (pi_current _ _ Hp g eq_refl) as HG. pose proof (my_ring HI) as [].
  split_and!; [done| | | |].
  - cbn. rewrite HG. apply u64_small. lia.
  - by apply (pi_stage _ _ Hp _ _ eq_refl).
  - apply (pi_ready _ _ Hp), list_elem_of_here.
  - by apply (insert_alone k _ _ HI _ (InsAdvance g)).
Qed.
Lemma advance_ring : ring_ok (k + 1) c'.
Proof using HI Hk Ht.
  destruct advance_facts as (HG & HG' & (x & Ex & Hx & Hxs) & (y & Ey & Hy & Hys) & _). pose proof (my_ring HI) as HR.
  pose proof HR as []. destruct (rg_slots _ _ Ey) as (_ & _ & Hroom).
  split; cbn [c' advance_generation mc_mt mc_generation_to_incorporate mc_generation_retired mc_tasks]; try done; change (retired c') with (retired c);
    change (mc_generation (advance_generation c)) with (mc_generation c'); rewrite ?HG'; try lia.
  - intros i mt E. destruct (rg_slots i mt E) as (Hsl & H0 & H1). split_and!; [done|done| |lia].
    destruct (decide (mt_generation mt = g - 3)); [exfalso|lia].
    enough (y = mt) by (subst; lia). unfold core_mt in Ey. replace (slot (g + 1)) with i in Ey; [congruence|].
    rewrite <-Hsl, e. rewrite <-(slot_add (g - 3)). f_equal. lia.
  - intros i mt E. pose proof (rg_states i mt E) as Hf. unfold state_fits in *. destruct (rg_slots i mt E) as (Hsl & _).
    destruct (mt_state mt) eqn:Es; try done; try lia.
    + assert (mt_generation mt ≠ g) by (intros Eg; unfold core_mt in Ex; rewrite <-Eg, Hsl in Ex; congruence). lia.
    + intros Eg. unfold core_mt in Ey. rewrite <-Eg, Hsl in Ey. congruence.
  - intros h Hh. destruct (rg_tasks h Hh). split; [done|lia].
Qed.
Lemma advance_pc p' t' : t' ≠ t → pcs !! t' = Some p' → pc_inv c' p'.
Proof using HI Hk Ht.
  intros Hne E. destruct advance_facts as (HG & HG' & Hx & (y & Ey & Hy & Hys) & Halone). destruct (Halone t' p' Hne E) as [Hr Hc].
  assert (pc_inv c p') as [] by by apply (iv_pcs _ _ HI t'). split; try done; change (retired c') with (retired c); rewrite ?HG'.
  - intros h Eh. congruence.
  - intros st h Es. destruct (pi_below _ _ Es) as [H1 H2]. rewrite Hc. split; [lia|intros _; lia].
  - intros h e Ew. destruct (pi_window h e Ew) as [H1 H2]. change (retired c') with (retired c). split; [lia|done].
  - intros h e El. destruct (pi_loop h e El) as [-> (h' & -> & Hh)]. split; [done|]. exists h'. change (retired c') with (retired c). split; [done|lia].
  - intros i r Er. destruct (pi_recycle i r Er) as (x & Ei & Hst & Hf). exists x. split; [done|]. split; [done|].
    destruct r; [done..|]. destruct Hf as [Hrf Hf]. split; [done|]. change (mc_generation c < mt_generation x) in Hf.
    change (mc_generation c' < mt_generation x). rewrite HG'.
    destruct (rg_slots _ _ (my_ring HI) _ _ Ei) as [Hsl _].
    enough (mt_generation x ≠ g + 1) by lia. intros Eg. unfold core_mt in Ey. rewrite <-Eg, Hsl in Ey. congruence.
Qed.
Lemma advance_safe ch : safe k (insert_step pcs t (InsAdvance g) ch c).
Proof using HI Hk Ht.
  pose proof advance_ring as HR'. pose proof advance_pc as Hpc. destruct advance_facts as (HG & HG' & Hx & Hy & Halone).
  pose proof (my_pc HI Ht) as Hp. pose proof HI as [_ _ _ _ _ Htask _ _ Hown Hnext Hrefs]. cbn in Htask, Hown, Hnext, Hrefs.
  apply goto_safe. intros Hmove. fold c'. apply (inv_intro k c pcs HI t (InsAdvance g)); try done.
  - split; pc_simpl; try (by intros; simplify_eq); intros; simplify_eq; elems.
    rewrite HG'. destruct (my_ring HI). split; [lia|intros _; lia].
  - intros t' p' Hne E. by eapply Hpc.
  - intros x [= <-] _. by left.
  - intros h [= <-]. by apply (Htask t _ g Ht).
  - intros t' p' Hne E h Es. by apply (Htask t' p').
  - intros i mt E. pose proof (Hown i mt E) as Ho. unfold owned in *. 
    assert (Hkeep : ∀ st h, at_stage pcs st h → at_stage (<[t := InsCheck g]> pcs) st h) by (intros; by eapply at_stage_keep).
    destruct (mt_state mt) eqn:Es; try done; try (by apply Hkeep).
    + destruct Ho as [?|Ha]; [by left|right; by apply Hkeep].
    + intros E1. by apply Hkeep, Ho.
    + destruct Ho as [?|[Ha|(Hlt & t' & p' & Et & Er)]]; [by left|right; left; by apply Hkeep|]. right; right.
      assert (Hne : t' ≠ t) by (intros ->; rewrite Ht in Et; by injection Et as <-).
      destruct (pi_recycle _ _ (Hpc p' t' Hne Et) _ _ Er) as (x & Ex & _ & _ & Hf). change (mc_mt c !! i = Some x) in Ex. change (mc_mt c !! i = Some mt) in E. replace x with mt in Hf by congruence.
      split; [done|]. exists t', p'. split; [by apply pcs_other|done].
  - intros E1. destruct (Hnext E1) as (t' & p' & h & Et & Ei). exists t', p', h. split; [|done]. apply pcs_other; [|done].
    intros ->. rewrite Ht in Et. by injection Et as <-.
  - intros i mt E. rewrite (Hrefs i mt E). change (weight i (InsCheck g)) with (weight i (InsAdvance g)). lia.
Qed.
End advance.
End rotation.
