(* ===== verification/MemtableFlush.v ===== *)
(** * Steps that keep the invariant: compaction and incorporation

    core_memtable_flush_internal up to the release of the lock of the lookups, and
    core_try_continue_incorporate. *)
From S2P Require Import Prelude BatchRwlock Memtable MemtableInv MemtableFrame MemtableInsert.

(** ** A thread that leaves generation [g] to another
    Its memtable is not compacted, or it is not its turn. *)
Section leave.
Context (k : Z) (c : memtable_context) (pcs : list thread_pc) (HI : inv k (mk_system c pcs)).
Context (t : nat) (p q : thread_pc) (Ht : pcs !! t = Some p) (g : Z) (mt : memtable) (inc' : Z) (Emt : core_mt c g = Some mt).
Record leave_ok : Prop := {
  le_p : stage_of p = Some (MEMTABLE_STATE_COMPACTED, g) ∨ stage_of p = None;
  le_q : stage_of q = None ∧ incorporates q = None ∧ recycles q = None ∧ recycles p = None;
  le_turn : mt_state mt = MEMTABLE_STATE_COMPACTED → inc' ≠ mt_generation mt ∨ mt_generation mt ≠ g ∧ inc' = mc_generation_to_incorporate c;
  le_inc : 0 ≤ inc' ∧ (inc' = retired c + 1 ∨ inc' = retired c);
  le_inc_others : inc' = mc_generation_to_incorporate c ∨ inc' = g ∧ others pcs t (λ p', incorporates p' = None);
  le_next : inc' = retired c → inc' = mc_generation_to_incorporate c ∧ ∀ h, incorporates p ≠ Some (h, true);
  le_weight : ∀ j, weight j q = weight j p;
  le_pc : pc_inv (changed c (slot g) mt inc' (mc_tasks c)) q;
}.
Lemma leave_owned : leave_ok → owned (changed c (slot g) mt inc' (mc_tasks c)) (<[t := q]> pcs) (slot g) mt.
Proof using HI Ht Emt.
  intros []. pose proof (iv_owned _ _ HI (slot g) mt Emt) as Ho. unfold owned in *. cbn in Ho. destruct le_q0 as (Eq & _ & _ & Er).
  assert (Hkeep : ∀ st h, at_stage pcs st h → st ≠ MEMTABLE_STATE_COMPACTED ∨ h ≠ g → at_stage (<[t := q]> pcs) st h).
  { intros st h Ha Hne. apply (at_stage_keep pcs t p q Ht); [done|]. intros E. destruct le_p0; [|congruence].
    assert (st = MEMTABLE_STATE_COMPACTED ∧ h = g) as [-> ->] by (split; congruence). by destruct Hne. }
  destruct (mt_state mt) eqn:Es; try done; try (apply Hkeep; [done|by left]).
  - destruct Ho as [?|Ha]; [by left|right; apply Hkeep; [done|by left]].
  - cbn. intros E. destruct (le_turn0 eq_refl) as [?|[? Ei]]; [done|]. apply Hkeep; [apply Ho; congruence|by right].
  - destruct Ho as [?|[Ha|(Hlt & t' & p' & Et & Ep)]]; [by left|right; left; apply Hkeep; [done|by left]|].
    right; right. split; [done|]. exists t', p'. split; [|done]. apply pcs_other; [|done]. intros ->. congruence.
Qed.
Lemma leave_step : (may_move pcs p q = true → leave_ok) → safe k (goto pcs t p q (changed c (slot g) mt inc' (mc_tasks c))).
Proof using All.
  intros Hmove. apply (slot_safe k c pcs t p q (slot g) mt); [done..|]. intros Hok%Hmove.
  pose proof (leave_owned Hok). pose proof Hok as [? (Eq & Ei & Er & Erp) ? ? ? ? ? ?]. pose proof (my_ring HI) as [].
  split; try done; try (by left); try (intros; congruence).
  - by eapply rg_states.
  - intros h Hh. destruct (rg_tasks h Hh). split; [|done]. by apply (gen_at_changed k c pcs HI (slot g) mt).
  - intros t' p' Hne E Hp. split; try by (intros; first [done|by left|by right]).
    destruct le_inc_others0 as [?|[_ Ho]]; [done|]. intros Hn. destruct Hn. by apply (Ho t').
  - intros x Ex. right. destruct le_p0 as [Ep|Ep]; rewrite Ep in Ex; [by injection Ex as <-|done].
  - destruct le_inc_others0 as [?|[-> _]]; [by left|by right].
  - intros E. destruct (le_next0 E) as [? Hn]. right. split; [done|]. intros h Eh. by destruct (Hn h).
  - rewrite le_weight0. lia.
Qed.
End leave.

(** ** Moves *)
Section flush.
Context (k : Z) (c : memtable_context) (pcs : list thread_pc) (HI : inv k (mk_system c pcs)) (Hk : 0 ≤ k < 2 ^ 62).
Context (t : nat).
Lemma stage_here p st g : pcs !! t = Some p → stage_of p = Some (st, g) → st ≠ MEMTABLE_STATE_COMPACTED →
  gen_at c g st ∧ 0 ≤ g ≤ mc_generation c.
Proof using HI.
  intros Ht Es Hne. pose proof (my_pc HI Ht) as []. split; [by apply pi_stage|]. by apply (pi_below _ _ Es).
Qed.
Lemma next_small p g b : pcs !! t = Some p → incorporates p = Some (g, b) → -1 ≤ g < 2 ^ 62.
Proof using HI Hk.
  intros Ht Ei. pose proof (counters_small k c pcs HI Hk). destruct (pi_inc _ _ (my_pc HI Ht) g b Ei) as [<- _].
  destruct (my_ring HI). lia.
Qed.
Lemma flush_moves p : pcs !! t = Some p →
  match p with
  | FlPack _ | FlStart _ | FlStarted _ _ | FlPrepare _ | FlGet _ | FlClaim _ | FlUnget _ | FlLock _ | FlUnlock _ | FlUnclaim _
  | FlRelease _ | RcCheck _ _ | RcLock _ _ | RcUnlock _ _ | CnLock _ | CnUnlock _ _ => safe k (flush_step pcs t p c)
  | _ => True
  end.
Proof using HI Hk.
  intros Ht. destruct p eqn:Ep; try done; cbn [flush_step].
  - destruct (stage_here _ _ _ Ht eq_refl ltac:(done)) as [Hat _]. eapply get_compacted_safe; [done..|]. intros mt _ _ _. moves.
  - moves.
  - destruct should_start; moves.
  - destruct (stage_here _ _ _ Ht eq_refl ltac:(done)) as [Hat _]. eapply get_compacted_safe; [done..|]. intros mt _ _ _. moves.
  - moves.
  - destruct (may_move pcs (FlClaim g) (FlLock g)); moves.
  - moves.
  - moves.
  - moves.
  - moves.
  - rewrite u64_small by (pose proof (next_small _ _ _ Ht eq_refl); lia).
    eapply quiet; [exact HI|exact Ht| |done|cbn; by rewrite Z.add_simpl_r|done|done].
    pc_from (my_pc HI Ht); [|apply slot_lt]. rewrite Z.add_simpl_r. exact (pi_inc _ _ eq_refl).
  - destruct (pi_recycle _ _ (my_pc HI Ht) _ _ eq_refl) as (mt & E & Hs & _). unfold at_slot. rewrite E, bool_decide_true by done.
    cbn [assert_then]. moves.
  - moves.
  - moves.
  - moves.
  - destruct should_continue; moves.
Qed.

(** ** Transitions *)
Lemma no_branch g mt : core_mt c g = Some mt → mt_state mt ≠ MEMTABLE_STATE_COMPACTED → mt_state mt ≠ MEMTABLE_STATE_INCORPORATION_ASSIGNED →
  others pcs t (λ p', branch_of p' ≠ Some g).
Proof using HI.
  intros E H1 H2 t' p' _ Ep Eb. destruct (pi_branch _ _ (iv_pcs _ _ HI t' p' Ep) g Eb) as [(y & Ey & _ & Hy)|(y & Ey & _ & Hy)]; cbn in Ey; congruence.
Qed.
Lemma lookup_alone p : pcs !! t = Some p → lookup_mode p = WriteLocked →
  others pcs t (λ p', branch_of p' = None ∧ window_of p' = None ∧ loop_of p' = None).
Proof using HI.
  intros Ht Hm t' p' Hne E. enough (lookup_mode p' = Unlocked) by (by destruct p').
  apply (write_alone (lookup_mode <$> pcs) t t'); [apply (iv_lookup _ _ HI)| | |done]; rewrite list_lookup_fmap.
  - rewrite Ht. cbn. by rewrite Hm.
  - by rewrite E.
Qed.
Lemma incorporates_alone p : pcs !! t = Some p → incorporates p ≠ None → others pcs t (λ p', incorporates p' = None).
Proof using HI.
  intros Ht Hp t' p' Hne E. destruct (incorporates p') eqn:Ei; [|done]. destruct Hne. apply (iv_inc _ _ HI t' t p' p); [done|done|by rewrite Ei|done].
Qed.
Lemma ring_inc : 0 ≤ mc_generation_to_incorporate c ∧
  (mc_generation_to_incorporate c = retired c + 1 ∨ mc_generation_to_incorporate c = retired c).
Proof using HI. by destruct (my_ring HI). Qed.
Lemma stage_lt p st g : pcs !! t = Some p → stage_of p = Some (st, g) → current_of p = None → 0 ≤ g < mc_generation c.
Proof using HI.
  intros Ht Es Ec. destruct (pi_below _ _ (my_pc HI Ht) _ _ Es) as [H1 H2]. rewrite Ec in H2. split; [lia|by apply H2].
Qed.

(** The common part: [FlCompact], [FlPacked], [FlLocked], [FlIncorporating]. *)
Lemma own_transition p q g st0 st1 mt : pcs !! t = Some p → core_mt c g = Some mt → mt_generation mt = g → mt_state mt = st0 →
  stage_of p = Some (st0, g) → stage_of q = Some (st1, g) → st0 ≠ MEMTABLE_STATE_INCORPORATED ∧ st1 ≠ st0 ∧ st1 ≠ MEMTABLE_STATE_FINALIZED →
  st0 ≠ MEMTABLE_STATE_READY → (late st0 → late st1) →
  state_fits (mc_generation c) (retired c) (with_state st1 mt) →
  others pcs t (λ p', branch_of p' ≠ Some g) →
  incorporates q = incorporates p → (∀ h, incorporates p ≠ Some (h, true)) → recycles p = None ∧ recycles q = None →
  (∀ j, j ≠ slot g → weight j q = weight j p) → weight (slot g) q = weight (slot g) p + Z.b2z (bool_decide (st1 = MEMTABLE_STATE_INCORPORATED)) →
  current_of p = None → current_of q = None → ready_of q = [] → held_of q = [] → window_of q = None → loop_of q = None →
  branch_of q = None →
  safe k (goto pcs t p q (set_mt (slot g) (with_state st1 mt) c)).
Proof using HI.
  intros Ht E Hg Hs Ep Eq (Hn1 & Hn2 & Hn3) Hnr Hl Hf Hb Ei Hh [Hr1 Hr2] Hw1 Hw2 Hcp Hc Hr He Hwn Hlo Hbr.
  apply (transition_step k c pcs HI t p q Ht g st0 st1 mt (mc_generation_to_incorporate c) E Hg Hs). intros _. split; try done.
  - by left.
  - apply ring_inc.
  - by left.
  - intros t' p' Hne Et Eb. by destruct (Hb t' p' Hne Et).
  - rewrite Ei. by left.
  - eapply brought_pc; try done; [by eapply stage_lt|]. rewrite Ei. apply (pi_inc _ _ (my_pc HI Ht)).
Qed.
Lemma flush_transitions p : pcs !! t = Some p →
  match p with FlCompact _ | FlPacked _ | FlLocked _ | FlIncorporating _ => safe k (flush_step pcs t p c) | _ => True end.
Proof using HI.
  intros Ht. destruct p eqn:Ep; try done; cbn [flush_step]; destruct (stage_here _ _ _ Ht eq_refl ltac:(done)) as [(mt & E & Hg & Hs) _];
    pose proof (stage_lt _ _ _ Ht eq_refl eq_refl) as Hlt; pose proof (rg_states _ _ (my_ring HI) _ _ E) as Hf; unfold state_fits in Hf; rewrite Hs in Hf;
    unfold core_get_memtable, at_slot; fold (core_mt c g); rewrite E, ?Hg, ?Z.eqb_refl; cbn [get_then]; rewrite (transition_ret mt _ _ Hs); cbn [get_then].
  - eapply own_transition; try done.
    + unfold state_fits. cbn. lia.
    + eapply no_branch; [done|by rewrite Hs..].
  - eapply own_transition; try done. eapply no_branch; [done|by rewrite Hs..].
  - eapply own_transition; try done. intros t' p' Hne Et. by destruct (lookup_alone _ Ht eq_refl t' p' Hne Et) as [-> _].
  - eapply own_transition; try done.
    + unfold state_fits. cbn. lia.
    + eapply no_branch; [done|by rewrite Hs..].
    + intros j Hj. unfold weight. cbn [owns]. by rewrite bool_decide_false by congruence.
    + unfold weight. cbn [owns held_of]. rewrite bool_decide_true by done. done.
Qed.

(** ** Whose turn it is *)
Lemma incorporates_stage p g : incorporates p = Some (g, false) →
  ∃ st, stage_of p = Some (st, g) ∧ st ≠ MEMTABLE_STATE_COMPACTED.
Proof.
  destruct p; cbn; try done; repeat case_match; try done; try (by destruct k0); intros [= <-]; by eexists.
Qed.
Lemma turn_free g mt : core_mt c g = Some mt → mt_generation mt = g → mt_state mt = MEMTABLE_STATE_COMPACTED →
  g = mc_generation_to_incorporate c → others pcs t (λ p', incorporates p' = None).
Proof using HI.
  intros E Hg Hs Hinc t' p' _ Ep. destruct (incorporates p') as [[h b]|] eqn:Ei; [exfalso|done].
  assert (Hp : pc_inv c p') by by apply (iv_pcs _ _ HI t'). destruct (pi_inc _ _ Hp h b Ei) as [Eh Er].
  pose proof (rg_states _ _ (my_ring HI) _ _ E) as Hf. unfold state_fits in Hf. rewrite Hs in Hf. destruct b; [lia|].
  destruct (incorporates_stage p' h Ei) as (st & Est & Hne). destruct (pi_stage _ _ Hp st h Est Hne) as (y & Ey & _ & Hy).
  replace h with g in Ey by congruence. congruence.
Qed.
(** [p] takes the turn of [g]. *)
Lemma take_turn p q g mt : pcs !! t = Some p → core_mt c g = Some mt → mt_generation mt = g → mt_state mt = MEMTABLE_STATE_COMPACTED →
  stage_of p = Some (MEMTABLE_STATE_COMPACTED, g) ∧ mc_generation_to_incorporate c = g ∨
    stage_of p = None ∧ incorporates p = Some (g - 1, true) →
  q = FlStarted g true ∨ q = CnUnlock g true → recycles p = None → (∀ j, weight j p = 0) →
  safe k (goto pcs t p q (changed c (slot g) (with_state MEMTABLE_STATE_INCORPORATION_ASSIGNED mt) g (mc_tasks c))).
Proof using HI.
  intros Ht E Hg Hs Hp Hq Hr Hw. pose proof (rg_states _ _ (my_ring HI) _ _ E) as Hf. unfold state_fits in Hf. rewrite Hs in Hf.
  assert (Eq : stage_of q = Some (MEMTABLE_STATE_INCORPORATION_ASSIGNED, g) ∧ incorporates q = Some (g, false) ∧ recycles q = None ∧ ∀ j, weight j q = 0)
    by by destruct Hq as [-> | ->].
  destruct Eq as (Eq & Ei & Er & Ew). destruct (rg_slots _ _ (my_ring HI) _ _ E) as (_ & H0 & _).
  assert (HR : g = retired c + 1).
  { destruct Hp as [[_ Hinc]|[_ Hi]]; [|destruct (pi_inc _ _ (my_pc HI Ht) _ _ Hi); lia]. pose proof ring_inc. lia. }
  assert (Hoth : others pcs t (λ p', incorporates p' = None)).
  { destruct Hp as [[_ Hinc]|[_ Hi]]; [by eapply turn_free|]. apply (incorporates_alone p); [done|]. by rewrite Hi. }
  apply (transition_step k c pcs HI t p q Ht g MEMTABLE_STATE_COMPACTED MEMTABLE_STATE_INCORPORATION_ASSIGNED mt g E Hg Hs).
  intros _. split; try done; try lia.
  - destruct Hp as [[Ep _]|[Ep _]]; [by left|right; split; [done|by right]].
  - destruct Hp as [[_ <-]|_]; [by left|by right].
  - by right.
  - intros j _. by rewrite Hw, Ew.
  - by rewrite Hw, Ew.
  - eapply brought_pc; try done; try (by destruct Hq as [-> | ->]); [lia|]. intros h b Eh. rewrite Ei in Eh. injection Eh as <- <-. split; [done|lia].
Qed.
Lemma try_safe g : pcs !! t = Some (FlTry g) → safe k (flush_step pcs t (FlTry g) c).
Proof using HI.
  intros Ht. destruct (ring_slot k c (my_ring HI) g) as (mt & E & Hsl). cbn [flush_step]. unfold core_try_get_memtable. rewrite E. cbn [mbind option_bind].
  assert (Hleave : (mt_state mt = MEMTABLE_STATE_COMPACTED → mc_generation_to_incorporate c ≠ mt_generation mt ∨ mt_generation mt ≠ g) →
    safe k (goto pcs t (FlTry g) (FlStarted g false) c)).
  { intros Hno. rewrite <-(changed_same c (slot g) mt E) at 1. apply (leave_step k c pcs HI t _ _ Ht g mt _ E). intros _. split; try done.
    - by left.
    - intros Hs. destruct (Hno Hs); [by left|by right].
    - apply ring_inc.
    - by left.
    - rewrite (changed_same c (slot g) mt E). pc_from (my_pc HI Ht). }
  destruct (Z.eqb_spec (mt_generation mt) g) as [Hg|Hg]; [|by apply Hleave; right].
  destruct (Z.eqb_spec g (mc_generation_to_incorporate c)) as [Hi|Hi]; cbn [negb]; [|apply Hleave; left; lia].
  unfold memtable_try_transition. case_bool_decide as Hs; cbn [get_then fst snd].
  - change (set_mt (slot g) (with_state MEMTABLE_STATE_INCORPORATION_ASSIGNED mt) c) with
      (changed c (slot g) (with_state MEMTABLE_STATE_INCORPORATION_ASSIGNED mt) (mc_generation_to_incorporate c) (mc_tasks c)).
    rewrite <-Hi. apply take_turn; try done; [by left|by left].
  - rewrite bool_decide_true by done. cbn [get_then fst snd].
    change (set_mt (slot g) mt c) with (changed c (slot g) mt (mc_generation_to_incorporate c) (mc_tasks c)).
    rewrite (changed_same c (slot g) mt E). by apply Hleave.
Qed.
Lemma continue_safe g : pcs !! t = Some (CnTry g) → safe k (flush_step pcs t (CnTry g) c).
Proof using HI Hk.
  intros Ht. destruct (pi_inc _ _ (my_pc HI Ht) _ _ eq_refl) as [Hinc HR]. cbn [flush_step].
  pose proof (next_small _ _ _ Ht eq_refl) as Hsm. pose proof (my_ring HI) as HRi.
  destruct (ring_live k c HRi g) as (mt & E & Hg); [destruct HRi; lia|]. unfold core_try_get_memtable. rewrite E. cbn [mbind option_bind].
  rewrite Hg, Z.eqb_refl, Hinc. replace (g - 1 + 1) with g by lia. rewrite (u64_small g) by (destruct HRi; lia). rewrite Z.eqb_refl. cbn [assert_then].
  assert (Ec : ∀ x, advance_to_incorporate (set_mt (slot g) x c) = changed c (slot g) x g (mc_tasks c)).
  { intros x. unfold advance_to_incorporate, changed. cbn. rewrite Hinc. f_equal. rewrite Z.sub_add. apply u64_small. destruct HRi. lia. }
  unfold memtable_try_transition. case_bool_decide as Hs; [|rewrite bool_decide_true by done]; cbn [get_then fst snd]; rewrite Ec.
  - apply take_turn; try done; [by right|by right].
  - apply (leave_step k c pcs HI t _ _ Ht g mt _ E). intros _. split; try done.
    + by right.
    + destruct HRi. split; [lia|left; lia].
    + right. split; [done|]. by apply (incorporates_alone (CnTry g)).
    + lia.
    + pose proof (my_pc HI Ht) as []. split; pc_simpl; intros; simplify_eq; try done; elems.
Qed.

(** ** Retiring *)
Section retire.
Context (g : Z) (Ht : pcs !! t = Some (FlRetire g)).
Let c' : memtable_context := advance_retired c.
Lemma retire_facts : retired c = g - 1 ∧ mc_generation_to_incorporate c = g ∧ 0 ≤ g < mc_generation c ∧ g < 2 ^ 62 ∧
  gen_at c g MEMTABLE_STATE_INCORPORATED ∧ mc_generation_retired c' = u64 g ∧ retired c' = g.
Proof using HI Hk Ht.
  destruct (pi_inc _ _ (my_pc HI Ht) _ _ eq_refl) as [Hi Hr]. pose proof (next_small _ _ _ Ht eq_refl) as Hs.
  pose proof (stage_lt _ _ _ Ht eq_refl eq_refl) as Hlt.
  assert (Hn : mc_generation_retired c' = u64 g).
  { cbn. rewrite (rg_retired_u64 _ _ (my_ring HI)), Hr. unfold u64. rewrite Zplus_mod_idemp_l. f_equal. lia. }
  split_and!; try lia; [exact (proj1 (stage_here _ _ _ Ht eq_refl ltac:(done)))|].
  unfold retired. rewrite Hn, u64_small by lia. apply i64_small. lia.
Qed.
Lemma retire_ring : ring_ok (k + 1) c'.
Proof using HI Hk Ht.
  destruct retire_facts as (HR & Hi & Hlt & Hs & (x & Ex & Hx & Hxs) & Hn & HR'). pose proof (my_ring HI) as [].
  split; try done; rewrite ?HR'; try done; try (cbn; lia).
  - intros i mt E. destruct (rg_slots i mt E) as (H1 & H2 & H3). split_and!; [done..| |]; cbn; lia.
  - intros i mt E. change (mc_mt c !! i = Some mt) in E. pose proof (rg_states i mt E) as Hf. unfold state_fits in *. cbn [c' advance_retired mc_generation].
    destruct (rg_slots i mt E) as (Hsl & _). unfold core_mt in Ex.
    assert (mt_state mt ≠ MEMTABLE_STATE_INCORPORATED → mt_generation mt ≠ g) by (intros Hne Eg; rewrite <-Eg, Hsl in Ex; congruence).
    destruct (mt_state mt) eqn:Es; try done; try lia; specialize (H ltac:(done)); lia.
Qed.
Lemma retire_safe : safe k (flush_step pcs t (FlRetire g) c).
Proof using HI Hk Ht.
  pose proof retire_ring as HR'. destruct retire_facts as (HR & Hi & Hlt & Hs & (x & Ex & Hx & Hxs) & Hn & Hr').
  pose proof (lookup_alone _ Ht eq_refl) as Hlone. pose proof (incorporates_alone _ Ht ltac:(done)) as Hione.
  pose proof HI as [_ Hpcs _ _ _ Htask _ _ Hown Hnext Hrefs]. cbn in Hpcs, Htask, Hown, Hnext, Hrefs.
  cbn [flush_step]. change (u64 (mc_generation_retired c + 1)) with (mc_generation_retired c'). rewrite Hn, u64_small, Z.eqb_refl by lia.
  cbn [assert_then]. apply goto_safe. intros Hmove. fold c'. apply (inv_intro k c pcs HI t (FlRetire g)); try done.
  - pose proof (my_pc HI Ht) as []. split; pc_simpl; intros; simplify_eq; try done; elems.
  - intros t' p' Hne E. destruct (Hlone t' p' Hne E) as (_ & Hw & Hl). pose proof (Hione t' p' Hne E) as Hni.
    destruct (Hpcs t' p' E). split; try done; try (intros; congruence).
    intros i r Er. destruct (pi_recycle i r Er) as (y & Ey & Hst & Hf). exists y. split; [done|]. split; [done|].
    rewrite Hr'. destruct r; [lia..|done].
  - intros t' p' Hne E h Es. by apply (Htask t' p').
  - intros _. by left.
  - intros i mt E. change (mc_mt c !! i = Some mt) in E. pose proof (Hown i mt E) as Ho. unfold owned in *.
    assert (Hkeep : ∀ st h, at_stage pcs st h → h ≠ g → at_stage (<[t := FlUnlock g]> pcs) st h).
    { intros st h Ha Hne. eapply at_stage_keep; [done..|]. intros [= _ ->]. done. }
    destruct (rg_slots _ _ (my_ring HI) i mt E) as [Hsl _]. unfold core_mt in Ex.
    assert (Hne : mt_state mt ≠ MEMTABLE_STATE_INCORPORATED → mt_generation mt ≠ g) by (intros Hne Eg; rewrite <-Eg, Hsl in Ex; congruence).
    rewrite Hr'. destruct (mt_state mt) eqn:Es; try done; try (apply Hkeep; [done|by apply Hne]).
    + destruct Ho as [?|Ha]; [by left|right; apply Hkeep; [done|by apply Hne]].
    + intros E1. apply Hkeep; [by apply Ho|by apply Hne].
    + destruct Ho as [?|[Ha|(Hg & t' & p' & Et & Ep)]]; [left; lia| |].
      * destruct (decide (mt_generation mt = g)); [left; lia|right; left; by apply Hkeep].
      * right; right. split; [done|]. exists t', p'. split; [|done]. apply pcs_other; [|done]. intros ->. rewrite Ht in Et. by injection Et as <-.
  - intros _. exists t, (FlUnlock g), g. split; [by eapply pcs_q|done].
  - intros i mt E. rewrite (Hrefs i mt E). change (weight i (FlUnlock g)) with (weight i (FlRetire g)). lia.
Qed.
End retire.
End flush.
