(* ===== verification/MemtableRecycle.v ===== *)
(** * Steps that keep the invariant: references, recycling and lookups

    memtable_dec_ref_maybe_recycle, and the loops of core_lookup and of
    core_range_iterator_init over the memtables. *)
From S2P Require Import Prelude BatchRwlock Memtable MemtableInv MemtableFrame MemtableInsert MemtableFlush.

(** ** A change of the references of a memtable *)
Section references.
Context (k : Z) (c : memtable_context) (pcs : list thread_pc) (HI : inv k (mk_system c pcs)).
Context (t : nat) (p q : thread_pc) (Ht : pcs !! t = Some p).
Context (i : nat) (mt : memtable) (refs : Z) (Emt : mc_mt c !! i = Some mt).
Definition recounted : memtable_context := set_mt i (with_refs refs mt) c.
Record recount_ok : Prop := {
  rr_stage : stage_of q = None ∧ stage_of p = None;
  rr_inc : incorporates q = incorporates p;
  rr_alone : others pcs t (λ p', ∀ r, recycles p' ≠ Some (i, r));
  rr_q : recycles q = None ∨ ∃ r, recycles q = Some (i, r);
  rr_p : recycles p = None ∨ recycles p = Some (i, NoTree);
  rr_weight : ∀ j, j ≠ i → weight j q = weight j p;
  rr_refs : refs - mt_refs mt = weight i q - weight i p;
  rr_pc : pc_inv recounted q;
}.
Lemma recount_owned : recount_ok → owned recounted (<[t := q]> pcs) i (with_refs refs mt).
Proof using HI Ht Emt.
  intros [[Eq Ep] _ _ _ Hrp _ _ _]. pose proof (iv_owned _ _ HI i mt Emt) as Ho. unfold owned in *. cbn in Ho. cbn.
  assert (Hkeep : ∀ st h, at_stage pcs st h → at_stage (<[t := q]> pcs) st h).
  { intros st h Ha. apply (at_stage_keep pcs t p q Ht); [done|]. by rewrite Ep. }
  destruct (mt_state mt) eqn:Es; try done; try (by apply Hkeep).
  - destruct Ho as [?|Ha]; [by left|right; by apply Hkeep].
  - intros E. by apply Hkeep, Ho.
  - destruct Ho as [?|[Ha|(Hlt & t' & p' & Et & Er)]]; [by left|right; left; by apply Hkeep|]. right; right. split; [done|].
    exists t', p'. split; [|done]. apply pcs_other; [|done]. intros ->. destruct Hrp; congruence.
Qed.
Lemma recount_step : (may_move pcs p q = true → recount_ok) → safe k (goto pcs t p q recounted).
Proof using All.
  intros Hmove. apply (slot_safe k c pcs t p q i mt (with_refs refs mt) (mc_generation_to_incorporate c) (mc_tasks c)); [done..|].
  intros Hok%Hmove. pose proof (recount_owned Hok). pose proof Hok as [[] ? ? ? Hrp ? ? ?]. pose proof (my_ring HI) as [].
  split; try done; try (by left); try (intros; congruence).
  - by apply (rg_states i mt).
  - intros h Hh. destruct (rg_tasks h Hh). split; [|done]. by apply (gen_at_changed k c pcs HI i mt).
  - intros t' p' Hne E _. split; try by (intros; first [done|by left|by right]).
    intros r Er. by destruct (rr_alone0 t' p' Hne E r).
  - rewrite rr_inc0. auto.
  - intros j r Er. destruct rr_q0 as [?|[r' E]]; [congruence|]. replace j with i by congruence. by right.
  - intros j Ej. destruct Hrp; congruence.
  - intros E. right. split; [done|]. by rewrite rr_inc0.
  - cbn. lia.
Qed.
End references.

Section recycling.
Context (k : Z) (c : memtable_context) (pcs : list thread_pc) (HI : inv k (mk_system c pcs)) (Hk : 0 ≤ k < 2 ^ 62).
Context (t : nat).
Lemma refs_at i mt : mc_mt c !! i = Some mt →
  mt_refs mt = Z.b2z (negb (bool_decide (mt_state mt = MEMTABLE_STATE_INCORPORATED))) + total i pcs.
Proof using HI. apply (iv_refs _ _ HI). Qed.
(** A thread with a reference, or that recycles, is the only one that recycles. *)
Lemma recycle_alone p i : pcs !! t = Some p → 1 ≤ weight i p ∨ recycles p ≠ None ∧ (∀ r, recycles p = Some r → r.1 = i) →
  others pcs t (λ p', ∀ r, recycles p' ≠ Some (i, r)).
Proof using HI.
  intros Ht Hp t' p' Hne E r Er. destruct Hp as [Hw|[Hn Hi]].
  - assert (Hp' : pc_inv c p') by by apply (iv_pcs _ _ HI t'). destruct (pi_recycle _ _ Hp' i r Er) as (mt & Em & Hst & Hf).
    pose proof (refs_at i mt Em) as Hr. rewrite bool_decide_true in Hr by done. cbn in Hr.
    pose proof (total_two i pcs t t' p p' ltac:(congruence) Ht E) as Htw. pose proof (weight_nonneg i p').
    assert (Hw' : r = NoTree ∨ 1 ≤ weight i p').
    { destruct p'; try done; cbn in Er; injection Er as -> <-; try (by left); right; unfold weight; cbn [owns held_of];
        rewrite bool_decide_true by done; cbn [Z.b2z]; pose proof (lengthZ_nonneg (filter (λ g, slot g = i) (after_held k0))); lia. }
    destruct r; cbn in Hf; destruct Hw'; try done; lia.
  - destruct (recycles p) as [[j r']|] eqn:Ep; [|done]. specialize (Hi _ eq_refl). cbn in Hi. subst j.
    apply Hne. by apply (iv_recycle _ _ HI t' t p' p i r r').
Qed.
(** ... and the last reference is to a memtable that is incorporated and retired. *)
Lemma last_reference p i mt : pcs !! t = Some p → mc_mt c !! i = Some mt → 1 ≤ weight i p → mt_refs mt = 1 →
  stage_of p = None → recycles p = None →
  mt_state mt = MEMTABLE_STATE_INCORPORATED ∧ mt_generation mt ≤ retired c.
Proof using HI.
  intros Ht E Hw Hr Est Erp. pose proof (refs_at i mt E) as Ht1. pose proof (total_one i pcs t p Ht).
  destruct (decide (mt_state mt = MEMTABLE_STATE_INCORPORATED)) as [Hs|Hs]; [|rewrite bool_decide_false in Ht1 by done; cbn in Ht1; lia].
  split; [done|]. pose proof (iv_owned _ _ HI i mt E) as Ho. unfold owned in Ho. rewrite Hs in Ho, Ht1. cbn in Ho.
  rewrite bool_decide_true in Ht1 by done. cbn in Ht1.
  assert (Hothers : others pcs t (λ p', weight i p' = 0)).
  { intros t' p' Hne Ep. pose proof (total_two i pcs t t' p p' ltac:(congruence) Ht Ep). pose proof (weight_nonneg i p'). lia. }
  destruct Ho as [?|[(t' & p' & Ep & Es)|(_ & t' & p' & Ep & Er)]]; [done|exfalso..].
  - destruct (decide (t' = t)) as [->|Hne]; [congruence|]. pose proof (Hothers t' p' Hne Ep) as H0.
    assert (p' = FlRetire (mt_generation mt)) as -> by (destruct p'; cbn in Es; try done; try case_match; try done; congruence).
    unfold weight in H0. cbn [owns held_of] in H0. rewrite (proj1 (rg_slots _ _ (my_ring HI) i mt E)), bool_decide_true in H0 by done. done.
  - destruct (decide (t' = t)) as [->|Hne]; [congruence|]. by apply (recycle_alone p i Ht (or_introl Hw) t' p' Hne Ep NewGeneration).
Qed.
Lemma go_on_same i k0 : stage_of (go_on k0) = None ∧ incorporates (go_on k0) = after_generation k0 ∧ recycles (go_on k0) = None ∧
  weight i (go_on k0) = lengthZ (filter (λ g, slot g = i) (after_held k0)).
Proof. by destruct k0. Qed.
Lemma weight_rc i j (p : thread_pc) k0 : p = RcDec j k0 ∨ p = RcLock j k0 ∨ p = RcGen j k0 ∨ p = RcUnlock j k0 ∨ p = RcReady j k0 →
  weight i p = Z.b2z (bool_decide (j = i)) + weight i (go_on k0).
Proof. intros H. rewrite (proj2 (proj2 (proj2 (go_on_same i k0)))). by destruct H as [->|[->|[->|[->| ->]]]]. Qed.
Lemma weight_rc_none i j (p : thread_pc) k0 : p = RcCheck j k0 ∨ p = RcCreate j k0 → weight i p = weight i (go_on k0).
Proof. intros H. rewrite (proj2 (proj2 (proj2 (go_on_same i k0)))). by destruct H as [-> | ->]. Qed.

(** What the thread goes on to afterwards. *)
Definition goes_on (p : thread_pc) (k0 : after_dec) : Prop :=
  stage_of p = None ∧ incorporates p = after_generation k0 ∧ held_of p = after_held k0 ∧ current_of p = None ∧ ready_of p = [] ∧
  window_of p = None ∧ loop_of p = None ∧ branch_of p = None ∧ plain p = false ∧ ∀ j l, p ≠ RcDec j l.
Lemma pc_goes_on c' q p k0 : goes_on q k0 → pc_inv c p → incorporates p = after_generation k0 → held_of p = after_held k0 →
  mc_generation_to_incorporate c' = mc_generation_to_incorporate c → retired c' = retired c →
  (∀ g, g ∈ after_held k0 → gen_here c g → gen_here c' g) →
  (∀ i r, recycles q = Some (i, r) → ∃ mt, mc_mt c' !! i = Some mt ∧ rc_fits c' r mt) → pc_inv c' q.
Proof.
  intros (E1 & E2 & E3 & E4 & E5 & E6 & E7 & E8 & E9 & E10) [] Ei Eh Einc Er Hh Hrec. split; try (intros; congruence); try done.
  - rewrite E5. by intros g ?%not_elem_of_nil.
  - intros g b. rewrite E2, Einc, Er, <-Ei. apply pi_inc.
  - intros g. rewrite E3. intros Hg. apply Hh; [done|]. apply pi_held. by rewrite Eh.
Qed.
Lemma here_recounted i mt refs g : mc_mt c !! i = Some mt → gen_here c g → gen_here (recounted c i mt refs) g.
Proof using HI. intros E. by apply (gen_here_changed k c pcs HI i mt). Qed.
Lemma recounted_eq i mt refs : mc_mt c !! i = Some mt → mc_mt (recounted c i mt refs) !! i = Some (with_refs refs mt).
Proof. intros E. apply (changed_eq c i mt (with_refs refs mt) E (mc_generation_to_incorporate c) (mc_tasks c)). Qed.

Lemma dec_safe i k0 : pcs !! t = Some (RcDec i k0) → safe k (flush_step pcs t (RcDec i k0) c).
Proof using HI.
  intros Ht. pose proof (my_pc HI Ht) as Hp. destruct (ring_some k c (my_ring HI) i (pi_slot _ _ Hp i k0 eq_refl)) as (mt & E).
  cbn [flush_step]. unfold at_slot. rewrite E.
  assert (Hw : ∀ j, weight j (RcDec i k0) = Z.b2z (bool_decide (i = j)) + weight j (go_on k0)) by (intros j; apply (weight_rc j i); auto).
  assert (Hwi : 1 ≤ weight i (RcDec i k0)).
  { rewrite Hw, bool_decide_true by done. pose proof (weight_nonneg i (go_on k0)). cbn [Z.b2z]. lia. }
  assert (Hwj : ∀ j, j ≠ i → weight j (RcDec i k0) = weight j (go_on k0)) by (intros j Hj; rewrite Hw, bool_decide_false by congruence; done).
  destruct (Z.eqb_spec (mt_refs mt - 1) 0) as [H0|H0].
  - destruct (last_reference _ i mt Ht E Hwi ltac:(lia) eq_refl eq_refl) as [Hs Hg].
    apply (recount_step k c pcs HI t _ _ Ht i mt (mt_refs mt - 1) E). intros _. split; try done.
    + by apply (recycle_alone (RcDec i k0)); [|left].
    + right. by exists NoTree.
    + by left.
    + intros j Hj. by rewrite (Hwj j Hj), (weight_rc_none j i _ k0 (or_introl eq_refl)).
    + rewrite Hw, bool_decide_true, (weight_rc_none i i _ k0 (or_introl eq_refl)) by done. cbn [Z.b2z]. lia.
    + eapply pc_goes_on; [|exact Hp|..]; try done; [by intros g _; apply here_recounted|].
      intros j r [= <- <-]. exists (with_refs (mt_refs mt - 1) mt). split; [by apply recounted_eq|]. split; [done|]. by split.
  - destruct (go_on_same i k0) as (G1 & G2 & G3 & G4). apply (recount_step k c pcs HI t _ _ Ht i mt (mt_refs mt - 1) E). intros _. split; try done.
    + by apply (recycle_alone (RcDec i k0)); [|left].
    + by left.
    + by left.
    + intros j Hj. by rewrite (Hwj j Hj).
    + rewrite Hw, bool_decide_true by done. cbn [Z.b2z]. lia.
    + eapply pc_goes_on; [|exact Hp|..]; try done; [by destruct k0|by intros g _; apply here_recounted|].
      intros j r. by rewrite G3.
Qed.
Lemma create_safe i k0 : pcs !! t = Some (RcCreate i k0) → safe k (flush_step pcs t (RcCreate i k0) c).
Proof using HI.
  intros Ht. pose proof (my_pc HI Ht) as Hp. destruct (pi_recycle _ _ Hp i NoTree eq_refl) as (mt & E & Hs & Hr & Hg).
  cbn [flush_step]. unfold at_slot. rewrite E. assert (Hw : ∀ j, weight j (RcCreate i k0) = weight j (go_on k0)) by (intros j; eapply weight_rc_none; by right).
  assert (Hw' : ∀ j, weight j (RcLock i k0) = Z.b2z (bool_decide (i = j)) + weight j (go_on k0)) by (intros j; apply (weight_rc j i); auto).
  apply (recount_step k c pcs HI t _ _ Ht i mt 1 E). intros _. split; try done.
  - apply (recycle_alone (RcCreate i k0)); [done|]. right. split; [done|]. by intros r [= <-].
  - right. by exists NewTree.
  - by right.
  - intros j Hj. by rewrite Hw, Hw', bool_decide_false by congruence.
  - rewrite Hw, Hw', bool_decide_true by done. cbn [Z.b2z]. lia.
  - eapply pc_goes_on; [|exact Hp|..]; try done; [by intros g _; apply here_recounted|].
    intros j r [= <- <-]. exists (with_refs 1 mt). split; [by apply recounted_eq|]. split; [done|]. by split.
Qed.

Lemma no_stage p' t' mt i st : pcs !! t' = Some p' → mc_mt c !! i = Some mt → mc_generation c < mt_generation mt →
  stage_of p' ≠ Some (st, mt_generation mt).
Proof using HI.
  intros Et E Hlt Es. assert (Hp' : pc_inv c p') by by apply (iv_pcs _ _ HI t'). destruct (pi_below _ _ Hp' _ _ Es). lia.
Qed.
Lemma ready_safe i k0 : pcs !! t = Some (RcReady i k0) → safe k (flush_step pcs t (RcReady i k0) c).
Proof using HI.
  intros Ht. pose proof (my_pc HI Ht) as Hp. destruct (pi_recycle _ _ Hp i NewGeneration eq_refl) as (mt & E & Hs & Hr & Hg).
  cbn [flush_step]. unfold at_slot. rewrite E, (transition_ret mt _ _ Hs). cbn [get_then].
  assert (Hw : ∀ j, weight j (RcReady i k0) = Z.b2z (bool_decide (i = j)) + weight j (go_on k0)) by (intros j; apply (weight_rc j i); do 4 right; done).
  destruct (go_on_same i k0) as (G1 & G2 & G3 & G4). pose proof (my_ring HI) as [].
  apply (slot_safe k c pcs t _ (go_on k0) i mt (with_state MEMTABLE_STATE_READY mt) (mc_generation_to_incorporate c) (mc_tasks c)); [done..|].
  intros _. split; try done; try (by left); try (intros; congruence).
  - unfold state_fits. cbn. lia.
  - intros h Hh. destruct (rg_tasks h Hh). split; [|done]. apply (gen_at_changed k c pcs HI i mt); [done..|]. congruence.
  - eapply pc_goes_on; [|exact Hp|..]; try done; [by destruct k0| |intros j r; by rewrite G3].
    intros g _. by apply (gen_here_changed k c pcs HI i mt).
  - intros t' p' Hne Et Hp'. split.
    + congruence.
    + intros Es. by apply (no_stage p' t' mt i) in Es.
    + intros _. by right.
    + intros Eb. exfalso. pose proof (proj1 (rg_slots i mt E)) as Hsl.
      destruct (pi_branch _ _ Hp' _ Eb) as [(x & Ex & _ & Hx)|(x & Ex & _ & Hx)]; unfold core_mt in Ex; rewrite Hsl in Ex; congruence.
    + intros r Er. exfalso. apply (recycle_alone (RcReady i k0) i Ht) with (p' := p') (r := r) (t' := t'); try done.
      right. split; [done|]. by intros r' [= <-].
    + done.
  - rewrite G2. by left.
  - intros j [= <-]. by right.
  - intros E0. right. split; [done|]. by rewrite G2.
  - intros j Hj. by rewrite Hw, bool_decide_false by congruence.
  - rewrite Hw, (bool_decide_true (i = i)), Hs by done. change (mt_refs (with_state _ mt)) with (mt_refs mt). cbn [with_state mt_state].
    rewrite (bool_decide_false (MEMTABLE_STATE_READY = _)), (bool_decide_true (MEMTABLE_STATE_INCORPORATED = _)) by done. cbn [Z.b2z negb]. lia.
Qed.

(** The generation of the recycled memtable is the fourth after its old one. *)
Section generation.
Context (i : nat) (k0 : after_dec) (Ht : pcs !! t = Some (RcGen i k0)) (mt : memtable) (E : mc_mt c !! i = Some mt)
  (Hs : mt_state mt = MEMTABLE_STATE_INCORPORATED) (Hr : mt_refs mt = 1) (Hg : mt_generation mt ≤ retired c).
Let mt' : memtable := with_generation (mt_generation mt + 4) mt.
Let c' : memtable_context := set_mt i mt' c.
Lemma generation_case j x : mc_mt c' !! j = Some x → j = i ∧ x = mt' ∨ j ≠ i ∧ mc_mt c !! j = Some x.
Proof. cbn. intros [(<- & <- & _)|[? ?]]%list_lookup_insert_Some; [by left|right; by split]. Qed.
Lemma generation_ne j x : j ≠ i → mc_mt c !! j = Some x → mc_mt c' !! j = Some x.
Proof. intros Hne Ex. cbn. by rewrite list_lookup_insert_ne. Qed.
Lemma generation_bounds : mc_generation c < mt_generation mt + 4 ≤ retired c + 4 ∧ slot (mt_generation mt) = i ∧ 0 ≤ mt_generation mt.
Proof using HI E Hg. destruct (rg_slots _ _ (my_ring HI) i mt E) as (H1 & H2 & H3). split_and!; try done; lia. Qed.
Lemma generation_gen_at g st : gen_at c g st → st ≠ MEMTABLE_STATE_INCORPORATED → gen_at c' g st.
Proof using E Hs. intros (x & Ex & Hx & Hxs) Hne. exists x. split; [|done]. apply generation_ne; [|done]. unfold core_mt in Ex. intros Ei. congruence. Qed.
Lemma generation_ring : ring_ok (k + 1) c'.
Proof using HI E Hs Hg.
  destruct generation_bounds as (H1 & H2 & H3). pose proof (my_ring HI) as []. split; try done.
  - cbn. by rewrite length_insert.
  - cbn. lia.
  - intros j x [[-> ->]|[Hne Ex]]%generation_case; [|by apply rg_slots]. cbn [mt' with_generation mt_generation]. rewrite slot_add.
    split_and!; [done|lia| |]; change (retired c') with (retired c); change (mc_generation c') with (mc_generation c); lia.
  - intros j x [[-> ->]|[Hne Ex]]%generation_case; [|by apply (rg_states j)].
    unfold state_fits. cbn [mt' with_generation mt_state mt_generation]. rewrite Hs. change (mc_generation c') with (mc_generation c). lia.
  - intros g Hin. destruct (rg_tasks g Hin). split; [|done]. by apply generation_gen_at.
Qed.
Lemma generation_other p' t' : t' ≠ t → pcs !! t' = Some p' → weight i p' = 0.
Proof using HI Ht E Hs Hr.
  intros Hne Et. pose proof (refs_at i mt E) as Href. rewrite Hr, bool_decide_true in Href by done. cbn in Href.
  pose proof (total_two i pcs t t' _ p' ltac:(congruence) Ht Et) as Htw. rewrite (weight_rc i i _ k0), bool_decide_true in Htw by auto.
  cbn [Z.b2z] in Htw. pose proof (weight_nonneg i p'). pose proof (weight_nonneg i (go_on k0)). lia.
Qed.
Lemma generation_pc p' t' : t' ≠ t → pcs !! t' = Some p' → pc_inv c' p'.
Proof using HI Ht E Hs Hr Hg.
  intros Hne Et. pose proof (generation_other p' t' Hne Et) as Hw. destruct generation_bounds as (H1 & H2 & H3).
  assert (Hp' : pc_inv c p') by by apply (iv_pcs _ _ HI t'). pose proof Hp' as []. split; try done.
  - intros g Hin. by apply generation_gen_at; [apply pi_ready|].
  - intros st g Es Hne'. destruct (decide (st = MEMTABLE_STATE_INCORPORATED)) as [->|]; [|by apply generation_gen_at; [apply pi_stage|]].
    destruct (pi_stage _ _ Es Hne') as (x & Ex & Hx). exists x. split; [|done]. apply generation_ne; [|done]. intros Ei. unfold weight in Hw.
    assert (p' = FlRetire g) as -> by (destruct p'; cbn in Es; try done; try case_match; try done; congruence).
    cbn [owns held_of] in Hw. rewrite bool_decide_true in Hw by done. done.
  - intros g x Es Ex Hx. unfold core_mt in Ex. apply generation_case in Ex as [[Ei ->]|[Hnei Ex]]; [|by eapply pi_tried].
    destruct (pi_below _ _ Es). cbn in Hx. lia.
  - intros g Hin. destruct (pi_held g Hin) as (x & Ex & Hx). exists x. split; [|done]. apply generation_ne; [|done]. intros Ei.
    unfold weight in Hw. pose proof (owns_nonneg i p'). assert (Hf : g ∈ filter (λ h, slot h = i) (held_of p')) by by apply list_elem_of_filter.
    destruct (filter _ (held_of p')); [by apply not_elem_of_nil in Hf|]. unfold lengthZ in Hw. cbn [length] in Hw. lia.
  - intros g Eb. destruct (pi_branch g Eb); [left|right]; by apply generation_gen_at.
  - intros j r Er. destruct (pi_recycle j r Er) as (x & Ex & Hf). exists x. split; [|done]. apply generation_ne; [|done]. intros ->.
    apply (recycle_alone (RcGen i k0) i Ht) with (p' := p') (r := r) (t' := t'); try done. right. split; [done|]. by intros r' [= <-].
Qed.

Lemma generation_owned j x : mc_mt c' !! j = Some x → owned c' (<[t := RcUnlock i k0]> pcs) j x.
Proof using HI Ht E Hs Hr Hg.
  destruct generation_bounds as (H1 & H2 & H3). intros [[-> ->]|[Hne Ex]]%generation_case.
  - unfold owned. cbn [mt' with_generation mt_state mt_generation]. rewrite Hs. right; right. change (mc_generation c') with (mc_generation c).
    split; [lia|]. exists t, (RcUnlock i k0). split; [by eapply pcs_q|done].
  - pose proof (iv_owned _ _ HI j x Ex) as Ho. unfold owned in *. cbn in Ho.
    assert (Hkeep : ∀ st h, at_stage pcs st h → at_stage (<[t := RcUnlock i k0]> pcs) st h) by (intros; by eapply at_stage_keep).
    destruct (mt_state x); try done; try (by apply Hkeep).
    + destruct Ho as [?|Ha]; [by left|right; by apply Hkeep].
    + intros E1. by apply Hkeep, Ho.
    + destruct Ho as [?|[Ha|(Hlt & t' & p' & Et & Er)]]; [by left|right; left; by apply Hkeep|]. right; right. split; [done|].
      exists t', p'. split; [|done]. apply pcs_other; [|done]. intros ->. rewrite Ht in Et. by injection Et as <-.
Qed.
Lemma generation_safe : safe k (goto pcs t (RcGen i k0) (RcUnlock i k0) c').
Proof using HI Ht E Hs Hr Hg.
  pose proof generation_owned as Hown. pose proof generation_pc as Hpc. destruct generation_bounds as (H1 & H2 & H3).
  pose proof (my_pc HI Ht) as Hp. pose proof (iv_next _ _ HI) as Hnext. cbn in Hnext.
  apply goto_safe. intros Hmove. apply (inv_intro k c pcs HI t (RcGen i k0)); try done.
  - apply generation_ring.
  - assert (Heq : mc_mt c' !! i = Some mt') by (cbn; apply list_lookup_insert_eq; by eapply lookup_lt_Some).
    eapply pc_goes_on; [|exact Hp|..]; try done.
    + intros g Hin (x & Ex & Hx). destruct (decide (slot g = i)) as [Ei|Hne].
      * exfalso. pose proof (refs_at i mt E) as Href. rewrite Hr, bool_decide_true in Href by done. cbn [Z.b2z negb] in Href.
        pose proof (total_one i pcs t _ Ht) as Ht1. rewrite (weight_rc i i _ k0), bool_decide_true in Ht1 by auto. cbn [Z.b2z] in Ht1.
        rewrite (proj2 (proj2 (proj2 (go_on_same i k0)))) in Ht1.
        assert (Hf : g ∈ filter (λ h, slot h = i) (after_held k0)) by by apply list_elem_of_filter.
        destruct (filter _ (after_held k0)); [by apply not_elem_of_nil in Hf|]. unfold lengthZ in Ht1. cbn [length] in Ht1. lia.
      * exists x. split; [by apply generation_ne|done].
    + intros j r [= <- <-]. exists mt'. split; [done|]. split; [done|]. cbn. lia.
  - intros t' p' Hne Et. by eapply Hpc.
  - intros t' p' Hne Et g Es. by apply (iv_task _ _ HI t' p').
  - intros Hn. by left.
  - intros j r [= <- <-]. left. by exists NewTree.
  - intros E1. destruct (Hnext E1) as (t' & p' & g & Et & Ei). destruct (decide (t' = t)) as [->|Hne].
    + exists t, (RcUnlock i k0), g. split; [by eapply pcs_q|]. rewrite Ht in Et. by injection Et as <-.
    + exists t', p', g. split; [by apply pcs_other|done].
  - assert (Hw : ∀ j, weight j (RcUnlock i k0) = weight j (RcGen i k0)) by done.
    intros j x [[-> ->]|[Hne Ex]]%generation_case; rewrite Hw.
    + pose proof (refs_at i mt E). cbn [mt' with_generation mt_refs mt_state]. lia.
    + pose proof (refs_at j x Ex). lia.
Qed.
End generation.
Lemma gen_safe i k0 : pcs !! t = Some (RcGen i k0) → safe k (flush_step pcs t (RcGen i k0) c).
Proof using HI Hk.
  intros Ht. destruct (pi_recycle _ _ (my_pc HI Ht) i NewTree eq_refl) as (mt & E & Hs & Hr & Hg).
  cbn [flush_step]. unfold at_slot. rewrite E. destruct (rg_slots _ _ (my_ring HI) i mt E) as (_ & H0 & _).
  pose proof (counters_small k c pcs HI Hk). unfold CORE_NUM_MEMTABLES. rewrite u64_small by (cbn in Hg; lia). by apply generation_safe.
Qed.

(** ** Lookups and iterators *)
Lemma window_here p g e : pcs !! t = Some p → window_of p = Some (g, e) → gen_here c g.
Proof using HI. intros Ht Ew. apply (ring_live k c (my_ring HI)). by apply (pi_window _ _ (my_pc HI Ht) _ _ Ew). Qed.
Lemma window_state p g e mt : pcs !! t = Some p → window_of p = Some (g, e) → lookup_mode p = ReadLocked → core_mt c g = Some mt →
  mt_generation mt = g ∧ mt_state mt ≠ MEMTABLE_STATE_INCORPORATING ∧ mt_state mt ≠ MEMTABLE_STATE_INCORPORATED.
Proof using HI.
  intros Ht Ew Hm E. destruct (pi_window _ _ (my_pc HI Ht) _ _ Ew) as [Hlt _]. destruct (window_here p g e Ht Ew) as (x & Ex & Hx).
  replace x with mt in * by congruence. split; [done|]. pose proof (iv_owned _ _ HI _ mt E) as Ho. unfold owned in Ho. cbn in Ho. rewrite Hx in Ho.
  assert (Hno : ∀ st, at_stage pcs st g → st ≠ MEMTABLE_STATE_INCORPORATING ∧ st ≠ MEMTABLE_STATE_INCORPORATED).
  { intros st (t' & p' & Et & Es). assert (lookup_mode p' ≠ WriteLocked).
    { intros Hw. apply (mo_write _ (iv_lookup _ _ HI)); cbn; apply list_elem_of_fmap; [exists p'|exists p]; (split; [done|by eapply list_elem_of_lookup_2]). }
    split; intros ->; destruct p'; cbn in Es; try done; try case_match; done. }
  split; intros Hs; rewrite Hs in Ho.
  - by destruct (Hno _ Ho).
  - destruct Ho as [?|[Ha|[? _]]]; [lia|by destruct (Hno _ Ha)|lia].
Qed.
End recycling.
