(* ===== verification/MemtableLookup.v ===== *)
(** * Steps that keep the invariant: lookups and iterators

    The loops of core_lookup and core_range_iterator_init over the memtables, the
    release of an iterator, and all the steps together. *)
From S2P Require Import Prelude BatchRwlock Memtable MemtableInv MemtableFrame MemtableInsert MemtableFlush MemtableRecycle.

Section lookup.
Context (k : Z) (c : memtable_context) (pcs : list thread_pc) (HI : inv k (mk_system c pcs)) (Hk : 0 ≤ k < 2 ^ 62).
Context (t : nat).

Lemma window_end p g e : pcs !! t = Some p → window_of p = Some (g, Some e) → retired c < g ≤ mc_generation c ∧ e = mc_generation_retired c.
Proof using HI. intros Ht Ew. destruct (pi_window _ _ (my_pc HI Ht) _ _ Ew) as [H1 H2]. split; [done|by apply H2]. Qed.
(** The next generation down, or the end. *)
Lemma window_next p g e : pcs !! t = Some p → window_of p = Some (g, Some e) →
  e = mc_generation_retired c ∧ ∃ h, u64 (g - 1) = u64 h ∧ retired c ≤ h ≤ mc_generation c.
Proof using HI. intros Ht Ew. destruct (window_end p g e Ht Ew) as [H1 ->]. split; [done|]. exists (g - 1). split; [done|lia]. Qed.
Lemma loop_window p g e : pcs !! t = Some p → loop_of p = Some (g, e) → g ≠ e → retired c < g ≤ mc_generation c ∧ e = mc_generation_retired c.
Proof using HI Hk.
  intros Ht El Hne. destruct (pi_loop _ _ (my_pc HI Ht) _ _ El) as [-> (h & -> & Hh)].
  rewrite (rg_retired_u64 _ _ (my_ring HI)) in Hne. pose proof (counters_small k c pcs HI Hk).
  assert (h ≠ retired c) by congruence. rewrite u64_small by lia. split; [lia|done].
Qed.
Lemma window_distance g : mc_generation_retired c = u64 (retired c) → retired c < g ≤ mc_generation c →
  (u64 (g - mc_generation_retired c) <=? CORE_NUM_MEMTABLES) = true.
Proof using HI Hk.
  intros -> Hg. pose proof (counters_small k c pcs HI Hk). unfold u64 at 1. unfold u64. rewrite Zminus_mod_idemp_r, Z.mod_small by (destruct (my_ring HI); lia).
  unfold CORE_NUM_MEMTABLES. destruct (my_ring HI). lia.
Qed.
Lemma window_slot p g e f : pcs !! t = Some p → window_of p = Some (g, e) → lookup_mode p = ReadLocked →
  (∀ mt, core_mt c g = Some mt → mt_generation mt = g → mt_state mt ≠ MEMTABLE_STATE_INCORPORATING → mt_state mt ≠ MEMTABLE_STATE_INCORPORATED → safe k (f mt)) →
  safe k (at_slot (slot g) c f).
Proof using HI.
  intros Ht Ew Hm Hf. apply at_slot_safe; [apply (my_ring HI)|]. intros mt E. destruct (window_state k c pcs HI t p g e mt Ht Ew Hm E) as (H1 & H2 & H3).
  by apply Hf.
Qed.
Lemma lookup_moves p ch : pcs !! t = Some p →
  match p with
  | LkGet _ | LkGen _ | LkRetired _ _ | LkCheck _ _ _ | LkLoop _ _ _ _ | LkRoot _ _ _ _ | LkOk _ _ _ _ | LkCompacted _ _ _ _
  | LkAssigned _ _ _ _ | LkEnd _ _ => safe k (lookup_step pcs t p ch c)
  | _ => True
  end.
Proof using HI Hk.
  intros Ht. destruct p eqn:Ep; try done; cbn [lookup_step].
  - moves.
  - moves. destruct (my_ring HI). split; [lia|done].
  - moves. destruct (pi_window _ _ eq_refl) as [Hw _]. split; [done|]. by intros x [= <-].
  - destruct (window_end _ _ _ Ht eq_refl) as [Hw ->]. rewrite (window_distance g (rg_retired_u64 _ _ (my_ring HI)) Hw), orb_true_r. cbn [assert_then].
    pose proof (counters_small k c pcs HI Hk). moves. split; [done|]. exists g0. split; [by rewrite u64_small by lia|lia].
  - destruct (Z.eqb_spec g e) as [->|Hne]; moves. destruct (loop_window _ _ _ Ht eq_refl Hne) as [Hw ->]. split; [done|]. by intros x [= <-].
  - apply get_safe; [by eapply window_here|]. intros mt E _. destruct (window_state k c pcs HI t _ g _ mt Ht eq_refl eq_refl E) as (_ & Hs & _).
    rewrite bool_decide_false by done. cbn [negb assert_then]. moves.
  - eapply window_slot; [done..|]. intros mt E Hg H1 H2. rewrite bool_decide_false by done. cbn [negb assert_then]. moves.
  - eapply window_slot; [done..|]. intros mt E Hg _ _. case_bool_decide as Hs; moves. left. by exists mt.
  - eapply window_slot; [done..|]. intros mt E Hg _ _. case_bool_decide as Hs; moves. right. by exists mt.
  - destruct range; [moves|]. pose proof (pi_plain _ _ (my_pc HI Ht) eq_refl) as Hh. cbn in Hh. subst held. moves.
Qed.
Lemma branch_safe range held g e ch : pcs !! t = Some (LkBranch range held g e) → safe k (lookup_step pcs t (LkBranch range held g e) ch c).
Proof using HI.
  intros Ht. cbn [lookup_step]. pose proof (window_next _ _ _ Ht eq_refl) as Hn.
  assert (Hgo : safe k (goto pcs t (LkBranch range held g e) (LkLoop range held (u64 (g - 1)) e) c)) by moves.
  assert (Hend : safe k (goto pcs t (LkBranch range held g e) (LkEnd range held) c)) by moves.
  destruct (pi_branch _ _ (my_pc HI Ht) g eq_refl) as [H|H]; eapply get_compacted_safe; try exact H; try done;
    intros _ _ _ _; destruct ch; try done; by destruct range.
Qed.
Lemma tree_safe range held g e ch : pcs !! t = Some (LkTree range held g e) → safe k (lookup_step pcs t (LkTree range held g e) ch c).
Proof using HI.
  intros Ht. cbn [lookup_step]. pose proof (window_next _ _ _ Ht eq_refl) as Hn. destruct range.
  - apply get_safe; [by eapply window_here|]. intros mt E Hg.
    destruct (window_end _ _ _ Ht eq_refl) as [Hw _]. pose proof (my_pc HI Ht) as Hp.
    apply (recount_step k c pcs HI t _ _ Ht (slot g) mt (mt_refs mt + 1) E). intros _. split; try done.
    + intros t' p' Hne Et r Er. assert (Hp' : pc_inv c p') by by apply (iv_pcs _ _ HI t').
      destruct (pi_recycle _ _ Hp' _ r Er) as (x & Ex & Hs & Hf). unfold core_mt in E. replace x with mt in * by congruence.
      destruct r; lia.
    + by left.
    + by left.
    + intros j Hj. unfold weight. cbn [owns held_of]. rewrite list.filter_app, lengthZ_app, list.filter_cons_False by congruence. by rewrite Z.add_0_r.
    + unfold weight. cbn [owns held_of]. rewrite list.filter_app, lengthZ_app, list.filter_cons_True by done. change (lengthZ (g :: filter _ [])) with 1. lia.
    + assert (Hh : ∀ h, gen_here c h → gen_here (recounted c (slot g) mt (mt_refs mt + 1)) h) by (intros h; by apply (here_recounted k c pcs HI)).
      destruct Hp as []. split; pc_simpl; intros; simplify_eq; try done; elems.
      apply Hh. apply elem_of_app in H as [H| ->%list_elem_of_singleton]; [by apply pi_held|]. by exists mt.
  - destruct ch; moves.
Qed.
Lemma holding_safe held ch : pcs !! t = Some (Holding held) → safe k (lookup_step pcs t (Holding held) ch c).
Proof using HI.
  intros Ht. cbn [lookup_step]. destruct held as [|g held]; [moves|].
  apply get_safe; [apply (pi_held _ _ (my_pc HI Ht)), list_elem_of_here|]. intros mt E Hg.
  eapply quiet; [exact HI|exact Ht|pc_from (my_pc HI Ht)|done..|].
  - apply slot_lt.
  - intros i. unfold weight. cbn [owns held_of after_held]. rewrite list.filter_cons. case_bool_decide; case_decide; try done. by rewrite lengthZ_cons.
Qed.

(** ** Every step *)
Lemma idle_safe ch : pcs !! t = Some Idle → safe k (idle_step pcs t Idle ch c).
Proof using HI.
  intros Ht. destruct ch; cbn [idle_step]; try done; [moves| |moves|moves].
  destruct (mc_tasks c) as [|g gs] eqn:Eg; [done|]. pose proof (my_ring HI) as HR. pose proof HR as [].
  destruct (rg_tasks g) as [(mt & E & Hg & Hs) Hlt]; [rewrite Eg; apply list_elem_of_here|].
  rewrite Eg in rg_tasks_nodup. apply list.NoDup_cons in rg_tasks_nodup as [Hni Hnd].
  assert (Ec : with_tasks gs c = changed c (slot g) mt (mc_generation_to_incorporate c) gs).
  { unfold changed. by rewrite list_insert_id. }
  assert (Hno : others pcs t (λ p', stage_of p' ≠ Some (MEMTABLE_STATE_FINALIZED, g))).
  { intros t' p' _ Et Es. apply (iv_task _ _ HI t' p' g Et Es). cbn. rewrite Eg. apply list_elem_of_here. }
  rewrite Ec. apply (slot_safe k c pcs t Idle (FlCompact g) (slot g) mt); [done..|]. intros _.
  split; rewrite <-?Ec; try done; try (by left).
  - by eapply rg_states.
  - intros h Hh. apply rg_tasks. rewrite Eg. by apply list_elem_of_further.
  - destruct (rg_slots _ _ E) as (_ & H0 & _). split; pc_simpl; intros; simplify_eq; try done; elems.
    + by exists mt.
    + cbn. split; [lia|done].
  - intros t' p' Hne Et Hp'. split; intros; first [done|by left|by right].
  - intros x [= <-] _. by right.
  - by intros h [= <-].
  - intros t' p' _ _ h _ Hh. rewrite Eg. by apply list_elem_of_further.
  - unfold owned. rewrite Hs, Hg. right. exists t, (FlCompact g). split; [by eapply pcs_q|done].
  - intros h Hh. rewrite Eg in Hh. apply elem_of_cons in Hh as [->|Hh]; [by right|by left].
  - intros E0. right. by split.
  - change (weight (slot g) (FlCompact g)) with (weight (slot g) Idle). lia.
Qed.
End lookup.

Lemma step_safe k s t ch : inv k s → 0 ≤ k < 2 ^ 62 → safe k (memtable_step t ch s).
Proof.
  intros HI Hk. destruct s as [c pcs]. unfold memtable_step. cbn [sy_pcs sy_ctxt]. destruct (pcs !! t) as [p|] eqn:Ht; [cbn [mbind option_bind]|done].
  pose proof (insert_moves k c pcs HI Hk t ch p Ht) as Him. pose proof (flush_moves k c pcs HI Hk t p Ht) as Hfm.
  pose proof (flush_transitions k c pcs HI t p Ht) as Hft. pose proof (lookup_moves k c pcs HI Hk t p ch Ht) as Hlm.
  destruct p; try done.
  - by apply idle_safe.
  - by apply finalize_safe.
  - by apply advance_safe.
  - by apply process_safe.
  - by apply try_safe.
  - by apply retire_safe.
  - by apply dec_safe.
  - by apply create_safe.
  - by apply gen_safe.
  - by apply ready_safe.
  - by apply continue_safe.
  - by apply branch_safe.
  - by apply tree_safe.
  - by apply holding_safe.
Qed.
