(* ===== verification/MemtableTheorems.v ===== *)
(** * Properties of the memtables and of the batch read-write lock

    Runs are shorter than 2^62 steps, so that no generation wraps. *)
From S2P Require Import Prelude BatchRwlock Memtable MemtableInv MemtableFrame MemtableInsert MemtableFlush MemtableRecycle MemtableLookup.

(** ** Reachable states *)
Lemma mt_create_eq : mc_mt memtable_context_create = [memtable_init 0; memtable_init 1; memtable_init 2; memtable_init 3].
Proof. reflexivity. Qed.
Lemma create_lookup i mt : mc_mt memtable_context_create !! i = Some mt → ∃ g, mt = memtable_init g ∧ 0 ≤ g < 4 ∧ slot g = i.
Proof.
  rewrite mt_create_eq. intros E. do 4 (destruct i as [|i]; [cbn in E; injection E as <-; eexists; split_and!; [done|lia|lia|done]|]). done.
Qed.
Lemma retired_create : retired memtable_context_create = -1.
Proof. reflexivity. Qed.
Lemma ring_init : ring_ok 0 memtable_context_create.
Proof.
  split; rewrite ?retired_create; try done; try (cbn; lia).
  - intros i mt (g & -> & Hg & <-)%create_lookup. cbn. split_and!; [done|lia..].
  - intros i mt (g & -> & Hg & <-)%create_lookup. unfold state_fits. cbn. lia.
  - intros g H. by apply not_elem_of_nil in H.
  - apply base.NoDup_nil_2.
Qed.
Lemma idle_pcs threads t p : replicate threads Idle !! t = Some p → p = Idle.
Proof. by intros [-> _]%lookup_replicate. Qed.
Lemma modes_ok_unlocked ms : (∀ (t : nat) m, ms !! t = Some m → m = Unlocked) → modes_ok ms.
Proof.
  intros H. split; [by intros t t' m m' ->%H|]. intros [t Ht]%list_elem_of_lookup. by apply H in Ht.
Qed.
Lemma modes_idle threads (f : thread_pc → mode) : f Idle = Unlocked → modes_ok (f <$> replicate threads Idle).
Proof.
  intros Hf. apply modes_ok_unlocked. intros t m. rewrite list_lookup_fmap. destruct (_ !! t) as [p|] eqn:E; [|done].
  apply idle_pcs in E as ->. intros [= <-]. done.
Qed.
Lemma total_idle i threads : total i (replicate threads Idle) = 0.
Proof. induction threads as [|n IH]; [done|]. cbn [replicate total]. rewrite IH. done. Qed.
Lemma inv_init threads : inv 0 (system_init threads).
Proof.
  split; cbn [system_init sy_ctxt sy_pcs].
  - apply ring_init.
  - intros t p ->%idle_pcs. split; pc_simpl; intros; simplify_eq; elems.
  - by apply modes_idle.
  - by apply modes_idle.
  - by intros t t' p p' x ->%idle_pcs.
  - by intros t p g ->%idle_pcs.
  - by intros t t' p p' ->%idle_pcs.
  - by intros t t' p p' i r r' ->%idle_pcs.
  - by intros i mt (g & -> & Hg & <-)%create_lookup.
  - rewrite retired_create. done.
  - intros i mt (g & -> & Hg & <-)%create_lookup. by rewrite total_idle.
Qed.
Lemma reachable_nonneg threads k s : memtable_reachable threads k s → 0 ≤ k.
Proof. induction 1; lia. Qed.
Lemma memtables_reachable_inv threads k s : memtable_reachable threads k s → k ≤ 2 ^ 62 → inv k s.
Proof.
  induction 1 as [|k s t ch s' Hr IH Hs]; intros Hk; [apply inv_init|]. pose proof (reachable_nonneg _ _ _ Hr).
  destruct (step_safe k s t ch (IH ltac:(lia)) ltac:(lia) _ Hs) as (s1 & [= <-] & Hi). done.
Qed.

(** ** Rest *)
Definition resting (p : thread_pc) : Prop := match p with Idle | Holding _ => True | _ => False end.
#[export] Instance resting_dec p : Decision (resting p).
Proof. destruct p; cbn; apply _. Defined.
Lemma resting_stage p : resting p → stage_of p = None ∧ incorporates p = None ∧ recycles p = None.
Proof. by destruct p. Qed.
Section rest.
Context (k : Z) (c : memtable_context) (pcs : list thread_pc) (HI : inv k (mk_system c pcs)).
Context (Hrest : ∀ (t : nat) p, pcs !! t = Some p → resting p).
Lemma rest_stage st g : ¬ at_stage pcs st g.
Proof using Hrest. intros (t & p & E & Es). destruct (resting_stage p (Hrest t p E)). congruence. Qed.
Lemma rest_turn : mc_generation_to_incorporate c = retired c + 1.
Proof using HI Hrest.
  destruct (rg_inc_retired _ _ (my_ring HI)) as [?|E]; [done|]. destruct (iv_next _ _ HI E) as (t & p & g & Et & Ei).
  destruct (resting_stage p (Hrest t p Et)) as (_ & ? & _). congruence.
Qed.
(** What the memtables may be when no thread is at work. *)
Lemma rest_states g : retired c < g ≤ mc_generation c → ∃ mt, core_mt c g = Some mt ∧ mt_generation mt = g ∧
  (g = mc_generation c ∧ mt_state mt = MEMTABLE_STATE_READY ∨ g ∈ mc_tasks c ∨ g ≠ retired c + 1 ∧ mt_state mt = MEMTABLE_STATE_COMPACTED).
Proof using HI Hrest.
  intros Hg. destruct (ring_live k c (my_ring HI) g Hg) as (mt & E & Hm). exists mt. split_and!; [done..|].
  pose proof (iv_owned _ _ HI _ mt E) as Ho. pose proof (rg_states _ _ (my_ring HI) _ mt E) as Hf. unfold owned, state_fits in *. rewrite Hm in Ho, Hf. cbn in Ho.
  destruct (mt_state mt) eqn:Es; try done; try (by apply rest_stage in Ho).
  - left. split; [lia|done].
  - destruct Ho as [?|Ha]; [right; by left|by apply rest_stage in Ha].
  - right; right. split; [|done]. intros E1. rewrite <-rest_turn in E1. by apply (rest_stage MEMTABLE_STATE_COMPACTED g), Ho.
  - exfalso. destruct Ho as [?|[Ha|[? _]]]; [lia|by apply rest_stage in Ha|lia].
Qed.
End rest.

(** ** Waiting *)
(** The places where a thread may have to wait for a lock. *)
Definition waits (p : thread_pc) : bool :=
  match p with InsGet | InsLock _ | FlStart _ | FlGet _ | FlLock _ | RcLock _ _ | CnLock _ | LkGet _ => true | _ => false end.
Definition usual_choice (p : thread_pc) : choice := match p with InsFull _ => CFull true | _ => CGo end.
Lemma goto_some pcs t p q c : may_move pcs p q = true → goto pcs t p q c ≠ None.
Proof. unfold goto. by intros ->. Qed.
Lemma assert_some b o : o ≠ None → assert_then b o ≠ None.
Proof. by destruct b. Qed.
Lemma slot_some i c f : (∀ mt, f mt ≠ None) → at_slot i c f ≠ None.
Proof. intros Hf. unfold at_slot. destruct (mc_mt c !! i); [apply Hf|done]. Qed.
Lemma get_some {A} (o : outcome A) f : (∀ a, f a ≠ None) → get_then o f ≠ None.
Proof. intros Hf. destruct o; try done. apply Hf. Qed.
Ltac go_some :=
  unfold go_on; repeat first [apply assert_some | apply slot_some; intros ? | apply get_some; intros ? | case_match]; apply goto_some; repeat case_match; done.
Lemma step_some t s p : sy_pcs s !! t = Some p → ¬ resting p → waits p = false → memtable_step t (usual_choice p) s ≠ None.
Proof.
  intros Ht Hr Hw. unfold memtable_step. rewrite Ht. cbn [mbind option_bind].
  destruct p; try done; try (by destruct Hr); cbn [insert_step flush_step lookup_step usual_choice]; go_some.
Qed.

(** What thread at [p] waits for is held by one at [q]. *)
Definition waits_for (p q : thread_pc) : bool :=
  match p with
  | InsGet => bool_decide (insert_mode q = WriteLocked)
  | InsLock _ => bool_decide (insert_mode q = ReadLocked)
  | FlGet _ | LkGet _ => bool_decide (lookup_mode q = WriteLocked)
  | FlLock _ => bool_decide (lookup_mode q = ReadLocked)
  | FlStart _ | RcLock _ _ | CnLock _ => in_mutex q
  | _ => false
  end.
Definition holds_lock (p : thread_pc) : bool :=
  negb (bool_decide (insert_mode p = Unlocked)) || negb (bool_decide (lookup_mode p = Unlocked)) || in_mutex p.
Lemma waits_for_moves p q : waits_for p q = true → ¬ resting q ∧ waits q = false ∧ holds_lock q = true.
Proof.
  unfold holds_lock. destruct p; try done; cbn [waits_for]; rewrite ?bool_decide_eq_true; destruct q; cbn; try discriminate; intros _; (split; [by intros []|done]).
Qed.
(** A thread that cannot go on waits for another, which can. *)
Lemma free_moves (t : nat) s p : sy_pcs s !! t = Some p → waits p = true → (∀ (t' : nat) q, sy_pcs s !! t' = Some q → waits_for p q = false) →
  memtable_step t CGo s ≠ None.
Proof.
  intros Ht Hw Hno. unfold memtable_step. rewrite Ht. cbn [mbind option_bind].
  assert (Hmode : ∀ (f : thread_pc → mode) m, (∀ q, waits_for p q = bool_decide (f q = m)) → has_mode m (f <$> sy_pcs s) = false).
  { intros f m Hf. apply has_mode_false. intros [t' Et]%list_elem_of_lookup. rewrite list_lookup_fmap in Et.
    destruct (sy_pcs s !! t') as [q|] eqn:Eq; [|done]. injection Et as Et. pose proof (Hno t' q Eq) as H. rewrite Hf in H. by apply bool_decide_eq_false in H. }
  assert (Hmu : (∀ q, waits_for p q = in_mutex q) → forallb (λ r, negb (in_mutex r)) (sy_pcs s) = true).
  { intros Hf. apply forallb_forall. intros q [t' Et]%list_elem_of_In%list_elem_of_lookup. by rewrite <-Hf, (Hno t' q Et). }
  destruct p; try done; cbn [insert_step flush_step lookup_step]; apply goto_some; unfold may_move, mode_allows;
    cbn [insert_mode lookup_mode in_mutex lock_allows negb];
    first [by rewrite (Hmode insert_mode WriteLocked) by done | by rewrite (Hmode insert_mode ReadLocked) by done |
      by rewrite (Hmode lookup_mode WriteLocked) by done | by rewrite (Hmode lookup_mode ReadLocked) by done | by rewrite Hmu by done].
Qed.

(** How many steps of its own a thread is from holding no lock: [d] turns of the loop
    over the memtables are left. *)
Definition turns (g e : Z) : Z := u64 (g - e).
Definition lock_steps (p : thread_pc) : Z :=
  match p with
  | InsGen => 12 | InsState _ => 11 | InsFull _ => 10 | InsNext _ => 9 | InsClaim _ => 8 | InsLock _ => 7 | InsFinalize _ => 6
  | InsAdvance _ => 5 | InsCheck _ => 4 | InsUnlock _ => 3 | InsUnclaim _ => 2 | InsEnd _ | InsBackoff | InsBusy | Inserting _ => 1
  | FlClaim _ => 8 | FlLock _ => 7 | FlLocked _ => 6 | FlIncorporating _ => 5 | FlRetire _ => 4 | FlUnlock _ => 3 | FlUnclaim _ => 2
  | FlUnget _ | FlRelease _ => 1
  | FlTry _ | CnTry _ | RcGen _ _ => 2 | FlStarted _ _ | CnUnlock _ _ | RcUnlock _ _ => 1
  | LkGen _ => 29 | LkRetired _ _ => 28 | LkCheck _ g e => 6 * turns g e + 3 | LkLoop _ _ g e => 6 * turns g e + 2
  | LkRoot _ _ g e => 6 * turns g e + 1 | LkOk _ _ g e => 6 * turns g e | LkCompacted _ _ g e => 6 * turns g e - 1
  | LkAssigned _ _ g e => 6 * turns g e - 2 | LkBranch _ _ g e | LkTree _ _ g e => 6 * turns g e - 3 | LkEnd _ _ => 1
  | _ => 0
  end.
Section release.
Context (k : Z) (c : memtable_context) (pcs : list thread_pc) (HI : inv k (mk_system c pcs)) (Hk : 0 ≤ k < 2 ^ 62) (t : nat).
Lemma turns_left h : retired c ≤ h ≤ mc_generation c → turns (u64 h) (mc_generation_retired c) = h - retired c ∧ h - retired c ≤ 4.
Proof using HI Hk.
  intros Hh. pose proof (my_ring HI) as []. pose proof (counters_small k c pcs HI Hk). rewrite rg_retired_u64. split; [|lia].
  unfold turns, u64. rewrite Zminus_mod_idemp_r, Zminus_mod_idemp_l. apply Z.mod_small. lia.
Qed.
Lemma turns_at p g e : pcs !! t = Some p → window_of p = Some (g, Some e) → 1 ≤ turns g e ≤ 4 ∧ turns (u64 (g - 1)) e = turns g e - 1.
Proof using HI Hk.
  intros Ht Ew. destruct (window_end k c pcs HI t p g e Ht Ew) as [Hg ->]. pose proof (counters_small k c pcs HI Hk).
  destruct (turns_left g ltac:(lia)) as [E1 H1], (turns_left (g - 1) ltac:(lia)) as [E2 _]. rewrite (u64_small g) in E1 by lia. lia.
Qed.
Lemma turns_loop p g e : pcs !! t = Some p → loop_of p = Some (g, e) → 0 ≤ turns g e ≤ 4 ∧ (g ≠ e → 1 ≤ turns g e).
Proof using HI Hk.
  intros Ht El. destruct (pi_loop _ _ (my_pc HI Ht) _ _ El) as [-> (h & -> & Hh)]. destruct (turns_left h Hh) as [E H1]. rewrite E.
  split; [lia|]. intros Hne. rewrite (rg_retired_u64 _ _ (my_ring HI)) in Hne. assert (h ≠ retired c) by congruence. lia.
Qed.
Lemma turns_start g : window_of (LkRetired false g) = Some (g, None) → retired c < g ≤ mc_generation c → 1 ≤ turns g (mc_generation_retired c) ≤ 4.
Proof using HI Hk.
  intros _ Hg. pose proof (counters_small k c pcs HI Hk). destruct (turns_left g ltac:(lia)) as [E1 H1]. rewrite (u64_small g) in E1 by lia. lia.
Qed.
Lemma lock_steps_bound p : pcs !! t = Some p → lock_steps p ≤ 29.
Proof using HI Hk.
  intros Ht. pose proof (turns_at p) as Hw. pose proof (turns_loop p) as Hl. destruct p; cbn; try lia;
    first [pose proof (Hw _ _ Ht eq_refl)|pose proof (Hl _ _ Ht eq_refl)]; lia.
Qed.
(** Where a step goes. *)
Lemma goto_at q c' s' p : pcs !! t = Some p → goto pcs t p q c' = Some (Ret s') → sy_pcs s' !! t = Some q.
Proof using. intros Ht. unfold goto. destruct (may_move pcs p q); [|done]. intros [= <-]. cbn. apply list_lookup_insert_eq. by eapply lookup_lt_Some. Qed.
Lemma lock_released p ch s' : pcs !! t = Some p → holds_lock p = true → memtable_step t ch (mk_system c pcs) = Some (Ret s') →
  ∃ q, sy_pcs s' !! t = Some q ∧ (holds_lock q = false ∨ lock_steps q < lock_steps p).
Proof using HI Hk.
  intros Ht Hl Hs. unfold memtable_step in Hs. cbn [sy_pcs sy_ctxt] in Hs. rewrite Ht in Hs. cbn [mbind option_bind] in Hs.
  pose proof (turns_at p) as Hw. pose proof (turns_loop p) as Hlo. pose proof (goto_at) as Hgo.
  destruct p; try done; cbn [insert_step flush_step lookup_step] in Hs; unfold at_slot, get_then, assert_then in Hs;
    repeat (case_match; try done); simplify_eq/=;
    (eexists; split; [by eapply Hgo|]); first [by left|right]; cbn [lock_steps];
    first [lia|pose proof (Hw _ _ Ht eq_refl); lia|pose proof (Hlo _ _ Ht eq_refl); lia|idtac].
  - pose proof (proj1 (pi_window _ _ (my_pc HI Ht) g None eq_refl)) as Hg. pose proof (turns_start g eq_refl Hg). lia.
Qed.
End release.

(** ** Runs *)
Lemma run_reachable threads k s sched s' : memtable_reachable threads k s → run sched s = Some (Ret s') → memtable_reachable threads (k + lengthZ sched) s'.
Proof.
  revert k s. induction sched as [|[t ch] sched IH]; intros k s Hr; cbn [run].
  - intros [= <-]. by rewrite Z.add_0_r.
  - destruct (memtable_step t ch s) as [o|] eqn:Es; [|done]. destruct o as [s1| | | |]; try done. intros Hrun.
    rewrite lengthZ_cons, Z.add_assoc. eapply IH; [by eapply reach_step|done].
Qed.
Lemma run_cons t ch sched s s' : memtable_step t ch s = Some (Ret s') → run ((t, ch) :: sched) s = run sched s'.
Proof. intros H. cbn [run]. by rewrite H. Qed.
(** Thread [t] inserts into a full memtable: it rotates, and inserts into the next. *)
Definition rotation (t : nat) : list (nat * choice) :=
  pair t <$> [CInsert; CGo; CGo; CGo; CFull true] ++ replicate 13 CGo ++ [CFull false; CGo].
(** Thread [t] takes a task, and takes [n] steps. *)
Definition flushing (t n : nat) : list (nat * choice) := (t, CTask) :: replicate n (t, CGo).
(** A range iterator is created over the memtables. *)
Definition iterating (t n : nat) : list (nat * choice) := (t, CRange) :: replicate n (t, CGo).
Definition final (threads : nat) (sched : list (nat * choice)) : system :=
  match run sched (system_init threads) with Some (Ret s) => s | _ => system_init threads end.
Definition completes (threads : nat) (sched : list (nat * choice)) : bool :=
  match run sched (system_init threads) with Some (Ret _) => true | _ => false end.
Lemma final_reachable threads sched : completes threads sched = true → memtable_reachable threads (lengthZ sched) (final threads sched).
Proof.
  unfold completes, final. destruct (run sched (system_init threads)) as [[s| | | |]|] eqn:E; try done. intros _.
  apply (run_reachable threads 0 (system_init threads)); [apply reach_init|done].
Qed.
Definition pcs_after (threads : nat) (sched : list (nat * choice)) : list thread_pc := sy_pcs (final threads sched).

(** C6: every step that a thread of the memtable protocol can make returns: in the first
    2^62 steps of any number of threads, whatever they call and however they are interleaved,
    no platform_assert fails (of memtable_transition on a state that another thread has
    changed, of core_get_memtable on a memtable of another generation, of
    core_get_compacted_memtable, of the generation counts in the rotation and in core_lookup,
    of the states a lookup must not see, of the retired generation, of the generation to
    incorporate), and no memtable outside the ring is read. *)
Theorem memtable_steps_safe threads k s t ch o : memtable_reachable threads k s → k < 2 ^ 62 → memtable_step t ch s = Some o → ∃ s', o = Ret s'.
Proof.
  intros Hr Hk Hs. pose proof (reachable_nonneg _ _ _ Hr).
  destruct (step_safe k s t ch (memtables_reachable_inv _ _ _ Hr ltac:(lia)) ltac:(lia) _ Hs) as (s' & -> & _). by exists s'.
Qed.
Definition one_incorporates : list (nat * choice) := rotation 0 ++ flushing 1 11 ++ (pair 0%nat <$> [CInsert; CGo; CGo]).
(** Thread 1 is about to incorporate generation 0 while thread 0 inserts into generation 1. *)
Lemma memtable_steps_safe_witness : let s := final 2 one_incorporates in
  (sy_pcs s !! 1%nat) = Some (FlIncorporating 0) ∧ ∃ s', memtable_step 1 CGo s = Some (Ret s').
Proof.
  split; [by vm_compute|].
  assert (Hr := final_reachable 2 one_incorporates ltac:(by vm_compute)).
  destruct (memtable_step 1 CGo (final 2 one_incorporates)) as [o|] eqn:E; [|by vm_compute in E].
  destruct (memtable_steps_safe 2 _ _ 1 CGo o Hr ltac:(by vm_compute) E) as (s' & ->). by exists s'.
Defined.

(** C11: no memtable is forgotten.  When no thread is at work (iterators may be open) and the
    queue of tasks is empty, every generation before the current one has been incorporated
    into the trunk and retired, whichever thread took over from which: either the thread that
    compacts a memtable finds its turn come, or the thread that incorporates the one before
    goes on with it. *)
Theorem memtable_handover threads k s : memtable_reachable threads k s → k ≤ 2 ^ 62 →
  (∀ (t : nat) p, sy_pcs s !! t = Some p → resting p) → mc_tasks (sy_ctxt s) = [] →
  mc_generation_retired (sy_ctxt s) = u64 (mc_generation (sy_ctxt s) - 1) ∧
  ∃ mt, core_get_memtable (sy_ctxt s) (mc_generation (sy_ctxt s)) = Ret mt ∧ mt_state mt = MEMTABLE_STATE_READY.
Proof.
  intros Hr Hk Hrest Ht. pose proof (memtables_reachable_inv _ _ _ Hr Hk) as HI. destruct s as [c pcs]. cbn in *.
  pose proof (my_ring HI) as HR. pose proof HR as [].
  assert (Hret : retired c + 1 = mc_generation c).
  { destruct (rest_states k c pcs HI Hrest (retired c + 1) ltac:(lia)) as (mt & _ & _ & [[-> _]|[Hin|[? _]]]); [done| |done].
    rewrite Ht in Hin. by apply not_elem_of_nil in Hin. }
  split; [rewrite rg_retired_u64; f_equal; lia|].
  destruct (rest_states k c pcs HI Hrest (mc_generation c) ltac:(lia)) as (mt & E & Hg & [[_ Hs]|[Hin|[? _]]]).
  - exists mt. unfold core_get_memtable. by rewrite E, Hg, Z.eqb_refl.
  - rewrite Ht in Hin. by apply not_elem_of_nil in Hin.
  - lia.
Qed.
(** Two generations, the second compacted while the first is incorporated. *)
Definition two_flushed : list (nat * choice) :=
  rotation 0 ++ rotation 0 ++ flushing 0 23 ++ flushing 1 3 ++ replicate 3 (0%nat, CGo) ++ replicate 3 (1%nat, CGo) ++ replicate 20 (0%nat, CGo).
Lemma memtable_handover_witness : completes 2 two_flushed = true ∧ mc_generation (sy_ctxt (final 2 two_flushed)) = 2 ∧
  mc_generation_retired (sy_ctxt (final 2 two_flushed)) = 1.
Proof.
  split; [by vm_compute|]. split; [by vm_compute|].
  destruct (memtable_handover 2 _ _ (final_reachable 2 two_flushed ltac:(by vm_compute)) ltac:(by vm_compute)) as [H _].
  - intros t p. change (sy_pcs (final 2 two_flushed)) with (pcs_after 2 two_flushed).
    replace (pcs_after 2 two_flushed) with [Idle; Idle] by (by vm_compute). destruct t as [|[|t]]; cbn; intros E; by simplify_eq.
  - by vm_compute.
  - rewrite H. by vm_compute.
Defined.

(** C35: the protocol has no deadlock.  A thread at work (not between two calls, with or
    without an iterator) can make a step, or waits for a lock (one of the two batch locks, the
    mutex of the incorporations) that another thread holds which can make a step, and so waits
    for nobody.  A thread that holds a lock lets go of all it holds in at most 29 steps of its
    own, whatever the others do: each of its steps leads nearer to that.  So one that finds a
    memtable not ready, or does not get its claim, lets go before it tries again, and nobody
    waits for a memtable, or for another turn of the loops, with a lock held. *)
Theorem memtable_progress threads k s t p : memtable_reachable threads k s → k < 2 ^ 62 → sy_pcs s !! t = Some p → ¬ resting p →
  ((∃ s', memtable_step t (usual_choice p) s = Some (Ret s')) ∨
   ∃ (t' : nat) q s', sy_pcs s !! t' = Some q ∧ waits_for p q = true ∧ holds_lock q = true ∧ memtable_step t' (usual_choice q) s = Some (Ret s')) ∧
  (holds_lock p = true → lock_steps p ≤ 29 ∧
   ∀ ch s', memtable_step t ch s = Some (Ret s') → ∃ q, sy_pcs s' !! t = Some q ∧ (holds_lock q = false ∨ lock_steps q < lock_steps p)).
Proof.
  intros Hr Hk Ht Hp. pose proof (reachable_nonneg _ _ _ Hr). pose proof (memtables_reachable_inv _ _ _ Hr ltac:(lia)) as HI.
  assert (Hgo : ∀ t' ch, memtable_step t' ch s ≠ None → ∃ s', memtable_step t' ch s = Some (Ret s')).
  { intros t' ch Es. destruct (memtable_step t' ch s) as [o|] eqn:Eo; [|done].
    destruct (step_safe k s t' ch HI ltac:(lia) _ Eo) as (s' & -> & _). by exists s'. }
  split.
  - destruct (waits p) eqn:Hw; [|by left; eapply Hgo, step_some].
    destruct (decide (Exists (λ q, waits_for p q = true) (sy_pcs s))) as [(q & [t' Et]%list_elem_of_lookup & Hq)%list.Exists_exists|Hno].
    + right. destruct (waits_for_moves p q Hq) as (Hrq & Hwq & Hl). destruct (Hgo t' (usual_choice q)) as (s' & Es); [by eapply step_some|]. by exists t', q, s'.
    + left. replace (usual_choice p) with CGo by (by destruct p). eapply Hgo, (free_moves t s p); [done..|]. intros t' q Et.
      apply not_true_iff_false. intros Hq. destruct Hno. apply list.Exists_exists. exists q. split; [by eapply list_elem_of_lookup_2|done].
  - intros Hl. destruct s as [c pcs]. split; [eapply (lock_steps_bound k c pcs); (done || lia)|]. intros ch s' Hs. eapply (lock_released k c pcs); (done || lia).
Qed.
(** Thread 0 waits for thread 1, which looks up. *)
Definition one_waits : list (nat * choice) := rotation 0 ++ flushing 0 9 ++ (pair 1%nat <$> [CLookup; CGo]).
Lemma memtable_progress_witness : memtable_step 0 CGo (final 2 one_waits) = None ∧
  ∃ (t' : nat) q s', sy_pcs (final 2 one_waits) !! t' = Some q ∧ waits_for (FlLock 0) q = true ∧ holds_lock q = true ∧
    memtable_step t' (usual_choice q) (final 2 one_waits) = Some (Ret s').
Proof.
  assert (Hn : memtable_step 0 CGo (final 2 one_waits) = None) by by vm_compute. split; [done|].
  destruct (memtable_progress 2 (lengthZ one_waits) (final 2 one_waits) 0 (FlLock 0)) as [[[s' Hs]|H] _];
    [apply final_reachable; by vm_compute|by vm_compute|by vm_compute|by intros []| |done].
  cbn [usual_choice] in Hs. rewrite Hn in Hs. discriminate Hs.
Defined.

(** Recycling by thread [t] alone. *)
Section recycling.
Context (c : memtable_context) (pcs : list thread_pc) (t i : nat) (Ht : (t < length pcs)%nat) (Hi : (i < length (mc_mt c))%nat).
Definition recycling_at (m : memtable) (p : thread_pc) : system := mk_system (set_mt i m c) (<[t := p]> pcs).
Lemma recycling_step m p : recycles p ≠ None → memtable_step t CGo (recycling_at m p) = flush_step (<[t := p]> pcs) t p (set_mt i m c).
Proof using Ht. intros Hp. unfold memtable_step, recycling_at. cbn [sy_pcs sy_ctxt]. rewrite list_lookup_insert_eq by done. by destruct p. Qed.
Lemma recycling_slot m f : at_slot i (set_mt i m c) f = f m.
Proof using Hi. unfold at_slot. cbn [set_mt with_mt mc_mt]. by rewrite list_lookup_insert_eq. Qed.
Lemma recycling_goto m m' p q : may_move (<[t := p]> pcs) p q = true →
  goto (<[t := p]> pcs) t p q (set_mt i m' (set_mt i m c)) = Some (Ret (recycling_at m' q)).
Proof using. intros Hm. unfold goto. rewrite Hm. unfold recycling_at, set_mt, with_mt. cbn. by rewrite !list_insert_insert_eq. Qed.
Lemma recycling_still m p q : may_move (<[t := p]> pcs) p q = true →
  goto (<[t := p]> pcs) t p q (set_mt i m c) = Some (Ret (recycling_at m q)).
Proof using. intros Hm. unfold goto. rewrite Hm. unfold recycling_at. by rewrite list_insert_insert_eq. Qed.
Lemma recycle_run g j : forallb (λ r, negb (in_mutex r)) pcs = true →
  run (replicate 6 (t, CGo)) (recycling_at (mk_memtable MEMTABLE_STATE_INCORPORATED g 0) (RcCheck i j)) =
  Some (Ret (recycling_at (memtable_init (u64 (g + CORE_NUM_MEMTABLES))) (go_on j))).
Proof using Ht Hi.
  intros Hmu.
  assert (Hl : forallb (λ r, negb (in_mutex r)) (<[t := RcLock i j]> pcs) = true).
  { apply forallb_forall. intros q [t' [(_ & <- & _)|(_ & Et)]%list_lookup_insert_Some]%list_elem_of_In%list_elem_of_lookup; [done|].
    apply (proj1 (forallb_forall _ _) Hmu). by eapply list_elem_of_In, list_elem_of_lookup_2. }
  assert (Hu : ∀ p q, insert_mode p = Unlocked → lookup_mode p = Unlocked → insert_mode q = Unlocked → lookup_mode q = Unlocked →
    in_mutex q = false ∨ in_mutex p = true → may_move (<[t := p]> pcs) p q = true).
  { intros p q E1 E2 E3 E4 E5. unfold may_move, mode_allows. rewrite E1, E2, E3, E4. by destruct E5 as [-> | ->]; rewrite ?orb_true_r. }
  assert (insert_mode (go_on j) = Unlocked ∧ lookup_mode (go_on j) = Unlocked ∧ in_mutex (go_on j) = false) as (G1 & G2 & G3) by by destruct j.
  cbn [replicate run].
  rewrite recycling_step by done. cbn [flush_step]. rewrite recycling_slot. cbn [mt_state]. rewrite bool_decide_true by done. cbn [assert_then]. rewrite recycling_still by auto.
  rewrite recycling_step by done. cbn [flush_step]. rewrite recycling_slot, recycling_goto by auto.
  rewrite recycling_step by done. cbn [flush_step]. rewrite recycling_still by (unfold may_move; cbn [in_mutex negb insert_mode lookup_mode]; by rewrite Hl).
  rewrite recycling_step by done. cbn [flush_step]. rewrite recycling_slot, recycling_goto by auto.
  rewrite recycling_step by done. cbn [flush_step]. rewrite recycling_still by auto.
  rewrite recycling_step by done. cbn [flush_step]. rewrite recycling_slot.
  rewrite (transition_ret _ MEMTABLE_STATE_INCORPORATED MEMTABLE_STATE_READY) by done. cbn [get_then]. by rewrite recycling_goto by auto.
Qed.
End recycling.

(** C36: a range iterator keeps its memtables.  As long as it holds generation [g], the place
    of [g] in the ring still has generation [g] with at least one reference to its tree, even
    when the memtable has been incorporated and the ring has gone on.  A thread that lets go of
    a reference finds one there; if it is not the last it only takes one off, and if it is the
    last, seven steps of the thread (when nobody has the mutex) recycle the place: it is ready
    for its next generation, with one reference.  Whatever the others do in between, the last
    of these steps makes the place ready, with one reference, for a generation after the
    current one. *)
Theorem iterator_keeps_memtable threads k s (t : nat) p : memtable_reachable threads k s → k ≤ 2 ^ 62 → sy_pcs s !! t = Some p →
  match p with
  | Holding held => ∀ g, g ∈ held → ∃ mt, core_get_memtable (sy_ctxt s) g = Ret mt ∧ 1 ≤ mt_refs mt
  | RcDec i j => ∃ mt, mc_mt (sy_ctxt s) !! i = Some mt ∧ 1 ≤ mt_refs mt ∧
      (1 < mt_refs mt → memtable_step t CGo s = Some (Ret (recycling_at (sy_ctxt s) (sy_pcs s) t i (with_refs (mt_refs mt - 1) mt) (go_on j)))) ∧
      (mt_refs mt = 1 → forallb (λ r, negb (in_mutex r)) (sy_pcs s) = true → run (replicate 7 (t, CGo)) s =
        Some (Ret (recycling_at (sy_ctxt s) (sy_pcs s) t i (memtable_init (u64 (mt_generation mt + CORE_NUM_MEMTABLES))) (go_on j))))
  | RcReady i j => ∃ mt, mc_mt (sy_ctxt s) !! i = Some mt ∧ mc_generation (sy_ctxt s) < mt_generation mt ∧
      memtable_step t CGo s = Some (Ret (recycling_at (sy_ctxt s) (sy_pcs s) t i (memtable_init (mt_generation mt)) (go_on j)))
  | _ => True
  end.
Proof.
  intros Hr Hk Ht. pose proof (memtables_reachable_inv _ _ _ Hr Hk) as HI. destruct s as [c pcs]. cbn [sy_ctxt sy_pcs] in *. destruct p; try done.
  - destruct (ring_some k c (my_ring HI) i (pi_slot _ _ (my_pc HI Ht) i k0 eq_refl)) as (mt & E). exists mt. split; [done|].
    pose proof (refs_at k c pcs HI i mt E) as Href. pose proof (total_one i pcs t _ Ht) as Hw.
    assert (Hwi : 1 ≤ weight i (RcDec i k0)).
    { rewrite (weight_rc i i _ k0) by auto. rewrite bool_decide_true by done. pose proof (weight_nonneg i (go_on k0)). cbn [Z.b2z]. lia. }
    pose proof (b2z_nonneg (negb (bool_decide (mt_state mt = MEMTABLE_STATE_INCORPORATED)))). split; [lia|].
    assert (Hstep : memtable_step t CGo (mk_system c pcs) =
      Some (Ret (recycling_at c pcs t i (with_refs (mt_refs mt - 1) mt) (if mt_refs mt - 1 =? 0 then RcCheck i k0 else go_on k0)))).
    { unfold memtable_step. cbn [sy_pcs sy_ctxt]. rewrite Ht. cbn [mbind option_bind flush_step]. unfold at_slot. rewrite E. unfold goto.
      assert (may_move pcs (RcDec i k0) (if mt_refs mt - 1 =? 0 then RcCheck i k0 else go_on k0) = true) as ->; [|done].
      destruct (mt_refs mt - 1 =? 0); [done|]. by destruct k0. }
    split; [intros H1; rewrite Hstep; by rewrite (proj2 (Z.eqb_neq _ _)) by lia|]. intros H1 Hmu.
    destruct (last_reference k c pcs HI t _ i mt Ht E Hwi H1 eq_refl eq_refl) as [Hs _].
    rewrite H1 in Hstep. change (1 - 1) with 0 in Hstep. change (replicate 7 (t, CGo)) with ((t, CGo) :: replicate 6 (t, CGo)). rewrite (run_cons _ _ _ _ _ Hstep). cbn [Z.eqb].
    replace (with_refs 0 mt) with (mk_memtable MEMTABLE_STATE_INCORPORATED (mt_generation mt) 0) by (unfold with_refs; by rewrite Hs).
    apply recycle_run; [by eapply lookup_lt_Some|by eapply lookup_lt_Some|done].
  - destruct (pi_recycle _ _ (my_pc HI Ht) i NewGeneration eq_refl) as (mt & E & Hs & Hrf & Hg). exists mt. split; [done|]. split; [done|].
    unfold memtable_step. cbn [sy_pcs sy_ctxt]. rewrite Ht. cbn [mbind option_bind flush_step]. unfold at_slot. rewrite E, (transition_ret mt _ _ Hs). cbn [get_then].
    unfold goto. assert (may_move pcs (RcReady i k0) (go_on k0) = true) as -> by by destruct k0.
    unfold recycling_at, memtable_init, with_state. by rewrite Hrf.
  - intros g Hg. destruct (pi_held _ _ (my_pc HI Ht) g Hg) as (mt & E & Hm). exists mt. unfold core_get_memtable. rewrite E, Hm, Z.eqb_refl. split; [done|].
    pose proof (refs_at k c pcs HI _ mt E) as Href. pose proof (total_one (slot g) pcs t _ Ht) as Hw.
    assert (Hf : g ∈ filter (λ h, slot h = slot g) held) by by apply list_elem_of_filter.
    enough (1 ≤ weight (slot g) (Holding held)) by (pose proof (b2z_nonneg (negb (bool_decide (mt_state mt = MEMTABLE_STATE_INCORPORATED)))); lia).
    unfold weight. cbn [owns held_of]. destruct (filter _ held); [by apply not_elem_of_nil in Hf|]. unfold lengthZ. cbn [length]. lia.
Qed.
(** The iterator of thread 1 has generation 0, which thread 0 has incorporated since; then
    it lets go of it. *)
Definition one_iterates : list (nat * choice) := rotation 0 ++ iterating 1 18 ++ flushing 0 20.
Definition last_lets_go : list (nat * choice) := one_iterates ++ (pair 1%nat <$> [CGo; CGo; CGo]).
Lemma iterator_keeps_memtable_witness : pcs_after 2 one_iterates = [Idle; Holding [1; 0]] ∧
  mc_generation_retired (sy_ctxt (final 2 one_iterates)) = 0 ∧
  (∃ mt, core_get_memtable (sy_ctxt (final 2 one_iterates)) 0 = Ret mt ∧ 1 ≤ mt_refs mt) ∧
  pcs_after 2 last_lets_go = [Idle; RcDec 0 (NextHeld [])] ∧
  ∃ mt, mc_mt (sy_ctxt (final 2 last_lets_go)) !! 0%nat = Some mt ∧ 1 ≤ mt_refs mt.
Proof.
  split; [by vm_compute|]. split; [by vm_compute|]. split.
  { assert (Hr := final_reachable 2 one_iterates ltac:(by vm_compute)).
    assert (Ht : sy_pcs (final 2 one_iterates) !! 1%nat = Some (Holding [1; 0])) by by vm_compute.
    apply (iterator_keeps_memtable 2 (lengthZ one_iterates) (final 2 one_iterates) 1 (Holding [1; 0]) Hr ltac:(by vm_compute) Ht).
    apply list_elem_of_further, list_elem_of_here. }
  split; [by vm_compute|].
  assert (Hr := final_reachable 2 last_lets_go ltac:(by vm_compute)).
  assert (Ht : sy_pcs (final 2 last_lets_go) !! 1%nat = Some (RcDec 0 (NextHeld []))) by by vm_compute.
  destruct (iterator_keeps_memtable 2 (lengthZ last_lets_go) (final 2 last_lets_go) 1 (RcDec 0 (NextHeld [])) Hr ltac:(by vm_compute) Ht) as (mt & E & Hm & _).
  exists mt. exact (conj E Hm).
Defined.

(** C37: memtables are incorporated one at a time and in the order of their generations: one
    that is assigned or being incorporated has the generation to incorporate, which is the
    one after the last that is retired, and the ring is never more than its size ahead of it:
    the current generation and all those not retired are in their places. *)
Theorem incorporation_in_order threads k s : memtable_reachable threads k s → k ≤ 2 ^ 62 →
  let c := sy_ctxt s in
  (∀ i mt, mc_mt c !! i = Some mt → mt_state mt = MEMTABLE_STATE_INCORPORATION_ASSIGNED ∨ mt_state mt = MEMTABLE_STATE_INCORPORATING →
    mt_generation mt = mc_generation_to_incorporate c ∧ mt_generation mt = u64 (mc_generation_retired c + 1)) ∧
  1 ≤ u64 (mc_generation c - mc_generation_retired c) ≤ CORE_NUM_MEMTABLES ∧
  (∀ g, u64 (mc_generation_retired c + 1) ≤ g ≤ mc_generation c → ∃ mt, core_get_memtable c g = Ret mt).
Proof.
  intros Hr Hk c. pose proof (memtables_reachable_inv _ _ _ Hr Hk) as HI. destruct s as [c0 pcs]. cbn in c. subst c.
  pose proof (my_ring HI) as HR. pose proof HR as []. pose proof (reachable_nonneg _ _ _ Hr).
  assert (Hnext : u64 (mc_generation_retired c0 + 1) = retired c0 + 1).
  { rewrite rg_retired_u64. unfold u64. rewrite Zplus_mod_idemp_l. apply Z.mod_small. lia. }
  split_and!.
  - intros i mt E Hs. enough (∃ (t : nat) p, pcs !! t = Some p ∧ incorporates p = Some (mt_generation mt, false)) as (t & p & Et & Ei).
    { destruct (pi_inc _ _ (my_pc HI Et) _ _ Ei) as [<- Er]. split; [done|]. rewrite Hnext. lia. }
    pose proof (iv_owned _ _ HI i mt E) as Ho. unfold owned in Ho.
    destruct Hs as [Hs|Hs]; rewrite Hs in Ho; destruct Ho as (t & p & Et & Es); exists t, p; (split; [done|]);
      destruct p; cbn in Es; try done; repeat case_match; try done; by simplify_eq.
  - rewrite rg_retired_u64. unfold u64 at 1. unfold u64. rewrite Zminus_mod_idemp_r, Z.mod_small by lia. unfold CORE_NUM_MEMTABLES. lia.
  - rewrite rg_retired_u64. unfold u64 at 1. unfold u64. rewrite Zminus_mod_idemp_r, Z.mod_small by lia. unfold CORE_NUM_MEMTABLES. lia.
  - intros g Hg. rewrite Hnext in Hg. destruct (ring_live k c0 HR g ltac:(lia)) as (mt & E & Hm). exists mt.
    unfold core_get_memtable. by rewrite E, Hm, Z.eqb_refl.
Qed.
Lemma incorporation_in_order_witness : let c := sy_ctxt (final 2 one_incorporates) in
  (mt_state <$> core_mt c 0) = Some MEMTABLE_STATE_INCORPORATING ∧ 1 ≤ u64 (mc_generation c - mc_generation_retired c) ≤ CORE_NUM_MEMTABLES.
Proof.
  split; [by vm_compute|].
  apply (incorporation_in_order 2 (lengthZ one_incorporates) (final 2 one_incorporates));
    [apply final_reachable|]; by vm_compute.
Defined.

(** C38: memtable_force_finalize, which core_prepare_for_shutdown calls when no thread is at
    work: it finalizes the current memtable and returns its generation unless all the
    memtables of the ring are in use (its own, and all the others finalized and still to be
    incorporated); then its own assertion on the generations fails. *)
Theorem force_finalize_decides threads k s : memtable_reachable threads k s → k < 2 ^ 62 →
  (∀ (t : nat) p, sy_pcs s !! t = Some p → resting p) →
  let c := sy_ctxt s in let g := mc_generation c in
  ∃ mt, core_get_memtable c g = Ret mt ∧
  memtable_force_finalize c =
    if u64 (g - mc_generation_retired c) <? CORE_NUM_MEMTABLES
    then Ret (g, advance_generation (set_mt (slot g) (with_state MEMTABLE_STATE_FINALIZED mt) c)) else Assert.
Proof.
  intros Hr Hk Hrest c g. pose proof (reachable_nonneg _ _ _ Hr). pose proof (memtables_reachable_inv _ _ _ Hr ltac:(lia)) as HI.
  destruct s as [c0 pcs]. cbn in c, Hrest. subst c g. pose proof (my_ring HI) as HR. pose proof HR as [].
  destruct (rest_states k c0 pcs HI Hrest (mc_generation c0) ltac:(lia)) as (mt & E & Hg & Hst). exists mt.
  assert (Hs : mt_state mt = MEMTABLE_STATE_READY).
  { destruct Hst as [[_ ?]|[Hin|[? Hs]]]; [done|destruct (rg_tasks _ Hin); lia|]. exfalso.
    pose proof (rg_states _ mt E) as Hf. unfold state_fits in Hf. rewrite Hs in Hf. lia. }
  unfold core_get_memtable. rewrite E, Hg, Z.eqb_refl. split; [done|].
  unfold memtable_force_finalize. rewrite run_get, (run_opt _ _ _ _ E), (transition_ret mt _ _ Hs), run_put, run_get.
  cbn [advance_generation mc_generation mc_generation_retired set_mt with_mt]. unfold massert.
  rewrite (u64_small (mc_generation c0 + 1)) by lia.
  assert (Hd : ∀ x, x = mc_generation c0 ∨ x = mc_generation c0 + 1 → u64 (x - mc_generation_retired c0) = x - retired c0).
  { intros x Hx. rewrite rg_retired_u64. unfold u64. rewrite Zminus_mod_idemp_r. apply Z.mod_small. lia. }
  rewrite !Hd by auto. unfold mbind, M_bind, CORE_NUM_MEMTABLES.
  destruct (Z.leb_spec (mc_generation c0 + 1 - retired c0) 4), (Z.ltb_spec (mc_generation c0 - retired c0) 4); try lia; [|done].
  unfold mret, M_ret, advance_generation. cbn. by rewrite u64_small by lia.
Qed.
Definition three_rotations : list (nat * choice) := rotation 0 ++ rotation 0 ++ rotation 0.
(** Three memtables wait for their tasks, and the database is closed. *)
Lemma force_finalize_decides_witness : let s := final 1 three_rotations in
  mc_tasks (sy_ctxt s) = [0; 1; 2] ∧ memtable_force_finalize (sy_ctxt s) = Assert.
Proof.
  split; [by vm_compute|].
  destruct (force_finalize_decides 1 (lengthZ three_rotations) (final 1 three_rotations))
    as (mt & _ & ->); [apply final_reachable; by vm_compute|by vm_compute| |by vm_compute].
  intros t p. change (sy_pcs _) with (pcs_after 1 three_rotations).
  replace (pcs_after 1 _) with [Idle] by (by vm_compute). destruct t as [|t]; cbn; intros E; by simplify_eq.
Defined.

(** The first case of the comment at core_try_start_incorporate: thread 1 has compacted
    generation 1, and thread 0 has already taken its turn.  The compare-and-swap of thread 1
    finds the memtable assigned, which a debug assertion of memtable_try_transition denies. *)
Definition turn_taken : system :=
  final 2 (rotation 0 ++ rotation 0 ++ flushing 0 23 ++ flushing 1 3 ++ replicate 3 (0%nat, CGo) ++ replicate 1 (1%nat, CGo))%list.
Example turn_taken_before_start : sy_pcs turn_taken = [FlPrepare 1; FlTry 1] ∧ mc_generation_to_incorporate (sy_ctxt turn_taken) = 1 ∧
  (mt_state <$> core_try_get_memtable (sy_ctxt turn_taken) 1) = Some MEMTABLE_STATE_INCORPORATION_ASSIGNED.
Proof. vm_compute. done. Qed.

(** ** The lock *)
(** C39: platform_batch_rwlock refines its specification: whatever step a thread makes on the
    bytes of the lock (the loops of _get, _lock and _unlock included), the modes of the threads
    do not change or one thread makes a step that the documented state machine allows it; the
    assertion of _lock on the claim holds; and at any time at most one thread has a claim or
    the write lock and no thread reads while another writes. *)
Theorem batch_rwlock_refines n s t o : rw_reachable n s → rw_step t s o →
  ∃ s', o = Ret s' ∧ (modes s' = modes s ∨ lock_step (modes s) t (modes s')) ∧ modes_ok (modes s').
Proof.
  intros Hr Hs. destruct (rw_step_refines s (rw_reachable_inv n s Hr) t o Hs) as (s' & -> & _ & Hm). exists s'. split_and!; [done..|].
  apply (rw_reachable_modes n). by eapply rw_next.
Qed.
(** Thread 1 has claimed and waits for thread 0 to stop reading. *)
Lemma batch_rwlock_refines_witness :
  let s := mk_batch_rwlock true true [1; 0] [Reader; Locking 0] in
  ∃ s', Ret (at_pc 0 BatchRwlock.Idle (count_by 0 (-1) s)) = Ret s' ∧ (modes s' = modes s ∨ lock_step (modes s) 0 (modes s')) ∧ modes_ok (modes s').
Proof.
  apply (batch_rwlock_refines 2 _ 0); [|by constructor].
  apply (rw_next 2 1 (mk_batch_rwlock false true [1; 0] [Reader; Claimer])); [|by apply (rw_lock_set 1 (mk_batch_rwlock false true [1; 0] [Reader; Claimer]))].
  apply (rw_next 2 1 (mk_batch_rwlock false true [1; 1] [Reader; ClaimDec])); [|by apply (rw_claim_dec 1 (mk_batch_rwlock false true [1; 1] [Reader; ClaimDec]))].
  apply (rw_next 2 1 (mk_batch_rwlock false false [1; 1] [Reader; Reader])); [|by apply (rw_try_claim 1 (mk_batch_rwlock false false [1; 1] [Reader; Reader]))].
  apply (rw_next 2 1 (mk_batch_rwlock false false [1; 1] [Reader; GetTest])); [|by apply (rw_get_test 1 (mk_batch_rwlock false false [1; 1] [Reader; GetTest]))].
  apply (rw_next 2 1 (mk_batch_rwlock false false [1; 0] [Reader; GetInc])); [|by apply (rw_get_inc 1 (mk_batch_rwlock false false [1; 0] [Reader; GetInc]))].
  apply (rw_next 2 1 (mk_batch_rwlock false false [1; 0] [Reader; BatchRwlock.Idle])); [|by apply (rw_get_wait 1 (mk_batch_rwlock false false [1; 0] [Reader; BatchRwlock.Idle]))].
  apply (rw_next 2 0 (mk_batch_rwlock false false [1; 0] [GetTest; BatchRwlock.Idle])); [|by apply (rw_get_test 0 (mk_batch_rwlock false false [1; 0] [GetTest; BatchRwlock.Idle]))].
  apply (rw_next 2 0 (mk_batch_rwlock false false [0; 0] [GetInc; BatchRwlock.Idle])); [|by apply (rw_get_inc 0 (mk_batch_rwlock false false [0; 0] [GetInc; BatchRwlock.Idle]))].
  apply (rw_next 2 0 (platform_batch_rwlock_init 2)); [apply rw_init|by apply (rw_get_wait 0 (platform_batch_rwlock_init 2))].
Defined.
