(* ===== verification/Trunk.v ===== *)
(** * The trunk: nodes and incorporation

    trunk.c: the copy-on-write index over the branches.  A node is read from its
    page, receives bundles of branches, is split or flushes to its children, and is
    written to a new page; the incorporation of a branch makes a new root.

    A page of a node is its fields ([trunk_ondisk_node]); the places of pivots and
    bundles in the pages of an extent, the references that keep nodes and branches
    alive, and the inheritance of clocks are left out.  Heap memory is always there;
    the counts of a pivot stay below 2^63 (those of what it receives have 32 bits), and the numbers of pivots and bundles
    of a node below 2^16, as the page of a node must. *)
From S2P Require Import Prelude DataInternal BtreeNode RoutingFilter.

(** ** Data *)
Record trunk_pivot_stats := mk_trunk_pivot_stats { num_kv_bytes : Z; num_tuples : Z }.
(** [branches[0]] is the oldest branch. *)
Record bundle := mk_bundle { maplet : routing_filter; branches : list Z }.
Record trunk_pivot := mk_trunk_pivot {
  prereceive_stats : trunk_pivot_stats;
  stats : trunk_pivot_stats;
  child_addr : Z;  (* the low 8 bits are the compaction count *)
  inflight_bundle_start : Z;
  ci_le_ei : bool;
  pivot_key : key;
}.
Record trunk_node := mk_trunk_node {
  height : Z;
  pivots : list trunk_pivot;
  pivot_bundles : list bundle;
  num_old_bundles : Z;
  inflight_bundles : list bundle;
}.
(** On disk a pivot is followed by its bundle; inflight bundles are from newest to oldest. *)
Record trunk_ondisk_pivot := mk_trunk_ondisk_pivot {
  od_stats : trunk_pivot_stats;
  od_child_addr : Z;
  num_live_inflight_bundles : Z;
  od_key : key;
  od_bundle : option bundle;
}.
Record trunk_ondisk_node := mk_trunk_ondisk_node {
  od_height : Z;
  od_pivots : list trunk_ondisk_pivot;
  od_inflight_bundles : list bundle;
}.
Record trunk_ondisk_node_ref := mk_node_ref { ref_key : key; ref_addr : Z }.
Record trunk_config := mk_trunk_config {
  tc_data_cfg : data_config;
  tc_incorporation_size_kv_bytes : Z;
  tc_target_fanout : Z;
}.

Definition TRUNK_PIVOT_CC_MASK : Z := 255.
Definition TRUNK_PIVOT_ADDR_MASK : Z := u64 (Z.lnot TRUNK_PIVOT_CC_MASK).
Definition TRUNK_PIVOT_CC_SATURATION_THRESHOLD : Z := 255.
Definition trunk_pivot_child_addr (p : trunk_pivot) : Z := Z.land (child_addr p) TRUNK_PIVOT_ADDR_MASK.
Definition trunk_ondisk_pivot_child_addr (p : trunk_ondisk_pivot) : Z := Z.land (od_child_addr p) TRUNK_PIVOT_ADDR_MASK.
Definition trunk_pivot_cc_load (p : trunk_pivot) : Z := Z.land (child_addr p) TRUNK_PIVOT_CC_MASK.
Definition trunk_pivot_cc_set (p : trunk_pivot) (cnt : Z) : trunk_pivot :=
  mk_trunk_pivot (prereceive_stats p) (stats p) (Z.lor (Z.land (child_addr p) TRUNK_PIVOT_ADDR_MASK) cnt) (inflight_bundle_start p) (ci_le_ei p) (pivot_key p).
Definition trunk_pivot_set_inflight_bundle_start (p : trunk_pivot) (start : Z) : trunk_pivot :=
  mk_trunk_pivot (prereceive_stats p) (stats p) (child_addr p) start (ci_le_ei p) (pivot_key p).
Definition trunk_pivot_set_ci_le_ei (p : trunk_pivot) (b : bool) : trunk_pivot :=
  mk_trunk_pivot (prereceive_stats p) (stats p) (child_addr p) (inflight_bundle_start p) b (pivot_key p).

(** ** Bundles and pivots *)
Definition bundle_init : bundle := mk_bundle NULL_ROUTING_FILTER [].
Definition bundle_init_single (f : routing_filter) (branch : Z) : bundle := mk_bundle f [branch].
Definition bundle_num_branches (b : bundle) : Z := lengthZ (branches b).

Definition trunk_pivot_stats_from_btree_pivot_stats (s : btree_pivot_stats) : trunk_pivot_stats :=
  mk_trunk_pivot_stats (u32 (key_bytes s + message_bytes s)) (num_kvs s).
Definition trunk_pivot_stats_are_nonnegative (s : trunk_pivot_stats) : bool := (0 <=? num_kv_bytes s) && (0 <=? num_tuples s).
Definition TRUNK_STATS_ZERO : trunk_pivot_stats := mk_trunk_pivot_stats 0 0.

(** ** The state *)
(** [ts_pivot_states]: how many compactions are under way for a pivot, by its key and
    height.  What the rest of the system answers is in sequences: the page for each
    node that is written, if there is one; whether each node read was in the cache; the
    entry time of each page written, the time, and the interval of evictions. *)
Record trunk_state := mk_trunk_state {
  ts_nodes : gmap Z trunk_ondisk_node;
  ts_root : option trunk_ondisk_node_ref;
  ts_post_incorporation_root : option trunk_ondisk_node_ref;
  ts_pre_incorporation_root : option trunk_ondisk_node_ref;
  ts_pivot_states : key → Z → Z;
  ts_tasks : list trunk_node;  (* the nodes whose bundles are to be compacted *)
  ts_allocs : list (option Z);
  ts_misses : list bool;
  ts_clocks : list (Z * Z * Z);
}.
Definition with_nodes (m : gmap Z trunk_ondisk_node) (s : trunk_state) : trunk_state :=
  mk_trunk_state m (ts_root s) (ts_post_incorporation_root s) (ts_pre_incorporation_root s) (ts_pivot_states s) (ts_tasks s) (ts_allocs s) (ts_misses s) (ts_clocks s).
Definition with_roots (r post pre : option trunk_ondisk_node_ref) (s : trunk_state) : trunk_state :=
  mk_trunk_state (ts_nodes s) r post pre (ts_pivot_states s) (ts_tasks s) (ts_allocs s) (ts_misses s) (ts_clocks s).
Definition with_pivot_states (f : key → Z → Z) (s : trunk_state) : trunk_state :=
  mk_trunk_state (ts_nodes s) (ts_root s) (ts_post_incorporation_root s) (ts_pre_incorporation_root s) f (ts_tasks s) (ts_allocs s) (ts_misses s) (ts_clocks s).
Definition with_tasks (l : list trunk_node) (s : trunk_state) : trunk_state :=
  mk_trunk_state (ts_nodes s) (ts_root s) (ts_post_incorporation_root s) (ts_pre_incorporation_root s) (ts_pivot_states s) l (ts_allocs s) (ts_misses s) (ts_clocks s).
Definition with_allocs (l : list (option Z)) (s : trunk_state) : trunk_state :=
  mk_trunk_state (ts_nodes s) (ts_root s) (ts_post_incorporation_root s) (ts_pre_incorporation_root s) (ts_pivot_states s) (ts_tasks s) l (ts_misses s) (ts_clocks s).
Definition with_misses (l : list bool) (s : trunk_state) : trunk_state :=
  mk_trunk_state (ts_nodes s) (ts_root s) (ts_post_incorporation_root s) (ts_pre_incorporation_root s) (ts_pivot_states s) (ts_tasks s) (ts_allocs s) l (ts_clocks s).
Definition with_clocks (l : list (Z * Z * Z)) (s : trunk_state) : trunk_state :=
  mk_trunk_state (ts_nodes s) (ts_root s) (ts_post_incorporation_root s) (ts_pre_incorporation_root s) (ts_pivot_states s) (ts_tasks s) (ts_allocs s) (ts_misses s) l.

(** A call that returns a status: the error, or what it returns by reference. *)
Abbreviation E A := (M trunk_state (platform_status + A)).
Definition ebind {A B} (m : E A) (f : A → E B) : E B :=
  r ← m; match r with inl rc => mret (inl rc) | inr a => f a end.
Definition eret {A} (a : A) : E A := mret (inr a).
Declare Scope trunk_scope.
Notation "x ←? m ; k" := (ebind m (λ x, k)) (at level 20, m at level 100, k at level 200, right associativity) : trunk_scope.
Open Scope trunk_scope.
Fixpoint mmap {A B} (f : A → M trunk_state B) (l : list A) : M trunk_state (list B) :=
  match l with [] => mret [] | a :: l => b ← f a; bs ← mmap f l; mret (b :: bs) end.
Fixpoint emap {A B} (f : A → E B) (l : list A) : E (list B) :=
  match l with [] => eret [] | a :: l => b ←? f a; bs ←? emap f l; eret (b :: bs) end.

Definition trunk_pivot_create (k : key) (child start : Z) (prereceive st : trunk_pivot_stats) : M trunk_state trunk_pivot :=
  massert (trunk_pivot_stats_are_nonnegative prereceive);;
  massert (trunk_pivot_stats_are_nonnegative st);;
  mret (mk_trunk_pivot prereceive st child start false k).
Definition trunk_pivot_copy (p : trunk_pivot) : M trunk_state trunk_pivot :=
  dst ← trunk_pivot_create (pivot_key p) (child_addr p) (inflight_bundle_start p) (prereceive_stats p) (stats p);
  mret (trunk_pivot_set_ci_le_ei dst (ci_le_ei p)).
Definition trunk_pivot_create_from_ondisk_node_ref (r : trunk_ondisk_node_ref) : M trunk_state trunk_pivot :=
  trunk_pivot_create (ref_key r) (ref_addr r) 0 TRUNK_STATS_ZERO TRUNK_STATS_ZERO.
(** With [coefficient] 1. *)
Definition trunk_pivot_add_tuple_counts (p : trunk_pivot) (st : trunk_pivot_stats) : M trunk_state trunk_pivot :=
  let st' := mk_trunk_pivot_stats (num_kv_bytes (stats p) + num_kv_bytes st) (num_tuples (stats p) + num_tuples st) in
  massert (trunk_pivot_stats_are_nonnegative st');;
  mret (mk_trunk_pivot (prereceive_stats p) st' (child_addr p) (inflight_bundle_start p) (ci_le_ei p) (pivot_key p)).

(** ** Nodes *)
Definition trunk_node_num_children (n : trunk_node) : Z := lengthZ (pivots n) - 1.
Definition trunk_node_is_leaf (n : trunk_node) : bool := height n =? 0.
Definition trunk_node_first_live_inflight_bundle (n : trunk_node) : Z :=
  foldl (λ result p, Z.min result (inflight_bundle_start p)) UINT64_MAX (take (length (pivots n) - 1) (pivots n)).
Definition trunk_node_pivot_has_received_bundles (n : trunk_node) (p : trunk_pivot) : bool :=
  (inflight_bundle_start p <=? num_old_bundles n) && (num_old_bundles n <? lengthZ (inflight_bundles n)).
Definition trunk_node_init_empty_leaf (lb ub : key) : M trunk_state trunk_node :=
  lb_pivot ← trunk_pivot_create lb 0 0 TRUNK_STATS_ZERO TRUNK_STATS_ZERO;
  ub_pivot ← trunk_pivot_create ub 0 0 TRUNK_STATS_ZERO TRUNK_STATS_ZERO;
  mret (mk_trunk_node 0 [lb_pivot; ub_pivot] [bundle_init] 0 []).
Definition trunk_node_copy_init (n : trunk_node) : M trunk_state trunk_node :=
  ps ← mmap trunk_pivot_copy (pivots n);
  mret (mk_trunk_node (height n) ps (pivot_bundles n) (num_old_bundles n) (inflight_bundles n)).

Section trunk.
Context (cfg : trunk_config).
(** What btree_count_in_range, routing_filter_estimate_unique_fp and
    routing_filter_estimate_unique_keys_from_count answer; what the merge of the rough
    pivots of branches yields in a range; and the limit of the filters. *)
Context (btree_count_in_range : Z → key → key → btree_pivot_stats).
Context (routing_filter_estimate_unique_fp : list routing_filter → Z) (routing_filter_estimate_unique_keys_from_count : Z → Z).
Context (rough_pivots : list Z → key → key → list (key * btree_pivot_stats)) (rflimit : Z).
Abbreviation compare := (data_key_compare (tc_data_cfg cfg)).

Definition trunk_node_is_well_formed_leaf (n : trunk_node) : bool :=
  match pivots n with
  | [lb; ub] =>
      (height n =? 0) && (lengthZ (pivot_bundles n) =? 1) && (num_old_bundles n <=? lengthZ (inflight_bundles n)) &&
      (trunk_pivot_child_addr lb =? 0) && (compare (pivot_key lb) (pivot_key ub) <? 0)
  | _ => false
  end.
Fixpoint valid_pivots (num_inflight : Z) (ps : list trunk_pivot) : bool :=
  match ps with
  | lb :: ((ub :: _) as rest) =>
      negb (child_addr lb =? 0) && (inflight_bundle_start lb <=? num_inflight) && (compare (pivot_key lb) (pivot_key ub) <? 0) &&
      trunk_pivot_stats_are_nonnegative (prereceive_stats lb) && trunk_pivot_stats_are_nonnegative (stats lb) && valid_pivots num_inflight rest
  | _ => true
  end.
Definition trunk_node_is_well_formed_index (n : trunk_node) : bool :=
  (0 <? height n) && (1 <? lengthZ (pivots n)) && (lengthZ (pivot_bundles n) =? lengthZ (pivots n) - 1) &&
  (num_old_bundles n <=? lengthZ (inflight_bundles n)) && valid_pivots (lengthZ (inflight_bundles n)) (pivots n).
Definition well_formed (n : trunk_node) : bool :=
  if trunk_node_is_leaf n then trunk_node_is_well_formed_leaf n else trunk_node_is_well_formed_index n.

(** ** Pages *)
Definition trunk_pivot_deserialize (od : trunk_ondisk_node) (was_cache_miss : bool) (i : nat) (odp : trunk_ondisk_pivot) : M trunk_state trunk_pivot :=
  let start := if Z.of_nat i <? lengthZ (od_pivots od) - 1 then lengthZ (od_inflight_bundles od) - num_live_inflight_bundles odp else 0 in
  let child := if was_cache_miss then Z.land (od_child_addr odp) TRUNK_PIVOT_ADDR_MASK else od_child_addr odp in
  trunk_pivot_create (od_key odp) child start (od_stats odp) (od_stats odp).
Definition trunk_node_deserialize (addr : Z) : M trunk_state trunk_node :=
  s ← mget;
  od ← mopt (ts_nodes s !! addr);
  let was_cache_miss := default false (head (ts_misses s)) in
  mput (with_misses (tail (ts_misses s)) s);;
  ps ← mmap (λ x, trunk_pivot_deserialize od was_cache_miss x.1 x.2) (imap pair (od_pivots od));
  let n := mk_trunk_node (od_height od) ps (omap od_bundle (od_pivots od)) (lengthZ (od_inflight_bundles od)) (reverse (od_inflight_bundles od)) in
  massert (well_formed n);;
  mret n.

Definition pivot_serialize (n : trunk_node) (i : nat) (p : trunk_pivot) : M trunk_state trunk_ondisk_pivot :=
  massert (trunk_pivot_stats_are_nonnegative (stats p));;
  mret (mk_trunk_ondisk_pivot (stats p) (child_addr p)
    (if Z.of_nat i <? lengthZ (pivots n) - 1 then lengthZ (inflight_bundles n) - inflight_bundle_start p else 0)
    (pivot_key p) (if Z.of_nat i <? lengthZ (pivots n) - 1 then pivot_bundles n !! i else None)).
(** If a compaction count has reached its limit, all of the node start again. *)
Definition reset_compaction_counts (n : trunk_node) : trunk_node :=
  if existsb (λ p, TRUNK_PIVOT_CC_SATURATION_THRESHOLD <=? trunk_pivot_cc_load p) (pivots n)
  then mk_trunk_node (height n) ((λ p, trunk_pivot_cc_set p 0) <$> pivots n) (pivot_bundles n) (num_old_bundles n) (inflight_bundles n)
  else n.
(** The page for a node, or none. *)
Definition alloc_page : E Z :=
  s ← mget;
  mput (with_allocs (tail (ts_allocs s)) s);;
  mret (match head (ts_allocs s) with Some (Some addr) => inr addr | _ => inl STATUS_NO_MEMORY end).
Definition trunk_node_serialize (n : trunk_node) : E (trunk_node * trunk_ondisk_node_ref) :=
  massert (well_formed n);;
  header_addr ←? alloc_page;
  let n := reset_compaction_counts n in
  let min_inflight_bundle_start := trunk_node_first_live_inflight_bundle n in
  ps ← mmap (λ x, pivot_serialize n x.1 x.2) (imap pair (pivots n));
  first ← mopt (pivots n !! 0%nat);
  let od := mk_trunk_ondisk_node (height n) ps (reverse (drop (Z.to_nat min_inflight_bundle_start) (inflight_bundles n))) in
  mmod (λ s, with_nodes (<[header_addr := od]> (ts_nodes s)) s);;
  eret (n, mk_node_ref (pivot_key first) header_addr).
(** Whether the children that have received bundles are compacted again before they
    would be evicted. *)
Definition compute_ci_le_ei (clock : Z * Z * Z) (n : trunk_node) (i : nat) (p : trunk_pivot) : trunk_pivot :=
  let '(node_entry_time, now, ei) := clock in
  if negb (node_entry_time =? 0) && negb (ei =? 0) && (node_entry_time <? now) && (Z.of_nat i <? trunk_node_num_children n) &&
     trunk_node_pivot_has_received_bundles n p && negb (trunk_pivot_cc_load p =? 0)
  then trunk_pivot_set_ci_le_ei p ((now - node_entry_time) / trunk_pivot_cc_load p <=? ei) else p.
Definition serialize_node (n : trunk_node) : E (trunk_node * trunk_ondisk_node_ref) :=
  r ←? trunk_node_serialize n;
  s ← mget;
  mput (with_clocks (tail (ts_clocks s)) s);;
  let n := r.1 in
  let clock := default (0, 0, 0) (head (ts_clocks s)) in
  eret (mk_trunk_node (height n) (imap (compute_ci_le_ei clock n) (pivots n)) (pivot_bundles n) (num_old_bundles n) (inflight_bundles n), r.2).
Definition serialize_nodes (nodes : list trunk_node) : E (list (trunk_node * trunk_ondisk_node_ref)) := emap serialize_node nodes.
Definition serialize_nodes_and_save_contingent_compactions (nodes : list trunk_node) : E (list trunk_ondisk_node_ref) :=
  l ←? serialize_nodes nodes;
  mmod (λ s, with_tasks (ts_tasks s ++ l.*1) s);;
  eret (l.*2).

(** ** Receiving bundles *)
Definition accumulate_branch_tuple_counts_in_range (minkey maxkey : key) (acc : btree_pivot_stats) (bref : Z) : btree_pivot_stats :=
  let st := btree_count_in_range bref minkey maxkey in
  mk_pivot_stats (u32 (num_kvs acc + num_kvs st)) (u32 (key_bytes acc + key_bytes st)) (u32 (message_bytes acc + message_bytes st)).
Definition accumulate_inflight_bundle_tuple_counts_in_range (minkey maxkey : key) (acc : btree_pivot_stats) (b : bundle) : btree_pivot_stats :=
  foldl (accumulate_branch_tuple_counts_in_range minkey maxkey) acc (branches b).
Fixpoint add_received_counts (received : list bundle) (ps : list trunk_pivot) : M trunk_state (list trunk_pivot) :=
  match ps with
  | pvt :: ((next :: _) as rest) =>
      let st := foldl (accumulate_inflight_bundle_tuple_counts_in_range (pivot_key pvt) (pivot_key next)) (mk_pivot_stats 0 0 0) received in
      pvt ← trunk_pivot_add_tuple_counts pvt (trunk_pivot_stats_from_btree_pivot_stats st);
      rest ← add_received_counts received rest;
      mret (pvt :: rest)
  | _ => mret ps
  end.
Definition trunk_node_receive_bundles (n : trunk_node) (pivot_bundle : option bundle) (inflight : list bundle) (inflight_start : Z) : M trunk_state trunk_node :=
  let routed := match pivot_bundle with Some b => [b] | None => [] end in
  let live := drop (Z.to_nat inflight_start) inflight in
  ps ← add_received_counts (routed ++ live) (pivots n);
  mret (mk_trunk_node (height n) ps (pivot_bundles n) (num_old_bundles n)
    (inflight_bundles n ++ filter (λ b, 0 < bundle_num_branches b) routed ++ live)).

(** ** Leaf splits *)
Definition leaf_might_need_to_split (leaf_stats : trunk_pivot_stats) : bool :=
  (rflimit <? num_tuples leaf_stats) || (u64 (tc_incorporation_size_kv_bytes cfg * tc_target_fanout cfg) <? num_kv_bytes leaf_stats).
(** What is counted for the bundles: tuples without a filter; with one, the
    fingerprints, those that are unique in their filter, and the filters. *)
Fixpoint count_bundles (minkey maxkey : key) (bundles : list bundle) (unfiltered_tuples num_fp num_unique_fp : Z) (maplets : list routing_filter) :
    M trunk_state (Z * Z * Z * list routing_filter) :=
  match bundles with
  | [] => mret (unfiltered_tuples, num_fp, num_unique_fp, maplets)
  | bndl :: bundles =>
      if routing_filters_equal (maplet bndl) NULL_ROUTING_FILTER then
        massert (bundle_num_branches bndl <=? 1);;
        branch ← mopt (branches bndl !! 0%nat);
        count_bundles minkey maxkey bundles (u64 (unfiltered_tuples + num_kvs (btree_count_in_range branch minkey maxkey))) num_fp num_unique_fp maplets
      else count_bundles minkey maxkey bundles unfiltered_tuples (u64 (num_fp + rf_num_fingerprints (maplet bndl)))
             (u64 (num_unique_fp + rf_num_unique (maplet bndl))) (maplets ++ [maplet bndl])
  end.
Definition leaf_estimate_unique_keys (leaf : trunk_node) : M trunk_state Z :=
  massert (trunk_node_is_well_formed_leaf leaf);;
  first ← mopt (pivots leaf !! 0%nat);
  last ← mopt (pivots leaf !! 1%nat);
  '(unfiltered_tuples, num_fp, num_unique_fp, maplets) ← count_bundles (pivot_key first) (pivot_key last) (inflight_bundles leaf) 0 0 0 [];
  pivot_bundle ← mopt (pivot_bundles leaf !! 0%nat);
  if negb (0 <? num_fp) then mret unfiltered_tuples else
  let num_globally_unique_fp := u32 (routing_filter_estimate_unique_keys_from_count (u32 (routing_filter_estimate_unique_fp (maplets ++ [maplet pivot_bundle])))) in
  let num_tuples := num_tuples (stats first) in
  let est_num_leaf_sb_unique := u64 (num_unique_fp * num_tuples) / num_fp in
  let est_num_non_leaf_sb_unique := u64 (num_fp - est_num_leaf_sb_unique) in
  let est_leaf_unique := u64 (num_globally_unique_fp - est_num_non_leaf_sb_unique) in
  mret (u64 (unfiltered_tuples + est_leaf_unique)).
Definition leaf_split_target_num_leaves (leaf : trunk_node) : M trunk_state Z :=
  massert (trunk_node_is_well_formed_leaf leaf);;
  first ← mopt (pivots leaf !! 0%nat);
  let leaf_stats := stats first in
  if negb (leaf_might_need_to_split leaf_stats) then mret 1 else
  let tuples := num_tuples leaf_stats in
  estimate ← leaf_estimate_unique_keys leaf;
  let estimate := if u64 (tuples * 19) / 20 <? estimate then tuples else estimate in
  if (tuples =? 0) || (tc_incorporation_size_kv_bytes cfg =? 0) || (rflimit =? 0) then mopt None else
  let estimated_unique_kv_bytes := u64 (estimate * num_kv_bytes leaf_stats) / tuples in
  let target := u64 (estimated_unique_kv_bytes + tc_incorporation_size_kv_bytes cfg / 2) / tc_incorporation_size_kv_bytes cfg in
  let enough := u64 (tuples + rflimit - 1) / rflimit in
  let target := if target <? enough then enough else target in
  mret (if target <? 1 then 1 else target).
Fixpoint select_pivots (items : list (key * btree_pivot_stats)) (leaf_kv_bytes target_num_leaves leaf_num cumulative_kv_bytes current_tuples : Z) : list key :=
  match items with
  | [] => []
  | (curr_key, pivot_data) :: items =>
      if leaf_num <? target_num_leaves then
        let new_cumulative_kv_bytes := u64 (cumulative_kv_bytes + key_bytes pivot_data + message_bytes pivot_data) in
        let new_tuples := u64 (current_tuples + num_kvs pivot_data) in
        let next_boundary := u64 (leaf_num * leaf_kv_bytes) / target_num_leaves in
        if ((cumulative_kv_bytes <? next_boundary) && (next_boundary <=? new_cumulative_kv_bytes)) || (rflimit <? new_tuples)
        then curr_key :: select_pivots items leaf_kv_bytes target_num_leaves (leaf_num + 1) new_cumulative_kv_bytes (u64 (num_kvs pivot_data))
        else select_pivots items leaf_kv_bytes target_num_leaves leaf_num new_cumulative_kv_bytes new_tuples
      else []
  end.
Definition leaf_split_select_pivots (leaf : trunk_node) (target_num_leaves : Z) : M trunk_state (list key) :=
  first ← mopt (pivots leaf !! 0%nat);
  last ← mopt (pivots leaf !! 1%nat);
  pivot_bundle ← mopt (pivot_bundles leaf !! 0%nat);
  let merged := branches pivot_bundle ++ (drop (Z.to_nat (inflight_bundle_start first)) (inflight_bundles leaf) ≫= branches) in
  let items := rough_pivots merged (pivot_key first) (pivot_key last) in
  mret (pivot_key first :: select_pivots items (num_kv_bytes (stats first)) target_num_leaves 1 0 0 ++ [pivot_key last]).
Definition leaf_split_init (leaf : trunk_node) (min_key max_key : key) : M trunk_state trunk_node :=
  massert (trunk_node_is_leaf leaf);;
  pvt ← mopt (pivots leaf !! 0%nat);
  new_leaf ← trunk_node_init_empty_leaf min_key max_key;
  massert (trunk_node_is_well_formed_leaf new_leaf);;
  pivot_bundle ← mopt (pivot_bundles leaf !! 0%nat);
  trunk_node_receive_bundles new_leaf (Some pivot_bundle) (inflight_bundles leaf) (inflight_bundle_start pvt).
Definition trunk_node_pivot_eventual_num_branches (n : trunk_node) (pivot_num : nat) : M trunk_state Z :=
  b ← mopt (pivot_bundles n !! pivot_num);
  p ← mopt (pivots n !! pivot_num);
  s ← mget;
  mret (bundle_num_branches b + ts_pivot_states s (pivot_key p) (height n) + Z.b2z (trunk_node_pivot_has_received_bundles n p)).
Fixpoint split_leaves (leaf : trunk_node) (keys : list key) : M trunk_state (list trunk_node) :=
  match keys with
  | min_key :: ((max_key :: _) as rest) =>
      new_leaf ← leaf_split_init leaf min_key max_key;
      massert (trunk_node_is_well_formed_leaf new_leaf);;
      l ← split_leaves leaf rest;
      mret (new_leaf :: l)
  | _ => mret []
  end.
(** The new leaves, and whether the compactions of the old one are abandoned. *)
Definition leaf_split (leaf : trunk_node) : M trunk_state (list trunk_node * bool) :=
  target_num_leaves ← leaf_split_target_num_leaves leaf;
  eventual ← trunk_node_pivot_eventual_num_branches leaf 0;
  if (target_num_leaves =? 1) && (eventual <=? tc_target_fanout cfg)
  then copy ← trunk_node_copy_init leaf; mret ([copy], false)
  else
    keys ← leaf_split_select_pivots leaf target_num_leaves;
    new_leaves ← split_leaves leaf keys;
    mret (new_leaves, true).
Definition trunk_pivot_state_map_abandon_entry (k : key) (h : Z) : M trunk_state unit :=
  mmod (λ s, with_pivot_states (λ k' h', if (h' =? h) && (compare k' k =? 0) then 0 else ts_pivot_states s k' h') s).
Definition restore_balance_leaf (leaf : trunk_node) : E (list trunk_ondisk_node_ref) :=
  r ← leaf_split leaf;
  first ← mopt (pivots leaf !! 0%nat);
  mwhen r.2 (trunk_pivot_state_map_abandon_entry (pivot_key first) (height leaf));;
  serialize_nodes_and_save_contingent_compactions r.1.

(** ** Index splits *)
Definition index_init_split (index : trunk_node) (start_child_num end_child_num : Z) : M trunk_state trunk_node :=
  ps ← mmap trunk_pivot_copy (take (Z.to_nat (end_child_num + 1 - start_child_num)) (drop (Z.to_nat start_child_num) (pivots index)));
  mret (mk_trunk_node (height index) ps
    (take (Z.to_nat (end_child_num - start_child_num)) (drop (Z.to_nat start_child_num) (pivot_bundles index)))
    (num_old_bundles index) (inflight_bundles index)).
Definition index_split (index : trunk_node) : M trunk_state (list trunk_node) :=
  massert (trunk_node_is_well_formed_index index);;
  if tc_target_fanout cfg =? 0 then mopt None else
  let num_children := trunk_node_num_children index in
  let num_nodes := (num_children + tc_target_fanout cfg - 1) / tc_target_fanout cfg in
  mmap (λ i, n ← index_init_split index (i * num_children / num_nodes) ((i + 1) * num_children / num_nodes);
             massert (trunk_node_is_well_formed_index n);; mret n) (seqZ 0 num_nodes).

(** ** Flushing *)
(** [vector_replace] of one element. *)
Definition vector_replace {A} (l : list A) (i : nat) (l' : list A) : list A := take i l ++ l' ++ drop (S i) l.
Section flush.
Context (flush_then_compact : trunk_node → option bundle → list bundle → Z → E (list trunk_ondisk_node_ref)).
Definition flush_to_one_child (index : trunk_node) (pivot_num : nat) : E trunk_node :=
  pvt ← mopt (pivots index !! pivot_num);
  b ← mopt (pivot_bundles index !! pivot_num);
  let parent_cc := trunk_pivot_cc_load pvt in
  child ← trunk_node_deserialize (trunk_pivot_child_addr pvt);
  new_childrefs ←? flush_then_compact child (Some b) (inflight_bundles index) (inflight_bundle_start pvt);
  new_pivots ← mmap trunk_pivot_create_from_ondisk_node_ref new_childrefs;
  let num_children := lengthZ new_pivots in
  let child_cc := if 0 <? num_children then parent_cc / num_children else 0 in
  let new_pivots := (λ p, trunk_pivot_cc_set (trunk_pivot_set_inflight_bundle_start p (lengthZ (inflight_bundles index))) child_cc) <$> new_pivots in
  let new_pivot_bundles := (λ _, bundle_init) <$> new_pivots in
  trunk_pivot_state_map_abandon_entry (pivot_key pvt) (height index);;
  eret (mk_trunk_node (height index) (vector_replace (pivots index) pivot_num new_pivots)
    (vector_replace (pivot_bundles index) pivot_num new_pivot_bundles) (num_old_bundles index) (inflight_bundles index)).
(** The loop over the children, which flushes to all that are too full; the others'
    fullest, by its number and its bytes. *)
Fixpoint flush_full_children (fuel : nat) (index : trunk_node) (i fullest_child : nat) (fullest_kv_bytes : Z) : E (trunk_node * nat * Z) :=
  if negb (Z.of_nat i <? trunk_node_num_children index) then eret (index, fullest_child, fullest_kv_bytes) else
  match fuel with
  | O => mfuel
  | S fuel =>
      pvt ← mopt (pivots index !! i);
      eventual ← trunk_node_pivot_eventual_num_branches index i;
      if (tc_target_fanout cfg <? eventual) || (rflimit <? num_tuples (stats pvt)) then
        index ←? flush_to_one_child index i;
        flush_full_children fuel index (S i) fullest_child fullest_kv_bytes
      else if fullest_kv_bytes <? num_kv_bytes (stats pvt) then flush_full_children fuel index (S i) i (num_kv_bytes (stats pvt))
      else flush_full_children fuel index (S i) fullest_child fullest_kv_bytes
  end.
Definition restore_balance_index (fuel : nat) (index : trunk_node) : E (list trunk_ondisk_node_ref) :=
  massert (trunk_node_is_well_formed_index index);;
  r ←? flush_full_children fuel index 0 0 0;
  index ←? (if tc_incorporation_size_kv_bytes cfg <? r.2 then flush_to_one_child r.1.1 r.1.2 else eret r.1.1);
  new_nodes ← index_split index;
  serialize_nodes_and_save_contingent_compactions new_nodes.
End flush.
(** [fuel] is for the levels below the node, and for each loop over children. *)
Fixpoint flush_then_compact (fuel : nat) (n : trunk_node) (routed : option bundle) (inflight : list bundle) (inflight_start : Z) :
    E (list trunk_ondisk_node_ref) :=
  match fuel with
  | O => mfuel
  | S fuel =>
      n ← trunk_node_receive_bundles n routed inflight inflight_start;
      massert (well_formed n);;
      if trunk_node_is_leaf n then restore_balance_leaf n
      else restore_balance_index (flush_then_compact fuel) fuel n
  end.

(** ** Incorporation *)
Definition build_new_roots (h : Z) (node_refs : list trunk_ondisk_node_ref) : E (list trunk_ondisk_node_ref) :=
  massert (1 <? lengthZ node_refs);;
  ps ← mmap trunk_pivot_create_from_ondisk_node_ref node_refs;
  ub_pivot ← trunk_pivot_create POSITIVE_INFINITY_KEY 0 0 TRUNK_STATS_ZERO TRUNK_STATS_ZERO;
  let new_root := mk_trunk_node (h + 1) (ps ++ [ub_pivot]) ((λ _, bundle_init) <$> ps) 0 [] in
  massert (trunk_node_is_well_formed_index new_root);;
  new_nodes ← index_split new_root;
  l ←? serialize_nodes new_nodes;
  eret (l.*2).
(** [while (1 < vector_length(&new_node_refs))] *)
Fixpoint build_roots (fuel : nat) (h : Z) (node_refs : list trunk_ondisk_node_ref) : E (list trunk_ondisk_node_ref) :=
  if negb (1 <? lengthZ node_refs) then eret node_refs else
  match fuel with
  | O => mfuel
  | S fuel => node_refs ←? build_new_roots h node_refs; build_roots fuel (h + 1) node_refs
  end.
Definition trunk_incorporate_prepare (fuel : nat) (branch_addr : Z) : E unit :=
  mmod (with_tasks []);;
  let inflight := [bundle_init_single NULL_ROUTING_FILTER branch_addr] in
  s ← mget;
  root ← match ts_root s with
         | Some r => trunk_node_deserialize (ref_addr r)
         | None => n ← trunk_node_init_empty_leaf NEGATIVE_INFINITY_KEY POSITIVE_INFINITY_KEY; massert (trunk_node_is_well_formed_leaf n);; mret n
         end;
  new_node_refs ←? flush_then_compact fuel root None inflight 0;
  new_node_refs ←? build_roots fuel (height root) new_node_refs;
  s ← mget;
  massert (bool_decide (ts_post_incorporation_root s = None));;
  r ← mopt (new_node_refs !! 0%nat);
  mput (with_roots (ts_root s) (Some r) (ts_pre_incorporation_root s) s);;
  eret tt.
Definition trunk_incorporate_commit : M trunk_state unit :=
  s ← mget;
  massert (bool_decide (ts_pre_incorporation_root s = None));;
  mput (with_roots (ts_post_incorporation_root s) None (ts_root s) s).
(** The tasks of the incorporation are for the queue. *)
Definition trunk_incorporate_cleanup : M trunk_state unit :=
  mmod (λ s, with_roots (ts_root s) (ts_post_incorporation_root s) None s).
End trunk.
