(* ===== verification/TrunkInv.v ===== *)
(** * Trunk: trees of nodes

    [tree]: the pages that make a subtree of a given height over a range of keys, and the
    branches on the path of each key, from newest to oldest; [node_ok]: the same of a node
    in memory.  Then the calculus of runs with fuel, and what a step keeps of the state. *)
From S2P Require Import Prelude DataInternal BtreeNode RoutingFilter Trunk.

(** ** Runs with fuel *)
(** With enough fuel the run returns, always the same, and [Q] holds. *)
Definition wp {S A} (m : nat → M S A) (s : S) (Q : A → S → Prop) : Prop :=
  ∃ n a s', (∀ fuel, (n ≤ fuel)%nat → m fuel s = Ret (a, s')) ∧ Q a s'.
Section wp.
Context {S : Type}.
Lemma wp_run {A} (m : M S A) s (Q : A → S → Prop) a s' : m s = Ret (a, s') → Q a s' → wp (λ _, m) s Q.
Proof. intros. by exists 0%nat, a, s'. Qed.
Lemma wp_ret {A} (a : A) s (Q : A → S → Prop) : Q a s → wp (λ _, mret a) s Q.
Proof. by apply wp_run. Qed.
Lemma wp_mono {A} (m : nat → M S A) s (Q Q' : A → S → Prop) : wp m s Q → (∀ a s', Q a s' → Q' a s') → wp m s Q'.
Proof. intros (n & a & s' & Hm & HQ) H. exists n, a, s'. auto. Qed.
Lemma wp_bind {A B} (m : nat → M S A) (f : nat → A → M S B) s Q R :
  wp m s R → (∀ a s1, R a s1 → wp (λ fuel, f fuel a) s1 Q) → wp (λ fuel, m fuel ≫= f fuel) s Q.
Proof.
  intros (n & a & s1 & Hm & HR) Hf. destruct (Hf a s1 HR) as (n' & b & s2 & Hf' & HQ).
  exists (n `max` n')%nat, b, s2. split; [|done]. intros fuel Hle. rewrite (bind_run _ _ _ _ _ (Hm fuel ltac:(lia))). apply Hf'. lia.
Qed.
(** A run at the head that needs no fuel. *)
Lemma wp_bind_run {A B} (m : M S A) (f : nat → A → M S B) s Q a s1 :
  m s = Ret (a, s1) → wp (λ fuel, f fuel a) s1 Q → wp (λ fuel, m ≫= f fuel) s Q.
Proof.
  intros Hm (n & b & s2 & Hf & HQ). exists n, b, s2. split; [|done]. intros fuel Hle. rewrite (bind_run _ _ _ _ _ Hm). by apply Hf.
Qed.
Lemma wp_ext {A} (m m' : nat → M S A) s Q : (∀ fuel, m fuel s = m' fuel s) → wp m' s Q → wp m s Q.
Proof. intros He (n & b & s2 & Hf & HQ). exists n, b, s2. split; [|done]. intros fuel Hle. rewrite He. by apply Hf. Qed.
(** One level of fuel is spent. *)
Lemma wp_fuel {A} (m m' : nat → M S A) s Q : (∀ fuel, m (Datatypes.S fuel) s = m' fuel s) → wp m' s Q → wp m s Q.
Proof.
  intros He (n & b & s2 & Hf & HQ). exists (Datatypes.S n), b, s2. split; [|done].
  intros [|fuel] Hle; [lia|]. rewrite He. apply Hf. lia.
Qed.
Lemma wp_opt {A B} (o : option A) (f : nat → A → M S B) s Q a : o = Some a → wp (λ fuel, f fuel a) s Q → wp (λ fuel, mopt o ≫= f fuel) s Q.
Proof. intros ->. by apply wp_bind_run. Qed.
Lemma wp_assert {B} b (f : nat → unit → M S B) s Q : b = true → wp (λ fuel, f fuel tt) s Q → wp (λ fuel, massert b ≫= f fuel) s Q.
Proof. intros ->. by apply wp_bind_run. Qed.
Lemma wp_get {B} (f : nat → S → M S B) s Q : wp (λ fuel, f fuel s) s Q → wp (λ fuel, mget ≫= f fuel) s Q.
Proof. by apply wp_bind_run. Qed.
End wp.

(** The post-condition of a call that fails with an error and [I], or returns with [Q]. *)
Definition ok_or {S A} (I : S → Prop) (Q : A → S → Prop) (r : platform_status + A) (s : S) : Prop :=
  match r with inl rc => rc ≠ STATUS_OK ∧ I s | inr a => Q a s end.
Lemma wp_ebind {A B} (m : nat → E A) (f : nat → A → E B) s I R Q :
  wp m s (ok_or I R) → (∀ a s1, R a s1 → wp (λ fuel, f fuel a) s1 (ok_or I Q)) → wp (λ fuel, ebind (m fuel) (f fuel)) s (ok_or I Q).
Proof.
  intros Hm Hf. unfold ebind. eapply wp_bind; [exact Hm|]. intros [rc|a] s1 H; [|by apply Hf]. by apply wp_ret.
Qed.
Lemma ok_or_mono {S A} (I I' : S → Prop) (Q Q' : A → S → Prop) r s :
  ok_or I Q r s → (∀ t, I t → I' t) → (∀ a t, Q a t → Q' a t) → ok_or I' Q' r s.
Proof. destruct r; cbn; [intros [??]|intros ?]; intros H1 H2; auto. Qed.

(** Maps that leave the state. *)
Lemma mmap_pure {A B} (f : A → M trunk_state B) (g : A → B) l s :
  (∀ x, x ∈ l → f x s = Ret (g x, s)) → mmap f l s = Ret (g <$> l, s).
Proof.
  induction l as [|x l IH]; intros H; [done|]. cbn [mmap fmap list_fmap].
  rewrite (bind_run _ _ _ _ _ (H x ltac:(left))), (bind_run _ _ _ _ _ (IH (λ y Hy, H y ltac:(by right)))). done.
Qed.

(** ** Branches *)
(** What a client knows of the bundles besides, of their filters say. *)
Class bundle_inv := { bundle_pred : bundle → Prop; bundle_pred_init : bundle_pred bundle_init }.
(** A null filter is of at most one branch. *)
Definition bundle_ok `{bundle_inv} (b : bundle) : Prop := (rf_addr (maplet b) = 0 → (length (branches b) ≤ 1)%nat) ∧ bundle_pred b.
Definition inflight_ok `{bundle_inv} (b : bundle) : Prop := bundle_ok b ∧ branches b ≠ [].
Lemma bundle_ok_init `{bundle_inv} : bundle_ok bundle_init.
Proof. split; [intros _; cbn; lia|apply bundle_pred_init]. Qed.
(** The branches of bundles listed from oldest to newest, from newest to oldest. *)
Definition newest (bs : list bundle) : list Z := reverse (bs ≫= branches).
Lemma newest_app b1 b2 : newest (b1 ++ b2) = newest b2 ++ newest b1.
Proof. unfold newest. by rewrite bind_app, reverse_app. Qed.
Lemma newest_cons b bs : newest (b :: bs) = newest bs ++ reverse (branches b).
Proof. change (b :: bs) with ([b] ++ bs). rewrite newest_app. f_equal. unfold newest. cbn. by rewrite app_nil_r. Qed.
Lemma newest_reverse_cons b bs : newest (reverse (b :: bs)) = reverse (branches b) ++ newest (reverse bs).
Proof. rewrite reverse_cons, newest_app. f_equal. unfold newest. cbn. by rewrite app_nil_r. Qed.
Lemma newest_nil : newest [] = [].
Proof. done. Qed.
Lemma newest_init bs : newest (bundle_init :: bs) = newest bs.
Proof. done. Qed.
Definition stats_ok (st : trunk_pivot_stats) : Prop :=
  0 ≤ num_kv_bytes st ∧ 0 ≤ num_tuples st ∧ (num_tuples st = 0 → num_kv_bytes st = 0).
Lemma stats_ok_nonneg st : stats_ok st → trunk_pivot_stats_are_nonnegative st = true.
Proof. intros (? & ? & ?). unfold trunk_pivot_stats_are_nonnegative. apply andb_true_iff. split; lia. Qed.
Lemma stats_ok_zero : stats_ok TRUNK_STATS_ZERO.
Proof. done. Qed.

(** ** Addresses *)
Definition aligned (addr : Z) : Prop := Z.land addr TRUNK_PIVOT_ADDR_MASK = addr.
Lemma mask_aligned a : aligned (Z.land a TRUNK_PIVOT_ADDR_MASK).
Proof. unfold aligned. by rewrite <- Z.land_assoc, Z.land_diag. Qed.
(** The compaction count does not disturb the address, nor the address the count. *)
Lemma cc_set_addr a cnt : 0 ≤ cnt < 256 → Z.land (Z.lor (Z.land a TRUNK_PIVOT_ADDR_MASK) cnt) TRUNK_PIVOT_ADDR_MASK = Z.land a TRUNK_PIVOT_ADDR_MASK.
Proof.
  intros Hc. rewrite Z.land_lor_distr_l, <- Z.land_assoc, Z.land_diag.
  assert (Z.land cnt TRUNK_PIVOT_ADDR_MASK = 0) as ->; [|by rewrite Z.lor_0_r].
  apply Z.bits_inj'. intros i Hi. rewrite Z.land_spec, Z.bits_0. destruct (decide (i < 8)) as [Hl|Hl].
  - assert (Z.testbit TRUNK_PIVOT_ADDR_MASK i = false) as ->; [|by rewrite andb_false_r].
    unfold TRUNK_PIVOT_ADDR_MASK, TRUNK_PIVOT_CC_MASK, u64. rewrite Z.mod_pow2_bits_low, Z.lnot_spec by lia.
    change 255 with (Z.ones 8). by rewrite Z.ones_spec_low by lia.
  - rewrite <- (Z.mod_small cnt (2 ^ 8)), Z.mod_pow2_bits_high by lia. done.
Qed.
Lemma trunk_pivot_cc_range p : 0 ≤ trunk_pivot_cc_load p < 256.
Proof.
  unfold trunk_pivot_cc_load, TRUNK_PIVOT_CC_MASK. change 255 with (Z.ones 8). rewrite Z.land_ones by lia. by apply Z.mod_pos_bound.
Qed.

(** ** Trees *)
Section tree.
Context (cfg : trunk_config) {BI : bundle_inv}.
Definition key_le (a b : key) : Prop := data_key_compare (tc_data_cfg cfg) a b ≤ 0.
Definition key_lt (a b : key) : Prop := data_key_compare (tc_data_cfg cfg) a b < 0.
Definition in_range (lo hi k : key) : Prop := key_small k ∧ key_le lo k ∧ key_lt k hi.

(** The elements of [l] are for consecutive ranges from [lo] to [hi]. *)
Fixpoint covers {X} (P : key → key → X → Prop) (lo hi : key) (l : list X) : Prop :=
  match l with
  | [] => lo = hi
  | x :: l => ∃ mid, key_small mid ∧ key_lt lo mid ∧ P lo mid x ∧ covers P mid hi l
  end.
Lemma covers_app {X} (P : key → key → X → Prop) lo hi l1 l2 :
  covers P lo hi (l1 ++ l2) ↔ ∃ mid, covers P lo mid l1 ∧ covers P mid hi l2.
Proof.
  revert lo. induction l1 as [|x l1 IH]; intros lo; cbn [app covers].
  - split; [by exists lo|by intros (? & -> & ?)].
  - split.
    + intros (m & Hm & Hl & HP & Hc). apply IH in Hc as (m' & H1 & H2). exists m'. split; [|done]. by exists m.
    + intros (m' & (m & Hm & Hl & HP & H1) & H2). exists m. split_and!; try done. apply IH. by exists m'.
Qed.
Lemma covers_impl {X} (P Q : key → key → X → Prop) lo hi l :
  (∀ a b x, x ∈ l → P a b x → Q a b x) → covers P lo hi l → covers Q lo hi l.
Proof.
  revert lo. induction l as [|x l IH]; intros lo H; [done|]. cbn. intros (m & Hm & Hl & HP & Hc). exists m. split_and!; try done.
  - apply H; [left|done].
  - apply IH; [|done]. intros a b y Hy. apply H. by right.
Qed.
Lemma covers_fmap {X Y} (f : X → Y) (P : key → key → Y → Prop) lo hi l :
  covers P lo hi (f <$> l) ↔ covers (λ a b x, P a b (f x)) lo hi l.
Proof.
  revert lo. induction l as [|x l IH]; intros lo; [done|]. cbn. split; intros (m & Hm & Hl & HP & Hc); exists m; split_and!; try done; by apply IH.
Qed.
Lemma covers_elem {X} (P : key → key → X → Prop) lo hi l x : covers P lo hi l → x ∈ l → ∃ a b, P a b x ∧ key_lt a b.
Proof.
  revert lo. induction l as [|y l IH]; intros lo Hc Hx; [by apply not_elem_of_nil in Hx|]. destruct Hc as (m & ? & ? & HP & Hc).
  apply elem_of_cons in Hx as [->|Hx]; [by exists lo, m|]. by apply (IH m).
Qed.
Lemma covers_one {X} (P : key → key → X → Prop) lo hi l : covers P lo hi l → length l = 1%nat → ∃ x, l = [x] ∧ P lo hi x ∧ key_lt lo hi.
Proof. destruct l as [|x [|]]; try done. intros (m & ? & ? & HP & <-) _. by exists x. Qed.

Section order.
Context `{!key_order (tc_data_cfg cfg)}.
Lemma covers_le {X} (P : key → key → X → Prop) lo hi l : key_small lo → covers P lo hi l → key_small hi ∧ (l = [] ∨ key_lt lo hi).
Proof.
  revert lo. induction l as [|x l IH]; intros lo Hlo Hc; [cbn in Hc; subst; auto|]. destruct Hc as (m & Hm & Hl & HP & Hc).
  destruct (IH m Hm Hc) as [Hhi [->|Hlt]].
  - cbn in Hc. subst. auto.
  - split; [done|]. right. eapply (dkc_lt_le (tc_data_cfg cfg) lo m hi); try done. unfold key_lt in Hlt. lia.
Qed.
Lemma in_range_sub lo a b hi k : key_small lo → key_small a → key_small b → key_small hi → key_le lo a → key_le b hi → in_range a b k → in_range lo hi k.
Proof.
  intros Hlo Ha Hb Hhi H1 H2 (Hk & H3 & H4). split; [done|]. split.
  - eapply (dkc_trans (tc_data_cfg cfg) lo a k); try done.
  - eapply (dkc_lt_le (tc_data_cfg cfg) k b hi); try done.
Qed.
End order.

(** A pivot of a leaf, and one of an index node whose child satisfies [T]; [own] are the
    branches of the pivot itself. *)
Definition leaf_child (lo hi : key) (child : Z) (own : list Z) (B : key → list Z) : Prop :=
  child = 0 ∧ ∀ k, in_range lo hi k → B k = own.
Definition index_child (T : key → key → Z → (key → list Z) → Prop) (lo hi : key) (child : Z) (own : list Z) (B : key → list Z) : Prop :=
  ∃ B', T lo hi child B' ∧ ∀ k, in_range lo hi k → B k = own ++ B' k.
Definition od_pivot_ok (C : key → key → Z → list Z → (key → list Z) → Prop) (od : trunk_ondisk_node) (B : key → list Z) (lo hi : key) (p : trunk_ondisk_pivot) : Prop :=
  od_key p = lo ∧ stats_ok (od_stats p) ∧ 0 ≤ num_live_inflight_bundles p ≤ lengthZ (od_inflight_bundles od) ∧
  ∃ b, od_bundle p = Some b ∧ bundle_ok b ∧
    C lo hi (trunk_ondisk_pivot_child_addr p) (newest (b :: reverse (take (Z.to_nat (num_live_inflight_bundles p)) (od_inflight_bundles od)))) B.
Definition od_node_ok (C : key → key → Z → list Z → (key → list Z) → Prop) (h : nat) (lo hi : key) (od : trunk_ondisk_node) (B : key → list Z) : Prop :=
  od_height od = Z.of_nat h ∧ Forall inflight_ok (od_inflight_bundles od) ∧
  ∃ body last, od_pivots od = body ++ [last] ∧ body ≠ [] ∧ (h = 0%nat → length body = 1%nat) ∧
    od_key last = hi ∧ od_bundle last = None ∧ trunk_pivot_stats_are_nonnegative (od_stats last) = true ∧
    covers (od_pivot_ok C od B) lo hi body.
Fixpoint tree (N : gmap Z trunk_ondisk_node) (h : nat) (lo hi : key) (addr : Z) (B : key → list Z) : Prop :=
  addr ≠ 0 ∧ aligned addr ∧ ∃ od, N !! addr = Some od ∧
    od_node_ok (match h with O => leaf_child | S h => index_child (tree N h) end) h lo hi od B.
Definition child_ok (N : gmap Z trunk_ondisk_node) (h : nat) : key → key → Z → list Z → (key → list Z) → Prop :=
  match h with O => leaf_child | S h => index_child (tree N h) end.

(** A node in memory. *)
Definition pivot_ok (C : key → key → Z → list Z → (key → list Z) → Prop) (inflight : list bundle) (B : key → list Z) (lo hi : key) (x : trunk_pivot * bundle) : Prop :=
  pivot_key x.1 = lo ∧ stats_ok (stats x.1) ∧ trunk_pivot_stats_are_nonnegative (prereceive_stats x.1) = true ∧
  0 ≤ inflight_bundle_start x.1 ≤ lengthZ inflight ∧ bundle_ok x.2 ∧
  C lo hi (trunk_pivot_child_addr x.1) (newest (x.2 :: drop (Z.to_nat (inflight_bundle_start x.1)) inflight)) B.
Definition pivots_are (n : trunk_node) (L : list (trunk_pivot * bundle)) (last : trunk_pivot) : Prop :=
  pivots n = L.*1 ++ [last] ∧ pivot_bundles n = L.*2.
Definition node_ok (C : key → key → Z → list Z → (key → list Z) → Prop) (h : nat) (lo hi : key) (n : trunk_node) (B : key → list Z) : Prop :=
  height n = Z.of_nat h ∧ 0 ≤ num_old_bundles n ≤ lengthZ (inflight_bundles n) ∧ Forall inflight_ok (inflight_bundles n) ∧
  ∃ L last, pivots_are n L last ∧ L ≠ [] ∧ (h = 0%nat → length L = 1%nat) ∧ pivot_key last = hi ∧
    trunk_pivot_stats_are_nonnegative (stats last) = true ∧ trunk_pivot_stats_are_nonnegative (prereceive_stats last) = true ∧
    covers (pivot_ok C (inflight_bundles n) B) lo hi L.
(** Nodes that were written. *)
Definition refs_ok (N : gmap Z trunk_ondisk_node) (h : nat) (lo hi : key) (refs : list trunk_ondisk_node_ref) (B : key → list Z) : Prop :=
  refs ≠ [] ∧ covers (λ a b r, ref_key r = a ∧ tree N h a b (ref_addr r) B) lo hi refs.

(** ** Monotonicity *)
Lemma in_range_le lo hi k : in_range lo hi k → key_small k.
Proof. by intros [? _]. Qed.
Lemma od_node_ok_mono (C C' : key → key → Z → list Z → (key → list Z) → Prop) h lo hi od B B' :
  (∀ a b c own, C a b c own B → C' a b c own B') → od_node_ok C h lo hi od B → od_node_ok C' h lo hi od B'.
Proof.
  intros HC (Hh & Hf & body & last & Hp & Hne & H0 & Hk & Hb & Hs & Hcov). split_and!; try done. exists body, last. split_and!; try done.
  eapply covers_impl; [|exact Hcov]. intros a b p _ (H1 & H2 & H3 & bd & H4 & H5 & H6). split_and!; try lia; try done. exists bd. auto.
Qed.
Lemma node_ok_mono (C C' : key → key → Z → list Z → (key → list Z) → Prop) h lo hi n B B' :
  (∀ a b c own, C a b c own B → C' a b c own B') → node_ok C h lo hi n B → node_ok C' h lo hi n B'.
Proof.
  intros HC (Hh & Hn & Hf & L & last & Hp & Hne & H0 & Hk & Hs & Hs' & Hcov). split_and!; try done; try lia. exists L, last. split_and!; try done.
  eapply covers_impl; [|exact Hcov]. intros a b p _ (H1 & H2 & H3 & H4 & H5 & H6). split_and!; try lia; try done. auto.
Qed.
Lemma tree_store (N N' : gmap Z trunk_ondisk_node) h lo hi addr B : N ⊆ N' → tree N h lo hi addr B → tree N' h lo hi addr B.
Proof.
  intros Hs. revert lo hi addr B. induction h as [|h IH]; intros lo hi addr B (Ha & Hal & od & Hod & Hok); (split; [done|split; [done|]]);
    exists od; (split; [by eapply lookup_weaken|]).
  - done.
  - eapply od_node_ok_mono; [|exact Hok]. intros a b c own (B' & HT & HB). exists B'. split; [by apply IH|done].
Qed.
Lemma child_ok_store (N N' : gmap Z trunk_ondisk_node) h lo hi c own B : N ⊆ N' → child_ok N h lo hi c own B → child_ok N' h lo hi c own B.
Proof.
  intros Hs. destruct h; [done|]. intros (B' & HT & HB). exists B'. split; [by eapply tree_store|done].
Qed.
Lemma refs_ok_store (N N' : gmap Z trunk_ondisk_node) h lo hi refs B : N ⊆ N' → refs_ok N h lo hi refs B → refs_ok N' h lo hi refs B.
Proof.
  intros Hs [Hne Hc]. split; [done|]. eapply covers_impl; [|exact Hc]. intros a b r _ [??]. split; [done|by eapply tree_store].
Qed.
Lemma node_ok_store (N N' : gmap Z trunk_ondisk_node) h lo hi n B : N ⊆ N' → node_ok (child_ok N h) h lo hi n B → node_ok (child_ok N' h) h lo hi n B.
Proof. intros Hs. apply node_ok_mono. intros a b c own. by apply child_ok_store. Qed.

(** ** Well-formed nodes *)
Lemma child_ok_leaf N h lo hi c own B : h = 0%nat → child_ok N h lo hi c own B → c = 0.
Proof. by intros -> [-> _]. Qed.
Lemma child_ok_index N h lo hi c own B : h ≠ 0%nat → child_ok N h lo hi c own B → c ≠ 0.
Proof. destruct h; [done|]. intros _ (B' & HT & _). destruct h; by destruct HT. Qed.
Lemma valid_pivots_ok N h (inflight : list bundle) B lo hi L last :
  h ≠ 0%nat → covers (pivot_ok (child_ok N h) inflight B) lo hi L → pivot_key last = hi → valid_pivots cfg (lengthZ inflight) (L.*1 ++ [last]) = true.
Proof.
  intros Hh Hc <-. revert lo Hc. induction L as [|x L IH]; intros lo Hc; [done|]. destruct Hc as (m & Hm & Hlt & (Hk & Hs & Hpre & Hst & Hb & HC) & Hc).
  pose proof (child_ok_index _ _ _ _ _ _ _ Hh HC) as Hne. pose proof (IH m Hc) as HIH.
  assert (∃ y ys, L.*1 ++ [last] = y :: ys ∧ pivot_key y = m) as (y & ys & Hy & Hym).
  { destruct L as [|z L]; [cbn in Hc |- *; by exists last, []|]. destruct Hc as (? & _ & _ & (Hkz & _) & _). cbn. by eexists _, _. }
  cbn [fmap list_fmap app]. rewrite Hy in *. cbn [valid_pivots] in HIH |- *. rewrite HIH.
  unfold key_lt in Hlt. rewrite Hk, Hym, Hpre, (stats_ok_nonneg _ Hs), (proj2 (Z.ltb_lt _ _) Hlt), (proj2 (Z.leb_le _ _) (proj2 Hst)).
  assert ((child_addr x.1 =? 0) = false) as ->; [|done]. apply Z.eqb_neq. intros E. apply Hne. unfold trunk_pivot_child_addr. by rewrite E.
Qed.
Lemma node_ok_index_form N h lo hi n B : h ≠ 0%nat → node_ok (child_ok N h) h lo hi n B → trunk_node_is_well_formed_index cfg n = true.
Proof.
  intros Hh (Hht & Hn & Hf & L & last & [Hp Hb] & Hne & H0 & Hk & Hs & Hs' & Hcov). unfold trunk_node_is_well_formed_index.
  assert (1 ≤ lengthZ L) by (unfold lengthZ; destruct L; [done|cbn; lia]).
  assert (lengthZ (pivots n) = lengthZ L + 1) as Hlp by (rewrite Hp; unfold lengthZ; rewrite length_app, length_fmap; cbn; lia).
  assert (lengthZ (pivot_bundles n) = lengthZ L) as Hlb by (rewrite Hb; unfold lengthZ; by rewrite length_fmap).
  rewrite Hlp, Hlb, Hht, Hp, (valid_pivots_ok N h (inflight_bundles n) B lo hi L last Hh Hcov Hk), !andb_true_iff.
  split_and!; try done; try (apply Z.ltb_lt; lia); try (apply Z.leb_le; lia). apply Z.eqb_eq. lia.
Qed.
Lemma node_ok_leaf_form N lo hi n B : node_ok (child_ok N 0) 0 lo hi n B → trunk_node_is_well_formed_leaf cfg n = true.
Proof.
  intros (Hht & Hn & Hf & L & last & [Hp Hb] & Hne & H0 & Hk & Hs & Hs' & Hcov). unfold trunk_node_is_well_formed_leaf.
  destruct (covers_one _ _ _ _ Hcov (H0 eq_refl)) as (x & -> & (Hkx & Hsx & Hpx & Hst & Hbx & HC) & Hlt).
  rewrite Hp, Hb, Hht. cbn [fmap list_fmap app]. rewrite Hkx, Hk, (child_ok_leaf _ _ _ _ _ _ _ eq_refl HC). unfold key_lt in Hlt.
  rewrite (proj2 (Z.ltb_lt _ _) Hlt), (proj2 (Z.leb_le _ _) (proj2 Hn)). done.
Qed.
Lemma node_ok_height C h lo hi n B : node_ok C h lo hi n B → trunk_node_is_leaf n = bool_decide (h = 0%nat).
Proof. intros (Hht & _). unfold trunk_node_is_leaf. rewrite Hht. destruct h; by cbn. Qed.
Lemma node_ok_well_formed N h lo hi n B : node_ok (child_ok N h) h lo hi n B → well_formed cfg n = true.
Proof.
  intros H. unfold well_formed. rewrite (node_ok_height _ _ _ _ _ _ H). destruct h as [|h]; [by eapply node_ok_leaf_form|]. eapply node_ok_index_form; [|exact H]; done.
Qed.
End tree.

(** ** What a step keeps *)
(** The pages still to be had are for nodes that are not there; no pivot has more
    compactions under way than the fanout. *)
Definition allocs_fresh (N : gmap Z trunk_ondisk_node) (l : list (option Z)) : Prop :=
  NoDup (omap id l) ∧ ∀ a, Some a ∈ l → a ≠ 0 ∧ aligned a ∧ N !! a = None.
Record trunk_ok (cfg : trunk_config) (s : trunk_state) : Prop := {
  to_allocs : allocs_fresh (ts_nodes s) (ts_allocs s);
  to_states k h : 0 ≤ ts_pivot_states s k h ≤ tc_target_fanout cfg;
}.
Record trunk_ext (s s' : trunk_state) : Prop := {
  te_nodes : ts_nodes s ⊆ ts_nodes s';
  te_root : ts_root s' = ts_root s;
  te_post : ts_post_incorporation_root s' = ts_post_incorporation_root s;
  te_pre : ts_pre_incorporation_root s' = ts_pre_incorporation_root s;
}.
#[export] Instance trunk_ext_preorder : PreOrder trunk_ext.
Proof.
  split; [by intros s; split|]. intros s1 s2 s3 [H1 H2 H3 H4] [H1' H2' H3' H4']. split; [by etrans|..]; congruence.
Qed.
