(* ===== verification/TrunkNode.v ===== *)
(** * Trunk: reading, receiving and writing a node

    A node that is read has the branches its page has; one that receives bundles has
    their branches before its own; one that is written makes a tree. *)
From S2P Require Import Prelude DataInternal BtreeNode RoutingFilter Trunk TrunkInv.

Lemma imap_fmap_eq {A B} (f : nat → A → B) (g : A → B) l : (∀ i x, l !! i = Some x → f i x = g x) → imap f l = g <$> l.
Proof.
  revert f. induction l as [|x l IH]; intros f H; [done|]. cbn. f_equal; [by apply (H 0%nat)|]. apply IH. intros i y Hy. by apply (H (S i)).
Qed.
Lemma imap_pair_fmap {A B} (g : nat * A → B) l : g <$> imap pair l = imap (λ i x, g (i, x)) l.
Proof. by rewrite fmap_imap. Qed.
Lemma lengthZ_snoc {A} (l : list A) x : lengthZ (l ++ [x]) = lengthZ l + 1.
Proof. unfold lengthZ. rewrite length_app. cbn. lia. Qed.
Lemma drop_reverse {A} k n (l : list A) : n = (length l - k)%nat → drop n (reverse l) = reverse (take k l).
Proof.
  intros ->. transitivity (drop (length l - k) (reverse (take k l ++ drop k l))); [by rewrite take_drop|].
  rewrite reverse_app, drop_app_length'; [done|]. by rewrite length_reverse, length_drop.
Qed.

Section node.
Context (cfg : trunk_config) {BI : bundle_inv}.

(** ** Reading *)
Lemma deserialize_pivots od miss s : Forall (λ p, trunk_pivot_stats_are_nonnegative (od_stats p) = true) (od_pivots od) →
  mmap (λ x : nat * trunk_ondisk_pivot, trunk_pivot_deserialize od miss x.1 x.2) (imap pair (od_pivots od)) s =
  Ret (imap (λ i p, mk_trunk_pivot (od_stats p) (od_stats p) (if miss then Z.land (od_child_addr p) TRUNK_PIVOT_ADDR_MASK else od_child_addr p)
    (if Z.of_nat i <? lengthZ (od_pivots od) - 1 then lengthZ (od_inflight_bundles od) - num_live_inflight_bundles p else 0) false (od_key p)) (od_pivots od), s).
Proof.
  intros Hf. rewrite (mmap_pure _ (λ x, mk_trunk_pivot (od_stats x.2) (od_stats x.2) (if miss then Z.land (od_child_addr x.2) TRUNK_PIVOT_ADDR_MASK else od_child_addr x.2)
    (if Z.of_nat x.1 <? lengthZ (od_pivots od) - 1 then lengthZ (od_inflight_bundles od) - num_live_inflight_bundles x.2 else 0) false (od_key x.2))).
  - by rewrite imap_pair_fmap.
  - intros [i p] Hin. unfold trunk_pivot_deserialize, trunk_pivot_create. cbn [fst snd].
    assert (trunk_pivot_stats_are_nonnegative (od_stats p) = true) as Hp.
    { apply list_elem_of_lookup in Hin as [j Hj]. rewrite list_lookup_imap in Hj. apply fmap_Some in Hj as (q & Hq & [= -> ->]).
      by apply (Forall_lookup_1 _ _ _ _ Hf Hq). }
    by rewrite !run_assert.
Qed.
Lemma covers_od_forall C od B lo hi body : covers cfg (od_pivot_ok C od B) lo hi body →
  Forall (λ p, trunk_pivot_stats_are_nonnegative (od_stats p) = true ∧ is_Some (od_bundle p)) body.
Proof.
  intros Hc. apply list.Forall_forall. intros p Hp. destruct (covers_elem _ _ _ _ _ _ Hc Hp) as (a & b & (_ & Hs & _ & bd & Hb & _) & _).
  split; [by apply stats_ok_nonneg|]. by rewrite Hb.
Qed.
Lemma omap_bundles body : Forall (λ p, is_Some (od_bundle p)) body → omap od_bundle body = (λ p, default bundle_init (od_bundle p)) <$> body.
Proof. induction 1 as [|p l [b Hb] _ IH]; [done|]. cbn. rewrite Hb. cbn. by f_equal. Qed.
Lemma trunk_node_deserialize_sub N s h lo hi addr B : N ⊆ ts_nodes s → tree cfg N h lo hi addr B →
  ∃ n, trunk_node_deserialize cfg addr s = Ret (n, with_misses (tail (ts_misses s)) s) ∧ node_ok cfg (child_ok cfg N h) h lo hi n B.
Proof.
  intros Hsub HT.
  assert (∃ od, N !! addr = Some od ∧ od_node_ok cfg (child_ok cfg N h) h lo hi od B) as (od & Hod & Hok) by (destruct h; destruct HT as (_ & _ & HT); exact HT).
  destruct Hok as (Hht & Hfl & body & last & Hp & Hne & H0 & Hk & Hnb & Hs & Hcov).
  pose proof (covers_od_forall _ _ _ _ _ _ Hcov) as Hall. unfold trunk_node_deserialize. rewrite run_get, (run_opt _ _ _ _ (lookup_weaken _ _ _ _ Hod Hsub)), run_put.
  set (miss := default false (head (ts_misses s))). set (s' := with_misses (tail (ts_misses s)) s).
  rewrite (bind_run _ _ _ _ _ (deserialize_pivots od miss s' ltac:(rewrite Hp; apply Forall_app; split; [by eapply list.Forall_impl; [exact Hall|intros ? []]|by repeat constructor]))).
  set (des := λ p, mk_trunk_pivot (od_stats p) (od_stats p) (if miss then Z.land (od_child_addr p) TRUNK_PIVOT_ADDR_MASK else od_child_addr p)
    (lengthZ (od_inflight_bundles od) - num_live_inflight_bundles p) false (od_key p)).
  set (n := mk_trunk_node _ _ _ _ _).
  assert (node_ok cfg (child_ok cfg N h) h lo hi n B) as Hn.
  { split; [done|]. split; [cbn; unfold lengthZ; rewrite ?length_reverse; lia|].
    split; [cbn [inflight_bundles n]; by rewrite Forall_reverse|].
    exists ((λ p, (des p, default bundle_init (od_bundle p))) <$> body). eexists. split_and!.
    - split.
      + cbn [pivots n]. rewrite Hp, imap_app. f_equal. rewrite <- list_fmap_compose. apply imap_fmap_eq.
        intros i p Hi. apply lookup_lt_Some in Hi. rewrite lengthZ_snoc. unfold lengthZ. rewrite (proj2 (Z.ltb_lt _ _)) by lia. done.
      + cbn [pivot_bundles n]. rewrite Hp, omap_app. cbn [omap list_omap]. rewrite Hnb, app_nil_r, <- list_fmap_compose. apply omap_bundles.
        eapply list.Forall_impl; [exact Hall|]. by intros ? [].
    - by destruct body.
    - intros E. rewrite length_fmap. by apply H0.
    - done.
    - done.
    - done.
    - apply covers_fmap. eapply covers_impl; [|exact Hcov]. intros a b p _ (Hkp & Hsp & Hlive & bd & Hbd & Hbok & HC).
      split_and!; cbn [fst snd des stats prereceive_stats inflight_bundle_start pivot_key inflight_bundles n].
      + done.
      + exact Hsp.
      + by apply stats_ok_nonneg.
      + lia.
      + unfold lengthZ. rewrite length_reverse. lia.
      + by rewrite Hbd.
      + rewrite Hbd. cbn [default].
        replace (trunk_pivot_child_addr (des p)) with (trunk_ondisk_pivot_child_addr p) by (unfold trunk_pivot_child_addr, trunk_ondisk_pivot_child_addr, des; cbn; destruct miss; [by rewrite mask_aligned|done]).
        rewrite (drop_reverse (Z.to_nat (num_live_inflight_bundles p))); [exact HC|]. cbn. unfold lengthZ in *. lia. }
  exists n. split; [|done]. rewrite run_assert by by eapply node_ok_well_formed. done.
Qed.
Lemma trunk_node_deserialize_run s h lo hi addr B : tree cfg (ts_nodes s) h lo hi addr B →
  ∃ n, trunk_node_deserialize cfg addr s = Ret (n, with_misses (tail (ts_misses s)) s) ∧ node_ok cfg (child_ok cfg (ts_nodes s) h) h lo hi n B.
Proof. by apply trunk_node_deserialize_sub. Qed.

(** ** Receiving *)
Lemma child_ok_app N h inc a b c own B : child_ok cfg N h a b c own B → child_ok cfg N h a b c (inc ++ own) (λ k, inc ++ B k).
Proof.
  destruct h; cbn.
  - intros [-> H]. split; [done|]. intros k Hk. by rewrite H.
  - intros (B' & HT & HB). exists B'. split; [done|]. intros k Hk. by rewrite HB, app_assoc.
Qed.
Section receive.
(** The weight of a branch: a bound of its tuples and of their bytes. *)
Context (W : Z → Z) (count : Z → key → key → btree_pivot_stats).
Definition weight (l : list Z) : Z := foldr (λ a n, W a + n) 0 l.
(** Counts are not negative, and no tuples have no bytes. *)
Definition counted (n : Z) (st : btree_pivot_stats) : Prop :=
  0 ≤ num_kvs st ≤ n ∧ 0 ≤ key_bytes st ∧ 0 ≤ message_bytes st ∧ key_bytes st + message_bytes st ≤ n ∧
  (num_kvs st = 0 → key_bytes st = 0 ∧ message_bytes st = 0).
Definition counts_ok : Prop := ∀ a lo hi, counted (W a) (count a lo hi).
Context (Hcount : counts_ok).
Lemma weight_cons a l : weight (a :: l) = W a + weight l.
Proof using. done. Qed.
Lemma weight_app l1 l2 : weight (l1 ++ l2) = weight l1 + weight l2.
Proof using. induction l1 as [|a l1 IH]; [done|]. rewrite <- app_comm_cons, !weight_cons. lia. Qed.
Lemma weight_reverse l : weight (reverse l) = weight l.
Proof using. induction l as [|a l IH]; [done|]. rewrite reverse_cons, weight_app, IH, !weight_cons. change (weight []) with 0. lia. Qed.
Lemma branch_weight_nonneg l : 0 ≤ weight l.
Proof using Hcount.
  induction l as [|a l IH]; [done|]. rewrite weight_cons. destruct (Hcount a NEGATIVE_INFINITY_KEY NEGATIVE_INFINITY_KEY) as ([? ?] & _). lia.
Qed.
(** What is received together is counted without a wrap when it is light. *)
Lemma counted_branches lo hi (l : list Z) acc n : counted n acc → n + weight l < 2 ^ 32 → counted (n + weight l) (foldl (accumulate_branch_tuple_counts_in_range count lo hi) acc l).
Proof using Hcount.
  revert acc n. induction l as [|a l IH]; intros acc n Hacc Hw; cbn [foldl]; [change (weight []) with 0; by rewrite Z.add_0_r|]. rewrite weight_cons in *.
  rewrite Z.add_assoc. apply IH; [|lia]. pose proof (branch_weight_nonneg l).
  destruct Hacc as (A1 & A2 & A3 & A4 & A5), (Hcount a lo hi) as (H1 & H2 & H3 & H4 & H5). unfold accumulate_branch_tuple_counts_in_range.
  split_and!; cbn; rewrite !u32_small; lia.
Qed.
Lemma counted_fold lo hi (bs : list bundle) acc n : counted n acc → n + weight (bs ≫= branches) < 2 ^ 32 →
  counted (n + weight (bs ≫= branches)) (foldl (accumulate_inflight_bundle_tuple_counts_in_range count lo hi) acc bs).
Proof using Hcount.
  revert acc n. induction bs as [|b bs IH]; intros acc n Hacc Hw; [change (weight _) with 0; by rewrite Z.add_0_r|]. cbn [mbind list_bind foldl] in *. rewrite weight_app in *.
  pose proof (branch_weight_nonneg (bs ≫= branches)). rewrite Z.add_assoc. apply IH; [|cbn [mbind list_bind] in *; lia]. apply counted_branches; [done|cbn [mbind list_bind] in *; lia].
Qed.
Definition with_stats (p : trunk_pivot) (st : trunk_pivot_stats) : trunk_pivot :=
  mk_trunk_pivot (prereceive_stats p) st (child_addr p) (inflight_bundle_start p) (ci_le_ei p) (pivot_key p).
Lemma add_received_run s received (P P' : key → key → trunk_pivot * bundle → Prop) lo hi L last :
  (∀ a b x st, P a b x → stats_ok (stats x.1) ∧ pivot_key x.1 = a ∧ (stats_ok st → P' a b (with_stats x.1 st, x.2))) →
  weight (received ≫= branches) < 2 ^ 32 → covers cfg P lo hi L → ∃ L', add_received_counts count received (L.*1 ++ [last]) s = Ret (L'.*1 ++ [last], s) ∧ L'.*2 = L.*2 ∧ covers cfg P' lo hi L'.
Proof using Hcount.
  intros HP Hw. revert lo. induction L as [|x L IH]; intros lo Hc; [by exists []|]. destruct Hc as (m & Hm & Hlt & Hx & Hc).
  destruct (IH m Hc) as (L' & Hrun & H2 & Hc').
  assert (∃ y ys, L.*1 ++ [last] = y :: ys) as (y & ys & Hy) by (destruct L; cbn; eauto).
  cbn [fmap list_fmap app]. rewrite Hy. cbn [add_received_counts]. rewrite Hy in Hrun.
  set (st := foldl _ _ _). assert (counted (0 + weight (received ≫= branches)) st) as Hst by (apply counted_fold; [by split_and!|lia]).
  destruct (HP lo m x (mk_trunk_pivot_stats (num_kv_bytes (stats x.1) + (u32 (key_bytes st + message_bytes st))) (num_tuples (stats x.1) + num_kvs st)) Hx) as (Hs & Hk & Hx').
  assert (stats_ok (mk_trunk_pivot_stats (num_kv_bytes (stats x.1) + (u32 (key_bytes st + message_bytes st))) (num_tuples (stats x.1) + num_kvs st))) as Hst'.
  { destruct Hs as (S1 & S2 & S3), Hst as (T1 & T2 & T3 & T4 & T5). rewrite u32_small by lia. split_and!; cbn; lia. }
  exists ((with_stats x.1 (mk_trunk_pivot_stats (num_kv_bytes (stats x.1) + (u32 (key_bytes st + message_bytes st))) (num_tuples (stats x.1) + num_kvs st)), x.2) :: L'). split_and!.
  - rewrite (bind_run _ _ s (with_stats x.1 (mk_trunk_pivot_stats (num_kv_bytes (stats x.1) + (u32 (key_bytes st + message_bytes st))) (num_tuples (stats x.1) + num_kvs st))) s).
    + rewrite (bind_run _ _ _ _ _ Hrun). done.
    + unfold trunk_pivot_add_tuple_counts, trunk_pivot_stats_from_btree_pivot_stats. cbn [num_kv_bytes num_tuples]. rewrite run_assert by by apply stats_ok_nonneg. done.
  - cbn. by rewrite H2.
  - exists m. split_and!; auto.
Qed.

Definition incoming (routed : option bundle) (inflight : list bundle) (start : Z) : list bundle :=
  match routed with Some b => [b] | None => [] end ++ drop (Z.to_nat start) inflight.
Lemma receive_ok routed inflight start : (∀ b, routed = Some b → bundle_ok b) → Forall inflight_ok inflight →
  Forall inflight_ok (filter (λ b, 0 < bundle_num_branches b) (match routed with Some b => [b] | None => [] end) ++ drop (Z.to_nat start) inflight).
Proof.
  intros Hr Hf. apply Forall_app. split; [|by apply Forall_drop].
  destruct routed as [b|]; [|by cbn; constructor]. cbn. destruct (decide _) as [Hd|]; [|constructor].
  constructor; [|constructor]. split; [by apply Hr|]. intros E. unfold bundle_num_branches, lengthZ in Hd. rewrite E in Hd. cbn in Hd. lia.
Qed.
Lemma newest_filter routed inflight start :
  newest (filter (λ b, 0 < bundle_num_branches b) (match routed with Some b => [b] | None => [] end) ++ drop (Z.to_nat start) inflight) =
  newest (incoming routed inflight start).
Proof.
  unfold incoming. rewrite !newest_app. f_equal. destruct routed as [b|]; [|done]. cbn. destruct (decide _) as [Hd|Hd]; [done|].
  unfold bundle_num_branches, lengthZ in Hd. unfold newest. cbn. destruct (branches b); [done|]. cbn in Hd. lia.
Qed.
Lemma trunk_node_receive_bundles_run s N h lo hi n B routed inflight start :
  node_ok cfg (child_ok cfg N h) h lo hi n B → (∀ b, routed = Some b → bundle_ok b) → Forall inflight_ok inflight →
  weight (newest (incoming routed inflight start)) < 2 ^ 32 →
  ∃ n', trunk_node_receive_bundles count n routed inflight start s = Ret (n', s) ∧
    node_ok cfg (child_ok cfg N h) h lo hi n' (λ k, newest (incoming routed inflight start) ++ B k).
Proof using Hcount.
  intros (Hht & Hn & Hf & L & last & [Hp Hb] & Hne & H0 & Hk & Hs & Hs' & Hcov) Hr Hi Hw. unfold trunk_node_receive_bundles. rewrite Hp.
  pose proof (receive_ok routed inflight start Hr Hi) as Hrec. pose proof (newest_filter routed inflight start) as Hnew.
  set (rec := filter _ _ ++ _) in *.
  edestruct (add_received_run s (match routed with Some b => [b] | None => [] end ++ drop (Z.to_nat start) inflight) (pivot_ok (child_ok cfg N h) (inflight_bundles n) B)
    (pivot_ok (child_ok cfg N h) (inflight_bundles n ++ rec) (λ k, newest (incoming routed inflight start) ++ B k)) lo hi L last) as (L' & Hrun & H2 & Hc'); [|unfold newest in Hw; by rewrite weight_reverse in Hw|exact Hcov|].
  { intros a b x st (Hkx & Hsx & Hpx & Hst & Hbx & HC). split_and!; [done|done|]. intros Hst'. split_and!; cbn [fst snd with_stats pivot_key stats prereceive_stats inflight_bundle_start]; try done.
    - lia.
    - unfold lengthZ in *. rewrite length_app. lia.
    - replace (newest (x.2 :: drop (Z.to_nat (inflight_bundle_start x.1)) (inflight_bundles n ++ rec))) with
        (newest (incoming routed inflight start) ++ newest (x.2 :: drop (Z.to_nat (inflight_bundle_start x.1)) (inflight_bundles n))).
      + change (trunk_pivot_child_addr (with_stats x.1 st)) with (trunk_pivot_child_addr x.1). by apply child_ok_app.
      + rewrite drop_app_le by (unfold lengthZ in *; lia). change (x.2 :: ?l ++ rec) with ((x.2 :: l) ++ rec). by rewrite newest_app, Hnew. }
  rewrite (bind_run _ _ _ _ _ Hrun). eexists. split; [reflexivity|]. split; [done|]. split_and!; cbn [num_old_bundles inflight_bundles].
  - lia.
  - unfold lengthZ in *. rewrite length_app. lia.
  - by apply Forall_app.
  - exists L', last. split_and!; try done.
    + split; [done|]. cbn. by rewrite Hb, H2.
    + intros ->. destruct L; done.
    + intros E. rewrite <- (length_fmap snd), H2, length_fmap. by apply H0.
Qed.
End receive.

(** ** Writing *)
Lemma allocs_fresh_tail N l : allocs_fresh N l → allocs_fresh N (tail l).
Proof.
  intros [Hnd H]. destruct l as [|o l]; [done|]. split.
  - destruct o; [by apply list.NoDup_cons in Hnd as [_ ?]|done].
  - intros a Ha. apply H. by right.
Qed.
Lemma allocs_fresh_take N a l od : allocs_fresh N (Some a :: l) → allocs_fresh (<[a:=od]> N) l.
Proof.
  intros [Hnd H]. cbn in Hnd. apply list.NoDup_cons in Hnd as [Hni Hnd]. split; [done|]. intros b Hb.
  destruct (H b ltac:(by right)) as (? & ? & ?). split_and!; try done. rewrite lookup_insert_ne; [done|]. intros <-. apply Hni.
  apply list_elem_of_omap. by exists (Some a).
Qed.
Lemma reset_ok C h lo hi n B : node_ok cfg C h lo hi n B → node_ok cfg C h lo hi (reset_compaction_counts n) B.
Proof.
  intros H. unfold reset_compaction_counts. destruct (existsb _ _); [|done]. destruct H as (Hht & Hn & Hf & L & last & [Hp Hb] & Hne & H0 & Hk & Hs & Hs' & Hcov).
  split_and!; try done; try (cbn; lia). exists ((λ x, (trunk_pivot_cc_set x.1 0, x.2)) <$> L), (trunk_pivot_cc_set last 0). split_and!; try done.
  - split; cbn; [rewrite Hp, fmap_app|rewrite Hb]; rewrite <- !list_fmap_compose; done.
  - by destruct L.
  - by rewrite length_fmap.
  - apply covers_fmap. eapply covers_impl; [|exact Hcov]. intros a b x _ (Hkx & Hsx & Hpx & Hst & Hbx & HC). split_and!; try done; try apply Hst.
    cbn [fst snd trunk_pivot_cc_set inflight_bundle_start]. unfold trunk_pivot_child_addr, trunk_pivot_cc_set in *. cbn. by rewrite cc_set_addr by lia.
Qed.
Lemma first_live_le n L last x : pivots_are n L last → x ∈ L → trunk_node_first_live_inflight_bundle n ≤ inflight_bundle_start x.1.
Proof.
  intros [Hp _] Hx. unfold trunk_node_first_live_inflight_bundle. rewrite Hp, length_app. cbn [length].
  replace (length L.*1 + 1 - 1)%nat with (length L.*1) by lia. rewrite take_app_length. generalize UINT64_MAX. clear Hp. revert Hx. induction L as [|y L IH]; intros Hx z; [by apply not_elem_of_nil in Hx|].
  cbn. apply elem_of_cons in Hx as [->|Hx]; [|by apply IH]. clear IH. generalize (Z.min_spec z (inflight_bundle_start y.1)). generalize (Z.min z (inflight_bundle_start y.1)).
  intros w Hw. assert (w ≤ inflight_bundle_start y.1) as Hle by lia. clear Hw. revert w Hle. induction L as [|u L IH]; intros w Hle; [done|]. cbn. apply IH. lia.
Qed.
Lemma first_live_nonneg n L last : pivots_are n L last → Forall (λ x, 0 ≤ inflight_bundle_start x.1) L → 0 ≤ trunk_node_first_live_inflight_bundle n.
Proof.
  intros [Hp _] HF. unfold trunk_node_first_live_inflight_bundle. rewrite Hp, length_app. cbn [length].
  replace (length L.*1 + 1 - 1)%nat with (length L.*1) by lia. rewrite take_app_length.
  assert (0 ≤ UINT64_MAX) as H0 by (unfold UINT64_MAX; lia). clear Hp. revert H0. generalize UINT64_MAX. induction HF as [|x L Hx _ IH]; intros z Hz; [done|]. cbn. apply IH. lia.
Qed.
Lemma serialize_pivots n s : Forall (λ p, trunk_pivot_stats_are_nonnegative (stats p) = true) (pivots n) →
  mmap (λ x : nat * trunk_pivot, pivot_serialize n x.1 x.2) (imap pair (pivots n)) s =
  Ret (imap (λ i p, mk_trunk_ondisk_pivot (stats p) (child_addr p)
    (if Z.of_nat i <? lengthZ (pivots n) - 1 then lengthZ (inflight_bundles n) - inflight_bundle_start p else 0)
    (pivot_key p) (if Z.of_nat i <? lengthZ (pivots n) - 1 then pivot_bundles n !! i else None)) (pivots n), s).
Proof.
  intros Hf. rewrite (mmap_pure _ (λ x, mk_trunk_ondisk_pivot (stats x.2) (child_addr x.2)
    (if Z.of_nat x.1 <? lengthZ (pivots n) - 1 then lengthZ (inflight_bundles n) - inflight_bundle_start x.2 else 0)
    (pivot_key x.2) (if Z.of_nat x.1 <? lengthZ (pivots n) - 1 then pivot_bundles n !! x.1 else None))).
  - by rewrite imap_pair_fmap.
  - intros [i p] Hin. unfold pivot_serialize. cbn [fst snd].
    apply list_elem_of_lookup in Hin as [j Hj]. rewrite list_lookup_imap in Hj. apply fmap_Some in Hj as (q & Hq & [= -> ->]).
    by rewrite run_assert by by apply (Forall_lookup_1 _ _ _ _ Hf Hq).
Qed.
(** The page of a node. *)
Definition page_of (n : trunk_node) (L : list (trunk_pivot * bundle)) (last : trunk_pivot) : trunk_ondisk_node :=
  mk_trunk_ondisk_node (height n)
    (((λ x : trunk_pivot * bundle, mk_trunk_ondisk_pivot (stats x.1) (child_addr x.1) (lengthZ (inflight_bundles n) - inflight_bundle_start x.1) (pivot_key x.1) (Some x.2)) <$> L) ++
     [mk_trunk_ondisk_pivot (stats last) (child_addr last) 0 (pivot_key last) None])
    (reverse (drop (Z.to_nat (trunk_node_first_live_inflight_bundle n)) (inflight_bundles n))).
Lemma page_of_ok C h lo hi n B L last : node_ok cfg C h lo hi n B → pivots_are n L last → od_node_ok cfg C h lo hi (page_of n L last) B.
Proof.
  intros (Hht & Hn & Hf & L' & last' & [Hp' Hb'] & Hne & H0 & Hk & Hs & Hs' & Hcov) [Hp Hb].
  assert (L' = L ∧ last' = last) as [-> ->].
  { rewrite Hp in Hp'. apply app_inj_tail in Hp' as [E1 ->]. split; [|done]. rewrite Hb in Hb'. rewrite <- (zip_fst_snd L), <- (zip_fst_snd L'). by rewrite E1, Hb'. }
  assert (Forall (λ x, 0 ≤ inflight_bundle_start x.1) L) as Hst0.
  { apply list.Forall_forall. intros x Hx. destruct (covers_elem _ _ _ _ _ _ Hcov Hx) as (a & b & (_ & _ & _ & Hst & _) & _). lia. }
  pose proof (first_live_nonneg n L last (conj Hp Hb) Hst0) as Hmin0.
  split; [done|]. split; [cbn; rewrite Forall_reverse; by apply Forall_drop|]. eexists _, _. split_and!; [reflexivity|by destruct L|by rewrite length_fmap|done|done|done|].
  apply covers_fmap. eapply covers_impl; [|exact Hcov]. intros a b x Hx (Hkx & Hsx & Hpx & Hst & Hbx & HC).
  pose proof (first_live_le n L last x (conj Hp Hb) Hx) as Hmin. split; [done|]. split; [done|]. split.
  { cbn. unfold lengthZ in *. rewrite length_reverse, length_drop. lia. }
  exists x.2. split; [done|]. split; [done|]. cbn [page_of od_inflight_bundles num_live_inflight_bundles].
  rewrite <- (drop_reverse _ (Z.to_nat (inflight_bundle_start x.1 - trunk_node_first_live_inflight_bundle n))), reverse_involutive, drop_drop;
    [|rewrite length_reverse, length_drop; unfold lengthZ in *; lia].
  replace (_ + _)%nat with (Z.to_nat (inflight_bundle_start x.1)) by lia. exact HC.
Qed.
Lemma imap_body {A B C} (f : nat → A → C) (g : A * B → C) h L x : (∀ i y, L !! i = Some y → f i y.1 = g y) → f (length L) x = h →
  imap f (L.*1 ++ [x]) = (g <$> L) ++ [h].
Proof. intros H1 <-. rewrite imap_app, imap_fmap, (imap_fmap_eq _ g L); [by rewrite length_fmap; cbn; rewrite Nat.add_0_r|done]. Qed.
Lemma trunk_node_serialize_run s h lo hi n B : key_lt cfg lo hi → trunk_ok cfg s → node_ok cfg (child_ok cfg (ts_nodes s) h) h lo hi n B →
  ∃ r s', trunk_node_serialize cfg n s = Ret (r, s') ∧ ok_or (λ s', trunk_ok cfg s' ∧ trunk_ext s s')
    (λ r s', trunk_ok cfg s' ∧ trunk_ext s s' ∧ ref_key r.2 = lo ∧ tree cfg (ts_nodes s') h lo hi (ref_addr r.2) B) r s'.
Proof.
  intros Hlt [Hal Hst] Hok. unfold trunk_node_serialize. rewrite run_assert by by eapply node_ok_well_formed. unfold ebind.
  destruct (head (ts_allocs s)) as [[addr|]|] eqn:Eh.
  1: shelve.
  all: rewrite (bind_run _ _ s (inl STATUS_NO_MEMORY) (with_allocs (tail (ts_allocs s)) s)) by (unfold alloc_page; rewrite run_get, run_put, Eh; done).
  all: eexists _, _; split; [reflexivity|]; split; [done|]; split; [split; [by apply allocs_fresh_tail|done]|by split].
  Unshelve.
  destruct (ts_allocs s) as [|[a|] l] eqn:El; try done. injection Eh as ->. destruct (proj2 Hal addr ltac:(left)) as (Hne & Hali & Hfresh).
  rewrite (bind_run _ _ s (inr addr) (with_allocs l s)) by (unfold alloc_page; rewrite run_get, run_put, El; done).
  pose proof (reset_ok _ _ _ _ _ _ Hok) as Hr. set (n' := reset_compaction_counts n) in *.
  pose proof Hr as (Hht & Hn & Hf & L & last & Hpiv & HneL & H0 & Hk & Hs & Hs' & Hcov). pose proof (page_of_ok _ _ _ _ _ _ _ _ Hr Hpiv) as Hpage.
  destruct Hpiv as [Hp Hb].
  assert (Forall (λ p, trunk_pivot_stats_are_nonnegative (stats p) = true) (pivots n')) as Hfs.
  { rewrite Hp. apply Forall_app. split; [|by repeat constructor]. apply Forall_fmap, list.Forall_forall. intros x Hx.
    destruct (covers_elem _ _ _ _ _ _ Hcov Hx) as (? & ? & (_ & ? & _) & _). by apply stats_ok_nonneg. }
  rewrite (bind_run _ _ _ _ _ (serialize_pivots n' _ Hfs)).
  assert (∃ x0 L0, L = x0 :: L0 ∧ pivot_key x0.1 = lo) as (x0 & L0 & HL & Hk0).
  { destruct L as [|x0 L0]; [done|]. destruct Hcov as (m & _ & _ & (Hkx & _) & _). by exists x0, L0. }
  rewrite (run_opt _ _ _ x0.1) by by rewrite Hp, HL. rewrite run_mod. eexists _, _. split; [reflexivity|].
  set (od := mk_trunk_ondisk_node _ _ _).
  assert (od = page_of n' L last) as Eod.
  { unfold od, page_of. f_equal. rewrite Hp, lengthZ_snoc, Hb. apply imap_body.
    - intros i y Hi. pose proof (lookup_lt_Some _ _ _ Hi). unfold lengthZ. rewrite length_fmap, (proj2 (Z.ltb_lt _ _)) by lia. by rewrite list_lookup_fmap, Hi.
    - unfold lengthZ. rewrite length_fmap. by rewrite (proj2 (Z.ltb_ge _ _)) by lia. }
  rewrite Eod. cbn [ok_or snd]. split_and!.
  - split; [|done]. cbn. by apply allocs_fresh_take.
  - split; try done. cbn. by apply insert_subseteq.
  - done.
  - assert (ts_nodes s ⊆ <[addr:=page_of n' L last]> (ts_nodes s)) as Hsub by by apply insert_subseteq.
    assert (od_node_ok cfg (child_ok cfg (<[addr:=page_of n' L last]> (ts_nodes s)) h) h lo hi (page_of n' L last) B) as Hpage'.
    { eapply od_node_ok_mono; [|exact Hpage]. intros a b c own. by apply child_ok_store. }
    assert (<[addr:=page_of n' L last]> (ts_nodes s) !! addr = Some (page_of n' L last)) as Hlk by apply lookup_insert_eq.
    destruct h; (split; [done|split; [done|]]; eexists; split; [exact Hlk|exact Hpage']).
Qed.

Definition kept (s s' : trunk_state) : Prop := trunk_ok cfg s' ∧ trunk_ext s s'.
Lemma kept_trans s1 s2 s3 : kept s1 s2 → kept s2 s3 → kept s1 s3.
Proof. intros [_ H1] [H2 H3]. split; [done|]. by etrans. Qed.
Definition written (s : trunk_state) (len h : nat) (lo hi : key) (B : key → list Z) (l : list (trunk_node * trunk_ondisk_node_ref)) (s' : trunk_state) : Prop :=
  kept s s' ∧ length l = len ∧ covers cfg (λ a b r, ref_key r = a ∧ tree cfg (ts_nodes s') h a b (ref_addr r) B) lo hi l.*2.
Lemma serialize_node_run s h lo hi n B : key_lt cfg lo hi → trunk_ok cfg s → node_ok cfg (child_ok cfg (ts_nodes s) h) h lo hi n B →
  ∃ r s', serialize_node cfg n s = Ret (r, s') ∧
    ok_or (kept s) (λ r s', kept s s' ∧ ref_key r.2 = lo ∧ tree cfg (ts_nodes s') h lo hi (ref_addr r.2) B) r s'.
Proof.
  intros Hlt Ht Hok. destruct (trunk_node_serialize_run s h lo hi n B Hlt Ht Hok) as (r & s' & Hrun & Hr).
  unfold serialize_node, ebind. rewrite (bind_run _ _ _ _ _ Hrun). destruct r as [rc|r]; [by exists (inl rc), s'|].
  rewrite run_get, run_put. eexists _, _. split; [reflexivity|]. destruct Hr as (Hk & He & Hkey & HT).
  split; [|done]. destruct Hk, He. split; split; done.
Qed.
Lemma serialize_nodes_run s h lo hi nodes B : trunk_ok cfg s → covers cfg (λ a b n, node_ok cfg (child_ok cfg (ts_nodes s) h) h a b n B) lo hi nodes →
  ∃ r s', serialize_nodes cfg nodes s = Ret (r, s') ∧ ok_or (kept s) (written s (length nodes) h lo hi B) r s'.
Proof.
  revert s lo. induction nodes as [|n nodes IH]; intros s lo Ht Hc; [exists (inr []), s; split; [done|]; split; [by split|]; by split|].
  destruct Hc as (m & Hm & Hlt & Hok & Hc). destruct (serialize_node_run s h lo m n B Hlt Ht Hok) as (r & s1 & Hrun & Hr).
  unfold serialize_nodes. cbn [emap]. unfold ebind at 1. rewrite (bind_run _ _ _ _ _ Hrun). destruct r as [rc|r]; [by exists (inl rc), s1|].
  destruct Hr as ([Ht1 He1] & Hkey & HT). destruct (IH s1 m Ht1) as (r' & s2 & Hrun' & Hr').
  { eapply covers_impl; [|exact Hc]. intros a b x _. apply node_ok_store, He1. }
  unfold ebind at 1. rewrite (bind_run _ _ _ _ _ Hrun'). destruct r' as [rc|r']; eexists _, _; (split; [reflexivity|]).
  - destruct Hr' as [Hne Hk]. split; [done|]. by eapply kept_trans.
  - destruct Hr' as (Hk & Hlen & Hcov). split; [by eapply kept_trans|]. split; [cbn; by rewrite Hlen|]. exists m. split_and!; try done. eapply tree_store; [|exact HT]. apply Hk.
Qed.
Lemma serialize_and_save_run s h lo hi nodes B : trunk_ok cfg s → nodes ≠ [] → covers cfg (λ a b n, node_ok cfg (child_ok cfg (ts_nodes s) h) h a b n B) lo hi nodes →
  ∃ r s', serialize_nodes_and_save_contingent_compactions cfg nodes s = Ret (r, s') ∧
    ok_or (kept s) (λ refs s', kept s s' ∧ refs_ok cfg (ts_nodes s') h lo hi refs B) r s'.
Proof.
  intros Ht Hne Hc. destruct (serialize_nodes_run s h lo hi nodes B Ht Hc) as (r & s' & Hrun & Hr).
  unfold serialize_nodes_and_save_contingent_compactions, ebind. rewrite (bind_run _ _ _ _ _ Hrun).
  destruct r as [rc|l]; [by exists (inl rc), s'|]. rewrite run_mod. eexists _, _. split; [reflexivity|]. destruct Hr as ([Hk He] & Hlen & Hcov).
  split; [by destruct Hk, He; split; split|]. split; [|done]. intros E. apply fmap_nil_inv in E. subst l. by destruct nodes.
Qed.
End node.
