(* ===== verification/TrunkSplit.v ===== *)
(** * Trunk: splits

    The leaves of a split leaf, and the nodes of a split index node, cover its range with
    the same branches. *)
From S2P Require Import Prelude DataInternal BtreeNode RoutingFilter Trunk TrunkInv TrunkNode.

Section range.
Context (cfg : trunk_config) {BI : bundle_inv} `{!key_order (tc_data_cfg cfg)}.
Lemma key_lt_trans a b c : key_small a → key_small b → key_small c → key_lt cfg a b → key_lt cfg b c → key_lt cfg a c.
Proof using key_order0. intros Ha Hb Hc H1 H2. unfold key_lt in *. apply (dkc_lt_le (tc_data_cfg cfg) a b c); try done. lia. Qed.
Lemma key_le_trans a b c : key_small a → key_small b → key_small c → key_le cfg a b → key_le cfg b c → key_le cfg a c.
Proof using key_order0. intros Ha Hb Hc H1 H2. by apply (dkc_trans (tc_data_cfg cfg) a b c). Qed.
Lemma key_lt_le a b : key_lt cfg a b → key_le cfg a b.
Proof using. unfold key_lt, key_le. lia. Qed.
Lemma key_le_refl a : key_small a → key_le cfg a a.
Proof using key_order0. intros Ha. unfold key_le. rewrite (dkc_refl (tc_data_cfg cfg)) by done. lia. Qed.
Lemma covers_sub {X} (P Q : key → key → X → Prop) lo hi l : key_small lo →
  (∀ a b x, x ∈ l → key_small a → key_small b → key_le cfg lo a → key_le cfg b hi → P a b x → Q a b x) → covers cfg P lo hi l → covers cfg Q lo hi l.
Proof using key_order0.
  intros Hlo H Hc. assert (∀ c, key_small c → key_le cfg lo c → covers cfg P c hi l → covers cfg Q c hi l) as HH; [|by apply HH, Hc; [|apply key_le_refl]].
  clear Hc. induction l as [|x l IH]; intros c Hc Hle; [done|]. intros (m & Hm & Hlt & HP & Hcov). destruct (covers_le cfg _ m hi l Hm Hcov) as [Hhi Hlast].
  assert (key_le cfg m hi) as Hmhi by (destruct Hlast as [->|?]; [cbn in Hcov; subst; by apply key_le_refl|by apply key_lt_le]).
  exists m. split_and!; try done; [apply H; try done; left|]. apply IH; try done; [intros a b y Hy; apply H; by right|].
  eapply (key_le_trans _ c); try done. by apply key_lt_le.
Qed.
Lemma node_ok_ext N h lo hi n B B' : key_small lo → (∀ k, in_range cfg lo hi k → B k = B' k) →
  node_ok cfg (child_ok cfg N h) h lo hi n B → node_ok cfg (child_ok cfg N h) h lo hi n B'.
Proof using key_order0.
  intros Hlo HB (Hht & Hn & Hf & L & last & Hp & Hne & H0 & Hk & Hs & Hs' & Hcov). split_and!; try done; try lia. exists L, last. split_and!; try done.
  assert (key_small hi) as Hhi by by eapply (covers_le cfg _ lo hi L).
  eapply covers_sub; [done| |exact Hcov]. intros a b x _ Ha Hb Hla Hbh (H1 & H2 & H3 & H4 & H5 & H6). split_and!; try lia; try done.
  assert (∀ k, in_range cfg a b k → B' k = B k) as HBk by (intros k Hkr; symmetry; apply HB; exact (in_range_sub cfg lo a b hi k Hlo Ha Hb Hhi Hla Hbh Hkr)).
  destruct h; cbn in H6 |- *.
  - destruct H6 as [Hc HH]. split; [done|]. intros k Hkr. by rewrite HBk, HH.
  - destruct H6 as (B1 & HT & HH). exists B1. split; [done|]. intros k Hkr. by rewrite HBk, HH.
Qed.
(** Keys in order strictly between two. *)
Fixpoint increasing (lo hi : key) (l : list key) : Prop :=
  match l with [] => key_lt cfg lo hi | k :: l => key_small k ∧ key_lt cfg lo k ∧ increasing k hi l end.
Lemma increasing_skip lo k hi l : key_small lo → key_small k → key_small hi → key_lt cfg lo k → increasing k hi l → increasing lo hi l.
Proof using key_order0.
  destruct l as [|j l]; intros Hlo Hk Hhi Hlt; cbn; [by apply key_lt_trans|]. intros (Hj & H1 & H2). split_and!; try done. by apply (key_lt_trans lo k j).
Qed.
Lemma select_increasing rflimit lo hi items kv target num cum tup : key_small lo → key_small hi → key_lt cfg lo hi → increasing lo hi items.*1 →
  increasing lo hi (select_pivots rflimit items kv target num cum tup).
Proof using key_order0.
  revert lo num cum tup. induction items as [|[k d] items IH]; intros lo num cum tup Hlo Hhi Hlt; [done|]. cbn. intros (Hk & Hlk & Hinc).
  destruct (num <? target); [|done].
  assert (key_lt cfg k hi) as Hkh.
  { clear IH. revert k Hk Hlk Hinc. induction items as [|[j e] items IH]; intros k Hk Hlk Hinc; [done|]. cbn in Hinc. destruct Hinc as (Hj & Hkj & Hinc).
    apply (key_lt_trans k j hi); try done. apply IH; try done. by apply (key_lt_trans lo k j). }
  destruct (_ || _); [split_and!; try done; by apply IH|]. apply (increasing_skip lo k); try done. by apply IH.
Qed.
End range.

(** ** What the code relies on *)
(** The counts of branches; rough pivots that come in order, inside the range and once
    each; a configuration that does not divide by zero and makes nodes of two children. *)
(** The branches on a path are counted without a wrap, even if all of them are received
    at once. *)
Definition light (cfg : trunk_config) (W : Z → Z) (lo hi : key) (B : key → list Z) : Prop := ∀ k, in_range cfg lo hi k → weight W (B k) < 2 ^ 32.
Record trunk_env_ok (cfg : trunk_config) (W : Z → Z) (count : Z → key → key → btree_pivot_stats) (rough : list Z → key → key → list (key * btree_pivot_stats)) (rflimit : Z) : Prop := {
  env_counts : counts_ok W count;
  env_rough brs lo hi : key_small lo → key_small hi → key_lt cfg lo hi → increasing cfg lo hi (rough brs lo hi).*1;
  env_size : 0 < tc_incorporation_size_kv_bytes cfg;
  env_fanout : 2 ≤ tc_target_fanout cfg;
  env_rflimit : 0 < rflimit;
}.

Section split.
Context (cfg : trunk_config) {BI : bundle_inv} `{!key_order (tc_data_cfg cfg)}.
Context (W : Z → Z) (count : Z → key → key → btree_pivot_stats) (est_fp : list routing_filter → Z) (est_keys : Z → Z).
Context (rough : list Z → key → key → list (key * btree_pivot_stats)) (rflimit : Z) (Henv : trunk_env_ok cfg W count rough rflimit).

Lemma light_sub lo hi a b B : key_small lo → key_small a → key_small b → key_small hi → key_le cfg lo a → key_le cfg b hi → light cfg W lo hi B → light cfg W a b B.
Proof using key_order0. intros Hlo Ha Hb Hhi Hla Hbh H k Hk. apply H. exact (in_range_sub cfg lo a b hi k Hlo Ha Hb Hhi Hla Hbh Hk). Qed.
Lemma light_received lo hi (l : list Z) B : key_small lo → key_lt cfg lo hi → light cfg W lo hi (λ k, l ++ B k) → weight W l < 2 ^ 32.
Proof using Henv key_order0.
  intros Hlo Hlt H. pose proof (H lo ltac:(split; [done|split; [by apply key_le_refl|done]])) as Hw. cbv beta in Hw. rewrite weight_app in Hw.
  pose proof (branch_weight_nonneg W count (env_counts _ _ _ _ _ Henv) (B lo)). lia.
Qed.

(** ** Leaves *)
Lemma count_bundles_run lo hi bundles u f q ms s : Forall inflight_ok bundles → ∃ r, count_bundles count lo hi bundles u f q ms s = Ret (r, s).
Proof using.
  revert u f q ms. induction bundles as [|b l IH]; intros u f q ms HF; [by eexists|]. apply list.Forall_cons in HF as [[[Hb _] Hne] HF]. cbn [count_bundles].
  destruct (routing_filters_equal _ _) eqn:E; [|by apply IH]. apply Z.eqb_eq in E.
  destruct (branches b) as [|a bs] eqn:Eb; [done|]. rewrite run_assert; [by apply IH|].
  apply Z.leb_le. unfold bundle_num_branches, lengthZ. pose proof (Hb E). rewrite Eb in *. cbn in *. lia.
Qed.
Lemma leaf_split_target_run N lo hi n B s : node_ok cfg (child_ok cfg N 0) 0 lo hi n B →
  ∃ t, leaf_split_target_num_leaves cfg count est_fp est_keys rflimit n s = Ret (t, s).
Proof using Henv.
  intros Hok. pose proof (node_ok_leaf_form _ _ _ _ _ _ Hok) as Hwf. destruct Hok as (Hht & Hn & Hf & L & last & [Hp Hb] & Hne & H0 & Hk & Hs & Hs' & Hcov).
  destruct (covers_one _ _ _ _ _ Hcov (H0 eq_refl)) as (x & -> & (Hkx & (S1 & S2 & S3) & Hpx & Hst & Hbx & HC) & Hlt).
  unfold leaf_split_target_num_leaves. rewrite run_assert, (run_opt _ _ _ x.1) by (rewrite ?Hp; done).
  destruct (leaf_might_need_to_split _ _ _) eqn:Emight; [|by eexists]. cbn [negb].
  assert (num_tuples (stats x.1) ≠ 0) as Hnz.
  { intros E. unfold leaf_might_need_to_split in Emight. rewrite E, (S3 E) in Emight. destruct Henv.
    rewrite (proj2 (Z.ltb_ge _ _)) in Emight by lia. cbn in Emight. apply Z.ltb_lt in Emight. pose proof (u64_range (tc_incorporation_size_kv_bytes cfg * tc_target_fanout cfg)). lia. }
  assert (∃ e, leaf_estimate_unique_keys cfg count est_fp est_keys n s = Ret (e, s)) as [e He].
  { unfold leaf_estimate_unique_keys. rewrite run_assert, (run_opt _ _ _ x.1), (run_opt _ _ _ last) by (rewrite ?Hp; done).
    destruct (count_bundles_run (pivot_key x.1) (pivot_key last) (inflight_bundles n) 0 0 0 [] s Hf) as [[[[u f] q] ms] Hr].
    rewrite (bind_run _ _ _ _ _ Hr), (run_opt _ _ _ x.2) by by rewrite Hb. destruct (negb _); by eexists. }
  rewrite (bind_run _ _ _ _ _ He). destruct Henv.
  rewrite (proj2 (Z.eqb_neq _ _) Hnz), (proj2 (Z.eqb_neq (tc_incorporation_size_kv_bytes cfg) 0)), (proj2 (Z.eqb_neq rflimit 0)) by lia. by eexists.
Qed.
Lemma leaf_split_init_run N lo hi n B a b s : node_ok cfg (child_ok cfg N 0) 0 lo hi n B → key_small lo → key_small a → key_small b → key_small hi →
  key_le cfg lo a → key_le cfg b hi → key_lt cfg a b → light cfg W lo hi B →
  ∃ m, leaf_split_init cfg count n a b s = Ret (m, s) ∧ node_ok cfg (child_ok cfg N 0) 0 a b m B.
Proof using Henv key_order0.
  intros Hok Hlo Ha Hb' Hhi Hla Hbh Hab Hw. destruct Hok as (Hht & Hn & Hf & L & last & [Hp Hb] & Hne & H0 & Hk & Hs & Hs' & Hcov).
  destruct (covers_one _ _ _ _ _ Hcov (H0 eq_refl)) as (x & -> & (Hkx & Hsx & Hpx & Hst & Hbx & HC) & Hlt).
  unfold leaf_split_init. rewrite run_assert by (unfold trunk_node_is_leaf; by rewrite Hht). rewrite (run_opt _ _ _ x.1) by by rewrite Hp.
  set (lb := mk_trunk_pivot TRUNK_STATS_ZERO TRUNK_STATS_ZERO 0 0 false a). set (ub := mk_trunk_pivot TRUNK_STATS_ZERO TRUNK_STATS_ZERO 0 0 false b).
  set (e := mk_trunk_node 0 [lb; ub] [bundle_init] 0 []).
  rewrite (bind_run _ _ s e s eq_refl).
  assert (node_ok cfg (child_ok cfg N 0) 0 a b e (λ _, [])) as He.
  { split_and!; try done. exists [(lb, bundle_init)], ub. split_and!; try done. exists b. split_and!; try done.
    split_and!; cbn; try done. apply bundle_ok_init. }
  rewrite run_assert by by eapply node_ok_leaf_form. rewrite (run_opt _ _ _ x.2) by by rewrite Hb.
  destruct (trunk_node_receive_bundles_run cfg W count (env_counts _ _ _ _ _ Henv) s N 0 a b e (λ _, []) (Some x.2) (inflight_bundles n) (inflight_bundle_start x.1) He) as (m & Hrun & Hm);
    [by intros ? [= <-]|done|change (newest _) with (newest (x.2 :: drop (Z.to_nat (inflight_bundle_start x.1)) (inflight_bundles n))); rewrite <- (proj2 HC lo) by (split; [done|split; [by apply key_le_refl|done]]); apply Hw; split; [done|split; [by apply key_le_refl|done]]|]. exists m. split; [done|]. eapply (node_ok_ext cfg N 0 a b m _ B Ha); [|exact Hm]. intros k Hkr. cbn. rewrite app_nil_r. destruct HC as [_ HB].
  symmetry. apply HB. exact (in_range_sub cfg lo a b hi k Hlo Ha Hb' Hhi Hla Hbh Hkr).
Qed.
Definition leaves_ok (N : gmap Z trunk_ondisk_node) (lo hi : key) (l : list trunk_node) (B : key → list Z) : Prop :=
  l ≠ [] ∧ covers cfg (λ a b m, node_ok cfg (child_ok cfg N 0) 0 a b m B) lo hi l.
Lemma split_leaves_run N lo hi n B ks c s : node_ok cfg (child_ok cfg N 0) 0 lo hi n B → key_small lo → key_small hi → key_small c → key_le cfg lo c →
  increasing cfg c hi ks → light cfg W lo hi B → ∃ l, split_leaves cfg count n (c :: ks ++ [hi]) s = Ret (l, s) ∧ leaves_ok N c hi l B.
Proof using Henv key_order0.
  intros Hok Hlo Hhi. revert c. induction ks as [|k ks IH]; intros c Hc Hle Hinc Hw; cbn [app split_leaves].
  - destruct (leaf_split_init_run N lo hi n B c hi s) as (m & Hrun & Hm); try done; [by apply key_le_refl|].
    rewrite (bind_run _ _ _ _ _ Hrun), run_assert by by eapply node_ok_leaf_form. eexists. split; [reflexivity|]. split; [done|]. by exists hi.
  - destruct Hinc as (Hk & Hck & Hinc). assert (key_le cfg lo k) as Hlk by (apply (key_le_trans _ lo c k); try done; by apply key_lt_le).
    destruct (IH k Hk Hlk Hinc Hw) as (l & Hl & Hne & Hcov). destruct (covers_le cfg _ k hi l Hk Hcov) as [_ [->|Hkh]]; [done|].
    destruct (leaf_split_init_run N lo hi n B c k s) as (m & Hrun & Hm); try done; [by apply key_lt_le|].
    rewrite (bind_run _ _ _ _ _ Hrun), run_assert by by eapply node_ok_leaf_form. cbn [app] in Hl. rewrite (bind_run _ _ _ _ _ Hl).
    eexists. split; [reflexivity|]. split; [done|]. by exists k.
Qed.
Lemma copy_pivots ps s : Forall (λ p, trunk_pivot_stats_are_nonnegative (stats p) = true ∧ trunk_pivot_stats_are_nonnegative (prereceive_stats p) = true) ps →
  mmap trunk_pivot_copy ps s = Ret (ps, s).
Proof using.
  intros HF. rewrite (mmap_pure _ id) by (intros [pre st ca ib ci k] Hp; apply (proj1 (list.Forall_forall _ _) HF) in Hp as [H1 H2];
    unfold trunk_pivot_copy, trunk_pivot_create; rewrite (bind_run _ _ s (mk_trunk_pivot pre st ca ib false k) s); [done|]; cbn in *; by rewrite !run_assert).
  by rewrite list_fmap_id.
Qed.
Lemma pivots_nonneg N h lo hi n B : node_ok cfg (child_ok cfg N h) h lo hi n B →
  Forall (λ p, trunk_pivot_stats_are_nonnegative (stats p) = true ∧ trunk_pivot_stats_are_nonnegative (prereceive_stats p) = true) (pivots n).
Proof using.
  intros (Hht & Hn & Hf & L & last & [Hp Hb] & Hne & H0 & Hk & Hs & Hs' & Hcov). rewrite Hp. apply Forall_app. split; [|by repeat constructor].
  apply Forall_fmap, list.Forall_forall. intros x Hx. destruct (covers_elem _ _ _ _ _ _ Hcov Hx) as (a & b & (_ & Hsx & Hpx & _) & _).
  split; [by apply stats_ok_nonneg|done].
Qed.
Lemma eventual_run n s i b p : pivot_bundles n !! i = Some b → pivots n !! i = Some p → ∃ e, trunk_node_pivot_eventual_num_branches n i s = Ret (e, s) ∧
  e = bundle_num_branches b + ts_pivot_states s (pivot_key p) (height n) + Z.b2z (trunk_node_pivot_has_received_bundles n p).
Proof using. intros Hb Hp. unfold trunk_node_pivot_eventual_num_branches. rewrite (run_opt _ _ _ _ Hb), (run_opt _ _ _ _ Hp). by eexists. Qed.
Lemma leaf_split_run N lo hi n B s : node_ok cfg (child_ok cfg N 0) 0 lo hi n B → key_small lo → key_small hi → light cfg W lo hi B →
  ∃ l ab, leaf_split cfg count est_fp est_keys rough rflimit n s = Ret ((l, ab), s) ∧ leaves_ok N lo hi l B.
Proof using Henv key_order0.
  intros Hok Hlo Hhi Hw. destruct (leaf_split_target_run N lo hi n B s Hok) as [t Ht]. pose proof (pivots_nonneg _ _ _ _ _ _ Hok) as Hnn.
  pose proof Hok as (Hht & Hn & Hf & L & last & [Hp Hb] & Hne & H0 & Hk & Hs & Hs' & Hcov).
  destruct (covers_one _ _ _ _ _ Hcov (H0 eq_refl)) as (x & -> & (Hkx & Hsx & Hpx & Hst & Hbx & HC) & Hlt).
  unfold leaf_split. rewrite (bind_run _ _ _ _ _ Ht). destruct (eventual_run n s 0 x.2 x.1) as (e & He & _); [by rewrite Hb|by rewrite Hp|].
  rewrite (bind_run _ _ _ _ _ He). destruct (_ && _).
  - assert (trunk_node_copy_init n s = Ret (n, s)) as Hcopy by (unfold trunk_node_copy_init; rewrite (bind_run _ _ _ _ _ (copy_pivots _ _ Hnn)); by destruct n).
    rewrite (bind_run _ _ _ _ _ Hcopy). eexists _, _. split; [reflexivity|]. split; [done|]. exists hi. by split_and!.
  - set (ks := select_pivots rflimit (rough (branches x.2 ++ (drop (Z.to_nat (inflight_bundle_start x.1)) (inflight_bundles n) ≫= branches)) lo hi) (num_kv_bytes (stats x.1)) t 1 0 0).
    rewrite (bind_run _ _ s (lo :: ks ++ [hi]) s)
      by (unfold leaf_split_select_pivots; rewrite (run_opt _ _ _ x.1), (run_opt _ _ _ last), (run_opt _ _ _ x.2) by (rewrite ?Hp, ?Hb; done); by rewrite Hkx, Hk).
    destruct (split_leaves_run N lo hi n B ks lo s Hok) as (l & Hl & Hlok); try done; [by apply key_le_refl| |].
    { apply select_increasing; try done. by apply (env_rough _ _ _ _ _ Henv). }
    rewrite (bind_run _ _ _ _ _ Hl). by eexists _, _.
Qed.
End split.

(** ** Index nodes *)
Section index.
Context (cfg : trunk_config) {BI : bundle_inv} `{!key_order (tc_data_cfg cfg)}.
Lemma boundary i nc nn : 0 ≤ i → 1 ≤ nn ≤ nc → 0 ≤ i * nc / nn ∧ i * nc / nn < (i + 1) * nc / nn.
Proof using.
  intros Hi Hn. split; [apply Z.div_pos; nia|]. apply (Z.lt_le_trans _ ((i * nc + 1 * nn) / nn)); [rewrite Z.div_add by lia; lia|]. apply Z.div_le_mono; nia.
Qed.
(** The node of some of the children. *)
Definition part (n : trunk_node) (L : list (trunk_pivot * bundle)) (next : trunk_pivot) : trunk_node :=
  mk_trunk_node (height n) (L.*1 ++ [next]) L.*2 (num_old_bundles n) (inflight_bundles n).
Lemma index_init_split_run n L1 L2 L3 last next rest s :
  pivots_are n (L1 ++ L2 ++ L3) last → L3.*1 ++ [last] = next :: rest →
  Forall (λ p, trunk_pivot_stats_are_nonnegative (stats p) = true ∧ trunk_pivot_stats_are_nonnegative (prereceive_stats p) = true) (pivots n) →
  index_init_split n (lengthZ L1) (lengthZ L1 + lengthZ L2) s = Ret (part n L2 next, s).
Proof using.
  intros [Hp Hb] Hnext HF. unfold index_init_split.
  assert (take (Z.to_nat (lengthZ L1 + lengthZ L2 + 1 - lengthZ L1)) (drop (Z.to_nat (lengthZ L1)) (pivots n)) = L2.*1 ++ [next]) as ->.
  { rewrite Hp, !fmap_app, <- !app_assoc, Hnext, drop_app_length' by (rewrite length_fmap; unfold lengthZ; lia).
    rewrite take_app_ge by (rewrite length_fmap; unfold lengthZ; lia). f_equal.
    replace (_ - _)%nat with 1%nat by (rewrite length_fmap; unfold lengthZ; lia). done. }
  assert (take (Z.to_nat (lengthZ L1 + lengthZ L2 - lengthZ L1)) (drop (Z.to_nat (lengthZ L1)) (pivot_bundles n)) = L2.*2) as ->.
  { rewrite Hb, !fmap_app, drop_app_length' by (rewrite length_fmap; unfold lengthZ; lia).
    by rewrite take_app_length' by (rewrite length_fmap; unfold lengthZ; lia). }
  rewrite (bind_run _ _ s (L2.*1 ++ [next]) s); [done|]. apply copy_pivots.
  rewrite Hp, !fmap_app, <- !app_assoc, Hnext in HF. apply Forall_app in HF as [_ HF]. apply Forall_app in HF as [HF2 HF3]. apply Forall_app. split; [done|].
  constructor; [|done]. by apply list.Forall_cons in HF3 as [? _].
Qed.
Lemma index_split_loop N h lo hi n B L last s (b : Z → Z) nn : node_ok cfg (child_ok cfg N (S h)) (S h) lo hi n B → pivots_are n L last → b nn = lengthZ L →
  (∀ i, 0 ≤ i < nn → 0 ≤ b i < b (i + 1)) → ∀ r j mid L1 L2, 0 ≤ j → j + Z.of_nat r = nn → L = L1 ++ L2 → lengthZ L1 = b j → key_small mid →
  covers cfg (pivot_ok (child_ok cfg N (S h)) (inflight_bundles n) B) mid hi L2 →
  ∃ l, mmap (λ i, m ← index_init_split n (b i) (b (i + 1)); massert (trunk_node_is_well_formed_index cfg m);; mret m) (seqZ j (Z.of_nat r)) s = Ret (l, s) ∧
    length l = r ∧ covers cfg (λ a b m, node_ok cfg (child_ok cfg N (S h)) (S h) a b m B) mid hi l.
Proof using key_order0.
  intros Hok Hpiv Hbn Hb. pose proof (pivots_nonneg cfg _ _ _ _ _ _ Hok) as Hnn.
  destruct Hok as (Hht & Hn & Hf & L0 & last0 & Hpiv0 & Hne & H0 & Hk & Hs & Hs' & _).
  assert (last0 = last) as -> by (destruct Hpiv as [Hp _], Hpiv0 as [Hp0 _]; rewrite Hp in Hp0; by apply app_inj_tail in Hp0 as [_ ->]).
  induction r as [|r IH]; intros j mid L1 L2 Hj Hjr HL Hl Hmid Hcov.
  - exists []. split; [done|]. split; [done|]. replace j with nn in Hl by lia. destruct L2 as [|x L2]; [done|]. subst L. unfold lengthZ in *. rewrite length_app in Hbn. cbn in Hbn. lia.
  - rewrite seqZ_cons by lia. destruct (Hb j ltac:(lia)) as [Hj0 Hj1].
    assert (b (j + 1) ≤ lengthZ L) as Hle.
    { rewrite <- Hbn. assert (∀ k : nat, j + 1 + Z.of_nat k ≤ nn → b (j + 1) ≤ b (j + 1 + Z.of_nat k)) as HH.
      - induction k as [|k IHk]; intros Hk'; [by rewrite Z.add_0_r|]. destruct (Hb (j + 1 + Z.of_nat k) ltac:(lia)). replace (j + 1 + Z.of_nat (S k)) with (j + 1 + Z.of_nat k + 1) by lia. lia.
      - replace nn with (j + 1 + Z.of_nat (Z.to_nat (nn - (j + 1)))) by lia. apply HH. lia. }
    set (k := Z.to_nat (b (j + 1) - b j)). assert (lengthZ L = lengthZ L1 + lengthZ L2) as HlL by (subst L; unfold lengthZ; rewrite length_app; lia).
    set (P := take k L2). set (Q := drop k L2). assert (L2 = P ++ Q) as HPQ by (symmetry; apply take_drop).
    assert (lengthZ P = b (j + 1) - b j) as HlP by (unfold lengthZ, P, k in *; rewrite length_take; lia).
    clearbody P Q. rewrite HPQ in Hcov. apply covers_app in Hcov as (m & HcP & HcQ). destruct (covers_le cfg _ mid m P Hmid HcP) as [Hm Hmm].
    assert (∃ next rest, Q.*1 ++ [last] = next :: rest ∧ pivot_key next = m) as (next & rest & Hnext & Hkn).
    { destruct Q as [|y Q']; [cbn in HcQ; exists last, []; by rewrite HcQ|]. destruct HcQ as (? & _ & _ & (Hky & _) & _). eexists _, _; split; [reflexivity|done]. }
    assert (P ≠ []) as HPne by (intros E; rewrite E in HlP; unfold lengthZ in HlP; cbn in HlP; lia).
    assert (node_ok cfg (child_ok cfg N (S h)) (S h) mid m (part n P next) B) as Hpart.
    { assert (trunk_pivot_stats_are_nonnegative (stats next) = true ∧ trunk_pivot_stats_are_nonnegative (prereceive_stats next) = true) as [Hs1 Hs2].
      { apply (proj1 (list.Forall_forall _ _) Hnn). destruct Hpiv as [-> _]. rewrite HL, HPQ, !fmap_app, <- !app_assoc, Hnext. apply elem_of_app. right. apply elem_of_app. right. left. }
      split; [done|]. split; [done|]. split; [done|]. exists P, next. by split_and!. }
    cbn [mmap]. replace (b (j + 1)) with (lengthZ L1 + lengthZ P) by lia. rewrite <- Hl.
    rewrite (bind_run _ _ s (part n P next) s); cycle 1.
    { rewrite (bind_run _ _ _ _ _ (index_init_split_run n L1 P Q last next rest s ltac:(rewrite <- HPQ, <- HL; exact Hpiv) Hnext Hnn)).
      rewrite run_assert; [done|]. eapply (node_ok_index_form cfg N (S h)); [done|exact Hpart]. }
    destruct (IH (j + 1) m (L1 ++ P) Q) as (l & Hl' & Hlen & Hcov); try lia; try done.
    { by rewrite HL, HPQ, app_assoc. }
    { unfold lengthZ in *. rewrite length_app. lia. }
    replace (Z.succ j) with (j + 1) by lia. replace (Z.pred (Z.of_nat (S r))) with (Z.of_nat r) by lia.
    rewrite (bind_run _ _ _ _ _ Hl'). eexists. split; [reflexivity|]. split; [cbn; by rewrite Hlen|].
    exists m. split_and!; try done. by destruct Hmm.
Qed.
(** The split covers the range, in as many nodes as the fanout needs. *)
Lemma index_split_run N h lo hi n B s : 1 ≤ tc_target_fanout cfg → key_small lo → node_ok cfg (child_ok cfg N (S h)) (S h) lo hi n B →
  ∃ l, index_split cfg n s = Ret (l, s) ∧ lengthZ l = (trunk_node_num_children n + tc_target_fanout cfg - 1) / tc_target_fanout cfg ∧
    l ≠ [] ∧ covers cfg (λ a b m, node_ok cfg (child_ok cfg N (S h)) (S h) a b m B) lo hi l.
Proof using key_order0.
  intros Hfan Hlo Hok. pose proof Hok as (Hht & Hn & Hf & L & last & Hpiv & Hne & H0 & Hk & Hs & Hs' & Hcov). unfold index_split.
  rewrite run_assert by by eapply (node_ok_index_form cfg N (S h)). rewrite (proj2 (Z.eqb_neq _ 0)) by lia.
  assert (trunk_node_num_children n = lengthZ L) as Hnc by (unfold trunk_node_num_children; rewrite (proj1 Hpiv), lengthZ_snoc; unfold lengthZ; rewrite length_fmap; lia).
  rewrite Hnc. assert (1 ≤ lengthZ L) as HL by (unfold lengthZ; destruct L; [done|cbn; lia]).
  set (nn := (lengthZ L + tc_target_fanout cfg - 1) / tc_target_fanout cfg).
  assert (1 ≤ nn ≤ lengthZ L) as Hnn by (unfold nn; split; [apply Z.div_le_lower_bound; lia|apply Z.lt_succ_r, Z.div_lt_upper_bound; nia]).
  destruct (index_split_loop N h lo hi n B L last s (λ i, i * lengthZ L / nn) nn Hok Hpiv) with (r := Z.to_nat nn) (j := 0) (mid := lo) (L1 := @nil (trunk_pivot * bundle)) (L2 := L)
    as (l & Hl & Hlen & Hc); try done; try lia.
  - rewrite Z.mul_comm. by rewrite Z.div_mul by lia.
  - intros i Hi. apply boundary; lia.
  - rewrite Z2Nat.id in Hl by lia. exists l. split; [exact Hl|]. split; [unfold lengthZ; lia|]. split; [|done]. intros ->. cbn in Hlen. lia.
Qed.
End index.
