(* ===== verification/TrunkFlush.v ===== *)
(** * Trunk: flushes

    Flushing to a child moves the branches of a pivot into the trees of new children; a
    flush into a node returns, and the nodes written have the branches received before
    those of the node; or a page cannot be had, and nothing that was written changes. *)
From S2P Require Import Prelude DataInternal BtreeNode RoutingFilter Trunk TrunkInv TrunkNode TrunkSplit.

Lemma wp_shift {S A} (m : nat → M S A) s Q : wp m s Q → wp (λ fuel, m (Datatypes.S fuel)) s Q.
Proof. intros (n & a & s' & Hm & HQ). exists n, a, s'. split; [|done]. intros fuel Hle. apply Hm. lia. Qed.
Lemma wp_S {S A} (m : nat → M S A) s Q : wp (λ fuel, m (Datatypes.S fuel)) s Q → wp m s Q.
Proof. intros H. eapply wp_fuel; [|exact H]. done. Qed.

Section flush.
Context (cfg : trunk_config) {BI : bundle_inv} `{!key_order (tc_data_cfg cfg)}.
Context (W : Z → Z) (count : Z → key → key → btree_pivot_stats) (est_fp : list routing_filter → Z) (est_keys : Z → Z).
Context (rough : list Z → key → key → list (key * btree_pivot_stats)) (rflimit : Z) (Henv : trunk_env_ok cfg W count rough rflimit).

Lemma kept_refl s : trunk_ok cfg s → kept cfg s s.
Proof using. by split. Qed.
Lemma kept_ok_or {A} s s1 (Q Q' : A → trunk_state → Prop) r s' : kept cfg s s1 → ok_or (kept cfg s1) Q r s' → (∀ a t, Q a t → Q' a t) → ok_or (kept cfg s) Q' r s'.
Proof using. intros Hk H HQ. eapply ok_or_mono; [exact H|intros t Ht; by eapply kept_trans|done]. Qed.
Lemma abandon_kept k h s : trunk_ok cfg s → ∃ s', trunk_pivot_state_map_abandon_entry cfg k h s = Ret (tt, s') ∧ kept cfg s s' ∧ ts_nodes s' = ts_nodes s.
Proof using Henv.
  intros [H1 H2]. eexists. split; [reflexivity|]. split; [|done]. split; [|by split]. split; [done|]. intros k' h'. cbn. destruct (_ && _); [|done].
  destruct Henv. lia.
Qed.

(** What a flush into nodes of height [h] does. *)
Definition flush_ok (F : nat → trunk_node → option bundle → list bundle → Z → E (list trunk_ondisk_node_ref)) (h : nat) : Prop :=
  ∀ s lo hi n B routed inflight start, trunk_ok cfg s → key_small lo → key_small hi → node_ok cfg (child_ok cfg (ts_nodes s) h) h lo hi n B →
    (∀ b, routed = Some b → bundle_ok b) → Forall inflight_ok inflight →
    light cfg W lo hi (λ k, newest (incoming routed inflight start) ++ B k) →
    wp (λ fuel, F fuel n routed inflight start) s (ok_or (kept cfg s) (λ refs s', kept cfg s s' ∧
      refs_ok cfg (ts_nodes s') h lo hi refs (λ k, newest (incoming routed inflight start) ++ B k))).
Lemma flush_ok_shift F h : flush_ok F h → flush_ok (λ fuel, F (S fuel)) h.
Proof using. intros HF s lo hi n B routed inflight start H1 H2 H3 H4 H5 H6 H7. apply (wp_shift (λ fuel, F fuel n routed inflight start)). by apply HF. Qed.

(** ** Leaves *)
Lemma restore_balance_leaf_run s lo hi n B : trunk_ok cfg s → key_small lo → key_small hi → node_ok cfg (child_ok cfg (ts_nodes s) 0) 0 lo hi n B → light cfg W lo hi B →
  ∃ r s', restore_balance_leaf cfg count est_fp est_keys rough rflimit n s = Ret (r, s') ∧
    ok_or (kept cfg s) (λ refs s', kept cfg s s' ∧ refs_ok cfg (ts_nodes s') 0 lo hi refs B) r s'.
Proof using Henv key_order0.
  intros Hs Hlo Hhi Hok Hw. destruct (leaf_split_run cfg W count est_fp est_keys rough rflimit Henv _ lo hi n B s Hok Hlo Hhi Hw) as (l & ab & Hl & Hne & Hcov).
  unfold restore_balance_leaf. rewrite (bind_run _ _ _ _ _ Hl).
  pose proof Hok as (_ & _ & _ & L & last & [Hp _] & HneL & _). destruct L as [|x L]; [done|]. rewrite (run_opt _ _ _ x.1) by by rewrite Hp.
  assert (∃ s1, mwhen (l, ab).2 (trunk_pivot_state_map_abandon_entry cfg (pivot_key x.1) (height n)) s = Ret (tt, s1) ∧ kept cfg s s1 ∧ ts_nodes s1 = ts_nodes s) as (s1 & Hr1 & Hk1 & Hn1).
  { destruct ab; [by apply abandon_kept|]. exists s. split; [done|]. split; [by apply kept_refl|done]. }
  rewrite (bind_run _ _ _ _ _ Hr1). destruct (serialize_and_save_run cfg s1 0 lo hi l B (proj1 Hk1) Hne) as (r & s' & Hr & HQ); [by rewrite Hn1|].
  exists r, s'. split; [done|]. eapply kept_ok_or; [exact Hk1|exact HQ|]. intros refs t [Hkt Hrefs]. split; [by eapply kept_trans|done].
Qed.

(** ** One child *)
Definition fresh_child (num_inflight : Z) (x : trunk_pivot * bundle) : Prop :=
  stats x.1 = TRUNK_STATS_ZERO ∧ x.2 = bundle_init ∧ inflight_bundle_start x.1 = num_inflight.
(** A node whose pivots up to [L1] and after [L2] are those of [n]. *)
Definition flushed_to (s : trunk_state) (h : nat) (lo hi : key) (n : trunk_node) (B : key → list Z) (L1 L2 : list (trunk_pivot * bundle)) (last : trunk_pivot) (n' : trunk_node) (s' : trunk_state) : Prop :=
  kept cfg s s' ∧ node_ok cfg (child_ok cfg (ts_nodes s') (S h)) (S h) lo hi n' B ∧ num_old_bundles n' = num_old_bundles n ∧ inflight_bundles n' = inflight_bundles n ∧
  ∃ L, L ≠ [] ∧ Forall (fresh_child (lengthZ (inflight_bundles n))) L ∧ pivots_are n' (L1 ++ L ++ L2) last.
Definition new_child (num_inflight cc : Z) (r : trunk_ondisk_node_ref) : trunk_pivot :=
  trunk_pivot_cc_set (trunk_pivot_set_inflight_bundle_start (mk_trunk_pivot TRUNK_STATS_ZERO TRUNK_STATS_ZERO (ref_addr r) 0 false (ref_key r)) num_inflight) cc.
Lemma create_from_refs refs s : mmap trunk_pivot_create_from_ondisk_node_ref refs s =
  Ret ((λ r, mk_trunk_pivot TRUNK_STATS_ZERO TRUNK_STATS_ZERO (ref_addr r) 0 false (ref_key r)) <$> refs, s).
Proof using. by apply mmap_pure. Qed.
Lemma new_children_ok N h a m refs own B1 B inflight cc : key_small a → key_small m → 0 ≤ cc < 256 →
  covers cfg (λ a b r, ref_key r = a ∧ tree cfg N h a b (ref_addr r) (λ k, own ++ B1 k)) a m refs → (∀ k, in_range cfg a m k → B k = own ++ B1 k) →
  covers cfg (pivot_ok (child_ok cfg N (S h)) inflight B) a m ((λ r, (new_child (lengthZ inflight) cc r, bundle_init)) <$> refs).
Proof using key_order0.
  intros Ha Hm Hcc Hc HB. apply covers_fmap. refine (covers_sub cfg _ _ a m refs Ha _ Hc). intros c d r _ Hcs Hds Hac Hdm [Hk HT].
  split; [done|]. split; [done|]. split; [done|]. split; [cbn; unfold lengthZ; lia|]. split; [apply bundle_ok_init|]. cbn [fst snd].
  assert (trunk_pivot_child_addr (new_child (lengthZ inflight) cc r) = ref_addr r) as ->.
  { unfold new_child, trunk_pivot_cc_set, trunk_pivot_child_addr. cbn. rewrite cc_set_addr by done. by destruct h; destruct HT as (_ & Hal & _). }
  exists (λ k, own ++ B1 k). split; [done|]. intros k Hkr. rewrite HB by exact (in_range_sub cfg a c d m k Ha Hcs Hds Hm Hac Hdm Hkr).
  cbn [new_child trunk_pivot_cc_set trunk_pivot_set_inflight_bundle_start inflight_bundle_start]. unfold lengthZ. by rewrite Nat2Z.id, drop_all.
Qed.
Lemma replace_pivot n L1 x L2 last new news : pivots_are n (L1 ++ x :: L2) last → length new = length news →
  pivots_are (mk_trunk_node (height n) (vector_replace (pivots n) (length L1) new) (vector_replace (pivot_bundles n) (length L1) news) (num_old_bundles n) (inflight_bundles n))
    (L1 ++ zip new news ++ L2) last.
Proof using.
  intros [Hp Hb] Hlen. split; cbn; unfold vector_replace.
  - rewrite Hp, !fmap_app, <- !app_assoc, fst_zip by lia. cbn. rewrite take_app_length' by by rewrite length_fmap.
    replace (S (length L1)) with (length L1.*1 + 1)%nat by (rewrite length_fmap; lia). by rewrite <- drop_drop, drop_app_length.
  - rewrite Hb, !fmap_app, snd_zip by lia. cbn. rewrite take_app_length' by by rewrite length_fmap.
    replace (S (length L1)) with (length L1.*2 + 1)%nat by (rewrite length_fmap; lia). by rewrite <- drop_drop, drop_app_length.
Qed.
(** The range and the child of one pivot. *)
Lemma pivot_split N h lo hi n B L1 x L2 last : key_small lo → light cfg W lo hi B → node_ok cfg (child_ok cfg N (S h)) (S h) lo hi n B → pivots_are n (L1 ++ x :: L2) last →
  ∃ a m B1, key_small a ∧ key_small m ∧ key_lt cfg a m ∧ covers cfg (pivot_ok (child_ok cfg N (S h)) (inflight_bundles n) B) lo a L1 ∧
    covers cfg (pivot_ok (child_ok cfg N (S h)) (inflight_bundles n) B) m hi L2 ∧ bundle_ok x.2 ∧ light cfg W a m B ∧ tree cfg N h a m (trunk_pivot_child_addr x.1) B1 ∧
    ∀ k, in_range cfg a m k → B k = newest (incoming (Some x.2) (inflight_bundles n) (inflight_bundle_start x.1)) ++ B1 k.
Proof using key_order0.
  intros Hlo Hw (Hht & Hn & Hf & L & last' & [Hp' Hb'] & Hne & H0 & Hk & Hs & Hs' & Hcov) [Hp Hb].
  assert (L = L1 ++ x :: L2) as ->.
  { rewrite Hp in Hp'. apply app_inj_tail in Hp' as [E1 _]. rewrite Hb in Hb'. rewrite <- (zip_fst_snd L), <- (zip_fst_snd (L1 ++ x :: L2)). by rewrite E1, Hb'. }
  apply covers_app in Hcov as (a & Hc1 & (m & Hm & Ham & (Hkx & Hsx & Hpx & Hst & Hbx & (B1 & HT & HB)) & Hc2)).
  destruct (covers_le cfg _ lo a L1 Hlo Hc1) as [Ha Hla], (covers_le cfg _ m hi L2 Hm Hc2) as [Hhi Hmh]. exists a, m, B1. split_and!; try done.
  apply (light_sub cfg W lo hi); try done.
  - destruct Hla as [->|?]; [cbn in Hc1; rewrite Hc1; by apply key_le_refl|by apply key_lt_le].
  - destruct Hmh as [->|?]; [cbn in Hc2; rewrite Hc2; by apply key_le_refl|by apply key_lt_le].
Qed.
Lemma lookup_pivot n L1 x L2 last : pivots_are n (L1 ++ x :: L2) last → pivots n !! length L1 = Some x.1 ∧ pivot_bundles n !! length L1 = Some x.2.
Proof using.
  intros [Hp Hb]. rewrite Hp, Hb, !fmap_app, <- app_assoc. cbn. split; apply list_lookup_middle; by rewrite length_fmap.
Qed.
Lemma pivot_ok_store (N N' : gmap Z trunk_ondisk_node) h inflight B a b x : N ⊆ N' →
  pivot_ok (child_ok cfg N h) inflight B a b x → pivot_ok (child_ok cfg N' h) inflight B a b x.
Proof using. intros Hs (H1 & H2 & H3 & H4 & H5 & H6). split_and!; try lia; try done. by eapply child_ok_store. Qed.
Lemma flush_to_one_child_run F h s lo hi n B L1 x L2 last : flush_ok F h → trunk_ok cfg s → key_small lo → light cfg W lo hi B →
  node_ok cfg (child_ok cfg (ts_nodes s) (S h)) (S h) lo hi n B → pivots_are n (L1 ++ x :: L2) last →
  wp (λ fuel, flush_to_one_child cfg (F fuel) n (length L1)) s (ok_or (kept cfg s) (flushed_to s h lo hi n B L1 L2 last)).
Proof using Henv key_order0.
  intros HF Hs Hlo Hw Hok Hpiv. destruct (pivot_split _ _ _ _ _ _ _ _ _ _ Hlo Hw Hok Hpiv) as (a & m & B1 & Ha & Hm & Ham & Hc1 & Hc2 & Hbx & Hwa & HT & HB).
  unfold flush_to_one_child.
  destruct (lookup_pivot _ _ _ _ _ Hpiv) as [Hlp Hlb]. eapply wp_opt; [exact Hlp|]. eapply wp_opt; [exact Hlb|].
  destruct (trunk_node_deserialize_run cfg s h a m _ B1 HT) as (child & Hd & Hchild). eapply wp_bind_run; [exact Hd|].
  set (s1 := with_misses _ s). assert (kept cfg s s1) as Hk1 by (destruct Hs; by split; split).
  eapply wp_ebind.
  { eapply wp_mono; [apply (HF s1 a m child B1 (Some x.2) (inflight_bundles n) (inflight_bundle_start x.1)); try done; [apply Hk1|by intros ? [= <-]|by destruct Hok as (_ & _ & ? & _)|intros k Hkr; rewrite <- HB by done; by apply Hwa]|].
    intros r s2 Hr. eapply kept_ok_or; [exact Hk1|exact Hr|]. cbv beta. intros refs t [Hkt Hrefs].
    exact (conj (kept_trans _ _ _ _ Hk1 Hkt) Hrefs). }
  cbv beta. intros refs s2 [Hk2 [Hne Hrefs]]. eapply wp_bind_run; [apply create_from_refs|].
  set (cc := if 0 <? _ then _ else 0).
  assert (0 ≤ cc < 256) as Hcc.
  { unfold cc. pose proof (trunk_pivot_cc_range x.1). destruct (Z.ltb_spec 0 (lengthZ ((λ r, mk_trunk_pivot TRUNK_STATS_ZERO TRUNK_STATS_ZERO (ref_addr r) 0 false (ref_key r)) <$> refs))); [|lia].
    split; [apply Z.div_pos; lia|]. apply Z.div_lt_upper_bound; nia. }
  destruct (abandon_kept (pivot_key x.1) (height n) s2 (proj1 Hk2)) as (s3 & Hr3 & Hk3 & Hn3). eapply wp_bind_run; [exact Hr3|].
  apply wp_ret. cbn [ok_or]. rewrite <- !list_fmap_compose.
  set (new := (λ r, (new_child (lengthZ (inflight_bundles n)) cc r, bundle_init)) <$> refs).
  assert (kept cfg s s3) as Hk by by eapply kept_trans.
  assert (refs_ok cfg (ts_nodes s3) h a m refs (λ k, newest (incoming (Some x.2) (inflight_bundles n) (inflight_bundle_start x.1)) ++ B1 k)) as [_ Hrefs3] by by rewrite Hn3.
  pose proof (new_children_ok (ts_nodes s3) h a m refs _ B1 B (inflight_bundles n) cc Ha Hm Hcc Hrefs3 HB) as Hnew. fold new in Hnew.
  assert (new ≠ []) as Hnene by (unfold new; by destruct refs).
  pose proof (replace_pivot n L1 x L2 last new.*1 new.*2 Hpiv ltac:(by rewrite !length_fmap)) as Hpiv'.
  rewrite zip_fst_snd in Hpiv'. unfold new in Hpiv' at 1 2. rewrite <- !list_fmap_compose in Hpiv'.
  split; [done|]. split; [|split; [done|split; [done|]]]; cbn [inflight_bundles]; [|exists new; split_and!; [done| |exact Hpiv']].
  - destruct Hok as (Hht & Hn & Hf & L & last' & [Hp' Hb'] & Hne' & H0 & Hkl & Hsl & Hsl' & Hcov).
    assert (last' = last) as -> by (destruct Hpiv as [Hp _]; rewrite Hp in Hp'; by apply app_inj_tail in Hp' as [_ ->]).
    split; [done|]. split; [done|]. split; [done|]. exists (L1 ++ new ++ L2), last. split_and!; try done.
    + destruct L1; [|done]. by destruct new.
    + assert (ts_nodes s ⊆ ts_nodes s3) as Hsub by by apply Hk.
      apply covers_app. exists a. split; [|apply covers_app; exists m; split; [exact Hnew|]];
        (eapply covers_impl; [|first [exact Hc1|exact Hc2]]); intros c d y _; by apply pivot_ok_store.
  - apply Forall_fmap, list.Forall_forall. intros r _. by split_and!.
Qed.

(** ** All children *)
Definition loop_post (s : trunk_state) (h : nat) (lo hi : key) (B : key → list Z) (r : trunk_node * nat * Z) (s' : trunk_state) : Prop :=
  kept cfg s s' ∧ node_ok cfg (child_ok cfg (ts_nodes s') (S h)) (S h) lo hi r.1.1 B ∧ (r.1.2 < length (pivot_bundles r.1.1))%nat.
Lemma num_children_are n L last : pivots_are n L last → trunk_node_num_children n = lengthZ L.
Proof using. intros [Hp _]. unfold trunk_node_num_children. rewrite Hp, lengthZ_snoc. unfold lengthZ. rewrite length_fmap. lia. Qed.
Lemma fresh_child_quiet n x e : fresh_child (lengthZ (inflight_bundles n)) x → 0 ≤ e ≤ tc_target_fanout cfg →
  (tc_target_fanout cfg <? bundle_num_branches x.2 + e + Z.b2z (trunk_node_pivot_has_received_bundles n x.1)) || (rflimit <? num_tuples (stats x.1)) = false.
Proof using Henv.
  intros (Hs & Hb & Hst) He. rewrite Hb, Hs. unfold trunk_node_pivot_has_received_bundles. rewrite Hst. destruct Henv. apply orb_false_iff. split; apply Z.ltb_ge; [|cbn; lia].
  change (bundle_num_branches bundle_init) with 0.
  destruct (Z.leb_spec (lengthZ (inflight_bundles n)) (num_old_bundles n)), (Z.ltb_spec (num_old_bundles n) (lengthZ (inflight_bundles n))); cbn; lia.
Qed.
(** The visit of the child after [Ldone]. *)
Lemma flush_full_visit F s n Ldone y rest last fullest kv Q : pivots_are n (Ldone ++ y :: rest) last →
  wp (λ fuel, if (tc_target_fanout cfg <? bundle_num_branches y.2 + ts_pivot_states s (pivot_key y.1) (height n) + Z.b2z (trunk_node_pivot_has_received_bundles n y.1)) || (rflimit <? num_tuples (stats y.1))
    then ebind (flush_to_one_child cfg (F (S fuel)) n (length Ldone)) (λ index, flush_full_children cfg rflimit (F (S fuel)) fuel index (S (length Ldone)) fullest kv)
    else if kv <? num_kv_bytes (stats y.1) then flush_full_children cfg rflimit (F (S fuel)) fuel n (S (length Ldone)) (length Ldone) (num_kv_bytes (stats y.1))
    else flush_full_children cfg rflimit (F (S fuel)) fuel n (S (length Ldone)) fullest kv) s Q →
  wp (λ fuel, flush_full_children cfg rflimit (F fuel) fuel n (length Ldone) fullest kv) s Q.
Proof using.
  intros Hpiv H. apply wp_S. cbn [flush_full_children].
  assert ((Z.of_nat (length Ldone) <? trunk_node_num_children n) = true) as -> by (rewrite (num_children_are _ _ _ Hpiv); apply Z.ltb_lt; unfold lengthZ; rewrite length_app; cbn; lia).
  cbn [negb]. destruct (lookup_pivot _ _ _ _ _ Hpiv) as [Hlp Hlb]. eapply wp_opt; [exact Hlp|].
  destruct (eventual_run n s (length Ldone) y.2 y.1 Hlb Hlp) as (e & He & ->). eapply wp_bind_run; [exact He|]. exact H.
Qed.
(** A child that was just made is passed by. *)
Lemma flush_full_quiet F s n Ldone q rest last fullest kv Q : trunk_ok cfg s → 0 ≤ kv → fresh_child (lengthZ (inflight_bundles n)) q → pivots_are n (Ldone ++ q :: rest) last →
  wp (λ fuel, flush_full_children cfg rflimit (F (S fuel)) fuel n (length (Ldone ++ [q])) fullest kv) s Q →
  wp (λ fuel, flush_full_children cfg rflimit (F fuel) fuel n (length Ldone) fullest kv) s Q.
Proof using Henv.
  intros Hs Hkv Hq Hpiv H. eapply flush_full_visit; [exact Hpiv|]. rewrite (fresh_child_quiet n q _ Hq) by apply Hs. destruct Hq as (Hqs0 & _ & _).
  rewrite Hqs0. cbn [num_kv_bytes TRUNK_STATS_ZERO]. rewrite (proj2 (Z.ltb_ge kv 0)) by done.
  by replace (S (length Ldone)) with (length (Ldone ++ [q])) by (rewrite length_app; cbn; lia).
Qed.
Lemma flush_full_children_run h lo hi B : ∀ Lo Lq F s n Ldone last fullest kv, key_small lo → light cfg W lo hi B → flush_ok F h → trunk_ok cfg s →
  node_ok cfg (child_ok cfg (ts_nodes s) (S h)) (S h) lo hi n B → pivots_are n (Ldone ++ Lq ++ Lo) last →
  Forall (fresh_child (lengthZ (inflight_bundles n))) Lq → (fullest < length (Ldone ++ Lq ++ Lo))%nat → 0 ≤ kv →
  wp (λ fuel, flush_full_children cfg rflimit (F fuel) fuel n (length Ldone) fullest kv) s (ok_or (kept cfg s) (loop_post s h lo hi B)).
Proof using Henv key_order0.
  induction Lo as [|x Lo IHo]; intros Lq; induction Lq as [|q Lq IHq]; intros F s n Ldone last fullest kv Hlo Hw HF Hs Hok Hpiv Hq Hfull Hkv.
  - rewrite !app_nil_r in *. eapply wp_ext; [|apply (wp_ret (inr (n, fullest, kv)))].
    + intros fuel. assert ((Z.of_nat (length Ldone) <? trunk_node_num_children n) = false) as E by (rewrite (num_children_are _ _ _ Hpiv); apply Z.ltb_ge; unfold lengthZ; lia).
      destruct fuel; cbn [flush_full_children]; by rewrite E.
    + cbn. split; [by apply kept_refl|]. split; [done|]. cbn. destruct Hpiv as [_ ->]. by rewrite length_fmap.
  - apply list.Forall_cons in Hq as [Hq Hqs]. eapply flush_full_quiet; try done.
    apply (IHq (λ fuel, F (S fuel)) s n (Ldone ++ [q]) last); try done; [by apply flush_ok_shift|by rewrite <- app_assoc|by rewrite <- app_assoc].
  - eapply flush_full_visit; [exact Hpiv|]. pose proof (flush_ok_shift _ _ HF) as HF'.
    replace (S (length Ldone)) with (length (Ldone ++ [x])) by (rewrite length_app; cbn; lia).
    destruct (_ || _); [|destruct (Z.ltb_spec kv (num_kv_bytes (stats x.1)))].
    + eapply wp_ebind; [by apply (flush_to_one_child_run (λ fuel, F (S fuel)) h s lo hi n B Ldone x Lo last)|]. cbv beta.
      intros n' s1 (Hk & Hok' & Hold & Hinfl & L & HL & HfL & Hpiv'). destruct L as [|y L]; [done|]. apply list.Forall_cons in HfL as [Hy HfL].
      replace (length (Ldone ++ [x])) with (length (Ldone ++ [y])) by by rewrite !length_app.
      eapply wp_mono; [apply (IHo L (λ fuel, F (S fuel)) s1 n' (Ldone ++ [y]) last); try done; [apply Hk|by rewrite <- app_assoc|by rewrite Hinfl|]|].
      * rewrite <- app_assoc. cbn in *. rewrite !length_app in *. cbn in *. rewrite length_app. lia.
      * intros r s2 Hr. eapply kept_ok_or; [exact Hk|exact Hr|]. intros r' t (? & ? & ?). split_and!; try done. by eapply kept_trans.
    + apply (IHo [] (λ fuel, F (S fuel)) s n (Ldone ++ [x]) last); try done; [by rewrite <- app_assoc| |lia]. rewrite !length_app. cbn. lia.
    + apply (IHo [] (λ fuel, F (S fuel)) s n (Ldone ++ [x]) last); try done; by rewrite <- app_assoc.
  - apply list.Forall_cons in Hq as [Hq Hqs]. eapply flush_full_quiet; try done.
    apply (IHq (λ fuel, F (S fuel)) s n (Ldone ++ [q]) last); try done; [by apply flush_ok_shift|by rewrite <- app_assoc|by rewrite <- app_assoc].
Qed.
(** ** Index nodes *)
Lemma restore_balance_index_run F h s lo hi n B : key_small lo → light cfg W lo hi B → flush_ok F h → trunk_ok cfg s → node_ok cfg (child_ok cfg (ts_nodes s) (S h)) (S h) lo hi n B →
  wp (λ fuel, restore_balance_index cfg rflimit (F fuel) fuel n) s
    (ok_or (kept cfg s) (λ refs s', kept cfg s s' ∧ refs_ok cfg (ts_nodes s') (S h) lo hi refs B)).
Proof using Henv key_order0.
  intros Hlo Hw HF Hs Hok. unfold restore_balance_index. apply wp_assert; [by eapply (node_ok_index_form cfg _ (S h))|].
  pose proof Hok as (_ & _ & _ & L & last & Hpiv & Hne & _).
  eapply wp_ebind; [apply (flush_full_children_run h lo hi B L [] F s n [] last 0 0); try done; destruct L; [done|cbn; lia]|]. cbv beta.
  intros [[n1 fullest] kv] s1 (Hk1 & Hok1 & Hfull). cbn [fst snd] in *.
  eapply (wp_ebind _ _ _ _ (λ n2 s2, kept cfg s s2 ∧ node_ok cfg (child_ok cfg (ts_nodes s2) (S h)) (S h) lo hi n2 B)).
  { destruct (tc_incorporation_size_kv_bytes cfg <? kv); [|by apply wp_ret].
    pose proof Hok1 as (_ & _ & _ & L1 & last1 & Hpiv1 & _). destruct Hpiv1 as [Hp1 Hb1] eqn:E. clear E. rewrite Hb1, length_fmap in Hfull.
    destruct (lookup_lt_is_Some_2 L1 fullest Hfull) as [x Hx]. destruct (list_elem_of_split_length _ _ _ Hx) as (La & Lb & -> & ->).
    eapply wp_mono; [by apply (flush_to_one_child_run F h s1 lo hi n1 B La x Lb last1); try done; apply Hk1|].
    intros r s2 Hr. eapply kept_ok_or; [exact Hk1|exact Hr|]. intros n2 t (Hk2 & Hok2 & _). split; [by eapply kept_trans|done]. }
  cbv beta. intros n2 s2 [Hk2 Hok2].
  destruct (index_split_run cfg (ts_nodes s2) h lo hi n2 B s2) as (l & Hl & _ & Hnel & Hcov); try done; [destruct Henv; lia|].
  eapply wp_bind_run; [exact Hl|]. destruct (serialize_and_save_run cfg s2 (S h) lo hi l B (proj1 Hk2) Hnel Hcov) as (r & s3 & Hr & HQ).
  eapply wp_run; [exact Hr|]. eapply kept_ok_or; [exact Hk2|exact HQ|]. intros refs t [Hkt Hrefs]. split; [by eapply kept_trans|done].
Qed.
Lemma flush_then_compact_ok h : flush_ok (flush_then_compact cfg count est_fp est_keys rough rflimit) h.
Proof using Henv key_order0.
  induction h as [|h IH]; intros s lo hi n B routed inflight start Hs Hlo Hhi Hok Hr Hi Hw.
  all: assert (weight W (newest (incoming routed inflight start)) < 2 ^ 32) as Hwr by (pose proof Hok as (_ & _ & _ & L & last & _ & HL & _ & _ & _ & _ & Hcov); destruct (covers_le cfg _ lo hi L Hlo Hcov) as [_ [->|?]]; [done|by apply (light_received cfg W count rough rflimit Henv lo hi _ B)]).
  all: apply wp_S; cbn [flush_then_compact].
  all: destruct (trunk_node_receive_bundles_run cfg W count (env_counts _ _ _ _ _ Henv) s _ _ lo hi n B routed inflight start Hok Hr Hi Hwr) as (n1 & Hn1 & Hok1).
  all: eapply wp_bind_run; [exact Hn1|]; apply wp_assert; [by eapply node_ok_well_formed|]; rewrite (node_ok_height _ _ _ _ _ _ _ Hok1); cbn [bool_decide].
  - destruct (restore_balance_leaf_run s lo hi n1 _ Hs Hlo Hhi Hok1 Hw) as (r & s' & Hrun & HQ). by eapply wp_run.
  - by apply (restore_balance_index_run (λ fuel, flush_then_compact cfg count est_fp est_keys rough rflimit fuel)).
Qed.
End flush.
