(* ===== verification/TrunkRoot.v ===== *)
(** * Trunk: roots

    New roots over the nodes a flush into the root leaves, and an incorporation from its
    preparation to its end. *)
From S2P Require Import Prelude DataInternal BtreeNode RoutingFilter Trunk TrunkInv TrunkNode TrunkSplit TrunkFlush.

Section root.
Context (cfg : trunk_config) {BI : bundle_inv} `{!key_order (tc_data_cfg cfg)}.
Context (W : Z → Z) (count : Z → key → key → btree_pivot_stats) (est_fp : list routing_filter → Z) (est_keys : Z → Z).
Context (rough : list Z → key → key → list (key * btree_pivot_stats)) (rflimit : Z) (Henv : trunk_env_ok cfg W count rough rflimit).
Local Abbreviation NEG := NEGATIVE_INFINITY_KEY.
Local Abbreviation POS := POSITIVE_INFINITY_KEY.

Lemma build_new_roots_run s h refs B : trunk_ok cfg s → refs_ok cfg (ts_nodes s) h NEG POS refs B → 1 < lengthZ refs →
  ∃ r s', build_new_roots cfg (Z.of_nat h) refs s = Ret (r, s') ∧ ok_or (kept cfg s)
    (λ refs' s', kept cfg s s' ∧ refs_ok cfg (ts_nodes s') (S h) NEG POS refs' B ∧ (length refs' < length refs)%nat) r s'.
Proof using Henv key_order0.
  intros Hs [Hne Hrefs] Hlen. unfold build_new_roots. rewrite run_assert by by apply Z.ltb_lt. rewrite (bind_run _ _ _ _ _ (create_from_refs refs s)).
  set (child := λ r, mk_trunk_pivot TRUNK_STATS_ZERO TRUNK_STATS_ZERO (ref_addr r) 0 false (ref_key r)).
  set (ub := mk_trunk_pivot TRUNK_STATS_ZERO TRUNK_STATS_ZERO 0 0 false POS). rewrite (bind_run _ _ s ub s eq_refl).
  set (root := mk_trunk_node _ _ _ _ _).
  assert (pivots_are root ((λ r, (child r, bundle_init)) <$> refs) ub) as Hpiv by (split; cbn; rewrite <- !list_fmap_compose; done).
  assert (node_ok cfg (child_ok cfg (ts_nodes s) (S h)) (S h) NEG POS root B) as Hok.
  { split; [cbn; lia|]. split; [done|]. split; [constructor|]. exists ((λ r, (child r, bundle_init)) <$> refs), ub. split_and!; try done; [by destruct refs|].
    apply covers_fmap. eapply covers_impl; [|exact Hrefs]. intros a b r _ [Hk HT]. split_and!; try done; [apply bundle_ok_init|].
    exists B. split; [|done]. assert (aligned (ref_addr r)) as Hal by (destruct h; by destruct HT as (_ & ? & _)).
    change (tree cfg (ts_nodes s) h a b (Z.land (ref_addr r) TRUNK_PIVOT_ADDR_MASK) B). by rewrite Hal. }
  rewrite run_assert by by eapply (node_ok_index_form cfg _ (S h)). destruct Henv.
  destruct (index_split_run cfg (ts_nodes s) h NEG POS root B s) as (l & Hl & Hll & Hnel & Hcov); try done; [lia|].
  rewrite (bind_run _ _ _ _ _ Hl). destruct (serialize_nodes_run cfg s (S h) NEG POS l B Hs Hcov) as (r & s' & Hr & HQ).
  unfold ebind. rewrite (bind_run _ _ _ _ _ Hr). destruct r as [rc|l']; [by exists (inl rc), s'|]. eexists _, _. split; [reflexivity|].
  destruct HQ as (Hk & Hlen' & Hcov'). split; [done|]. split; [split; [|done]; intros E; apply fmap_nil_inv in E; subst; by destruct l|].
  rewrite length_fmap. rewrite (num_children_are _ _ _ Hpiv) in Hll.
  assert (lengthZ ((λ r, (child r, bundle_init)) <$> refs) = lengthZ refs) as El by (unfold lengthZ; by rewrite length_fmap). rewrite El in Hll.
  assert ((lengthZ refs + tc_target_fanout cfg - 1) / tc_target_fanout cfg < lengthZ refs) as Hlt by (apply Z.div_lt_upper_bound; nia).
  unfold lengthZ in *. lia.
Qed.
Lemma build_roots_run h refs B s : trunk_ok cfg s → refs_ok cfg (ts_nodes s) h NEG POS refs B →
  wp (λ fuel, build_roots cfg fuel (Z.of_nat h) refs) s
    (ok_or (kept cfg s) (λ refs' s', kept cfg s s' ∧ ∃ h' r, refs' = [r] ∧ refs_ok cfg (ts_nodes s') h' NEG POS refs' B)).
Proof using Henv key_order0.
  remember (length refs) as len eqn:El. revert h refs s El. induction (lt_wf len) as [len _ IH]. intros h refs s El Hs Hrefs.
  destruct (Z.ltb_spec 1 (lengthZ refs)) as [Hlt|Hge].
  - apply wp_S. cbn [build_roots]. rewrite (proj2 (Z.ltb_lt _ _) Hlt). cbn [negb].
    destruct (build_new_roots_run s h refs B Hs Hrefs Hlt) as (r & s1 & Hr & HQ).
    eapply wp_ebind; [eapply wp_run; [exact Hr|exact HQ]|]. cbv beta. intros refs1 s1' (Hk & Hrefs1 & Hlen).
    replace (Z.of_nat h + 1) with (Z.of_nat (S h)) by lia. eapply wp_mono; [apply (IH (length refs1)); [lia|done|apply Hk|exact Hrefs1]|].
    intros r' s2 Hr'. eapply kept_ok_or; [exact Hk|exact Hr'|]. intros refs2 t (Hkt & Hex). split; [by eapply kept_trans|done].
  - eapply wp_ext; [|apply (wp_ret (inr refs))].
    + intros fuel. destruct fuel; cbn [build_roots]; by rewrite (proj2 (Z.ltb_ge _ _) Hge).
    + split; [by apply kept_refl|]. destruct Hrefs as [Hne Hc]. destruct refs as [|r [|]]; [done| |unfold lengthZ in Hge; cbn in Hge; lia].
      exists h, r. split; [done|]. by split.
Qed.

(** ** Incorporation *)
(** [B]: the branches on the path of each key from the root, newest first. *)
Definition root_ok (s : trunk_state) (root : option trunk_ondisk_node_ref) (B : key → list Z) : Prop :=
  match root with
  | None => ∀ k, B k = []
  | Some r => ref_key r = NEG ∧ ∃ h, tree cfg (ts_nodes s) h NEG POS (ref_addr r) B
  end.
Lemma root_ok_store s s' root B : ts_nodes s ⊆ ts_nodes s' → root_ok s root B → root_ok s' root B.
Proof using. intros Hs. destruct root as [r|]; [|done]. intros (Hk & h & HT). split; [done|]. exists h. by eapply tree_store. Qed.
(** What an incorporation that fails, or has been prepared, leaves. *)
Definition prepared (s : trunk_state) (B : key → list Z) (s' : trunk_state) : Prop :=
  trunk_ok cfg s' ∧ ts_nodes s ⊆ ts_nodes s' ∧ ts_root s' = ts_root s ∧ ts_pre_incorporation_root s' = ts_pre_incorporation_root s ∧
  ∃ r, ts_post_incorporation_root s' = Some r ∧ root_ok s' (Some r) B.
Lemma read_root s B : trunk_ok cfg s → root_ok s (ts_root s) B →
  ∃ n s1 h, match ts_root s with
    | Some r => trunk_node_deserialize cfg (ref_addr r)
    | None => n ← trunk_node_init_empty_leaf NEG POS; massert (trunk_node_is_well_formed_leaf cfg n);; mret n
    end s = Ret (n, s1) ∧ kept cfg s s1 ∧ ts_nodes s1 = ts_nodes s ∧ node_ok cfg (child_ok cfg (ts_nodes s) h) h NEG POS n B.
Proof using.
  intros Hs HR. destruct (ts_root s) as [r|].
  - destruct HR as (_ & h & HT). destruct (trunk_node_deserialize_run cfg s h NEG POS _ B HT) as (n & Hd & Hok). eexists n, _, h. split; [exact Hd|].
    split; [|done]. destruct Hs. by split; split.
  - set (lb := mk_trunk_pivot TRUNK_STATS_ZERO TRUNK_STATS_ZERO 0 0 false NEG). set (ub := mk_trunk_pivot TRUNK_STATS_ZERO TRUNK_STATS_ZERO 0 0 false POS).
    set (n := mk_trunk_node 0 [lb; ub] [bundle_init] 0 []). assert (node_ok cfg (child_ok cfg (ts_nodes s) 0) 0 NEG POS n B) as Hok.
    { split_and!; try done. exists [(lb, bundle_init)], ub. split_and!; try done. exists POS. split_and!; try done. split_and!; try done. apply bundle_ok_init. }
    exists n, s, 0%nat. rewrite (bind_run _ _ s n s eq_refl), run_assert by by eapply node_ok_leaf_form. split; [done|]. split; [by apply kept_refl|done].
Qed.
Lemma trunk_incorporate_prepare_run s branch B : bundle_pred (bundle_init_single NULL_ROUTING_FILTER branch) → trunk_ok cfg s → root_ok s (ts_root s) B → ts_post_incorporation_root s = None → light cfg W NEG POS (λ k, branch :: B k) →
  wp (λ fuel, trunk_incorporate_prepare cfg count est_fp est_keys rough rflimit fuel branch) s
    (ok_or (kept cfg s) (λ _ s', prepared s (λ k, branch :: B k) s')).
Proof using Henv key_order0.
  intros Hbp Hs HR Hpost Hw. unfold trunk_incorporate_prepare. eapply wp_bind_run; [reflexivity|]. eapply wp_bind_run; [reflexivity|].
  set (s0 := with_tasks [] s). assert (kept cfg s s0) as Hk0 by (destruct Hs; by split; split).
  destruct (read_root s0 B (proj1 Hk0) HR) as (n & s1 & h & Hrun & Hk1 & Hn1 & Hok). eapply wp_bind_run; [exact Hrun|].
  assert (kept cfg s s1) as Hks1 by by eapply kept_trans.
  assert (Forall inflight_ok [bundle_init_single NULL_ROUTING_FILTER branch]) as Hinfl by (constructor; [split; [split; [intros _; cbn; lia|done]|done]|constructor]).
  eapply wp_ebind.
  { eapply wp_mono; [apply (flush_then_compact_ok cfg W count est_fp est_keys rough rflimit Henv h s1 NEG POS n B None [bundle_init_single NULL_ROUTING_FILTER branch] 0);
      try done; [apply Hk1|by rewrite Hn1]|].
    intros r s2 Hr. eapply kept_ok_or; [exact Hks1|exact Hr|]. intros refs t [Hkt Hrefs]. exact (conj (kept_trans _ _ _ _ Hks1 Hkt) Hrefs). }
  cbv beta. intros refs s2 [Hk2 Hrefs]. replace (height n) with (Z.of_nat h) by (symmetry; apply Hok).
  eapply wp_ebind.
  { eapply wp_mono; [apply (build_roots_run h refs _ s2 (proj1 Hk2) Hrefs)|].
    intros r s3 Hr. eapply kept_ok_or; [exact Hk2|exact Hr|]. intros refs' t [Hkt Hrefs']. exact (conj (kept_trans _ _ _ _ Hk2 Hkt) Hrefs'). }
  cbv beta. intros refs' s3 (Hk3 & h' & r & -> & Hrefs'). eapply wp_bind_run; [reflexivity|]. destruct Hk3 as [Hs3 [H1 H2 H3 H4]].
  apply wp_assert; [by rewrite H3, Hpost|]. eapply wp_opt; [reflexivity|]. eapply wp_bind_run; [reflexivity|]. apply wp_ret.
  destruct Hrefs' as [_ (m & _ & _ & [Hkr HT] & Em)]. cbn in Em. subst m.
  split; [destruct Hs3; by split|]. split_and!; try done. exists r. split; [done|]. split; [done|]. by exists h'.
Qed.
End root.
