(* ===== verification/TrunkLookup.v ===== *)
(** * Trunk: lookups and the branches of a range

    The point queries of trunk.c: the search of a node for the child of a key, the lookup
    of a bundle through its filter, the merging lookup down the trunk; and the collection
    of the branches for a range query.  The nodes are those at the time of the query,
    which nobody writes again; the branches are behind [branch_source]. *)
From S2P Require Import Prelude Allocator DataInternal BtreeNode RoutingFilter RoutingAdd Trunk.

Inductive comparison := less_than | less_than_or_equal | greater_than | greater_than_or_equal.
#[export] Instance comparison_eq_dec : EqDecision comparison.
Proof. solve_decision. Defined.

(** What a lookup needs of the branches, in their world [W]: the lookup of a key in the
    branch at an address, which merges what it finds with what newer branches had. *)
Class branch_source (W : Type) := branch_lookup_and_merge : Z → page_type → key → option message → M W (platform_status * option message * bool).

Definition trunk_ondisk_bundle_branch_type (b : bundle) : page_type :=
  if routing_filters_equal (maplet b) NULL_ROUTING_FILTER && (bundle_num_branches b =? 1) then PAGE_TYPE_BRANCH else PAGE_TYPE_BRANCH.
Definition merge_accumulator_is_definitive (data : option message) : bool := match data with Some m => message_is_definitive m | None => false end.

Section search.
Context (cfg : trunk_config) {W : Type}.
(** The page of the node with the pivot of a number. *)
Context (pivot_page : Z → Z).
(** The search; [page] is the page of pivots that is held. *)
Fixpoint find_pivot_loop (fuel : nat) (od : trunk_ondisk_node) (tgt : key) (min max last_cmp : Z) (min_pivot : option trunk_ondisk_pivot) (page : option Z) :
    M W (Z * Z * option trunk_ondisk_pivot * option Z) :=
  if negb (min + 1 <? max) then mret (min, last_cmp, min_pivot, page) else
  match fuel with
  | O => mfuel
  | S fuel =>
      let mid := (min + max) / 2 in
      mid_pivot ← mopt (lookupZ (od_pivots od) mid);
      let page := Some (pivot_page mid) in
      let cmp := data_key_compare (tc_data_cfg cfg) tgt (od_key mid_pivot) in
      if cmp <? 0 then find_pivot_loop fuel od tgt min mid last_cmp min_pivot page
      else find_pivot_loop fuel od tgt mid max cmp (Some mid_pivot) page
  end.
(** The pivot, and the page that is held. [last_cmp] is read only when it was set. *)
Definition trunk_ondisk_node_find_pivot (od : trunk_ondisk_node) (tgt : key) (cmp : comparison) : M W (trunk_ondisk_pivot * option Z) :=
  '(min, last_cmp, min_pivot, page) ← find_pivot_loop (length (od_pivots od)) od tgt 0 (lengthZ (od_pivots od) - 1) 0 None None;
  '(min, min_pivot, page) ←
    (if (0 <? min) && (last_cmp =? 0) && bool_decide (cmp = less_than) then
       p ← mopt (lookupZ (od_pivots od) (min - 1)); mret (min - 1, Some p, Some (pivot_page (min - 1)))
     else mret (min, min_pivot, page) : M W (Z * option trunk_ondisk_pivot * option Z));
  match min_pivot with
  | Some p => mret (p, page)
  | None => p ← mopt (lookupZ (od_pivots od) min); mret (p, Some (pivot_page min))
  end.
End search.

(** ** Lookups *)
Section lookup.
Context (cfg : trunk_config) (filter_cfg : routing_config) {W : Type} `{branch_source W}.
(** The nodes, and the pages of the filters. *)
Context (N : gmap Z trunk_ondisk_node) (filter_pages : gmap Z (list Z)).

Fixpoint bundle_lookup_loop (fuel : nat) (b : bundle) (tgt : key) (found_values idx : Z) (result : option message) : M W (platform_status * option message) :=
  if idx =? ROUTING_NOT_FOUND then mret (STATUS_OK, result) else
  match fuel with
  | O => mfuel
  | S fuel =>
      addr ← mopt (lookupZ (branches b) idx);
      '(rc, result, _) ← branch_lookup_and_merge addr (trunk_ondisk_bundle_branch_type b) tgt result;
      if negb (SUCCESS rc) then mret (rc, result)
      else if merge_accumulator_is_definitive result then mret (STATUS_OK, result)
      else
        idx ← mopt (routing_filter_get_next_value found_values idx);
        bundle_lookup_loop fuel b tgt found_values idx result
  end.
(** Without a log.  [found_values] has 64 bits. *)
Definition trunk_ondisk_bundle_merge_lookup (b : bundle) (tgt : key) (result : option message) : M W (platform_status * option message) :=
  '(rc, found_values) ←
    (if routing_filters_equal (maplet b) NULL_ROUTING_FILTER then
       massert (bundle_num_branches b <=? 1);;
       mret (STATUS_OK, if bundle_num_branches b =? 1 then 1 else 0)
     else mlift (routing_filter_lookup filter_cfg filter_pages (maplet b) (key_data tgt)) : M W (platform_status * Z));
  if negb (SUCCESS rc) then mret (rc, result) else
  idx ← mopt (routing_filter_get_next_value found_values ROUTING_NOT_FOUND);
  bundle_lookup_loop 64 b tgt found_values idx result.
(** The live inflight bundles, from newest to oldest; whether the result is final. *)
Fixpoint inflight_lookup_loop (n : nat) (bundles : list bundle) (tgt : key) (result : option message) : M W (platform_status * option message * bool) :=
  match n with
  | O => mret (STATUS_OK, result, false)
  | S n =>
      b ← mopt (head bundles);
      '(rc, result) ← trunk_ondisk_bundle_merge_lookup b tgt result;
      if negb (SUCCESS rc) then mret (rc, result, true)
      else if merge_accumulator_is_definitive result then mret (rc, result, true)
      else inflight_lookup_loop n (tail bundles) tgt result
  end.
Fixpoint trunk_merge_lookup (fuel : nat) (handle : option Z) (tgt : key) (result : option message) : M W (platform_status * option message) :=
  match handle with
  | None => mret (STATUS_OK, result)
  | Some addr =>
      match fuel with
      | O => mfuel
      | S fuel =>
          od ← mopt (N !! addr);
          '(pivot, _) ← trunk_ondisk_node_find_pivot cfg (λ _, 0) od tgt less_than_or_equal;
          '(rc, result, final) ← inflight_lookup_loop (Z.to_nat (num_live_inflight_bundles pivot)) (od_inflight_bundles od) tgt result;
          if final : bool then mret (rc, result) else
          b ← mopt (od_bundle pivot);
          '(rc, result) ← trunk_ondisk_bundle_merge_lookup b tgt result;
          if negb (SUCCESS rc) then mret (rc, result)
          else if merge_accumulator_is_definitive result then mret (rc, result)
          else trunk_merge_lookup fuel (if trunk_ondisk_pivot_child_addr pivot =? 0 then None else Some (trunk_ondisk_pivot_child_addr pivot)) tgt result
      end
  end.
End lookup.

(** ** The branches of a range *)
(** What the query has collected: the branches (their number counts with [cs_count], which
    the error path changes on its own) and the references on branches. *)
Record collect_state := mk_collect_state {
  cs_branches : list (Z * page_type);
  cs_count : Z;
  cs_refs : Z → Z;
}.
Inductive collect_status := COLLECTED | LIMIT_EXCEEDED.
Definition inc_ref (addr : Z) (refs : Z → Z) : Z → Z := λ a, refs a + Z.b2z (a =? addr).
Definition dec_ref (addr : Z) (refs : Z → Z) : Z → Z := λ a, refs a - Z.b2z (a =? addr).

Section collect.
Context (cfg : trunk_config) (N : gmap Z trunk_ondisk_node) (capacity : Z).
(** From the last branch of the bundle, whose number is [i - 1], to the first. *)
Fixpoint trunk_collect_bundle_branches (b : bundle) (i : nat) : M collect_state collect_status :=
  match i with
  | O => mret COLLECTED
  | S i =>
      s ← mget;
      if cs_count s =? capacity then
        mput (mk_collect_state (cs_branches s) (u64 (cs_count s - Z.of_nat i)) (cs_refs s));;
        mret LIMIT_EXCEEDED
      else
        addr ← mopt (branches b !! i);
        mput (mk_collect_state (cs_branches s ++ [(addr, trunk_ondisk_bundle_branch_type b)]) (u64 (cs_count s + 1)) (cs_refs s));;
        trunk_collect_bundle_branches b i
  end.
Definition trunk_ondisk_bundle_inc_all_branch_refs (b : bundle) : M collect_state unit :=
  mmod (λ s, mk_collect_state (cs_branches s) (cs_count s) (foldl (λ refs a, inc_ref a refs) (cs_refs s) (branches b))).
Definition collect_bundle (b : bundle) : M collect_state collect_status :=
  rc ← trunk_collect_bundle_branches b (length (branches b));
  match rc with
  | COLLECTED => trunk_ondisk_bundle_inc_all_branch_refs b;; mret COLLECTED
  | LIMIT_EXCEEDED => mret LIMIT_EXCEEDED
  end.
Fixpoint collect_bundles (bundles : list bundle) : M collect_state collect_status :=
  match bundles with
  | [] => mret COLLECTED
  | b :: bundles => rc ← collect_bundle b; match rc with COLLECTED => collect_bundles bundles | LIMIT_EXCEEDED => mret LIMIT_EXCEEDED end
  end.
(** [btree_dec_ref] of the branches numbered from [first]: an entry that was not written
    is read out of the array, or as it was before. *)
Fixpoint dec_branches (n : nat) (first : Z) : M collect_state unit :=
  match n with
  | O => mret tt
  | S n =>
      s ← mget;
      br ← mopt (lookupZ (cs_branches s) first);
      mput (mk_collect_state (cs_branches s) (cs_count s) (dec_ref br.1 (cs_refs s)));;
      dec_branches n (first + 1)
  end.
Definition find_type (start_type : comparison) : comparison := if bool_decide (start_type = less_than) then less_than else less_than_or_equal.
(** The walk to the leaf: the status, and the range of the leaf. *)
Fixpoint collect_loop (fuel : nat) (handle : option Z) (tgt : key) (start_type : comparison) : M collect_state (collect_status * key * key) :=
  match handle with
  | None => mret (COLLECTED, NEGATIVE_INFINITY_KEY, POSITIVE_INFINITY_KEY)
  | Some addr =>
      match fuel with
      | O => mfuel
      | S fuel =>
          od ← mopt (N !! addr);
          '(pivot, _) ← trunk_ondisk_node_find_pivot cfg (λ _, 0) od tgt (find_type start_type);
          let n := Z.to_nat (num_live_inflight_bundles pivot) in
          if Z.of_nat (length (od_inflight_bundles od)) <? Z.of_nat n then mopt None else
          rc ← collect_bundles (take n (od_inflight_bundles od));
          match rc with
          | LIMIT_EXCEEDED => mret (LIMIT_EXCEEDED, NEGATIVE_INFINITY_KEY, POSITIVE_INFINITY_KEY)
          | COLLECTED =>
              b ← mopt (od_bundle pivot);
              rc ← collect_bundle b;
              match rc with
              | LIMIT_EXCEEDED => mret (LIMIT_EXCEEDED, NEGATIVE_INFINITY_KEY, POSITIVE_INFINITY_KEY)
              | COLLECTED =>
                  if negb (trunk_ondisk_pivot_child_addr pivot =? 0) then collect_loop fuel (Some (trunk_ondisk_pivot_child_addr pivot)) tgt start_type
                  else
                    massert (lengthZ (od_pivots od) =? 2);;
                    p0 ← mopt (od_pivots od !! 0%nat);
                    p1 ← mopt (od_pivots od !! 1%nat);
                    mret (COLLECTED, od_key p0, od_key p1)
              end
          end
      end
  end.
Definition trunk_collect_branches (fuel : nat) (handle : option Z) (tgt : key) (start_type : comparison) : M collect_state (collect_status * key * key) :=
  s ← mget;
  let original_num_branches := cs_count s in
  r ← collect_loop fuel handle tgt start_type;
  match r.1.1 with
  | COLLECTED => mret r
  | LIMIT_EXCEEDED =>
      s ← mget;
      dec_branches (Z.to_nat (cs_count s - original_num_branches)) original_num_branches;;
      mmod (λ s, mk_collect_state (take (Z.to_nat original_num_branches) (cs_branches s)) original_num_branches (cs_refs s));;
      mret r
  end.
End collect.
