(* ===== verification/TrunkLookupRun.v ===== *)
(** * Trunk: what a lookup merges

    The binary search of a node returns the pivot whose range has the key, and a lookup
    merges the messages of its key in the branches on its path, from the newest on,
    whatever filters rule out and wherever it stops early. *)
From S2P Require Import Prelude Allocator DataInternal BtreeNode RoutingFilter RoutingAdd RoutingRun Trunk TrunkInv TrunkNode TrunkSplit TrunkLookup.

(** ** The search of a node *)
Section find.
Context (cfg : trunk_config) {BI : bundle_inv} `{!key_order (tc_data_cfg cfg)}.
Local Abbreviation compare := (data_key_compare (tc_data_cfg cfg)).

(** A key is in the range of a pivot, for either kind of comparison. *)
Definition found_in (cmp : comparison) (a b tgt : key) : Prop :=
  if bool_decide (cmp = less_than) then key_lt cfg a tgt ∧ key_le cfg tgt b else key_le cfg a tgt ∧ key_lt cfg tgt b.

Section node.
Context (P : key → key → trunk_ondisk_pivot → Prop) (od : trunk_ondisk_node) (body : list trunk_ondisk_pivot) (last : trunk_ondisk_pivot) (lo hi : key).
Context (Hlo : key_small lo) (Hpiv : od_pivots od = body ++ [last]) (Hlast : od_key last = hi) (Hne : body ≠ []).
Context (HP : ∀ a b p, P a b p → od_key p = a) (Hcov : covers cfg P lo hi body).

(** The range of the pivot number [i] is from its key to that of the next. *)
Lemma pivot_range i p : body !! i = Some p → ∃ q, od_pivots od !! S i = Some q ∧ P (od_key p) (od_key q) p ∧ key_small (od_key p) ∧ key_small (od_key q) ∧
  key_lt cfg (od_key p) (od_key q) ∧ key_le cfg lo (od_key p) ∧ key_le cfg (od_key q) hi.
Proof using key_order0 Hlo Hpiv Hlast Hne HP Hcov.
  intros Hi. destruct (list_elem_of_split_length _ _ _ Hi) as (l1 & l2 & E & ->). clear Hi. rewrite E in Hcov, Hpiv.
  apply covers_app in Hcov as (a & H1 & (b & Hb & Hab & Hp & H2)). destruct (covers_le cfg _ lo a l1 Hlo H1) as [Ha Hla]. destruct (covers_le cfg _ b hi l2 Hb H2) as [Hhi Hbh].
  assert (key_le cfg lo a) as Hle by (destruct Hla as [->|?]; [cbn in H1; subst; by apply key_le_refl|by apply key_lt_le]).
  assert (key_le cfg b hi) as Hle' by (destruct Hbh as [->|?]; [cbn in H2; subst; by apply key_le_refl|by apply key_lt_le]).
  pose proof (HP _ _ _ Hp) as Ek.
  assert (∃ q, od_pivots od !! S (length l1) = Some q ∧ od_key q = b) as (q & Hq & Ekq).
  { rewrite Hpiv, <- app_assoc, lookup_app_r by lia. replace (S (length l1) - length l1)%nat with 1%nat by lia. cbn.
    destruct l2 as [|y l2]; [cbn in H2; exists last; by split; [|rewrite H2]|]. destruct H2 as (? & _ & _ & Hy & _). exists y. split; [done|]. by apply (HP _ _ _ Hy). }
  exists q. rewrite Ek, Ekq. by split_and!.
Qed.
Lemma body_lookup i : 0 ≤ i < lengthZ (od_pivots od) - 1 → ∃ p, lookupZ (od_pivots od) i = Some p ∧ body !! Z.to_nat i = Some p.
Proof using Hpiv.
  intros Hi. rewrite Hpiv, lengthZ_snoc in Hi. unfold lengthZ in Hi. destruct (lookup_lt_is_Some_2 body (Z.to_nat i) ltac:(lia)) as [p Hp]. exists p. split; [|done].
  unfold lookupZ. rewrite bool_decide_true by lia. rewrite Hpiv. by apply lookup_app_l_Some.
Qed.

Context {W : Type} (pivot_page : Z → Z) (cmp : comparison) (tgt : key) (Htgt : key_small tgt) (Hin : found_in cmp lo hi tgt).
(** What the loop keeps. *)
Definition loop_inv (min max last_cmp : Z) (min_pivot : option trunk_ondisk_pivot) : Prop :=
  0 ≤ min < max ∧ max ≤ lengthZ (od_pivots od) - 1 ∧
  (0 < min → min_pivot = lookupZ (od_pivots od) min ∧ 0 ≤ last_cmp ∧ ∃ p, lookupZ (od_pivots od) min = Some p ∧ last_cmp = compare tgt (od_key p)) ∧
  (min = 0 → min_pivot = None) ∧
  (max < lengthZ (od_pivots od) - 1 → ∃ p, lookupZ (od_pivots od) max = Some p ∧ compare tgt (od_key p) < 0).
Lemma find_pivot_loop_run fuel min max last_cmp min_pivot page (w : W) : loop_inv min max last_cmp min_pivot → max - min ≤ Z.of_nat fuel →
  ∃ min' last_cmp' min_pivot' page', find_pivot_loop cfg pivot_page fuel od tgt min max last_cmp min_pivot page w = Ret ((min', last_cmp', min_pivot', page'), w) ∧
    loop_inv min' (min' + 1) last_cmp' min_pivot'.
Proof using Hpiv.
  revert min max last_cmp min_pivot page. induction fuel as [|fuel IH]; intros min max lc mp page Hinv Hfuel; [destruct Hinv; lia|].
  cbn [find_pivot_loop]. destruct (Z.ltb_spec (min + 1) max) as [Hlt|Hge]; cbn [negb].
  2: { exists min, lc, mp, page. split; [done|]. by replace (min + 1) with max by (destruct Hinv; lia). }
  destruct Hinv as (H1 & H2 & H3 & H4 & H5).
  assert (min < (min + max) / 2 < max) as Hmid by (split; [apply Z.lt_le_trans with (min + 1); [lia|]; apply Z.div_le_lower_bound; lia|apply Z.div_lt_upper_bound; lia]).
  set (mid := (min + max) / 2) in *. destruct (body_lookup mid ltac:(lia)) as (p & Hp & _). rewrite (run_opt _ _ _ _ Hp).
  destruct (Z.ltb_spec (compare tgt (od_key p)) 0) as [Hc|Hc]; apply IH; try lia.
  - split_and!; try lia; try done. intros _. by exists p.
  - split_and!; try lia; try done. intros _. rewrite Hp. split; [done|]. split; [done|]. by exists p.
Qed.
Lemma compare_refl_eq a b : key_small a → key_small b → compare a b = 0 → key_le cfg a b ∧ key_le cfg b a.
Proof using key_order0. intros Ha Hb E. unfold key_le. pose proof (dkc_sym (tc_data_cfg cfg) a b Ha Hb). lia. Qed.
(** The upper end of the range of the pivot where the loop ends. *)
Lemma loop_end_above min lc mp q : 0 ≤ min → loop_inv min (min + 1) lc mp → od_pivots od !! S (Z.to_nat min) = Some q →
  if bool_decide (cmp = less_than) then key_le cfg tgt (od_key q) else key_lt cfg tgt (od_key q).
Proof using Hpiv Hlast Hin.
  clear pivot_page. intros H0 (H1 & H2 & _ & _ & H5) Hq. destruct (decide (min + 1 < lengthZ (od_pivots od) - 1)) as [Hlt|Hge].
  - destruct (H5 Hlt) as (q' & Hq' & Hc). assert (q' = q) as -> by (unfold lookupZ in Hq'; rewrite bool_decide_true in Hq' by lia; replace (Z.to_nat (min + 1)) with (S (Z.to_nat min)) in Hq' by lia; congruence).
    destruct (bool_decide _); unfold key_le, key_lt; lia.
  - assert (q = last) as -> by (rewrite Hpiv in Hq, H2, Hge; rewrite lengthZ_snoc in H2, Hge; unfold lengthZ in *; replace (S (Z.to_nat min)) with (length body) in Hq by lia; rewrite list_lookup_middle in Hq by done; congruence).
    rewrite Hlast. unfold found_in in Hin. destruct (bool_decide _); tauto.
Qed.
(** The search returns the pivot whose range has the key. *)
Lemma node_find_run (w : W) : ∃ p q i page, trunk_ondisk_node_find_pivot cfg pivot_page od tgt cmp w = Ret ((p, page), w) ∧
  body !! i = Some p ∧ od_pivots od !! S i = Some q ∧ found_in cmp (od_key p) (od_key q) tgt.
Proof using key_order0 Hlo Hpiv Hlast Hne HP Hcov Htgt Hin.
  assert (0 < lengthZ body) as Hlen by (unfold lengthZ; destruct body; [done|cbn; lia]).
  assert (lengthZ (od_pivots od) = lengthZ body + 1) as Hn by by rewrite Hpiv, lengthZ_snoc.
  destruct (find_pivot_loop_run (length (od_pivots od)) 0 (lengthZ (od_pivots od) - 1) 0 None None w) as (min & lc & mp & page & Hrun & H1 & H2 & H3 & H4 & H5).
  { split_and!; try lia; try done. }
  { unfold lengthZ. lia. }
  unfold trunk_ondisk_node_find_pivot. rewrite (bind_run _ _ _ _ _ Hrun). cbv beta iota.
  destruct (body_lookup min ltac:(lia)) as (p & Hp & Hbp). destruct (pivot_range _ _ Hbp) as (q & Hq & HPp & Hpk & Hqk & Hpq & Hlop & Hqhi).
  pose proof (loop_end_above min lc mp q ltac:(lia) (conj H1 (conj H2 (conj H3 (conj H4 H5)))) Hq) as Hup.
  assert (min = 0 → p = p ∧ od_key p = lo) as Hmin0.
  { intros ->. split; [done|]. cbn in Hbp. destruct body as [|p0 body']; [done|]. injection Hbp as ->. destruct Hcov as (? & _ & _ & Hp0 & _). by apply (HP _ _ _ Hp0). }
  destruct ((0 <? min) && (lc =? 0) && bool_decide (cmp = less_than)) eqn:Eb.
  - apply andb_true_iff in Eb as [Eb Ec]. apply andb_true_iff in Eb as [Em El]. apply Z.ltb_lt in Em. apply Z.eqb_eq in El. apply bool_decide_eq_true in Ec.
    destruct (H3 Em) as (_ & _ & p' & Hp' & Hlc). assert (p' = p) as -> by congruence.
    destruct (body_lookup (min - 1) ltac:(lia)) as (r & Hr & Hbr).
    exists r, p, (Z.to_nat (min - 1)), (Some (pivot_page (min - 1))).
    assert (((p0 ← mopt (lookupZ (od_pivots od) (min - 1)); mret (min - 1, Some p0, Some (pivot_page (min - 1)))) : M W (Z * option trunk_ondisk_pivot * option Z)) w = Ret ((min - 1, Some r, Some (pivot_page (min - 1))), w)) as Hrr by by rewrite (run_opt _ _ _ _ Hr).
    rewrite (bind_run _ _ _ _ _ Hrr). split; [done|]. split; [done|].
    destruct (pivot_range _ _ Hbr) as (p2 & Hp2 & _ & Hrk & _ & Hrp & _).
    assert (p2 = p) as -> by (unfold lookupZ in Hp; rewrite bool_decide_true in Hp by lia; replace (S (Z.to_nat (min - 1))) with (Z.to_nat min) in Hp2 by lia; congruence).
    split; [done|]. unfold found_in. rewrite bool_decide_true by done. destruct (compare_refl_eq tgt (od_key p) Htgt Hpk ltac:(lia)) as [Hle1 Hle2]. split; [|done].
    apply (dkc_lt_le (tc_data_cfg cfg) (od_key r) (od_key p) tgt); done.
  - rewrite (bind_run _ _ w (min, mp, page) w eq_refl). cbv beta iota.
    assert (found_in cmp (od_key p) (od_key q) tgt) as Hf.
    { unfold found_in in *. destruct (decide (min = 0)) as [E0|Hn0].
      - destruct (Hmin0 E0) as [_ Ek]. rewrite Ek in *. destruct (bool_decide _); tauto.
      - destruct (H3 ltac:(lia)) as (_ & Hlc0 & p' & Hp' & Hlc). assert (p' = p) as -> by congruence.
        pose proof (dkc_sym (tc_data_cfg cfg) tgt (od_key p) Htgt Hpk) as Hsym. unfold key_le, key_lt in *.
        rewrite (proj2 (Z.ltb_lt 0 min)) in Eb by lia. destruct (bool_decide (cmp = less_than)); [|split; [lia|done]].
        split; [|done]. assert (lc ≠ 0) by (intros ->; done). lia. }
    destruct (decide (min = 0)) as [->|Hn0].
    + rewrite (H4 eq_refl), (run_opt _ _ _ _ Hp). by exists p, q, (Z.to_nat 0), (Some (pivot_page 0)).
    + destruct (H3 ltac:(lia)) as (-> & _). rewrite Hp. by exists p, q, (Z.to_nat min), page.
Qed.
End node.

(** The search of a node of a tree. *)
Record found_pivot (N : gmap Z trunk_ondisk_node) (h : nat) (lo hi : key) (B : key → list Z) (cmp : comparison) (tgt : key) (od : trunk_ondisk_node) (p q : trunk_ondisk_pivot) (b : bundle) : Prop := {
  fp_in : found_in cmp (od_key p) (od_key q) tgt;
  fp_small : key_small (od_key p) ∧ key_small (od_key q);
  fp_lo : key_le cfg lo (od_key p);
  fp_hi : key_le cfg (od_key q) hi;
  fp_live : 0 ≤ num_live_inflight_bundles p ≤ lengthZ (od_inflight_bundles od);
  fp_bundle : od_bundle p = Some b;
  fp_bundle_ok : bundle_ok b;
  fp_inflight : Forall inflight_ok (od_inflight_bundles od);
  fp_child : child_ok cfg N h (od_key p) (od_key q) (trunk_ondisk_pivot_child_addr p)
    (newest (b :: reverse (take (Z.to_nat (num_live_inflight_bundles p)) (od_inflight_bundles od)))) B;
  fp_leaf : h = 0%nat → od_pivots od = [p; q];
}.
Lemma tree_find {W} N h lo hi addr B cmp tgt (w : W) pivot_page : key_small lo → key_small tgt → found_in cmp lo hi tgt → tree cfg N h lo hi addr B →
  ∃ od p q b page, N !! addr = Some od ∧ trunk_ondisk_node_find_pivot cfg pivot_page od tgt cmp w = Ret ((p, page), w) ∧ found_pivot N h lo hi B cmp tgt od p q b.
Proof using key_order0.
  intros Hlo Htgt Hin HT.
  assert (∃ od, N !! addr = Some od ∧ od_node_ok cfg (child_ok cfg N h) h lo hi od B) as (od & Hod & Hok) by (destruct h; destruct HT as (_ & _ & HT); exact HT).
  destruct Hok as (Hht & Hfl & body & last & Hp & Hne & H0 & Hk & Hnb & Hs & Hcov).
  assert (∀ a b p, od_pivot_ok (child_ok cfg N h) od B a b p → od_key p = a) as HP by by intros a b p [? _].
  destruct (node_find_run (od_pivot_ok (child_ok cfg N h) od B) od body last lo hi Hlo Hp Hk Hne HP Hcov pivot_page cmp tgt Htgt Hin w) as (p & q & i & page & Hrun & Hi & Hq & Hf).
  destruct (pivot_range (od_pivot_ok (child_ok cfg N h) od B) od body last lo hi Hlo Hp Hk Hne HP Hcov i p Hi) as (q' & Hq' & Hpok & Hps & Hqs & _ & Hlop & Hqhi).
  assert (q' = q) as -> by congruence. destruct Hpok as (_ & _ & Hlive & b & Hb & Hbok & HC).
  exists od, p, q, b, page. split; [done|]. split; [done|]. split; try done.
  - intros E. specialize (H0 E). destruct body as [|p0 [|]]; try done. destruct i; [|done]. injection Hi as ->. rewrite Hp in Hq |- *. by injection Hq as ->.
Qed.
End find.

(** ** The reference *)
(** The message of an older branch under what is known from newer ones. *)
Definition merge_one (cfg : data_config) (k : list Z) (new found : option message) : platform_status * option message :=
  match found, new with
  | None, _ => (STATUS_OK, new)
  | Some m, None => (STATUS_OK, Some m)
  | Some m, Some new => let r := data_merge_tuples cfg (USER_KEY k) m new in (if r.1 =? 0 then STATUS_OK else STATUS_NO_MEMORY, Some r.2)
  end.
(** The branches from the newest on; [T] is what each maps the key to. *)
Fixpoint merge_branches (cfg : data_config) (T : Z → option message) (k : list Z) (brs : list Z) (result : option message) : platform_status * option message :=
  match brs with
  | [] => (STATUS_OK, result)
  | b :: brs => let r := merge_one cfg k result (T b) in if SUCCESS r.1 then merge_branches cfg T k brs r.2 else r
  end.
(** What the code relies on of the lookups in branches: each merges what its branch maps
    the key to, and leaves the world [I]. *)
Class branch_source_laws (W : Type) `{!branch_source W} (cfg : data_config) (I : W → Prop) (T : Z → list Z → option message) (valid : Z → Prop) : Prop :=
  branch_lookup_law w addr type k data : I w → valid addr → key_small (USER_KEY k) → ∃ w' found,
    branch_lookup_and_merge addr type (USER_KEY k) data w = Ret ((merge_one cfg k data (T addr k), found), w') ∧ I w'.

Section merge.
Context (cfg : data_config) (T : Z → option message) (k : list Z).
Local Abbreviation merge := (merge_branches cfg T k).
Lemma merge_app l1 l2 result : merge (l1 ++ l2) result = let r := merge l1 result in if SUCCESS r.1 then merge l2 r.2 else r.
Proof using.
  revert result. induction l1 as [|b l1 IH]; intros result; [done|]. cbn. destruct (SUCCESS (merge_one cfg k result (T b)).1) eqn:E; [apply IH|]. by rewrite E.
Qed.
Lemma merge_none l result : Forall (λ b, T b = None) l → merge l result = (STATUS_OK, result).
Proof using. induction 1 as [|b l Hb _ IH]; [done|]. cbn. rewrite Hb. cbn. apply IH. Qed.
(** Older branches do not change a definitive message. *)
Lemma merge_definitive l result : merge_accumulator_is_definitive result = true → merge l result = (STATUS_OK, result).
Proof using.
  intros Hd. induction l as [|b l IH]; [done|]. cbn. destruct result as [m|]; [|done]. cbn in Hd. unfold merge_one.
  destruct (T b); [|done]. unfold data_merge_tuples. rewrite Hd. cbn. apply IH.
Qed.
End merge.

Section lookup.
Context (cfg : trunk_config) {BI : bundle_inv} `{!key_order (tc_data_cfg cfg)} (filter_cfg : routing_config) {W : Type} `{!branch_source W}.
Context (N : gmap Z trunk_ondisk_node) (filter_pages : gmap Z (list Z)).
Context (I : W → Prop) (T : Z → list Z → option message) (valid : Z → Prop) `{!branch_source_laws W (tc_data_cfg cfg) I T valid}.
Context (k : list Z) (Hk : key_small (USER_KEY k)).
Local Abbreviation merge := (merge_branches (tc_data_cfg cfg) (λ b, T b k) k).

(** The filter of a bundle has no false negatives for the key, and no value is of no
    branch; the values are those for which a lookup is defined. *)
Definition maplet_ok (b : bundle) : Prop :=
  Forall valid (branches b) ∧
  if rf_addr (maplet b) =? 0 then (length (branches b) ≤ 1)%nat
  else lengthZ (branches b) ≤ 31 ∧ ∃ found, routing_filter_lookup filter_cfg filter_pages (maplet b) k = Ret (STATUS_OK, found) ∧ 0 ≤ found < 2 ^ lengthZ (branches b) ∧
    ∀ i a, lookupZ (branches b) i = Some a → T a k ≠ None → Z.testbit found i = true.

Lemma merge_one_law w b type result : I w → valid b → ∃ w' f,
  branch_lookup_and_merge b type (USER_KEY k) result w = Ret ((merge_one (tc_data_cfg cfg) k result (T b k), f), w') ∧ I w'.
Proof using All. intros Hw Hb. by apply branch_lookup_law. Qed.

Lemma next_below found u : 0 ≤ found → 0 ≤ u < 31 → routing_filter_get_next_value found u = Some (if found `mod` 2 ^ u =? 0 then ROUTING_NOT_FOUND else Z.log2 (found `mod` 2 ^ u)).
Proof using.
  intros Hf Hu. unfold routing_filter_get_next_value. rewrite (proj2 (Z.eqb_neq u ROUTING_NOT_FOUND)) by (unfold ROUTING_NOT_FOUND, UINT16_MAX; lia).
  cbn [negb]. rewrite (proj2 (Z.ltb_lt u 31)) by lia. cbn [mbind option_bind]. replace (2 ^ u - 1) with (Z.ones u) by (rewrite Z.ones_equiv; lia). by rewrite Z.land_ones by lia.
Qed.
(** The loop over the values below [u]. *)
Lemma bundle_lookup_loop_run b found : Forall valid (branches b) → lengthZ (branches b) ≤ 31 → 0 ≤ found → 
  (∀ i a, lookupZ (branches b) i = Some a → T a k ≠ None → Z.testbit found i = true) →
  ∀ fuel u result w, I w → (u ≤ length (branches b))%nat → (u ≤ fuel)%nat →
  ∃ w', bundle_lookup_loop fuel b (USER_KEY k) found (if found `mod` 2 ^ Z.of_nat u =? 0 then ROUTING_NOT_FOUND else Z.log2 (found `mod` 2 ^ Z.of_nat u)) result w =
    Ret (merge (reverse (take u (branches b))) result, w') ∧ I w'.
Proof using All.
  intros Hval Hlen Hf Hbits. induction fuel as [|fuel IH]; intros u result w Hw Hu Hfuel.
  { assert (u = 0%nat) as -> by lia. exists w. cbn. rewrite Z.mod_1_r. done. }
  cbn [bundle_lookup_loop]. destruct (Z.eqb_spec (found `mod` 2 ^ Z.of_nat u) 0) as [E|E].
  - exists w. split; [|done]. rewrite Z.eqb_refl, merge_none; [done|]. rewrite Forall_reverse. apply list.Forall_forall. intros a Ha.
    apply list_elem_of_lookup in Ha as [i Hi]. apply lookup_take_Some in Hi as [Hi Hlt].
    destruct (T a k) eqn:ET; [|done]. exfalso.
    assert (Z.testbit found (Z.of_nat i) = true) as Hb by (apply (Hbits _ a); [unfold lookupZ; by rewrite bool_decide_true, Nat2Z.id by lia|by rewrite ET]).
    rewrite <- (Z.mod_pow2_bits_low found (Z.of_nat u)), E, Z.bits_0 in Hb by lia. done.
  - set (r := found `mod` 2 ^ Z.of_nat u) in *. pose proof (Z.mod_pos_bound found (2 ^ Z.of_nat u) ltac:(lia)) as Hr. fold r in Hr.
    assert (0 ≤ Z.log2 r < Z.of_nat u) as Hlog by (split; [apply Z.log2_nonneg|apply Z.log2_lt_pow2; lia]). set (idx := Z.log2 r) in *.
    rewrite (proj2 (Z.eqb_neq idx _)) by (unfold ROUTING_NOT_FOUND, UINT16_MAX, lengthZ in *; lia).
    destruct (lookup_lt_is_Some_2 (branches b) (Z.to_nat idx) ltac:(lia)) as [a Ha].
    rewrite (run_opt _ _ _ a) by (unfold lookupZ; by rewrite bool_decide_true by lia).
    assert (take u (branches b) = take (Z.to_nat idx) (branches b) ++ a :: drop (S (Z.to_nat idx)) (take u (branches b))) as Etake.
    { replace (take (Z.to_nat idx) (branches b)) with (take (Z.to_nat idx) (take u (branches b))) by (rewrite take_take; f_equal; lia). symmetry. apply take_drop_middle. by rewrite lookup_take_lt by lia. }
    assert (merge (reverse (take u (branches b))) result = merge (a :: reverse (take (Z.to_nat idx) (branches b))) result) as ->.
    { rewrite Etake at 1. rewrite reverse_app, reverse_cons, <- app_assoc, merge_app, merge_none; [done|]. rewrite Forall_reverse. apply list.Forall_forall. intros c Hc.
      apply list_elem_of_lookup in Hc as [i Hi]. rewrite lookup_drop in Hi. apply lookup_take_Some in Hi as [Hi Hlt]. destruct (T c k) eqn:ET; [|done]. exfalso.
      assert (Z.testbit found (Z.of_nat (S (Z.to_nat idx) + i)) = true) as Hb by (apply (Hbits _ c); [unfold lookupZ; by rewrite bool_decide_true, Nat2Z.id by lia|by rewrite ET]).
      rewrite <- (Z.mod_pow2_bits_low found (Z.of_nat u)) in Hb by lia. fold r in Hb. rewrite Z.bits_above_log2 in Hb; [done|lia|]. fold idx. lia. }
    destruct (merge_one_law w a (trunk_ondisk_bundle_branch_type b) result Hw) as (w1 & f & Hrun & Hw1).
    { by apply (proj1 (list.Forall_forall _ _) Hval), (list_elem_of_lookup_2 _ _ _ Ha). }
    rewrite (bind_run _ _ _ _ _ Hrun). cbn [merge_branches]. destruct (merge_one (tc_data_cfg cfg) k result (T a k)) as [rc res]. cbn [fst snd].
    destruct (SUCCESS rc) eqn:Erc; cbn [negb]; [|by exists w1]. apply bool_decide_eq_true in Erc as ->.
    destruct (merge_accumulator_is_definitive res) eqn:Ed; [exists w1; by rewrite merge_definitive|].
    rewrite (run_opt _ _ _ _ (next_below found idx Hf ltac:(unfold lengthZ in *; lia))).
    pose proof (IH (Z.to_nat idx) res w1 Hw1 ltac:(lia) ltac:(lia)) as HIH. rewrite Z2Nat.id in HIH by lia. exact HIH.
Qed.
Lemma bundle_lookup_run b result w : I w → maplet_ok b →
  ∃ w', trunk_ondisk_bundle_merge_lookup filter_cfg filter_pages b (USER_KEY k) result w = Ret (merge (reverse (branches b)) result, w') ∧ I w'.
Proof using All.
  intros Hw [Hval Hb]. unfold trunk_ondisk_bundle_merge_lookup, routing_filters_equal. change (rf_addr NULL_ROUTING_FILTER) with 0.
  assert (∃ found, (if rf_addr (maplet b) =? 0 then massert (bundle_num_branches b <=? 1);; mret (STATUS_OK, if bundle_num_branches b =? 1 then 1 else 0)
      else mlift (routing_filter_lookup filter_cfg filter_pages (maplet b) (key_data (USER_KEY k)))) w = Ret ((STATUS_OK, found), w) ∧ 0 ≤ found < 2 ^ lengthZ (branches b) ∧
      lengthZ (branches b) ≤ 31 ∧ ∀ i a, lookupZ (branches b) i = Some a → T a k ≠ None → Z.testbit found i = true) as (found & Hrun & Hf & Hlen & Hbits).
  { destruct (rf_addr (maplet b) =? 0).
    - unfold bundle_num_branches, lengthZ. destruct (branches b) as [|a [|]]; cbn in Hb; [exists 0|exists 1|lia]; (split; [done|]); (split; [cbn; lia|]); (split; [cbn; lia|]).
      + intros i a Hi. unfold lookupZ in Hi. by destruct (bool_decide _).
      + intros i c Hi _. apply lookupZ_Some in Hi. unfold lengthZ in Hi. cbn in Hi. by replace i with 0 by lia.
    - destruct Hb as (Hlen & found & Hrun & Hf & Hbits). exists found. split; [|done]. cbn [key_data]. unfold mlift. by rewrite Hrun. }
  rewrite (bind_run _ _ _ _ _ Hrun). cbv beta iota. change (SUCCESS STATUS_OK) with true. cbn [negb].
  set (u := length (branches b)).
  assert (found `mod` 2 ^ Z.of_nat u = found) as Emod by by apply Z.mod_small.
  rewrite (run_opt _ _ _ (if found `mod` 2 ^ Z.of_nat u =? 0 then ROUTING_NOT_FOUND else Z.log2 (found `mod` 2 ^ Z.of_nat u)))
    by (rewrite Emod; unfold routing_filter_get_next_value; by rewrite Z.eqb_refl).
  destruct (bundle_lookup_loop_run b found Hval Hlen ltac:(lia) Hbits 64 u result w Hw) as (w' & Hrun' & Hw'); [done|unfold u, lengthZ in *; lia|].
  exists w'. rewrite Hrun'. unfold u. by rewrite take_ge.
Qed.

(** ** The inflight bundles *)
(** Whether the search of a node may stop. *)
Definition is_final (r : platform_status * option message) : bool := negb (SUCCESS r.1) || merge_accumulator_is_definitive r.2.
Lemma final_merge r l : is_final r = true → (if SUCCESS r.1 then merge l r.2 else r) = r.
Proof using.
  destruct r as [rc res]. unfold is_final. cbn [fst snd]. destruct (SUCCESS rc) eqn:E; [|done]. cbn. intros Hd. rewrite merge_definitive by done.
  by apply bool_decide_eq_true in E as ->.
Qed.
Lemma inflight_lookup_run n bundles result w : I w → (n ≤ length bundles)%nat → Forall maplet_ok bundles →
  ∃ w' fin, inflight_lookup_loop filter_cfg filter_pages n bundles (USER_KEY k) result w = Ret ((merge (newest (reverse (take n bundles))) result, fin), w') ∧ I w' ∧
    (fin = true → is_final (merge (newest (reverse (take n bundles))) result) = true) ∧
    (fin = false → (merge (newest (reverse (take n bundles))) result).1 = STATUS_OK).
Proof using All.
  revert bundles result w. induction n as [|n IH]; intros bundles result w Hw Hn HF; [by exists w, false|].
  destruct bundles as [|b bundles]; [cbn in Hn; lia|]. apply list.Forall_cons in HF as [Hb HF].
  cbn [inflight_lookup_loop head tail]. rewrite (run_opt _ _ _ b) by done.
  destruct (bundle_lookup_run b result w Hw Hb) as (w1 & Hrun & Hw1). rewrite (bind_run _ _ _ _ _ Hrun). cbn [take].
  rewrite newest_reverse_cons, merge_app. set (r := merge (reverse (branches b)) result) in *. destruct r as [rc res] eqn:Er. cbv beta iota. cbn [fst snd].
  destruct (SUCCESS rc) eqn:Erc; cbn [negb].
  - apply bool_decide_eq_true in Erc as ->. destruct (merge_accumulator_is_definitive res) eqn:Ed.
    + exists w1, true. rewrite merge_definitive by done. split_and!; try done; intros _; unfold is_final; cbn; by rewrite Ed.
    + destruct (IH bundles res w1 Hw1 ltac:(cbn in Hn; lia) HF) as (w2 & fin & Hrun2 & Hw2 & Hfin). by exists w2, fin.
  - exists w1, true. split_and!; try done. intros _. unfold is_final. cbn. by rewrite Erc.
Qed.

(** ** The walk down *)
Context (Hmap : ∀ b, bundle_ok b → maplet_ok b).
(** The lookups of one node: they end the walk, or go on with [K]. *)
Lemma node_lookup_run od p b (K : option message → M W (platform_status * option message)) result w : I w → Forall maplet_ok (od_inflight_bundles od) → maplet_ok b →
  od_bundle p = Some b → 0 ≤ num_live_inflight_bundles p ≤ lengthZ (od_inflight_bundles od) →
  let r := merge (newest (b :: reverse (take (Z.to_nat (num_live_inflight_bundles p)) (od_inflight_bundles od)))) result in
  ∃ w1, I w1 ∧ ('(rc, result, final) ← inflight_lookup_loop filter_cfg filter_pages (Z.to_nat (num_live_inflight_bundles p)) (od_inflight_bundles od) (USER_KEY k) result;
    if final : bool then mret (rc, result) else
    b ← mopt (od_bundle p);
    '(rc, result) ← trunk_ondisk_bundle_merge_lookup filter_cfg filter_pages b (USER_KEY k) result;
    if negb (SUCCESS rc) then mret (rc, result)
    else if merge_accumulator_is_definitive result then mret (rc, result) else K result) w = (if is_final r then Ret (r, w1) else K r.2 w1).
Proof using All.
  intros Hw Hinfl Hmb Hb Hlive. rewrite newest_cons, merge_app.
  destruct (inflight_lookup_run (Z.to_nat (num_live_inflight_bundles p)) (od_inflight_bundles od) result w Hw ltac:(unfold lengthZ in *; lia) Hinfl) as (w1 & fin & Hrun1 & Hw1 & Hfin1 & Hfin0).
  rewrite (bind_run _ _ _ _ _ Hrun1). clear Hrun1. set (r1 := merge _ result) in *. destruct fin.
  - exists w1. split; [done|]. cbv zeta. rewrite (final_merge r1 _ (Hfin1 eq_refl)), (Hfin1 eq_refl). by destruct r1.
  - specialize (Hfin0 eq_refl). destruct r1 as [rc res]. cbn in Hfin0. subst rc. cbv beta iota. rewrite (run_opt _ _ _ _ Hb).
    destruct (bundle_lookup_run b res w1 Hw1 Hmb) as (w2 & Hrun2 & Hw2). rewrite (bind_run _ _ _ _ _ Hrun2). change (SUCCESS STATUS_OK) with true. cbv zeta iota. cbn [fst snd].
    exists w2. split; [done|]. destruct (merge (reverse (branches b)) res) as [rc res']. unfold is_final. cbn [fst snd].
    change (SUCCESS STATUS_OK) with true. cbv iota. cbn [fst snd]. destruct (SUCCESS rc); [|done]. cbn [negb orb]. by destruct (merge_accumulator_is_definitive res').
Qed.
Lemma trunk_merge_lookup_run h : ∀ lo hi addr B result w fuel, key_small lo → in_range cfg lo hi (USER_KEY k) → tree cfg N h lo hi addr B → I w → (h < fuel)%nat →
  ∃ w', trunk_merge_lookup cfg filter_cfg N filter_pages fuel (Some addr) (USER_KEY k) result w = Ret (merge (B (USER_KEY k)) result, w') ∧ I w'.
Proof using All.
  induction h as [|h IH]; intros lo hi addr B result w fuel Hlo (_ & Hin) HT Hw Hfuel; (destruct fuel as [|fuel]; [lia|]); cbn [trunk_merge_lookup].
  all: destruct (tree_find cfg N _ lo hi addr B less_than_or_equal (USER_KEY k) w (λ _, 0) Hlo Hk Hin HT) as (od & p & q & b & page & Hod & Hrun & [Hf [Hps Hqs] _ _ Hlive Hb Hbok Hall HC _]).
  all: rewrite (run_opt _ _ _ _ Hod), (bind_run _ _ _ _ _ Hrun); cbv beta iota; clear Hrun.
  all: assert (Forall maplet_ok (od_inflight_bundles od)) as Hinfl by (eapply list.Forall_impl; [exact Hall|intros c [Hc _]; by apply Hmap]).
  all: assert (in_range cfg (od_key p) (od_key q) (USER_KEY k)) as Hpr by (split; [done|exact Hf]).
  all: edestruct (node_lookup_run od p b) as (w1 & Hw1 & Hrun1); try done; [by apply Hmap|]; rewrite Hrun1; clear Hrun1.
  - destruct HC as [-> HB]. rewrite (HB _ Hpr). set (r := merge _ result). exists w1. destruct (is_final r) eqn:Ef; [done|]. split; [|done].
    clearbody r. destruct r as [rc res]. unfold is_final in Ef. apply orb_false_iff in Ef as [Ef _]. apply negb_false_iff, bool_decide_eq_true in Ef. cbn in Ef. subst rc. by destruct fuel.
  - destruct HC as (B' & HT' & HB). rewrite (HB _ Hpr), merge_app. set (r := merge _ result). cbv zeta.
    assert (trunk_ondisk_pivot_child_addr p ≠ 0) as Hne by (destruct h; by destruct HT'). rewrite (proj2 (Z.eqb_neq _ _) Hne).
    destruct (is_final r) eqn:Ef; [exists w1; by rewrite final_merge|]. unfold is_final in Ef. apply orb_false_iff in Ef as [Ef _]. apply negb_false_iff in Ef. rewrite Ef.
    apply (IH (od_key p) (od_key q)); try done. lia.
Qed.
End lookup.
