(* ===== verification/TrunkCollect.v ===== *)
(** * Trunk: what a range query collects

    With room for them, the branches on the path to a leaf, newest first, each with a
    reference; they are the branches of every key of the range that is returned. *)
From S2P Require Import Prelude Allocator DataInternal BtreeNode RoutingFilter Trunk TrunkInv TrunkNode TrunkSplit TrunkLookup TrunkLookupRun.

(** [l] has been collected between [s] and [s']. *)
Record collected (s : collect_state) (l : list Z) (s' : collect_state) : Prop := {
  co_branches : cs_branches s' = cs_branches s ++ ((λ a, (a, PAGE_TYPE_BRANCH)) <$> l);
  co_count : cs_count s' = cs_count s + lengthZ l;
  co_refs a : cs_refs s' a = cs_refs s a + Z.of_nat (count_occ Z.eq_dec l a);
}.
Lemma collected_nil s : collected s [] s.
Proof. split; [by rewrite app_nil_r|cbn; unfold lengthZ; cbn; lia|intros a; cbn; lia]. Qed.
Lemma collected_app s1 l1 s2 l2 s3 : collected s1 l1 s2 → collected s2 l2 s3 → collected s1 (l1 ++ l2) s3.
Proof.
  intros [A1 A2 A3] [B1 B2 B3]. split.
  - by rewrite B1, A1, fmap_app, app_assoc.
  - rewrite B2, A2. unfold lengthZ. rewrite length_app. lia.
  - intros a. rewrite B3, A3, count_occ_app. lia.
Qed.

Section collect.
Context (cfg : trunk_config) {BI : bundle_inv} `{!key_order (tc_data_cfg cfg)} (N : gmap Z trunk_ondisk_node) (capacity : Z) (Hcap : capacity < 2 ^ 64).
Lemma branch_type b : trunk_ondisk_bundle_branch_type b = PAGE_TYPE_BRANCH.
Proof using. unfold trunk_ondisk_bundle_branch_type. by destruct (_ && _). Qed.
Lemma collect_bundle_branches_run b i s : (i ≤ length (branches b))%nat → 0 ≤ cs_count s → cs_count s + Z.of_nat i ≤ capacity →
  trunk_collect_bundle_branches capacity b i s =
    Ret (COLLECTED, mk_collect_state (cs_branches s ++ ((λ a, (a, PAGE_TYPE_BRANCH)) <$> reverse (take i (branches b)))) (cs_count s + Z.of_nat i) (cs_refs s)).
Proof using Hcap.
  revert s. induction i as [|i IH]; intros s Hi H0 Hc; cbn [trunk_collect_bundle_branches].
  - cbn. rewrite app_nil_r, Z.add_0_r. by destruct s.
  - rewrite run_get, (proj2 (Z.eqb_neq _ _)) by lia. destruct (lookup_lt_is_Some_2 (branches b) i ltac:(lia)) as [a Ha].
    rewrite (run_opt _ _ _ _ Ha), run_put, branch_type, (u64_small (cs_count s + 1)), IH by (cbn; lia). cbn [cs_branches cs_count cs_refs].
    rewrite (take_S_r _ _ _ Ha), reverse_snoc. cbn [fmap list_fmap]. rewrite <- app_assoc. do 3 f_equal. lia.
Qed.
Lemma fold_inc l refs a : foldl (λ refs a, inc_ref a refs) refs l a = refs a + Z.of_nat (count_occ Z.eq_dec l a).
Proof using.
  revert refs. induction l as [|b l IH]; intros refs; [cbn; lia|]. cbn [foldl count_occ]. rewrite IH. unfold inc_ref.
  destruct (Z.eq_dec b a) as [->|Hne]; [rewrite Z.eqb_refl; cbn; lia|]. rewrite (proj2 (Z.eqb_neq a b)) by done. cbn. lia.
Qed.
Lemma collect_bundle_run b s : 0 ≤ cs_count s → cs_count s + lengthZ (branches b) ≤ capacity →
  ∃ s', collect_bundle capacity b s = Ret (COLLECTED, s') ∧ collected s (reverse (branches b)) s'.
Proof using Hcap.
  intros H0 Hc. unfold collect_bundle. rewrite (bind_run _ _ _ _ _ (collect_bundle_branches_run b (length (branches b)) s ltac:(lia) H0 Hc)), take_ge by lia.
  unfold trunk_ondisk_bundle_inc_all_branch_refs. rewrite run_mod. eexists. split; [reflexivity|]. split; cbn [cs_branches cs_count cs_refs]; [done| |].
  - unfold lengthZ. by rewrite length_reverse.
  - intros a. rewrite fold_inc. do 2 f_equal. symmetry. apply (proj1 (Permutation_count_occ Z.eq_dec _ _)), reverse_Permutation.
Qed.
Lemma collect_bundles_run bs s : 0 ≤ cs_count s → cs_count s + lengthZ (newest (reverse bs)) ≤ capacity →
  ∃ s', collect_bundles capacity bs s = Ret (COLLECTED, s') ∧ collected s (newest (reverse bs)) s'.
Proof using Hcap.
  revert s. induction bs as [|b bs IH]; intros s H0 Hc; [exists s; split; [done|apply collected_nil]|].
  rewrite newest_reverse_cons in Hc |- *. unfold lengthZ in Hc. rewrite length_app, length_reverse in Hc.
  cbn [collect_bundles]. destruct (collect_bundle_run b s H0 ltac:(unfold lengthZ; lia)) as (s1 & Hrun & Hco). rewrite (bind_run _ _ _ _ _ Hrun).
  pose proof (co_count _ _ _ Hco) as Hcnt. unfold lengthZ in Hcnt. rewrite length_reverse in Hcnt.
  destruct (IH s1 ltac:(lia) ltac:(unfold lengthZ; lia)) as (s2 & Hrun2 & Hco2). exists s2. split; [done|]. by eapply collected_app.
Qed.

Lemma found_in_lt cmp a b tgt : key_small a → key_small b → key_small tgt → found_in cfg cmp a b tgt → key_lt cfg a b.
Proof using key_order0.
  intros Ha Hb Ht. unfold found_in. destruct (bool_decide _); intros [H1 H2]; [by apply (dkc_lt_le (tc_data_cfg cfg) a tgt b)|by apply (dkc_le_lt (tc_data_cfg cfg) a tgt b)].
Qed.
(** What the walk has done: [l] are the branches of every key from [a] to [b]. *)
Definition collected_range (lo hi : key) (B : key → list Z) (cmp : comparison) (tgt : key) (s : collect_state) (a b : key) (s' : collect_state) : Prop :=
  key_small a ∧ key_small b ∧ key_le cfg lo a ∧ key_le cfg b hi ∧ found_in cfg cmp a b tgt ∧ ∃ l, collected s l s' ∧ ∀ k, in_range cfg a b k → B k = l.
(** The branches of one node. *)
Lemma collect_node_run od n b (K : M collect_state (collect_status * key * key)) s : 0 ≤ cs_count s →
  cs_count s + lengthZ (newest (b :: reverse (take n (od_inflight_bundles od)))) ≤ capacity →
  ∃ s', collected s (newest (b :: reverse (take n (od_inflight_bundles od)))) s' ∧
    (rc ← collect_bundles capacity (take n (od_inflight_bundles od));
     match rc with
     | LIMIT_EXCEEDED => mret (LIMIT_EXCEEDED, NEGATIVE_INFINITY_KEY, POSITIVE_INFINITY_KEY)
     | COLLECTED =>
         b ← mopt (Some b);
         rc ← collect_bundle capacity b;
         match rc with LIMIT_EXCEEDED => mret (LIMIT_EXCEEDED, NEGATIVE_INFINITY_KEY, POSITIVE_INFINITY_KEY) | COLLECTED => K end
     end) s = K s'.
Proof using Hcap.
  intros H0 Hc. rewrite newest_cons in Hc |- *. unfold lengthZ in Hc. rewrite length_app, length_reverse in Hc.
  destruct (collect_bundles_run (take n (od_inflight_bundles od)) s H0 ltac:(unfold lengthZ; lia)) as (s1 & Hrun1 & Hco1).
  pose proof (co_count _ _ _ Hco1) as Hcnt. unfold lengthZ in Hcnt.
  destruct (collect_bundle_run b s1 ltac:(lia) ltac:(unfold lengthZ; lia)) as (s2 & Hrun2 & Hco2).
  exists s2. split; [by eapply collected_app|]. by rewrite (bind_run _ _ _ _ _ Hrun1), (run_opt _ _ _ b), (bind_run _ _ _ _ _ Hrun2).
Qed.
Lemma collect_loop_run start_type tgt h : ∀ lo hi addr B s fuel, key_small lo → key_small hi → key_small tgt → found_in cfg (find_type start_type) lo hi tgt →
  tree cfg N h lo hi addr B → 0 ≤ cs_count s → (∀ k, in_range cfg lo hi k → cs_count s + lengthZ (B k) ≤ capacity) → (h < fuel)%nat →
  ∃ a b s', collect_loop cfg N capacity fuel (Some addr) tgt start_type s = Ret ((COLLECTED, a, b), s') ∧ collected_range lo hi B (find_type start_type) tgt s a b s'.
Proof using Hcap key_order0.
  induction h as [|h IH]; intros lo hi addr B s fuel Hlo Hhi Ht Hin HT H0 HB Hfuel; (destruct fuel as [|fuel]; [lia|]); cbn [collect_loop].
  all: destruct (tree_find cfg N _ lo hi addr B _ tgt s (λ _, 0) Hlo Ht Hin HT) as (od & p & q & b & page & Hod & Hrun & [Hf [Hps Hqs] Hlop Hqhi Hlive Hb _ _ HC Hleaf]).
  all: rewrite (run_opt _ _ _ _ Hod), (bind_run _ _ _ _ _ Hrun); cbv beta iota; clear Hrun.
  all: set (n := Z.to_nat (num_live_inflight_bundles p)) in *.
  all: rewrite (proj2 (Z.ltb_ge (Z.of_nat (length (od_inflight_bundles od))) (Z.of_nat n))) by (unfold n, lengthZ in *; lia).
  all: assert (in_range cfg (od_key p) (od_key q) (od_key p)) as Hpr by (split; [done|split; [by apply key_le_refl|exact (found_in_lt _ _ _ tgt Hps Hqs Ht Hf)]]).
  all: assert (in_range cfg lo hi (od_key p)) as Hpr' by exact (in_range_sub cfg lo _ _ hi _ Hlo Hps Hqs Hhi Hlop Hqhi Hpr).
  all: pose proof (HB _ Hpr') as Hcp; rewrite Hb; set (own := newest (b :: reverse (take n (od_inflight_bundles od)))) in *.
  - destruct HC as [Hc HBo]. rewrite (HBo _ Hpr) in Hcp. rewrite Hc, Z.eqb_refl. cbn [negb].
    edestruct (collect_node_run od n b) as (s1 & Hco & Hrun); [exact H0|exact Hcp|]. rewrite Hrun.
    rewrite (Hleaf eq_refl). rewrite run_assert, (run_opt _ _ _ p), (run_opt _ _ _ q) by done.
    exists (od_key p), (od_key q), s1. split; [done|]. split_and!; try done. exists own. by split.
  - destruct HC as (B' & HT' & HBo). rewrite (HBo _ Hpr) in Hcp. assert (trunk_ondisk_pivot_child_addr p ≠ 0) as Hne by (destruct h; by destruct HT').
    rewrite (proj2 (Z.eqb_neq _ _) Hne). cbn [negb]. unfold lengthZ in Hcp. rewrite length_app in Hcp.
    edestruct (collect_node_run od n b) as (s1 & Hco & Hrun); [exact H0|fold own; unfold lengthZ; lia|]. rewrite Hrun. clear Hrun. fold own in Hco.
    pose proof (co_count _ _ _ Hco) as Hcnt. unfold lengthZ in Hcnt.
    destruct (IH (od_key p) (od_key q) _ B' s1 fuel Hps Hqs Ht Hf HT') as (a & c & s2 & Hrun & (Ha & Hc & Hpa & Hcq & Hfin & l & Hco2 & Hl)); [lia| |lia|].
    { intros k Hkr. pose proof (HB k (in_range_sub cfg lo _ _ hi _ Hlo Hps Hqs Hhi Hlop Hqhi Hkr)) as Hk. rewrite (HBo _ Hkr) in Hk. unfold lengthZ in *. rewrite length_app in Hk. lia. }
    exists a, c, s2. split; [done|]. split_and!; try done; [by apply (key_le_trans cfg lo (od_key p) a)|by apply (key_le_trans cfg c (od_key q) hi)|].
    exists (own ++ l). split; [by eapply collected_app|]. intros k Hkr.
    rewrite (HBo k (in_range_sub cfg _ _ _ _ _ Hps Ha Hc Hqs Hpa Hcq Hkr)). by rewrite (Hl k Hkr).
Qed.
End collect.
