(* ===== verification/TrunkApply.v ===== *)
(** * Trunk: applying a compaction

    When the bundles that a pivot received have been merged into branches and its filter
    has got their fingerprints, maplet_compaction_task has the trunk rewritten:
    trunk_apply_changes of trunk.c reads the nodes whose ranges meet that of the pivot,
    puts the branches in the place of the bundles, and writes the paths anew.  First the
    definitions; then that every key of the range has the branches in that place, that all
    others have what they had, and that no assertion fails. *)
From S2P Require Import Prelude DataInternal BtreeNode RoutingFilter Trunk TrunkInv TrunkNode TrunkSplit TrunkFlush.

(** What maplet_compaction_task knows: of the state of the pivot its range, the filter of
    its bundle and, from oldest to newest, the branches that each compaction merges; how
    many bundles are replaced, the new filter, the branches, and what was saved. *)
Record maplet_compaction_apply_args := mk_apply_args {
  aa_key : key;
  aa_ubkey : key;
  aa_maplet : routing_filter;
  aa_bundle_compactions : list (list Z);
  num_input_bundles : Z;
  new_maplet : routing_filter;
  new_branches : list Z;
  delta : trunk_pivot_stats;
}.
Definition bundle_add_branches (b : bundle) (m : routing_filter) (l : list Z) : bundle := mk_bundle m (branches b ++ l).
(** [trunk_pivot_add_tuple_counts] with [coefficient] -1. *)
Definition trunk_pivot_take_tuple_counts (p : trunk_pivot) (st : trunk_pivot_stats) : M trunk_state trunk_pivot :=
  massert (num_tuples st <=? num_tuples (stats p));;
  massert (num_kv_bytes st <=? num_kv_bytes (stats p));;
  let st' := mk_trunk_pivot_stats (num_kv_bytes (stats p) - num_kv_bytes st) (num_tuples (stats p) - num_tuples st) in
  massert (trunk_pivot_stats_are_nonnegative st');;
  mret (mk_trunk_pivot (prereceive_stats p) st' (child_addr p) (inflight_bundle_start p) (ci_le_ei p) (pivot_key p)).
Definition trunk_pivot_set_child_addr (p : trunk_pivot) (addr : Z) : trunk_pivot :=
  mk_trunk_pivot (prereceive_stats p) (stats p) addr (inflight_bundle_start p) (ci_le_ei p) (pivot_key p).
(** The node with a pivot and its bundle changed. *)
Definition with_pivot (n : trunk_node) (i : nat) (x : trunk_pivot * bundle) : trunk_node :=
  mk_trunk_node (height n) (<[i := x.1]> (pivots n)) (<[i := x.2]> (pivot_bundles n)) (num_old_bundles n) (inflight_bundles n).

Section changes.
Context (cfg : trunk_config).
Local Abbreviation compare := (data_key_compare (tc_data_cfg cfg)).
(** A change of the nodes at [target_height], with what it has found so far. *)
Context (minkey maxkey : key) (target_height : Z) (func : trunk_node → bool → M trunk_state (trunk_node * bool)).
(** The children from number [i] on. *)
Fixpoint apply_children (internal : Z → bool → E (trunk_ondisk_node_ref * bool)) (count i : nat) (node : trunk_node) (found : bool) : E (trunk_node * bool) :=
  match count with
  | O => eret (node, found)
  | S count =>
      child_pivot ← mopt (pivots node !! i);
      next ← mopt (pivots node !! S i);
      if (compare (pivot_key child_pivot) maxkey <? 0) && (compare minkey (pivot_key next) <? 0) then
        r ← internal (trunk_pivot_child_addr child_pivot) found;
        match r with
        | inl _ => mret (inl STATUS_NO_MEMORY)
        | inr (new_child_ref, found) =>
            b ← mopt (pivot_bundles node !! i);
            apply_children internal count (S i) (with_pivot node i (trunk_pivot_set_child_addr child_pivot (ref_addr new_child_ref), b)) found
        end
      else apply_children internal count (S i) node found
  end.
Fixpoint trunk_apply_changes_internal (fuel : nat) (addr : Z) (found : bool) : E (trunk_ondisk_node_ref * bool) :=
  match fuel with
  | O => mfuel
  | S fuel =>
      node ← trunk_node_deserialize cfg addr;
      r ←? (if height node =? target_height then r ← func node found; eret r
            else apply_children (trunk_apply_changes_internal fuel) (Z.to_nat (trunk_node_num_children node)) 0 node found);
      result ←? trunk_node_serialize cfg r.1;
      eret (result.2, r.2)
  end.
Definition trunk_set_root (new_root_ref : trunk_ondisk_node_ref) : M trunk_state unit :=
  mmod (λ s, with_roots (Some new_root_ref) (ts_post_incorporation_root s) (ts_pre_incorporation_root s) s).
(** Whether a pivot was found. *)
Definition trunk_apply_changes (fuel : nat) : E bool :=
  s ← mget;
  root ← mopt (ts_root s);
  r ← trunk_apply_changes_internal fuel (ref_addr root) false;
  match r with
  | inl _ => mret (inl STATUS_NO_MEMORY)
  | inr (new_root_ref, found) => trunk_set_root new_root_ref;; eret found
  end.
End changes.

Section compaction.
Context (cfg : trunk_config) (args : maplet_compaction_apply_args).
Local Abbreviation compare := (data_key_compare (tc_data_cfg cfg)).
Definition pivot_matches_compaction (target : trunk_node) (i : nat) : M trunk_state bool :=
  pvt ← mopt (pivots target !! i);
  pivot_bndl ← mopt (pivot_bundles target !! i);
  massert (0 <? num_input_bundles args);;
  massert (bool_decide (aa_bundle_compactions args ≠ []));;
  input_branches ← mopt (head (aa_bundle_compactions args));
  massert (0 <? lengthZ input_branches);;
  oldest_input_branch ← mopt (head input_branches);
  let ifs := inflight_bundle_start pvt in
  if lengthZ (inflight_bundles target) <? ifs + num_input_bundles args then mret false else
  ifbndl ← mopt (inflight_bundles target !! Z.to_nat ifs);
  oldest_pivot_inflight_branch ← mopt (branches ifbndl !! 0%nat);
  next ← mopt (pivots target !! S i);
  mret ((compare (aa_key args) (pivot_key pvt) =? 0) && (compare (aa_ubkey args) (pivot_key next) =? 0) &&
        routing_filters_equal (maplet pivot_bndl) (aa_maplet args) && (oldest_pivot_inflight_branch =? oldest_input_branch)).
Definition apply_to_pivot (target : trunk_node) (i : nat) : M trunk_state trunk_node :=
  bndl ← mopt (pivot_bundles target !! i);
  pvt ← mopt (pivots target !! i);
  let pvt := trunk_pivot_set_inflight_bundle_start pvt (inflight_bundle_start pvt + num_input_bundles args) in
  pvt ← trunk_pivot_take_tuple_counts pvt (delta args);
  let cnt := trunk_pivot_cc_load pvt in
  let pvt := if cnt <? TRUNK_PIVOT_CC_SATURATION_THRESHOLD then trunk_pivot_cc_set pvt (cnt + 1) else pvt in
  mret (with_pivot target i (pvt, bundle_add_branches bndl (new_maplet args) (new_branches args))).
Fixpoint apply_loop (count i : nat) (target : trunk_node) (found : bool) : M trunk_state (trunk_node * bool) :=
  match count with
  | O => mret (target, found)
  | S count =>
      massert (well_formed cfg target);;
      m ← pivot_matches_compaction target i;
      if m : bool then target ← apply_to_pivot target i; mret (target, true)
      else apply_loop count (S i) target found
  end.
Definition trunk_apply_changes_maplet_compaction (target : trunk_node) (found : bool) : M trunk_state (trunk_node * bool) :=
  r ← apply_loop (Z.to_nat (trunk_node_num_children target)) 0 target found;
  massert (well_formed cfg r.1);;
  mret r.
End compaction.

(** ** What it should do *)
Lemma insert_middle {A} (l1 l2 : list A) x y : <[length l1 := y]> (l1 ++ x :: l2) = l1 ++ y :: l2.
Proof. rewrite <- (Nat.add_0_r (length l1)), insert_app_r. done. Qed.

Section spec.
Context (cfg : trunk_config) {BI : bundle_inv} `{!key_order (tc_data_cfg cfg)} (args : maplet_compaction_apply_args).
Local Abbreviation compare := (data_key_compare (tc_data_cfg cfg)).
(** The bundles that are replaced: as many as the compactions merged, the oldest of them
    the one whose oldest branch is the first that was merged. *)
Definition inputs_ok (inputs : list bundle) : Prop :=
  lengthZ inputs = num_input_bundles args ∧
  ∃ b a, head inputs = Some b ∧ head (branches b) = Some a ∧ (l ← head (aa_bundle_compactions args); head l) = Some a.
Definition replaced (inputs : list bundle) (l l' : list Z) : Prop :=
  ∃ pre post, l = pre ++ newest inputs ++ post ∧ l' = pre ++ reverse (new_branches args) ++ post.
Definition inside (k : key) : bool := (compare (aa_key args) k <=? 0) && (compare k (aa_ubkey args) <? 0).
(** The branches on the paths of the keys of a range before and after. *)
Definition changed (lo hi : key) (found found' : bool) (B B' : key → list Z) : Prop :=
  (found' = found ∧ ∀ k, in_range cfg lo hi k → B' k = B k) ∨
  (found' = true ∧ key_le cfg lo (aa_key args) ∧ key_le cfg (aa_ubkey args) hi ∧
   ∃ inputs, inputs_ok inputs ∧ ∀ k, in_range cfg lo hi k → if inside k then replaced inputs (B k) (B' k) else B' k = B k).
(** The range is one, and there are compactions. *)
Record args_ok : Prop := {
  ao_key : key_small (aa_key args);
  ao_ubkey : key_small (aa_ubkey args);
  ao_range : key_lt cfg (aa_key args) (aa_ubkey args);
  ao_num : 0 < num_input_bundles args;
  ao_input : ∃ a l ls, aa_bundle_compactions args = (a :: l) :: ls;
}.
(** What holds of each pivot that matches in a stored node, and of its bundle. *)
Definition node_matches (n : trunk_node) (s : trunk_state) (P : trunk_pivot → bundle → Prop) : Prop := ∀ i pvt b, pivots n !! i = Some pvt → pivot_bundles n !! i = Some b →
  pivot_matches_compaction cfg args n i s = Ret (true, s) → P pvt b.
Definition matches (N : gmap Z trunk_ondisk_node) (P : trunk_pivot → bundle → Prop) : Prop := ∀ s addr n s',
  is_Some (N !! addr) → ts_nodes s !! addr = N !! addr → trunk_node_deserialize cfg addr s = Ret (n, s') → node_matches n s' P.
(** The pivot counts no less than the compaction takes off, and no bytes without tuples
    are left. *)
Definition takes (st : trunk_pivot_stats) : Prop :=
  num_tuples (delta args) ≤ num_tuples st ∧ num_kv_bytes (delta args) ≤ num_kv_bytes st ∧
  (num_tuples st = num_tuples (delta args) → num_kv_bytes st = num_kv_bytes (delta args)).
Definition counts_suffice (N : gmap Z trunk_ondisk_node) : Prop := matches N (λ pvt _, takes (stats pvt)).
(** The new filter is one for the branches of the bundle and the new ones. *)
Definition filter_suffices (N : gmap Z trunk_ondisk_node) : Prop := matches N (λ _ b, bundle_ok (mk_bundle (new_maplet args) (branches b ++ new_branches args))).
Definition fits_pivot (pvt : trunk_pivot) (b : bundle) : Prop := takes (stats pvt) ∧ bundle_ok (mk_bundle (new_maplet args) (branches b ++ new_branches args)).
Definition fits_node (n : trunk_node) (s : trunk_state) : Prop := node_matches n s fits_pivot.
Definition fits (N : gmap Z trunk_ondisk_node) : Prop := matches N fits_pivot.
Lemma both_fit N : counts_suffice N → filter_suffices N → fits N.
Proof using. intros H1 H2 s addr n s' E1 E2 Hd i pvt b Hp Hb Hm. split; [by eapply H1|by eapply H2]. Qed.
Context (Hargs : args_ok).

(** *** Changes of neighbouring ranges *)
Lemma inside_spec k : inside k = true ↔ key_le cfg (aa_key args) k ∧ key_lt cfg k (aa_ubkey args).
Proof using. unfold inside. rewrite andb_true_iff. unfold key_le, key_lt. lia. Qed.
Lemma inside_below k a : key_small k → key_small a → key_lt cfg k a → key_le cfg a (aa_key args) → inside k = false.
Proof using key_order0 Hargs.
  intros Hk Ha Hka Hle. apply not_true_iff_false. intros [H1 _]%inside_spec.
  pose proof (key_le_trans cfg a _ k Ha (ao_key Hargs) Hk Hle H1) as Hak. pose proof (dkc_sym (tc_data_cfg cfg) a k Ha Hk). unfold key_le, key_lt in *. lia.
Qed.
Lemma inside_above k a : key_small k → key_small a → key_le cfg a k → key_le cfg (aa_ubkey args) a → inside k = false.
Proof using key_order0 Hargs.
  intros Hk Ha Hak Hle. apply not_true_iff_false. intros [_ H2]%inside_spec.
  pose proof (key_le_trans cfg _ a k (ao_ubkey Hargs) Ha Hk Hle Hak) as H3. pose proof (dkc_sym (tc_data_cfg cfg) (aa_ubkey args) k (ao_ubkey Hargs) Hk). unfold key_le, key_lt in *. lia.
Qed.
Lemma range_cases lo a m k : key_small lo → key_small a → key_small m → in_range cfg lo m k → in_range cfg lo a k ∨ in_range cfg a m k.
Proof using key_order0.
  intros Hlo Ha Hm (Hk & H1 & H2). pose proof (dkc_sym (tc_data_cfg cfg) a k Ha Hk).
  destruct (Z.ltb_spec (compare k a) 0); [left|right]; unfold in_range, key_le, key_lt in *; (split; [done|lia]).
Qed.
Lemma changed_app lo a m f f1 f2 B B1 B2 B' : key_small lo → key_small a → key_small m → key_le cfg lo a → key_lt cfg a m →
  changed lo a f f1 B B1 → changed a m f1 f2 B B2 →
  (∀ k, in_range cfg lo a k → B' k = B1 k) → (∀ k, in_range cfg a m k → B' k = B2 k) → changed lo m f f2 B B'.
Proof using key_order0 Hargs.
  intros Hlo Ha Hm Hla Ham H1 H2 HB1 HB2. pose proof (ao_key Hargs) as Hk. pose proof (ao_ubkey Hargs) as Hu.
  destruct H1 as [[-> H1]|(-> & Hlk & Hua & inputs & Hin & H1)], H2 as [[-> H2]|(-> & Hak & Hum & inputs' & Hin' & H2)].
  - left. split; [done|]. intros k Hkr. destruct (range_cases lo a m k) as [Hr|Hr]; try done; [by rewrite HB1, H1|by rewrite HB2, H2].
  - right. split; [done|]. split; [by apply (key_le_trans cfg lo a)|]. split; [done|]. exists inputs'. split; [done|]. intros k Hkr.
    destruct (range_cases lo a m k) as [Hr|Hr]; try done; [|rewrite HB2 by done; by apply H2].
    rewrite (inside_below k a), HB1 by (done || apply Hr). by apply H1.
  - right. split; [done|]. split; [done|]. split; [by apply (key_le_trans cfg _ a); [..|apply key_lt_le]|]. exists inputs. split; [done|]. intros k Hkr.
    destruct (range_cases lo a m k) as [Hr|Hr]; try done; [rewrite HB1 by done; by apply H1|].
    rewrite (inside_above k a), HB2 by (done || apply Hr). by apply H2.
  - exfalso. pose proof (key_le_trans cfg _ a _ Hu Ha Hk Hua Hak) as Huk. pose proof (ao_range Hargs) as Hr.
    pose proof (dkc_sym (tc_data_cfg cfg) _ _ Hk Hu). unfold key_le, key_lt in *. lia.
Qed.
Lemma changed_refl lo hi f B B' : (∀ k, in_range cfg lo hi k → B' k = B k) → changed lo hi f f B B'.
Proof using. intros H. by left. Qed.
Lemma changed_own lo hi f f' own B B' C C' : changed lo hi f f' B B' → (∀ k, in_range cfg lo hi k → C k = own ++ B k) →
  (∀ k, in_range cfg lo hi k → C' k = own ++ B' k) → changed lo hi f f' C C'.
Proof using.
  intros [[-> H]|(-> & H1 & H2 & inputs & Hin & H)] HC HC'.
  - left. split; [done|]. intros k Hk. by rewrite HC, HC', H.
  - right. split; [done|]. split; [done|]. split; [done|]. exists inputs. split; [done|]. intros k Hk. rewrite HC, HC' by done.
    specialize (H k Hk). destruct (inside k); [|by rewrite H]. destruct H as (pre & post & -> & ->). exists (own ++ pre), post. by rewrite <- !app_assoc.
Qed.

(** *** One pivot of a node *)
(** Besides its own branches a pivot has nothing, or what is below. *)
Lemma child_ok_split N h a m c own B : child_ok cfg N h a m c own B → ∃ R, (∀ k, in_range cfg a m k → B k = own ++ R k) ∧
  ∀ own' B', (∀ k, in_range cfg a m k → B' k = own' ++ R k) → child_ok cfg N h a m c own' B'.
Proof using.
  destruct h; [intros [-> H]; exists (λ _, [])|intros (B1 & HT & HB); exists B1]; (split; [intros k Hk; rewrite ?app_nil_r; auto|]).
  - intros own' B' HB. split; [done|]. intros k Hk. by rewrite HB, app_nil_r.
  - intros own' B' HB'. by exists B1.
Qed.
Lemma pivot_ok_mono N N' h inflight a b B B' x : N ⊆ N' → (∀ k, in_range cfg a b k → B' k = B k) →
  pivot_ok (child_ok cfg N h) inflight B a b x → pivot_ok (child_ok cfg N' h) inflight B' a b x.
Proof using.
  intros Hs HB (H1 & H2 & H3 & H4 & H5 & H6). split_and!; try lia; try done. eapply child_ok_store; [exact Hs|].
  destruct (child_ok_split _ _ _ _ _ _ _ H6) as (R & HR & H). apply H. intros k Hk. by rewrite HB, HR.
Qed.
(** [f] for the keys of a range, [g] for the others. *)
Definition at_range (a m : key) (f g : key → list Z) : key → list Z := λ k, if (compare a k <=? 0) && (compare k m <? 0) then f k else g k.
Lemma at_range_in a m f g k : in_range cfg a m k → at_range a m f g k = f k.
Proof using. intros (_ & H1 & H2). unfold at_range. by rewrite (proj2 (Z.leb_le _ _) H1), (proj2 (Z.ltb_lt _ _) H2). Qed.
Lemma at_range_below lo a m f g k : key_small a → in_range cfg lo a k → at_range a m f g k = g k.
Proof using key_order0.
  intros Ha (Hk & _ & H). unfold at_range. pose proof (dkc_sym (tc_data_cfg cfg) a k Ha Hk). unfold key_lt in H. by rewrite (proj2 (Z.leb_gt _ _)) by lia.
Qed.
Lemma at_range_above a m hi f g k : key_small m → in_range cfg m hi k → at_range a m f g k = g k.
Proof using key_order0.
  intros Hm (Hk & H & _). unfold at_range. pose proof (dkc_sym (tc_data_cfg cfg) m k Hm Hk). unfold key_le in H. by rewrite (proj2 (Z.ltb_ge (compare k m) 0)), andb_false_r by lia.
Qed.
Lemma pivots_are_inj n L last L' last' : pivots_are n L last → pivots_are n L' last' → L = L' ∧ last = last'.
Proof using.
  intros [Hp Hb] [Hp' Hb']. rewrite Hp in Hp'. apply app_inj_tail in Hp' as [E ->]. split; [|done]. rewrite Hb in Hb'.
  rewrite <- (zip_fst_snd L), <- (zip_fst_snd L'). by rewrite E, Hb'.
Qed.
(** A node of which one pivot, that of the range from [a] to [m], has changed. *)
Definition around (N : gmap Z trunk_ondisk_node) (h : nat) (lo a m hi : key) (n : trunk_node) (B : key → list Z) (L1 L2 : list (trunk_pivot * bundle)) : Prop :=
  covers cfg (pivot_ok (child_ok cfg N h) (inflight_bundles n) B) lo a L1 ∧ covers cfg (pivot_ok (child_ok cfg N h) (inflight_bundles n) B) m hi L2.
Lemma replace_ok N N' h lo hi n B L1 x L2 last a m y f : key_small lo → key_small a → key_small m → key_lt cfg a m → N ⊆ N' →
  node_ok cfg (child_ok cfg N h) h lo hi n B → pivots_are n (L1 ++ x :: L2) last → around N h lo a m hi n B L1 L2 →
  pivot_ok (child_ok cfg N' h) (inflight_bundles n) f a m y → let n' := with_pivot n (length L1) y in
  pivots_are n' (L1 ++ y :: L2) last ∧ node_ok cfg (child_ok cfg N' h) h lo hi n' (at_range a m f B) ∧ around N' h lo a m hi n' (at_range a m f B) L1 L2.
Proof using key_order0.
  intros Hlo Ha Hm Ham Hs (Hht & Hn & Hf & L & last' & Hpiv0 & Hne & H0 & Hk & Hst & Hst' & _) Hpiv1 [Hc1 Hc2] Hy n'.
  destruct (pivots_are_inj _ _ _ _ _ Hpiv0 Hpiv1) as [-> ->]. destruct Hpiv1 as [Hp Hb].
  assert (pivots_are n' (L1 ++ y :: L2) last) as Hpiv.
  { split; cbn [n' with_pivot pivots pivot_bundles]; rewrite ?Hp, ?Hb, !fmap_app; cbn [fmap list_fmap]; rewrite <- ?app_assoc; cbn [app].
    - rewrite <- (length_fmap fst L1), insert_middle. done.
    - by rewrite <- (length_fmap snd L1), insert_middle. }
  assert (around N' h lo a m hi n' (at_range a m f B) L1 L2) as [Hc1' Hc2'].
  { split; [eapply (covers_sub cfg); [exact Hlo| |exact Hc1]|eapply (covers_sub cfg); [exact Hm| |exact Hc2]].
    - intros c d z _ Hc Hd Hlc Hda Hz. eapply pivot_ok_mono; [exact Hs| |exact Hz]. intros k Hkr. apply (at_range_below lo); [done|].
      exact (in_range_sub cfg lo c d a k Hlo Hc Hd Ha Hlc Hda Hkr).
    - intros c d z _ Hc Hd Hmc Hdh Hz. eapply pivot_ok_mono; [exact Hs| |exact Hz]. intros k Hkr. apply (at_range_above a m hi); [done|].
      destruct (covers_le cfg _ m hi L2 Hm Hc2) as [Hhi _]. exact (in_range_sub cfg m c d hi k Hm Hc Hd Hhi Hmc Hdh Hkr). }
  split; [done|]. split; [|by split]. split; [done|]. split; [done|]. split; [done|]. exists (L1 ++ y :: L2), last. split_and!; try done.
  - by destruct L1.
  - intros E. specialize (H0 E). rewrite length_app in H0 |- *. exact H0.
  - apply covers_app. exists a. split; [done|]. exists m. split_and!; try done.
    eapply pivot_ok_mono; [reflexivity| |exact Hy]. intros k Hkr. by apply at_range_in.
Qed.
(** The pivot of a match, with the branches in the place of the bundles. *)
Definition applied (p : trunk_pivot) : trunk_pivot :=
  let p := mk_trunk_pivot (prereceive_stats p) (mk_trunk_pivot_stats (num_kv_bytes (stats p) - num_kv_bytes (delta args)) (num_tuples (stats p) - num_tuples (delta args)))
    (child_addr p) (inflight_bundle_start p + num_input_bundles args) (ci_le_ei p) (pivot_key p) in
  if trunk_pivot_cc_load p <? TRUNK_PIVOT_CC_SATURATION_THRESHOLD then trunk_pivot_cc_set p (trunk_pivot_cc_load p + 1) else p.
Lemma applied_fields p : trunk_pivot_child_addr (applied p) = trunk_pivot_child_addr p ∧ pivot_key (applied p) = pivot_key p ∧
  stats (applied p) = mk_trunk_pivot_stats (num_kv_bytes (stats p) - num_kv_bytes (delta args)) (num_tuples (stats p) - num_tuples (delta args)) ∧
  prereceive_stats (applied p) = prereceive_stats p ∧ inflight_bundle_start (applied p) = inflight_bundle_start p + num_input_bundles args.
Proof using.
  unfold applied. set (q := mk_trunk_pivot _ _ _ _ _ _). destruct (Z.ltb_spec (trunk_pivot_cc_load q) TRUNK_PIVOT_CC_SATURATION_THRESHOLD) as [Hlt|_]; [|done].
  split_and!; try done. unfold trunk_pivot_child_addr, trunk_pivot_cc_set. cbn [child_addr]. apply cc_set_addr.
  pose proof (trunk_pivot_cc_range q). unfold TRUNK_PIVOT_CC_SATURATION_THRESHOLD in Hlt. lia.
Qed.
Lemma applied_ok N h inflight B a m x : pivot_ok (child_ok cfg N h) inflight B a m x → fits_pivot x.1 x.2 →
  inflight_bundle_start x.1 + num_input_bundles args ≤ lengthZ inflight →
  ∃ f, pivot_ok (child_ok cfg N h) inflight f a m (applied x.1, bundle_add_branches x.2 (new_maplet args) (new_branches args)) ∧
    ∀ k, in_range cfg a m k → replaced (take (Z.to_nat (num_input_bundles args)) (drop (Z.to_nat (inflight_bundle_start x.1)) inflight)) (B k) (f k).
Proof using Hargs.
  intros (H1 & (S1 & S2 & S3) & H3 & H4 & H5 & H6) [(T1 & T2 & T3) Hbok] Hlen. destruct (applied_fields x.1) as (Ea & Ek & Est & Epre & Ebs). pose proof (ao_num Hargs) as Hnum.
  destruct (child_ok_split _ _ _ _ _ _ _ H6) as (R & HR & Hchild). set (i := Z.to_nat (inflight_bundle_start x.1)) in *. set (c := Z.to_nat (num_input_bundles args)) in *.
  set (pre := newest (drop (i + c) inflight)). set (post := λ k, reverse (branches x.2) ++ R k).
  exists (λ k, pre ++ reverse (new_branches args) ++ post k). split.
  - split_and!; cbn [fst snd]; rewrite ?Ek, ?Est, ?Epre, ?Ebs; try done; try lia.
    + split_and!; cbn [num_kv_bytes num_tuples]; lia.
    + rewrite Ea. apply Hchild. intros k Hk. replace (Z.to_nat (inflight_bundle_start x.1 + num_input_bundles args)) with (i + c)%nat by lia.
      rewrite newest_cons. cbn [bundle_add_branches branches]. rewrite reverse_app. unfold pre, post. by rewrite <- !app_assoc.
  - intros k Hk. exists pre, (post k). split; [|done]. rewrite HR, newest_cons by done.
    assert (newest (drop i inflight) = pre ++ newest (take c (drop i inflight))) as -> by (unfold pre; by rewrite <- drop_drop, <- newest_app, take_drop).
    unfold post. by rewrite <- !app_assoc.
Qed.

(** *** A node *)
Lemma next_pivot (P : key → key → trunk_pivot * bundle → Prop) L2 last m hi : (∀ a b x, P a b x → pivot_key x.1 = a) → pivot_key last = hi → covers cfg P m hi L2 →
  ∃ q rest, L2.*1 ++ [last] = q :: rest ∧ pivot_key q = m.
Proof using.
  intros HP Hk Hc. destruct L2 as [|y L2]; [cbn in Hc |- *; subst; by exists last, []|]. destruct Hc as (? & _ & _ & Hy & _). cbn. eexists _, _. split; [done|]. by apply (HP _ _ _ Hy).
Qed.
Lemma compare_zero_le a b : key_small a → key_small b → compare a b = 0 → key_le cfg a b ∧ key_le cfg b a.
Proof using key_order0. intros Ha Hb E. pose proof (dkc_sym (tc_data_cfg cfg) a b Ha Hb). unfold key_le. lia. Qed.
(** The range of the pivot is that of the compaction. *)
Lemma inside_at a m k : key_small a → key_small m → key_small k → compare (aa_key args) a = 0 → compare (aa_ubkey args) m = 0 →
  inside k = (compare a k <=? 0) && (compare k m <? 0).
Proof using key_order0 Hargs.
  intros Ha Hm Hk Ea Em. destruct (compare_zero_le _ _ (ao_key Hargs) Ha Ea) as [A1 A2], (compare_zero_le _ _ (ao_ubkey Hargs) Hm Em) as [M1 M2].
  apply eq_true_iff_eq. rewrite inside_spec, andb_true_iff. split; intros [H1 H2].
  - split; [apply Z.leb_le; exact (key_le_trans cfg _ _ _ Ha (ao_key Hargs) Hk A2 H1)|apply Z.ltb_lt].
    apply (dkc_lt_le (tc_data_cfg cfg) k (aa_ubkey args) m); try done; apply Hargs.
  - apply Z.leb_le in H1. apply Z.ltb_lt in H2. split; [exact (key_le_trans cfg _ _ _ (ao_key Hargs) Ha Hk A1 H1)|].
    apply (dkc_lt_le (tc_data_cfg cfg) k m (aa_ubkey args)); try done; apply Hargs.
Qed.
Lemma matches_run n L1 x L2 last q rest s : pivots_are n (L1 ++ x :: L2) last → L2.*1 ++ [last] = q :: rest →
  0 ≤ inflight_bundle_start x.1 → Forall inflight_ok (inflight_bundles n) →
  ∃ r, pivot_matches_compaction cfg args n (length L1) s = Ret (r, s) ∧ (r = true → compare (aa_key args) (pivot_key x.1) = 0 ∧ compare (aa_ubkey args) (pivot_key q) = 0 ∧
    routing_filters_equal (maplet x.2) (aa_maplet args) = true ∧ inflight_bundle_start x.1 + num_input_bundles args ≤ lengthZ (inflight_bundles n) ∧
    inputs_ok (take (Z.to_nat (num_input_bundles args)) (drop (Z.to_nat (inflight_bundle_start x.1)) (inflight_bundles n)))).
Proof using Hargs.
  intros Hpiv Hq H0 Hf. destruct (lookup_pivot _ _ _ _ _ Hpiv) as [Hlp Hlb]. unfold pivot_matches_compaction. rewrite (run_opt _ _ _ _ Hlp), (run_opt _ _ _ _ Hlb).
  pose proof (ao_num Hargs) as Hnum. destruct (ao_input Hargs) as (a & l & ls & Ea). rewrite Ea.
  rewrite run_assert, run_assert, (run_opt _ _ _ (a :: l) eq_refl), run_assert, (run_opt _ _ _ a eq_refl); [|unfold lengthZ; cbn; apply Z.ltb_lt; lia|done|by apply Z.ltb_lt].
  destruct (Z.ltb_spec (lengthZ (inflight_bundles n)) (inflight_bundle_start x.1 + num_input_bundles args)) as [Hlt|Hge]; [by exists false|].
  destruct (lookup_lt_is_Some_2 (inflight_bundles n) (Z.to_nat (inflight_bundle_start x.1)) ltac:(unfold lengthZ in Hge; lia)) as [b Hb].
  rewrite (run_opt _ _ _ _ Hb). destruct (Forall_lookup_1 _ _ _ _ Hf Hb) as [_ Hne]. destruct (branches b) as [|a' bs] eqn:Ebs; [done|]. rewrite (run_opt _ _ _ a' eq_refl).
  assert (pivots n !! S (length L1) = Some q) as Hnext.
  { destruct Hpiv as [-> _]. rewrite fmap_app, <- app_assoc. cbn [fmap list_fmap app]. rewrite Hq, lookup_app_r by (rewrite length_fmap; lia).
    rewrite length_fmap. by replace (S (length L1) - length L1)%nat with 1%nat by lia. }
  rewrite (run_opt _ _ _ _ Hnext). eexists. split; [reflexivity|]. rewrite !andb_true_iff. intros [[[E1%Z.eqb_eq E2%Z.eqb_eq] E3] E4%Z.eqb_eq].
  split_and!; try done. split.
  - unfold lengthZ in *. rewrite length_take, length_drop. lia.
  - exists b, a'. rewrite Ebs, Ea, E4. split; [|done]. rewrite (drop_S _ _ _ Hb). by destruct (Z.to_nat (num_input_bundles args)) eqn:E; [lia|].
Qed.
Lemma apply_to_pivot_run n L1 x L2 last s : pivots_are n (L1 ++ x :: L2) last → stats_ok (stats x.1) → takes (stats x.1) →
  apply_to_pivot args n (length L1) s = Ret (with_pivot n (length L1) (applied x.1, bundle_add_branches x.2 (new_maplet args) (new_branches args)), s).
Proof using.
  intros Hpiv (S1 & S2 & S3) (T1 & T2 & T3). destruct (lookup_pivot _ _ _ _ _ Hpiv) as [Hlp Hlb]. unfold apply_to_pivot.
  rewrite (run_opt _ _ _ _ Hlb), (run_opt _ _ _ _ Hlp). unfold trunk_pivot_take_tuple_counts. cbn [stats trunk_pivot_set_inflight_bundle_start].
  rewrite (bind_run _ _ s (mk_trunk_pivot (prereceive_stats x.1) (mk_trunk_pivot_stats (num_kv_bytes (stats x.1) - num_kv_bytes (delta args)) (num_tuples (stats x.1) - num_tuples (delta args)))
    (child_addr x.1) (inflight_bundle_start x.1 + num_input_bundles args) (ci_le_ei x.1) (pivot_key x.1)) s); [done|].
  do 2 rewrite run_assert by (apply Z.leb_le; lia). rewrite run_assert; [done|]. apply andb_true_iff. cbn [num_kv_bytes num_tuples]. lia.
Qed.
(** The pivots of a node with their ranges. *)
Lemma pivot_at N h lo hi n B L1 x L2 last : key_small lo → node_ok cfg (child_ok cfg N h) h lo hi n B → pivots_are n (L1 ++ x :: L2) last →
  ∃ a m, key_small a ∧ key_small m ∧ key_lt cfg a m ∧ key_le cfg lo a ∧ key_le cfg m hi ∧ around N h lo a m hi n B L1 L2 ∧
    pivot_ok (child_ok cfg N h) (inflight_bundles n) B a m x ∧ ∃ q rest, L2.*1 ++ [last] = q :: rest ∧ pivot_key q = m.
Proof using key_order0.
  intros Hlo (Hht & Hn & Hf & L & last' & Hpiv0 & Hne & H0 & Hk & Hst & Hst' & Hcov) Hpiv. destruct (pivots_are_inj _ _ _ _ _ Hpiv0 Hpiv) as [-> ->].
  apply covers_app in Hcov as (a & Hc1 & (m & Hm & Ham & Hx & Hc2)).
  destruct (covers_le cfg _ lo a L1 Hlo Hc1) as [Ha Hla], (covers_le cfg _ m hi L2 Hm Hc2) as [Hhi Hmh]. exists a, m. split_and!; try done.
  - destruct Hla as [->|?]; [cbn in Hc1; rewrite Hc1; by apply key_le_refl|by apply key_lt_le].
  - destruct Hmh as [->|?]; [cbn in Hc2; rewrite Hc2; by apply key_le_refl|by apply key_lt_le].
  - eapply next_pivot; [|exact Hk|exact Hc2]. by intros c d y [? _].
Qed.
Lemma applied_changed lo hi a m found B f inputs : key_small lo → key_small hi → key_small a → key_small m → key_le cfg lo a → key_le cfg m hi →
  compare (aa_key args) a = 0 → compare (aa_ubkey args) m = 0 → inputs_ok inputs → (∀ k, in_range cfg a m k → replaced inputs (B k) (f k)) →
  changed lo hi found true B (at_range a m f B).
Proof using key_order0 Hargs.
  intros Hlo Hhi Ha Hm Hla Hmh Ea Em Hin Hf. destruct (compare_zero_le _ _ (ao_key Hargs) Ha Ea) as [A1 A2], (compare_zero_le _ _ (ao_ubkey Hargs) Hm Em) as [M1 M2].
  right. split; [done|]. split; [exact (key_le_trans cfg _ _ _ Hlo Ha (ao_key Hargs) Hla A2)|]. split; [exact (key_le_trans cfg _ _ _ (ao_ubkey Hargs) Hm Hhi M1 Hmh)|].
  exists inputs. split; [done|]. intros k (Hk & _). unfold at_range. rewrite (inside_at a m k Ha Hm Hk Ea Em). destruct (_ && _) eqn:E; [|done].
  apply Hf. apply andb_true_iff in E as [E1%Z.leb_le E2%Z.ltb_lt]. by split_and!.
Qed.
Lemma apply_loop_run N s h lo hi n B L2 : key_small lo → key_small hi → node_ok cfg (child_ok cfg N h) h lo hi n B →
  fits_node n s → ∀ L1 last found, pivots_are n (L1 ++ L2) last →
  ∃ r B', apply_loop cfg args (length L2) (length L1) n found s = Ret (r, s) ∧ node_ok cfg (child_ok cfg N h) h lo hi r.1 B' ∧ changed lo hi found r.2 B B'.
Proof using key_order0 Hargs.
  intros Hlo Hhi Hok Htake. induction L2 as [|x L2 IH]; intros L1 last found Hpiv; cbn [length apply_loop].
  - exists (n, found), B. split; [done|]. split; [done|]. by apply changed_refl.
  - rewrite run_assert by by eapply node_ok_well_formed.
    destruct (pivot_at _ _ _ _ _ _ _ _ _ _ Hlo Hok Hpiv) as (a & m & Ha & Hm & Ham & Hla & Hmh & Har & Hx & q & rest & Hq & Hqm).
    pose proof Hok as (_ & _ & Hf & _). pose proof Hx as (Hkx & Hsx & _ & Hbs & _).
    destruct (matches_run n L1 x L2 last q rest s Hpiv Hq (proj1 Hbs) Hf) as (r & Hrun & Hr). rewrite (bind_run _ _ _ _ _ Hrun). destruct r.
    + destruct (Hr eq_refl) as (E1 & E2 & E3 & E4 & E5). rewrite Hkx in E1. rewrite Hqm in E2.
      destruct (lookup_pivot _ _ _ _ _ Hpiv) as [Hlp Hlb]. pose proof (Htake _ _ _ Hlp Hlb Hrun) as Ht.
      destruct (applied_ok _ _ _ _ _ _ _ Hx Ht E4) as (f & Hy & Hrep).
      destruct (replace_ok N N h lo hi n B L1 x L2 last a m _ f Hlo Ha Hm Ham ltac:(done) Hok Hpiv Har Hy) as (_ & Hok' & _).
      rewrite (bind_run _ _ _ _ _ (apply_to_pivot_run _ _ _ _ _ s Hpiv Hsx (proj1 Ht))). eexists _, _. split; [reflexivity|]. split; [exact Hok'|].
      by apply (applied_changed lo hi a m found B f _ Hlo Hhi Ha Hm Hla Hmh E1 E2 E5).
    + replace (S (length L1)) with (length (L1 ++ [x])) by (rewrite length_app; cbn; lia). apply (IH _ last). by rewrite <- app_assoc.
Qed.
Lemma apply_node_run N s h lo hi n B found : key_small lo → key_small hi → node_ok cfg (child_ok cfg N h) h lo hi n B →
  fits_node n s →
  ∃ r B', trunk_apply_changes_maplet_compaction cfg args n found s = Ret (r, s) ∧ node_ok cfg (child_ok cfg N h) h lo hi r.1 B' ∧ changed lo hi found r.2 B B'.
Proof using key_order0 Hargs.
  intros Hlo Hhi Hok Htake. pose proof Hok as (_ & _ & _ & L & last & Hpiv & _).
  destruct (apply_loop_run N s h lo hi n B L Hlo Hhi Hok Htake [] last found Hpiv) as (r & B' & Hrun & Hok' & Hch). exists r, B'.
  unfold trunk_apply_changes_maplet_compaction. rewrite (num_children_are _ _ _ Hpiv). unfold lengthZ. rewrite Nat2Z.id, (bind_run _ _ _ _ _ Hrun).
  rewrite run_assert by by eapply node_ok_well_formed. done.
Qed.

(** *** The paths *)
(** The nodes before the change, which are read, and the height it is for. *)
Context (N0 : gmap Z trunk_ondisk_node) (Hfits : fits N0) (H : nat).
Definition rewrites (F : nat → Z → bool → E (trunk_ondisk_node_ref * bool)) (h : nat) : Prop := ∀ s lo hi addr B found,
  trunk_ok cfg s → N0 ⊆ ts_nodes s → key_small lo → key_small hi → key_lt cfg lo hi → tree cfg N0 h lo hi addr B →
  wp (λ fuel, F fuel addr found) s (ok_or (kept cfg s) (λ r s', kept cfg s s' ∧ ref_key r.1 = lo ∧
    ∃ B', tree cfg (ts_nodes s') h lo hi (ref_addr r.1) B' ∧ changed lo hi found r.2 B B')).
(** Up to [a] the children are new, from there on they are as they were. *)
Record partly (s : trunk_state) (h : nat) (lo hi : key) (found found' : bool) (B : key → list Z) (n : trunk_node) (L1 L2 : list (trunk_pivot * bundle)) (last : trunk_pivot) (a : key) (Bc : key → list Z) : Prop := {
  pa_pivots : pivots_are n (L1 ++ L2) last;
  pa_node : node_ok cfg (child_ok cfg (ts_nodes s) (S h)) (S h) lo hi n Bc;
  pa_key : key_small a;
  pa_le : key_le cfg lo a;
  pa_done : covers cfg (pivot_ok (child_ok cfg (ts_nodes s) (S h)) (inflight_bundles n) Bc) lo a L1;
  pa_rest : covers cfg (pivot_ok (child_ok cfg N0 (S h)) (inflight_bundles n) B) a hi L2;
  pa_changed : changed lo a found found' B Bc;
  pa_same k : in_range cfg a hi k → Bc k = B k;
}.
Lemma partly_next s h lo hi found f1 B n L1 x L2 last a Bc : key_small lo → N0 ⊆ ts_nodes s → partly s h lo hi found f1 B n L1 (x :: L2) last a Bc →
  ∃ m B1 q, key_small m ∧ key_small hi ∧ key_lt cfg a m ∧ key_le cfg m hi ∧ tree cfg N0 h a m (trunk_pivot_child_addr x.1) B1 ∧
    (∀ k, in_range cfg a m k → B k = newest (x.2 :: drop (Z.to_nat (inflight_bundle_start x.1)) (inflight_bundles n)) ++ B1 k) ∧
    pivot_ok (child_ok cfg N0 (S h)) (inflight_bundles n) B a m x ∧ around (ts_nodes s) (S h) lo a m hi n Bc L1 L2 ∧
    covers cfg (pivot_ok (child_ok cfg N0 (S h)) (inflight_bundles n) B) m hi L2 ∧ pivots n !! S (length L1) = Some q.
Proof using key_order0.
  intros Hlo Hsub [Hpiv Hok Ha Hla Hd (m & Hm & Ham & Hx & Hc2) Hch Hsame].
  destruct (covers_le cfg _ m hi L2 Hm Hc2) as [Hhi Hmh0].
  assert (key_le cfg m hi) as Hmh by (destruct Hmh0 as [->|?]; [cbn in Hc2; rewrite Hc2; by apply key_le_refl|by apply key_lt_le]).
  pose proof Hok as (_ & _ & _ & L & last' & Hpiv' & _ & _ & Hk & _). destruct (pivots_are_inj _ _ _ _ _ Hpiv' Hpiv) as [-> ->].
  destruct (next_pivot (pivot_ok (child_ok cfg N0 (S h)) (inflight_bundles n) B) L2 last m hi ltac:(by intros ??? [? _]) Hk Hc2) as (q & rest & Hq & _).
  pose proof Hx as (_ & _ & _ & _ & _ & (B1 & HT & HB)). exists m, B1, q. split_and!; try done.
  - split; [exact Hd|]. eapply (covers_sub cfg); [exact Hm| |exact Hc2]. intros c d y _ Hc Hdk Hmc Hdh Hy. eapply pivot_ok_mono; [exact Hsub| |exact Hy].
    intros k Hkr. apply Hsame. apply (in_range_sub cfg a c d hi k); try done. apply (key_le_trans cfg a m); try done. by apply key_lt_le.
  - destruct Hpiv as [-> _]. rewrite fmap_app, <- app_assoc. cbn [fmap list_fmap app]. rewrite Hq, lookup_app_r by (rewrite length_fmap; lia).
    rewrite length_fmap. by replace (S (length L1) - length L1)%nat with 1%nat by lia.
Qed.
(** A child that is passed by. *)
Lemma partly_skip s h lo hi found f1 B n L1 x L2 last a Bc : key_small lo → N0 ⊆ ts_nodes s → partly s h lo hi found f1 B n L1 (x :: L2) last a Bc →
  ∃ m, partly s h lo hi found f1 B n (L1 ++ [x]) L2 last m Bc.
Proof using key_order0 Hargs.
  intros Hlo Hsub Hp. destruct (partly_next _ _ _ _ _ _ _ _ _ _ _ _ _ _ Hlo Hsub Hp) as (m & B1 & q & Hm & Hhi & Ham & Hmh & HT & HB & Hx & [Hc1 Hc2] & Hc0 & _).
  destruct Hp as [Hpiv Hok Ha Hla Hd _ Hch Hsame]. pose proof (key_lt_le cfg _ _ Ham) as Hle. exists m. split; try done.
  - by rewrite <- app_assoc.
  - by apply (key_le_trans cfg lo a).
  - apply covers_app. exists a. split; [done|]. exists m. split_and!; try done. eapply pivot_ok_mono; [exact Hsub| |exact Hx].
    intros k Hkr. apply Hsame. apply (in_range_sub cfg a a m hi k); try done. by apply key_le_refl.
  - eapply (changed_app lo a m _ f1 _ B Bc B); try done; [by apply changed_refl|]. intros k Hkr. apply Hsame. apply (in_range_sub cfg a a m hi k); try done. by apply key_le_refl.
  - intros k Hkr. apply Hsame. by apply (in_range_sub cfg a m hi hi k); try done; apply key_le_refl.
Qed.
(** A child that was written anew. *)
Lemma partly_step s s' h lo hi found f1 f2 B n L1 x L2 last a Bc m B1 B1' addr : key_small lo → N0 ⊆ ts_nodes s → ts_nodes s ⊆ ts_nodes s' →
  partly s h lo hi found f1 B n L1 (x :: L2) last a Bc → key_small m → key_small hi → key_lt cfg a m → key_le cfg m hi →
  (∀ k, in_range cfg a m k → B k = newest (x.2 :: drop (Z.to_nat (inflight_bundle_start x.1)) (inflight_bundles n)) ++ B1 k) →
  pivot_ok (child_ok cfg N0 (S h)) (inflight_bundles n) B a m x → around (ts_nodes s) (S h) lo a m hi n Bc L1 L2 →
  covers cfg (pivot_ok (child_ok cfg N0 (S h)) (inflight_bundles n) B) m hi L2 →
  tree cfg (ts_nodes s') h a m addr B1' → changed a m f1 f2 B1 B1' → ∃ Bc',
  partly s' h lo hi found f2 B (with_pivot n (length L1) (trunk_pivot_set_child_addr x.1 addr, x.2)) (L1 ++ [(trunk_pivot_set_child_addr x.1 addr, x.2)]) L2 last m Bc'.
Proof using key_order0 Hargs.
  intros Hlo Hsub Hsub' [Hpiv Hok Ha Hla Hd _ Hch Hsame] Hm Hhi Ham Hmh HB Hx Har Hc0 HT' Hch'. set (y := (trunk_pivot_set_child_addr x.1 addr, x.2)).
  set (own := newest (x.2 :: drop (Z.to_nat (inflight_bundle_start x.1)) (inflight_bundles n))) in *.
  assert (pivot_ok (child_ok cfg (ts_nodes s') (S h)) (inflight_bundles n) (λ k, own ++ B1' k) a m y) as Hy.
  { destruct Hx as (H1 & H2 & H3 & H4 & H5 & _). split_and!; try done; try apply H4; try apply H2. exists B1'. split; [|done].
    assert (aligned addr) as Hal by (destruct h; by destruct HT' as (_ & ? & _)). unfold trunk_pivot_child_addr. cbn. by rewrite Hal. }
  destruct (replace_ok _ _ _ _ _ _ _ _ _ _ _ _ _ _ _ Hlo Ha Hm Ham Hsub' Hok Hpiv Har Hy) as (Hpiv' & Hok' & Hc1' & _).
  pose proof (key_lt_le cfg _ _ Ham) as Hle. exists (at_range a m (λ k, own ++ B1' k) Bc). split; try done.
  - by rewrite <- app_assoc.
  - by apply (key_le_trans cfg lo a).
  - apply covers_app. exists a. split; [exact Hc1'|]. exists m. split_and!; try done. eapply pivot_ok_mono; [reflexivity| |exact Hy]. intros k Hkr. by apply at_range_in.
  - eapply (changed_app lo a m found f1 f2 B Bc (λ k, own ++ B1' k)); try done.
    + by apply (changed_own a m f1 f2 own B1 B1').
    + intros k Hkr. by apply (at_range_below lo).
    + intros k Hkr. by apply at_range_in.
  - intros k Hkr. rewrite (at_range_above a m hi) by done. apply Hsame. by apply (in_range_sub cfg a m hi hi k); try done; apply key_le_refl.
Qed.
Lemma apply_children_run F h lo hi B found L2 : key_small lo → rewrites F h → ∀ s n L1 last a f1 Bc, trunk_ok cfg s → N0 ⊆ ts_nodes s →
  partly s h lo hi found f1 B n L1 L2 last a Bc →
  wp (λ fuel, apply_children cfg (aa_key args) (aa_ubkey args) (F fuel) (length L2) (length L1) n f1) s
    (ok_or (kept cfg s) (λ r s', kept cfg s s' ∧ ∃ B', node_ok cfg (child_ok cfg (ts_nodes s') (S h)) (S h) lo hi r.1 B' ∧ changed lo hi found r.2 B B')).
Proof using key_order0 Hargs.
  intros Hlo HF. induction L2 as [|x L2 IH]; intros s n L1 last a f1 Bc Hs Hsub Hp; cbn [length apply_children].
  - apply wp_ret. split; [by apply kept_refl|]. exists Bc. split; [by eapply pa_node|]. pose proof (pa_changed _ _ _ _ _ _ _ _ _ _ _ _ _ Hp) as Hch.
    pose proof (pa_rest _ _ _ _ _ _ _ _ _ _ _ _ _ Hp) as E. cbn in E. by subst a.
  - destruct (partly_next _ _ _ _ _ _ _ _ _ _ _ _ _ _ Hlo Hsub Hp) as (m & B1 & q & Hm & Hhi & Ham & Hmh & HT & HB & Hx & Har & Hc0 & Hq).
    destruct (lookup_pivot _ _ _ _ _ (pa_pivots _ _ _ _ _ _ _ _ _ _ _ _ _ Hp)) as [Hlp Hlb]. eapply wp_opt; [exact Hlp|]. eapply wp_opt; [exact Hq|].
    replace (S (length L1)) with (length (L1 ++ [x])) by (rewrite length_app; cbn; lia).
    destruct (_ && _).
    + eapply wp_bind; [apply (HF s a m _ B1 f1 Hs Hsub (pa_key _ _ _ _ _ _ _ _ _ _ _ _ _ Hp) Hm Ham HT)|]. intros [rc|[ref f2]] s1; cbn [ok_or].
      * intros [_ Hk]. by apply wp_ret.
      * intros (Hk & _ & B1' & HT' & Hch'). eapply wp_opt; [exact Hlb|]. destruct Hk as [Hs1 Hext].
        destruct (partly_step s s1 h lo hi found f1 f2 B n L1 x L2 last a Bc m B1 B1' (ref_addr ref) Hlo Hsub (te_nodes _ _ Hext) Hp Hm Hhi Ham Hmh HB Hx Har Hc0 HT' Hch') as (Bc' & Hp').
        set (y := (trunk_pivot_set_child_addr x.1 (ref_addr ref), x.2)) in *. replace (length (L1 ++ [x])) with (length (L1 ++ [y])) by by rewrite !length_app.
        eapply wp_mono; [apply (IH s1 _ (L1 ++ [y]) last m f2 Bc' Hs1); [by etrans; [|apply Hext]|exact Hp']|].
        intros r s2 Hr. eapply kept_ok_or; [by split|exact Hr|]. intros r' t [Hkt HB']. split; [|done]. by eapply kept_trans.
    + destruct (partly_skip _ _ _ _ _ _ _ _ _ _ _ _ _ _ Hlo Hsub Hp) as [m' Hp']. by apply (IH s n (L1 ++ [x]) last m' f1 Bc).
Qed.
Local Abbreviation internal := (trunk_apply_changes_internal cfg (aa_key args) (aa_ubkey args) (Z.of_nat H) (trunk_apply_changes_maplet_compaction cfg args)).
Lemma apply_changes_internal_run h : (H ≤ h)%nat → rewrites (λ fuel, internal fuel) h.
Proof using key_order0 Hargs Hfits.
  induction h as [h IH] using lt_wf_ind. intros Hle s lo hi addr B found Hs Hsub Hlo Hhi Hlt HT. apply wp_S. cbn [trunk_apply_changes_internal].
  destruct (trunk_node_deserialize_sub cfg N0 s h lo hi addr B Hsub HT) as (n & Hd & Hok). eapply wp_bind_run; [exact Hd|].
  set (s1 := with_misses _ s) in *. assert (kept cfg s s1) as Hk1 by (destruct Hs; by split; split). pose proof (proj1 Hk1) as Hs1.
  assert (node_ok cfg (child_ok cfg (ts_nodes s1) h) h lo hi n B) as Hok1 by by apply (node_ok_store cfg N0).
  assert (∃ od, N0 !! addr = Some od) as [od Hod] by (destruct h; destruct HT as (_ & _ & od & ? & _); by exists od).
  eapply (wp_ebind _ _ _ _ (λ r s2, kept cfg s s2 ∧ ∃ B', node_ok cfg (child_ok cfg (ts_nodes s2) h) h lo hi r.1 B' ∧ changed lo hi found r.2 B B')).
  - replace (height n) with (Z.of_nat h) by (symmetry; apply Hok). destruct (Z.eqb_spec (Z.of_nat h) (Z.of_nat H)) as [E|Hne].
    + destruct (apply_node_run (ts_nodes s1) s1 h lo hi n B found Hlo Hhi Hok1) as (r & B' & Hrun & Hok' & Hch).
      { apply (Hfits s addr n s1); [by exists od|rewrite Hod; by eapply lookup_weaken|done]. }
      eapply wp_bind_run; [exact Hrun|]. apply wp_ret. split; [done|]. by exists B'.
    + destruct h as [|h]; [lia|]. pose proof Hok1 as (_ & _ & _ & L & last & Hpiv & _ & _ & Hk & _).
      assert (covers cfg (pivot_ok (child_ok cfg N0 (S h)) (inflight_bundles n) B) lo hi L) as Hc.
      { destruct Hok as (_ & _ & _ & L' & last' & Hpiv' & _ & _ & _ & _ & _ & Hc). by destruct (pivots_are_inj _ _ _ _ _ Hpiv Hpiv') as [-> _]. }
      rewrite (num_children_are _ _ _ Hpiv). unfold lengthZ. rewrite Nat2Z.id.
      eapply wp_mono; [apply (apply_children_run (λ fuel, internal fuel) h lo hi B found L Hlo (IH h ltac:(lia) ltac:(lia)) s1 n [] last lo found B Hs1 Hsub)|].
      * split; try done; [by apply key_le_refl|]. by apply changed_refl.
      * intros r s2 Hr. eapply kept_ok_or; [exact Hk1|exact Hr|]. intros r' t [Hkt HB']. split; [by eapply kept_trans|done].
  - cbv beta. intros [n' f'] s2 (Hk2 & B' & Hok' & Hch). cbn [fst snd] in *.
    destruct (trunk_node_serialize_run cfg s2 h lo hi n' B' Hlt (proj1 Hk2) Hok') as (r & s3 & Hrun & Hr).
    eapply wp_ebind; [eapply wp_run; [exact Hrun|]; eapply kept_ok_or; [exact Hk2|exact Hr|]; intros r' t Ht; exact Ht|].
    cbv beta. intros [n2 ref] s4 (Ht & He & Hkey & HT'). cbn [fst snd] in *. apply wp_ret. cbn [ok_or fst snd].
    split; [by eapply kept_trans; [exact Hk2|]|]. split; [done|]. by exists B'.
Qed.
(** *** The root *)
(** The old root is of a tree of at least the height. *)
Lemma apply_changes_run s root B h : trunk_ok cfg s → ts_nodes s = N0 → ts_root s = Some root → ref_key root = NEGATIVE_INFINITY_KEY → (H ≤ h)%nat →
  tree cfg N0 h NEGATIVE_INFINITY_KEY POSITIVE_INFINITY_KEY (ref_addr root) B →
  wp (λ fuel, trunk_apply_changes cfg (aa_key args) (aa_ubkey args) (Z.of_nat H) (trunk_apply_changes_maplet_compaction cfg args) fuel) s
    (ok_or (kept cfg s) (λ found s', trunk_ok cfg s' ∧ ts_nodes s ⊆ ts_nodes s' ∧ ts_post_incorporation_root s' = ts_post_incorporation_root s ∧
      ts_pre_incorporation_root s' = ts_pre_incorporation_root s ∧ ∃ r B', ts_root s' = Some r ∧ ref_key r = NEGATIVE_INFINITY_KEY ∧
      tree cfg (ts_nodes s') h NEGATIVE_INFINITY_KEY POSITIVE_INFINITY_KEY (ref_addr r) B' ∧ changed NEGATIVE_INFINITY_KEY POSITIVE_INFINITY_KEY false found B B')).
Proof using key_order0 Hargs Hfits.
  intros Hs HN Hroot Hrk Hle HT. unfold trunk_apply_changes. apply wp_get. eapply wp_opt; [exact Hroot|].
  eapply wp_bind; [by apply (apply_changes_internal_run h Hle s NEGATIVE_INFINITY_KEY POSITIVE_INFINITY_KEY (ref_addr root) B false); rewrite ?HN|].
  intros [rc|[r found]] s1; cbn [ok_or].
  - intros [_ Hk]. by apply wp_ret.
  - intros ([[Hal Hst] [H1 H2 H3 H4]] & Hkey & B' & HT' & Hch). cbn [fst snd] in *. eapply wp_bind_run; [reflexivity|]. apply wp_ret. cbn [ok_or].
    split; [by split|]. split; [done|]. split; [done|]. split; [done|]. by exists r, B'.
Qed.
End spec.
