(* ===== verification/TrunkTheorems.v ===== *)
(** * Theorems about the trunk

    An incorporation puts its branch first on every path; lookups merge the branches of
    the path of their key, over B-trees behind filters; a range query gets the branches
    of every key of its range, but for an error path. *)
From S2P Require Import Prelude Allocator DataInternal BtreeNode NodeLayout BtreeLeaf LeafMap BtreeIndex Btree BtreeTree BtreeWorld BtreeLookup BtreeExample BtreeTheorems.
From S2P Require Import RoutingFilter RoutingAdd RoutingRepr RoutingTheorems.
From stdpp Require Import sorting.
Open Scope Z_scope.
From S2P Require Import Trunk TrunkInv TrunkNode TrunkSplit TrunkFlush TrunkRoot TrunkLookup TrunkLookupRun TrunkCollect TrunkApply.

(** ** B-trees are a source of branches *)
(** Each branch in a state of its own. *)
Section btrees.
Context {S : Type} `{ns : node_source S} (cfg : btree_config) `{!node_source_laws S (btree_page_size cfg)} `{!key_order (bt_data_cfg cfg)}.
Definition btree_branches : branch_source (Z → tree_state S) := λ addr type k data w,
  match btree_lookup_and_merge cfg addr type k data (w addr) with
  | Ret (r, t) => Ret (r, λ a, if a =? addr then t else w a)
  | Assert => Assert | Undef => Undef | Block => Block | Fuel => Fuel
  end.
(** Branch [addr] of [valid] is a tree of the tuples [es addr]. *)
Definition btrees_state (valid : Z → Prop) (es : Z → list tuple) (w : Z → tree_state S) : Prop :=
  ∀ addr, valid addr → ∃ n, btree_state cfg addr n (es addr) (w addr).
Lemma btree_branches_laws (valid : Z → Prop) (es : Z → list tuple) : 4096 ≤ btree_page_size cfg < 2 ^ 16 →
  @branch_source_laws (Z → tree_state S) btree_branches (bt_data_cfg cfg) (btrees_state valid es) (λ a k, tuple_lookup cfg (es a) (USER_KEY k)) valid.
Proof.
  intros Hps w addr type k data Hw Hv Hk. destruct (Hw addr Hv) as (n & Hs). pose proof (state_st cfg _ _ _ _ Hs) as Hst.
  destruct (bs_tree _ _ _ _ _ Hs) as (fp & ls & Hbt).
  destruct (lookup_and_merge_run cfg (proj1 Hps) k (w addr) _ _ _ addr type n (es addr) fp ls (proj2 Hps) Hk Hst Hbt data) as (t & Hrun & nd' & fp' & ls' & Hst' & Hbt' & Hn).
  assert (btree_state cfg addr n (es addr) t) as Ht by by eapply looked_up_state.
  exists (λ a, if a =? addr then t else w a), (bool_decide (is_Some (tuple_lookup cfg (es addr) (USER_KEY k)))). split.
  - unfold branch_lookup_and_merge, btree_branches. rewrite Hrun. unfold merged_lookup, merge_one. by destruct (tuple_lookup cfg (es addr) (USER_KEY k)), data.
  - intros a Ha. destruct (Z.eqb_spec a addr) as [->|Hne]; [by exists n|by apply Hw].
Qed.
End btrees.

(** ** Filters *)
Definition no_inv : bundle_inv := {| bundle_pred _ := True; bundle_pred_init := Logic.I |}.
Section filters.
Context (filter_cfg : routing_config) (Hfc : routing_config_ok filter_cfg) (pages : gmap Z (list Z)) (T : Z → list Z → option message) (valid : Z → Prop).
(** The filter of a bundle, if it has one, has for each of its branches an entry with the
    number of the branch for each key of the branch; a lookup is defined up to 31. *)
Definition filter_covers (b : bundle) : Prop := Forall valid (branches b) ∧ (rf_addr (maplet b) ≠ 0 → lengthZ (branches b) ≤ 31 ∧
  ∃ F, holds_entries filter_cfg (maplet b) pages F ∧ Forall (λ e, e `mod` 2 ^ rf_value_size (maplet b) < lengthZ (branches b)) F ∧
    ∀ i a k, lookupZ (branches b) i = Some a → T a k ≠ None → has_value (maplet b) F (key_fingerprint filter_cfg k) i).
Program Definition filter_inv : bundle_inv := {| bundle_pred := filter_covers |}.
Next Obligation. split; [constructor|]. intros H. by destruct H. Qed.
Lemma bits_below r n : 0 ≤ n → (∀ v, n ≤ v → Z.testbit r v = false) → 0 ≤ r < 2 ^ n.
Proof using.
  intros Hn H. assert (r = r `mod` 2 ^ n) as ->; [|by apply Z.mod_pos_bound; lia]. apply Z.bits_inj'. intros i Hi.
  destruct (decide (i < n)); [by rewrite Z.mod_pow2_bits_low|]. rewrite Z.mod_pow2_bits_high by lia. apply H. lia.
Qed.
Lemma filter_covers_maplet k b : @bundle_ok filter_inv b → maplet_ok filter_cfg pages T valid k b.
Proof using Hfc.
  intros [Hnull [Hval Hf]]. split; [done|]. destruct (Z.eqb_spec (rf_addr (maplet b)) 0) as [E|Hne]; [by apply Hnull|].
  destruct (Hf Hne) as (Hlen & F & HF & Hsm & Hhas). split; [done|].
  assert (Forall (λ e, e `mod` 2 ^ rf_value_size (maplet b) < 64) F) as Hsm' by (eapply list.Forall_impl; [exact Hsm|]; cbn; lia).
  destruct (routing_filter_lookup_run filter_cfg (maplet b) pages F k Hfc HF Hsm') as (found & Hrun & Hbits).
  exists found. split; [done|]. split.
  - apply bits_below; [apply lengthZ_nonneg|]. intros v Hv. apply not_true_iff_false. intros Ht. apply Hbits in Ht; [|pose proof (lengthZ_nonneg (branches b)); lia].
    destruct Ht as [Hvr Hin]. apply (proj1 (list.Forall_forall _ _) Hsm) in Hin. rewrite Z.add_comm, Z_mod_plus_full, Z.mod_small in Hin by lia. lia.
  - intros i a Hi HT. apply Hbits; [apply lookupZ_Some in Hi; lia|]. by apply (Hhas i a).
Qed.
End filters.

(** ** Incorporation *)
(** From the prepared state to the end. *)
Definition finish_incorporation : M trunk_state unit := trunk_incorporate_commit;; trunk_incorporate_cleanup.
Lemma finish_incorporation_run {BI : bundle_inv} cfg s s1 B : ts_pre_incorporation_root s = None → prepared cfg s B s1 →
  ∃ s3, finish_incorporation s1 = Ret (tt, s3) ∧ trunk_ok cfg s3 ∧ ts_post_incorporation_root s3 = None ∧ ts_pre_incorporation_root s3 = None ∧
    ts_nodes s ⊆ ts_nodes s3 ∧ root_ok cfg s3 (ts_root s3) B.
Proof.
  intros Hpre (Hok & Hn & Hr & Hp & r & Hpost & HR). unfold finish_incorporation, trunk_incorporate_commit. eexists. split.
  { rewrite (bind_run _ _ s1 tt (with_roots (ts_post_incorporation_root s1) None (ts_root s1) s1)); [reflexivity|]. by rewrite run_get, run_assert by (rewrite Hp, Hpre; done). }
  cbn. rewrite Hpost. split_and!; try done. destruct Hok. by split.
Qed.
Lemma incorporate_run {BI : bundle_inv} cfg `{!key_order (tc_data_cfg cfg)} W count est_fp est_keys rough rflimit s branch B :
  trunk_env_ok cfg W count rough rflimit → trunk_ok cfg s → root_ok cfg s (ts_root s) B → ts_post_incorporation_root s = None → light cfg W NEGATIVE_INFINITY_KEY POSITIVE_INFINITY_KEY (λ k, branch :: B k) → bundle_pred (bundle_init_single NULL_ROUTING_FILTER branch) →
  ∃ n r s1, (∀ fuel, (n ≤ fuel)%nat → trunk_incorporate_prepare cfg count est_fp est_keys rough rflimit fuel branch s = Ret (r, s1)) ∧
    match r with
    | inl rc => rc ≠ STATUS_OK ∧ trunk_ok cfg s1 ∧ trunk_ext s s1
    | inr _ => prepared cfg s (λ k, branch :: B k) s1
    end.
Proof.
  intros Henv Hok HR Hpost Hw Hb. destruct (trunk_incorporate_prepare_run cfg W count est_fp est_keys rough rflimit Henv s branch B Hb Hok HR Hpost Hw) as (n & r & s1 & Hrun & HQ).
  exists n, r, s1. split; [done|]. destruct r as [rc|[]]; [|done]. by destruct HQ as [? [? ?]].
Qed.

Section plain.
#[local] Existing Instance no_inv.
(** C3: If the branches on a path weigh less than 2^32, in which their tuples and bytes are added up: with enough
    fuel, and always the same way, the preparation of an incorporation returns: no assertion of the
    trunk fails, whatever leaves and index nodes split, whichever children are flushed to and whatever the pages are,
    and the root stays as it was.  Either a page could not be had, and the trunk is still a tree with the same branches
    on the path of every key; or the commit and the cleanup return too, the new root is the root of a tree where the
    branch comes first on the path of every key and the others follow as before, and a reader of the old root still
    finds the old branches. *)
Theorem trunk_incorporate_adds_branch cfg `{!key_order (tc_data_cfg cfg)} W count est_fp est_keys rough rflimit s branch B :
  trunk_env_ok cfg W count rough rflimit → trunk_ok cfg s → root_ok cfg s (ts_root s) B →
  ts_post_incorporation_root s = None → ts_pre_incorporation_root s = None → light cfg W NEGATIVE_INFINITY_KEY POSITIVE_INFINITY_KEY (λ k, branch :: B k) →
  ∃ n r s1, (∀ fuel, (n ≤ fuel)%nat → trunk_incorporate_prepare cfg count est_fp est_keys rough rflimit fuel branch s = Ret (r, s1)) ∧
    ts_root s1 = ts_root s ∧ root_ok cfg s1 (ts_root s) B ∧
    match r with
    | inl rc => rc ≠ STATUS_OK ∧ trunk_ok cfg s1 ∧ ts_post_incorporation_root s1 = None
    | inr _ => ∃ s3, finish_incorporation s1 = Ret (tt, s3) ∧ trunk_ok cfg s3 ∧
        ts_post_incorporation_root s3 = None ∧ ts_pre_incorporation_root s3 = None ∧
        root_ok cfg s3 (ts_root s3) (λ k, branch :: B k) ∧ root_ok cfg s3 (ts_root s) B
    end.
Proof.
  intros Henv Hok HR Hpost Hpre Hw.
  destruct (incorporate_run cfg W count est_fp est_keys rough rflimit s branch B Henv Hok HR Hpost Hw Logic.I) as (n & r & s1 & Hrun & HQ). exists n, r, s1. split; [done|].
  destruct r as [rc|[]].
  - destruct HQ as (Hrc & Hok1 & [H1 H2 H3 H4]). split; [done|]. split; [by eapply root_ok_store|]. by rewrite H3.
  - pose proof HQ as (Hok1 & Hn & Hr & _). split; [done|]. split; [by eapply root_ok_store|].
    destruct (finish_incorporation_run cfg s s1 _ Hpre HQ) as (s3 & Hf & Hok3 & Hp1 & Hp2 & Hn3 & HR3). exists s3. split_and!; try done. by eapply root_ok_store.
Qed.
End plain.

(** ** Lookups *)
(** The root for a lookup, of [trunk_init_root_handle]. *)
Definition trunk_init_root_handle (s : trunk_state) : option Z := ref_addr <$> ts_root s.
Section lookups.
Context (cfg : trunk_config) `{!key_order (tc_data_cfg cfg)} (filter_cfg : routing_config) (pages : gmap Z (list Z)).
Context {W : Type} `{!branch_source W} (inv : W → Prop) (T : Z → list Z → option message) (valid : Z → Prop) `{!branch_source_laws W (tc_data_cfg cfg) inv T valid}.
#[local] Instance trunk_filters : bundle_inv := filter_inv filter_cfg pages T valid.
Lemma root_lookup_run s root B k result w : routing_config_ok filter_cfg → root_ok cfg s root B → key_small (USER_KEY k) → inv w →
  ∃ n, ∀ fuel, (n ≤ fuel)%nat → ∃ w', trunk_merge_lookup cfg filter_cfg (ts_nodes s) pages fuel (ref_addr <$> root) (USER_KEY k) result w =
      Ret (merge_branches (tc_data_cfg cfg) (λ b, T b k) k (B (USER_KEY k)) result, w') ∧ inv w'.
Proof using key_order0 branch_source_laws0.
  intros Hfc HR Hk Hw. destruct root as [r|].
  - destruct HR as (_ & h & HT). exists (S h). intros fuel Hf.
    apply (trunk_merge_lookup_run cfg filter_cfg (ts_nodes s) pages inv T valid k Hk (λ b, filter_covers_maplet filter_cfg Hfc pages T valid k b)
      h NEGATIVE_INFINITY_KEY POSITIVE_INFINITY_KEY); done.
  - exists 0%nat. intros fuel _. exists w. rewrite (HR _). by destruct fuel.
Qed.
(** C10: A lookup of a key from the root returns what the merge of the messages of the key in the branches on its path
    gives, from the newest branch on and over what newer trees had: the search of each node finds the child of the
    key, the filters leave out no branch that has it, and stopping at a definitive message changes nothing. *)
Theorem trunk_merge_lookup_merges s B k result w : routing_config_ok filter_cfg → root_ok cfg s (ts_root s) B → key_small (USER_KEY k) → inv w →
  ∃ n, ∀ fuel, (n ≤ fuel)%nat → ∃ w', trunk_merge_lookup cfg filter_cfg (ts_nodes s) pages fuel (trunk_init_root_handle s) (USER_KEY k) result w =
      Ret (merge_branches (tc_data_cfg cfg) (λ b, T b k) k (B (USER_KEY k)) result, w') ∧ inv w'.
Proof using key_order0 branch_source_laws0. apply root_lookup_run. Qed.
(** C4: A lookup after an incorporation that succeeded merges the message of the new branch first and then what a lookup
    before it merged; a lookup that still holds the old root merges what it did before. *)
Theorem trunk_lookup_after_incorporate weights count est_fp est_keys rough rflimit s branch B :
  trunk_env_ok cfg weights count rough rflimit → routing_config_ok filter_cfg → trunk_ok cfg s → root_ok cfg s (ts_root s) B →
  ts_post_incorporation_root s = None → ts_pre_incorporation_root s = None → light cfg weights NEGATIVE_INFINITY_KEY POSITIVE_INFINITY_KEY (λ k, branch :: B k) → valid branch →
  ∃ n r s1, (∀ fuel, (n ≤ fuel)%nat → trunk_incorporate_prepare cfg count est_fp est_keys rough rflimit fuel branch s = Ret (r, s1)) ∧
    (r = inr tt → ∃ s3, finish_incorporation s1 = Ret (tt, s3) ∧ ∀ k result w, key_small (USER_KEY k) → inv w → ∃ n, ∀ fuel, (n ≤ fuel)%nat → ∃ w1 w2,
      trunk_merge_lookup cfg filter_cfg (ts_nodes s3) pages fuel (trunk_init_root_handle s3) (USER_KEY k) result w =
        Ret (merge_branches (tc_data_cfg cfg) (λ b, T b k) k (branch :: B (USER_KEY k)) result, w1) ∧ inv w1 ∧
      trunk_merge_lookup cfg filter_cfg (ts_nodes s3) pages fuel (trunk_init_root_handle s) (USER_KEY k) result w =
        Ret (merge_branches (tc_data_cfg cfg) (λ b, T b k) k (B (USER_KEY k)) result, w2) ∧ inv w2).
Proof using key_order0 branch_source_laws0.
  intros Henv Hfc Hok HR Hpost Hpre Hw0 Hv.
  assert (bundle_pred (bundle_init_single NULL_ROUTING_FILTER branch)) as Hb by (split; [by constructor|by intros []]).
  destruct (incorporate_run cfg weights count est_fp est_keys rough rflimit s branch B Henv Hok HR Hpost Hw0 Hb) as (n & r & s1 & Hrun & HQ). exists n, r, s1. split; [done|].
  intros ->. destruct (finish_incorporation_run cfg s s1 _ Hpre HQ) as (s3 & Hf & _ & _ & _ & Hn3 & HR3). exists s3. split; [done|].
  intros k result w Hk Hw. destruct (root_lookup_run s3 _ _ k result w Hfc HR3 Hk Hw) as (n1 & H1).
  destruct (root_lookup_run s3 (ts_root s) B k result w Hfc (root_ok_store cfg s s3 _ _ Hn3 HR) Hk Hw) as (n2 & H2).
  exists (n1 `max` n2)%nat. intros fuel Hfuel. destruct (H1 fuel ltac:(lia)) as (w1 & ? & ?), (H2 fuel ltac:(lia)) as (w2 & ? & ?). by exists w1, w2.
Qed.

(** With the same merge in its place, a list of branches may be replaced in the middle. *)
Lemma merge_replaced args inputs k l l' result :
  (∀ data, merge_branches (tc_data_cfg cfg) (λ b, T b k) k (reverse (new_branches args)) data = merge_branches (tc_data_cfg cfg) (λ b, T b k) k (newest inputs) data) →
  replaced args inputs l l' → merge_branches (tc_data_cfg cfg) (λ b, T b k) k l' result = merge_branches (tc_data_cfg cfg) (λ b, T b k) k l result.
Proof using. intros Hm (pre & post & -> & ->). rewrite !(merge_app _ _ _ pre). cbv zeta. destruct (SUCCESS _); [|done]. by rewrite !merge_app, Hm. Qed.
(** C5: Applying a compaction to the trunk, given that a pivot that matches it counts at least the tuples and bytes the
    compaction takes off (the assertions of trunk_pivot_add_tuple_counts), and that the new filter has an entry with the
    number of the branch for each key of the branches of the bundle and of the new branches: it returns, no assertion
    fails, and either a page could not be had, when the root is as it was, or there is a new tree, whose filters, the
    new one in the place of the old, cover its branches.  In it the keys of the range have the new branches in the place
    of those of the bundles that were merged, if the pivot was found, and all other keys, and all keys if it was not,
    have the branches they had.  So if for every key the new branches merge to what the old ones did, whatever newer
    ones had, every lookup returns what it did before. *)
Theorem compaction_keeps_lookups args (h : nat) s root B :
  routing_config_ok filter_cfg → trunk_ok cfg s → ts_root s = Some root → root_ok cfg s (ts_root s) B → args_ok cfg args →
  counts_suffice cfg args (ts_nodes s) → filter_suffices cfg args (ts_nodes s) →
  (∃ od, ts_nodes s !! ref_addr root = Some od ∧ Z.of_nat h ≤ od_height od) →
  ∃ n r s1, (∀ fuel, (n ≤ fuel)%nat → trunk_apply_changes cfg (aa_key args) (aa_ubkey args) (Z.of_nat h) (trunk_apply_changes_maplet_compaction cfg args) fuel s = Ret (r, s1)) ∧
    match r with
    | inl rc => rc ≠ STATUS_OK ∧ trunk_ok cfg s1 ∧ ts_root s1 = ts_root s ∧ root_ok cfg s1 (ts_root s1) B
    | inr found => trunk_ok cfg s1 ∧ ∃ B' inputs, root_ok cfg s1 (ts_root s1) B' ∧ (found = true → inputs_ok args inputs) ∧
        (∀ k, key_small (USER_KEY k) → if found && inside cfg args (USER_KEY k) then replaced args inputs (B (USER_KEY k)) (B' (USER_KEY k)) else B' (USER_KEY k) = B (USER_KEY k)) ∧
        ((∀ k data, found && inside cfg args (USER_KEY k) = true → merge_branches (tc_data_cfg cfg) (λ b, T b k) k (reverse (new_branches args)) data =
            merge_branches (tc_data_cfg cfg) (λ b, T b k) k (newest inputs) data) →
         ∀ k result w, key_small (USER_KEY k) → inv w → ∃ n, ∀ fuel, (n ≤ fuel)%nat → ∃ v w1 w2,
           trunk_merge_lookup cfg filter_cfg (ts_nodes s1) pages fuel (trunk_init_root_handle s1) (USER_KEY k) result w = Ret (v, w1) ∧
           trunk_merge_lookup cfg filter_cfg (ts_nodes s) pages fuel (trunk_init_root_handle s) (USER_KEY k) result w = Ret (v, w2))
    end.
Proof using key_order0 branch_source_laws0.
  intros Hfc Hok Hroot HR Hargs Hcounts Hfilter (od & Hod & Hht). pose proof (both_fit cfg args _ Hcounts Hfilter) as Hfits. rewrite Hroot in HR. destruct HR as (Hrk & h' & HT).
  assert (h ≤ h')%nat as Hle by (destruct h'; destruct HT as (_ & _ & od' & Hod' & Eh & _); assert (od' = od) as -> by congruence; lia).
  destruct (apply_changes_run cfg args Hargs (ts_nodes s) Hfits h s root B h' Hok eq_refl Hroot Hrk Hle HT) as (n & r & s1 & Hrun & HQ). exists n, r, s1. split; [done|].
  destruct r as [rc|found].
  - destruct HQ as (Hrc & Hok1 & [H1 H2 H3 H4]). split_and!; try done. rewrite H2, Hroot. split; [done|]. exists h'. by eapply tree_store.
  - destruct HQ as (Hok1 & Hn & _ & _ & r' & B' & Hr' & Hrk' & HT' & Hch). split; [done|].
    assert (∃ inputs, (found = true → inputs_ok args inputs) ∧ ∀ k, key_small (USER_KEY k) →
      if found && inside cfg args (USER_KEY k) then replaced args inputs (B (USER_KEY k)) (B' (USER_KEY k)) else B' (USER_KEY k) = B (USER_KEY k)) as (inputs & Hin & HB).
    { destruct Hch as [[-> H]|(-> & _ & _ & inputs & Hin & H)]; [exists []|exists inputs]; (split; [done|]); intros k Hk; by apply H. }
    assert (root_ok cfg s1 (ts_root s1) B') as HR' by (rewrite Hr'; split; [done|]; by exists h').
    exists B', inputs. split_and!; try done. intros Hm k result w Hk Hw.
    destruct (root_lookup_run s1 _ _ k result w Hfc HR' Hk Hw) as (n1 & H1).
    destruct (root_lookup_run s (ts_root s) B k result w Hfc ltac:(rewrite Hroot; split; [done|by exists h']) Hk Hw) as (n2 & H2).
    exists (n1 `max` n2)%nat. intros fuel Hfuel. destruct (H1 fuel ltac:(lia)) as (w1 & L1 & _), (H2 fuel ltac:(lia)) as (w2 & L2 & _).
    eexists _, w1, w2. split; [exact L1|]. unfold trunk_init_root_handle. rewrite L2. do 2 f_equal. specialize (HB k Hk).
    destruct (found && inside cfg args (USER_KEY k)) eqn:E; [|by rewrite HB]. symmetry. apply (merge_replaced args inputs k); [|done]. intros data. by apply Hm.
Qed.
End lookups.

(** ** The branches of a range *)
Section ranges.
#[local] Existing Instance no_inv.
(** C14: with room for the branches, a range query gets, behind what it had, the branches on the path of its key from the
    newest to the oldest, each with one more reference, and a range around the key (for a search of smaller keys, one that
    ends at it or after) for every key of which these are the branches on the path: the query may read them alone up to
    the end of the range. *)
Theorem trunk_collect_branches_range cfg `{!key_order (tc_data_cfg cfg)} s B capacity tgt start_type cs :
  root_ok cfg s (ts_root s) B → key_small tgt → found_in cfg (find_type start_type) NEGATIVE_INFINITY_KEY POSITIVE_INFINITY_KEY tgt →
  0 ≤ cs_count cs → (∀ k, key_small k → cs_count cs + lengthZ (B k) ≤ capacity) → capacity < 2 ^ 64 →
  ∃ n, ∀ fuel, (n ≤ fuel)%nat → ∃ a b cs' l,
    trunk_collect_branches cfg (ts_nodes s) capacity fuel (trunk_init_root_handle s) tgt start_type cs = Ret ((COLLECTED, a, b), cs') ∧
    found_in cfg (find_type start_type) a b tgt ∧ (∀ k, in_range cfg a b k → B k = l) ∧
    cs_branches cs' = cs_branches cs ++ ((λ a, (a, PAGE_TYPE_BRANCH)) <$> l) ∧ cs_count cs' = cs_count cs + lengthZ l ∧
    ∀ x, cs_refs cs' x = cs_refs cs x + Z.of_nat (count_occ Z.eq_dec l x).
Proof.
  intros HR Ht Hin H0 HB Hcap. unfold trunk_init_root_handle. destruct (ts_root s) as [r|].
  - destruct HR as (_ & h & HT). exists (S h). intros fuel Hf.
    destruct (collect_loop_run cfg (ts_nodes s) capacity Hcap start_type tgt h NEGATIVE_INFINITY_KEY POSITIVE_INFINITY_KEY (ref_addr r) B cs fuel)
      as (a & b & cs' & Hrun & (_ & _ & _ & _ & Hab & l & [H1 H2 H3] & Hl)); try done.
    { intros k [Hk _]. by apply HB. }
    exists a, b, cs', l. split; [|done]. unfold trunk_collect_branches. by rewrite run_get, (bind_run _ _ _ _ _ Hrun).
  - exists 0%nat. intros fuel _. exists NEGATIVE_INFINITY_KEY, POSITIVE_INFINITY_KEY, cs, []. split; [by destruct fuel|]. split; [done|]. split; [intros k _; apply HR|].
    cbn. rewrite app_nil_r. split_and!; [done|unfold lengthZ; cbn; lia|intros x; lia].
Qed.
End ranges.

(** C40: When the room ends after [j] branches of a bundle, the count that is left is not that before the bundle, to
    which the caller's cleanup would go back, but [j] more and less by the number of branches that were not reached,
    with a wrap. *)
Theorem collect_limit_count capacity b s j : 0 ≤ cs_count s → capacity < 2 ^ 64 → cs_count s + Z.of_nat j = capacity → (j < length (branches b))%nat →
  ∃ s', collect_bundle capacity b s = Ret (LIMIT_EXCEEDED, s') ∧ cs_refs s' = cs_refs s ∧
    cs_branches s' = cs_branches s ++ ((λ a, (a, PAGE_TYPE_BRANCH)) <$> take j (reverse (branches b))) ∧
    cs_count s' = u64 (cs_count s + Z.of_nat j - (lengthZ (branches b) - 1 - Z.of_nat j)).
Proof.
  intros H0 Hcap Hj Hlen.
  assert (∀ i s, (i < length (branches b))%nat → (∃ m, cs_count s + Z.of_nat m = capacity ∧ (m ≤ i)%nat ∧ 0 ≤ cs_count s) → ∃ s' m, cs_count s + Z.of_nat m = capacity ∧
      trunk_collect_bundle_branches capacity b (S i) s = Ret (LIMIT_EXCEEDED, s') ∧ cs_refs s' = cs_refs s ∧
      cs_branches s' = cs_branches s ++ ((λ a, (a, PAGE_TYPE_BRANCH)) <$> take m (reverse (take (S i) (branches b)))) ∧
      cs_count s' = u64 (capacity - (Z.of_nat i - Z.of_nat m))) as HH.
  { clear s j H0 Hj Hlen. induction i as [|i IH]; intros s Hi (m & Hm & Hmi & H0); cbn [trunk_collect_bundle_branches]; rewrite run_get;
      (destruct (Z.eqb_spec (cs_count s) capacity) as [E|Hne]; [eexists _, 0%nat; split; [lia|]; split; [reflexivity|]; cbn [cs_branches cs_refs cs_count take fmap list_fmap]; rewrite app_nil_r; split_and!; [done|done|f_equal; lia]|]).
    - lia.
    - destruct (lookup_lt_is_Some_2 (branches b) (S i) Hi) as [a Ha]. rewrite (run_opt _ _ _ _ Ha), run_put.
      destruct m as [|m]; [lia|]. edestruct (IH (mk_collect_state (cs_branches s ++ [(a, trunk_ondisk_bundle_branch_type b)]) (u64 (cs_count s + 1)) (cs_refs s)) ltac:(lia))
        as (s' & m' & Hm' & Hrun & Hr & Hbr & Hc); [exists m; cbn; rewrite u64_small by lia; lia|]. cbn [cs_count cs_branches cs_refs] in *. rewrite u64_small in Hm' by lia.
      exists s', (S m'). split; [lia|]. split; [exact Hrun|]. split; [done|]. rewrite Hbr, Hc. split; [|f_equal; lia].
      rewrite (take_S_r (branches b) _ _ Ha), reverse_snoc, branch_type. cbn [take fmap list_fmap]. by rewrite <- app_assoc. }
  destruct (length (branches b)) as [|len] eqn:El; [lia|]. destruct (HH len s ltac:(lia)) as (s' & m & Hm & Hrun & Hr & Hbr & Hc); [exists j; lia|].
  assert (m = j) as -> by lia. exists s'. unfold collect_bundle. rewrite El, (bind_run _ _ _ _ _ Hrun). split; [done|]. split; [done|].
  rewrite (take_ge (branches b)) in Hbr by lia. split; [done|]. rewrite Hc. f_equal. unfold lengthZ. rewrite El. lia.
Qed.

(** The query does not come back to its caller's count then: it takes back references of
    entries that were never written. *)
Lemma dec_branches_out n first s : lengthZ (cs_branches s) < first + Z.of_nat n → 0 ≤ first → (0 < n)%nat → dec_branches n first s = Undef.
Proof.
  revert first s. induction n as [|n IH]; intros first s Hl H0 Hn; [lia|]. cbn [dec_branches]. rewrite run_get.
  destruct (lookupZ (cs_branches s) first) as [br|] eqn:E; [|done].
  rewrite (run_opt _ _ _ _ eq_refl), run_put. apply lookupZ_Some in E. apply IH; cbn; lia.
Qed.
Definition full_node : trunk_ondisk_node :=
  mk_trunk_ondisk_node 0 [mk_trunk_ondisk_pivot TRUNK_STATS_ZERO 0 1 NEGATIVE_INFINITY_KEY (Some bundle_init); mk_trunk_ondisk_pivot TRUNK_STATS_ZERO 0 0 POSITIVE_INFINITY_KEY None]
    [mk_bundle NULL_ROUTING_FILTER [4; 5; 6; 7]].
Example collect_limit_undefined :
  trunk_collect_branches (mk_trunk_config append_data 10 2) {[8192 := full_node]} 1 1 (Some 8192) (USER_KEY [1]) greater_than (mk_collect_state [] 0 (λ _, 1)) = Undef.
Proof.
  unfold trunk_collect_branches. rewrite run_get.
  assert (collect_loop (mk_trunk_config append_data 10 2) {[8192 := full_node]} 1 1 (Some 8192) (USER_KEY [1]) greater_than (mk_collect_state [] 0 (λ _, 1)) =
    Ret ((LIMIT_EXCEEDED, NEGATIVE_INFINITY_KEY, POSITIVE_INFINITY_KEY), mk_collect_state [(7, PAGE_TYPE_BRANCH)] (2 ^ 64 - 1) (λ _, 1))) as Hrun by by vm_compute.
  cbv zeta. rewrite (bind_run _ _ _ _ _ Hrun). cbn [fst snd cs_count]. rewrite run_get. cbn [cs_count]. unfold mbind, M_bind at 1. rewrite dec_branches_out; [done|..]; cbn [cs_branches]; try lia. change (lengthZ _) with 1. lia.
Qed.
(** The pivot that a search returns need not be on the page that it holds. *)
Example find_pivot_page_released :
  match trunk_ondisk_node_find_pivot (W := unit) (mk_trunk_config append_data 10 2) (λ i, 4096 * i)
    (mk_trunk_ondisk_node 1 ((λ k, mk_trunk_ondisk_pivot TRUNK_STATS_ZERO 512 0 k (Some bundle_init)) <$> [NEGATIVE_INFINITY_KEY; USER_KEY [1]; USER_KEY [2]; USER_KEY [3]; POSITIVE_INFINITY_KEY]) [])
    (USER_KEY [2]) less_than_or_equal tt
  with Ret ((p, page), _) => Some (od_key p, page) | _ => None end = Some (USER_KEY [2], Some (4096 * 3)).
Proof. vm_compute. reflexivity. Qed.

(** Two branches of 2^31 bytes of keys, received at once, count as none. *)
Example counts_wrap : trunk_pivot_stats_from_btree_pivot_stats
  (accumulate_inflight_bundle_tuple_counts_in_range (λ _ _ _, mk_pivot_stats 1 (2 ^ 31) 0) NEGATIVE_INFINITY_KEY POSITIVE_INFINITY_KEY
     (mk_pivot_stats 0 0 0) (mk_bundle NULL_ROUTING_FILTER [4; 5])) = mk_trunk_pivot_stats 0 2.
Proof. reflexivity. Qed.

(** ** A trunk to evaluate *)
Section sample.
#[local] Existing Instance no_inv.
(** A fanout of 2, incorporations of 10 bytes; each branch has one tuple of 4 bytes in
    every range. *)
Definition sample_trunk : trunk_config := mk_trunk_config append_data 10 2.
Definition sample_count (_ : Z) (_ _ : key) : btree_pivot_stats := mk_pivot_stats 1 2 2.
Definition sample_keys : list key := (λ i, USER_KEY [i]) <$> seqZ 1 20.
Definition sample_rough (_ : list Z) (lo hi : key) : list (key * btree_pivot_stats) :=
  (λ k, (k, mk_pivot_stats 1 2 2)) <$> filter (λ k, data_key_compare append_data lo k < 0 ∧ data_key_compare append_data k hi < 0) sample_keys.
Definition empty_trunk : trunk_state :=
  mk_trunk_state ∅ None None None (λ _ _, 0) [] ((λ i, Some (4096 * i)) <$> seqZ 16 32) [] [].
#[export] Instance sample_order : key_order (tc_data_cfg sample_trunk).
Proof. by apply lex_order. Qed.
Lemma increasing_filter lo hi c l : key_lt sample_trunk c hi → StronglySorted (key_lt sample_trunk) l → Forall key_small l →
  (∀ k, k ∈ l → key_lt sample_trunk lo k → key_lt sample_trunk c k) →
  increasing sample_trunk c hi (filter (λ k, data_key_compare append_data lo k < 0 ∧ data_key_compare append_data k hi < 0) l).
Proof.
  revert c. induction l as [|k l IH]; intros c Hlt Hs Hsm Hb; [done|]. apply StronglySorted_cons in Hs as [Hk Hs].
  apply list.Forall_cons in Hsm as [Hsk Hsm]. destruct (decide (data_key_compare append_data lo k < 0 ∧ data_key_compare append_data k hi < 0)) as [Hd|Hd].
  - rewrite list.filter_cons_True by done. destruct Hd as [H1 H2]. split; [done|]. split; [apply Hb; [left|done]|]. apply IH; try done.
    intros j Hj _. by apply (proj1 (list.Forall_forall _ _) Hk).
  - rewrite list.filter_cons_False by done. apply IH; try done. intros j Hj. apply Hb. by right.
Qed.
(** The order on the sample keys, decided. *)
Fixpoint sorted_keys (l : list key) : bool :=
  match l with [] => true | k :: l => forallb (λ j, data_key_compare append_data k j <? 0) l && sorted_keys l end.
Lemma sorted_keys_spec l : sorted_keys l = true → StronglySorted (key_lt sample_trunk) l.
Proof.
  induction l as [|k l IH]; [constructor|]. cbn. intros H. apply andb_true_iff in H as [H1 H2]. constructor; [by apply IH|].
  apply list.Forall_forall. intros j Hj. apply list_elem_of_In in Hj. by apply (proj1 (forallb_forall _ _) H1 j), Z.ltb_lt in Hj.
Qed.
Lemma sample_keys_sorted : StronglySorted (key_lt sample_trunk) sample_keys.
Proof. apply sorted_keys_spec. vm_compute. reflexivity. Qed.
Lemma sample_keys_small : Forall key_small sample_keys.
Proof. apply list.Forall_fmap, list.Forall_forall. intros i _. unfold key_small, key_length. cbn. unfold lengthZ. cbn. lia. Qed.
Lemma sample_env : trunk_env_ok sample_trunk (λ _, 4) sample_count sample_rough 100.
Proof.
  split; try done. intros brs lo hi Hlo Hhi Hlt. unfold sample_rough. rewrite <- list_fmap_compose, list_fmap_id.
  apply increasing_filter; [exact Hlt|exact sample_keys_sorted|exact sample_keys_small|by intros k _].
Qed.
Lemma empty_trunk_ok : trunk_ok sample_trunk empty_trunk.
Proof.
  split; [|intros k h; cbn; lia]. split; [by apply (bool_decide_unpack _); vm_compute|].
  assert (Forall (λ o : option Z, default 16 o ≠ 0 ∧ Z.land (default 16 o) TRUNK_PIVOT_ADDR_MASK = default 16 o) (ts_allocs empty_trunk)) as HF
    by (apply (bool_decide_unpack _); by vm_compute).
  intros a Ha. by apply (proj1 (list.Forall_forall _ _) HF) in Ha as [??].
Qed.
Definition incorporate (fuel : nat) (branch : Z) : E unit :=
  _ ←? trunk_incorporate_prepare sample_trunk sample_count (λ _, 0) (λ n, n) sample_rough 100 fuel branch;
  finish_incorporation;; eret tt.
(** Ten incorporations in a row, starting from nothing: the nodes written and the height
    of the root; and the branches that a lookup visits when no branch has the key. *)
Definition ten_done : option trunk_state :=
  match (_ ←? emap (incorporate 20) [1; 2; 3; 4; 5; 6; 7; 8; 9; 10]; eret tt) empty_trunk with Ret (inr _, s) => Some s | _ => None end.
Definition visited : branch_source (list Z) := λ addr _ _ data w, Ret ((STATUS_OK, data, false), w ++ [addr]).
Example ten_incorporations :
  (λ s, (size (ts_nodes s), match ts_root s with Some r => od_height <$> ts_nodes s !! ref_addr r | None => None end)) <$> ten_done = Some (22%nat, Some 3).
Proof. vm_compute. reflexivity. Qed.
Example ten_visited :
  (λ s, match @trunk_merge_lookup sample_trunk sample_config (list Z) visited (ts_nodes s) ∅ 5 (trunk_init_root_handle s) (USER_KEY [5]) None [] with
        | Ret (_, w) => w | _ => [] end) <$> ten_done = Some [10; 9; 8; 7; 6; 5; 4; 3; 2; 1].
Proof. vm_compute. reflexivity. Qed.

(** ** Witnesses *)
Lemma empty_trunk_root : root_ok sample_trunk empty_trunk (ts_root empty_trunk) (λ _, []).
Proof. done. Qed.
Lemma empty_light b : light sample_trunk (λ _, 4) NEGATIVE_INFINITY_KEY POSITIVE_INFINITY_KEY (λ _, [b]).
Proof. by intros k _. Qed.
Lemma trunk_incorporate_adds_branch_witness : ∃ n r s1,
  (∀ fuel, (n ≤ fuel)%nat → trunk_incorporate_prepare sample_trunk sample_count (λ _, 0) (λ n, n) sample_rough 100 fuel 1 empty_trunk = Ret (r, s1)) ∧
  ts_root s1 = None ∧ root_ok sample_trunk s1 None (λ _, []) ∧
  match r with
  | inl rc => rc ≠ STATUS_OK ∧ trunk_ok sample_trunk s1 ∧ ts_post_incorporation_root s1 = None
  | inr _ => ∃ s3, finish_incorporation s1 = Ret (tt, s3) ∧ trunk_ok sample_trunk s3 ∧
      ts_post_incorporation_root s3 = None ∧ ts_pre_incorporation_root s3 = None ∧
      root_ok sample_trunk s3 (ts_root s3) (λ k, [1]) ∧ root_ok sample_trunk s3 None (λ _, [])
  end.
Proof.
  exact (trunk_incorporate_adds_branch sample_trunk (λ _, 4) sample_count (λ _, 0) (λ n, n) sample_rough 100 empty_trunk 1 (λ _, []) sample_env empty_trunk_ok empty_trunk_root eq_refl eq_refl (empty_light 1)).
Defined.
Definition four_branches : bundle := mk_bundle NULL_ROUTING_FILTER [4; 5; 6; 7].
Lemma collect_limit_count_witness : ∃ s', collect_bundle 1 four_branches (mk_collect_state [] 0 (λ _, 1)) = Ret (LIMIT_EXCEEDED, s') ∧ cs_refs s' = (λ _, 1) ∧
  cs_branches s' = [(7, PAGE_TYPE_BRANCH)] ∧ cs_count s' = 2 ^ 64 - 1.
Proof. apply (collect_limit_count 1 four_branches (mk_collect_state [] 0 (λ _, 1)) 1); [done|done|done|cbn; lia]. Defined.

(** A leaf for all keys, with one branch, and an empty tree as that branch. *)
Definition sample_leaf : trunk_ondisk_node :=
  mk_trunk_ondisk_node 0 [mk_trunk_ondisk_pivot TRUNK_STATS_ZERO 0 1 NEGATIVE_INFINITY_KEY (Some bundle_init); mk_trunk_ondisk_pivot TRUNK_STATS_ZERO 0 0 POSITIVE_INFINITY_KEY None]
    [bundle_init_single NULL_ROUTING_FILTER 4096].
Definition leaf_trunk : trunk_state :=
  mk_trunk_state {[8192 := sample_leaf]} (Some (mk_node_ref NEGATIVE_INFINITY_KEY 8192)) None None (λ _ _, 0) [] ((λ i, Some (4096 * i)) <$> seqZ 16 32) [] [].
Lemma leaf_trunk_ok : trunk_ok sample_trunk leaf_trunk.
Proof.
  destruct empty_trunk_ok as [[H1 H2] H3]. split; [|done]. split; [done|]. intros a Ha. destruct (H2 a Ha) as (? & ? & _). split_and!; try done.
  cbn in Ha |- *. rewrite lookup_singleton_ne; [done|]. intros <-. revert Ha. apply (bool_decide_unpack _). by vm_compute.
Qed.
Lemma leaf_trunk_root {BI : bundle_inv} : bundle_pred (bundle_init_single NULL_ROUTING_FILTER 4096) → root_ok sample_trunk leaf_trunk (ts_root leaf_trunk) (λ _, [4096]).
Proof.
  intros Hb. split; [done|]. exists 0%nat. split; [done|]. split; [done|]. exists sample_leaf. split; [done|]. split; [done|].
  split; [by constructor|]. exists [mk_trunk_ondisk_pivot TRUNK_STATS_ZERO 0 1 NEGATIVE_INFINITY_KEY (Some bundle_init)]. eexists.
  split_and!; try done. exists POSITIVE_INFINITY_KEY. split; [done|]. split; [done|]. split; [|done].
  split; [done|]. split; [done|]. split; [cbn; unfold lengthZ; cbn; lia|]. exists bundle_init. split; [done|]. split; [apply bundle_ok_init|]. split; [done|]. by intros k _.
Qed.
Definition sample_world (_ : Z) : tree_state Z := empty_tree.
Definition sample_valid (a : Z) : Prop := a = 4096.
Definition sample_branches : branch_source (Z → tree_state Z) := btree_branches small_pages.
Definition sample_map (_ : Z) (k : list Z) : option message := tuple_lookup small_pages [] (USER_KEY k).
Definition sample_inv : (Z → tree_state Z) → Prop := btrees_state small_pages sample_valid (λ _, []).
Definition sample_laws : @branch_source_laws (Z → tree_state Z) sample_branches append_data sample_inv sample_map sample_valid.
Proof. by apply (btree_branches_laws small_pages sample_valid (λ _, [])). Defined.
Lemma sample_world_ok : sample_inv sample_world.
Proof. intros a ->. exists 0%nat. apply empty_tree_state. Qed.
Lemma trunk_merge_lookup_merges_witness : ∃ n, ∀ fuel, (n ≤ fuel)%nat → ∃ w',
  @trunk_merge_lookup sample_trunk sample_config (Z → tree_state Z) sample_branches (ts_nodes leaf_trunk) ∅ fuel (Some 8192) (USER_KEY [1]) (Some one_message) sample_world =
    Ret ((STATUS_OK, Some one_message), w') ∧ sample_inv w'.
Proof.
  apply (@trunk_merge_lookup_merges sample_trunk sample_order sample_config ∅ (Z → tree_state Z) sample_branches sample_inv sample_map sample_valid sample_laws
    leaf_trunk (λ _, [4096]) [1] (Some one_message) sample_world sample_config_ok).
  - apply leaf_trunk_root. split; [by constructor|by intros []].
  - done.
  - exact sample_world_ok.
Defined.
Lemma trunk_lookup_after_incorporate_witness : ∃ n r s1,
  (∀ fuel, (n ≤ fuel)%nat → trunk_incorporate_prepare sample_trunk sample_count (λ _, 0) (λ n, n) sample_rough 100 fuel 4096 empty_trunk = Ret (r, s1)) ∧
  (r = inr tt → ∃ s3, finish_incorporation s1 = Ret (tt, s3) ∧ ∀ k result w, key_small (USER_KEY k) → sample_inv w → ∃ n, ∀ fuel, (n ≤ fuel)%nat → ∃ w1 w2,
    @trunk_merge_lookup sample_trunk sample_config _ sample_branches (ts_nodes s3) ∅ fuel (trunk_init_root_handle s3) (USER_KEY k) result w =
      Ret (merge_branches append_data (λ b, sample_map b k) k [4096] result, w1) ∧ sample_inv w1 ∧
    @trunk_merge_lookup sample_trunk sample_config _ sample_branches (ts_nodes s3) ∅ fuel None (USER_KEY k) result w = Ret ((STATUS_OK, result), w2) ∧ sample_inv w2).
Proof.
  exact (@trunk_lookup_after_incorporate sample_trunk sample_order sample_config ∅ (Z → tree_state Z) sample_branches sample_inv sample_map sample_valid sample_laws
    (λ _, 4) sample_count (λ _, 0) (λ n, n) sample_rough 100 empty_trunk 4096 (λ _, []) sample_env sample_config_ok empty_trunk_ok empty_trunk_root eq_refl eq_refl (empty_light 4096) eq_refl).
Defined.
Lemma trunk_collect_branches_range_witness : ∃ n, ∀ fuel, (n ≤ fuel)%nat → ∃ a b cs' l,
  trunk_collect_branches sample_trunk (ts_nodes leaf_trunk) 4 fuel (Some 8192) (USER_KEY [1]) greater_than (mk_collect_state [] 0 (λ _, 1)) = Ret ((COLLECTED, a, b), cs') ∧
  found_in sample_trunk less_than_or_equal a b (USER_KEY [1]) ∧ (∀ k, in_range sample_trunk a b k → [4096] = l) ∧
  cs_branches cs' = ((λ a, (a, PAGE_TYPE_BRANCH)) <$> l) ∧ cs_count cs' = lengthZ l ∧ ∀ x, cs_refs cs' x = 1 + Z.of_nat (count_occ Z.eq_dec l x).
Proof.
  apply (trunk_collect_branches_range sample_trunk leaf_trunk (λ _, [4096]) 4 (USER_KEY [1]) greater_than (mk_collect_state [] 0 (λ _, 1))); try done.
  by apply leaf_trunk_root.
Defined.

(** The leaf's bundle is compacted to nothing, as its branch is empty. *)
Definition sample_args : maplet_compaction_apply_args :=
  mk_apply_args NEGATIVE_INFINITY_KEY POSITIVE_INFINITY_KEY NULL_ROUTING_FILTER [[4096]] 1 NULL_ROUTING_FILTER [] TRUNK_STATS_ZERO.
Lemma sample_args_ok : args_ok sample_trunk sample_args.
Proof. split; try done. by exists 4096, [], []. Qed.
Lemma sample_matches (P : trunk_pivot → bundle → Prop) :
  P (mk_trunk_pivot TRUNK_STATS_ZERO TRUNK_STATS_ZERO 0 0 false NEGATIVE_INFINITY_KEY) bundle_init → matches sample_trunk sample_args (ts_nodes leaf_trunk) P.
Proof.
  intros HP s addr n s' [od Hod] Hs. cbn in Hod. apply lookup_singleton_Some in Hod as [<- <-]. change (ts_nodes leaf_trunk !! 8192) with (Some sample_leaf) in Hs.
  unfold trunk_node_deserialize. rewrite run_get, (run_opt _ _ _ _ Hs), run_put. generalize (default false (head (ts_misses s))). generalize (with_misses (tail (ts_misses s)) s).
  intros s1 miss Hrun. assert (pivots n !! 0%nat = Some (mk_trunk_pivot TRUNK_STATS_ZERO TRUNK_STATS_ZERO 0 0 false NEGATIVE_INFINITY_KEY) ∧ pivot_bundles n = [bundle_init]) as [Hp Hb]
    by (destruct miss; cbn in Hrun; injection Hrun as <- _; done).
  intros i pvt b Hi Hbi _. rewrite Hb in Hbi. destruct i as [|i]; [|done]. injection Hbi as <-. rewrite Hp in Hi. by injection Hi as <-.
Qed.
Lemma compaction_keeps_lookups_witness : ∃ n r s1,
  (∀ fuel, (n ≤ fuel)%nat → trunk_apply_changes sample_trunk NEGATIVE_INFINITY_KEY POSITIVE_INFINITY_KEY 0 (trunk_apply_changes_maplet_compaction sample_trunk sample_args) fuel leaf_trunk = Ret (r, s1)) ∧
  trunk_ok sample_trunk s1.
Proof.
  destruct (@compaction_keeps_lookups sample_trunk sample_order sample_config ∅ (Z → tree_state Z) sample_branches sample_inv sample_map sample_valid sample_laws
    sample_args 0 leaf_trunk (mk_node_ref NEGATIVE_INFINITY_KEY 8192) (λ _, [4096]) sample_config_ok leaf_trunk_ok eq_refl) as (n & r & s1 & Hrun & HQ).
  - apply leaf_trunk_root. split; [by constructor|by intros []].
  - exact sample_args_ok.
  - by apply sample_matches.
  - apply sample_matches. split; [cbn; lia|exact bundle_pred_init].
  - exists sample_leaf. split; [done|cbn; lia].
  - exists n, r, s1. split; [exact Hrun|]. destruct r; apply HQ.
Defined.
(** A compaction that takes off more than the pivot counts fails an assertion. *)
Example compaction_of_too_many :
  trunk_apply_changes sample_trunk NEGATIVE_INFINITY_KEY POSITIVE_INFINITY_KEY 0 (trunk_apply_changes_maplet_compaction sample_trunk
    (mk_apply_args NEGATIVE_INFINITY_KEY POSITIVE_INFINITY_KEY NULL_ROUTING_FILTER [[4096]] 1 NULL_ROUTING_FILTER [] (mk_trunk_pivot_stats 8 1))) 5 leaf_trunk = Assert.
Proof. vm_compute. reflexivity. Qed.
(** It is found; and with a node above the leaf, whose pivot has a compaction count of 5,
    that count is lost. *)
Definition two_levels : trunk_state := with_nodes
  {[8192 := sample_leaf; 12288 := mk_trunk_ondisk_node 1 [mk_trunk_ondisk_pivot TRUNK_STATS_ZERO (8192 + 5) 0 NEGATIVE_INFINITY_KEY (Some bundle_init); mk_trunk_ondisk_pivot TRUNK_STATS_ZERO 0 0 POSITIVE_INFINITY_KEY None] []]}
  (with_roots (Some (mk_node_ref NEGATIVE_INFINITY_KEY 12288)) None None leaf_trunk).
Example compaction_clears_count :
  match trunk_apply_changes sample_trunk NEGATIVE_INFINITY_KEY POSITIVE_INFINITY_KEY 0 (trunk_apply_changes_maplet_compaction sample_trunk sample_args) 5 two_levels with
  | Ret (inr found, s1) => Some (found, (λ r, (λ od, (λ p, Z.land (od_child_addr p) TRUNK_PIVOT_CC_MASK) <$> od_pivots od) <$> ts_nodes s1 !! ref_addr r) <$> ts_root s1)
  | _ => None
  end = Some (true, Some (Some [0; 0])).
Proof. vm_compute. reflexivity. Qed.
End sample.
